(* ===== verification/_CoqProject ===== *)
-Q . S2P
Prelude.v
State.v
Defs.v
SpaList.v
WorkQueue.v
Map.v
Ringbuffer.v
Mem.v
Transport.v
Loop.v
Pod.v
PodUtils.v
PodTheory.v
Connection.v
Dispatch.v
Protocol.v
Remap.v
Interfaces.v
TypeMap.v
Endpoint.v
ProtocolClient.v
ProtocolServer.v
ProtocolTheory.v
ProtocolRemap.v
Session.v
Props.v
PropsTheory.v
Buffers.v
Graph.v
Negotiate.v
Topology.v
Formats.v
LinkLife.v
GraphLogic.v
GraphTheory.v
Properties.v
Introspect.v
Core.v
Context.v
Registry.v
RegistryLogic.v
RegistryServer.v
RegistryCalls.v
RegistryLife.v
RegistryTheory.v
NodeEvents.v
Stream.v
StreamTheory.v
StreamRequests.v
StreamStories.v
ClientNode.v
ClientNodeTheory.v
Exchange.v
Streaming.v
Serving.v
Pipeline.v
PipelineStories.v
Element.v
ElementTheory.v
TestSource.v
SourceTheory.v
Draw.v
VideoTestSrc.v
VideoTheory.v
AudioMixer.v
MixerTheory.v
Float.v
AudioTestSrc.v
AudioTheory.v
Volume.v
VolumeTheory.v
LoopSources.v
LoopSourcesTheory.v
TimerLoop.v
GraphLog.v
SuspendOnIdle.v
SuspendTheory.v
MainLoops.v
Config.v
