(* ===== verification/Prelude.v ===== *)
(** * Pinos: the server, its clients, and what lies between them

    Pinos is a server for media streams. Programs connect to it over a socket; elements
    (cameras, sound cards, the clients' own nodes) are nodes with ports, joined by links
    that negotiate a format, share buffers and stream. This library is a model of that
    program, taken function by function from the C sources under [src/pinos] and
    [src/spa], with the theorems that make it correct. Definitions have the names of the
    C functions they translate; PROJECT.json maps each to its lines.

    ** The parts, from the bottom up

    - Foundations. Prelude (outcomes of C code, machine integers, bytes, memory), State
      (computations on a state that can fail, with a partial and a total logic), Defs
      ([spa/include/spa/defs.h]).
    - Data structures. SpaList (intrusive lists, [list.h]), Map (arrays and id maps,
      [array.h], [map.h]), Ringbuffer ([ringbuffer.h]), WorkQueue ([work-queue.c]),
      Properties ([properties.c], [dict.h]).
    - The data format. Pod (types and builder, [pod.h], [pod-builder.h]), PodUtils
      (iterator, collection, [pod-iter.h], [pod-utils.h]), PodTheory; Props and
      PropsTheory (filtering the properties of formats, [props.c]).
    - Type ids. Remap (translating the ids of a message in place, [type.c]), TypeMap (both
      mappers, and the tables of a peer's types).
    - Sockets. Connection (framing and descriptors, [connection.c]), Dispatch (the wakeups
      of server and client, [module-protocol-native.c], [context.c]).
    - The protocol. Interfaces (methods, events and what they carry), Protocol and Endpoint
      (what both ends share), ProtocolClient and ProtocolServer (every marshal and demarshal
      function of the two [protocol-native.c]), ProtocolTheory and ProtocolRemap (what one
      end sends is what the other end calls), Session (a whole session, calls to calls).
    - Shared memory. Mem ([mem.c]), Transport (the block a client node shares with the
      server, [transport.c]), Loop (the invoke queue between threads, [loop.c]).
    - The media graph. Graph (nodes, ports, links and the two loops), Buffers (the layout of
      a link's buffers), Negotiate ([link.c]), Topology ([node.c], [port.c]), Formats
      ([pinos_core_find_format]), LinkLife, GraphLogic and GraphTheory.
    - Who sees what. Core (globals, registries, clients and their resources; [core.c],
      [client.c], [resource.c]), Context (the client's proxies; [context.c], [proxy.c]),
      Introspect (the client's copies of what is published; [introspect.c]), Registry
      (server and clients together, with what can happen as steps), RegistryLogic (the
      invariant), RegistryServer, RegistryCalls and RegistryLife (the server's operations
      keep it) and RegistryTheory (the contexts keep it, and the theorem).
    - Streams. NodeEvents (events of nodes and the IO areas of ports; [event-node.h],
      [command-node.h], [transport.h], [node.h]), Stream (the application's end,
      [client/stream.c]), StreamTheory and StreamRequests (its buffers; its answers),
      ClientNode and ClientNodeTheory (the server's end, [client-node.c]), Exchange (the
      memory they share), Streaming and Serving (what either end does to it), Pipeline
      (both ends together); StreamStories and PipelineStories (concrete runs).
    - Media elements, the plugins under [spa/plugins] whose work is their own code. Element
      and ElementTheory (what they share: the macros of [node.h], formats and their
      enumeration, buffers in the memory of the process, the pool of a port); TestSource and
      SourceTheory (the skeleton both test sources have: timer, start and pause, buffers out
      and back); Draw ([videotestsrc/draw.c]), VideoTestSrc ([videotestsrc.c]), VideoTheory;
      AudioMixer ([audiomixer.c], [mix-ops.c]), MixerTheory; Float (the two formats of IEEE
      754 numbers), AudioTestSrc ([audiotestsrc.c], [audiotestsrc/render.c]), AudioTheory;
      Volume ([volume.c]), VolumeTheory. The theories end with concrete runs.
    - Loops and threads. LoopSources and LoopSourcesTheory (the sources of a loop and one
      turn of it, the other half of [loop.c]), TimerLoop (what a loop gives to users of
      timers, an interface that the sources implement), MainLoops (a loop in a thread of
      its own, with a lock and conditions, [thread-mainloop.c]).
    - Modules and the daemon. SuspendOnIdle and SuspendTheory
      ([module-suspend-on-idle.c], and the server with it: GraphLog says that what the
      graph signalled stays signalled), Config (strings, commands, configuration files,
      looking for modules; [utils.c], [command.c], [daemon-config.c], [module.c]).

    ** How state is modelled

    What C leaves undefined is the value [Undef]; an error return of a demarshaller is
    [Refuse]; a theorem that says [Done] says that no access was out of bounds, no freed
    object was used, no NULL followed. Objects with shared ownership live in stores,
    finite maps by address, and handlers are computations of type [ST]; buffers are lists
    of bytes; integers are [Z] with their wrap-around written out where the width matters.
    Functions given to [pinos_loop_invoke] wait as closures in the queue of the loop they
    are for, and each turn of a loop is an atomic step; the rings, where two threads
    really interleave, are modelled one atomic access at a time.

    What is outside [src] is a parameter: whether an allocation is granted, what the kernel
    answers, what the bytes of fresh memory are ([Heap]), what a media element answers to
    the server ([SpaNode]), the clock, the timers, [sin] and [rand] that elements use, what
    [epoll] returns ([Files]), the directories and the dynamic loader. A theorem whose
    hypotheses restrict such a parameter has a witness at a concrete one.

    ** Fuel

    Loops of the C code that are not structural take fuel, and each has a theorem that the
    fuel is enough: the growth loop of an array (64 doublings reach any size),
    the read loop of a connection and the dispatchers (the bytes to come), the work queue
    (a measure of its items), the pod and property loops (the bytes of the value), the
    merge of properties (the number of items), the event loops of a transport (513: each
    event takes at least 16 of the 4096 bytes), the enumeration of an element's formats
    (2 turns: it has one), the search for a common format (the number of the input's formats
    and two more), the volume loop (each turn uses up a block of one of the two
    buffers), splitting a string and reading a file (their bytes). Calls of the application from inside a
    signal may signal again, up to a depth that is an argument of the theorems; work functions
    may add work, up to a number that is in their state. Where the C loop really does not end
    ([array.h] with extend 0, a peer that closes inside a message, an input port that fails to
    say what formats it has) that is a theorem too.

    ** What the theorems show

    - End to end: calls and events arrive, in order, as the same calls and events
      (client_session, the roundtrips), however the stream is cut
      (connection_delivery) and whatever else is in it (connection_data_serves).
    - Refinement: lists, maps, rings, work queues, transports, type maps, translation and
      filtering (props_filter_intersects) implement what they are an implementation of. Where
      the code falls short of that the theorem is about the whole of it and says how: the id
      map's answer for one removed id (map_refines_spec), two ranges that do not meet, the
      upper half of a long (pod_struct_roundtrip), the type whose local id is 0
      (announced_types_agree), properties that were removed (properties_follow), the second
      half of a block mapped twice (memblock_balanced).
    - Server and clients: whatever happens and however messages interleave, the ids both
      sides give to proxies and resources agree, and what is on its way finds what it is
      for (ids_agree); a client's copies follow what is published, but for the numbers of ports
      of a node (copy_follows).
    - The graph: its invariants in every reachable state (graph_states, link_references),
      and that a link between elements that cooperate comes to stream when neither of its
      ports has a format, and stalls when its output has one (link_comes_to_life).
    - Streams: every request is answered once, in order (requests_answered); the free list
      is exact in every run that is not undefined (free_list_exact); and with the client node at the other end every buffer in
      use is in exactly one place as long as the client keeps up (buffers_accounted).
    - Media elements: a pattern is drawn exactly and inside the buffer (draw_exact); the
      frames of the video source carry the times they are due (video_frames_on_time) and no
      calls, in any order, lose a buffer or touch memory that is not the source's
      (video_source_safe); the mixer's output is what its ports have, added in their order and
      clamped after each addition (mix_output_exact); the wave of the audio source goes on
      where the last buffer without a ring ended (audio_wave_goes_on); the volume element scales
      every word it can, taken as unsigned (volume_scales).
    - Loops, threads, modules: a turn of a loop calls what is ready and nothing that is gone
      (loop_turn_calls_ready); threads touch what they share with the lock only and no
      signal is lost (thread_main_loop_safe); idle nodes, and only they, are suspended
      (idle_nodes_suspend); a configuration loads the modules it names (config_loads).
    - Bounds and errors: layouts stay inside their blocks; where the code does overrun, or
      loses data, the theorem says exactly when. What was found is listed in PROJECT.json.

    ** Not modelled

    The data path through several nodes ([do_pull] and what calls it; of one link only what
    the client node sees of it, in Serving); the module that links automatically, which
    calls the graph from inside its signals; the realtime thread of [data-loop.c]. Elements for hardware and for libraries whose
    code is not here (ALSA, V4L2, VA-API, FFmpeg, Xv), GStreamer elements, D-Bus: what they
    do is in the answers of those libraries. Tools, tests, logging, debug output. *)
From Stdlib Require Export ZArith Lia Bool.
From stdpp Require Export prelude.

#[global] Open Scope Z_scope.
#[export] Set Default Goal Selector "!".

(** ** Outcomes of C code

    [Done a] is a normal return, [Refuse] is the error return the code itself
    produces (a demarshaller returning [false]), [Undef] is behaviour the C
    language leaves undefined: a read or a write outside the object. *)
Inductive outcome (A : Type) : Type :=
| Done (a : A)
| Refuse
| Undef.
Arguments Done {A} a.
Arguments Refuse {A}.
Arguments Undef {A}.

Definition obind {A B} (m : outcome A) (f : A -> outcome B) : outcome B :=
  match m with
  | Done a => f a
  | Refuse => Refuse
  | Undef => Undef
  end.

Definition of_option {A} (o : option A) : outcome A :=
  match o with
  | Some a => Done a
  | None => Undef
  end.

Definition require (b : bool) : outcome unit := if b then Done tt else Refuse.

Declare Scope outcome_scope.
Delimit Scope outcome_scope with outcome.
Notation "'let*' x ':=' m 'in' k" := (obind m (fun x => k))
  (at level 10, x pattern, m at level 200, k at level 200) : outcome_scope.
#[global] Open Scope outcome_scope.

Lemma obind_Done {A B} (m : outcome A) (f : A -> outcome B) (b : B) :
  obind m f = Done b <-> exists a, m = Done a /\ f a = Done b.
Proof.
  destruct m; simpl; split; intros H; [eauto | | | | |];
    try destruct H as (? & ? & ?); congruence.
Qed.

(** ** Lengths and machine integers *)

Definition zlen {A} (l : list A) : Z := Z.of_nat (length l).

Definition u8 (z : Z) : Z := z mod 2 ^ 8.
Definition u32 (z : Z) : Z := z mod 2 ^ 32.
Definition u64 (z : Z) : Z := z mod 2 ^ 64.
Definition i32 (z : Z) : Z := (z + 2 ^ 31) mod 2 ^ 32 - 2 ^ 31.
Definition i64 (z : Z) : Z := (z + 2 ^ 63) mod 2 ^ 64 - 2 ^ 63.

Definition is_u32 (z : Z) : Prop := 0 <= z < 2 ^ 32.
Definition is_u64 (z : Z) : Prop := 0 <= z < 2 ^ 64.

Abbreviation bytes := (list Z).
Definition is_byte (b : Z) : Prop := 0 <= b < 256.
Definition is_bytes (bs : bytes) : Prop := Forall is_byte bs.

(** A C string: no NUL inside; the terminator is added when it is stored. *)
Definition is_cstr (s : bytes) : Prop := Forall (fun b => 0 < b < 256) s.

Create HintDb pinos.
Create Rewrite HintDb zlen.

Lemma zlen_nil {A} : zlen (@nil A) = 0.
Proof. done. Qed.
Lemma zlen_cons {A} (x : A) l : zlen (x :: l) = 1 + zlen l.
Proof. unfold zlen; simpl length; lia. Qed.
Lemma zlen_app {A} (a b : list A) : zlen (a ++ b) = zlen a + zlen b.
Proof. unfold zlen; rewrite length_app; lia. Qed.
Lemma zlen_nonneg {A} (l : list A) : 0 <= zlen l.
Proof. unfold zlen; lia. Qed.
Lemma zlen_replicate {A} n (x : A) : zlen (replicate n x) = Z.of_nat n.
Proof. unfold zlen; rewrite length_replicate; lia. Qed.
Lemma zlen_map {A B} (f : A -> B) l : zlen (map f l) = zlen l.
Proof. unfold zlen; rewrite length_map; lia. Qed.
Lemma zlen_fmap {A B} (f : A -> B) (l : list A) : zlen (f <$> l) = zlen l.
Proof. unfold zlen; rewrite length_fmap; lia. Qed.
Lemma zlen_insert {A} i (x : A) (l : list A) : zlen (<[i:=x]> l) = zlen l.
Proof. unfold zlen; rewrite length_insert; lia. Qed.
Lemma zlen_take {A} n (l : list A) : zlen (take n l) = Z.min (Z.of_nat n) (zlen l).
Proof. unfold zlen; rewrite length_take; lia. Qed.
Lemma zlen_drop {A} n (l : list A) : zlen (drop n l) = Z.max 0 (zlen l - Z.of_nat n).
Proof. unfold zlen; rewrite length_drop; lia. Qed.
Lemma to_nat_zlen {A} (l : list A) : Z.to_nat (zlen l) = length l.
Proof. unfold zlen; lia. Qed.

#[export] Hint Rewrite @zlen_nil @zlen_cons @zlen_app @zlen_replicate @zlen_map
  @zlen_fmap @zlen_insert @zlen_take @zlen_drop : zlen.
#[export] Hint Resolve zlen_nonneg : pinos.

(** [zlia]: push [zlen] inwards, add the non-negativity of every length, [lia]. *)
Ltac zlen_pose :=
  repeat match goal with
  | |- context [zlen ?l] =>
      lazymatch goal with
      | H : 0 <= zlen l |- _ => fail
      | _ => pose proof (zlen_nonneg l)
      end
  | H0 : context [zlen ?l] |- _ =>
      lazymatch goal with
      | H : 0 <= zlen l |- _ => fail
      | _ => pose proof (zlen_nonneg l)
      end
  end.
Ltac zlia := autorewrite with zlen in *; zlen_pose; lia.

(** Turn boolean tests in the context and goal into propositions. *)
Ltac bool_to_prop :=
  repeat match goal with
  | H : andb _ _ = true |- _ => apply andb_true_iff in H as [? ?]
  | H : orb _ _ = false |- _ => apply orb_false_iff in H as [? ?]
  | H : negb _ = true |- _ => apply negb_true_iff in H
  | H : negb _ = false |- _ => apply negb_false_iff in H
  | H : (_ =? _) = true |- _ => apply Z.eqb_eq in H
  | H : (_ =? _) = false |- _ => apply Z.eqb_neq in H
  | H : (_ <? _) = true |- _ => apply Z.ltb_lt in H
  | H : (_ <? _) = false |- _ => apply Z.ltb_ge in H
  | H : (_ <=? _) = true |- _ => apply Z.leb_le in H
  | H : (_ <=? _) = false |- _ => apply Z.leb_gt in H
  end.

(** Split on the scrutinee of the first conditional of the goal, keeping the equation. *)
Ltac case_if :=
  match goal with
  | |- context [if ?b then _ else _] => destruct b eqn:?
  end; bool_to_prop.

(** ** Little-endian integers in memory *)

Fixpoint le (n : nat) (z : Z) : bytes :=
  match n with
  | O => []
  | S n' => z mod 256 :: le n' (z / 256)
  end.

Fixpoint unle (bs : bytes) : Z :=
  match bs with
  | [] => 0
  | b :: r => b + 256 * unle r
  end.

Definition le32 (z : Z) : bytes := le 4 z.
Definition le64 (z : Z) : bytes := le 8 z.

Lemma le_length n z : length (le n z) = n.
Proof. revert z; induction n; intros; simpl; [done | by rewrite IHn]. Qed.

Lemma zlen_le n z : zlen (le n z) = Z.of_nat n.
Proof. unfold zlen; by rewrite le_length. Qed.
Lemma zlen_le32 z : zlen (le32 z) = 4.
Proof. apply zlen_le. Qed.
Lemma zlen_le64 z : zlen (le64 z) = 8.
Proof. apply zlen_le. Qed.
#[export] Hint Rewrite zlen_le zlen_le32 zlen_le64 : zlen.

Lemma le_bytes n z : is_bytes (le n z).
Proof.
  revert z; induction n; intros; simpl; constructor; [| apply IHn].
  unfold is_byte; pose proof (Z.mod_pos_bound z 256); lia.
Qed.

Lemma unle_le n z : unle (le n z) = z mod 256 ^ Z.of_nat n.
Proof.
  revert z; induction n as [|n IH]; intros z; simpl le; simpl unle.
  - by rewrite Z.mod_1_r.
  - rewrite IH, Nat2Z.inj_succ, Z.pow_succ_r by lia.
    rewrite Z.rem_mul_r by (try lia; apply Z.pow_pos_nonneg; lia). lia.
Qed.

Lemma unle_le32 z : unle (le32 z) = u32 z.
Proof. unfold le32; rewrite unle_le; done. Qed.
Lemma unle_le64 z : unle (le64 z) = u64 z.
Proof. unfold le64; rewrite unle_le; done. Qed.

Lemma unle_app a b : unle (a ++ b) = unle a + 256 ^ zlen a * unle b.
Proof.
  induction a as [|x a IH]; simpl; [unfold zlen; simpl; lia |].
  rewrite IH, zlen_cons, Z.pow_add_r by zlia. lia.
Qed.

Lemma unle_zeros n : unle (replicate n 0) = 0.
Proof. induction n; simpl; lia. Qed.

Lemma u32_small z : is_u32 z -> u32 z = z.
Proof. unfold is_u32, u32; intros; apply Z.mod_small; lia. Qed.
Lemma u32_bound z : is_u32 (u32 z).
Proof. unfold is_u32, u32; apply Z.mod_pos_bound; lia. Qed.
Lemma u64_small z : is_u64 z -> u64 z = z.
Proof. unfold is_u64, u64; intros; apply Z.mod_small; lia. Qed.
Lemma u64_bound z : is_u64 (u64 z).
Proof. unfold is_u64, u64; apply Z.mod_pos_bound; lia. Qed.
Lemma i32_small z : - 2 ^ 31 <= z < 2 ^ 31 -> i32 z = z.
Proof. unfold i32; intros; rewrite Z.mod_small; lia. Qed.
#[export] Hint Resolve u32_bound u64_bound : pinos.

Lemma le_mod n z : le n (z mod 256 ^ Z.of_nat n) = le n z.
Proof.
  revert z; induction n as [|n IH]; intros z; cbn [le]; [done |].
  assert (0 < 256 ^ Z.of_nat n) by (apply Z.pow_pos_nonneg; lia).
  rewrite Nat2Z.inj_succ, Z.pow_succ_r by lia. f_equal.
  - rewrite Z.rem_mul_r by lia. rewrite Z.mul_comm, Z.mod_add, Z.mod_mod by lia. done.
  - rewrite <- (IH (z / 256)). f_equal. rewrite Z.rem_mul_r by lia.
    rewrite Z.mul_comm, Z.div_add by lia. rewrite Z.div_small by (apply Z.mod_pos_bound; lia). done.
Qed.
Lemma le32_u32 z : le32 (u32 z) = le32 z.
Proof. exact (le_mod 4 z). Qed.

#[global] Opaque le32 le64.

(** ** Memory objects: bounded reads and writes *)

Definition in_range {A} (off len : Z) (m : list A) : bool :=
  (0 <=? off) && (0 <=? len) && (off + len <=? zlen m).

(** [memcpy (dst, m + off, len)] *)
Definition mread {A} (off len : Z) (m : list A) : option (list A) :=
  if in_range off len m then Some (take (Z.to_nat len) (drop (Z.to_nat off) m)) else None.

(** [memcpy (m + off, d, sizeof d)] *)
Definition mwrite {A} (off : Z) (d m : list A) : option (list A) :=
  if in_range off (zlen d) m
  then Some (take (Z.to_nat off) m ++ d ++ drop (Z.to_nat (off + zlen d)) m)
  else None.

(** [*(uint32_t * ) (m + off)] and [*(uint64_t * ) (m + off)] *)
Definition load32 (off : Z) (m : bytes) : option Z := unle <$> mread off 4 m.
Definition load64 (off : Z) (m : bytes) : option Z := unle <$> mread off 8 m.

Lemma mread_app {A} (a b c : list A) off len :
  off = zlen a -> len = zlen b -> mread off len (a ++ b ++ c) = Some b.
Proof.
  intros -> ->. unfold mread, in_range.
  replace (_ && _) with true by (symmetry; rewrite !andb_true_iff, !Z.leb_le; zlia).
  f_equal. rewrite !to_nat_zlen, drop_app_length, take_app_length. done.
Qed.

Lemma mwrite_app {A} (a b c d : list A) off :
  off = zlen a -> zlen d = zlen b -> mwrite off d (a ++ b ++ c) = Some (a ++ d ++ c).
Proof.
  intros -> Hd. unfold mwrite, in_range.
  replace (_ && _) with true by (symmetry; rewrite !andb_true_iff, !Z.leb_le; zlia).
  f_equal. rewrite !to_nat_zlen, take_app_length. do 2 f_equal.
  rewrite app_assoc. replace (Z.to_nat (zlen a + zlen d)) with (length (a ++ b)).
  - apply drop_app_length.
  - rewrite length_app. unfold zlen in *. lia.
Qed.

Lemma mwrite_length {A} off (d m m' : list A) : mwrite off d m = Some m' -> zlen m' = zlen m.
Proof.
  unfold mwrite, in_range. case_if; [| done]. intros [= <-]. zlia.
Qed.

(** Element-wise view of a bounded write and of a bounded read. *)
Lemma mwrite_lookup {A} off (d m m' : list A) p :
  mwrite off d m = Some m' -> 0 <= p ->
  m' !! Z.to_nat p =
    if (off <=? p) && (p <? off + zlen d) then d !! Z.to_nat (p - off) else m !! Z.to_nat p.
Proof.
  unfold mwrite, in_range. case_if; [| done]. intros [= <-] Hp. unfold zlen in *.
  destruct (decide (p < off)).
  - rewrite lookup_app_l by (rewrite length_take; lia). rewrite lookup_take_lt by lia. case_if; [lia | done].
  - rewrite lookup_app_r by (rewrite length_take; lia). rewrite length_take.
    replace (Z.to_nat p - _ `min` _)%nat with (Z.to_nat (p - off)) by lia.
    destruct (decide (p < off + Z.of_nat (length d))).
    + rewrite lookup_app_l by lia. case_if; [done | apply andb_false_iff in Heqb as []; bool_to_prop; lia].
    + rewrite lookup_app_r, lookup_drop by lia. case_if; [lia |]. f_equal. lia.
Qed.

Lemma mread_lookup {A} off len (m d : list A) i :
  mread off len m = Some d -> 0 <= i < len -> d !! Z.to_nat i = m !! Z.to_nat (off + i).
Proof.
  unfold mread, in_range. case_if; [| done]. intros [= <-] Hi.
  rewrite lookup_take_lt, lookup_drop by lia. f_equal. lia.
Qed.

Lemma mread_length {A} off len (m d : list A) : mread off len m = Some d -> zlen d = len.
Proof. unfold mread, in_range. case_if; [| done]. intros [= <-]. zlia. Qed.

Lemma mread_defined {A} off len (m : list A) :
  0 <= off -> 0 <= len -> off + len <= zlen m -> exists d, mread off len m = Some d.
Proof.
  intros. unfold mread, in_range. replace (_ && _) with true; [by eexists |].
  symmetry. rewrite !andb_true_iff, !Z.leb_le. lia.
Qed.

Lemma mwrite_defined {A} off (d m : list A) :
  0 <= off -> off + zlen d <= zlen m -> exists m', mwrite off d m = Some m'.
Proof.
  intros. pose proof (zlen_nonneg d). unfold mwrite, in_range. replace (_ && _) with true; [by eexists |].
  symmetry. rewrite !andb_true_iff, !Z.leb_le. lia.
Qed.

(** Lists of equal length that agree at every index. *)
Lemma list_eq_Z {A} (l k : list A) :
  zlen l = zlen k -> (forall i, 0 <= i < zlen l -> l !! Z.to_nat i = k !! Z.to_nat i) -> l = k.
Proof.
  intros Hlen Hi. apply list_eq_same_length with (n := length l); [unfold zlen in *; lia | done |].
  intros i x y Hlt Hx Hy. specialize (Hi (Z.of_nat i)). rewrite Nat2Z.id in Hi.
  rewrite Hi in Hx by (unfold zlen; lia). congruence.
Qed.

(** A readable window is a split of the object. *)
Lemma mread_Some {A} off len (m d : list A) :
  mread off len m = Some d <->
  exists a c, m = a ++ d ++ c /\ zlen a = off /\ zlen d = len.
Proof.
  split.
  - unfold mread, in_range. case_if; [| done]. intros [= <-].
    exists (take (Z.to_nat off) m), (drop (Z.to_nat (off + len)) m). split_and!; [| zlia | zlia].
    rewrite Z2Nat.inj_add by lia. rewrite <- drop_drop, !take_drop. done.
  - intros (a & c & -> & <- & <-). by apply mread_app.
Qed.

Lemma load32_app a z c off : off = zlen a -> load32 off (a ++ le32 z ++ c) = Some (u32 z).
Proof. intros ->. unfold load32. rewrite mread_app by zlia. cbn. by rewrite <- unle_le32. Qed.

Lemma load64_app a z c off : off = zlen a -> load64 off (a ++ le64 z ++ c) = Some (u64 z).
Proof. intros ->. unfold load64. rewrite mread_app by zlia. cbn. by rewrite <- unle_le64. Qed.

Lemma mread_app_l {A} off len (m d x : list A) : mread off len m = Some d -> mread off len (m ++ x) = Some d.
Proof.
  intros (a & c & -> & Ha & Hd)%mread_Some. apply mread_Some. exists a, (c ++ x). by rewrite <- !app_assoc.
Qed.
Lemma load32_app_l off m x v : load32 off m = Some v -> load32 off (m ++ x) = Some v.
Proof. unfold load32. intros (d & Hd & ->)%fmap_Some. by rewrite (mread_app_l _ _ _ _ _ Hd). Qed.
Lemma load64_app_l off m x v : load64 off m = Some v -> load64 off (m ++ x) = Some v.
Proof. unfold load64. intros (d & Hd & ->)%fmap_Some. by rewrite (mread_app_l _ _ _ _ _ Hd). Qed.

Lemma mwrite_app_l {A} off (d m m' x : list A) : mwrite off d m = Some m' -> mwrite off d (m ++ x) = Some (m' ++ x).
Proof.
  unfold mwrite, in_range. rewrite zlen_app. pose proof (zlen_nonneg x). case_if; [| done]. intros [= <-].
  replace (_ && _) with true by (symmetry; rewrite !andb_true_iff, !Z.leb_le; lia).
  f_equal. rewrite take_app_le, drop_app_le by (unfold zlen in *; lia). by rewrite <- !app_assoc.
Qed.

(** The first [n] elements and the rest. *)
Lemma split_block {A} n (l : list A) : 0 <= n <= zlen l -> exists a b, l = a ++ b /\ zlen a = n /\ zlen b = zlen l - n.
Proof.
  intros Hn. exists (take (Z.to_nat n) l), (drop (Z.to_nat n) l). rewrite take_drop. split_and!; [done | zlia | zlia].
Qed.

(** ** Generic list facts *)

(** [strcmp (a, b) == 0] *)
Definition streq (a b : bytes) : bool := bool_decide (a = b).

Lemma streq_true a b : streq a b = true <-> a = b.
Proof. unfold streq. apply bool_decide_eq_true. Qed.
Lemma streq_refl a : streq a a = true.
Proof. by apply streq_true. Qed.
Lemma streq_false a b : streq a b = false <-> a <> b.
Proof. unfold streq. apply bool_decide_eq_false. Qed.

(** The index of the first element satisfying a test: the linear scan the code writes out. *)
Fixpoint index_of {A} (p : A -> bool) (l : list A) : option nat :=
  match l with
  | [] => None
  | x :: r => if p x then Some 0%nat else S <$> index_of p r
  end.

Lemma index_of_Some {A} (p : A -> bool) (l : list A) i :
  index_of p l = Some i <->
  (exists x, l !! i = Some x /\ p x = true) /\
  (forall j y, (j < i)%nat -> l !! j = Some y -> p y = false).
Proof.
  revert i; induction l as [|x l IH]; intros i; simpl.
  - split; [done | intros [(? & ? & ?) _]; done].
  - destruct (p x) eqn:Hp.
    + split.
      * intros [= <-]. split; [by exists x | lia].
      * intros [_ Hmin]. destruct i; [done |]. specialize (Hmin 0%nat x ltac:(lia) eq_refl). congruence.
    + split.
      * rewrite fmap_Some. intros (k & Hk & ->). apply IH in Hk as [Hx Hmin]. split; [done |].
        intros [|j] y Hj; simpl; [congruence | apply Hmin; lia].
      * intros [(y & Hy & Hpy) Hmin]. destruct i as [|i]; [simpl in Hy; congruence |].
        apply fmap_Some. exists i. split; [apply IH; split; [by exists y |] | done].
        intros j z Hj. apply (Hmin (S j) z). lia.
Qed.

Lemma index_of_None {A} (p : A -> bool) (l : list A) :
  index_of p l = None <-> Forall (fun x => p x = false) l.
Proof.
  induction l as [|x l IH]; simpl; [split; [constructor | done] |].
  rewrite List.Forall_cons_iff. destruct (p x) eqn:Hp; [split; [done | by intros [? _]] |].
  rewrite fmap_None. rewrite IH. split; [by split | by intros [_ ?]].
Qed.

Lemma index_of_lt {A} (p : A -> bool) (l : list A) i : index_of p l = Some i -> (i < length l)%nat.
Proof. intros [(x & Hx & _) _]%index_of_Some. by eapply lookup_lt_Some. Qed.

(** A prefix of one side of an equation of lists is a prefix of the other. *)
Lemma app_prefix {A} (a b c d : list A) :
  a ++ b = c ++ d -> zlen c <= zlen a -> exists a', a = c ++ a' /\ d = a' ++ b.
Proof.
  intros Heq Hlen. exists (drop (length c) a).
  assert (take (length c) a = c) as Ht.
  { apply (f_equal (take (length c))) in Heq. rewrite take_app_length in Heq.
    rewrite take_app_le in Heq by (unfold zlen in *; lia). done. }
  split; [by rewrite <- Ht at 1; rewrite take_drop |].
  apply (f_equal (drop (length c))) in Heq. rewrite drop_app_length in Heq.
  rewrite drop_app_le in Heq by (unfold zlen in *; lia). done.
Qed.

Lemma drop_zlen_app {A} (a b : list A) n : n = zlen a -> drop (Z.to_nat n) (a ++ b) = b.
Proof. intros ->. rewrite to_nat_zlen. apply drop_app_length. Qed.
Lemma take_zlen_app {A} (a b : list A) n : n = zlen a -> take (Z.to_nat n) (a ++ b) = a.
Proof. intros ->. rewrite to_nat_zlen. apply take_app_length. Qed.

(** ** Fresh memory

    What [malloc] and [realloc] leave in bytes nobody wrote yet. *)
Class Heap := {
  fresh : Z -> bytes;
  fresh_len n : 0 <= n -> zlen (fresh n) = n
}.

(** The heap whose fresh bytes are all zero. *)
#[export] Program Instance zero_heap : Heap | 100 := {| fresh n := replicate (Z.to_nat n) 0 |}.
Next Obligation. intros n Hn. simpl. unfold zlen. rewrite length_replicate. lia. Qed.
