(* ===== verification/State.v ===== *)
(** Computations on a state that can fail: the monad of the stateful components, and
    two logics for it. [hoare] is partial: it speaks of the runs that return;
    [runs] is total: the computation returns. *)
From S2P Require Import Prelude.

(** ** The monad *)

Definition ST (σ A : Type) : Type := σ -> outcome (A * σ).

Definition ret {σ A} (a : A) : ST σ A := fun g => Done (a, g).
Definition bind {σ A B} (m : ST σ A) (f : A -> ST σ B) : ST σ B := fun g => let* (a, g) := m g in f a g.
Definition undef {σ A} : ST σ A := fun _ => Undef.
Definition lift {σ A} (o : outcome A) : ST σ A := fun g => let* a := o in Done (a, g).
Definition gets {σ A} (f : σ -> A) : ST σ A := fun g => Done (f g, g).
Definition modify {σ} (f : σ -> σ) : ST σ unit := fun g => Done (tt, f g).

Declare Scope state_scope.
Delimit Scope state_scope with state.
Notation "x <- m ;; k" := (bind m (fun x => k))
  (at level 100, m at next level, right associativity) : state_scope.
Notation "' pat <- m ;; k" := (bind m (fun x => match x with pat => k end))
  (at level 100, pat pattern, m at next level, right associativity) : state_scope.
Notation "m ;;; k" := (bind m (fun _ => k)) (at level 100, right associativity) : state_scope.
#[global] Open Scope state_scope.

Definition when {σ} (b : bool) (m : ST σ unit) : ST σ unit := if b then m else ret tt.

Fixpoint each {σ A} (l : list A) (f : A -> ST σ unit) : ST σ unit :=
  match l with
  | [] => ret tt
  | x :: l => f x ;;; each l f
  end.

Section Logic.
Context {σ : Type}.

Lemma bind_assoc {A B C} (m : ST σ A) (f : A -> ST σ B) (k : B -> ST σ C) g :
  bind (bind m f) k g = bind m (fun a => bind (f a) k) g.
Proof. unfold bind. by destruct (m g) as [[a g1] | |]. Qed.

(** ** What holds when it returns *)

Definition hoare {A} (P : σ -> Prop) (m : ST σ A) (Q : A -> σ -> Prop) : Prop :=
  forall g a g', P g -> m g = Done (a, g') -> Q a g'.
(** It keeps an invariant, and its result is such. *)
Definition preserves {A} (I : σ -> Prop) (m : ST σ A) : Prop := hoare I m (fun _ => I).
Definition yields {A} (I : σ -> Prop) (m : ST σ A) (R : A -> Prop) : Prop := hoare I m (fun a g => I g /\ R a).

Lemma hoare_ret {A} (P : σ -> Prop) (a : A) : hoare P (ret a) (fun _ => P).
Proof. intros g a' g' Hg [= <- <-]. done. Qed.
Lemma hoare_bind {A B} P (m : ST σ A) Q (f : A -> ST σ B) R :
  hoare P m Q -> (forall a, hoare (Q a) (f a) R) -> hoare P (bind m f) R.
Proof.
  intros Hm Hf g b g' Hg. unfold bind. destruct (m g) as [[a g1] | |] eqn:Heq; [| done..]. intros Hrun.
  eapply Hf; [eapply Hm; done | exact Hrun].
Qed.
Lemma hoare_weaken {A} P (m : ST σ A) (Q R : A -> σ -> Prop) : hoare P m Q -> (forall a g, Q a g -> R a g) -> hoare P m R.
Proof. intros Hm HQ g a g' Hg Hrun. by eapply HQ, Hm. Qed.
Lemma hoare_assoc {A B C} P (m : ST σ A) (f : A -> ST σ B) (k : B -> ST σ C) Q :
  hoare P (bind (bind m f) k) Q -> hoare P (bind m (fun a => bind (f a) k)) Q.
Proof. intros Hh g c g' Hg. rewrite <- bind_assoc. by apply Hh. Qed.

Section Invariant.
Context (I : σ -> Prop).

Lemma preserves_ret {A} (a : A) : preserves I (ret a).
Proof. apply hoare_ret. Qed.
Lemma preserves_undef {A} : preserves I (undef : ST σ A).
Proof. by intros g a g' _. Qed.
Lemma preserves_lift {A} (o : outcome A) : preserves I (lift o).
Proof. intros g a g' Hg. unfold lift. destruct o; [| done..]. by intros [= <- <-]. Qed.
Lemma preserves_gets {A} (f : σ -> A) : preserves I (gets f).
Proof. intros g a g' Hg [= <- <-]. exact Hg. Qed.
Lemma preserves_modify f : (forall g, I g -> I (f g)) -> preserves I (modify f).
Proof. intros Hf g [] g' Hg [= <-]. by apply Hf. Qed.
Lemma preserves_bind {A B} (m : ST σ A) (f : A -> ST σ B) : preserves I m -> (forall a, preserves I (f a)) -> preserves I (bind m f).
Proof. apply hoare_bind. Qed.
Lemma yields_bind {A B} (m : ST σ A) (f : A -> ST σ B) R :
  yields I m R -> (forall a, R a -> preserves I (f a)) -> preserves I (bind m f).
Proof. intros Hm Hf. eapply hoare_bind; [exact Hm |]. intros a g b g' [Hg Ha]. by apply Hf. Qed.
Lemma preserves_when b (m : ST σ unit) : (b = true -> preserves I m) -> preserves I (when b m).
Proof. destruct b; simpl; [auto | intros _; apply preserves_ret]. Qed.
Lemma preserves_each {A} (l : list A) (f : A -> ST σ unit) : (forall x, x ∈ l -> preserves I (f x)) -> preserves I (each l f).
Proof.
  induction l as [|x l IH]; intros Hf; simpl; [apply preserves_ret |].
  apply preserves_bind; [apply Hf; left | intros _]. apply IH. intros y Hy. apply Hf. by right.
Qed.

(** The same in front of a computation that does something else. *)
Lemma after_preserves {A B} (m : ST σ A) (f : A -> ST σ B) Q :
  preserves I m -> (forall a, hoare I (f a) Q) -> hoare I (bind m f) Q.
Proof. apply hoare_bind. Qed.
Lemma after_yields {A B} (m : ST σ A) (f : A -> ST σ B) R Q :
  yields I m R -> (forall a, R a -> hoare I (f a) Q) -> hoare I (bind m f) Q.
Proof. intros Hm Hf. eapply hoare_bind; [exact Hm |]. intros a g b g' [Hg Ha]. by apply Hf. Qed.

Lemma yields_preserves {A} (m : ST σ A) R : yields I m R -> preserves I m.
Proof. intros Hm. eapply hoare_weaken; [exact Hm |]. by intros a g [? _]. Qed.
Lemma yields_ret {A} (a : A) (R : A -> Prop) : R a -> yields I (ret a) R.
Proof. intros Ha g a' g' Hg [= <- <-]. done. Qed.
Lemma yields_undef {A} (R : A -> Prop) : yields I (undef : ST σ A) R.
Proof. by intros g a g' _. Qed.
Lemma yields_after {A B} (m : ST σ A) (f : A -> ST σ B) R :
  preserves I m -> (forall a, yields I (f a) R) -> yields I (bind m f) R.
Proof. intros Hm Hf. by eapply hoare_bind. Qed.
End Invariant.

(** ** It returns *)

Definition runs {A} (P : σ -> Prop) (m : ST σ A) (Q : A -> σ -> Prop) : Prop :=
  forall g, P g -> exists a g', m g = Done (a, g') /\ Q a g'.

Lemma runs_ret {A} P (a : A) Q : (forall g, P g -> Q a g) -> runs P (ret a) Q.
Proof. intros HQ g Hg. by exists a, g; split; [| apply HQ]. Qed.
Lemma runs_bind {A B} P (m : ST σ A) (f : A -> ST σ B) R Q : runs P m R -> (forall a, runs (R a) (f a) Q) -> runs P (bind m f) Q.
Proof.
  intros Hm Hf g Hg. destruct (Hm g Hg) as (a & g1 & Hrun & Ha). destruct (Hf a g1 Ha) as (b & g2 & Hrun2 & Hb).
  exists b, g2. split; [| exact Hb]. unfold bind. by rewrite Hrun.
Qed.
Lemma runs_weaken {A} P (m : ST σ A) Q R : runs P m Q -> (forall a g, Q a g -> R a g) -> runs P m R.
Proof. intros Hm HR g Hg. destruct (Hm g Hg) as (a & g' & Hrun & Ha). eauto. Qed.
Lemma runs_exists {A X} (P : X -> σ -> Prop) (m : ST σ A) Q : (forall x, runs (P x) m Q) -> runs (fun g => exists x, P x g) m Q.
Proof. intros Hm g [x Hg]. by apply (Hm x). Qed.
Lemma runs_pure {A} (b : Prop) P (m : ST σ A) Q : (b -> runs P m Q) -> runs (fun g => b /\ P g) m Q.
Proof. intros Hm g [Hb Hg]. by apply Hm. Qed.
Lemma runs_bind_to {A B} P (m : ST σ A) a (f : A -> ST σ B) R Q :
  runs P m (fun r g => r = a /\ R g) -> runs R (f a) Q -> runs P (bind m f) Q.
Proof. intros Hm Hf. eapply runs_bind; [exact Hm |]. intros r g [-> Hg]. by apply Hf. Qed.
Lemma runs_undo {A B C} P (m : ST σ A) (f : A -> ST σ C) (k : C -> ST σ B) Q :
  runs P (bind m (fun a => bind (f a) k)) Q -> runs P (bind (bind m f) k) Q.
Proof. intros Hm g Hg. rewrite bind_assoc. by apply Hm. Qed.
Lemma runs_tail {B} P (m : ST σ B) Q : runs P (bind m ret) Q -> runs P m Q.
Proof.
  intros Hm g Hg. destruct (Hm g Hg) as (b & g' & Hrun & Hb). exists b, g'. split; [| exact Hb]. rewrite <- Hrun.
  unfold bind. by destruct (m g) as [[]| |].
Qed.
End Logic.

(** ** Running step by step *)

Lemma run_bind_done {σ A B} (m : ST σ A) (f : A -> ST σ B) g a g1 : m g = Done (a, g1) -> bind m f g = f a g1.
Proof. intros Hm. unfold bind. by rewrite Hm. Qed.

(** Running one step of a computation: [run H] for a step known to return by [H],
    [run_step] for one that returns by definition. *)
Lemma run_gets {σ A B} (f : σ -> A) (k : A -> ST σ B) g : bind (gets f) k g = k (f g) g.
Proof. done. Qed.
Lemma run_modify {σ B} f (k : unit -> ST σ B) (g : σ) : bind (modify f) k g = k tt (f g).
Proof. done. Qed.
Lemma run_ret {σ A B} (a : A) (k : A -> ST σ B) g : bind (ret a) k g = k a g.
Proof. done. Qed.
Lemma run_lift {σ A B} (a : A) (k : A -> ST σ B) g : bind (lift (Done a)) k g = k a g.
Proof. done. Qed.
Lemma run_lift_option {σ A B} (a : A) (k : A -> ST σ B) g : bind (lift (of_option (Some a))) k g = k a g.
Proof. done. Qed.
Ltac run_step := repeat (progress rewrite ?bind_assoc, ?run_gets, ?run_modify, ?run_ret, ?run_lift, ?run_lift_option).
Ltac run H := rewrite ?bind_assoc; rewrite (run_bind_done _ _ _ _ _ H); run_step.
