(* ===== verification/Defs.v ===== *)
(** [spa/include/spa/defs.h]: result codes, asynchronous results and alignment.

    Result codes are C [int]s, kept as [Z] in [-2^31, 2^31); the bit operations
    are those of two's complement, which [Z.land]/[Z.lor] compute on [Z]. *)
From S2P Require Import Prelude.

(** ** [SpaResult] *)

Definition SPA_RESULT_ASYNC : Z := Z.shiftl 1 30.
Definition SPA_RESULT_WAIT_SYNC : Z := 2.
Definition SPA_RESULT_MODIFIED : Z := 1.
Definition SPA_RESULT_OK : Z := 0.
Definition SPA_RESULT_ERROR : Z := -1.
Definition SPA_RESULT_ERRNO : Z := -2.
Definition SPA_RESULT_NO_FORMAT : Z := -4.
Definition SPA_RESULT_HAVE_BUFFER : Z := -7.
Definition SPA_RESULT_NEED_BUFFER : Z := -8.
Definition SPA_RESULT_NOT_IMPLEMENTED : Z := -12.
Definition SPA_RESULT_ENUM_END : Z := -15.
Definition SPA_RESULT_INVALID_MEDIA_TYPE : Z := -18.
Definition SPA_RESULT_INVALID_ARGUMENTS : Z := -21.
Definition SPA_RESULT_INVALID_OBJECT_ID : Z := -31.
Definition SPA_RESULT_NO_MEMORY : Z := -32.
Definition SPA_RESULT_NO_PERMISSION : Z := -33.
Definition SPA_RESULT_INCOMPATIBLE_PROPS : Z := -36.

Definition SPA_ID_INVALID : Z := 4294967295. (* 0xffffffff *)

(** [3 << 30] does not fit an [int]; gcc gives the bit pattern 0xC0000000, that
    is [-2^30]. *)
Definition SPA_ASYNC_MASK : Z := i32 (Z.shiftl 3 30).
Definition SPA_ASYNC_SEQ_MASK : Z := SPA_RESULT_ASYNC - 1.

Definition SPA_RESULT_IS_OK (res : Z) : bool := res >=? 0.
Definition SPA_RESULT_IS_ERROR (res : Z) : bool := res <? 0.
Definition SPA_RESULT_IS_ASYNC (res : Z) : bool := Z.land res SPA_ASYNC_MASK =? SPA_RESULT_ASYNC.
Definition SPA_RESULT_ASYNC_SEQ (res : Z) : Z := Z.land res SPA_ASYNC_SEQ_MASK.
Definition SPA_RESULT_RETURN_ASYNC (seq : Z) : Z :=
  Z.lor SPA_RESULT_ASYNC (Z.land seq SPA_ASYNC_SEQ_MASK).

Definition is_result (res : Z) : Prop := - 2 ^ 31 <= res < 2 ^ 31.

(** ** Bounds *)

Definition SPA_MIN (a b : Z) : Z := if a <? b then a else b.
Definition SPA_MAX (a b : Z) : Z := if a >? b then a else b.
Definition SPA_CLAMP (v a b : Z) : Z := if v >? b then b else if v <? a then a else v.

(** ** Alignment *)

(** The macro without the truncation to the type of [num], which callers apply. *)
Definition SPA_ROUND_UP_N (num align : Z) : Z := Z.land (num + (align - 1)) (Z.lnot (align - 1)).

(** ** Lemmas *)

Lemma SPA_MIN_min a b : SPA_MIN a b = Z.min a b.
Proof. unfold SPA_MIN; case_if; lia. Qed.
Lemma SPA_MAX_max a b : SPA_MAX a b = Z.max a b.
Proof. unfold SPA_MAX. rewrite Z.gtb_ltb. case_if; lia. Qed.

Lemma land_low z k : 0 <= k -> Z.land z (2 ^ k - 1) = z mod 2 ^ k.
Proof. intros. rewrite <- Z.land_ones by lia. f_equal. rewrite Z.ones_equiv. lia. Qed.

Lemma land_lnot_low z k : 0 <= k -> Z.land z (Z.lnot (2 ^ k - 1)) = 2 ^ k * (z / 2 ^ k).
Proof.
  intros. replace (2 ^ k - 1) with (Z.ones k) by (rewrite Z.ones_equiv; lia).
  rewrite <- Z.ldiff_land, Z.ldiff_ones_r, Z.shiftl_mul_pow2, Z.shiftr_div_pow2 by lia. lia.
Qed.

Lemma SPA_ROUND_UP_N_pow2 num k :
  0 <= k -> SPA_ROUND_UP_N num (2 ^ k) = 2 ^ k * ((num + (2 ^ k - 1)) / 2 ^ k).
Proof. intros. unfold SPA_ROUND_UP_N. by rewrite land_lnot_low. Qed.

Lemma SPA_ROUND_UP_N_spec num k : 0 <= k ->
  num <= SPA_ROUND_UP_N num (2 ^ k) < num + 2 ^ k /\ (SPA_ROUND_UP_N num (2 ^ k)) mod 2 ^ k = 0.
Proof.
  intros. rewrite SPA_ROUND_UP_N_pow2 by done.
  assert (0 < 2 ^ k) by (apply Z.pow_pos_nonneg; lia).
  pose proof (Z.div_mod (num + (2 ^ k - 1)) (2 ^ k) ltac:(lia)).
  pose proof (Z.mod_pos_bound (num + (2 ^ k - 1)) (2 ^ k) ltac:(lia)).
  split; [lia |]. by rewrite Z.mul_comm, Z.mod_mul by lia.
Qed.

(** Rounding up to 8, in the form the pod code needs. *)
Definition round8 (n : Z) : Z := 8 * ((n + 7) / 8).

Lemma ROUND_UP_8 n : SPA_ROUND_UP_N n 8 = round8 n.
Proof. exact (SPA_ROUND_UP_N_pow2 n 3 ltac:(lia)). Qed.
Lemma round8_bounds n : n <= round8 n < n + 8.
Proof. unfold round8. Z.div_mod_to_equations; lia. Qed.
Lemma round8_mul n : round8 (8 * n) = 8 * n.
Proof. unfold round8. Z.div_mod_to_equations; lia. Qed.
Lemma round8_add n m : round8 (8 * n + m) = 8 * n + round8 m.
Proof. unfold round8. Z.div_mod_to_equations; lia. Qed.

Lemma ROUND_UP_4096_bounds n : n <= SPA_ROUND_UP_N n 4096 < n + 4096.
Proof. exact (proj1 (SPA_ROUND_UP_N_spec n 12 ltac:(lia))). Qed.

Lemma IS_ASYNC_range res : is_result res -> SPA_RESULT_IS_ASYNC res = (2 ^ 30 <=? res).
Proof.
  unfold is_result, SPA_RESULT_IS_ASYNC. intros Hr.
  change SPA_ASYNC_MASK with (Z.lnot (2 ^ 30 - 1)). change SPA_RESULT_ASYNC with (2 ^ 30).
  rewrite land_lnot_low by lia. apply eq_true_iff_eq. rewrite Z.eqb_eq, Z.leb_le.
  Z.div_mod_to_equations; lia.
Qed.

Lemma RETURN_ASYNC_add seq : SPA_RESULT_RETURN_ASYNC seq = 2 ^ 30 + seq mod 2 ^ 30.
Proof.
  unfold SPA_RESULT_RETURN_ASYNC, SPA_ASYNC_SEQ_MASK. change SPA_RESULT_ASYNC with (2 ^ 30).
  rewrite land_low by lia.
  assert (Z.land (2 ^ 30) (seq mod 2 ^ 30) = 0) as Hdisj.
  { apply Z.bits_inj'. intros n Hn. rewrite Z.land_spec, Z.bits_0, Z.pow2_bits_eqb by lia.
    destruct (Z.eqb_spec 30 n); subst; [apply Z.mod_pow2_bits_high; lia | done]. }
  by rewrite Z.add_nocarry_lxor, Z.lxor_lor by done.
Qed.

Lemma ASYNC_SEQ_mod res : SPA_RESULT_ASYNC_SEQ res = res mod 2 ^ 30.
Proof. exact (land_low res 30 ltac:(lia)). Qed.

(** the sequence number of an asynchronous result. *)
Theorem async_result_roundtrip seq :
  let res := SPA_RESULT_RETURN_ASYNC seq in
  SPA_RESULT_IS_ASYNC res = true /\ SPA_RESULT_IS_ERROR res = false /\
  res <> SPA_RESULT_WAIT_SYNC /\ SPA_RESULT_ASYNC_SEQ res = seq mod 2 ^ 30 /\
  SPA_RESULT_ASYNC_SEQ res <> SPA_ID_INVALID.
Proof.
  cbv zeta. rewrite RETURN_ASYNC_add, ASYNC_SEQ_mod.
  pose proof (Z.mod_pos_bound seq (2 ^ 30) ltac:(lia)).
  assert ((2 ^ 30 + seq mod 2 ^ 30) mod 2 ^ 30 = seq mod 2 ^ 30) as ->.
  { rewrite <- Zplus_mod_idemp_l, Z.mod_same, Z.add_0_l, Z.mod_mod; lia. }
  rewrite IS_ASYNC_range by (unfold is_result; lia).
  unfold SPA_RESULT_IS_ERROR, SPA_RESULT_WAIT_SYNC, SPA_ID_INVALID.
  split_and!; [apply Z.leb_le | apply Z.ltb_ge | | |]; lia.
Qed.
