(* ===== verification/SpaList.v ===== *)
(** [spa/include/spa/list.h]: the intrusive circular doubly linked list.

    A list is a ring of nodes, one of which is its head. The operations write the
    links of shared nodes one field at a time; [rings] says that a heap consists of
    disjoint rings, and the refinement theorem that the pointer operations implement
    insertion and removal on the sequences of nodes of these rings. *)
From stdpp Require Import gmap.
From S2P Require Import Prelude.

(** A node at an address. *)
Record SpaList := mkList { next : Z; prev : Z }.
Abbreviation heap := (gmap Z SpaList).

Definition get_next (l : Z) (h : heap) : outcome Z := of_option (next <$> h !! l).
Definition get_prev (l : Z) (h : heap) : outcome Z := of_option (prev <$> h !! l).
Definition set_next (l v : Z) (h : heap) : outcome heap :=
  let* n := of_option (h !! l) in Done (<[l := mkList v (prev n)]> h).
Definition set_prev (l v : Z) (h : heap) : outcome heap :=
  let* n := of_option (h !! l) in Done (<[l := mkList (next n) v]> h).

Definition spa_list_init (list : Z) (h : heap) : outcome heap :=
  let* h := set_next list list h in set_prev list list h.

Definition spa_list_insert (list elem : Z) (h : heap) : outcome heap :=
  let* h := set_prev elem list h in
  let* n := get_next list h in
  let* h := set_next elem n h in
  let* h := set_next list elem h in
  let* n := get_next elem h in
  set_prev n elem h.

Definition spa_list_remove (elem : Z) (h : heap) : outcome heap :=
  let* p := get_prev elem h in
  let* n := get_next elem h in
  let* h := set_next p n h in
  let* n := get_next elem h in
  let* p := get_prev elem h in
  set_prev n p h.

Definition spa_list_is_empty (l : Z) (h : heap) : outcome bool :=
  let* n := get_next l h in Done (n =? l).
Definition spa_list_first (head : Z) (h : heap) : outcome Z := get_next head h.

(** [spa_list_for_each] over a body that leaves the links alone. *)
Fixpoint for_each_from {S} (fuel : nat) (f : Z -> S -> outcome S) (h : heap) (head pos : Z) (s : S) : outcome S :=
  if pos =? head then Done s
  else match fuel with
       | O => Undef
       | S fuel' =>
           let* s := f pos s in
           let* n := get_next pos h in for_each_from fuel' f h head n s
       end.

Definition spa_list_for_each {S} (f : Z -> S -> outcome S) (h : heap) (head : Z) (s : S) : outcome S :=
  let* n := get_next head h in for_each_from (size h) f h head n s.

(** ** Rings *)

Definition nxt (h : heap) (k : Z) : option Z := next <$> h !! k.
Definition prv (h : heap) (k : Z) : option Z := prev <$> h !! k.

(** [a] is followed by the nodes [l] and then by [z]. *)
Fixpoint chain (h : heap) (a : Z) (l : list Z) (z : Z) : Prop :=
  match l with
  | [] => nxt h a = Some z /\ prv h z = Some a
  | b :: l => nxt h a = Some b /\ prv h b = Some a /\ chain h b l z
  end.

Definition ring (h : heap) (c : list Z) : Prop :=
  match c with [] => True | a :: l => chain h a l a end.

Definition rings (h : heap) (cs : list (list Z)) : Prop := Forall (ring h) cs /\ NoDup (concat cs).

Lemma links_app h a l1 b l2 z : chain h a (l1 ++ b :: l2) z <-> chain h a l1 b /\ chain h b l2 z.
Proof. revert a. induction l1 as [|c l1 IH]; intros a; simpl; [tauto |]. rewrite IH. tauto. Qed.

(** A ring has no beginning. *)
Lemma ring_rotate h l1 l2 : ring h (l1 ++ l2) <-> ring h (l2 ++ l1).
Proof.
  destruct l1 as [|a l1], l2 as [|b l2]; simpl; rewrite ?app_nil_r; [done.. |].
  rewrite !links_app. tauto.
Qed.

Lemma chain_frame h h' a l z :
  (forall k, k ∈ a :: l -> nxt h' k = nxt h k) -> (forall k, k ∈ l ++ [z] -> prv h' k = prv h k) ->
  chain h a l z -> chain h' a l z.
Proof.
  revert a. induction l as [|b l IH]; intros a Hn Hp; simpl.
  - rewrite Hn, Hp by set_solver. done.
  - rewrite Hn, Hp by set_solver. intros (? & ? & ?). split_and!; [done | done |].
    apply IH; [| | done]; intros k Hk; [apply Hn | apply Hp]; set_solver.
Qed.

Lemma ring_frame h h' c : (forall k, k ∈ c -> h' !! k = h !! k) -> ring h c -> ring h' c.
Proof.
  intros Heq. destruct c as [|a l]; [done |]. apply chain_frame; intros k Hk; unfold nxt, prv; rewrite Heq; set_solver.
Qed.

(** The first and the last link of a chain. *)
Lemma chain_next h a l z : chain h a l z -> nxt h a = head (l ++ [z]).
Proof. destruct l; simpl; naive_solver. Qed.

Lemma chain_prev h a l z : chain h a l z -> prv h z = last (a :: l).
Proof. revert a. induction l as [|b l IH]; intros a; cbn [chain]; [naive_solver |]. intros (_ & _ & H%IH). exact H. Qed.

(** *** Field writes *)

Lemma set_next_ok l v h : is_Some (h !! l) ->
  exists h', set_next l v h = Done h' /\ dom h' = dom h /\ (forall k, k <> l -> h' !! k = h !! k) /\
    (forall k, nxt h' k = if decide (k = l) then Some v else nxt h k) /\ (forall k, prv h' k = prv h k).
Proof.
  intros [n Hn]. unfold set_next. rewrite Hn. cbn [of_option obind]. eexists. split; [done |]. unfold nxt, prv.
  split_and!; [by apply dom_insert_lookup_L | intros k Hk; by rewrite lookup_insert_ne by done | |]; intros k;
    destruct (decide (k = l)) as [-> | Hk]; rewrite ?lookup_insert_eq, ?lookup_insert_ne by done; [done.. | by rewrite Hn | done].
Qed.

Lemma set_prev_ok l v h : is_Some (h !! l) ->
  exists h', set_prev l v h = Done h' /\ dom h' = dom h /\ (forall k, k <> l -> h' !! k = h !! k) /\
    (forall k, prv h' k = if decide (k = l) then Some v else prv h k) /\ (forall k, nxt h' k = nxt h k).
Proof.
  intros [n Hn]. unfold set_prev. rewrite Hn. cbn [of_option obind]. eexists. split; [done |]. unfold nxt, prv.
  split_and!; [by apply dom_insert_lookup_L | intros k Hk; by rewrite lookup_insert_ne by done | |]; intros k;
    destruct (decide (k = l)) as [-> | Hk]; rewrite ?lookup_insert_eq, ?lookup_insert_ne by done; [done.. | by rewrite Hn | done].
Qed.

Lemma nxt_alloc h k v : nxt h k = Some v -> is_Some (h !! k).
Proof. unfold nxt. by destruct (h !! k). Qed.
Lemma prv_alloc h k v : prv h k = Some v -> is_Some (h !! k).
Proof. unfold prv. by destruct (h !! k). Qed.

(** *** Insertion *)

Lemma insert_ring h x l e :
  ring h (x :: l) -> NoDup (e :: x :: l) -> is_Some (h !! e) ->
  exists h', spa_list_insert x e h = Done h' /\ ring h' (x :: e :: l) /\ dom h' = dom h /\
    (forall k, k ∉ e :: x :: l -> h' !! k = h !! k).
Proof.
  intros Hr Hnd He. pose proof (chain_next _ _ _ _ Hr) as Hn. pose proof (chain_prev _ _ _ _ Hr) as Hp.
  apply NoDup_cons in Hnd as [Hex Hnd]. assert (e <> x) as Hne by set_solver.
  set (y := default x (head l)). assert (nxt h x = Some y) as Hy by (rewrite Hn; by destruct l).
  assert (y ∈ x :: l) as Hyin by (unfold y; destruct l; set_solver). assert (y <> e) as Hye by set_solver.
  unfold spa_list_insert. destruct (set_prev_ok e x h He) as (h1 & -> & D1 & F1 & P1 & N1). cbn [obind].
  unfold get_next at 1. change (next <$> h1 !! x) with (nxt h1 x). rewrite N1, Hy. cbn [of_option obind].
  destruct (set_next_ok e y h1) as (h2 & -> & D2 & F2 & N2 & P2); [rewrite <- elem_of_dom, D1; by apply elem_of_dom |]. cbn [obind].
  destruct (set_next_ok x e h2) as (h3 & -> & D3 & F3 & N3 & P3); [rewrite <- elem_of_dom, D2, D1; apply elem_of_dom; by eapply nxt_alloc |].
  cbn [obind]. unfold get_next. change (next <$> h3 !! e) with (nxt h3 e). rewrite N3, decide_False, N2, decide_True by done. cbn [of_option obind].
  destruct (set_prev_ok y e h3) as (h4 & -> & D4 & F4 & P4 & N4).
  { rewrite <- elem_of_dom, D3, D2, D1. apply elem_of_dom. destruct l as [|b l]; [by eapply nxt_alloc |]. eapply prv_alloc, Hr. }
  exists h4. split_and!; [done | | congruence |].
  - assert (forall k, k <> x -> k <> e -> nxt h4 k = nxt h k) as HN by (intros k ??; by rewrite N4, N3, decide_False, N2, decide_False, N1 by done).
    assert (forall k, k <> y -> k <> e -> prv h4 k = prv h k) as HP by (intros k ??; by rewrite P4, decide_False, P3, P2, P1, decide_False by done).
    assert (nxt h4 x = Some e) as Nx by (by rewrite N4, N3, decide_True).
    assert (nxt h4 e = Some y) as Ne by (by rewrite N4, N3, decide_False, N2, decide_True).
    assert (prv h4 e = Some x) as Pe by (by rewrite P4, decide_False, P3, P2, P1, decide_True).
    assert (prv h4 y = Some e) as Py by (by rewrite P4, decide_True).
    simpl. destruct l as [|b l]; simpl in *; [done |]. split_and!; try done.
    destruct Hr as (_ & _ & Hr). apply NoDup_cons in Hnd as [Hx Hnd]. apply NoDup_cons in Hnd as [Hb Hnd].
    eapply chain_frame; [| | exact Hr]; intros k Hk; [apply HN | apply HP]; unfold y; set_solver.
  - intros k Hk. rewrite F4, F3, F2, F1; [done | set_solver..].
Qed.

(** *** Removal *)

Lemma list_snoc_cases {A} (l : list A) : l = [] \/ exists l' z, l = l' ++ [z].
Proof. induction l as [|z l' _] using rev_ind; eauto. Qed.

(** The field writes of a removal, whatever the ring. *)
Lemma remove_view h e y z :
  nxt h e = Some y -> prv h e = Some z -> is_Some (h !! y) -> is_Some (h !! z) -> z <> e ->
  exists h', spa_list_remove e h = Done h' /\ dom h' = dom h /\ (forall k, k <> y -> k <> z -> h' !! k = h !! k) /\
    (forall k, nxt h' k = if decide (k = z) then Some y else nxt h k) /\
    (forall k, prv h' k = if decide (k = y) then Some z else prv h k).
Proof.
  intros Hy Hz Hay Haz Hne. unfold spa_list_remove, get_prev, get_next.
  change (prev <$> h !! e) with (prv h e). change (next <$> h !! e) with (nxt h e). rewrite Hy, Hz. cbn [of_option obind].
  destruct (set_next_ok z y h Haz) as (h1 & -> & D1 & F1 & N1 & P1). cbn [obind].
  change (prev <$> h1 !! e) with (prv h1 e). change (next <$> h1 !! e) with (nxt h1 e).
  rewrite N1, decide_False, P1, Hy, Hz by done. cbn [of_option obind].
  destruct (set_prev_ok y z h1) as (h2 & -> & D2 & F2 & P2 & N2); [rewrite <- elem_of_dom, D1; by apply elem_of_dom |].
  exists h2. split_and!; [done | congruence | intros k ??; by rewrite F2, F1 by done | intros k; by rewrite N2 | intros k; by rewrite P2, P1].
Qed.

Lemma remove_ring h e l :
  ring h (e :: l) -> NoDup (e :: l) ->
  exists h', spa_list_remove e h = Done h' /\ ring h' l /\ dom h' = dom h /\ (forall k, k ∉ e :: l -> h' !! k = h !! k).
Proof.
  intros Hr Hnd. pose proof (chain_next _ _ _ _ Hr) as Hn. pose proof (chain_prev _ _ _ _ Hr) as Hp.
  apply NoDup_cons in Hnd as [He Hnd]. destruct l as [|b l].
  { simpl in Hn, Hp. unfold spa_list_remove, get_prev, get_next.
    change (prev <$> h !! e) with (prv h e). change (next <$> h !! e) with (nxt h e). rewrite Hn, Hp. cbn [of_option obind].
    destruct (set_next_ok e e h) as (h1 & -> & D1 & F1 & N1 & P1); [by eapply nxt_alloc |]. cbn [obind].
    change (prev <$> h1 !! e) with (prv h1 e). change (next <$> h1 !! e) with (nxt h1 e).
    rewrite N1, decide_True, P1, Hp by done. cbn [of_option obind].
    destruct (set_prev_ok e e h1) as (h2 & -> & D2 & F2 & _); [rewrite <- elem_of_dom, D1; apply elem_of_dom; by eapply nxt_alloc |].
    exists h2. split_and!; [done | done | congruence |]. intros k Hk. rewrite F2, F1; [done | set_solver..]. }
  destruct Hr as (_ & Hb & Hr). destruct (list_snoc_cases l) as [-> | (l' & z & ->)].
  - simpl in Hr, Hn, Hp. destruct Hr as [Hbn _]. assert (b <> e) by set_solver.
    destruct (remove_view h e b b) as (h' & -> & D & F & N & P); [done.. | by eapply nxt_alloc | by eapply nxt_alloc | done |].
    exists h'. split_and!; [done | | done | intros k Hk; apply F; set_solver].
    simpl. by rewrite N, P, !decide_True.
  - assert (last (e :: b :: l' ++ [z]) = Some z) as Hl by (rewrite (last_snoc z (e :: b :: l') : last (e :: b :: l' ++ [z]) = _); done).
    rewrite Hl in Hp. simpl in Hn. apply links_app in Hr as [Hr [Hzn _]].
    apply NoDup_cons in Hnd as [Hbl Hnd]. apply NoDup_app in Hnd as (Hnd & Hdz & _).
    destruct (remove_view h e b z) as (h' & -> & D & F & N & P); [done | done | by eapply prv_alloc | by eapply nxt_alloc | set_solver |].
    exists h'. split_and!; [done | | done | intros k Hk; apply F; set_solver]. simpl. apply links_app. split.
    + eapply chain_frame; [| | exact Hr]; intros k Hk; [rewrite N | rewrite P]; rewrite decide_False; set_solver.
    + simpl. by rewrite N, P, !decide_True.
Qed.

(** ** Lists as sequences *)

Definition insert_after (x e : Z) (c : list Z) : list Z := flat_map (fun k => if decide (k = x) then [x; e] else [k]) c.
Definition without (e : Z) (c : list Z) : list Z := filter (fun k => k <> e) c.

Inductive list_op := Init (list : Z) | Insert (list elem : Z) | Remove (elem : Z).

Definition run_op (o : list_op) (h : heap) : outcome heap :=
  match o with
  | Init l => spa_list_init l h
  | Insert l e => spa_list_insert l e h
  | Remove e => spa_list_remove e h
  end.

Definition spec_op (o : list_op) (cs : list (list Z)) : list (list Z) :=
  match o with
  | Init l => cs ++ [[l]]
  | Insert l e => map (insert_after l e) cs
  | Remove e => map (without e) cs
  end.

(** What the caller sees to: nodes are inserted next to a listed node, and once. *)
Definition legal (alloc : gset Z) (cs : list (list Z)) (o : list_op) : Prop :=
  match o with
  | Init l => l ∈ alloc /\ l ∉ concat cs
  | Insert l e => e ∈ alloc /\ l ∈ concat cs /\ e ∉ concat cs
  | Remove e => e ∈ concat cs
  end.

#[export] Instance legal_dec alloc cs o : Decision (legal alloc cs o).
Proof. destruct o; simpl; apply _. Defined.

Lemma insert_after_other x e c : x ∉ c -> insert_after x e c = c.
Proof. induction c as [|k c IH]; [done |]. intros Hx. simpl. rewrite decide_False, IH by set_solver. done. Qed.

Lemma insert_after_at x e l1 l2 : x ∉ l1 -> x ∉ l2 -> insert_after x e (l1 ++ x :: l2) = l1 ++ x :: e :: l2.
Proof.
  intros H1 H2. unfold insert_after. rewrite flat_map_app. fold (insert_after x e l1). rewrite insert_after_other by done.
  f_equal. simpl. rewrite decide_True by done. simpl. fold (insert_after x e l2). by rewrite insert_after_other.
Qed.

Lemma without_other e c : e ∉ c -> without e c = c.
Proof.
  unfold without. induction c as [|k c IH]; [done |]. intros He. rewrite filter_cons_True, IH by set_solver. done.
Qed.

Lemma without_at e l1 l2 : e ∉ l1 -> e ∉ l2 -> without e (l1 ++ e :: l2) = l1 ++ l2.
Proof.
  intros H1 H2. unfold without. rewrite filter_app, filter_cons_False by naive_solver.
  fold (without e l1) (without e l2). by rewrite !without_other.
Qed.

Lemma in_concat_elem (k : Z) c cs : c ∈ cs -> k ∈ c -> k ∈ concat cs.
Proof. intros Hc Hk. apply list_elem_of_In, in_concat. exists c. split; by apply list_elem_of_In. Qed.

Lemma map_other (f : list Z -> list Z) (x : Z) cs : (forall c, x ∉ c -> f c = c) -> x ∉ concat cs -> map f cs = cs.
Proof.
  intros Hf. induction cs as [|c cs IH]; [done |]. simpl. intros Hx. rewrite Hf, IH by set_solver. done.
Qed.

(** The node of a ring that is worked on, brought to the front. *)
Lemma focus (cs : list (list Z)) x : x ∈ concat cs -> NoDup (concat cs) ->
  exists cs1 l1 l2 cs2, cs = cs1 ++ (l1 ++ x :: l2) :: cs2 /\ x ∉ concat cs1 /\ x ∉ l1 /\ x ∉ l2 /\ x ∉ concat cs2 /\
    (forall k, k ∈ x :: l2 ++ l1 -> k ∉ concat cs1 /\ k ∉ concat cs2).
Proof.
  intros Hx Hnd. apply list_elem_of_In, in_concat in Hx as (c & Hc%list_elem_of_In & Hx%list_elem_of_In).
  apply list_elem_of_split in Hc as (cs1 & cs2 & ->). apply list_elem_of_split in Hx as (l1 & l2 & ->).
  exists cs1, l1, l2, cs2. rewrite concat_app in Hnd. simpl in Hnd.
  apply NoDup_app in Hnd as (Hnd1 & Hd1 & Hnd2). rewrite <- app_assoc in Hnd2, Hd1. simpl in Hnd2, Hd1.
  apply NoDup_app in Hnd2 as (Hl1 & Hdl & Hnd2). apply NoDup_cons in Hnd2 as [Hx Hnd2]. apply NoDup_app in Hnd2 as (Hl2 & Hd2 & _).
  split_and!; [done | set_solver | set_solver | set_solver | set_solver |].
  intros k Hk. split; intros Hin; [apply (Hd1 k Hin); set_solver |].
  assert (k = x \/ k ∈ l2 \/ k ∈ l1) as [-> | [? | ?]] by set_solver; [set_solver | by eapply Hd2 | eapply (Hdl k); [done | set_solver]].
Qed.

Lemma rings_frame h h' cs (ks : list Z) : (forall k, k ∉ ks -> h' !! k = h !! k) -> (forall k, k ∈ ks -> k ∉ concat cs) ->
  Forall (ring h) cs -> Forall (ring h') cs.
Proof.
  intros Hf Hd. rewrite !Forall_forall. intros Hr c Hc. apply (ring_frame h); [| by apply Hr].
  intros k Hk. apply Hf. intros Hin. apply (Hd k Hin). by eapply in_concat_elem.
Qed.

(** Working on one ring: the others, and the order of its nodes, are put back. *)
Lemma rings_focus h h' (f : list Z -> list Z) cs1 l1 x l2 cs2 c' e :
  (forall k, k ∈ x :: l2 ++ l1 -> k ∉ concat cs1 /\ k ∉ concat cs2) -> e ∉ concat cs1 -> e ∉ concat cs2 ->
  (forall k, k ∉ e :: x :: l2 ++ l1 -> h' !! k = h !! k) -> (forall c, x ∉ c -> f c = c) ->
  Forall (ring h) cs1 -> Forall (ring h) cs2 -> f (l1 ++ x :: l2) = c' -> ring h' c' ->
  Forall (ring h') (map f (cs1 ++ (l1 ++ x :: l2) :: cs2)) /\ map f (cs1 ++ (l1 ++ x :: l2) :: cs2) = cs1 ++ c' :: cs2.
Proof.
  intros Hd He1 He2 F Hf Hr1 Hr2 <- Hr'. assert (x ∉ concat cs1 /\ x ∉ concat cs2) as [Hx1 Hx2] by (apply Hd; set_solver).
  rewrite map_app. simpl map. rewrite !(map_other f x) by done. split; [| done].
  apply Forall_app. split; [| apply Forall_cons; split; [done |]]; eapply rings_frame; try exact F; try done;
    intros k [-> | Hk]%elem_of_cons; try done; by apply Hd.
Qed.

Lemma init_refines l h cs : rings h cs -> legal (dom h) cs (Init l) ->
  exists h', run_op (Init l) h = Done h' /\ rings h' (spec_op (Init l) cs) /\ dom h' = dom h.
Proof.
  intros [Hr Hnd] [Ha Hl]. simpl. unfold spa_list_init. apply elem_of_dom in Ha.
  destruct (set_next_ok l l h Ha) as (h1 & -> & D1 & F1 & N1 & P1). cbn [obind].
  destruct (set_prev_ok l l h1) as (h2 & -> & D2 & F2 & P2 & N2); [rewrite <- elem_of_dom, D1; by apply elem_of_dom |].
  exists h2. split_and!; [done | | congruence]. split.
  - apply Forall_app. split; [| apply Forall_singleton; simpl; by rewrite N2, N1, P2, !decide_True].
    eapply (rings_frame h h2 cs [l]); [intros k Hk; rewrite F2, F1; set_solver | set_solver | done].
  - rewrite concat_app. simpl. apply NoDup_app. split_and!; [done | set_solver | by apply NoDup_singleton].
Qed.

Lemma insert_refines x e h cs : rings h cs -> legal (dom h) cs (Insert x e) ->
  exists h', run_op (Insert x e) h = Done h' /\ rings h' (spec_op (Insert x e) cs) /\ dom h' = dom h.
Proof.
  intros [Hr Hnd] (Ha & Hx & He). destruct (focus cs x Hx Hnd) as (cs1 & l1 & l2 & cs2 & -> & Hx1 & Hl1 & Hl2 & Hx2 & Hd).
  apply Forall_app in Hr as [Hr1 Hr]. apply Forall_cons in Hr as [Hr Hr2]. apply ring_rotate in Hr. simpl app in Hr.
  rewrite concat_app in He, Hnd. simpl in He, Hnd.
  assert (NoDup (e :: x :: l2 ++ l1)) as Hnd'.
  { apply NoDup_cons. split; [set_solver |]. apply NoDup_app in Hnd as (_ & _ & Hnd). apply NoDup_app in Hnd as (Hnd & _ & _).
    by rewrite (Permutation_app_comm (x :: l2) l1 : x :: l2 ++ l1 ≡ₚ _). }
  destruct (insert_ring h x (l2 ++ l1) e Hr Hnd' ltac:(by apply elem_of_dom)) as (h' & Hrun & Hr' & D & F).
  exists h'. split_and!; [done | | done]. simpl spec_op.
  destruct (rings_focus h h' (insert_after x e) cs1 l1 x l2 cs2 (l1 ++ x :: e :: l2) e) as [Hall Hmap];
    [done | set_solver | set_solver | done | apply insert_after_other | done | done | by apply insert_after_at
    | rewrite (ring_rotate h' l1 (x :: e :: l2)); exact Hr' |].
  split; [done |]. rewrite Hmap, concat_app. simpl.
  assert (concat cs1 ++ (l1 ++ x :: e :: l2) ++ concat cs2 ≡ₚ e :: concat cs1 ++ (l1 ++ x :: l2) ++ concat cs2) as -> by solve_Permutation.
  by apply NoDup_cons.
Qed.

Lemma remove_refines e h cs : rings h cs -> legal (dom h) cs (Remove e) ->
  exists h', run_op (Remove e) h = Done h' /\ rings h' (spec_op (Remove e) cs) /\ dom h' = dom h.
Proof.
  intros [Hr Hnd] Hl. destruct (focus cs e Hl Hnd) as (cs1 & l1 & l2 & cs2 & -> & Hx1 & Hl1 & Hl2 & Hx2 & Hd).
  apply Forall_app in Hr as [Hr1 Hr]. apply Forall_cons in Hr as [Hr Hr2]. apply ring_rotate in Hr. simpl app in Hr.
  rewrite concat_app in Hnd. simpl in Hnd.
  assert (NoDup (e :: l2 ++ l1)) as Hnd'.
  { apply NoDup_app in Hnd as (_ & _ & Hnd). apply NoDup_app in Hnd as (Hnd & _ & _).
    by rewrite (Permutation_app_comm (e :: l2) l1 : e :: l2 ++ l1 ≡ₚ _). }
  destruct (remove_ring h e (l2 ++ l1) Hr Hnd') as (h' & Hrun & Hr' & D & F).
  exists h'. split_and!; [done | | done]. simpl spec_op.
  destruct (rings_focus h h' (without e) cs1 l1 e l2 cs2 (l1 ++ l2) e) as [Hall Hmap];
    [done | done | done | intros k Hk; apply F; set_solver | apply without_other | done | done | by apply without_at
    | by rewrite (ring_rotate h' l1 l2) |].
  split; [done |]. rewrite Hmap, concat_app. simpl.
  assert (concat cs1 ++ (l1 ++ e :: l2) ++ concat cs2 ≡ₚ e :: concat cs1 ++ (l1 ++ l2) ++ concat cs2) as Hp by solve_Permutation.
  rewrite Hp in Hnd. by apply NoDup_cons in Hnd as [_ ?].
Qed.

Lemma op_refines o h cs : rings h cs -> legal (dom h) cs o ->
  exists h', run_op o h = Done h' /\ rings h' (spec_op o cs) /\ dom h' = dom h.
Proof. destruct o; auto using init_refines, insert_refines, remove_refines. Qed.

(** *** Appending and removing, in the form the clients of a list use *)

Lemma rings_notin h cs1 c cs2 x : rings h (cs1 ++ c :: cs2) -> x ∈ c -> x ∉ concat cs1 /\ x ∉ concat cs2.
Proof.
  intros [_ Hnd] Hx. rewrite concat_app in Hnd. cbn [concat] in Hnd. apply NoDup_app in Hnd as (_ & H1 & Hnd).
  apply NoDup_app in Hnd as (_ & H2 & _). split; [intros Hin; apply (H1 x Hin); set_solver | by apply H2].
Qed.

Lemma rings_nodup h cs1 c cs2 : rings h (cs1 ++ c :: cs2) -> NoDup c.
Proof.
  intros [_ Hnd]. rewrite concat_app in Hnd. cbn [concat] in Hnd. apply NoDup_app in Hnd as (_ & _ & Hnd).
  by apply NoDup_app in Hnd as (Hnd & _ & _).
Qed.

(** Inserting behind the head's [prev] appends. *)
Lemma append_tail h cs1 head l cs2 p :
  rings h (cs1 ++ (head :: l) :: cs2) -> p ∈ dom h -> p ∉ concat (cs1 ++ (head :: l) :: cs2) ->
  exists h', (let* last := get_prev head h in spa_list_insert last p h) = Done h' /\
    rings h' (cs1 ++ (head :: l ++ [p]) :: cs2) /\ dom h' = dom h.
Proof.
  intros Hr Hp Hnew. pose proof Hr as [Hall _]. apply Forall_app in Hall as [_ Hall]. apply Forall_cons in Hall as [Hring _].
  unfold get_prev. fold (prv h head). rewrite (chain_prev _ _ _ _ Hring).
  destruct (list_snoc_cases (head :: l)) as [? | (l' & z & Hl)]; [done |].
  rewrite Hl, last_snoc. cbn [of_option obind]. rewrite Hl in Hr, Hnew.
  assert (head :: l ++ [p] = l' ++ [z; p]) as -> by (rewrite app_comm_cons, Hl, <- app_assoc; done).
  destruct (rings_notin h cs1 (l' ++ [z]) cs2 z Hr) as [H1 H2]; [set_solver |].
  pose proof (rings_nodup _ _ _ _ Hr) as Hnd. apply NoDup_app in Hnd as (_ & Hz & _).
  destruct (op_refines (Insert z p) h _ Hr) as (h' & Hrun & Hr' & D).
  { split_and!; [done | rewrite concat_app; set_solver | done]. }
  exists h'. split_and!; [done | | done]. simpl in Hr'. rewrite map_app in Hr'. simpl map in Hr'.
  rewrite !(map_other (insert_after z p) z), insert_after_at in Hr'; [done | set_solver.. | apply insert_after_other | done | apply insert_after_other | done].
Qed.

Lemma remove_at h cs1 l1 e l2 cs2 : rings h (cs1 ++ (l1 ++ e :: l2) :: cs2) ->
  exists h', spa_list_remove e h = Done h' /\ rings h' (cs1 ++ (l1 ++ l2) :: cs2) /\ dom h' = dom h.
Proof.
  intros Hr. destruct (rings_notin _ _ _ _ e Hr) as [H1 H2]; [set_solver |].
  pose proof (rings_nodup _ _ _ _ Hr) as Hnd. apply NoDup_app in Hnd as (_ & Hl1 & Hnd). apply NoDup_cons in Hnd as [Hl2 _].
  destruct (op_refines (Remove e) h _ Hr) as (h' & Hrun & Hr' & D); [simpl; rewrite concat_app; set_solver |].
  exists h'. split_and!; [done | | done]. simpl in Hr'. rewrite map_app in Hr'. simpl map in Hr'.
  rewrite !(map_other (without e) e), without_at in Hr'; [done | set_solver.. | apply without_other | done | apply without_other | done].
Qed.

(** ** Reading a list *)

Lemma chain_alloc h a l z : chain h a l z -> Forall (fun k => k ∈ dom h) (a :: l).
Proof.
  revert a. induction l as [|b l IH]; intros a; cbn [chain].
  - intros [Hn _]. apply Forall_singleton, elem_of_dom. by eapply nxt_alloc.
  - intros (Hn & _ & Hc). apply Forall_cons. split; [apply elem_of_dom; by eapply nxt_alloc | by apply IH].
Qed.

Lemma ring_size h head l : ring h (head :: l) -> NoDup (head :: l) -> (length l < size h)%nat.
Proof.
  intros Hr%chain_alloc Hnd. rewrite Forall_forall in Hr. rewrite <- (size_dom h (D := gset Z)).
  assert (length (head :: l) <= size (dom h))%nat; [| simpl in *; lia].
  rewrite <- (size_list_to_set (C := gset Z) (head :: l)) by done. apply subseteq_size. intros k Hk. apply Hr. set_solver.
Qed.

Fixpoint fold_outcome {A S} (f : A -> S -> outcome S) (l : list A) (s : S) : outcome S :=
  match l with
  | [] => Done s
  | a :: l => let* s := f a s in fold_outcome f l s
  end.

Lemma for_each_from_ok {S} (f : Z -> S -> outcome S) h head l : head ∉ l -> forall fuel a s,
  chain h a l head -> (length l <= fuel)%nat ->
  (let* n := get_next a h in for_each_from fuel f h head n s) = fold_outcome f l s.
Proof.
  induction l as [|b l IH]; intros Hh fuel a s; cbn [chain]; intros Hc Hf; unfold get_next; fold (nxt h a).
  - destruct Hc as [-> _]. cbn [of_option obind]. destruct fuel; simpl; by rewrite Z.eqb_refl.
  - destruct Hc as (-> & _ & Hc). cbn [of_option obind]. destruct fuel as [|fuel]; [simpl in Hf; lia |].
    cbn [for_each_from fold_outcome]. rewrite (proj2 (Z.eqb_neq _ _)) by set_solver.
    destruct (f b s) as [s'| |]; [| done..]. cbn [obind]. apply (IH ltac:(set_solver) fuel b s' Hc). simpl in Hf. lia.
Qed.

Lemma for_each_ok {S} (f : Z -> S -> outcome S) h head l s :
  ring h (head :: l) -> NoDup (head :: l) -> spa_list_for_each f h head s = fold_outcome f l s.
Proof.
  intros Hr Hnd. pose proof (ring_size h head l Hr Hnd). apply NoDup_cons in Hnd as [Hh _].
  apply for_each_from_ok; [done | done | lia].
Qed.

Lemma is_empty_ok h head l : ring h (head :: l) -> head ∉ l -> spa_list_is_empty head h = Done (bool_decide (l = [])).
Proof.
  intros Hr%chain_next Hh. unfold spa_list_is_empty, get_next. fold (nxt h head). rewrite Hr.
  destruct l as [|b l]; simpl; [by rewrite Z.eqb_refl | f_equal; apply Z.eqb_neq; set_solver].
Qed.

Lemma first_ok h head b l : ring h (head :: b :: l) -> spa_list_first head h = Done b.
Proof. intros (Hn & _). unfold spa_list_first, get_next. fold (nxt h head). by rewrite Hn. Qed.

(** Every listed node is allocated; fresh memory concerns no list. *)
Lemma rings_alloc h cs c p : rings h cs -> c ∈ cs -> p ∈ c -> p ∈ dom h.
Proof.
  intros [Hr _] Hc Hp. rewrite Forall_forall in Hr. specialize (Hr c Hc). destruct c as [|a l]; [by apply elem_of_nil in Hp |].
  apply chain_alloc in Hr. rewrite Forall_forall in Hr. by apply Hr.
Qed.

Lemma rings_extend h cs p n : h !! p = None -> rings h cs -> rings (<[p := n]> h) cs.
Proof.
  intros Hp [Hr Hnd]. split; [| done]. apply (rings_frame h _ cs [p]); [| | done].
  - intros k Hk. rewrite lookup_insert_ne by set_solver. done.
  - intros k ->%list_elem_of_singleton Hin. apply list_elem_of_In, in_concat in Hin as (c & Hc%list_elem_of_In & Hk%list_elem_of_In).
    pose proof (rings_alloc h cs c p (conj Hr Hnd) Hc Hk) as Hd. apply elem_of_dom in Hd as [? ?]. congruence.
Qed.

Fixpoint run_ops (os : list list_op) (h : heap) : outcome heap :=
  match os with
  | [] => Done h
  | o :: os => let* h := run_op o h in run_ops os h
  end.

Fixpoint legal_ops (alloc : gset Z) (cs : list (list Z)) (os : list list_op) : Prop :=
  match os with
  | [] => True
  | o :: os => legal alloc cs o /\ legal_ops alloc (spec_op o cs) os
  end.

#[export] Instance legal_ops_dec alloc cs os : Decision (legal_ops alloc cs os).
Proof. revert cs. induction os; intros cs; simpl; apply _. Defined.

Definition spec_ops (os : list list_op) (cs : list (list Z)) : list (list Z) := foldl (fun cs o => spec_op o cs) cs os.

Definition collect (k : Z) (acc : list Z) : outcome (list Z) := Done (acc ++ [k]).

Lemma collect_all l acc : fold_outcome collect l acc = Done (acc ++ l).
Proof. revert acc. induction l as [|k l IH]; intros acc; simpl; [by rewrite app_nil_r |]. by rewrite IH, <- app_assoc. Qed.

(** C30: the intrusive list implements sequences: starting from a heap of disjoint
    rings, any legal run of initialisations, insertions and removals succeeds, on
    however many lists at once, and leaves the disjoint rings that the same insertions
    and removals on plain sequences give; walking any of them visits its nodes in order. *)
Theorem list_refines os h cs :
  rings h cs -> legal_ops (dom h) cs os ->
  exists h', run_ops os h = Done h' /\ rings h' (spec_ops os cs) /\
    forall head l, head :: l ∈ spec_ops os cs -> spa_list_for_each collect h' head [] = Done l.
Proof.
  intros Hr Hl.
  assert (exists h', run_ops os h = Done h' /\ rings h' (spec_ops os cs)) as (h' & Hrun & Hr').
  { revert h cs Hr Hl. induction os as [|o os IH]; intros h cs Hr; simpl; [intros _; by exists h |].
    intros [Ho Hos]. destruct (op_refines o h cs Hr Ho) as (h1 & -> & Hr1 & D1). cbn [obind].
    apply IH; [done | by rewrite D1]. }
  exists h'. split_and!; [done | done |]. destruct Hr' as [Hall Hnd]. intros head l Hin.
  apply list_elem_of_split in Hin as (c1 & c2 & Hs). rewrite Hs in Hall, Hnd.
  apply Forall_app in Hall as [_ Hall]. apply Forall_cons in Hall as [Hring _].
  rewrite concat_app in Hnd. apply NoDup_app in Hnd as (_ & _ & Hnd). cbn [concat] in Hnd. apply NoDup_app in Hnd as (Hnd & _ & _).
  rewrite (for_each_ok _ h' head l [] Hring Hnd). apply collect_all.
Qed.

(** Two lists with heads 1 and 2; 3, 4 and 5 are queued on the first, 4 moves to the
    second, and 3 is moved to the tail. *)
Definition sample_heap : heap := list_to_map ((fun k => (k, mkList 0 0)) <$> [1; 2; 3; 4; 5]).
Definition sample_ops : list list_op :=
  [Init 1; Init 2; Insert 1 3; Insert 3 4; Insert 4 5; Remove 4; Insert 2 4; Remove 3; Insert 5 3].

Lemma list_refines_witness :
  rings sample_heap [] /\ exists h', run_ops sample_ops sample_heap = Done h' /\ rings h' [[1; 5; 3]; [2; 4]] /\
    forall head l, head :: l ∈ [[1; 5; 3]; [2; 4]] -> spa_list_for_each collect h' head [] = Done l.
Proof.
  assert (rings sample_heap []) as Hr by (split; [by apply Forall_nil | apply NoDup_nil_2]). split; [exact Hr |].
  apply (list_refines sample_ops sample_heap [] Hr).
  apply (bool_decide_unpack _). by vm_compute.
Defined.
