(* ===== verification/WorkQueue.v ===== *)
(** [pinos/server/work-queue.c]: work that is done when a result has arrived.

    Items are nodes of two intrusive lists, the queue and the items kept for reuse.
    A work function may call back into the queue; it is a program over the queue's
    operations. Module [Spec] is the same queue on a plain sequence, which the
    refinement theorem relates to the pointers; the invariant and the liveness
    theorems say that no item is forgotten and in which order they run. *)
From stdpp Require Import gmap.
From S2P Require Import Prelude Defs SpaList.

(** A work function [F] with its data, called with a client state [S]. *)
Inductive prog (S F : Type) :=
| Ret (s : S)
| Add (obj res : Z) (func : option F) (data : Z) (k : Z -> prog S F)
| Cancel (obj id : Z) (k : prog S F)
| Complete (obj seq res : Z) (k : bool -> prog S F).
Arguments Ret {S F}.
Arguments Add {S F}.
Arguments Cancel {S F}.
Arguments Complete {S F}.

Record WorkItem (F : Type) := mkItem { id : Z; obj : Z; seq : Z; res : Z; func : option F; data : Z }.
Arguments mkItem {F}.
Arguments id {F}.
Arguments obj {F}.
Arguments seq {F}.
Arguments res {F}.
Arguments func {F}.
Arguments data {F}.

(** [wakeup]: the event is signalled. The client's state comes along. *)
Record PinosWorkQueueImpl (S F : Type) := mkQueue {
  links : heap;
  items : gmap Z (WorkItem F);
  wakeup : bool;
  counter : Z;
  n_queued : Z;
  client : S
}.
Arguments mkQueue {S F}.
Arguments links {S F}.
Arguments items {S F}.
Arguments wakeup {S F}.
Arguments counter {S F}.
Arguments n_queued {S F}.
Arguments client {S F}.

(** What [item->seq] and [have_work] are for a result. *)
Definition defer (res : Z) : Z * bool :=
  if SPA_RESULT_IS_ASYNC res then (SPA_RESULT_ASYNC_SEQ res, false)
  else if res =? SPA_RESULT_WAIT_SYNC then (SPA_ID_INVALID, true)
  else (SPA_ID_INVALID, true).

Definition cancels {F} (obj0 id0 : Z) (item : WorkItem F) : bool :=
  ((id0 =? SPA_ID_INVALID) || (id item =? id0)) && ((obj0 =? 0) || (obj item =? obj0)).
Definition cancelled {F} (item : WorkItem F) : WorkItem F :=
  mkItem (id item) (obj item) SPA_ID_INVALID (res item) None (data item).
Definition completes {F} (obj0 seq0 : Z) (item : WorkItem F) : bool := (obj item =? obj0) && (seq item =? seq0).
Definition completed {F} (res0 : Z) (item : WorkItem F) : WorkItem F :=
  mkItem (id item) (obj item) SPA_ID_INVALID res0 (func item) (data item).

(** The body of a loop that changes the items that match and remembers that it did. *)
Definition update_if {F} (test : WorkItem F -> bool) (change : WorkItem F -> WorkItem F) (pos : Z)
    (s : gmap Z (WorkItem F) * bool) : outcome (gmap Z (WorkItem F) * bool) :=
  let* item := of_option (s.1 !! pos) in
  if test item then Done (<[pos := change item]> s.1, true) else Done s.

Section WorkQueue.
Context {S F : Type} (call : F -> Z -> Z -> Z -> Z -> S -> prog S F) (malloc : heap -> option Z).
Context (work_list free_list : Z).
Local Abbreviation queue := (PinosWorkQueueImpl S F).

Definition pinos_work_queue_add (obj res : Z) (func : option F) (data : Z) (impl : queue) : outcome (Z * queue) :=
  let* empty := spa_list_is_empty free_list (links impl) in
  let* node :=
    if empty then
      Done (match malloc (links impl) with None => None | Some p => Some (p, <[p := mkList 0 0]> (links impl)) end)
    else
      let* p := spa_list_first free_list (links impl) in
      let* h := spa_list_remove p (links impl) in Done (Some (p, h)) in
  match node with
  | None => Done (SPA_ID_INVALID, impl)
  | Some (p, h) =>
      let counter := u32 (counter impl + 1) in
      let '(seq, have_work) := defer res in
      let* last := get_prev work_list h in
      let* h := spa_list_insert last p h in
      Done (counter, mkQueue h (<[p := mkItem counter obj seq res func data]> (items impl))
                       (wakeup impl || have_work) counter (n_queued impl + 1) (client impl))
  end.

Definition pinos_work_queue_cancel (obj id : Z) (impl : queue) : outcome queue :=
  let* (items, have_work) := spa_list_for_each (update_if (cancels obj id) cancelled) (links impl) work_list (items impl, false) in
  Done (mkQueue (links impl) items (wakeup impl || have_work) (counter impl) (n_queued impl) (client impl)).

Definition pinos_work_queue_complete (obj seq res : Z) (impl : queue) : outcome (bool * queue) :=
  let* (items, have_work) := spa_list_for_each (update_if (completes obj seq) (completed res)) (links impl) work_list (items impl, false) in
  Done (have_work, mkQueue (links impl) items (wakeup impl || have_work) (counter impl) (n_queued impl) (client impl)).

Fixpoint run_prog (p : prog S F) (impl : queue) : outcome queue :=
  match p with
  | Ret s => Done (mkQueue (links impl) (items impl) (wakeup impl) (counter impl) (n_queued impl) s)
  | Add obj res func data k => let* (r, impl) := pinos_work_queue_add obj res func data impl in run_prog (k r) impl
  | Cancel obj id k => let* impl := pinos_work_queue_cancel obj id impl in run_prog k impl
  | Complete obj seq res k => let* (r, impl) := pinos_work_queue_complete obj seq res impl in run_prog (k r) impl
  end.

(** Taking an item out, running it, keeping it for reuse. *)
Definition process_item (pos : Z) (item : WorkItem F) (impl : queue) : outcome queue :=
  let* h := spa_list_remove pos (links impl) in
  let impl := mkQueue h (items impl) (wakeup impl) (counter impl) (n_queued impl - 1) (client impl) in
  let* impl :=
    match func item with
    | Some f => run_prog (call f (obj item) (data item) (res item) (id item) (client impl)) impl
    | None => Done impl
    end in
  let* last := get_prev free_list (links impl) in
  let* h := spa_list_insert last pos (links impl) in
  Done (mkQueue h (items impl) (wakeup impl) (counter impl) (n_queued impl) (client impl)).

(** [spa_list_for_each_safe]: [tmp] is read before the body runs. *)
Fixpoint process_from (fuel : nat) (pos tmp : Z) (impl : queue) : outcome queue :=
  if pos =? work_list then Done impl
  else match fuel with
       | O => Undef
       | Datatypes.S fuel' =>
           let* item := of_option (items impl !! pos) in
           let* first := spa_list_first work_list (links impl) in
           let* impl :=
             if negb (seq item =? SPA_ID_INVALID) then Done impl
             else if (res item =? SPA_RESULT_WAIT_SYNC) && negb (pos =? first) then Done impl
             else process_item pos item impl in
           let* next := get_next tmp (links impl) in
           process_from fuel' tmp next impl
       end.

Definition process_work_queue (fuel : nat) (impl : queue) : outcome queue :=
  let* pos := spa_list_first work_list (links impl) in
  let* tmp := get_next pos (links impl) in
  process_from fuel pos tmp impl.

(** The loop clears the event, then calls its function. *)
Definition dispatch (fuel : nat) (impl : queue) : outcome queue :=
  if wakeup impl then process_work_queue fuel (mkQueue (links impl) (items impl) false (counter impl) (n_queued impl) (client impl))
  else Done impl.

(** [h] is the memory the two list heads are allocated in. *)
Definition pinos_work_queue_new (h : heap) (s : S) : outcome queue :=
  let* h := spa_list_init work_list h in
  let* h := spa_list_init free_list h in
  Done (mkQueue h ∅ false 0 0 s).
End WorkQueue.

(** Freeing the items of a list while walking it. *)
Fixpoint free_from (fuel : nat) (head pos tmp : Z) (h : heap) : outcome heap :=
  if pos =? head then Done h
  else match fuel with
       | O => Undef
       | S fuel' =>
           let h := delete pos h in
           let* next := get_next tmp h in free_from fuel' head tmp next h
       end.

Definition free_list_items (head : Z) (h : heap) : outcome heap :=
  let* pos := get_next head h in
  let* tmp := get_next pos h in free_from (size h) head pos tmp h.

(** The memory left after the items and the queue itself are freed. *)
Definition pinos_work_queue_destroy {S F} (work_list free_list : Z) (impl : PinosWorkQueueImpl S F) : outcome heap :=
  let* h := free_list_items work_list (links impl) in
  let* h := free_list_items free_list h in
  Done (delete work_list (delete free_list h)).

(** ** The queue as a sequence *)

Module Spec.

Record queue (S F : Type) := mk { pending : list (WorkItem F); signalled : bool; count : Z; state : S }.
Arguments mk {S F}.
Arguments pending {S F}.
Arguments signalled {S F}.
Arguments count {S F}.
Arguments state {S F}.

Section Spec.
Context {S F : Type} (call : F -> Z -> Z -> Z -> Z -> S -> prog S F).

Definition add (obj res : Z) (func : option F) (data : Z) (q : queue S F) : Z * queue S F :=
  let n := u32 (count q + 1) in
  let '(seq, have_work) := defer res in
  (n, mk (pending q ++ [mkItem n obj seq res func data]) (signalled q || have_work) n (state q)).

Definition update (test : WorkItem F -> bool) (change : WorkItem F -> WorkItem F) (q : queue S F) : bool * queue S F :=
  let have_work := existsb test (pending q) in
  (have_work, mk (map (fun item => if test item then change item else item) (pending q)) (signalled q || have_work) (count q) (state q)).

Fixpoint run (p : prog S F) (q : queue S F) : queue S F :=
  match p with
  | Ret s => mk (pending q) (signalled q) (count q) s
  | Add obj res func data k => let (r, q) := add obj res func data q in run (k r) q
  | Cancel obj id k => run k (update (cancels obj id) cancelled q).2
  | Complete obj seq res k => let (r, q) := update (completes obj seq) (completed res) q in run (k r) q
  end.

(** An item that cannot run at position [k]. *)
Definition blocked (k : nat) (item : WorkItem F) : bool :=
  negb (seq item =? SPA_ID_INVALID) || ((res item =? SPA_RESULT_WAIT_SYNC) && negb (Nat.eqb k 0)).

Definition process_item (k : nat) (item : WorkItem F) (q : queue S F) : queue S F :=
  let q := mk (delete k (pending q)) (signalled q) (count q) (state q) in
  match func item with
  | Some f => run (call f (obj item) (data item) (res item) (id item) (state q)) q
  | None => q
  end.

(** The pass over the items from position [k] on; it ends behind the item that was
    last when it was reached, whatever that item's function adds. *)
Fixpoint pass (fuel : nat) (k : nat) (q : queue S F) : option (queue S F) :=
  match pending q !! k with
  | None => Some q
  | Some item =>
      match fuel with
      | O => None
      | Datatypes.S fuel' =>
          if blocked k item then pass fuel' (Datatypes.S k) q
          else
            let q' := process_item k item q in
            if Nat.eqb (Datatypes.S k) (length (pending q)) then Some q' else pass fuel' k q'
      end
  end.

Definition dispatch (fuel : nat) (q : queue S F) : option (queue S F) :=
  if signalled q then pass fuel 0 (mk (pending q) false (count q) (state q)) else Some q.
End Spec.
End Spec.

(** ** The pointers implement the sequence *)

Section Refinement.
Context {S F : Type} (call : F -> Z -> Z -> Z -> Z -> S -> prog S F) (malloc : heap -> option Z).
Context (malloc_fresh : forall h, exists p, malloc h = Some p /\ h !! p = None).
Context (work_list free_list : Z).
Local Abbreviation queue := (PinosWorkQueueImpl S F).

Definition item_at (m : gmap Z (WorkItem F)) (p : Z) : option (WorkItem F) := m !! p.

(** [out] is the item the work function of which is running, on neither list. *)
Record represents (out addrs free : list Z) (impl : queue) (q : Spec.queue S F) : Prop := {
  rp_rings : rings (links impl) [work_list :: addrs; free_list :: free];
  rp_out : NoDup (out ++ work_list :: addrs ++ free_list :: free) /\ Forall (fun p => p ∈ dom (links impl)) out;
  rp_items : item_at (items impl) <$> addrs = Some <$> Spec.pending q;
  rp_wakeup : wakeup impl = Spec.signalled q;
  rp_counter : counter impl = Spec.count q;
  rp_client : client impl = Spec.state q;
  rp_queued : n_queued impl = zlen (Spec.pending q)
}.

Lemma represents_heads out addrs free impl q : represents out addrs free impl q ->
  ring (links impl) (work_list :: addrs) /\ ring (links impl) (free_list :: free) /\ work_list ∉ addrs /\ free_list ∉ free /\
  NoDup (work_list :: addrs) /\ NoDup addrs /\ work_list <> free_list.
Proof.
  intros [[Hr Hnd] _ _ _ _ _ _]. apply Forall_cons in Hr as [Hr1 Hr]. apply Forall_cons in Hr as [Hr2 _].
  simpl in Hnd. rewrite app_nil_r in Hnd. apply NoDup_cons in Hnd as [Hw Hnd]. apply NoDup_app in Hnd as (Ha & Hd & Hf).
  apply NoDup_cons in Hf as [Hff Hf]. split_and!; try done; [set_solver | | set_solver]. apply NoDup_cons. set_solver.
Qed.

(** *** Changing items in place *)

Lemma item_at_frame m m' (addrs : list Z) : (forall p, p ∈ addrs -> m' !! p = m !! p) -> item_at m' <$> addrs = item_at m <$> addrs.
Proof. intros Hf. apply list_fmap_ext. intros i p Hp. by apply Hf, list_elem_of_lookup_2 with i. Qed.

Lemma update_refines (test : WorkItem F -> bool) (change : WorkItem F -> WorkItem F) (addrs : list Z) : NoDup addrs ->
  forall m pending hw, item_at m <$> addrs = Some <$> pending ->
  exists m', fold_outcome (update_if test change) addrs (m, hw) = Done (m', hw || existsb test pending) /\
    item_at m' <$> addrs = Some <$> map (fun item => if test item then change item else item) pending /\
    (forall p, p ∉ addrs -> m' !! p = m !! p).
Proof.
  induction addrs as [|a addrs IH]; intros Hnd m [|item pending] hw Hall; try done; [exists m; by rewrite orb_false_r |].
  apply NoDup_cons in Hnd as [Ha Hnd]. injection Hall as Hitem Hall.
  cbn [fold_outcome]. unfold update_if at 1. cbn [fst]. unfold item_at in Hitem. rewrite Hitem. cbn [of_option obind].
  set (m1 := if test item then <[a:=change item]> m else m).
  assert (forall p, p <> a -> m1 !! p = m !! p) as Hm1 by (intros p Hp; unfold m1; destruct (test item); [by rewrite lookup_insert_ne | done]).
  destruct (IH Hnd m1 pending (hw || test item)) as (m' & Hrun & Hall' & Hoth).
  { etransitivity; [| exact Hall]. apply item_at_frame. intros p Hp. apply Hm1. set_solver. }
  exists m'. split_and!.
  - rewrite <- orb_assoc in Hrun. cbn [existsb]. rewrite <- Hrun. unfold m1. by destruct (test item), hw.
  - cbn [map]. rewrite !fmap_cons. f_equal; [| exact Hall']. unfold item_at. rewrite Hoth by done. unfold m1.
    destruct (test item); [by rewrite lookup_insert_eq | done].
  - intros p Hp. rewrite Hoth, Hm1 by set_solver. done.
Qed.

(** The same for the state of a queue. *)
Lemma update_represents (test : WorkItem F -> bool) (change : WorkItem F -> WorkItem F) out addrs free impl q :
  represents out addrs free impl q ->
  exists m, spa_list_for_each (update_if test change) (links impl) work_list (items impl, false) = Done (m, (Spec.update test change q).1) /\
    represents out addrs free
      (mkQueue (links impl) m (wakeup impl || (Spec.update test change q).1) (counter impl) (n_queued impl) (client impl))
      (Spec.update test change q).2.
Proof.
  intros Hr. destruct (represents_heads _ _ _ _ _ Hr) as (Hring & _ & _ & _ & Hnd & Hnda & _).
  rewrite (for_each_ok _ _ _ _ _ Hring Hnd).
  destruct (update_refines test change addrs Hnda (items impl) _ false (rp_items _ _ _ _ _ Hr)) as (m & -> & Hm & _).
  exists m. split; [done |]. destruct Hr as [? ? ? Hw ? ? Hq]. split; simpl; try done; [by rewrite Hw | by rewrite zlen_map].
Qed.

(** *** Adding *)

Lemma nodup_lists out addrs free impl q : represents out addrs free impl q -> NoDup (out ++ concat [work_list :: addrs; free_list :: free]).
Proof. intros Hr. simpl. rewrite app_nil_r. apply Hr. Qed.

(** A node for the new item, from the free list or from the allocator. *)
Lemma take_node out addrs free impl q : represents out addrs free impl q ->
  exists p h free', (let* empty := spa_list_is_empty free_list (links impl) in
    if empty then
      Done (match malloc (links impl) with None => None | Some p => Some (p, <[p := mkList 0 0]> (links impl)) end)
    else
      let* p := spa_list_first free_list (links impl) in
      let* h := spa_list_remove p (links impl) in Done (Some (p, h))) = Done (Some (p, h)) /\
    rings h [work_list :: addrs; free_list :: free'] /\ p ∈ dom h /\ dom (links impl) ⊆ dom h /\
    NoDup (p :: out ++ work_list :: addrs ++ free_list :: free').
Proof.
  intros Hr. destruct (represents_heads _ _ _ _ _ Hr) as (_ & Hf & _ & Hff & _). pose proof (nodup_lists _ _ _ _ _ Hr) as Hnd.
  pose proof (rp_rings _ _ _ _ _ Hr) as Hrings. pose proof (rp_out _ _ _ _ _ Hr) as [Hnd' Hout].
  rewrite (is_empty_ok _ _ _ Hf Hff). cbn [obind]. destruct free as [|p free].
  - rewrite bool_decide_true by done. destruct (malloc_fresh (links impl)) as (p & -> & Hp).
    exists p, (<[p:=mkList 0 0]> (links impl)), []. split_and!; [done | by apply rings_extend | set_solver | set_solver |].
    apply NoDup_cons. split; [| done]. intros Hin.
    assert (p ∈ dom (links impl)) as [? ?]%elem_of_dom; [| congruence].
    rewrite Forall_forall in Hout. rewrite !elem_of_app in Hin. destruct Hin as [Hin | Hin]; [by apply Hout |].
    rewrite elem_of_cons, elem_of_app in Hin.
    destruct Hin as [-> | [Hin | Hin]]; eapply (rings_alloc _ _ _ _ Hrings);
      [by apply elem_of_cons; left | set_solver | by apply elem_of_cons; left | set_solver | apply elem_of_cons; right; by apply elem_of_cons; left | done].
  - rewrite bool_decide_false by done. rewrite (first_ok _ _ _ _ Hf). cbn [obind].
    destruct (remove_at (links impl) [work_list :: addrs] [free_list] p free [] Hrings) as (h & -> & Hrings' & D).
    exists p, h, free. split_and!; [done | done | | by rewrite D |].
    + rewrite D. eapply (rings_alloc _ _ _ _ Hrings); [apply elem_of_cons; right; by apply elem_of_cons; left | set_solver].
    + assert (p :: out ++ work_list :: addrs ++ free_list :: free ≡ₚ out ++ work_list :: addrs ++ free_list :: p :: free) as -> by solve_Permutation.
      done.
Qed.

Lemma add_represents out addrs free impl q o r fn d :
  represents out addrs free impl q ->
  exists impl' p free', pinos_work_queue_add malloc work_list free_list o r fn d impl = Done ((Spec.add o r fn d q).1, impl') /\
    represents out (addrs ++ [p]) free' impl' (Spec.add o r fn d q).2.
Proof.
  intros Hr. destruct (take_node _ _ _ _ _ Hr) as (p & h & free' & Hnode & Hrings & Hp & Hdom & Hnd).
  pose proof Hr as [_ [_ Hout] Hitems Hw Hc Hcl Hq].
  unfold pinos_work_queue_add, Spec.add. destruct (spa_list_is_empty free_list (links impl)) as [e| |]; [| done..]. cbn [obind] in Hnode |- *.
  rewrite Hnode. cbn [obind]. apply NoDup_cons in Hnd as [Hpn Hnd]. destruct (defer r) as [sq hw].
  destruct (append_tail h [] work_list addrs [free_list :: free'] p Hrings Hp) as (h' & Hins & Hrings' & D); [set_solver |].
  simpl app in Hrings'. destruct (get_prev work_list h) as [last| |]; [| done..]. cbn [obind] in Hins |- *. rewrite Hins. cbn [obind].
  rewrite Hc. eexists _, p, free'. split; [done |]. split; simpl; try done.
  - split.
    + assert (out ++ work_list :: (addrs ++ [p]) ++ free_list :: free' ≡ₚ p :: out ++ work_list :: addrs ++ free_list :: free') as -> by solve_Permutation.
      by apply NoDup_cons.
    + rewrite D. eapply Forall_impl; [exact Hout |]. intros k Hk. by apply Hdom.
  - rewrite !fmap_app. f_equal.
    + rewrite <- Hitems. apply item_at_frame. intros k Hk. rewrite lookup_insert_ne; [done |]. set_solver.
    + simpl. unfold item_at. by rewrite lookup_insert_eq.
  - by rewrite Hw.
  - rewrite zlen_app, Hq. done.
Qed.

(** A work function keeps the items in order and adds at the end. *)
Lemma run_represents pr : forall out addrs free impl q,
  represents out addrs free impl q ->
  exists impl' new free', run_prog malloc work_list free_list pr impl = Done impl' /\
    represents out (addrs ++ new) free' impl' (Spec.run pr q).
Proof.
  induction pr as [s | o r fn d k IH | o i k IH | o sq r k IH]; intros out addrs free impl q Hr; cbn [run_prog Spec.run].
  - eexists _, [], free. split; [done |]. rewrite app_nil_r. destruct Hr. by split.
  - destruct (add_represents out addrs free impl q o r fn d Hr) as (impl1 & p & free1 & -> & Hr1). cbn [obind].
    destruct (Spec.add o r fn d q) as [n q1]. destruct (IH n out _ _ _ _ Hr1) as (impl' & new & free' & Hrun & Hr').
    exists impl', (p :: new), free'. split; [done |]. by rewrite <- app_assoc in Hr'.
  - unfold pinos_work_queue_cancel. destruct (update_represents (cancels o i) cancelled _ _ _ _ _ Hr) as (m & -> & Hr1). cbn [obind].
    by eapply IH.
  - unfold pinos_work_queue_complete. destruct (update_represents (completes o sq) (completed r) _ _ _ _ _ Hr) as (m & -> & Hr1). cbn [obind].
    destruct (Spec.update (completes o sq) (completed r) q) as [b q1]. by eapply IH.
Qed.
(** *** Processing *)

Definition addr_at (addrs : list Z) (k : nat) : Z := default work_list (addrs !! k).

Lemma get_next_at addrs free impl q k b : represents [] addrs free impl q -> addrs !! k = Some b ->
  get_next b (links impl) = Done (addr_at addrs (Datatypes.S k)).
Proof.
  intros Hr Hk. destruct (represents_heads _ _ _ _ _ Hr) as (Hw & _).
  rewrite <- (take_drop_middle addrs k b Hk) in Hw. simpl in Hw. apply links_app in Hw as [_ Hw%chain_next].
  unfold get_next. fold (nxt (links impl) b). rewrite Hw. unfold addr_at.
  pose proof (lookup_drop addrs (Datatypes.S k) 0) as Hl. rewrite Nat.add_0_r in Hl. rewrite <- Hl. by destruct (drop (Datatypes.S k) addrs).
Qed.

Lemma get_next_head addrs free impl q : represents [] addrs free impl q -> get_next work_list (links impl) = Done (addr_at addrs 0).
Proof.
  intros Hr. destruct (represents_heads _ _ _ _ _ Hr) as (Hw%chain_next & _).
  unfold get_next. fold (nxt (links impl) work_list). rewrite Hw. by destruct addrs.
Qed.

Lemma process_item_represents l1 pos l2 free impl q item :
  represents [] (l1 ++ pos :: l2) free impl q -> Spec.pending q !! length l1 = Some item ->
  exists impl' new free', process_item call malloc work_list free_list pos item impl = Done impl' /\
    represents [] (l1 ++ l2 ++ new) free' impl' (Spec.process_item call (length l1) item q).
Proof.
  intros Hr Hitem. pose proof Hr as [Hrings [Hnd _] Hitems Hw Hc Hcl Hq]. unfold process_item, Spec.process_item.
  destruct (remove_at (links impl) [] (work_list :: l1) pos l2 [free_list :: free] Hrings) as (h & -> & Hrings1 & D1). cbn [obind].
  set (impl1 := mkQueue h _ _ _ _ _). set (q1 := Spec.mk (delete (length l1) (Spec.pending q)) _ _ _).
  assert (represents [pos] (l1 ++ l2) free impl1 q1) as Hr1.
  { split; simpl; try done.
    - split; [| apply Forall_singleton; rewrite D1; eapply (rings_alloc _ _ (work_list :: l1 ++ pos :: l2)); [exact Hrings | set_solver..]].
      assert (pos :: work_list :: (l1 ++ l2) ++ free_list :: free ≡ₚ [] ++ work_list :: (l1 ++ pos :: l2) ++ free_list :: free) as -> by solve_Permutation.
      done.
    - rewrite !delete_take_drop, !fmap_app, fmap_take, fmap_drop, <- Hitems. rewrite fmap_app.
      rewrite take_app_length' by by rewrite length_fmap. rewrite drop_app_ge by (rewrite length_fmap; lia).
      rewrite length_fmap. by replace (Datatypes.S (length l1) - length l1)%nat with 1%nat by lia.
    - rewrite Hq. unfold zlen. rewrite length_delete by done. apply lookup_lt_Some in Hitem. lia. }
  assert (exists impl2 new free2, (match func item with
      | Some f => run_prog malloc work_list free_list (call f (obj item) (data item) (res item) (id item) (client impl1)) impl1
      | None => Done impl1
      end) = Done impl2 /\ represents [pos] ((l1 ++ l2) ++ new) free2 impl2
        (match func item with Some f => Spec.run (call f (obj item) (data item) (res item) (id item) (Spec.state q)) q1 | None => q1 end))
    as (impl2 & new & free2 & -> & Hr2).
  { destruct (func item) as [f|]; [rewrite <- Hcl; eapply run_represents, Hr1 |].
    exists impl1, [], free. rewrite app_nil_r. done. }
  cbn [obind]. pose proof Hr2 as [Hrings2 [Hnd2 Hout2] ? ? ? ? ?]. apply Forall_cons in Hout2 as [Hout2 _].
  destruct (append_tail (links impl2) [work_list :: (l1 ++ l2) ++ new] free_list free2 [] pos Hrings2 Hout2) as (h3 & Hins & Hrings3 & D3).
  { simpl in Hnd2 |- *. apply NoDup_cons in Hnd2 as [Hpn _]. rewrite app_nil_r. exact Hpn. }
  destruct (get_prev free_list (links impl2)) as [last| |]; [| done..]. cbn [obind] in Hins |- *. rewrite Hins. cbn [obind].
  eexists _, new, (free2 ++ [pos]). split; [done |]. rewrite app_assoc. split; simpl; try done.
  split; [| by apply Forall_nil].
  assert (work_list :: ((l1 ++ l2) ++ new) ++ free_list :: free2 ++ [pos] ≡ₚ [pos] ++ work_list :: ((l1 ++ l2) ++ new) ++ free_list :: free2) as -> by solve_Permutation.
  done.
Qed.

Lemma first_is_head addrs free impl q k pos : represents [] addrs free impl q -> addrs !! k = Some pos ->
  exists first, spa_list_first work_list (links impl) = Done first /\ (pos =? first) = Nat.eqb k 0.
Proof.
  intros Hr Hk. unfold spa_list_first. rewrite (get_next_head _ _ _ _ Hr). eexists. split; [done |].
  destruct (represents_heads _ _ _ _ _ Hr) as (_ & _ & _ & _ & _ & Hnd & _). unfold addr_at.
  destruct addrs as [|a addrs]; [done |]. simpl. destruct k as [|k]; simpl in *; [simplify_eq; by rewrite Z.eqb_refl |].
  apply Z.eqb_neq. intros ->. apply NoDup_cons in Hnd as [Ha _]. apply Ha. by eapply list_elem_of_lookup_2.
Qed.

(** Moving on: [tmp] of the next turn is the node behind it. *)
Lemma next_from fuel addrs free impl q j : represents [] addrs free impl q ->
  (let* n := get_next (addr_at addrs j) (links impl) in process_from call malloc work_list free_list fuel (addr_at addrs j) n impl) =
  process_from call malloc work_list free_list fuel (addr_at addrs j) (addr_at addrs (Datatypes.S j)) impl.
Proof.
  intros Hr. destruct (addrs !! j) as [b|] eqn:Hb.
  - assert (addr_at addrs j = b) as -> by (unfold addr_at; by rewrite Hb). by rewrite (get_next_at _ _ _ _ _ _ Hr Hb).
  - assert (addr_at addrs j = work_list) as -> by (unfold addr_at; by rewrite Hb). rewrite (get_next_head _ _ _ _ Hr). cbn [obind].
    destruct fuel; simpl; by rewrite Z.eqb_refl.
Qed.

Lemma process_from_represents fuel : forall k addrs free impl q,
  represents [] addrs free impl q -> (k <= length addrs)%nat ->
  match Spec.pass call fuel k q with
  | Some q' => exists impl' addrs' free', process_from call malloc work_list free_list fuel (addr_at addrs k) (addr_at addrs (Datatypes.S k)) impl = Done impl' /\
      represents [] addrs' free' impl' q'
  | None => process_from call malloc work_list free_list fuel (addr_at addrs k) (addr_at addrs (Datatypes.S k)) impl = Undef
  end.
Proof.
  induction fuel as [|fuel IH]; intros k addrs free impl q Hr Hk;
    pose proof (f_equal length (rp_items _ _ _ _ _ Hr)) as Hlen; rewrite !length_fmap in Hlen.
  all: destruct (represents_heads _ _ _ _ _ Hr) as (_ & _ & Hwn & _); cbn [Spec.pass process_from].
  all: destruct (Spec.pending q !! k) as [item|] eqn:Hitem;
    [| exists impl, addrs, free; split; [| done]; unfold addr_at; rewrite lookup_ge_None_2 by (apply lookup_ge_None in Hitem; lia); simpl; by rewrite Z.eqb_refl].
  all: destruct (lookup_lt_is_Some_2 addrs k) as [pos Hpos]; [apply lookup_lt_Some in Hitem; lia |].
  all: assert (addr_at addrs k = pos) as -> by (unfold addr_at; by rewrite Hpos).
  all: rewrite (proj2 (Z.eqb_neq pos work_list)) by (intros ->; apply Hwn; by eapply list_elem_of_lookup_2).
  1: done.
  assert (items impl !! pos = Some item) as ->.
  { pose proof (f_equal (fun l => l !! k) (rp_items _ _ _ _ _ Hr)) as Hi. simpl in Hi. rewrite !list_lookup_fmap, Hpos, Hitem in Hi. simpl in Hi.
    by injection Hi. }
  cbn [of_option obind]. destruct (first_is_head _ _ _ _ _ _ Hr Hpos) as (first & -> & Hfirst). cbn [obind]. rewrite Hfirst.
  assert ((if negb (seq item =? SPA_ID_INVALID) then Done impl
      else if (res item =? SPA_RESULT_WAIT_SYNC) && negb (Nat.eqb k 0) then Done impl
      else process_item call malloc work_list free_list pos item impl)
    = if Spec.blocked k item then Done impl else process_item call malloc work_list free_list pos item impl) as ->
    by (unfold Spec.blocked; by destruct (negb (seq item =? _)), ((res item =? _) && _)).
  destruct (Spec.blocked k item).
  - cbn [obind]. rewrite (next_from _ _ _ _ _ _ Hr). apply lookup_lt_Some in Hpos. apply (IH _ _ _ _ _ Hr). lia.
  - pose proof (take_drop_middle addrs k pos Hpos) as Hsplit. set (l1 := take k addrs) in *. set (l2 := drop (Datatypes.S k) addrs) in *.
    assert (k = length l1) as Hkl by (unfold l1; rewrite length_take; lia).
    rewrite <- Hsplit in Hr. rewrite Hkl in Hitem.
    destruct (process_item_represents l1 pos l2 free impl q item Hr Hitem) as (impl' & new & free' & -> & Hr').
    rewrite <- Hkl in Hr'. cbn [obind].
    destruct (Nat.eqb_spec (Datatypes.S k) (length (Spec.pending q))) as [He | He].
    + assert (l2 = []) as Hl2 by (apply length_zero_iff_nil; unfold l2; rewrite length_drop; lia). rewrite Hl2 in Hr'.
      exists impl', (l1 ++ new), free'. split; [| exact Hr'].
      assert (addr_at addrs (Datatypes.S k) = work_list) as -> by (unfold addr_at; rewrite lookup_ge_None_2 by lia; done).
      rewrite (get_next_head _ _ _ _ Hr'). cbn [obind]. destruct fuel; simpl; by rewrite Z.eqb_refl.
    + assert (addr_at addrs (Datatypes.S k) = addr_at (l1 ++ l2 ++ new) k) as ->.
      { unfold addr_at. rewrite <- Hsplit, Hkl. rewrite !lookup_app_r by lia.
        replace (Datatypes.S (length l1) - length l1)%nat with 1%nat by lia. rewrite Nat.sub_diag. simpl.
        assert (length l2 <> 0%nat) by (unfold l2; rewrite length_drop; apply lookup_lt_Some in Hpos; lia). by destruct l2. }
      rewrite (next_from _ _ _ _ _ _ Hr'). apply (IH _ _ _ _ _ Hr'). rewrite length_app. lia.
Qed.

Lemma dispatch_represents fuel addrs free impl q : represents [] addrs free impl q ->
  match Spec.dispatch call fuel q with
  | Some q' => exists impl' addrs' free', dispatch call malloc work_list free_list fuel impl = Done impl' /\ represents [] addrs' free' impl' q'
  | None => dispatch call malloc work_list free_list fuel impl = Undef
  end.
Proof.
  intros Hr. unfold dispatch, Spec.dispatch. rewrite (rp_wakeup _ _ _ _ _ Hr). destruct (Spec.signalled q); [| by exists impl, addrs, free].
  assert (represents [] addrs free (mkQueue (links impl) (items impl) false (counter impl) (n_queued impl) (client impl))
    (Spec.mk (Spec.pending q) false (Spec.count q) (Spec.state q))) as Hr' by (destruct Hr; by split).
  unfold process_work_queue, spa_list_first. cbn [links]. rewrite (get_next_head _ _ _ _ Hr). cbn [obind].
  pose proof (next_from fuel _ _ _ _ 0 Hr') as Hn. cbn [links] in Hn. rewrite Hn. apply (process_from_represents fuel 0 _ _ _ _ Hr'). lia.
Qed.

Lemma new_represents s h0 : work_list <> free_list -> work_list ∈ dom h0 -> free_list ∈ dom h0 ->
  exists impl, pinos_work_queue_new work_list free_list h0 s = Done impl /\ represents [] [] [] impl (Spec.mk (S := S) (F := F) [] false 0 s).
Proof.
  intros Hne Hw Hf. destruct (op_refines (Init work_list) h0 []) as (h1 & Hi1 & Hr1 & D1);
    [split; [by apply Forall_nil | apply NoDup_nil_2] | split; [done | set_solver] |].
  destruct (op_refines (Init free_list) h1 [[work_list]] Hr1) as (h2 & Hi2 & Hr2 & D2); [split; [by rewrite D1 | set_solver] |].
  simpl in Hi1, Hi2. unfold pinos_work_queue_new. rewrite Hi1. cbn [obind]. rewrite Hi2. cbn [obind]. eexists. split; [done |].
  split; try done. split; [| by apply Forall_nil]. simpl. apply NoDup_cons. split; [set_solver | apply NoDup_singleton].
Qed.
End Refinement.

(** *** Destroying *)

Lemma free_from_ok head l : forall fuel a h,
  chain h a l head -> NoDup (head :: a :: l) -> (length l < fuel)%nat ->
  (let* tmp := get_next a h in free_from fuel head a tmp h) = Done (foldr delete h (reverse (a :: l))).
Proof.
  induction l as [|b l IH]; intros fuel a h Hc Hnd Hf; (destruct fuel as [|fuel]; [simpl in Hf; lia |]);
    unfold get_next; fold (nxt h a); rewrite (chain_next _ _ _ _ Hc); cbn [of_option obind hd_error app];
    cbn [free_from]; apply NoDup_cons in Hnd as [Hh Hnd]; (rewrite (proj2 (Z.eqb_neq a head)) by set_solver).
  - unfold get_next. rewrite lookup_delete_ne by set_solver. destruct Hc as [_ Hp].
    destruct (h !! head) as [n|] eqn:Hn; [| unfold prv in Hp; by rewrite Hn in Hp]. cbn [of_option obind fmap option_fmap option_map].
    destruct fuel; simpl; by rewrite Z.eqb_refl.
  - destruct Hc as (_ & _ & Hc). apply NoDup_cons in Hnd as [Ha Hnd].
    assert (chain (delete a h) b l head) as Hc'.
    { eapply chain_frame; [| | exact Hc]; intros k Hk; unfold nxt, prv; rewrite lookup_delete_ne; [done | set_solver | done | set_solver]. }
    simpl in Hf. rewrite (IH fuel b (delete a h) Hc'); [| apply NoDup_cons; set_solver | lia].
    f_equal. rewrite !reverse_cons, !foldr_app. done.
Qed.

Lemma foldr_delete_lookup (l : list Z) (h : heap) k : foldr delete h l !! k = if decide (k ∈ l) then None else h !! k.
Proof.
  induction l as [|a l IH]; cbn [foldr]; [by rewrite decide_False by set_solver |].
  destruct (decide (k = a)) as [-> | Hk]; [rewrite lookup_delete_eq, decide_True by set_solver; done |].
  rewrite lookup_delete_ne, IH by done. destruct (decide (k ∈ l)); [rewrite decide_True by set_solver | rewrite decide_False by set_solver]; done.
Qed.

Lemma free_list_items_ok h head l : ring h (head :: l) -> NoDup (head :: l) ->
  exists h', free_list_items head h = Done h' /\ forall k, h' !! k = if decide (k ∈ l) then None else h !! k.
Proof.
  intros Hr Hnd. pose proof (ring_size h head l Hr Hnd) as Hs. unfold free_list_items.
  destruct l as [|a l].
  - destruct Hr as [Hn _]. unfold get_next at 1. fold (nxt h head). rewrite Hn. cbn [of_option obind].
    unfold get_next. fold (nxt h head). rewrite Hn. cbn [of_option obind]. exists h. split; [destruct (size h); simpl; by rewrite Z.eqb_refl |].
    intros k. by rewrite decide_False by set_solver.
  - destruct Hr as (Hn & _ & Hc). unfold get_next at 1. fold (nxt h head). rewrite Hn. cbn [of_option obind].
    rewrite (free_from_ok head l _ a h Hc Hnd) by (simpl in Hs; lia). eexists. split; [done |]. intros k. rewrite foldr_delete_lookup.
    destruct (decide (k ∈ a :: l)); [rewrite decide_True by by apply elem_of_reverse | rewrite decide_False by by rewrite elem_of_reverse]; done.
Qed.

(** Destroying frees every item and nothing else of the client's memory. *)
Lemma destroy_frees {S F} work_list free_list addrs free (impl : PinosWorkQueueImpl S F) q :
  represents work_list free_list [] addrs free impl q ->
  exists h, pinos_work_queue_destroy work_list free_list impl = Done h /\
    forall k, h !! k = if decide (k ∈ work_list :: addrs ++ free_list :: free) then None else links impl !! k.
Proof.
  intros [[Hr Hnd] _ _ _ _ _ _]. apply Forall_cons in Hr as [Hr1 Hr]. apply Forall_cons in Hr as [Hr2 _].
  simpl in Hnd. rewrite app_nil_r in Hnd. pose proof Hnd as Hall. rewrite app_comm_cons in Hnd. apply NoDup_app in Hnd as (Hn1 & Hd & Hn2).
  unfold pinos_work_queue_destroy. destruct (free_list_items_ok _ _ _ Hr1 Hn1) as (h1 & -> & L1). cbn [obind].
  assert (ring h1 (free_list :: free)) as Hr2'.
  { apply (ring_frame (links impl)); [| done]. intros k Hk. rewrite L1, decide_False; [done |]. intros Ha. apply (Hd k); set_solver. }
  destruct (free_list_items_ok _ _ _ Hr2' Hn2) as (h2 & -> & L2). cbn [obind]. eexists. split; [done |]. intros k.
  rewrite !lookup_delete, L2, L1.
  repeat case_decide; subst; try done; exfalso; set_solver.
Qed.

(** ** Properties of the sequence *)

Section SpecProperties.
Context {S F : Type} (call : F -> Z -> Z -> Z -> Z -> S -> prog S F).
Implicit Types (q : Spec.queue S F) (item : WorkItem F).

(** *** Nothing is forgotten *)

Definition awake q : Prop :=
  Spec.signalled q = true \/ forall k item, Spec.pending q !! k = Some item -> Spec.blocked k item = true.

(** The items before position [k] are accounted for. *)
Definition awake_to (n : nat) q : Prop :=
  Spec.signalled q = true \/ forall k item, (k < n)%nat -> Spec.pending q !! k = Some item -> Spec.blocked k item = true.

Lemma defer_blocked res (sq : Z) hw k n o fn d : defer res = (sq, hw) -> hw = false -> Spec.blocked (F := F) k (mkItem n o sq res fn d) = true.
Proof.
  unfold defer. destruct (SPA_RESULT_IS_ASYNC res); [| case_if; by intros [= <- <-]]. intros [= <- <-] _.
  unfold Spec.blocked. cbn [seq]. rewrite ASYNC_SEQ_mod. unfold SPA_ID_INVALID. pose proof (Z.mod_pos_bound res (2 ^ 30)).
  rewrite (proj2 (Z.eqb_neq _ _)) by lia. done.
Qed.

Lemma add_awake n q o r fn d : awake_to n q -> awake_to n (Spec.add o r fn d q).2.
Proof.
  unfold awake_to, Spec.add. destruct (defer r) as [sq hw] eqn:Hd. simpl. intros [-> | Ha]; [by left |].
  destruct hw; [left; apply orb_true_r |]. right. intros k item Hk [Hi | [Hge Hi]]%lookup_app_Some; [by eapply Ha |].
  apply list_lookup_singleton_Some in Hi as [_ <-]. by eapply defer_blocked.
Qed.

Lemma update_awake test change n q : awake_to n q -> awake_to n (Spec.update test change q).2.
Proof.
  unfold awake_to, Spec.update. simpl. intros [-> | Ha]; [by left |].
  destruct (existsb test (Spec.pending q)) eqn:He; [left; apply orb_true_r |]. right. intros k item Hk Hi.
  apply list_lookup_fmap_Some in Hi as (it & -> & Hit).
  destruct (test it) eqn:Ht; [| by eapply Ha].
  assert (existsb test (Spec.pending q) = true); [| congruence]. apply existsb_exists. exists it. split; [| done].
  apply list_elem_of_In. by eapply list_elem_of_lookup_2.
Qed.

Lemma run_awake pr : forall n q, awake_to n q -> awake_to n (Spec.run pr q).
Proof.
  induction pr as [s | o r fn d k IH | o i k IH | o sq r k IH]; intros n q Ha; cbn [Spec.run].
  - exact Ha.
  - pose proof (add_awake n q o r fn d Ha). destruct (Spec.add o r fn d q). by apply IH.
  - by apply IH, update_awake.
  - pose proof (update_awake (completes o sq) (completed r) n q Ha). destruct (Spec.update _ _ q). by apply IH.
Qed.

Lemma awake_all n q : awake_to n q -> (length (Spec.pending q) <= n)%nat -> awake q.
Proof. intros [? | Ha] Hn; [by left | right]. intros k item Hi. eapply Ha; [| done]. apply lookup_lt_Some in Hi. lia. Qed.

Lemma awake_awake_to n q : awake q -> awake_to n q.
Proof. intros [? | Ha]; [by left | right; eauto]. Qed.

(** The queue grows at its end only. *)
Lemma run_length pr : forall q, (length (Spec.pending q) <= length (Spec.pending (Spec.run pr q)))%nat.
Proof.
  induction pr as [s | o r fn d k IH | o i k IH | o sq r k IH]; intros q; cbn [Spec.run].
  - done.
  - unfold Spec.add. destruct (defer r). etransitivity; [| apply IH]. simpl. rewrite length_app. lia.
  - etransitivity; [| apply IH]. simpl. by rewrite length_map.
  - unfold Spec.update. etransitivity; [| apply IH]. simpl. by rewrite length_map.
Qed.

Definition taken k q : Spec.queue S F := Spec.mk (delete k (Spec.pending q)) (Spec.signalled q) (Spec.count q) (Spec.state q).

Lemma process_item_unfold k item q : Spec.process_item call k item q =
  match func item with
  | Some f => Spec.run (call f (obj item) (data item) (res item) (id item) (Spec.state q)) (taken k q)
  | None => taken k q
  end.
Proof. done. Qed.

Lemma taken_awake k q : awake_to k q -> awake_to k (taken k q).
Proof.
  intros [? | Ha]; [by left | right]. simpl. intros j it Hj. rewrite list_lookup_delete_lt by done. by apply Ha.
Qed.

Lemma process_item_length k item q : Spec.pending q !! k = Some item ->
  (length (Spec.pending q) <= Datatypes.S (length (Spec.pending (Spec.process_item call k item q))))%nat.
Proof.
  intros Hi. rewrite process_item_unfold.
  assert (length (Spec.pending q) = Datatypes.S (length (Spec.pending (taken k q)))) as ->.
  { simpl. rewrite length_delete by done. apply lookup_lt_Some in Hi. lia. }
  destruct (func item); [| done]. apply le_n_S, run_length.
Qed.

Lemma process_item_awake k n item q : awake_to n (taken k q) -> awake_to n (Spec.process_item call k item q).
Proof. intros Ha. rewrite process_item_unfold. destruct (func item); [by apply run_awake | done]. Qed.

Lemma pass_awake fuel : forall k q q', (k <= length (Spec.pending q))%nat -> awake_to k q -> Spec.pass call fuel k q = Some q' -> awake q'.
Proof.
  induction fuel as [|fuel IH]; intros k q q' Hk Ha; cbn [Spec.pass]; destruct (Spec.pending q !! k) as [item|] eqn:Hi; try done.
  1, 3: intros [= <-]; apply lookup_ge_None in Hi; by eapply awake_all.
  pose proof (lookup_lt_Some _ _ _ Hi) as Hlt. destruct (Spec.blocked k item) eqn:Hb.
  - apply IH; [lia |]. destruct Ha as [? | Ha]; [by left | right]. intros j it Hj Hit.
    destruct (decide (j = k)) as [-> | ?]; [congruence | eapply Ha; [lia | done]].
  - apply taken_awake in Ha. pose proof (process_item_length k item q Hi).
    destruct (Nat.eqb_spec (Datatypes.S k) (length (Spec.pending q))) as [He | He].
    + intros [= <-]. eapply awake_all; [| done]. apply process_item_awake, awake_awake_to. eapply awake_all; [exact Ha |].
      simpl. rewrite length_delete by done. lia.
    + apply IH; [lia |]. by apply process_item_awake.
Qed.

Lemma dispatch_awake fuel q q' : awake q -> Spec.dispatch call fuel q = Some q' -> awake q'.
Proof.
  unfold Spec.dispatch. destruct (Spec.signalled q) eqn:Hs; [| by intros ? [= <-]]. intros _. apply pass_awake; [lia |].
  right. intros. lia.
Qed.

(** *** Every pass ends *)

(** [left s]: how many items the client may still add. *)
Context (left : S -> nat).

Fixpoint bounded (pr : prog S F) (n : nat) : Prop :=
  match pr with
  | Ret s => (left s <= n)%nat
  | Add _ _ _ _ k => match n with O => False | Datatypes.S n => forall r, bounded (k r) n end
  | Cancel _ _ k => bounded k n
  | Complete _ _ _ k => forall b, bounded (k b) n
  end.

Context (call_bounded : forall f o d r i s, bounded (call f o d r i s) (left s)).

Lemma run_bounded pr : forall n q, bounded pr n ->
  (length (Spec.pending (Spec.run pr q)) + left (Spec.state (Spec.run pr q)) <= length (Spec.pending q) + n)%nat.
Proof.
  induction pr as [s | o r fn d k IH | o i k IH | o sq r k IH]; intros n q; cbn [Spec.run bounded].
  - simpl. lia.
  - destruct n as [|n]; [done |]. unfold Spec.add. destruct (defer r). intros Hb.
    etransitivity; [apply (IH _ n); by apply Hb |]. simpl. rewrite length_app. simpl. lia.
  - intros Hb. etransitivity; [apply (IH n _ Hb) |]. simpl. by rewrite length_map.
  - unfold Spec.update. intros Hb. etransitivity; [apply (IH _ n); by apply Hb |]. simpl. by rewrite length_map.
Qed.

Lemma process_item_bounded k item q : Spec.pending q !! k = Some item ->
  (length (Spec.pending (Spec.process_item call k item q)) + left (Spec.state (Spec.process_item call k item q))
   < length (Spec.pending q) + left (Spec.state q))%nat.
Proof.
  intros Hi. assert (length (Spec.pending q) = Datatypes.S (length (Spec.pending (taken k q)))) as ->.
  { simpl. rewrite length_delete by done. apply lookup_lt_Some in Hi. lia. }
  rewrite process_item_unfold. destruct (func item) as [f|]; [| simpl; lia].
  pose proof (run_bounded _ _ (taken k q) (call_bounded f (obj item) (data item) (res item) (id item) (Spec.state q))). lia.
Qed.

Lemma pass_total fuel : forall k q, (length (Spec.pending q) + left (Spec.state q) <= fuel + k)%nat -> exists q', Spec.pass call fuel k q = Some q'.
Proof.
  induction fuel as [|fuel IH]; intros k q Hf; cbn [Spec.pass]; destruct (Spec.pending q !! k) as [item|] eqn:Hi; try by eexists.
  - apply lookup_lt_Some in Hi. lia.
  - destruct (Spec.blocked k item); [apply IH; lia |]. pose proof (process_item_bounded k item q Hi).
    destruct (Nat.eqb _ _); [by eexists | apply IH; lia].
Qed.

Lemma dispatch_total fuel q : (length (Spec.pending q) + left (Spec.state q) <= fuel)%nat -> exists q', Spec.dispatch call fuel q = Some q'.
Proof. intros Hf. unfold Spec.dispatch. destruct (Spec.signalled q); [apply pass_total; simpl; lia | by eexists]. Qed.
End SpecProperties.

(** ** Runs of clients and wakeups *)

Inductive event (S F : Type) := Client (p : prog S F) | Wakeup.
Arguments Client {S F}.
Arguments Wakeup {S F}.

Section Events.
Context {S F : Type} (call : F -> Z -> Z -> Z -> Z -> S -> prog S F) (malloc : heap -> option Z).
Context (work_list free_list : Z) (left : S -> nat).
Local Abbreviation queue := (PinosWorkQueueImpl S F).

(** Enough for a pass: what is queued, and what may be added meanwhile. *)
Definition fuel_of (impl : queue) : nat := Z.to_nat (n_queued impl) + left (client impl).

Definition run_event (e : event S F) (impl : queue) : outcome queue :=
  match e with
  | Client p => run_prog malloc work_list free_list p impl
  | Wakeup => dispatch call malloc work_list free_list (fuel_of impl) impl
  end.
Definition run_events (es : list (event S F)) (impl : queue) : outcome queue := fold_outcome run_event es impl.

Definition spec_event (q : Spec.queue S F) (e : event S F) : Spec.queue S F :=
  match e with
  | Client p => Spec.run p q
  | Wakeup => default q (Spec.dispatch call (length (Spec.pending q) + left (Spec.state q)) q)
  end.
Definition spec_events (es : list (event S F)) (q : Spec.queue S F) : Spec.queue S F := foldl spec_event q es.

Context (malloc_fresh : forall h, exists p, malloc h = Some p /\ h !! p = None).
Context (call_bounded : forall f o d r i s, bounded left (call f o d r i s) (left s)).

Lemma event_represents e addrs free impl q : represents work_list free_list [] addrs free impl q ->
  exists impl' addrs' free', run_event e impl = Done impl' /\ represents work_list free_list [] addrs' free' impl' (spec_event q e).
Proof.
  intros Hr. destruct e as [p |]; simpl.
  - destruct (run_represents malloc malloc_fresh work_list free_list p [] addrs free impl q Hr) as (impl' & new & free' & Hrun & Hr').
    by exists impl', (addrs ++ new), free'.
  - assert (fuel_of impl = length (Spec.pending q) + left (Spec.state q))%nat as ->.
    { unfold fuel_of. rewrite (rp_queued _ _ _ _ _ _ _ Hr), (rp_client _ _ _ _ _ _ _ Hr), to_nat_zlen. done. }
    destruct (dispatch_total call left call_bounded _ q (le_n _)) as [q' Hq].
    pose proof (dispatch_represents call malloc malloc_fresh work_list free_list (length (Spec.pending q) + left (Spec.state q)) addrs free impl q Hr) as Hd.
    rewrite Hq in Hd |- *. exact Hd.
Qed.

Lemma events_represent es : forall addrs free impl q, represents work_list free_list [] addrs free impl q ->
  exists impl' addrs' free', run_events es impl = Done impl' /\ represents work_list free_list [] addrs' free' impl' (spec_events es q).
Proof.
  induction es as [|e es IH]; intros addrs free impl q Hr; [by exists impl, addrs, free |].
  destruct (event_represents e _ _ _ _ Hr) as (impl1 & addrs1 & free1 & Hrun & Hr1).
  unfold run_events. cbn [fold_outcome]. rewrite Hrun. cbn [obind]. by apply (IH addrs1 free1).
Qed.

Lemma events_awake es : forall q, awake q -> awake (spec_events es q).
Proof.
  induction es as [|e es IH]; intros q Ha; [done |]. apply IH. destruct e as [p |]; simpl.
  - eapply awake_all; [apply run_awake, awake_awake_to, Ha | done].
  - destruct (dispatch_total call left call_bounded _ q (le_n _)) as [q' Hq]. rewrite Hq. by eapply dispatch_awake.
Qed.

(** C23: the pointer implementation of the work queue refines the queue on a sequence:
    from a new queue, whatever clients and work functions do in whatever order (add,
    cancel and complete items, also from inside a work function while the list is being
    walked), the items queued, the result each holds, the counters, the wakeup event and
    the client's state are those of the specification, and no memory is touched that should
    not be.  Two things are supposed: [malloc] grants a block the queue does not use yet
    ([malloc_fresh]; when it refuses, [pinos_work_queue_add] answers [SPA_ID_INVALID] and queues
    nothing, which this theorem leaves aside), and the items work functions still add are
    bounded by a number that their state holds ([call_bounded]).  The
    bound is what ends a wakeup: where two items are queued whose work functions each add
    another such item, the walk of the list never comes to its end. *)
Theorem work_queue_refines h s es :
  work_list <> free_list -> work_list ∈ dom h -> free_list ∈ dom h ->
  exists impl0 impl addrs free, pinos_work_queue_new (F := F) work_list free_list h s = Done impl0 /\ run_events es impl0 = Done impl /\
    represents work_list free_list [] addrs free impl (spec_events es (Spec.mk [] false 0 s)).
Proof.
  intros Hne Hw Hf. destruct (new_represents (F := F) malloc malloc_fresh work_list free_list s h Hne Hw Hf) as (impl0 & Hnew & Hr).
  destruct (events_represent es _ _ _ _ Hr) as (impl & addrs & free & Hrun & Hr'). by exists impl0, impl, addrs, free.
Qed.

(** C22: no wakeup is lost: in any reachable state of the work queue, unless its event is
    signalled, every queued item still waits for its asynchronous result, or is a
    synchronisation item behind another item. *)
Theorem no_lost_wakeup h s es impl0 impl addrs :
  work_list <> free_list -> work_list ∈ dom h -> free_list ∈ dom h ->
  pinos_work_queue_new (F := F) work_list free_list h s = Done impl0 -> run_events es impl0 = Done impl ->
  spa_list_for_each collect (links impl) work_list [] = Done addrs ->
  wakeup impl = true \/ forall k p item, addrs !! k = Some p -> items impl !! p = Some item ->
    seq item <> SPA_ID_INVALID \/ (res item = SPA_RESULT_WAIT_SYNC /\ k <> 0%nat).
Proof.
  intros Hne Hw Hf Hnew Hrun Hwalk. destruct (new_represents (F := F) malloc malloc_fresh work_list free_list s h Hne Hw Hf) as (impl1 & Hnew' & Hr).
  rewrite Hnew in Hnew'. injection Hnew' as <-. destruct (events_represent es _ _ _ _ Hr) as (impl' & addrs' & free & Hrun' & Hr').
  rewrite Hrun in Hrun'. injection Hrun' as <-. destruct (represents_heads malloc malloc_fresh _ _ _ _ _ _ _ Hr') as (Hring & _ & _ & _ & Hnd & _).
  rewrite (for_each_ok _ _ _ _ _ Hring Hnd), collect_all in Hwalk. injection Hwalk as <-.
  rewrite (rp_wakeup _ _ _ _ _ _ _ Hr'). destruct (events_awake es (Spec.mk [] false 0 s)) as [? | Ha]; [by right; intros k it [=] | by left | right].
  intros k p item Hp Hitem. pose proof (f_equal (fun l => l !! k) (rp_items _ _ _ _ _ _ _ Hr')) as Hi. simpl in Hi.
  rewrite !list_lookup_fmap, Hp in Hi. simpl in Hi. unfold item_at in Hi. rewrite Hitem in Hi.
  destruct (Spec.pending _ !! k) as [it|] eqn:Hit; [| done]. injection Hi as <-. specialize (Ha k item Hit).
  unfold Spec.blocked in Ha. apply orb_true_iff in Ha as [Ha%negb_true_iff%Z.eqb_neq | [Ha1%Z.eqb_eq Ha2%negb_true_iff%Nat.eqb_neq]%andb_true_iff]; auto.
Qed.
End Events.

(** ** What a pass runs, in which order *)

Section Settle.
Context {S F : Type} (effect : F -> Z -> Z -> Z -> Z -> S -> S).

(** The items left and the items run: a waiting item holds back the synchronisation
    items behind it, and nothing else. *)
Fixpoint settle (k : nat) (l : list (WorkItem F)) : list (WorkItem F) * list (WorkItem F) :=
  match l with
  | [] => ([], [])
  | item :: l =>
      if Spec.blocked k item then let (kept, ran) := settle (Datatypes.S k) l in (item :: kept, ran)
      else let (kept, ran) := settle k l in (kept, item :: ran)
  end.

Definition run_item (s : S) (item : WorkItem F) : S :=
  match func item with Some f => effect f (obj item) (data item) (res item) (id item) s | None => s end.

(** Work functions that leave the queue alone. *)
Definition quiet (f : F) (o d r i : Z) (s : S) : prog S F := Ret (effect f o d r i s).

Lemma pass_settles rest : forall fuel kept sg n s, (length rest <= fuel)%nat ->
  Spec.pass quiet fuel (length kept) (Spec.mk (kept ++ rest) sg n s) =
  Some (Spec.mk (kept ++ (settle (length kept) rest).1) sg n (foldl run_item s (settle (length kept) rest).2)).
Proof.
  induction rest as [|item rest IH]; intros fuel kept sg n s Hf.
  { rewrite !app_nil_r. destruct fuel; cbn [Spec.pass Spec.pending]; by rewrite lookup_ge_None_2. }
  destruct fuel as [|fuel]; [simpl in Hf; lia |]. simpl in Hf. cbn [Spec.pass Spec.pending settle].
  rewrite list_lookup_middle by done. destruct (Spec.blocked (length kept) item) eqn:Hb.
  - pose proof (IH fuel (kept ++ [item]) sg n s ltac:(lia)) as H. rewrite length_app, Nat.add_1_r, <- !app_assoc in H. simpl in H.
    rewrite H. by destruct (settle (Datatypes.S (length kept)) rest).
  - assert (Spec.process_item quiet (length kept) item (Spec.mk (kept ++ item :: rest) sg n s) = Spec.mk (kept ++ rest) sg n (run_item s item)) as ->.
    { unfold Spec.process_item, run_item, quiet. cbn [Spec.pending Spec.signalled Spec.count Spec.state].
      rewrite delete_middle. by destruct (func item). }
    destruct (settle (length kept) rest) as [kp rn] eqn:Hs. cbn [fst snd foldl].
    destruct (Nat.eqb_spec (Datatypes.S (length kept)) (length (kept ++ item :: rest))) as [He | He].
    + rewrite length_app in He. simpl in He. assert (rest = []) as -> by (apply length_zero_iff_nil; lia).
      simpl in Hs. injection Hs as <- <-. done.
    + rewrite IH by lia. by rewrite Hs.
Qed.

Lemma settle_done l : Forall (fun item => seq item = SPA_ID_INVALID) l -> settle 0 l = ([], l).
Proof.
  induction 1 as [|item l Hi _ IH]; [done |]. simpl. unfold Spec.blocked. rewrite Hi, Z.eqb_refl, andb_false_r. simpl. by rewrite IH.
Qed.

(** what a wakeup does: in any state of the queue, work functions that leave the
    queue alone run once each and in queue order, with the result of their item, for
    exactly the items that neither wait for a result nor are held back by one that
    does; the others stay queued in order. In particular, once every asynchronous
    result has arrived, one wakeup empties the queue. *)
Theorem dispatch_settles malloc work_list free_list addrs free impl q fuel :
  (forall h, exists p, malloc h = Some p /\ h !! p = None) ->
  represents work_list free_list [] addrs free impl q -> wakeup impl = true -> (length addrs <= fuel)%nat ->
  (exists impl' addrs' free', dispatch quiet malloc work_list free_list fuel impl = Done impl' /\
    represents work_list free_list [] addrs' free' impl'
      (Spec.mk (settle 0 (Spec.pending q)).1 false (Spec.count q) (foldl run_item (Spec.state q) (settle 0 (Spec.pending q)).2))) /\
  (Forall (fun item => seq item = SPA_ID_INVALID) (Spec.pending q) -> settle 0 (Spec.pending q) = ([], Spec.pending q)).
Proof.
  intros Hm Hr Hwake Hf. split; [| apply settle_done].
  pose proof (dispatch_represents quiet malloc Hm work_list free_list fuel addrs free impl q Hr) as Hd.
  unfold Spec.dispatch in Hd. rewrite <- (rp_wakeup _ _ _ _ _ _ _ Hr), Hwake in Hd.
  pose proof (f_equal length (rp_items _ _ _ _ _ _ _ Hr)) as Hlen. rewrite !length_fmap in Hlen.
  pose proof (pass_settles (Spec.pending q) fuel [] false (Spec.count q) (Spec.state q)) as Hp. simpl in Hp.
  rewrite Hp in Hd by lia. exact Hd.
Qed.
End Settle.

(** ** A run: an asynchronous item, a synchronisation item behind it, a plain one *)

Definition sample_malloc (h : heap) : option Z := Some (base.fresh (dom h : gset Z)).
Definition log_item (f o d r i : Z) (s : list (Z * Z)) : list (Z * Z) := s ++ [(f, r)].
Definition sample_queue_heap : heap := {[1 := mkList 0 0; 2 := mkList 0 0]}.
Definition sample_events : list (event (list (Z * Z)) Z) :=
  [Client (Add 7 (SPA_RESULT_RETURN_ASYNC 5) (Some 100) 0 (fun _ => Add 7 SPA_RESULT_WAIT_SYNC (Some 200) 0 (fun _ => Add 8 SPA_RESULT_OK (Some 300) 0 (fun _ => Ret []))));
   Wakeup].

Lemma sample_malloc_fresh h : exists p, sample_malloc h = Some p /\ h !! p = None.
Proof. eexists. split; [done |]. apply not_elem_of_dom, is_fresh. Qed.

Lemma sample_bounded f o d r i s : bounded (fun _ => 0%nat) (quiet log_item f o d r i s) 0.
Proof. simpl. lia. Qed.

(** Work functions that use the queue while it is walked: as long as the count in their
    state allows it they add an item, cancel those of the object 9 and complete the
    asynchronous one. *)
Definition busy (f o d r i : Z) (s : list (Z * Z) * nat) : prog (list (Z * Z) * nat) Z :=
  match s.2 with
  | O => Ret (s.1 ++ [(f, r)], 0%nat)
  | Datatypes.S n => Add 8 SPA_RESULT_OK (Some (f + 1)) 0 (fun _ =>
      Cancel 9 SPA_ID_INVALID (Complete 7 5 SPA_RESULT_ERROR (fun _ => Ret (s.1 ++ [(f, r)], n))))
  end.
Definition busy_events : list (event (list (Z * Z) * nat) Z) :=
  [Client (Add 7 (SPA_RESULT_RETURN_ASYNC 5) (Some 100) 0 (fun _ => Add 7 SPA_RESULT_WAIT_SYNC (Some 200) 0 (fun _ =>
     Add 8 SPA_RESULT_OK (Some 300) 0 (fun _ => Add 9 SPA_RESULT_OK (Some 400) 0 (fun _ => Ret ([], 2%nat))))));
   Wakeup].

Lemma busy_bounded f o d r i s : bounded (fun s => s.2) (busy f o d r i s) s.2.
Proof. unfold busy. destruct s as [l [|n]]; cbn; [lia |]. intros _ _. lia. Qed.

(** In the first wakeup the work function of 300 adds 301, cancels the item of object 9, which
    is next in the walk, and completes the one before it; 301 adds 302 when the walk has
    already taken what follows 301.  The second wakeup runs what the completion set
    free, and 302. *)
Lemma work_queue_refines_witness :
  Spec.state (spec_events busy (fun s => s.2) busy_events (Spec.mk [] false 0 ([], 0%nat))) = ([(300, 0); (301, 0)], 0%nat) /\
  Spec.state (spec_events busy (fun s => s.2) (busy_events ++ [Wakeup]) (Spec.mk [] false 0 ([], 0%nat))) =
    ([(300, 0); (301, 0); (100, SPA_RESULT_ERROR); (200, SPA_RESULT_WAIT_SYNC); (302, 0)], 0%nat) /\
  exists impl0 impl addrs free, pinos_work_queue_new (F := Z) 1 2 sample_queue_heap ([], 0%nat) = Done impl0 /\
    run_events busy sample_malloc 1 2 (fun s => s.2) (busy_events ++ [Wakeup]) impl0 = Done impl /\
    represents 1 2 [] addrs free impl
      (spec_events busy (fun s => s.2) (busy_events ++ [Wakeup]) (Spec.mk [] false 0 ([], 0%nat))).
Proof.
  split; [by vm_compute |]. split; [by vm_compute |].
  apply (work_queue_refines busy sample_malloc 1 2 (fun s => s.2) sample_malloc_fresh busy_bounded
    sample_queue_heap ([], 0%nat) (busy_events ++ [Wakeup])); [done | |]; apply (bool_decide_unpack _); by vm_compute.
Defined.

Definition sample_state : outcome (PinosWorkQueueImpl (list (Z * Z)) Z) :=
  let* impl := pinos_work_queue_new 1 2 sample_queue_heap [] in
  run_events (quiet log_item) sample_malloc 1 2 (fun _ => 0%nat) sample_events impl.

(** The two items that wait: the asynchronous one and the synchronisation item. *)
Lemma no_lost_wakeup_witness :
  exists impl0 impl addrs, pinos_work_queue_new (F := Z) 1 2 sample_queue_heap [] = Done impl0 /\
    run_events (quiet log_item) sample_malloc 1 2 (fun _ => 0%nat) sample_events impl0 = Done impl /\ length addrs = 2%nat /\
    (wakeup impl = true \/ forall k p item, addrs !! k = Some p -> items impl !! p = Some item ->
      seq item <> SPA_ID_INVALID \/ (res item = SPA_RESULT_WAIT_SYNC /\ k <> 0%nat)).
Proof.
  destruct (pinos_work_queue_new (F := Z) 1 2 sample_queue_heap []) as [impl0| |] eqn:H0; [| by vm_compute in H0..].
  destruct (run_events (quiet log_item) sample_malloc 1 2 (fun _ => 0%nat) sample_events impl0) as [impl| |] eqn:H1;
    [| vm_compute in H0; injection H0 as <-; by vm_compute in H1..].
  destruct (spa_list_for_each collect (links impl) 1 []) as [addrs| |] eqn:H2;
    [| vm_compute in H0; injection H0 as <-; vm_compute in H1; injection H1 as <-; by vm_compute in H2..].
  exists impl0, impl, addrs. split; [done |]. split; [done |]. split.
  - vm_compute in H0; injection H0 as <-; vm_compute in H1; injection H1 as <-. vm_compute in H2. by injection H2 as <-.
  - apply (no_lost_wakeup (quiet log_item) sample_malloc 1 2 (fun _ => 0%nat) sample_malloc_fresh sample_bounded sample_queue_heap []
      sample_events impl0 impl addrs); [done | apply (bool_decide_unpack _); by vm_compute.. | done | done | done].
Defined.

Definition waiting : WorkItem Z := mkItem 1 7 5 (SPA_RESULT_RETURN_ASYNC 5) (Some 100) 0.
Definition barrier : WorkItem Z := mkItem 2 7 SPA_ID_INVALID SPA_RESULT_WAIT_SYNC (Some 200) 0.
Definition plain : WorkItem Z := mkItem 3 8 SPA_ID_INVALID SPA_RESULT_OK (Some 300) 0.
Definition settle_heap : heap := {[1 := mkList 3 5; 3 := mkList 4 1; 4 := mkList 5 3; 5 := mkList 1 4; 2 := mkList 2 2]}.
Definition settle_queue : PinosWorkQueueImpl (list (Z * Z)) Z :=
  mkQueue settle_heap {[3 := waiting; 4 := barrier; 5 := plain]} true 3 3 [].

Lemma settle_queue_ok : represents 1 2 [] [3; 4; 5] [] settle_queue (Spec.mk [waiting; barrier; plain] true 3 []).
Proof.
  split; try done.
  - split; [| apply (bool_decide_unpack _); by vm_compute]. repeat (apply Forall_cons; split); [| | by apply Forall_nil]; by vm_compute.
  - split; [apply (bool_decide_unpack _); by vm_compute | by apply Forall_nil].
Qed.

Lemma dispatch_settles_witness :
  settle 0 [waiting; barrier; plain] = ([waiting; barrier], [plain]) /\
  exists impl' addrs' free', dispatch (quiet log_item) sample_malloc 1 2 3 settle_queue = Done impl' /\
    represents 1 2 [] addrs' free' impl' (Spec.mk [waiting; barrier] false 3 [(300, 0)]).
Proof.
  split; [by vm_compute |].
  exact (proj1 (dispatch_settles log_item sample_malloc 1 2 [3; 4; 5] [] settle_queue _ 3 sample_malloc_fresh settle_queue_ok eq_refl ltac:(simpl; lia))).
Defined.
