(* ===== verification/Map.v ===== *)
(** [pinos/client/array.h] and [pinos/client/map.h]: the growing array and the
    id map built on it.

    Module [Array] keeps the geometry of a [PinosArray] (byte size, allocation,
    growth step); its contents live in the component that owns it. Module [Map]
    is [PinosMap]: the 8-byte union items as 64-bit words, and the free list
    threaded through the low 32 bits of the free ones. *)
From S2P Require Import Prelude Defs.

Module Array.

Record PinosArray := mkArray { size : Z; alloc : Z; extend : Z }.

Definition pinos_array_init (extend : Z) : PinosArray := mkArray 0 0 extend.

(** [while (alloc < need) alloc *= 2;] on [size_t]. [None]: out of fuel; with 64
    iterations of fuel that is a loop that never ends (see [grow_terminates]). *)
Fixpoint grow (fuel : nat) (alloc need : Z) : option Z :=
  if alloc <? need then
    match fuel with
    | O => None
    | S fuel' => grow fuel' (u64 (alloc * 2)) need
    end
  else Some alloc.

Section Realloc.
(** Whether the C library's [realloc] grants an allocation of this size. *)
Variable realloc_ok : Z -> bool.

Definition pinos_array_ensure_size (arr : PinosArray) (sz : Z) : option (bool * PinosArray) :=
  let need := u64 (size arr + sz) in
  if alloc arr <? need then
    a ← grow 64 (SPA_MAX (alloc arr) (extend arr)) need;
    if realloc_ok a then Some (true, mkArray (size arr) a (extend arr))
    else Some (false, arr)
  else Some (true, arr).

(** The offset of the new element, [None] inside when the allocation failed. *)
Definition pinos_array_add (arr : PinosArray) (sz : Z) : option (option Z * PinosArray) :=
  '(ok, arr') ← pinos_array_ensure_size arr sz;
  if (ok : bool)
  then Some (Some (size arr'), mkArray (u64 (size arr' + sz)) (alloc arr') (extend arr'))
  else Some (None, arr').
End Realloc.

Definition pinos_array_add_fixed (arr : PinosArray) (sz : Z) : option Z * PinosArray :=
  if alloc arr <? u64 (size arr + sz) then (None, arr)
  else (Some (size arr), mkArray (u64 (size arr + sz)) (alloc arr) (extend arr)).

Definition pinos_array_get_len (arr : PinosArray) (s : Z) : Z := size arr / s.

(** ** Invariant and lemmas *)

Definition wf (arr : PinosArray) : Prop :=
  0 <= size arr <= alloc arr /\ alloc arr < 2 ^ 63 /\ 0 < extend arr < 2 ^ 63.

Lemma grow_spec fuel a need :
  0 < a -> a < 2 ^ 63 -> need <= a * 2 ^ Z.of_nat fuel -> need <= 2 ^ 62 ->
  exists a', grow fuel a need = Some a' /\ need <= a' /\ a <= a' /\ (a' = a \/ a' < 2 * need).
Proof.
  revert a; induction fuel as [|fuel IH]; intros a Ha Hb Hn Hn'; simpl.
  - case_if; [lia |]. exists a. split; [done | lia].
  - case_if; [| exists a; split; [done | lia]].
    rewrite u64_small by (unfold is_u64; lia).
    destruct (IH (a * 2)) as (a' & -> & ? & ? & Hor); [lia | lia | | lia | exists a'; split; [done | lia]].
    rewrite Nat2Z.inj_succ, Z.pow_succ_r in Hn; lia.
Qed.

(** 64 iterations always suffice once the starting allocation is not zero. *)
Lemma grow_terminates a need :
  0 < a < 2 ^ 63 -> need <= 2 ^ 62 ->
  exists a', grow 64 a need = Some a' /\ need <= a' /\ a <= a' /\ (a' = a \/ a' < 2 * need).
Proof. intros. apply grow_spec; lia. Qed.

(** [PINOS_ARRAY_INIT (0)]: doubling zero never reaches the need, whatever the fuel. *)
Lemma grow_zero_diverges fuel need : 0 < need -> grow fuel 0 need = None.
Proof. intros. induction fuel; simpl; case_if; done || lia. Qed.

Section Props.
Variable realloc_ok : Z -> bool.

Lemma ensure_size_spec arr sz :
  wf arr -> 0 <= sz -> size arr + sz <= 2 ^ 62 ->
  exists ok arr', pinos_array_ensure_size realloc_ok arr sz = Some (ok, arr') /\
    wf arr' /\ size arr' = size arr /\ extend arr' = extend arr /\ alloc arr <= alloc arr' /\
    if ok then size arr + sz <= alloc arr' else arr' = arr.
Proof.
  intros (Hs & Ha & He) Hsz Hneed. unfold pinos_array_ensure_size.
  rewrite u64_small by (unfold is_u64; lia). case_if; [| eexists true, arr; done].
  destruct (grow_terminates (SPA_MAX (alloc arr) (extend arr)) (size arr + sz))
    as (a & -> & Hna & Hle & Hor); [rewrite SPA_MAX_max; lia | lia |].
  rewrite SPA_MAX_max in *. simpl. destruct (realloc_ok a).
  - eexists true, _. split; [done |]. unfold wf; simpl. lia.
  - exists false, arr. done.
Qed.

Lemma array_add_spec arr sz :
  wf arr -> 0 <= sz -> size arr + sz <= 2 ^ 62 ->
  exists p arr', pinos_array_add realloc_ok arr sz = Some (p, arr') /\ wf arr' /\
    match p with
    | Some off => off = size arr /\ size arr' = size arr + sz
    | None => arr' = arr
    end.
Proof.
  intros Hwf Hsz Hneed. unfold pinos_array_add.
  destruct (ensure_size_spec arr sz Hwf Hsz Hneed) as (ok & arr' & -> & Hwf' & Hs & He & Hal & Hok).
  simpl. destruct ok; eexists _, _; (split; [done |]); [| by subst].
  unfold wf in *; simpl. rewrite u64_small by (unfold is_u64; lia). rewrite Hs. lia.
Qed.

Lemma array_add_granted arr sz :
  (forall n, realloc_ok n = true) -> wf arr -> 0 <= sz -> size arr + sz <= 2 ^ 62 ->
  exists arr', pinos_array_add realloc_ok arr sz = Some (Some (size arr), arr') /\ wf arr' /\ size arr' = size arr + sz.
Proof.
  intros Hok Hwf Hsz Hneed. destruct (array_add_spec arr sz Hwf Hsz Hneed) as (p & arr' & He & Hwf' & Hp).
  destruct p as [off|]; [destruct Hp as [-> Hs]; eauto |].
  exfalso. revert He. unfold pinos_array_add, pinos_array_ensure_size.
  case_if; [| done]. destruct (grow _ _ _); simpl; [| done]. by rewrite Hok.
Qed.
End Props.
End Array.

Module Map.
Import Array.

Record PinosMap := mkMap { items : PinosArray; words : list Z; free_list : Z }.

Definition sizeof_item : Z := 8.

Definition pinos_map_get_size (m : PinosMap) : Z := pinos_array_get_len (items m) sizeof_item.
Definition pinos_map_check_id (m : PinosMap) (id : Z) : bool := id <? pinos_map_get_size m.

(** The union: [next] is the low half of the word [data]. *)
Definition item_next (w : Z) : Z := w mod 2 ^ 32.
Definition item_set_next (w next : Z) : Z := 2 ^ 32 * (w / 2 ^ 32) + next.
Definition pinos_map_item_is_free (w : Z) : bool := Z.odd (item_next w).

Definition PINOS_MAP_ID_TO_PTR (id : Z) : Z := u32 (Z.shiftl id 1).
Definition PINOS_MAP_PTR_TO_ID (p : Z) : Z := Z.shiftr (u32 p) 1.

(** [start[i]] *)
Definition get_item (m : PinosMap) (i : Z) : option Z := words m !! Z.to_nat i.
Definition set_item (m : PinosMap) (i w : Z) : PinosMap :=
  mkMap (items m) (<[Z.to_nat i := w]> (words m)) (free_list m).

Section Realloc.
Variable realloc_ok : Z -> bool.

Definition pinos_map_init (size extend : Z) : option PinosMap :=
  '(_, arr) ← pinos_array_ensure_size realloc_ok (pinos_array_init extend) (u64 (size * sizeof_item));
  Some (mkMap arr [] 0).

(** [None]: an access outside the array, or a growth loop that never ends. *)
Definition pinos_map_insert_new (m : PinosMap) (data : Z) : option (Z * PinosMap) :=
  if negb (free_list m =? 0) then
    let id := Z.shiftr (free_list m) 1 in
    item ← get_item m id;
    let m' := mkMap (items m) (words m) (item_next item) in
    Some (id, set_item m' id data)
  else
    '(p, arr) ← pinos_array_add realloc_ok (items m) sizeof_item;
    match (p : option Z) with
    | None => Some (SPA_ID_INVALID, mkMap arr (words m) (free_list m))
    | Some off => Some (u32 (off / sizeof_item), mkMap arr (words m ++ [data]) (free_list m))
    end.

(** [None] also covers the write through the [NULL] of a failed allocation. *)
Definition pinos_map_insert_at (m : PinosMap) (id data : Z) : option (bool * PinosMap) :=
  let size := pinos_map_get_size m in
  if size <? id then Some (false, m)
  else if id =? size then
    '(p, arr) ← pinos_array_add realloc_ok (items m) sizeof_item;
    match (p : option Z) with
    | None => None
    | Some _ => Some (true, mkMap arr (words m ++ [data]) (free_list m))
    end
  else Some (true, set_item m id data).
End Realloc.

Definition pinos_map_remove (m : PinosMap) (id : Z) : option PinosMap :=
  item ← get_item m id;
  let m' := set_item m id (item_set_next item (free_list m)) in
  Some (mkMap (items m') (words m') (Z.lor (u32 (Z.shiftl id 1)) 1)).

(** [NULL] is 0. *)
Definition pinos_map_lookup (m : PinosMap) (id : Z) : Z :=
  if pinos_map_check_id m id then
    match get_item m id with
    | Some w => if pinos_map_item_is_free w then 0 else w
    | None => 0
    end
  else 0.

(** The data [func] is called with, in order. *)
Definition pinos_map_for_each (m : PinosMap) : list Z :=
  filter (fun w => w <> 0 /\ pinos_map_item_is_free w = false) (words m).

(** ** Invariant and refinement

    The abstract map is a list of slots, [Some data] for a live id and [None]
    for a removed one. [chain ws fl l]: following [next] from the free-list
    word [fl] visits exactly the slots [l]. *)
Fixpoint chain (ws : list Z) (fl : Z) (l : list nat) : Prop :=
  match l with
  | [] => fl = 0
  | i :: l' => fl = 2 * Z.of_nat i + 1 /\
               exists w, ws !! i = Some w /\ chain ws (item_next w) l'
  end.

(** What the callers store: a 64-bit pointer or a shifted id, with bit 0 clear. *)
Definition is_data (w : Z) : Prop := is_u64 w /\ Z.odd w = false.

Record repr (m : PinosMap) (a : list (option Z)) (l : list nat) : Prop := {
  repr_array : Array.wf (items m);
  repr_size : size (items m) = 8 * zlen a;
  repr_bound : zlen a < 2 ^ 30;
  repr_length : length (words m) = length a;
  repr_live : forall i w, a !! i = Some (Some w) -> words m !! i = Some w /\ is_data w;
  repr_chain : chain (words m) (free_list m) l;
  repr_nodup : NoDup l;
  repr_free : forall i, a !! i = Some None <-> i ∈ l
}.

Lemma chain_insert ws fl l i w : i ∉ l -> chain ws fl l -> chain (<[i := w]> ws) fl l.
Proof.
  revert fl; induction l as [|j l IH]; intros fl Hi; simpl; [done |].
  intros (-> & v & Hv & Hc). apply not_elem_of_cons in Hi as [Hij Hi]. split; [done |].
  exists v. rewrite list_lookup_insert_ne by done. auto.
Qed.

Lemma chain_app ws ws' fl l : chain ws fl l -> chain (ws ++ ws') fl l.
Proof.
  revert fl; induction l as [|j l IH]; intros fl; simpl; [done |].
  intros (-> & v & Hv & Hc). split; [done |]. exists v.
  split; [by apply lookup_app_l_Some | auto].
Qed.

Lemma chain_length ws fl l i : chain ws fl l -> i ∈ l -> (i < length ws)%nat.
Proof.
  revert fl; induction l as [|j l IH]; intros fl; simpl; [by intros _ ?%elem_of_nil |].
  intros (_ & v & Hv & Hc) [-> | Hi]%elem_of_cons; [by eapply lookup_lt_Some | eauto].
Qed.

(** A free-list word is never 0, always odd, and fits 32 bits. *)
Lemma free_word_shift i : Z.shiftr (2 * Z.of_nat i + 1) 1 = Z.of_nat i.
Proof. rewrite Z.shiftr_div_pow2 by lia. change (2 ^ 1) with 2. Z.div_mod_to_equations; lia. Qed.

Lemma remove_word i : Z.of_nat i < 2 ^ 30 -> Z.lor (u32 (Z.shiftl (Z.of_nat i) 1)) 1 = 2 * Z.of_nat i + 1.
Proof.
  intros. rewrite Z.shiftl_mul_pow2, u32_small by (try unfold is_u32; lia).
  apply Z.bits_inj'. intros n Hn. rewrite Z.lor_spec.
  destruct (Z.eqb_spec n 0) as [->|].
  - rewrite Z.bit0_odd, orb_true_r, Z.add_comm. by rewrite Z.bit0_odd, Z.odd_add_mul_2.
  - replace n with (Z.succ (n - 1)) by lia.
    rewrite Z.testbit_odd_succ, (Z.mul_comm _ (2 ^ 1)) by lia. change (2 ^ 1) with 2.
    rewrite Z.testbit_even_succ by lia. rewrite (Z.bits_above_log2 1), orb_false_r; [done | lia |].
    simpl; lia.
Qed.

Lemma is_data_not_free w : is_data w -> pinos_map_item_is_free w = false.
Proof.
  intros [_ Hodd]. unfold pinos_map_item_is_free, item_next. rewrite <- Hodd.
  rewrite <- !Z.bit0_odd. apply Z.mod_pow2_bits_low. lia.
Qed.

Lemma item_next_set_next w n : is_u32 n -> item_next (item_set_next w n) = n.
Proof.
  unfold is_u32, item_next, item_set_next. intros.
  rewrite Z.add_comm, Z.mul_comm, Z.mod_add, Z.mod_small; lia.
Qed.

Section Refinement.
Implicit Types (realloc_ok : Z -> bool) (m : PinosMap) (a : list (option Z)) (l : list nat).

Lemma repr_get_size m a l : repr m a l -> pinos_map_get_size m = zlen a.
Proof.
  intros H. unfold pinos_map_get_size, pinos_array_get_len, sizeof_item.
  rewrite (repr_size _ _ _ H), Z.mul_comm, Z.div_mul; lia.
Qed.

Lemma repr_free_lt m a l i : repr m a l -> i ∈ l -> (i < length a)%nat.
Proof. intros H Hi. rewrite <- (repr_length _ _ _ H). eapply chain_length, Hi. apply H. Qed.

(** Overwriting one slot that is not on the remaining free list. *)
Lemma repr_set m a l l' i d (w : Z) arr fl :
  repr m a l -> (i < length a)%nat -> arr = items m ->
  chain (<[i := w]> (words m)) fl l' -> NoDup l' ->
  (forall j, j ∈ l' <-> (j = i /\ d = None) \/ (j <> i /\ j ∈ l)) ->
  (forall v, d = Some v -> v = w /\ is_data v) ->
  repr (mkMap arr (<[i := w]> (words m)) fl) (<[i := d]> a) l'.
Proof.
  intros H Hi -> Hc Hnd Hl' Hd. pose proof (repr_length _ _ _ H) as Hlen.
  constructor; simpl; rewrite ?length_insert, ?zlen_insert; [apply H | apply H | apply H | done | | done | done |].
  - intros j v. destruct (decide (j = i)) as [->|Hji].
    + rewrite list_lookup_insert_eq by done. intros [= ->].
      destruct (Hd v eq_refl) as [-> ?]. by rewrite list_lookup_insert_eq by lia.
    + rewrite !list_lookup_insert_ne by done. apply H.
  - intros j. rewrite Hl', <- (repr_free _ _ _ H). destruct (decide (j = i)) as [->|Hji].
    + rewrite list_lookup_insert_eq by done. split; [intros [= ->]; auto | intros [[_ ->]|]; [done | tauto]].
    + rewrite list_lookup_insert_ne by done. tauto.
Qed.

Lemma repr_push m a l d arr :
  repr m a l -> is_data d -> Array.wf arr -> size arr = size (items m) + 8 -> zlen a + 1 < 2 ^ 30 ->
  repr (mkMap arr (words m ++ [d]) (free_list m)) (a ++ [Some d]) l.
Proof.
  intros H Hd Hwf Hsz Hb. pose proof (repr_length _ _ _ H) as Hlen.
  constructor; simpl; rewrite ?length_app, ?zlen_app; [done | | | by rewrite Hlen | | | apply H |].
  - rewrite Hsz, (repr_size _ _ _ H). unfold zlen; simpl; lia.
  - unfold zlen in *; simpl; lia.
  - intros i w [Hi|[Hle Hi]]%lookup_app_Some.
    + destruct (repr_live _ _ _ H i w Hi) as [? ?]. split; [by apply lookup_app_l_Some | done].
    + apply list_lookup_singleton_Some in Hi as [Hi [= ->]]. split; [| done].
      rewrite lookup_app_r by lia. by rewrite Hlen, Hi.
  - apply chain_app, H.
  - intros i. rewrite <- (repr_free _ _ _ H), lookup_app_Some, list_lookup_singleton_Some.
    split; [intros [?|(_ & _ & ?)]; done | by left].
Qed.

(** Growing the array by one item succeeds when the allocator does. *)
Lemma grow_item realloc_ok m a l :
  repr m a l -> zlen a + 1 < 2 ^ 30 -> (forall n, realloc_ok n = true) ->
  exists arr, pinos_array_add realloc_ok (items m) sizeof_item = Some (Some (8 * zlen a), arr) /\
              Array.wf arr /\ size arr = size (items m) + 8.
Proof.
  intros H Hb Hok. unfold sizeof_item. rewrite <- (repr_size _ _ _ H).
  apply array_add_granted; [done | apply H | lia | rewrite (repr_size _ _ _ H); lia].
Qed.

(** A new id comes from the head of the free list when there is one. *)
Lemma insert_new_reuse realloc_ok m a i l d :
  repr m a (i :: l) -> is_data d ->
  exists m', pinos_map_insert_new realloc_ok m d = Some (Z.of_nat i, m') /\
             repr m' (<[i := Some d]> a) l.
Proof.
  intros H Hd. destruct (repr_chain _ _ _ H) as (Hfl & w & Hw & Hc).
  pose proof (repr_nodup _ _ _ H) as [Hi Hnd]%NoDup_cons.
  pose proof (repr_free_lt _ _ _ i H ltac:(set_solver)) as Hlt.
  unfold pinos_map_insert_new, get_item. case_if; [| lia].
  rewrite Hfl, free_word_shift, Nat2Z.id, Hw. simpl. eexists. split; [done |].
  unfold set_item; simpl. rewrite Nat2Z.id.
  eapply repr_set; eauto using chain_insert; [set_solver | by intros ? [= ->]].
Qed.

Lemma insert_new_append realloc_ok m a d :
  repr m a [] -> is_data d -> zlen a + 1 < 2 ^ 30 -> (forall n, realloc_ok n = true) ->
  exists m', pinos_map_insert_new realloc_ok m d = Some (zlen a, m') /\ repr m' (a ++ [Some d]) [].
Proof.
  intros H Hd Hb Hok. pose proof (repr_chain _ _ _ H) as Hfl. simpl in Hfl.
  unfold pinos_map_insert_new. rewrite Hfl; simpl.
  destruct (grow_item _ _ _ _ H Hb Hok) as (arr & -> & Hwf & Hs). simpl. unfold sizeof_item.
  replace (8 * zlen a / 8) with (zlen a) by (rewrite Z.mul_comm, Z.div_mul; lia).
  rewrite u32_small by (unfold is_u32; zlia).
  eexists. split; [done |]. rewrite <- Hfl. by apply repr_push.
Qed.

Lemma insert_at_end realloc_ok m a l d :
  repr m a l -> is_data d -> zlen a + 1 < 2 ^ 30 -> (forall n, realloc_ok n = true) ->
  exists m', pinos_map_insert_at realloc_ok m (zlen a) d = Some (true, m') /\ repr m' (a ++ [Some d]) l.
Proof.
  intros H Hd Hb Hok. unfold pinos_map_insert_at. rewrite (repr_get_size _ _ _ H).
  case_if; [lia |]. rewrite Z.eqb_refl.
  destruct (grow_item _ _ _ _ H Hb Hok) as (arr & -> & Hwf & Hs). simpl.
  eexists. split; [done |]. by apply repr_push.
Qed.

Lemma free_list_u32 m a l : repr m a l -> is_u32 (free_list m).
Proof.
  intros H. pose proof (repr_bound _ _ _ H) as Hb. pose proof (repr_chain _ _ _ H) as Hc.
  destruct l as [|j l]; simpl in Hc; [by rewrite Hc |].
  destruct Hc as [-> _]. pose proof (repr_free_lt _ _ _ j H ltac:(set_solver)).
  unfold zlen in Hb. unfold is_u32. lia.
Qed.

Lemma remove_spec m a l i w :
  repr m a l -> a !! i = Some (Some w) ->
  exists m', pinos_map_remove m (Z.of_nat i) = Some m' /\ repr m' (<[i := None]> a) (i :: l) /\
             words m' !! i = Some (item_set_next w (free_list m)).
Proof.
  intros H Hi. destruct (repr_live _ _ _ H _ _ Hi) as [Hw Hd].
  pose proof (lookup_lt_Some _ _ _ Hi) as Hlt. pose proof (repr_bound _ _ _ H) as Hb.
  assert (Z.of_nat i < 2 ^ 30) by (unfold zlen in Hb; lia).
  assert (i ∉ l) as Hil. { intros Hin. apply (repr_free _ _ _ H) in Hin. congruence. }
  pose proof (free_list_u32 _ _ _ H) as Hfl.
  unfold pinos_map_remove, get_item. rewrite Nat2Z.id, Hw. simpl.
  rewrite remove_word, Nat2Z.id by done. eexists. split; [done |].
  assert (i < length (words m))%nat by (rewrite (repr_length _ _ _ H); done).
  split; [| simpl; by rewrite list_lookup_insert_eq].
  eapply repr_set; eauto.
  - simpl. split; [done |]. eexists. split; [by rewrite list_lookup_insert_eq |].
    rewrite item_next_set_next by done. apply chain_insert; [done | apply H].
  - constructor; [done | apply H].
  - intros j. rewrite elem_of_cons. destruct (decide (j = i)); naive_solver.
  - done.
Qed.

Lemma insert_at_live realloc_ok m a l i w d :
  repr m a l -> a !! i = Some (Some w) -> is_data d ->
  exists m', pinos_map_insert_at realloc_ok m (Z.of_nat i) d = Some (true, m') /\
             repr m' (<[i := Some d]> a) l.
Proof.
  intros H Hi Hd. pose proof (lookup_lt_Some _ _ _ Hi) as Hlt.
  assert (i ∉ l) as Hil. { intros Hin. apply (repr_free _ _ _ H) in Hin. congruence. }
  unfold pinos_map_insert_at. rewrite (repr_get_size _ _ _ H).
  case_if; [unfold zlen in *; lia |]. case_if; [unfold zlen in *; lia |].
  eexists. split; [done |]. unfold set_item; rewrite Nat2Z.id.
  eapply repr_set; eauto; [apply chain_insert; [done | apply H] | apply H | | by intros ? [= ->]].
  intros j. destruct (decide (j = i)); naive_solver.
Qed.

Lemma lookup_live m a l i w : repr m a l -> a !! i = Some (Some w) -> pinos_map_lookup m (Z.of_nat i) = w.
Proof.
  intros H Hi. destruct (repr_live _ _ _ H _ _ Hi) as [Hw Hd].
  unfold pinos_map_lookup, pinos_map_check_id, get_item.
  rewrite (repr_get_size _ _ _ H), Nat2Z.id, Hw, is_data_not_free by done.
  apply lookup_lt_Some in Hi. case_if; [done | unfold zlen in *; lia].
Qed.

Lemma repr_words m ws l : repr m (Some <$> ws) l -> words m = ws.
Proof.
  intros H. pose proof (repr_length _ _ _ H) as Hlen. rewrite length_fmap in Hlen.
  apply list_eq_same_length with (n := length ws); [done | done |]. intros i x y Hi Hx Hy.
  destruct (repr_live _ _ _ H i y) as [Hw _]; [by rewrite list_lookup_fmap, Hy | congruence].
Qed.

Lemma lookup_out m a l id : repr m a l -> zlen a <= id -> pinos_map_lookup m id = 0.
Proof.
  intros H Hid. unfold pinos_map_lookup, pinos_map_check_id. rewrite (repr_get_size _ _ _ H).
  case_if; [lia | done].
Qed.
End Refinement.

(** ** The abstract map and the refinement theorem *)

Inductive map_op :=
| OpNew (d : Z)
| OpAt (i : nat) (d : Z)
| OpRemove (i : nat).

Abbreviation astate := (list (option Z) * list nat)%type.

(** The contract: ids are slots, a fresh id is the most recently removed slot or
    else the next slot; [insert_at] is allowed at a live id or at the end, and
    [remove] at a live id. The fresh id is returned. [None]: the call breaks the
    contract. *)
Definition spec_step (s : astate) (op : map_op) : option (option nat * astate) :=
  let '(a, l) := s in
  match op with
  | OpNew d => match l with
               | [] => Some (Some (length a), (a ++ [Some d], []))
               | i :: l' => Some (Some i, (<[i := Some d]> a, l'))
               end
  | OpAt i d => if decide (i = length a) then Some (None, (a ++ [Some d], l))
                else match a !! i with
                     | Some (Some _) => Some (None, (<[i := Some d]> a, l))
                     | _ => None
                     end
  | OpRemove i => match a !! i with
                  | Some (Some _) => Some (None, (<[i := None]> a, i :: l))
                  | _ => None
                  end
  end.

(** What a lookup of an id answers. The slot that has been free for longest ends the free
    list: its word is not marked as free, and has the upper half of the pointer that was
    there. *)
Definition answers (s : astate) (id : nat) (r : Z) : Prop :=
  match s.1 !! id with
  | Some (Some w) => r = w
  | Some None => if decide (last s.2 = Some id) then item_next r = 0 else r = 0
  | None => r = 0
  end.

Definition op_data (op : map_op) : Prop :=
  match op with OpNew d | OpAt _ d => is_data d | OpRemove _ => True end.

Definition impl_step (realloc_ok : Z -> bool) (m : PinosMap) (op : map_op) : option (option Z * PinosMap) :=
  match op with
  | OpNew d => '(id, m) ← pinos_map_insert_new realloc_ok m d; Some (Some id, m)
  | OpAt i d => '(ok, m') ← pinos_map_insert_at realloc_ok m (Z.of_nat i) d;
                if (ok : bool) then Some (None, m') else None
  | OpRemove i => m' ← pinos_map_remove m (Z.of_nat i); Some (None, m')
  end.

(** An id, as the C code returns it. *)
Definition returned (r : option nat) : option Z := Z.of_nat <$> r.

(** The ids returned, in order, and the state that is left. *)
Fixpoint spec_run (s : astate) (ops : list map_op) : option (list (option nat) * astate) :=
  match ops with
  | [] => Some ([], s)
  | op :: ops' => '(r, s') ← spec_step s op; '(rs, s') ← spec_run s' ops'; Some (r :: rs, s')
  end.
Fixpoint impl_run (realloc_ok : Z -> bool) (m : PinosMap) (ops : list map_op) : option (list (option Z) * PinosMap) :=
  match ops with
  | [] => Some ([], m)
  | op :: ops' => '(r, m') ← impl_step realloc_ok m op; '(rs, m') ← impl_run realloc_ok m' ops'; Some (r :: rs, m')
  end.

Lemma step_refines realloc_ok m a l op r s' :
  (forall n, realloc_ok n = true) -> repr m a l -> op_data op -> zlen a + 1 < 2 ^ 30 ->
  spec_step (a, l) op = Some (r, s') ->
  exists m', impl_step realloc_ok m op = Some (returned r, m') /\ repr m' s'.1 s'.2 /\ zlen s'.1 <= zlen a + 1.
Proof.
  intros Hok H Hd Hb Hs. destruct op as [d|i d|i]; simpl in Hs, Hd |- *.
  - destruct l as [|i l]; simplify_eq/=.
    + destruct (insert_new_append realloc_ok m a d H Hd Hb Hok) as (m' & -> & ?).
      exists m'. split_and!; [done | done | zlia].
    + destruct (insert_new_reuse realloc_ok m a i l d H Hd) as (m' & -> & ?).
      exists m'. split_and!; [done | done | zlia].
  - case_decide as Hi; simplify_eq/=.
    + destruct (insert_at_end realloc_ok m a l d H Hd Hb Hok) as (m' & He & ?).
      unfold zlen in He. rewrite He. exists m'. split_and!; [done | done | zlia].
    + destruct (a !! i) as [[w|]|] eqn:Ha; simplify_eq/=.
      destruct (insert_at_live realloc_ok m a l i w d H Ha Hd) as (m' & -> & ?).
      exists m'. split_and!; [done | done | zlia].
  - destruct (a !! i) as [[w|]|] eqn:Ha; simplify_eq/=.
    destruct (remove_spec m a l i w H Ha) as (m' & -> & ? & _).
    exists m'. split_and!; [done | done | zlia].
Qed.

Lemma map_refines_spec_run_repr realloc_ok ops m a l rs a' l' :
  (forall n, realloc_ok n = true) ->
  repr m a l -> Forall op_data ops -> zlen a + zlen ops < 2 ^ 30 ->
  spec_run (a, l) ops = Some (rs, (a', l')) ->
  exists m', impl_run realloc_ok m ops = Some (returned <$> rs, m') /\ repr m' a' l'.
Proof.
  intros Hok. revert m a l rs. induction ops as [|op ops IH]; intros m a l rs H Hd Hb Hs.
  - injection Hs as <- <- <-. by exists m.
  - apply Forall_cons in Hd as [Hd Hds]. rewrite zlen_cons in Hb. pose proof (zlen_nonneg ops).
    cbn [spec_run] in Hs.
    destruct (spec_step (a, l) op) as [[r [a1 l1]]|] eqn:Hstep; [| done]. cbn [mbind option_bind] in Hs.
    destruct (spec_run (a1, l1) ops) as [[rs1 s1]|] eqn:Hrest; [| done]. injection Hs as <- ->.
    destruct (step_refines realloc_ok m a l op r _ Hok H Hd ltac:(lia) Hstep) as (m1 & Hi & Hr & Hl).
    destruct (IH m1 a1 l1 rs1 Hr Hds ltac:(simpl in Hl; lia) Hrest) as (m' & Hrun & Hrepr).
    exists m'. split; [| done]. cbn [impl_run]. rewrite Hi. cbn [mbind option_bind]. by rewrite Hrun.
Qed.

Lemma chain_word ws fl l i : chain ws fl l -> NoDup l -> i ∈ l -> exists w, ws !! i = Some w /\
  if decide (last l = Some i) then item_next w = 0 else Z.odd (item_next w) = true.
Proof.
  revert fl. induction l as [|j l IH]; intros fl; [by intros _ _ ?%elem_of_nil |].
  intros (_ & w & Hw & Hc) [Hj Hnd]%NoDup_cons [-> | Hi]%elem_of_cons.
  - exists w. split; [done |]. destruct l as [|k l]; [by rewrite decide_True |].
    rewrite decide_False. { destruct Hc as [-> _]. by rewrite Z.add_comm, Z.odd_add_mul_2. }
    rewrite last_cons_cons. intros Hlast%last_Some_elem_of. done.
  - destruct (IH _ Hc Hnd Hi) as (v & Hv & Hnext). exists v. split; [done |]. destruct l as [|k l]; [by apply elem_of_nil in Hi |].
    by rewrite last_cons_cons.
Qed.

Lemma lookup_answers m a l i : repr m a l -> answers (a, l) i (pinos_map_lookup m (Z.of_nat i)).
Proof.
  intros H. unfold answers. cbn [fst snd]. destruct (a !! i) as [[w|]|] eqn:Hi.
  - by eapply lookup_live.
  - apply (repr_free _ _ _ H) in Hi as Hin. destruct (chain_word _ _ _ _ (repr_chain _ _ _ H) (repr_nodup _ _ _ H) Hin) as (w & Hw & Hnext).
    unfold pinos_map_lookup, pinos_map_check_id, get_item. rewrite (repr_get_size _ _ _ H), Nat2Z.id, Hw.
    apply lookup_lt_Some in Hi. unfold pinos_map_item_is_free. rewrite (proj2 (Z.ltb_lt _ _)) by (unfold zlen; lia).
    case_decide; [| by rewrite Hnext]. by rewrite Hnext.
  - apply lookup_ge_None in Hi. eapply lookup_out; [done |]. unfold zlen. lia.
Qed.

(** C28: Every legal sequence of [insert_new], [insert_at] and [remove] runs on the C map
    without touching memory outside the array, while memory is granted; the ids returned
    are those the contract prescribes, and the map it leaves represents exactly the
    abstract map. A lookup then answers the data of a live id, [NULL] for an id that was
    never given out, and [NULL] for a removed one, except for the id that has been free for
    longest: that one has a pointer whose lower 32 bits are zero. *)
Theorem map_refines_spec realloc_ok ops m a l ids a' l' :
  (forall n, realloc_ok n = true) ->
  repr m a l -> Forall op_data ops -> zlen a + zlen ops < 2 ^ 30 ->
  spec_run (a, l) ops = Some (ids, (a', l')) ->
  exists m', impl_run realloc_ok m ops = Some (returned <$> ids, m') /\ repr m' a' l' /\
    forall i, answers (a', l') i (pinos_map_lookup m' (Z.of_nat i)).
Proof.
  intros Hok H Hd Hb Hs.
  destruct (map_refines_spec_run_repr realloc_ok ops m a l ids a' l') as (m' & Hm & Hr); [done.. |].
  exists m'. split_and!; [done | done |]. intros i. by apply lookup_answers.
Qed.

(** Discharge [Forall op_data] on a concrete list. *)
Ltac solve_op_data :=
  repeat (apply Forall_cons_2; [first [exact I | split; [split; [by vm_compute | by vm_compute] | reflexivity]] |]);
  apply Forall_nil_2.

Definition empty_map : PinosMap := mkMap (mkArray 0 0 32) [] 0.

Lemma empty_repr : repr empty_map [] [].
Proof.
  constructor; simpl; try done; [constructor |].
  intros i. split; [done | by intros ?%elem_of_nil].
Qed.

(** Two new ids, the first one reused, then both removed: the second one, removed first, has
    the upper half of its pointer. *)
Lemma map_refines_spec_witness :
  let ops := [OpNew 0x555555756000; OpNew 0x555555757000; OpRemove 0; OpNew 48; OpAt 2 64; OpRemove 1; OpRemove 0] in
  exists m', impl_run (fun _ => true) empty_map ops = Some ([Some 0; Some 1; None; Some 0; None; None; None], m') /\
    repr m' [None; None; Some 64] [0; 1]%nat /\
    pinos_map_lookup m' 2 = 64 /\ pinos_map_lookup m' 0 = 0 /\ item_next (pinos_map_lookup m' 1) = 0 /\
    pinos_map_lookup m' 3 = 0.
Proof.
  intros ops.
  destruct (map_refines_spec (fun _ => true) ops empty_map [] [] [Some 0; Some 1; None; Some 0; None; None; None]%nat
    [None; None; Some 64] [0; 1]%nat) as (m' & Hrun & Hr & Ha);
    [reflexivity | exact empty_repr | unfold ops; solve_op_data | reflexivity | reflexivity |].
  exists m'. split; [exact Hrun |]. split; [exact Hr |].
  split; [exact (Ha 2%nat) |]. split; [exact (Ha 0%nat) |]. split; [exact (Ha 1%nat) | exact (Ha 3%nat)].
Defined.

(** What a lookup of a just-removed id returns: [NULL] when another
    id was already free, but otherwise the old pointer with its low 32 bits
    cleared, because the free item is then marked with a zero [next]. *)
Theorem removed_lookup m a l i w :
  repr m a l -> a !! i = Some (Some w) ->
  exists m', pinos_map_remove m (Z.of_nat i) = Some m' /\
    pinos_map_lookup m' (Z.of_nat i) = if free_list m =? 0 then 2 ^ 32 * (w / 2 ^ 32) else 0.
Proof.
  intros H Hi. destruct (remove_spec m a l i w H Hi) as (m' & Hm & Hr & Hw).
  exists m'. split; [done |]. unfold pinos_map_lookup, pinos_map_check_id, get_item.
  rewrite (repr_get_size _ _ _ Hr), Nat2Z.id, Hw, zlen_insert.
  pose proof (lookup_lt_Some _ _ _ Hi). case_if; [| unfold zlen in *; lia].
  unfold pinos_map_item_is_free. rewrite item_next_set_next by (by eapply free_list_u32).
  pose proof (repr_chain _ _ _ H) as Hc. destruct l as [|j l]; simpl in Hc.
  - rewrite Hc. unfold item_set_next. simpl. lia.
  - destruct Hc as [-> _]. rewrite Z.add_comm, Z.odd_add_mul_2. simpl. case_if; [lia | done].
Qed.

Lemma removed_lookup_witness :
  exists ids m, impl_run (fun _ => true) empty_map [OpNew 0x555555756000] = Some (ids, m) /\
  exists m', pinos_map_remove m 0 = Some m' /\ pinos_map_lookup m' 0 = 0x555500000000.
Proof.
  destruct (map_refines_spec_run_repr (fun _ => true) [OpNew 0x555555756000] empty_map [] []
    [Some 0%nat] [Some 0x555555756000] []) as (m & Hm & Hr);
    [reflexivity | apply empty_repr | solve_op_data | reflexivity | reflexivity |].
  eexists _, m. split; [exact Hm |].
  destruct (removed_lookup m _ _ 0%nat _ Hr eq_refl) as (m' & Hm' & Hl).
  exists m'. split; [exact Hm' |]. refine (eq_trans Hl _).
  pose proof (repr_chain _ _ _ Hr) as ->. reflexivity.
Defined.

(** Overwriting a removed id corrupts the free list: the next two fresh ids are the
    live id that was overwritten and one taken from the bits of a pointer. *)
Lemma insert_at_free_slot :
  exists ids m, impl_run (fun _ => true) empty_map [OpNew 16; OpNew 32; OpRemove 0; OpAt 0 48] = Some (ids, m) /\
    fst <$> pinos_map_insert_new (fun _ => true) m 64 = Some 0.
Proof. eexists _, _. split; reflexivity. Qed.
End Map.
