(* ===== verification/Ringbuffer.v ===== *)
(** [spa/include/spa/ringbuffer.h]: the single-producer single-consumer ring.

    The indices are free-running [uint32_t] counters that wrap; only the data
    offset is masked. The operations are the header's; Section [Interleaving]
    runs a producer and a consumer against each other, one atomic access at a
    time, as the loops of two threads do. *)
From S2P Require Import Prelude Defs.

Record SpaRingbuffer := mkRing { readindex : Z; writeindex : Z; size : Z; mask : Z }.

Definition spa_ringbuffer_init (rbuf : SpaRingbuffer) (sz : Z) : Z * SpaRingbuffer :=
  if negb (Z.land sz (u32 (sz - 1)) =? 0) then (SPA_RESULT_ERROR, rbuf)
  else (SPA_RESULT_OK, mkRing 0 0 sz (u32 (sz - 1))).

Definition spa_ringbuffer_clear (rbuf : SpaRingbuffer) : SpaRingbuffer :=
  mkRing 0 0 (size rbuf) (mask rbuf).

(** (available, index) *)
Definition spa_ringbuffer_get_read_index (rbuf : SpaRingbuffer) : Z * Z :=
  let index := readindex rbuf in (i32 (u32 (writeindex rbuf - index)), index).

Definition spa_ringbuffer_read_data (rbuf : SpaRingbuffer) (buffer : bytes) (offset len : Z) : option bytes :=
  let first := SPA_MIN len (u32 (size rbuf - offset)) in
  d1 ← mread offset first buffer;
  if first <? len then
    d2 ← mread 0 (len - first) buffer;
    Some (d1 ++ d2)
  else Some d1.

Definition spa_ringbuffer_read_update (rbuf : SpaRingbuffer) (index : Z) : SpaRingbuffer :=
  mkRing (u32 index) (writeindex rbuf) (size rbuf) (mask rbuf).

(** (filled, index) *)
Definition spa_ringbuffer_get_write_index (rbuf : SpaRingbuffer) : Z * Z :=
  let index := writeindex rbuf in (i32 (u32 (index - readindex rbuf)), index).

Definition spa_ringbuffer_write_data (rbuf : SpaRingbuffer) (buffer : bytes) (offset : Z) (data : bytes) : option bytes :=
  let len := zlen data in
  let first := SPA_MIN len (u32 (size rbuf - offset)) in
  b1 ← mwrite offset (take (Z.to_nat first) data) buffer;
  if first <? len then mwrite 0 (drop (Z.to_nat first) data) b1 else Some b1.

Definition spa_ringbuffer_write_update (rbuf : SpaRingbuffer) (index : Z) : SpaRingbuffer :=
  mkRing (readindex rbuf) (u32 index) (size rbuf) (mask rbuf).

(** ** Geometry *)

(** A ring of [2^k] bytes, small enough for the signed fill level. *)
Record ring_ok (rbuf : SpaRingbuffer) (buffer : bytes) (k : Z) : Prop := {
  ring_pow : 0 <= k <= 30;
  ring_size : size rbuf = 2 ^ k;
  ring_mask : mask rbuf = 2 ^ k - 1;
  ring_buffer : zlen buffer = 2 ^ k
}.

Lemma pow2_bounds k : 0 <= k <= 30 -> 0 < 2 ^ k <= 2 ^ 30.
Proof. intros. split; [apply Z.pow_pos_nonneg; lia | apply Z.pow_le_mono_r; lia]. Qed.

Lemma mask_mod k z : 0 <= k <= 30 -> Z.land z (2 ^ k - 1) = z mod 2 ^ k.
Proof. intros. apply land_low. lia. Qed.

(** Masking a wrapped index is masking the unwrapped one: [2^k] divides [2^32]. *)
Lemma u32_mod_pow2 k z : 0 <= k <= 30 -> u32 z mod 2 ^ k = z mod 2 ^ k.
Proof.
  intros. unfold u32. replace (2 ^ 32) with (2 ^ k * 2 ^ (32 - k)).
  - rewrite Z.rem_mul_r by (try apply Z.pow_nonzero; try apply Z.pow_pos_nonneg; lia).
    rewrite Z.mul_comm, Z.mod_add, Z.mod_mod; [done | apply Z.pow_nonzero; lia..].
  - rewrite <- Z.pow_add_r by lia. f_equal. lia.
Qed.

(** (off + j) mod n for off, j inside the ring. *)
Lemma wrap_once off j n : 0 <= off < n -> 0 <= j < n ->
  (off + j) mod n = if off + j <? n then off + j else off + j - n.
Proof.
  intros. case_if; [apply Z.mod_small; lia |].
  symmetry. apply (Z.mod_unique _ _ 1); lia.
Qed.

Lemma read_data_spec rbuf buffer off len :
  size rbuf = zlen buffer -> zlen buffer <= 2 ^ 31 -> 0 <= off < zlen buffer -> 0 <= len <= zlen buffer ->
  exists d, spa_ringbuffer_read_data rbuf buffer off len = Some d /\ zlen d = len /\
    forall i, 0 <= i < len -> d !! Z.to_nat i = buffer !! Z.to_nat ((off + i) mod zlen buffer).
Proof.
  intros Hs Hb Ho Hl. unfold spa_ringbuffer_read_data.
  rewrite Hs, SPA_MIN_min, u32_small by (unfold is_u32; lia).
  set (first := Z.min len (zlen buffer - off)).
  destruct (mread_defined off first buffer) as (d1 & Hd1); [lia.. |]. rewrite Hd1. simpl.
  pose proof (mread_length _ _ _ _ Hd1) as Hl1.
  case_if.
  - destruct (mread_defined 0 (len - first) buffer) as (d2 & Hd2); [lia.. |]. rewrite Hd2. simpl.
    pose proof (mread_length _ _ _ _ Hd2) as Hl2.
    exists (d1 ++ d2). split_and!; [done | zlia |]. intros i Hi. rewrite wrap_once by lia.
    case_if.
    + rewrite lookup_app_l by (unfold zlen in *; lia). apply (mread_lookup _ _ _ _ _ Hd1). lia.
    + rewrite lookup_app_r by (unfold zlen in *; lia).
      replace (Z.to_nat i - length d1)%nat with (Z.to_nat (i - first)) by (unfold zlen in *; lia).
      rewrite (mread_lookup _ _ _ _ _ Hd2) by lia. f_equal. lia.
  - exists d1. split_and!; [done | lia |]. intros i Hi. rewrite wrap_once by lia. case_if; [| lia].
    apply (mread_lookup _ _ _ _ _ Hd1). lia.
Qed.

Lemma write_data_spec rbuf buffer off d :
  size rbuf = zlen buffer -> zlen buffer <= 2 ^ 31 -> 0 <= off < zlen buffer -> zlen d <= zlen buffer ->
  exists b', spa_ringbuffer_write_data rbuf buffer off d = Some b' /\ zlen b' = zlen buffer /\
    forall j, 0 <= j < zlen buffer ->
      b' !! Z.to_nat ((off + j) mod zlen buffer) =
        if j <? zlen d then d !! Z.to_nat j else buffer !! Z.to_nat ((off + j) mod zlen buffer).
Proof.
  intros Hs Hb Ho Hl. pose proof (zlen_nonneg d). unfold spa_ringbuffer_write_data.
  rewrite Hs, SPA_MIN_min, u32_small by (unfold is_u32; lia).
  set (first := Z.min (zlen d) (zlen buffer - off)).
  assert (zlen (take (Z.to_nat first) d) = first) as Hlt by zlia.
  assert (zlen (drop (Z.to_nat first) d) = zlen d - first) as Hld by zlia.
  destruct (mwrite_defined off (take (Z.to_nat first) d) buffer) as (b1 & Hb1); [lia.. |].
  pose proof (mwrite_length _ _ _ _ Hb1) as Hl1. rewrite Hb1. simpl.
  assert (forall p, 0 <= p -> b1 !! Z.to_nat p =
    if (off <=? p) && (p <? off + first) then d !! Z.to_nat (p - off) else buffer !! Z.to_nat p) as Hp1.
  { intros p Hp. rewrite (mwrite_lookup _ _ _ _ p Hb1 Hp), Hlt. case_if; [| done].
    by rewrite lookup_take_lt by lia. }
  case_if.
  - destruct (mwrite_defined 0 (drop (Z.to_nat first) d) b1) as (b2 & Hb2); [lia.. |].
    pose proof (mwrite_length _ _ _ _ Hb2) as Hl2.
    exists b2. split_and!; [done | lia |]. intros j Hj. rewrite wrap_once by lia.
    rewrite (mwrite_lookup _ _ _ _ _ Hb2) by (case_if; lia). rewrite Hld, lookup_drop, Z.sub_0_r.
    rewrite Hp1 by (case_if; lia).
    repeat case_if; bool_to_prop; rewrite ?andb_false_iff in *; bool_to_prop; try lia; f_equal; lia.
  - exists b1. split_and!; [done | lia |]. intros j Hj. rewrite wrap_once, Hp1 by (try case_if; lia).
    repeat case_if; bool_to_prop; rewrite ?andb_false_iff in *; try lia; f_equal; lia.
Qed.

(** ** Producer and consumer interleaved *)

(** What the producer has done since its last publication: nothing, sampled the
    fill level, or copied data in. The consumer likewise. *)
Inductive producer := PIdle | PReady (index avail : Z) | PWrote (index : Z) (d : bytes).
Inductive consumer := CIdle | CReady (index avail : Z) | CRead (index : Z) (d : bytes).

(** [produced] and [consumed] are ghost: all data published and all data released. *)
Record sys := mkSys {
  rb : SpaRingbuffer; buf : bytes; prod : producer; cons : consumer;
  produced : bytes; consumed : bytes }.

Inductive step : sys -> sys -> Prop :=
| step_get_write r b c p q filled index :
    spa_ringbuffer_get_write_index r = (filled, index) ->
    step (mkSys r b PIdle c p q) (mkSys r b (PReady index (size r - filled)) c p q)
| step_write r b b' c p q index avail d :
    zlen d <= avail ->
    spa_ringbuffer_write_data r b (Z.land index (mask r)) d = Some b' ->
    step (mkSys r b (PReady index avail) c p q) (mkSys r b' (PWrote index d) c p q)
| step_publish r b c p q index d :
    step (mkSys r b (PWrote index d) c p q)
         (mkSys (spa_ringbuffer_write_update r (index + zlen d)) b PIdle c (p ++ d) q)
| step_get_read r b w p q avail index :
    spa_ringbuffer_get_read_index r = (avail, index) ->
    step (mkSys r b w CIdle p q) (mkSys r b w (CReady index avail) p q)
| step_read r b w p q index avail len d :
    0 <= len <= avail ->
    spa_ringbuffer_read_data r b (Z.land index (mask r)) len = Some d ->
    step (mkSys r b w (CReady index avail) p q) (mkSys r b w (CRead index d) p q)
| step_release r b w p q index d :
    step (mkSys r b w (CRead index d) p q)
         (mkSys (spa_ringbuffer_read_update r (index + zlen d)) b w CIdle p (q ++ d)).

Definition steps := rtc step.

Section Interleaving.
Variable k : Z.
Let n := 2 ^ k.

Definition prod_inv (s : sys) : Prop :=
  let W := zlen (produced s) in let R := zlen (consumed s) in
  match prod s with
  | PIdle => True
  | PReady index avail => index = u32 W /\ avail <= R + n - W
  | PWrote index d => index = u32 W /\ zlen d <= R + n - W /\
      forall i, 0 <= i < zlen d -> buf s !! Z.to_nat ((W + i) mod n) = d !! Z.to_nat i
  end.

Definition cons_inv (s : sys) : Prop :=
  let W := zlen (produced s) in let R := zlen (consumed s) in
  match cons s with
  | CIdle => True
  | CReady index avail => index = u32 R /\ avail <= W - R
  | CRead index d => index = u32 R /\ zlen d <= W - R /\
      forall i, 0 <= i < zlen d -> d !! Z.to_nat i = produced s !! Z.to_nat (R + i)
  end.

Record ring_inv (s : sys) : Prop := {
  inv_ok : ring_ok (rb s) (buf s) k;
  inv_write : writeindex (rb s) = u32 (zlen (produced s));
  inv_read : readindex (rb s) = u32 (zlen (consumed s));
  inv_level : zlen (consumed s) <= zlen (produced s) <= zlen (consumed s) + n;
  inv_prefix : exists rest, produced s = consumed s ++ rest;
  inv_data : forall j, zlen (consumed s) <= j < zlen (produced s) ->
               buf s !! Z.to_nat (j mod n) = produced s !! Z.to_nat j;
  inv_prod : prod_inv s;
  inv_cons : cons_inv s
}.

Lemma level_exact W R : 0 <= k <= 30 -> R <= W <= R + n -> i32 (u32 (u32 W - u32 R)) = W - R.
Proof.
  intros Hk Hl. pose proof (pow2_bounds k Hk).
  replace (u32 (u32 W - u32 R)) with (W - R).
  - apply i32_small. unfold n in *. lia.
  - unfold u32. rewrite <- Zminus_mod, Z.mod_small; unfold n in *; lia.
Qed.

Lemma u32_add_l a b : u32 (u32 a + b) = u32 (a + b).
Proof. unfold u32. apply Zplus_mod_idemp_l. Qed.

(** The masked offset of a free-running index. *)
Lemma masked_offset r b W : ring_ok r b k -> 0 <= W -> Z.land (u32 W) (mask r) = W mod n.
Proof.
  intros H HW. rewrite (ring_mask _ _ _ H), mask_mod, u32_mod_pow2 by apply H. done.
Qed.

Lemma n_pos : 0 <= k <= 30 -> 0 < n.
Proof. intros. apply pow2_bounds in H. unfold n. lia. Qed.

Lemma write_step_inv r b b' c p q index avail d :
  ring_inv (mkSys r b (PReady index avail) c p q) -> zlen d <= avail ->
  spa_ringbuffer_write_data r b (Z.land index (mask r)) d = Some b' ->
  ring_inv (mkSys r b' (PWrote index d) c p q).
Proof.
  intros [Hok Hw Hr Hl Hpre Hd [-> Hav] Hc] Hdl Hwr; simpl in *.
  pose proof (ring_pow _ _ _ Hok) as Hk. pose proof (n_pos Hk) as Hn.
  pose proof (ring_buffer _ _ _ Hok) as Hb. fold n in Hb. pose proof (pow2_bounds k Hk) as Hnb. fold n in Hnb.
  pose proof (zlen_nonneg p). pose proof (zlen_nonneg d).
  rewrite (masked_offset _ _ _ Hok) in Hwr by done.
  destruct (write_data_spec r b (zlen p mod n) d) as (b1 & Hb1 & Hlen & Hval);
    [rewrite (ring_size _ _ _ Hok); done | lia | rewrite Hb; apply Z.mod_pos_bound; lia | lia |].
  rewrite Hb1 in Hwr. injection Hwr as <-. rewrite Hb in Hval.
  assert (forall j, 0 <= j < n -> b1 !! Z.to_nat ((zlen p + j) mod n) =
    if j <? zlen d then d !! Z.to_nat j else b !! Z.to_nat ((zlen p + j) mod n)) as Hv.
  { intros j Hj. specialize (Hval j Hj). by rewrite Zplus_mod_idemp_l in Hval. }
  constructor; simpl; try done.
  - destruct Hok. by constructor; [.. | congruence].
  - intros j Hj. rewrite <- Hd by done.
    replace (j mod n) with ((zlen p + (j - zlen p + n)) mod n)
      by (replace (zlen p + (j - zlen p + n)) with (j + 1 * n) by lia; apply Z.mod_add; lia).
    rewrite Hv by lia. case_if; [lia | done].
  - unfold prod_inv; simpl. split_and!; [done | lia |]. intros i Hi. rewrite Hv by lia.
    case_if; [done | lia].
Qed.

Lemma read_step_inv r b w p q index avail len d :
  ring_inv (mkSys r b w (CReady index avail) p q) -> 0 <= len <= avail ->
  spa_ringbuffer_read_data r b (Z.land index (mask r)) len = Some d ->
  ring_inv (mkSys r b w (CRead index d) p q).
Proof.
  intros [Hok Hw Hr Hl Hpre Hd Hp [-> Hav]] Hdl Hrd; simpl in *.
  pose proof (ring_pow _ _ _ Hok) as Hk. pose proof (n_pos Hk) as Hn.
  pose proof (ring_buffer _ _ _ Hok) as Hb. fold n in Hb. pose proof (pow2_bounds k Hk) as Hnb. fold n in Hnb.
  pose proof (zlen_nonneg q).
  rewrite (masked_offset _ _ _ Hok) in Hrd by done.
  destruct (read_data_spec r b (zlen q mod n) len) as (d1 & Hd1 & Hlen & Hval);
    [rewrite (ring_size _ _ _ Hok); done | lia | rewrite Hb; apply Z.mod_pos_bound; lia | lia |].
  rewrite Hd1 in Hrd. injection Hrd as <-. rewrite Hb in Hval.
  constructor; simpl; try done. unfold cons_inv; simpl. split_and!; [done | lia |]. intros i Hi.
  rewrite Hval, Zplus_mod_idemp_l by lia. apply Hd. lia.
Qed.

Lemma publish_inv r b c p q index d :
  ring_inv (mkSys r b (PWrote index d) c p q) ->
  ring_inv (mkSys (spa_ringbuffer_write_update r (index + zlen d)) b PIdle c (p ++ d) q).
Proof.
  intros [Hok Hw Hr Hl [rest Hpre] Hd (-> & Hdl & Hval) Hc]; simpl in *.
  pose proof (zlen_nonneg d). pose proof (zlen_nonneg p).
  constructor; simpl; autorewrite with zlen; try done; try lia.
  - destruct Hok. by constructor.
  - apply u32_add_l.
  - exists (rest ++ d). by rewrite Hpre, <- app_assoc.
  - intros j Hj. pose proof (zlen_nonneg q). destruct (decide (j < zlen p)).
    + rewrite lookup_app_l by (unfold zlen in *; lia). apply Hd. lia.
    + rewrite lookup_app_r by (unfold zlen in *; lia).
      specialize (Hval (j - zlen p)). replace (zlen p + (j - zlen p)) with j in Hval by lia.
      rewrite Hval by lia. f_equal. unfold zlen in *. lia.
  - unfold cons_inv in *; simpl in *. destruct c; [done | autorewrite with zlen; lia |].
    autorewrite with zlen. destruct Hc as (? & ? & Hv). split_and!; [done | lia |].
    intros i Hi. pose proof (zlen_nonneg q). rewrite Hv, lookup_app_l by (unfold zlen in *; lia). done.
Qed.

Lemma release_inv r b w p q index d :
  ring_inv (mkSys r b w (CRead index d) p q) ->
  ring_inv (mkSys (spa_ringbuffer_read_update r (index + zlen d)) b w CIdle p (q ++ d)).
Proof.
  intros [Hok Hw Hr Hl [rest Hpre] Hd Hp (-> & Hdl & Hval)]; simpl in *.
  pose proof (zlen_nonneg d). pose proof (zlen_nonneg q).
  constructor; simpl; autorewrite with zlen; try done; try lia.
  - destruct Hok. by constructor.
  - apply u32_add_l.
  - subst p. autorewrite with zlen in *.
    exists (drop (length d) rest). rewrite <- app_assoc. f_equal.
    rewrite <- (take_drop (length d) rest) at 1. f_equal.
    apply list_eq_Z; [unfold zlen in *; rewrite length_take; lia |].
    intros i Hi. autorewrite with zlen in Hi. rewrite lookup_take_lt by (unfold zlen in *; lia).
    rewrite Hval by (unfold zlen in *; lia). rewrite lookup_app_r by (unfold zlen in *; lia).
    f_equal. unfold zlen in *. lia.
  - intros j Hj. apply Hd. lia.
  - unfold prod_inv in *; simpl in *. destruct w; [done | autorewrite with zlen; lia |].
    autorewrite with zlen. destruct Hp as (? & ? & ?). split_and!; [done | lia | done].
Qed.

Lemma sample_inv_w r b c p q filled index :
  ring_inv (mkSys r b PIdle c p q) -> spa_ringbuffer_get_write_index r = (filled, index) ->
  ring_inv (mkSys r b (PReady index (size r - filled)) c p q).
Proof.
  intros [Hok Hw Hr Hl Hpre Hd Hp Hc] [= <- <-]; simpl in *. constructor; simpl; try done.
  unfold prod_inv; simpl. rewrite Hw, Hr, level_exact by (try apply Hok; done).
  rewrite (ring_size _ _ _ Hok). fold n. split; [done | lia].
Qed.

Lemma sample_inv_r r b w p q avail index :
  ring_inv (mkSys r b w CIdle p q) -> spa_ringbuffer_get_read_index r = (avail, index) ->
  ring_inv (mkSys r b w (CReady index avail) p q).
Proof.
  intros [Hok Hw Hr Hl Hpre Hd Hp Hc] [= <- <-]; simpl in *. constructor; simpl; try done.
  unfold cons_inv; simpl. rewrite Hw, Hr, level_exact by (try apply Hok; done). split; [done | lia].
Qed.

Lemma step_inv s s' : ring_inv s -> step s s' -> ring_inv s'.
Proof.
  intros H Hs. destruct Hs; eauto using sample_inv_w, sample_inv_r, write_step_inv, read_step_inv,
    publish_inv, release_inv.
Qed.

Lemma steps_inv s s' : ring_inv s -> steps s s' -> ring_inv s'.
Proof. intros H Hs. induction Hs; eauto using step_inv. Qed.
End Interleaving.

(** ** Properties *)

Definition ring_start (sz : Z) (buffer : bytes) : sys :=
  mkSys (spa_ringbuffer_init (mkRing 0 0 0 0) sz).2 buffer PIdle CIdle [] [].

Lemma ring_start_inv k buffer :
  0 <= k <= 30 -> zlen buffer = 2 ^ k -> ring_inv k (ring_start (2 ^ k) buffer).
Proof.
  intros Hk Hb. pose proof (pow2_bounds k Hk).
  assert (spa_ringbuffer_init (mkRing 0 0 0 0) (2 ^ k) = (SPA_RESULT_OK, mkRing 0 0 (2 ^ k) (2 ^ k - 1))) as Hi.
  { unfold spa_ringbuffer_init. rewrite u32_small by (unfold is_u32; lia).
    by rewrite land_low, Z.mod_same by lia. }
  unfold ring_start. rewrite Hi. constructor; simpl; try done; autorewrite with zlen; try lia.
  by exists [].
Qed.

(** C27: However the accesses of one producer and one consumer interleave, the
    consumer reads exactly the bytes the producer published, in order: what has
    been consumed is a prefix of what has been produced, at most [size] bytes are
    in flight, and the fill levels the header computes from the wrapping 32-bit
    indices are the true ones. *)
Theorem ring_fifo k buffer s :
  0 <= k <= 30 -> zlen buffer = 2 ^ k -> steps (ring_start (2 ^ k) buffer) s ->
  (exists rest, produced s = consumed s ++ rest /\ zlen rest <= 2 ^ k) /\
  (spa_ringbuffer_get_read_index (rb s)).1 = zlen (produced s) - zlen (consumed s) /\
  (spa_ringbuffer_get_write_index (rb s)).1 = zlen (produced s) - zlen (consumed s).
Proof.
  intros Hk Hb Hs. apply (steps_inv k) in Hs as [Hok Hw Hr Hl [rest Hpre] _ _ _]; [| by apply ring_start_inv].
  unfold spa_ringbuffer_get_read_index, spa_ringbuffer_get_write_index; simpl.
  rewrite Hw, Hr, level_exact with (k := k) by done. split_and!; [| done | done].
  exists rest. split; [done |]. rewrite Hpre in Hl. autorewrite with zlen in Hl. lia.
Qed.

(** A run on a ring of 4 bytes: 3 bytes in, 3 out, then 3 more across the wrap. *)
Lemma ring_run :
  steps (ring_start (2 ^ 2) [0; 0; 0; 0])
    (mkSys (mkRing 3 6 4 3) [5; 6; 3; 4] PIdle (CRead 3 [4; 5]) [1; 2; 3; 4; 5; 6] [1; 2; 3]).
Proof.
  eapply rtc_l; [by apply step_get_write |].
  eapply rtc_l; [apply (step_write _ _ [1; 2; 3; 0]) with (d := [1; 2; 3]); by vm_compute |].
  eapply rtc_l; [apply step_publish |].
  eapply rtc_l; [by apply step_get_read |].
  eapply rtc_l; [apply step_read with (len := 3) (d := [1; 2; 3]); by vm_compute |].
  eapply rtc_l; [by apply step_get_write |].
  eapply rtc_l; [apply step_release |].
  eapply rtc_l; [apply (step_write _ _ [1; 2; 3; 4]) with (d := [4]); by vm_compute |].
  eapply rtc_l; [apply step_publish |].
  eapply rtc_l; [by apply step_get_write |].
  eapply rtc_l; [apply (step_write _ _ [5; 6; 3; 4]) with (d := [5; 6]); by vm_compute |].
  eapply rtc_l; [apply step_publish |].
  eapply rtc_l; [by apply step_get_read |].
  eapply rtc_l; [apply step_read with (len := 2) (d := [4; 5]); by vm_compute |].
  apply rtc_refl.
Qed.

Lemma ring_fifo_witness :
  steps (ring_start (2 ^ 2) [0; 0; 0; 0])
    (mkSys (mkRing 3 6 4 3) [5; 6; 3; 4] PIdle (CRead 3 [4; 5]) [1; 2; 3; 4; 5; 6] [1; 2; 3]) /\
  exists rest, [1; 2; 3; 4; 5; 6] = [1; 2; 3] ++ rest /\ zlen rest <= 4.
Proof.
  split; [exact ring_run |].
  exact (proj1 (ring_fifo 2 [0; 0; 0; 0] _ ltac:(lia) eq_refl ring_run)).
Defined.

(** [spa_ringbuffer_init] accepts a size exactly when it is a power of two, or
    zero; when it does the ring is empty with [mask = size - 1] (mod 2^32). *)
Theorem ring_init_pow2 rbuf sz : is_u32 sz ->
  ((spa_ringbuffer_init rbuf sz).1 = SPA_RESULT_OK <-> sz = 0 \/ exists k, 0 <= k < 32 /\ sz = 2 ^ k) /\
  ((spa_ringbuffer_init rbuf sz).1 <> SPA_RESULT_OK -> spa_ringbuffer_init rbuf sz = (SPA_RESULT_ERROR, rbuf)).
Proof.
  unfold is_u32. intros Hsz. unfold spa_ringbuffer_init. split; [| case_if; done].
  destruct (decide (sz = 0)) as [->|Hnz]; [split; [by left | done] |].
  rewrite u32_small by (unfold is_u32; lia).
  pose proof (Z.log2_spec sz ltac:(lia)) as [Hlo Hhi].
  assert (Z.log2 sz < 32) by (apply Z.log2_lt_pow2; lia).
  pose proof (Z.log2_nonneg sz).
  case_if; simpl.
  - split; [done |]. intros [?|(j & Hj & ->)]; [lia |]. exfalso. apply Heqb.
    by rewrite land_low, Z.mod_same by (try apply Z.pow_nonzero; lia).
  - split; [| done]. intros _. right. exists (Z.log2 sz). split; [lia |].
    destruct (decide (sz = 2 ^ Z.log2 sz)) as [|Hne]; [done |]. exfalso.
    assert (Z.testbit (Z.land sz (sz - 1)) (Z.log2 sz) = true) as Ht; [| by rewrite Heqb, Z.bits_0 in Ht].
    rewrite Z.land_spec, Z.bit_log2 by lia. simpl.
    replace (Z.log2 sz) with (Z.log2 (sz - 1)); [apply Z.bit_log2; lia |].
    apply Z.log2_unique; lia.
Qed.

Lemma ring_init_pow2_witness :
  (spa_ringbuffer_init (mkRing 0 0 0 0) 12 = (SPA_RESULT_ERROR, mkRing 0 0 0 0)) /\
  ((spa_ringbuffer_init (mkRing 0 0 0 0) 4096).1 = SPA_RESULT_OK <->
     4096 = 0 \/ exists k, 0 <= k < 32 /\ 4096 = 2 ^ k).
Proof.
  split.
  - apply (proj2 (ring_init_pow2 (mkRing 0 0 0 0) 12 ltac:(split; [by vm_compute | by vm_compute]))). by vm_compute.
  - apply (ring_init_pow2 (mkRing 0 0 0 0) 4096). split; by vm_compute.
Defined.
