(* ===== verification/Mem.v ===== *)
(** [pinos/client/mem.c]: blocks of memory, allocated or shared through a descriptor.

    The kernel is a parameter: which descriptor or address it answers with, and when
    it refuses, is arbitrary (class [Kernel]). The state holds what a process has
    open: descriptors, mappings, allocations. *)
From stdpp Require Import gmap.
From S2P Require Import Prelude Defs.

Definition PINOS_MEMBLOCK_FLAG_NONE : Z := 0.
Definition PINOS_MEMBLOCK_FLAG_WITH_FD : Z := Z.shiftl 1 0.
Definition PINOS_MEMBLOCK_FLAG_SEAL : Z := Z.shiftl 1 1.
Definition PINOS_MEMBLOCK_FLAG_MAP_READ : Z := Z.shiftl 1 2.
Definition PINOS_MEMBLOCK_FLAG_MAP_WRITE : Z := Z.shiftl 1 3.
Definition PINOS_MEMBLOCK_FLAG_MAP_TWICE : Z := Z.shiftl 1 4.
Definition PINOS_MEMBLOCK_FLAG_MAP_READWRITE : Z := Z.lor PINOS_MEMBLOCK_FLAG_MAP_READ PINOS_MEMBLOCK_FLAG_MAP_WRITE.

(** [ptr]: 0 is [NULL], [MAP_FAILED] the pointer -1. *)
Record PinosMemblock := mkMem { flags : Z; fd : Z; offset : Z; ptr : Z; size : Z }.
Definition MAP_FAILED : Z := -1.

Definition has (flags flag : Z) : bool := negb (Z.land flags flag =? 0).

(** ** The process *)

(** Mappings by their address, with their length; [calls] counts system calls. *)
Record process := mkProcess { descriptors : gset Z; mappings : gmap Z Z; allocations : gset Z; calls : nat }.

Class Kernel := {
  new_fd : process -> option Z;
  new_map : process -> Z -> option Z;
  new_block : process -> Z -> option Z;
  allows : process -> bool;
  new_fd_unused s n : new_fd s = Some n -> 0 <= n /\ n ∉ descriptors s;
  new_map_unused s len a : new_map s len = Some a -> 0 < a /\ mappings s !! a = None /\ a ∉ allocations s;
  new_block_unused s len a : new_block s len = Some a -> 0 < a /\ a ∉ allocations s
}.

Definition tick (s : process) : process := mkProcess (descriptors s) (mappings s) (allocations s) (S (calls s)).
Definition resources (s : process) : gset Z * gmap Z Z * gset Z := (descriptors s, mappings s, allocations s).

Section Mem.
Context `{Kernel}.

(** [mkostemp]; the name is unlinked at once. *)
Definition sys_open (s : process) : Z * process :=
  match new_fd s with
  | Some n => (n, tick (mkProcess ({[n]} ∪ descriptors s) (mappings s) (allocations s) (calls s)))
  | None => (-1, tick s)
  end.
Definition sys_ftruncate (s : process) : Z * process := (if allows s then 0 else -1, tick s).
Definition sys_close (fd : Z) (s : process) : process :=
  tick (mkProcess (descriptors s ∖ {[fd]}) (mappings s) (allocations s) (calls s)).
Definition sys_mmap (len : Z) (s : process) : Z * process :=
  match new_map s len with
  | Some a => (a, tick (mkProcess (descriptors s) (<[a := len]> (mappings s)) (allocations s) (calls s)))
  | None => (MAP_FAILED, tick s)
  end.
(** [mmap] with [MAP_FIXED] over pages that are mapped already. *)
Definition sys_mmap_fixed (addr : Z) (s : process) : Z * process := (if allows s then addr else MAP_FAILED, tick s).
(** Unmapping the first [len] bytes of a mapping keeps the rest. *)
Definition sys_munmap (addr len : Z) (s : process) : process :=
  let maps := match mappings s !! addr with
              | Some l => if len <? l then <[addr + len := l - len]> (delete addr (mappings s)) else delete addr (mappings s)
              | None => mappings s
              end in
  tick (mkProcess (descriptors s) maps (allocations s) (calls s)).
Definition libc_malloc (len : Z) (s : process) : Z * process :=
  match new_block s len with
  | Some a => (a, tick (mkProcess (descriptors s) (mappings s) ({[a]} ∪ allocations s) (calls s)))
  | None => (0, tick s)
  end.
(** Freeing what [malloc] did not return is undefined. *)
Definition libc_free (ptr : Z) (s : process) : outcome process :=
  if ptr =? 0 then Done s
  else if bool_decide (ptr ∈ allocations s) then Done (tick (mkProcess (descriptors s) (mappings s) (allocations s ∖ {[ptr]}) (calls s)))
  else Undef.

(** ** The operations *)

Definition with_ptr (mem : PinosMemblock) (p : Z) : PinosMemblock := mkMem (flags mem) (fd mem) (offset mem) p (size mem).
Definition with_fd (mem : PinosMemblock) (n : Z) : PinosMemblock := mkMem (flags mem) n (offset mem) (ptr mem) (size mem).

(** The two mappings of the same pages behind each other. *)
Definition map_twice (mem : PinosMemblock) (s : process) : Z * PinosMemblock * process :=
  let twice := u64 (Z.shiftl (size mem) 1) in
  let '(p, s) := sys_mmap twice s in
  let mem := with_ptr mem p in
  if p =? MAP_FAILED then (SPA_RESULT_NO_MEMORY, mem, s)
  else
    let '(q, s) := sys_mmap_fixed p s in
    if negb (q =? p) then (SPA_RESULT_NO_MEMORY, mem, sys_munmap p twice s)
    else
      let '(q, s) := sys_mmap_fixed (p + size mem) s in
      if negb (q =? p + size mem) then (SPA_RESULT_NO_MEMORY, mem, sys_munmap p twice s)
      else (SPA_RESULT_OK, mem, s).

Definition pinos_memblock_map (mem : PinosMemblock) (s : process) : Z * PinosMemblock * process :=
  if negb (ptr mem =? 0) then (SPA_RESULT_OK, mem, s)
  else if has (flags mem) PINOS_MEMBLOCK_FLAG_MAP_READWRITE then
    if has (flags mem) PINOS_MEMBLOCK_FLAG_MAP_TWICE then map_twice mem s
    else
      let '(p, s) := sys_mmap (size mem) s in
      let mem := with_ptr mem p in
      if p =? MAP_FAILED then (SPA_RESULT_NO_MEMORY, mem, s) else (SPA_RESULT_OK, mem, s)
  else (SPA_RESULT_OK, with_ptr mem 0, s).

(** The end of a successful allocation: the descriptor is only kept on request. *)
Definition drop_fd (flags : Z) (mem : PinosMemblock) (s : process) : Z * PinosMemblock * process :=
  if negb (has flags PINOS_MEMBLOCK_FLAG_WITH_FD) && negb (fd mem =? -1)
  then (SPA_RESULT_OK, with_fd mem (-1), sys_close (fd mem) s)
  else (SPA_RESULT_OK, mem, s).

Definition pinos_memblock_alloc (flags size : Z) (mem : PinosMemblock) (s : process) : Z * PinosMemblock * process :=
  if size =? 0 then (SPA_RESULT_INVALID_ARGUMENTS, mem, s)
  else
    let mem := mkMem flags (fd mem) 0 (ptr mem) size in
    if has flags (Z.lor PINOS_MEMBLOCK_FLAG_MAP_TWICE PINOS_MEMBLOCK_FLAG_WITH_FD) then
      let '(n, s) := sys_open s in
      let mem := with_fd mem n in
      if n =? -1 then (SPA_RESULT_ERRNO, mem, s)
      else
        let '(r, s) := sys_ftruncate s in
        if r <? 0 then (SPA_RESULT_ERRNO, mem, sys_close n s)
        else
          let '(r, mem, s) := pinos_memblock_map mem s in
          if negb (r =? SPA_RESULT_OK) then (SPA_RESULT_NO_MEMORY, mem, sys_close (fd mem) s)
          else drop_fd flags mem s
    else
      let '(p, s) := libc_malloc size s in
      let mem := with_ptr mem p in
      if p =? 0 then (SPA_RESULT_NO_MEMORY, mem, s) else drop_fd flags (with_fd mem (-1)) s.

Definition pinos_memblock_free (mem : PinosMemblock) (s : process) : outcome (PinosMemblock * process) :=
  let* s :=
    if has (flags mem) PINOS_MEMBLOCK_FLAG_WITH_FD then
      let s := if negb (ptr mem =? 0) then sys_munmap (ptr mem) (size mem) s else s in
      Done (if negb (fd mem =? -1) then sys_close (fd mem) s else s)
    else libc_free (ptr mem) s in
  Done (with_fd (with_ptr mem 0) (-1), s).

(** ** Facts *)

Lemma resources_eq d m a n d' m' a' n' : d = d' -> m = m' -> a = a' ->
  resources (mkProcess d m a n) = resources (mkProcess d' m' a' n').
Proof. by intros -> -> ->. Qed.

Lemma remove_added (X : gset Z) n : n ∉ X -> ({[n]} ∪ X) ∖ {[n]} = X.
Proof. set_solver. Qed.

(** Closing and unmapping undo opening and mapping. *)
Lemma open_close s n s1 d m a : sys_open s = (n, s1) -> n <> -1 -> resources s = (d, m, a) ->
  resources s1 = ({[n]} ∪ d, m, a) /\ n ∉ d /\ 0 <= n.
Proof.
  unfold sys_open, resources. destruct (new_fd s) as [k|] eqn:Hk; intros [= <- <-] Hn [= <- <- <-]; [| done].
  apply new_fd_unused in Hk as [? ?]. done.
Qed.

Lemma mmap_spec len s p s1 d m a : sys_mmap len s = (p, s1) -> resources s = (d, m, a) ->
  (p = MAP_FAILED /\ resources s1 = (d, m, a)) \/ (0 < p /\ m !! p = None /\ p ∉ a /\ resources s1 = (d, <[p := len]> m, a)).
Proof.
  unfold sys_mmap, resources. destruct (new_map s len) as [k|] eqn:Hk; intros [= <- <-] [= <- <- <-]; [right | by left].
  by apply new_map_unused in Hk as (? & ? & ?).
Qed.

Lemma munmap_whole p len s d m a : resources s = (d, <[p := len]> m, a) -> m !! p = None ->
  resources (sys_munmap p len s) = (d, m, a).
Proof.
  intros [= <- Hm <-] Hp. unfold sys_munmap, resources. simpl. rewrite Hm, lookup_insert_eq, Z.ltb_irrefl.
  by rewrite delete_insert_id.
Qed.

Lemma fixed_resources p s q s1 : sys_mmap_fixed p s = (q, s1) -> resources s1 = resources s.
Proof. by intros [= <- <-]. Qed.

Lemma close_resources n s d m a : resources s = (d, m, a) -> resources (sys_close n s) = (d ∖ {[n]}, m, a).
Proof. by intros [= <- <- <-]. Qed.

Lemma twice_spec mem s d m a : resources s = (d, m, a) ->
  exists r p s1, map_twice mem s = (r, with_ptr mem p, s1) /\
    (r <> SPA_RESULT_OK /\ resources s1 = (d, m, a) \/
     r = SPA_RESULT_OK /\ 0 < p /\ m !! p = None /\ p ∉ a /\ resources s1 = (d, <[p := u64 (Z.shiftl (size mem) 1)]> m, a)).
Proof.
  intros Hs. unfold map_twice. destruct (sys_mmap _ s) as [p s1] eqn:Hp.
  apply (mmap_spec _ _ _ _ d m a) in Hp as [[-> Hs1] | (Hp & Hfree & Hna & Hs1)]; [| | done].
  { eexists _, _, _. split; [done | by left]. }
  rewrite (proj2 (Z.eqb_neq p MAP_FAILED)) by (unfold MAP_FAILED; lia).
  destruct (sys_mmap_fixed p s1) as [q s2] eqn:Hq. apply fixed_resources in Hq.
  case_if.
  { eexists _, _, _. split; [done | left]. split; [done |]. apply munmap_whole; congruence. }
  destruct (sys_mmap_fixed _ s2) as [q' s3] eqn:Hq'. apply fixed_resources in Hq'.
  case_if.
  - eexists _, _, _. split; [done | left]. split; [done |]. apply munmap_whole; congruence.
  - eexists _, _, _. split; [done | right]. split_and!; [done.. | congruence].
Qed.

(** What mapping a block that has no address yet does. *)
Lemma map_spec mem s d m a : ptr mem = 0 -> resources s = (d, m, a) ->
  exists r p s1, pinos_memblock_map mem s = (r, with_ptr mem p, s1) /\
    (r <> SPA_RESULT_OK /\ resources s1 = (d, m, a) \/
     r = SPA_RESULT_OK /\ p = 0 /\ has (flags mem) PINOS_MEMBLOCK_FLAG_MAP_READWRITE = false /\ resources s1 = (d, m, a) \/
     r = SPA_RESULT_OK /\ has (flags mem) PINOS_MEMBLOCK_FLAG_MAP_READWRITE = true /\ 0 < p /\ m !! p = None /\ p ∉ a /\
       resources s1 = (d, <[p := if has (flags mem) PINOS_MEMBLOCK_FLAG_MAP_TWICE then u64 (Z.shiftl (size mem) 1) else size mem]> m, a)).
Proof.
  intros Hptr Hs. unfold pinos_memblock_map. rewrite Hptr. cbn [Z.eqb negb].
  destruct (has (flags mem) PINOS_MEMBLOCK_FLAG_MAP_READWRITE).
  - destruct (has (flags mem) PINOS_MEMBLOCK_FLAG_MAP_TWICE).
    + destruct (twice_spec mem s d m a Hs) as (r & p & s1 & Heq & Hc). exists r, p, s1. split; [done |]. tauto.
    + destruct (sys_mmap _ s) as [p s1] eqn:Hp. apply (mmap_spec _ _ _ _ d m a) in Hp as [[-> Hs1] | (Hp & Hfree & Hna & Hs1)]; [| | done].
      * eexists _, _, _. split; [done | by left].
      * rewrite (proj2 (Z.eqb_neq p MAP_FAILED)) by (unfold MAP_FAILED; lia). eexists _, _, _. split; [done |]. tauto.
  - eexists _, _, _. split; [done |]. tauto.
Qed.

(** A block on a descriptor: what is open afterwards. *)
Lemma alloc_fd_spec flags0 len mem s d m a :
  has flags0 (Z.lor PINOS_MEMBLOCK_FLAG_MAP_TWICE PINOS_MEMBLOCK_FLAG_WITH_FD) = true -> len <> 0 -> ptr mem = 0 ->
  resources s = (d, m, a) ->
  exists r n p s1, pinos_memblock_alloc flags0 len mem s = (r, mkMem flags0 n 0 p len, s1) /\
    (r <> SPA_RESULT_OK /\ resources s1 = (d, m, a) \/
     r = SPA_RESULT_OK /\ (n = -1 \/ n ∉ d /\ 0 <= n) /\ (if has flags0 PINOS_MEMBLOCK_FLAG_MAP_READWRITE then 0 < p /\ m !! p = None /\ p ∉ a else p = 0) /\
       (has flags0 PINOS_MEMBLOCK_FLAG_WITH_FD = true <-> n <> -1) /\
       resources s1 = (if n =? -1 then d else {[n]} ∪ d,
                       if p =? 0 then m else <[p := if has flags0 PINOS_MEMBLOCK_FLAG_MAP_TWICE then u64 (Z.shiftl len 1) else len]> m, a)).
Proof.
  intros Hfd Hlen Hptr Hs. unfold pinos_memblock_alloc. rewrite (proj2 (Z.eqb_neq len 0)), Hfd by done.
  destruct (sys_open s) as [n s1] eqn:Ho. destruct (Z.eqb_spec n (-1)) as [->|Hn].
  { eexists _, _, _, _. split; [by rewrite Hptr |]. left. split; [done |]. unfold sys_open in Ho.
    destruct (new_fd s) as [k|] eqn:Hk; simplify_eq; [apply new_fd_unused in Hk; lia | done]. }
  destruct (open_close _ _ _ _ _ _ Ho Hn Hs) as (Hs1 & Hnew & Hpos).
  unfold sys_ftruncate. cbn [fst snd]. set (s2 := tick s1). assert (resources s2 = ({[n]} ∪ d, m, a)) as Hs2 by done.
  case_if.
  { eexists _, _, _, _. split; [by rewrite Hptr |]. left. split; [done |].
    rewrite (close_resources _ _ _ _ _ Hs2), remove_added by done. done. }
  unfold with_fd. cbn [Mem.flags Mem.offset Mem.ptr Mem.size]. rewrite Hptr.
  destruct (map_spec (mkMem flags0 n 0 0 len) s2 _ _ _ eq_refl Hs2) as (r & p & s3 & -> & Hc).
  assert (r <> SPA_RESULT_OK \/ r = SPA_RESULT_OK) as [Hr | ->] by lia.
  { rewrite (proj2 (Z.eqb_neq r _)) by done. cbn [negb]. eexists _, _, _, _. split; [done |]. left. split; [done |].
    destruct Hc as [[_ Hc] | [[? _] | [? _]]]; [| done..].
    cbn [Mem.fd with_ptr]. rewrite (close_resources _ _ _ _ _ Hc), remove_added by done. done. }
  cbn [Z.eqb negb SPA_RESULT_OK]. unfold drop_fd, with_ptr, with_fd. cbn [Mem.flags Mem.fd Mem.offset Mem.ptr Mem.size] in *.
  rewrite (proj2 (Z.eqb_neq n (-1))) by done. cbn [negb]. rewrite andb_true_r.
  assert ((if has flags0 PINOS_MEMBLOCK_FLAG_MAP_READWRITE then 0 < p /\ m !! p = None /\ p ∉ a else p = 0) /\ resources s3 = ({[n]} ∪ d,
      if p =? 0 then m else <[p:=if has flags0 PINOS_MEMBLOCK_FLAG_MAP_TWICE then u64 (Z.shiftl len 1) else len]> m, a)) as [Hp Hs3].
  { destruct Hc as [[? _] | [(_ & -> & Hr & Hc) | (_ & Hr & H0 & Hm & Ha & Hc)]]; [done | |]; cbn [Mem.flags] in Hr; rewrite Hr; [done |].
    by rewrite (proj2 (Z.eqb_neq p 0)) by lia. }
  destruct (has flags0 PINOS_MEMBLOCK_FLAG_WITH_FD); cbn [negb]; eexists _, _, _, _; (split; [done | right]).
  - split_and!; [done | by right | done | done |]. by rewrite (proj2 (Z.eqb_neq n (-1))) by done.
  - split_and!; [done | by left | done | done |]. cbn [Z.eqb]. by rewrite (close_resources _ _ _ _ _ Hs3), remove_added.
Qed.

(** A block of ordinary memory. *)
Lemma alloc_heap_spec flags0 len mem s d m a :
  has flags0 (Z.lor PINOS_MEMBLOCK_FLAG_MAP_TWICE PINOS_MEMBLOCK_FLAG_WITH_FD) = false -> len <> 0 ->
  has flags0 PINOS_MEMBLOCK_FLAG_WITH_FD = false -> resources s = (d, m, a) ->
  exists r n p s1, pinos_memblock_alloc flags0 len mem s = (r, mkMem flags0 n 0 p len, s1) /\
    (r <> SPA_RESULT_OK /\ resources s1 = (d, m, a) \/
     r = SPA_RESULT_OK /\ 0 < p /\ p ∉ a /\ resources s1 = (d, m, {[p]} ∪ a)).
Proof.
  intros Hno Hlen Hfd [= <- <- <-]. unfold pinos_memblock_alloc, libc_malloc. rewrite (proj2 (Z.eqb_neq len 0)), Hno by done.
  destruct (new_block s len) as [p|] eqn:Hp.
  - apply new_block_unused in Hp as [Hp Hnew]. rewrite (proj2 (Z.eqb_neq p 0)) by lia.
    unfold drop_fd. rewrite Hfd. eexists _, _, _, _. split; [done | by right].
  - eexists _, _, _, _. split; [done | by left].
Qed.

Lemma free_null mem s : ptr mem = 0 -> fd mem = -1 -> pinos_memblock_free mem s = Done (with_fd (with_ptr mem 0) (-1), s).
Proof.
  intros Hp Hf. unfold pinos_memblock_free, libc_free. rewrite Hp, Hf. by destruct (has _ _).
Qed.

(** Releasing a block that a descriptor stands behind, or an ordinary one. *)
Lemma free_fd_spec flags0 n p len s d m a :
  has flags0 PINOS_MEMBLOCK_FLAG_WITH_FD = true -> n <> -1 -> n ∉ d -> p = 0 \/ 0 < p /\ m !! p = None ->
  resources s = ({[n]} ∪ d, if p =? 0 then m else <[p := len]> m, a) ->
  exists s1, pinos_memblock_free (mkMem flags0 n 0 p len) s = Done (mkMem flags0 (-1) 0 0 len, s1) /\ resources s1 = (d, m, a).
Proof.
  intros Hfd Hn Hd Hp Hs. unfold pinos_memblock_free. cbn [flags fd ptr size]. rewrite Hfd, (proj2 (Z.eqb_neq n (-1))) by done.
  eexists. split; [done |]. cbn [negb]. rewrite <- (remove_added d n) by done. apply close_resources.
  destruct Hp as [-> | [Hp Hm]]; [done |]. rewrite (proj2 (Z.eqb_neq p 0)) in * by lia. by apply munmap_whole.
Qed.

Lemma has_lor flags0 a b : has flags0 (Z.lor a b) = has flags0 a || has flags0 b.
Proof.
  unfold has. rewrite Z.land_lor_distr_r. rewrite <- negb_andb. f_equal. apply eq_true_iff_eq.
  rewrite andb_true_iff, !Z.eqb_eq. apply Z.lor_eq_0_iff.
Qed.

(** What is left of a block that was mapped twice: the second half stays mapped. *)
Lemma twice_leaks flags0 n p len s d m a :
  has flags0 PINOS_MEMBLOCK_FLAG_WITH_FD = true -> n <> -1 -> n ∉ d -> 0 < p -> m !! p = None -> 0 < len < 2 ^ 63 ->
  resources s = ({[n]} ∪ d, <[p := u64 (Z.shiftl len 1)]> m, a) ->
  exists s1, pinos_memblock_free (mkMem flags0 n 0 p len) s = Done (mkMem flags0 (-1) 0 0 len, s1) /\
    resources s1 = (d, <[p + len := len]> m, a).
Proof.
  intros Hfd Hn Hd Hp Hm Hlen [= Hds Hms Has]. unfold pinos_memblock_free. cbn [flags fd ptr size].
  rewrite Hfd, (proj2 (Z.eqb_neq n (-1))), (proj2 (Z.eqb_neq p 0)) by lia. cbn [negb]. eexists. split; [done |].
  unfold sys_munmap, resources. cbn [sys_close tick mappings descriptors allocations]. rewrite Hds, Hms, Has, lookup_insert_eq.
  assert (u64 (Z.shiftl len 1) = 2 * len) as ->.
  { rewrite Z.shiftl_mul_pow2 by lia. rewrite u64_small; [lia |]. unfold is_u64. lia. }
  rewrite (proj2 (Z.ltb_lt _ _)) by lia. rewrite delete_insert_id, remove_added by done. do 3 f_equal. lia.
Qed.

(** Whether a block was mapped twice. *)
Definition mapped_twice (flags0 : Z) : bool :=
  has flags0 PINOS_MEMBLOCK_FLAG_MAP_TWICE && has flags0 PINOS_MEMBLOCK_FLAG_MAP_READWRITE.

(** C35: Whatever the kernel answers, an allocation (of a block without an address so far) that
    fails leaves nothing open. A block that was allocated and not mapped twice is released
    completely by one call of [pinos_memblock_free], and a second call releases nothing. Of a
    block mapped twice that call only unmaps the first half, the second one stays mapped;
    and without [PINOS_MEMBLOCK_FLAG_WITH_FD] the mapping is given to [free], which is
    undefined. *)
Theorem memblock_balanced flags0 len mem s r mem1 s1 :
  ptr mem = 0 -> 0 <= len < 2 ^ 63 -> pinos_memblock_alloc flags0 len mem s = (r, mem1, s1) ->
  if negb (r =? SPA_RESULT_OK) then resources s1 = resources s
  else if negb (mapped_twice flags0) then
    exists mem2 s2, pinos_memblock_free mem1 s1 = Done (mem2, s2) /\ resources s2 = resources s /\
      pinos_memblock_free mem2 s2 = Done (mem2, s2)
  else if has flags0 PINOS_MEMBLOCK_FLAG_WITH_FD then
    exists mem2 s2, pinos_memblock_free mem1 s1 = Done (mem2, s2) /\
      resources s2 = (descriptors s, <[ptr mem1 + len := len]> (mappings s), allocations s)
  else pinos_memblock_free mem1 s1 = Undef.
Proof.
  intros Hptr Hlen Ha. destruct (decide (len = 0)) as [-> | Hne].
  { unfold pinos_memblock_alloc in Ha. by injection Ha as <- <- <-. }
  destruct (resources s) as [[d m] a] eqn:Hs.
  destruct (has flags0 (Z.lor PINOS_MEMBLOCK_FLAG_MAP_TWICE PINOS_MEMBLOCK_FLAG_WITH_FD)) eqn:Hk; rewrite has_lor in Hk.
  - destruct (alloc_fd_spec flags0 len mem s d m a ltac:(by rewrite has_lor) Hne Hptr Hs) as (r' & n & p & s' & Heq & Hc).
    rewrite Heq in Ha. injection Ha as <- <- <-. destruct Hc as [[Hr ?] | (-> & Hn & Hp & Hfd & Hres)].
    { by rewrite (proj2 (Z.eqb_neq _ _) Hr). }
    rewrite Z.eqb_refl. cbn [negb ptr]. unfold mapped_twice.
    destruct (has flags0 PINOS_MEMBLOCK_FLAG_WITH_FD) eqn:Hw.
    + assert (n <> -1) as Hn1 by by apply Hfd. destruct Hn as [|[Hn _]]; [done |]. rewrite (proj2 (Z.eqb_neq n (-1))) in Hres by done.
      assert (forall l, resources s' = ({[n]} ∪ d, if p =? 0 then m else <[p := l]> m, a) -> l = len ->
        exists mem2 s2, pinos_memblock_free (mkMem flags0 n 0 p len) s' = Done (mem2, s2) /\ resources s2 = (d, m, a) /\
          pinos_memblock_free mem2 s2 = Done (mem2, s2)) as Hwhole.
      { intros l Hl ->. destruct (free_fd_spec flags0 n p len s' d m a Hw Hn1 Hn) as (s2 & Hf & Hs2);
          [destruct (has flags0 PINOS_MEMBLOCK_FLAG_MAP_READWRITE); naive_solver | done |].
        eexists _, s2. split_and!; [done.. |]. by apply free_null. }
      destruct (has flags0 PINOS_MEMBLOCK_FLAG_MAP_TWICE); [| by eapply Hwhole].
      destruct (has flags0 PINOS_MEMBLOCK_FLAG_MAP_READWRITE); cbn [andb negb]; [| subst p; by eapply (Hwhole len)].
      destruct Hp as (Hp & Hm & _). rewrite (proj2 (Z.eqb_neq p 0)) in Hres by lia. injection Hs as <- <- <-.
      destruct (twice_leaks flags0 n p len s' _ _ _ Hw Hn1 Hn Hp Hm ltac:(lia) Hres) as (s2 & Hf & Hs2). by eexists _, s2.
    + rewrite orb_false_r in Hk. rewrite Hk in *. cbn [andb].
      assert (n = -1) as -> by (destruct (decide (n = -1)); [done | by apply Hfd in n0]). cbn [Z.eqb] in Hres.
      unfold pinos_memblock_free, libc_free. cbn [flags ptr]. rewrite Hw.
      destruct (has flags0 PINOS_MEMBLOCK_FLAG_MAP_READWRITE); cbn [negb].
      * destruct Hp as (Hp & _ & Hna). rewrite (proj2 (Z.eqb_neq p 0)) by lia. injection Hres as _ _ Hal.
        by rewrite Hal, bool_decide_false.
      * subst p. cbn [Z.eqb obind]. eexists _, s'. split; [done |]. split; [done |]. by apply free_null.
  - apply orb_false_iff in Hk as [Ht Hfd].
    destruct (alloc_heap_spec flags0 len mem s d m a ltac:(by rewrite has_lor, Ht, Hfd) Hne Hfd Hs) as (r' & n & p & s' & Heq & Hc).
    rewrite Heq in Ha. injection Ha as <- <- <-. destruct Hc as [[Hr ?] | (-> & Hp & Hnew & Hres)].
    { by rewrite (proj2 (Z.eqb_neq _ _) Hr). }
    rewrite Z.eqb_refl. unfold mapped_twice. rewrite Ht. cbn [negb andb].
    unfold pinos_memblock_free at 1, libc_free. cbn [flags ptr]. rewrite Hfd, (proj2 (Z.eqb_neq p 0)) by lia.
    injection Hres as Hd Hm Hal. rewrite Hal, bool_decide_true by set_solver. cbn [obind].
    eexists _, _. split; [done |]. split.
    + unfold resources. cbn [tick descriptors mappings allocations]. by rewrite Hd, Hm, remove_added.
    + by rewrite free_null.
Qed.
End Mem.

(** ** A kernel that grants everything *)

Definition above (l : list Z) : Z := 1 + foldr Z.max 0 l.

Lemma above_fresh l x : x ∈ l -> x < above l.
Proof.
  unfold above. induction l as [|y l IH]; [by intros ?%elem_of_nil |].
  intros [-> | Hx]%elem_of_cons; simpl; [lia |]. specialize (IH Hx). lia.
Qed.

#[export] Program Instance granting : Kernel | 100 := {|
  new_fd s := Some (above (elements (descriptors s)));
  new_map s len := Some (above ((map_to_list (mappings s)).*1 ++ elements (allocations s)));
  new_block s len := Some (above (elements (allocations s)));
  allows s := true
|}.
Next Obligation.
  intros s n [= <-]. split; [unfold above; induction (elements (descriptors s)); simpl in *; lia |].
  intros Hin%elem_of_elements%above_fresh. lia.
Qed.
Next Obligation.
  intros s _ a [= <-]. set (l := (map_to_list (mappings s)).*1 ++ elements (allocations s)).
  assert (above l ∉ l) as Hl by (intros Hin%above_fresh; lia). split; [clear; unfold above; induction l; simpl in *; lia |]. split.
  - apply not_elem_of_dom. intros [k Hk]%elem_of_dom. apply elem_of_map_to_list in Hk. apply Hl, elem_of_app. left.
    apply list_elem_of_fmap. by eexists (_, _).
  - intros Hin. by apply Hl, elem_of_app; right; apply elem_of_elements.
Qed.
Next Obligation.
  intros s _ a [= <-]. split; [unfold above; induction (elements (allocations s)); simpl in *; lia |].
  intros Hin%elem_of_elements%above_fresh. lia.
Qed.

Definition nothing_open : process := mkProcess ∅ ∅ ∅ 0.
Definition shared_flags : Z := Z.lor PINOS_MEMBLOCK_FLAG_WITH_FD PINOS_MEMBLOCK_FLAG_MAP_READWRITE.

Definition twice_flags : Z := Z.lor shared_flags PINOS_MEMBLOCK_FLAG_MAP_TWICE.
Definition no_block : PinosMemblock := mkMem 0 0 0 0 0.

(** A shared block is released; of one mapped twice the second half stays at 4097. *)
Lemma memblock_balanced_witness :
  (let '(r, mem1, s1) := pinos_memblock_alloc shared_flags 4096 no_block nothing_open in
   r = SPA_RESULT_OK /\ mappings s1 !! ptr mem1 = Some 4096 /\
   exists mem2 s2, pinos_memblock_free mem1 s1 = Done (mem2, s2) /\ resources s2 = resources nothing_open /\
     pinos_memblock_free mem2 s2 = Done (mem2, s2)) /\
  (let '(r, mem1, s1) := pinos_memblock_alloc twice_flags 4096 no_block nothing_open in
   r = SPA_RESULT_OK /\
   exists mem2 s2, pinos_memblock_free mem1 s1 = Done (mem2, s2) /\ resources s2 = (∅, {[4097 := 4096]}, ∅)).
Proof.
  split.
  - split; [by vm_compute |]. split; [by vm_compute |].
    exact (memblock_balanced shared_flags 4096 no_block nothing_open _ _ _ eq_refl ltac:(lia) eq_refl).
  - split; [by vm_compute |].
    exact (memblock_balanced twice_flags 4096 no_block nothing_open _ _ _ eq_refl ltac:(lia) eq_refl).
Defined.
