(* ===== verification/Transport.v ===== *)
(** [pinos/client/transport.c]: the memory a node shares with its client.

    One block holds the counts of ports, an IO area per port, and two rings for
    events, one per direction. The server lays the block out and resets it; the
    client maps it and exchanges the rings. A transport is a record of offsets into
    the block, which both sides read and write. *)
From S2P Require Import Prelude Defs Mem Ringbuffer.

Definition INPUT_BUFFER_SIZE : Z := Z.shiftl 1 12.
Definition OUTPUT_BUFFER_SIZE : Z := Z.shiftl 1 12.

(** The sizes of the structures in the block. *)
Definition sizeof_PinosTransportArea : Z := 16.
Definition sizeof_SpaPortIO : Z := 24.
Definition sizeof_SpaRingbuffer : Z := 16.
Definition sizeof_SpaEvent : Z := 16.

Record PinosTransportArea := mkArea { max_inputs : Z; n_inputs : Z; max_outputs : Z; n_outputs : Z }.

Definition area_bytes (a : PinosTransportArea) : bytes :=
  le32 (max_inputs a) ++ le32 (n_inputs a) ++ le32 (max_outputs a) ++ le32 (n_outputs a).

(** [PinosTransportImpl]: the pointers are offsets into the block. *)
Record PinosTransport := mkTransport {
  mem : PinosMemblock;
  inputs : Z; outputs : Z;
  input_buffer : Z; input_data : Z;
  output_buffer : Z; output_data : Z;
  current : bytes; current_index : Z
}.

Record PinosTransportInfo := mkInfo { memfd : Z; info_offset : Z; info_size : Z }.

Definition transport_area_get_size (a : PinosTransportArea) : Z :=
  let size := sizeof_PinosTransportArea in
  let size := u64 (size + u64 (max_inputs a * sizeof_SpaPortIO)) in
  let size := u64 (size + u64 (max_outputs a * sizeof_SpaPortIO)) in
  let size := u64 (size + sizeof_SpaRingbuffer) in
  let size := u64 (size + INPUT_BUFFER_SIZE) in
  let size := u64 (size + sizeof_SpaRingbuffer) in
  u64 (size + OUTPUT_BUFFER_SIZE).

(** The counts are read from the block [m]. *)
Definition transport_setup_area (m : bytes) (trans : PinosTransport) : outcome PinosTransport :=
  let p := sizeof_PinosTransportArea in
  let inputs := p in
  let* n := of_option (load32 0 m) in
  let p := p + u64 (n * sizeof_SpaPortIO) in
  let outputs := p in
  let* n := of_option (load32 8 m) in
  let p := p + u64 (n * sizeof_SpaPortIO) in
  let input_buffer := p in
  let p := p + sizeof_SpaRingbuffer in
  let input_data := p in
  let p := p + INPUT_BUFFER_SIZE in
  let output_buffer := p in
  let p := p + sizeof_SpaRingbuffer in
  let output_data := p in
  Done (mkTransport (mem trans) inputs outputs input_buffer input_data output_buffer output_data
          (current trans) (current_index trans)).

(** The loop over the IO areas; an index is an [int], compared as [uint32_t]. *)
Fixpoint reset_ports (n : nat) (p : Z) (m : bytes) : outcome bytes :=
  match n with
  | O => Done m
  | S n' =>
      let* m := of_option (mwrite p (le32 SPA_RESULT_OK) m) in
      let* m := of_option (mwrite (p + 4) (le32 SPA_ID_INVALID) m) in
      reset_ports n' (p + sizeof_SpaPortIO) m
  end.

(** *** Rings in the block *)

Definition ring_bytes (r : SpaRingbuffer) : bytes :=
  le32 (readindex r) ++ le32 (writeindex r) ++ le32 (size r) ++ le32 (mask r).

Definition load_ring (p : Z) (m : bytes) : outcome SpaRingbuffer :=
  let* r := of_option (load32 p m) in
  let* w := of_option (load32 (p + 4) m) in
  let* s := of_option (load32 (p + 8) m) in
  let* k := of_option (load32 (p + 12) m) in Done (mkRing r w s k).

(** What [spa_ringbuffer_init] leaves in the block; its result is not looked at. *)
Definition init_ring (p size : Z) (m : bytes) : outcome bytes :=
  let* r := load_ring p m in
  of_option (mwrite p (ring_bytes (spa_ringbuffer_init r size).2) m).

(** Reading and writing the data of a ring, which starts at [data] in the block. *)
Definition ring_read (r : SpaRingbuffer) (data offset len : Z) (m : bytes) : outcome bytes :=
  of_option (spa_ringbuffer_read_data r (drop (Z.to_nat data) m) offset len).
Definition ring_write (r : SpaRingbuffer) (data offset : Z) (d m : bytes) : outcome bytes :=
  let* b := of_option (spa_ringbuffer_write_data r (drop (Z.to_nat data) m) offset d) in
  Done (take (Z.to_nat data) m ++ b).
Definition ring_read_update (p index : Z) (m : bytes) : outcome bytes := of_option (mwrite p (le32 (u32 index)) m).
Definition ring_write_update (p index : Z) (m : bytes) : outcome bytes := of_option (mwrite (p + 4) (le32 (u32 index)) m).

Definition transport_reset_area (trans : PinosTransport) (m : bytes) : outcome bytes :=
  let* n := of_option (load32 0 m) in
  let* m := reset_ports (Z.to_nat n) (inputs trans) m in
  let* n := of_option (load32 8 m) in
  let* m := reset_ports (Z.to_nat n) (outputs trans) m in
  let* m := init_ring (input_buffer trans) INPUT_BUFFER_SIZE m in
  init_ring (output_buffer trans) OUTPUT_BUFFER_SIZE m.

Definition no_mem : PinosMemblock := mkMem 0 0 0 0 0.
Definition new_transport (mem : PinosMemblock) : PinosTransport :=
  mkTransport mem 0 0 0 0 0 0 (replicate 16 0) 0.

Section New.
Context `{Kernel} `{Heap}.

(** The result of the allocation is not looked at: without memory the copy crashes. *)
Definition pinos_transport_new (max_inputs max_outputs : Z) (s : process) : outcome (PinosTransport * bytes * process) :=
  let area := mkArea max_inputs 0 max_outputs 0 in
  let flags := Z.lor (Z.lor PINOS_MEMBLOCK_FLAG_WITH_FD PINOS_MEMBLOCK_FLAG_MAP_READWRITE) PINOS_MEMBLOCK_FLAG_SEAL in
  let '(res, mem, s) := pinos_memblock_alloc flags (transport_area_get_size area) no_mem s in
  if negb (res =? SPA_RESULT_OK) then Undef
  else
    let* m := of_option (mwrite 0 (area_bytes area) (fresh (transport_area_get_size area))) in
    let* trans := transport_setup_area m (new_transport mem) in
    let* m := transport_reset_area trans m in
    Done (trans, m, s).

(** [file]: what the descriptor in [info] refers to. *)
Definition pinos_transport_new_from_info (info : PinosTransportInfo) (file : bytes) (s : process) :
    outcome (option PinosTransport * process) :=
  let flags := Z.lor PINOS_MEMBLOCK_FLAG_MAP_READWRITE PINOS_MEMBLOCK_FLAG_WITH_FD in
  let '(res, mem, s) := pinos_memblock_map (mkMem flags (memfd info) (info_offset info) 0 (info_size info)) s in
  if negb (res =? SPA_RESULT_OK) then Done (None, s)
  else
    let* t := transport_setup_area (take (Z.to_nat (info_size info)) file) (new_transport mem) in
    Done (Some (mkTransport (Transport.mem t) (inputs t) (outputs t)
                  (output_buffer t) (output_data t) (input_buffer t) (input_data t) (current t) (current_index t)), s).

Definition pinos_transport_destroy (trans : PinosTransport) (s : process) : outcome process :=
  let* (_, s) := pinos_memblock_free (mem trans) s in Done s.
End New.

Definition pinos_transport_get_info (trans : PinosTransport) : PinosTransportInfo :=
  mkInfo (fd (mem trans)) 0 (u32 (Mem.size (mem trans))).

(** *** Events *)

Definition SPA_POD_SIZE (event : bytes) : outcome Z :=
  let* n := of_option (load32 0 event) in Done (8 + n).

Definition pinos_transport_add_event (trans : PinosTransport) (event : bytes) (m : bytes) : outcome (Z * bytes) :=
  let* r := load_ring (output_buffer trans) m in
  let '(filled, index) := spa_ringbuffer_get_write_index r in
  let avail := i32 (u32 (size r - filled)) in
  let* n := SPA_POD_SIZE event in
  let size := u32 n in
  if u32 avail <? size then Done (SPA_RESULT_ERROR, m)
  else
    let* d := of_option (mread 0 size event) in
    let* m := ring_write r (output_data trans) (Z.land index (mask r)) d m in
    let* m := ring_write_update (output_buffer trans) (index + size) m in
    Done (SPA_RESULT_OK, m).

(** Setting [current] and [current_index]. *)
Definition with_current (c : bytes) (index : Z) (t : PinosTransport) : PinosTransport :=
  mkTransport (mem t) (inputs t) (outputs t) (input_buffer t) (input_data t) (output_buffer t) (output_data t) c index.

(** (result, transport, *event): the event is only set on success. *)
Definition pinos_transport_next_event (trans : PinosTransport) (m : bytes) : outcome (Z * PinosTransport * bytes) :=
  let* r := load_ring (input_buffer trans) m in
  let '(avail, index) := spa_ringbuffer_get_read_index r in
  if u64 avail <? sizeof_SpaEvent then Done (SPA_RESULT_ENUM_END, with_current (current trans) index trans, [])
  else
    let* d := ring_read r (input_data trans) (Z.land index (mask r)) sizeof_SpaEvent m in
    Done (SPA_RESULT_OK, with_current d index trans, d).

(** (result, *event, block) *)
Definition pinos_transport_parse_event (trans : PinosTransport) (m : bytes) : outcome (Z * bytes * bytes) :=
  let* n := SPA_POD_SIZE (current trans) in
  let size := u32 n in
  let* r := load_ring (input_buffer trans) m in
  let* d := ring_read r (input_data trans) (Z.land (current_index trans) (mask r)) size m in
  let* m := ring_read_update (input_buffer trans) (current_index trans + size) m in
  Done (SPA_RESULT_OK, d, m).

(** ** The block in pieces *)

Definition ring_words (r : SpaRingbuffer) : Prop := is_u32 (readindex r) /\ is_u32 (writeindex r) /\ is_u32 (size r) /\ is_u32 (mask r).

Lemma zlen_ring_bytes r : zlen (ring_bytes r) = 16.
Proof. unfold ring_bytes. zlia. Qed.
#[local] Hint Rewrite zlen_ring_bytes : zlen.

(** A word in the middle of a block. *)
Lemma load32_mid a z c off : off = zlen a -> is_u32 z -> load32 off (a ++ le32 z ++ c) = Some z.
Proof. intros -> Hz. by rewrite load32_app, u32_small. Qed.

Lemma load_ring_ok a r c : ring_words r -> load_ring (zlen a) (a ++ ring_bytes r ++ c) = Done r.
Proof.
  intros (Hr & Hw & Hs & Hm). unfold load_ring, ring_bytes. rewrite <- !app_assoc.
  rewrite load32_mid by done. cbn [of_option obind].
  rewrite (app_assoc a), load32_mid by (try done; zlia). cbn [of_option obind].
  rewrite (app_assoc (a ++ _)), load32_mid by (try done; zlia). cbn [of_option obind].
  rewrite (app_assoc ((a ++ _) ++ _)), load32_mid by (try done; zlia). by destruct r.
Qed.

Lemma drop_pieces {A} (a b c : list A) n : n = zlen a + zlen b -> drop (Z.to_nat n) (a ++ b ++ c) = c.
Proof. intros ->. rewrite app_assoc. apply drop_zlen_app. zlia. Qed.

Lemma ring_read_ok a r d c off len x data :
  data = zlen a + 16 -> spa_ringbuffer_read_data r d off len = Some x ->
  ring_read r data off len (a ++ ring_bytes r ++ d ++ c) = Done x.
Proof.
  intros -> Hx. unfold ring_read. rewrite drop_pieces by zlia.
  unfold spa_ringbuffer_read_data in *. destruct (mread off _ d) as [x1|] eqn:H1; [| done].
  rewrite (mread_app_l _ _ _ _ _ H1). simpl in *. case_if; [| by injection Hx as ->].
  destruct (mread 0 _ d) as [x2|] eqn:H2; [| done]. rewrite (mread_app_l _ _ _ _ _ H2). simpl in *. by injection Hx as ->.
Qed.

Lemma ring_write_ok a r d d' c off x data :
  data = zlen a + 16 -> spa_ringbuffer_write_data r d off x = Some d' ->
  ring_write r data off x (a ++ ring_bytes r ++ d ++ c) = Done (a ++ ring_bytes r ++ d' ++ c).
Proof.
  intros -> Hx. unfold ring_write. rewrite drop_pieces by zlia.
  rewrite (app_assoc a (ring_bytes r)), take_zlen_app by zlia.
  assert (spa_ringbuffer_write_data r (d ++ c) off x = Some (d' ++ c)) as ->; [| cbn [of_option obind]; by rewrite <- app_assoc].
  unfold spa_ringbuffer_write_data in *. destruct (mwrite off _ d) as [d1|] eqn:H1; [| done].
  rewrite (mwrite_app_l _ _ _ _ _ H1). simpl in *. case_if; [by apply mwrite_app_l | by injection Hx as ->].
Qed.

Lemma read_update_ok a r c index :
  ring_read_update (zlen a) index (a ++ ring_bytes r ++ c) = Done (a ++ ring_bytes (spa_ringbuffer_read_update r index) ++ c).
Proof.
  unfold ring_read_update, ring_bytes, spa_ringbuffer_read_update. rewrite <- !app_assoc. simpl.
  rewrite mwrite_app by zlia. done.
Qed.

Lemma write_update_ok a r c index :
  ring_write_update (zlen a) index (a ++ ring_bytes r ++ c) = Done (a ++ ring_bytes (spa_ringbuffer_write_update r index) ++ c).
Proof.
  unfold ring_write_update, ring_bytes, spa_ringbuffer_write_update. rewrite <- !app_assoc. simpl.
  rewrite (app_assoc a), mwrite_app by zlia. by rewrite <- app_assoc.
Qed.

(** ** One direction *)

(** An event as the senders build it: a pod with the object body of an event. *)
Definition event_ok (e : bytes) : Prop :=
  16 <= zlen e < 2 ^ 32 /\ exists body, e = le32 (zlen e - 8) ++ body.

Definition total (q : list bytes) : Z := zlen (concat q).

(** The ring holds the events [q]; [c] is what was taken before. *)
Definition carries (r : SpaRingbuffer) (d c : bytes) (q : list bytes) : Prop :=
  ring_inv 12 (mkSys r d PIdle CIdle (c ++ concat q) c) /\ Forall event_ok q.

Lemma carries_words r d c q : carries r d c q -> ring_words r /\ zlen d = 4096 /\ total q <= 4096.
Proof.
  intros [[Hok Hw Hr Hl _ _ _ _] _]; simpl in *. unfold ring_words. rewrite Hw, Hr, (ring_size _ _ _ Hok), (ring_mask _ _ _ Hok).
  pose proof (ring_buffer _ _ _ Hok). rewrite zlen_app in Hl. unfold total.
  split_and!; first [apply u32_bound | unfold is_u32; lia | done].
Qed.

Lemma event_size e : event_ok e -> SPA_POD_SIZE e = Done (zlen e).
Proof.
  intros [Hlen [body He]]. unfold SPA_POD_SIZE. rewrite He at 1.
  rewrite <- (app_nil_l (le32 _ ++ _)), load32_mid by (try done; unfold is_u32; lia). cbn. f_equal. lia.
Qed.

Lemma mread_all {A} (m : list A) len : len = zlen m -> mread 0 len m = Some m.
Proof. intros ->. apply mread_Some. exists [], []. by rewrite app_nil_r. Qed.

Lemma total_snoc q e : total (q ++ [e]) = total q + zlen e.
Proof. unfold total. rewrite concat_app, zlen_app. simpl. by rewrite app_nil_r. Qed.

Section Direction.
Context (a rest : bytes).

Lemma add_event_ok trans r d c q e :
  output_buffer trans = zlen a -> output_data trans = zlen a + 16 -> carries r d c q -> event_ok e ->
  if total q + zlen e <=? OUTPUT_BUFFER_SIZE then
    exists r' d', pinos_transport_add_event trans e (a ++ ring_bytes r ++ d ++ rest) =
                    Done (SPA_RESULT_OK, a ++ ring_bytes r' ++ d' ++ rest) /\ carries r' d' c (q ++ [e])
  else pinos_transport_add_event trans e (a ++ ring_bytes r ++ d ++ rest) = Done (SPA_RESULT_ERROR, a ++ ring_bytes r ++ d ++ rest).
Proof.
  intros Hb Hd Hc He. destruct (carries_words _ _ _ _ Hc) as (Hwords & Hlen & Htot). destruct Hc as [Hinv Hq].
  unfold pinos_transport_add_event. rewrite Hb, load_ring_ok by done. cbn [obind].
  destruct (spa_ringbuffer_get_write_index r) as [filled index] eqn:Hi.
  pose proof (sample_inv_w _ _ _ _ _ _ _ _ Hinv Hi) as Hready. pose proof (inv_prod _ _ Hready) as [Hix Hav]; simpl in Hix, Hav.
  pose proof (inv_ok _ _ Hinv) as Hok. simpl in Hok. pose proof (ring_size _ _ _ Hok) as Hsz.
  assert (filled = total q) as ->.
  { unfold spa_ringbuffer_get_write_index in Hi. injection Hi as <- _.
    pose proof (inv_write _ _ Hinv) as Hw. pose proof (inv_read _ _ Hinv) as Hr. pose proof (inv_level _ _ Hinv) as Hl. simpl in *.
    rewrite Hw, Hr, level_exact with (k := 12) by lia. unfold total. zlia. }
  rewrite (event_size e He). cbn [obind]. destruct He as [Hel He].
  change OUTPUT_BUFFER_SIZE with 4096. rewrite Hsz. change (2 ^ 12) with 4096 in *.
  pose proof (zlen_nonneg (concat q)) as Hnn. fold (total q) in Hnn.
  rewrite (u32_small (4096 - _)), (i32_small (4096 - _)), !u32_small by (unfold is_u32; lia).
  case_if; [rewrite (proj2 (Z.ltb_ge _ _)) by lia | by rewrite (proj2 (Z.ltb_lt _ _)) by lia].
  rewrite mread_all by done. cbn [of_option obind].
  destruct (write_data_spec r d (Z.land index (mask r)) e) as (d' & Hd' & _ & _).
  { by rewrite Hsz, Hlen. } { lia. }
  { rewrite Hix, (masked_offset 12 _ _ _ Hok), Hlen by apply zlen_nonneg. apply Z.mod_pos_bound. lia. } { lia. }
  rewrite (ring_write_ok _ _ _ _ _ _ _ _ Hd Hd'). cbn [obind]. rewrite write_update_ok. cbn [obind].
  eexists _, d'. split; [done |]. split; [| by apply Forall_app_2; [| apply Forall_singleton]].
  rewrite concat_app, app_assoc. simpl. rewrite app_nil_r. apply publish_inv.
  eapply write_step_inv; [exact Hready | rewrite Hsz; lia | done].
Qed.

(** Reading the head event, or a part of it. *)
Lemma read_head r d c e q n : carries r d c (e :: q) -> 0 <= n <= zlen e ->
  spa_ringbuffer_read_data r d (Z.land (u32 (zlen c)) (mask r)) n = Some (take (Z.to_nat n) e).
Proof.
  intros Hc Hn. destruct (carries_words _ _ _ _ Hc) as (_ & Hlen & Htot). destruct Hc as [Hinv Hq].
  pose proof (inv_ok _ _ Hinv) as Hok. simpl in Hok. pose proof (ring_size _ _ _ Hok) as Hsz.
  destruct (spa_ringbuffer_get_read_index r) as [avail index] eqn:Hi.
  pose proof (sample_inv_r _ _ _ _ _ _ _ _ Hinv Hi) as Hready. pose proof (inv_cons _ _ Hready) as [Hix _]; simpl in Hix.
  unfold total in Htot. simpl in Htot. autorewrite with zlen in Htot. pose proof (zlen_nonneg (concat q)). pose proof (zlen_nonneg c).
  destruct (read_data_spec r d (Z.land (u32 (zlen c)) (mask r)) n) as (x & Hx & Hxl & _).
  { by rewrite Hsz, Hlen. } { lia. } { rewrite (masked_offset 12 _ _ _ Hok), Hlen by done. apply Z.mod_pos_bound. lia. } { lia. }
  assert (n <= avail).
  { unfold spa_ringbuffer_get_read_index in Hi. injection Hi as <- _.
    pose proof (inv_write _ _ Hinv) as Hw. pose proof (inv_read _ _ Hinv) as Hr. simpl in *.
    rewrite Hw, Hr, level_exact with (k := 12) by (autorewrite with zlen; lia). zlia. }
  rewrite Hix in Hready.
  pose proof (read_step_inv _ _ _ _ _ _ _ _ _ _ Hready (conj (proj1 Hn) H1) Hx) as Hread.
  pose proof (inv_cons _ _ Hread) as (_ & _ & Hval); simpl in Hval.
  rewrite Hx. f_equal. apply list_eq_Z; [autorewrite with zlen; lia |]. intros i Hir. rewrite Hval by lia.
  rewrite lookup_app_r by (unfold zlen in *; lia). rewrite lookup_take_lt by lia.
  rewrite lookup_app_l by (unfold zlen in *; lia). f_equal. unfold zlen in *. lia.
Qed.

Lemma carries_avail r d c q : carries r d c q -> spa_ringbuffer_get_read_index r = (total q, u32 (zlen c)).
Proof.
  intros [Hinv _]. pose proof (inv_write _ _ Hinv) as Hw. pose proof (inv_read _ _ Hinv) as Hr.
  pose proof (inv_level _ _ Hinv) as Hl. unfold spa_ringbuffer_get_read_index. simpl in *.
  rewrite Hw, Hr, level_exact with (k := 12) by lia. f_equal. unfold total. zlia.
Qed.

Lemma next_event_ok trans r d c q :
  input_buffer trans = zlen a -> input_data trans = zlen a + 16 -> carries r d c q ->
  pinos_transport_next_event trans (a ++ ring_bytes r ++ d ++ rest) =
    Done match q with
         | [] => (SPA_RESULT_ENUM_END, with_current (current trans) (u32 (zlen c)) trans, [])
         | e :: _ => (SPA_RESULT_OK, with_current (take 16 e) (u32 (zlen c)) trans, take 16 e)
         end.
Proof.
  intros Hb Hd Hc. destruct (carries_words _ _ _ _ Hc) as (Hwords & Hlen & Htot).
  unfold pinos_transport_next_event. rewrite Hb, load_ring_ok by done. cbn [obind].
  rewrite (carries_avail _ _ _ _ Hc). pose proof (zlen_nonneg (concat q)) as Hnn. fold (total q) in Hnn.
  rewrite u64_small by (unfold is_u64; lia). destruct q as [|e q]; [done |].
  pose proof (proj2 Hc) as [He _]%Forall_cons. destruct He as [He _].
  unfold total in *. cbn [concat] in *. autorewrite with zlen in *. pose proof (zlen_nonneg (concat q)).
  rewrite (proj2 (Z.ltb_ge _ _)) by (unfold sizeof_SpaEvent; lia).
  by rewrite (ring_read_ok _ _ _ _ _ _ _ _ Hd (read_head r d c e q 16 Hc ltac:(lia))).
Qed.

Lemma parse_event_ok trans r d c e q :
  input_buffer trans = zlen a -> input_data trans = zlen a + 16 -> carries r d c (e :: q) ->
  current trans = take 16 e -> current_index trans = u32 (zlen c) ->
  exists r', pinos_transport_parse_event trans (a ++ ring_bytes r ++ d ++ rest) =
      Done (SPA_RESULT_OK, e, a ++ ring_bytes r' ++ d ++ rest) /\ carries r' d (c ++ e) q.
Proof.
  intros Hb Hd Hc Hcur Hix. destruct (carries_words _ _ _ _ Hc) as (Hwords & Hlen & Htot).
  pose proof (proj2 Hc) as [He Hq]%Forall_cons. pose proof He as [Hel [body Hbody]].
  unfold total in Htot. cbn [concat] in Htot. autorewrite with zlen in Htot. pose proof (zlen_nonneg (concat q)).
  unfold pinos_transport_parse_event.
  assert (SPA_POD_SIZE (current trans) = Done (zlen e)) as ->.
  { rewrite Hcur, Hbody. unfold SPA_POD_SIZE.
    rewrite take_app_ge by (pose proof (zlen_le32 (zlen e - 8)); unfold zlen in *; lia).
    rewrite <- (app_nil_l (le32 _ ++ _)), load32_mid by (try done; unfold is_u32; lia).
    cbn. f_equal. rewrite <- Hbody. lia. }
  cbn [obind]. rewrite Hb, Hix, load_ring_ok by done. cbn [obind].
  rewrite (u32_small (zlen e)) by (unfold is_u32; lia).
  rewrite (ring_read_ok _ _ _ _ _ _ _ _ Hd (read_head r d c e q (zlen e) Hc ltac:(lia))). cbn [obind].
  rewrite read_update_ok. cbn [obind]. rewrite to_nat_zlen, firstn_all.
  eexists. split; [done |]. split; [| done]. assert (carries r d c (e :: q)) as Hc' by done.
  destruct Hc as [Hinv _]. simpl in Hinv. rewrite app_assoc in Hinv.
  pose proof (sample_inv_r _ _ _ _ _ _ _ _ Hinv (carries_avail r d c (e :: q) Hc')) as Hready.
  eapply release_inv, read_step_inv; [exact Hready | | ].
  2: { pose proof (read_head r d c e q (zlen e) Hc' ltac:(lia)) as Hh. rewrite to_nat_zlen, firstn_all in Hh. exact Hh. }
  unfold total. cbn [concat]. autorewrite with zlen. lia.
Qed.
End Direction.

(** ** Both sides *)

Inductive op := AddEvent (e : bytes) | NextEvent | ParseEvent.
Inductive side := Server | Client.
#[export] Instance side_eq : EqDecision side.
Proof. solve_decision. Defined.

Record shared := mkShared { server : PinosTransport; client : PinosTransport; block : bytes }.

Definition of_side (who : side) (st : shared) : PinosTransport := match who with Server => server st | Client => client st end.
Definition with_side (who : side) (t : PinosTransport) (st : shared) : shared :=
  match who with Server => mkShared t (client st) (block st) | Client => mkShared (server st) t (block st) end.
Definition with_block (m : bytes) (st : shared) : shared := mkShared (server st) (client st) m.

(** One call of one side: its result and the event it returns. *)
Definition call (who : side) (o : op) (st : shared) : outcome (Z * bytes * shared) :=
  match o with
  | AddEvent e => let* (res, m) := pinos_transport_add_event (of_side who st) e (block st) in Done (res, [], with_block m st)
  | NextEvent => let* (res, t, e) := pinos_transport_next_event (of_side who st) (block st) in Done (res, e, with_side who t st)
  | ParseEvent => let* (res, e, m) := pinos_transport_parse_event (of_side who st) (block st) in Done (res, e, with_block m st)
  end.

Fixpoint calls (ops : list (side * op)) (st : shared) : outcome (list (Z * bytes) * shared) :=
  match ops with
  | [] => Done ([], st)
  | (who, o) :: ops =>
      let* (res, e, st) := call who o st in
      let* (l, st) := calls ops st in Done ((res, e) :: l, st)
  end.

(** What the transport promises: a queue of at most 4096 bytes per direction, and a
    peeked event that [parse] takes. *)
Module Spec.
Record t := mk { inbox : side -> list bytes; peeked : side -> bool }.

Definition other (who : side) : side := match who with Server => Client | Client => Server end.
Definition upd {A} (f : side -> A) (who : side) (x : A) : side -> A := fun s => if decide (s = who) then x else f s.

(** [None]: the caller parses an event it did not look at. *)
Definition call (who : side) (o : op) (st : t) : option (Z * bytes * t) :=
  match o with
  | AddEvent e =>
      let q := inbox st (other who) in
      if total q + zlen e <=? 4096 then Some (SPA_RESULT_OK, [], mk (upd (inbox st) (other who) (q ++ [e])) (peeked st))
      else Some (SPA_RESULT_ERROR, [], st)
  | NextEvent =>
      match inbox st who with
      | [] => Some (SPA_RESULT_ENUM_END, [], mk (inbox st) (upd (peeked st) who false))
      | e :: _ => Some (SPA_RESULT_OK, take 16 e, mk (inbox st) (upd (peeked st) who true))
      end
  | ParseEvent =>
      match peeked st who, inbox st who with
      | true, e :: q => Some (SPA_RESULT_OK, e, mk (upd (inbox st) who q) (upd (peeked st) who false))
      | _, _ => None
      end
  end.

Fixpoint calls (ops : list (side * op)) (st : t) : option (list (Z * bytes) * t) :=
  match ops with
  | [] => Some ([], st)
  | (who, o) :: ops =>
      '(res, e, st) ← call who o st;
      '(l, st) ← calls ops st; Some ((res, e) :: l, st)
  end.

Definition start : t := mk (fun _ => []) (fun _ => false).
End Spec.

(** Where a side looks for its events and where it puts them. *)
Definition uses (t : PinosTransport) (inp outp : Z) : Prop :=
  input_buffer t = inp /\ input_data t = inp + 16 /\ output_buffer t = outp /\ output_data t = outp + 16.

(** The head event that was looked at. *)
Definition holds_peek (t : PinosTransport) (c : bytes) (q : list bytes) (peeked : bool) : Prop :=
  peeked = true -> exists e q', q = e :: q' /\ current t = take 16 e /\ current_index t = u32 (zlen c).

(** [pre]: what is in front of the rings. *)
Definition implements_at (pre : bytes) (st : shared) (sp : Spec.t) : Prop :=
  exists r1 d1 r2 d2 c1 c2,
    block st = pre ++ ring_bytes r1 ++ d1 ++ ring_bytes r2 ++ d2 /\
    uses (server st) (zlen pre) (zlen pre + 4112) /\ uses (client st) (zlen pre + 4112) (zlen pre) /\
    carries r1 d1 c1 (Spec.inbox sp Server) /\ carries r2 d2 c2 (Spec.inbox sp Client) /\
    holds_peek (server st) c1 (Spec.inbox sp Server) (Spec.peeked sp Server) /\
    holds_peek (client st) c2 (Spec.inbox sp Client) (Spec.peeked sp Client).
Definition implements (st : shared) (sp : Spec.t) : Prop := exists pre, implements_at pre st sp.

Lemma pieces_second pre r1 d1 r2 d2 (c : bytes) : zlen d1 = 4096 ->
  pre ++ ring_bytes r1 ++ d1 ++ ring_bytes r2 ++ d2 = (pre ++ ring_bytes r1 ++ d1) ++ ring_bytes r2 ++ d2 ++ [] /\
  zlen (pre ++ ring_bytes r1 ++ d1) = zlen pre + 4112.
Proof. intros. split; [by rewrite app_nil_r, <- !app_assoc | zlia]. Qed.

Lemma holds_peek_snoc t c q e b : holds_peek t c q b -> holds_peek t c (q ++ [e]) b.
Proof. intros Hp Hb. destruct (Hp Hb) as (x & q' & -> & ? & ?). by exists x, (q' ++ [e]). Qed.

(** The ring that one side reads and the other one writes, and putting it back. *)
Lemma side_focus pre who st sp : implements_at pre st sp ->
  exists a r d rest c p,
    block st = a ++ ring_bytes r ++ d ++ rest /\
    uses (of_side who st) (zlen a) p /\ uses (of_side (Spec.other who) st) p (zlen a) /\
    carries r d c (Spec.inbox sp who) /\ holds_peek (of_side who st) c (Spec.inbox sp who) (Spec.peeked sp who) /\
    forall r' d' c' q' t' b', uses t' (zlen a) p -> carries r' d' c' q' -> holds_peek t' c' q' b' ->
      forall sp', (forall s, Spec.inbox sp' s = Spec.upd (Spec.inbox sp) who q' s) ->
        (forall s, Spec.peeked sp' s = Spec.upd (Spec.peeked sp) who b' s) ->
        implements_at pre (with_side who t' (with_block (a ++ ring_bytes r' ++ d' ++ rest) st)) sp'.
Proof.
  intros (r1 & d1 & r2 & d2 & c1 & c2 & Hm & Hs & Hc & H1 & H2 & P1 & P2).
  destruct (carries_words _ _ _ _ H1) as (_ & L1 & _). destruct (pieces_second pre r1 d1 r2 d2 [] L1) as [Heq Hlen].
  destruct who.
  - exists pre, r1, d1, (ring_bytes r2 ++ d2), c1, (zlen pre + 4112). split_and!; try done.
    intros r' d' c' q' t' b' Ht Hcar Hp sp' Hq Hb. exists r', d', r2, d2, c', c2.
    rewrite !Hq, !Hb. done.
  - exists (pre ++ ring_bytes r1 ++ d1), r2, d2, [], c2, (zlen pre). rewrite Hlen. split_and!; try done; [congruence |].
    intros r' d' c' q' t' b' Ht Hcar Hp sp' Hq Hb. exists r1, d1, r', d', c1, c'.
    rewrite !Hq, !Hb. split_and!; try done. simpl. by rewrite app_nil_r, <- !app_assoc.
Qed.

Lemma with_own_side who m st : with_side who (of_side who st) (with_block m st) = with_block m st.
Proof. by destruct who. Qed.
Lemma with_own_block who t st : with_side who t (with_block (block st) st) = with_side who t st.
Proof. by destruct who, st. Qed.
Lemma other_other who : Spec.other (Spec.other who) = who.
Proof. by destruct who. Qed.
Lemma upd_same {A} (f : side -> A) who s : f s = Spec.upd f who (f who) s.
Proof. unfold Spec.upd. by case_decide; subst. Qed.

Lemma call_refines_at pre who o st sp res e sp' :
  implements_at pre st sp -> match o with AddEvent e => event_ok e | _ => True end ->
  Spec.call who o sp = Some (res, e, sp') ->
  exists st', call who o st = Done (res, e, st') /\ implements_at pre st' sp'.
Proof.
  intros Him Hok Hspec. destruct o as [ev | |]; simpl in Hspec.
  - destruct (side_focus pre (Spec.other who) st sp Him) as (a & r & d & rest & c & p & Hm & Hu & (_ & _ & Hb & Hd) & Hc & Hp & Hback).
    rewrite other_other in *. simpl. rewrite Hm. pose proof (add_event_ok a rest _ r d c _ ev Hb Hd Hc Hok) as Hadd.
    change OUTPUT_BUFFER_SIZE with 4096 in Hadd. destruct (_ <=? 4096).
    + injection Hspec as <- <- <-.
      destruct Hadd as (r' & d' & -> & Hc'). eexists. split; [done |]. rewrite <- (with_own_side (Spec.other who)).
      eapply Hback; [exact Hu | exact Hc' | by apply holds_peek_snoc | done | intros s; apply upd_same].
    + injection Hspec as <- <- <-.
      rewrite Hadd. eexists. split; [done |]. cbn [fst snd]. rewrite <- Hm. by destruct st.
  - destruct (side_focus pre who st sp Him) as (a & r & d & rest & c & p & Hm & Hu & _ & Hc & Hp & Hback).
    simpl. rewrite Hm, (next_event_ok a rest _ r d c _ (proj1 Hu) (proj1 (proj2 Hu)) Hc).
    destruct (Spec.inbox sp who) as [|ev q] eqn:Hq; injection Hspec as <- <- <-; (eexists; split; [done |]);
      rewrite <- with_own_block, Hm;
      (eapply Hback; [exact Hu | exact Hc | | intros s; rewrite <- Hq; apply upd_same | done]).
    + done.
    + intros _. by exists ev, q.
  - destruct (side_focus pre who st sp Him) as (a & r & d & rest & c & p & Hm & Hu & _ & Hc & Hp & Hback).
    destruct (Spec.peeked sp who) eqn:Hpk; [| done]. destruct (Hp eq_refl) as (ev & q & Hq & Hcur & Hix). rewrite Hq in *.
    injection Hspec as <- <- <-. simpl. rewrite Hm.
    destruct (parse_event_ok a rest _ r d c ev q (proj1 Hu) (proj1 (proj2 Hu)) Hc Hcur Hix) as (r' & -> & Hc').
    eexists. split; [done |]. rewrite <- (with_own_side who).
    eapply (Hback _ _ _ _ _ false); [exact Hu | exact Hc' | done | done | done].
Qed.

Lemma call_refines who o st sp res e sp' :
  implements st sp -> match o with AddEvent e => event_ok e | _ => True end ->
  Spec.call who o sp = Some (res, e, sp') ->
  exists st', call who o st = Done (res, e, st') /\ implements st' sp'.
Proof.
  intros [pre Him] Hok Hspec. destruct (call_refines_at _ _ _ _ _ _ _ _ Him Hok Hspec) as (st' & Hrun & Him').
  exists st'. split; [done | by exists pre].
Qed.

Lemma calls_refine ops st sp l sp' :
  implements st sp -> Forall (fun '(_, o) => match o with AddEvent e => event_ok e | _ => True end) ops ->
  Spec.calls ops sp = Some (l, sp') -> exists st', calls ops st = Done (l, st') /\ implements st' sp'.
Proof.
  revert st sp l. induction ops as [|[who o] ops IH]; intros st sp l Him Hok Hs; simpl in *.
  - injection Hs as <- <-. by exists st.
  - apply Forall_cons in Hok as [Ho Hok]. destruct (Spec.call who o sp) as [[[res e] sp1]|] eqn:Hc; [| done]. simpl in Hs.
    destruct (call_refines _ _ _ _ _ _ _ Him Ho Hc) as (st1 & -> & Him1).
    destruct (Spec.calls ops sp1) as [[l1 sp2]|] eqn:Hl; [| done]. simpl in Hs. injection Hs as <- <-.
    destruct (IH st1 sp1 l1 Him1 Hok Hl) as (st' & Hr & Him'). simpl. rewrite Hr. by exists st'.
Qed.

(** ** Laying the block out *)

(** An IO area after a reset: the range keeps what it was. *)
Definition reset_io (range : bytes) : bytes := le32 SPA_RESULT_OK ++ le32 SPA_ID_INVALID ++ range.
Definition ranges (l : list bytes) : Prop := Forall (fun range => zlen range = 16) l.

Lemma zlen_ios l : ranges l -> zlen (concat (map reset_io l)) = 24 * zlen l.
Proof.
  induction 1 as [|x l Hx Hl IH]; [done |]. simpl. unfold reset_io at 1. autorewrite with zlen. rewrite IH. lia.
Qed.

Lemma reset_ports_ok n (x : bytes) (c : bytes) : zlen x = 24 * Z.of_nat n ->
  exists l, ranges l /\ zlen l = Z.of_nat n /\
    forall a, reset_ports n (zlen a) (a ++ x ++ c) = Done (a ++ concat (map reset_io l) ++ c).
Proof.
  revert x. induction n as [|n IH]; intros x Hx.
  { exists []. split_and!; [constructor | done |]. intros a. assert (x = []) as -> by (apply nil_length_inv; unfold zlen in Hx; lia). done. }
  destruct (split_block 4 x) as (x1 & x' & -> & H1 & Hx1); [lia |].
  destruct (split_block 4 x') as (x2 & x'' & -> & H2 & Hx2); [lia |].
  destruct (split_block 16 x'') as (x3 & y & -> & H3 & Hy); [lia |].
  destruct (IH y) as (l & Hl & Hlen & Hrun); [lia |].
  exists (x3 :: l). split_and!; [by constructor | rewrite zlen_cons; lia |]. intros a. cbn [reset_ports].
  rewrite <- app_assoc, mwrite_app by zlia. cbn [of_option obind].
  rewrite <- !app_assoc, (app_assoc a (le32 _)), mwrite_app by zlia. cbn [of_option obind].
  specialize (Hrun (a ++ reset_io x3)). unfold reset_io in Hrun at 1 2. rewrite <- !app_assoc in Hrun.
  replace (zlen (a ++ le32 SPA_RESULT_OK ++ le32 SPA_ID_INVALID ++ x3)) with (zlen a + sizeof_SpaPortIO) in Hrun
    by (unfold sizeof_SpaPortIO; zlia).
  rewrite <- !app_assoc, Hrun. simpl. unfold reset_io at 2. by rewrite <- !app_assoc.
Qed.

Definition empty_ring : SpaRingbuffer := mkRing 0 0 4096 4095.

Lemma init_ring_ok a h c : zlen h = 16 -> init_ring (zlen a) 4096 (a ++ h ++ c) = Done (a ++ ring_bytes empty_ring ++ c).
Proof.
  intros Hh. unfold init_ring, load_ring, load32.
  assert (forall k, 0 <= k <= 12 -> exists d, mread (zlen a + k) 4 (a ++ h ++ c) = Some d) as Hread.
  { intros k Hk. apply mread_defined; zlia. }
  destruct (Hread 0) as (w1 & H1); [lia |]. rewrite Z.add_0_r in H1. destruct (Hread 4) as (w2 & H2); [lia |].
  destruct (Hread 8) as (w3 & H3); [lia |]. destruct (Hread 12) as (w4 & H4); [lia |].
  rewrite H1, H2, H3, H4. cbn [fmap option_fmap option_map of_option obind].
  replace (spa_ringbuffer_init _ 4096).2 with empty_ring by done. by rewrite mwrite_app by (autorewrite with zlen; lia).
Qed.

Lemma empty_carries d : zlen d = 4096 -> carries empty_ring d [] [].
Proof. intros Hd. split; [exact (ring_start_inv 12 d ltac:(lia) Hd) | constructor]. Qed.

(** The block right after it was laid out. *)
Definition laid_out (mi mo : Z) (ins outs : list bytes) (d1 d2 : bytes) : bytes :=
  (area_bytes (mkArea mi 0 mo 0) ++ concat (map reset_io ins) ++ concat (map reset_io outs)) ++
  ring_bytes empty_ring ++ d1 ++ ring_bytes empty_ring ++ d2.

Definition fits (mi mo : Z) : Prop := 0 <= mi /\ 0 <= mo /\ 24 * (mi + mo) + 8240 < 2 ^ 32.

Lemma area_size mi mo : fits mi mo -> transport_area_get_size (mkArea mi 0 mo 0) = 24 * (mi + mo) + 8240.
Proof.
  unfold fits, transport_area_get_size, sizeof_PinosTransportArea, sizeof_SpaPortIO, sizeof_SpaRingbuffer. intros (? & ? & ?).
  change INPUT_BUFFER_SIZE with 4096. change OUTPUT_BUFFER_SIZE with 4096. simpl.
  rewrite (u64_small (mi * 24)), (u64_small (mo * 24)) by (unfold is_u64; lia).
  repeat match goal with |- context [u64 (?a + ?b)] => lazymatch a with context [u64] => fail | _ => rewrite (u64_small (a + b)) by (unfold is_u64; lia) end end. lia.
Qed.

(** Where everything is. *)
Definition placed (mi mo : Z) (mem : PinosMemblock) (swapped : bool) : PinosTransport :=
  let ring := 16 + 24 * (mi + mo) in
  let '(inp, outp) := if swapped then (ring + 4112, ring) else (ring, ring + 4112) in
  mkTransport mem 16 (16 + 24 * mi) inp (inp + 16) outp (outp + 16) (replicate 16 0) 0.

Lemma setup_ok mi mo mem rest : fits mi mo ->
  transport_setup_area (area_bytes (mkArea mi 0 mo 0) ++ rest) (new_transport mem) = Done (placed mi mo mem false).
Proof.
  intros (Hi & Ho & Hb). unfold transport_setup_area, area_bytes. cbn [max_inputs max_outputs n_inputs n_outputs].
  rewrite <- !app_assoc. rewrite <- (app_nil_l (le32 mi ++ _)) at 1. rewrite load32_mid by (try done; unfold is_u32; lia). cbn [of_option obind].
  rewrite (app_assoc (le32 mi) (le32 0)), load32_mid by (try zlia; unfold is_u32; lia). cbn [of_option obind].
  unfold placed, sizeof_PinosTransportArea, sizeof_SpaPortIO, sizeof_SpaRingbuffer.
  change INPUT_BUFFER_SIZE with 4096. change OUTPUT_BUFFER_SIZE with 4096.
  rewrite !u64_small by (unfold is_u64; lia). do 2 f_equal; lia.
Qed.

Lemma reset_area_ok mi mo mem x1 x2 h1 d1 h2 d2 : fits mi mo ->
  zlen x1 = 24 * mi -> zlen x2 = 24 * mo -> zlen h1 = 16 -> zlen d1 = 4096 -> zlen h2 = 16 ->
  exists ins outs, ranges ins /\ zlen ins = mi /\ ranges outs /\ zlen outs = mo /\
    transport_reset_area (placed mi mo mem false) (area_bytes (mkArea mi 0 mo 0) ++ x1 ++ x2 ++ h1 ++ d1 ++ h2 ++ d2) =
      Done (laid_out mi mo ins outs d1 d2).
Proof.
  intros (Hi & Ho & Hb) H1 H2 Hh1 Hd1 Hh2. set (ar := area_bytes _).
  assert (zlen ar = 16) as Har by (unfold ar, area_bytes; zlia).
  destruct (reset_ports_ok (Z.to_nat mi) x1 (x2 ++ h1 ++ d1 ++ h2 ++ d2)) as (ins & Hins & Hli & Hrun1); [lia |].
  destruct (reset_ports_ok (Z.to_nat mo) x2 (h1 ++ d1 ++ h2 ++ d2)) as (outs & Houts & Hlo & Hrun2); [lia |].
  exists ins, outs. split_and!; [done | lia | done | lia |].
  assert (forall rest, load32 0 (ar ++ rest) = Some mi) as Hmi.
  { intros rest. unfold ar, area_bytes. rewrite <- !app_assoc, <- (app_nil_l (le32 _ ++ _)).
    apply load32_mid; [done | unfold is_u32; simpl; lia]. }
  assert (forall rest, load32 8 (ar ++ rest) = Some mo) as Hmo.
  { intros rest. unfold ar, area_bytes. rewrite <- !app_assoc, (app_assoc (le32 _) (le32 _)).
    apply load32_mid; [zlia | unfold is_u32; simpl; lia]. }
  unfold transport_reset_area. rewrite Hmi. cbn [of_option obind].
  unfold placed. cbn [inputs outputs input_buffer output_buffer].
  replace 16 with (zlen ar) by done. rewrite Hrun1. cbn [obind]. rewrite Hmo. cbn [of_option obind].
  pose proof (zlen_ios ins Hins) as Zi. pose proof (zlen_ios outs Houts) as Zo.
  set (a2 := ar ++ concat (map reset_io ins)) in *.
  replace (zlen ar + 24 * mi) with (zlen a2) by (unfold a2; rewrite zlen_app; lia).
  rewrite (app_assoc ar). fold a2. rewrite Hrun2. cbn [obind].
  rewrite (app_assoc a2). set (a3 := a2 ++ concat (map reset_io outs)) in *.
  assert (zlen a3 = zlen ar + 24 * (mi + mo)) as Z3 by (unfold a3, a2; autorewrite with zlen; lia).
  change INPUT_BUFFER_SIZE with 4096. change OUTPUT_BUFFER_SIZE with 4096.
  rewrite <- Z3, init_ring_ok by done. cbn [obind].
  set (a4 := a3 ++ ring_bytes empty_ring ++ d1).
  replace (zlen a3 + 4112) with (zlen a4) by (unfold a4; autorewrite with zlen; lia).
  replace (a3 ++ ring_bytes empty_ring ++ d1 ++ h2 ++ d2) with (a4 ++ h2 ++ d2) by (unfold a4; by rewrite <- !app_assoc).
  rewrite init_ring_ok by done. unfold laid_out, a4, a3, a2. by rewrite <- !app_assoc.
Qed.

Lemma zlen_laid_out mi mo ins outs d1 d2 :
  ranges ins -> zlen ins = mi -> ranges outs -> zlen outs = mo -> zlen d1 = 4096 -> zlen d2 = 4096 ->
  zlen (laid_out mi mo ins outs d1 d2) = 24 * (mi + mo) + 8240.
Proof.
  intros Hi <- Ho <- H1 H2. unfold laid_out, area_bytes. autorewrite with zlen. rewrite !zlen_ios by done. lia.
Qed.

Lemma reset_io_at l i a c : ranges l -> 0 <= i < zlen l ->
  load32 (zlen a + 24 * i) (a ++ concat (map reset_io l) ++ c) = Some SPA_RESULT_OK /\
  load32 (zlen a + 24 * i + 4) (a ++ concat (map reset_io l) ++ c) = Some SPA_ID_INVALID.
Proof.
  intros Hl Hi. destruct (split_block i l) as (l1 & l2 & -> & H1 & H2); [lia |].
  destruct l2 as [|x l2]; [autorewrite with zlen in *; lia |]. apply Forall_app in Hl as [Hl1 _].
  rewrite map_app, concat_app. cbn [map concat]. unfold reset_io at 2 5. rewrite <- !app_assoc.
  rewrite (app_assoc a). pose proof (zlen_ios l1 Hl1).
  split; [apply load32_mid; [zlia | done] |].
  rewrite (app_assoc _ (le32 SPA_RESULT_OK)). apply load32_mid; [zlia | done].
Qed.

(** The first words of a block, and what is not mapped. *)
Lemma laid_out_area mi mo ins outs d1 d2 : exists rest, laid_out mi mo ins outs d1 d2 = area_bytes (mkArea mi 0 mo 0) ++ rest.
Proof. unfold laid_out. rewrite <- !app_assoc. by eexists. Qed.

Section Created.
Context `{Kernel} `{Heap}.

Lemma new_ok mi mo s : fits mi mo ->
  pinos_transport_new mi mo s = Undef \/
  exists mem s1 ins outs d1 d2, pinos_transport_new mi mo s = Done (placed mi mo mem false, laid_out mi mo ins outs d1 d2, s1) /\
    ranges ins /\ zlen ins = mi /\ ranges outs /\ zlen outs = mo /\ zlen d1 = 4096 /\ zlen d2 = 4096 /\
    Mem.size mem = 24 * (mi + mo) + 8240.
Proof.
  intros Hfit. pose proof Hfit as (Hi & Ho & Hb). unfold pinos_transport_new. rewrite area_size by done.
  set (fl := Z.lor _ _). set (len := 24 * (mi + mo) + 8240).
  destruct (resources s) as [[d m] a] eqn:Hs.
  destruct (alloc_fd_spec fl len no_mem s d m a eq_refl ltac:(unfold len; lia) eq_refl Hs) as (r & n & p & s1 & -> & _).
  case_if; [by left | right].
  destruct (split_block 16 (fresh len)) as (ar & x & Hfresh & Har & Hx); [rewrite fresh_len; unfold len; lia |].
  rewrite fresh_len in Hx by (unfold len; lia).
  destruct (split_block (24 * mi) x) as (x1 & x' & -> & H1 & Hx1); [unfold len in *; lia |].
  destruct (split_block (24 * mo) x') as (x2 & x'' & -> & H2 & Hx2); [unfold len in *; lia |].
  destruct (split_block 16 x'') as (h1 & y & -> & Hh1 & Hy); [unfold len in *; lia |].
  destruct (split_block 4096 y) as (d1 & y' & -> & Hd1 & Hy'); [unfold len in *; lia |].
  destruct (split_block 16 y') as (h2 & d2 & -> & Hh2 & Hd2); [unfold len in *; lia |].
  rewrite Hfresh. rewrite <- (app_nil_l (ar ++ _)), mwrite_app by (unfold area_bytes; zlia). cbn [of_option obind app].
  rewrite setup_ok by done. cbn [obind].
  destruct (reset_area_ok mi mo (mkMem fl n 0 p len) x1 x2 h1 d1 h2 d2) as (ins & outs & Hri & Hli & Hro & Hlo & ->); try done.
  exists (mkMem fl n 0 p len), s1, ins, outs, d1, d2. split_and!; try done. unfold len in *. lia.
Qed.

Lemma from_info_ok mi mo mem rest s : fits mi mo -> Mem.size mem = 24 * (mi + mo) + 8240 ->
  zlen (area_bytes (mkArea mi 0 mo 0) ++ rest) = 24 * (mi + mo) + 8240 ->
  forall t s1, pinos_transport_new_from_info (pinos_transport_get_info (placed mi mo mem false)) (area_bytes (mkArea mi 0 mo 0) ++ rest) s = Done (t, s1) ->
    t = None \/ exists mem', t = Some (placed mi mo mem' true).
Proof.
  intros Hfit Hsz Hlen t s1. unfold pinos_transport_new_from_info, pinos_transport_get_info.
  cbn [memfd info_offset info_size]. destruct (pinos_memblock_map _ s) as [[r mem'] s2].
  case_if; [intros [= <- <-]; by left |].
  change (Mem.size (Transport.mem (placed mi mo mem false))) with (Mem.size mem). rewrite Hsz, u32_small by (unfold fits, is_u32 in *; lia).
  rewrite <- Hlen, to_nat_zlen, firstn_all. rewrite setup_ok by done. cbn [obind]. intros [= <- <-]. right. by exists mem'.
Qed.

Lemma created_implements mi mo mem mem' ins outs d1 d2 : fits mi mo ->
  ranges ins -> zlen ins = mi -> ranges outs -> zlen outs = mo -> zlen d1 = 4096 -> zlen d2 = 4096 ->
  implements (mkShared (placed mi mo mem false) (placed mi mo mem' true) (laid_out mi mo ins outs d1 d2)) Spec.start.
Proof.
  intros Hfit Hi <- Ho <- H1 H2. unfold laid_out. set (pre := area_bytes _ ++ _).
  assert (zlen pre = 16 + 24 * (zlen ins + zlen outs)) as Hpre.
  { unfold pre, area_bytes. autorewrite with zlen. rewrite !zlen_ios by done. lia. }
  exists pre, empty_ring, d1, empty_ring, d2, [], []. rewrite Hpre.
  split_and!; try done; by apply empty_carries.
Qed.

(** The block a server lays out is exactly the regions it says, one behind the
    other and ending with the block; every IO area is reset; and a client that maps
    the block from the server's description finds the same regions with the two
    rings exchanged. *)
Theorem transport_layout mi mo s server m s1 :
  fits mi mo -> pinos_transport_new mi mo s = Done (server, m, s1) ->
  inputs server = 16 /\ outputs server = inputs server + 24 * mi /\
  input_buffer server = outputs server + 24 * mo /\ input_data server = input_buffer server + 16 /\
  output_buffer server = input_data server + 4096 /\ output_data server = output_buffer server + 16 /\
  output_data server + 4096 = zlen m /\ zlen m = transport_area_get_size (mkArea mi 0 mo 0) /\
  (forall p, (exists i, 0 <= i < mi /\ p = inputs server + 24 * i) \/ (exists i, 0 <= i < mo /\ p = outputs server + 24 * i) ->
     load32 p m = Some SPA_RESULT_OK /\ load32 (p + 4) m = Some SPA_ID_INVALID) /\
  (forall s2 client s3, pinos_transport_new_from_info (pinos_transport_get_info server) m s2 = Done (Some client, s3) ->
     inputs client = inputs server /\ outputs client = outputs server /\
     uses client (output_buffer server) (input_buffer server)).
Proof.
  intros Hfit Hnew. destruct (new_ok mi mo s Hfit) as [Hu | (mem & s1' & ins & outs & d1 & d2 & Hd & Hri & Hli & Hro & Hlo & H1 & H2 & Hsz)]; [congruence |].
  rewrite Hd in Hnew. injection Hnew as <- <- <-. rewrite area_size by done.
  pose proof (zlen_laid_out mi mo ins outs d1 d2 Hri Hli Hro Hlo H1 H2) as Hlen.
  cbn [placed inputs outputs input_buffer input_data output_buffer output_data]. rewrite Hlen.
  split_and!; try lia.
  - pose proof (zlen_ios ins Hri). assert (zlen (area_bytes (mkArea mi 0 mo 0)) = 16) as Har by (unfold area_bytes; zlia).
    unfold laid_out. intros p [(i & Hi & ->) | (i & Hi & ->)].
    + rewrite <- !app_assoc, <- Har. apply reset_io_at; [done | lia].
    + rewrite (app_assoc (area_bytes _)), <- app_assoc.
      replace (16 + 24 * mi) with (zlen (area_bytes (mkArea mi 0 mo 0) ++ concat (map reset_io ins))) by zlia.
      apply reset_io_at; [done | lia].
  - intros s2 client s3 Hc. destruct (laid_out_area mi mo ins outs d1 d2) as [rest Hrest]. rewrite Hrest in Hc, Hlen.
    destruct (from_info_ok mi mo mem rest s2 Hfit Hsz Hlen _ _ Hc) as [? | (mem' & [= ->])]; [done |].
    unfold uses. simpl. split_and!; lia.
Qed.

(** C12: The block carries events both ways: whatever the two sides call, in whatever
    order, every call returns what two bounded queues of events would return, and
    none reads or writes outside the block. *)
Theorem transport_refines mi mo s server m s1 s2 client s3 ops replies sp :
  fits mi mo -> pinos_transport_new mi mo s = Done (server, m, s1) ->
  pinos_transport_new_from_info (pinos_transport_get_info server) m s2 = Done (Some client, s3) ->
  Forall (fun '(_, o) => match o with AddEvent e => event_ok e | _ => True end) ops ->
  Spec.calls ops Spec.start = Some (replies, sp) ->
  exists st, calls ops (mkShared server client m) = Done (replies, st) /\ implements st sp.
Proof.
  intros Hfit Hnew Hc Hops Hspec. destruct (new_ok mi mo s Hfit) as [Hu | (mem & s1' & ins & outs & d1 & d2 & Hd & Hri & Hli & Hro & Hlo & H1 & H2 & Hsz)]; [congruence |].
  rewrite Hd in Hnew. injection Hnew as <- <- <-.
  pose proof (zlen_laid_out mi mo ins outs d1 d2 Hri Hli Hro Hlo H1 H2) as Hlen.
  destruct (laid_out_area mi mo ins outs d1 d2) as [rest Hrest]. rewrite Hrest in Hc, Hlen.
  destruct (from_info_ok mi mo mem rest s2 Hfit Hsz Hlen _ _ Hc) as [? | (mem' & [= ->])]; [done |].
  eapply calls_refine; [by apply created_implements | done | done].
Qed.
End Created.

(** ** Instances *)

Definition sample_new : PinosTransport * bytes * process :=
  match pinos_transport_new 1 2 nothing_open with Done x => x | _ => (new_transport no_mem, [], nothing_open) end.
Definition sample_server : PinosTransport := sample_new.1.1.
Definition sample_block : bytes := sample_new.1.2.

Lemma sample_fits : fits 1 2.
Proof. unfold fits. lia. Qed.

Lemma sample_created : pinos_transport_new 1 2 nothing_open = Done (sample_server, sample_block, sample_new.2).
Proof. vm_compute. reflexivity. Qed.

Definition sample_client : PinosTransport :=
  match pinos_transport_new_from_info (pinos_transport_get_info sample_server) sample_block nothing_open with
  | Done (Some t, _) => t
  | _ => new_transport no_mem
  end.

Lemma sample_mapped : exists s, pinos_transport_new_from_info (pinos_transport_get_info sample_server) sample_block nothing_open =
  Done (Some sample_client, s).
Proof. eexists. vm_compute. reflexivity. Qed.

Lemma transport_layout_witness :
  output_data sample_server + 4096 = zlen sample_block /\ outputs sample_client = 40.
Proof.
  destruct sample_mapped as [s3 Hc].
  destruct (transport_layout 1 2 nothing_open _ _ _ sample_fits sample_created) as (H1 & H2 & _ & _ & _ & _ & H7 & _ & _ & Hcl).
  split; [exact H7 |]. destruct (Hcl _ _ _ Hc) as (_ & -> & _). lia.
Defined.

Definition sample_event : bytes := le32 8 ++ le32 9 ++ le32 0 ++ le32 5.
Lemma sample_event_ok : event_ok sample_event.
Proof. split; [vm_compute; split; congruence |]. by exists (le32 9 ++ le32 0 ++ le32 5). Qed.
Definition sample_ops : list (side * op) :=
  [(Server, AddEvent sample_event); (Client, NextEvent); (Server, NextEvent); (Client, ParseEvent); (Client, NextEvent)].
Definition sample_replies : list (Z * bytes) :=
  [(SPA_RESULT_OK, []); (SPA_RESULT_OK, sample_event); (SPA_RESULT_ENUM_END, []); (SPA_RESULT_OK, sample_event); (SPA_RESULT_ENUM_END, [])].

Lemma transport_refines_witness : exists st, calls sample_ops (mkShared sample_server sample_client sample_block) = Done (sample_replies, st).
Proof.
  destruct sample_mapped as [s3 Hc].
  assert (exists sp, Spec.calls sample_ops Spec.start = Some (sample_replies, sp)) as [sp Hsp] by (eexists; reflexivity).
  destruct (transport_refines 1 2 nothing_open _ _ _ _ _ _ sample_ops sample_replies sp sample_fits sample_created Hc) as (st & Hst & _).
  - apply Forall_cons. split; [apply sample_event_ok |]. repeat (apply Forall_cons; split; [done |]). by apply Forall_nil.
  - exact Hsp.
  - by exists st.
Defined.
