(* ===== verification/Loop.v ===== *)
(** [pinos/client/loop.c]: the queue of functions to invoke in the loop's thread.

    A call from another thread puts an item, a header followed by a copy of the data,
    into a ring of 32 kB and signals the loop; the loop runs the items when it wakes
    up. [invoke_fifo] is the behaviour while the items of a first pass over the ring
    fit; [invoke_overflow] is what happens with the item that does not. *)
From S2P Require Import Prelude Defs Ringbuffer.

(** ** Event masks *)

Definition SPA_IO_IN : Z := Z.shiftl 1 0.
Definition SPA_IO_OUT : Z := Z.shiftl 1 1.
Definition SPA_IO_HUP : Z := Z.shiftl 1 2.
Definition SPA_IO_ERR : Z := Z.shiftl 1 3.

(** [<sys/epoll.h>] *)
Definition EPOLLIN : Z := 1.
Definition EPOLLOUT : Z := 4.
Definition EPOLLERR : Z := 8.
Definition EPOLLHUP : Z := 16.

Definition set_if (mask bit flag acc : Z) : Z := if negb (Z.land mask bit =? 0) then Z.lor acc flag else acc.

Definition spa_io_to_epoll (mask : Z) : Z :=
  let events := 0 in
  let events := set_if mask SPA_IO_IN EPOLLIN events in
  let events := set_if mask SPA_IO_OUT EPOLLOUT events in
  let events := set_if mask SPA_IO_ERR EPOLLERR events in
  set_if mask SPA_IO_HUP EPOLLHUP events.

Definition spa_epoll_to_io (events : Z) : Z :=
  let mask := 0 in
  let mask := set_if events EPOLLIN SPA_IO_IN mask in
  let mask := set_if events EPOLLOUT SPA_IO_OUT mask in
  let mask := set_if events EPOLLHUP SPA_IO_HUP mask in
  set_if events EPOLLERR SPA_IO_ERR mask.

(** ** The invoke queue *)

Definition DATAS_SIZE : Z := 4096 * 8.
Definition sizeof_InvokeItem : Z := 48.

(** Pointers to data are offsets into the buffer; functions and user data are words. *)
Module Item.
Record InvokeItem := mk { item_size : Z; func : Z; seq : Z; size : Z; data : Z; user_data : Z }.
End Item.

(** The fields are stored one by one; the padding behind [seq] is not. *)
Definition store_item (off : Z) (i : Item.InvokeItem) (m : bytes) : option bytes :=
  m ← mwrite (off + 8) (le64 (Item.func i)) m;
  m ← mwrite (off + 16) (le32 (Item.seq i)) m;
  m ← mwrite (off + 24) (le64 (Item.size i)) m;
  m ← mwrite (off + 40) (le64 (Item.user_data i)) m;
  m ← mwrite (off + 32) (le64 (Item.data i)) m;
  mwrite off (le64 (Item.item_size i)) m.

Definition load_item (off : Z) (m : bytes) : option Item.InvokeItem :=
  n ← load64 off m;
  f ← load64 (off + 8) m;
  s ← load32 (off + 16) m;
  z ← load64 (off + 24) m;
  d ← load64 (off + 32) m;
  u ← load64 (off + 40) m;
  Some (Item.mk n f s z d u).

Record PinosLoopImpl (S : Type) := mkLoop { buffer : SpaRingbuffer; buffer_data : bytes; event : bool; client : S }.
Arguments mkLoop {S}.
Arguments buffer {S}.
Arguments buffer_data {S}.
Arguments event {S}.
Arguments client {S}.

Section Loop.
(** [func async seq data user_data]: the function a word stands for. *)
Context {S : Type} (call : Z -> bool -> Z -> bytes -> Z -> S -> Z * S).

(** Where the data of an item goes, and the size of the item. *)
Definition place_item (offset l0 size : Z) : Z * Z :=
  if l0 >? u64 (sizeof_InvokeItem + size) then
    let item_size := u64 (sizeof_InvokeItem + size) in
    (offset + sizeof_InvokeItem, if l0 <? u64 (sizeof_InvokeItem + item_size) then l0 else item_size)
  else (0, u64 (u32 (l0 + 1) + size)).

Definition loop_invoke (in_thread : bool) (func seq : Z) (data : bytes) (user_data : Z) (impl : PinosLoopImpl S) :
    outcome (Z * PinosLoopImpl S) :=
  if in_thread then
    let '(res, s) := call func false seq data user_data (client impl) in
    Done (res, mkLoop (buffer impl) (buffer_data impl) (event impl) s)
  else
    let rb := buffer impl in
    let '(filled, idx) := spa_ringbuffer_get_write_index rb in
    if (filled <? 0) || (u32 filled >? size rb) then Done (SPA_RESULT_ERROR, impl)
    else
      let avail := i32 (u32 (size rb - filled)) in
      if u64 avail <? sizeof_InvokeItem then Done (SPA_RESULT_ERROR, impl)
      else
        let offset := Z.land idx (mask rb) in
        let l0 := u32 (offset + avail) in
        let l0 := if l0 >? size rb then u32 (size rb - l0) else l0 in
        let '(dest, item_size) := place_item offset l0 (zlen data) in
        let* m := of_option (store_item offset (Item.mk item_size func seq (zlen data) dest user_data) (buffer_data impl)) in
        let* m := of_option (mwrite dest data m) in
        let rb := spa_ringbuffer_write_update rb (idx + item_size) in
        Done (if negb (seq =? SPA_ID_INVALID) then SPA_RESULT_RETURN_ASYNC seq else SPA_RESULT_OK,
              mkLoop rb m true (client impl)).

(** The loop of [event_func]. *)
Fixpoint event_loop (fuel : nat) (impl : PinosLoopImpl S) : outcome (PinosLoopImpl S) :=
  let '(avail, index) := spa_ringbuffer_get_read_index (buffer impl) in
  if avail >? 0 then
    match fuel with
    | O => Undef
    | Datatypes.S fuel' =>
        let* item := of_option (load_item (Z.land index (mask (buffer impl))) (buffer_data impl)) in
        let* data := of_option (mread (Item.data item) (Item.size item) (buffer_data impl)) in
        let '(_, s) := call (Item.func item) true (Item.seq item) data (Item.user_data item) (client impl) in
        let rb := spa_ringbuffer_read_update (buffer impl) (index + Item.item_size item) in
        event_loop fuel' (mkLoop rb (buffer_data impl) (event impl) s)
    end
  else Done impl.

(** Waking up: the event is cleared, then its function runs. *)
Definition event_func (fuel : nat) (impl : PinosLoopImpl S) : outcome (PinosLoopImpl S) :=
  if event impl then event_loop fuel (mkLoop (buffer impl) (buffer_data impl) false (client impl)) else Done impl.

Definition pinos_loop_new (data : bytes) (s : S) : PinosLoopImpl S :=
  mkLoop (spa_ringbuffer_init (mkRing 0 0 0 0) DATAS_SIZE).2 data false s.
End Loop.

(** ** The queue as a sequence of calls *)

Record invocation := mkInv { i_func : Z; i_seq : Z; i_data : bytes; i_user : Z }.
Inductive event_kind := Invoke (in_thread : bool) (i : invocation) | Wakeup.

Definition inv_size (i : invocation) : Z := 48 + zlen (i_data i).
(** An item that is alone in the buffer takes all of it when no header fits behind. *)
Definition taken (used : Z) (i : invocation) : Z := if (used =? 0) && (32768 <? 48 + inv_size i) then 32768 else inv_size i.
Definition invocation_ok (i : invocation) : Prop := is_u64 (i_func i) /\ is_u32 (i_seq i) /\ is_u64 (i_user i).

Module Spec.
Record queue (S : Type) := mk { pending : list invocation; bytes_pending : Z; used : Z; signalled : bool; state : S }.
Arguments mk {S}.
Arguments pending {S}.
Arguments bytes_pending {S}.
Arguments used {S}.
Arguments signalled {S}.
Arguments state {S}.

Section Spec.
Context {S : Type} (call : Z -> bool -> Z -> bytes -> Z -> S -> Z * S).

Definition run (async : bool) (i : invocation) (s : S) : Z * S := call (i_func i) async (i_seq i) (i_data i) (i_user i) s.

(** [None]: the item does not fit behind the ones of this pass. *)
Definition invoke (in_thread : bool) (i : invocation) (q : queue S) : option (Z * queue S) :=
  if in_thread then
    let '(res, s) := run false i (state q) in Some (res, mk (pending q) (bytes_pending q) (used q) (signalled q) s)
  else if 32768 - bytes_pending q <? 48 then Some (SPA_RESULT_ERROR, q)
  else if (used q + inv_size i <=? 32768) && (inv_size i <? 32768) then
    Some (if i_seq i =? SPA_ID_INVALID then SPA_RESULT_OK else SPA_RESULT_RETURN_ASYNC (i_seq i),
          mk (pending q ++ [i]) (bytes_pending q + taken (used q) i) (used q + taken (used q) i) true (state q))
  else None.

Definition wakeup (q : queue S) : queue S :=
  if signalled q then mk [] 0 (used q) false (foldl (fun s i => (run true i s).2) (state q) (pending q)) else q.
End Spec.
End Spec.

Section Fifo.
Context {S : Type} (call : Z -> bool -> Z -> bytes -> Z -> S -> Z * S).

Fixpoint run_events (fuel : nat) (evs : list event_kind) (impl : PinosLoopImpl S) : outcome (list Z * PinosLoopImpl S) :=
  match evs with
  | [] => Done ([], impl)
  | Invoke th i :: evs =>
      let* (res, impl) := loop_invoke call th (i_func i) (i_seq i) (i_data i) (i_user i) impl in
      let* (l, impl) := run_events fuel evs impl in Done (res :: l, impl)
  | Wakeup :: evs =>
      let* impl := event_func call fuel impl in
      let* (l, impl) := run_events fuel evs impl in Done (0 :: l, impl)
  end.

Fixpoint spec_events (evs : list event_kind) (q : Spec.queue S) : option (list Z * Spec.queue S) :=
  match evs with
  | [] => Some ([], q)
  | Invoke th i :: evs =>
      '(res, q) ← Spec.invoke call th i q;
      '(l, q) ← spec_events evs q; Some (res :: l, q)
  | Wakeup :: evs => '(l, q) ← spec_events evs (Spec.wakeup call q); Some (0 :: l, q)
  end.
End Fifo.

(** ** Items in memory *)

Definition item_bytes (pad : bytes) (i : Item.InvokeItem) : bytes :=
  le64 (Item.item_size i) ++ le64 (Item.func i) ++ le32 (Item.seq i) ++ pad ++ le64 (Item.size i) ++ le64 (Item.data i) ++
  le64 (Item.user_data i).

Definition item_words (i : Item.InvokeItem) : Prop :=
  is_u64 (Item.item_size i) /\ is_u64 (Item.func i) /\ is_u32 (Item.seq i) /\ is_u64 (Item.size i) /\ is_u64 (Item.data i) /\
  is_u64 (Item.user_data i).

Lemma zlen_item_bytes pad i : zlen pad = 4 -> zlen (item_bytes pad i) = 48.
Proof. intros. unfold item_bytes. zlia. Qed.

Lemma store_item_ok i a h c : zlen h = 48 -> exists pad, zlen pad = 4 /\
  store_item (zlen a) i (a ++ h ++ c) = Some (a ++ item_bytes pad i ++ c).
Proof.
  intros Hh. destruct (split_block 8 h) as (w1 & h1 & -> & H1 & Hh1); [lia |].
  destruct (split_block 8 h1) as (w2 & h2 & -> & H2 & Hh2); [lia |].
  destruct (split_block 4 h2) as (w3 & h3 & -> & H3 & Hh3); [lia |].
  destruct (split_block 4 h3) as (pad & h4 & -> & H4 & Hh4); [lia |].
  destruct (split_block 8 h4) as (w5 & h5 & -> & H5 & Hh5); [lia |].
  destruct (split_block 8 h5) as (w6 & w7 & -> & H6 & H7); [lia |].
  exists pad. split; [done |]. unfold store_item, item_bytes. rewrite <- !app_assoc.
  rewrite (app_assoc a w1), mwrite_app by zlia. cbn [mbind option_bind].
  rewrite (app_assoc (a ++ w1)), mwrite_app by zlia. cbn [mbind option_bind].
  rewrite (app_assoc ((a ++ w1) ++ _) (le32 _)), (app_assoc _ pad), mwrite_app by zlia. cbn [mbind option_bind].
  rewrite (app_assoc _ (le64 (Item.size i))), (app_assoc _ w6), mwrite_app by zlia. cbn [mbind option_bind].
  rewrite <- (app_assoc _ w6), mwrite_app by zlia. cbn [mbind option_bind].
  rewrite <- !app_assoc, mwrite_app by zlia. done.
Qed.

Lemma bind_load64 {A} (f : Z -> option A) a z c off :
  off = zlen a -> is_u64 z -> load64 off (a ++ le64 z ++ c) ≫= f = f z.
Proof. intros -> Hz. by rewrite load64_app, u64_small. Qed.
Lemma bind_load32 {A} (f : Z -> option A) a z c off :
  off = zlen a -> is_u32 z -> load32 off (a ++ le32 z ++ c) ≫= f = f z.
Proof. intros -> Hz. by rewrite load32_app, u32_small. Qed.

Lemma load_item_ok i a pad c : zlen pad = 4 -> item_words i -> load_item (zlen a) (a ++ item_bytes pad i ++ c) = Some i.
Proof.
  intros Hp (W1 & W2 & W3 & W4 & W5 & W6). unfold load_item, item_bytes. rewrite <- !app_assoc.
  rewrite bind_load64 by done.
  rewrite (app_assoc a), bind_load64 by (done || zlia).
  rewrite (app_assoc (a ++ _)), bind_load32 by (done || zlia).
  rewrite (app_assoc _ (le32 _)), (app_assoc _ pad), bind_load64 by (done || zlia).
  rewrite (app_assoc _ (le64 (Item.size i))), bind_load64 by (done || zlia).
  rewrite (app_assoc _ (le64 (Item.data i))), bind_load64 by (done || zlia). by destruct i.
Qed.

(** The items of a stretch of the buffer that starts at [off]. *)
Inductive body : Z -> list invocation -> bytes -> Prop :=
| body_nil off : body off [] []
| body_cons off i l pad fill b n :
    zlen pad = 4 -> n = inv_size i + zlen fill -> body (off + n) l b ->
    body off (i :: l)
      (item_bytes pad (Item.mk n (i_func i) (i_seq i) (zlen (i_data i)) (off + 48) (i_user i)) ++ i_data i ++ fill ++ b).

Lemma body_snoc off l b i pad fill n :
  body off l b -> zlen pad = 4 -> n = inv_size i + zlen fill ->
  body off (l ++ [i])
    (b ++ item_bytes pad (Item.mk n (i_func i) (i_seq i) (zlen (i_data i)) (off + zlen b + 48) (i_user i)) ++ i_data i ++ fill).
Proof.
  induction 1 as [off | off j l pad' fill' b n' Hp' Hn' Hb IH]; intros Hp Hn.
  - rewrite zlen_nil, Z.add_0_r, <- (app_nil_r fill). apply (body_cons off i [] pad fill [] n); [done.. | constructor].
  - specialize (IH Hp Hn). simpl. rewrite <- !app_assoc. apply body_cons; [done.. |].
    autorewrite with zlen. rewrite zlen_item_bytes by done. unfold inv_size in *.
    replace (off + (48 + (zlen (i_data j) + (zlen fill' + zlen b))) + 48) with (off + n' + zlen b + 48) by lia. exact IH.
Qed.

Section Represents.
Context {S : Type} (call : Z -> bool -> Z -> bytes -> Z -> S -> Z * S).

Record represents (impl : PinosLoopImpl S) (q : Spec.queue S) : Prop := {
  rp_pieces : exists front b tail, buffer_data impl = front ++ b ++ tail /\ zlen (buffer_data impl) = 32768 /\
    body (zlen front) (Spec.pending q) b /\ zlen b = Spec.bytes_pending q /\ zlen front + zlen b = Spec.used q /\
    buffer impl = mkRing (zlen front) (Spec.used q) 32768 32767;
  rp_event : event impl = Spec.signalled q;
  rp_client : client impl = Spec.state q;
  rp_ok : Forall invocation_ok (Spec.pending q)
}.

(** The fields of the ring and the free space, for a queue of this pass. *)
Lemma write_index_ok R W : 0 <= R <= W -> W <= 32768 ->
  spa_ringbuffer_get_write_index (mkRing R W 32768 32767) = (W - R, W).
Proof.
  intros. unfold spa_ringbuffer_get_write_index. simpl. rewrite u32_small, i32_small by (unfold is_u32; lia). done.
Qed.

Lemma read_index_ok R W : 0 <= R <= W -> W <= 32768 ->
  spa_ringbuffer_get_read_index (mkRing R W 32768 32767) = (W - R, R).
Proof.
  intros. unfold spa_ringbuffer_get_read_index. simpl. rewrite u32_small, i32_small by (unfold is_u32; lia). done.
Qed.

Lemma mask_low z : 0 <= z < 32768 -> Z.land z 32767 = z.
Proof. intros. change 32767 with (2 ^ 15 - 1). rewrite land_low by lia. apply Z.mod_small. lia. Qed.

(** Where the item goes when the write index has not reached the end. *)
Lemma place_ok R W n :
  0 <= R <= W -> W < 32768 -> 0 <= n -> 48 + n < 32768 ->
  let l0 := u32 (W + (32768 - (W - R))) in
  place_item W (if l0 >? 32768 then u32 (32768 - l0) else l0) n =
    (W + 48, if (R =? 0) && (32768 <? 96 + n) then 32768 else 48 + n).
Proof.
  intros HR HW Hn Hs l0. unfold l0. replace (W + (32768 - (W - R))) with (32768 + R) by lia.
  rewrite u32_small by (unfold is_u32; lia). unfold place_item, sizeof_InvokeItem.
  rewrite (u64_small (48 + n)), (u64_small (48 + (48 + n))) by (unfold is_u64; lia). rewrite !Z.gtb_ltb.
  destruct (Z.eqb_spec R 0) as [->|HR0].
  - rewrite Z.add_0_r, Z.ltb_irrefl, (proj2 (Z.ltb_lt (48 + n) 32768)) by lia. simpl.
    by replace (48 + (48 + n)) with (96 + n) by lia.
  - rewrite (proj2 (Z.ltb_lt _ (32768 + R))) by lia.
    assert (u32 (32768 - (32768 + R)) = 2 ^ 32 - R) as ->.
    { unfold u32. replace (32768 - (32768 + R)) with (2 ^ 32 - R + (-1) * 2 ^ 32) by lia.
      rewrite Z.mod_add by lia. apply Z.mod_small. lia. }
    rewrite (proj2 (Z.ltb_lt (48 + n) (2 ^ 32 - R))), (proj2 (Z.ltb_ge (2 ^ 32 - R) (48 + (48 + n)))) by lia. done.
Qed.

Lemma body_size off l b : body off l b -> l = [] /\ b = [] \/ 48 <= zlen b.
Proof.
  destruct 1 as [|off i l pad fill b n Hp Hn Hb]; [by left | right].
  autorewrite with zlen. rewrite zlen_item_bytes by done. zlen_pose. lia.
Qed.

(** What an invocation writes while there is room for a header. *)
Lemma invoke_stores impl q i : represents impl q -> Spec.used q < 32768 -> inv_size i < 32768 ->
  48 <= 32768 - Spec.bytes_pending q ->
  exists n, (Spec.used q + inv_size i <= 32768 -> n = taken (Spec.used q) i) /\
  loop_invoke call false (i_func i) (i_seq i) (i_data i) (i_user i) impl =
    (let* m := of_option (store_item (Spec.used q)
        (Item.mk n (i_func i) (i_seq i) (zlen (i_data i)) (Spec.used q + 48) (i_user i)) (buffer_data impl)) in
     let* m := of_option (mwrite (Spec.used q + 48) (i_data i) m) in
     Done (if i_seq i =? SPA_ID_INVALID then SPA_RESULT_OK else SPA_RESULT_RETURN_ASYNC (i_seq i),
           mkLoop (spa_ringbuffer_write_update (buffer impl) (Spec.used q + n)) m true (client impl))).
Proof.
  intros [(front & b & tail & Hm & Hlen & Hb & Hbp & Hu & Hrb) He Hc Hok] Hused Hi Hroom. unfold inv_size in Hi.
  pose proof (zlen_nonneg front). pose proof (zlen_nonneg b). pose proof (zlen_nonneg (i_data i)).
  exists (if (zlen front =? 0) && (32768 <? 96 + zlen (i_data i)) then 32768 else 48 + zlen (i_data i)). split.
  - unfold taken, inv_size. replace (48 + (48 + zlen (i_data i))) with (96 + zlen (i_data i)) by lia. intros Hfit.
    destruct (Z.ltb_spec 32768 (96 + zlen (i_data i))); [| by rewrite !andb_false_r].
    destruct (body_size _ _ _ Hb) as [[_ ->] | ?]; [| lia].
    rewrite zlen_nil, Z.add_0_r in Hu. by rewrite Hu.
  - unfold loop_invoke. rewrite Hrb, write_index_ok by lia. cbn [size mask].
    rewrite (proj2 (Z.ltb_ge _ 0)) by lia. rewrite u32_small, Z.gtb_ltb by (unfold is_u32; lia).
    rewrite (proj2 (Z.ltb_ge 32768 _)) by lia. cbn [orb].
    rewrite (u32_small (32768 - _)), i32_small, (u64_small (32768 - _)) by (unfold is_u32, is_u64; lia).
    rewrite (proj2 (Z.ltb_ge _ sizeof_InvokeItem)) by (unfold sizeof_InvokeItem; lia).
    rewrite mask_low by lia. rewrite (place_ok (zlen front)) by lia. by destruct (i_seq i =? SPA_ID_INVALID).
Qed.

Lemma taken_bounds used i : used + inv_size i <= 32768 -> 0 <= used -> inv_size i <= taken used i /\ used + taken used i <= 32768.
Proof.
  unfold taken. intros. destruct (Z.eqb_spec used 0); [| simpl; lia]. destruct (32768 <? 48 + inv_size i); simpl; lia.
Qed.

Lemma invoke_fits impl q i : represents impl q -> invocation_ok i ->
  Spec.used q + inv_size i <= 32768 -> inv_size i < 32768 -> 48 <= 32768 - Spec.bytes_pending q ->
  exists impl', loop_invoke call false (i_func i) (i_seq i) (i_data i) (i_user i) impl =
      Done (if i_seq i =? SPA_ID_INVALID then SPA_RESULT_OK else SPA_RESULT_RETURN_ASYNC (i_seq i), impl') /\
    represents impl' (Spec.mk (Spec.pending q ++ [i]) (Spec.bytes_pending q + taken (Spec.used q) i)
                        (Spec.used q + taken (Spec.used q) i) true (Spec.state q)).
Proof.
  intros Hrep Hi Hfit Hsmall Hroom. pose proof (zlen_nonneg (i_data i)).
  destruct (invoke_stores impl q i Hrep ltac:(unfold inv_size in *; lia) Hsmall Hroom) as (n & Hn & ->).
  rewrite (Hn Hfit). clear n Hn. destruct Hrep as [(front & b & tail & Hm & Hlen & Hb & Hbp & Hu & Hrb) He Hc Hok].
  pose proof (zlen_nonneg front). pose proof (zlen_nonneg b).
  destruct (taken_bounds (Spec.used q) i Hfit ltac:(lia)) as [Hge Hle]. set (n := taken _ i) in *.
  assert (zlen tail = 32768 - Spec.used q) as Htail by (rewrite Hm in Hlen; autorewrite with zlen in Hlen; lia).
  unfold inv_size in *.
  destruct (split_block 48 tail) as (hd & t1 & -> & Hhd & Ht1); [lia |].
  destruct (split_block (zlen (i_data i)) t1) as (od & t2 & -> & Hod & Ht2); [lia |].
  destruct (split_block (n - (48 + zlen (i_data i))) t2) as (fill & t3 & -> & Hfill & Ht3); [lia |].
  destruct (store_item_ok (Item.mk n (i_func i) (i_seq i) (zlen (i_data i)) (Spec.used q + 48) (i_user i))
              (front ++ b) hd (od ++ fill ++ t3) Hhd) as (pad & Hpad & Hstore).
  rewrite zlen_app, Hu, <- app_assoc in Hstore. rewrite Hm, Hstore. cbn [of_option obind].
  set (ib := item_bytes pad _). assert (zlen ib = 48) as Hib by by apply zlen_item_bytes.
  rewrite (app_assoc (front ++ b)), mwrite_app by zlia. cbn [of_option obind].
  eexists. split; [done |]. split; simpl; [| done | done | apply Forall_app_2; [done | by apply Forall_cons]].
  exists front, (b ++ ib ++ i_data i ++ fill), t3. split_and!.
  - by rewrite <- !app_assoc.
  - rewrite Hm in Hlen. autorewrite with zlen in *. lia.
  - unfold ib. rewrite <- Hu. apply body_snoc; [done | done | unfold inv_size; lia].
  - autorewrite with zlen. lia.
  - autorewrite with zlen. lia.
  - rewrite Hrb. unfold spa_ringbuffer_write_update. simpl. rewrite u32_small by (unfold is_u32; lia). done.
Qed.

(** The item that does not fit is written past the end of the buffer. *)
Lemma mwrite_past {A} off (d m : list A) : zlen m < off + zlen d -> mwrite off d m = None.
Proof. intros Hp. unfold mwrite, in_range. rewrite (proj2 (Z.leb_gt (off + zlen d) _)) by done. by rewrite andb_false_r. Qed.

Lemma store_item_past off i m : zlen m < off + 48 -> store_item off i m = None.
Proof.
  intros Hp. unfold store_item. destruct (mwrite (off + 8) _ m) as [m1|] eqn:H1; [| done]. apply mwrite_length in H1. simpl.
  destruct (mwrite (off + 16) _ m1) as [m2|] eqn:H2; [| done]. apply mwrite_length in H2. simpl.
  destruct (mwrite (off + 24) _ m2) as [m3|] eqn:H3; [| done]. apply mwrite_length in H3. simpl.
  by rewrite mwrite_past by (rewrite zlen_le64; lia).
Qed.

Lemma store_item_length off i m m' : store_item off i m = Some m' -> zlen m' = zlen m.
Proof.
  unfold store_item. intros H.
  repeat match type of H with
         | mbind _ (mwrite ?o ?d ?b) = _ => destruct (mwrite o d b) eqn:?; [| done]; simpl in H
         end.
  repeat match goal with E : mwrite _ _ _ = Some _ |- _ => apply mwrite_length in E end. lia.
Qed.

Lemma invoke_past impl q i : represents impl q -> Spec.used q < 32768 -> inv_size i < 32768 ->
  48 <= 32768 - Spec.bytes_pending q -> 32768 < Spec.used q + inv_size i ->
  loop_invoke call false (i_func i) (i_seq i) (i_data i) (i_user i) impl = Undef.
Proof.
  intros Hrep Hused Hsmall Hroom Hpast. destruct (invoke_stores impl q i Hrep Hused Hsmall Hroom) as (n & _ & ->).
  destruct Hrep as [(front & b & tail & Hm & Hlen & _) _ _ _]. unfold inv_size in *.
  destruct (store_item _ _ _) as [m|] eqn:Hs; [| done]. cbn [of_option obind]. apply store_item_length in Hs.
  by rewrite mwrite_past by lia.
Qed.

Lemma invoke_full impl q i : represents impl q -> 32768 - Spec.bytes_pending q < 48 ->
  loop_invoke call false (i_func i) (i_seq i) (i_data i) (i_user i) impl = Done (SPA_RESULT_ERROR, impl).
Proof.
  intros [(front & b & tail & Hm & Hlen & Hb & Hbp & Hu & Hrb) _ _ _] Hfull. unfold loop_invoke.
  pose proof (zlen_nonneg front). pose proof (zlen_nonneg b). pose proof (zlen_nonneg tail).
  rewrite Hm in Hlen. autorewrite with zlen in Hlen.
  rewrite Hrb, write_index_ok by lia. cbn [size mask].
  rewrite (proj2 (Z.ltb_ge _ 0)) by lia. rewrite u32_small, Z.gtb_ltb by (unfold is_u32; lia).
  rewrite (proj2 (Z.ltb_ge 32768 _)) by lia. cbn [orb].
  rewrite (u32_small (32768 - _)), i32_small, (u64_small (32768 - _)) by (unfold is_u32, is_u64; lia).
  by rewrite (proj2 (Z.ltb_lt _ sizeof_InvokeItem)) by (unfold sizeof_InvokeItem; lia).
Qed.

Lemma body_cons_inv off i l b : body off (i :: l) b -> exists pad fill b' n,
  b = item_bytes pad (Item.mk n (i_func i) (i_seq i) (zlen (i_data i)) (off + 48) (i_user i)) ++ i_data i ++ fill ++ b' /\
  zlen pad = 4 /\ n = inv_size i + zlen fill /\ body (off + n) l b'.
Proof. intros Hb. inversion Hb; subst. by eexists _, _, _, _. Qed.

(** Running everything that is pending. *)
Lemma event_loop_ok fuel : forall impl q, represents impl q -> (length (Spec.pending q) <= fuel)%nat ->
  exists impl', event_loop call fuel impl = Done impl' /\
    represents impl' (Spec.mk [] 0 (Spec.used q) (Spec.signalled q)
      (foldl (fun s i => (Spec.run call true i s).2) (Spec.state q) (Spec.pending q))).
Proof.
  induction fuel as [|fuel IH]; intros impl q [(front & b & tail & Hm & Hlen & Hb & Hbp & Hu & Hrb) He Hc Hok] Hfuel;
    pose proof (zlen_nonneg front); pose proof (zlen_nonneg b); pose proof (zlen_nonneg tail);
    pose proof Hlen as Hlen'; rewrite Hm in Hlen'; autorewrite with zlen in Hlen';
    cbn [event_loop]; rewrite Hrb, read_index_ok, Z.gtb_ltb by lia.
  all: destruct (Spec.pending q) as [|i l] eqn:Hp.
  1, 3: destruct (body_size _ _ _ Hb) as [[_ ->] | ?]; [| inversion Hb; subst; by rewrite zlen_nil in *];
    rewrite zlen_nil in Hu; rewrite (proj2 (Z.ltb_ge 0 _)) by lia;
    exists impl; (split; [done |]); split; try done; exists front, [], tail; simpl; rewrite zlen_nil;
    split_and!; [done | done | constructor | done | lia | done].
  { simpl in Hfuel. lia. }
  destruct (body_cons_inv _ _ _ _ Hb) as (pad & fill & b' & n & -> & Hpad & Hn & Hb').
  pose proof (zlen_item_bytes pad (Item.mk n (i_func i) (i_seq i) (zlen (i_data i)) (zlen front + 48) (i_user i)) Hpad) as Hib.
  set (it := Item.mk _ _ _ _ _ _) in *. set (ib := item_bytes pad it) in *.
  pose proof (zlen_nonneg (i_data i)). pose proof (zlen_nonneg fill). pose proof (zlen_nonneg b'). unfold inv_size in Hn.
  autorewrite with zlen in *. rewrite (proj2 (Z.ltb_lt 0 _)) by lia. apply Forall_cons in Hok as [(Hf & Hs & Hud) Hok].
  cbn [mask]. rewrite mask_low, Hm, <- !app_assoc by lia.
  assert (item_words it) as Hw by (unfold item_words, is_u64, it in *; simpl; split_and!; (done || lia)).
  pose proof (load_item_ok it front pad (i_data i ++ fill ++ b' ++ tail) Hpad Hw) as Hload. fold ib in Hload.
  rewrite Hload. cbn [of_option obind it Item.data Item.size].
  rewrite (app_assoc front ib), mread_app by zlia. cbn [of_option obind Item.func Item.seq Item.user_data Item.item_size].
  destruct (call _ _ _ _ _ _) as [res s] eqn:Hcall.
  destruct (IH (mkLoop (spa_ringbuffer_read_update (mkRing (zlen front) (Spec.used q) 32768 32767) (zlen front + n))
                 ((front ++ ib) ++ i_data i ++ fill ++ b' ++ tail) (event impl) s)
               (Spec.mk l (Spec.bytes_pending q - n) (Spec.used q) (Spec.signalled q) s)) as (impl' & Hrun & Hrep).
  - split; simpl; [| done..]. exists (front ++ ib ++ i_data i ++ fill), b', tail. autorewrite with zlen.
    replace (zlen front + (zlen ib + (zlen (i_data i) + zlen fill))) with (zlen front + n) by lia.
    split_and!; [by rewrite <- !app_assoc | lia | done | lia | lia |].
    unfold spa_ringbuffer_read_update. simpl. by rewrite u32_small by (unfold is_u32; lia).
  - simpl in Hfuel |- *. lia.
  - simpl in Hrun. exists impl'. split; [exact Hrun |]. simpl in Hrep |- *. unfold it in Hcall. cbn in Hcall. unfold Spec.run at 2. rewrite <- Hc, Hcall. exact Hrep.
Qed.

Lemma wakeup_ok fuel impl q : represents impl q -> (length (Spec.pending q) <= fuel)%nat ->
  exists impl', event_func call fuel impl = Done impl' /\ represents impl' (Spec.wakeup call q).
Proof.
  intros Hrep Hfuel. unfold event_func, Spec.wakeup. rewrite (rp_event _ _ Hrep).
  destruct (Spec.signalled q); [| by exists impl]. destruct Hrep as [Hp He Hc Hok].
  apply (event_loop_ok fuel (mkLoop (buffer impl) (buffer_data impl) false (client impl))
    (Spec.mk (Spec.pending q) (Spec.bytes_pending q) (Spec.used q) false (Spec.state q))); [by split | done].
Qed.

Lemma invoke_ok impl q th i res q' : represents impl q -> invocation_ok i -> Spec.invoke call th i q = Some (res, q') ->
  exists impl', loop_invoke call th (i_func i) (i_seq i) (i_data i) (i_user i) impl = Done (res, impl') /\ represents impl' q'.
Proof.
  intros Hrep Hi. unfold Spec.invoke. destruct th.
  - unfold loop_invoke, Spec.run. rewrite (rp_client _ _ Hrep). destruct (call _ _ _ _ _ _) as [r s]. intros [= <- <-].
    eexists. split; [done |]. by destruct Hrep.
  - destruct (Z.ltb_spec (32768 - Spec.bytes_pending q) 48) as [Hroom|Hroom].
    + intros [= <- <-]. rewrite (invoke_full _ _ _ Hrep) by done. by eexists.
    + case_if; [| done]. intros [= <- <-]. by apply invoke_fits.
Qed.

(** Items are at least a header long: a pass has at most 682 of them. *)
Lemma body_length off l b : body off l b -> 48 * zlen l <= zlen b.
Proof.
  induction 1 as [|off i l pad fill b n Hp Hn Hb IH]; [done |].
  autorewrite with zlen. rewrite zlen_item_bytes by done. zlen_pose. lia.
Qed.

Lemma pending_bound impl q : represents impl q -> (length (Spec.pending q) <= 682)%nat.
Proof.
  intros [(front & b & tail & Hm & Hlen & Hb & _) _ _ _]. apply body_length in Hb. rewrite Hm in Hlen.
  autorewrite with zlen in Hlen. zlen_pose. unfold zlen in *. lia.
Qed.

Lemma events_ok fuel evs impl q l q' : (682 <= fuel)%nat -> represents impl q ->
  Forall (fun e => match e with Invoke _ i => invocation_ok i | Wakeup => True end) evs ->
  spec_events call evs q = Some (l, q') ->
  exists impl', run_events call fuel evs impl = Done (l, impl') /\ represents impl' q'.
Proof.
  intros Hfuel. revert impl q l. induction evs as [|e evs IH]; intros impl q l Hrep Hok Hs; simpl in *.
  { injection Hs as <- <-. by exists impl. }
  apply Forall_cons in Hok as [Hi Hok]. destruct e as [th i|]; simpl.
  - destruct (Spec.invoke call th i q) as [[res q1]|] eqn:Hinv; [| done]. simpl in Hs.
    destruct (spec_events call evs q1) as [[l1 q2]|] eqn:Hl; [| done]. simpl in Hs. injection Hs as <- <-.
    destruct (invoke_ok _ _ _ _ _ _ Hrep Hi Hinv) as (impl1 & -> & Hrep1).
    destruct (IH _ _ _ Hrep1 Hok Hl) as (impl' & Hrun & Hrep'). simpl. rewrite Hrun. by exists impl'.
  - destruct (spec_events call evs (Spec.wakeup call q)) as [[l1 q2]|] eqn:Hl; [| done]. simpl in Hs. injection Hs as <- <-.
    destruct (wakeup_ok fuel _ _ Hrep) as (impl1 & -> & Hrep1); [apply pending_bound in Hrep; lia |].
    destruct (IH _ _ _ Hrep1 Hok Hl) as (impl' & Hrun & Hrep'). simpl. rewrite Hrun. by exists impl'.
Qed.

Lemma loop_new_ok data s : zlen data = 32768 -> represents (pinos_loop_new data s) (Spec.mk [] 0 0 false s).
Proof.
  intros Hd. split; try done. exists [], [], data. split_and!; try done. constructor.
Qed.
End Represents.

(** ** Properties *)

(** C32: As long as the items of a pass over the ring fit into it, every function
    invoked from another thread runs exactly once, in order, in the loop's thread,
    with the arguments and the data it was given, at the next wakeup; a full queue
    is refused; and 682 turns are enough to empty it. *)
Theorem invoke_fifo {S} (call : Z -> bool -> Z -> bytes -> Z -> S -> Z * S) fuel data s evs replies q :
  zlen data = DATAS_SIZE -> (682 <= fuel)%nat ->
  Forall (fun e => match e with Invoke _ i => invocation_ok i | Wakeup => True end) evs ->
  spec_events call evs (Spec.mk [] 0 0 false s) = Some (replies, q) ->
  exists impl, run_events call fuel evs (pinos_loop_new data s) = Done (replies, impl) /\
    client impl = Spec.state q /\ event impl = Spec.signalled q.
Proof.
  intros Hd Hfuel Hok Hs.
  destruct (events_ok call fuel evs _ _ _ _ Hfuel (loop_new_ok data s Hd) Hok Hs) as (impl & Hrun & Hrep).
  exists impl. split; [done |]. split; [apply (rp_client _ _ Hrep) | apply (rp_event _ _ Hrep)].
Qed.

(** C33: The first item that does not fit behind the ones of the pass is written past
    the end of the buffer, although the queue has room for a header and was perhaps
    emptied before: [l0], the room up to the end, is computed as [size - l0] from a
    sum that already contains the free space. *)
Theorem invoke_overflow {S} (call : Z -> bool -> Z -> bytes -> Z -> S -> Z * S) fuel data s evs replies q i :
  zlen data = DATAS_SIZE -> (682 <= fuel)%nat ->
  Forall (fun e => match e with Invoke _ i => invocation_ok i | Wakeup => True end) evs ->
  spec_events call evs (Spec.mk [] 0 0 false s) = Some (replies, q) ->
  Spec.used q < DATAS_SIZE < Spec.used q + inv_size i -> inv_size i < DATAS_SIZE ->
  sizeof_InvokeItem <= DATAS_SIZE - Spec.bytes_pending q ->
  exists impl, run_events call fuel evs (pinos_loop_new data s) = Done (replies, impl) /\
    loop_invoke call false (i_func i) (i_seq i) (i_data i) (i_user i) impl = Undef.
Proof.
  intros Hd Hfuel Hok Hs [Hu Hp] Hsmall Hroom.
  destruct (events_ok call fuel evs _ _ _ _ Hfuel (loop_new_ok data s Hd) Hok Hs) as (impl & Hrun & Hrep).
  exists impl. split; [done |]. by apply (invoke_past call impl q).
Qed.

(** ** Instances *)

Definition zeros : bytes := replicate (Z.to_nat DATAS_SIZE) 0.
Definition fives : bytes := replicate (Z.to_nat 32000) 5.

Lemma zlen_zero_block : zlen zeros = DATAS_SIZE.
Proof. unfold zeros. by rewrite zlen_replicate, Z2Nat.id. Qed.

(** A function that logs what it is called with: itself and a sum over the data. *)
Definition logging (func : Z) (async : bool) (seq : Z) (data : bytes) (user : Z) (log : list (Z * Z)) : Z * list (Z * Z) :=
  (0, log ++ [(func, foldr Z.add 0 data)]).

Definition sample_events : list event_kind :=
  [Invoke false (mkInv 1 7 [10; 11] 0); Invoke false (mkInv 2 SPA_ID_INVALID [] 0); Wakeup; Invoke true (mkInv 3 0 [12] 0)].

Lemma sample_events_ok : Forall (fun e => match e with Invoke _ i => invocation_ok i | Wakeup => True end) sample_events.
Proof. unfold sample_events, SPA_ID_INVALID, invocation_ok, is_u64, is_u32. repeat (apply Forall_cons; split; [simpl; lia |]). by apply Forall_nil. Qed.

Lemma invoke_fifo_witness :
  exists impl, run_events logging 682 sample_events (pinos_loop_new zeros []) =
    Done ([SPA_RESULT_RETURN_ASYNC 7; SPA_RESULT_OK; 0; 0], impl) /\
  client impl = [(1, 21); (2, 0); (3, 12)].
Proof.
  destruct (invoke_fifo logging 682 zeros [] sample_events
    [SPA_RESULT_RETURN_ASYNC 7; SPA_RESULT_OK; 0; 0] (Spec.mk [] 0 98 false [(1, 21); (2, 0); (3, 12)])
    zlen_zero_block (le_n _) sample_events_ok eq_refl) as (impl & Hrun & Hc & _).
  exact (ex_intro _ impl (conj Hrun Hc)).
Defined.

Definition big : list event_kind := [Invoke false (mkInv 1 0 (fives) 0); Wakeup].

Lemma invoke_overflow_witness :
  exists impl, run_events logging 682 big (pinos_loop_new zeros []) = Done ([SPA_RESULT_RETURN_ASYNC 0; 0], impl) /\
    loop_invoke logging false 2 0 (replicate 1000 6) 0 impl = Undef.
Proof.
  apply (invoke_overflow logging 682 zeros [] big [SPA_RESULT_RETURN_ASYNC 0; 0]
    (Spec.mk [] 0 32048 false [(1, 160000)]) (mkInv 2 0 (replicate 1000 6) 0)).
  - exact zlen_zero_block.
  - done.
  - unfold big, invocation_ok, is_u64, is_u32. repeat (apply Forall_cons; split; [simpl; lia |]). by apply Forall_nil.
  - vm_compute. reflexivity.
  - vm_compute. split; reflexivity.
  - vm_compute. reflexivity.
  - vm_compute. discriminate.
Defined.
