(* ===== verification/Pod.v ===== *)
(** [spa/include/spa/pod.h], [pod-builder.h] and [pod-iter.h]: the wire format of
    plain-old-data values, its builder and its iterator.

    Memory is a list of bytes, little-endian as on the supported targets. The
    builder writes through the interface [PodWriter]: appending at the current
    offset and patching a header already written. Its instances are the fixed
    buffer below and the connection buffer of [Protocol]. The iterator reads
    memory with explicit bounds: a read outside the object is [Undef].

    Variadic calls are lists of [arg]: one constructor per case of the switch in
    [spa_pod_builder_addv], carrying the operands that case takes from the
    [va_list]; the end of the list is the terminating 0. *)
From S2P Require Import Prelude Defs.

(** ** Types *)

Definition SPA_POD_TYPE_INVALID : Z := 0.
Definition SPA_POD_TYPE_NONE : Z := 1.
Definition SPA_POD_TYPE_BOOL : Z := 2.
Definition SPA_POD_TYPE_ID : Z := 3.
Definition SPA_POD_TYPE_INT : Z := 4.
Definition SPA_POD_TYPE_LONG : Z := 5.
Definition SPA_POD_TYPE_FLOAT : Z := 6.
Definition SPA_POD_TYPE_DOUBLE : Z := 7.
Definition SPA_POD_TYPE_STRING : Z := 8.
Definition SPA_POD_TYPE_BYTES : Z := 9.
Definition SPA_POD_TYPE_POINTER : Z := 10.
Definition SPA_POD_TYPE_RECTANGLE : Z := 11.
Definition SPA_POD_TYPE_FRACTION : Z := 12.
Definition SPA_POD_TYPE_BITMASK : Z := 13.
Definition SPA_POD_TYPE_ARRAY : Z := 14.
Definition SPA_POD_TYPE_STRUCT : Z := 15.
Definition SPA_POD_TYPE_OBJECT : Z := 16.
Definition SPA_POD_TYPE_PROP : Z := 17.
Definition SPA_POD_TYPE_POD : Z := 18.

Definition zeros (n : Z) : bytes := replicate (Z.to_nat n) 0.

(** The 8-byte [SpaPOD] header. *)
Definition pod_header (size type : Z) : bytes := le32 size ++ le32 type.

(** A whole value with the padding that follows it in a container. *)
Definition pad8 (n : Z) : Z := round8 n - n.
Definition enc_pod (type : Z) (body : bytes) : bytes :=
  pod_header (zlen body) type ++ body ++ zeros (pad8 (zlen body)).

(** ** The builder *)

(** The destination of a builder: [pw_append w offset data] writes [data] at the
    end and gives the reference of the write ([0xffffffff] when it does not fit);
    [pw_patch w offset ref data] overwrites at [ref] ([offset] is the end). *)
Class PodWriter (W : Type) := {
  pw_append : W -> Z -> bytes -> outcome (W * Z);
  pw_patch : W -> Z -> Z -> bytes -> outcome W
}.

Record SpaPODFrame := mkFrame { f_id : nat; f_size : Z; f_type : Z; f_ref : Z }.

Record SpaPODBuilder (W : Type) := mkBuilder {
  bw : W; offset : Z; stack : list SpaPODFrame; in_array : bool; first : bool }.
Arguments mkBuilder {W}.
Arguments bw {W}.
Arguments offset {W}.
Arguments stack {W}.
Arguments in_array {W}.
Arguments first {W}.

Definition ref_invalid : Z := 4294967295. (* (uint32_t) -1 *)

Definition frame_grow (size : Z) (f : SpaPODFrame) : SpaPODFrame :=
  mkFrame (f_id f) (u32 (f_size f + size)) (f_type f) (f_ref f).

Definition is_array_type (type : Z) : bool :=
  (type =? SPA_POD_TYPE_ARRAY) || (type =? SPA_POD_TYPE_PROP).

(** The operands of one variadic value. Bytes and lengths are passed as the bytes
    they delimit; [PFloat] and [PDouble] carry the bit pattern; the pointer cases
    of rectangle and fraction put the same bytes on the wire as the value cases;
    [hole] is the padding of [SpaPODPointerBody], whatever it holds. *)
Inductive prim :=
| PBool (v : Z)
| PId (v : Z)
| PInt (v : Z)
| PLong (v : Z)
| PFloat (bits : Z)
| PDouble (bits : Z)
| PString (s : option bytes)
| PStringLen (d : bytes)
| PBytes (d : bytes)
| PPointer (type hole ptr : Z)
| PRectangle (width height : Z)
| PFraction (num denom : Z).

Inductive arg :=
| ANone
| ABitmask
| APrim (p : prim)
| AArray (f : nat) (vals : list prim)
| AStruct (f : nat)
| AObject (f : nat) (id type : Z)
| AProp (f : nat) (key flags : Z) (vals : list prim)
| APop (f : nat)
| APod (pod : option bytes).

Definition prim_type (p : prim) : Z :=
  match p with
  | PBool _ => SPA_POD_TYPE_BOOL
  | PId _ => SPA_POD_TYPE_ID
  | PInt _ => SPA_POD_TYPE_INT
  | PLong _ => SPA_POD_TYPE_LONG
  | PFloat _ => SPA_POD_TYPE_FLOAT
  | PDouble _ => SPA_POD_TYPE_DOUBLE
  | PString _ | PStringLen _ => SPA_POD_TYPE_STRING
  | PBytes _ => SPA_POD_TYPE_BYTES
  | PPointer _ _ _ => SPA_POD_TYPE_POINTER
  | PRectangle _ _ => SPA_POD_TYPE_RECTANGLE
  | PFraction _ _ => SPA_POD_TYPE_FRACTION
  end.

(** [PLong] writes [sizeof (uint32_t)] bytes of the 64-bit value, as the code does. *)
Definition prim_body (p : prim) : bytes :=
  match p with
  | PBool v | PId v | PInt v => le32 v
  | PLong v => take 4 (le64 v)
  | PFloat b => le32 b
  | PDouble b => le64 b
  | PString (Some s) => s ++ [0]
  | PString None => [0]
  | PStringLen d | PBytes d => d
  | PPointer t h p => le32 t ++ le32 h ++ le64 p
  | PRectangle w h => le32 w ++ le32 h
  | PFraction n d => le32 n ++ le32 d
  end.

(** [SPA_POD_SIZE] and the type of a value in memory. *)
Definition pod_size_at (p : Z) (m : bytes) : outcome Z := of_option (Z.add 8 <$> load32 p m).
Definition pod_type_at (p : Z) (m : bytes) : outcome Z := of_option (load32 (p + 4) m).

Section Builder.
Context {W : Type} `{PodWriter W}.
Local Abbreviation builder := (SpaPODBuilder W).

Definition spa_pod_builder_init (w : W) : builder := mkBuilder w 0 [] false false.

Definition spa_pod_builder_push (b : builder) (fid : nat) (size type ref : Z) : builder :=
  let arr := is_array_type type in
  mkBuilder (bw b) (offset b) (mkFrame fid size type ref :: stack b) arr arr.

Definition spa_pod_builder_raw (b : builder) (data : bytes) : outcome (builder * Z) :=
  let* (w, ref) := pw_append (bw b) (offset b) data in
  let size := zlen data in
  Done (mkBuilder w (u32 (offset b + size)) (frame_grow size <$> stack b) (in_array b) (first b), ref).

Definition spa_pod_builder_pad (b : builder) (size : Z) : outcome builder :=
  let size := u32 (u32 (SPA_ROUND_UP_N size 8) - size) in
  if size =? 0 then Done b
  else let* (b, _) := spa_pod_builder_raw b (zeros size) in Done b.

Definition spa_pod_builder_raw_padded (b : builder) (data : bytes) : outcome (builder * Z) :=
  let* (b, ref) := if zlen data =? 0 then Done (b, ref_invalid) else spa_pod_builder_raw b data in
  let* b := spa_pod_builder_pad b (zlen data) in
  Done (b, ref).

Fixpoint find_frame (fid : nat) (st : list SpaPODFrame) : option (SpaPODFrame * list SpaPODFrame) :=
  match st with
  | [] => None
  | f :: st' => if decide (f_id f = fid) then Some (f, st') else find_frame fid st'
  end.

(** Popping a frame that is not open reads a stale parent pointer: [Undef]. *)
Definition spa_pod_builder_pop (b : builder) (fid : nat) : outcome builder :=
  let* (frame, parents) := of_option (find_frame fid (stack b)) in
  let* w := if f_ref frame =? ref_invalid then Done (bw b)
            else pw_patch (bw b) (offset b) (f_ref frame) (pod_header (f_size frame) (f_type frame)) in
  let arr := match parents with [] => false | f :: _ => is_array_type (f_type f) end in
  let b := mkBuilder w (offset b) parents arr (first b) in
  spa_pod_builder_pad b (offset b).

(** [p] as its type and body; its [SPA_POD_SIZE] bytes are the header and the body. *)
Definition spa_pod_builder_primitive (b : builder) (type : Z) (body : bytes) : outcome (builder * Z) :=
  let bare := in_array b && negb (first b) in
  let data := if bare then body else pod_header (zlen body) type ++ body in
  let b := if bare then b else mkBuilder (bw b) (offset b) (stack b) (in_array b) false in
  let* (b, ref) := spa_pod_builder_raw b data in
  let* b := if in_array b then Done b else spa_pod_builder_pad b (zlen data) in
  Done (b, ref).

Definition spa_pod_builder_bool (b : builder) (v : bool) :=
  spa_pod_builder_primitive b SPA_POD_TYPE_BOOL (le32 (if v then 1 else 0)).
Definition spa_pod_builder_id (b : builder) (v : Z) := spa_pod_builder_primitive b SPA_POD_TYPE_ID (le32 v).
Definition spa_pod_builder_int (b : builder) (v : Z) := spa_pod_builder_primitive b SPA_POD_TYPE_INT (le32 v).
Definition spa_pod_builder_long (b : builder) (v : Z) := spa_pod_builder_primitive b SPA_POD_TYPE_LONG (le64 v).
Definition spa_pod_builder_double (b : builder) (bits : Z) :=
  spa_pod_builder_primitive b SPA_POD_TYPE_DOUBLE (le64 bits).
Definition spa_pod_builder_rectangle (b : builder) (w h : Z) :=
  spa_pod_builder_primitive b SPA_POD_TYPE_RECTANGLE (le32 w ++ le32 h).
Definition spa_pod_builder_fraction (b : builder) (n d : Z) :=
  spa_pod_builder_primitive b SPA_POD_TYPE_FRACTION (le32 n ++ le32 d).

(** The first [len] bytes at [str]. *)
Definition spa_pod_builder_string_len (b : builder) (str : bytes) : outcome (builder * Z) :=
  let* (b, ref) := spa_pod_builder_raw b (pod_header (zlen str) SPA_POD_TYPE_STRING) in
  let* (b, r) := spa_pod_builder_raw_padded b str in
  Done (b, if r =? ref_invalid then ref_invalid else ref).

Definition spa_pod_builder_string (b : builder) (str : option bytes) : outcome (builder * Z) :=
  spa_pod_builder_string_len b (default [] str ++ [0]).

Definition spa_pod_builder_bytes (b : builder) (d : bytes) : outcome (builder * Z) :=
  let* (b, ref) := spa_pod_builder_raw b (pod_header (zlen d) SPA_POD_TYPE_BYTES) in
  let* (b, r) := spa_pod_builder_raw_padded b d in
  Done (b, if r =? ref_invalid then ref_invalid else ref).

Definition spa_pod_builder_float (b : builder) (bits : Z) :=
  spa_pod_builder_primitive b SPA_POD_TYPE_FLOAT (le32 bits).
Definition spa_pod_builder_pointer (b : builder) (type hole ptr : Z) :=
  spa_pod_builder_primitive b SPA_POD_TYPE_POINTER (le32 type ++ le32 hole ++ le64 ptr).

Definition spa_pod_builder_push_array (b : builder) (fid : nat) : outcome builder :=
  let* (b, ref) := spa_pod_builder_raw b (pod_header 0 SPA_POD_TYPE_ARRAY) in
  Done (spa_pod_builder_push b fid 0 SPA_POD_TYPE_ARRAY ref).

(** [elems] is the memory of the [n_elems] elements of [child_size] bytes. *)
Definition spa_pod_builder_array (b : builder) (child_size child_type n_elems : Z) (elems : bytes) :
    outcome (builder * Z) :=
  let* data := of_option (mread 0 (u32 (child_size * n_elems)) elems) in
  let* (b, ref) := spa_pod_builder_raw b
    (pod_header (8 + n_elems * child_size) SPA_POD_TYPE_ARRAY ++ pod_header child_size child_type) in
  let* (b, r) := spa_pod_builder_raw_padded b data in
  Done (b, if r =? ref_invalid then ref_invalid else ref).

Definition spa_pod_builder_push_struct (b : builder) (fid : nat) : outcome builder :=
  let* (b, ref) := spa_pod_builder_raw b (pod_header 0 SPA_POD_TYPE_STRUCT) in
  Done (spa_pod_builder_push b fid 0 SPA_POD_TYPE_STRUCT ref).

Definition spa_pod_builder_push_object (b : builder) (fid : nat) (id type : Z) : outcome builder :=
  let* (b, ref) := spa_pod_builder_raw b (pod_header 8 SPA_POD_TYPE_OBJECT ++ le32 id ++ le32 type) in
  Done (spa_pod_builder_push b fid 8 SPA_POD_TYPE_OBJECT ref).

Definition spa_pod_builder_push_prop (b : builder) (fid : nat) (key flags : Z) : outcome builder :=
  let* (b, ref) := spa_pod_builder_raw b (pod_header 8 SPA_POD_TYPE_PROP ++ le32 key ++ le32 flags) in
  Done (spa_pod_builder_push b fid 8 SPA_POD_TYPE_PROP ref).

(** The [for (i = 0; i < n_sizes; i++)] loop over the pieces of one value. *)
Fixpoint raw_pieces (b : builder) (ds : list bytes) : outcome builder :=
  match ds with
  | [] => Done b
  | d :: ds' => let* (b, _) := spa_pod_builder_raw b d in raw_pieces b ds'
  end.

Definition body_pieces (b : builder) (body : bytes) : list bytes :=
  if in_array b then [body] else [body; zeros (u32 (u32 (SPA_ROUND_UP_N (zlen body) 8) - zlen body))].

Definition with_first (b : builder) (v : bool) : builder :=
  mkBuilder (bw b) (offset b) (stack b) (in_array b) v.

(** Label [primitive] with a body. *)
Definition addv_prim (b : builder) (p : prim) : outcome builder :=
  let body := prim_body p in
  if negb (in_array b) || first b
  then raw_pieces (with_first b false) (pod_header (zlen body) (prim_type p) :: body_pieces b body)
  else raw_pieces b (body_pieces b body).

(** Label [primitive] without a body: only a head, which is pushed as frame [fid]. *)
Definition addv_frame (b : builder) (fid : nat) (size type : Z) (rest : bytes) : outcome builder :=
  if negb (in_array b) || first b then
    let* (b, ref) := spa_pod_builder_raw (with_first b false) (pod_header size type ++ rest) in
    Done (spa_pod_builder_push b fid size type ref)
  else Done b.

Fixpoint addv_prims (b : builder) (ps : list prim) : outcome builder :=
  match ps with
  | [] => Done b
  | p :: ps' => let* b := addv_prim b p in addv_prims b ps'
  end.

(** One pass of the [while] loop (with the [n_values] passes of an array or a
    property). Label [extra] for [APod]: [NULL] becomes an empty [None] value. *)
Definition addv_step (b : builder) (a : arg) : outcome builder :=
  match a with
  | ANone | ABitmask => Done b
  | APrim p => addv_prim b p
  | AArray f vals => let* b := addv_frame b f 0 SPA_POD_TYPE_ARRAY [] in addv_prims b vals
  | AStruct f => addv_frame b f 0 SPA_POD_TYPE_STRUCT []
  | AObject f id type => addv_frame b f 8 SPA_POD_TYPE_OBJECT (le32 id ++ le32 type)
  | AProp f key flags vals =>
      let* b := addv_frame b f 8 SPA_POD_TYPE_PROP (le32 key ++ le32 flags) in addv_prims b vals
  | APop f => spa_pod_builder_pop b f
  | APod None => raw_pieces b (body_pieces b (pod_header 0 SPA_POD_TYPE_NONE))
  | APod (Some pod) =>
      let* size := pod_size_at 0 pod in
      let* body := of_option (mread 0 (u32 size) pod) in
      raw_pieces b (body_pieces b body)
  end.

Fixpoint spa_pod_builder_addv (b : builder) (args : list arg) : outcome builder :=
  match args with
  | [] => Done b
  | a :: args' => let* b := addv_step b a in spa_pod_builder_addv b args'
  end.
End Builder.

(** ** The fixed buffer: [builder->write == NULL] *)

Record Fixed := mkFixed { fixed_data : bytes; fixed_size : Z }.

Definition fixed_append (w : Fixed) (ref : Z) (data : bytes) : outcome (Fixed * Z) :=
  if u32 (ref + zlen data) >? fixed_size w then Done (w, ref_invalid)
  else let* d := of_option (mwrite ref data (fixed_data w)) in Done (mkFixed d (fixed_size w), ref).

Definition fixed_patch (w : Fixed) (_ ref : Z) (data : bytes) : outcome Fixed :=
  let* d := of_option (mwrite ref data (fixed_data w)) in Done (mkFixed d (fixed_size w)).

#[export] Instance Fixed_writer : PodWriter Fixed := {
  pw_append := fixed_append;
  pw_patch := fixed_patch
}.

(** ** The iterator *)

(** [it_mem] is the memory from the [data] pointer on. *)
Record SpaPODIter := mkIter { it_mem : bytes; it_size : Z; it_offset : Z }.

Definition spa_pod_iter_contents (data : bytes) (size : Z) : SpaPODIter := mkIter data size 0.

Definition spa_pod_iter_struct (data : bytes) (size : Z) : outcome SpaPODIter :=
  if size <? 8 then Refuse else
  let* psize := pod_size_at 0 data in
  if psize >? size then Refuse else
  let* type := pod_type_at 0 data in
  if type =? SPA_POD_TYPE_STRUCT then Done (spa_pod_iter_contents (drop 8 data) (u32 (psize - 8)))
  else Refuse.

Definition spa_pod_iter_object (data : bytes) (size : Z) : outcome SpaPODIter :=
  let* psize := pod_size_at 0 data in
  if psize >? size then Refuse else
  let* type := pod_type_at 0 data in
  if type =? SPA_POD_TYPE_OBJECT then Done (spa_pod_iter_contents (drop 16 data) (u32 (psize - 16)))
  else Refuse.

Definition spa_pod_iter_pod (p : Z) (m : bytes) : outcome SpaPODIter :=
  let* type := pod_type_at p m in
  let* psize := pod_size_at p m in
  if type =? SPA_POD_TYPE_STRUCT
  then Done (spa_pod_iter_contents (drop (Z.to_nat (p + 8)) m) (u32 (psize - 8)))
  else if type =? SPA_POD_TYPE_OBJECT
  then Done (spa_pod_iter_contents (drop (Z.to_nat (p + 16)) m) (u32 (psize - 16)))
  else Refuse.

Definition spa_pod_iter_has_next (it : SpaPODIter) : outcome bool :=
  if u32 (it_offset it + 8) <=? it_size it then
    let* psize := pod_size_at (it_offset it) (it_mem it) in
    Done (psize <=? it_size it)
  else Done false.

Definition spa_pod_iter_next (it : SpaPODIter) : outcome (Z * SpaPODIter) :=
  let res := it_offset it in
  let* psize := pod_size_at res (it_mem it) in
  Done (res, mkIter (it_mem it) (it_size it) (u32 (it_offset it + SPA_ROUND_UP_N psize 8))).

(** [NULL] is [Refuse]. *)
Definition spa_pod_iter_first (p : Z) (m : bytes) : outcome (Z * SpaPODIter) :=
  let* it := spa_pod_iter_pod p m in
  let* b := spa_pod_iter_has_next it in
  if b then spa_pod_iter_next it else Refuse.
