(* ===== verification/PodUtils.v ===== *)
(** [spa/include/spa/pod-utils.h] and the collecting half of [pod-iter.h]:
    reading typed values out of memory, the reader monad of the demarshallers,
    and property lookup. *)
From S2P Require Import Prelude Defs Pod.

(** A C string read at the start of [m]: [None] when no NUL is found inside [m]. *)
Fixpoint cstr (m : bytes) : option bytes :=
  match m with
  | [] => None
  | b :: r => if b =? 0 then Some [] else cons b <$> cstr r
  end.

Definition mem_from (p : Z) (m : bytes) : bytes := drop (Z.to_nat p) m.

(** What [SPA_POD_COLLECT] stores through the caller's pointers. Offsets are into
    the memory the value was found in; [GStrCopy] is the source of the [strncpy]. *)
Inductive got :=
| GI32 (v : Z)
| GI64 (v : Z)
| GF32 (bits : Z)
| GF64 (bits : Z)
| GPtr (p : Z)
| GStrCopy (p : Z)
| GBytes (p size : Z)
| GPointer (v : Z)
| GRectangle (width height : Z)
| GFraction (num denom : Z)
| GPod (p : Z)
| GNull.

(** The value of a pod of type [type], read at [p]. [type] is the type asked for;
    the negative types are the optional containers and the string copy. *)
Definition collect_value (m : bytes) (p type : Z) : outcome got :=
  if (type =? SPA_POD_TYPE_BOOL) || (type =? SPA_POD_TYPE_ID) || (type =? SPA_POD_TYPE_INT) then
    let* v := of_option (load32 (p + 8) m) in Done (GI32 v)
  else if type =? SPA_POD_TYPE_LONG then
    let* v := of_option (load64 (p + 8) m) in Done (GI64 v)
  else if type =? SPA_POD_TYPE_FLOAT then
    let* v := of_option (load32 (p + 8) m) in Done (GF32 v)
  else if type =? SPA_POD_TYPE_DOUBLE then
    let* v := of_option (load64 (p + 8) m) in Done (GF64 v)
  else if type =? SPA_POD_TYPE_STRING then Done (GPtr (p + 8))
  else if type =? - SPA_POD_TYPE_STRING then Done (GStrCopy (p + 8))
  else if type =? SPA_POD_TYPE_BYTES then
    let* s := of_option (load32 p m) in Done (GBytes (p + 8) s)
  else if type =? SPA_POD_TYPE_POINTER then
    let* v := of_option (load64 (p + 16) m) in Done (GPointer v)
  else if type =? SPA_POD_TYPE_RECTANGLE then
    let* w := of_option (load32 (p + 8) m) in
    let* h := of_option (load32 (p + 12) m) in Done (GRectangle w h)
  else if type =? SPA_POD_TYPE_FRACTION then
    let* n := of_option (load32 (p + 8) m) in
    let* d := of_option (load32 (p + 12) m) in Done (GFraction n d)
  else if type =? SPA_POD_TYPE_BITMASK then Done (GPtr (p + 8))
  else if (SPA_POD_TYPE_ARRAY <=? Z.abs type) && (Z.abs type <=? SPA_POD_TYPE_PROP) then Done (GPod p)
  else Refuse.

Definition is_optional_type (type : Z) : bool :=
  (type =? - SPA_POD_TYPE_ARRAY) || (type =? - SPA_POD_TYPE_STRUCT) ||
  (type =? - SPA_POD_TYPE_OBJECT) || (type =? - SPA_POD_TYPE_PROP).

Definition SPA_POD_COLLECT (m : bytes) (p type : Z) : outcome got :=
  if type =? SPA_POD_TYPE_POD then Done (GPod p) else
  let* ptype := pod_type_at p m in
  if ptype =? SPA_POD_TYPE_NONE then (if is_optional_type type then Done GNull else Refuse)
  else if (ptype =? type) || (ptype =? - type) then collect_value m p type
  else Refuse.

(** ** The reader monad *)

Definition M (A : Type) : Type := SpaPODIter -> outcome (A * SpaPODIter).
Definition mret {A} (a : A) : M A := fun it => Done (a, it).
Definition mbind {A B} (m : M A) (f : A -> M B) : M B :=
  fun it => let* (a, it) := m it in f a it.
Definition mlift {A} (o : outcome A) : M A := fun it => let* a := o in Done (a, it).

Declare Scope reader_scope.
Delimit Scope reader_scope with reader.
Notation "x <- m ;; k" := (mbind m (fun x => k))
  (at level 100, m at next level, right associativity) : reader_scope.
Notation "' pat <- m ;; k" := (mbind m (fun x => match x with pat => k end))
  (at level 100, pat pattern, m at next level, right associativity) : reader_scope.

(** One turn of [spa_pod_iter_getv]. *)
Definition iter_get (type : Z) : M got := fun it =>
  let* more := spa_pod_iter_has_next it in
  if more then
    let* (p, it) := spa_pod_iter_next it in
    let* g := SPA_POD_COLLECT (it_mem it) p type in
    Done (g, it)
  else Refuse.

Fixpoint spa_pod_iter_getv (types : list Z) : M (list got) :=
  match types with
  | [] => mret []
  | t :: ts => fun it => let* (g, it) := iter_get t it in
                         let* (gs, it) := spa_pod_iter_getv ts it in Done (g :: gs, it)
  end.

(** The typed reads of the demarshallers: the value the variable holds afterwards,
    with strings and objects followed to the memory they point to. *)
Definition get_int : M Z := fun it =>
  let* (g, it) := iter_get SPA_POD_TYPE_INT it in
  match g with GI32 v => Done (v, it) | _ => Undef end.
Definition get_id : M Z := fun it =>
  let* (g, it) := iter_get SPA_POD_TYPE_ID it in
  match g with GI32 v => Done (v, it) | _ => Undef end.
Definition get_long : M Z := fun it =>
  let* (g, it) := iter_get SPA_POD_TYPE_LONG it in
  match g with GI64 v => Done (v, it) | _ => Undef end.
Definition get_string : M bytes := fun it =>
  let* (g, it) := iter_get SPA_POD_TYPE_STRING it in
  match g with
  | GPtr p => let* s := of_option (cstr (mem_from p (it_mem it))) in Done (s, it)
  | _ => Undef
  end.
Definition get_bytes : M bytes := fun it =>
  let* (g, it) := iter_get SPA_POD_TYPE_BYTES it in
  match g with
  | GBytes p n => let* d := of_option (mread p n (it_mem it)) in Done (d, it)
  | _ => Undef
  end.
Definition pod_bytes (p : Z) (m : bytes) : outcome bytes :=
  let* size := pod_size_at p m in of_option (mread p size m).
Definition get_pod (type : Z) : M (option bytes) := fun it =>
  let* (g, it) := iter_get type it in
  match g with
  | GPod p => let* d := pod_bytes p (it_mem it) in Done (Some d, it)
  | GNull => Done (None, it)
  | _ => Undef
  end.
Definition get_object : M bytes := fun it =>
  let* (o, it) := get_pod SPA_POD_TYPE_OBJECT it in
  match o with Some d => Done (d, it) | None => Undef end.

(** [for (i = 0; i < n; i++)] around a read. *)
Fixpoint get_n {A} (n : nat) (m : M A) : M (list A) :=
  match n with
  | O => mret []
  | S n' => mbind m (fun a => mbind (get_n n' m) (fun l => mret (a :: l)))
  end.

(** ** Property lookup *)

(** [SPA_POD_FOREACH] from [iter] while [iter < last], stopping at a property with
    this key. Each turn advances by at least 8 bytes, so as many turns as there
    are bytes are enough: running further reads outside the memory. *)
Fixpoint foreach_find (fuel : nat) (m : bytes) (iter last key : Z) : outcome (option Z) :=
  if iter <? last then
    match fuel with
    | O => Undef
    | S fuel' =>
        let* type := pod_type_at iter m in
        let* k := if type =? SPA_POD_TYPE_PROP then of_option (load32 (iter + 8) m) else Done key in
        if (type =? SPA_POD_TYPE_PROP) && (k =? key) then Done (Some iter)
        else let* size := pod_size_at iter m in
             foreach_find fuel' m (iter + SPA_ROUND_UP_N size 8) last key
    end
  else Done None.

Definition spa_pod_contents_find_prop (m : bytes) (pod offset key : Z) : outcome (option Z) :=
  let* size := pod_size_at pod m in
  foreach_find (length m) m (pod + offset) (pod + offset + size) key.

Definition spa_pod_object_find_prop (m : bytes) (obj key : Z) : outcome (option Z) :=
  spa_pod_contents_find_prop m obj 16 key.

Definition SPA_POD_PROP_FLAG_UNSET : Z := 16.

(** One (key, type) pair: what it stores, if anything. When the value has another type the
    destination stays unread among the arguments, and is then taken for the next key:
    reading a pointer as a [uint32_t] is undefined. *)
Definition query_one (m : bytes) (pod offset key type : Z) : outcome (option got) :=
  let* prop := spa_pod_contents_find_prop m pod offset key in
  match prop with
  | None => Done None
  | Some p =>
      let* flags := of_option (load32 (p + 12) m) in
      if Z.land flags SPA_POD_PROP_FLAG_UNSET =? 0 then
        match SPA_POD_COLLECT m (p + 16) type with
        | Done g => Done (Some g)
        | Refuse | Undef => Undef
        end
      else Done None
  end.

(** The count is the number of keys that stored something. *)
Fixpoint spa_pod_contents_queryv (m : bytes) (pod offset : Z) (keys : list (Z * Z)) : outcome (list (option got)) :=
  match keys with
  | [] => Done []
  | (key, type) :: keys' =>
      let* g := query_one m pod offset key type in
      let* gs := spa_pod_contents_queryv m pod offset keys' in
      Done (g :: gs)
  end.

Definition query_count (gs : list (option got)) : Z := zlen (filter is_Some gs).
