(* ===== verification/PodTheory.v ===== *)
(** Theory of the pod format: what the builder writes through any lawful
    destination, and what the iterator reads back.

    [emits args d]: a list of variadic arguments appends exactly [d]. The rules for
    values, containers and sequences compose into the byte layout of a whole
    message. [reads it bs tail]: the iterator stands before the bytes [bs]. [wp]
    is the weakest precondition of a reader. The hint databases [emits] and [reads]
    hold the rules, so layouts and parses are proved by proof search. *)
From S2P Require Import Prelude Defs Pod PodUtils.

(** ** Lawful destinations *)

(** [pw_holds w n bs]: the destination has room for [n] bytes and its first
    [zlen bs] bytes are [bs]. *)
Class PodWriterLaws (W : Type) `{PodWriter W} := {
  pw_holds : W -> Z -> bytes -> Prop;
  pw_append_law w n bs d :
    pw_holds w n bs -> zlen bs + zlen d <= n ->
    exists w', pw_append w (zlen bs) d = Done (w', zlen bs) /\ pw_holds w' n (bs ++ d);
  pw_patch_law w n a b c d :
    pw_holds w n (a ++ b ++ c) -> zlen d = zlen b ->
    exists w', pw_patch w (zlen (a ++ b ++ c)) (zlen a) d = Done w' /\ pw_holds w' n (a ++ d ++ c);
  pw_room_law w n bs : pw_holds w n bs -> zlen bs <= n < 2 ^ 31
}.

(** The fixed buffer is lawful as long as the message fits it. *)
Definition fixed_holds (w : Fixed) (n : Z) (bs : bytes) : Prop :=
  n < 2 ^ 31 /\ zlen bs <= n /\ n <= fixed_size w /\ fixed_size w <= zlen (fixed_data w) /\
  exists rest, fixed_data w = bs ++ rest.

#[export] Program Instance Fixed_laws : PodWriterLaws Fixed := {| pw_holds := fixed_holds |}.
Next Obligation.
  intros w n bs d (Hn & Hb & Hs & Hd & rest & Hr) Hroom. pose proof (zlen_nonneg bs). pose proof (zlen_nonneg d).
  simpl. unfold fixed_append. rewrite u32_small by (unfold is_u32; lia). rewrite Z.gtb_ltb. case_if; [lia |].
  rewrite Hr in Hd |- *. autorewrite with zlen in Hd. pose proof (zlen_nonneg rest).
  assert (Hs' : rest = take (Z.to_nat (zlen d)) rest ++ drop (Z.to_nat (zlen d)) rest) by (symmetry; apply take_drop).
  rewrite Hs', (mwrite_app bs (take _ _) _ d); [| done | zlia]. clear Hs'. simpl. eexists. split; [done |].
  unfold fixed_holds; simpl. autorewrite with zlen. split_and!; [done | lia | lia | zlia |].
  exists (drop (Z.to_nat (zlen d)) rest). by rewrite <- app_assoc.
Qed.
Next Obligation.
  intros w n a b c d (Hn & Hb & Hs & Hd & rest & Hr) Hlen. simpl. unfold fixed_patch.
  rewrite Hr, <- !app_assoc, mwrite_app by done. simpl. eexists. split; [done |].
  unfold fixed_holds; simpl. rewrite Hr in Hd. autorewrite with zlen in *.
  split_and!; [done | lia | lia | lia |]. exists rest. by rewrite <- !app_assoc.
Qed.
Next Obligation. intros w n bs (? & ? & _). lia. Qed.

(** ** Byte-level facts *)

Lemma zlen_pod_header s t : zlen (pod_header s t) = 8.
Proof. unfold pod_header. zlia. Qed.
Lemma zlen_zeros n : 0 <= n -> zlen (zeros n) = n.
Proof. intros. unfold zeros. zlia. Qed.
Lemma pad8_bounds n : 0 <= pad8 n < 8.
Proof. unfold pad8. pose proof (round8_bounds n). lia. Qed.
Lemma zlen_enc_pod t body : zlen (enc_pod t body) = 8 + round8 (zlen body).
Proof.
  unfold enc_pod. rewrite !zlen_app, zlen_pod_header, zlen_zeros by apply pad8_bounds. unfold pad8. lia.
Qed.
#[export] Hint Rewrite zlen_pod_header zlen_enc_pod : zlen.

Lemma pod_header_u32 s t : pod_header (u32 s) t = pod_header s t.
Proof. unfold pod_header. by rewrite le32_u32. Qed.

Lemma round_pad_u32 n : 0 <= n < 2 ^ 31 -> u32 (u32 (SPA_ROUND_UP_N n 8) - n) = pad8 n.
Proof.
  intros. rewrite ROUND_UP_8. pose proof (round8_bounds n). pose proof (pad8_bounds n).
  rewrite (u32_small (round8 n)) by (unfold is_u32; lia). fold (pad8 n).
  apply u32_small. unfold is_u32; lia.
Qed.

(** A multiple of 8 needs no padding. *)
Definition aligned (bs : bytes) : Prop := zlen bs mod 8 = 0.
Lemma aligned_div bs : aligned bs -> exists k, zlen bs = 8 * k.
Proof. unfold aligned. intros. exists (zlen bs / 8). Z.div_mod_to_equations; lia. Qed.
Lemma aligned_pad bs : aligned bs -> pad8 (zlen bs) = 0.
Proof. intros [k Hk]%aligned_div. unfold pad8. rewrite Hk, round8_mul. lia. Qed.
Lemma aligned_app a b : aligned a -> aligned b -> aligned (a ++ b).
Proof. unfold aligned. rewrite zlen_app. intros. Z.div_mod_to_equations; lia. Qed.
Lemma aligned_enc_pod t body : aligned (enc_pod t body).
Proof. unfold aligned. rewrite zlen_enc_pod. unfold round8. Z.div_mod_to_equations; lia. Qed.
Lemma aligned_header s t : aligned (pod_header s t).
Proof. unfold aligned. by rewrite zlen_pod_header. Qed.
Lemma aligned_nil : aligned [].
Proof. done. Qed.
#[export] Hint Resolve aligned_app aligned_enc_pod aligned_header aligned_nil : pinos.
Lemma aligned_concat l : Forall aligned l -> aligned (concat l).
Proof. induction 1; simpl; auto with pinos. Qed.

(** An aligned body makes an unpadded pod. *)
Lemma enc_pod_aligned t body : aligned body -> enc_pod t body = pod_header (zlen body) t ++ body.
Proof. intros H. unfold enc_pod. rewrite aligned_pad by done. unfold zeros. simpl. by rewrite app_nil_r. Qed.

(** What one variadic value puts on the wire. *)
Definition enc_prim (p : prim) : bytes := enc_pod (prim_type p) (prim_body p).

(** A value as it stands alone, without padding after it. *)
Definition pod_of (type : Z) (body : bytes) : bytes := pod_header (zlen body) type ++ body.

(** ** The builder *)

Definition grow_stack (k : Z) (st : list SpaPODFrame) : list SpaPODFrame := frame_grow k <$> st.

(** An open frame counts its size in 32 bits and is not an array or a property. *)
Definition frame_flat (f : SpaPODFrame) : Prop :=
  is_u32 (f_size f) /\ is_array_type (f_type f) = false.

Lemma frame_grow_add j k f : frame_grow k (frame_grow j f) = frame_grow (j + k) f.
Proof.
  unfold frame_grow; simpl. f_equal. unfold u32. rewrite Zplus_mod_idemp_l. f_equal. lia.
Qed.
Lemma grow_stack_cons k f st : grow_stack k (f :: st) = frame_grow k f :: grow_stack k st.
Proof. done. Qed.
Lemma grow_stack_add j k st : grow_stack k (grow_stack j st) = grow_stack (j + k) st.
Proof.
  unfold grow_stack. rewrite <- list_fmap_compose. apply list_fmap_ext. intros ? f _. apply frame_grow_add.
Qed.
Lemma grow_sized k st : Forall (fun f => is_u32 (f_size f)) (grow_stack k st).
Proof. apply Forall_fmap, Forall_forall. intros f _. apply u32_bound. Qed.

Lemma grow_stack_0' st : Forall (fun f => is_u32 (f_size f)) st -> grow_stack 0 st = st.
Proof.
  induction 1 as [|[fid sz ty r] st Hs _ IH]; [done |].
  unfold grow_stack in *. rewrite fmap_cons, IH. unfold frame_grow; simpl in *. by rewrite Z.add_0_r, u32_small.
Qed.
Lemma grow_stack_0 st : Forall frame_flat st -> grow_stack 0 st = st.
Proof. intros Hf. apply grow_stack_0'. eapply Forall_impl; [exact Hf |]. by intros f []. Qed.
Lemma grow_stack_flat k st : Forall frame_flat st -> Forall frame_flat (grow_stack k st).
Proof.
  intros H. apply Forall_fmap. eapply Forall_impl; [done |]. intros f [_ Ht]. split; [apply u32_bound | done].
Qed.
#[export] Hint Resolve grow_stack_flat : pinos.

Section Emits.
Context {W : Type} `{PodWriterLaws W}.
Implicit Types (b : SpaPODBuilder W) (bs d : bytes) (st : list SpaPODFrame).

(** The builder has written [bs], with room for [n] bytes and frames [st] open. *)
Record building b (n : Z) bs st : Prop := {
  bld_holds : pw_holds (bw b) n bs;
  bld_offset : offset b = zlen bs;
  bld_stack : stack b = st;
  bld_flat : in_array b = false;
  bld_frames : Forall frame_flat st
}.

(** The same without a word about arrays: what [spa_pod_builder_raw] keeps. *)
Record written b (n : Z) bs st : Prop := {
  wrt_holds : pw_holds (bw b) n bs;
  wrt_offset : offset b = zlen bs;
  wrt_stack : stack b = st;
  wrt_sized : Forall (fun f => is_u32 (f_size f)) st
}.

Lemma building_written b n bs st : building b n bs st -> written b n bs st.
Proof. intros [? ? ? ? Hf]. split; [done | done | done |]. eapply Forall_impl; [exact Hf |]. by intros f []. Qed.


Lemma written_raw b n bs st d :
  written b n bs st -> zlen bs + zlen d <= n ->
  exists b', spa_pod_builder_raw b d = Done (b', zlen bs) /\ written b' n (bs ++ d) (grow_stack (zlen d) st) /\
    in_array b' = in_array b.
Proof.
  intros [Hh Ho Hs _] Hroom. pose proof (pw_room_law _ _ _ Hh). pose proof (zlen_nonneg bs). pose proof (zlen_nonneg d).
  unfold spa_pod_builder_raw. rewrite Ho.
  destruct (pw_append_law _ _ _ _ Hh Hroom) as (w' & -> & Hh'). simpl. eexists. split; [done |].
  split; [| done]. split; simpl; [done | | by rewrite Hs | apply grow_sized].
  rewrite zlen_app. apply u32_small. unfold is_u32; lia.
Qed.

Lemma building_room b n bs st : building b n bs st -> zlen bs <= n < 2 ^ 31.
Proof. intros [Hh _ _ _ _]. by eapply pw_room_law. Qed.

Lemma building_first b n bs st v : building b n bs st -> building (with_first b v) n bs st.
Proof. by intros []. Qed.

Lemma raw_ok b n bs st d :
  building b n bs st -> zlen bs + zlen d <= n ->
  exists b', spa_pod_builder_raw b d = Done (b', zlen bs) /\ building b' n (bs ++ d) (grow_stack (zlen d) st).
Proof.
  intros Hb Hroom. destruct (written_raw b n bs st d (building_written _ _ _ _ Hb) Hroom) as (b' & -> & [Hh' Ho' Hs' _] & Ha').
  destruct Hb as [_ _ _ Ha Hf]. exists b'. split; [done |]. split; [done | done | done | congruence | auto with pinos].
Qed.

Lemma raw_pieces_ok b n bs st ds :
  building b n bs st -> zlen bs + zlen (concat ds) <= n ->
  exists b', raw_pieces b ds = Done b' /\ building b' n (bs ++ concat ds) (grow_stack (zlen (concat ds)) st).
Proof.
  revert b bs st; induction ds as [|d ds IH]; intros b bs st Hb Hroom; simpl.
  - exists b. split; [done |]. rewrite app_nil_r, zlen_nil, grow_stack_0 by apply Hb. done.
  - simpl in Hroom. rewrite zlen_app in Hroom. pose proof (zlen_nonneg (concat ds)).
    destruct (raw_ok b n bs st d Hb ltac:(lia)) as (b1 & -> & Hb1). simpl.
    destruct (IH b1 _ _ Hb1) as (b2 & -> & Hb2); [zlia |]. eexists. split; [done |].
    by rewrite app_assoc, zlen_app, <- grow_stack_add.
Qed.

(** [args] appends exactly the aligned bytes [d]. *)
Definition emits (args : list arg) d : Prop :=
  aligned d /\
  forall b n bs st, building b n bs st -> aligned bs -> zlen bs + zlen d <= n ->
  exists b', spa_pod_builder_addv b args = Done b' /\ building b' n (bs ++ d) (grow_stack (zlen d) st).

Lemma emits_nil : emits [] [].
Proof.
  split; [apply aligned_nil |]. intros b n bs st Hb _ _. exists b. split; [done |].
  rewrite app_nil_r, zlen_nil, grow_stack_0 by apply Hb. done.
Qed.

Lemma addv_app b args args' :
  spa_pod_builder_addv b (args ++ args') =
  (let* b := spa_pod_builder_addv b args in spa_pod_builder_addv b args').
Proof. revert b; induction args as [|a args IH]; intros b; simpl; [done |]. by destruct (addv_step b a); simpl. Qed.

Lemma emits_app args args' d d' : emits args d -> emits args' d' -> emits (args ++ args') (d ++ d').
Proof.
  intros [Ha He] [Ha' He']. split; [auto with pinos |]. intros b n bs st Hb Hal Hroom.
  rewrite zlen_app in Hroom. pose proof (zlen_nonneg d'). rewrite addv_app.
  destruct (He b n bs st Hb Hal ltac:(lia)) as (b1 & -> & Hb1). simpl.
  destruct (He' b1 n _ _ Hb1) as (b2 & -> & Hb2); [auto with pinos | zlia |].
  eexists. split; [done |]. by rewrite app_assoc, zlen_app, <- grow_stack_add.
Qed.

Lemma emits_cons a args d d' : emits [a] d -> emits args d' -> emits (a :: args) (d ++ d').
Proof. apply (emits_app [a]). Qed.

Lemma emits_concat (l : list (list arg)) ds : Forall2 emits l ds -> emits (concat l) (concat ds).
Proof. induction 1; simpl; [apply emits_nil | by apply emits_app]. Qed.

(** A one-argument step that writes some pieces. *)
Lemma emits_pieces a ds d :
  concat ds = d -> aligned d ->
  (forall b, in_array b = false -> zlen d < 2 ^ 31 -> addv_step b a = raw_pieces (with_first b (first b)) ds
                                \/ addv_step b a = raw_pieces (with_first b false) ds) ->
  emits [a] d.
Proof.
  intros <- Hal Hstep. split; [done |]. intros b n bs st Hb _ Hroom.
  pose proof (building_room _ _ _ _ Hb). pose proof (zlen_nonneg bs). simpl.
  destruct (Hstep b (bld_flat _ _ _ _ Hb) ltac:(lia)) as [-> | ->];
    edestruct raw_pieces_ok as (b1 & -> & Hb1); [by apply building_first | done | by eexists | | |];
    [by apply building_first | done | by eexists].
Qed.

Lemma emits_prim p : emits [APrim p] (enc_prim p).
Proof.
  apply emits_pieces with (ds := [pod_header (zlen (prim_body p)) (prim_type p); prim_body p;
                                  zeros (pad8 (zlen (prim_body p)))]).
  - simpl. by rewrite app_nil_r.
  - apply aligned_enc_pod.
  - intros b Ha Hl. right. unfold enc_prim in Hl. rewrite zlen_enc_pod in Hl.
    pose proof (round8_bounds (zlen (prim_body p))).
    simpl. unfold addv_prim, body_pieces. rewrite Ha. simpl.
    rewrite round_pad_u32 by zlia. done.
Qed.

Lemma load32_head s t rest : load32 0 (pod_header s t ++ rest) = Some (u32 s).
Proof. unfold pod_header. rewrite <- app_assoc. exact (load32_app [] s _ 0 eq_refl). Qed.

Lemma emits_pod_tail t body tail : emits [APod (Some (pod_of t body ++ tail))] (enc_pod t body).
Proof.
  apply emits_pieces with (ds := [pod_of t body; zeros (pad8 (zlen body))]).
  - cbn [concat]. unfold pod_of, enc_pod. by rewrite app_nil_r, <- app_assoc.
  - apply aligned_enc_pod.
  - intros b Ha Hl. left. rewrite zlen_enc_pod in Hl.
    pose proof (round8_bounds (zlen body)). pose proof (zlen_nonneg body).
    assert (zlen (pod_of t body) = 8 + zlen body) as Hlen by (unfold pod_of; zlia).
    assert (load32 0 (pod_of t body ++ tail) = Some (u32 (zlen body))) as Hld.
    { unfold pod_of. rewrite <- app_assoc. apply load32_head. }
    cbn [addv_step]. unfold pod_size_at. rewrite Hld. cbn [of_option obind fmap option_fmap option_map]. rewrite (u32_small (zlen body)) by (unfold is_u32; lia).
    rewrite u32_small by (unfold is_u32; lia).
    assert (mread 0 (8 + zlen body) (pod_of t body ++ tail) = Some (pod_of t body)) as ->
      by (apply (mread_app []); done || lia). cbn [of_option obind].
    unfold body_pieces. rewrite Ha, Hlen. rewrite round_pad_u32 by lia. do 3 f_equal.
    + by destruct b.
    + unfold pad8. pose proof (round8_add 1 (zlen body)) as Hr. rewrite Z.mul_1_r in Hr. 
      rewrite (Hr : round8 (8 + zlen body) = _). replace (8 + _ - _) with (round8 (zlen body) - zlen body) by lia. done.
Qed.

Lemma emits_pod t body : emits [APod (Some (pod_of t body))] (enc_pod t body).
Proof. rewrite <- (app_nil_r (pod_of t body)). apply emits_pod_tail. Qed.

Lemma emits_no_pod : emits [APod None] (enc_pod SPA_POD_TYPE_NONE []).
Proof.
  apply emits_pieces with (ds := [pod_header 0 SPA_POD_TYPE_NONE; []]).
  - done.
  - apply aligned_enc_pod.
  - intros b Ha _. left. simpl. unfold body_pieces. rewrite Ha. simpl. by destruct b.
Qed.

(** Closing a frame: the size in its header is patched and the end padded. *)
Lemma pop_ok b n bs hd body st f type :
  written b n (bs ++ hd ++ body) (mkFrame f (zlen body) type (zlen bs) :: st) -> zlen hd = 8 -> aligned bs ->
  zlen bs + zlen (enc_pod type body) <= n ->
  exists b', spa_pod_builder_pop b f = Done b' /\
    written b' n (bs ++ enc_pod type body) (grow_stack (pad8 (zlen body)) st) /\
    in_array b' = match st with [] => false | g :: _ => is_array_type (f_type g) end.
Proof.
  intros [Hh Ho Hs Hz] Hhd Hal Hroom. pose proof (pw_room_law _ _ _ Hh) as Hn. rewrite zlen_enc_pod in Hroom.
  pose proof (zlen_nonneg bs). pose proof (zlen_nonneg body). pose proof (round8_bounds (zlen body)). pose proof (pad8_bounds (zlen body)).
  apply Forall_cons in Hz as [_ Hz].
  unfold spa_pod_builder_pop. rewrite Hs. cbn [find_frame f_id]. rewrite decide_True by done. cbn [of_option obind f_ref f_size f_type].
  unfold ref_invalid. autorewrite with zlen in Hn. case_if; [lia |].
  destruct (pw_patch_law _ _ bs _ _ (pod_header (zlen body) type) Hh) as (w' & Hp & Hh'); [by rewrite zlen_pod_header |].
  rewrite Ho, Hp. cbn [obind]. unfold spa_pod_builder_pad. cbn [Pod.offset].
  set (b2 := mkBuilder w' _ st _ _).
  assert (u32 (u32 (SPA_ROUND_UP_N (zlen (bs ++ hd ++ body)) 8) - zlen (bs ++ hd ++ body)) = pad8 (zlen body)) as ->.
  { rewrite round_pad_u32 by (autorewrite with zlen; lia). apply aligned_div in Hal as [k Hk]. unfold pad8.
    rewrite !zlen_app, Hk, Hhd. replace (8 * k + (8 + zlen body)) with (8 * (k + 1) + zlen body) by lia.
    rewrite round8_add. lia. }
  assert (written b2 n (bs ++ pod_header (zlen body) type ++ body) st) as Hb2.
  { split; [done | | done | done]. simpl. zlia. }
  destruct (Z.eqb_spec (pad8 (zlen body)) 0) as [Hp0 | Hp0].
  - exists b2. split; [done |]. split; [| done]. unfold enc_pod. rewrite Hp0, grow_stack_0' by done.
    unfold zeros. simpl. by rewrite app_nil_r.
  - destruct (written_raw b2 n _ st (zeros (pad8 (zlen body))) Hb2) as (b3 & -> & Hb3 & Ha3).
    { rewrite zlen_zeros by lia. autorewrite with zlen. unfold pad8 in *. lia. }
    exists b3. split; [done |]. rewrite zlen_zeros in Hb3 by lia. split; [| done].
    unfold enc_pod. by rewrite <- !app_assoc in Hb3.
Qed.

(** A container: the head, what goes in it, and the pop that patches its size. *)
Lemma frame_ok (open : arg) f type rest args d :
  (forall b, addv_step b open = addv_frame b f (zlen rest) type rest) ->
  is_array_type type = false -> zlen rest mod 8 = 0 ->
  emits args d ->
  emits (open :: args ++ [APop f]) (enc_pod type (rest ++ d)).
Proof.
  intros Hopen Hty Hrest [Hd He].
  assert (aligned rest) as Hal' by done. assert (aligned (rest ++ d)) as Hal by auto with pinos.
  split; [auto with pinos |].
  intros b n bs st Hb Hbs Hroom. pose proof (building_room _ _ _ _ Hb).
  pose proof Hroom as Hroom'. rewrite zlen_enc_pod, zlen_app in Hroom'. pose proof (round8_bounds (zlen rest + zlen d)).
  pose proof (zlen_nonneg bs). pose proof (zlen_nonneg rest). pose proof (zlen_nonneg d).
  cbn [spa_pod_builder_addv]. rewrite Hopen. unfold addv_frame. rewrite (bld_flat _ _ _ _ Hb). cbn [negb orb].
  destruct (raw_ok (with_first b false) n bs st (pod_header (zlen rest) type ++ rest)) as (b1 & -> & Hb1);
    [by apply building_first | zlia |].
  cbn [obind]. rewrite addv_app.
  edestruct (He (spa_pod_builder_push b1 f (zlen rest) type (zlen bs)) n) as (b2 & -> & Hb2).
  { destruct Hb1 as [Hh1 Ho1 Hs1 Ha1 Hf1]. split; simpl; [done | done | by rewrite Hs1 | by rewrite Hty |].
    constructor; [split; [simpl; unfold is_u32; lia | done] | done]. }
  { auto with pinos. }
  { zlia. }
  cbn [obind spa_pod_builder_addv addv_step]. apply building_written in Hb2.
  rewrite grow_stack_cons in Hb2. unfold frame_grow in Hb2. cbn [f_id f_size f_type f_ref] in Hb2.
  rewrite u32_small in Hb2 by (unfold is_u32; lia). rewrite <- (zlen_app rest d), <- !app_assoc in Hb2.
  destruct (pop_ok b2 n bs _ (rest ++ d) _ f type Hb2) as (b3 & -> & [Hh3 Ho3 Hs3 _] & Ha3); [apply zlen_pod_header | done | done |].
  cbn [obind]. exists b3. split; [done |]. rewrite aligned_pad in Hs3 by done.
  split; [done | done | | |].
  - rewrite Hs3, !grow_stack_add. f_equal. rewrite (enc_pod_aligned type (rest ++ d)) by done. zlia.
  - rewrite Ha3. pose proof (bld_frames _ _ _ _ Hb) as Hfr. destruct st as [|g st]; [done |].
    apply Forall_cons in Hfr as [[_ ?] _]. done.
  - apply grow_stack_flat, Hb.
Qed.

Lemma emits_struct f args d :
  emits args d -> emits (AStruct f :: args ++ [APop f]) (enc_pod SPA_POD_TYPE_STRUCT d).
Proof. by apply (frame_ok (AStruct f) f SPA_POD_TYPE_STRUCT []). Qed.

Lemma emits_object f id type args d :
  emits args d ->
  emits (AObject f id type :: args ++ [APop f]) (enc_pod SPA_POD_TYPE_OBJECT (le32 id ++ le32 type ++ d)).
Proof.
  intros He. rewrite app_assoc. apply frame_ok; [| done | done | done]. done.
Qed.

(** From an empty destination: [args] make the message [d]. *)
Definition writes (args : list arg) d : Prop :=
  forall w n, pw_holds w n [] -> zlen d <= n ->
  exists b, spa_pod_builder_addv (spa_pod_builder_init w) args = Done b /\ pw_holds (bw b) n d /\ offset b = zlen d.

Lemma building_init w n : pw_holds w n [] -> building (spa_pod_builder_init w) n [] [].
Proof. intros Hw. by split. Qed.

Lemma emits_writes args d : emits args d -> writes args d.
Proof.
  intros [_ He] w n Hw Hn. destruct (He (spa_pod_builder_init w) n [] []) as (b & Hb & Hb').
  - by apply building_init.
  - apply aligned_nil.
  - done.
  - exists b. destruct Hb'. done.
Qed.

(** A struct that is never closed is an empty one. *)
Lemma writes_open_struct f : writes [AStruct f] (enc_pod SPA_POD_TYPE_STRUCT []).
Proof.
  intros w n Hw Hn. cbn [spa_pod_builder_addv addv_step]. unfold addv_frame. cbn [in_array spa_pod_builder_init negb orb].
  destruct (raw_ok (with_first (spa_pod_builder_init w) false) n [] [] (enc_pod SPA_POD_TYPE_STRUCT []))
    as (b & Hb & [Hh Ho _ _ _]); [by apply building_first, building_init | done |].
  change (pod_header 0 SPA_POD_TYPE_STRUCT ++ []) with (enc_pod SPA_POD_TYPE_STRUCT []). rewrite Hb.
  cbn [obind]. eexists. split; [done |]. done.
Qed.
End Emits.

Create HintDb emits.
#[export] Hint Resolve emits_nil emits_prim emits_pod emits_no_pod emits_struct emits_object
  emits_app emits_concat : emits.
#[export] Hint Resolve emits_cons | 5 : emits.

(** ** The iterator *)

(** The iterator stands before the bytes [bs], the last ones of its range; the
    memory goes on with [tail]. *)
Definition reads (it : SpaPODIter) (bs tail : bytes) : Prop :=
  exists pre, it_mem it = pre ++ bs ++ tail /\ it_offset it = zlen pre /\
    it_size it = zlen pre + zlen bs /\ zlen pre + zlen bs < 2 ^ 31.

(** The reader returns, with a value and an iterator in [Q]. *)
Definition wp {A} (m : M A) (it : SpaPODIter) (Q : A -> SpaPODIter -> Prop) : Prop :=
  exists a it', m it = Done (a, it') /\ Q a it'.

Lemma wp_ret {A} (a : A) it (Q : A -> SpaPODIter -> Prop) : Q a it -> wp (mret a) it Q.
Proof. intros HQ. by exists a, it. Qed.

Lemma wp_bind {A B} (m : M A) (f : A -> M B) it Q :
  wp m it (fun a it' => wp (f a) it' Q) -> wp (mbind m f) it Q.
Proof.
  intros (a & it' & Hm & b & it'' & Hf & HQ). exists b, it''. unfold mbind. rewrite Hm. simpl. by rewrite Hf.
Qed.

Lemma wp_lift {A} (a : A) o it (Q : A -> SpaPODIter -> Prop) : o = Done a -> Q a it -> wp (mlift o) it Q.
Proof. intros -> HQ. by exists a, it. Qed.

Lemma wp_mono {A} (m : M A) it (Q Q' : A -> SpaPODIter -> Prop) :
  wp m it Q -> (forall a it', Q a it' -> Q' a it') -> wp m it Q'.
Proof. intros (a & it' & Hm & HQ) HQQ. exists a, it'. auto. Qed.

Lemma reads_contents data bs tail :
  data = bs ++ tail -> zlen bs < 2 ^ 31 -> reads (spa_pod_iter_contents data (zlen bs)) bs tail.
Proof. intros -> Hl. by exists []. Qed.

Lemma enc_pod_split t body rest :
  enc_pod t body ++ rest = le32 (zlen body) ++ le32 t ++ body ++ zeros (pad8 (zlen body)) ++ rest.
Proof. unfold enc_pod, pod_header. by rewrite <- !app_assoc. Qed.

(** The value the iterator stands before, its type and the step over it. *)
Lemma reads_head it t body rest tail :
  reads it (enc_pod t body ++ rest) tail ->
  exists pre p, it_offset it = p /\ zlen pre = p /\ zlen body < 2 ^ 31 - 8 /\
    it_mem it = pre ++ pod_of t body ++ zeros (pad8 (zlen body)) ++ rest ++ tail /\
    spa_pod_iter_has_next it = Done true /\
    pod_size_at p (it_mem it) = Done (8 + zlen body) /\
    pod_type_at p (it_mem it) = Done (u32 t) /\
    exists it', spa_pod_iter_next it = Done (p, it') /\ it_mem it' = it_mem it /\ reads it' rest tail.
Proof.
  intros (pre & Hm & Ho & Hs & Hl). rewrite zlen_app, zlen_enc_pod in Hs, Hl.
  pose proof (round8_bounds (zlen body)). pose proof (zlen_nonneg body). pose proof (zlen_nonneg rest).
  pose proof (zlen_nonneg pre).
  assert (pod_size_at (zlen pre) (it_mem it) = Done (8 + zlen body)) as Hsz.
  { unfold pod_size_at. rewrite Hm, <- app_assoc, enc_pod_split, load32_app by done.
    simpl. rewrite u32_small by (unfold is_u32; lia). done. }
  exists pre, (zlen pre). split_and!; [done | done | lia | | | done | |].
  - rewrite Hm. unfold enc_pod, pod_of. by rewrite <- !app_assoc.
  - unfold spa_pod_iter_has_next. rewrite Ho, Hsz, u32_small by (unfold is_u32; lia).
    case_if; [| lia]. simpl. f_equal. apply Z.leb_le. lia.
  - unfold pod_type_at. rewrite Hm, <- app_assoc, enc_pod_split, app_assoc, load32_app by zlia. done.
  - unfold spa_pod_iter_next. rewrite Ho, Hsz. simpl. eexists. split; [done |]. split; [done |].
    rewrite ROUND_UP_8. pose proof (round8_add 1 (zlen body)) as Hr. rewrite Z.mul_1_r in Hr. rewrite Hr.
    rewrite u32_small by (unfold is_u32; lia).
    exists (pre ++ enc_pod t body). simpl. split_and!.
    + rewrite Hm. by rewrite <- !app_assoc.
    + zlia.
    + rewrite Hs. zlia.
    + zlia.
Qed.

(** [iter_get] of a value of the type asked for. *)
Lemma iter_get_ok it t body rest tail :
  reads it (enc_pod t body ++ rest) tail -> SPA_POD_TYPE_NONE < t < 2 ^ 31 ->
  exists pre it', it_mem it' = it_mem it /\
    it_mem it' = pre ++ pod_of t body ++ zeros (pad8 (zlen body)) ++ rest ++ tail /\
    zlen body < 2 ^ 31 - 8 /\ reads it' rest tail /\
    iter_get t it = (let* g := (if t =? SPA_POD_TYPE_POD then Done (GPod (zlen pre))
                                else collect_value (it_mem it') (zlen pre) t) in Done (g, it')).
Proof.
  intros (pre & p & Ho & <- & Hl & Hm & Hn & Hs & Ht & it' & Hx & Hm' & Hr)%reads_head Hty.
  exists pre, it'. split_and!; [done | by rewrite Hm' | done | done |].
  unfold iter_get. rewrite Hn. simpl. rewrite Hx. simpl. unfold SPA_POD_COLLECT.
  rewrite Hm', Ht. case_if; [done |]. simpl. rewrite u32_small by (unfold is_u32; unfold SPA_POD_TYPE_NONE in Hty; lia).
  case_if; [lia |]. rewrite Z.eqb_refl. done.
Qed.

(** Loads from the body of the value at [pre]. *)
Lemma load32_body pre t v body' rest :
  load32 (zlen pre + 8) (pre ++ pod_of t (le32 v ++ body') ++ rest) = Some (u32 v).
Proof. unfold pod_of. rewrite <- !app_assoc, app_assoc, load32_app by zlia. done. Qed.
Lemma load64_body pre t v body' rest :
  load64 (zlen pre + 8) (pre ++ pod_of t (le64 v ++ body') ++ rest) = Some (u64 v).
Proof. unfold pod_of. rewrite <- !app_assoc, app_assoc, load64_app by zlia. done. Qed.
Lemma mread_body pre t body rest :
  mread (zlen pre + 8) (zlen body) (pre ++ pod_of t body ++ rest) = Some body.
Proof. unfold pod_of. rewrite <- !app_assoc, app_assoc. apply mread_app; [zlia | done]. Qed.
Lemma load32_size pre t body rest :
  load32 (zlen pre) (pre ++ pod_of t body ++ rest) = Some (u32 (zlen body)).
Proof. unfold pod_of, pod_header. by rewrite <- !app_assoc, load32_app. Qed.
Lemma pod_bytes_ok pre t body rest :
  zlen body < 2 ^ 31 - 8 -> pod_bytes (zlen pre) (pre ++ pod_of t body ++ rest) = Done (pod_of t body).
Proof.
  intros. pose proof (zlen_nonneg body). unfold pod_bytes, pod_size_at. rewrite load32_size. simpl.
  rewrite u32_small by (unfold is_u32; lia). rewrite mread_app by (done || (unfold pod_of; zlia)). done.
Qed.

Lemma cstr_app s rest : is_cstr s -> cstr (s ++ 0 :: rest) = Some s.
Proof.
  induction 1 as [|b s Hb _ IH]; simpl; [done |]. case_if; [lia |]. by rewrite IH.
Qed.

(** The low half of a 64-bit value is all that [PLong] writes. *)
Lemma take_le64 v : take 4 (le64 v) = le32 v.
Proof. Transparent le32 le64. reflexivity. Opaque le32 le64. Qed.
Lemma prim_body_long v : prim_body (PLong v) = le32 v.
Proof. exact (take_le64 v). Qed.
Lemma unle_le32_zeros v n : unle (le32 v ++ zeros n) = u32 v.
Proof. rewrite unle_app, unle_le32. unfold zeros. rewrite unle_zeros. lia. Qed.




(** A step of a reader over one value; the continuation starts behind it. *)
Definition reader {A} (m : M A) (enc : bytes) (a : A) : Prop :=
  forall it rest tail, reads it (enc ++ rest) tail -> exists it', m it = Done (a, it') /\ reads it' rest tail.

Lemma reader_ret {A} (a : A) : reader (mret a) [] a.
Proof. intros it rest tl H. by exists it. Qed.

Lemma reader_bind {A B} (m : M A) (f : A -> M B) d d' a b :
  reader m d a -> reader (f a) d' b -> reader (mbind m f) (d ++ d') b.
Proof.
  intros Hm Hf it rest tl H. rewrite <- app_assoc in H. destruct (Hm _ _ _ H) as (it1 & E1 & H1).
  destruct (Hf _ _ _ H1) as (it2 & E2 & H2). exists it2. unfold mbind. by rewrite E1.
Qed.

(** The last step: nothing is read after it. *)
Lemma reader_bind_nil {A B} (m : M A) (f : A -> M B) d a b :
  reader m d a -> reader (f a) [] b -> reader (mbind m f) d b.
Proof. intros. rewrite <- (app_nil_r d). by eapply reader_bind. Qed.

Lemma reader_lift {A} (o : outcome A) a : o = Done a -> reader (mlift o) [] a.
Proof. intros -> it rest tl H. by exists it. Qed.

Lemma reader_get_n {A} (m : M A) (l : list A) ds :
  Forall2 (reader m) ds l -> reader (get_n (length l) m) (concat ds) l.
Proof.
  induction 1 as [|d a ds l Ha _ IH]; simpl; [apply reader_ret |].
  eapply reader_bind; [done |]. rewrite <- (app_nil_r (concat ds)).
  eapply reader_bind; [done |]. apply reader_ret.
Qed.

(** What a reader finds at the end of the range: the read is refused. *)
Lemma iter_get_end t it tl : reads it [] tl -> iter_get t it = Refuse.
Proof.
  intros (pre & Hm & Ho & Hs & Hl). pose proof (zlen_nonneg pre). rewrite zlen_nil in *.
  unfold iter_get, spa_pod_iter_has_next. rewrite Ho, u32_small by (unfold is_u32; lia).
  case_if; [lia | done].
Qed.

Lemma reader_value {A} (m : M A) (k : got -> SpaPODIter -> outcome (A * SpaPODIter)) t body a :
  (forall it, m it = let* (g, it) := iter_get t it in k g it) ->
  SPA_POD_TYPE_NONE < t < SPA_POD_TYPE_POD ->
  (forall pre it' rest, it_mem it' = pre ++ pod_of t body ++ zeros (pad8 (zlen body)) ++ rest ->
     zlen body < 2 ^ 31 - 8 ->
     exists g, collect_value (it_mem it') (zlen pre) t = Done g /\ k g it' = Done (a, it')) ->
  reader m (enc_pod t body) a.
Proof.
  intros Hm Ht Hk it rest tl H. unfold SPA_POD_TYPE_POD, SPA_POD_TYPE_NONE in *.
  edestruct iter_get_ok as (pre & it' & _ & Hmem & Hl & Hr & Hg); [done | unfold SPA_POD_TYPE_NONE; lia |].
  exists it'. split; [| done]. rewrite Hm, Hg. unfold SPA_POD_TYPE_POD. case_if; [lia |].
  destruct (Hk pre it' (rest ++ tl)) as (g & -> & Hkg); [by rewrite Hmem | done |]. done.
Qed.

Lemma reader_int v : is_u32 v -> reader get_int (enc_prim (PInt v)) v.
Proof.
  intros Hv. eapply reader_value; [intros; reflexivity | done |]. intros pre it' rest Hm _. exists (GI32 v).
  pose proof (load32_body pre SPA_POD_TYPE_INT v [] (zeros (pad8 (zlen (le32 v))) ++ rest)) as Hld.
  rewrite app_nil_r in Hld.
  unfold collect_value. simpl in *. rewrite Hm, Hld. simpl. by rewrite u32_small.
Qed.
Lemma reader_id v : is_u32 v -> reader get_id (enc_prim (PId v)) v.
Proof.
  intros Hv. eapply reader_value; [intros; reflexivity | done |]. intros pre it' rest Hm _. exists (GI32 v).
  pose proof (load32_body pre SPA_POD_TYPE_ID v [] (zeros (pad8 (zlen (le32 v))) ++ rest)) as Hld.
  rewrite app_nil_r in Hld.
  unfold collect_value. simpl in *. rewrite Hm, Hld. simpl. by rewrite u32_small.
Qed.

(** A 64-bit value comes back cut to its low 32 bits. *)
Lemma reader_long v : reader get_long (enc_prim (PLong v)) (u32 v).
Proof.
  eapply reader_value; [intros; reflexivity | done |]. intros pre it' rest Hm _. exists (GI64 (u32 v)).
  split; [| done].
  unfold collect_value. simpl. rewrite Hm. simpl prim_body. rewrite take_le64, zlen_le32.
  unfold load64. unfold pod_of. rewrite <- !app_assoc, app_assoc.
  rewrite (app_assoc (le32 v)). rewrite mread_app; [| zlia | by rewrite zlen_app, zlen_le32].
  simpl. by rewrite unle_le32_zeros.
Qed.

Lemma reader_string s : is_cstr s -> reader get_string (enc_prim (PString (Some s))) s.
Proof.
  intros Hs. eapply reader_value; [intros; reflexivity | done |]. intros pre it' rest Hm _. eexists.
  split; [done |]. simpl. rewrite Hm. unfold mem_from, pod_of. rewrite <- !app_assoc, app_assoc.
  replace (Z.to_nat (zlen pre + 8)) with (length (pre ++ pod_header (zlen (prim_body (PString (Some s)))) SPA_POD_TYPE_STRING))
    by (rewrite <- to_nat_zlen; f_equal; zlia).
  rewrite drop_app_length. cbn [prim_body]. rewrite <- app_assoc. cbn [app]. by rewrite cstr_app.
Qed.

(** [NULL] is sent as the empty string. *)
Lemma reader_null_string : reader get_string (enc_prim (PString None)) [].
Proof. exact (reader_string [] (Forall_nil_2 _)). Qed.

Lemma reader_bytes d : reader get_bytes (enc_prim (PBytes d)) d.
Proof.
  eapply reader_value; [intros; reflexivity | done |]. intros pre it' rest Hm Hl. simpl in Hl.
  exists (GBytes (zlen pre + 8) (zlen d)). pose proof (zlen_nonneg d). rewrite Hm. cbn [prim_body].
  unfold collect_value. cbn -[load32 mread]. rewrite load32_size. simpl. rewrite u32_small by (unfold is_u32; lia). split; [done |].
  rewrite mread_body. done.
Qed.

Lemma reader_object body : reader get_object (enc_pod SPA_POD_TYPE_OBJECT body) (pod_of SPA_POD_TYPE_OBJECT body).
Proof.
  eapply reader_value with (k := fun g it =>
      let* (o, it) := match g with
        | GPod p => let* d := pod_bytes p (it_mem it) in Done (Some d, it)
        | GNull => Done (None, it) | _ => Undef end in
      match o with Some d => Done (d, it) | None => Undef end); [| done |].
  - intros it. unfold get_object, get_pod. by destruct (iter_get _ it) as [[]| |].
  - intros pre it' rest Hm Hl. eexists. split; [done |]. simpl. rewrite Hm, pod_bytes_ok by done. done.
Qed.

(** An optional container: [NULL] is sent as the type [None]. *)
Definition enc_opt (t : Z) (body : option bytes) : bytes :=
  match body with Some b => enc_pod t b | None => enc_pod SPA_POD_TYPE_NONE [] end.

Lemma reader_opt t body :
  t = SPA_POD_TYPE_OBJECT \/ t = SPA_POD_TYPE_STRUCT ->
  reader (get_pod (- t)) (enc_opt t body) (pod_of t <$> body).
Proof.
  intros Ht it rest tl H. destruct body as [body|]; simpl in *;
  destruct (reads_head _ _ _ _ _ H) as (pre & p & Ho & <- & Hl & Hm & Hn & Hs & Hty & it' & Hx & Hm' & Hr);
    exists it'; (split; [| done]); unfold get_pod, iter_get; rewrite Hn; simpl; rewrite Hx; simpl;
    unfold SPA_POD_COLLECT; rewrite Hm', Hty.
  - rewrite u32_small by (destruct Ht as [-> | ->]; by compute).
    assert (collect_value (it_mem it) (zlen pre) (- t) = Done (GPod (zlen pre))) as Hc by (by destruct Ht as [-> | ->]).
    replace (_ =? SPA_POD_TYPE_POD) with false by (by destruct Ht as [-> | ->]). simpl.
    replace (t =? SPA_POD_TYPE_NONE) with false by (by destruct Ht as [-> | ->]).
    rewrite Z.opp_involutive, Z.eqb_refl, orb_true_r, Hc. simpl. rewrite Hm', Hm, pod_bytes_ok by done. done.
  - by destruct Ht as [-> | ->].
Qed.

(** Any value, asked for as a pod. *)
Lemma reader_pod t body : reader (get_pod SPA_POD_TYPE_POD) (enc_pod t body) (Some (pod_of t body)).
Proof.
  intros it rest tl H.
  destruct (reads_head _ _ _ _ _ H) as (pre & p & Ho & <- & Hl & Hm & Hn & Hs & Hty & it' & Hx & Hm' & Hr).
  exists it'. split; [| done]. unfold get_pod, iter_get. rewrite Hn. simpl. rewrite Hx. simpl.
  rewrite Hm', Hm, pod_bytes_ok by done. done.
Qed.


Create HintDb reads.
#[export] Hint Resolve reader_ret reader_int reader_id reader_long reader_string reader_null_string reader_bytes
  reader_object reader_opt reader_pod reader_lift reader_get_n : reads.
#[export] Hint Resolve reader_bind | 3 : reads.
#[export] Hint Resolve reader_bind_nil | 4 : reads.

(** ** A struct of values, through a fixed buffer and back *)

(** What was collected is this value, in the memory it was found in. *)
Definition denotes (m : bytes) (g : got) (p : prim) : Prop :=
  match p, g with
  | PBool v, GI32 w | PId v, GI32 w | PInt v, GI32 w => w = u32 v
  | PLong v, GI64 w => w = u64 v
  | PFloat v, GF32 w => w = u32 v
  | PDouble v, GF64 w => w = u64 v
  | PString (Some s), GPtr q => cstr (mem_from q m) = Some s
  | PStringLen d, GPtr q => mread q (zlen d) m = Some d
  | PBytes d, GBytes q n => n = zlen d /\ mread q n m = Some d
  | PPointer _ _ x, GPointer v => v = u64 x
  | PRectangle w h, GRectangle a b | PFraction w h, GFraction a b => a = u32 w /\ b = u32 h
  | _, _ => False
  end.

(** What the builder makes of a value: of a long it keeps the lower 32 bits, and a [NULL]
    string is an empty one. Every other value, and a long that fits 32 bits, is kept. *)
Definition as_built (p : prim) : prim :=
  match p with
  | PLong v => PLong (u32 v)
  | PString None => PString (Some [])
  | _ => p
  end.
Definition kept (p : prim) : bool :=
  match p with PLong v => u64 v <? 2 ^ 32 | PString None => false | _ => true end.

(** A value is read back as the builder made it, and so as it was just when it is kept. *)
Definition read_back (m : bytes) (g : got) (p : prim) : Prop :=
  denotes m g (as_built p) /\ (denotes m g p <-> kept p = true).

Lemma as_built_kept m g p : denotes m g (as_built p) -> read_back m g p.
Proof.
  intros Hd. split; [done |]. destruct p as [| | |v| | |[s|]| | | | |]; cbn [as_built kept] in *; try done; destruct g; try done.
  simpl in *. subst. rewrite (u64_small (u32 v)) by (unfold is_u64, u32; pose proof (Z.mod_pos_bound v (2 ^ 32)); lia). unfold u32, u64. rewrite Z.ltb_lt. pose proof (Z.mod_pos_bound v (2 ^ 64)). pose proof (Z.mod_pos_bound v (2 ^ 32)).
  split; [lia |]. intros Hs.
  rewrite <- (Z.mod_small (v mod 2 ^ 64) (2 ^ 32)) by lia. change (2 ^ 64) with (2 ^ 32 * 2 ^ 32). rewrite <- Znumtheory.Zmod_div_mod; [done | lia | lia |].
  by exists (2 ^ 32).
Qed.

(** Strings hold no NUL. *)
Definition prim_ok (p : prim) : Prop :=
  match p with PString (Some s) => is_cstr s | _ => True end.

Lemma mem_from_body pre t body rest : mem_from (zlen pre + 8) (pre ++ pod_of t body ++ rest) = body ++ rest.
Proof.
  unfold mem_from, pod_of. rewrite <- !app_assoc, app_assoc.
  replace (Z.to_nat (zlen pre + 8)) with (length (pre ++ pod_header (zlen body) t))
    by (rewrite <- to_nat_zlen; f_equal; zlia).
  apply drop_app_length.
Qed.

Lemma load32_body4 pre t u v body' rest :
  load32 (zlen pre + 12) (pre ++ pod_of t (le32 u ++ le32 v ++ body') ++ rest) = Some (u32 v).
Proof.
  unfold pod_of. rewrite <- !app_assoc, (app_assoc (pod_header _ _)), app_assoc.
  by rewrite load32_app by zlia.
Qed.

(** The body of a long as the iterator loads it: its low half, zero-extended. *)
Lemma load64_long pre t v n rest :
  n = 4 -> load64 (zlen pre + 8) (pre ++ pod_of t (le32 v) ++ zeros n ++ rest) = Some (u32 v).
Proof.
  intros ->. unfold load64, pod_of. rewrite <- !app_assoc, app_assoc, (app_assoc (le32 v)).
  rewrite mread_app; [| zlia | by rewrite zlen_app, zlen_le32]. simpl. by rewrite unle_le32_zeros.
Qed.

Lemma collect_prim pre p rest :
  prim_ok p -> zlen (prim_body p) < 2 ^ 31 - 8 ->
  let m := pre ++ pod_of (prim_type p) (prim_body p) ++ zeros (pad8 (zlen (prim_body p))) ++ rest in
  exists g, collect_value m (zlen pre) (prim_type p) = Done g /\ denotes m g (as_built p).
Proof.
  intros Hok Hl m. pose proof (zlen_nonneg (prim_body p)).
  assert (forall v body', prim_body p = le32 v ++ body' -> load32 (zlen pre + 8) m = Some (u32 v)) as H32.
  { intros v body' Hb. subst m. rewrite Hb. apply load32_body. }
  assert (forall v, prim_body p = le32 v -> load32 (zlen pre + 8) m = Some (u32 v)) as H32'.
  { intros v Hb. apply (H32 v []). by rewrite app_nil_r. }
  assert (forall v body', prim_body p = le64 v ++ body' -> load64 (zlen pre + 8) m = Some (u64 v)) as H64.
  { intros v body' Hb. subst m. rewrite Hb. apply load64_body. }
  assert (forall u v, prim_body p = le32 u ++ le32 v -> load32 (zlen pre + 12) m = Some (u32 v)) as H12.
  { intros u v Hb. subst m. rewrite Hb. rewrite <- (app_nil_r (le32 v)). apply load32_body4. }
  destruct p as [v|v|v|v|v|v|s|d|d|t h x|w h|w h]; unfold collect_value;
    cbn -[load32 load64 mread mem_from m].
  1-3: rewrite (H32' v) by done; cbn; eexists; split; done.
  - subst m. rewrite prim_body_long, load64_long by (by rewrite zlen_le32). cbn. eexists; split; [done |]. unfold denotes, as_built. rewrite u64_small; [done |]. unfold is_u64, u32. pose proof (Z.mod_pos_bound v (2 ^ 32)). lia.
  - rewrite (H32' v) by done; cbn; eexists; split; done.
  - rewrite (H64 v []) by (simpl; by rewrite app_nil_r). cbn; eexists; split; done.
  - eexists; split; [done |]. destruct s as [s|]; unfold denotes, as_built; subst m; rewrite mem_from_body; simpl; [| done].
    rewrite <- app_assoc. by apply cstr_app.
  - eexists; split; [done |]. cbn -[m mread]. subst m. apply mread_body.
  - subst m. rewrite load32_size. cbn -[mread]. simpl in Hl. rewrite u32_small by (unfold is_u32; zlia).
    eexists; split; [done |]. split; [done |]. apply mread_body.
  - assert (load64 (zlen pre + 16) m = Some (u64 x)) as ->; [| cbn; eexists; split; done].
    subst m. cbn [prim_body]. rewrite (app_assoc (le32 t)). unfold pod_of.
    rewrite <- (app_assoc (pod_header _ _)), <- (app_assoc (le32 t ++ le32 h)).
    rewrite (app_assoc (pod_header _ _)), app_assoc. apply load64_app. zlia.
  - rewrite (H32 w (le32 h)) by done. cbn -[load32 m]. rewrite (H12 w h) by done. cbn. eexists; split; done.
  - rewrite (H32 w (le32 h)) by done. cbn -[load32 m]. rewrite (H12 w h) by done. cbn. eexists; split; done.
Qed.

Lemma iter_get_prim it p rest tail :
  reads it (enc_prim p ++ rest) tail -> prim_ok p ->
  exists g it', iter_get (prim_type p) it = Done (g, it') /\ read_back (it_mem it) g p /\
    it_mem it' = it_mem it /\ reads it' rest tail.
Proof.
  intros Hr Hok.
  edestruct iter_get_ok as (pre & it' & Hsame & Hm & Hl & Hr' & Hg); [exact Hr | by destruct p |].
  destruct (collect_prim pre p (rest ++ tail) Hok Hl) as (g & Hc & Hd). cbv zeta in Hc, Hd. rewrite <- Hm in Hc, Hd.
  exists g, it'. apply as_built_kept in Hd. rewrite Hg, Hc. replace (_ =? SPA_POD_TYPE_POD) with false by (by destruct p).
  rewrite <- Hsame. done.
Qed.

Lemma getv_prims it ps tail :
  reads it (concat (enc_prim <$> ps)) tail -> Forall prim_ok ps ->
  exists gs it', spa_pod_iter_getv (prim_type <$> ps) it = Done (gs, it') /\
    Forall2 (read_back (it_mem it)) gs ps /\ reads it' [] tail.
Proof.
  revert it; induction ps as [|p ps IH]; intros it Hr Hok.
  - exists [], it. done.
  - apply Forall_cons in Hok as [Hp Hok]. cbn [fmap list_fmap concat] in Hr.
    destruct (iter_get_prim _ _ _ _ Hr Hp) as (g & it1 & Hg & Hd & Hm & Hr1).
    destruct (IH it1 Hr1 Hok) as (gs & it2 & Hgs & Hds & Hr2).
    exists (g :: gs), it2. rewrite fmap_cons. cbn [spa_pod_iter_getv]. rewrite Hg. cbn [obind]. rewrite Hgs. rewrite Hm in Hds. split; [done |]. split; [by constructor | done].
Qed.

Lemma has_next_end it tl : reads it [] tl -> spa_pod_iter_has_next it = Done false.
Proof.
  intros (pre & Hm & Ho & Hs & Hl). pose proof (zlen_nonneg pre). rewrite zlen_nil in *.
  unfold spa_pod_iter_has_next. rewrite Ho, u32_small by (unfold is_u32; lia). case_if; [lia | done].
Qed.

(** The iterator over a struct that stands first in memory. *)
Lemma iter_struct_eq d n tail :
  aligned d -> 8 + zlen d <= n < 2 ^ 31 ->
  spa_pod_iter_struct (enc_pod SPA_POD_TYPE_STRUCT d ++ tail) n = Done (spa_pod_iter_contents (d ++ tail) (zlen d)).
Proof.
  intros Hal Hn. pose proof (zlen_nonneg d). rewrite enc_pod_aligned by done.
  unfold spa_pod_iter_struct. case_if; [lia |]. unfold pod_size_at, pod_type_at.
  rewrite <- app_assoc, load32_head. cbn [fmap option_fmap option_map of_option obind].
  rewrite u32_small by (unfold is_u32; lia). rewrite Z.gtb_ltb. case_if; [lia |].
  unfold pod_header. rewrite <- !app_assoc, (load32_app (le32 (zlen d))) by zlia. cbn [of_option obind].
  replace (8 + zlen d - 8) with (zlen d) by lia. rewrite (u32_small (zlen d)) by (unfold is_u32; lia). cbn.
  done.
Qed.

Lemma iter_struct_ok d n tail :
  aligned d -> 8 + zlen d <= n < 2 ^ 31 ->
  exists it, spa_pod_iter_struct (enc_pod SPA_POD_TYPE_STRUCT d ++ tail) n = Done it /\ reads it d tail.
Proof.
  intros Hal Hn. rewrite iter_struct_eq by done. eexists. split; [done |]. apply reads_contents; [done | lia].
Qed.

Lemma emits_prims ps : emits (W := Fixed) (APrim <$> ps) (concat (enc_prim <$> ps)).
Proof. induction ps as [|p ps IH]; [apply emits_nil |]. apply emits_cons; [apply emits_prim | done]. Qed.

(** C25: A struct of values survives the wire format: built by [spa_pod_builder_addv] into a
    buffer with enough room, its size word is patched to the size of the contents, and the
    iterator finds the values in order, and then the end. Each is read back as the same
    value, but for a long that does not fit 32 bits, of which the builder only writes the
    lower half, and for a [NULL] string, which is read back as an empty one. *)
Theorem pod_struct_roundtrip f ps w :
  Forall prim_ok ps ->
  let total := 8 + zlen (concat (enc_prim <$> ps)) in
  total <= fixed_size w -> fixed_size w <= zlen (fixed_data w) -> total < 2 ^ 31 ->
  exists b it gs it',
    spa_pod_builder_addv (spa_pod_builder_init w) (AStruct f :: (APrim <$> ps) ++ [APop f]) = Done b /\
    Pod.offset b = total /\
    spa_pod_iter_struct (fixed_data (bw b)) total = Done it /\
    spa_pod_iter_getv (prim_type <$> ps) it = Done (gs, it') /\
    Forall2 (read_back (it_mem it)) gs ps /\
    spa_pod_iter_has_next it' = Done false.
Proof.
  intros Hok total Hsz Hdata Htot. set (d := concat (enc_prim <$> ps)) in *.
  pose proof (emits_struct f _ _ (emits_prims ps)) as He. fold d in He.
  assert (aligned d) as Hal by apply (emits_prims ps).
  assert (zlen (enc_pod SPA_POD_TYPE_STRUCT d) = total) as Hlen.
  { rewrite enc_pod_aligned by done. zlia. }
  assert (0 <= total) by (subst total; zlia).
  destruct (emits_writes _ _ He w total) as (b & Hb & (_ & _ & _ & _ & tail & Ht) & Ho); [| lia |].
  { split_and!; [done | zlia | done | done | by eexists]. }
  destruct (iter_struct_ok d total tail Hal) as (it & Hit & Hr); [lia |].
  destruct (getv_prims it ps tail Hr Hok) as (gs & it' & Hgs & Hd & Hend).
  exists b, it, gs, it'. rewrite Ht, Ho, Hlen. split_and!; try done. by eapply has_next_end.
Qed.

Definition roundtrip_values : list prim := [PInt 7; PLong (2 ^ 40 + 5); PString (Some [112; 105]); PRectangle 320 240].
Lemma pod_struct_roundtrip_witness :
  (kept <$> roundtrip_values) = [true; false; true; true] /\
  exists b it gs it',
    spa_pod_builder_addv (spa_pod_builder_init (mkFixed (zeros 128) 128))
      (AStruct 0 :: (APrim <$> roundtrip_values) ++ [APop 0]) = Done b /\
    Pod.offset b = 72 /\
    spa_pod_iter_struct (fixed_data (bw b)) 72 = Done it /\
    spa_pod_iter_getv (prim_type <$> roundtrip_values) it = Done (gs, it') /\
    Forall2 (read_back (it_mem it)) gs roundtrip_values /\
    spa_pod_iter_has_next it' = Done false.
Proof.
  split; [reflexivity |]. apply (pod_struct_roundtrip 0 roundtrip_values (mkFixed (zeros 128) 128)).
  - repeat constructor.
  - by vm_compute.
  - by vm_compute.
  - by vm_compute.
Defined.
