(* ===== verification/Connection.v ===== *)
(** [pinos/client/connection.c]: framing of messages over a stream socket.

    A connection keeps an input and an output [ConnectionBuffer]. Memory blocks are
    byte lists as long as the block; [malloc] and [realloc] succeed (the code does
    not check them) and leave the bytes nobody wrote to [Heap]. The socket is the
    sequence of results its [recvmsg] calls still have to give; [errno] values
    other than [EINTR] are [RecvError]; an orderly shutdown is [RecvData [] []]. *)
From S2P Require Import Prelude Defs.

Definition MAX_BUFFER_SIZE : Z := 4096.
Definition MAX_FDS : Z := 28.

Record ConnectionBuffer := mkConnBuf {
  buffer_data : bytes; buffer_size : Z; buffer_maxsize : Z; fds : list Z;
  cb_offset : Z; cb_size : Z; update : bool }.

Record PinosConnectionImpl := mkConn { cn_in : ConnectionBuffer; cn_out : ConnectionBuffer }.

Inductive recv_event :=
| RecvIntr
| RecvError
| RecvData (d : bytes) (f : option (list Z)).
Abbreviation socket := (list recv_event).

Definition n_fds (buf : ConnectionBuffer) : Z := zlen (fds buf).

Definition pinos_connection_get_fd (conn : PinosConnectionImpl) (index : Z) : Z :=
  if index >=? n_fds (cn_in conn) then -1
  else default (-1) (fds (cn_in conn) !! Z.to_nat index).

Definition set_out (conn : PinosConnectionImpl) (buf : ConnectionBuffer) : PinosConnectionImpl :=
  mkConn (cn_in conn) buf.
Definition set_in (conn : PinosConnectionImpl) (buf : ConnectionBuffer) : PinosConnectionImpl :=
  mkConn buf (cn_out conn).

(** The returned index is unsigned: [-1] is [0xffffffff]. *)
Definition pinos_connection_add_fd (conn : PinosConnectionImpl) (fd : Z) : PinosConnectionImpl * Z :=
  let out := cn_out conn in
  match index_of (Z.eqb fd) (fds out) with
  | Some i => (conn, Z.of_nat i)
  | None =>
      let index := n_fds out in
      if index >=? MAX_FDS then (conn, u32 (-1))
      else (set_out conn (mkConnBuf (buffer_data out) (buffer_size out) (buffer_maxsize out)
              (fds out ++ [fd]) (cb_offset out) (cb_size out) (update out)), index)
  end.

Definition clear_buffer (buf : ConnectionBuffer) : ConnectionBuffer :=
  mkConnBuf (buffer_data buf) 0 (buffer_maxsize buf) [] 0 0 (update buf).

Definition with_update (buf : ConnectionBuffer) (v : bool) : ConnectionBuffer :=
  mkConnBuf (buffer_data buf) (buffer_size buf) (buffer_maxsize buf) (fds buf) (cb_offset buf) (cb_size buf) v.

Definition with_message (buf : ConnectionBuffer) (off size : Z) : ConnectionBuffer :=
  mkConnBuf (buffer_data buf) (buffer_size buf) (buffer_maxsize buf) (fds buf) off size (update buf).

Section Connection.
Context `{Heap}.

Definition connection_ensure_size (buf : ConnectionBuffer) (size : Z) : ConnectionBuffer :=
  if buffer_size buf + size >? buffer_maxsize buf then
    let maxsize := SPA_ROUND_UP_N (buffer_size buf + size) MAX_BUFFER_SIZE in
    mkConnBuf (buffer_data buf ++ fresh (maxsize - buffer_maxsize buf)) (buffer_size buf) maxsize
      (fds buf) (cb_offset buf) (cb_size buf) (update buf)
  else buf.

(** [recvmsg] into the free part of the buffer: at most its length is taken, the
    rest of a chunk stays queued without the descriptors that came with it. *)
Inductive refill :=
| Refilled (buf : ConnectionBuffer) (s : socket)
| RefillError (s : socket)
| RefillBlocked
| RefillUndef.

Fixpoint refill_buffer (buf : ConnectionBuffer) (s : socket) : refill :=
  match s with
  | [] => RefillBlocked
  | RecvIntr :: s' => refill_buffer buf s'
  | RecvError :: s' => RefillError s'
  | RecvData d f :: s' =>
      let room := buffer_maxsize buf - buffer_size buf in
      let got := take (Z.to_nat room) d in
      let rest := drop (Z.to_nat room) d in
      match mwrite (buffer_size buf) got (buffer_data buf) with
      | None => RefillUndef
      | Some data =>
          Refilled (mkConnBuf data (buffer_size buf + zlen got) (buffer_maxsize buf)
                      (default (fds buf) f) (cb_offset buf) (cb_size buf) (update buf))
                   (if decide (rest = []) then s' else RecvData rest None :: s')
      end
  end.

Definition pinos_connection_new : PinosConnectionImpl :=
  mkConn (mkConnBuf (fresh MAX_BUFFER_SIZE) 0 MAX_BUFFER_SIZE [] 0 0 true)
         (mkConnBuf (fresh MAX_BUFFER_SIZE) 0 MAX_BUFFER_SIZE [] 0 0 false).

(** What [pinos_connection_get_next] returns. [NextBlocked]: the call is still in
    [recvmsg] when the events run out. [NextUndef]: an access outside the block, or
    no fuel left; [next_total] shows that neither happens. [data] is the memory from
    the payload on. *)
Inductive next :=
| NextMsg (opcode dest_id : Z) (data : bytes) (sz : Z)
| NextFalse
| NextBlocked
| NextUndef.

(** The code from label [again] on; each turn takes part of an event. *)
Fixpoint next_loop (fuel : nat) (buf : ConnectionBuffer) (s : socket) : next * ConnectionBuffer * socket :=
  match fuel with
  | O => (NextUndef, buf, s)
  | S fuel' =>
      match (if update buf then refill_buffer buf s else Refilled buf s) with
      | RefillBlocked => (NextBlocked, buf, s)
      | RefillUndef => (NextUndef, buf, s)
      | RefillError s => (NextFalse, buf, s)
      | Refilled buf s =>
          let buf := with_update buf false in
          if cb_offset buf >=? buffer_size buf
          then (NextFalse, with_update (clear_buffer buf) true, s)
          else
            let size := buffer_size buf - cb_offset buf in
            if size <? 8 then next_loop fuel' (with_update (connection_ensure_size buf 8) true) s
            else
              match load32 (cb_offset buf) (buffer_data buf), load32 (cb_offset buf + 4) (buffer_data buf) with
              | Some p0, Some p1 =>
                  let len := Z.land p1 16777215 in
                  if len >? size - 8
                  then next_loop fuel' (with_update (connection_ensure_size buf len) true) s
                  else (NextMsg (Z.shiftr p1 24) p0 (drop (Z.to_nat (cb_offset buf + 8)) (buffer_data buf)) len,
                        with_message buf (cb_offset buf + 8) len, s)
              | _, _ => (NextUndef, buf, s)
              end
      end
  end.

Definition sock_measure (s : socket) : nat :=
  sum_list (map (fun e => match e with RecvData d _ => S (length d) | _ => 1%nat end) s).

Definition pinos_connection_get_next (buf : ConnectionBuffer) (s : socket) : next * ConnectionBuffer * socket :=
  next_loop (S (S (sock_measure s))) (with_message buf (cb_offset buf + cb_size buf) (cb_size buf)) s.

(** The result is the offset of the payload in the block. *)
Definition pinos_connection_begin_write (buf : ConnectionBuffer) (size : Z) : ConnectionBuffer * Z :=
  let buf := connection_ensure_size buf (8 + size) in (buf, buffer_size buf + 8).

(** [need_flush] is signalled to the loop afterwards. *)
Definition pinos_connection_end_write (buf : ConnectionBuffer) (dest_id opcode size : Z) : outcome ConnectionBuffer :=
  let buf := connection_ensure_size buf (8 + size) in
  let* data := of_option (mwrite (buffer_size buf) (le32 dest_id) (buffer_data buf)) in
  let* data := of_option (mwrite (buffer_size buf + 4)
                 (le32 (Z.lor (u32 (Z.shiftl opcode 24)) (Z.land size 16777215))) data) in
  Done (mkConnBuf data (buffer_size buf + (8 + size)) (buffer_maxsize buf) (fds buf)
          (cb_offset buf) (cb_size buf) (update buf)).
End Connection.

(** ** Sending *)

Inductive send_event :=
| SendIntr
| SendError
| SendOk (len : Z).

(** The bytes and descriptors handed to [sendmsg], if it was called. *)
Record sent := mkSent { sent_data : bytes; sent_fds : list Z }.

Definition flush_sent (buf : ConnectionBuffer) (len : Z) : sent :=
  mkSent (take (Z.to_nat len) (take (Z.to_nat (buffer_size buf)) (buffer_data buf))) (Z.abs <$> fds buf).

(** [Refuse] is the [false] return; without an event the call is still in [sendmsg]. *)
Fixpoint flush_loop (buf : ConnectionBuffer) (es : list send_event) : outcome (ConnectionBuffer * option sent) :=
  match es with
  | SendIntr :: es' => flush_loop buf es'
  | SendOk len :: _ =>
      Done (mkConnBuf (buffer_data buf) (buffer_size buf - len) (buffer_maxsize buf) []
              (cb_offset buf) (cb_size buf) (update buf), Some (flush_sent buf len))
  | SendError :: _ | [] => Refuse
  end.

Definition pinos_connection_flush (buf : ConnectionBuffer) (es : list send_event) :
    outcome (ConnectionBuffer * option sent) :=
  if buffer_size buf =? 0 then Done (buf, None) else flush_loop buf es.

Definition pinos_connection_clear (conn : PinosConnectionImpl) : PinosConnectionImpl :=
  mkConn (with_update (clear_buffer (cn_in conn)) true) (clear_buffer (cn_out conn)).

(** ** Messages and the bytes they make *)

Record message := mkMsg { m_dest : Z; m_opcode : Z; m_payload : bytes }.

Definition msg_ok (m : message) : Prop :=
  is_u32 (m_dest m) /\ 0 <= m_opcode m < 256 /\ zlen (m_payload m) < 2 ^ 24.

Definition enc_msg (m : message) : bytes :=
  le32 (m_dest m) ++ le32 (m_opcode m * 2 ^ 24 + zlen (m_payload m)) ++ m_payload m.

Lemma zlen_enc_msg m : zlen (enc_msg m) = 8 + zlen (m_payload m).
Proof. unfold enc_msg. zlia. Qed.
#[export] Hint Rewrite zlen_enc_msg : zlen.

(** The second word of a message header, packed and unpacked. *)
Lemma header_pack op len : 0 <= op < 256 -> 0 <= len < 2 ^ 24 ->
  Z.lor (u32 (Z.shiftl op 24)) (Z.land len 16777215) = op * 2 ^ 24 + len.
Proof.
  intros Hop Hlen. rewrite Z.shiftl_mul_pow2 by lia. rewrite u32_small by (unfold is_u32; lia).
  change 16777215 with (2 ^ 24 - 1). rewrite land_low, Z.mod_small by lia.
  assert (Z.land (op * 2 ^ 24) len = 0) as Hdisj.
  { apply Z.bits_inj'. intros n Hn. rewrite Z.land_spec, Z.bits_0. destruct (Z.ltb_spec n 24).
    - by rewrite Z.mul_pow2_bits_low by lia.
    - rewrite <- (Z.mod_small len (2 ^ 24)) by lia. by rewrite Z.mod_pow2_bits_high, andb_false_r by lia. }
  by rewrite Z.add_nocarry_lxor, Z.lxor_lor by done.
Qed.

Lemma header_opcode op len : 0 <= len < 2 ^ 24 -> Z.shiftr (op * 2 ^ 24 + len) 24 = op.
Proof.
  intros. rewrite Z.shiftr_div_pow2, Z.add_comm, Z.div_add, Z.div_small by lia. lia.
Qed.

Lemma header_length op len : 0 <= len < 2 ^ 24 -> Z.land (op * 2 ^ 24 + len) 16777215 = len.
Proof.
  intros. change 16777215 with (2 ^ 24 - 1).
  rewrite land_low, Z.add_comm, Z.mod_add, Z.mod_small by lia. done.
Qed.

(** The written part of a buffer. *)
Definition holds (buf : ConnectionBuffer) (v : bytes) : Prop :=
  exists tail, buffer_data buf = v ++ tail /\ buffer_size buf = zlen v /\
               buffer_maxsize buf = zlen v + zlen tail.

Lemma holds_update buf v b : holds buf v -> holds (with_update buf b) v.
Proof. done. Qed.
Lemma holds_message buf v o n : holds buf v -> holds (with_message buf o n) v.
Proof. done. Qed.

Section Framing.
Context `{Heap}.

Lemma ensure_size_ok buf v n :
  holds buf v -> 0 <= n ->
  let buf' := connection_ensure_size buf n in
  holds buf' v /\ zlen v + n <= buffer_maxsize buf' /\ buffer_maxsize buf <= buffer_maxsize buf' /\
  cb_offset buf' = cb_offset buf /\ cb_size buf' = cb_size buf /\ fds buf' = fds buf /\ update buf' = update buf.
Proof.
  intros (tail & Hd & Hs & Hm) Hn. unfold connection_ensure_size. rewrite Z.gtb_ltb. case_if; simpl.
  - pose proof (ROUND_UP_4096_bounds (buffer_size buf + n)) as Hr. unfold MAX_BUFFER_SIZE.
    split_and!; try done; try lia.
    exists (tail ++ fresh (SPA_ROUND_UP_N (buffer_size buf + n) 4096 - buffer_maxsize buf)). simpl.
    rewrite zlen_app, fresh_len by lia. rewrite Hd, <- app_assoc. split_and!; [done | done | lia].
  - split_and!; try done; try lia. by exists tail.
Qed.

(** *** Writing *)

Lemma mwrite_holds buf v d tail :
  buffer_data buf = v ++ tail -> zlen d <= zlen tail ->
  mwrite (zlen v) d (buffer_data buf) = Some (v ++ d ++ drop (length d) tail).
Proof.
  intros -> Hl. assert (tail = take (length d) tail ++ drop (length d) tail) as Ht by (symmetry; apply take_drop).
  rewrite Ht at 1. apply mwrite_app; [done |]. rewrite zlen_take. unfold zlen in *. lia.
Qed.

(** What [end_write] needs: the payload already in place behind the header. *)
Definition payload_at (buf : ConnectionBuffer) (v payload : bytes) : Prop :=
  exists hdr tail, buffer_data buf = v ++ hdr ++ payload ++ tail /\ zlen hdr = 8 /\
    buffer_size buf = zlen v /\ buffer_maxsize buf = zlen v + 8 + zlen payload + zlen tail.

Lemma end_write_ok buf v m :
  payload_at buf v (m_payload m) -> msg_ok m ->
  exists buf', pinos_connection_end_write buf (m_dest m) (m_opcode m) (zlen (m_payload m)) = Done buf' /\
    holds buf' (v ++ enc_msg m) /\ fds buf' = fds buf.
Proof.
  intros (hdr & tail & Hd & Hh & Hs & Hm) (Hid & Hop & Hlen). pose proof (zlen_nonneg (m_payload m)).
  unfold pinos_connection_end_write, connection_ensure_size. rewrite Z.gtb_ltb.
  pose proof (zlen_nonneg tail). case_if; [lia |].
  assert (exists a b, hdr = a ++ b /\ zlen a = 4 /\ zlen b = 4) as (a & b & -> & Ha & Hb).
  { exists (take 4 hdr), (drop 4 hdr). rewrite take_drop. split_and!; [done | zlia | zlia]. }
  rewrite Hd, Hs, <- app_assoc. rewrite mwrite_app by (done || zlia). simpl.
  rewrite (app_assoc v), mwrite_app by zlia. simpl. eexists. split; [done |]. split; [| done].
  rewrite header_pack by lia. exists tail. simpl. unfold enc_msg. rewrite <- !app_assoc.
  split_and!; [done | zlia | zlia].
Qed.

(** *** Reading *)

Definition sock_bytes (s : socket) : bytes :=
  concat (map (fun e => match e with RecvData d _ => d | _ => [] end) s).

(** No error and no shutdown: every event brings data or an interruption. *)
Definition sock_ok (s : socket) : Prop :=
  Forall (fun e => match e with RecvIntr => True | RecvError => False | RecvData d _ => d <> [] end) s.

Lemma refill_ok buf v s :
  holds buf v -> zlen v < buffer_maxsize buf -> sock_ok s -> sock_bytes s <> [] ->
  exists buf' s' got, refill_buffer buf s = Refilled buf' s' /\ got <> [] /\ holds buf' (v ++ got) /\
    sock_bytes s = got ++ sock_bytes s' /\ sock_ok s' /\ (sock_measure s' < sock_measure s)%nat /\
    buffer_maxsize buf' = buffer_maxsize buf /\
    cb_offset buf' = cb_offset buf /\ cb_size buf' = cb_size buf.
Proof.
  intros Hv Hroom. induction s as [|e s IH]; intros Hok Hne; [done |].
  apply Forall_cons in Hok as [He Hok]. destruct e as [| |d f]; [| done |].
  { destruct (IH Hok Hne) as (buf' & s' & got & Hr & Hg & Hh & Hb & Hs & Hlt & Hrest).
    exists buf', s', got. unfold sock_measure in *. simpl. split_and!; try done; [lia | apply Hrest..]. }
  destruct Hv as (tail & Hd & Hs & Hm). simpl refill_buffer.
  set (got := take _ d). set (rest := drop _ d).
  assert (d = got ++ rest) as Hsplit by (symmetry; apply take_drop).
  assert (zlen got <= zlen tail) as Hfit by (unfold got; rewrite zlen_take; lia).
  assert (got <> []) as Hgot.
  { intros Hg. apply (f_equal zlen) in Hg. unfold got in Hg. rewrite zlen_take, zlen_nil in Hg.
    destruct d; [done | rewrite zlen_cons in Hg; pose proof (zlen_nonneg d); lia]. }
  rewrite Hs, (mwrite_holds buf v got tail Hd Hfit).
  eexists _, _, got. split; [done |]. simpl. split_and!; try done.
  - exists (drop (length got) tail). simpl. rewrite <- app_assoc. split_and!; [done | zlia |].
    rewrite zlen_app, zlen_drop. unfold zlen in *. lia.
  - unfold sock_bytes. simpl. rewrite Hsplit at 1. case_decide as Hr; simpl; rewrite <- app_assoc; [by rewrite Hr | done].
  - case_decide; [done | by constructor].
  - unfold sock_measure. assert (0 < length got)%nat by (destruct got; simpl; [done | lia]).
    assert (length d = length got + length rest)%nat by (rewrite Hsplit at 1; apply length_app).
    case_decide; simpl; lia.
Qed.

(** Between calls: what is buffered but not yet read, and what the socket will bring. *)
Record reading (buf : ConnectionBuffer) (s : socket) (pending : bytes) : Prop := {
  rd_pos : 0 <= cb_offset buf /\ 0 <= cb_size buf;
  rd_max : 0 < buffer_maxsize buf;
  rd_sock : sock_ok s;
  rd_held : exists v, holds buf v /\ cb_offset buf + cb_size buf <= zlen v /\
              (update buf = true -> v = []) /\
              pending = drop (Z.to_nat (cb_offset buf + cb_size buf)) v ++ sock_bytes s
}.

(** The loop from [again] on finds the message that stands first. *)
Lemma next_loop_ok fuel buf v s m rest :
  holds buf v -> 0 <= cb_offset buf <= zlen v -> sock_ok s -> msg_ok m ->
  drop (Z.to_nat (cb_offset buf)) v ++ sock_bytes s = enc_msg m ++ rest ->
  (if update buf then zlen v < buffer_maxsize buf /\ sock_bytes s <> [] else cb_offset buf < zlen v) ->
  (sock_measure s + (if update buf then 0 else 1) < fuel)%nat ->
  exists buf' s' tail,
    next_loop fuel buf s = (NextMsg (m_opcode m) (m_dest m) (m_payload m ++ tail) (zlen (m_payload m)), buf', s') /\
    reading buf' s' rest /\ update buf' = false.
Proof.
  revert buf v s; induction fuel as [|fuel IH]; intros buf v s Hh Hoff Hok Hm Hpend Hupd Hfuel; [lia |].
  cbn [next_loop].
  (* the buffer after the refill *)
  assert (exists buf1 s1 v1,
    (if update buf then refill_buffer buf s else Refilled buf s) = Refilled buf1 s1 /\
    holds buf1 v1 /\ cb_offset buf1 = cb_offset buf /\ cb_offset buf < zlen v1 /\ sock_ok s1 /\
    drop (Z.to_nat (cb_offset buf)) v1 ++ sock_bytes s1 = enc_msg m ++ rest /\ (sock_measure s1 < fuel)%nat)
    as (buf1 & s1 & v1 & -> & Hh1 & Ho1 & Hlt1 & Hok1 & Hpend1 & Hfuel1).
  { destruct (update buf).
    - destruct Hupd as [Hroom Hne].
      destruct (refill_ok buf v s Hh Hroom Hok Hne) as (buf1 & s1 & got & Hr & Hg & Hh1 & Hb & Hok1 & Hlt & _ & Ho & _).
      exists buf1, s1, (v ++ got). assert (0 < zlen got) by (destruct got; [done | zlia]).
      split_and!; try done; [zlia | | lia].
      rewrite drop_app_le by (unfold zlen in *; lia). by rewrite <- app_assoc, <- Hb.
    - exists buf, s, v. split_and!; try done. lia. }
  clear Hh Hok Hpend Hupd Hfuel s. assert (0 <= cb_offset buf1) as Hoff1 by lia.
  rewrite <- Ho1 in *. clear Ho1 Hoff v.
  set (off := cb_offset buf1) in *. set (u := drop (Z.to_nat off) v1) in *.
  assert (zlen u = zlen v1 - off) as Hu by (unfold u; rewrite zlen_drop; lia).
  assert (v1 = take (Z.to_nat off) v1 ++ u) as Hv1 by (symmetry; apply take_drop).
  assert (zlen (take (Z.to_nat off) v1) = off) as Hpre by (rewrite zlen_take; lia).
  destruct Hh1 as (tail & Hd1 & Hs1 & Hm1). pose proof Hm as (Hid & Hop & Hlen).
  change (buffer_size (with_update buf1 false)) with (buffer_size buf1). rewrite Hs1.
  change (cb_offset (with_update buf1 false)) with off. rewrite Z.geb_leb. case_if; [lia |].
  assert (forall n, 0 <= n -> zlen u < 8 + zlen (m_payload m) -> zlen v1 < zlen v1 + n ->
    exists buf' s' tail0,
      next_loop fuel (with_update (connection_ensure_size (with_update buf1 false) n) true) s1 =
      (NextMsg (m_opcode m) (m_dest m) (m_payload m ++ tail0) (zlen (m_payload m)), buf', s') /\
      reading buf' s' rest /\ update buf' = false) as Hagain.
  { intros n Hn Hshort Hpos.
    destruct (ensure_size_ok (with_update buf1 false) v1 n) as (Hh2 & Hroom & _ & Ho2 & _); [by exists tail | done |].
    apply IH with (v := v1); try done; simpl; rewrite ?Ho2; [simpl; fold off; lia | done | | lia].
    split; [lia |]. intros Hnil. rewrite Hnil, app_nil_r in Hpend1. apply (f_equal zlen) in Hpend1.
    rewrite zlen_app, zlen_enc_msg in Hpend1. pose proof (zlen_nonneg rest). lia. }
  pose proof (zlen_nonneg (m_payload m)).
  case_if; [apply Hagain; lia |].
  unfold enc_msg in Hpend1. rewrite <- !app_assoc in Hpend1.
  destruct (app_prefix _ _ _ _ Hpend1) as (u1 & Hu1 & Hp1); [zlia |]. symmetry in Hp1.
  assert (zlen u = 4 + zlen u1) by (rewrite Hu1; zlia).
  destruct (app_prefix _ _ _ _ Hp1) as (u2 & Hu2 & Hp2); [zlia |].
  set (pre := take (Z.to_nat off) v1) in *.
  assert (buffer_data (with_update buf1 false) =
    pre ++ le32 (m_dest m) ++ le32 (m_opcode m * 2 ^ 24 + zlen (m_payload m)) ++ u2 ++ tail) as Hdata.
  { change (buffer_data (with_update buf1 false)) with (buffer_data buf1).
    rewrite Hd1, Hv1, Hu1, Hu2, <- !app_assoc. done. }
  rewrite Hdata. rewrite load32_app by done. rewrite (app_assoc pre), load32_app by zlia.
  rewrite !u32_small by (unfold is_u32 in *; lia).
  rewrite header_length, header_opcode by lia. rewrite Z.gtb_ltb.
  assert (zlen u = 8 + zlen u2) by (rewrite Hu1, Hu2; zlia).
  case_if; [apply Hagain; lia |].
  symmetry in Hp2.
  destruct (app_prefix _ _ _ _ Hp2) as (u3 & Hu3 & Hp3); [lia |].
  eexists _, _, (u3 ++ tail). split; [do 3 f_equal |].
  - rewrite <- (app_assoc pre), (app_assoc pre), (app_assoc (pre ++ _)).
    rewrite drop_zlen_app by zlia. by rewrite Hu3, <- app_assoc.
  - split; [| done]. split; simpl; fold off; [lia | zlia | done |].
    exists v1. split_and!; [by exists tail | lia | done |].
    rewrite Hp3. f_equal.
    rewrite Hv1, Hu1, Hu2, Hu3. rewrite (app_assoc (le32 _)), (app_assoc _ (m_payload m)), (app_assoc pre).
    rewrite drop_zlen_app by zlia. done.
Qed.

(** One call: the first pending message, or [false] once the buffer is used up. *)
Lemma get_next_ok buf s m rest :
  reading buf s (enc_msg m ++ rest) -> msg_ok m ->
  exists buf' s',
    (reading buf' s' (enc_msg m ++ rest) /\ update buf = false /\ update buf' = true /\
     pinos_connection_get_next buf s = (NextFalse, buf', s')) \/
    (reading buf' s' rest /\ update buf' = false /\ exists tail,
     pinos_connection_get_next buf s =
       (NextMsg (m_opcode m) (m_dest m) (m_payload m ++ tail) (zlen (m_payload m)), buf', s')).
Proof.
  intros [[Ho Hz] Hmax Hok (v & Hh & Hle & Hup & Hp)] Hm. unfold pinos_connection_get_next.
  assert (0 < zlen (enc_msg m ++ rest)) as Hpos by (pose proof (zlen_nonneg (m_payload m)); zlia).
  set (buf0 := with_message buf (cb_offset buf + cb_size buf) (cb_size buf)).
  destruct (decide (update buf = false /\ cb_offset buf + cb_size buf = zlen v)) as [[Hu Heq] | Hneq].
  - exists (with_update (clear_buffer (with_update buf0 false)) true), s. left. cbn [next_loop]. change (update buf0) with (update buf). rewrite Hu.
    destruct Hh as (tail & Hd & Hs & Hmx).
    change (buffer_size (with_update buf0 false)) with (buffer_size buf).
    change (cb_offset (with_update buf0 false)) with (cb_offset buf + cb_size buf).
    rewrite Hs, Z.geb_leb. case_if; [| lia].
    rewrite Heq, to_nat_zlen, drop_all in Hp. split_and!; [| done | done | done].
    split; simpl; [lia | done | done |]. exists []. split_and!; [| by compute | done | done].
    exists (v ++ tail). simpl. split_and!; [done | done | zlia].
  - edestruct (next_loop_ok (S (S (sock_measure s))) buf0 v s m rest) as (buf' & s' & tail & Hr & Hrd & Hu').
    + done.
    + simpl. lia.
    + done.
    + done.
    + done.
    + simpl. destruct (update buf) eqn:Hu.
      * rewrite (Hup eq_refl) in *. split; [done |]. rewrite drop_nil in Hp. simpl in Hp.
        intros Hnil. rewrite Hp, Hnil in Hpos. done.
      * destruct (decide (cb_offset buf + cb_size buf = zlen v)); [by destruct Hneq | lia].
    + destruct (update buf0); lia.
    + exists buf', s'. right. split; [done |]. split; [done |]. by exists tail.
Qed.

(** Calling [get_next] [n] times, as the I/O callbacks do whenever the socket is readable. *)
Fixpoint poll (n : nat) (buf : ConnectionBuffer) (s : socket) : list message :=
  match n with
  | O => []
  | S n' =>
      match pinos_connection_get_next buf s with
      | (NextMsg op id data sz, buf, s) => mkMsg id op (take (Z.to_nat sz) data) :: poll n' buf s
      | (NextFalse, buf, s) => poll n' buf s
      | _ => []
      end
  end.

Definition enc_msgs (ms : list message) : bytes := concat (map enc_msg ms).

Lemma sock_drained s : sock_ok s -> sock_bytes s = [] -> Forall (eq RecvIntr) s.
Proof.
  induction 1 as [|e s He _ IH]; [constructor |]. unfold sock_bytes. simpl. intros [Hd Hs]%app_nil.
  constructor; [destruct e; naive_solver | auto].
Qed.

Lemma refill_blocked buf s : Forall (eq RecvIntr) s -> refill_buffer buf s = RefillBlocked.
Proof. induction 1 as [|e s <- _ IH]; done. Qed.

Lemma get_next_nil buf s :
  reading buf s [] -> exists r buf' s', pinos_connection_get_next buf s = (r, buf', s') /\
    (r = NextBlocked \/ r = NextFalse /\ reading buf' s' []).
Proof.
  intros [[Ho Hz] Hmax Hok (v & Hh & Hle & Hup & Hp)].
  symmetry in Hp. apply app_nil in Hp as [Hv Hs].
  apply (f_equal zlen) in Hv. assert (zlen v <= cb_offset buf + cb_size buf) by zlia. clear Hv.
  unfold pinos_connection_get_next. cbn [next_loop].
  change (update (with_message _ _ _)) with (update buf). destruct (update buf) eqn:Hu.
  - rewrite refill_blocked by by apply sock_drained. eexists _, _, _. split; [done |]. by left.
  - destruct Hh as (tail & Hd & Hsz & Hmx). simpl. rewrite Hsz, Z.geb_leb. case_if; [| lia].
    eexists _, _, _. split; [done |]. right. split; [done |]. split; simpl; [lia | done | done |].
    exists []. split_and!; [| by compute | done | by rewrite Hs].
    exists (v ++ tail). simpl. split_and!; [done | done | zlia].
Qed.

Lemma poll_nil n buf s : reading buf s [] -> poll n buf s = [].
Proof.
  revert buf s; induction n as [|n IH]; intros buf s Hr; [done |]. cbn [poll].
  destruct (get_next_nil buf s Hr) as (r & buf' & s' & -> & [-> | [-> Hr']]); [done | by apply IH].
Qed.

Lemma poll_ok ms n buf s :
  reading buf s (enc_msgs ms) -> Forall msg_ok ms -> (2 * length ms <= n)%nat -> poll n buf s = ms.
Proof.
  revert n buf s. induction ms as [|m ms IH]; intros n buf s Hrd Hms Hn; [by apply poll_nil |].
  apply Forall_cons in Hms as [Hm Hms]. change (enc_msgs (m :: ms)) with (enc_msg m ++ enc_msgs ms) in Hrd.
  simpl length in Hn.
  assert (forall n buf s buf' s' tail, (2 * length ms <= n)%nat -> reading buf' s' (enc_msgs ms) ->
    pinos_connection_get_next buf s =
      (NextMsg (m_opcode m) (m_dest m) (m_payload m ++ tail) (zlen (m_payload m)), buf', s') ->
    poll (S n) buf s = m :: ms) as Hhit.
  { intros k b t b' t' tail Hk Hb' Hg. cbn [poll]. rewrite Hg, take_zlen_app by done.
    rewrite IH by done. by destruct m. }
  destruct n as [|[|n]]; [lia | lia |].
  destruct (get_next_ok buf s m _ Hrd Hm) as (buf1 & s1 & [(Hrd1 & _ & Hu1 & Hg) | (Hrd1 & _ & tail & Hg)]).
  - cbn [poll]. rewrite Hg. fold poll.
    destruct (get_next_ok buf1 s1 m _ Hrd1 Hm) as (buf2 & s2 & [(_ & Hu & _) | (Hrd2 & _ & tail & Hg2)]);
      [congruence |].
    eapply (Hhit n); [lia | done | done].
  - eapply Hhit; [lia | done | done].
Qed.

Lemma sock_bytes_data l f : sock_bytes (map (fun d => RecvData d f) l) = concat l.
Proof. unfold sock_bytes. rewrite map_map. by rewrite map_id. Qed.

(** C5: message delivery: whatever way the stream cuts the bytes of a sequence of messages into
    non-empty pieces, and however often [recvmsg] is interrupted, reading a fresh
    connection hands over exactly the messages sent, in order, each with its
    destination, opcode and payload; two calls per message are enough, none of them
    reads outside the buffer, and the buffer grows to fit each message. *)
Theorem connection_delivery ms s :
  Forall msg_ok ms -> sock_ok s -> sock_bytes s = enc_msgs ms ->
  forall n, (2 * length ms <= n)%nat -> poll n (cn_in pinos_connection_new) s = ms.
Proof.
  intros Hms Hs Hb n Hn. apply poll_ok; try done. split; simpl; [done | done | done |].
  exists []. split_and!; try done. exists (fresh MAX_BUFFER_SIZE). simpl. split_and!; [done | done |].
  by rewrite zlen_nil, fresh_len by done.
Qed.

(** *** Any peer *)

(** What holds of an input buffer whatever arrived and whatever failed. *)
Record safe (buf : ConnectionBuffer) : Prop := {
  sf_pos : 0 <= cb_offset buf /\ 0 <= cb_size buf;
  sf_max : 0 < buffer_maxsize buf;
  sf_held : exists v, holds buf v /\ (update buf = true -> zlen v < buffer_maxsize buf)
}.

Lemma refill_any buf v s :
  holds buf v -> zlen v < buffer_maxsize buf ->
  match refill_buffer buf s with
  | Refilled buf' s' => (exists v', holds buf' v') /\ (sock_measure s' < sock_measure s)%nat /\
      buffer_maxsize buf' = buffer_maxsize buf /\ cb_offset buf' = cb_offset buf /\ cb_size buf' = cb_size buf
  | RefillError _ | RefillBlocked => True
  | RefillUndef => False
  end.
Proof.
  intros Hv Hroom. induction s as [|[| |d f] s IH]; [done | | done |].
  { simpl. destruct (refill_buffer buf s); try done. unfold sock_measure in *. simpl. intuition lia. }
  destruct Hv as (tail & Hd & Hs & Hm). simpl refill_buffer.
  set (got := take _ d). set (rest := drop _ d).
  assert (d = got ++ rest) as Hsplit by (symmetry; apply take_drop).
  assert (zlen got <= zlen tail) as Hfit by (unfold got; rewrite zlen_take; lia).
  rewrite Hs, (mwrite_holds buf v got tail Hd Hfit). simpl. split_and!; try done.
  - exists (v ++ got), (drop (length got) tail). simpl. rewrite <- app_assoc. split_and!; [done | zlia |].
    rewrite zlen_app, zlen_drop. unfold zlen in *. lia.
  - unfold sock_measure. case_decide as Hr; simpl; [lia |].
    assert (0 < length got)%nat; [| apply (f_equal length) in Hsplit; rewrite length_app in Hsplit; lia].
    unfold got. rewrite length_take. unfold rest in Hr. destruct d; [by rewrite drop_nil in Hr |]. simpl. lia.
Qed.

Lemma next_loop_safe fuel buf v s :
  holds buf v -> 0 <= cb_offset buf -> 0 <= cb_size buf -> 0 < buffer_maxsize buf ->
  (update buf = true -> zlen v < buffer_maxsize buf) ->
  (sock_measure s + (if update buf then 0 else 1) < fuel)%nat ->
  match next_loop fuel buf s with
  | (NextUndef, _, _) => False
  | (NextMsg op id data sz, buf', s') => safe buf' /\ 0 <= sz <= zlen data /\ sz < 2 ^ 24
  | (_, buf', _) => safe buf'
  end.
Proof.
  revert buf v s; induction fuel as [|fuel IH]; intros buf v s Hh Ho Hz Hmax Hupd Hfuel; [lia |].
  cbn [next_loop].
  assert (match (if update buf then refill_buffer buf s else Refilled buf s) with
          | Refilled buf' s' => (exists v', holds buf' v') /\ (sock_measure s' < fuel)%nat /\
              0 < buffer_maxsize buf' /\ 0 <= cb_offset buf' /\ 0 <= cb_size buf'
          | RefillError _ | RefillBlocked => True
          | RefillUndef => False
          end) as Href.
  { destruct (update buf) eqn:Hu.
    - pose proof (refill_any buf v s Hh (Hupd eq_refl)) as Hr. destruct (refill_buffer buf s); try done.
      destruct Hr as (? & ? & -> & -> & ->). split_and!; try done; lia.
    - split_and!; try done; [by exists v | lia]. }
  assert (safe buf) as Hsafe by (split; [done | done | by exists v]).
  clear Hfuel.  destruct (if update buf then _ else _) as [buf1 s1 | s1 | |]; try done.
  destruct Href as ((v1 & tail & Hd1 & Hs1 & Hm1) & Hf1 & Hmax1 & Ho1 & Hz1). simpl.
  rewrite Hs1, Z.geb_leb. pose proof (zlen_nonneg tail). pose proof (zlen_nonneg v1). case_if.
  { split; simpl; [lia | done |]. exists []. split; [| done]. exists (v1 ++ tail).
    simpl. split_and!; [done | done | zlia]. }
  assert (forall n, 0 < n -> zlen v1 + n > zlen v1 -> 
    match next_loop fuel (with_update (connection_ensure_size (with_update buf1 false) n) true) s1 with
    | (NextUndef, _, _) => False
    | (NextMsg op id data sz, buf', s') => safe buf' /\ 0 <= sz <= zlen data /\ sz < 2 ^ 24
    | (_, buf', _) => safe buf'
    end) as Hagain.
  { intros n Hn _.
    destruct (ensure_size_ok (with_update buf1 false) v1 n) as (Hh2 & Hroom & Hmx2 & Ho2 & Hz2 & _);
      [by exists tail | lia |].
    apply (IH _ v1); simpl in *; [done | lia | lia | lia | intros _; lia | lia]. }
  case_if; [apply Hagain; lia |].
  assert (exists p0 p1, load32 (cb_offset buf1) (buffer_data buf1) = Some p0 /\
                        load32 (cb_offset buf1 + 4) (buffer_data buf1) = Some p1) as (p0 & p1 & -> & ->).
  { unfold load32.
    destruct (mread_defined (cb_offset buf1) 4 (buffer_data buf1)) as [a ->]; [lia | lia | rewrite Hd1; zlia |].
    destruct (mread_defined (cb_offset buf1 + 4) 4 (buffer_data buf1)) as [b ->]; [lia | lia | rewrite Hd1; zlia |].
    by eexists _, _. }
  pose proof (land_low p1 24 ltac:(lia)) as Hland. change (2 ^ 24 - 1) with 16777215 in Hland.
  pose proof (Z.mod_pos_bound p1 (2 ^ 24) ltac:(lia)). rewrite Z.gtb_ltb.
  case_if; [apply Hagain; lia |].
  split; [| rewrite Hd1, zlen_drop, zlen_app; lia].
  split; simpl; [lia | done |]. exists v1. split; [by exists tail | done].
Qed.

(** C39: memory safety of the framing: whatever a peer sends, however it is cut, and whatever
    errors or shutdowns [recvmsg] reports, reading messages never accesses memory
    outside the connection buffer, every message handed out lies inside it and is
    shorter than 16 MiB, and the loop ends or waits for more input. *)
Theorem get_next_safe buf s :
  safe buf ->
  match pinos_connection_get_next buf s with
  | (NextUndef, _, _) => False
  | (NextMsg op id data sz, buf', s') => safe buf' /\ 0 <= sz <= zlen data /\ sz < 2 ^ 24
  | (_, buf', _) => safe buf'
  end.
Proof.
  intros [[Ho Hz] Hmax (v & Hh & Hup)]. apply (next_loop_safe _ _ v); simpl; try done; [lia |].
  destruct (update buf); lia.
Qed.

Lemma safe_new : safe (cn_in pinos_connection_new).
Proof.
  split; simpl; [lia | done |]. exists []. split; [| done].
  exists (fresh MAX_BUFFER_SIZE). simpl. split_and!; [done | done |]. by rewrite fresh_len.
Qed.

(** *** Errors in the middle of a message *)

(** A buffered message cut inside its header. *)
Record cut_short (buf : ConnectionBuffer) (v : bytes) : Prop := {
  cs_held : holds buf v;
  cs_pos : 0 <= cb_offset buf /\ 0 <= cb_size buf;
  cs_cut : cb_offset buf + cb_size buf < zlen v < cb_offset buf + cb_size buf + 8;
  cs_update : update buf = false
}.

(** an error of [recvmsg] in the middle of a message (on a non-blocking socket,
    [EAGAIN] is one) moves the read position: the call returns [false] and the next
    call starts once more the size of the previous message further on, not where
    the unfinished message starts. *)
Theorem get_next_resume buf v s :
  cut_short buf v ->
  exists buf', pinos_connection_get_next buf (RecvError :: s) = (NextFalse, buf', s) /\
    cb_offset buf' + cb_size buf' = cb_offset buf + cb_size buf + cb_size buf /\
    (exists v', holds buf' v' /\ v' = v) /\ update buf' = true.
Proof.
  intros [Hh [Ho Hz] Hcut Hu].
  set (buf0 := with_message buf (cb_offset buf + cb_size buf) (cb_size buf)).
  destruct (ensure_size_ok (with_update buf0 false) v 8) as (Hh' & _ & _ & Ho' & Hz' & _); [done | lia |].
  destruct Hh as (tail & Hd & Hs & Hm).
  unfold pinos_connection_get_next. fold buf0. cbn [next_loop].
  change (update buf0) with (update buf). rewrite Hu. cbn [next_loop].
  change (buffer_size (with_update buf0 false)) with (buffer_size buf).
  change (cb_offset (with_update buf0 false)) with (cb_offset buf + cb_size buf).
  rewrite Hs, Z.geb_leb. case_if; [lia |]. case_if; [| lia]. simpl refill_buffer. cbn [update with_update].
  eexists. split; [done |]. cbn [cb_offset cb_size with_update]. rewrite Ho', Hz'. simpl.
  split_and!; [lia | by exists v | done].
Qed.

Lemma refill_app buf s t b s' : refill_buffer buf s = Refilled b s' -> refill_buffer buf (s ++ t) = Refilled b (s' ++ t).
Proof.
  induction s as [|[| |d f] s IH]; simpl; [done | done | done |]. destruct (mwrite _ _ _); [| done]. intros [= <- <-].
  by case_decide.
Qed.
Lemma refill_skip buf s t : Forall (eq RecvIntr) s -> refill_buffer buf (s ++ t) = refill_buffer buf t.
Proof. by induction 1 as [|e s <- _ IH]. Qed.

Lemma sock_measure_app s t : sock_measure (s ++ t) = (sock_measure s + sock_measure t)%nat.
Proof. unfold sock_measure. rewrite map_app. induction (map _ s); simpl in *; lia. Qed.
Lemma sock_measure_eof n : sock_measure (replicate n (RecvData [] None)) = n.
Proof. unfold sock_measure. induction n; simpl; lia. Qed.

(** Refilling from a socket that brings nothing but the end of the stream after [s]. *)
Lemma refill_eof buf v s n : holds buf v -> zlen v < buffer_maxsize buf -> sock_ok s ->
  refill_buffer buf (s ++ replicate n (RecvData [] None)) = RefillBlocked \/
  exists buf' s' n' got, refill_buffer buf (s ++ replicate n (RecvData [] None)) = Refilled buf' (s' ++ replicate n' (RecvData [] None)) /\
    holds buf' (v ++ got) /\ sock_bytes s = got ++ sock_bytes s' /\ (got = [] -> sock_bytes s = []) /\ sock_ok s' /\
    (sock_measure s' + n' < sock_measure s + n)%nat /\ cb_offset buf' = cb_offset buf.
Proof.
  intros Hh Hroom Hok. destruct (decide (sock_bytes s = [])) as [Hnil | Hne].
  - pose proof (sock_drained s Hok Hnil) as Hdr. rewrite (refill_skip _ _ _ Hdr). destruct n as [|n]; [by left | right].
    destruct Hh as (tail & Hd & Hs & Hm). cbn [replicate refill_buffer]. rewrite take_nil, drop_nil, Hs.
    rewrite (mwrite_holds buf v [] tail Hd) by (rewrite zlen_nil; zlia). rewrite decide_True by done.
    eexists _, [], n, []. split; [done |]. split_and!; try done; [| by constructor | unfold sock_measure; simpl; lia].
    exists tail. simpl. rewrite app_nil_r. unfold zlen in *. simpl. by rewrite Z.add_0_r.
  - right. destruct (refill_ok buf v s Hh Hroom Hok Hne) as (b & s' & got & Hr & Hg & Hh' & Hb & Hok' & Hlt & _ & Ho & _).
    exists b, s', n, got. split_and!; [by apply refill_app | done | done | done | done | lia | done].
Qed.

(** The header of a message, when eight bytes of it are there. *)
Lemma enc_prefix_header m u rest : msg_ok m -> enc_msg m = u ++ rest -> 8 <= zlen u ->
  exists u', u = le32 (m_dest m) ++ le32 (m_opcode m * 2 ^ 24 + zlen (m_payload m)) ++ u'.
Proof.
  intros Hm Hu Hl. unfold enc_msg in Hu. destruct (app_prefix _ _ _ _ (eq_sym Hu)) as (u1 & -> & Hp1); [zlia |].
  destruct (app_prefix _ _ _ _ (eq_sym Hp1)) as (u2 & -> & _); [revert Hl; zlia |]. by exists u2.
Qed.

(** The loop waits for the rest of the message, and reads nothing for ever. *)
Lemma next_loop_eof m w rest fuel : msg_ok m -> enc_msg m = w ++ rest -> rest <> [] -> forall buf v s n,
  holds buf v -> 0 <= cb_offset buf <= zlen v -> sock_ok s -> drop (Z.to_nat (cb_offset buf)) v ++ sock_bytes s = w -> w <> [] ->
  (if update buf then zlen v < buffer_maxsize buf else cb_offset buf < zlen v) ->
  (sock_measure s + n + (if update buf then 0 else 1) < fuel)%nat ->
  exists b' s', next_loop fuel buf (s ++ replicate n (RecvData [] None)) = (NextBlocked, b', s').
Proof.
  intros Hm Henc Hrest. induction fuel as [|fuel IH]; intros buf v s n Hh Hoff Hok Hw Hne Hupd Hfuel; [lia |]. cbn [next_loop].
  assert ((if update buf then refill_buffer buf (s ++ replicate n (RecvData [] None)) else Refilled buf (s ++ replicate n (RecvData [] None))) = RefillBlocked \/
    exists buf1 s1 n1 v1, (if update buf then refill_buffer buf (s ++ replicate n (RecvData [] None)) else Refilled buf (s ++ replicate n (RecvData [] None)))
        = Refilled buf1 (s1 ++ replicate n1 (RecvData [] None)) /\
      holds buf1 v1 /\ cb_offset buf1 = cb_offset buf /\ cb_offset buf < zlen v1 /\ sock_ok s1 /\
      drop (Z.to_nat (cb_offset buf)) v1 ++ sock_bytes s1 = w /\ (sock_measure s1 + n1 < fuel)%nat)
    as [-> | (buf1 & s1 & n1 & v1 & -> & Hh1 & Ho1 & Hlt1 & Hok1 & Hw1 & Hfuel1)]; [| by eexists _, _ |].
  { destruct (update buf); [| right; exists buf, s, n, v; split_and!; try done; lia].
    destruct (refill_eof buf v s n Hh Hupd Hok) as [-> | (buf1 & s1 & n1 & got & -> & Hh1 & Hb & Hg & Hok1 & Hlt & Ho)]; [by left | right].
    exists buf1, s1, n1, (v ++ got).
    assert (cb_offset buf < zlen (v ++ got)) as Hlt1.
    { destruct got as [|x got]; [| zlia]. rewrite app_nil_r. rewrite (Hg eq_refl), app_nil_r in Hw.
      apply (f_equal zlen) in Hw. rewrite zlen_drop in Hw. destruct w; [done |]. rewrite zlen_cons in Hw. pose proof (zlen_nonneg w). lia. }
    split_and!; try done; [| lia]. rewrite drop_app_le by (unfold zlen in *; lia). by rewrite <- app_assoc, <- Hb. }
  clear Hh Hok Hw Hupd Hfuel s n. assert (0 <= cb_offset buf1) as Hoff1 by lia. rewrite <- Ho1 in *. clear Ho1 Hoff v.
  set (off := cb_offset buf1) in *. set (u := drop (Z.to_nat off) v1) in *.
  assert (zlen u = zlen v1 - off) as Hu by (unfold u; rewrite zlen_drop; lia).
  pose proof Hh1 as (tail & Hd1 & Hs1 & Hm1).
  change (buffer_size (with_update buf1 false)) with (buffer_size buf1). rewrite Hs1.
  change (cb_offset (with_update buf1 false)) with off. rewrite Z.geb_leb. case_if; [lia |].
  assert (forall k, 0 < k -> exists b' s', next_loop fuel (with_update (connection_ensure_size (with_update buf1 false) k) true)
      (s1 ++ replicate n1 (RecvData [] None)) = (NextBlocked, b', s')) as Hagain.
  { intros k Hk. destruct (ensure_size_ok (with_update buf1 false) v1 k) as (Hh2 & Hroom & _ & Ho2 & _); [by exists tail | lia |].
    apply IH with (v := v1); simpl; rewrite ?Ho2; simpl; fold off; try done; lia. }
  case_if; [apply Hagain; lia |].
  assert (enc_msg m = u ++ sock_bytes s1 ++ rest) as Hencu by (by rewrite app_assoc, Hw1).
  destruct (enc_prefix_header m u _ Hm Hencu) as (u' & Hu'); [lia |]. pose proof Hm as (Hid & Hop & Hlen).
  assert (v1 = take (Z.to_nat off) v1 ++ u) as Hv1 by (symmetry; apply take_drop).
  assert (zlen (take (Z.to_nat off) v1) = off) as Hpre by (rewrite zlen_take; lia).
  set (pre := take (Z.to_nat off) v1) in *.
  assert (buffer_data (with_update buf1 false) = pre ++ le32 (m_dest m) ++ le32 (m_opcode m * 2 ^ 24 + zlen (m_payload m)) ++ u' ++ tail) as ->.
  { change (buffer_data (with_update buf1 false)) with (buffer_data buf1). by rewrite Hd1, Hv1, Hu', <- !app_assoc. }
  rewrite load32_app by done. rewrite (app_assoc pre), load32_app by zlia.
  rewrite !u32_small by (unfold is_u32 in *; pose proof (zlen_nonneg (m_payload m)); lia).
  rewrite header_length by (pose proof (zlen_nonneg (m_payload m)); lia). rewrite Z.gtb_ltb.
  apply (f_equal zlen) in Hencu. rewrite !zlen_app, zlen_enc_msg in Hencu. pose proof (zlen_nonneg (sock_bytes s1)).
  assert (0 < zlen rest) by (destruct rest; [done | zlia]).
  case_if; [apply Hagain; lia | lia].
Qed.

(** C40: A peer that closes its end in the middle of a message makes the loop spin. Whatever part
    of a message there is, of its header or of its payload, and however much of it is in the
    buffer already and how much the socket still brings, the call that reads it does not
    return, however many times [recvmsg] then reports the end of the stream. *)
Theorem get_next_eof buf s m w rest n :
  reading buf s w -> (update buf = false -> cb_offset buf + cb_size buf < buffer_size buf) ->
  msg_ok m -> enc_msg m = w ++ rest -> w <> [] -> rest <> [] ->
  exists buf' s', pinos_connection_get_next buf (s ++ replicate n (RecvData [] None)) = (NextBlocked, buf', s').
Proof.
  intros [[Ho Hz] Hmax Hok (v & Hh & Hle & Hup & Hp)] Hin Hm Henc Hne Hrest. unfold pinos_connection_get_next.
  apply (next_loop_eof m w rest _ Hm Henc Hrest) with (v := v); try done.
  - simpl. lia.
  - destruct Hh as (tail & _ & Hs & _). simpl. destruct (update buf); [by rewrite (Hup eq_refl) | rewrite <- Hs; auto].
  - rewrite sock_measure_app, sock_measure_eof. destruct (update _); lia.
Qed.

(** *** Flushing *)

Lemma flush_loop_intr buf k es : flush_loop buf (replicate k SendIntr ++ es) = flush_loop buf es.
Proof. induction k; done. Qed.

(** A flush retries interrupted sends, hands [sendmsg] the queued bytes and descriptors,
    and forgets the descriptors. After a send of all bytes the buffer is empty; after a
    send of [len] of them it holds the first bytes again, not the unsent ones. *)
Theorem flush_spec buf v k len es :
  holds buf v -> v <> [] -> 0 <= len <= zlen v ->
  exists buf' out, pinos_connection_flush buf (replicate k SendIntr ++ SendOk len :: es) = Done (buf', Some out) /\
    sent_data out = take (Z.to_nat len) v /\ sent_fds out = Z.abs <$> fds buf /\
    fds buf' = [] /\ holds buf' (take (Z.to_nat (zlen v - len)) v).
Proof.
  intros (tail & Hd & Hs & Hm) Hne Hlen. unfold pinos_connection_flush.
  assert (0 < zlen v) by (destruct v; [done | zlia]).
  case_if; [lia |]. rewrite flush_loop_intr. simpl. eexists _, _. split; [done |]. simpl.
  rewrite Hs, Hd, to_nat_zlen, take_app_length. split_and!; try done.
  exists (drop (Z.to_nat (zlen v - len)) v ++ tail). simpl. rewrite app_assoc, take_drop, zlen_take, zlen_app, zlen_drop.
  split_and!; [done | lia | lia].
Qed.
End Framing.

(** ** Witnesses *)

Definition hello : message := mkMsg 1 0 (le32 8 ++ le32 15 ++ le32 4 ++ le32 4).
Definition world : message := mkMsg 2 7 [].

Lemma connection_delivery_witness :
  let bs := enc_msgs [hello; world] in
  poll 4 (cn_in pinos_connection_new) [RecvData (take 3 bs) None; RecvIntr; RecvData (drop 3 bs) (Some [5])] = [hello; world].
Proof.
  intros bs. apply (connection_delivery [hello; world]).
  - repeat constructor; by vm_compute.
  - repeat constructor; by vm_compute.
  - by vm_compute.
  - simpl. lia.
Defined.

Lemma get_next_safe_witness :
  match pinos_connection_get_next (cn_in pinos_connection_new) [RecvData [1; 0; 0; 0; 255; 255; 255; 3] None; RecvError] with
  | (NextUndef, _, _) => False
  | (NextMsg op id data sz, buf', s') => safe buf' /\ 0 <= sz <= zlen data /\ sz < 2 ^ 24
  | (_, buf', _) => safe buf'
  end.
Proof. apply get_next_safe, safe_new. Defined.

(** The buffer after [hello] was read from a chunk that also held 4 bytes of the next message. *)
Definition half_read : ConnectionBuffer :=
  mkConnBuf (enc_msg hello ++ take 4 (enc_msg hello) ++ replicate 4000 0) 28 4028 [] 8 16 false.

Lemma half_read_cut : cut_short half_read (enc_msg hello ++ take 4 (enc_msg hello)).
Proof.
  split; try by vm_compute.
  - exists (replicate 4000 0). split_and!; [| by vm_compute | by vm_compute]. simpl. by rewrite <- app_assoc.
Qed.

(** The message that was cut is lost when its other half arrives. *)
Lemma get_next_resume_witness :
  (exists buf', pinos_connection_get_next half_read [RecvError; RecvData (drop 4 (enc_msg hello)) None] =
      (NextFalse, buf', [RecvData (drop 4 (enc_msg hello)) None]) /\
    cb_offset buf' + cb_size buf' = 40 /\
    (exists v', holds buf' v' /\ v' = enc_msg hello ++ take 4 (enc_msg hello)) /\ update buf' = true) /\
  poll 3 half_read [RecvError; RecvData (drop 4 (enc_msg hello)) None] <> [hello].
Proof.
  split; [exact (get_next_resume half_read _ _ half_read_cut) | by vm_compute].
Defined.

(** Cut in the header, four bytes of which are in the buffer, and in the payload, of which a
    new connection is still to get twelve bytes and the header. *)
Lemma half_read_reading : reading half_read [] (take 4 (enc_msg hello)).
Proof.
  split; [by vm_compute | by vm_compute | by constructor |]. exists (enc_msg hello ++ take 4 (enc_msg hello)).
  split_and!; [apply half_read_cut | by vm_compute | done | by vm_compute].
Qed.
Lemma new_reading : reading (cn_in pinos_connection_new) [RecvData (take 20 (enc_msg hello)) None] (take 20 (enc_msg hello)).
Proof.
  split; [by vm_compute | by vm_compute | by repeat constructor |]. exists []. split_and!; [| by vm_compute | done | by vm_compute].
  exists (fresh MAX_BUFFER_SIZE). split_and!; by vm_compute.
Qed.

Lemma get_next_eof_witness :
  (exists buf' s', pinos_connection_get_next half_read (replicate 100 (RecvData [] None)) = (NextBlocked, buf', s')) /\
  (exists buf' s', pinos_connection_get_next (cn_in pinos_connection_new)
     (RecvData (take 20 (enc_msg hello)) None :: replicate 100 (RecvData [] None)) = (NextBlocked, buf', s')).
Proof.
  assert (msg_ok hello) as Hm by (split_and!; by vm_compute). split.
  - apply (get_next_eof half_read [] hello (take 4 (enc_msg hello)) (drop 4 (enc_msg hello)) 100 half_read_reading); by vm_compute.
  - apply (get_next_eof (cn_in pinos_connection_new) [RecvData (take 20 (enc_msg hello)) None] hello (take 20 (enc_msg hello)) (drop 20 (enc_msg hello)) 100 new_reading);
      by vm_compute.
Defined.

Lemma flush_spec_witness :
  let buf := mkConnBuf [1; 2; 3; 4; 0; 0] 4 6 [7; -8] 0 0 false in
  exists buf' out, pinos_connection_flush buf [SendIntr; SendOk 3] = Done (buf', Some out) /\
    sent_data out = [1; 2; 3] /\ sent_fds out = [7; 8] /\ fds buf' = [] /\ holds buf' [1].
Proof.
  apply (flush_spec (mkConnBuf [1; 2; 3; 4; 0; 0] 4 6 [7; -8] 0 0 false) [1; 2; 3; 4] 1 3 []).
  - by exists [0; 0].
  - done.
  - by vm_compute.
Defined.
