(* ===== verification/Dispatch.v ===== *)
(** Message dispatch: [connection_data] of [pinos/modules/module-protocol-native.c] for
    the server, [on_context_data] of [pinos/client/context.c] for the client.

    Each looks the destination of every message up in the map of its objects and
    calls the demarshal function the object's interface has at the opcode. The
    state [St] is whatever those functions work on; [objects] and [iface] are the
    parts of it the dispatchers read. The refinement theorems say that a dispatcher
    does to the state what handling the messages one by one does. *)
From S2P Require Import Prelude Defs Map Connection.

Definition SPA_IO_IN : Z := 1.
Definition SPA_IO_HUP : Z := 4.
Definition SPA_IO_ERR : Z := 8.

(** A demarshal function with the call it makes: [Refuse] is [false]. *)
Definition PinosDemarshalFunc (St : Type) : Type := bytes -> Z -> St -> outcome St.

(** How a run of the dispatcher ends. [Waiting]: blocked in [recvmsg]. *)
Inductive reaction (St : Type) :=
| Alive (buf : ConnectionBuffer) (s : socket) (st : St)
| Destroyed (st : St)
| Waiting (st : St)
| Undefined.
Arguments Alive {St}.
Arguments Destroyed {St}.
Arguments Waiting {St}.
Arguments Undefined {St}.

Section Dispatch.
Context `{Heap} {St : Type} (objects : St -> Map.PinosMap) (iface : St -> Z -> list (option (PinosDemarshalFunc St))).

(** ** The server *)

(** [NULL] is 0. *)
Definition resource_at (st : St) (id : Z) : Z := Map.pinos_map_lookup (objects st) id.

Definition method_at (st : St) (id opcode : Z) : option (PinosDemarshalFunc St) :=
  default None (iface st (resource_at st id) !! Z.to_nat opcode).

Fixpoint serve_loop (fuel : nat) (buf : ConnectionBuffer) (s : socket) (st : St) : reaction St :=
  match fuel with
  | O => Undefined
  | S fuel' =>
      match pinos_connection_get_next buf s with
      | (NextUndef, _, _) => Undefined
      | (NextBlocked, _, _) => Waiting st
      | (NextFalse, buf, s) => Alive buf s st
      | (NextMsg opcode id message size, buf, s) =>
          if resource_at st id =? 0 then serve_loop fuel' buf s st
          else
            match method_at st id opcode with
            | None => Destroyed st
            | Some demarshal =>
                match demarshal message size st with
                | Done st => serve_loop fuel' buf s st
                | Refuse => Destroyed st
                | Undef => Undefined
                end
            end
      end
  end.

(** No call handles more messages than there are bytes to come. *)
Definition loop_fuel (buf : ConnectionBuffer) (s : socket) : nat :=
  S (Z.to_nat (buffer_size buf) + sock_measure s).

Definition connection_data (mask : Z) (buf : ConnectionBuffer) (s : socket) (st : St) : reaction St :=
  if negb (Z.land mask (Z.lor SPA_IO_ERR SPA_IO_HUP) =? 0) then Destroyed st
  else if negb (Z.land mask SPA_IO_IN =? 0) then serve_loop (loop_fuel buf s) buf s st
  else Alive buf s st.

(** ** The client *)

Context (disconnecting : St -> bool).

(** Whatever is wrong with a message is logged, and the message dropped. *)
Fixpoint context_loop (fuel : nat) (buf : ConnectionBuffer) (s : socket) (st : St) : reaction St :=
  match fuel with
  | O => Undefined
  | S fuel' =>
      if disconnecting st then Alive buf s st else
      match pinos_connection_get_next buf s with
      | (NextUndef, _, _) => Undefined
      | (NextBlocked, _, _) => Waiting st
      | (NextFalse, buf, s) => Alive buf s st
      | (NextMsg opcode id message size, buf, s) =>
          if resource_at st id =? 0 then context_loop fuel' buf s st
          else
            match method_at st id opcode with
            | None => context_loop fuel' buf s st
            | Some demarshal =>
                match demarshal message size st with
                | Done st => context_loop fuel' buf s st
                | Refuse => context_loop fuel' buf s st
                | Undef => Undefined
                end
            end
      end
  end.

(** [set_error] is [context_set_state (this, PINOS_CONTEXT_STATE_ERROR, _)]. *)
Definition on_context_data (set_error : St -> St) (mask : Z) (buf : ConnectionBuffer) (s : socket) (st : St) : reaction St :=
  if negb (Z.land mask (Z.lor SPA_IO_ERR SPA_IO_HUP) =? 0) then Alive buf s (set_error st)
  else if negb (Z.land mask SPA_IO_IN =? 0) then context_loop (loop_fuel buf s) buf s st
  else Alive buf s st.

(** ** Handling messages one by one *)

(** A message leads from [st] to [st'] when its resource is unknown, or the method
    accepts it whatever follows it in the buffer. *)
Inductive handles (st : St) (m : message) : St -> Prop :=
| handles_unknown : resource_at st (m_dest m) = 0 -> handles st m st
| handles_call demarshal st' :
    resource_at st (m_dest m) <> 0 -> method_at st (m_dest m) (m_opcode m) = Some demarshal ->
    (forall tail, demarshal (m_payload m ++ tail) (zlen (m_payload m)) st = Done st') ->
    handles st m st'.

Inductive rejects (st : St) (m : message) : Prop :=
| rejects_opcode : resource_at st (m_dest m) <> 0 -> method_at st (m_dest m) (m_opcode m) = None -> rejects st m
| rejects_payload demarshal :
    resource_at st (m_dest m) <> 0 -> method_at st (m_dest m) (m_opcode m) = Some demarshal ->
    (forall tail, demarshal (m_payload m ++ tail) (zlen (m_payload m)) st = Refuse) ->
    rejects st m.

(** The server's contract: the messages up to the first bad one are handled, in
    order, and the bad one ends the client. The flag tells whether it lives. *)
Inductive served : list message -> St -> St -> bool -> Prop :=
| served_nil st : served [] st st true
| served_cons m ms st st1 st' alive : handles st m st1 -> served ms st1 st' alive -> served (m :: ms) st st' alive
| served_bad m ms st : rejects st m -> served (m :: ms) st st false.

(** The client's contract: bad messages are skipped, and nothing is handled any more
    once the client disconnects. *)
Inductive followed : list message -> St -> St -> Prop :=
| followed_nil st : followed [] st st
| followed_stop ms st : disconnecting st = true -> followed ms st st
| followed_cons m ms st st1 st' :
    disconnecting st = false -> handles st m st1 -> followed ms st1 st' -> followed (m :: ms) st st'
| followed_bad m ms st st' :
    disconnecting st = false -> rejects st m -> followed ms st st' -> followed (m :: ms) st st'.

(** Wake-ups: the dispatcher runs again while the loop says the socket is readable. *)
Fixpoint wakeups (data : ConnectionBuffer -> socket -> St -> reaction St) (n : nat)
    (buf : ConnectionBuffer) (s : socket) (st : St) : reaction St :=
  match n with
  | O => Alive buf s st
  | S n' => match data buf s st with Alive buf s st => wakeups data n' buf s st | r => r end
  end.

Definition final (r : reaction St) (st : St) (alive : bool) : Prop :=
  match r with
  | Alive _ _ st' | Waiting st' => alive = true /\ st' = st
  | Destroyed st' => alive = false /\ st' = st
  | Undefined => False
  end.

(** ** Reading, as the dispatchers see it *)

(** Wake-ups still needed: every second one reads a message. *)
Definition weight (buf : ConnectionBuffer) (ms : list message) : nat :=
  (2 * length ms + (if update buf then 0 else 1))%nat.

Inductive next_spec (buf : ConnectionBuffer) (s : socket) (ms : list message) : next * ConnectionBuffer * socket -> Prop :=
| next_drained buf' s' : reading buf' s' (enc_msgs ms) -> ms = [] \/ (weight buf' ms < weight buf ms)%nat ->
    next_spec buf s ms (NextFalse, buf', s')
| next_blocked buf' s' : ms = [] -> next_spec buf s ms (NextBlocked, buf', s')
| next_message m ms' tail buf' s' : ms = m :: ms' -> reading buf' s' (enc_msgs ms') ->
    next_spec buf s ms (NextMsg (m_opcode m) (m_dest m) (m_payload m ++ tail) (zlen (m_payload m)), buf', s').

Lemma get_next_spec buf s ms :
  reading buf s (enc_msgs ms) -> Forall msg_ok ms -> next_spec buf s ms (pinos_connection_get_next buf s).
Proof.
  intros Hrd Hms. destruct ms as [|m ms].
  - destruct (get_next_nil buf s Hrd) as (r & buf' & s' & -> & [-> | [-> Hr']]); [by constructor |].
    constructor; [done | by left].
  - apply Forall_cons in Hms as [Hm Hms].
    destruct (get_next_ok buf s m (enc_msgs ms) Hrd Hm) as (buf' & s' & [(Hr' & Hu & Hu' & ->) | (Hr' & _ & tail & ->)]).
    + constructor; [done |]. right. unfold weight. rewrite Hu, Hu'. lia.
    + by econstructor.
Qed.

Lemma length_enc_msgs ms : 8 * Z.of_nat (length ms) <= zlen (enc_msgs ms).
Proof.
  induction ms as [|m ms IH]; [done |]. change (enc_msgs (m :: ms)) with (enc_msg m ++ enc_msgs ms).
  pose proof (zlen_nonneg (m_payload m)). simpl length. zlia.
Qed.

Lemma sock_bytes_measure s : zlen (sock_bytes s) <= Z.of_nat (sock_measure s).
Proof.
  induction s as [|e s IH]; [done |]. unfold sock_bytes, sock_measure in *. simpl. rewrite zlen_app.
  destruct e; rewrite ?zlen_nil; unfold zlen in *; lia.
Qed.

Lemma loop_fuel_enough buf s ms : reading buf s (enc_msgs ms) -> (length ms < loop_fuel buf s)%nat.
Proof.
  intros [_ _ _ (v & (tail & _ & Hs & _) & _ & _ & Hp)]. pose proof (length_enc_msgs ms) as Hl.
  pose proof (sock_bytes_measure s). rewrite Hp, zlen_app, zlen_drop in Hl.
  pose proof (zlen_nonneg v). unfold loop_fuel. lia.
Qed.

(** *** The server's loop *)

Lemma serve_loop_ok fuel buf s ms st st' alive :
  reading buf s (enc_msgs ms) -> Forall msg_ok ms -> served ms st st' alive -> (length ms < fuel)%nat ->
  match serve_loop fuel buf s st with
  | Alive buf' s' st1 => exists ms', reading buf' s' (enc_msgs ms') /\ Forall msg_ok ms' /\
      served ms' st1 st' alive /\ (ms = [] /\ ms' = [] \/ (weight buf' ms' < weight buf ms)%nat)
  | r => final r st' alive
  end.
Proof.
  revert buf s ms st. induction fuel as [|fuel IH]; intros buf s ms st Hrd Hms Hsv Hf; [lia |]. cbn [serve_loop].
  destruct (get_next_spec buf s ms Hrd Hms) as [buf' s' Hrd' Hw | buf' s' -> | m ms' tail buf' s' -> Hrd'].
  - exists ms. split_and!; [done | done | done |]. destruct Hw as [-> | ?]; [by left | by right].
  - inversion Hsv; subst. done.
  - apply Forall_cons in Hms as [Hm Hms]. simpl in Hf.
    assert (forall st1, served ms' st1 st' alive -> match serve_loop fuel buf' s' st1 with
      | Alive buf2 s2 st2 => exists ms2, reading buf2 s2 (enc_msgs ms2) /\ Forall msg_ok ms2 /\
          served ms2 st2 st' alive /\ (m :: ms' = [] /\ ms2 = [] \/ (weight buf2 ms2 < weight buf (m :: ms'))%nat)
      | r => final r st' alive end) as Hnext.
    { intros st1 Hsv1. specialize (IH buf' s' ms' st1 Hrd' Hms Hsv1 ltac:(lia)).
      destruct (serve_loop fuel buf' s' st1) as [buf2 s2 st2| | |]; try done.
      destruct IH as (ms2 & ? & ? & ? & Hw). exists ms2. split_and!; try done. right.
      unfold weight in *. simpl length. destruct Hw as [[-> ->] | Hw]; destruct (update buf), (update buf'), (update buf2); simpl in *; lia. }
    inversion Hsv as [|? ? ? ? ? ? Hh Hsv1|? ? ? Hbad]; subst.
    + destruct Hh as [Hu | demarshal st2 Hk Hmt Hd].
      * rewrite Hu. by apply Hnext.
      * rewrite (proj2 (Z.eqb_neq _ _) Hk), Hmt, Hd. by apply Hnext.
    + destruct Hbad as [Hk Hmt | demarshal Hk Hmt Hd]; rewrite (proj2 (Z.eqb_neq _ _) Hk), Hmt, ?Hd; done.
Qed.

Definition serve : ConnectionBuffer -> socket -> St -> reaction St := connection_data SPA_IO_IN.

Lemma serve_eq buf s st : serve buf s st = serve_loop (loop_fuel buf s) buf s st.
Proof. done. Qed.

Lemma wakeups_idle n buf s st : reading buf s (enc_msgs []) -> final (wakeups serve n buf s st) st true.
Proof.
  revert buf s. induction n as [|n IH]; intros buf s Hrd; [done |]. cbn [wakeups]. rewrite serve_eq.
  pose proof (serve_loop_ok (loop_fuel buf s) buf s [] st st true Hrd (Forall_nil_2 _) (served_nil st)
    (loop_fuel_enough buf s [] Hrd)) as Hl.
  destruct (serve_loop _ _ _ _) as [buf' s' st1| | |]; [| done..].
  destruct Hl as (ms' & Hrd' & _ & Hsv & [[_ ->] | Hw]); [| unfold weight in Hw; destruct ms'; simpl in Hw;
    [| destruct (update buf), (update buf'); lia]]; inversion Hsv; subst; by apply IH.
Qed.

Lemma wakeups_ok n buf s ms st st' alive :
  reading buf s (enc_msgs ms) -> Forall msg_ok ms -> served ms st st' alive -> (weight buf ms <= n)%nat ->
  final (wakeups serve n buf s st) st' alive.
Proof.
  revert buf s ms st. induction n as [|n IH]; intros buf s ms st Hrd Hms Hsv Hn.
  { destruct ms; [| unfold weight in Hn; simpl in Hn; lia]. by inversion Hsv; subst. }
  destruct (decide (ms = [])) as [-> | Hne]; [inversion Hsv; subst; by apply wakeups_idle |].
  cbn [wakeups]. rewrite serve_eq.
  pose proof (serve_loop_ok (loop_fuel buf s) buf s ms st st' alive Hrd Hms Hsv (loop_fuel_enough buf s ms Hrd)) as Hl.
  destruct (serve_loop _ _ _ _) as [buf' s' st1| | |]; [| done..].
  destruct Hl as (ms' & Hrd' & Hms' & Hsv' & [[-> _] | Hw]); [done |]. eapply IH; [done | done | done | lia].
Qed.

(** *** The client's loop *)

Lemma followed_stopped ms st st' : followed ms st st' -> disconnecting st = true -> st' = st.
Proof. destruct 1; congruence. Qed.

(** After a run: what is left to follow, with progress unless the client left. *)
Definition follows (buf : ConnectionBuffer) (ms : list message) (st' : St) (r : reaction St) : Prop :=
  match r with
  | Alive buf' s' st1 => exists ms', reading buf' s' (enc_msgs ms') /\ Forall msg_ok ms' /\
      followed ms' st1 st' /\
      (disconnecting st1 = true \/ ms' = [] \/ (weight buf' ms' < weight buf ms)%nat)
  | Waiting st1 => st1 = st'
  | _ => False
  end.

Lemma context_loop_ok fuel buf s ms st st' :
  reading buf s (enc_msgs ms) -> Forall msg_ok ms -> followed ms st st' -> (length ms < fuel)%nat ->
  follows buf ms st' (context_loop fuel buf s st).
Proof.
  revert buf s ms st. induction fuel as [|fuel IH]; intros buf s ms st Hrd Hms Hsv Hf; [lia |]. cbn [context_loop].
  destruct (disconnecting st) eqn:Hdis; [exists ms; split_and!; try done; by left |].
  destruct (get_next_spec buf s ms Hrd Hms) as [buf' s' Hrd' Hw | buf' s' -> | m ms' tail buf' s' -> Hrd'].
  - exists ms. split_and!; [done | done | done |]. right. naive_solver.
  - inversion Hsv; subst; [done | congruence].
  - apply Forall_cons in Hms as [Hm Hms]. simpl in Hf.
    assert (forall st1, followed ms' st1 st' -> follows buf (m :: ms') st' (context_loop fuel buf' s' st1)) as Hnext.
    { intros st1 Hsv1. specialize (IH buf' s' ms' st1 Hrd' Hms Hsv1 ltac:(lia)).
      destruct (context_loop fuel buf' s' st1) as [buf2 s2 st2| | |]; try done.
      destruct IH as (ms2 & ? & ? & ? & Hw). exists ms2. split_and!; try done.
      destruct Hw as [? | [-> | Hw]]; [by left | by (right; left) | right; right].
      unfold weight in *. simpl length. destruct (update buf), (update buf'), (update buf2); simpl in *; lia. }
    inversion Hsv as [|? ? ?|? ? ? ? ? ? Hh Hsv1|? ? ? ? ? Hbad Hsv1]; subst; [congruence | |].
    + destruct Hh as [Hu | demarshal st2 Hk Hmt Hd].
      * rewrite Hu. by apply Hnext.
      * rewrite (proj2 (Z.eqb_neq _ _) Hk), Hmt, Hd. by apply Hnext.
    + destruct Hbad as [Hk Hmt | demarshal Hk Hmt Hd]; rewrite (proj2 (Z.eqb_neq _ _) Hk), Hmt, ?Hd; by apply Hnext.
Qed.

Section Follow.
Context (set_error : St -> St).
Let follow : ConnectionBuffer -> socket -> St -> reaction St := on_context_data set_error SPA_IO_IN.

Lemma follow_stopped n buf s st : disconnecting st = true -> final (wakeups follow n buf s st) st true.
Proof.
  intros Hd. induction n as [|n IH]; [done |]. cbn [wakeups].
  change (follow buf s st) with (context_loop (loop_fuel buf s) buf s st). unfold loop_fuel. cbn [context_loop].
  by rewrite Hd.
Qed.

Lemma follow_idle n buf s st : reading buf s (enc_msgs []) -> final (wakeups follow n buf s st) st true.
Proof.
  revert buf s. induction n as [|n IH]; intros buf s Hrd; [done |]. cbn [wakeups].
  change (follow buf s st) with (context_loop (loop_fuel buf s) buf s st).
  destruct (disconnecting st) eqn:Hd; [unfold loop_fuel; cbn [context_loop]; rewrite Hd; by apply follow_stopped |].
  unfold loop_fuel. cbn [context_loop]. rewrite Hd.
  destruct (get_next_spec buf s [] Hrd (Forall_nil_2 _)) as [buf' s' Hrd' _ | | m ms' tail buf' s' Heq]; [by apply IH | done..].
Qed.

Lemma follow_ok n buf s ms st st' :
  reading buf s (enc_msgs ms) -> Forall msg_ok ms -> followed ms st st' -> (weight buf ms <= n)%nat ->
  final (wakeups follow n buf s st) st' true.
Proof.
  revert buf s ms st. induction n as [|n IH]; intros buf s ms st Hrd Hms Hsv Hn.
  { destruct ms; [| unfold weight in Hn; simpl in Hn; lia]. by inversion Hsv; subst. }
  cbn [wakeups]. change (follow buf s st) with (context_loop (loop_fuel buf s) buf s st).
  pose proof (context_loop_ok (loop_fuel buf s) buf s ms st st' Hrd Hms Hsv (loop_fuel_enough buf s ms Hrd)) as Hl.
  destruct (context_loop _ _ _ _) as [buf' s' st1| | |]; [| done | by simpl in Hl | done].
  destruct Hl as (ms' & Hrd' & Hms' & Hsv' & [Hd | [-> | Hw]]).
  - rewrite (followed_stopped _ _ _ Hsv' Hd). by apply follow_stopped.
  - inversion Hsv'; subst; by apply follow_idle.
  - eapply IH; [done | done | done | lia].
Qed.
End Follow.

(** C2: the server's dispatcher refines handling the messages one by one: however the stream cuts
    the bytes of a sequence of messages, waking up often enough leaves the state in
    which the messages up to the first bad one, in order, leave it; messages to an
    unknown resource are skipped, and a bad opcode or payload ends the client before
    anything behind it is handled. *)
Theorem connection_data_serves buf s ms st st' alive n :
  reading buf s (enc_msgs ms) -> Forall msg_ok ms -> served ms st st' alive -> (2 * length ms + 1 <= n)%nat ->
  final (wakeups (connection_data SPA_IO_IN) n buf s st) st' alive.
Proof. intros. eapply wakeups_ok; [done | done | done |]. unfold weight. destruct (update buf); lia. Qed.

(** the client's dispatcher follows the server: the events are handled in order, bad ones are
    dropped, and nothing is handled any more once the application disconnects. *)
Theorem on_context_data_follows set_error buf s ms st st' n :
  reading buf s (enc_msgs ms) -> Forall msg_ok ms -> followed ms st st' -> (2 * length ms + 1 <= n)%nat ->
  final (wakeups (on_context_data set_error SPA_IO_IN) n buf s st) st' true.
Proof. intros. eapply follow_ok; [done | done | done |]. unfold weight. destruct (update buf); lia. Qed.
End Dispatch.

(** ** Witnesses *)

(** One resource, at id 1, whose only method counts payloads of at least 4 bytes. *)
Definition counter_map : Map.PinosMap := Map.mkMap (Array.mkArray 16 64 64) [0; 8] 0.
Definition count_payload : PinosDemarshalFunc Z := fun data size st => if size <? 4 then Refuse else Done (st + size).
Definition counter_iface (st p : Z) : list (option (PinosDemarshalFunc Z)) := [Some count_payload; None].

(** A good message, one to nobody, another good one, one too short, one good again. *)
Definition counter_messages : list message :=
  [mkMsg 1 0 [1; 2; 3; 4]; mkMsg 9 7 [5]; mkMsg 1 0 [1; 2; 3; 4; 5]; mkMsg 1 0 [6]; mkMsg 1 0 [1; 2; 3; 4]].

Lemma counter_reading :
  reading (cn_in pinos_connection_new) [RecvData (enc_msgs counter_messages) None] (enc_msgs counter_messages).
Proof.
  split; [done | done | by repeat constructor |]. exists []. split_and!; [| done | done | done].
  exists (fresh MAX_BUFFER_SIZE). by split_and!; vm_compute.
Qed.

Lemma counter_ok : Forall msg_ok counter_messages.
Proof. repeat (apply Forall_cons; split; [by vm_compute |]). apply Forall_nil_2. Qed.

Lemma connection_data_serves_witness :
  final (wakeups (connection_data (fun _ => counter_map) counter_iface SPA_IO_IN) 11 (cn_in pinos_connection_new)
           [RecvData (enc_msgs counter_messages) None] 0) 9 false.
Proof.
  apply (connection_data_serves (fun _ => counter_map) counter_iface _ _ counter_messages); [exact counter_reading | exact counter_ok | | simpl; lia].
  eapply served_cons; [eapply handles_call; [by vm_compute | reflexivity | intros tail; reflexivity] |].
  eapply served_cons; [by apply handles_unknown |].
  eapply served_cons; [eapply handles_call; [by vm_compute | reflexivity | intros tail; reflexivity] |].
  eapply served_bad, rejects_payload; [by vm_compute | reflexivity | intros tail; reflexivity].
Defined.

(** The client drops the short message and goes on, until it disconnects at 13. *)
Lemma on_context_data_follows_witness :
  final (wakeups (on_context_data (fun _ => counter_map) counter_iface (Z.eqb 13) id SPA_IO_IN) 11 (cn_in pinos_connection_new)
           [RecvData (enc_msgs counter_messages) None] 0) 13 true.
Proof.
  apply (on_context_data_follows (fun _ => counter_map) counter_iface (Z.eqb 13) id _ _ counter_messages); [exact counter_reading | exact counter_ok | | simpl; lia].
  eapply followed_cons; [done | eapply handles_call; [by vm_compute | reflexivity | intros tail; reflexivity] |].
  eapply followed_cons; [done | by apply handles_unknown |].
  eapply followed_cons; [done | eapply handles_call; [by vm_compute | reflexivity | intros tail; reflexivity] |].
  eapply followed_bad; [done | eapply rejects_payload; [by vm_compute | reflexivity | intros tail; reflexivity] |].
  eapply followed_cons; [done | eapply handles_call; [by vm_compute | reflexivity | intros tail; reflexivity] |].
  by apply followed_stop.
Defined.
