(* ===== verification/Protocol.v ===== *)
(** The sending path both ends of the native protocol share: [write_pod],
    [core_update_map] and the life of a message in [pinos/client/protocol-native.c]
    and [pinos/server/protocol-native.c] (the two files have the same code for it).

    [Dest] is the [Builder] of those files: a pod builder that writes straight into
    the output buffer of the connection, behind the message header that
    [pinos_connection_end_write] fills in last. It is a lawful destination as long
    as the message fits its room; [write_pod_overflow] shows the room is needed. *)
From S2P Require Import Prelude Defs Pod PodUtils PodTheory Connection.

Record Dest := mkDest { d_buf : ConnectionBuffer; d_size : Z }.

Section Writer.
Context `{Heap}.

(** [b->data] is the payload position in the current block, once there is one. *)
Definition write_pod (w : Dest) (offset ref : Z) (data : bytes) : outcome Dest :=
  let w :=
    if d_size w <=? offset then
      let size := u32 (SPA_ROUND_UP_N (u32 (offset + zlen data)) 4096) in
      mkDest (fst (pinos_connection_begin_write (d_buf w) size)) size
    else w in
  let buf := d_buf w in
  let* mem := of_option (mwrite (buffer_size buf + 8 + ref) data (buffer_data buf)) in
  Done (mkDest (mkConnBuf mem (buffer_size buf) (buffer_maxsize buf) (fds buf)
                 (cb_offset buf) (cb_size buf) (update buf)) (d_size w)).

(** [ref == -1]: append. *)
Definition write_pod_append (w : Dest) (offset : Z) (data : bytes) : outcome (Dest * Z) :=
  let* w := write_pod w offset offset data in Done (w, offset).

#[export] Instance Dest_writer : PodWriter Dest := {
  pw_append := write_pod_append;
  pw_patch := write_pod
}.

(** A message of the builder [{ NULL, 0, 0, NULL, write_pod }]: the
    [spa_pod_builder_add] calls, then [pinos_connection_end_write]. *)
Definition send_pod (buf : ConnectionBuffer) (dest_id opcode : Z) (args : list arg) : outcome ConnectionBuffer :=
  let* b := spa_pod_builder_addv (spa_pod_builder_init (mkDest buf 0)) args in
  pinos_connection_end_write (d_buf (bw b)) dest_id opcode (Pod.offset b).

(** ** The destination is lawful *)

(** Room for a payload: a page, or whatever is left of the block. *)
Definition room (buf : ConnectionBuffer) (v : bytes) (n : Z) : Prop :=
  0 <= n < 2 ^ 31 - 4096 /\ (n <= 4096 \/ zlen v + 8 + n <= buffer_maxsize buf).

Definition dest_holds (v : bytes) (f : list Z) (w : Dest) (n : Z) (bs : bytes) : Prop :=
  holds (d_buf w) v /\ fds (d_buf w) = f /\ room (d_buf w) v n /\ zlen bs <= n /\
  ((d_size w = 0 /\ bs = []) \/
   (4096 <= d_size w /\ zlen v + 8 + d_size w <= buffer_maxsize (d_buf w) /\
    exists hdr tail, buffer_data (d_buf w) = v ++ hdr ++ bs ++ tail /\ zlen hdr = 8)).

(** One [memcpy] of [write_pod], after the growth check. *)
Lemma memcpy_ok (buf : ConnectionBuffer) v hdr a b c d :
  buffer_data buf = v ++ hdr ++ a ++ b ++ c -> zlen hdr = 8 -> zlen d = zlen b ->
  mwrite (zlen v + 8 + zlen a) d (buffer_data buf) = Some (v ++ hdr ++ a ++ d ++ c).
Proof.
  intros -> Hh Hd. rewrite (app_assoc hdr), (app_assoc v). rewrite mwrite_app by (done || zlia).
  by rewrite <- !app_assoc.
Qed.

(** The block after the growth check has the payload so far and space for [k] more bytes. *)
Lemma grow_ok v f w n bs k :
  dest_holds v f w n bs -> 0 <= k -> zlen bs + k < 2 ^ 32 - 4096 -> 0 < zlen bs + k ->
  let w' := if d_size w <=? zlen bs
            then let size := u32 (SPA_ROUND_UP_N (u32 (zlen bs + k)) 4096) in
                 mkDest (fst (pinos_connection_begin_write (d_buf w) size)) size
            else w in
  4096 <= d_size w' /\ zlen v + 8 + d_size w' <= buffer_maxsize (d_buf w') /\
  room (d_buf w') v n /\ holds (d_buf w') v /\ fds (d_buf w') = f /\
  exists hdr tail, buffer_data (d_buf w') = v ++ hdr ++ bs ++ tail /\ zlen hdr = 8 /\
    (zlen bs + k <= n -> k <= zlen tail).
Proof.
  intros (Hh & Hf & [Hn Hroom] & Hbs & Hst) Hk Hfit Hpos. pose proof (zlen_nonneg bs). cbv zeta. case_if.
  - rewrite (u32_small (zlen bs + k)) by (unfold is_u32; lia).
    pose proof (ROUND_UP_4096_bounds (zlen bs + k)) as Hr.
    pose proof (proj2 (SPA_ROUND_UP_N_spec (zlen bs + k) 12 ltac:(lia))) as Hm. change (2 ^ 12) with 4096 in Hm.
    set (size := SPA_ROUND_UP_N (zlen bs + k) 4096) in *.
    rewrite (u32_small size) by (unfold is_u32; lia). cbn [d_size d_buf fst pinos_connection_begin_write].
    assert (4096 <= size) by (Z.div_mod_to_equations; lia).
    destruct (ensure_size_ok (d_buf w) v (8 + size) Hh) as (Hh' & Hfit' & Hmx & _ & _ & Hf' & _); [lia |].
    assert (exists tail, buffer_data (connection_ensure_size (d_buf w) (8 + size)) = buffer_data (d_buf w) ++ tail)
      as (ext & Hext).
    { unfold connection_ensure_size. case_if; simpl; [by eexists | exists []; by rewrite app_nil_r]. }
    split_and!; [done | lia | split; [done | lia] | done | by rewrite Hf' |].
    destruct Hh' as (t2 & Ht2 & Hs2 & Hm2). destruct Hst as [[_ ->] | (_ & _ & hdr & tail & Hd & Hh8)].
    + exists (take 8 t2), (drop 8 t2). rewrite Ht2. simpl. rewrite take_drop. split_and!; [done | zlia | zlia].
    + exists hdr, (tail ++ ext). rewrite Hext, Hd, <- !app_assoc. split_and!; [done | done |].
      rewrite Hext, Hd, <- !app_assoc in Ht2. apply app_inv_head in Ht2. rewrite <- Ht2 in Hm2. zlia.
  - destruct Hst as [[Hz ->] | (Hsz & Hfit' & hdr & tail & Hd & Hh8)]; [rewrite zlen_nil in *; lia |].
    split_and!; try done. exists hdr, tail. split_and!; [done | done |].
    destruct Hh as (t2 & Ht2 & Hs2 & Hm2). rewrite Hd in Ht2. apply app_inv_head in Ht2.
    rewrite <- Ht2 in Hm2. zlia.
Qed.

Lemma dest_append v f w n bs d :
  dest_holds v f w n bs -> zlen bs + zlen d <= n ->
  exists w', write_pod_append w (zlen bs) d = Done (w', zlen bs) /\ dest_holds v f w' n (bs ++ d).
Proof.
  intros Hw Hfit. pose proof (zlen_nonneg bs). pose proof (zlen_nonneg d).
  destruct (decide (zlen bs + zlen d = 0)) as [Hz | Hnz].
  - (* nothing is written *)
    assert (bs = [] /\ d = []) as [-> ->] by (destruct bs, d; rewrite ?zlen_cons in *; split; (done || zlia)).
    destruct Hw as (Hh & Hf & [Hn Hroom] & Hbs & Hst). unfold write_pod_append, write_pod.
    change (zlen (@nil Z)) with 0 in *. change (u32 (SPA_ROUND_UP_N (u32 (0 + 0)) 4096)) with 0.
    set (w1 := if _ <=? _ then _ else _).
    assert (holds (d_buf w1) v /\ fds (d_buf w1) = f /\ 8 <= buffer_maxsize (d_buf w1) - zlen v /\
            room (d_buf w1) v n /\ (d_size w1 = 0 \/ w1 = w)) as (Hh1 & Hf1 & Hm1 & Hr1 & Hs1).
    { subst w1. destruct Hst as [[-> _] | (Hsz & Hmx & _)].
      - cbn [Z.leb Z.compare d_buf d_size fst pinos_connection_begin_write].
        destruct (ensure_size_ok (d_buf w) v (8 + 0) Hh) as (Hh' & Hfit' & Hmx & _ & _ & Hf' & _); [lia |].
        split_and!; [done | exact (eq_trans Hf' Hf) | lia | split; [done | lia] | by left].
      - case_if; [lia |]. split_and!; [done | done | lia | done | by right]. }
    destruct Hh1 as (tail & Ht & Hsz1 & Hmx1).
    assert (mwrite (buffer_size (d_buf w1) + 8 + 0) [] (buffer_data (d_buf w1)) = Some (buffer_data (d_buf w1))) as Hw1.
    { rewrite Ht, Hsz1, Z.add_0_r.
      assert (tail = take 8 tail ++ [] ++ drop 8 tail) as Hsplit by (simpl; by rewrite take_drop).
      rewrite Hsplit, app_assoc. apply mwrite_app; [| done]. rewrite zlen_app, zlen_take. lia. }
    simpl. rewrite Hw1. simpl. eexists. split; [done |].
    split_and!; [by exists tail | done | done | done |].
    destruct Hs1 as [? | ->]; [by left | exact Hst].
  - unfold write_pod_append, write_pod.
    destruct (grow_ok v f w n bs (zlen d) Hw) as (Hsz & Hmx & Hr & Hh & Hf & hdr & tail & Hd & Hh8 & Hk); try lia.
    { destruct Hw as (_ & _ & [Hn _] & _). lia. }
    specialize (Hk Hfit).
    set (w1 := if _ <=? _ then _ else _) in *.
    assert (tail = take (length d) tail ++ drop (length d) tail) as Hsplit by (symmetry; apply take_drop).
    rewrite Hsplit in Hd. pose proof Hh as (t2 & Ht2 & Hs2 & Hm2). simpl. rewrite Hs2.
    rewrite (memcpy_ok _ v hdr bs (take (length d) tail) (drop (length d) tail) d) by
      (done || (rewrite zlen_take; unfold zlen in *; lia)).
    simpl. eexists. split; [done |]. destruct Hw as (_ & _ & _ & Hbs & _). split_and!; try done.
    + exists (hdr ++ bs ++ d ++ drop (length d) tail). simpl. split_and!; [done | done |].
      rewrite Hm2. apply (f_equal zlen) in Hd. rewrite Ht2 in Hd. revert Hd.
      rewrite !zlen_app, zlen_take, zlen_drop. unfold zlen in *. lia.
    + zlia.
    + right. simpl. split_and!; [done | done |]. exists hdr, (drop (length d) tail).
      by rewrite <- !app_assoc.
Qed.

Lemma dest_patch v f w n a b c d :
  dest_holds v f w n (a ++ b ++ c) -> zlen d = zlen b ->
  exists w', write_pod w (zlen (a ++ b ++ c)) (zlen a) d = Done w' /\ dest_holds v f w' n (a ++ d ++ c).
Proof.
  intros Hw Hd. pose proof (zlen_nonneg a). pose proof (zlen_nonneg b). pose proof (zlen_nonneg c).
  destruct (decide (zlen (a ++ b ++ c) + zlen d = 0)) as [Hz | Hnz].
  - assert (a = [] /\ b = [] /\ c = [] /\ d = []) as (-> & -> & -> & ->).
    { rewrite !zlen_app in Hz. destruct a, b, c, d; rewrite ?zlen_cons in *; split_and!; (done || zlia). }
    destruct (dest_append v f w n [] [] Hw) as (w' & Hw' & Hh); [by destruct Hw as (_ & _ & _ & ? & _) |].
    unfold write_pod_append in Hw'. simpl in *. change (zlen []) with 0 in *.
    destruct (write_pod w 0 0 []); simpl in Hw'; [| done | done]. injection Hw' as ->. eauto.
  - unfold write_pod.
    assert (zlen (a ++ b ++ c) <= n < 2 ^ 31 - 4096) as Hn by (destruct Hw as (_ & _ & [? _] & ? & _); lia).
    destruct (grow_ok v f w n (a ++ b ++ c) (zlen d) Hw) as (Hsz & Hmx & Hr & Hh & Hf & hdr & tail & Hdata & Hh8 & _);
      [lia | zlia | zlia |].
    set (w1 := if _ <=? _ then _ else _) in *.
    pose proof Hh as (t2 & Ht2 & Hs2 & Hm2). simpl. rewrite Hs2.
    rewrite <- !app_assoc in Hdata. rewrite (memcpy_ok _ v hdr a b (c ++ tail) d) by done.
    simpl. eexists. split; [done |]. split_and!; try done.
    + exists (hdr ++ a ++ d ++ c ++ tail). simpl. split_and!; [done | done |].
      rewrite Hm2. apply (f_equal zlen) in Hdata. rewrite Ht2 in Hdata. revert Hdata. rewrite !zlen_app. lia.
    + revert Hn. rewrite !zlen_app. lia.
    + right. simpl. split_and!; [done | done |]. exists hdr, tail. by rewrite <- !app_assoc.
Qed.

(** The destination whose queued bytes are [v] and whose descriptors are [f]. *)
Definition Dest_laws (v : bytes) (f : list Z) : PodWriterLaws Dest.
Proof.
  refine {| pw_holds := dest_holds v f |}.
  - intros w n bs d. apply dest_append.
  - intros w n a b c d. apply dest_patch.
  - intros w n bs (_ & _ & [Hn _] & Hl & _). lia.
Defined.

(** A message is queued whole, and nothing else changes. *)
Lemma send_pod_ok buf v m args :
  holds buf v -> msg_ok m -> m_payload m <> [] -> room buf v (zlen (m_payload m)) ->
  writes (W := Dest) (H0 := Dest_laws v (fds buf)) args (m_payload m) ->
  exists buf', send_pod buf (m_dest m) (m_opcode m) args = Done buf' /\
    holds buf' (v ++ enc_msg m) /\ fds buf' = fds buf.
Proof.
  intros Hh Hm Hne Hroom He. unfold send_pod.
  edestruct (He (mkDest buf 0) (zlen (m_payload m))) as (b & Hb & Hw & Ho); [| lia |].
  { split_and!; try done; [apply zlen_nonneg | by left]. }
  rewrite Hb. simpl. rewrite Ho. destruct Hw as (Hh' & Hf' & _ & _ & [[_ Hnil] | (_ & Hmx & hdr & tail & Hd & Hh8)]); [done |].
  destruct (end_write_ok (d_buf (bw b)) v m) as (buf' & Hw & Hq & Hf); [| done |].
  - destruct Hh' as (t2 & Ht2 & Hs2 & Hm2). exists hdr, tail. split_and!; try done.
    rewrite Hm2. rewrite Hd in Ht2. apply app_inv_head in Ht2. rewrite <- Ht2. zlia.
  - exists buf'. split; [done |]. split; [done |]. by rewrite Hf.
Qed.

(** ** The room is needed *)

Lemma write_pod_stays buf size offset data :
  offset < size -> buffer_size buf + 8 + offset + zlen data <= zlen (buffer_data buf) ->
  0 <= buffer_size buf -> 0 <= offset ->
  exists mem, zlen mem = zlen (buffer_data buf) /\
    write_pod_append (mkDest buf size) offset data =
      Done (mkDest (mkConnBuf mem (buffer_size buf) (buffer_maxsize buf) (fds buf)
                      (cb_offset buf) (cb_size buf) (update buf)) size, offset).
Proof.
  intros Hs Hfit Hb Ho. unfold write_pod_append, write_pod. simpl. case_if; [lia |]. simpl.
  destruct (mwrite_defined (buffer_size buf + 8 + offset) data (buffer_data buf)) as [mem Hm]; [lia | lia |].
  rewrite Hm. exists mem. split; [by eapply mwrite_length | done].
Qed.

(** a message is copied without a bounds check once its first page is reserved: when the
    output block has no room left behind the page, a string longer than the rest of the
    block is written past its end. *)
Theorem write_pod_overflow buf f s dest_id opcode :
  0 <= buffer_size buf -> zlen (buffer_data buf) = buffer_maxsize buf ->
  buffer_size buf + 8 + 4096 <= buffer_maxsize buf ->
  buffer_maxsize buf < buffer_size buf + 8 + 16 + zlen s + 1 -> zlen s < 2 ^ 31 ->
  send_pod buf dest_id opcode [AStruct f; APrim (PString (Some s)); APop f] = Undef.
Proof.
  intros Hb Hd Hpage Hlong Hs. unfold send_pod. cbn [spa_pod_builder_addv addv_step].
  unfold addv_frame. cbn [in_array spa_pod_builder_init negb orb with_first].
  unfold spa_pod_builder_raw at 1. cbn [bw Pod.offset with_first spa_pod_builder_init pw_append Dest_writer].
  assert (forall data, zlen data = 8 -> exists mem, zlen mem = zlen (buffer_data buf) /\
    write_pod_append (mkDest buf 0) 0 data =
      Done (mkDest (mkConnBuf mem (buffer_size buf) (buffer_maxsize buf) (fds buf)
                      (cb_offset buf) (cb_size buf) (update buf)) 4096, 0)) as Hfirst.
  { intros data Hl. unfold write_pod_append, write_pod. simpl. rewrite Hl.
    change (u32 (SPA_ROUND_UP_N (u32 (0 + 8)) 4096)) with 4096. unfold connection_ensure_size.
    rewrite Z.gtb_ltb. case_if; [lia |]. simpl.
    destruct (mwrite_defined (buffer_size buf + 8 + 0) data (buffer_data buf)) as [mem Hm]; [lia | lia |].
    rewrite Hm. exists mem. split; [by eapply mwrite_length | done]. }
  destruct (Hfirst (pod_header 0 SPA_POD_TYPE_STRUCT ++ [])) as (mem & Hl & ->); [by rewrite app_nil_r, zlen_pod_header |].
  cbn [obind]. unfold addv_prim. cbn [in_array spa_pod_builder_push is_array_type negb orb].
  cbn [raw_pieces with_first]. unfold spa_pod_builder_raw at 1. cbn [bw Pod.offset with_first spa_pod_builder_push].
  rewrite app_nil_r, zlen_pod_header. change (u32 (0 + 8)) with 8.
  cbn [pw_append Dest_writer].
  destruct (write_pod_stays (mkConnBuf mem (buffer_size buf) (buffer_maxsize buf) (fds buf)
    (cb_offset buf) (cb_size buf) (update buf)) 4096 8
    (pod_header (zlen (prim_body (PString (Some s)))) (prim_type (PString (Some s)))))
    as (mem2 & Hl2 & ->); [lia | simpl; rewrite zlen_pod_header; lia | done | lia |].
  rewrite zlen_pod_header. change (u32 (8 + 8)) with 16. cbn [obind orb is_array_type].
  change (negb (is_array_type SPA_POD_TYPE_STRUCT)) with true. cbn [orb negb body_pieces raw_pieces in_array].
  unfold body_pieces. cbn [in_array spa_pod_builder_push]. change (is_array_type SPA_POD_TYPE_STRUCT) with false. cbn [raw_pieces].
  unfold spa_pod_builder_raw at 1. cbn [bw Pod.offset pw_append Dest_writer prim_body].
  unfold write_pod_append at 1, write_pod at 1. cbn [d_size d_buf buffer_size buffer_data].
  change (4096 <=? 16) with false. cbn [d_size d_buf buffer_size buffer_data].
  assert (mwrite (buffer_size buf + 8 + 16) (s ++ [0]) mem2 = None) as ->; [| done].
  unfold mwrite, in_range. case_if; [| done]. simpl in Hl2. exfalso. autorewrite with zlen in *. lia.
Qed.
End Writer.

Lemma write_pod_overflow_witness :
  send_pod (mkConnBuf (replicate 4608 0) 504 4608 [] 0 0 false) 0 1
    [AStruct 0; APrim (PString (Some (replicate 4100 65))); APop 0] = Undef.
Proof.
  apply (write_pod_overflow (mkConnBuf (replicate 4608 0) 504 4608 [] 0 0 false)); cbn [buffer_size buffer_data buffer_maxsize];
    unfold zlen; rewrite ?length_replicate; lia.
Defined.
