(* ===== verification/Remap.v ===== *)
(** [pinos_pod_remap_data] of [pinos/client/type.c]: the translation, in place, of
    the type ids in a received message to the ids of the receiver.

    The model walks the bytes the way the code does. [ptree] is the abstract syntax
    of well-formed values, [remap_tree] the translation on it; [remap_refines] shows
    that the walk implements the translation: same tree, ids renamed, and refusal
    exactly when an id is unknown. *)
From S2P Require Import Prelude Defs Map Pod PodUtils PodTheory.

(** ** The walk *)

Section Walk.
Context (types : Map.PinosMap).

(** [pinos_map_lookup] and the test against [NULL]. *)
Definition type_lookup (id : Z) : option Z :=
  let t := Map.pinos_map_lookup types id in
  if t =? 0 then None else Some (Map.PINOS_MAP_PTR_TO_ID t).

(** [*p = PINOS_MAP_PTR_TO_ID (lookup (types, *p))] *)
Definition remap_word (p : Z) (m : bytes) : outcome bytes :=
  let* id := of_option (load32 p m) in
  match type_lookup id with
  | None => Refuse
  | Some id' => of_option (mwrite p (le32 id') m)
  end.

(** [SPA_POD_FOREACH] around a body that may write to the memory it walks. *)
Fixpoint pod_foreach (turns : nat) (f : Z -> Z -> Z -> bytes -> outcome bytes) (iter last : Z) (m : bytes) :
    outcome bytes :=
  if iter <? last then
    match turns with
    | O => Undef
    | S turns' =>
        let* type := pod_type_at iter m in
        let* size := of_option (load32 iter m) in
        let* m := f type (iter + 8) size m in
        let* psize := pod_size_at iter m in
        pod_foreach turns' f (iter + SPA_ROUND_UP_N psize 8) last m
    end
  else Done m.

(** [SPA_POD_PROP_ALTERNATIVE_FOREACH]; with a value size of 0 the code loops
    forever, here the turns run out. *)
Fixpoint alternative_foreach (turns : nat) (f : Z -> bytes -> outcome bytes) (iter last size : Z) (m : bytes) :
    outcome bytes :=
  if iter <=? last then
    match turns with
    | O => Undef
    | S turns' => let* m := f iter m in alternative_foreach turns' f (iter + size) last size m
    end
  else Done m.

(** [body] is an offset into [m]. Every nested value starts at least 8 bytes further
    on, so the depth is bounded by the memory. *)
Fixpoint remap_data (fuel : nat) (type body size : Z) (m : bytes) : outcome bytes :=
  match fuel with
  | O => Undef
  | S fuel' =>
      if type =? SPA_POD_TYPE_ID then remap_word body m
      else if type =? SPA_POD_TYPE_PROP then
        let* m := remap_word body m in
        let* vtype := of_option (load32 (body + 12) m) in
        if vtype =? SPA_POD_TYPE_ID then
          let* vsize := of_option (load32 (body + 8) m) in
          let* m := remap_data fuel' vtype (body + 16) vsize m in
          alternative_foreach (S (length m)) (fun alt m => remap_data fuel' vtype alt vsize m)
            (body + (vsize + 16)) (body + u32 (size - vsize)) vsize m
        else Done m
      else if type =? SPA_POD_TYPE_OBJECT then
        let* m := remap_word (body + 4) m in
        pod_foreach (S (length m)) (fun t b s m => remap_data fuel' t b s m) (body + 8) (body + size) m
      else if type =? SPA_POD_TYPE_STRUCT then
        pod_foreach (S (length m)) (fun t b s m => remap_data fuel' t b s m) body (body + size) m
      else Done m
  end.

Definition pinos_pod_remap_data (type body size : Z) (m : bytes) : outcome bytes :=
  remap_data (S (S (length m))) type body size m.
End Walk.

(** ** Values as trees *)

Inductive ptree :=
| TLeaf (type : Z) (body : bytes)
| TId (v : Z)
| TPropIds (key flags : Z) (v : Z) (alts : list Z)
| TProp (key flags vtype vsize : Z) (vals : bytes)
| TObject (id type : Z) (cs : list ptree)
| TStruct (cs : list ptree).

Definition tree_type (t : ptree) : Z :=
  match t with
  | TLeaf ty _ => ty
  | TId _ => SPA_POD_TYPE_ID
  | TPropIds _ _ _ _ | TProp _ _ _ _ _ => SPA_POD_TYPE_PROP
  | TObject _ _ _ => SPA_POD_TYPE_OBJECT
  | TStruct _ => SPA_POD_TYPE_STRUCT
  end.

Fixpoint tree_body (t : ptree) : bytes :=
  match t with
  | TLeaf _ body => body
  | TId v => le32 v
  | TPropIds key flags v alts =>
      le32 key ++ le32 flags ++ pod_header 4 SPA_POD_TYPE_ID ++ le32 v ++ concat (map le32 alts)
  | TProp key flags vtype vsize vals => le32 key ++ le32 flags ++ pod_header vsize vtype ++ vals
  | TObject id type cs => le32 id ++ le32 type ++ concat (map (fun c => enc_pod (tree_type c) (tree_body c)) cs)
  | TStruct cs => concat (map (fun c => enc_pod (tree_type c) (tree_body c)) cs)
  end.

Definition enc_tree (t : ptree) : bytes := enc_pod (tree_type t) (tree_body t).
Definition tree_pod (t : ptree) : bytes := pod_of (tree_type t) (tree_body t).

(** Ids are 32-bit words, leaves hold no ids. *)
Definition has_ids (type : Z) : bool :=
  (type =? SPA_POD_TYPE_ID) || (type =? SPA_POD_TYPE_PROP) ||
  (type =? SPA_POD_TYPE_OBJECT) || (type =? SPA_POD_TYPE_STRUCT).

Fixpoint tree_ok (t : ptree) : Prop :=
  match t with
  | TLeaf ty _ => is_u32 ty /\ has_ids ty = false
  | TId v => is_u32 v
  | TPropIds key _ v alts => is_u32 key /\ is_u32 v /\ Forall is_u32 alts
  | TProp key _ vtype _ _ => is_u32 key /\ is_u32 vtype /\ vtype <> SPA_POD_TYPE_ID
  | TObject _ ty cs => is_u32 ty /\ foldr (fun c P => tree_ok c /\ P) True cs
  | TStruct cs => foldr (fun c P => tree_ok c /\ P) True cs
  end.

Section TreeInd.
Context (P : ptree -> Prop)
  (Hleaf : forall ty body, P (TLeaf ty body)) (Hid : forall v, P (TId v))
  (Hids : forall k f v a, P (TPropIds k f v a)) (Hprop : forall k f t s v, P (TProp k f t s v))
  (Hobj : forall id ty cs, Forall P cs -> P (TObject id ty cs)) (Hstr : forall cs, Forall P cs -> P (TStruct cs)).
Fixpoint ptree_nested_ind (t : ptree) : P t :=
  let fix go (cs : list ptree) : Forall P cs :=
    match cs with [] => Forall_nil_2 P | c :: cs' => Forall_cons_2 P c cs' (ptree_nested_ind c) (go cs') end in
  match t with
  | TLeaf ty body => Hleaf ty body
  | TId v => Hid v
  | TPropIds k f v a => Hids k f v a
  | TProp k f t s v => Hprop k f t s v
  | TObject id ty cs => Hobj id ty cs (go cs)
  | TStruct cs => Hstr cs (go cs)
  end.
End TreeInd.

(** ** The translation *)

Section Translation.
Context (types : Map.PinosMap).

Fixpoint remap_tree (t : ptree) : option ptree :=
  match t with
  | TLeaf _ _ => Some t
  | TId v => TId <$> type_lookup types v
  | TPropIds key flags v alts =>
      key ← type_lookup types key; v ← type_lookup types v;
      TPropIds key flags v <$> mapM (type_lookup types) alts
  | TProp key flags vtype vsize vals =>
      key ← type_lookup types key; Some (TProp key flags vtype vsize vals)
  | TObject id type cs => type ← type_lookup types type; TObject id type <$> mapM remap_tree cs
  | TStruct cs => TStruct <$> mapM remap_tree cs
  end.
End Translation.

(** ** Lemmas *)

Section Proofs.
Context (types : Map.PinosMap).

Lemma remap_word_ok p a v c :
  p = zlen a -> is_u32 v ->
  remap_word types p (a ++ le32 v ++ c) =
    match type_lookup types v with Some v' => Done (a ++ le32 v' ++ c) | None => Refuse end.
Proof.
  intros -> Hv. unfold remap_word. rewrite load32_app by done. simpl. rewrite u32_small by done.
  destruct (type_lookup types v); [| done]. by rewrite mwrite_app by zlia.
Qed.

Lemma zlen_map_le32 l : zlen (concat (map le32 l)) = 4 * zlen l.
Proof. induction l as [|v l IH]; simpl; [done |]. rewrite zlen_app, zlen_cons, zlen_le32, IH. lia. Qed.

Lemma tree_body_object id ty cs : tree_body (TObject id ty cs) = le32 id ++ le32 ty ++ concat (map enc_tree cs).
Proof. done. Qed.
Lemma tree_body_struct cs : tree_body (TStruct cs) = concat (map enc_tree cs).
Proof. done. Qed.

(** The translation keeps the shape of a value. *)
Definition same_shape (t t' : ptree) : Prop :=
  tree_type t' = tree_type t /\ zlen (tree_body t') = zlen (tree_body t).

Lemma same_shape_children cs cs' :
  Forall2 same_shape cs cs' -> zlen (concat (map enc_tree cs')) = zlen (concat (map enc_tree cs)).
Proof.
  induction 1 as [|c c' cs cs' [Ht Hb] _ IH]; [done |]. simpl. unfold enc_tree at 1 3.
  rewrite !zlen_app, !zlen_enc_pod, Hb, IH. done.
Qed.

Lemma mapM_Forall2 {A B} (f : A -> option B) (R : A -> B -> Prop) l l' :
  Forall (fun a => forall b, f a = Some b -> R a b) l -> mapM f l = Some l' -> Forall2 R l l'.
Proof. intros Hf Hm%mapM_Some. induction Hm; constructor; apply Forall_cons in Hf as [? ?]; auto. Qed.

Lemma remap_tree_shape t t' : remap_tree types t = Some t' -> same_shape t t'.
Proof.
  unfold same_shape. revert t'. induction t as [ty body|v|k f v a|k f ty s v|id ty cs IH|cs IH] using ptree_nested_ind;
    intros t'; cbn [remap_tree].
  - by intros [= <-].
  - intros (v' & _ & ->)%fmap_Some. simpl. by rewrite !zlen_le32.
  - intros (k' & _ & (v' & _ & (a' & Ha & ->)%fmap_Some)%bind_Some)%bind_Some. split; [done |].
    apply length_mapM in Ha. cbn [tree_body]. rewrite !zlen_app, !zlen_map_le32, !zlen_le32.
    unfold zlen. by rewrite Ha.
  - intros (k' & _ & [= <-])%bind_Some. split; [done |]. cbn [tree_body]. zlia.
  - intros (ty' & _ & (cs' & Hcs & ->)%fmap_Some)%bind_Some. split; [done |].
    eapply mapM_Forall2, same_shape_children in Hcs; [| exact IH].
    by rewrite !tree_body_object, !zlen_app, Hcs, !zlen_le32.
  - intros (cs' & Hcs & ->)%fmap_Some. split; [done |].
    eapply mapM_Forall2, same_shape_children in Hcs; [| exact IH]. exact Hcs.
Qed.

Lemma tree_type_u32 t : tree_ok t -> is_u32 (tree_type t).
Proof. destruct t; simpl; [by intros [? _] | ..]; intros; by vm_compute. Qed.

(** The loop over the members of a container. *)
Lemma pod_foreach_ok f cs turns pre post :
  Forall (fun c => tree_ok c /\ zlen (tree_body c) < 2 ^ 31 /\ forall pre post,
    f (tree_type c) (zlen pre) (zlen (tree_body c)) (pre ++ tree_body c ++ post) =
      match remap_tree types c with Some c' => Done (pre ++ tree_body c' ++ post) | None => Refuse end) cs ->
  (length cs <= turns)%nat ->
  pod_foreach turns f (zlen pre) (zlen pre + zlen (concat (map enc_tree cs)))
      (pre ++ concat (map enc_tree cs) ++ post) =
    match mapM (remap_tree types) cs with
    | Some cs' => Done (pre ++ concat (map enc_tree cs') ++ post)
    | None => Refuse
    end.
Proof.
  intros Hcs. revert turns pre. induction Hcs as [|c cs (Hok & Hlen & Hf) _ IH]; intros turns pre Hturns.
  - change (concat (map enc_tree [])) with (@nil Z). rewrite zlen_nil, Z.add_0_r.
    destruct turns; cbn [pod_foreach]; (case_if; [lia | done]).
  - destruct turns as [|turns]; [simpl in Hturns; lia |]. cbn [map concat mapM]. cbn [pod_foreach].
    set (rest := concat (map enc_tree cs)) in *. pose proof (zlen_nonneg rest). pose proof (zlen_nonneg (tree_body c)).
    pose proof (round8_bounds (zlen (tree_body c))).
    assert (zlen (enc_tree c) = 8 + round8 (zlen (tree_body c))) as Henc by apply zlen_enc_pod.
    rewrite zlen_app. case_if; [| lia].
    assert (pre ++ (enc_tree c ++ rest) ++ post =
            pre ++ le32 (zlen (tree_body c)) ++ le32 (tree_type c) ++ tree_body c ++
              zeros (pad8 (zlen (tree_body c))) ++ rest ++ post) as Hm.
    { unfold enc_tree. by rewrite <- app_assoc, enc_pod_split. }
    rewrite Hm. unfold pod_type_at. rewrite (app_assoc pre), load32_app by zlia. cbn [of_option obind].
    rewrite <- (app_assoc pre), load32_app by done. cbn [of_option obind].
    rewrite !u32_small by (unfold is_u32; first [apply tree_type_u32; done | lia]).
    rewrite (app_assoc (le32 _)), (app_assoc pre).
    set (pre8 := pre ++ le32 (zlen (tree_body c)) ++ le32 (tree_type c)).
    replace (zlen pre + 8) with (zlen pre8) by (subst pre8; zlia). rewrite Hf.
    destruct (remap_tree types c) as [c'|] eqn:Hc; [| done]. cbn [obind option_bind].
    apply remap_tree_shape in Hc as [Hty Hb].
    assert (pre8 ++ tree_body c' ++ zeros (pad8 (zlen (tree_body c))) ++ rest ++ post =
            (pre ++ enc_tree c') ++ rest ++ post) as Hm'.
    { subst pre8. unfold enc_tree, enc_pod, pod_header. rewrite Hb, Hty, <- !app_assoc. done. }
    rewrite Hm'. unfold pod_size_at.
    assert (load32 (zlen pre) ((pre ++ enc_tree c') ++ rest ++ post) = Some (zlen (tree_body c))) as ->.
    { rewrite <- app_assoc. unfold enc_tree. rewrite enc_pod_split, load32_app by done.
      rewrite Hb, u32_small by (unfold is_u32; lia). done. }
    cbn [fmap option_fmap option_map of_option obind]. rewrite ROUND_UP_8.
    pose proof (round8_add 1 (zlen (tree_body c))) as Hr. rewrite Z.mul_1_r in Hr. rewrite Hr.
    assert (zlen (pre ++ enc_tree c') = zlen pre + (8 + round8 (zlen (tree_body c)))) as Hpre.
    { unfold enc_tree. rewrite zlen_app, zlen_enc_pod, Hb. done. }
    rewrite <- Hpre. replace (zlen pre + (zlen (enc_tree c) + zlen rest)) with (zlen (pre ++ enc_tree c') + zlen rest) by lia.
    rewrite (IH turns) by (simpl in Hturns; lia).
    destruct (mapM (remap_tree types) cs) as [cs'|]; [| done]. simpl. by rewrite <- !app_assoc.
Qed.

(** The loop over the alternatives of an enumerated id. *)
Lemma alternative_foreach_ok alts turns pre post last :
  Forall is_u32 alts -> (length alts <= turns)%nat -> last = zlen pre + 4 * zlen alts - 4 ->
  alternative_foreach turns (fun alt m => remap_word types alt m) (zlen pre) last 4
      (pre ++ concat (map le32 alts) ++ post) =
    match mapM (type_lookup types) alts with
    | Some alts' => Done (pre ++ concat (map le32 alts') ++ post)
    | None => Refuse
    end.
Proof.
  intros Ha. revert turns pre last. induction Ha as [|v alts Hv _ IH]; intros turns pre last Hturns ->.
  - change (zlen (@nil Z)) with 0. destruct turns; cbn [alternative_foreach]; (case_if; [lia | done]).
  - destruct turns as [|turns]; [simpl in Hturns; lia |]. cbn [alternative_foreach map concat mapM].
    rewrite zlen_cons. pose proof (zlen_nonneg alts). case_if; [| lia].
    rewrite <- (app_assoc (le32 v)). rewrite remap_word_ok by done.
    destruct (type_lookup types v) as [v'|]; [| done]. cbn [obind].
    rewrite (app_assoc pre). replace (zlen pre + 4) with (zlen (pre ++ le32 v')) by zlia.
    rewrite IH; [| simpl in Hturns; lia | zlia]. cbn.
    destruct (mapM _ _) as [alts'|]; [| done]. simpl. by rewrite <- !app_assoc.
Qed.

Fixpoint tree_depth (t : ptree) : nat :=
  match t with
  | TLeaf _ _ | TId _ | TProp _ _ _ _ _ => 0
  | TPropIds _ _ _ _ => 1
  | TObject _ _ cs | TStruct cs => S (foldr (fun c n => Nat.max (tree_depth c) n) 0%nat cs)
  end.

Lemma tree_depth_children cs :
  Forall (fun c => 8 * Z.of_nat (tree_depth c) <= zlen (tree_body c) + 8) cs ->
  8 * Z.of_nat (foldr (fun c n => Nat.max (tree_depth c) n) 0%nat cs) <= zlen (concat (map enc_tree cs)).
Proof.
  induction 1 as [|c cs Hc _ IH]; [done |]. cbn [foldr map concat]. rewrite zlen_app. unfold enc_tree at 1.
  rewrite zlen_enc_pod. pose proof (round8_bounds (zlen (tree_body c))). pose proof (zlen_nonneg (tree_body c)).
  pose proof (zlen_nonneg (concat (map enc_tree cs))). lia.
Qed.

Lemma tree_depth_bound t : 8 * Z.of_nat (tree_depth t) <= zlen (tree_body t) + 8.
Proof.
  induction t as [ty body|v|k f v a|k f ty s v|id ty cs IH|cs IH] using ptree_nested_ind; cbn [tree_depth].
  - zlia.
  - zlia.
  - pose proof (zlen_nonneg (tree_body (TPropIds k f v a))). lia.
  - pose proof (zlen_nonneg (tree_body (TProp k f ty s v))). lia.
  - apply tree_depth_children in IH. rewrite tree_body_object. zlia.
  - apply tree_depth_children in IH. rewrite tree_body_struct. lia.
Qed.

Lemma child_fits c cs : c ∈ cs -> zlen (tree_body c) <= zlen (concat (map enc_tree cs)).
Proof.
  induction cs as [|c' cs IH]; [by intros ?%not_elem_of_nil |]. cbn [map concat]. rewrite zlen_app.
  pose proof (zlen_nonneg (concat (map enc_tree cs))). unfold enc_tree at 1. rewrite zlen_enc_pod.
  pose proof (round8_bounds (zlen (tree_body c'))). pose proof (zlen_nonneg (tree_body c')).
  intros [-> | Hc]%elem_of_cons; [lia |]. specialize (IH Hc). lia.
Qed.

Lemma children_count cs : (length cs <= length (concat (map enc_tree cs)))%nat.
Proof.
  induction cs as [|c cs IH]; [done |]. cbn [map concat length]. rewrite length_app.
  assert (8 <= zlen (enc_tree c)); [| unfold zlen in *; lia].
  unfold enc_tree. rewrite zlen_enc_pod. pose proof (round8_bounds (zlen (tree_body c))).
  pose proof (zlen_nonneg (tree_body c)). lia.
Qed.

Lemma children_ok cs : foldr (fun c P => tree_ok c /\ P) True cs <-> Forall tree_ok cs.
Proof. induction cs as [|c cs IH]; cbn [foldr]; [done |]. by rewrite Forall_cons, IH. Qed.

Lemma depth_child c cs : c ∈ cs -> (tree_depth c <= foldr (fun c n => Nat.max (tree_depth c) n) 0 cs)%nat.
Proof.
  induction cs as [|c' cs IH]; [by intros ?%not_elem_of_nil |]. cbn [foldr].
  intros [-> | Hc]%elem_of_cons; [lia |]. specialize (IH Hc). lia.
Qed.

(** What the walk over the members needs, from the induction hypothesis. *)
Lemma children_hyp cs fuel :
  Forall (fun t => tree_ok t -> forall fuel pre post, (tree_depth t < fuel)%nat -> zlen (tree_body t) < 2 ^ 31 ->
    remap_data types fuel (tree_type t) (zlen pre) (zlen (tree_body t)) (pre ++ tree_body t ++ post) =
      match remap_tree types t with Some t' => Done (pre ++ tree_body t' ++ post) | None => Refuse end) cs ->
  Forall tree_ok cs -> zlen (concat (map enc_tree cs)) < 2 ^ 31 ->
  (foldr (fun c n => Nat.max (tree_depth c) n) 0%nat cs < fuel)%nat ->
  Forall (fun c => tree_ok c /\ zlen (tree_body c) < 2 ^ 31 /\ forall pre post,
    (fun t b s m => remap_data types fuel t b s m) (tree_type c) (zlen pre) (zlen (tree_body c)) (pre ++ tree_body c ++ post) =
      match remap_tree types c with Some c' => Done (pre ++ tree_body c' ++ post) | None => Refuse end) cs.
Proof.
  intros IH Hok Hlen Hf. rewrite Forall_forall in IH, Hok. apply Forall_forall. intros c Hc.
  pose proof (child_fits _ _ Hc). pose proof (depth_child _ _ Hc).
  split_and!; [auto | lia |]. intros pre post. apply IH; auto; lia.
Qed.

Lemma remap_data_ok t :
  tree_ok t -> forall fuel pre post, (tree_depth t < fuel)%nat -> zlen (tree_body t) < 2 ^ 31 ->
  remap_data types fuel (tree_type t) (zlen pre) (zlen (tree_body t)) (pre ++ tree_body t ++ post) =
    match remap_tree types t with Some t' => Done (pre ++ tree_body t' ++ post) | None => Refuse end.
Proof.
  induction t as [ty body|v|k f v a|k f ty s v|id ty cs IH|cs IH] using ptree_nested_ind;
    intros Hok [|fuel] pre post Hfuel Hlen; try (exfalso; lia); cbn [remap_data tree_type].
  - destruct Hok as [_ Hids]. unfold has_ids in Hids. bool_to_prop.
    do 4 (case_if; [lia |]). done.
  - change (SPA_POD_TYPE_ID =? SPA_POD_TYPE_ID) with true. cbn [tree_body remap_tree].
    rewrite remap_word_ok by done. by destruct (type_lookup types v).
  - destruct Hok as (Hk & Hv & Ha). change (SPA_POD_TYPE_PROP =? SPA_POD_TYPE_ID) with false.
    change (SPA_POD_TYPE_PROP =? SPA_POD_TYPE_PROP) with true. cbv iota.
    cbn [remap_tree].
    assert (zlen (tree_body (TPropIds k f v a)) = 20 + 4 * zlen a) as Hsz
      by (cbn [tree_body]; rewrite !zlen_app, zlen_map_le32; zlia).
    rewrite Hsz in *. pose proof (zlen_nonneg a). cbn [tree_body]. rewrite <- !app_assoc.
    rewrite remap_word_ok by done. destruct (type_lookup types k) as [k'|]; [| done]. cbn [obind option_bind mbind].
    unfold pod_header. rewrite <- !app_assoc.
    assert (forall p z rest, p = zlen pre + 12 ->
      load32 p (pre ++ le32 k' ++ le32 f ++ le32 4 ++ le32 z ++ rest) = Some (u32 z)) as H12.
    { intros p z rest ->. rewrite (app_assoc (le32 k')), (app_assoc (le32 k' ++ _)), (app_assoc pre). apply load32_app. zlia. }
    rewrite H12 by done. change (u32 SPA_POD_TYPE_ID) with SPA_POD_TYPE_ID. cbn [of_option obind].
    change (SPA_POD_TYPE_ID =? SPA_POD_TYPE_ID) with true. cbv iota.
    rewrite (app_assoc (le32 k')), (app_assoc pre), load32_app by zlia. change (u32 4) with 4. cbn [of_option obind].
    destruct fuel as [|fuel]; [simpl in Hfuel; lia |].
    change (remap_data types (S fuel) SPA_POD_TYPE_ID (zlen pre + 16) 4) with (remap_word types (zlen pre + 16)).
    change (fun alt m => remap_data types (S fuel) SPA_POD_TYPE_ID alt 4 m) with (fun alt m => remap_word types alt m).
    rewrite <- !app_assoc.
    rewrite (app_assoc pre), (app_assoc (pre ++ _)), (app_assoc ((pre ++ _) ++ _)), (app_assoc (((pre ++ _) ++ _) ++ _)).
    rewrite remap_word_ok by (done || zlia). destruct (type_lookup types v) as [v'|]; [| done]. cbn [obind option_bind mbind].
    rewrite (app_assoc _ (le32 v')).
    match goal with |- context [?a ++ concat (map le32 _) ++ post] => set (pre' := a) end.
    assert (zlen pre' = zlen pre + 20) as Hpre by (subst pre'; zlia).
    replace (zlen pre + (4 + 16)) with (zlen pre') by lia.
    rewrite alternative_foreach_ok; [| done | |].
    + destruct (mapM (type_lookup types) a) as [a'|]; [| done]. cbn. subst pre'. unfold pod_header. by rewrite <- !app_assoc.
    + rewrite !length_app. pose proof (zlen_map_le32 a). unfold zlen in *. lia.
    + rewrite u32_small by (unfold is_u32; lia). lia.
  - destruct Hok as (Hk & Hty & Hne). change (SPA_POD_TYPE_PROP =? SPA_POD_TYPE_ID) with false.
    change (SPA_POD_TYPE_PROP =? SPA_POD_TYPE_PROP) with true. cbv iota. cbn [remap_tree tree_body].
    rewrite <- !app_assoc. rewrite remap_word_ok by done. destruct (type_lookup types k) as [k'|]; [| done].
    cbn [obind option_bind mbind tree_body]. unfold pod_header. rewrite <- !app_assoc.
    assert (load32 (zlen pre + 12) (pre ++ le32 k' ++ le32 f ++ le32 s ++ le32 ty ++ v ++ post) = Some ty) as ->.
    { rewrite (app_assoc (le32 k')), (app_assoc (le32 k' ++ _)), (app_assoc pre), load32_app by zlia. by rewrite u32_small. }
    cbn [of_option obind]. case_if; [lia | done].
  - destruct Hok as (Hty & Hcs). rewrite children_ok in Hcs.
    change (SPA_POD_TYPE_OBJECT =? SPA_POD_TYPE_ID) with false. change (SPA_POD_TYPE_OBJECT =? SPA_POD_TYPE_PROP) with false.
    change (SPA_POD_TYPE_OBJECT =? SPA_POD_TYPE_OBJECT) with true. cbv iota. cbn [remap_tree].
    rewrite tree_body_object in *. rewrite !zlen_app, !zlen_le32 in Hlen |- *. rewrite <- !app_assoc.
    rewrite (app_assoc pre), remap_word_ok by (done || zlia).
    destruct (type_lookup types ty) as [ty'|]; [| done]. cbn [obind option_bind mbind].
    rewrite (app_assoc (pre ++ _)). set (pre' := (pre ++ le32 id) ++ le32 ty').
    assert (zlen pre' = zlen pre + 8) as Hpre by (subst pre'; zlia).
    replace (zlen pre + 8) with (zlen pre') by lia.
    replace (zlen pre + (4 + (4 + zlen (concat (map enc_tree cs))))) with (zlen pre' + zlen (concat (map enc_tree cs))) by lia.
    rewrite pod_foreach_ok.
    + destruct (mapM (remap_tree types) cs) as [cs'|]; [| done]. cbn -[tree_body enc_tree map concat].
      rewrite tree_body_object. subst pre'. by rewrite <- !app_assoc.
    + apply children_hyp; [done | done | zlia | simpl in Hfuel; lia].
    + rewrite !length_app. pose proof (children_count cs). lia.
  - rename Hok into Hcs. cbn [tree_ok] in Hcs. rewrite children_ok in Hcs.
    change (SPA_POD_TYPE_STRUCT =? SPA_POD_TYPE_ID) with false. change (SPA_POD_TYPE_STRUCT =? SPA_POD_TYPE_PROP) with false.
    change (SPA_POD_TYPE_STRUCT =? SPA_POD_TYPE_OBJECT) with false.
    change (SPA_POD_TYPE_STRUCT =? SPA_POD_TYPE_STRUCT) with true. cbv iota. cbn [remap_tree].
    rewrite tree_body_struct in *. rewrite pod_foreach_ok.
    + by destruct (mapM (remap_tree types) cs) as [cs'|].
    + apply children_hyp; [done | done | done | simpl in Hfuel; lia].
    + rewrite !length_app. pose proof (children_count cs). lia.
Qed.

(** C26: translating the type ids of a received message in place implements the translation of
    the value it encodes: every id, property key, enumerated id and object type is
    replaced by the id of the local type, nothing else changes (sizes, padding, the
    bytes before and after), and the message is refused exactly when some id in it was
    never announced. *)
Theorem remap_refines t pre post :
  tree_ok t -> zlen (tree_body t) < 2 ^ 31 - 16 ->
  pinos_pod_remap_data types SPA_POD_TYPE_STRUCT (zlen pre) (zlen (enc_tree t)) (pre ++ enc_tree t ++ post) =
    match remap_tree types t with Some t' => Done (pre ++ enc_tree t' ++ post) | None => Refuse end.
Proof.
  intros Hok Hlen. unfold pinos_pod_remap_data. pose proof (tree_depth_bound t) as Hd.
  pose proof (round8_bounds (zlen (tree_body t))). pose proof (zlen_enc_pod (tree_type t) (tree_body t)) as He.
  fold (enc_tree t) in He.
  pose proof (remap_data_ok (TStruct [t])) as Hs. rewrite tree_body_struct in Hs. cbn [map concat] in Hs.
  rewrite app_nil_r in Hs. change (tree_type (TStruct [t])) with SPA_POD_TYPE_STRUCT in Hs.
  rewrite Hs; clear Hs.
  - cbn [remap_tree mapM]. destruct (remap_tree types t) as [t'|]; [| done].
    cbn. by rewrite app_nil_r.
  - by cbn.
  - cbn [tree_depth foldr]. rewrite !length_app. unfold zlen in *. lia.
  - rewrite He. lia.
Qed.
End Proofs.

(** ** Witness *)

(** Remote types 0, 1, 2 are the local types 7, 5, 9. *)
Definition sample_types : Map.PinosMap :=
  Map.mkMap (Array.mkArray 24 256 256) (map Map.PINOS_MAP_ID_TO_PTR [7; 5; 9]) 0.

(** A format object with an id property that has two alternatives. *)
Definition sample_format : ptree :=
  TObject 0 1 [TPropIds 0 2 1 [2; 0]; TProp 2 0 SPA_POD_TYPE_INT 4 (le32 44100); TLeaf SPA_POD_TYPE_INT (le32 3)].

Lemma remap_refines_witness :
  pinos_pod_remap_data sample_types SPA_POD_TYPE_STRUCT 0 (zlen (enc_tree (TStruct [sample_format])))
      (enc_tree (TStruct [sample_format])) =
    Done (enc_tree (TStruct [TObject 0 5 [TPropIds 7 2 5 [9; 7]; TProp 9 0 SPA_POD_TYPE_INT 4 (le32 44100);
                                          TLeaf SPA_POD_TYPE_INT (le32 3)]])).
Proof.
  refine (eq_trans _ (eq_trans (remap_refines sample_types (TStruct [sample_format]) [] [] _ _) _)).
  - simpl app. by rewrite app_nil_r.
  - repeat (split || constructor || by vm_compute).
  - by vm_compute.
  - by vm_compute.
Defined.
