(* ===== verification/Interfaces.v ===== *)
(** [pinos/client/interfaces.h], [pinos/client/introspect.h] and the data that
    messages carry: opcodes, info structures, and one inductive type per interface
    with the calls it has in each direction. Strings are nullable ([None] is [NULL]);
    objects (formats, properties, commands, events) are the bytes of their pod. *)
From S2P Require Import Prelude Defs.

Abbreviation str := (option bytes).

(** [SpaDict]: the items, or [NULL]. *)
Abbreviation dict := (option (list (bytes * str))).

(** ** Info structures *)

Record PinosCoreInfo := mkCoreInfo {
  ci_id : Z; ci_change_mask : Z; ci_user_name : str; ci_host_name : str;
  ci_version : str; ci_name : str; ci_cookie : Z; ci_props : dict }.

Record PinosModuleInfo := mkModuleInfo {
  mi_id : Z; mi_change_mask : Z; mi_name : str; mi_filename : str; mi_args : str; mi_props : dict }.

Record PinosNodeInfo := mkNodeInfo {
  ni_id : Z; ni_change_mask : Z; ni_name : str;
  ni_max_inputs : Z; ni_n_inputs : Z; ni_input_formats : list bytes;
  ni_max_outputs : Z; ni_n_outputs : Z; ni_output_formats : list bytes;
  ni_state : Z; ni_error : str; ni_props : dict }.

Record PinosClientInfo := mkClientInfo { cli_id : Z; cli_change_mask : Z; cli_props : dict }.

Record PinosLinkInfo := mkLinkInfo {
  li_id : Z; li_change_mask : Z; li_output_node_id : Z; li_output_port_id : Z;
  li_input_node_id : Z; li_input_port_id : Z }.

(** [spa/include/spa/node.h] *)
Record SpaPortInfo := mkPortInfo {
  pi_flags : Z; pi_rate : Z; pi_maxbuffering : Z; pi_latency : Z;
  pi_params : list bytes; pi_extra : dict }.

(** Buffers as [use_buffers] sends them; a data pointer stands for an id or offset. *)
Record SpaMeta := mkMeta { meta_type : Z; meta_size : Z }.
Record SpaData := mkData { data_type : Z; data_data : Z; data_flags : Z; data_mapoffset : Z; data_maxsize : Z }.
Record PinosClientNodeBuffer := mkNodeBuffer {
  nb_mem_id : Z; nb_offset : Z; nb_size : Z; nb_buffer_id : Z;
  nb_metas : list SpaMeta; nb_datas : list SpaData }.

(** ** Calls *)

(** [PinosCoreMethods] *)
Inductive core_method :=
| CoreClientUpdate (props : dict)
| CoreSync (seq : Z)
| CoreGetRegistry (new_id : Z)
| CoreCreateNode (factory_name name : str) (props : dict) (new_id : Z)
| CoreCreateClientNode (name : str) (props : dict) (new_id : Z)
| CoreUpdateTypes (first_id : Z) (types : list str).

(** [PinosCoreEvents] *)
Inductive core_event :=
| CoreInfo (info : PinosCoreInfo)
| CoreDone (seq : Z)
| CoreError (id res : Z) (error : str)
| CoreRemoveId (id : Z)
| CoreEvUpdateTypes (first_id : Z) (types : list str).

Inductive registry_method := RegistryBind (id new_id : Z).
Inductive registry_event := RegistryGlobal (id : Z) (type : str) | RegistryGlobalRemove (id : Z).

(** The info events of modules, nodes, clients and links. *)
Inductive info_event :=
| ModuleInfo (info : PinosModuleInfo)
| NodeInfo (info : PinosNodeInfo)
| ClientInfo (info : PinosClientInfo)
| LinkInfo (info : PinosLinkInfo).

(** [PinosClientNodeMethods] *)
Inductive client_node_method :=
| CnUpdate (change_mask max_input_ports max_output_ports : Z) (props : option bytes)
| CnPortUpdate (direction port_id change_mask : Z) (possible_formats : list bytes)
    (format props : option bytes) (info : option SpaPortInfo)
| CnEvent (event : bytes)
| CnDestroy.

(** [PinosClientNodeEvents]; descriptors are given as the receiver sees them. *)
Inductive client_node_event :=
| CnDone (readfd writefd : Z)
| CnEvEvent (event : bytes)
| CnAddPort (seq direction port_id : Z)
| CnRemovePort (seq direction port_id : Z)
| CnSetFormat (seq direction port_id flags : Z) (format : option bytes)
| CnSetProperty (seq id : Z) (value : bytes)
| CnAddMem (direction port_id mem_id type memfd flags offset size : Z)
| CnUseBuffers (seq direction port_id : Z) (buffers : list PinosClientNodeBuffer)
| CnNodeCommand (seq : Z) (command : bytes)
| CnPortCommand (port_id : Z) (command : bytes)
| CnTransport (memfd offset size : Z).

(** ** Opcodes *)

Definition PINOS_CORE_METHOD_CLIENT_UPDATE : Z := 0.
Definition PINOS_CORE_METHOD_SYNC : Z := 1.
Definition PINOS_CORE_METHOD_GET_REGISTRY : Z := 2.
Definition PINOS_CORE_METHOD_CREATE_NODE : Z := 3.
Definition PINOS_CORE_METHOD_CREATE_CLIENT_NODE : Z := 4.
Definition PINOS_CORE_METHOD_UPDATE_TYPES : Z := 5.

Definition PINOS_CORE_EVENT_INFO : Z := 0.
Definition PINOS_CORE_EVENT_DONE : Z := 1.
Definition PINOS_CORE_EVENT_ERROR : Z := 2.
Definition PINOS_CORE_EVENT_REMOVE_ID : Z := 3.
Definition PINOS_CORE_EVENT_UPDATE_TYPES : Z := 4.

Definition PINOS_REGISTRY_METHOD_BIND : Z := 0.
Definition PINOS_REGISTRY_EVENT_GLOBAL : Z := 0.
Definition PINOS_REGISTRY_EVENT_GLOBAL_REMOVE : Z := 1.

Definition PINOS_MODULE_EVENT_INFO : Z := 0.
Definition PINOS_NODE_EVENT_INFO : Z := 0.
Definition PINOS_CLIENT_EVENT_INFO : Z := 0.
Definition PINOS_LINK_EVENT_INFO : Z := 0.

Definition PINOS_CLIENT_NODE_METHOD_UPDATE : Z := 0.
Definition PINOS_CLIENT_NODE_METHOD_PORT_UPDATE : Z := 1.
Definition PINOS_CLIENT_NODE_METHOD_EVENT : Z := 2.
Definition PINOS_CLIENT_NODE_METHOD_DESTROY : Z := 3.

Definition PINOS_CLIENT_NODE_EVENT_DONE : Z := 0.
Definition PINOS_CLIENT_NODE_EVENT_EVENT : Z := 1.
Definition PINOS_CLIENT_NODE_EVENT_ADD_PORT : Z := 2.
Definition PINOS_CLIENT_NODE_EVENT_REMOVE_PORT : Z := 3.
Definition PINOS_CLIENT_NODE_EVENT_SET_FORMAT : Z := 4.
Definition PINOS_CLIENT_NODE_EVENT_SET_PROPERTY : Z := 5.
Definition PINOS_CLIENT_NODE_EVENT_ADD_MEM : Z := 6.
Definition PINOS_CLIENT_NODE_EVENT_USE_BUFFERS : Z := 7.
Definition PINOS_CLIENT_NODE_EVENT_NODE_COMMAND : Z := 8.
Definition PINOS_CLIENT_NODE_EVENT_PORT_COMMAND : Z := 9.
Definition PINOS_CLIENT_NODE_EVENT_TRANSPORT : Z := 10.

(** ** What arrives

    A received dictionary is never [NULL] and its strings are never [NULL]. *)
Definition recv_str (s : str) : str := Some (default [] s).
Definition recv_dict (d : dict) : dict := Some (map (fun '(k, v) => (k, recv_str v)) (default [] d)).

Definition str_ok (s : str) : Prop := match s with Some s => is_cstr s | None => True end.
Definition dict_ok (d : dict) : Prop :=
  zlen (default [] d) < 2 ^ 31 /\ Forall (fun '(k, v) => is_cstr k /\ str_ok v) (default [] d).
