(* ===== verification/TypeMap.v ===== *)
(** Type names and ids: the interface [SpaTypeMap] ([spa/include/spa/type-map.h]), its
    two implementations ([pinos/client/mapper.c] and [spa/lib/mapper.c]), and the
    tables of a peer's types that [core_update_types] of [pinos/server/core.c] and
    [core_event_update_types] of [pinos/client/context.c] fill.

    An implementation promises to be a growing list of distinct names, the ids being
    positions in it; the tables are proved correct against that promise only. *)
From S2P Require Import Prelude Defs Map Pod PodUtils PodTheory Interfaces Remap.
Import Map.

(** [NULL] names are [None]; [Undef] is an access outside the table or its strings. *)
Class SpaTypeMap (T : Type) := {
  spa_type_map_get_id : T -> str -> outcome (Z * T);
  spa_type_map_get_type : T -> Z -> outcome (option bytes);
  spa_type_map_get_size : T -> Z
}.

(** The promise: [tm_holds m names] is the state after registering [names], [tm_base]
    the id of the first of them, [tm_fits names] the capacity of the implementation. *)
Class SpaTypeMapLaws (T : Type) `{SpaTypeMap T} := {
  tm_holds : T -> list bytes -> Prop;
  tm_base : Z;
  tm_fits : list bytes -> Prop;
  tm_base_range : 0 <= tm_base <= 1;
  tm_holds_names m names : tm_holds m names -> NoDup names /\ Forall is_cstr names /\ zlen names < 2 ^ 30;
  tm_fits_sublist names names' : names `sublist_of` names' -> tm_fits names' -> tm_fits names;
  tm_get_id_known m names i s : tm_holds m names -> names !! i = Some s ->
    spa_type_map_get_id m (Some s) = Done (tm_base + Z.of_nat i, m);
  tm_get_id_new m names s : tm_holds m names -> s ∉ names -> is_cstr s -> tm_fits (names ++ [s]) ->
    exists m', spa_type_map_get_id m (Some s) = Done (tm_base + zlen names, m') /\ tm_holds m' (names ++ [s]);
  tm_get_id_null m : spa_type_map_get_id m None = Done (0, m);
  tm_get_type m names i s : tm_holds m names -> names !! i = Some s ->
    spa_type_map_get_type m (tm_base + Z.of_nat i) = Done (Some s);
  tm_get_type_out m names id : tm_holds m names -> tm_base + zlen names <= id <= SPA_ID_INVALID ->
    spa_type_map_get_type m id = Done None;
  tm_get_size m names : tm_holds m names -> spa_type_map_get_size m = zlen names
}.

(** ** [pinos/client/mapper.c] *)

Module Pinos.

(** The names one after the other in [strings], their offsets in [types]. *)
Record TypeMap := mkTypeMap { types : PinosMap; strings : Array.PinosArray; string_data : bytes }.

Section Realloc.
Context `{Heap} (realloc_ok : Z -> bool).

(** The [strcmp] loop over the offsets. *)
Fixpoint find_type (mem : bytes) (offsets : list Z) (i : Z) (type : bytes) : outcome (option Z) :=
  match offsets with
  | [] => Done None
  | o :: offsets' =>
      let* s := of_option (cstr (mem_from o mem)) in
      if decide (s = type) then Done (Some i) else find_type mem offsets' (i + 1) type
  end.

Definition type_map_get_id (this : TypeMap) (type : str) : outcome (Z * TypeMap) :=
  match type with
  | None => Done (0, this)
  | Some type =>
      let* found := find_type (string_data this) (words (types this)) 0 type in
      match found with
      | Some i => Done (i, this)
      | None =>
          let size := SPA_ROUND_UP_N (zlen type + 1) 2 in
          let* (p, arr) := of_option (Array.pinos_array_add realloc_ok (strings this) size) in
          let* o := of_option p in
          let mem := string_data this ++ type ++ [0] ++ fresh (size - (zlen type + 1)) in
          let* (i, ts) := of_option (pinos_map_insert_new realloc_ok (types this) o) in
          Done (i, mkTypeMap ts arr mem)
      end
  end.

Definition type_map_get_type (this : TypeMap) (id : Z) : outcome (option bytes) :=
  if id =? SPA_ID_INVALID then Done None
  else if pinos_map_check_id (types this) id then
    let* o := of_option (get_item (types this) id) in
    let* s := of_option (cstr (mem_from o (string_data this))) in Done (Some s)
  else Done None.

Definition type_map_get_size (this : TypeMap) : Z := pinos_map_get_size (types this).
End Realloc.

(** [PINOS_MAP_INIT (128)], [PINOS_ARRAY_INIT (4096)]. *)
Definition default_type_map : TypeMap :=
  mkTypeMap (mkMap (Array.pinos_array_init 128) [] 0) (Array.pinos_array_init 4096) [].

Definition granted (n : Z) : bool := true.

#[global] Instance pinos_type_map `{Heap} : SpaTypeMap TypeMap := {
  spa_type_map_get_id := type_map_get_id granted;
  spa_type_map_get_type := type_map_get_type;
  spa_type_map_get_size := type_map_get_size
}.

(** *** The promise *)

(** Offsets where the names are, each at an even address. *)
Definition offsets_ok (mem : bytes) (names : list bytes) (offsets : list Z) : Prop :=
  Forall2 (fun s o => exists pre post, mem = pre ++ s ++ 0 :: post /\ zlen pre = o /\ Z.even o = true) names offsets.

(** An upper bound of the bytes the names take: a terminator and at most one byte of padding each. *)
Definition strings_size (names : list bytes) : Z := foldr (fun s n => zlen s + 2 + n) 0 names.

Record holds (m : TypeMap) (names : list bytes) : Prop := {
  h_offsets : offsets_ok (string_data m) names (words (types m));
  h_types : repr (types m) (Some <$> words (types m)) [];
  h_strings : Array.wf (strings m) /\ Array.size (strings m) = zlen (string_data m) /\ Z.even (zlen (string_data m)) = true;
  h_size : zlen (string_data m) <= strings_size names;
  h_names : NoDup names /\ Forall is_cstr names
}.

(** Room for as many types as the map can number, and for their strings. *)
Definition fits (names : list bytes) : Prop :=
  zlen names < 2 ^ 30 /\ strings_size names <= 2 ^ 61.

Lemma cstr_at (pre s post : bytes) : is_cstr s -> cstr (mem_from (zlen pre) (pre ++ s ++ 0 :: post)) = Some s.
Proof. intros Hs. unfold mem_from. rewrite to_nat_zlen, drop_app_length. by apply cstr_app. Qed.

Lemma offsets_extend mem d names offsets : offsets_ok mem names offsets -> offsets_ok (mem ++ d) names offsets.
Proof.
  intros Ho. eapply Forall2_impl; [exact Ho |]. intros s o (pre & post & -> & Hp & He).
  exists pre, (post ++ d). split_and!; [| done | done]. by rewrite <- !app_assoc.
Qed.

Lemma find_type_ok mem names offsets k s :
  offsets_ok mem names offsets -> Forall is_cstr names ->
  find_type mem offsets k s = Done ((fun i : nat => k + Z.of_nat i) <$> index_of (fun t => bool_decide (t = s)) names).
Proof.
  intros Ho Hn. revert k Hn. induction Ho as [|t o names offsets (pre & post & -> & <- & He) _ IH]; intros k Hn; [done |].
  apply Forall_cons in Hn as [Ht Hn]. cbn [find_type index_of]. rewrite cstr_at by done. cbn [of_option obind].
  case_decide as Hd; [rewrite bool_decide_true by done; simpl; do 2 f_equal; lia |].
  rewrite bool_decide_false by done. rewrite IH by done.
  destruct (index_of _ names); simpl; do 2 f_equal; lia.
Qed.

Lemma index_of_here (names : list bytes) i s :
  NoDup names -> names !! i = Some s -> index_of (fun t => bool_decide (t = s)) names = Some i.
Proof.
  intros Hnd Hi. apply index_of_Some. split; [exists s; by rewrite bool_decide_true |].
  intros j y Hj Hy. apply bool_decide_false. intros ->. pose proof (NoDup_lookup _ _ _ _ Hnd Hi Hy). lia.
Qed.

Lemma index_of_absent (names : list bytes) s : s ∉ names -> index_of (fun t => bool_decide (t = s)) names = None.
Proof.
  intros Hs. apply index_of_None, Forall_forall. intros t Ht. apply bool_decide_false. by intros ->.
Qed.

Lemma ROUND_UP_2_spec n : 0 <= n -> n <= SPA_ROUND_UP_N n 2 <= n + 1 /\ Z.even (SPA_ROUND_UP_N n 2) = true.
Proof.
  intros Hn. destruct (SPA_ROUND_UP_N_spec n 1) as [Hr Hm]; [done |]. change (2 ^ 1) with 2 in *.
  split; [lia |]. rewrite Zeven_mod. by rewrite Hm.
Qed.

Lemma strings_size_concat names names' : strings_size (names ++ names') = strings_size names + strings_size names'.
Proof. induction names as [|t names IH]; simpl; lia. Qed.
Lemma strings_size_sublist names names' : names `sublist_of` names' -> strings_size names <= strings_size names'.
Proof. induction 1 as [|s l l' _ IH|s l l' _ IH]; simpl; [done | lia | pose proof (zlen_nonneg s); lia]. Qed.
Lemma strings_size_app names s : strings_size (names ++ [s]) = strings_size names + (zlen s + 2).
Proof. rewrite strings_size_concat. simpl. lia. Qed.

Section Laws.
Context `{Heap}.

Lemma holds_lookup m names i s : holds m names -> names !! i = Some s ->
  exists o, words (types m) !! i = Some o /\ cstr (mem_from o (string_data m)) = Some s.
Proof.
  intros Hh Hi. destruct (Forall2_lookup_l _ _ _ _ _ (h_offsets _ _ Hh) Hi) as (o & Ho & pre & post & -> & <- & _).
  exists (zlen pre). split; [done |]. apply cstr_at.
  eapply (Forall_lookup_1 _ _ _ _ (proj2 (h_names _ _ Hh)) Hi).
Qed.

Lemma holds_size m names : holds m names -> pinos_map_get_size (types m) = zlen names.
Proof.
  intros Hh. rewrite (repr_get_size _ _ _ (h_types _ _ Hh)). unfold zlen. rewrite length_fmap.
  by rewrite <- (Forall2_length _ _ _ (h_offsets _ _ Hh)).
Qed.

Lemma holds_bound m names : holds m names -> zlen names < 2 ^ 30.
Proof.
  intros Hh. pose proof (repr_bound _ _ _ (h_types _ _ Hh)) as Hb. unfold zlen in *.
  by rewrite length_fmap, <- (Forall2_length _ _ _ (h_offsets _ _ Hh)) in Hb.
Qed.

Lemma get_id_known m names i s : holds m names -> names !! i = Some s ->
  type_map_get_id granted m (Some s) = Done (Z.of_nat i, m).
Proof.
  intros Hh Hi. destruct (h_names _ _ Hh) as [Hnd Hc]. unfold type_map_get_id.
  rewrite (find_type_ok _ _ _ _ _ (h_offsets _ _ Hh) Hc), (index_of_here _ _ _ Hnd Hi). done.
Qed.

Lemma even_word (o : Z) : 0 <= o < 2 ^ 64 -> Z.even o = true -> is_data o.
Proof. intros Ho He. split; [done |]. by rewrite <- Z.negb_even, He. Qed.

Lemma get_id_new m names s :
  holds m names -> s ∉ names -> is_cstr s -> fits (names ++ [s]) ->
  exists m', type_map_get_id granted m (Some s) = Done (zlen names, m') /\ holds m' (names ++ [s]).
Proof.
  intros Hh Hs Hc [Hcount Hroom]. destruct (h_names _ _ Hh) as [Hnd Hcs]. destruct (h_strings _ _ Hh) as (Hwf & Hsz & Hev).
  unfold type_map_get_id. rewrite (find_type_ok _ _ _ _ _ (h_offsets _ _ Hh) Hcs), (index_of_absent _ _ Hs).
  cbn [fmap option_fmap option_map obind]. pose proof (zlen_nonneg s). pose proof (zlen_nonneg (string_data m)).
  destruct (ROUND_UP_2_spec (zlen s + 1)) as [Hr2 Hev2]; [lia |]. set (sz := SPA_ROUND_UP_N (zlen s + 1) 2) in *.
  rewrite strings_size_app in Hroom. pose proof (h_size _ _ Hh) as Hbytes.
  destruct (Array.array_add_granted granted (strings m) sz) as (arr & -> & Hwf' & Hsz'); [done | done | lia | lia |].
  cbn [of_option obind]. rewrite Hsz.
  pose proof (h_types _ _ Hh) as Hrep. pose proof (Forall2_length _ _ _ (h_offsets _ _ Hh)) as Hlen.
  destruct (insert_new_append granted (types m) (Some <$> words (types m)) (zlen (string_data m)) Hrep) as (ts & -> & Hrep').
  { apply even_word; [lia | done]. }
  { unfold zlen in *. rewrite length_fmap, <- Hlen. rewrite length_app in Hcount. simpl in Hcount. lia. }
  { done. }
  cbn [obind]. replace (zlen (Some <$> words (types m))) with (zlen names) by (unfold zlen; by rewrite length_fmap, Hlen).
  eexists. split; [done |].
  change [Some (zlen (string_data m))] with (Some <$> [zlen (string_data m)]) in Hrep'. rewrite <- fmap_app in Hrep'.
  pose proof (repr_words _ _ _ Hrep') as Hws.
  assert (zlen (string_data m ++ s ++ [0] ++ fresh (sz - (zlen s + 1))) = zlen (string_data m) + sz) as Hnew.
  { rewrite !zlen_app, fresh_len by lia. change (zlen [0]) with 1. lia. }
  split; cbn [types strings string_data].
  - rewrite Hws. apply Forall2_app; [exact (offsets_extend _ _ _ _ (h_offsets _ _ Hh)) |]. constructor; [| constructor].
    by exists (string_data m), (fresh (sz - (zlen s + 1))).
  - by rewrite Hws.
  - rewrite Hnew, Z.even_add, Hev, Hev2. split_and!; [done | lia | done].
  - rewrite Hnew, strings_size_app. lia.
  - split; [| apply Forall_app; by split; [| constructor]]. apply NoDup_app. split_and!; [done | | apply NoDup_singleton].
    intros x Hx ->%list_elem_of_singleton. done.
Qed.

Lemma get_type_ok m names i s : holds m names -> names !! i = Some s ->
  type_map_get_type m (0 + Z.of_nat i) = Done (Some s).
Proof.
  intros Hh Hi. unfold type_map_get_type. pose proof (lookup_lt_Some _ _ _ Hi) as Hlt.
  pose proof (holds_bound _ _ Hh). pose proof (holds_size _ _ Hh) as Hsz.
  rewrite (proj2 (Z.eqb_neq _ _)) by (unfold SPA_ID_INVALID, zlen in *; lia).
  unfold pinos_map_check_id. rewrite Hsz. case_if; [| unfold zlen in *; lia].
  destruct (holds_lookup _ _ _ _ Hh Hi) as (o & Ho & Hc). unfold get_item. rewrite Z.add_0_l, Nat2Z.id, Ho.
  cbn [of_option obind]. by rewrite Hc.
Qed.

Lemma get_type_out m names id : holds m names -> 0 + zlen names <= id <= SPA_ID_INVALID -> type_map_get_type m id = Done None.
Proof.
  intros Hh Hid. unfold type_map_get_type, pinos_map_check_id. rewrite (holds_size _ _ Hh).
  case_if; [done |]. case_if; [lia | done].
Qed.

Lemma default_holds : holds default_type_map [].
Proof.
  split; simpl; [constructor | | done | done | split; constructor].
  split; simpl; try done; [constructor | intros i; by rewrite lookup_nil; split; [| intros Hi%elem_of_nil]].
Qed.

#[global] Program Instance pinos_type_map_laws : SpaTypeMapLaws TypeMap := {|
  tm_holds := holds; tm_base := 0; tm_fits := fits
|}.
Next Obligation. done. Qed.
Next Obligation.
  intros m names Hh. destruct (h_names _ _ Hh). split_and!; [done | done | by eapply holds_bound].
Qed.
Next Obligation.
  intros names names' Hs [Hc Hr]. pose proof (strings_size_sublist _ _ Hs). pose proof (sublist_length _ _ Hs).
  split; [unfold zlen in *; lia |]. lia.
Qed.
Next Obligation. intros m names i s. apply get_id_known. Qed.
Next Obligation. intros m names s. apply get_id_new. Qed.
Next Obligation. done. Qed.
Next Obligation. intros m names i s. apply get_type_ok. Qed.
Next Obligation. intros m names id. apply get_type_out. Qed.
Next Obligation. intros m names Hh. exact (holds_size m names Hh). Qed.
End Laws.
End Pinos.

(** ** [spa/lib/mapper.c] *)

Module Spa.

Definition MAX_TYPES : Z := 4096.

(** [types[1 .. n_types]]; [types[0]] stays [NULL]. The strings belong to the callers. *)
Record TypeMap := mkTypeMap { types : list bytes }.
Definition n_types (this : TypeMap) : Z := zlen (types this).

Definition type_map_get_id (this : TypeMap) (type : str) : outcome (Z * TypeMap) :=
  match type with
  | None => Done (0, this)
  | Some type =>
      match index_of (fun t => bool_decide (t = type)) (types this) with
      | Some i => Done (1 + Z.of_nat i, this)
      | None =>
          let i := n_types this + 1 in
          if i <? MAX_TYPES then Done (i, mkTypeMap (types this ++ [type])) else Undef
      end
  end.

Definition type_map_get_type (this : TypeMap) (id : Z) : outcome (option bytes) :=
  if id <=? n_types this then Done (if id =? 0 then None else types this !! Z.to_nat (id - 1)) else Done None.

Definition type_map_get_size (this : TypeMap) : Z := n_types this.

#[global] Instance spa_type_map : SpaTypeMap TypeMap := {
  spa_type_map_get_id := type_map_get_id;
  spa_type_map_get_type := type_map_get_type;
  spa_type_map_get_size := type_map_get_size
}.

Record holds (m : TypeMap) (names : list bytes) : Prop := {
  h_types : types m = names;
  h_names : NoDup names /\ Forall is_cstr names /\ zlen names < MAX_TYPES
}.

#[global] Program Instance spa_type_map_laws : SpaTypeMapLaws TypeMap := {|
  tm_holds := holds; tm_base := 1; tm_fits names := zlen names < MAX_TYPES
|}.
Next Obligation. done. Qed.
Next Obligation. intros m names [_ (? & ? & ?)]. unfold MAX_TYPES in *. split_and!; [done | done | lia]. Qed.
Next Obligation. cbv beta. intros names names' Hs%sublist_length. unfold zlen. lia. Qed.
Next Obligation.
  intros m names i s [Ht [Hnd _]] Hi. simpl. unfold type_map_get_id. by rewrite Ht, (Pinos.index_of_here _ _ _ Hnd Hi).
Qed.
Next Obligation.
  intros m names s [Ht (Hnd & Hc & Hl)] Hs Hcs Hfit. simpl. unfold type_map_get_id, n_types.
  rewrite Ht, (Pinos.index_of_absent _ _ Hs). rewrite zlen_app in Hfit. change (zlen [s]) with 1 in Hfit.
  case_if; [| lia]. eexists. split; [by rewrite Z.add_comm |]. split; [simpl; congruence |].
  rewrite zlen_app. split_and!; [| by apply Forall_app; split; [| constructor] | done].
  apply NoDup_app. split_and!; [done | | apply NoDup_singleton]. by intros x Hx ->%list_elem_of_singleton.
Qed.
Next Obligation. done. Qed.
Next Obligation.
  intros m names i s [Ht _] Hi. simpl. unfold type_map_get_type, n_types. rewrite Ht.
  pose proof (lookup_lt_Some _ _ _ Hi). case_if; [| unfold zlen in *; lia].
  rewrite (proj2 (Z.eqb_neq _ _)) by lia. replace (Z.to_nat (1 + Z.of_nat i - 1)) with i by lia. by rewrite Hi.
Qed.
Next Obligation.
  intros m names id [Ht _] Hid. simpl. unfold type_map_get_type, n_types. rewrite Ht. case_if; [lia | done].
Qed.
Next Obligation. intros m names [Ht _]. simpl. unfold type_map_get_size, n_types. by rewrite Ht. Qed.
End Spa.

(** ** The table of a peer's types *)

Section UpdateTypes.
Context `{SpaTypeMapLaws T}.

(** [core_update_types] and [core_event_update_types]: the loop over the announced names.
    A name that cannot be stored is logged and skipped. *)
Fixpoint update_types (types : PinosMap) (map : T) (first_id : Z) (names : list str) : outcome (PinosMap * T) :=
  match names with
  | [] => Done (types, map)
  | name :: names' =>
      let* (this_id, map) := spa_type_map_get_id map name in
      let* (_, types) := of_option (pinos_map_insert_at Pinos.granted types first_id (PINOS_MAP_ID_TO_PTR this_id)) in
      update_types types map (u32 (first_id + 1)) names'
  end.

(** The local id of a registered name. *)
Definition id_of (known : list bytes) (s : bytes) : Z :=
  tm_base + Z.of_nat (default 0%nat (index_of (fun t => bool_decide (t = s)) known)).

(** The table holds the local ids of the peer's names, in the peer's order. *)
Definition table (types : PinosMap) (known names : list bytes) : Prop :=
  repr types ((fun s => Some (PINOS_MAP_ID_TO_PTR (id_of known s))) <$> names) [] /\ names ⊆ known.

Lemma id_of_app known s l : s ∈ known -> id_of (known ++ l) s = id_of known s.
Proof.
  intros Hs. unfold id_of. destruct (index_of (fun t => bool_decide (t = s)) known) as [i|] eqn:Hi.
  - assert (index_of (fun t => bool_decide (t = s)) (known ++ l) = Some i) as ->; [| done].
    apply index_of_Some in Hi as [(x & Hx & Hp) Hmin]. apply index_of_Some.
    pose proof (lookup_lt_Some _ _ _ Hx). split; [exists x; by rewrite lookup_app_l by done |].
    intros j y Hj. rewrite lookup_app_l by lia. by apply Hmin.
  - apply index_of_None in Hi. rewrite Forall_forall in Hi. specialize (Hi s Hs). by rewrite bool_decide_true in Hi.
Qed.

Lemma id_of_here known i s : NoDup known -> known !! i = Some s -> id_of known s = tm_base + Z.of_nat i.
Proof. intros Hnd Hi. unfold id_of. by rewrite (Pinos.index_of_here _ _ _ Hnd Hi). Qed.

Lemma table_grow types known l names : table types known names -> table types (known ++ l) names.
Proof.
  intros [Hr Hs]. split; [| set_solver].
  replace ((fun s => Some (PINOS_MAP_ID_TO_PTR (id_of (known ++ l) s))) <$> names)
    with ((fun s => Some (PINOS_MAP_ID_TO_PTR (id_of known s))) <$> names); [done |].
  apply list_fmap_ext. intros i s Hi. rewrite id_of_app; [done |]. apply Hs. by eapply list_elem_of_lookup_2.
Qed.

Lemma ID_TO_PTR_even id : 0 <= id < 2 ^ 31 -> PINOS_MAP_ID_TO_PTR id = 2 * id /\ is_data (PINOS_MAP_ID_TO_PTR id).
Proof.
  intros Hid. unfold PINOS_MAP_ID_TO_PTR. rewrite Z.shiftl_mul_pow2, u32_small by (try unfold is_u32; lia).
  split; [lia |]. split; [unfold is_u64; lia |]. rewrite Z.mul_comm. change (2 ^ 1) with 2. by rewrite Z.odd_mul.
Qed.

Lemma ID_PTR_inverse id : 0 <= id < 2 ^ 31 -> PINOS_MAP_PTR_TO_ID (PINOS_MAP_ID_TO_PTR id) = id.
Proof.
  intros Hid. destruct (ID_TO_PTR_even id Hid) as [-> _]. unfold PINOS_MAP_PTR_TO_ID.
  rewrite u32_small by (unfold is_u32; lia). rewrite Z.shiftr_div_pow2, Z.mul_comm by lia. apply Z.div_mul. lia.
Qed.

(** Registering a name, known or new. *)
Lemma get_id_any map known s :
  tm_holds map known -> is_cstr s -> tm_fits (known ++ [s]) ->
  exists map' l, spa_type_map_get_id map (Some s) = Done (id_of (known ++ l) s, map') /\
    tm_holds map' (known ++ l) /\ s ∈ known ++ l /\ (l = [] \/ l = [s]).
Proof.
  intros Hh Hc Hfit. destruct (tm_holds_names _ _ Hh) as (Hnd & _). destruct (decide (s ∈ known)) as [Hs | Hs].
  - apply list_elem_of_lookup_1 in Hs as Hi. destruct Hi as [i Hi]. exists map, []. rewrite app_nil_r.
    rewrite (tm_get_id_known _ _ _ _ Hh Hi), (id_of_here _ _ _ Hnd Hi). split_and!; [done | done | done | by left].
  - destruct (tm_get_id_new _ _ _ Hh Hs Hc Hfit) as (map' & -> & Hh'). exists map', [s].
    destruct (tm_holds_names _ _ Hh') as (Hnd' & _).
    rewrite (id_of_here _ (length known) s Hnd') by (by rewrite lookup_app_r, Nat.sub_diag by lia).
    split_and!; [done | done | set_solver | by right].
Qed.

Lemma id_of_range map known s : tm_holds map known -> 0 <= id_of known s < 2 ^ 31.
Proof.
  intros Hh. destruct (tm_holds_names _ _ Hh) as (_ & _ & Hl). pose proof tm_base_range. unfold id_of.
  destruct (index_of _ known) as [i|] eqn:Hi; simpl; [apply index_of_lt in Hi; unfold zlen in Hl; lia | lia].
Qed.

Lemma update_types_ok types map known names new :
  tm_holds map known -> table types known names -> Forall is_cstr new -> tm_fits (known ++ new) ->
  zlen names + zlen new < 2 ^ 30 ->
  exists types' map' known', update_types types map (zlen names) (Some <$> new) = Done (types', map') /\
    tm_holds map' known' /\ table types' known' (names ++ new) /\ known `prefix_of` known'.
Proof.
  revert types map known names. induction new as [|s new IH]; intros types map known names Hh Ht Hc Hfit Hl.
  { exists types, map, known. by rewrite app_nil_r. }
  apply Forall_cons in Hc as [Hs Hc]. rewrite zlen_cons in Hl. pose proof (zlen_nonneg names). pose proof (zlen_nonneg new).
  assert (tm_fits (known ++ [s])) as Hfit1.
  { eapply tm_fits_sublist, Hfit. apply sublist_app; [done |]. apply sublist_skip, sublist_nil_l. }
  destruct (get_id_any map known s Hh Hs Hfit1) as (map' & l & Hget & Hh' & Hin & Hor).
  cbn [fmap list_fmap update_types]. rewrite Hget. cbn [obind].
  destruct (ID_TO_PTR_even (id_of (known ++ l) s)) as [_ Hdata]; [by eapply id_of_range |].
  destruct (table_grow _ _ l _ Ht) as [Hr Hsub].
  destruct (insert_at_end Pinos.granted _ _ [] _ Hr Hdata) as (types' & Hins & Hr'); [unfold zlen in *; rewrite length_fmap; lia | done |].
  replace (zlen (_ <$> names)) with (zlen names) in Hins by (unfold zlen; by rewrite length_fmap).
  rewrite Hins. cbn [of_option obind]. rewrite u32_small by (unfold is_u32; lia).
  destruct (IH types' map' (known ++ l) (names ++ [s]) Hh') as (types2 & map2 & known2 & Hu & Hh2 & Ht2 & Hpre).
  - split; [by rewrite fmap_app | set_solver].
  - done.
  - eapply tm_fits_sublist, Hfit. rewrite <- app_assoc. apply sublist_app; [done |].
    destruct Hor as [-> | ->]; [by apply sublist_cons | done].
  - rewrite zlen_app. change (zlen [s]) with 1. lia.
  - exists types2, map2, known2. rewrite <- app_assoc in Ht2. rewrite zlen_app in Hu. split_and!; [done.. |].
    etransitivity; [by apply prefix_app_r | exact Hpre].
Qed.

(** The local id of a name of the table is the id under which the local map knows it. *)
Lemma table_type types map known names i s :
  tm_holds map known -> table types known names -> names !! i = Some s ->
  spa_type_map_get_type map (id_of known s) = Done (Some s).
Proof.
  intros Hh [_ Hsub] Hi. destruct (tm_holds_names _ _ Hh) as (Hnd & _).
  assert (s ∈ known) as [j Hj]%list_elem_of_lookup_1 by (apply Hsub; by eapply list_elem_of_lookup_2).
  rewrite (id_of_here _ _ _ Hnd Hj). by eapply tm_get_type.
Qed.

(** What the table answers for an id of the peer. *)
Lemma table_lookup types map known names i s :
  tm_holds map known -> table types known names -> names !! i = Some s ->
  type_lookup types (Z.of_nat i) = if id_of known s =? 0 then None else Some (id_of known s).
Proof.
  intros Hh [Hr Hsub] Hi. pose proof (id_of_range map known s Hh) as Hrange.
  unfold type_lookup. rewrite (lookup_live _ _ _ i (PINOS_MAP_ID_TO_PTR (id_of known s)) Hr) by (by rewrite list_lookup_fmap, Hi).
  rewrite ID_PTR_inverse by done. destruct (ID_TO_PTR_even _ Hrange) as [-> _].
  destruct (Z.eqb_spec (id_of known s) 0) as [-> | Hne]; [done |]. by rewrite (proj2 (Z.eqb_neq _ _)) by lia.
Qed.
End UpdateTypes.

(** C36: after the announcement of a peer's new types, whichever implementation the local map
    has, every type id of the peer stands for a name the local map knows, and the table
    translates it to the local id of that name, unless this id is 0: the name that is the first
    of the local map is left without a translation, its pointer being the [NULL] that means
    there is none.  The ids announced before are translated as before, and the local map
    keeps the ids of the names it knew. *)
Theorem announced_types_agree `{Heap} `{SpaTypeMapLaws T} (sender : Pinos.TypeMap) (names : list bytes) n
    types (map : T) known :
  Pinos.holds sender names -> 0 <= n <= zlen names ->
  tm_holds map known -> table types known (take (Z.to_nat n) names) ->
  tm_fits (known ++ drop (Z.to_nat n) names) ->
  exists types' map' known', update_types types map n (Some <$> drop (Z.to_nat n) names) = Done (types', map') /\
    tm_holds map' known' /\ known `prefix_of` known' /\ table types' known' names /\
    (forall id, 0 <= id < n -> type_lookup types' id = type_lookup types id) /\
    forall id s, is_u32 id -> Pinos.type_map_get_type sender id = Done (Some s) ->
      exists id', spa_type_map_get_type map' id' = Done (Some s) /\
        type_lookup types' id = if id' =? 0 then None else Some id'.
Proof.
  intros Hsend Hn Hh Ht Hfit.
  assert (zlen names < 2 ^ 30) as Hb by by eapply Pinos.holds_bound.
  destruct (update_types_ok types map known (take (Z.to_nat n) names) (drop (Z.to_nat n) names) Hh Ht)
    as (types' & map' & known' & Hu & Hh' & Ht' & Hpre).
  - apply Forall_drop. exact (proj2 (Pinos.h_names _ _ Hsend)).
  - done.
  - rewrite <- zlen_app, take_drop. done.
  - rewrite take_drop in Ht'. rewrite zlen_take in Hu. replace (Z.min _ _) with n in Hu by lia.
    exists types', map', known'. split_and!; [done.. | |].
    { intros id Hid. destruct (lookup_lt_is_Some_2 names (Z.to_nat id)) as [s Hs]; [unfold zlen in *; lia |].
      assert (take (Z.to_nat n) names !! Z.to_nat id = Some s) as Hs0 by (rewrite lookup_take_lt by lia; done).
      pose proof (table_lookup _ _ _ _ _ _ Hh Ht Hs0) as Ho. pose proof (table_lookup _ _ _ _ _ _ Hh' Ht' Hs) as Hn1.
      rewrite Z2Nat.id in Ho, Hn1 by lia. rewrite Ho, Hn1. destruct Hpre as [l ->]. rewrite id_of_app; [done |].
      destruct Ht as [_ Hsub]. apply Hsub. by eapply list_elem_of_lookup_2. }
    intros id s Hid Hget.
    destruct (decide (id < zlen names)) as [Hlt | Hge].
    + destruct (lookup_lt_is_Some_2 names (Z.to_nat id)) as [s' Hs']; [unfold is_u32, zlen in *; lia |].
      pose proof (Pinos.get_type_ok sender names (Z.to_nat id) s' Hsend Hs') as Hg.
      rewrite Z.add_0_l, Z2Nat.id in Hg by (unfold is_u32 in *; lia). assert (s' = s) as -> by congruence.
      exists (id_of known' s). split; [by eapply table_type |].
      pose proof (table_lookup _ _ _ _ _ _ Hh' Ht' Hs') as Hl. by rewrite Z2Nat.id in Hl by (unfold is_u32 in *; lia).
    + rewrite (Pinos.get_type_out sender names id Hsend) in Hget; [done |]. unfold is_u32, SPA_ID_INVALID in *. lia.
Qed.

(** ** Witness *)

(** A server that knows two names, one of them known to the client under another id. *)
Definition register (m : Pinos.TypeMap) (s : bytes) : Pinos.TypeMap :=
  match Pinos.type_map_get_id Pinos.granted m (Some s) with Done (_, m') => m' | _ => m end.
Definition sample_names : list bytes := [[78; 111; 100; 101]; [65; 117; 100; 105; 111]].
Definition sample_sender : Pinos.TypeMap := foldl register Pinos.default_type_map sample_names.
Definition sample_receiver : Spa.TypeMap := Spa.mkTypeMap [[67]; [65; 117; 100; 105; 111]].

Lemma register_holds m names s :
  Pinos.holds m names -> s ∉ names -> is_cstr s -> Pinos.fits (names ++ [s]) -> Pinos.holds (register m s) (names ++ [s]).
Proof.
  intros Hh Hs Hc Hf. unfold register. by destruct (Pinos.get_id_new m names s Hh Hs Hc Hf) as (m' & -> & Hm').
Qed.

Lemma sample_sender_holds : Pinos.holds sample_sender sample_names.
Proof.
  apply (register_holds _ [[78; 111; 100; 101]]); [apply (register_holds _ [] _ Pinos.default_holds) | ..];
    first [by repeat constructor | by vm_compute | idtac].
  - by intros Hin%elem_of_nil.
  - by intros Hin%list_elem_of_singleton.
Qed.

Lemma announced_types_agree_witness :
  exists types' map' known',
    update_types (mkMap (Array.pinos_array_init 32) [] 0) sample_receiver 0 (Some <$> sample_names) = Done (types', map') /\
    tm_holds map' known' /\ Spa.types sample_receiver `prefix_of` known' /\ table types' known' sample_names /\
    (forall id, 0 <= id < 0 -> type_lookup types' id = type_lookup (mkMap (Array.pinos_array_init 32) [] 0) id) /\
    forall id s, is_u32 id -> Pinos.type_map_get_type sample_sender id = Done (Some s) ->
      exists id', spa_type_map_get_type map' id' = Done (Some s) /\
        type_lookup types' id = if id' =? 0 then None else Some id'.
Proof.
  apply (announced_types_agree sample_sender sample_names 0 (mkMap (Array.pinos_array_init 32) [] 0) sample_receiver
    (Spa.types sample_receiver)).
  - exact sample_sender_holds.
  - by vm_compute.
  - split; [done |]. split_and!; [| by repeat constructor | done].
    apply NoDup_cons. split; [by intros Hin%list_elem_of_singleton | apply NoDup_singleton].
  - split; [| set_solver]. split; simpl; try done; [constructor |]. intros i. by rewrite lookup_nil; split; [| intros Hi%elem_of_nil].
  - by vm_compute.
Defined.
