(* ===== verification/Endpoint.v ===== *)
(** One end of a native-protocol connection: what the marshal functions of
    [pinos/client/protocol-native.c] and [pinos/server/protocol-native.c] share.

    An [Endpoint] is the part of [PinosContext] or of [PinosClient] that they use:
    the connection, the number of types already announced, the id of the core
    object and the local type map (its names by id). A marshal function is a
    [marshal] with the flattened arguments of its [spa_pod_builder_add] calls; a
    demarshal function is a reader wrapped in [demarshal] or [demarshal_remap].
    The arrays a demarshal function puts on the stack ([alloca] of a count found in
    the message) are taken to fit. *)
From S2P Require Import Prelude Defs Map Pod PodUtils PodTheory Connection Protocol Remap Interfaces.

Record Endpoint := mkEndpoint {
  ep_connection : option PinosConnectionImpl; ep_n_types : Z; ep_core_id : Z; ep_types : list bytes }.

Definition with_connection (ep : Endpoint) (conn : PinosConnectionImpl) : Endpoint :=
  mkEndpoint (Some conn) (ep_n_types ep) (ep_core_id ep) (ep_types ep).

(** The argument list of one struct, as the calls of one message add up. *)
Definition pod_struct (f : nat) (args : list arg) : list arg := AStruct f :: args ++ [APop f].
Definition int (v : Z) : arg := APrim (PInt v).
Definition long (v : Z) : arg := APrim (PLong v).
Definition ident (v : Z) : arg := APrim (PId v).
Definition string (s : str) : arg := APrim (PString s).
Definition pod (p : bytes) : arg := APod (Some p).

(** [n_items] and the loop over the items. *)
Definition dict_size (d : dict) : arg := int (zlen (default [] d)).
Definition dict_items (d : dict) : list arg :=
  flat_map (fun '(k, v) => [string (Some k); string v]) (default [] d).

Section Sending.
Context `{Heap}.

Definition send (ep : Endpoint) (id opcode : Z) (args : list arg) : outcome Endpoint :=
  let* conn := of_option (ep_connection ep) in
  let* out := send_pod (cn_out conn) id opcode args in
  Done (with_connection ep (set_out conn out)).

(** [core_marshal_update_types] of either end. *)
Definition marshal_update_types (opcode : Z) (ep : Endpoint) (id first_id : Z) (types : list str) : outcome Endpoint :=
  send ep id opcode (pod_struct 0 ([int first_id; int (zlen types)] ++ map string types)).

(** [core_update_map]: announce the types added since the last message. *)
Definition core_update_map (opcode : Z) (ep : Endpoint) : outcome Endpoint :=
  let base := ep_n_types ep in
  let diff := u32 (zlen (ep_types ep) - base) in
  if diff =? 0 then Done ep
  else
    let types := (fun i : nat => ep_types ep !! Z.to_nat (base + Z.of_nat i)) <$> seq 0 (Z.to_nat diff) in
    let* ep := marshal_update_types opcode ep (ep_core_id ep) base types in
    Done (mkEndpoint (ep_connection ep) (u32 (ep_n_types ep + diff)) (ep_core_id ep) (ep_types ep)).

(** The frame of every marshal function but [core_marshal_update_types]. *)
Definition marshal (opcode_types : Z) (ep : Endpoint) (id opcode : Z) (args : list arg) : outcome Endpoint :=
  let* ep := core_update_map opcode_types ep in send ep id opcode args.
End Sending.

(** [pinos_connection_add_fd] among the arguments. *)
Definition add_fd (ep : Endpoint) (fd : Z) : outcome (Endpoint * Z) :=
  let* conn := of_option (ep_connection ep) in
  let (conn, index) := pinos_connection_add_fd conn fd in
  Done (with_connection ep conn, index).

(** ** Receiving *)

Section Receiving.
Context {A : Type}.

Definition demarshal (data : bytes) (size : Z) (m : M A) : outcome A :=
  let* it := spa_pod_iter_struct data size in
  let* (a, _) := m it in Done a.

(** The iterator points into the message that is then translated in place. *)
Definition demarshal_remap (types : Map.PinosMap) (data : bytes) (size : Z) (m : M A) : outcome A :=
  let* it := spa_pod_iter_struct data size in
  let* data := pinos_pod_remap_data types SPA_POD_TYPE_STRUCT 0 size data in
  let* (a, _) := m (mkIter (drop 8 data) (it_size it) (it_offset it)) in Done a.
End Receiving.

(** A string, as the field of a structure. *)
Definition get_str : M str := fun it => let* (s, it) := get_string it in Done (Some s, it).

Definition get_item : M (bytes * str) := (k <- get_string ;; v <- get_str ;; mret (k, v))%reader.

(** [props.items] after [n_items] was read. *)
Definition get_items (n : Z) : M dict := (l <- get_n (Z.to_nat n) get_item ;; mret (Some l))%reader.

(** ** Layout of a flat argument list *)

Definition enc_arg (a : arg) : bytes :=
  match a with
  | APrim p => enc_prim p
  | APod None => enc_pod SPA_POD_TYPE_NONE []
  | APod (Some p) => p ++ zeros (pad8 (zlen p))
  | _ => []
  end.
Definition enc_args (args : list arg) : bytes := concat (map enc_arg args).

(** A pod of type [t] in memory of its own. *)
Definition is_pod (t : Z) (p : bytes) : Prop := exists body, p = pod_of t body.
Definition is_object : bytes -> Prop := is_pod SPA_POD_TYPE_OBJECT.

Definition flat_arg (a : arg) : Prop :=
  match a with
  | APrim _ | APod None => True
  | APod (Some p) => exists t, is_pod t p
  | _ => False
  end.

Lemma enc_args_cons a l : enc_args (a :: l) = enc_arg a ++ enc_args l.
Proof. done. Qed.
Lemma enc_args_app l l' : enc_args (l ++ l') = enc_args l ++ enc_args l'.
Proof. unfold enc_args. by rewrite map_app, concat_app. Qed.

Lemma pad8_add8 n : pad8 (8 + n) = pad8 n.
Proof.
  unfold pad8. pose proof (round8_add 1 n) as Hr. rewrite Z.mul_1_r in Hr. rewrite (Hr : round8 (8 + n) = _). lia.
Qed.

Lemma enc_arg_pod t body : enc_arg (APod (Some (pod_of t body))) = enc_pod t body.
Proof.
  simpl. unfold pod_of, enc_pod. rewrite <- app_assoc, zlen_app, zlen_pod_header, pad8_add8. done.
Qed.

Section FlatLayout.
Context {W : Type} `{PodWriterLaws W}.

Lemma emits_flat args : Forall flat_arg args -> emits args (enc_args args).
Proof.
  induction 1 as [|a args Ha _ IH]; [apply emits_nil |]. rewrite enc_args_cons. apply emits_cons; [| done].
  destruct a as [| |p| | | | | |[p|]]; try done.
  - apply emits_prim.
  - destruct Ha as (t & body & ->). rewrite enc_arg_pod. apply emits_pod.
  - apply emits_no_pod.
Qed.

Lemma emits_pod_struct f args d : emits args d -> emits (pod_struct f args) (enc_pod SPA_POD_TYPE_STRUCT d).
Proof. apply emits_struct. Qed.
End FlatLayout.

Lemma aligned_enc_args args : Forall flat_arg args -> aligned (enc_args args).
Proof. intros Ha. exact (proj1 (emits_flat (W := Fixed) args Ha)). Qed.

(** ** Readers over a flat layout *)

Lemma reader_cons {A B} (m : M A) (f : A -> M B) a l x b :
  reader m (enc_arg a) x -> reader (f x) (enc_args l) b -> reader (mbind m f) (enc_args (a :: l)) b.
Proof. apply reader_bind. Qed.
Lemma reader_append {A B} (m : M A) (f : A -> M B) l l' x b :
  reader m (enc_args l) x -> reader (f x) (enc_args l') b -> reader (mbind m f) (enc_args (l ++ l')) b.
Proof. rewrite enc_args_app. apply reader_bind. Qed.
Lemma reader_last {A B} (m : M A) (f : A -> M B) l x b :
  reader m (enc_args l) x -> reader (f x) (enc_args []) b -> reader (mbind m f) (enc_args l) b.
Proof. apply reader_bind_nil. Qed.

Lemma reader_int_arg v : is_u32 v -> reader get_int (enc_arg (int v)) v.
Proof. apply reader_int. Qed.
Lemma reader_ident_arg v : is_u32 v -> reader get_id (enc_arg (ident v)) v.
Proof. apply reader_id. Qed.
Lemma reader_long_arg v : reader get_long (enc_arg (long v)) (u32 v).
Proof. apply reader_long. Qed.
Lemma reader_bytes_arg d : reader get_bytes (enc_arg (APrim (PBytes d))) d.
Proof. apply reader_bytes. Qed.

(** An integer of either sign comes back as the 32-bit word. *)
Lemma reader_word_arg v : reader get_int (enc_arg (int v)) (u32 v).
Proof.
  assert (enc_arg (int v) = enc_arg (int (u32 v))) as ->
    by (unfold enc_arg, int, enc_prim; simpl prim_body; simpl prim_type; by rewrite le32_u32).
  apply reader_int, u32_bound.
Qed.

Lemma reader_string_arg s : is_cstr s -> reader get_string (enc_arg (string (Some s))) s.
Proof. apply reader_string. Qed.
Lemma reader_str_arg s : str_ok s -> reader get_str (enc_arg (string s)) (recv_str s).
Proof.
  intros Hs it rest tl Hr. unfold get_str.
  assert (reader get_string (enc_arg (string s)) (default [] s)) as Hg
    by (destruct s; [by apply reader_string | apply reader_null_string]).
  destruct (Hg it rest tl Hr) as (it' & -> & Hr'). by exists it'.
Qed.

Lemma reader_object_arg p : is_object p -> reader get_object (enc_arg (pod p)) p.
Proof. intros [body ->]. unfold pod. rewrite enc_arg_pod. apply reader_object. Qed.

Lemma reader_opt_arg (p : option bytes) :
  match p with Some p => is_object p | None => True end ->
  reader (get_pod (- SPA_POD_TYPE_OBJECT)) (enc_arg (APod p)) p.
Proof.
  destruct p as [p|]; [intros [body ->]; rewrite enc_arg_pod | intros _].
  - exact (reader_opt SPA_POD_TYPE_OBJECT (Some body) (or_introl eq_refl)).
  - exact (reader_opt SPA_POD_TYPE_OBJECT None (or_introl eq_refl)).
Qed.

(** Loops. *)
Lemma reader_get_n_args {A B} (m : M A) (enc : B -> list arg) (recv : B -> A) (l : list B) n :
  n = length l -> Forall (fun x => reader m (enc_args (enc x)) (recv x)) l ->
  reader (get_n n m) (enc_args (flat_map enc l)) (map recv l).
Proof.
  intros -> Hl. rewrite <- (length_map recv l).
  assert (enc_args (flat_map enc l) = concat (map (fun x => enc_args (enc x)) l)) as ->.
  { clear. induction l as [|x l IH]; [done |]. cbn [flat_map map concat]. by rewrite enc_args_app, IH. }
  apply reader_get_n. induction Hl; constructor; done.
Qed.

Lemma reader_items d : dict_ok d ->
  reader (get_items (zlen (default [] d))) (enc_args (dict_items d)) (recv_dict d).
Proof.
  intros [_ Hd]. unfold get_items, dict_items, recv_dict.
  eapply reader_last; [| apply reader_ret].
  apply reader_get_n_args; [apply to_nat_zlen |].
  eapply Forall_impl; [exact Hd |]. intros [k v] [Hk Hv].
  eapply reader_cons; [by apply reader_string_arg |].
  eapply reader_cons; [by apply reader_str_arg | apply reader_ret].
Qed.

Lemma flat_map_single {A} (f : A -> arg) l : flat_map (fun x => [f x]) l = map f l.
Proof. induction l; simpl; congruence. Qed.

Lemma reader_get_n_map {A B} (m : M A) (f : B -> arg) (recv : B -> A) (l : list B) n :
  n = length l -> Forall (fun x => reader m (enc_arg (f x)) (recv x)) l ->
  reader (get_n n m) (enc_args (map f l)) (map recv l).
Proof.
  intros Hn Hl. rewrite <- flat_map_single. apply reader_get_n_args; [done |].
  eapply Forall_impl; [exact Hl |]. intros x Hx. rewrite enc_args_cons, app_nil_r. exact Hx.
Qed.

Lemma reader_objects l : Forall is_object l ->
  reader (get_n (Z.to_nat (zlen l)) get_object) (enc_args (map pod l)) l.
Proof.
  intros Hl. rewrite <- (map_id l) at 3. apply reader_get_n_map; [apply to_nat_zlen |].
  eapply Forall_impl; [exact Hl |]. apply reader_object_arg.
Qed.

Lemma reader_strs l : Forall str_ok l ->
  reader (get_n (Z.to_nat (zlen l)) get_str) (enc_args (map string l)) (map recv_str l).
Proof.
  intros Hl. apply reader_get_n_map; [apply to_nat_zlen |].
  eapply Forall_impl; [exact Hl |]. apply reader_str_arg.
Qed.

(** A message that was sent is understood. *)
Lemma demarshal_ok {A} (m : M A) d a tail :
  aligned d -> 8 + zlen d < 2 ^ 31 -> reader m d a ->
  demarshal (enc_pod SPA_POD_TYPE_STRUCT d ++ tail) (zlen (enc_pod SPA_POD_TYPE_STRUCT d)) m = Done a.
Proof.
  intros Hal Hl Hm. unfold demarshal. assert (zlen (enc_pod SPA_POD_TYPE_STRUCT d) = 8 + zlen d) as ->
    by (rewrite enc_pod_aligned by done; zlia).
  destruct (iter_struct_ok d (8 + zlen d) tail Hal) as (it & -> & Hr); [lia |]. simpl.
  rewrite <- (app_nil_r d) in Hr. by destruct (Hm it [] tail Hr) as (it' & -> & _).
Qed.
