(* ===== verification/ProtocolClient.v ===== *)
(** [pinos/client/protocol-native.c]: the client's marshal functions for methods and
    demarshal functions for events, one definition per function, and the tables
    that pick them ([pinos_protocol_native_client_setup]).

    A marshal function maps the [Endpoint] to the one after the call; a demarshal
    function gives the call it makes on the implementation, [Refuse] for [false]. *)
From S2P Require Import Prelude Defs Map Pod PodUtils Connection Protocol Remap Interfaces Endpoint.
#[local] Open Scope reader_scope.

Section Marshal.
Context `{Heap}.

(** Without a connection the functions return at once. *)
Definition if_connected (ep : Endpoint) (k : outcome Endpoint) : outcome Endpoint :=
  match ep_connection ep with None => Done ep | Some _ => k end.

Definition client_marshal (ep : Endpoint) (id opcode : Z) (args : list arg) : outcome Endpoint :=
  if_connected ep (marshal PINOS_CORE_METHOD_UPDATE_TYPES ep id opcode args).

Definition core_marshal_client_update (ep : Endpoint) (id : Z) (props : dict) :=
  client_marshal ep id PINOS_CORE_METHOD_CLIENT_UPDATE (pod_struct 0 (dict_size props :: dict_items props)).

Definition core_marshal_sync (ep : Endpoint) (id seq : Z) :=
  client_marshal ep id PINOS_CORE_METHOD_SYNC (pod_struct 0 [int seq]).

Definition core_marshal_get_registry (ep : Endpoint) (id new_id : Z) :=
  client_marshal ep id PINOS_CORE_METHOD_GET_REGISTRY (pod_struct 0 [int new_id]).

Definition core_marshal_create_node (ep : Endpoint) (id : Z) (factory_name name : str) (props : dict) (new_id : Z) :=
  client_marshal ep id PINOS_CORE_METHOD_CREATE_NODE
    (pod_struct 0 ([string factory_name; string name; dict_size props] ++ dict_items props ++ [int new_id])).

Definition core_marshal_create_client_node (ep : Endpoint) (id : Z) (name : str) (props : dict) (new_id : Z) :=
  client_marshal ep id PINOS_CORE_METHOD_CREATE_CLIENT_NODE
    (pod_struct 0 ([string name; dict_size props] ++ dict_items props ++ [int new_id])).

Definition core_marshal_update_types (ep : Endpoint) (id first_id : Z) (types : list str) :=
  if_connected ep (marshal_update_types PINOS_CORE_METHOD_UPDATE_TYPES ep id first_id types).

Definition registry_marshal_bind (ep : Endpoint) (id gid new_id : Z) :=
  client_marshal ep id PINOS_REGISTRY_METHOD_BIND (pod_struct 0 [int gid; int new_id]).

Definition client_node_marshal_update (ep : Endpoint) (id change_mask max_input_ports max_output_ports : Z)
    (props : option bytes) :=
  client_marshal ep id PINOS_CLIENT_NODE_METHOD_UPDATE
    (pod_struct 0 [int change_mask; int max_input_ports; int max_output_ports; APod props]).

Definition port_info_args (info : option SpaPortInfo) : list arg :=
  match info with
  | None => [APod None]
  | Some info =>
      pod_struct 1
        ([int (pi_flags info); int (pi_rate info); long (pi_maxbuffering info); long (pi_latency info);
          int (zlen (pi_params info))] ++ map pod (pi_params info) ++
         dict_size (pi_extra info) :: dict_items (pi_extra info))
  end.

Definition client_node_marshal_port_update (ep : Endpoint) (id direction port_id change_mask : Z)
    (possible_formats : list bytes) (format props : option bytes) (info : option SpaPortInfo) :=
  client_marshal ep id PINOS_CLIENT_NODE_METHOD_PORT_UPDATE
    (pod_struct 0
      (([int direction; int port_id; int change_mask; int (zlen possible_formats)] ++
        map pod possible_formats ++ [APod format; APod props]) ++ port_info_args info)).

Definition client_node_marshal_event (ep : Endpoint) (id : Z) (event : bytes) :=
  client_marshal ep id PINOS_CLIENT_NODE_METHOD_EVENT (pod_struct 0 [pod event]).

(** [spa_pod_builder_struct (b, f, 0)]: the 0 ends the arguments before the pop, so
    the struct is never closed; its size word stays 0, which is its size. *)
Definition client_node_marshal_destroy (ep : Endpoint) (id : Z) :=
  client_marshal ep id PINOS_CLIENT_NODE_METHOD_DESTROY [AStruct 0].

(** ** The method tables *)

Definition marshal_core_method (ep : Endpoint) (id : Z) (m : core_method) : outcome Endpoint :=
  match m with
  | CoreClientUpdate props => core_marshal_client_update ep id props
  | CoreSync seq => core_marshal_sync ep id seq
  | CoreGetRegistry new_id => core_marshal_get_registry ep id new_id
  | CoreCreateNode factory_name name props new_id => core_marshal_create_node ep id factory_name name props new_id
  | CoreCreateClientNode name props new_id => core_marshal_create_client_node ep id name props new_id
  | CoreUpdateTypes first_id types => core_marshal_update_types ep id first_id types
  end.

Definition marshal_registry_method (ep : Endpoint) (id : Z) (m : registry_method) : outcome Endpoint :=
  match m with RegistryBind gid new_id => registry_marshal_bind ep id gid new_id end.

Definition marshal_client_node_method (ep : Endpoint) (id : Z) (m : client_node_method) : outcome Endpoint :=
  match m with
  | CnUpdate change_mask max_in max_out props => client_node_marshal_update ep id change_mask max_in max_out props
  | CnPortUpdate direction port_id change_mask formats format props info =>
      client_node_marshal_port_update ep id direction port_id change_mask formats format props info
  | CnEvent event => client_node_marshal_event ep id event
  | CnDestroy => client_node_marshal_destroy ep id
  end.
End Marshal.

(** ** Events *)

Definition core_demarshal_info (data : bytes) (size : Z) : outcome core_event :=
  demarshal data size
    (id <- get_int ;; change_mask <- get_long ;; user_name <- get_str ;; host_name <- get_str ;;
     version <- get_str ;; name <- get_str ;; cookie <- get_int ;; n_items <- get_int ;;
     props <- get_items n_items ;;
     mret (CoreInfo (mkCoreInfo id change_mask user_name host_name version name cookie props))).

Definition core_demarshal_done (data : bytes) (size : Z) : outcome core_event :=
  demarshal data size (seq <- get_int ;; mret (CoreDone seq)).

Definition core_demarshal_error (data : bytes) (size : Z) : outcome core_event :=
  demarshal data size (id <- get_int ;; res <- get_int ;; error <- get_str ;; mret (CoreError id (i32 res) error)).

Definition core_demarshal_remove_id (data : bytes) (size : Z) : outcome core_event :=
  demarshal data size (id <- get_int ;; mret (CoreRemoveId id)).

Definition core_demarshal_update_types (data : bytes) (size : Z) : outcome core_event :=
  demarshal data size
    (first_id <- get_int ;; n_types <- get_int ;; types <- get_n (Z.to_nat n_types) get_str ;;
     mret (CoreEvUpdateTypes first_id types)).

Definition module_demarshal_info (data : bytes) (size : Z) : outcome info_event :=
  demarshal data size
    (id <- get_int ;; change_mask <- get_long ;; name <- get_str ;; filename <- get_str ;; args <- get_str ;;
     n_items <- get_int ;; props <- get_items n_items ;;
     mret (ModuleInfo (mkModuleInfo id change_mask name filename args props))).

Section Remapping.
Context (types : Map.PinosMap).

Definition node_demarshal_info (data : bytes) (size : Z) : outcome info_event :=
  demarshal_remap types data size
    (id <- get_int ;; change_mask <- get_long ;; name <- get_str ;; max_inputs <- get_int ;; n_inputs <- get_int ;;
     n_input_formats <- get_int ;; input_formats <- get_n (Z.to_nat n_input_formats) get_object ;;
     max_outputs <- get_int ;; n_outputs <- get_int ;;
     n_output_formats <- get_int ;; output_formats <- get_n (Z.to_nat n_output_formats) get_object ;;
     state <- get_int ;; error <- get_str ;; n_items <- get_int ;; props <- get_items n_items ;;
     mret (NodeInfo (mkNodeInfo id change_mask name max_inputs n_inputs input_formats
                       max_outputs n_outputs output_formats (i32 state) error props))).

(** Descriptors are looked up in the connection the message came from. *)
Context (conn : PinosConnectionImpl).

Definition client_node_demarshal_done (data : bytes) (size : Z) : outcome client_node_event :=
  demarshal data size
    (ridx <- get_int ;; widx <- get_int ;;
     let readfd := pinos_connection_get_fd conn ridx in
     let writefd := pinos_connection_get_fd conn widx in
     if (readfd =? -1) || (writefd =? -1) then mlift Refuse else mret (CnDone readfd writefd)).

Definition client_node_demarshal_event (data : bytes) (size : Z) : outcome client_node_event :=
  demarshal_remap types data size (event <- get_object ;; mret (CnEvEvent event)).

Definition client_node_demarshal_add_port (data : bytes) (size : Z) : outcome client_node_event :=
  demarshal data size
    (seq <- get_int ;; direction <- get_int ;; port_id <- get_int ;; mret (CnAddPort seq direction port_id)).

Definition client_node_demarshal_remove_port (data : bytes) (size : Z) : outcome client_node_event :=
  demarshal data size
    (seq <- get_int ;; direction <- get_int ;; port_id <- get_int ;; mret (CnRemovePort seq direction port_id)).

Definition client_node_demarshal_set_format (data : bytes) (size : Z) : outcome client_node_event :=
  demarshal_remap types data size
    (seq <- get_int ;; direction <- get_int ;; port_id <- get_int ;; flags <- get_int ;;
     format <- get_pod (- SPA_POD_TYPE_OBJECT) ;; mret (CnSetFormat seq direction port_id flags format)).

Definition client_node_demarshal_set_property (data : bytes) (size : Z) : outcome client_node_event :=
  demarshal data size
    (seq <- get_int ;; id <- get_int ;; value <- get_bytes ;; mret (CnSetProperty seq id value)).

Definition client_node_demarshal_add_mem (data : bytes) (size : Z) : outcome client_node_event :=
  demarshal_remap types data size
    (direction <- get_int ;; port_id <- get_int ;; mem_id <- get_int ;; type <- get_id ;; memfd_idx <- get_int ;;
     flags <- get_int ;; offset <- get_int ;; sz <- get_int ;;
     mret (CnAddMem direction port_id mem_id type (pinos_connection_get_fd conn memfd_idx) flags offset sz)).

Definition get_meta : M SpaMeta := (type <- get_id ;; size <- get_int ;; mret (mkMeta type size)).
Definition get_data : M SpaData :=
  (type <- get_id ;; data_id <- get_int ;; flags <- get_int ;; mapoffset <- get_int ;; maxsize <- get_int ;;
   mret (mkData type data_id flags mapoffset maxsize)).

(** The body of the loop over the buffers. *)
Definition get_buffer : M PinosClientNodeBuffer :=
  (mem_id <- get_int ;; offset <- get_int ;; size <- get_int ;; id <- get_int ;;
   n_metas <- get_int ;; metas <- get_n (Z.to_nat n_metas) get_meta ;;
   n_datas <- get_int ;; datas <- get_n (Z.to_nat n_datas) get_data ;;
   mret (mkNodeBuffer mem_id offset size id metas datas)).

Definition client_node_demarshal_use_buffers (data : bytes) (size : Z) : outcome client_node_event :=
  demarshal_remap types data size
    (seq <- get_int ;; direction <- get_int ;; port_id <- get_int ;; n_buffers <- get_int ;;
     buffers <- get_n (Z.to_nat n_buffers) get_buffer ;;
     mret (CnUseBuffers seq direction port_id buffers)).

Definition client_node_demarshal_node_command (data : bytes) (size : Z) : outcome client_node_event :=
  demarshal_remap types data size (seq <- get_int ;; command <- get_object ;; mret (CnNodeCommand seq command)).

Definition client_node_demarshal_port_command (data : bytes) (size : Z) : outcome client_node_event :=
  demarshal_remap types data size
    (port_id <- get_int ;; command <- get_object ;; mret (CnPortCommand port_id command)).

Definition client_node_demarshal_transport (data : bytes) (size : Z) : outcome client_node_event :=
  demarshal data size
    (memfd_idx <- get_int ;; offset <- get_int ;; sz <- get_int ;;
     mret (CnTransport (pinos_connection_get_fd conn memfd_idx) offset sz)).
End Remapping.

Definition client_demarshal_info (data : bytes) (size : Z) : outcome info_event :=
  demarshal data size
    (id <- get_int ;; change_mask <- get_long ;; n_items <- get_int ;; props <- get_items n_items ;;
     mret (ClientInfo (mkClientInfo id change_mask props))).

Definition link_demarshal_info (data : bytes) (size : Z) : outcome info_event :=
  demarshal data size
    (id <- get_int ;; change_mask <- get_long ;; output_node_id <- get_int ;; output_port_id <- get_int ;;
     input_node_id <- get_int ;; input_port_id <- get_int ;;
     mret (LinkInfo (mkLinkInfo id change_mask output_node_id output_port_id input_node_id input_port_id))).

Definition registry_demarshal_global (data : bytes) (size : Z) : outcome registry_event :=
  demarshal data size (id <- get_int ;; type <- get_str ;; mret (RegistryGlobal id type)).

Definition registry_demarshal_global_remove (data : bytes) (size : Z) : outcome registry_event :=
  demarshal data size (id <- get_int ;; mret (RegistryGlobalRemove id)).

(** ** The event tables, indexed by opcode; [None] past [n_events] *)

Definition pinos_protocol_native_client_core_demarshal : list (bytes -> Z -> outcome core_event) :=
  [core_demarshal_info; core_demarshal_done; core_demarshal_error; core_demarshal_remove_id;
   core_demarshal_update_types].

Definition pinos_protocol_native_client_registry_demarshal : list (bytes -> Z -> outcome registry_event) :=
  [registry_demarshal_global; registry_demarshal_global_remove].

Definition pinos_protocol_native_client_client_node_demarshal (types : Map.PinosMap) (conn : PinosConnectionImpl) :
    list (bytes -> Z -> outcome client_node_event) :=
  [client_node_demarshal_done conn; client_node_demarshal_event types; client_node_demarshal_add_port;
   client_node_demarshal_remove_port; client_node_demarshal_set_format types; client_node_demarshal_set_property;
   client_node_demarshal_add_mem types conn; client_node_demarshal_use_buffers types;
   client_node_demarshal_node_command types; client_node_demarshal_port_command types;
   client_node_demarshal_transport conn].
