(* ===== verification/ProtocolServer.v ===== *)
(** [pinos/server/protocol-native.c]: the server's marshal functions for events and
    demarshal functions for methods, one definition per function, and the tables
    that pick them ([pinos_protocol_native_server_setup]).

    The formatted text of [core_marshal_error] is an argument of the model; the
    buffer holds 127 of its bytes. *)
From S2P Require Import Prelude Defs Map Pod PodUtils Connection Protocol Remap Interfaces Endpoint.
#[local] Open Scope reader_scope.

Section Marshal.
Context `{Heap}.

(** The server does not check its connection: without one the behaviour is undefined. *)
Definition server_marshal (ep : Endpoint) (id opcode : Z) (args : list arg) : outcome Endpoint :=
  marshal PINOS_CORE_EVENT_UPDATE_TYPES ep id opcode args.

Definition core_marshal_info (ep : Endpoint) (id : Z) (info : PinosCoreInfo) :=
  server_marshal ep id PINOS_CORE_EVENT_INFO
    (pod_struct 0
      ([int (ci_id info); long (ci_change_mask info); string (ci_user_name info); string (ci_host_name info);
        string (ci_version info); string (ci_name info); int (ci_cookie info); dict_size (ci_props info)] ++
       dict_items (ci_props info))).

Definition core_marshal_done (ep : Endpoint) (id seq : Z) :=
  server_marshal ep id PINOS_CORE_EVENT_DONE (pod_struct 0 [int seq]).

(** [vsnprintf] into [char buffer[128]]. *)
Definition error_buffer (error : bytes) : bytes := take 127 error.

Definition core_marshal_error (ep : Endpoint) (id eid res : Z) (error : bytes) :=
  server_marshal ep id PINOS_CORE_EVENT_ERROR
    (pod_struct 0 [int eid; int res; string (Some (error_buffer error))]).

Definition core_marshal_remove_id (ep : Endpoint) (id rid : Z) :=
  server_marshal ep id PINOS_CORE_EVENT_REMOVE_ID (pod_struct 0 [int rid]).

Definition core_marshal_update_types (ep : Endpoint) (id first_id : Z) (types : list str) :=
  marshal_update_types PINOS_CORE_EVENT_UPDATE_TYPES ep id first_id types.

Definition registry_marshal_global (ep : Endpoint) (id gid : Z) (type : str) :=
  server_marshal ep id PINOS_REGISTRY_EVENT_GLOBAL (pod_struct 0 [int gid; string type]).

Definition registry_marshal_global_remove (ep : Endpoint) (id gid : Z) :=
  server_marshal ep id PINOS_REGISTRY_EVENT_GLOBAL_REMOVE (pod_struct 0 [int gid]).

Definition module_marshal_info (ep : Endpoint) (id : Z) (info : PinosModuleInfo) :=
  server_marshal ep id PINOS_MODULE_EVENT_INFO
    (pod_struct 0
      ([int (mi_id info); long (mi_change_mask info); string (mi_name info); string (mi_filename info);
        string (mi_args info); dict_size (mi_props info)] ++ dict_items (mi_props info))).

Definition node_marshal_info (ep : Endpoint) (id : Z) (info : PinosNodeInfo) :=
  server_marshal ep id PINOS_NODE_EVENT_INFO
    (pod_struct 0
      ([int (ni_id info); long (ni_change_mask info); string (ni_name info); int (ni_max_inputs info);
        int (ni_n_inputs info); int (zlen (ni_input_formats info))] ++ map pod (ni_input_formats info) ++
       [int (ni_max_outputs info); int (ni_n_outputs info); int (zlen (ni_output_formats info))] ++
       map pod (ni_output_formats info) ++
       [int (ni_state info); string (ni_error info); dict_size (ni_props info)] ++ dict_items (ni_props info))).

Definition client_marshal_info (ep : Endpoint) (id : Z) (info : PinosClientInfo) :=
  server_marshal ep id PINOS_CLIENT_EVENT_INFO
    (pod_struct 0
      ([int (cli_id info); long (cli_change_mask info); dict_size (cli_props info)] ++ dict_items (cli_props info))).

(** The descriptors join the connection before the message is built. The order of
    the two calls among the arguments is the compiler's: here left to right. *)
Definition client_node_marshal_done (ep : Endpoint) (id readfd writefd : Z) :=
  let* ep := core_update_map PINOS_CORE_EVENT_UPDATE_TYPES ep in
  let* (ep, ridx) := add_fd ep readfd in
  let* (ep, widx) := add_fd ep writefd in
  send ep id PINOS_CLIENT_NODE_EVENT_DONE (pod_struct 0 [int ridx; int widx]).

Definition client_node_marshal_event (ep : Endpoint) (id : Z) (event : bytes) :=
  server_marshal ep id PINOS_CLIENT_NODE_EVENT_EVENT (pod_struct 0 [pod event]).

Definition client_node_marshal_add_port (ep : Endpoint) (id seq direction port_id : Z) :=
  server_marshal ep id PINOS_CLIENT_NODE_EVENT_ADD_PORT (pod_struct 0 [int seq; int direction; int port_id]).

Definition client_node_marshal_remove_port (ep : Endpoint) (id seq direction port_id : Z) :=
  server_marshal ep id PINOS_CLIENT_NODE_EVENT_REMOVE_PORT (pod_struct 0 [int seq; int direction; int port_id]).

Definition client_node_marshal_set_format (ep : Endpoint) (id seq direction port_id flags : Z) (format : option bytes) :=
  server_marshal ep id PINOS_CLIENT_NODE_EVENT_SET_FORMAT
    (pod_struct 0 [int seq; int direction; int port_id; int flags; APod format]).

Definition client_node_marshal_set_property (ep : Endpoint) (id seq pid : Z) (value : bytes) :=
  server_marshal ep id PINOS_CLIENT_NODE_EVENT_SET_PROPERTY
    (pod_struct 0 [int seq; int pid; APrim (PBytes value)]).

Definition client_node_marshal_add_mem (ep : Endpoint)
    (id direction port_id mem_id type memfd flags offset size : Z) :=
  let* ep := core_update_map PINOS_CORE_EVENT_UPDATE_TYPES ep in
  let* (ep, idx) := add_fd ep memfd in
  send ep id PINOS_CLIENT_NODE_EVENT_ADD_MEM
    (pod_struct 0 [int direction; int port_id; int mem_id; ident type; int idx; int flags; int offset; int size]).

Definition meta_args (m : SpaMeta) : list arg := [ident (meta_type m); int (meta_size m)].
Definition data_args (d : SpaData) : list arg :=
  [ident (data_type d); int (u32 (data_data d)); int (data_flags d); int (data_mapoffset d); int (data_maxsize d)].
Definition buffer_args (b : PinosClientNodeBuffer) : list arg :=
  [int (nb_mem_id b); int (nb_offset b); int (nb_size b); int (nb_buffer_id b); int (zlen (nb_metas b))] ++
  flat_map meta_args (nb_metas b) ++ int (zlen (nb_datas b)) :: flat_map data_args (nb_datas b).

Definition client_node_marshal_use_buffers (ep : Endpoint) (id seq direction port_id : Z)
    (buffers : list PinosClientNodeBuffer) :=
  server_marshal ep id PINOS_CLIENT_NODE_EVENT_USE_BUFFERS
    (pod_struct 0
      ([int seq; int direction; int port_id; int (zlen buffers)] ++ flat_map buffer_args buffers)).

Definition client_node_marshal_node_command (ep : Endpoint) (id seq : Z) (command : bytes) :=
  server_marshal ep id PINOS_CLIENT_NODE_EVENT_NODE_COMMAND (pod_struct 0 [int seq; pod command]).

Definition client_node_marshal_port_command (ep : Endpoint) (id port_id : Z) (command : bytes) :=
  server_marshal ep id PINOS_CLIENT_NODE_EVENT_PORT_COMMAND (pod_struct 0 [int port_id; pod command]).

Definition client_node_marshal_transport (ep : Endpoint) (id memfd offset size : Z) :=
  let* ep := core_update_map PINOS_CORE_EVENT_UPDATE_TYPES ep in
  let* (ep, idx) := add_fd ep memfd in
  send ep id PINOS_CLIENT_NODE_EVENT_TRANSPORT (pod_struct 0 [int idx; int offset; int size]).

Definition link_marshal_info (ep : Endpoint) (id : Z) (info : PinosLinkInfo) :=
  server_marshal ep id PINOS_LINK_EVENT_INFO
    (pod_struct 0
      [int (li_id info); long (li_change_mask info); int (li_output_node_id info); int (li_output_port_id info);
       int (li_input_node_id info); int (li_input_port_id info)]).

(** ** The event tables *)

Definition marshal_core_event (ep : Endpoint) (id : Z) (e : core_event) : outcome Endpoint :=
  match e with
  | CoreInfo info => core_marshal_info ep id info
  | CoreDone seq => core_marshal_done ep id seq
  | CoreError eid res error => core_marshal_error ep id eid res (default [] error)
  | CoreRemoveId rid => core_marshal_remove_id ep id rid
  | CoreEvUpdateTypes first_id types => core_marshal_update_types ep id first_id types
  end.

Definition marshal_registry_event (ep : Endpoint) (id : Z) (e : registry_event) : outcome Endpoint :=
  match e with
  | RegistryGlobal gid type => registry_marshal_global ep id gid type
  | RegistryGlobalRemove gid => registry_marshal_global_remove ep id gid
  end.

Definition marshal_info_event (ep : Endpoint) (id : Z) (e : info_event) : outcome Endpoint :=
  match e with
  | ModuleInfo info => module_marshal_info ep id info
  | NodeInfo info => node_marshal_info ep id info
  | ClientInfo info => client_marshal_info ep id info
  | LinkInfo info => link_marshal_info ep id info
  end.

Definition marshal_client_node_event (ep : Endpoint) (id : Z) (e : client_node_event) : outcome Endpoint :=
  match e with
  | CnDone readfd writefd => client_node_marshal_done ep id readfd writefd
  | CnEvEvent event => client_node_marshal_event ep id event
  | CnAddPort seq direction port_id => client_node_marshal_add_port ep id seq direction port_id
  | CnRemovePort seq direction port_id => client_node_marshal_remove_port ep id seq direction port_id
  | CnSetFormat seq direction port_id flags format =>
      client_node_marshal_set_format ep id seq direction port_id flags format
  | CnSetProperty seq pid value => client_node_marshal_set_property ep id seq pid value
  | CnAddMem direction port_id mem_id type memfd flags offset size =>
      client_node_marshal_add_mem ep id direction port_id mem_id type memfd flags offset size
  | CnUseBuffers seq direction port_id buffers => client_node_marshal_use_buffers ep id seq direction port_id buffers
  | CnNodeCommand seq command => client_node_marshal_node_command ep id seq command
  | CnPortCommand port_id command => client_node_marshal_port_command ep id port_id command
  | CnTransport memfd offset size => client_node_marshal_transport ep id memfd offset size
  end.
End Marshal.

(** ** Methods *)

Definition core_demarshal_client_update (data : bytes) (size : Z) : outcome core_method :=
  demarshal data size (n_items <- get_int ;; props <- get_items n_items ;; mret (CoreClientUpdate props)).

Definition core_demarshal_sync (data : bytes) (size : Z) : outcome core_method :=
  demarshal data size (seq <- get_int ;; mret (CoreSync seq)).

Definition core_demarshal_get_registry (data : bytes) (size : Z) : outcome core_method :=
  demarshal data size (new_id <- get_int ;; mret (CoreGetRegistry new_id)).

Definition core_demarshal_create_node (data : bytes) (size : Z) : outcome core_method :=
  demarshal data size
    (factory_name <- get_str ;; name <- get_str ;; n_items <- get_int ;; props <- get_items n_items ;;
     new_id <- get_int ;; mret (CoreCreateNode factory_name name props new_id)).

Definition core_demarshal_create_client_node (data : bytes) (size : Z) : outcome core_method :=
  demarshal data size
    (name <- get_str ;; n_items <- get_int ;; props <- get_items n_items ;;
     new_id <- get_int ;; mret (CoreCreateClientNode name props new_id)).

Definition core_demarshal_update_types (data : bytes) (size : Z) : outcome core_method :=
  demarshal data size
    (first_id <- get_int ;; n_types <- get_int ;; types <- get_n (Z.to_nat n_types) get_str ;;
     mret (CoreUpdateTypes first_id types)).

Definition registry_demarshal_bind (data : bytes) (size : Z) : outcome registry_method :=
  demarshal data size (id <- get_int ;; new_id <- get_int ;; mret (RegistryBind id new_id)).

Section Remapping.
Context (types : Map.PinosMap).

Definition client_node_demarshal_update (data : bytes) (size : Z) : outcome client_node_method :=
  demarshal_remap types data size
    (change_mask <- get_int ;; max_input_ports <- get_int ;; max_output_ports <- get_int ;;
     props <- get_pod (- SPA_POD_TYPE_OBJECT) ;;
     mret (CnUpdate change_mask max_input_ports max_output_ports props)).

(** The reads inside the info structure. *)
Definition get_port_info : M SpaPortInfo :=
  (flags <- get_int ;; rate <- get_int ;; maxbuffering <- get_long ;; latency <- get_long ;;
   n_params <- get_int ;; params <- get_n (Z.to_nat n_params) get_object ;;
   n_items <- get_int ;; extra <- get_items n_items ;;
   mret (mkPortInfo flags rate maxbuffering latency params extra)).

(** [spa_pod_iter_pod (&it2, ipod)] over the structure found, if any. *)
Definition read_port_info (ipod : option bytes) : outcome (option SpaPortInfo) :=
  match ipod with
  | None => Done None
  | Some p => let* it2 := spa_pod_iter_pod 0 p in
              let* (info, _) := get_port_info it2 in Done (Some info)
  end.

Definition client_node_demarshal_port_update (data : bytes) (size : Z) : outcome client_node_method :=
  demarshal_remap types data size
    (direction <- get_int ;; port_id <- get_int ;; change_mask <- get_int ;; n_possible_formats <- get_int ;;
     possible_formats <- get_n (Z.to_nat n_possible_formats) get_object ;;
     format <- get_pod (- SPA_POD_TYPE_OBJECT) ;; props <- get_pod (- SPA_POD_TYPE_OBJECT) ;;
     ipod <- get_pod (- SPA_POD_TYPE_STRUCT) ;; info <- mlift (read_port_info ipod) ;;
     mret (CnPortUpdate direction port_id change_mask possible_formats format props info)).

Definition client_node_demarshal_event (data : bytes) (size : Z) : outcome client_node_method :=
  demarshal_remap types data size (event <- get_object ;; mret (CnEvent event)).

Definition client_node_demarshal_destroy (data : bytes) (size : Z) : outcome client_node_method :=
  demarshal data size (mret CnDestroy).
End Remapping.

(** ** The method tables, indexed by opcode *)

Definition pinos_protocol_native_server_core_demarshal : list (bytes -> Z -> outcome core_method) :=
  [core_demarshal_client_update; core_demarshal_sync; core_demarshal_get_registry; core_demarshal_create_node;
   core_demarshal_create_client_node; core_demarshal_update_types].

Definition pinos_protocol_native_server_registry_demarshal : list (bytes -> Z -> outcome registry_method) :=
  [registry_demarshal_bind].

Definition pinos_protocol_native_server_client_node_demarshal (types : Map.PinosMap) :
    list (bytes -> Z -> outcome client_node_method) :=
  [client_node_demarshal_update types; client_node_demarshal_port_update types;
   client_node_demarshal_event types; client_node_demarshal_destroy].
