(* ===== verification/ProtocolTheory.v ===== *)
(** Messages of the native protocol from one end to the other: what a marshal
    function queues on the connection is one well-formed message (after the types
    announced on the way), and the demarshal function the other end's table has at
    its opcode makes the same call. *)
From S2P Require Import Prelude Defs Map Pod PodUtils PodTheory Connection Protocol Remap Interfaces Endpoint.
From S2P Require ProtocolClient ProtocolServer.
Module C := ProtocolClient.
Module S := ProtocolServer.

(** ** Sending *)

(** The bytes waiting in the output buffer and the descriptors that go with them. *)
Definition queued (ep : Endpoint) (v : bytes) (f : list Z) : Prop :=
  exists conn, ep_connection ep = Some conn /\ holds (cn_out conn) v /\ fds (cn_out conn) = f.

(** A payload that fits the page [write_pod] reserves. *)
Definition fits (payload : bytes) : Prop := zlen payload <= 4096.

Definition struct_payload (args : list arg) : bytes := enc_pod SPA_POD_TYPE_STRUCT (enc_args args).

Section Sending.
Context `{Heap}.

Lemma send_ok ep v f id opcode args payload :
  queued ep v f -> is_u32 id -> 0 <= opcode < 256 -> payload <> [] -> fits payload ->
  (forall W (PW : PodWriter W) (L : PodWriterLaws W), writes args payload) ->
  exists ep', send ep id opcode args = Done ep' /\ queued ep' (v ++ enc_msg (mkMsg id opcode payload)) f /\
    ep_n_types ep' = ep_n_types ep /\ ep_core_id ep' = ep_core_id ep /\ ep_types ep' = ep_types ep.
Proof.
  intros (conn & Hc & Hh & Hf) Hid Hop Hne Hfit He. unfold send. rewrite Hc. cbn [of_option obind].
  unfold fits in Hfit. pose proof (zlen_nonneg payload).
  destruct (send_pod_ok (cn_out conn) v (mkMsg id opcode payload) args) as (buf & Hs & Hq & Hfd); simpl; try done.
  - split; [done | split; [done | simpl; lia]].
  - split; [lia | by left].
  - simpl in Hs. rewrite Hs. simpl. eexists. split; [done |]. split_and!; try done.
    eexists. split; [done |]. simpl. split; [done |]. by rewrite Hfd.
Qed.

(** ** Announcing types *)

Definition types_args (first_id : Z) (types : list str) : list arg :=
  [int first_id; int (zlen types)] ++ map string types.

(** What [core_update_map] has to say. *)
Definition announcement (opcode : Z) (ep : Endpoint) : list message :=
  if ep_n_types ep =? zlen (ep_types ep) then []
  else [mkMsg (ep_core_id ep) opcode
          (struct_payload (types_args (ep_n_types ep) (Some <$> drop (Z.to_nat (ep_n_types ep)) (ep_types ep))))].

(** The state of an endpoint between calls. *)
Record ready (ep : Endpoint) (v : bytes) (f : list Z) : Prop := {
  rdy_queued : queued ep v f;
  rdy_core : is_u32 (ep_core_id ep);
  rdy_types : 0 <= ep_n_types ep <= zlen (ep_types ep) /\ zlen (ep_types ep) < 2 ^ 31
}.

(** What sending leaves of the rest of the endpoint: every type counts as announced
    once an announcement went out. *)
Record same_types (ep ep' : Endpoint) (ann : list message) : Prop := {
  sty_types : ep_types ep' = ep_types ep;
  sty_core : ep_core_id ep' = ep_core_id ep;
  sty_count : ep_n_types ep' = match ann with [] => ep_n_types ep | _ => zlen (ep_types ep) end
}.

Lemma same_types_trans ep ep1 ep2 ann : same_types ep ep1 ann -> same_types ep1 ep2 [] -> same_types ep ep2 ann.
Proof. intros [? ? ?] [? ? ?]. split; congruence. Qed.

Lemma flat_types first_id types : Forall flat_arg (types_args first_id types).
Proof. repeat constructor. induction types; simpl; constructor; done. Qed.

Lemma enc_pod_nonempty t body : enc_pod t body <> [].
Proof.
  intros Hn. apply (f_equal zlen) in Hn. rewrite zlen_enc_pod in Hn.
  pose proof (round8_bounds (zlen body)). pose proof (zlen_nonneg body). change (zlen (@nil Z)) with 0 in Hn. lia.
Qed.

Lemma writes_struct_payload f args :
  Forall flat_arg args -> forall W (PW : PodWriter W) (L : PodWriterLaws W), writes (pod_struct f args) (struct_payload args).
Proof. intros Ha W PW L. by apply emits_writes, emits_pod_struct, emits_flat. Qed.

Lemma map_lookup_seq {A} (l : list A) base n :
  base + n = zlen l -> 0 <= base -> 0 <= n ->
  (fun i : nat => l !! Z.to_nat (base + Z.of_nat i)) <$> seq 0 (Z.to_nat n) = Some <$> drop (Z.to_nat base) l.
Proof.
  intros Hl Hb Hn. apply list_eq_same_length with (n := Z.to_nat n).
  - rewrite length_fmap, length_drop. unfold zlen in Hl. lia.
  - by rewrite length_fmap, length_seq.
  - intros i x y Hi. rewrite !list_lookup_fmap, lookup_seq_lt, lookup_drop by done. simpl.
    replace (Z.to_nat (base + Z.of_nat i)) with (Z.to_nat base + i)%nat by lia.
    intros [= <-]. destruct (lookup_lt_is_Some_2 l (Z.to_nat base + i)) as [z Hz];
      [unfold zlen in Hl; lia |]. rewrite Hz. simpl. congruence.
Qed.

Lemma core_update_map_ok opcode ep v f :
  ready ep v f -> 0 <= opcode < 256 -> Forall (fun m => fits (m_payload m)) (announcement opcode ep) ->
  exists ep', core_update_map opcode ep = Done ep' /\ ready ep' (v ++ enc_msgs (announcement opcode ep)) f /\
    same_types ep ep' (announcement opcode ep).
Proof.
  intros [Hq Hcore [Hn Ht]] Hop Hfit. unfold core_update_map, announcement in *.
  rewrite u32_small by (unfold is_u32; lia).
  destruct (Z.eqb_spec (ep_n_types ep) (zlen (ep_types ep))) as [Heq | Hneq].
  - rewrite <- Heq, Z.sub_diag. simpl. exists ep. split; [done |]. split; [| done].
    split; [| done | lia]. by rewrite app_nil_r.
  - case_if; [lia |]. apply Forall_cons in Hfit as [Hfit _]. simpl in Hfit.
    rewrite map_lookup_seq by lia. unfold marshal_update_types.
    set (types := Some <$> drop _ _) in *. fold (types_args (ep_n_types ep) types).
    destruct (send_ok ep v f (ep_core_id ep) opcode (pod_struct 0 (types_args (ep_n_types ep) types))
      (struct_payload (types_args (ep_n_types ep) types))) as (ep' & -> & Hq' & Hnt & Hc & Hty); try done.
    + apply writes_struct_payload, flat_types.
    + cbn [obind]. eexists. split; [done |]. cbn [ep_n_types ep_types ep_core_id].
      rewrite Hnt, Hc, Hty. rewrite u32_small by (unfold is_u32; lia).
      replace (ep_n_types ep + (zlen (ep_types ep) - ep_n_types ep)) with (zlen (ep_types ep)) by lia.
      split; [| done]. split; simpl; rewrite ?Hc, ?Hty; [| done | lia].
      unfold enc_msgs. cbn [map concat]. rewrite app_nil_r. exact Hq'.
Qed.

(** A marshal function queues the announcement, if any, and its message. *)
Lemma marshal_ok optypes ep v f id opcode args payload :
  ready ep v f -> is_u32 id -> 0 <= opcode < 256 -> 0 <= optypes < 256 ->
  Forall (fun m => fits (m_payload m)) (announcement optypes ep) ->
  payload <> [] -> fits payload ->
  (forall W (PW : PodWriter W) (L : PodWriterLaws W), writes args payload) ->
  exists ep', marshal optypes ep id opcode args = Done ep' /\
    ready ep' (v ++ enc_msgs (announcement optypes ep ++ [mkMsg id opcode payload])) f /\
    same_types ep ep' (announcement optypes ep).
Proof.
  intros Hr Hid Hop Hopt Hann Hne Hfit He. unfold marshal.
  destruct (core_update_map_ok optypes ep v f Hr Hopt Hann) as (ep1 & -> & [Hq1 Hc1 Ht1] & [Hty1 Hid1 Hn1]). cbn [obind].
  destruct (send_ok ep1 _ f id opcode args payload Hq1) as (ep2 & -> & Hq2 & Hn2 & Hc2 & Hty2); try done.
  exists ep2. split; [done |]. split; split; rewrite ?Hn2, ?Hc2, ?Hty2; try done.
  unfold enc_msgs in *. rewrite map_app, concat_app, app_assoc. cbn [map concat]. by rewrite app_nil_r.
Qed.
End Sending.

(** ** The shared shape of the round trips *)

(** The message of [args] reaches the function at [opcode] of [table], which makes
    the call [a]. *)
Definition understood {A} (table : list (bytes -> Z -> outcome A)) (opcode : Z) (payload : bytes) (a : A) : Prop :=
  exists fn, table !! Z.to_nat opcode = Some fn /\ forall tail, fn (payload ++ tail) (zlen payload) = Done a.

Lemma understood_ok {A} table opcode (m : M A) args a :
  table !! Z.to_nat opcode = Some (fun data size => demarshal data size m) ->
  Forall flat_arg args -> fits (struct_payload args) -> reader m (enc_args args) a ->
  understood table opcode (struct_payload args) a.
Proof.
  intros Ht Hf Hfit Hm. eexists. split; [exact Ht |]. intros tail. unfold fits, struct_payload in *.
  rewrite zlen_enc_pod in Hfit. pose proof (round8_bounds (zlen (enc_args args))).
  apply demarshal_ok; [by apply aligned_enc_args | lia | done].
Qed.

Lemma reader_dict_size d : dict_ok d -> reader get_int (enc_arg (dict_size d)) (zlen (default [] d)).
Proof. intros [Hl _]. apply reader_int_arg. unfold is_u32. pose proof (zlen_nonneg (default [] d)). lia. Qed.

Lemma flat_dict d : Forall flat_arg (dict_items d).
Proof. unfold dict_items. induction (default [] d) as [|[k v] l IH]; simpl; repeat constructor; done. Qed.
Lemma flat_strings l : Forall flat_arg (map string l).
Proof. induction l; constructor; done. Qed.
Lemma flat_pods l : Forall is_object l -> Forall flat_arg (map pod l).
Proof. induction 1 as [|p l Hp _ IH]; constructor; [by exists SPA_POD_TYPE_OBJECT | done]. Qed.

Create HintDb fields.
#[export] Hint Resolve reader_int_arg reader_ident_arg reader_long_arg reader_bytes_arg
  reader_str_arg reader_string_arg reader_object_arg reader_opt_arg reader_dict_size reader_items
  reader_objects reader_strs reader_ret : fields.
#[export] Hint Resolve flat_dict flat_strings flat_pods : fields.

(** Read a message field by field; the side conditions are in the context. *)
Ltac read_fields :=
  lazymatch goal with
  | |- reader (mret _) _ _ => apply reader_ret
  | |- reader (mbind _ _) (enc_args (_ :: _)) _ => eapply reader_cons; [solve [eauto 3 with fields] | read_fields]
  | |- reader (mbind _ _) (enc_args (_ ++ _)) _ => eapply reader_append; [solve [eauto 3 with fields] | read_fields]
  | |- reader (mbind _ _) (enc_args _) _ => eapply reader_last; [solve [eauto 3 with fields] | read_fields]
  end.
Ltac flat_fields :=
  repeat first [apply Forall_cons; split; [solve [done | eauto] |] | apply Forall_app; split | solve [eauto with fields] | apply Forall_nil_2].

(** ** Methods of the core and the registry: client to server *)

Definition core_method_opcode (m : core_method) : Z :=
  match m with
  | CoreClientUpdate _ => PINOS_CORE_METHOD_CLIENT_UPDATE
  | CoreSync _ => PINOS_CORE_METHOD_SYNC
  | CoreGetRegistry _ => PINOS_CORE_METHOD_GET_REGISTRY
  | CoreCreateNode _ _ _ _ => PINOS_CORE_METHOD_CREATE_NODE
  | CoreCreateClientNode _ _ _ => PINOS_CORE_METHOD_CREATE_CLIENT_NODE
  | CoreUpdateTypes _ _ => PINOS_CORE_METHOD_UPDATE_TYPES
  end.

Definition core_method_args (m : core_method) : list arg :=
  match m with
  | CoreClientUpdate props => dict_size props :: dict_items props
  | CoreSync seq => [int seq]
  | CoreGetRegistry new_id => [int new_id]
  | CoreCreateNode factory_name name props new_id =>
      [string factory_name; string name; dict_size props] ++ dict_items props ++ [int new_id]
  | CoreCreateClientNode name props new_id => [string name; dict_size props] ++ dict_items props ++ [int new_id]
  | CoreUpdateTypes first_id types => types_args first_id types
  end.

Definition core_method_ok (m : core_method) : Prop :=
  match m with
  | CoreClientUpdate props => dict_ok props
  | CoreSync seq => is_u32 seq
  | CoreGetRegistry new_id => is_u32 new_id
  | CoreCreateNode factory_name name props new_id => str_ok factory_name /\ str_ok name /\ dict_ok props /\ is_u32 new_id
  | CoreCreateClientNode name props new_id => str_ok name /\ dict_ok props /\ is_u32 new_id
  | CoreUpdateTypes first_id types => is_u32 first_id /\ zlen types < 2 ^ 31 /\ Forall str_ok types
  end.

(** The call the server makes: [NULL] arrives as the empty string or dictionary. *)
Definition recv_core_method (m : core_method) : core_method :=
  match m with
  | CoreClientUpdate props => CoreClientUpdate (recv_dict props)
  | CoreSync _ | CoreGetRegistry _ => m
  | CoreCreateNode factory_name name props new_id =>
      CoreCreateNode (recv_str factory_name) (recv_str name) (recv_dict props) new_id
  | CoreCreateClientNode name props new_id => CoreCreateClientNode (recv_str name) (recv_dict props) new_id
  | CoreUpdateTypes first_id types => CoreUpdateTypes first_id (map recv_str types)
  end.

Lemma reader_count {A} (l : list A) : zlen l < 2 ^ 31 -> reader get_int (enc_arg (int (zlen l))) (zlen l).
Proof. intros. apply reader_int_arg. unfold is_u32. pose proof (zlen_nonneg l). lia. Qed.
#[export] Hint Resolve reader_count : fields.

Lemma core_method_understood m :
  core_method_ok m -> fits (struct_payload (core_method_args m)) ->
  understood S.pinos_protocol_native_server_core_demarshal (core_method_opcode m)
    (struct_payload (core_method_args m)) (recv_core_method m).
Proof.
  intros Hok Hfit. destruct m; simpl in Hok; cbn [core_method_args core_method_opcode recv_core_method types_args] in *;
    destruct_and?; (eapply understood_ok; [reflexivity | flat_fields | exact Hfit | cbn [app types_args]; read_fields]).
Qed.

Section RoundTrips.
Context `{Heap}.

(** What a marshal function queues and what the other end makes of it. *)
Definition crosses {A} (ep : Endpoint) (v : bytes) (f : list Z) (id opcode : Z) (ann : list message)
    (payload : bytes) (r : outcome Endpoint) (table : list (bytes -> Z -> outcome A)) (a : A) : Prop :=
  exists ep', r = Done ep' /\
    ready ep' (v ++ enc_msgs (ann ++ [mkMsg id opcode payload])) f /\ same_types ep ep' ann /\
    understood table opcode payload a.

Lemma crosses_writes {A} optypes ep v f id opcode args payload table (a : A) :
  ready ep v f -> is_u32 id -> 0 <= opcode < 256 -> 0 <= optypes < 256 ->
  Forall (fun m => fits (m_payload m)) (announcement optypes ep) ->
  (forall W (PW : PodWriter W) (L : PodWriterLaws W), writes args payload) ->
  payload <> [] -> fits payload -> understood table opcode payload a ->
  crosses ep v f id opcode (announcement optypes ep) payload (marshal optypes ep id opcode args) table a.
Proof.
  intros Hr Hid Hop Hopt Hann Hw Hne Hfit Hu.
  destruct (marshal_ok optypes ep v f id opcode args payload) as (ep' & Hm & Hr' & Hty); try done.
  by exists ep'.
Qed.

Lemma crosses_marshal {A} optypes ep v f id opcode args table (a : A) :
  ready ep v f -> is_u32 id -> 0 <= opcode < 256 -> 0 <= optypes < 256 ->
  Forall (fun m => fits (m_payload m)) (announcement optypes ep) ->
  Forall flat_arg args -> fits (struct_payload args) ->
  understood table opcode (struct_payload args) a ->
  crosses ep v f id opcode (announcement optypes ep) (struct_payload args)
    (marshal optypes ep id opcode (pod_struct 0 args)) table a.
Proof.
  intros Hr Hid Hop Hopt Hann Hflat Hfit Hu. apply crosses_writes; try done.
  by apply writes_struct_payload.
Qed.

Lemma if_connected_ready ep v f k : ready ep v f -> C.if_connected ep k = k.
Proof. intros [(conn & Hc & _) _ _]. unfold C.if_connected. by rewrite Hc. Qed.

Lemma crosses_update_types {A} opcode ep v f id first_id types table (a : A) :
  ready ep v f -> is_u32 id -> 0 <= opcode < 256 -> fits (struct_payload (types_args first_id types)) ->
  understood table opcode (struct_payload (types_args first_id types)) a ->
  crosses ep v f id opcode [] (struct_payload (types_args first_id types))
    (marshal_update_types opcode ep id first_id types) table a.
Proof.
  intros [Hq Hcore Ht] Hid Hop Hfit Hu. unfold marshal_update_types. fold (types_args first_id types).
  destruct (send_ok ep v f id opcode (pod_struct 0 (types_args first_id types))
    (struct_payload (types_args first_id types))) as (ep' & Hs & Hq' & Hn & Hc & Hty); try done.
  - apply writes_struct_payload, flat_types.
  - exists ep'. split; [exact Hs |]. split_and!; [| done | done]. split; rewrite ?Hn, ?Hc, ?Hty; try done.
    cbn [app]. unfold enc_msgs. cbn [map concat]. rewrite app_nil_r. exact Hq'.
Qed.

(** The types announced before a method: none before an announcement itself. *)
Definition is_types_method (m : core_method) : bool := match m with CoreUpdateTypes _ _ => true | _ => false end.
Definition core_method_announces (ep : Endpoint) (m : core_method) : list message :=
  if is_types_method m then [] else announcement PINOS_CORE_METHOD_UPDATE_TYPES ep.

(** Every method a client calls on the core reaches the server as the same call: the client
    queues an announcement of its new types, if there are any, and then one message
    with the id and opcode of the method, and the function of the server's table at that
    opcode reads the same arguments back, [NULL] strings and dictionaries as empty ones. *)
Lemma core_method_roundtrip ep v f id m :
  ready ep v f -> is_u32 id -> core_method_ok m -> fits (struct_payload (core_method_args m)) ->
  Forall (fun m => fits (m_payload m)) (core_method_announces ep m) ->
  crosses ep v f id (core_method_opcode m) (core_method_announces ep m) (struct_payload (core_method_args m))
    (C.marshal_core_method ep id m) S.pinos_protocol_native_server_core_demarshal (recv_core_method m).
Proof.
  intros Hr Hid Hok Hfit Hann. pose proof (core_method_understood m Hok Hfit) as Hu.
  destruct m; cbn [C.marshal_core_method core_method_args core_method_opcode core_method_announces is_types_method] in *;
    unfold C.core_marshal_client_update, C.core_marshal_sync, C.core_marshal_get_registry,
      C.core_marshal_create_node, C.core_marshal_create_client_node, C.core_marshal_update_types, C.client_marshal;
    rewrite (if_connected_ready _ _ _ _ Hr);
    first [apply crosses_update_types; done | apply crosses_marshal; try done; flat_fields].
Qed.

(** ** Methods and events of the registry *)

(** binding an object and the announcements of the registry reach the other end unchanged. *)
Theorem registry_roundtrip ep v f id gid x (type : str) :
  ready ep v f -> is_u32 id -> is_u32 gid -> is_u32 x -> str_ok type ->
  fits (struct_payload [int gid; string type]) ->
  Forall (fun m => fits (m_payload m))
    (announcement PINOS_CORE_METHOD_UPDATE_TYPES ep ++ announcement PINOS_CORE_EVENT_UPDATE_TYPES ep) ->
  crosses ep v f id PINOS_REGISTRY_METHOD_BIND (announcement PINOS_CORE_METHOD_UPDATE_TYPES ep)
    (struct_payload [int gid; int x])
    (C.marshal_registry_method ep id (RegistryBind gid x))
    S.pinos_protocol_native_server_registry_demarshal (RegistryBind gid x) /\
  crosses ep v f id PINOS_REGISTRY_EVENT_GLOBAL (announcement PINOS_CORE_EVENT_UPDATE_TYPES ep)
    (struct_payload [int gid; string type])
    (S.marshal_registry_event ep id (RegistryGlobal gid type))
    C.pinos_protocol_native_client_registry_demarshal (RegistryGlobal gid (recv_str type)) /\
  crosses ep v f id PINOS_REGISTRY_EVENT_GLOBAL_REMOVE (announcement PINOS_CORE_EVENT_UPDATE_TYPES ep)
    (struct_payload [int gid])
    (S.marshal_registry_event ep id (RegistryGlobalRemove gid))
    C.pinos_protocol_native_client_registry_demarshal (RegistryGlobalRemove gid).
Proof.
  intros Hr Hid Hgid Hx Hty Hfit [Hann1 Hann2]%Forall_app.
  assert (fits (struct_payload [int gid; int x])) by done.
  assert (fits (struct_payload [int gid])) by done.
  split_and!; cbn [C.marshal_registry_method S.marshal_registry_event];
    unfold C.registry_marshal_bind, C.client_marshal, S.registry_marshal_global, S.registry_marshal_global_remove,
      S.server_marshal; rewrite ?(if_connected_ready _ _ _ _ Hr);
    (apply crosses_marshal; try done; [flat_fields |]);
    (eapply understood_ok; [reflexivity | flat_fields | done | read_fields]).
Qed.

(** ** Events of the core: server to client *)

Definition core_event_opcode (e : core_event) : Z :=
  match e with
  | CoreInfo _ => PINOS_CORE_EVENT_INFO
  | CoreDone _ => PINOS_CORE_EVENT_DONE
  | CoreError _ _ _ => PINOS_CORE_EVENT_ERROR
  | CoreRemoveId _ => PINOS_CORE_EVENT_REMOVE_ID
  | CoreEvUpdateTypes _ _ => PINOS_CORE_EVENT_UPDATE_TYPES
  end.

Definition core_event_args (e : core_event) : list arg :=
  match e with
  | CoreInfo info =>
      [int (ci_id info); long (ci_change_mask info); string (ci_user_name info); string (ci_host_name info);
       string (ci_version info); string (ci_name info); int (ci_cookie info); dict_size (ci_props info)] ++
      dict_items (ci_props info)
  | CoreDone seq => [int seq]
  | CoreError eid res error => [int eid; int res; string (Some (S.error_buffer (default [] error)))]
  | CoreRemoveId rid => [int rid]
  | CoreEvUpdateTypes first_id types => types_args first_id types
  end.

Definition core_event_ok (e : core_event) : Prop :=
  match e with
  | CoreInfo info => is_u32 (ci_id info) /\ str_ok (ci_user_name info) /\ str_ok (ci_host_name info) /\
      str_ok (ci_version info) /\ str_ok (ci_name info) /\ is_u32 (ci_cookie info) /\ dict_ok (ci_props info)
  | CoreDone seq => is_u32 seq
  | CoreError eid res error => is_u32 eid /\ is_result res /\ str_ok error
  | CoreRemoveId rid => is_u32 rid
  | CoreEvUpdateTypes first_id types => is_u32 first_id /\ zlen types < 2 ^ 31 /\ Forall str_ok types
  end.

(** Change masks lose their high half, error texts all but 127 bytes. *)
Definition recv_core_event (e : core_event) : core_event :=
  match e with
  | CoreInfo i => CoreInfo (mkCoreInfo (ci_id i) (u32 (ci_change_mask i)) (recv_str (ci_user_name i))
      (recv_str (ci_host_name i)) (recv_str (ci_version i)) (recv_str (ci_name i)) (ci_cookie i) (recv_dict (ci_props i)))
  | CoreDone _ | CoreRemoveId _ => e
  | CoreError eid res error => CoreError eid res (Some (take 127 (default [] error)))
  | CoreEvUpdateTypes first_id types => CoreEvUpdateTypes first_id (map recv_str types)
  end.

Lemma i32_u32 z : - 2 ^ 31 <= z < 2 ^ 31 -> i32 (u32 z) = z.
Proof. unfold i32, u32. intros. rewrite Zplus_mod_idemp_l. rewrite Z.mod_small; lia. Qed.

Lemma core_event_understood e :
  core_event_ok e -> fits (struct_payload (core_event_args e)) ->
  understood C.pinos_protocol_native_client_core_demarshal (core_event_opcode e)
    (struct_payload (core_event_args e)) (recv_core_event e).
Proof.
  intros Hok Hfit. destruct e as [info|seq|eid res error|rid|first_id types]; simpl in Hok;
    cbn [core_event_args core_event_opcode recv_core_event] in *; destruct_and?;
    (eapply understood_ok; [reflexivity | flat_fields | exact Hfit | cbn [app types_args]]);
    try read_fields.
  eapply reader_cons; [by apply reader_int_arg |]. eapply reader_cons; [apply reader_word_arg |].
  eapply reader_cons; [apply reader_str_arg |].
  - simpl. unfold S.error_buffer. apply Forall_take. by destruct error; [| constructor].
  - rewrite i32_u32 by done. apply reader_ret.
Qed.

Definition is_types_event (e : core_event) : bool := match e with CoreEvUpdateTypes _ _ => true | _ => false end.
Definition core_event_announces (ep : Endpoint) (e : core_event) : list message :=
  if is_types_event e then [] else announcement PINOS_CORE_EVENT_UPDATE_TYPES ep.

(** Every event the server's core sends reaches the client as the same event, after the
    announcement of the server's new types: identifiers, strings and dictionaries
    unchanged, result codes with their sign, change masks cut to 32 bits, error texts
    cut to the 127 bytes of the buffer they are formatted in. *)
Lemma core_event_roundtrip ep v f id e :
  ready ep v f -> is_u32 id -> core_event_ok e -> fits (struct_payload (core_event_args e)) ->
  Forall (fun m => fits (m_payload m)) (core_event_announces ep e) ->
  crosses ep v f id (core_event_opcode e) (core_event_announces ep e) (struct_payload (core_event_args e))
    (S.marshal_core_event ep id e) C.pinos_protocol_native_client_core_demarshal (recv_core_event e).
Proof.
  intros Hr Hid Hok Hfit Hann. pose proof (core_event_understood e Hok Hfit) as Hu.
  destruct e; cbn [S.marshal_core_event core_event_args core_event_opcode core_event_announces is_types_event] in *;
    unfold S.core_marshal_info, S.core_marshal_done, S.core_marshal_error, S.core_marshal_remove_id,
      S.core_marshal_update_types, S.server_marshal;
    first [apply crosses_update_types; done | apply crosses_marshal; try done; flat_fields].
Qed.

(** ** Info events of modules, clients and links *)

Definition module_info_args (i : PinosModuleInfo) : list arg :=
  [int (mi_id i); long (mi_change_mask i); string (mi_name i); string (mi_filename i); string (mi_args i);
   dict_size (mi_props i)] ++ dict_items (mi_props i).
Definition client_info_args (i : PinosClientInfo) : list arg :=
  [int (cli_id i); long (cli_change_mask i); dict_size (cli_props i)] ++ dict_items (cli_props i).
Definition link_info_args (i : PinosLinkInfo) : list arg :=
  [int (li_id i); long (li_change_mask i); int (li_output_node_id i); int (li_output_port_id i);
   int (li_input_node_id i); int (li_input_port_id i)].

(** the information the server publishes about modules, clients and links reaches the
    client's info callbacks, with change masks cut to 32 bits. *)
Theorem info_event_roundtrip ep v f id m c l :
  ready ep v f -> is_u32 id ->
  is_u32 (mi_id m) -> str_ok (mi_name m) -> str_ok (mi_filename m) -> str_ok (mi_args m) -> dict_ok (mi_props m) ->
  is_u32 (cli_id c) -> dict_ok (cli_props c) ->
  is_u32 (li_id l) -> is_u32 (li_output_node_id l) -> is_u32 (li_output_port_id l) ->
  is_u32 (li_input_node_id l) -> is_u32 (li_input_port_id l) ->
  Forall (fun args => fits (struct_payload args)) [module_info_args m; client_info_args c] ->
  let ann := announcement PINOS_CORE_EVENT_UPDATE_TYPES ep in
  Forall (fun m => fits (m_payload m)) ann ->
  crosses ep v f id PINOS_MODULE_EVENT_INFO ann (struct_payload (module_info_args m))
    (S.marshal_info_event ep id (ModuleInfo m)) [C.module_demarshal_info]
    (ModuleInfo (mkModuleInfo (mi_id m) (u32 (mi_change_mask m)) (recv_str (mi_name m)) (recv_str (mi_filename m))
                   (recv_str (mi_args m)) (recv_dict (mi_props m)))) /\
  crosses ep v f id PINOS_CLIENT_EVENT_INFO ann (struct_payload (client_info_args c))
    (S.marshal_info_event ep id (ClientInfo c)) [C.client_demarshal_info]
    (ClientInfo (mkClientInfo (cli_id c) (u32 (cli_change_mask c)) (recv_dict (cli_props c)))) /\
  crosses ep v f id PINOS_LINK_EVENT_INFO ann (struct_payload (link_info_args l))
    (S.marshal_info_event ep id (LinkInfo l)) [C.link_demarshal_info]
    (LinkInfo (mkLinkInfo (li_id l) (u32 (li_change_mask l)) (li_output_node_id l) (li_output_port_id l)
                 (li_input_node_id l) (li_input_port_id l))).
Proof.
  intros Hr Hid Hmi Hmn Hmf Hma Hmp Hci Hcp Hl1 Hl2 Hl3 Hl4 Hl5 Hfit ann Hann.
  apply Forall_cons in Hfit as [Hf1 Hfit]. apply Forall_cons in Hfit as [Hf2 _].
  assert (fits (struct_payload (link_info_args l))) by done.
  split_and!; cbn [S.marshal_info_event];
    unfold S.module_marshal_info, S.client_marshal_info, S.link_marshal_info, S.server_marshal;
    (apply crosses_marshal; [done | done | done | done | done | flat_fields | done |]);
    (eapply understood_ok; [reflexivity | unfold module_info_args, client_info_args, link_info_args; flat_fields | done |
       unfold module_info_args, client_info_args, link_info_args; cbn [app]; read_fields]).
Qed.
End RoundTrips.

(** ** Witnesses *)

(** A fresh connection; two types that were not announced yet. *)
Definition sample_endpoint : Endpoint := mkEndpoint (Some pinos_connection_new) 0 0 [[83; 112; 97]; [78; 111; 100; 101]].

Lemma sample_ready : ready sample_endpoint [] [].
Proof.
  split; [| by vm_compute | by vm_compute]. eexists. split; [done |]. split; [| done].
  exists (fresh MAX_BUFFER_SIZE). split_and!; [done | done | by vm_compute].
Qed.

Lemma sample_announcement opcode : Forall (fun m => fits (m_payload m)) (announcement opcode sample_endpoint).
Proof. constructor; [by vm_compute | constructor]. Qed.

Definition sample_props : dict := Some [([107], Some [118; 49]); ([107; 50], None)].

Lemma registry_roundtrip_witness :
  crosses sample_endpoint [] [] 1 PINOS_REGISTRY_METHOD_BIND (announcement PINOS_CORE_METHOD_UPDATE_TYPES sample_endpoint) (struct_payload [int 3; int 9])
    (C.marshal_registry_method sample_endpoint 1 (RegistryBind 3 9))
    S.pinos_protocol_native_server_registry_demarshal (RegistryBind 3 9) /\
  crosses sample_endpoint [] [] 1 PINOS_REGISTRY_EVENT_GLOBAL (announcement PINOS_CORE_EVENT_UPDATE_TYPES sample_endpoint) (struct_payload [int 3; string (Some [110])])
    (S.marshal_registry_event sample_endpoint 1 (RegistryGlobal 3 (Some [110])))
    C.pinos_protocol_native_client_registry_demarshal (RegistryGlobal 3 (recv_str (Some [110]))) /\
  crosses sample_endpoint [] [] 1 PINOS_REGISTRY_EVENT_GLOBAL_REMOVE (announcement PINOS_CORE_EVENT_UPDATE_TYPES sample_endpoint) (struct_payload [int 3])
    (S.marshal_registry_event sample_endpoint 1 (RegistryGlobalRemove 3))
    C.pinos_protocol_native_client_registry_demarshal (RegistryGlobalRemove 3).
Proof.
  apply (registry_roundtrip sample_endpoint [] [] 1 3 9 (Some [110]) sample_ready).
  - by vm_compute.
  - by vm_compute.
  - by vm_compute.
  - by repeat constructor.
  - by vm_compute.
  - apply Forall_app. split; apply sample_announcement.
Defined.

Definition sample_module : PinosModuleInfo := mkModuleInfo 4 (2 ^ 33 + 3) (Some [109]) None None sample_props.
Definition sample_client : PinosClientInfo := mkClientInfo 5 1 None.
Definition sample_link : PinosLinkInfo := mkLinkInfo 6 63 1 0 2 1.

Lemma info_event_roundtrip_witness :
  crosses sample_endpoint [] [] 4 PINOS_MODULE_EVENT_INFO (announcement PINOS_CORE_EVENT_UPDATE_TYPES sample_endpoint)
    (struct_payload (module_info_args sample_module))
    (S.marshal_info_event sample_endpoint 4 (ModuleInfo sample_module)) [C.module_demarshal_info]
    (ModuleInfo (mkModuleInfo (mi_id sample_module) (u32 (mi_change_mask sample_module)) (recv_str (mi_name sample_module))
       (recv_str (mi_filename sample_module)) (recv_str (mi_args sample_module)) (recv_dict (mi_props sample_module)))).
Proof.
  refine (proj1 (info_event_roundtrip sample_endpoint [] [] 4 sample_module sample_client sample_link
    sample_ready _ _ _ _ _ _ _ _ _ _ _ _ _ _ (sample_announcement _))).
  all: lazymatch goal with
  | |- dict_ok _ => repeat (split || constructor || by vm_compute)
  | |- Forall _ _ => repeat constructor; by vm_compute
  | |- str_ok _ => by repeat constructor
  | |- _ => by vm_compute
  end.
Defined.
