(* ===== verification/ProtocolRemap.v ===== *)
(** Messages whose type ids are translated on arrival: the client node interface and
    the node information. The receiver's demarshal function makes the call of the
    sender with every id, key and object type replaced by the local one. *)
From S2P Require Import Prelude Defs Map Pod PodUtils PodTheory Connection Protocol Remap Interfaces Endpoint.
From S2P Require Import ProtocolTheory.
From S2P Require ProtocolClient ProtocolServer.

(** ** Translated bytes *)

Section Translated.
Context (types : Map.PinosMap).

(** [d] encodes values whose translation is encoded by [d']. *)
Definition translated (d d' : bytes) : Prop :=
  exists cs cs', d = concat (map enc_tree cs) /\ Forall tree_ok cs /\
    mapM (remap_tree types) cs = Some cs' /\ d' = concat (map enc_tree cs').

(** One object and its translation. *)
Definition obj_translated (p p' : bytes) : Prop :=
  exists t t', tree_ok t /\ tree_type t = SPA_POD_TYPE_OBJECT /\ p = tree_pod t /\
    remap_tree types t = Some t' /\ p' = tree_pod t'.

Lemma translated_nil : translated [] [].
Proof. by exists [], []. Qed.

Lemma translated_app a a' b b' : translated a a' -> translated b b' -> translated (a ++ b) (a' ++ b').
Proof.
  intros (cs & cs' & -> & Hok & Hm & ->) (ds & ds' & -> & Hok' & Hm' & ->).
  exists (cs ++ ds), (cs' ++ ds'). rewrite !map_app, !concat_app. split_and!; [done | by apply Forall_app | | done].
  apply mapM_Some. apply mapM_Some in Hm, Hm'. by apply Forall2_app.
Qed.

Lemma translated_tree t t' : tree_ok t -> remap_tree types t = Some t' -> translated (enc_tree t) (enc_tree t').
Proof.
  intros Hok Ht. exists [t], [t']. cbn [map concat mapM]. rewrite Ht, !app_nil_r.
  split_and!; [done | by constructor | done | done].
Qed.

Lemma translated_prim p : prim_type p <> SPA_POD_TYPE_ID -> translated (enc_prim p) (enc_prim p).
Proof.
  intros Hp. apply (translated_tree (TLeaf (prim_type p) (prim_body p)) (TLeaf (prim_type p) (prim_body p))); [| done].
  destruct p; done.
Qed.

Lemma translated_none : translated (enc_pod SPA_POD_TYPE_NONE []) (enc_pod SPA_POD_TYPE_NONE []).
Proof. by apply (translated_tree (TLeaf SPA_POD_TYPE_NONE []) (TLeaf SPA_POD_TYPE_NONE [])). Qed.

Lemma translated_ident v v' :
  is_u32 v -> type_lookup types v = Some v' -> translated (enc_arg (ident v)) (enc_arg (ident v')).
Proof. intros Hv Hl. apply (translated_tree (TId v) (TId v')); [done |]. simpl. by rewrite Hl. Qed.

Lemma enc_arg_tree t : enc_arg (pod (tree_pod t)) = enc_tree t.
Proof. apply enc_arg_pod. Qed.

Lemma translated_obj p p' : obj_translated p p' -> translated (enc_arg (pod p)) (enc_arg (pod p')).
Proof. intros (t & t' & Hok & _ & -> & Ht & ->). rewrite !enc_arg_tree. by apply translated_tree. Qed.

Lemma translated_opt p p' :
  option_Forall2 obj_translated p p' -> translated (enc_arg (APod p)) (enc_arg (APod p')).
Proof. destruct 1; [by apply translated_obj | apply translated_none]. Qed.

Lemma translated_objs l l' : Forall2 obj_translated l l' -> translated (enc_args (map pod l)) (enc_args (map pod l')).
Proof. induction 1; [apply translated_nil | by apply translated_app; [apply translated_obj |]]. Qed.

Lemma translated_flat_map {A} (R : A -> A -> Prop) (enc : A -> list arg) l l' :
  (forall x x', R x x' -> translated (enc_args (enc x)) (enc_args (enc x'))) ->
  Forall2 R l l' -> translated (enc_args (flat_map enc l)) (enc_args (flat_map enc l')).
Proof.
  intros HR. induction 1 as [|x x' l l' Hx _ IH]; [apply translated_nil |]. cbn [flat_map].
  rewrite !enc_args_app. apply translated_app; [by apply HR | done].
Qed.

Lemma translated_struct d d' :
  translated d d' -> translated (enc_pod SPA_POD_TYPE_STRUCT d) (enc_pod SPA_POD_TYPE_STRUCT d').
Proof.
  intros (cs & cs' & -> & Hok & Hm & ->).
  apply (translated_tree (TStruct cs) (TStruct cs')); [by apply children_ok |]. cbn [remap_tree]. by rewrite Hm.
Qed.

Lemma obj_is_object p p' : obj_translated p p' -> is_object p /\ is_object p'.
Proof.
  intros (t & t' & _ & Hty & -> & [Ht _]%remap_tree_shape & ->). split.
  - exists (tree_body t). unfold tree_pod. by rewrite Hty.
  - exists (tree_body t'). unfold tree_pod. by rewrite Ht, Hty.
Qed.

Lemma objs_are_objects l l' : Forall2 obj_translated l l' -> Forall is_object l /\ Forall is_object l' /\ zlen l' = zlen l.
Proof.
  induction 1 as [|p p' l l' Hp _ (IH1 & IH2 & IH3)]; [done |]. apply obj_is_object in Hp as [? ?].
  split_and!; [by constructor | by constructor | by rewrite !zlen_cons, IH3].
Qed.

Lemma opt_is_object p p' :
  option_Forall2 obj_translated p p' -> match p' with Some p => is_object p | None => True end.
Proof. destruct 1 as [p p' Hp|]; [| done]. by apply obj_is_object in Hp as [_ ?]. Qed.

Lemma type_lookup_u32 v v' : type_lookup types v = Some v' -> is_u32 v'.
Proof.
  unfold type_lookup. case_if; [done |]. intros [= <-]. unfold Map.PINOS_MAP_PTR_TO_ID, is_u32.
  rewrite Z.shiftr_div_pow2 by lia. pose proof (u32_bound (Map.pinos_map_lookup types v)) as Hb. unfold is_u32 in Hb.
  Z.div_mod_to_equations; lia.
Qed.

(** ** Reading a translated message *)

Lemma demarshal_remap_ok {A} (m : M A) d d' a tail :
  translated d d' -> 8 + zlen d < 2 ^ 31 - 16 -> reader m d' a ->
  demarshal_remap types (enc_pod SPA_POD_TYPE_STRUCT d ++ tail) (zlen (enc_pod SPA_POD_TYPE_STRUCT d)) m = Done a.
Proof.
  intros (cs & cs' & -> & Hok & Hm & ->) Hl Hread. unfold demarshal_remap.
  assert (forall cs, aligned (concat (map enc_tree cs))) as Hal.
  { intros l. apply aligned_concat. apply Forall_fmap, Forall_true. intros t. apply aligned_enc_pod. }
  assert (zlen (concat (map enc_tree cs')) = zlen (concat (map enc_tree cs))) as Hlen.
  { apply same_shape_children. eapply mapM_Forall2; [| exact Hm]. apply Forall_true. apply remap_tree_shape. }
  set (d := concat (map enc_tree cs)) in *. set (d' := concat (map enc_tree cs')) in *.
  assert (zlen (enc_pod SPA_POD_TYPE_STRUCT d) = 8 + zlen d) as Henc by (rewrite enc_pod_aligned by apply Hal; zlia).
  pose proof (remap_refines types (TStruct cs) [] tail) as Hremap.
  change (enc_tree (TStruct cs)) with (enc_pod SPA_POD_TYPE_STRUCT d) in Hremap. cbn [remap_tree] in Hremap.
  rewrite Hm in Hremap. change ([] ++ enc_pod SPA_POD_TYPE_STRUCT d ++ tail) with (enc_pod SPA_POD_TYPE_STRUCT d ++ tail) in Hremap.
  change (zlen []) with 0 in Hremap.
  rewrite Henc in *. rewrite iter_struct_eq by (done || apply Hal || lia). cbn [obind].
  rewrite Hremap; [| by apply children_ok | change (tree_body (TStruct cs)) with d; lia].
  cbn [obind fmap option_fmap option_map app it_size it_offset spa_pod_iter_contents].
  change (enc_tree (TStruct cs')) with (enc_pod SPA_POD_TYPE_STRUCT d').
  rewrite enc_pod_aligned, <- app_assoc by apply Hal.
  change 8%nat with (length (pod_header (zlen d') SPA_POD_TYPE_STRUCT)). rewrite drop_app_length.
  assert (reads (mkIter (d' ++ tail) (zlen d) 0) d' tail) as Hr' by (rewrite <- Hlen; apply reads_contents; [done | lia]).
  destruct (Hread (mkIter (d' ++ tail) (zlen d) 0) [] tail) as (it'' & -> & _); [by rewrite app_nil_r | done].
Qed.

Lemma understood_remap {A} table opcode (m : M A) d d' a :
  table !! Z.to_nat opcode = Some (fun data size => demarshal_remap types data size m) ->
  translated d d' -> fits (enc_pod SPA_POD_TYPE_STRUCT d) -> reader m d' a ->
  understood table opcode (enc_pod SPA_POD_TYPE_STRUCT d) a.
Proof.
  intros Ht Htr Hfit Hm. eexists. split; [exact Ht |]. intros tail. unfold fits in Hfit.
  rewrite zlen_enc_pod in Hfit. pose proof (round8_bounds (zlen d)).
  eapply demarshal_remap_ok; [done | lia | done].
Qed.
End Translated.

(** ** Methods of a client node: client to server *)

Definition cn_method_opcode (m : client_node_method) : Z :=
  match m with
  | CnUpdate _ _ _ _ => PINOS_CLIENT_NODE_METHOD_UPDATE
  | CnPortUpdate _ _ _ _ _ _ _ => PINOS_CLIENT_NODE_METHOD_PORT_UPDATE
  | CnEvent _ => PINOS_CLIENT_NODE_METHOD_EVENT
  | CnDestroy => PINOS_CLIENT_NODE_METHOD_DESTROY
  end.

Definition port_info_fields (i : SpaPortInfo) : list arg :=
  [int (pi_flags i); int (pi_rate i); long (pi_maxbuffering i); long (pi_latency i); int (zlen (pi_params i))] ++
  map pod (pi_params i) ++ dict_size (pi_extra i) :: dict_items (pi_extra i).

Definition enc_port_info (info : option SpaPortInfo) : bytes :=
  match info with
  | None => enc_pod SPA_POD_TYPE_NONE []
  | Some i => enc_pod SPA_POD_TYPE_STRUCT (enc_args (port_info_fields i))
  end.

(** The contents of the message's struct. *)
Definition cn_method_body (m : client_node_method) : bytes :=
  match m with
  | CnUpdate change_mask max_in max_out props => enc_args [int change_mask; int max_in; int max_out; APod props]
  | CnPortUpdate direction port_id change_mask formats format props info =>
      enc_args ([int direction; int port_id; int change_mask; int (zlen formats)] ++
                map pod formats ++ [APod format; APod props]) ++ enc_port_info info
  | CnEvent event => enc_args [pod event]
  | CnDestroy => []
  end.

Definition port_info_ok (i : SpaPortInfo) : Prop :=
  is_u32 (pi_flags i) /\ is_u32 (pi_rate i) /\ zlen (pi_params i) < 2 ^ 31 /\ dict_ok (pi_extra i).

Definition cn_method_ok (m : client_node_method) : Prop :=
  match m with
  | CnUpdate change_mask max_in max_out props => is_u32 change_mask /\ is_u32 max_in /\ is_u32 max_out
  | CnPortUpdate direction port_id change_mask formats format props info =>
      is_u32 direction /\ is_u32 port_id /\ is_u32 change_mask /\ zlen formats < 2 ^ 31 /\
      match info with Some i => port_info_ok i | None => True end
  | CnEvent _ | CnDestroy => True
  end.

(** The port information as it arrives: the 64-bit fields cut to 32 bits. *)
Definition recv_port_info (i : SpaPortInfo) (params : list bytes) : SpaPortInfo :=
  mkPortInfo (pi_flags i) (pi_rate i) (u32 (pi_maxbuffering i)) (u32 (pi_latency i)) params (recv_dict (pi_extra i)).

Section Methods.
Context (types : Map.PinosMap).

Inductive port_info_recv : option SpaPortInfo -> option SpaPortInfo -> Prop :=
| pir_none : port_info_recv None None
| pir_some i params : Forall2 (obj_translated types) (pi_params i) params ->
    port_info_recv (Some i) (Some (recv_port_info i params)).

(** The call that arrives: objects translated. *)
Inductive cn_method_recv : client_node_method -> client_node_method -> Prop :=
| cmr_update a b c props props' : option_Forall2 (obj_translated types) props props' ->
    cn_method_recv (CnUpdate a b c props) (CnUpdate a b c props')
| cmr_port_update d p c formats formats' format format' props props' info info' :
    Forall2 (obj_translated types) formats formats' -> option_Forall2 (obj_translated types) format format' ->
    option_Forall2 (obj_translated types) props props' -> port_info_recv info info' ->
    cn_method_recv (CnPortUpdate d p c formats format props info) (CnPortUpdate d p c formats' format' props' info')
| cmr_event event event' : obj_translated types event event' -> cn_method_recv (CnEvent event) (CnEvent event')
| cmr_destroy : cn_method_recv CnDestroy CnDestroy.

Lemma flat_opt p p' : option_Forall2 (obj_translated types) p p' -> flat_arg (APod p).
Proof. destruct 1 as [p p' Hp|]; [| done]. apply obj_is_object in Hp as [? _]. by eexists. Qed.

Lemma translated_int v : translated types (enc_arg (int v)) (enc_arg (int v)).
Proof. by apply translated_prim. Qed.
Lemma translated_long v : translated types (enc_arg (long v)) (enc_arg (long v)).
Proof. by apply translated_prim. Qed.
Lemma translated_string s : translated types (enc_arg (string s)) (enc_arg (string s)).
Proof. by apply translated_prim. Qed.
Lemma translated_dict_items d : translated types (enc_args (dict_items d)) (enc_args (dict_items d)).
Proof.
  apply translated_flat_map with (R := eq); [| by induction (default [] d); constructor].
  intros [k w] _ <-. rewrite !enc_args_cons.
  apply translated_app; [apply translated_string | apply translated_app; [apply translated_string | apply translated_nil]].
Qed.

Lemma translated_cons a a' l l' :
  translated types (enc_arg a) (enc_arg a') -> translated types (enc_args l) (enc_args l') ->
  translated types (enc_args (a :: l)) (enc_args (a' :: l')).
Proof. apply translated_app. Qed.
Lemma translated_args_app l1 l1' l l' :
  translated types (enc_args l1) (enc_args l1') -> translated types (enc_args l) (enc_args l') ->
  translated types (enc_args (l1 ++ l)) (enc_args (l1' ++ l')).
Proof. rewrite !enc_args_app. apply translated_app. Qed.
End Methods.

#[export] Hint Resolve translated_nil translated_int translated_long translated_string translated_dict_items
  translated_obj translated_opt translated_objs translated_ident : fields.
#[export] Hint Resolve flat_opt : fields.

Ltac trans_fields :=
  repeat first
    [ apply translated_nil
    | solve [eauto 3 with fields]
    | apply translated_cons; [solve [eauto 3 with fields] |]
    | apply translated_args_app; [solve [eauto 3 with fields] |] ].

(** Readers over a flat layout that something else follows. *)
Lemma reader_cons_app {A B} (m : M A) (f : A -> M B) a l rest x b :
  reader m (enc_arg a) x -> reader (f x) (enc_args l ++ rest) b -> reader (mbind m f) (enc_args (a :: l) ++ rest) b.
Proof. intros Hm Hf. rewrite enc_args_cons, <- app_assoc. by eapply reader_bind. Qed.
Lemma reader_append_app {A B} (m : M A) (f : A -> M B) l l' rest x b :
  reader m (enc_args l) x -> reader (f x) (enc_args l' ++ rest) b -> reader (mbind m f) (enc_args (l ++ l') ++ rest) b.
Proof. intros Hm Hf. rewrite enc_args_app, <- app_assoc. by eapply reader_bind. Qed.

Lemma iter_pod_struct d :
  zlen d < 2 ^ 31 -> spa_pod_iter_pod 0 (pod_of SPA_POD_TYPE_STRUCT d) = Done (spa_pod_iter_contents d (zlen d)).
Proof.
  intros Hl. pose proof (zlen_nonneg d). unfold spa_pod_iter_pod, pod_type_at, pod_size_at, pod_of, pod_header.
  rewrite <- app_assoc. rewrite (load32_app (le32 (zlen d))) by zlia. 
  assert (load32 0 (le32 (zlen d) ++ le32 SPA_POD_TYPE_STRUCT ++ d) = Some (u32 (zlen d))) as ->
    by (apply (load32_app []); done).
  cbn [of_option obind fmap option_fmap option_map]. rewrite (u32_small (zlen d)) by (unfold is_u32; lia).
  replace (8 + zlen d - 8) with (zlen d) by lia. rewrite (u32_small (zlen d)) by (unfold is_u32; lia). done.
Qed.

Definition read_port_info_opt (info : option SpaPortInfo) : option SpaPortInfo :=
  (fun i => recv_port_info i (pi_params i)) <$> info.

(** The information in the translated message, and what reading it gives. *)
Lemma translated_port_info types info info' :
  port_info_recv types info info' -> match info with Some i => port_info_ok i | None => True end ->
  exists info1, translated types (enc_port_info info) (enc_port_info info1) /\ read_port_info_opt info1 = info' /\
    match info1 with Some i => port_info_ok i /\ Forall is_object (pi_params i) | None => True end.
Proof.
  destruct 1 as [|i params Hp]; intros Hok; [exists None; split_and!; [apply translated_none | done..] |].
  destruct (objs_are_objects _ _ _ Hp) as (_ & Hobj & Hlen).
  exists (Some (mkPortInfo (pi_flags i) (pi_rate i) (pi_maxbuffering i) (pi_latency i) params (pi_extra i))).
  split_and!; [| done | | done].
  - apply translated_struct. unfold port_info_fields. simpl pi_params. simpl pi_extra.
    rewrite Hlen. cbn [app pi_flags pi_rate pi_maxbuffering pi_latency]. unfold dict_size. trans_fields.
  - destruct Hok as (? & ? & ? & ?). split_and!; simpl; try done. by rewrite Hlen.
Qed.

(** The structure of port information, as it is read. *)
Lemma reader_port_info i : port_info_ok i -> Forall is_object (pi_params i) ->
  reader S.get_port_info (enc_args (port_info_fields i)) (recv_port_info i (pi_params i)).
Proof.
  intros (? & ? & ? & ?) Hp. unfold S.get_port_info, port_info_fields, recv_port_info. cbn [app]. read_fields.
Qed.

Lemma reader_port_info_opt {B} (f : option SpaPortInfo -> M B) info b :
  match info with Some i => port_info_ok i /\ Forall is_object (pi_params i) /\ zlen (enc_args (port_info_fields i)) < 2 ^ 31
  | None => True end ->
  reader (f (read_port_info_opt info)) [] b ->
  reader (mbind (get_pod (- SPA_POD_TYPE_STRUCT)) (fun ipod => mbind (mlift (S.read_port_info ipod)) f))
    (enc_port_info info) b.
Proof.
  intros Hi Hf. set (d := (fun i => enc_args (port_info_fields i)) <$> info).
  assert (enc_port_info info = enc_opt SPA_POD_TYPE_STRUCT d) as -> by by destruct info.
  eapply reader_bind_nil; [apply reader_opt; by right |].
  eapply reader_bind_nil with (a := read_port_info_opt info); [| exact Hf].
  apply reader_lift. destruct info as [i|]; [| done]. destruct Hi as (Hok & Hobj & Hl). subst d.
  cbn [fmap option_fmap option_map S.read_port_info read_port_info_opt].
  rewrite iter_pod_struct by done. cbn [obind].
  destruct (reader_port_info i Hok Hobj (spa_pod_iter_contents (enc_args (port_info_fields i)) (zlen (enc_args (port_info_fields i)))) [] [])
    as (it' & -> & _); [| done]. rewrite app_nil_r. apply reads_contents; [by rewrite app_nil_r | done].
Qed.

(** ** The round trips *)

(** The payload of a client node method. *)
Definition cn_method_payload (m : client_node_method) : bytes := enc_pod SPA_POD_TYPE_STRUCT (cn_method_body m).

Section RoundTrips.
Context `{Heap} (types : Map.PinosMap).

Definition cn_method_call (m : client_node_method) : list arg :=
  match m with
  | CnUpdate change_mask max_in max_out props => pod_struct 0 [int change_mask; int max_in; int max_out; APod props]
  | CnPortUpdate direction port_id change_mask formats format props info =>
      pod_struct 0
        (([int direction; int port_id; int change_mask; int (zlen formats)] ++ map pod formats ++
          [APod format; APod props]) ++ C.port_info_args info)
  | CnEvent event => pod_struct 0 [pod event]
  | CnDestroy => [AStruct 0]
  end.

Lemma flat_objs l l' : Forall2 (obj_translated types) l l' -> Forall flat_arg (map pod l).
Proof. intros Hl. apply flat_pods. by apply objs_are_objects in Hl as [? _]. Qed.

Lemma emits_port_info info info' W (PW : PodWriter W) (L : PodWriterLaws W) :
  port_info_recv types info info' -> emits (C.port_info_args info) (enc_port_info info).
Proof.
  destruct 1 as [|i params Hp]; [apply emits_no_pod |]. apply emits_pod_struct, emits_flat.
  pose proof (flat_objs _ _ Hp). unfold port_info_fields. flat_fields.
Qed.

Lemma cn_method_writes m m' :
  cn_method_recv types m m' ->
  forall W (PW : PodWriter W) (L : PodWriterLaws W), writes (cn_method_call m) (cn_method_payload m).
Proof.
  intros Hm W PW L. destruct Hm as [a b c props props' Hp | d p c formats formats' format format' props props' info info' Hfs Hf Hp Hi | event event' He |];
    unfold cn_method_payload; cbn [cn_method_call cn_method_body].
  - apply emits_writes, emits_pod_struct, emits_flat. apply flat_opt in Hp. flat_fields.
  - apply emits_writes, emits_pod_struct, emits_app; [| by eapply emits_port_info]. apply emits_flat.
    apply flat_opt in Hp, Hf. apply flat_objs in Hfs. flat_fields.
  - apply emits_writes, emits_pod_struct, emits_flat. apply obj_is_object in He as [He _].
    constructor; [by eexists | constructor].
  - apply writes_open_struct.
Qed.

Lemma zlen_translated d d' : translated types d d' -> zlen d' = zlen d.
Proof.
  intros (cs & cs' & -> & _ & Hm & ->). apply same_shape_children.
  eapply mapM_Forall2; [| exact Hm]. apply Forall_true. apply remap_tree_shape.
Qed.

Lemma cn_port_update_understood d p c formats formats' format format' props props' info info' :
  Forall2 (obj_translated types) formats formats' -> option_Forall2 (obj_translated types) format format' ->
  option_Forall2 (obj_translated types) props props' -> port_info_recv types info info' ->
  let m := CnPortUpdate d p c formats format props info in
  cn_method_ok m -> fits (cn_method_payload m) ->
  understood (S.pinos_protocol_native_server_client_node_demarshal types) PINOS_CLIENT_NODE_METHOD_PORT_UPDATE
    (cn_method_payload m) (CnPortUpdate d p c formats' format' props' info').
Proof.
  intros Hfs Hf Hp Hi m (? & ? & ? & ? & Hio) Hfit.
  destruct (objs_are_objects _ _ _ Hfs) as (_ & ? & Hlen). pose proof (opt_is_object _ _ _ Hf). pose proof (opt_is_object _ _ _ Hp).
  destruct (translated_port_info types info info' Hi Hio) as (info1 & Htr & <- & Hi1).
  assert (zlen formats' < 2 ^ 31) by lia.
  assert (zlen (enc_port_info info1) < 2 ^ 31 - 16) as Hsmall.
  { rewrite (zlen_translated _ _ Htr). unfold fits, cn_method_payload in Hfit. rewrite zlen_enc_pod in Hfit.
    pose proof (round8_bounds (zlen (cn_method_body m))). subst m. cbn [cn_method_body] in *.
    rewrite zlen_app in *. pose proof (zlen_nonneg (enc_args ([int d; int p; int c; int (zlen formats)] ++
      map pod formats ++ [APod format; APod props]))). lia. }
  eapply (understood_remap types _ _ _ _ (enc_args ([int d; int p; int c; int (zlen formats')] ++
    map pod formats' ++ [APod format'; APod props']) ++ enc_port_info info1)); [reflexivity | | exact Hfit |].
  - apply translated_app; [| exact Htr]. cbn [app]. rewrite <- Hlen. trans_fields.
  - cbn [app].
    do 4 (eapply reader_cons_app; [solve [eauto 3 with fields] |]).
    eapply reader_append_app; [solve [eauto 3 with fields] |].
    do 2 (eapply reader_cons_app; [solve [eauto 3 with fields] |]).
    change (enc_args []) with (@nil Z). cbn [app].
    apply reader_port_info_opt; [| apply reader_ret].
    destruct info1 as [i|]; [| done]. destruct Hi1 as [? ?]. split_and!; [done | done |].
    cbn [enc_port_info] in Hsmall. rewrite zlen_enc_pod in Hsmall.
    pose proof (round8_bounds (zlen (enc_args (port_info_fields i)))). lia.
Qed.

(** every method a client node calls reaches the server as the same call with the type ids
    of its objects (formats, properties, allocation parameters, events) translated to
    the server's: updates of the node, updates of a port with any number of formats and
    optional port information in a nested structure, events, and destruction; the 64-bit
    latency and buffering of a port arrive cut to 32 bits. *)
Theorem client_node_method_roundtrip ep v f id m m' :
  ready ep v f -> is_u32 id -> cn_method_ok m -> cn_method_recv types m m' -> fits (cn_method_payload m) ->
  Forall (fun m => fits (m_payload m)) (announcement PINOS_CORE_METHOD_UPDATE_TYPES ep) ->
  crosses ep v f id (cn_method_opcode m) (announcement PINOS_CORE_METHOD_UPDATE_TYPES ep) (cn_method_payload m)
    (C.marshal_client_node_method ep id m) (S.pinos_protocol_native_server_client_node_demarshal types) m'.
Proof.
  intros Hr Hid Hok Hm Hfit Hann. pose proof (cn_method_writes _ _ Hm) as Hw.
  assert (C.marshal_client_node_method ep id m =
    marshal PINOS_CORE_METHOD_UPDATE_TYPES ep id (cn_method_opcode m) (cn_method_call m)) as ->.
  { destruct m; unfold C.marshal_client_node_method, C.client_node_marshal_update, C.client_node_marshal_port_update,
      C.client_node_marshal_event, C.client_node_marshal_destroy, C.client_marshal;
      by rewrite (if_connected_ready _ _ _ _ Hr). }
  apply crosses_writes; try done; [by destruct m |].
  destruct Hm as [a b c props props' Hp | d p c formats formats' format format' props props' info info' Hfs Hf Hp Hi | event event' He |].
  - destruct Hok as (? & ? & ?). pose proof (opt_is_object _ _ _ Hp).
    eapply (understood_remap types _ _ _ _ (cn_method_body (CnUpdate a b c props'))); [reflexivity | | exact Hfit |];
      cbn [cn_method_body]; [trans_fields | read_fields].
  - by apply cn_port_update_understood.
  - destruct (obj_is_object _ _ _ He) as [_ ?].
    eapply (understood_remap types _ _ _ _ (cn_method_body (CnEvent event'))); [reflexivity | | exact Hfit |];
      cbn [cn_method_body]; [trans_fields | read_fields].
  - eapply (understood_ok _ _ (mret CnDestroy) []); [reflexivity | constructor | done | apply reader_ret].
Qed.

(** ** Events of a client node: server to client *)

Definition cn_event_opcode (e : client_node_event) : Z :=
  match e with
  | CnDone _ _ => PINOS_CLIENT_NODE_EVENT_DONE
  | CnEvEvent _ => PINOS_CLIENT_NODE_EVENT_EVENT
  | CnAddPort _ _ _ => PINOS_CLIENT_NODE_EVENT_ADD_PORT
  | CnRemovePort _ _ _ => PINOS_CLIENT_NODE_EVENT_REMOVE_PORT
  | CnSetFormat _ _ _ _ _ => PINOS_CLIENT_NODE_EVENT_SET_FORMAT
  | CnSetProperty _ _ _ => PINOS_CLIENT_NODE_EVENT_SET_PROPERTY
  | CnAddMem _ _ _ _ _ _ _ _ => PINOS_CLIENT_NODE_EVENT_ADD_MEM
  | CnUseBuffers _ _ _ _ => PINOS_CLIENT_NODE_EVENT_USE_BUFFERS
  | CnNodeCommand _ _ => PINOS_CLIENT_NODE_EVENT_NODE_COMMAND
  | CnPortCommand _ _ => PINOS_CLIENT_NODE_EVENT_PORT_COMMAND
  | CnTransport _ _ _ => PINOS_CLIENT_NODE_EVENT_TRANSPORT
  end.

(** The arguments; descriptors stand for their index in the connection. *)
Definition cn_event_args (e : client_node_event) : list arg :=
  match e with
  | CnDone ridx widx => [int ridx; int widx]
  | CnEvEvent event => [pod event]
  | CnAddPort seq direction port_id | CnRemovePort seq direction port_id => [int seq; int direction; int port_id]
  | CnSetFormat seq direction port_id flags format => [int seq; int direction; int port_id; int flags; APod format]
  | CnSetProperty seq pid value => [int seq; int pid; APrim (PBytes value)]
  | CnAddMem direction port_id mem_id type idx flags offset size =>
      [int direction; int port_id; int mem_id; ident type; int idx; int flags; int offset; int size]
  | CnUseBuffers seq direction port_id buffers =>
      [int seq; int direction; int port_id; int (zlen buffers)] ++ flat_map S.buffer_args buffers
  | CnNodeCommand seq command => [int seq; pod command]
  | CnPortCommand port_id command => [int port_id; pod command]
  | CnTransport idx offset size => [int idx; int offset; int size]
  end.

Definition meta_recv (m m' : SpaMeta) : Prop :=
  is_u32 (meta_type m) /\ is_u32 (meta_size m) /\ meta_size m' = meta_size m /\
  type_lookup types (meta_type m) = Some (meta_type m').

Definition data_recv (d d' : SpaData) : Prop :=
  is_u32 (data_type d) /\ is_u32 (data_data d) /\ is_u32 (data_flags d) /\ is_u32 (data_mapoffset d) /\
  is_u32 (data_maxsize d) /\ data_data d' = data_data d /\ data_flags d' = data_flags d /\
  data_mapoffset d' = data_mapoffset d /\ data_maxsize d' = data_maxsize d /\
  type_lookup types (data_type d) = Some (data_type d').

Definition buffer_recv (b b' : PinosClientNodeBuffer) : Prop :=
  is_u32 (nb_mem_id b) /\ is_u32 (nb_offset b) /\ is_u32 (nb_size b) /\ is_u32 (nb_buffer_id b) /\
  zlen (nb_metas b) < 2 ^ 31 /\ zlen (nb_datas b) < 2 ^ 31 /\
  nb_mem_id b' = nb_mem_id b /\ nb_offset b' = nb_offset b /\ nb_size b' = nb_size b /\
  nb_buffer_id b' = nb_buffer_id b /\ Forall2 meta_recv (nb_metas b) (nb_metas b') /\
  Forall2 data_recv (nb_datas b) (nb_datas b').

(** The event that arrives, for the events without descriptors. *)
Inductive cn_event_recv : client_node_event -> client_node_event -> Prop :=
| cer_event event event' : obj_translated types event event' -> cn_event_recv (CnEvEvent event) (CnEvEvent event')
| cer_add_port s d p : is_u32 s -> is_u32 d -> is_u32 p -> cn_event_recv (CnAddPort s d p) (CnAddPort s d p)
| cer_remove_port s d p : is_u32 s -> is_u32 d -> is_u32 p -> cn_event_recv (CnRemovePort s d p) (CnRemovePort s d p)
| cer_set_format s d p f format format' : is_u32 s -> is_u32 d -> is_u32 p -> is_u32 f ->
    option_Forall2 (obj_translated types) format format' ->
    cn_event_recv (CnSetFormat s d p f format) (CnSetFormat s d p f format')
| cer_set_property s i value : is_u32 s -> is_u32 i -> cn_event_recv (CnSetProperty s i value) (CnSetProperty s i value)
| cer_use_buffers s d p bs bs' : is_u32 s -> is_u32 d -> is_u32 p -> zlen bs < 2 ^ 31 ->
    Forall2 buffer_recv bs bs' -> cn_event_recv (CnUseBuffers s d p bs) (CnUseBuffers s d p bs')
| cer_node_command s c c' : is_u32 s -> obj_translated types c c' -> cn_event_recv (CnNodeCommand s c) (CnNodeCommand s c')
| cer_port_command p c c' : is_u32 p -> obj_translated types c c' -> cn_event_recv (CnPortCommand p c) (CnPortCommand p c').

Lemma Forall2_zlen {A B} (R : A -> B -> Prop) l l' : Forall2 R l l' -> zlen l' = zlen l.
Proof. intros Hl%Forall2_length. unfold zlen. by rewrite Hl. Qed.

Lemma flat_flat_map {A} (f : A -> list arg) l : (forall x, Forall flat_arg (f x)) -> Forall flat_arg (flat_map f l).
Proof. intros Hf. induction l; simpl; [constructor | by apply Forall_app]. Qed.

Lemma flat_buffers bs : Forall flat_arg (flat_map S.buffer_args bs).
Proof.
  apply flat_flat_map. intros b. unfold S.buffer_args.
  repeat first [apply Forall_app; split | apply Forall_cons; split; [done |] | apply Forall_nil_2];
    apply flat_flat_map; intros x; by repeat constructor.
Qed.

Lemma translated_buffer b b' : buffer_recv b b' ->
  translated types (enc_args (S.buffer_args b)) (enc_args (S.buffer_args b')).
Proof.
  intros (_ & _ & _ & _ & _ & _ & Hb1 & Hb2 & Hb3 & Hb4 & Hm & Hd). unfold S.buffer_args.
  rewrite Hb1, Hb2, Hb3, Hb4, (Forall2_zlen _ _ _ Hm), (Forall2_zlen _ _ _ Hd).
  apply translated_args_app; [trans_fields |]. apply translated_args_app; [| apply translated_cons; [apply translated_int |]].
  - eapply translated_flat_map; [| exact Hm]. intros x x' (? & ? & Hs & Ht). unfold S.meta_args. rewrite Hs. trans_fields.
  - eapply translated_flat_map; [| exact Hd]. intros x x' (? & ? & ? & ? & ? & H1 & H2 & H3 & H4 & Ht).
    unfold S.data_args. rewrite H1, H2, H3, H4. trans_fields.
Qed.

Lemma reader_flat_map {A} (m : M A) (enc : A -> list arg) (l : list A) n :
  n = length l -> Forall (fun x => reader m (enc_args (enc x)) x) l -> reader (get_n n m) (enc_args (flat_map enc l)) l.
Proof. intros Hn Hl. rewrite <- (map_id l) at 2. by apply reader_get_n_args. Qed.

Lemma Forall2_right {A B} (R : A -> B -> Prop) (P : B -> Prop) l l' :
  (forall x y, R x y -> P y) -> Forall2 R l l' -> Forall P l'.
Proof. intros HP. induction 1; constructor; eauto. Qed.

Lemma reader_buffer b b' : buffer_recv b b' -> reader C.get_buffer (enc_args (S.buffer_args b')) b'.
Proof.
  intros (? & ? & ? & ? & ? & ? & Hb1 & Hb2 & Hb3 & Hb4 & Hm & Hd).
  assert (zlen (nb_metas b') < 2 ^ 31) by (rewrite (Forall2_zlen _ _ _ Hm); lia).
  assert (zlen (nb_datas b') < 2 ^ 31) by (rewrite (Forall2_zlen _ _ _ Hd); lia).
  assert (is_u32 (nb_mem_id b') /\ is_u32 (nb_offset b') /\ is_u32 (nb_size b') /\ is_u32 (nb_buffer_id b')) as (? & ? & ? & ?)
    by (rewrite Hb1, Hb2, Hb3, Hb4; done).
  unfold C.get_buffer, S.buffer_args. cbn [app].
  do 5 (eapply reader_cons; [solve [eauto 3 with fields] |]).
  eapply reader_append.
  { apply reader_flat_map; [apply to_nat_zlen |]. eapply Forall2_right; [| exact Hm].
    intros x x' (? & Hsz & Hs & Ht%type_lookup_u32). rewrite <- Hs in Hsz. unfold C.get_meta, S.meta_args. destruct x'. read_fields. }
  eapply reader_cons; [solve [eauto 3 with fields] |].
  apply (reader_last _ _ _ (nb_datas b')); [| destruct b'; apply reader_ret].
  apply reader_flat_map; [apply to_nat_zlen |]. eapply Forall2_right; [| exact Hd].
  intros x x' (? & Hx1 & Hx2 & Hx3 & Hx4 & E1 & E2 & E3 & E4 & Ht%type_lookup_u32).
  rewrite <- E1 in Hx1. rewrite <- E2 in Hx2. rewrite <- E3 in Hx3. rewrite <- E4 in Hx4.
  unfold C.get_data, S.data_args. rewrite u32_small by done. destruct x'. read_fields.
Qed.

Definition cn_table := C.pinos_protocol_native_client_client_node_demarshal types.

Lemma cn_event_understood conn e e' :
  cn_event_recv e e' -> fits (struct_payload (cn_event_args e)) ->
  understood (cn_table conn) (cn_event_opcode e) (struct_payload (cn_event_args e)) e'.
Proof.
  intros He Hfit.
  destruct He as [ev ev' Ho | s d p Hs Hd Hp | s d p Hs Hd Hp | s d p fl fmt fmt' Hs Hd Hp Hfl Ho | s i value Hs Hi
                 | s d p bs bs' Hs Hd Hp Hl Hb | s c c' Hs Ho | p c c' Hp Ho]; cbn [cn_event_opcode cn_event_args] in *.
  - destruct (obj_is_object _ _ _ Ho). eapply (understood_remap types _ _ _ _ (enc_args [pod ev']));
      [reflexivity | | exact Hfit |]; [trans_fields | read_fields].
  - eapply understood_ok; [reflexivity | flat_fields | exact Hfit | read_fields].
  - eapply understood_ok; [reflexivity | flat_fields | exact Hfit | read_fields].
  - pose proof (opt_is_object _ _ _ Ho). eapply (understood_remap types _ _ _ _ (enc_args [int s; int d; int p; int fl; APod fmt']));
      [reflexivity | | exact Hfit |]; [trans_fields | read_fields].
  - eapply understood_ok; [reflexivity | flat_fields | exact Hfit | read_fields].
  - assert (zlen bs' = zlen bs) as Hlen by by eapply Forall2_zlen.
    assert (zlen bs' < 2 ^ 31) by lia.
    eapply (understood_remap types _ _ _ _ (enc_args ([int s; int d; int p; int (zlen bs')] ++ flat_map S.buffer_args bs')));
      [reflexivity | | exact Hfit |].
    + rewrite Hlen. apply translated_args_app; [trans_fields |].
      eapply translated_flat_map; [| exact Hb]. apply translated_buffer.
    + cbn [app]. do 4 (eapply reader_cons; [solve [eauto 3 with fields] |]).
      apply (reader_last _ _ _ bs'); [| apply reader_ret].
      apply reader_flat_map; [apply to_nat_zlen |]. eapply Forall2_right; [| exact Hb]. apply reader_buffer.
  - destruct (obj_is_object _ _ _ Ho). eapply (understood_remap types _ _ _ _ (enc_args [int s; pod c']));
      [reflexivity | | exact Hfit |]; [trans_fields | read_fields].
  - destruct (obj_is_object _ _ _ Ho). eapply (understood_remap types _ _ _ _ (enc_args [int p; pod c']));
      [reflexivity | | exact Hfit |]; [trans_fields | read_fields].
Qed.

(** the server's requests to a client node reach the client as the same requests with type
    ids translated to the client's: events, commands, formats, properties, ports to add
    and remove, and buffers with any number of metadata and data blocks. *)
Theorem client_node_event_roundtrip ep v f id conn e e' :
  ready ep v f -> is_u32 id -> cn_event_recv e e' -> fits (struct_payload (cn_event_args e)) ->
  Forall (fun m => fits (m_payload m)) (announcement PINOS_CORE_EVENT_UPDATE_TYPES ep) ->
  crosses ep v f id (cn_event_opcode e) (announcement PINOS_CORE_EVENT_UPDATE_TYPES ep) (struct_payload (cn_event_args e))
    (S.marshal_client_node_event ep id e) (cn_table conn) e'.
Proof.
  intros Hr Hid He Hfit Hann. pose proof (cn_event_understood conn e e' He Hfit) as Hu.
  assert (S.marshal_client_node_event ep id e =
    marshal PINOS_CORE_EVENT_UPDATE_TYPES ep id (cn_event_opcode e) (pod_struct 0 (cn_event_args e))) as -> by by destruct He.
  apply crosses_marshal; try done; [by destruct He |].
  destruct He; cbn [cn_event_args];
    try match goal with Ho : obj_translated _ _ _ |- _ => destruct (obj_is_object _ _ _ Ho) as [? _] end;
    try match goal with Ho : option_Forall2 _ _ _ |- _ => apply flat_opt in Ho end;
    try (constructor; [done |]); flat_fields; try (constructor; [by eexists | constructor]).
  apply flat_buffers.
Qed.

(** ** Descriptors *)

(** The descriptors after [pinos_connection_add_fd], and the index of the one added. *)
Definition fd_add (f : list Z) (fd : Z) : list Z * Z :=
  match index_of (Z.eqb fd) f with
  | Some i => (f, Z.of_nat i)
  | None => (f ++ [fd], zlen f)
  end.

Lemma fd_add_lookup f fd : fst (fd_add f fd) !! Z.to_nat (snd (fd_add f fd)) = Some fd /\
  0 <= snd (fd_add f fd) <= zlen f /\ zlen (fst (fd_add f fd)) <= zlen f + 1 /\
  forall i x, f !! i = Some x -> fst (fd_add f fd) !! i = Some x.
Proof.
  unfold fd_add. destruct (index_of (Z.eqb fd) f) as [i|] eqn:Hi; simpl.
  - pose proof (index_of_lt _ _ _ Hi). apply index_of_Some in Hi as [(x & Hx & Heq) _]. apply Z.eqb_eq in Heq as <-.
    rewrite Nat2Z.id. split_and!; [done | lia | unfold zlen; lia | lia | done].
  - rewrite to_nat_zlen, lookup_app_r, Nat.sub_diag by lia. split_and!; [done | zlia | lia | zlia |].
    intros i x Hx. rewrite lookup_app_l; [done |]. by eapply lookup_lt_Some.
Qed.

Lemma add_fd_ok ep v f fd :
  ready ep v f -> zlen f < MAX_FDS ->
  exists ep', add_fd ep fd = Done (ep', snd (fd_add f fd)) /\ ready ep' v (fst (fd_add f fd)) /\ same_types ep ep' [].
Proof.
  intros [(conn & Hc & Hh & Hf) Hcore Ht] Hroom. unfold add_fd. rewrite Hc. cbn [of_option obind].
  unfold pinos_connection_add_fd, fd_add, n_fds. rewrite Hf. destruct (index_of (Z.eqb fd) f) as [i|]; simpl.
  - eexists. split; [done |]. split; [split; [by exists conn | done | done] | done].
  - rewrite Z.geb_leb. case_if; [lia |]. simpl. eexists. split; [done |]. split; [split; [| done | done] | done].
    eexists. split; [done |]. simpl. done.
Qed.

(** The receiver got the descriptors of the sender's message, in order. *)
Definition holds_fds (conn : PinosConnectionImpl) (f : list Z) : Prop := fds (cn_in conn) = f.

Lemma get_fd_ok conn f i fd : holds_fds conn f -> 0 <= i -> f !! Z.to_nat i = Some fd -> pinos_connection_get_fd conn i = fd.
Proof.
  intros <- Hi Hl. pose proof (lookup_lt_Some _ _ _ Hl). unfold pinos_connection_get_fd, n_fds. rewrite Z.geb_leb.
  case_if; [unfold zlen in *; lia |]. by rewrite Hl.
Qed.

Lemma crosses_send {A} ep ep1 v f id opcode args ann table (a : A) :
  ready ep1 (v ++ enc_msgs ann) f -> same_types ep ep1 ann -> is_u32 id -> 0 <= opcode < 256 ->
  Forall flat_arg args -> fits (struct_payload args) -> understood table opcode (struct_payload args) a ->
  crosses ep v f id opcode ann (struct_payload args) (send ep1 id opcode (pod_struct 0 args)) table a.
Proof.
  intros [Hq Hcore Ht] [Hty Hc Hn] Hid Hop Hflat Hfit Hu.
  destruct (send_ok ep1 _ f id opcode (pod_struct 0 args) (struct_payload args) Hq) as (ep2 & Hs & Hq2 & Hn2 & Hc2 & Hty2); try done.
  - by apply writes_struct_payload.
  - exists ep2. split; [exact Hs |]. split_and!; [| split; by rewrite ?Hn2, ?Hc2, ?Hty2 | done].
    split; rewrite ?Hn2, ?Hc2, ?Hty2; [| done | done].
    unfold enc_msgs in *. rewrite map_app, concat_app, app_assoc. cbn [map concat]. by rewrite app_nil_r.
Qed.

Section Descriptors.
Context (ep : Endpoint) (v : bytes) (f : list Z) (id : Z) (conn : PinosConnectionImpl).
Context (Hready : ready ep v f) (Hid : is_u32 id) (Hroom : zlen f < MAX_FDS - 1).
Local Abbreviation ann := (announcement PINOS_CORE_EVENT_UPDATE_TYPES ep).
Context (Hann : Forall (fun m => fits (m_payload m)) ann).

(** After the announcement and one descriptor. *)
Lemma marshal_fd fd (k : Endpoint * Z -> outcome Endpoint) :
  exists ep', (let* ep := core_update_map PINOS_CORE_EVENT_UPDATE_TYPES ep in let* r := add_fd ep fd in k r) =
      k (ep', snd (fd_add f fd)) /\ ready ep' (v ++ enc_msgs ann) (fst (fd_add f fd)) /\ same_types ep ep' ann.
Proof.
  destruct (core_update_map_ok PINOS_CORE_EVENT_UPDATE_TYPES ep v f Hready) as (ep1 & -> & Hr1 & Hs1); [done | done |].
  cbn [obind]. destruct (add_fd_ok ep1 _ f fd Hr1) as (ep2 & -> & Hr2 & Hs2); [unfold MAX_FDS in *; lia |].
  exists ep2. split_and!; [done | done |]. by eapply same_types_trans.
Qed.

(** descriptors travel beside the bytes: the wake-up descriptors, the transport area and the
    memory blocks a server passes to a client node are the ones the client's handler is
    given, as long as fewer than 27 descriptors already wait on the connection and the
    pair of wake-up descriptors is valid. *)
Theorem client_node_fd_roundtrip rfd wfd mfd off sz dir p mid ty ty' fl :
  is_u32 off -> is_u32 sz -> is_u32 dir -> is_u32 p -> is_u32 mid -> is_u32 ty -> is_u32 fl ->
  type_lookup types ty = Some ty' -> rfd <> -1 -> wfd <> -1 ->
  let f1 := fst (fd_add f rfd) in
  let ri := snd (fd_add f rfd) in
  let f2 := fst (fd_add f1 wfd) in
  let wi := snd (fd_add f1 wfd) in
  let f3 := fst (fd_add f mfd) in
  let mi := snd (fd_add f mfd) in
  (holds_fds conn f2 ->
    crosses ep v f2 id PINOS_CLIENT_NODE_EVENT_DONE ann (struct_payload [int ri; int wi])
      (S.marshal_client_node_event ep id (CnDone rfd wfd)) (cn_table conn) (CnDone rfd wfd)) /\
  (holds_fds conn f3 ->
    crosses ep v f3 id PINOS_CLIENT_NODE_EVENT_TRANSPORT ann (struct_payload [int mi; int off; int sz])
      (S.marshal_client_node_event ep id (CnTransport mfd off sz)) (cn_table conn) (CnTransport mfd off sz)) /\
  (holds_fds conn f3 ->
    crosses ep v f3 id PINOS_CLIENT_NODE_EVENT_ADD_MEM ann
      (struct_payload [int dir; int p; int mid; ident ty; int mi; int fl; int off; int sz])
      (S.marshal_client_node_event ep id (CnAddMem dir p mid ty mfd fl off sz)) (cn_table conn)
      (CnAddMem dir p mid ty' mfd fl off sz)).
Proof.
  intros Hoff Hsz Hdir Hp Hmid Hty Hfl Htl Hrfd Hwfd f1 ri f2 wi f3 mi. unfold MAX_FDS in *.
  destruct (fd_add_lookup f rfd) as (Hl1 & Hi1 & Hz1 & _). fold f1 ri in Hl1, Hi1, Hz1.
  destruct (fd_add_lookup f1 wfd) as (Hl2 & Hi2 & Hz2 & Hk2). fold f2 wi in Hl2, Hi2, Hz2, Hk2.
  destruct (fd_add_lookup f mfd) as (Hl3 & Hi3 & Hz3 & _). fold f3 mi in Hl3, Hi3, Hz3.
  assert (is_u32 ri /\ is_u32 wi /\ is_u32 mi) as (? & ? & ?) by (unfold is_u32; lia).
  split_and!; intros Hconn; cbn [S.marshal_client_node_event];
    unfold S.client_node_marshal_done, S.client_node_marshal_transport, S.client_node_marshal_add_mem.
  - destruct (marshal_fd rfd (fun '(ep, ridx) => let* (ep, widx) := add_fd ep wfd in
      send ep id PINOS_CLIENT_NODE_EVENT_DONE (pod_struct 0 [int ridx; int widx]))) as (ep1 & -> & Hr1 & Hs1).
    fold f1 ri in Hr1 |- *. destruct (add_fd_ok ep1 _ f1 wfd Hr1) as (ep2 & -> & Hr2 & Hs2); [unfold MAX_FDS; lia |].
    pose proof (same_types_trans _ _ _ _ Hs1 Hs2) as Hs3.
    cbn [obind]. fold f2 wi in Hr2 |- *. apply crosses_send; try done; [flat_fields |].
    eapply understood_ok; [reflexivity | flat_fields | done |].
    do 2 (eapply reader_cons; [solve [eauto 3 with fields] |]).
    cbv zeta. rewrite (get_fd_ok conn f2 ri rfd), (get_fd_ok conn f2 wi wfd) by (done || lia || by apply Hk2).
    rewrite !(proj2 (Z.eqb_neq _ _)) by done. apply reader_ret.
  - destruct (marshal_fd mfd (fun '(ep, idx) =>
      send ep id PINOS_CLIENT_NODE_EVENT_TRANSPORT (pod_struct 0 [int idx; int off; int sz]))) as (ep1 & -> & Hr1 & Hs1).
    fold f3 mi in Hr1 |- *. apply crosses_send; try done; [flat_fields |].
    eapply understood_ok; [reflexivity | flat_fields | done |].
    do 3 (eapply reader_cons; [solve [eauto 3 with fields] |]).
    rewrite (get_fd_ok conn f3 mi mfd) by (done || lia). apply reader_ret.
  - destruct (marshal_fd mfd (fun '(ep, idx) => send ep id PINOS_CLIENT_NODE_EVENT_ADD_MEM
      (pod_struct 0 [int dir; int p; int mid; ident ty; int idx; int fl; int off; int sz]))) as (ep1 & -> & Hr1 & Hs1).
    fold f3 mi in Hr1 |- *. pose proof (type_lookup_u32 _ _ _ Htl).
    apply crosses_send; try done; [flat_fields |].
    eapply (understood_remap types _ _ _ _ (enc_args [int dir; int p; int mid; ident ty'; int mi; int fl; int off; int sz]));
      [reflexivity | trans_fields | done |].
    do 8 (eapply reader_cons; [solve [eauto 3 with fields] |]).
    rewrite (get_fd_ok conn f3 mi mfd) by (done || lia). apply reader_ret.
Qed.
End Descriptors.

(** ** Node information *)

Definition node_info_args (i : PinosNodeInfo) : list arg :=
  [int (ni_id i); long (ni_change_mask i); string (ni_name i); int (ni_max_inputs i);
   int (ni_n_inputs i); int (zlen (ni_input_formats i))] ++ map pod (ni_input_formats i) ++
  [int (ni_max_outputs i); int (ni_n_outputs i); int (zlen (ni_output_formats i))] ++
  map pod (ni_output_formats i) ++
  [int (ni_state i); string (ni_error i); dict_size (ni_props i)] ++ dict_items (ni_props i).

Definition node_info_ok (i : PinosNodeInfo) : Prop :=
  is_u32 (ni_id i) /\ str_ok (ni_name i) /\ is_u32 (ni_max_inputs i) /\ is_u32 (ni_n_inputs i) /\
  zlen (ni_input_formats i) < 2 ^ 31 /\ is_u32 (ni_max_outputs i) /\ is_u32 (ni_n_outputs i) /\
  zlen (ni_output_formats i) < 2 ^ 31 /\ is_result (ni_state i) /\ str_ok (ni_error i) /\ dict_ok (ni_props i).

(** what the server publishes about a node reaches the client with the formats of its ports
    translated to the client's types, the node state with its sign (an error is -1), the
    error text and the properties. *)
Theorem node_info_roundtrip ep v f id i ins outs :
  ready ep v f -> is_u32 id -> node_info_ok i ->
  Forall2 (obj_translated types) (ni_input_formats i) ins -> Forall2 (obj_translated types) (ni_output_formats i) outs ->
  fits (struct_payload (node_info_args i)) ->
  let ann := announcement PINOS_CORE_EVENT_UPDATE_TYPES ep in
  Forall (fun m => fits (m_payload m)) ann ->
  crosses ep v f id PINOS_NODE_EVENT_INFO ann (struct_payload (node_info_args i))
    (S.marshal_info_event ep id (NodeInfo i)) [C.node_demarshal_info types]
    (NodeInfo (mkNodeInfo (ni_id i) (u32 (ni_change_mask i)) (recv_str (ni_name i)) (ni_max_inputs i) (ni_n_inputs i) ins
                 (ni_max_outputs i) (ni_n_outputs i) outs (ni_state i) (recv_str (ni_error i)) (recv_dict (ni_props i)))).
Proof.
  intros Hr Hid (? & ? & ? & ? & ? & ? & ? & ? & Hst & ? & ?) Hin Hout Hfit ann Hann.
  destruct (objs_are_objects _ _ _ Hin) as (? & ? & Hlin). destruct (objs_are_objects _ _ _ Hout) as (? & ? & Hlout).
  assert (zlen ins < 2 ^ 31 /\ zlen outs < 2 ^ 31) as [? ?] by lia.
  cbn [S.marshal_info_event]. unfold S.node_marshal_info, S.server_marshal. fold (node_info_args i).
  apply crosses_marshal; try done; [unfold node_info_args; flat_fields |].
  set (i' := mkNodeInfo (ni_id i) (ni_change_mask i) (ni_name i) (ni_max_inputs i) (ni_n_inputs i) ins
               (ni_max_outputs i) (ni_n_outputs i) outs (ni_state i) (ni_error i) (ni_props i)).
  eapply (understood_remap types _ _ _ _ (enc_args (node_info_args i'))); [reflexivity | | exact Hfit |];
    unfold node_info_args; cbn [app i' ni_id ni_change_mask ni_name ni_max_inputs ni_n_inputs ni_input_formats
      ni_max_outputs ni_n_outputs ni_output_formats ni_state ni_error ni_props].
  - rewrite Hlin, Hlout. unfold dict_size. trans_fields.
  - do 6 (eapply reader_cons; [solve [eauto 3 with fields] |]). eapply reader_append; [solve [eauto 3 with fields] |].
    do 3 (eapply reader_cons; [solve [eauto 3 with fields] |]). eapply reader_append; [solve [eauto 3 with fields] |].
    eapply reader_cons; [apply reader_word_arg |]. do 2 (eapply reader_cons; [solve [eauto 3 with fields] |]).
    eapply reader_last; [solve [eauto 3 with fields] |]. rewrite i32_u32 by done. apply reader_ret.
Qed.
End RoundTrips.

(** ** Witnesses *)

Definition sample_format' : ptree :=
  TObject 0 5 [TPropIds 7 2 5 [9; 7]; TProp 9 0 SPA_POD_TYPE_INT 4 (le32 44100); TLeaf SPA_POD_TYPE_INT (le32 3)].

Lemma sample_translated : obj_translated sample_types (tree_pod sample_format) (tree_pod sample_format').
Proof.
  exists sample_format, sample_format'. split_and!; [| done | done | by vm_compute | done].
  cbn [sample_format tree_ok foldr]. split_and!; first [repeat (apply Forall_cons; split; [by vm_compute |]); apply Forall_nil_2 | by vm_compute].
Qed.

Definition sample_info : SpaPortInfo := mkPortInfo 1 44100 1024 (2 ^ 32 + 20) [tree_pod sample_format] None.
Definition sample_update : client_node_method :=
  CnPortUpdate 0 1 15 [tree_pod sample_format] (Some (tree_pod sample_format)) None (Some sample_info).
Definition sample_update' : client_node_method :=
  CnPortUpdate 0 1 15 [tree_pod sample_format'] (Some (tree_pod sample_format')) None
    (Some (recv_port_info sample_info [tree_pod sample_format'])).

Lemma client_node_method_roundtrip_witness :
  crosses sample_endpoint [] [] 3 (cn_method_opcode sample_update)
    (announcement PINOS_CORE_METHOD_UPDATE_TYPES sample_endpoint) (cn_method_payload sample_update)
    (C.marshal_client_node_method sample_endpoint 3 sample_update)
    (S.pinos_protocol_native_server_client_node_demarshal sample_types) sample_update'.
Proof.
  apply client_node_method_roundtrip.
  - apply sample_ready.
  - by vm_compute.
  - split_and!; first [apply Forall_nil_2 | by vm_compute].
  - pose proof sample_translated as Ht. apply cmr_port_update; [| | constructor |].
    + by apply Forall2_cons; split.
    + by constructor.
    + apply (pir_some sample_types sample_info). by apply Forall2_cons; split.
  - by vm_compute.
  - apply sample_announcement.
Defined.

Definition sample_buffers : list PinosClientNodeBuffer :=
  [mkNodeBuffer 1 0 4096 0 [mkMeta 1 32; mkMeta 2 24] [mkData 2 0 0 64 1024]].
Definition sample_buffers' : list PinosClientNodeBuffer :=
  [mkNodeBuffer 1 0 4096 0 [mkMeta 5 32; mkMeta 9 24] [mkData 9 0 0 64 1024]].

Lemma client_node_event_roundtrip_witness :
  let e := CnUseBuffers 12 1 0 sample_buffers in
  crosses sample_endpoint [] [] 3 (cn_event_opcode e)
    (announcement PINOS_CORE_EVENT_UPDATE_TYPES sample_endpoint) (struct_payload (cn_event_args e))
    (S.marshal_client_node_event sample_endpoint 3 e)
    (cn_table sample_types pinos_connection_new) (CnUseBuffers 12 1 0 sample_buffers').
Proof.
  intros e. apply client_node_event_roundtrip.
  - apply sample_ready.
  - by vm_compute.
  - apply cer_use_buffers; [by vm_compute | by vm_compute | by vm_compute | by vm_compute |].
    apply Forall2_cons; split; [| constructor].
    split_and!; lazymatch goal with
    | |- Forall2 _ _ _ => repeat (apply Forall2_cons; split; [split_and!; by vm_compute |]); constructor
    | |- _ => by vm_compute
    end.
  - by vm_compute.
  - apply sample_announcement.
Defined.

Definition receiver (f : list Z) : PinosConnectionImpl :=
  mkConn (mkConnBuf [] 0 0 f 0 0 false) (cn_out pinos_connection_new).

Lemma client_node_fd_roundtrip_witness :
  crosses sample_endpoint [] [7; 8] 3 PINOS_CLIENT_NODE_EVENT_DONE
    (announcement PINOS_CORE_EVENT_UPDATE_TYPES sample_endpoint) (struct_payload [int 0; int 1])
    (S.marshal_client_node_event sample_endpoint 3 (CnDone 7 8)) (cn_table sample_types (receiver [7; 8])) (CnDone 7 8).
Proof.
  assert (is_u32 3 /\ is_u32 0 /\ is_u32 1) as (? & ? & ?) by by vm_compute.
  refine (proj1 (client_node_fd_roundtrip sample_types sample_endpoint [] [] 3 (receiver [7; 8])
    sample_ready _ _ (sample_announcement _) 7 8 9 0 0 0 0 0 1 5 0 _ _ _ _ _ _ _ _ _ _) _); by vm_compute.
Defined.

Definition sample_node : PinosNodeInfo :=
  mkNodeInfo 3 127 (Some [110]) 1 1 [tree_pod sample_format] 0 0 [] (-1) (Some [101]) sample_props.

Lemma node_info_roundtrip_witness :
  crosses sample_endpoint [] [] 3 PINOS_NODE_EVENT_INFO
    (announcement PINOS_CORE_EVENT_UPDATE_TYPES sample_endpoint) (struct_payload (node_info_args sample_node))
    (S.marshal_info_event sample_endpoint 3 (NodeInfo sample_node)) [C.node_demarshal_info sample_types]
    (NodeInfo (mkNodeInfo 3 (u32 127) (recv_str (Some [110])) 1 1 [tree_pod sample_format'] 0 0 [] (-1)
       (recv_str (Some [101])) (recv_dict sample_props))).
Proof.
  apply (node_info_roundtrip sample_types sample_endpoint [] [] 3 sample_node).
  - apply sample_ready.
  - by vm_compute.
  - split_and!; lazymatch goal with
    | |- str_ok _ => by repeat constructor
    | |- dict_ok _ => split; [by vm_compute |]; repeat (apply Forall_cons; split; [split; by repeat constructor |]); apply Forall_nil_2
    | |- _ => by vm_compute
    end.
  - constructor; [apply sample_translated | constructor].
  - constructor.
  - by vm_compute.
  - apply sample_announcement.
Defined.
