(* ===== verification/Session.v ===== *)
(** A whole session on the core object: the calls one end makes, the flush, the
    stream, the dispatcher of the other end and the calls it makes there.

    [CoreProtocol] is what the two directions have in common: the methods the client
    calls on the core, and the events the server's core sends. The session theorems
    are proved against that interface, and hold for both directions. *)
From S2P Require Import Prelude Defs Map Pod PodUtils PodTheory Connection Protocol Remap Interfaces Endpoint ProtocolTheory Dispatch.

(** One kind of message about the core object, how it is sent and how it is read. *)
Class CoreProtocol `{Heap} (A : Type) := {
  cp_opcode : A -> Z;
  cp_args : A -> list arg;
  cp_ok : A -> Prop;
  cp_recv : A -> A;
  cp_table : list (bytes -> Z -> outcome A);
  cp_marshal : Endpoint -> Z -> A -> outcome Endpoint;
  (** the announcement of types, which is itself such a message *)
  cp_types : Z -> list str -> A;
  cp_is_types : A -> bool;
  cp_types_opcode : Z;
  cp_opcode_byte a : 0 <= cp_opcode a < 256;
  cp_types_message n l : cp_opcode (cp_types n l) = cp_types_opcode /\ cp_args (cp_types n l) = types_args n l;
  cp_understood a : cp_ok a -> fits (struct_payload (cp_args a)) ->
    understood cp_table (cp_opcode a) (struct_payload (cp_args a)) (cp_recv a);
  cp_crosses ep v f id a : ready ep v f -> is_u32 id -> cp_ok a -> fits (struct_payload (cp_args a)) ->
    let ann := if cp_is_types a then [] else announcement cp_types_opcode ep in
    Forall (fun m => fits (m_payload m)) ann ->
    crosses ep v f id (cp_opcode a) ann (struct_payload (cp_args a)) (cp_marshal ep id a) cp_table (cp_recv a)
}.

(** ** The two directions *)

#[export] Program Instance core_methods `{Heap} : CoreProtocol core_method := {|
  cp_opcode := core_method_opcode;
  cp_args := core_method_args;
  cp_ok := core_method_ok;
  cp_recv := recv_core_method;
  cp_table := S.pinos_protocol_native_server_core_demarshal;
  cp_marshal := C.marshal_core_method;
  cp_types := CoreUpdateTypes;
  cp_is_types := is_types_method;
  cp_types_opcode := PINOS_CORE_METHOD_UPDATE_TYPES
|}.
Next Obligation. by intros ? []. Qed.
Next Obligation. done. Qed.
Next Obligation. intros. by apply core_method_understood. Qed.
Next Obligation. intros. by apply core_method_roundtrip. Qed.

#[export] Program Instance core_events `{Heap} : CoreProtocol core_event := {|
  cp_opcode := core_event_opcode;
  cp_args := core_event_args;
  cp_ok := core_event_ok;
  cp_recv := recv_core_event;
  cp_table := C.pinos_protocol_native_client_core_demarshal;
  cp_marshal := S.marshal_core_event;
  cp_types := CoreEvUpdateTypes;
  cp_is_types := is_types_event;
  cp_types_opcode := PINOS_CORE_EVENT_UPDATE_TYPES
|}.
Next Obligation. by intros ? []. Qed.
Next Obligation. done. Qed.
Next Obligation. intros. by apply core_event_understood. Qed.
Next Obligation. intros. by apply core_event_roundtrip. Qed.

Section Session.
Context `{Heap} {A : Type} `{CoreProtocol A}.

(** ** Sending *)

(** The core object has id 0 at both ends. *)
Fixpoint call_all (ep : Endpoint) (calls : list A) : outcome Endpoint :=
  match calls with
  | [] => Done ep
  | a :: calls => let* ep := cp_marshal ep 0 a in call_all ep calls
  end.

Definition core_msg (a : A) : message := mkMsg 0 (cp_opcode a) (struct_payload (cp_args a)).

(** What is said before a call, in an endpoint that has announced [n] of its types. *)
Definition announced (n : Z) (types : list bytes) : list A :=
  if n =? zlen types then [] else [cp_types n (Some <$> drop (Z.to_nat n) types)].

(** Everything said in a session: the types are announced before the first call
    that is not itself an announcement. *)
Fixpoint said (n : Z) (types : list bytes) (calls : list A) : list A :=
  match calls with
  | [] => []
  | a :: calls =>
      if cp_is_types a then a :: said n types calls
      else announced n types ++ a :: said (zlen types) types calls
  end.

Definition sayable (a : A) : Prop := cp_ok a /\ fits (struct_payload (cp_args a)).

Lemma announcement_said ep : ep_core_id ep = 0 ->
  announcement cp_types_opcode ep = core_msg <$> announced (ep_n_types ep) (ep_types ep).
Proof.
  intros Hid. unfold announcement, announced. case_match; [done |]. cbn [fmap list_fmap]. unfold core_msg.
  destruct (cp_types_message (ep_n_types ep) (Some <$> drop (Z.to_nat (ep_n_types ep)) (ep_types ep))) as [-> ->].
  by rewrite Hid.
Qed.

Lemma fits_said l : Forall sayable l -> Forall (fun m => fits (m_payload m)) (core_msg <$> l).
Proof. intros Hl. apply Forall_fmap. eapply Forall_impl; [exact Hl |]. by intros a [_ Hf]. Qed.

Lemma enc_msgs_app l l' : enc_msgs (l ++ l') = enc_msgs l ++ enc_msgs l'.
Proof. unfold enc_msgs. by rewrite map_app, concat_app. Qed.

Lemma call_all_ok calls ep v f :
  ready ep v f -> ep_core_id ep = 0 -> Forall sayable (said (ep_n_types ep) (ep_types ep) calls) ->
  exists ep', call_all ep calls = Done ep' /\
    ready ep' (v ++ enc_msgs (core_msg <$> said (ep_n_types ep) (ep_types ep) calls)) f.
Proof.
  revert ep v. induction calls as [|a calls IH]; intros ep v Hr Hid Hsay.
  { exists ep. split; [done |]. unfold enc_msgs. simpl. by rewrite app_nil_r. }
  cbn [call_all].
  set (ann := if cp_is_types a then [] else announced (ep_n_types ep) (ep_types ep)).
  assert (said (ep_n_types ep) (ep_types ep) (a :: calls) =
    ann ++ a :: said (match ann with [] => ep_n_types ep | _ => zlen (ep_types ep) end) (ep_types ep) calls) as Heq.
  { cbn [said]. unfold ann, announced. destruct (cp_is_types a); [done |].
    by destruct (Z.eqb_spec (ep_n_types ep) (zlen (ep_types ep))) as [<- |]. }
  rewrite Heq in *. apply Forall_app in Hsay as [Hann [[Hok Hfit] Hsay]%Forall_cons].
  assert ((if cp_is_types a then [] else announcement cp_types_opcode ep) = core_msg <$> ann) as Hm
    by (unfold ann; destruct (cp_is_types a); [done | by apply announcement_said]).
  destruct (cp_crosses ep v f 0 a Hr) as (ep' & Hc & Hr' & [Hty Hid' Hn] & _); [done | done | done | |].
  { rewrite Hm. by apply fits_said. }
  rewrite Hc. cbn [obind]. rewrite Hm in Hr', Hn. fold (core_msg a) in Hr'.
  assert (ep_n_types ep' = match ann with [] => ep_n_types ep | _ => zlen (ep_types ep) end) as Hn'
    by (rewrite Hn; by destruct ann).
  destruct (IH ep' _ Hr') as (ep2 & Hcall & Hr2).
  - congruence.
  - by rewrite Hty, Hn'.
  - exists ep2. split; [exact Hcall |]. rewrite Hty, Hn' in Hr2.
    rewrite fmap_app, fmap_cons. rewrite !enc_msgs_app in *. rewrite <- app_assoc in Hr2.
    unfold enc_msgs in *. cbn [map concat] in *. rewrite app_nil_r, <- app_assoc in Hr2. exact Hr2.
Qed.

(** A session that says something leaves the connection with it in one flush. *)
Lemma call_and_flush ep calls k :
  ready ep [] [] -> ep_core_id ep = 0 -> calls <> [] -> Forall sayable (said (ep_n_types ep) (ep_types ep) calls) ->
  exists ep' conn, call_all ep calls = Done ep' /\ ep_connection ep' = Some conn /\
    exists buf out,
      pinos_connection_flush (cn_out conn) (replicate k SendIntr ++ [SendOk (buffer_size (cn_out conn))]) = Done (buf, Some out) /\
      sent_data out = enc_msgs (core_msg <$> said (ep_n_types ep) (ep_types ep) calls).
Proof.
  intros Hr Hid Hne Hsay. destruct (call_all_ok calls ep [] [] Hr Hid Hsay) as (ep' & Hc & [(conn & Hconn & Hh & Hf) _ _]).
  set (v := [] ++ enc_msgs _) in Hh.
  assert (buffer_size (cn_out conn) = zlen v) as Hsz by (destruct Hh as (? & _ & ? & _); done).
  assert (v <> []) as Hv.
  { unfold v. destruct calls as [|a calls]; [done |]. cbn [said]. case_match; [| unfold announced; case_match];
      unfold enc_msgs, enc_msg; cbn; by intros Hn%(f_equal length). }
  destruct (flush_spec (cn_out conn) v k (zlen v) [] Hh Hv) as (buf & out & Hfl & Hsent & _); [zlia |].
  rewrite <- Hsz in Hfl. rewrite to_nat_zlen, take_ge in Hsent by lia.
  exists ep', conn. split_and!; [done | done |]. by exists buf, out.
Qed.

Lemma core_msgs_ok l : Forall sayable l -> Forall msg_ok (core_msg <$> l).
Proof.
  intros Hl. apply Forall_fmap. eapply Forall_impl; [exact Hl |]. intros a [_ Hf]. unfold fits in Hf.
  split; [done |]. split; [apply cp_opcode_byte | simpl; lia].
Qed.

(** ** Receiving *)

Section Receiving.
Context {St : Type} (objects : St -> Map.PinosMap) (iface : St -> Z -> list (option (PinosDemarshalFunc St))).

(** What the receiving end does when one of these calls arrives. *)
Context (implementation : A -> St -> St).

Definition core_demarshal : list (option (PinosDemarshalFunc St)) :=
  map (fun fn => Some (fun data size st => let* a := fn data size in Done (implementation a st))) cp_table.

(** The core object is bound at id 0, and stays so. *)
Definition core_bound (st : St) : Prop :=
  resource_at objects st 0 <> 0 /\ iface st (resource_at objects st 0) = core_demarshal.
Context (Hstays : forall a st, core_bound st -> core_bound (implementation a st)).

Definition run_calls : list A -> St -> St := fun l st => foldl (fun st a => implementation (cp_recv a) st) st l.

Lemma core_msg_handled st a :
  core_bound st -> sayable a -> handles objects iface st (core_msg a) (implementation (cp_recv a) st).
Proof.
  intros [Hb Hi] [Hok Hfit]. destruct (cp_understood a Hok Hfit) as (fn & Hl & Hu).
  eapply handles_call; [done | |]; unfold method_at; cbn [core_msg m_dest m_opcode].
  - rewrite Hi. unfold core_demarshal. by rewrite list_lookup_fmap, Hl.
  - intros tail. simpl. by rewrite Hu.
Qed.

Lemma run_served l st :
  core_bound st -> Forall sayable l -> served objects iface (core_msg <$> l) st (run_calls l st) true.
Proof.
  intros Hb Hl. revert st Hb. induction Hl as [|a l Ha _ IH]; intros st Hb; [constructor |].
  eapply served_cons; [by apply core_msg_handled |]. apply IH. by apply Hstays.
Qed.

Context (disconnecting : St -> bool) (Hconnected : forall st, core_bound st -> disconnecting st = false).

Lemma run_followed l st :
  core_bound st -> Forall sayable l -> followed objects iface disconnecting (core_msg <$> l) st (run_calls l st).
Proof.
  intros Hb Hl. revert st Hb. induction Hl as [|a l Ha _ IH]; intros st Hb; [constructor |].
  eapply followed_cons; [by apply Hconnected | by apply core_msg_handled |]. apply IH. by apply Hstays.
Qed.
End Receiving.

Lemma reading_fresh s ms : sock_ok s -> sock_bytes s = enc_msgs ms -> reading (cn_in pinos_connection_new) s (enc_msgs ms).
Proof.
  intros Hs Hb. split; simpl; [done | done | done |].
  exists []. split_and!; try done. exists (fresh MAX_BUFFER_SIZE). simpl. split_and!; [done | done |].
  by rewrite zlen_nil, fresh_len by done.
Qed.
End Session.


(** the other direction: whatever events the server's core sends on a fresh connection, the
    client's dispatcher hands the same events, in the same order, to the client's
    handlers, as long as these do not disconnect. *)
Theorem server_session `{Heap} {St : Type} (objects : St -> Map.PinosMap) iface (implementation : core_event -> St -> St)
    (disconnecting : St -> bool) set_error ep events st k :
  ready ep [] [] -> ep_core_id ep = 0 -> events <> [] ->
  Forall sayable (said (ep_n_types ep) (ep_types ep) events) ->
  (forall e st, core_bound objects iface implementation st -> core_bound objects iface implementation (implementation e st)) ->
  (forall st, core_bound objects iface implementation st -> disconnecting st = false) ->
  core_bound objects iface implementation st ->
  exists ep' conn buf out,
    call_all ep events = Done ep' /\ ep_connection ep' = Some conn /\
    pinos_connection_flush (cn_out conn) (replicate k SendIntr ++ [SendOk (buffer_size (cn_out conn))]) = Done (buf, Some out) /\
    forall s n, sock_ok s -> sock_bytes s = sent_data out ->
      (2 * length (said (ep_n_types ep) (ep_types ep) events) + 1 <= n)%nat ->
      final (wakeups (on_context_data objects iface disconnecting set_error SPA_IO_IN) n (cn_in pinos_connection_new) s st)
        (run_calls implementation (said (ep_n_types ep) (ep_types ep) events) st) true.
Proof.
  intros Hr Hid Hne Hsay Hstays Hcon Hb.
  destruct (call_and_flush ep events k Hr Hid Hne Hsay) as (ep' & conn & Hc & Hconn & buf & out & Hfl & Hsent).
  exists ep', conn, buf, out. split_and!; [done | done | done |]. intros s n Hs Hbytes Hn.
  eapply follow_ok; [apply reading_fresh; [done | by rewrite Hbytes] | by apply core_msgs_ok | by apply run_followed |].
  unfold weight. rewrite length_fmap. simpl. lia.
Qed.

(** ** Witnesses *)

(** An end that logs its calls, with its core object at address 8. *)
Definition one_object : Map.PinosMap := Map.mkMap (Array.mkArray 8 64 64) [8] 0.
Definition log_call {A} (a : A) (log : list A) : list A := a :: log.
Definition log_iface `{CoreProtocol A} (log : list A) (p : Z) : list (option (PinosDemarshalFunc (list A))) :=
  if p =? 8 then core_demarshal log_call else [].

Lemma log_bound `{CoreProtocol A} (log : list A) : core_bound (fun _ => one_object) log_iface log_call log.
Proof. split; [by vm_compute | done]. Qed.

Definition sample_calls : list core_method := [CoreSync 5; CoreGetRegistry 1; CoreCreateNode (Some [97]) None (Some [([107], None)]) 7].
Definition sample_events : list core_event := [CoreDone 5; CoreError 5 (-18) (Some [98; 97; 100])].


Lemma server_session_witness :
  exists ep' conn buf out,
    call_all sample_endpoint sample_events = Done ep' /\ ep_connection ep' = Some conn /\
    pinos_connection_flush (cn_out conn) [SendOk (buffer_size (cn_out conn))] = Done (buf, Some out) /\
    forall s n, sock_ok s -> sock_bytes s = sent_data out -> (7 <= n)%nat ->
      final (wakeups (on_context_data (fun _ => one_object) log_iface (fun _ => false) id SPA_IO_IN) n (cn_in pinos_connection_new) s [])
        [CoreError 5 (-18) (Some [98; 97; 100]); CoreDone 5;
         CoreEvUpdateTypes 0 [Some [83; 112; 97]; Some [78; 111; 100; 101]]] true.
Proof.
  apply (server_session (fun _ => one_object) log_iface log_call (fun _ => false) id sample_endpoint sample_events [] 0).
  - exact sample_ready.
  - reflexivity.
  - discriminate.
  - repeat (apply Forall_cons; split; [split; [| by vm_compute] |]); [..| apply Forall_nil_2];
      cbn [cp_ok core_events core_event_ok]; split_and?; try by vm_compute; repeat constructor; by vm_compute.
  - intros. apply log_bound.
  - reflexivity.
  - apply log_bound.
Defined.
