(* ===== verification/Props.v ===== *)
(** [spa/lib/props.c] and [spa/lib/format.c]: filtering the properties of a format by
    those of another, the step that negotiates a format between two ports.

    Properties are read from memory (a pointer is an offset into it) and the result
    is built in a fixed buffer, whose bytes the code also rewrites behind the
    builder's back through a pointer to the property it just pushed. *)
From Stdlib Require Import SpecFloat.
From S2P Require Import Prelude Defs Pod PodUtils.

Definition SPA_POD_PROP_RANGE_NONE : Z := 0.
Definition SPA_POD_PROP_RANGE_MIN_MAX : Z := 1.
Definition SPA_POD_PROP_RANGE_STEP : Z := 2.
Definition SPA_POD_PROP_RANGE_ENUM : Z := 3.
Definition SPA_POD_PROP_RANGE_FLAGS : Z := 4.
Definition SPA_POD_PROP_RANGE_MASK : Z := 15.

(** ** Comparing values *)

(** A binary floating-point number with [p] significant bits from its bit pattern. *)
Definition float_of_bits (p e : Z) (bits : Z) : spec_float :=
  let sign := Z.testbit bits (p + e - 1) in
  let expo := Z.land (Z.shiftr bits (p - 1)) (2 ^ e - 1) in
  let mant := Z.land bits (2 ^ (p - 1) - 1) in
  let emin := 3 - 2 ^ (e - 1) - p in
  if expo =? 0 then match mant with Zpos m => S754_finite sign m emin | _ => S754_zero sign end
  else if expo =? 2 ^ e - 1 then (if mant =? 0 then S754_infinity sign else S754_nan)
  else match mant + 2 ^ (p - 1) with Zpos m => S754_finite sign m (emin + expo - 1) | _ => S754_nan end.

(** The conversion to [int]: towards zero, undefined outside its range. *)
Definition int_of_float (f : spec_float) : outcome Z :=
  match f with
  | S754_zero _ => Done 0
  | S754_finite s m e =>
      let v := if 0 <=? e then Zpos m * 2 ^ e else Zpos m / 2 ^ (- e) in
      let v := if s then - v else v in
      if (- 2 ^ 31 <=? v) && (v <? 2 ^ 31) then Done v else Undef
  | _ => Undef
  end.

(** [a - b] in the format, as an [int]. *)
Definition float_diff (p e a b : Z) : outcome Z :=
  int_of_float (SFsub p (2 ^ (e - 1)) (float_of_bits p e a) (float_of_bits p e b)).

(** [strcmp]: the difference of the first bytes that differ. *)
Fixpoint strcmp (a b : bytes) : outcome Z :=
  match a, b with
  | x :: a', y :: b' => if x =? y then (if x =? 0 then Done 0 else strcmp a' b') else Done (x - y)
  | _, _ => Undef
  end.

(** Differences of integers wrap around; those of 64-bit ones are then cut to [int]. *)
Definition compare_value (type : Z) (r1 r2 : bytes) : outcome Z :=
  if type =? SPA_POD_TYPE_INVALID then Done 0
  else if (type =? SPA_POD_TYPE_BOOL) || (type =? SPA_POD_TYPE_ID) then
    let* a := of_option (load32 0 r1) in let* b := of_option (load32 0 r2) in
    Done (if a =? b then 0 else 1)
  else if type =? SPA_POD_TYPE_INT then
    let* a := of_option (load32 0 r1) in let* b := of_option (load32 0 r2) in Done (i32 (a - b))
  else if type =? SPA_POD_TYPE_LONG then
    let* a := of_option (load64 0 r1) in let* b := of_option (load64 0 r2) in Done (i32 (a - b))
  else if type =? SPA_POD_TYPE_FLOAT then
    let* a := of_option (load32 0 r1) in let* b := of_option (load32 0 r2) in float_diff 24 8 a b
  else if type =? SPA_POD_TYPE_DOUBLE then
    let* a := of_option (load64 0 r1) in let* b := of_option (load64 0 r2) in float_diff 53 11 a b
  else if type =? SPA_POD_TYPE_STRING then strcmp r1 r2
  else if type =? SPA_POD_TYPE_RECTANGLE then
    let* w1 := of_option (load32 0 r1) in let* h1 := of_option (load32 4 r1) in
    let* w2 := of_option (load32 0 r2) in let* h2 := of_option (load32 4 r2) in
    Done (if (w1 =? w2) && (h1 =? h2) then 0 else if (w1 <? w2) || (h1 <? h2) then -1 else 1)
  else if type =? SPA_POD_TYPE_FRACTION then
    let* n1 := of_option (load32 0 r1) in let* d1 := of_option (load32 4 r1) in
    let* n2 := of_option (load32 0 r2) in let* d2 := of_option (load32 4 r2) in
    let x1 := u64 (n1 * d2) in let x2 := u64 (n2 * d1) in
    Done (if x1 <? x2 then -1 else if x1 >? x2 then 1 else 0)
  else Done 0.

(** ** Properties in memory *)

Definition prop_key (p : Z) (m : bytes) : outcome Z := of_option (load32 (p + 8) m).
Definition prop_flags (p : Z) (m : bytes) : outcome Z := of_option (load32 (p + 12) m).
Definition prop_value_size (p : Z) (m : bytes) : outcome Z := of_option (load32 (p + 16) m).
Definition prop_value_type (p : Z) (m : bytes) : outcome Z := of_option (load32 (p + 20) m).
Definition prop_values (p : Z) : Z := p + 24.

(** The division by the size of a value traps when it is 0. *)
Definition SPA_POD_PROP_N_VALUES (p : Z) (m : bytes) : outcome Z :=
  let* size := of_option (load32 p m) in
  let* vsize := prop_value_size p m in
  if vsize =? 0 then Undef else Done (i32 (u64 (size - 16) / vsize)).

Definition compare_at (type : Z) (m1 : bytes) (a1 : Z) (m2 : bytes) (a2 : Z) : outcome Z :=
  compare_value type (mem_from a1 m1) (mem_from a2 m2).

(** *** The default *)

Definition copy_value (m : bytes) (dst src size : Z) : outcome bytes :=
  let* v := of_option (mread src size m) in of_option (mwrite dst v m).

(** The loop over the alternatives: the one equal to [val], the first one otherwise. *)
Fixpoint best_value (n : nat) (m : bytes) (type val alt size : Z) (best : option Z) : outcome (option Z) :=
  match n with
  | O => Done best
  | S n' =>
      let* c := compare_at type m val m alt in
      if c =? 0 then Done (Some alt)
      else best_value n' m type val (alt + size) size (Some (default alt best))
  end.

Definition fix_default (m : bytes) (prop : Z) : outcome bytes :=
  let* vsize := prop_value_size prop m in
  let* vtype := prop_value_type prop m in
  let* flags := prop_flags prop m in
  let* n := SPA_POD_PROP_N_VALUES prop m in
  let nalt := n - 1 in
  let val := prop_values prop in
  let alt := val + vsize in
  let range := Z.land flags SPA_POD_PROP_RANGE_MASK in
  if (range =? SPA_POD_PROP_RANGE_MIN_MAX) || (range =? SPA_POD_PROP_RANGE_STEP) then
    let* c := compare_at vtype m val m alt in
    let* m := if c <? 0 then copy_value m val alt vsize else Done m in
    let alt := alt + vsize in
    let* c := compare_at vtype m val m alt in
    if c >? 0 then copy_value m val alt vsize else Done m
  else if range =? SPA_POD_PROP_RANGE_ENUM then
    let* best := best_value (Z.to_nat nalt) m vtype val alt vsize None in
    let* m := match best with Some b => copy_value m val b vsize | None => Done m end in
    if nalt =? 1 then
      let flags := Z.land (Z.land flags (u32 (Z.lnot SPA_POD_PROP_FLAG_UNSET))) (u32 (Z.lnot SPA_POD_PROP_RANGE_MASK)) in
      of_option (mwrite (prop + 12) (le32 flags) m)
    else Done m
  else Done m.

(** ** The filter *)

Local Abbreviation builder := (SpaPODBuilder Fixed).

Definition find_prop (pod : bytes) (size key : Z) : outcome (option Z) := foreach_find (length pod) pod 0 size key.

(** [np->body.flags |= flags], straight into the buffer. *)
Definition add_flags (b : builder) (np flags : Z) : outcome builder :=
  let* old := prop_flags np (fixed_data (bw b)) in
  let* d := of_option (mwrite (np + 12) (le32 (Z.lor old flags)) (fixed_data (bw b))) in
  Done (mkBuilder (mkFixed d (fixed_size (bw b))) (offset b) (stack b) (in_array b) (first b)).

Definition raw_value (b : builder) (m : bytes) (a size : Z) : outcome builder :=
  let* v := of_option (mread a size m) in
  let* (b, _) := spa_pod_builder_raw b v in Done b.

(** [a, a + size, ...]: where the [n] values from [a] on are. *)
Definition pointers (n a size : Z) : list Z := map (fun i => a + Z.of_nat i * size) (seq 0 (Z.to_nat n)).

Fixpoint for_each {S} (f : Z -> S -> outcome S) (ps : list Z) (s : S) : outcome S :=
  match ps with
  | [] => Done s
  | p :: ps' => let* s := f p s in for_each f ps' s
  end.

(** One value: copied and counted, or not. *)
Definition copy_if (test : outcome bool) (m : bytes) (a size : Z) (s : builder * Z) : outcome (builder * Z) :=
  let* t := test in
  if t then let* b := raw_value (fst s) m a size in Done (b, snd s + 1) else Done s.

(** [compare (a, lo) < 0] and [compare (a, hi) > 0] skip the value. *)
Definition inside (type : Z) (m : bytes) (a : Z) (mr : bytes) (lo hi : Z) : outcome bool :=
  let* c := compare_at type m a mr lo in
  if c <? 0 then Done false
  else let* c := compare_at type m a mr hi in Done (negb (c >? 0)).

Inductive filtered := Filtered (b : builder) | FilterError (res : Z) (b : builder).

(** What the cases have in common: nothing copied is incompatible. *)
Definition finish_enum (s : builder * Z) (np : Z) : outcome filtered :=
  if snd s =? 0 then Done (FilterError SPA_RESULT_INCOMPATIBLE_PROPS (fst s))
  else let* b := add_flags (fst s) np (Z.lor SPA_POD_PROP_RANGE_ENUM SPA_POD_PROP_FLAG_UNSET) in Done (Filtered b).

Section Cases.
Context (type : Z) (m1 m2 : bytes) (alt1 size1 nalt1 alt2 size2 nalt2 : Z).

(** The alternatives of the new property, for each combination of ranges. *)
Definition filter_values (b : builder) (np rt1 rt2 : Z) : outcome filtered :=
  let both r1 r2 := (rt1 =? r1) && (rt2 =? r2) in
  let NONE := SPA_POD_PROP_RANGE_NONE in
  let ENUM := SPA_POD_PROP_RANGE_ENUM in
  let MIN_MAX := SPA_POD_PROP_RANGE_MIN_MAX in
  let STEP := SPA_POD_PROP_RANGE_STEP in
  let FLAGS := SPA_POD_PROP_RANGE_FLAGS in
  if both NONE NONE || both NONE ENUM || both ENUM NONE || both ENUM ENUM then
    let* s := for_each (fun a1 => for_each (fun a2 =>
        copy_if (let* c := compare_at type m1 a1 m2 a2 in Done (c =? 0)) m1 a1 size1)
      (pointers nalt2 alt2 size2)) (pointers nalt1 alt1 size1) (b, 0) in
    finish_enum s np
  else if both NONE MIN_MAX || both ENUM MIN_MAX then
    let* s := for_each (fun a1 => copy_if (inside type m1 a1 m2 alt2 (alt2 + size2)) m1 a1 size1)
      (pointers nalt1 alt1 size1) (b, 0) in
    finish_enum s np
  else if both NONE STEP || both ENUM STEP then Done (FilterError SPA_RESULT_NOT_IMPLEMENTED b)
  else if both MIN_MAX NONE || both MIN_MAX ENUM then
    let* s := for_each (fun a2 => copy_if (inside type m2 a2 m1 alt1 (alt1 + size1)) m2 a2 size2)
      (pointers nalt2 alt2 size2) (b, 0) in
    finish_enum s np
  else if both MIN_MAX MIN_MAX then
    let* c := compare_at type m1 alt1 m2 alt2 in
    let* b := if c <? 0 then raw_value b m2 alt2 size2 else raw_value b m1 alt1 size1 in
    let alt1 := alt1 + size1 in
    let alt2 := alt2 + size2 in
    let* c := compare_at type m1 alt1 m2 alt2 in
    let* b := if c <? 0 then raw_value b m1 alt1 size1 else raw_value b m2 alt2 size2 in
    let* b := add_flags b np (Z.lor SPA_POD_PROP_RANGE_MIN_MAX SPA_POD_PROP_FLAG_UNSET) in
    Done (Filtered b)
  else if both NONE FLAGS || both MIN_MAX STEP || both MIN_MAX FLAGS || both ENUM FLAGS ||
          both STEP NONE || both STEP MIN_MAX || both STEP STEP || both STEP ENUM || both STEP FLAGS ||
          both FLAGS NONE || both FLAGS MIN_MAX || both FLAGS STEP || both FLAGS ENUM || both FLAGS FLAGS
  then Done (FilterError SPA_RESULT_NOT_IMPLEMENTED b)
  else Done (Filtered b).
End Cases.

(** The start of the alternatives and their number. *)
Definition alternatives (p : Z) (m : bytes) : outcome (Z * Z) :=
  let* n := SPA_POD_PROP_N_VALUES p m in
  let* flags := prop_flags p m in
  let* vsize := prop_value_size p m in
  if negb (Z.land flags SPA_POD_PROP_FLAG_UNSET =? 0) then Done (prop_values p + vsize, n - 1)
  else Done (prop_values p, 1).

(** The local [SpaPODFrame f]; it is always the innermost one. *)
Definition f : nat := 0.

(** The body of the loop for a property of [props] with its counterpart in [filter]. *)
Definition filter_prop (b : builder) (m1 : bytes) (p1 : Z) (m2 : bytes) (p2 : Z) : outcome filtered :=
  let* type1 := prop_value_type p1 m1 in
  let* type2 := prop_value_type p2 m2 in
  if negb (type1 =? type2) then Done (FilterError SPA_RESULT_INCOMPATIBLE_PROPS b)
  else
    let* flags1 := prop_flags p1 m1 in
    let* flags2 := prop_flags p2 m2 in
    let rt1 := Z.land flags1 SPA_POD_PROP_RANGE_MASK in
    let rt2 := Z.land flags2 SPA_POD_PROP_RANGE_MASK in
    let* key := prop_key p1 m1 in
    let* b := spa_pod_builder_push_prop b f key 0 in
    let* (frame, _) := of_option (find_frame f (stack b)) in
    let np := f_ref frame in
    let* size1 := prop_value_size p1 m1 in
    let* size2 := prop_value_size p2 m2 in
    let* b := raw_value b m1 (p1 + 16) (8 + size1) in
    let* (alt1, nalt1) := alternatives p1 m1 in
    let* (alt2, nalt2) := alternatives p2 m2 in
    let* r := filter_values type1 m1 m2 alt1 size1 nalt1 alt2 size2 nalt2 b np rt1 rt2 in
    match r with
    | FilterError res b => Done (FilterError res b)
    | Filtered b =>
        let* b := spa_pod_builder_pop b f in
        let* d := fix_default (fixed_data (bw b)) np in
        Done (Filtered (mkBuilder (mkFixed d (fixed_size (bw b))) (offset b) (stack b) (in_array b) (first b)))
    end.

(** [SPA_POD_FOREACH (props, props_size, pr)]; every turn moves on by 8 bytes or more. *)
Fixpoint filter_loop (fuel : nat) (b : builder) (props : bytes) (iter last : Z) (filter : option (bytes * Z)) :
    outcome filtered :=
  if iter <? last then
    match fuel with
    | O => Undef
    | S fuel' =>
        let* type := pod_type_at iter props in
        let* size := pod_size_at iter props in
        let next := iter + SPA_ROUND_UP_N size 8 in
        if negb (type =? SPA_POD_TYPE_PROP) then filter_loop fuel' b props next last filter
        else
          let* key := prop_key iter props in
          let* p2 := match filter with None => Done None | Some (fl, n) => find_prop fl n key end in
          match filter, p2 with
          | Some (fl, _), Some p2 =>
              let* r := filter_prop b props iter fl p2 in
              match r with
              | FilterError res b => Done (FilterError res b)
              | Filtered b => filter_loop fuel' b props next last filter
              end
          | _, _ =>
              let* d := of_option (mread iter (u32 size) props) in
              let* (b, _) := spa_pod_builder_raw_padded b d in
              filter_loop fuel' b props next last filter
          end
    end
  else Done (Filtered b).

Definition spa_props_filter (b : builder) (props : bytes) (props_size : Z) (filter : option (bytes * Z)) :
    outcome (Z * builder) :=
  let* r := filter_loop (length props) b props 0 props_size filter in
  Done (match r with Filtered b => (SPA_RESULT_OK, b) | FilterError res b => (res, b) end).

(** ** Formats *)

(** [sizeof (SpaFormat)]: the header, the id and type of the object, and two aligned ids. *)
Definition sizeof_SpaFormat : Z := 48.
Definition SPA_FORMAT_MEDIA_TYPE (format : bytes) : outcome Z := of_option (load32 24 format).
Definition SPA_FORMAT_MEDIA_SUBTYPE (format : bytes) : outcome Z := of_option (load32 40 format).

Section Format.
Context `{Heap}.

(** The structure is copied with the padding behind each id, whatever it holds. *)
Definition spa_pod_builder_push_format (b : builder) (fid : nat) (format_type media_type media_subtype : Z) : outcome builder :=
  let p := pod_header 40 SPA_POD_TYPE_OBJECT ++ le32 0 ++ le32 format_type ++
           pod_header 4 SPA_POD_TYPE_ID ++ le32 media_type ++ fresh 4 ++
           pod_header 4 SPA_POD_TYPE_ID ++ le32 media_subtype ++ fresh 4 in
  let* (b, ref) := spa_pod_builder_raw b p in
  Done (spa_pod_builder_push b fid 40 SPA_POD_TYPE_OBJECT ref).

(** The contents of a format: its memory from the first property on, and their size. *)
Definition format_contents (format : bytes) : outcome (bytes * Z) :=
  let* size := pod_size_at 0 format in Done (mem_from sizeof_SpaFormat format, u32 (size - sizeof_SpaFormat)).

Definition spa_format_filter (format filter : option bytes) (result : builder) : outcome (Z * builder) :=
  match format with
  | None => Done (SPA_RESULT_INVALID_ARGUMENTS, result)
  | Some format =>
      match filter with
      | None =>
          let* size := pod_size_at 0 format in
          let* d := of_option (mread 0 (u32 size) format) in
          let* (b, _) := spa_pod_builder_raw_padded result d in
          Done (SPA_RESULT_OK, b)
      | Some filter =>
          let* t1 := SPA_FORMAT_MEDIA_TYPE filter in let* t2 := SPA_FORMAT_MEDIA_TYPE format in
          let* s1 := SPA_FORMAT_MEDIA_SUBTYPE filter in let* s2 := SPA_FORMAT_MEDIA_SUBTYPE format in
          if negb (t1 =? t2) || negb (s1 =? s2) then Done (SPA_RESULT_INVALID_MEDIA_TYPE, result)
          else
            let* type := of_option (load32 12 filter) in
            let* b := spa_pod_builder_push_format result (S f) type t1 s1 in
            let* (props, n) := format_contents format in
            let* fl := format_contents filter in
            let* (res, b) := spa_props_filter b props n (Some fl) in
            let* b := spa_pod_builder_pop b (S f) in
            Done (res, b)
      end
  end.
End Format.
