(* ===== verification/PropsTheory.v ===== *)
(** What filtering properties means: the specification on lists of values, the
    refinement theorem that the code in [Props] computes it, and what the
    specification promises about the values it lets through. *)
From S2P Require Import Prelude Defs Pod PodUtils PodTheory Props.

(** ** The specification *)

(** A property: its default first, then the alternatives. *)
Record prop := mkProp { pr_key : Z; pr_flags : Z; pr_type : Z; pr_size : Z; pr_vals : list bytes }.

Definition prop_range (p : prop) : Z := Z.land (pr_flags p) SPA_POD_PROP_RANGE_MASK.
Definition prop_unset (p : prop) : bool := negb (Z.land (pr_flags p) SPA_POD_PROP_FLAG_UNSET =? 0).

(** From the first allowed value on; how many of them count. *)
Definition choices (p : prop) : list bytes := if prop_unset p then tail (pr_vals p) else pr_vals p.
Definition alts (p : prop) : list bytes := if prop_unset p then tail (pr_vals p) else take 1 (pr_vals p).

Definition cmp (t : Z) (a b : bytes) : Z := match compare_value t a b with Done c => c | _ => 0 end.

Definition nth_choice (p : prop) (i : nat) : bytes := default [] (choices p !! i).
Definition lower (p : prop) : bytes := nth_choice p 0.
Definition upper (p : prop) : bytes := nth_choice p 1.

Definition equal_values (t : Z) (l1 l2 : list bytes) : list bytes :=
  flat_map (fun a => flat_map (fun b => if cmp t a b =? 0 then [a] else []) l2) l1.
Definition inside_values (t : Z) (l : list bytes) (lo hi : bytes) : list bytes :=
  flat_map (fun a => if cmp t a lo <? 0 then [] else if cmp t a hi >? 0 then [] else [a]) l.

Inductive verdict := Alts (vals : list bytes) (flags : Z) | Reject (res : Z).

Definition enum_flags : Z := 19.
Definition range_flags : Z := 17.
Definition enum_of (vals : list bytes) : verdict :=
  match vals with [] => Reject SPA_RESULT_INCOMPATIBLE_PROPS | _ => Alts vals enum_flags end.

Definition is_enum (r : Z) : bool := (r =? SPA_POD_PROP_RANGE_NONE) || (r =? SPA_POD_PROP_RANGE_ENUM).
Definition is_range (r : Z) : bool := r =? SPA_POD_PROP_RANGE_MIN_MAX.

(** Enumerations and ranges are intersected; what involves steps or flags is refused,
    and a range kind the code does not know keeps only the default. *)
Definition filter_alts (p1 p2 : prop) : verdict :=
  let t := pr_type p1 in
  let r1 := prop_range p1 in
  let r2 := prop_range p2 in
  if is_enum r1 && is_enum r2 then enum_of (equal_values t (alts p1) (alts p2))
  else if is_enum r1 && is_range r2 then enum_of (inside_values t (alts p1) (lower p2) (upper p2))
  else if is_range r1 && is_enum r2 then enum_of (inside_values t (alts p2) (lower p1) (upper p1))
  else if is_range r1 && is_range r2 then
    Alts [if cmp t (lower p1) (lower p2) <? 0 then lower p2 else lower p1;
          if cmp t (upper p1) (upper p2) <? 0 then upper p1 else upper p2] range_flags
  else if (r1 <=? 4) && (r2 <=? 4) then Reject SPA_RESULT_NOT_IMPLEMENTED
  else Alts [] 0.

(** The default is moved to the closest end of a range, or to an allowed value; a
    single value that is left becomes fixed. *)
Definition fix_prop (p : prop) : prop :=
  let t := pr_type p in
  let v := default [] (head (pr_vals p)) in
  let l := tail (pr_vals p) in
  let r := prop_range p in
  if is_range r then
    let v := if cmp t v (default [] (l !! 0%nat)) <? 0 then default [] (l !! 0%nat) else v in
    let v := if cmp t v (default [] (l !! 1%nat)) >? 0 then default [] (l !! 1%nat) else v in
    mkProp (pr_key p) (pr_flags p) t (pr_size p) (v :: l)
  else if r =? SPA_POD_PROP_RANGE_ENUM then
    let best := match index_of (fun a => cmp t v a =? 0) l with Some i => l !! i | None => head l end in
    mkProp (pr_key p)
      (if zlen l =? 1 then Z.land (pr_flags p) (Z.lnot (SPA_POD_PROP_FLAG_UNSET + SPA_POD_PROP_RANGE_MASK)) else pr_flags p)
      t (pr_size p) (default v best :: l)
  else p.

Definition filter_one (p1 p2 : prop) : prop + Z :=
  if pr_type p1 =? pr_type p2 then
    match filter_alts p1 p2 with
    | Alts vals flags => inl (fix_prop (mkProp (pr_key p1) flags (pr_type p1) (pr_size p1) (take 1 (pr_vals p1) ++ vals)))
    | Reject res => inr res
    end
  else inr SPA_RESULT_INCOMPATIBLE_PROPS.

(** The contents of an object: properties and pods of other types. *)
Inductive item := IProp (p : prop) | IPod (type : Z) (body : bytes).

Fixpoint find_key (key : Z) (l : list item) : option prop :=
  match l with
  | [] => None
  | IProp p :: l => if pr_key p =? key then Some p else find_key key l
  | IPod _ _ :: l => find_key key l
  end.

Fixpoint filter_items (l : list item) (fl : option (list item)) : list prop + Z :=
  match l with
  | [] => inl []
  | IPod _ _ :: l => filter_items l fl
  | IProp p :: l =>
      let q := match fl ≫= find_key (pr_key p) with None => inl p | Some p2 => filter_one p p2 end in
      match q with
      | inr res => inr res
      | inl q => match filter_items l fl with inl qs => inl (q :: qs) | inr res => inr res end
      end
  end.

(** ** Layout *)

Definition prop_body (p : prop) : bytes :=
  le32 (pr_key p) ++ le32 (pr_flags p) ++ pod_header (pr_size p) (pr_type p) ++ concat (pr_vals p).
Definition enc_prop (p : prop) : bytes := enc_pod SPA_POD_TYPE_PROP (prop_body p).
Definition enc_item (i : item) : bytes :=
  match i with IProp p => enc_prop p | IPod t body => enc_pod t body end.
Definition enc_items (l : list item) : bytes := concat (map enc_item l).

Record prop_ok (p : prop) : Prop := {
  po_words : is_u32 (pr_key p) /\ is_u32 (pr_flags p) /\ is_u32 (pr_type p);
  po_size : 0 < pr_size p;
  po_vals : Forall (fun v => zlen v = pr_size p) (pr_vals p);
  po_some : pr_vals p <> [];
  po_small : zlen (prop_body p) < 2 ^ 31
}.

Lemma zlen_concat_values {A} (l : list (list A)) n : Forall (fun v => zlen v = n) l -> zlen (concat l) = zlen l * n.
Proof. induction 1 as [|v l Hv _ IH]; [done |]. simpl. rewrite zlen_app, zlen_cons, Hv, IH. lia. Qed.

Lemma zlen_prop_body p : prop_ok p -> zlen (prop_body p) = 16 + zlen (pr_vals p) * pr_size p.
Proof. intros Hp. unfold prop_body. pose proof (zlen_concat_values _ _ (po_vals _ Hp)) as Hc. zlia. Qed.

(** Memory that holds a value, or a row of values, at an offset. *)
Definition value_at (m : bytes) (a : Z) (v : bytes) : Prop := exists pre post, m = pre ++ v ++ post /\ zlen pre = a.
Definition values_at (m : bytes) (a size : Z) (l : list bytes) : Prop :=
  value_at m a (concat l) /\ Forall (fun v => zlen v = size) l.
Definition prop_at (m : bytes) (a : Z) (p : prop) : Prop := value_at m a (pod_header (zlen (prop_body p)) SPA_POD_TYPE_PROP ++ prop_body p).

Lemma value_read m a v : value_at m a v -> mread a (zlen v) m = Some v.
Proof. intros (pre & post & -> & <-). by apply mread_app. Qed.

Lemma value_mem m a v : value_at m a v -> exists post, mem_from a m = v ++ post.
Proof. intros (pre & post & -> & <-). exists post. unfold mem_from. by rewrite to_nat_zlen, drop_app_length. Qed.

Lemma value_at_mid m a x y z : value_at m a (x ++ y ++ z) -> value_at m (a + zlen x) y.
Proof.
  intros (pre & post & -> & <-). exists (pre ++ x), (z ++ post). rewrite zlen_app. split; [by rewrite <- !app_assoc | done].
Qed.

Lemma value_load32 m a z : value_at m a (le32 z) -> load32 a m = Some (u32 z).
Proof. intros (pre & post & -> & <-). by apply load32_app. Qed.

Lemma values_at_nth m a size l i v : values_at m a size l -> l !! i = Some v -> value_at m (a + Z.of_nat i * size) v.
Proof.
  intros [Hv Hl] Hi. pose proof (take_drop_middle l i v Hi) as Hsplit. rewrite <- Hsplit, concat_app in Hv. cbn [concat] in Hv.
  assert (zlen (concat (take i l)) = Z.of_nat i * size) as Hz.
  { rewrite (zlen_concat_values _ size) by by apply Forall_take. rewrite zlen_take. apply lookup_lt_Some in Hi. unfold zlen. lia. }
  rewrite <- Hz. by eapply value_at_mid.
Qed.

Lemma values_at_tail m a size v l : values_at m a size (v :: l) -> values_at m (a + size) size l.
Proof.
  intros [Hv [Hs Hl]%Forall_cons]. split; [| done]. cbn [concat] in Hv. rewrite <- (app_nil_r (concat l)) in Hv.
  rewrite <- Hs. by eapply value_at_mid.
Qed.

Section Fields.
Context (m : bytes) (a : Z) (p : prop) (Hat : prop_at m a p) (Hok : prop_ok p).

Lemma at_field pre x post :
  pod_header (zlen (prop_body p)) SPA_POD_TYPE_PROP ++ prop_body p = pre ++ x ++ post -> value_at m (a + zlen pre) x.
Proof. intros He. unfold prop_at in Hat. rewrite He in Hat. by eapply value_at_mid. Qed.

Lemma at_size : of_option (load32 a m) = Done (zlen (prop_body p)).
Proof.
  pose proof (at_field [] (le32 (zlen (prop_body p))) (le32 SPA_POD_TYPE_PROP ++ prop_body p)) as Hf.
  rewrite zlen_nil, Z.add_0_r in Hf. rewrite (value_load32 _ _ _ (Hf eq_refl)), u32_small; [done |].
  pose proof (po_small _ Hok). pose proof (zlen_nonneg (prop_body p)). unfold is_u32. lia.
Qed.

Lemma at_key : prop_key a m = Done (pr_key p).
Proof.
  unfold prop_key. rewrite (value_load32 _ _ (pr_key p)); [by rewrite u32_small by apply Hok |].
  exact (at_field (pod_header _ _) (le32 (pr_key p)) _ eq_refl).
Qed.

Lemma at_flags : prop_flags a m = Done (pr_flags p).
Proof.
  unfold prop_flags. rewrite (value_load32 _ _ (pr_flags p)); [by rewrite u32_small by apply Hok |].
  apply (at_field (pod_header (zlen (prop_body p)) SPA_POD_TYPE_PROP ++ le32 (pr_key p)) (le32 (pr_flags p))
    (pod_header (pr_size p) (pr_type p) ++ concat (pr_vals p))). by rewrite <- !app_assoc.
Qed.

Lemma zlen_vals_pos : 1 <= zlen (pr_vals p).
Proof.
  pose proof (po_some _ Hok) as Hne. destruct (pr_vals p) as [|v l]; [done |].
  rewrite zlen_cons. pose proof (zlen_nonneg l). lia.
Qed.

Lemma pr_size_u32 : is_u32 (pr_size p).
Proof.
  pose proof (po_small _ Hok) as Hs. rewrite zlen_prop_body in Hs by done. pose proof (po_size _ Hok).
  pose proof zlen_vals_pos.
  unfold is_u32. nia.
Qed.

Lemma at_value_size : prop_value_size a m = Done (pr_size p).
Proof.
  unfold prop_value_size. rewrite (value_load32 _ _ (pr_size p)); [by rewrite u32_small by apply pr_size_u32 |].
  apply (at_field (pod_header (zlen (prop_body p)) SPA_POD_TYPE_PROP ++ le32 (pr_key p) ++ le32 (pr_flags p)) (le32 (pr_size p))
    (le32 (pr_type p) ++ concat (pr_vals p))). unfold prop_body, pod_header. by rewrite <- !app_assoc.
Qed.

Lemma at_value_type : prop_value_type a m = Done (pr_type p).
Proof.
  unfold prop_value_type. rewrite (value_load32 _ _ (pr_type p)); [by rewrite u32_small by apply Hok |].
  apply (at_field (pod_header (zlen (prop_body p)) SPA_POD_TYPE_PROP ++ le32 (pr_key p) ++ le32 (pr_flags p) ++ le32 (pr_size p)) (le32 (pr_type p))
    (concat (pr_vals p))). unfold prop_body, pod_header. by rewrite <- !app_assoc.
Qed.

Lemma at_values : values_at m (prop_values a) (pr_size p) (pr_vals p).
Proof.
  split; [| apply Hok]. unfold prop_values.
  apply (at_field (pod_header (zlen (prop_body p)) SPA_POD_TYPE_PROP ++ le32 (pr_key p) ++ le32 (pr_flags p) ++ pod_header (pr_size p) (pr_type p))
    (concat (pr_vals p)) []). unfold prop_body. by rewrite <- !app_assoc, app_nil_r.
Qed.

Lemma zlen_vals_small : 1 <= zlen (pr_vals p) < 2 ^ 31.
Proof.
  pose proof (po_small _ Hok) as Hs. rewrite zlen_prop_body in Hs by done. pose proof (po_size _ Hok).
  pose proof zlen_vals_pos.
  split; [done | nia].
Qed.

Lemma at_n_values : SPA_POD_PROP_N_VALUES a m = Done (zlen (pr_vals p)).
Proof.
  unfold SPA_POD_PROP_N_VALUES. rewrite at_size. cbn [obind]. rewrite at_value_size. cbn [obind].
  pose proof (po_size _ Hok). pose proof zlen_vals_small. pose proof (po_small _ Hok) as Hs.
  case_if; [lia |]. rewrite zlen_prop_body in * by done.
  replace (16 + _ - 16) with (zlen (pr_vals p) * pr_size p) by lia.
  rewrite u64_small by (unfold is_u64; nia). rewrite Z.div_mul by lia. f_equal.
  unfold i32. rewrite Z.mod_small by lia. lia.
Qed.

Lemma at_alternatives :
  exists alt, alternatives a m = Done (alt, zlen (alts p)) /\ values_at m alt (pr_size p) (choices p) /\ alts p `prefix_of` choices p.
Proof.
  unfold alternatives. rewrite at_n_values. cbn [obind]. rewrite at_flags. cbn [obind]. rewrite at_value_size. cbn [obind].
  fold (prop_unset p). unfold alts, choices. pose proof at_values as Hv. pose proof (po_some _ Hok) as Hne.
  destruct (prop_unset p).
  - eexists. split; [| split; [| done]].
    + do 2 f_equal. destruct (pr_vals p); [done |]. rewrite zlen_cons. simpl. lia.
    + destruct (pr_vals p) as [|v l]; [done |]. by eapply values_at_tail.
  - eexists. split; [| split; [exact Hv |]].
    + do 2 f_equal. by destruct (pr_vals p).
    + exists (drop 1 (pr_vals p)). by rewrite take_drop.
Qed.
End Fields.

(** ** Comparing, copying *)

Lemma obind_load {B} (o o' : option Z) (k k' : Z -> outcome B) c :
  (forall v, o = Some v -> o' = Some v) -> (forall v, k v = Done c -> k' v = Done c) ->
  (let* v := of_option o in k v) = Done c -> (let* v := of_option o' in k' v) = Done c.
Proof. intros Ho Hk. destruct o as [v|]; [| done]. rewrite (Ho v eq_refl). apply Hk. Qed.

Lemma strcmp_app a b x y c : strcmp a b = Done c -> strcmp (a ++ x) (b ++ y) = Done c.
Proof.
  revert b. induction a as [|u a IH]; intros [|w b]; simpl; try done.
  destruct (u =? w); [| done]. destruct (u =? 0); [done | apply IH].
Qed.

(** A comparison looks at the values only. *)
Lemma compare_value_app t a b x y c : compare_value t a b = Done c -> compare_value t (a ++ x) (b ++ y) = Done c.
Proof.
  unfold compare_value. repeat case_match; try done; try apply strcmp_app;
    repeat (apply obind_load; [intros ? ?; first [by apply load32_app_l | by apply load64_app_l] | intros ?]); done.
Qed.

Definition comparable (t : Z) (vs : list bytes) : Prop :=
  forall a b, a ∈ vs -> b ∈ vs -> exists c, compare_value t a b = Done c.

Lemma compare_at_ok t vs m1 a1 v1 m2 a2 v2 :
  comparable t vs -> v1 ∈ vs -> v2 ∈ vs -> value_at m1 a1 v1 -> value_at m2 a2 v2 ->
  compare_at t m1 a1 m2 a2 = Done (cmp t v1 v2).
Proof.
  intros Hc Hi1 Hi2 H1 H2. destruct (Hc v1 v2 Hi1 Hi2) as [c Hcmp]. unfold compare_at, cmp.
  destruct (value_mem _ _ _ H1) as [x ->]. destruct (value_mem _ _ _ H2) as [y ->].
  by rewrite (compare_value_app _ _ _ x y _ Hcmp), Hcmp.
Qed.

Local Abbreviation builder := (SpaPODBuilder Fixed).

Lemma raw_value_ok (b : builder) n bs st m a v :
  written b n bs st -> value_at m a v -> zlen bs + zlen v <= n ->
  exists b', raw_value b m a (zlen v) = Done b' /\ written b' n (bs ++ v) (grow_stack (zlen v) st).
Proof.
  intros Hb Hv Hroom. unfold raw_value. rewrite (value_read _ _ _ Hv). cbn [of_option obind].
  destruct (written_raw b n bs st v Hb Hroom) as (b' & -> & Hb' & _). by exists b'.
Qed.

(** A state of the copying loops: the bytes of [out] appended and counted. *)
Definition copying (n : Z) (bs : bytes) (st : list SpaPODFrame) (out : list bytes) (s : builder * Z) : Prop :=
  written (fst s) n (bs ++ concat out) (grow_stack (zlen (concat out)) st) /\ snd s = zlen out.

(** One step of a loop copies [contrib v] for the value [v] at the pointer. *)
Lemma copy_loop m a size l contrib (f : Z -> builder * Z -> outcome (builder * Z)) n bs st :
  values_at m a size l ->
  (forall out v p s, v ∈ l -> value_at m p v -> copying n bs st out s ->
    zlen bs + zlen (concat (out ++ contrib v)) <= n ->
    exists s', f p s = Done s' /\ copying n bs st (out ++ contrib v) s') ->
  forall out s, copying n bs st out s -> zlen bs + zlen (concat (out ++ flat_map contrib l)) <= n ->
  exists s', for_each f (pointers (zlen l) a size) s = Done s' /\ copying n bs st (out ++ flat_map contrib l) s'.
Proof.
  intros Hvs Hstep. unfold pointers. rewrite to_nat_zlen.
  assert (forall k l' out s, l = take k l ++ l' -> (k + length l' = length l)%nat -> copying n bs st out s ->
    zlen bs + zlen (concat (out ++ flat_map contrib l')) <= n ->
    exists s', for_each f (map (fun i => a + Z.of_nat i * size) (seq k (length l'))) s = Done s' /\
      copying n bs st (out ++ flat_map contrib l') s') as Hgen.
  { intros k l'. revert k. induction l' as [|v l' IH]; intros k out s Hl Hk Hs Hroom.
    { exists s. simpl. by rewrite app_nil_r. }
    assert (l !! k = Some v) as Hv.
    { rewrite Hl, lookup_app_r by (rewrite length_take; lia). rewrite length_take.
      simpl in Hk. by replace (k - k `min` length l)%nat with 0%nat by lia. }
    cbn [length seq map for_each]. cbn [flat_map] in Hroom |- *. rewrite app_assoc in Hroom |- *.
    destruct (Hstep out v (a + Z.of_nat k * size) s) as (s' & -> & Hs').
    - by eapply list_elem_of_lookup_2.
    - by eapply values_at_nth.
    - done.
    - rewrite concat_app, zlen_app in Hroom. pose proof (zlen_nonneg (concat (flat_map contrib l'))). lia.
    - cbn [obind]. apply IH; [| simpl in Hk; lia | done | done].
      rewrite (take_S_r _ _ v) by done. by rewrite <- app_assoc. }
  intros out s Hs Hroom. apply (Hgen 0%nat l); done.
Qed.

Lemma copying_same n bs st out s : copying n bs st out s -> copying n bs st (out ++ []) s.
Proof. by rewrite app_nil_r. Qed.

(** Copying one value, or not. *)
Lemma copy_if_ok (test : outcome bool) (t : bool) m p v size n bs st out s :
  test = Done t -> zlen v = size -> value_at m p v -> copying n bs st out s ->
  zlen bs + zlen (concat (out ++ if t then [v] else [])) <= n ->
  exists s', copy_if test m p size s = Done s' /\ copying n bs st (out ++ if t then [v] else []) s'.
Proof.
  intros -> <- Hv [Hb Hc] Hroom. unfold copy_if. cbn [obind]. destruct t; [| by exists s; rewrite app_nil_r].
  rewrite concat_app in Hroom. cbn [concat] in Hroom. rewrite app_nil_r, zlen_app in Hroom.
  destruct (raw_value_ok (fst s) n _ _ m p v Hb Hv) as (b' & -> & Hb'); [zlia |]. cbn [obind].
  eexists. split; [done |]. split; cbn [fst snd].
  - rewrite concat_app. cbn [concat]. by rewrite app_nil_r, app_assoc, zlen_app, <- grow_stack_add.
  - rewrite zlen_app, Hc. done.
Qed.

Lemma copying_start (b : builder) n bs st : written b n bs st -> copying n bs st [] (b, 0).
Proof.
  intros Hb. split; [| done]. simpl. rewrite app_nil_r, zlen_nil, grow_stack_0' by apply Hb. done.
Qed.

(** ** The alternatives of one property *)

Lemma values_at_prefix m a size l k : values_at m a size (l ++ k) -> values_at m a size l.
Proof.
  intros [(pre & post & -> & <-) Hl]. apply Forall_app in Hl as [Hl _]. split; [| done].
  exists pre, (concat k ++ post). split; [| done]. by rewrite concat_app, <- !app_assoc.
Qed.

Lemma add_flags_ok (b : builder) n pre h old post st fl :
  written b n (pre ++ h ++ le32 old ++ post) st -> zlen h = 12 ->
  exists b', add_flags b (zlen pre) fl = Done b' /\ written b' n (pre ++ h ++ le32 (Z.lor (u32 old) fl) ++ post) st.
Proof.
  intros [Hh Ho Hs Hz] H12. pose proof Hh as (_ & _ & _ & _ & rest & Hd). unfold add_flags, prop_flags.
  assert (zlen pre + 12 = zlen (pre ++ h)) as -> by zlia.
  rewrite Hd, <- !app_assoc, (app_assoc pre), load32_app by done. cbn [of_option obind].
  rewrite (app_assoc pre) in Hh.
  destruct (pw_patch_law (bw b) n (pre ++ h) (le32 old) post (le32 (Z.lor (u32 old) fl)) Hh) as (w' & Hp & Hh'); [done |].
  cbn [pw_patch Fixed_writer] in Hp. unfold fixed_patch in Hp. rewrite Hd, <- !app_assoc, (app_assoc pre) in Hp.
  destruct (mwrite _ _ _) as [d|] eqn:Hm; [| done]. cbn [of_option obind] in Hp |- *. injection Hp as <-.
  eexists. split; [done |]. split; cbn [bw Pod.offset Pod.stack]; [by rewrite <- app_assoc in Hh' | | done | done].
  rewrite Ho. zlia.
Qed.

(** What two properties need to be compared: values of one size, all comparable. *)
Record pair_ok (p1 p2 : prop) : Prop := {
  pk_size : pr_size p1 = pr_size p2;
  pk_compare : comparable (pr_type p1) (pr_vals p1 ++ pr_vals p2);
  pk_range1 : prop_range p1 = SPA_POD_PROP_RANGE_MIN_MAX -> (2 <= length (choices p1))%nat;
  pk_range2 : prop_range p2 = SPA_POD_PROP_RANGE_MIN_MAX -> (2 <= length (choices p2))%nat
}.

Lemma tail_subseteq {A} (l : list A) : tail l ⊆ l.
Proof. destruct l; [done |]. by apply list_subseteq_cons. Qed.
Lemma choices_subseteq p : choices p ⊆ pr_vals p.
Proof. unfold choices. destruct (prop_unset p); [apply tail_subseteq | done]. Qed.
Lemma alts_subseteq p : alts p ⊆ pr_vals p.
Proof.
  unfold alts. destruct (prop_unset p); [apply tail_subseteq |].
  intros v (i & Hi & _)%elem_of_take. by eapply list_elem_of_lookup_2.
Qed.

Lemma nth_choice_lookup p i : (i < length (choices p))%nat -> choices p !! i = Some (nth_choice p i).
Proof. intros [v Hv]%lookup_lt_is_Some_2. unfold nth_choice. by rewrite Hv. Qed.

(** The kinds of ranges the code tells apart. *)
Lemma range_kinds r : 0 <= r -> r = 0 \/ r = 1 \/ r = 2 \/ r = 3 \/ r = 4 \/
  ((r =? 0) = false /\ (r =? 1) = false /\ (r =? 2) = false /\ (r =? 3) = false /\ (r =? 4) = false /\ (r <=? 4) = false).
Proof. intros. repeat (rewrite Z.eqb_neq || rewrite Z.leb_gt). lia. Qed.

Section Alternatives.
Context (p1 p2 : prop) (m1 m2 : bytes) (alt1 alt2 : Z) (Hpair : pair_ok p1 p2).
Local Abbreviation t := (pr_type p1).
Local Abbreviation size := (pr_size p1).
Context (Hv1 : values_at m1 alt1 size (choices p1)) (Hv2 : values_at m2 alt2 size (choices p2)).
Context (Ha1 : alts p1 `prefix_of` choices p1) (Ha2 : alts p2 `prefix_of` choices p2).

Lemma in_vals1 v : v ∈ choices p1 -> v ∈ pr_vals p1 ++ pr_vals p2.
Proof. intros Hv. apply elem_of_app. left. by apply choices_subseteq. Qed.
Lemma in_vals2 v : v ∈ choices p2 -> v ∈ pr_vals p1 ++ pr_vals p2.
Proof. intros Hv. apply elem_of_app. right. by apply choices_subseteq. Qed.

Lemma alts_at1 : values_at m1 alt1 size (alts p1).
Proof. destruct Ha1 as [k Hk]. eapply values_at_prefix. by rewrite <- Hk. Qed.
Lemma alts_at2 : values_at m2 alt2 size (alts p2).
Proof. destruct Ha2 as [k Hk]. eapply values_at_prefix. by rewrite <- Hk. Qed.
Lemma alts_choice1 v : v ∈ alts p1 -> v ∈ choices p1.
Proof. destruct Ha1 as [k Hk]. intros Hv. rewrite Hk. apply elem_of_app. by left. Qed.
Lemma alts_choice2 v : v ∈ alts p2 -> v ∈ choices p2.
Proof. destruct Ha2 as [k Hk]. intros Hv. rewrite Hk. apply elem_of_app. by left. Qed.

Lemma value_size1 v : v ∈ choices p1 -> zlen v = size.
Proof. intros Hv. exact (proj1 (Forall_forall _ _) (proj2 Hv1) v Hv). Qed.
Lemma value_size2 v : v ∈ choices p2 -> zlen v = size.
Proof. intros Hv. exact (proj1 (Forall_forall _ _) (proj2 Hv2) v Hv). Qed.

Lemma bound_at1 i : (i < length (choices p1))%nat -> value_at m1 (alt1 + Z.of_nat i * size) (nth_choice p1 i) /\ nth_choice p1 i ∈ choices p1.
Proof.
  intros Hi%nth_choice_lookup. split; [by eapply values_at_nth | by eapply list_elem_of_lookup_2].
Qed.
Lemma bound_at2 i : (i < length (choices p2))%nat -> value_at m2 (alt2 + Z.of_nat i * size) (nth_choice p2 i) /\ nth_choice p2 i ∈ choices p2.
Proof.
  intros Hi%nth_choice_lookup. split; [by eapply values_at_nth | by eapply list_elem_of_lookup_2].
Qed.

Lemma copy_equal_ok n bs st s :
  copying n bs st [] s -> zlen bs + zlen (concat (equal_values t (alts p1) (alts p2))) <= n ->
  exists s', for_each (fun a1 => for_each (fun a2 =>
        copy_if (let* c := compare_at t m1 a1 m2 a2 in Done (c =? 0)) m1 a1 size)
      (pointers (zlen (alts p2)) alt2 size)) (pointers (zlen (alts p1)) alt1 size) s = Done s' /\
    copying n bs st (equal_values t (alts p1) (alts p2)) s'.
Proof.
  intros Hs Hroom. apply (copy_loop m1 alt1 size (alts p1) (fun a => flat_map (fun b => if cmp t a b =? 0 then [a] else []) (alts p2)))
    with (out := []); [apply alts_at1 | | done | done].
  intros out v p s1 Hv Hp Hs1 Hr1.
  apply (copy_loop m2 alt2 size (alts p2) (fun b => if cmp t v b =? 0 then [v] else [])); [apply alts_at2 | | done | done].
  intros out2 w q s2 Hw Hq Hs2 Hr2.
  apply copy_if_ok; [| by apply value_size1, alts_choice1 | done | done | done].
  rewrite (compare_at_ok t _ _ _ v _ _ w (pk_compare _ _ Hpair)); [done | | | done | done].
  - by apply in_vals1, alts_choice1.
  - by apply in_vals2, alts_choice2.
Qed.

Lemma inside_ok v m p mr lo hi alo ahi :
  v ∈ pr_vals p1 ++ pr_vals p2 -> lo ∈ pr_vals p1 ++ pr_vals p2 -> hi ∈ pr_vals p1 ++ pr_vals p2 ->
  value_at m p v -> value_at mr alo lo -> value_at mr ahi hi ->
  inside t m p mr alo ahi = Done (negb (cmp t v lo <? 0) && negb (cmp t v hi >? 0)).
Proof.
  intros Hv Hlo Hhi Hp Hl Hh. unfold inside.
  rewrite (compare_at_ok t _ _ _ v _ _ lo (pk_compare _ _ Hpair)) by done. cbn [obind]. destruct (cmp t v lo <? 0); [done |].
  by rewrite (compare_at_ok t _ _ _ v _ _ hi (pk_compare _ _ Hpair)) by done.
Qed.

Lemma inside_contrib v lo hi :
  (if cmp t v lo <? 0 then [] else if cmp t v hi >? 0 then [] else [v]) =
  (if negb (cmp t v lo <? 0) && negb (cmp t v hi >? 0) then [v] else []).
Proof. by destruct (cmp t v lo <? 0), (cmp t v hi >? 0). Qed.

Lemma copy_inside1_ok n bs st s :
  (2 <= length (choices p2))%nat ->
  copying n bs st [] s -> zlen bs + zlen (concat (inside_values t (alts p1) (lower p2) (upper p2))) <= n ->
  exists s', for_each (fun a1 => copy_if (inside t m1 a1 m2 alt2 (alt2 + size)) m1 a1 size)
      (pointers (zlen (alts p1)) alt1 size) s = Done s' /\
    copying n bs st (inside_values t (alts p1) (lower p2) (upper p2)) s'.
Proof.
  intros Hlen Hs Hroom. destruct (bound_at2 0) as [Hl Hli]; [lia |]. destruct (bound_at2 1) as [Hu Hui]; [lia |].
  apply (copy_loop m1 alt1 size (alts p1) (fun v => if cmp t v (lower p2) <? 0 then [] else if cmp t v (upper p2) >? 0 then [] else [v]))
    with (out := []); [apply alts_at1 | | done | done].
  intros out v p s1 Hv Hp Hs1. rewrite inside_contrib. intros Hr1.
  apply copy_if_ok; [| by apply value_size1, alts_choice1 | done | done | done].
  rewrite Z.add_0_r in Hl. rewrite Z.mul_1_l in Hu.
  apply inside_ok; [by apply in_vals1, alts_choice1 | by apply in_vals2 | by apply in_vals2 | done | done | done].
Qed.

Lemma copy_inside2_ok n bs st s :
  (2 <= length (choices p1))%nat ->
  copying n bs st [] s -> zlen bs + zlen (concat (inside_values t (alts p2) (lower p1) (upper p1))) <= n ->
  exists s', for_each (fun a2 => copy_if (inside t m2 a2 m1 alt1 (alt1 + size)) m2 a2 size)
      (pointers (zlen (alts p2)) alt2 size) s = Done s' /\
    copying n bs st (inside_values t (alts p2) (lower p1) (upper p1)) s'.
Proof.
  intros Hlen Hs Hroom. destruct (bound_at1 0) as [Hl Hli]; [lia |]. destruct (bound_at1 1) as [Hu Hui]; [lia |].
  apply (copy_loop m2 alt2 size (alts p2) (fun v => if cmp t v (lower p1) <? 0 then [] else if cmp t v (upper p1) >? 0 then [] else [v]))
    with (out := []); [apply alts_at2 | | done | done].
  intros out v p s1 Hv Hp Hs1. rewrite inside_contrib. intros Hr1.
  apply copy_if_ok; [| by apply value_size2, alts_choice2 | done | done | done].
  rewrite Z.add_0_r in Hl. rewrite Z.mul_1_l in Hu.
  apply inside_ok; [by apply in_vals2, alts_choice2 | by apply in_vals1 | by apply in_vals1 | done | done | done].
Qed.

(** The buffer while the alternatives are added: the flags of the new property stand
    behind [h], and [mid] is what follows them. *)
Context (n : Z) (pre h mid : bytes) (st : list SpaPODFrame) (H12 : zlen h = 12).
Local Abbreviation base := (pre ++ h ++ le32 0 ++ mid).

Lemma finish_enum_ok vals s :
  copying n base st vals s ->
  match enum_of vals with
  | Reject r => exists b', finish_enum s (zlen pre) = Done (FilterError r b')
  | Alts l fl => exists b', finish_enum s (zlen pre) = Done (Filtered b') /\
      written b' n (pre ++ h ++ le32 fl ++ mid ++ concat l) (grow_stack (zlen (concat l)) st)
  end.
Proof.
  intros [Hb Hc]. unfold finish_enum, enum_of. rewrite Hc. destruct vals as [|v vals]; [by eexists |].
  rewrite zlen_cons. pose proof (zlen_nonneg vals). rewrite (proj2 (Z.eqb_neq _ _)) by lia.
  rewrite <- !app_assoc in Hb.
  destruct (add_flags_ok (fst s) n pre h 0 (mid ++ concat (v :: vals)) _
    (Z.lor SPA_POD_PROP_RANGE_ENUM SPA_POD_PROP_FLAG_UNSET) Hb H12) as (b' & -> & Hb').
  cbn [obind]. by exists b'.
Qed.

Definition alts_size (v : verdict) : Z := match v with Alts l _ => zlen (concat l) | Reject _ => 0 end.

Lemma compare_bounds i : (i < length (choices p1))%nat -> (i < length (choices p2))%nat ->
  compare_at t m1 (alt1 + Z.of_nat i * size) m2 (alt2 + Z.of_nat i * size) = Done (cmp t (nth_choice p1 i) (nth_choice p2 i)).
Proof.
  intros [H1 Hi1]%bound_at1 [H2 Hi2]%bound_at2.
  eapply compare_at_ok; [apply (pk_compare _ _ Hpair) | by apply in_vals1 | by apply in_vals2 | done | done].
Qed.

(** Writing one value or the other. *)
Lemma raw_either (d : bool) (b : builder) bs st0 ma a u mb a' w :
  zlen u = size -> zlen w = size -> value_at ma a u -> value_at mb a' w -> written b n bs st0 -> zlen bs + size <= n ->
  exists b', (if d then raw_value b ma a size else raw_value b mb a' size) = Done b' /\
    written b' n (bs ++ if d then u else w) (grow_stack size st0).
Proof.
  intros Hu Hw Hau Haw Hb Hroom.
  destruct (raw_value_ok b n bs st0 (if d then ma else mb) (if d then a else a') (if d then u else w) Hb) as (b' & Hr & Hb');
    [by destruct d | by destruct d; lia |].
  assert (zlen (if d then u else w) = size) as Hz by by destruct d. rewrite Hz in Hr, Hb'.
  exists b'. split; [by destruct d | done].
Qed.

(** Two ranges: the larger lower end, the smaller upper end. *)
Lemma range_case_ok (b : builder) :
  (2 <= length (choices p1))%nat -> (2 <= length (choices p2))%nat ->
  let l := [if cmp t (lower p1) (lower p2) <? 0 then lower p2 else lower p1;
            if cmp t (upper p1) (upper p2) <? 0 then upper p1 else upper p2] in
  written b n base st -> zlen base + zlen (concat l) <= n ->
  exists b', (let* c := compare_at t m1 alt1 m2 alt2 in
    let* b := if c <? 0 then raw_value b m2 alt2 size else raw_value b m1 alt1 size in
    let* c := compare_at t m1 (alt1 + size) m2 (alt2 + size) in
    let* b := if c <? 0 then raw_value b m1 (alt1 + size) size else raw_value b m2 (alt2 + size) size in
    let* b := add_flags b (zlen pre) (Z.lor SPA_POD_PROP_RANGE_MIN_MAX SPA_POD_PROP_FLAG_UNSET) in
    Done (Filtered b)) = Done (Filtered b') /\
    written b' n (pre ++ h ++ le32 range_flags ++ mid ++ concat l) (grow_stack (zlen (concat l)) st).
Proof.
  intros Hl1 Hl2 l Hb Hroom.
  pose proof (compare_bounds 0 ltac:(lia) ltac:(lia)) as Hcl. pose proof (compare_bounds 1 ltac:(lia) ltac:(lia)) as Hcu.
  destruct (bound_at1 0) as [Hlo1 Hi1]; [lia |]. destruct (bound_at1 1) as [Hup1 Hj1]; [lia |].
  destruct (bound_at2 0) as [Hlo2 Hi2]; [lia |]. destruct (bound_at2 1) as [Hup2 Hj2]; [lia |].
  change (Z.of_nat 0) with 0 in *. change (Z.of_nat 1) with 1 in *.
  rewrite Z.mul_0_l, !Z.add_0_r in *. rewrite Z.mul_1_l in *. fold (lower p1) in *. fold (lower p2) in *. fold (upper p1) in *. fold (upper p2) in *.
  rewrite Hcl. cbn [obind].
  pose proof (value_size1 _ Hi1) as Hz1. pose proof (value_size1 _ Hj1) as Hz2.
  pose proof (value_size2 _ Hi2) as Hz3. pose proof (value_size2 _ Hj2) as Hz4.
  set (x := if cmp t (lower p1) (lower p2) <? 0 then lower p2 else lower p1) in *.
  set (y := if cmp t (upper p1) (upper p2) <? 0 then upper p1 else upper p2) in *.
  assert (zlen x = size /\ zlen y = size) as [Hx Hy] by (unfold x, y; split; case_match; done).
  subst l. cbn [concat] in Hroom |- *. rewrite app_nil_r in *. rewrite (zlen_app x) in *. pose proof (zlen_nonneg y).
  destruct (raw_either (cmp t (lower p1) (lower p2) <? 0) b base st m2 alt2 (lower p2) m1 alt1 (lower p1)) as (b1 & -> & Hb1);
    [done | done | done | done | done | lia |].
  cbn [obind]. rewrite Hcu. cbn [obind]. fold x in Hb1.
  destruct (raw_either (cmp t (upper p1) (upper p2) <? 0) b1 (base ++ x) (grow_stack size st) m1 (alt1 + size) (upper p1)
    m2 (alt2 + size) (upper p2)) as (b2 & -> & Hb2); [done | done | done | done | done | rewrite zlen_app; lia |].
  cbn [obind]. fold y in Hb2. rewrite <- !app_assoc in Hb2.
  destruct (add_flags_ok b2 n pre h 0 (mid ++ x ++ y) _ (Z.lor SPA_POD_PROP_RANGE_MIN_MAX SPA_POD_PROP_FLAG_UNSET) Hb2 H12)
    as (b3 & -> & Hb3). cbn [obind]. exists b3. split; [done |]. rewrite grow_stack_add in Hb3. by rewrite Hx, Hy.
Qed.

Lemma filter_values_ok (b : builder) :
  written b n base st -> zlen base + alts_size (filter_alts p1 p2) <= n ->
  match filter_alts p1 p2 with
  | Reject r => exists b', filter_values t m1 m2 alt1 size (zlen (alts p1)) alt2 size (zlen (alts p2)) b (zlen pre)
      (prop_range p1) (prop_range p2) = Done (FilterError r b')
  | Alts l fl => exists b', filter_values t m1 m2 alt1 size (zlen (alts p1)) alt2 size (zlen (alts p2)) b (zlen pre)
      (prop_range p1) (prop_range p2) = Done (Filtered b') /\
      written b' n (pre ++ h ++ le32 fl ++ mid ++ concat l) (grow_stack (zlen (concat l)) st)
  end.
Proof.
  intros Hb Hroom.
  assert (written b n (pre ++ h ++ le32 0 ++ mid ++ concat []) (grow_stack (zlen (@concat Z [])) st)) as Hb0.
  { rewrite app_nil_r, grow_stack_0' by apply Hb. done. }
  pose proof (copying_start b n base st Hb) as Hs.
  assert (0 <= prop_range p1 /\ 0 <= prop_range p2) as [Hr1 Hr2] by (split; apply Z.land_nonneg; right; done).
  pose proof (pk_range1 _ _ Hpair) as Hc1. pose proof (pk_range2 _ _ Hpair) as Hc2.
  assert (Hfin : forall vals (k : outcome (builder * Z)),
    (zlen base + zlen (concat vals) <= n -> exists s', k = Done s' /\ copying n base st vals s') ->
    zlen base + alts_size (enum_of vals) <= n ->
    match enum_of vals with
    | Reject r => exists b', (let* s := k in finish_enum s (zlen pre)) = Done (FilterError r b')
    | Alts l fl => exists b', (let* s := k in finish_enum s (zlen pre)) = Done (Filtered b') /\
        written b' n (pre ++ h ++ le32 fl ++ mid ++ concat l) (grow_stack (zlen (concat l)) st)
    end).
  { intros vals k Hk Hr. destruct Hk as (s' & -> & Hs'); [destruct vals; done |]. by apply finish_enum_ok. }
  unfold filter_alts, filter_values, is_enum, is_range, SPA_POD_PROP_RANGE_NONE, SPA_POD_PROP_RANGE_ENUM,
    SPA_POD_PROP_RANGE_MIN_MAX, SPA_POD_PROP_RANGE_STEP, SPA_POD_PROP_RANGE_FLAGS in *.
  destruct (range_kinds _ Hr1) as [E1|[E1|[E1|[E1|[E1|(E1 & E2 & E3 & E4 & E5 & E6)]]]]];
  destruct (range_kinds _ Hr2) as [F1|[F1|[F1|[F1|[F1|(F1 & F2 & F3 & F4 & F5 & F6)]]]]];
    rewrite ?E1, ?E2, ?E3, ?E4, ?E5, ?E6, ?F1, ?F2, ?F3, ?F4, ?F5, ?F6 in *; cbn [Z.eqb Pos.eqb andb orb Z.leb Z.compare Pos.compare Pos.compare_cont] in *;
    try (by eexists); try (by exists b);
    first [apply Hfin; [intros Hr; apply copy_equal_ok; done | done]
          | apply Hfin; [intros Hr; apply copy_inside1_ok; auto | done]
          | apply Hfin; [intros Hr; apply copy_inside2_ok; auto | done]
          | apply range_case_ok; auto].
Qed.
End Alternatives.

(** ** The default *)

Lemma best_value_ok vs m t val v alt size l best :
  comparable t vs -> v ∈ vs -> l ⊆ vs -> value_at m val v -> values_at m alt size l ->
  best_value (length l) m t val alt size best =
    Done match index_of (fun a => cmp t v a =? 0) l with
         | Some i => Some (alt + Z.of_nat i * size)
         | None => match l with [] => best | _ => Some (default alt best) end
         end.
Proof.
  intros Hc Hv Hl Hat. revert alt best Hl. induction l as [|a l IH]; intros alt best Hl Hvs; [done |].
  cbn [length best_value index_of].
  pose proof (values_at_nth _ _ _ _ 0 a Hvs eq_refl) as Ha. rewrite Z.mul_0_l, Z.add_0_r in Ha.
  rewrite (compare_at_ok t vs m val v m alt a Hc Hv); [| set_solver | done | done]. cbn [obind].
  destruct (cmp t v a =? 0); [by rewrite Z.mul_0_l, Z.add_0_r |].
  rewrite IH; [| set_solver | by eapply values_at_tail].
  destruct (index_of _ l) as [i|]; simpl; [do 2 f_equal; lia |]. by destruct l.
Qed.

Lemma match_head {A B} (l : list A) (x : B) : match l with [] => None | _ => Some x end = (fun _ => x) <$> l !! 0%nat.
Proof. by destruct l. Qed.

(** The memory of a property, around its default. *)
Section Default.
Context (pre post : bytes) (q : prop) (Hq : prop_ok q) (Hc : comparable (pr_type q) (pr_vals q)).
Context (v : bytes) (l : list bytes) (Hvals : pr_vals q = v :: l).
Local Abbreviation size := (pr_size q).
Local Abbreviation t := (pr_type q).

Definition head12 (q : prop) : bytes := pod_header (zlen (prop_body q)) SPA_POD_TYPE_PROP ++ le32 (pr_key q).
Definition image (flags : Z) (d : bytes) : bytes :=
  (pre ++ head12 q ++ le32 flags ++ pod_header size t) ++ d ++ concat l ++ post.

Lemma zlen_values : zlen v = size /\ Forall (fun a => zlen a = size) l.
Proof. pose proof (po_vals _ Hq) as H. rewrite Hvals in H. by apply Forall_cons in H. Qed.

Lemma zlen_front flags : zlen (pre ++ head12 q ++ le32 flags ++ pod_header size t) = prop_values (zlen pre).
Proof. unfold head12, prop_values. rewrite !zlen_app, !zlen_pod_header, !zlen_le32. lia. Qed.

Lemma image_default flags d : value_at (image flags d) (prop_values (zlen pre)) d.
Proof. exists (pre ++ head12 q ++ le32 flags ++ pod_header size t), (concat l ++ post). split; [done | apply zlen_front]. Qed.

Lemma image_alts flags d : zlen d = size -> values_at (image flags d) (prop_values (zlen pre) + size) size l.
Proof.
  intros Hd. split; [| apply zlen_values].
  exists ((pre ++ head12 q ++ le32 flags ++ pod_header size t) ++ d), post.
  split; [unfold image; by rewrite (app_assoc _ d) | rewrite zlen_app, zlen_front; lia].
Qed.

Lemma image_copy flags d src a :
  zlen d = size -> zlen a = size -> value_at (image flags d) src a ->
  copy_value (image flags d) (prop_values (zlen pre)) src size = Done (image flags a).
Proof.
  intros Hd Ha Hsrc. unfold copy_value. rewrite <- Ha, (value_read _ _ _ Hsrc). cbn [of_option obind].
  unfold image. rewrite mwrite_app by (rewrite ?zlen_front; congruence). done.
Qed.

Lemma image_flags flags d fl :
  mwrite (zlen pre + 12) (le32 fl) (image flags d) = Some (image fl d).
Proof.
  unfold image. rewrite <- !app_assoc, (app_assoc pre (head12 q)).
  rewrite mwrite_app; [by rewrite <- !app_assoc | | by rewrite !zlen_le32].
  unfold head12. rewrite !zlen_app, zlen_pod_header, zlen_le32. lia.
Qed.

Lemma compare_default flags d i a : zlen d = size -> d ∈ pr_vals q -> l !! i = Some a ->
  compare_at t (image flags d) (prop_values (zlen pre)) (image flags d) (prop_values (zlen pre) + size + Z.of_nat i * size) =
  Done (cmp t d a).
Proof.
  intros Hd Hin Hi. eapply compare_at_ok; [exact Hc | done | | apply image_default | by eapply values_at_nth, Hi; apply image_alts].
  rewrite Hvals. apply elem_of_cons. right. by eapply list_elem_of_lookup_2.
Qed.

Lemma fix_default_range d0 d1 :
  l !! 0%nat = Some d0 -> l !! 1%nat = Some d1 ->
  let x := if cmp t v d0 <? 0 then d0 else v in
  let y := if cmp t x d1 >? 0 then d1 else x in
  (let* c := compare_at t (image (pr_flags q) v) (prop_values (zlen pre)) (image (pr_flags q) v) (prop_values (zlen pre) + size) in
   let* m := if c <? 0 then copy_value (image (pr_flags q) v) (prop_values (zlen pre)) (prop_values (zlen pre) + size) size
             else Done (image (pr_flags q) v) in
   let* c := compare_at t m (prop_values (zlen pre)) m (prop_values (zlen pre) + size + size) in
   if c >? 0 then copy_value m (prop_values (zlen pre)) (prop_values (zlen pre) + size + size) size else Done m)
  = Done (image (pr_flags q) y).
Proof.
  intros H0 H1 x y. destruct zlen_values as [Hv Hl]. pose proof (Forall_lookup_1 _ _ _ _ Hl H0) as Hd0.
  pose proof (Forall_lookup_1 _ _ _ _ Hl H1) as Hd1. simpl in Hd0, Hd1.
  assert (v ∈ pr_vals q /\ d0 ∈ pr_vals q) as [Hiv Hi0].
  { rewrite Hvals. split; [set_solver |]. apply elem_of_cons. right. by eapply list_elem_of_lookup_2. }
  pose proof (compare_default (pr_flags q) v 0 d0 Hv Hiv H0) as Hcmp0. rewrite Z.mul_0_l, Z.add_0_r in Hcmp0.
  rewrite Hcmp0. cbn [obind].
  assert ((if cmp t v d0 <? 0 then copy_value (image (pr_flags q) v) (prop_values (zlen pre)) (prop_values (zlen pre) + size) size
    else Done (image (pr_flags q) v)) = Done (image (pr_flags q) x)) as ->.
  { unfold x. case_match; [| done]. apply image_copy; [done | done |].
    pose proof (values_at_nth _ _ _ _ 0 d0 (image_alts (pr_flags q) v Hv) H0) as Hat. by rewrite Z.mul_0_l, Z.add_0_r in Hat. }
  cbn [obind]. assert (zlen x = size /\ x ∈ pr_vals q) as [Hx Hix] by (unfold x; by case_match).
  pose proof (compare_default (pr_flags q) x 1 d1 Hx Hix H1) as Hcmp1. rewrite Z.mul_1_l in Hcmp1. rewrite Hcmp1. cbn [obind].
  unfold y. case_match; [| done]. apply image_copy; [done | done |].
  pose proof (values_at_nth _ _ _ _ 1 d1 (image_alts (pr_flags q) x Hx) H1) as Hat. by rewrite Z.mul_1_l in Hat.
Qed.

Lemma fix_default_enum :
  let b := default v match index_of (fun a => cmp t v a =? 0) l with Some i => l !! i | None => head l end in
  (let* best := best_value (Z.to_nat (zlen l)) (image (pr_flags q) v) t (prop_values (zlen pre)) (prop_values (zlen pre) + size) size None in
   match best with Some p => copy_value (image (pr_flags q) v) (prop_values (zlen pre)) p size | None => Done (image (pr_flags q) v) end)
  = Done (image (pr_flags q) b).
Proof.
  intros b. destruct zlen_values as [Hv Hl]. rewrite to_nat_zlen.
  rewrite (best_value_ok (pr_vals q) _ _ _ v); [| done | | | apply image_default | by apply image_alts];
    [| rewrite Hvals; set_solver | rewrite Hvals; by apply list_subseteq_cons].
  cbn [obind]. unfold b. destruct (index_of _ l) as [i|] eqn:Hi.
  - destruct (lookup_lt_is_Some_2 l i) as [a Ha]; [by eapply index_of_lt |]. rewrite Ha. cbn [default from_option].
    apply image_copy; [done | exact (Forall_lookup_1 _ _ _ _ Hl Ha) |]. by eapply values_at_nth, Ha; apply image_alts.
  - rewrite match_head, head_lookup. destruct (l !! 0%nat) as [a|] eqn:Ha; [| done]. cbn [fmap option_fmap option_map default from_option].
    apply image_copy; [done | exact (Forall_lookup_1 _ _ _ _ Hl Ha) |].
    pose proof (values_at_nth _ _ _ _ 0 a (image_alts (pr_flags q) v Hv) Ha) as Hat. by rewrite Z.mul_0_l, Z.add_0_r in Hat.
Qed.
End Default.

Definition bare (q : prop) : bytes := pod_header (zlen (prop_body q)) SPA_POD_TYPE_PROP ++ prop_body q.

(** What [filter_values] builds: a fixed value, a range, or an enumeration. *)
Record fixable (q : prop) : Prop := {
  fx_ok : prop_ok q;
  fx_compare : comparable (pr_type q) (pr_vals q);
  fx_flags : pr_flags q = 0 \/ pr_flags q = range_flags /\ (3 <= length (pr_vals q))%nat \/ pr_flags q = enum_flags
}.

Lemma image_bare pre post q v l flags d :
  prop_ok q -> pr_vals q = v :: l -> zlen d = pr_size q ->
  let q' := mkProp (pr_key q) flags (pr_type q) (pr_size q) (d :: l) in
  image pre post q l flags d = pre ++ bare q' ++ post /\ zlen (prop_body q') = zlen (prop_body q).
Proof.
  intros Hq Hvals Hd q'. assert (zlen v = pr_size q) as Hv.
  { pose proof (po_vals _ Hq) as H. rewrite Hvals in H. by apply Forall_cons in H as [? _]. }
  assert (zlen (prop_body q') = zlen (prop_body q)) as Hz.
  { unfold prop_body. rewrite Hvals. simpl. rewrite !zlen_app, Hd, Hv. done. }
  split; [| done]. unfold image, bare, head12. rewrite Hz. unfold prop_body. simpl. by rewrite <- !app_assoc.
Qed.

Lemma fix_default_ok pre post q :
  fixable q -> fix_default (pre ++ bare q ++ post) (zlen pre) = Done (pre ++ bare (fix_prop q) ++ post) /\
    zlen (prop_body (fix_prop q)) = zlen (prop_body q).
Proof.
  intros [Hq Hc Hfl]. destruct (pr_vals q) as [|v l] eqn:Hvals; [by destruct (po_some _ Hq) |].
  destruct (zlen_values q Hq v l Hvals) as [Hv Hl].
  assert (prop_at (pre ++ bare q ++ post) (zlen pre) q) as Hat by by exists pre, post.
  assert (q = mkProp (pr_key q) (pr_flags q) (pr_type q) (pr_size q) (v :: l)) as Heq by (destruct q; simpl in *; congruence).
  assert (forall flags d, zlen d = pr_size q ->
    image pre post q l flags d = pre ++ bare (mkProp (pr_key q) flags (pr_type q) (pr_size q) (d :: l)) ++ post /\
    zlen (prop_body (mkProp (pr_key q) flags (pr_type q) (pr_size q) (d :: l))) = zlen (prop_body q)) as Himg
    by (intros; by eapply image_bare).
  pose proof (proj1 (Himg (pr_flags q) v Hv)) as Hm. rewrite <- Heq in Hm. rewrite <- Hm in *.
  assert (Hc' : comparable (pr_type q) (pr_vals q)) by by rewrite Hvals.
  unfold fix_default. rewrite (at_value_size _ _ _ Hat Hq), (at_value_type _ _ _ Hat Hq), (at_flags _ _ _ Hat Hq), (at_n_values _ _ _ Hat Hq).
  cbn [obind]. rewrite Hvals, zlen_cons. replace (1 + zlen l - 1) with (zlen l) by lia.
  unfold fix_prop, prop_range, is_range. rewrite Hvals. cbn [tail head]. change (default [] (Some v)) with v.
  destruct Hfl as [Hf | [[Hf H3] | Hf]].
  - assert (Z.land (pr_flags q) SPA_POD_PROP_RANGE_MASK = 0) as -> by by rewrite Hf. by rewrite Hm.
  - assert (Z.land (pr_flags q) SPA_POD_PROP_RANGE_MASK = 1) as -> by by rewrite Hf.
    simpl length in H3. destruct (lookup_lt_is_Some_2 l 0) as [d0 H0]; [lia |]. destruct (lookup_lt_is_Some_2 l 1) as [d1 H1]; [lia |].
    change (1 =? SPA_POD_PROP_RANGE_MIN_MAX) with true. cbn [orb].
    rewrite H0, H1. change (default [] (Some d0)) with d0. change (default [] (Some d1)) with d1.
    rewrite (fix_default_range pre post q Hq Hc' v l Hvals d0 d1 H0 H1).
    pose proof (Forall_lookup_1 _ _ _ _ Hl H0). pose proof (Forall_lookup_1 _ _ _ _ Hl H1).
    match goal with |- Done (image _ _ _ _ _ ?y) = _ /\ _ => destruct (Himg (pr_flags q) y) as [-> Hz]; [by repeat case_match |] end.
    done.
  - assert (Z.land (pr_flags q) SPA_POD_PROP_RANGE_MASK = 3) as -> by by rewrite Hf.
    change (3 =? SPA_POD_PROP_RANGE_MIN_MAX) with false. change (3 =? SPA_POD_PROP_RANGE_STEP) with false.
    change (3 =? SPA_POD_PROP_RANGE_ENUM) with true. cbn [orb].
    pose proof (fix_default_enum pre post q Hq Hc' v l Hvals) as He.
    set (b := default v _) in *. assert (zlen b = pr_size q) as Hb.
    { unfold b. destruct (index_of _ l) as [i|]; [destruct (l !! i) eqn:E | rewrite head_lookup; destruct (l !! 0%nat) eqn:E]; simpl; try done;
        exact (Forall_lookup_1 _ _ _ _ Hl E). }
    destruct (best_value _ _ _ _ _ _ _) as [best| |]; [| done..]. cbn [obind] in He |- *. rewrite He. cbn [obind].
    destruct (zlen l =? 1).
    + rewrite (image_flags pre post q l). cbn [of_option].
      assert (Z.land (Z.land (pr_flags q) (u32 (Z.lnot SPA_POD_PROP_FLAG_UNSET))) (u32 (Z.lnot SPA_POD_PROP_RANGE_MASK)) = 0) as -> by by rewrite Hf.
      assert (Z.land (pr_flags q) (Z.lnot (SPA_POD_PROP_FLAG_UNSET + SPA_POD_PROP_RANGE_MASK)) = 0) as -> by by rewrite Hf.
      by destruct (Himg 0 b Hb) as [-> Hz].
    + destruct (Himg (pr_flags q) b Hb) as [-> Hz]. done.
Qed.

(** ** One property *)

(** The property [filter_one] keeps, before its default is fixed. *)
Definition new_prop (p1 : prop) (vals : list bytes) (flags : Z) : prop :=
  mkProp (pr_key p1) flags (pr_type p1) (pr_size p1) (take 1 (pr_vals p1) ++ vals).

Lemma elem_of_flat_map {A B} (f : A -> list B) l y : y ∈ flat_map f l <-> exists x, x ∈ l /\ y ∈ f x.
Proof. rewrite list_elem_of_In, in_flat_map. by setoid_rewrite list_elem_of_In. Qed.

Lemma elem_of_equal t l1 l2 v : v ∈ equal_values t l1 l2 <-> v ∈ l1 /\ exists w, w ∈ l2 /\ cmp t v w = 0.
Proof.
  unfold equal_values. rewrite elem_of_flat_map. setoid_rewrite elem_of_flat_map. split.
  - intros (a & Ha & b & Hb & Hv). destruct (Z.eqb_spec (cmp t a b) 0); [| by apply elem_of_nil in Hv].
    apply list_elem_of_singleton in Hv as ->. eauto.
  - intros (Hv & w & Hw & Hc). exists v. split; [done |]. exists w. split; [done |]. rewrite Hc. by apply list_elem_of_singleton.
Qed.

Lemma elem_of_inside t l lo hi v : v ∈ inside_values t l lo hi <-> v ∈ l /\ 0 <= cmp t v lo /\ cmp t v hi <= 0.
Proof.
  unfold inside_values. rewrite elem_of_flat_map. split.
  - intros (a & Ha & Hv). destruct (Z.ltb_spec (cmp t a lo) 0); [by apply elem_of_nil in Hv |].
    rewrite Z.gtb_ltb in Hv. destruct (Z.ltb_spec 0 (cmp t a hi)); [by apply elem_of_nil in Hv |].
    apply list_elem_of_singleton in Hv as ->. done.
  - intros (Hv & Hlo & Hhi). exists v. split; [done |]. rewrite Z.gtb_ltb.
    destruct (Z.ltb_spec (cmp t v lo) 0); [lia |]. destruct (Z.ltb_spec 0 (cmp t v hi)); [lia |]. by apply list_elem_of_singleton.
Qed.

Lemma enum_of_Alts vals l fl : enum_of vals = Alts l fl -> l = vals /\ fl = enum_flags /\ vals <> [].
Proof. destruct vals; [done |]. by intros [= <- <-]. Qed.

Lemma filter_alts_vals p1 p2 l fl : pair_ok p1 p2 -> filter_alts p1 p2 = Alts l fl ->
  l ⊆ pr_vals p1 ++ pr_vals p2 /\ (fl = 0 \/ fl = range_flags /\ (2 <= length l)%nat \/ fl = enum_flags).
Proof.
  intros Hpair. assert (forall v, v ∈ alts p1 -> v ∈ pr_vals p1 ++ pr_vals p2) as Hs1
    by (intros v Hv%alts_subseteq; apply elem_of_app; auto).
  assert (forall v, v ∈ alts p2 -> v ∈ pr_vals p1 ++ pr_vals p2) as Hs2
    by (intros v Hv%alts_subseteq; apply elem_of_app; auto).
  assert (forall q i, q = p1 \/ q = p2 -> (i < length (choices q))%nat -> nth_choice q i ∈ pr_vals p1 ++ pr_vals p2) as Hin.
  { intros q i Hq Hi%nth_choice_lookup%list_elem_of_lookup_2%choices_subseteq. apply elem_of_app. destruct Hq as [-> | ->]; auto. }
  unfold filter_alts. destruct (is_enum (prop_range p1) && is_enum (prop_range p2)).
  { intros (-> & -> & _)%enum_of_Alts. split; [| auto]. intros v (Hv & _)%elem_of_equal. auto. }
  destruct (is_enum (prop_range p1) && is_range (prop_range p2)).
  { intros (-> & -> & _)%enum_of_Alts. split; [| auto]. intros v (Hv & _)%elem_of_inside. auto. }
  destruct (is_range (prop_range p1) && is_enum (prop_range p2)).
  { intros (-> & -> & _)%enum_of_Alts. split; [| auto]. intros v (Hv & _)%elem_of_inside. auto. }
  destruct (is_range (prop_range p1) && is_range (prop_range p2)) eqn:Hr.
  { apply andb_true_iff in Hr as [H1 H2]. apply Z.eqb_eq, (pk_range1 _ _ Hpair) in H1. apply Z.eqb_eq, (pk_range2 _ _ Hpair) in H2.
    intros [= <- <-]. split; [| right; left; split; [done | simpl; lia]].
    intros v [-> | ->%list_elem_of_singleton]%elem_of_cons; case_match; apply Hin; auto; lia. }
  case_match; [done |]. intros. simplify_eq. split; [apply list_subseteq_nil | auto].
Qed.

Lemma new_prop_fixable p1 p2 l fl :
  pair_ok p1 p2 -> prop_ok p1 -> prop_ok p2 -> filter_alts p1 p2 = Alts l fl ->
  zlen (prop_body (new_prop p1 l fl)) < 2 ^ 31 -> fixable (new_prop p1 l fl).
Proof.
  intros Hpair H1 H2 Hf Hsmall. destruct (filter_alts_vals _ _ _ _ Hpair Hf) as [Hl Hfl].
  pose proof (po_words _ H1) as (Hk & _ & Ht). pose proof (po_vals _ H1) as Hv1. pose proof (po_vals _ H2) as Hv2.
  pose proof (pk_size _ _ Hpair) as Hsz. rewrite Forall_forall in Hv1, Hv2.
  assert (forall v, v ∈ take 1 (pr_vals p1) ++ l -> v ∈ pr_vals p1 ++ pr_vals p2) as Hin.
  { intros v [(i & Hi & _)%elem_of_take | Hv]%elem_of_app; [apply elem_of_app; left; by eapply list_elem_of_lookup_2 | by apply Hl]. }
  split; [split; simpl | | simpl].
  - split_and!; [done | destruct Hfl as [-> | [[-> _] | ->]]; by compute | done].
  - apply H1.
  - apply Forall_forall. intros v [Hv | Hv]%Hin%elem_of_app; [by apply Hv1 | rewrite Hsz; by apply Hv2].
  - pose proof (po_some _ H1). by destruct (pr_vals p1).
  - done.
  - intros a b Ha Hb. simpl in Ha, Hb. apply (pk_compare _ _ Hpair); auto.
  - destruct Hfl as [-> | [[-> Hlen] | ->]]; auto. right; left. split; [done |].
    pose proof (po_some _ H1). destruct (pr_vals p1); [done |]. simpl. lia.
Qed.

(** Room for what one step may write, accepted or not. *)
Definition step_size (p1 p2 : prop) : Z :=
  match filter_alts p1 p2 with
  | Alts l fl => zlen (enc_prop (new_prop p1 l fl))
  | Reject _ => zlen (enc_prop p1)
  end.

Lemma zlen_new_prop p1 l fl : prop_ok p1 -> zlen (prop_body (new_prop p1 l fl)) = 16 + pr_size p1 + zlen (concat l).
Proof.
  intros H1. pose proof (po_some _ H1). pose proof (po_vals _ H1) as Hv. unfold prop_body, new_prop. simpl.
  destruct (pr_vals p1) as [|v vs]; [done |]. apply Forall_cons in Hv as [Hv _]. simpl. autorewrite with zlen. lia.
Qed.

Lemma push_prop_ok (b : builder) n bs st fid key fl :
  written b n bs st -> zlen bs + 16 <= n ->
  exists b', spa_pod_builder_push_prop b fid key fl = Done b' /\
    written b' n (bs ++ (pod_header 8 SPA_POD_TYPE_PROP ++ le32 key) ++ le32 fl) (mkFrame fid 8 SPA_POD_TYPE_PROP (zlen bs) :: grow_stack 16 st).
Proof.
  intros Hb Hroom. unfold spa_pod_builder_push_prop.
  destruct (written_raw b n bs st (pod_header 8 SPA_POD_TYPE_PROP ++ le32 key ++ le32 fl) Hb) as (b' & -> & [Hh Ho Hs Hz] & _); [zlia |].
  cbn [obind]. eexists. split; [done |]. rewrite <- !app_assoc. split; simpl; [done | done | by rewrite Hs |].
  constructor; [done | apply grow_sized].
Qed.

Section OneProp.
Context (p1 p2 : prop) (m1 m2 : bytes) (a1 a2 : Z).
Context (Hat1 : prop_at m1 a1 p1) (Hat2 : prop_at m2 a2 p2) (Hok1 : prop_ok p1) (Hok2 : prop_ok p2).
Context (Hpair : pr_type p1 = pr_type p2 -> pair_ok p1 p2).

Lemma default_at : exists v l, pr_vals p1 = v :: l /\ zlen v = pr_size p1 /\
  value_at m1 (a1 + 16) (pod_header (pr_size p1) (pr_type p1) ++ v).
Proof.
  pose proof (po_some _ Hok1) as Hne. pose proof (po_vals _ Hok1) as Hv. destruct (pr_vals p1) as [|v l] eqn:E; [done |].
  apply Forall_cons in Hv as [Hv _]. exists v, l. split_and!; [done | done |].
  apply (at_field m1 a1 p1 Hat1 (pod_header (zlen (prop_body p1)) SPA_POD_TYPE_PROP ++ le32 (pr_key p1) ++ le32 (pr_flags p1)) _ (concat l)).
  unfold prop_body. rewrite E. cbn [concat]. by rewrite <- !app_assoc.
Qed.

(** Up to the alternatives: the header, the value's header and the default. *)
Lemma start_prop_ok (b : builder) n bs st :
  written b n bs st -> zlen bs + 24 + pr_size p1 <= n ->
  exists b1 b2 v, spa_pod_builder_push_prop b f (pr_key p1) 0 = Done b1 /\
    find_frame f (stack b1) = Some (mkFrame f 8 SPA_POD_TYPE_PROP (zlen bs), grow_stack 16 st) /\
    raw_value b1 m1 (a1 + 16) (8 + pr_size p1) = Done b2 /\ take 1 (pr_vals p1) = [v] /\ zlen v = pr_size p1 /\
    written b2 n (bs ++ (pod_header 8 SPA_POD_TYPE_PROP ++ le32 (pr_key p1)) ++ le32 0 ++ pod_header (pr_size p1) (pr_type p1) ++ v)
      (mkFrame f (16 + pr_size p1) SPA_POD_TYPE_PROP (zlen bs) :: grow_stack (24 + pr_size p1) st).
Proof.
  intros Hb Hroom. pose proof (po_size _ Hok1). destruct (push_prop_ok b n bs st f (pr_key p1) 0 Hb) as (b1 & Hpush & Hb1); [lia |].
  destruct default_at as (v & l & Hvals & Hv & Hat).
  destruct (raw_value_ok b1 n _ _ m1 (a1 + 16) _ Hb1 Hat) as (b2 & Hraw & Hb2); [autorewrite with zlen; lia |].
  rewrite zlen_app, zlen_pod_header, Hv in Hraw, Hb2. exists b1, b2, v. rewrite (wrt_stack _ _ _ _ Hb1).
  split_and!; [done | by cbn [find_frame]; rewrite decide_True | done | by rewrite Hvals | done |].
  rewrite <- !app_assoc in Hb2 |- *. rewrite grow_stack_cons, grow_stack_add in Hb2. unfold frame_grow in Hb2.
  cbn [f_id f_size f_type f_ref] in Hb2. pose proof (pr_size_u32 p1 Hok1). pose proof (po_small _ Hok1) as Hs.
  rewrite zlen_prop_body in Hs by done. pose proof (zlen_vals_pos p1 Hok1).
  rewrite u32_small in Hb2 by (unfold is_u32; nia).
  replace (8 + (8 + pr_size p1)) with (16 + pr_size p1) in Hb2 by lia.
  by replace (16 + (8 + pr_size p1)) with (24 + pr_size p1) in Hb2 by lia.
Qed.

(** Closing it: the header patched, the end padded, the default fixed. *)
Lemma finish_prop_ok (b : builder) n bs st l fl v :
  fixable (new_prop p1 l fl) -> take 1 (pr_vals p1) = [v] -> zlen v = pr_size p1 -> aligned bs -> Forall frame_flat st ->
  zlen bs + zlen (enc_prop (new_prop p1 l fl)) <= n ->
  written b n (bs ++ (pod_header 8 SPA_POD_TYPE_PROP ++ le32 (pr_key p1)) ++ le32 fl ++ (pod_header (pr_size p1) (pr_type p1) ++ v) ++ concat l)
    (grow_stack (zlen (concat l)) (mkFrame f (16 + pr_size p1) SPA_POD_TYPE_PROP (zlen bs) :: grow_stack (24 + pr_size p1) st)) ->
  exists b' d, spa_pod_builder_pop b f = Done b' /\ fix_default (fixed_data (bw b')) (zlen bs) = Done d /\
    let q := fix_prop (new_prop p1 l fl) in
    building (mkBuilder (mkFixed d (fixed_size (bw b'))) (offset b') (stack b') (in_array b') (first b')) n
      (bs ++ enc_prop q) (grow_stack (zlen (enc_prop q)) st) /\ zlen (enc_prop q) = zlen (enc_prop (new_prop p1 l fl)).
Proof.
  set (q0 := new_prop p1 l fl). intros Hfix Hone Hv Hal Hflat Hroom Hb.
  assert (prop_body q0 = le32 (pr_key p1) ++ le32 fl ++ pod_header (pr_size p1) (pr_type p1) ++ v ++ concat l) as Hbody.
  { unfold prop_body, q0, new_prop. cbn [pr_key pr_flags pr_size pr_type pr_vals]. by rewrite Hone. }
  assert (zlen (prop_body q0) = 16 + pr_size p1 + zlen (concat l)) as Hz by (rewrite Hbody; autorewrite with zlen; lia).
  rewrite grow_stack_cons, grow_stack_add in Hb. unfold frame_grow in Hb. cbn [f_id f_size f_type f_ref] in Hb.
  pose proof (po_small _ (fx_ok _ Hfix)) as Hsmall. pose proof (zlen_nonneg (prop_body q0)).
  rewrite <- Hz in Hb. rewrite u32_small in Hb by (unfold is_u32; lia).
  rewrite <- !app_assoc in Hb. rewrite <- Hbody in Hb.
  destruct (pop_ok b n bs _ (prop_body q0) _ f SPA_POD_TYPE_PROP Hb) as (b' & Hpop & [Hh Ho Hs Hsz] & Ha);
    [apply zlen_pod_header | done | done |].
  pose proof Hh as (Hn & Hbn & Hns & Hsd & rest & Hd).
  destruct (fix_default_ok bs (zeros (pad8 (zlen (prop_body q0))) ++ rest) q0 Hfix) as [Hfd Hlen].
  assert (zlen (enc_prop (fix_prop q0)) = zlen (enc_prop q0)) as Hsame by (unfold enc_prop; by rewrite !zlen_enc_pod, Hlen).
  exists b', (bs ++ enc_prop (fix_prop q0) ++ rest). split; [exact Hpop |]. cbv zeta. split_and!; [| | done].
  - rewrite Hd. unfold enc_pod, enc_prop in *. unfold bare in Hfd. rewrite <- !app_assoc in *. rewrite Hfd. unfold enc_pod. rewrite Hlen.
    by rewrite <- !app_assoc.
  - fold (enc_prop q0) in Hd, Hbn, Ho. split; cbn [bw Pod.offset Pod.stack in_array].
    + unfold pw_holds, Fixed_laws, fixed_holds. cbn [fixed_data fixed_size]. rewrite Hd in Hsd.
      rewrite !zlen_app, Hsame in *. split_and!; [done | lia | done | lia |]. exists rest. by rewrite <- app_assoc.
    + rewrite Ho. rewrite !zlen_app, Hsame. done.
    + rewrite Hs. rewrite grow_stack_add. f_equal. rewrite Hsame. unfold enc_prop. rewrite zlen_enc_pod, Hz. unfold pad8.
      pose proof (round8_bounds (16 + pr_size p1 + zlen (concat l))). lia.
    + rewrite Ha. destruct st as [|g st]; [done |]. by apply Forall_cons in Hflat as [[_ ?] _].
    + by apply grow_stack_flat.
Qed.

Lemma filter_prop_ok (b : builder) n bs st :
  building b n bs st -> aligned bs -> zlen bs + step_size p1 p2 <= n ->
  match filter_one p1 p2 with
  | inr r => exists b', filter_prop b m1 a1 m2 a2 = Done (FilterError r b')
  | inl q => exists b', filter_prop b m1 a1 m2 a2 = Done (Filtered b') /\
      building b' n (bs ++ enc_prop q) (grow_stack (zlen (enc_prop q)) st) /\ zlen (enc_prop q) = step_size p1 p2
  end.
Proof.
  intros Hb Hal Hroom. pose proof (building_room _ _ _ _ Hb) as Hn. pose proof (zlen_nonneg bs).
  unfold filter_prop. rewrite (at_value_type _ _ _ Hat1 Hok1), (at_value_type _ _ _ Hat2 Hok2). cbn [obind].
  unfold filter_one in *. destruct (Z.eqb_spec (pr_type p1) (pr_type p2)) as [Ht | Ht]; [| by exists b]. cbn [negb].
  specialize (Hpair Ht). pose proof (pk_size _ _ Hpair) as Hsz.
  rewrite (at_flags _ _ _ Hat1 Hok1), (at_flags _ _ _ Hat2 Hok2), (at_key _ _ _ Hat1 Hok1). cbn [obind].
  fold (prop_range p1). fold (prop_range p2).
  destruct (at_alternatives _ _ _ Hat1 Hok1) as (alt1 & Halt1 & Hv1 & Hp1). destruct (at_alternatives _ _ _ Hat2 Hok2) as (alt2 & Halt2 & Hv2 & Hp2).
  assert (zlen bs + 24 + pr_size p1 + alts_size (filter_alts p1 p2) <= n) as Hroom'.
  { pose proof (zlen_vals_pos _ Hok1). pose proof (po_size _ Hok1). unfold step_size, enc_prop in Hroom.
    destruct (filter_alts p1 p2) as [l fl|r]; rewrite zlen_enc_pod in Hroom; cbn [alts_size].
    - pose proof (round8_bounds (zlen (prop_body (new_prop p1 l fl)))) as Hr. rewrite zlen_new_prop in * by done. lia.
    - pose proof (round8_bounds (zlen (prop_body p1))) as Hr. rewrite zlen_prop_body in * by done. nia. }
  assert (0 <= alts_size (filter_alts p1 p2)) by (destruct (filter_alts p1 p2); [apply zlen_nonneg | done]).
  destruct (start_prop_ok b n bs st (building_written _ _ _ _ Hb)) as (b1 & b2 & v & Hpush & Hfind & Hraw & Hone & Hv & Hb2); [lia |].
  rewrite Hpush. cbn [obind]. rewrite Hfind. cbn [of_option obind f_ref].
  rewrite (at_value_size _ _ _ Hat1 Hok1), (at_value_size _ _ _ Hat2 Hok2). cbn [obind]. rewrite Hraw. cbn [obind].
  rewrite Halt1, Halt2. cbn [obind]. rewrite <- Hsz in *.
  pose proof (filter_values_ok p1 p2 m1 m2 alt1 alt2 Hpair Hv1 Hv2 Hp1 Hp2 n bs (pod_header 8 SPA_POD_TYPE_PROP ++ le32 (pr_key p1))
    (pod_header (pr_size p1) (pr_type p1) ++ v) _ eq_refl b2 Hb2) as Hfv.
  autorewrite with zlen in Hfv. specialize (Hfv ltac:(lia)).
  destruct (filter_alts p1 p2) as [l fl|r] eqn:Hfa.
  - destruct Hfv as (b3 & -> & Hb3). cbn [obind].
    assert (fixable (new_prop p1 l fl)) as Hfix.
    { eapply new_prop_fixable; [done | done | done | done |]. rewrite zlen_new_prop by done. cbn [alts_size] in *. lia. }
    destruct (finish_prop_ok b3 n bs st l fl v Hfix Hone Hv Hal) as (b4 & d & -> & Hd & Hb4 & Hlen);
      [apply Hb | unfold step_size in Hroom; by rewrite Hfa in Hroom | exact Hb3 |].
    cbn [obind]. rewrite Hd. cbn [obind]. eexists. split_and!; [done | done |]. unfold step_size. by rewrite Hfa.
  - destruct Hfv as (b3 & ->). cbn [obind]. by exists b3.
Qed.
End OneProp.

(** ** All properties *)

Definition item_ok (i : item) : Prop :=
  match i with
  | IProp p => prop_ok p
  | IPod t body => is_u32 t /\ t <> SPA_POD_TYPE_PROP /\ zlen body < 2 ^ 31 - 16
  end.

Definition item_type (i : item) : Z := match i with IProp _ => SPA_POD_TYPE_PROP | IPod t _ => t end.
Definition item_body (i : item) : bytes := match i with IProp p => prop_body p | IPod _ body => body end.

Lemma enc_item_eq i : enc_item i = enc_pod (item_type i) (item_body i).
Proof. by destruct i. Qed.

Lemma enc_items_cons i l : enc_items (i :: l) = enc_item i ++ enc_items l.
Proof. done. Qed.

Lemma zlen_enc_item i : zlen (enc_item i) = 8 + round8 (zlen (item_body i)).
Proof. by rewrite enc_item_eq, zlen_enc_pod. Qed.

Section Items.
Context (m : bytes) (a : Z) (i : item) (l : list item) (Hat : value_at m a (enc_items (i :: l))) (Hok : item_ok i).

Lemma item_at : value_at m a (pod_header (zlen (item_body i)) (item_type i) ++ item_body i).
Proof.
  rewrite enc_items_cons, enc_item_eq in Hat. unfold enc_pod in Hat. destruct Hat as (pre & post & -> & <-).
  exists pre, (zeros (pad8 (zlen (item_body i))) ++ enc_items l ++ post). split; [by rewrite <- !app_assoc | done].
Qed.

Lemma item_size : pod_size_at a m = Done (8 + zlen (item_body i)).
Proof.
  unfold pod_size_at. destruct item_at as (pre & post & -> & <-). unfold pod_header. rewrite <- !app_assoc.
  rewrite load32_app by done. cbn [fmap option_fmap option_map of_option]. rewrite u32_small; [done |].
  pose proof (zlen_nonneg (item_body i)). unfold is_u32. destruct i; simpl in *; [pose proof (po_small _ Hok); lia | lia].
Qed.

Lemma item_type_at : pod_type_at a m = Done (item_type i).
Proof.
  unfold pod_type_at. destruct item_at as (pre & post & -> & <-). unfold pod_header. rewrite <- !app_assoc.
  rewrite (app_assoc pre), load32_app by zlia. cbn [of_option]. rewrite u32_small; [done |].
  destruct i; simpl in *; [by compute | by destruct Hok].
Qed.

Lemma item_step : a + SPA_ROUND_UP_N (8 + zlen (item_body i)) 8 = a + zlen (enc_item i).
Proof.
  rewrite ROUND_UP_8, zlen_enc_item. replace 8 with (8 * 1) at 1 by lia. rewrite round8_add. lia.
Qed.

Lemma items_next : value_at m (a + zlen (enc_item i)) (enc_items l).
Proof. rewrite enc_items_cons, <- (app_nil_r (enc_items l)) in Hat. by eapply value_at_mid. Qed.
End Items.

Lemma zlen_enc_items_pos i l : item_ok i -> 8 <= zlen (enc_item i) /\ 0 <= zlen (enc_items l).
Proof.
  intros Hi. split; [| apply zlen_nonneg]. rewrite zlen_enc_item. pose proof (round8_bounds (zlen (item_body i))).
  pose proof (zlen_nonneg (item_body i)). lia.
Qed.

Lemma length_enc_items l : Forall item_ok l -> 8 * Z.of_nat (length l) <= zlen (enc_items l).
Proof.
  induction 1 as [|i l Hi _ IH]; [done |]. rewrite enc_items_cons, zlen_app. simpl length.
  destruct (zlen_enc_items_pos i l Hi). lia.
Qed.

Lemma find_prop_ok key l fuel m a :
  Forall item_ok l -> value_at m a (enc_items l) -> (length l <= fuel)%nat ->
  match find_key key l with
  | None => foreach_find fuel m a (a + zlen (enc_items l)) key = Done None
  | Some p => exists q, foreach_find fuel m a (a + zlen (enc_items l)) key = Done (Some q) /\ prop_at m q p /\ prop_ok p
  end.
Proof.
  intros Hl. revert fuel a. induction Hl as [|i l Hi _ IH]; intros fuel a Hat Hf.
  { cbn [find_key]. change (zlen (enc_items [])) with 0. destruct fuel; cbn [foreach_find]; (case_if; [lia | done]). }
  destruct fuel as [|fuel]; [simpl in Hf; lia |]. simpl in Hf. cbn [foreach_find].
  destruct (zlen_enc_items_pos i l Hi). rewrite enc_items_cons, zlen_app in *. rewrite <- enc_items_cons in Hat.
  case_if; [| lia]. rewrite (item_type_at m a i l Hat Hi). cbn [obind].
  pose proof (IH fuel _ (items_next m a i l Hat) ltac:(lia)) as Hnext. rewrite Z.add_assoc.
  destruct i as [p|t body]; cbn [find_key item_type].
  - change (SPA_POD_TYPE_PROP =? SPA_POD_TYPE_PROP) with true. cbn [andb].
    pose proof (at_key _ _ _ (item_at m a _ l Hat) Hi) as Hk. unfold prop_key in Hk. rewrite Hk. cbn [obind].
    destruct (pr_key p =? key); [exists a; split_and!; [done | exact (item_at m a _ l Hat) | done] |].
    rewrite (item_size m a _ l Hat Hi). cbn [obind]. by rewrite item_step.
  - destruct Hi as (? & Hne & ?). rewrite (proj2 (Z.eqb_neq _ _)) by done. cbn [obind andb].
    rewrite (item_size m a _ l Hat); [| done]. cbn [obind]. by rewrite item_step.
Qed.

(** A pod copied with its padding. *)
Lemma padded_ok (b : builder) n bs st t body :
  building b n bs st -> zlen bs + zlen (enc_pod t body) <= n ->
  exists b', (let* (b, _) := spa_pod_builder_raw_padded b (pod_header (zlen body) t ++ body) in Done b) = Done b' /\
    building b' n (bs ++ enc_pod t body) (grow_stack (zlen (enc_pod t body)) st).
Proof.
  intros Hb Hroom. pose proof (building_room _ _ _ _ Hb) as Hn. rewrite zlen_enc_pod in Hroom.
  pose proof (zlen_nonneg bs). pose proof (zlen_nonneg body). pose proof (round8_bounds (zlen body)).
  unfold spa_pod_builder_raw_padded. assert (zlen (pod_header (zlen body) t ++ body) = 8 + zlen body) as Hz by zlia.
  rewrite Hz. case_if; [lia |].
  destruct (raw_ok b n bs st (pod_header (zlen body) t ++ body) Hb) as (b1 & -> & Hb1); [lia |]. cbn [obind].
  unfold spa_pod_builder_pad. rewrite round_pad_u32 by lia.
  assert (pad8 (8 + zlen body) = pad8 (zlen body)) as ->.
  { unfold pad8. pose proof (round8_add 1 (zlen body)) as Hr. rewrite Z.mul_1_r in Hr. lia. }
  rewrite Hz in Hb1. unfold enc_pod. pose proof (pad8_bounds (zlen body)).
  destruct (Z.eqb_spec (pad8 (zlen body)) 0) as [Hp | Hp].
  - exists b1. split; [done |]. rewrite Hp. unfold zeros. simpl. rewrite app_nil_r.
    by rewrite zlen_app, zlen_pod_header.
  - destruct (raw_ok b1 n _ _ (zeros (pad8 (zlen body))) Hb1) as (b2 & -> & Hb2);
      [rewrite zlen_app, Hz, zlen_zeros by lia; unfold pad8 in *; lia |].
    exists b2. split; [done |]. rewrite grow_stack_add, <- !app_assoc in Hb2. by rewrite !zlen_app, zlen_pod_header, Z.add_assoc.
Qed.

Definition mate (fl : option (list item)) (p : prop) : option prop := fl ≫= find_key (pr_key p).

(** Room for the result, and for what a rejected property leaves behind. *)
Definition room_one (fl : option (list item)) (i : item) : Z :=
  match i with
  | IPod _ _ => 0
  | IProp p => match mate fl p with None => zlen (enc_prop p) | Some p2 => step_size p p2 end
  end.
Definition room (fl : option (list item)) (l : list item) : Z := foldr (fun i k => room_one fl i + k) 0 l.

(** Properties of one key and type have values of one size that can be compared. *)
Definition pairs_ok (fl : option (list item)) (l : list item) : Prop :=
  forall p p2, IProp p ∈ l -> mate fl p = Some p2 -> pr_type p = pr_type p2 -> pair_ok p p2.

Definition filter_at (filter : option (bytes * Z)) (fl : option (list item)) : Prop :=
  match filter, fl with
  | None, None => True
  | Some (m, n), Some l => Forall item_ok l /\ value_at m 0 (enc_items l) /\ n = zlen (enc_items l)
  | _, _ => False
  end.

Lemma value_at_fits m a v : value_at m a v -> (length v <= length m)%nat.
Proof. intros (pre & post & -> & _). rewrite !length_app. lia. Qed.

Lemma items_fuel m a l : Forall item_ok l -> value_at m a (enc_items l) -> (length l <= length m)%nat.
Proof. intros Hl%length_enc_items Hat%value_at_fits. unfold zlen in Hl. lia. Qed.

Lemma mate_ok filter fl p :
  filter_at filter fl ->
  match mate fl p with
  | None => match filter with None => Done None | Some (fm, n) => find_prop fm n (pr_key p) end = Done None
  | Some p2 => exists fm n q, filter = Some (fm, n) /\ find_prop fm n (pr_key p) = Done (Some q) /\ prop_at fm q p2 /\ prop_ok p2
  end.
Proof.
  unfold filter_at, mate. destruct filter as [[fm n]|], fl as [l|]; try done. intros (Hl & Hat & ->).
  change (Some l ≫= find_key (pr_key p)) with (find_key (pr_key p) l).
  pose proof (find_prop_ok (pr_key p) l (length fm) fm 0 Hl Hat (items_fuel _ _ _ Hl Hat)) as Hf. rewrite Z.add_0_l in Hf.
  unfold find_prop. destruct (find_key (pr_key p) l) as [p2|]; [| exact Hf]. destruct Hf as (q & Hq & Hp).
  by exists fm, (zlen (enc_items l)), q.
Qed.

Lemma prop_read m a p : prop_at m a p -> prop_ok p -> mread a (u32 (8 + zlen (prop_body p))) m = Some (bare p).
Proof.
  intros Hat Hok. pose proof (po_small _ Hok). pose proof (zlen_nonneg (prop_body p)).
  rewrite u32_small by (unfold is_u32; lia). replace (8 + zlen (prop_body p)) with (zlen (bare p)) by (unfold bare; zlia).
  by apply value_read.
Qed.

(** One turn of the loop. *)
Definition filter_item (fl : option (list item)) (p : prop) : prop + Z :=
  match mate fl p with None => inl p | Some p2 => filter_one p p2 end.

Lemma filter_turn_ok filter fl p m a l last fuel (b : builder) n bs st :
  filter_at filter fl -> (forall p2, mate fl p = Some p2 -> pr_type p = pr_type p2 -> pair_ok p p2) ->
  value_at m a (enc_items (IProp p :: l)) -> prop_ok p -> a < last ->
  building b n bs st -> aligned bs -> zlen bs + room_one fl (IProp p) <= n ->
  match filter_item fl p with
  | inr r => exists b', filter_loop (S fuel) b m a last filter = Done (FilterError r b')
  | inl q => exists b', filter_loop (S fuel) b m a last filter = filter_loop fuel b' m (a + zlen (enc_prop p)) last filter /\
      building b' n (bs ++ enc_prop q) (grow_stack (zlen (enc_prop q)) st) /\ zlen (enc_prop q) = room_one fl (IProp p)
  end.
Proof.
  intros Hfl Hpair Hat Hok Hlast Hb Hal Hroom. pose proof (item_at m a (IProp p) l Hat) as Hp. simpl in Hp.
  pose proof (mate_ok filter fl p Hfl) as Hmate. unfold filter_item. cbn [filter_loop room_one] in *.
  case_if; [| lia]. rewrite (item_type_at m a (IProp p) l Hat Hok), (item_size m a (IProp p) l Hat Hok). cbn [obind item_type item_body].
  rewrite (item_step a (IProp p) : a + SPA_ROUND_UP_N (8 + zlen (prop_body p)) 8 = _).
  rewrite (at_key _ _ _ Hp Hok). cbn [obind Z.eqb Pos.eqb negb SPA_POD_TYPE_PROP].
  destruct (mate fl p) as [p2|] eqn:Hm.
  - destruct Hmate as (fm & k & q & -> & -> & Hq & Hok2). cbn [obind].
    pose proof (filter_prop_ok p p2 m fm a q Hp Hq Hok Hok2 (Hpair p2 eq_refl) b n bs st Hb Hal Hroom) as Hone.
    destruct (filter_one p p2) as [q'|r]; [destruct Hone as (b' & -> & Hb') | destruct Hone as (b' & ->)]; cbn [obind]; by exists b'.
  - destruct (padded_ok b n bs st SPA_POD_TYPE_PROP (prop_body p) Hb Hroom) as (b' & Hr & Hb'). unfold bare in *.
    exists b'. split; [| done].
    transitivity (let* b := (let* (b, _) := spa_pod_builder_raw_padded b (bare p) in Done b) in
      filter_loop fuel b m (a + zlen (enc_prop p)) last filter); [| by unfold bare; rewrite Hr].
    destruct filter as [[fm k]|]; [rewrite Hmate |]; cbn [obind]; rewrite (prop_read m a p Hp Hok); cbn [of_option obind];
      by destruct (spa_pod_builder_raw_padded _ _) as [[b1 r1]| |].
Qed.

Lemma aligned_enc_prop q : aligned (enc_prop q).
Proof. apply aligned_enc_pod. Qed.

Lemma room_nonneg fl l : 0 <= room fl l.
Proof.
  induction l as [|[p|t body] l IH]; simpl; [done | | done].
  destruct (mate fl p) as [p2|]; [unfold step_size; destruct (filter_alts p p2) |];
    repeat match goal with |- context [zlen ?x] => lazymatch goal with H : 0 <= zlen x |- _ => fail | _ => pose proof (zlen_nonneg x) end end; lia.
Qed.

Lemma filter_loop_ok filter fl m last n l :
  filter_at filter fl -> forall fuel a (b : builder) bs st,
  Forall item_ok l -> pairs_ok fl l -> value_at m a (enc_items l) -> last = a + zlen (enc_items l) -> (length l <= fuel)%nat ->
  building b n bs st -> aligned bs -> zlen bs + room fl l <= n ->
  match filter_items l fl with
  | inr r => exists b', filter_loop fuel b m a last filter = Done (FilterError r b')
  | inl qs => exists b', filter_loop fuel b m a last filter = Done (Filtered b') /\
      building b' n (bs ++ concat (map enc_prop qs)) (grow_stack (zlen (concat (map enc_prop qs))) st)
  end.
Proof.
  intros Hfl. induction l as [|i l IH]; intros fuel a b bs st Hok Hpairs Hat Hlast Hfuel Hb Hal Hroom.
  { change (zlen (enc_items [])) with 0 in Hlast. exists b. split; [destruct fuel; simpl; (case_if; [lia | done]) |].
    simpl. rewrite app_nil_r, zlen_nil, grow_stack_0 by apply Hb. done. }
  apply Forall_cons in Hok as [Hi Hok]. destruct fuel as [|fuel]; [simpl in Hfuel; lia |]. simpl in Hfuel.
  destruct (zlen_enc_items_pos i l Hi) as [Hi8 Hl0]. pose proof (items_next m a i l Hat) as Hnext.
  rewrite enc_items_cons, zlen_app in Hlast. cbn [room foldr] in Hroom. fold (room fl l) in Hroom. pose proof (room_nonneg fl l).
  assert (pairs_ok fl l) as Hpairs' by (intros p p2 Hp; apply Hpairs; by apply elem_of_cons; right).
  destruct i as [p|t body].
  - pose proof (filter_turn_ok filter fl p m a l last fuel b n bs st Hfl) as Hturn.
    specialize (Hturn ltac:(intros p2; apply Hpairs, elem_of_cons; by left) Hat Hi ltac:(lia) Hb Hal ltac:(lia)).
    cbn [filter_items]. change (match fl ≫= find_key (pr_key p) with None => inl p | Some p2 => filter_one p p2 end) with (filter_item fl p).
    destruct (filter_item fl p) as [q|r]; [| done]. destruct Hturn as (b1 & -> & Hb1 & Hq).
    specialize (IH fuel _ b1 _ _ Hok Hpairs' Hnext ltac:(simpl in *; lia) ltac:(lia) Hb1).
    specialize (IH ltac:(auto using aligned_enc_prop with pinos) ltac:(rewrite zlen_app; lia)).
    destruct (filter_items l fl) as [qs|r]; [| exact IH]. destruct IH as (b' & Hr & Hb'). exists b'. split; [exact Hr |].
    cbn [map concat]. by rewrite app_assoc, zlen_app, <- grow_stack_add.
  - cbn [filter_loop filter_items]. case_if; [| lia].
    rewrite (item_type_at m a _ l Hat Hi), (item_size m a _ l Hat Hi). cbn [obind item_type].
    destruct Hi as (Ht & Hne & Hs). rewrite (proj2 (Z.eqb_neq _ _) Hne). cbn [negb]. rewrite item_step.
    cbn [room_one] in Hroom. apply IH; done || lia.
Qed.

Lemma filter_one_error p p2 r : filter_one p p2 = inr r -> r < 0.
Proof.
  unfold filter_one, filter_alts, enum_of. repeat case_match; try done; intros; simplify_eq; by compute.
Qed.

Lemma filter_items_error fl l r : filter_items l fl = inr r -> r < 0.
Proof.
  induction l as [|[p|t body] l IH]; simpl; [done | | done].
  destruct (fl ≫= find_key (pr_key p)) as [p2|].
  - destruct (filter_one p p2) as [q|r'] eqn:Hq; [destruct (filter_items l fl); naive_solver |].
    intros [= <-]. by eapply filter_one_error.
  - destruct (filter_items l fl); naive_solver.
Qed.

(** ** What the result allows *)

(** The values a property allows. *)
Definition allowed (p : prop) (v : bytes) : Prop :=
  if is_range (prop_range p) then 0 <= cmp (pr_type p) v (lower p) /\ cmp (pr_type p) v (upper p) <= 0
  else exists w, w ∈ alts p /\ cmp (pr_type p) v w = 0.

(** Booleans and ids are only compared for equality. *)
Definition ordered_type (t : Z) : bool := negb ((t =? SPA_POD_TYPE_BOOL) || (t =? SPA_POD_TYPE_ID)).

Section Intersection.
(** The values in use, on which [compare_value] agrees with a rank. *)
Context (D : Z -> bytes -> Prop) (rank : Z -> bytes -> Z).

Record ranked : Prop := {
  rk_equal : forall t a b, D t a -> D t b -> exists c, compare_value t a b = Done c /\ (c = 0 <-> rank t a = rank t b);
  rk_order : forall t a b c, ordered_type t = true -> D t a -> D t b -> compare_value t a b = Done c -> (c < 0 <-> rank t a < rank t b)
}.
Context (HD : ranked).

(** A property with a kind of range that can be negotiated. *)
Record negotiable (p : prop) : Prop := {
  ng_ok : prop_ok p;
  ng_values : Forall (D (pr_type p)) (pr_vals p);
  ng_kind : is_enum (prop_range p) || is_range (prop_range p) = true;
  ng_range : is_range (prop_range p) = true -> prop_unset p = true /\ (3 <= length (pr_vals p))%nat /\ ordered_type (pr_type p) = true
}.

Lemma cmp_eq t a b : D t a -> D t b -> (cmp t a b = 0 <-> rank t a = rank t b).
Proof. intros Ha Hb. destruct (rk_equal HD t a b Ha Hb) as (c & Hc & Heq). unfold cmp. by rewrite Hc. Qed.

Lemma cmp_order t a b : ordered_type t = true -> D t a -> D t b -> (cmp t a b < 0 <-> rank t a < rank t b).
Proof.
  intros Ht Ha Hb. destruct (rk_equal HD t a b Ha Hb) as (c & Hc & _). unfold cmp. rewrite Hc. by apply (rk_order HD t a b c).
Qed.

(** Between two bounds, in ranks. *)
Lemma cmp_between t v lo hi : ordered_type t = true -> D t v -> D t lo -> D t hi ->
  (0 <= cmp t v lo /\ cmp t v hi <= 0 <-> rank t lo <= rank t v <= rank t hi).
Proof.
  intros Ht Hv Hl Hh. pose proof (cmp_order t v lo Ht Hv Hl). pose proof (cmp_order t v hi Ht Hv Hh). pose proof (cmp_eq t v hi Hv Hh). lia.
Qed.

Lemma negotiable_D p v : negotiable p -> v ∈ pr_vals p -> D (pr_type p) v.
Proof. intros Hp. exact (proj1 (Forall_forall _ _) (ng_values _ Hp) v). Qed.

Lemma bounds_D p : negotiable p -> is_range (prop_range p) = true ->
  (2 <= length (choices p))%nat /\ D (pr_type p) (lower p) /\ D (pr_type p) (upper p).
Proof.
  intros Hp Hr. destruct (ng_range _ Hp Hr) as (Hu & Hlen & _).
  assert (2 <= length (choices p))%nat as H2. { unfold choices. rewrite Hu. destruct (pr_vals p); simpl in *; lia. }
  split_and!; [done | |]; eapply negotiable_D; try done; eapply choices_subseteq, list_elem_of_lookup_2, nth_choice_lookup; lia.
Qed.

Lemma alts_D p w : negotiable p -> w ∈ alts p -> D (pr_type p) w.
Proof. intros Hp Hw%alts_subseteq. by eapply negotiable_D. Qed.

(** [allowed] in ranks. *)
Lemma allowed_rank p v : negotiable p -> D (pr_type p) v ->
  (allowed p v <-> if is_range (prop_range p) then rank (pr_type p) (lower p) <= rank (pr_type p) v <= rank (pr_type p) (upper p)
                   else exists w, w ∈ alts p /\ rank (pr_type p) v = rank (pr_type p) w).
Proof.
  intros Hp Hv. unfold allowed. destruct (is_range _) eqn:Hr.
  - destruct (bounds_D p Hp Hr) as (_ & Hl & Hh). apply cmp_between; [apply (ng_range _ Hp Hr) | done..].
  - split; intros (w & Hw & Hc); exists w; (split; [done |]); apply (cmp_eq _ v w Hv (alts_D p w Hp Hw)); done.
Qed.

Lemma negotiable_pair p1 p2 : negotiable p1 -> negotiable p2 -> pr_type p1 = pr_type p2 -> pr_size p1 = pr_size p2 -> pair_ok p1 p2.
Proof.
  intros H1 H2 Ht Hs. split; [done | | |].
  - intros a b Ha Hb. assert (forall v, v ∈ pr_vals p1 ++ pr_vals p2 -> D (pr_type p1) v) as HinD.
    { intros v [Hv | Hv]%elem_of_app; [by apply negotiable_D | rewrite Ht; by apply negotiable_D]. }
    destruct (rk_equal HD (pr_type p1) a b (HinD a Ha) (HinD b Hb)) as (c & Hc & _). by exists c.
  - intros Hr. apply bounds_D; [done |]. unfold is_range. by rewrite Hr.
  - intros Hr. apply bounds_D; [done |]. unfold is_range. by rewrite Hr.
Qed.

Lemma best_in t v (l : list bytes) : l <> [] ->
  default v match index_of (fun a => cmp t v a =? 0) l with Some i => l !! i | None => head l end ∈ l.
Proof.
  intros Hl. destruct (index_of _ l) as [i|] eqn:Hi.
  - destruct (lookup_lt_is_Some_2 l i) as [a Ha]; [by eapply index_of_lt |]. rewrite Ha. by eapply list_elem_of_lookup_2.
  - destruct l as [|a l]; [done |]. by apply elem_of_cons; left.
Qed.

(** An enumeration after its default is fixed. *)
Lemma fix_enum p1 l : prop_ok p1 -> l <> [] ->
  let q := fix_prop (new_prop p1 l enum_flags) in
  pr_key q = pr_key p1 /\ pr_type q = pr_type p1 /\ is_range (prop_range q) = false /\ alts q = l /\
  exists d, head (pr_vals q) = Some d /\ d ∈ l.
Proof.
  intros H1 Hl. pose proof (po_some _ H1) as Hne. destruct (pr_vals p1) as [|v vs] eqn:Hv; [done |].
  unfold new_prop. rewrite Hv. unfold fix_prop, prop_range. cbn [pr_flags pr_vals pr_type pr_key pr_size head tail].
  change (take 1 (v :: vs)) with [v]. cbn [app].
  change (is_range (Z.land enum_flags SPA_POD_PROP_RANGE_MASK)) with false. cbn [app].
  change (Z.land enum_flags SPA_POD_PROP_RANGE_MASK =? SPA_POD_PROP_RANGE_ENUM) with true. cbv iota.
  pose proof (best_in (pr_type p1) v l Hl) as Hbest. cbn [head tail] in *. change (default [] (Some v)) with v.
  set (b := default v _) in *. cbv zeta. cbn [pr_flags pr_vals pr_type pr_key pr_size].
  split_and!; [done | done | by case_match | | by exists b].
  unfold alts, prop_unset. cbn [pr_flags pr_vals]. destruct (Z.eqb_spec (zlen l) 1) as [Hlen | Hlen].
  - change (negb (Z.land (Z.land enum_flags (Z.lnot (SPA_POD_PROP_FLAG_UNSET + SPA_POD_PROP_RANGE_MASK))) SPA_POD_PROP_FLAG_UNSET =? 0)) with false.
    cbv iota. destruct l as [|x [|y l]]; [done | | rewrite !zlen_cons in Hlen; pose proof (zlen_nonneg l); lia].
    by apply list_elem_of_singleton in Hbest as ->.
  - by change (negb (Z.land enum_flags SPA_POD_PROP_FLAG_UNSET =? 0)) with true.
Qed.

(** A range after its default is fixed. *)
Lemma fix_range p1 lo hi : prop_ok p1 ->
  let q := fix_prop (new_prop p1 [lo; hi] range_flags) in
  pr_key q = pr_key p1 /\ pr_type q = pr_type p1 /\ is_range (prop_range q) = true /\ lower q = lo /\ upper q = hi /\
  exists v, head (pr_vals p1) = Some v /\ head (pr_vals q) =
    Some (let x := if cmp (pr_type p1) v lo <? 0 then lo else v in if cmp (pr_type p1) x hi >? 0 then hi else x).
Proof.
  intros H1. pose proof (po_some _ H1) as Hne. unfold new_prop, lower, upper, nth_choice, choices.
  destruct (pr_vals p1) as [|v vs] eqn:Hv; [done |]. split_and!; try done. by exists v.
Qed.

Definition no_common_value (p1 p2 : prop) : Prop := forall v, D (pr_type p1) v -> ~ (allowed p1 v /\ allowed p2 v).
Definition both_ranges (p1 p2 : prop) : bool := is_range (prop_range p1) && is_range (prop_range p2).

(** What [filter_one] decides for two negotiable properties of one key and type: the new
    property allows what both allow, and its default is such a value; only two ranges that
    do not meet pass for compatible, and give a range whose minimum exceeds its maximum. *)
Definition narrows (q p1 p2 : prop) : Prop :=
  pr_key q = pr_key p1 /\ pr_type q = pr_type p1 /\
  (forall v, D (pr_type p1) v -> allowed q v <-> allowed p1 v /\ allowed p2 v) /\
  ((exists d, head (pr_vals q) = Some d /\ D (pr_type p1) d /\ allowed q d) \/
   both_ranges p1 p2 = true /\ no_common_value p1 p2 /\ is_range (prop_range q) = true /\ 0 < cmp (pr_type p1) (lower q) (upper q)).

(** The enumeration cases: the values copied are the ones allowed by both. *)
Lemma enum_narrows p1 p2 l :
  prop_ok p1 -> Forall (D (pr_type p1)) l ->
  (forall v, D (pr_type p1) v -> (exists w, w ∈ l /\ rank (pr_type p1) v = rank (pr_type p1) w) <-> allowed p1 v /\ allowed p2 v) ->
  match enum_of l with
  | Alts vals flags => narrows (fix_prop (new_prop p1 vals flags)) p1 p2
  | Reject r => r = SPA_RESULT_INCOMPATIBLE_PROPS /\ no_common_value p1 p2
  end.
Proof.
  intros H1 Hl Hall. rewrite Forall_forall in Hl. destruct (decide (l = [])) as [-> | Hne].
  { split; [done |]. intros v Hv Hboth. apply (Hall v Hv) in Hboth as (w & Hw%elem_of_nil & _). done. }
  assert (enum_of l = Alts l enum_flags) as -> by by destruct l.
  destruct (fix_enum p1 l H1 Hne) as (Hk & Ht & Hr & Ha & d & Hd & Hdl). set (q := fix_prop _) in *.
  assert (forall v, D (pr_type p1) v -> allowed q v <-> allowed p1 v /\ allowed p2 v) as Hq.
  { intros v Hv. rewrite <- (Hall v Hv). unfold allowed. rewrite Hr, Ha, Ht.
    split; intros (w & Hw & Hc); exists w; (split; [done |]); apply (cmp_eq _ v w Hv (Hl w Hw)); done. }
  split_and!; [done | done | done |]. left. exists d. split; [done |]. split; [auto |].
  unfold allowed. rewrite Hr, Ha, Ht. exists d. split; [done |]. apply cmp_eq; auto.
Qed.

Section Pair.
Context (p1 p2 : prop) (N1 : negotiable p1) (N2 : negotiable p2) (Ht : pr_type p1 = pr_type p2).
Local Abbreviation t := (pr_type p1).
Local Abbreviation r := (rank t).

Lemma allowed2_rank v : D t v ->
  (allowed p2 v <-> if is_range (prop_range p2) then r (lower p2) <= r v <= r (upper p2) else exists w, w ∈ alts p2 /\ r v = r w).
Proof. rewrite Ht. by apply allowed_rank. Qed.

Lemma alts2_D w : w ∈ alts p2 -> D t w.
Proof. rewrite Ht. by apply alts_D. Qed.

Lemma bounds2_D : is_range (prop_range p2) = true ->
  (2 <= length (choices p2))%nat /\ D t (lower p2) /\ D t (upper p2).
Proof. rewrite Ht. by apply bounds_D. Qed.

Lemma ordered2 : is_range (prop_range p2) = true -> ordered_type t = true.
Proof. rewrite Ht. intros. by apply (ng_range _ N2). Qed.

Lemma enum_enum_common v : is_range (prop_range p1) = false -> is_range (prop_range p2) = false -> D t v ->
  (exists w, w ∈ equal_values t (alts p1) (alts p2) /\ r v = r w) <-> allowed p1 v /\ allowed p2 v.
Proof.
  intros R1 R2 Hv. rewrite (allowed_rank p1 v N1 Hv), (allowed2_rank v Hv), R1, R2. setoid_rewrite elem_of_equal. split.
  - intros (w & (Hw & u & Hu & Hc) & Hr). apply cmp_eq in Hc; [| by apply alts_D | by apply alts2_D].
    split; [by exists w | exists u; split; [done | lia]].
  - intros [(w & Hw & Hr) (u & Hu & Hr')]. exists w. split_and!; [done | | done].
    exists u. split; [done |]. apply cmp_eq; [by apply alts_D | by apply alts2_D | lia].
Qed.

Lemma enum_range_common v : is_range (prop_range p1) = false -> is_range (prop_range p2) = true -> D t v ->
  (exists w, w ∈ inside_values t (alts p1) (lower p2) (upper p2) /\ r v = r w) <-> allowed p1 v /\ allowed p2 v.
Proof.
  intros R1 R2 Hv. rewrite (allowed_rank p1 v N1 Hv), (allowed2_rank v Hv), R1, R2. setoid_rewrite elem_of_inside.
  destruct (bounds2_D R2) as (_ & Hl & Hh). split.
  - intros (w & (Hw & Hc) & Hr). apply cmp_between in Hc; [| by apply ordered2 | by apply alts_D | done | done].
    split; [by exists w | lia].
  - intros [(w & Hw & Hr) Hin]. exists w. split_and!; try done; apply (cmp_between t w (lower p2) (upper p2));
      by (auto using ordered2, alts_D || lia).
Qed.

Lemma range_enum_common v : is_range (prop_range p1) = true -> is_range (prop_range p2) = false -> D t v ->
  (exists w, w ∈ inside_values t (alts p2) (lower p1) (upper p1) /\ r v = r w) <-> allowed p1 v /\ allowed p2 v.
Proof.
  intros R1 R2 Hv. rewrite (allowed_rank p1 v N1 Hv), (allowed2_rank v Hv), R1, R2. setoid_rewrite elem_of_inside.
  destruct (bounds_D p1 N1 R1) as (_ & Hl & Hh). destruct (ng_range _ N1 R1) as (_ & _ & Ho). split.
  - intros (w & (Hw & Hc) & Hr). apply cmp_between in Hc; [| done | by apply alts2_D | done | done].
    split; [lia | by exists w].
  - intros [Hin (w & Hw & Hr)]. exists w. split_and!; try done; apply (cmp_between t w (lower p1) (upper p1));
      by (auto using alts2_D || lia).
Qed.

Lemma range_range_narrows : is_range (prop_range p1) = true -> is_range (prop_range p2) = true ->
  narrows (fix_prop (new_prop p1
    [if cmp t (lower p1) (lower p2) <? 0 then lower p2 else lower p1;
     if cmp t (upper p1) (upper p2) <? 0 then upper p1 else upper p2] range_flags)) p1 p2.
Proof.
  intros R1 R2. destruct (ng_range _ N1 R1) as (_ & _ & Ho).
  destruct (bounds_D p1 N1 R1) as (_ & Hl1 & Hh1). destruct (bounds2_D R2) as (_ & Hl2 & Hh2).
  set (lo := if cmp t (lower p1) (lower p2) <? 0 then lower p2 else lower p1).
  set (hi := if cmp t (upper p1) (upper p2) <? 0 then upper p1 else upper p2).
  assert (D t lo /\ r lo = Z.max (r (lower p1)) (r (lower p2))) as [Hlo Hrlo].
  { unfold lo. pose proof (cmp_order t _ _ Ho Hl1 Hl2). destruct (Z.ltb_spec (cmp t (lower p1) (lower p2)) 0); (split; [done | lia]). }
  assert (D t hi /\ r hi = Z.min (r (upper p1)) (r (upper p2))) as [Hhi Hrhi].
  { unfold hi. pose proof (cmp_order t _ _ Ho Hh1 Hh2). destruct (Z.ltb_spec (cmp t (upper p1) (upper p2)) 0); (split; [done | lia]). }
  destruct (fix_range p1 lo hi (ng_ok _ N1)) as (Hk & Hty & Hr & Hlq & Huq & v0 & Hv0 & Hd). set (q := fix_prop _) in *.
  assert (forall v, D t v -> allowed q v <-> r lo <= r v <= r hi) as Hq.
  { intros v Hv. unfold allowed. rewrite Hr, Hlq, Huq, Hty. by apply cmp_between. }
  split_and!; [done | done | |].
  - intros v Hv. rewrite (Hq v Hv), (allowed_rank p1 v N1 Hv), (allowed2_rank v Hv), R1, R2. lia.
  - assert (D t v0) as HD0 by (eapply negotiable_D; [done |]; destruct (pr_vals p1); simplify_eq/=; by apply elem_of_cons; left).
    pose proof (cmp_order t lo hi Ho Hlo Hhi). pose proof (cmp_eq t lo hi Hlo Hhi).
    destruct (decide (r lo <= r hi)) as [Hmeet | Hapart]; [left | right].
    + eexists. split; [exact Hd |].
      pose proof (cmp_order t v0 lo Ho HD0 Hlo). destruct (Z.ltb_spec (cmp t v0 lo) 0); cbv zeta; rewrite Z.gtb_ltb.
      * destruct (Z.ltb_spec 0 (cmp t lo hi)); (split; [done |]); apply Hq; by (done || lia).
      * pose proof (cmp_order t v0 hi Ho HD0 Hhi). pose proof (cmp_eq t v0 hi HD0 Hhi).
        destruct (Z.ltb_spec 0 (cmp t v0 hi)); (split; [done |]); apply Hq; by (done || lia).
    + unfold both_ranges. rewrite R1, R2. split; [done |]. split; [| split; [done | rewrite Hlq, Huq; lia]].
      intros v Hv. rewrite (allowed_rank p1 v N1 Hv), (allowed2_rank v Hv), R1, R2. lia.
Qed.

Lemma filter_one_narrows :
  match filter_one p1 p2 with
  | inl q => narrows q p1 p2
  | inr e => e = SPA_RESULT_INCOMPATIBLE_PROPS /\ no_common_value p1 p2 /\ both_ranges p1 p2 = false
  end.
Proof.
  pose proof (ng_ok _ N1) as Ok1. pose proof (ng_kind _ N1) as K1. pose proof (ng_kind _ N2) as K2.
  assert (forall p, is_enum (prop_range p) = true -> is_range (prop_range p) = false) as Hex.
  { intros p. unfold is_enum, is_range, SPA_POD_PROP_RANGE_NONE, SPA_POD_PROP_RANGE_ENUM, SPA_POD_PROP_RANGE_MIN_MAX.
    destruct (Z.eqb_spec (prop_range p) 0) as [-> | ?]; [done |]. by destruct (Z.eqb_spec (prop_range p) 3) as [-> | ?]. }
  assert (Henum : both_ranges p1 p2 = false -> forall l, l ⊆ alts p1 ++ alts p2 ->
    (forall v, D t v -> (exists w, w ∈ l /\ r v = r w) <-> allowed p1 v /\ allowed p2 v) ->
    match (match enum_of l with
           | Alts vals flags => inl (fix_prop (new_prop p1 vals flags))
           | Reject e => inr e
           end) with
    | inl q => narrows q p1 p2
    | inr e => e = SPA_RESULT_INCOMPATIBLE_PROPS /\ no_common_value p1 p2 /\ both_ranges p1 p2 = false
    end).
  { intros Hb l Hl Hc. pose proof (enum_narrows p1 p2 l Ok1) as He.
    assert (match enum_of l with
            | Alts vals flags => narrows (fix_prop (new_prop p1 vals flags)) p1 p2
            | Reject e => e = SPA_RESULT_INCOMPATIBLE_PROPS /\ no_common_value p1 p2
            end) as Hn; [| by destruct (enum_of l); [| destruct Hn]].
    apply He; [| done]; apply Forall_forall;
      (intros v [Hv | Hv]%Hl%elem_of_app; [by apply alts_D | by apply alts2_D]). }
  unfold filter_one. rewrite Ht, Z.eqb_refl. rewrite <- Ht. unfold filter_alts.
  destruct (is_enum (prop_range p1)) eqn:E1, (is_enum (prop_range p2)) eqn:E2; cbn [andb orb] in *.
  - apply Henum; [unfold both_ranges; by rewrite (Hex p1) | intros v (Hv & _)%elem_of_equal; apply elem_of_app; auto |]. intros. by apply enum_enum_common; auto.
  - rewrite K2. apply Henum; [unfold both_ranges; by rewrite (Hex p1) | intros v (Hv & _)%elem_of_inside; apply elem_of_app; auto |]. intros. by apply enum_range_common; auto.
  - rewrite K1. cbn [andb]. apply Henum; [unfold both_ranges; by rewrite (Hex p2), andb_false_r | intros v (Hv & _)%elem_of_inside; apply elem_of_app; auto |]. intros. by apply range_enum_common; auto.
  - rewrite K1, K2. cbn [andb]. by apply range_range_narrows.
Qed.
End Pair.

(** A pair of items that meet: both negotiable, of one size when of one type. *)
Definition negotiable_items (fl : option (list item)) (l : list item) : Prop :=
  forall p p2, IProp p ∈ l -> mate fl p = Some p2 ->
    negotiable p /\ negotiable p2 /\ (pr_type p = pr_type p2 -> pr_size p = pr_size p2).

Definition only_props (l : list item) : list prop := omap (fun i => match i with IProp p => Some p | IPod _ _ => None end) l.

Definition negotiated (fl : option (list item)) (p q : prop) : Prop :=
  match mate fl p with None => q = p | Some p2 => narrows q p p2 end.

Lemma negotiable_pairs fl l : negotiable_items fl l -> pairs_ok fl l.
Proof. intros Hn p p2 Hp Hm Ht. destruct (Hn p p2 Hp Hm) as (N1 & N2 & Hs). apply negotiable_pair; auto. Qed.

Lemma filter_items_negotiated fl l : negotiable_items fl l ->
  match filter_items l fl with
  | inl qs => Forall2 (negotiated fl) (only_props l) qs
  | inr e => e = SPA_RESULT_INCOMPATIBLE_PROPS /\
      exists p p2, IProp p ∈ l /\ mate fl p = Some p2 /\ (pr_type p <> pr_type p2 \/ no_common_value p p2 /\ both_ranges p p2 = false)
  end.
Proof.
  induction l as [|i l IH]; intros Hn; [constructor |].
  assert (negotiable_items fl l) as Hn' by (intros p p2 Hp; apply Hn; by apply elem_of_cons; right). specialize (IH Hn').
  assert (forall i', (exists p p2, IProp p ∈ l /\ mate fl p = Some p2 /\ (pr_type p <> pr_type p2 \/ no_common_value p p2 /\ both_ranges p p2 = false)) ->
    exists p p2, IProp p ∈ i' :: l /\ mate fl p = Some p2 /\ (pr_type p <> pr_type p2 \/ no_common_value p p2 /\ both_ranges p p2 = false)) as Hlift
    by (intros i' (p & p2 & Hp & Hrest); exists p, p2; split; [by apply elem_of_cons; right | done]).
  destruct i as [p|t body]; cbn [filter_items only_props omap list_omap].
  - change (match fl ≫= find_key (pr_key p) with None => inl p | Some p2 => filter_one p p2 end) with (filter_item fl p).
    assert (IProp p ∈ IProp p :: l) as Hin by by apply elem_of_cons; left.
    assert (match filter_item fl p with
            | inl q => negotiated fl p q
            | inr e => e = SPA_RESULT_INCOMPATIBLE_PROPS /\ exists p2, mate fl p = Some p2 /\ (pr_type p <> pr_type p2 \/ no_common_value p p2 /\ both_ranges p p2 = false)
            end) as Hone.
    { unfold filter_item, negotiated. destruct (mate fl p) as [p2|] eqn:Hm; [| done]. destruct (Hn p p2 Hin Hm) as (N1 & N2 & _).
      destruct (decide (pr_type p = pr_type p2)) as [Ht | Ht].
      - pose proof (filter_one_narrows p p2 N1 N2 Ht) as Hf. destruct (filter_one p p2); naive_solver.
      - unfold filter_one. rewrite (proj2 (Z.eqb_neq _ _) Ht). naive_solver. }
    destruct (filter_item fl p) as [q|e]; [| destruct Hone as (-> & p2 & Hm & Hc); split; [done | by exists p, p2]].
    destruct (filter_items l fl) as [qs|e]; [by constructor | destruct IH as [-> Hex]; auto].
  - destruct (filter_items l fl) as [qs|e]; [done | destruct IH as [-> Hex]; auto].
Qed.
End Intersection.

(** *** Integers and ids of up to 30 bits are ranked *)

Definition small_word (t : Z) (v : bytes) : Prop :=
  (t = SPA_POD_TYPE_INT \/ t = SPA_POD_TYPE_ID) /\ exists i, v = le32 i /\ 0 <= i < 2 ^ 30.
Definition word_rank (_ : Z) (v : bytes) : Z := default 0 (load32 0 v).

Lemma load32_word i : 0 <= i < 2 ^ 30 -> load32 0 (le32 i) = Some i.
Proof.
  intros Hi. pose proof (load32_app [] i [] 0 eq_refl) as Hl. rewrite app_nil_r in Hl.
  change ([] ++ le32 i) with (le32 i) in Hl. rewrite Hl. f_equal. apply u32_small. unfold is_u32. lia.
Qed.

Lemma small_word_ranked : ranked small_word word_rank.
Proof.
  assert (forall a b, 0 <= a < 2 ^ 30 -> 0 <= b < 2 ^ 30 -> i32 (a - b) = a - b) as Hi32.
  { intros a b Ha Hb. unfold i32. destruct (Z.ltb_spec (a - b) 0) as [Hlt | Hge].
    - replace (a - b + 2 ^ 31) with (a - b + 2 ^ 31) by lia. rewrite Z.mod_small by lia. lia.
    - rewrite Z.mod_small by lia. lia. }
  split.
  - intros t a b (Ht & i & -> & Hi) (_ & j & -> & Hj). unfold word_rank. rewrite !load32_word by done.
    destruct Ht as [-> | ->]; unfold compare_value; cbn -[load32 le32]; rewrite !load32_word by done; cbn [of_option obind];
      (eexists; split; [done |]); simpl; [rewrite Hi32 by done; lia | by destruct (Z.eqb_spec i j)].
  - intros t a b c Ho (Ht & i & -> & Hi) (_ & j & -> & Hj). unfold word_rank. rewrite !load32_word by done.
    destruct Ht as [-> | ->]; [| done]. unfold compare_value; cbn -[load32 le32]. rewrite !load32_word by done. cbn [of_option obind].
    intros [= <-]. rewrite Hi32 by done. simpl. lia.
Qed.

(** *** A pair of formats: a rate in a range against two rates, and a format id *)

Definition words (ws : list Z) : list bytes := map le32 ws.
Definition sample_props : list item :=
  [IPod SPA_POD_TYPE_INT (le32 7);
   IProp (mkProp 10 17 SPA_POD_TYPE_INT 4 (words [44100; 8000; 96000]));
   IProp (mkProp 11 19 SPA_POD_TYPE_ID 4 (words [2; 2; 3; 5]));
   IProp (mkProp 12 0 SPA_POD_TYPE_INT 4 (words [6]))].
Definition sample_filter : list item :=
  [IProp (mkProp 11 19 SPA_POD_TYPE_ID 4 (words [3; 5; 3]));
   IProp (mkProp 10 17 SPA_POD_TYPE_INT 4 (words [48000; 48000; 192000]))].
Definition sample_result : list prop :=
  [mkProp 10 17 SPA_POD_TYPE_INT 4 (words [48000; 48000; 96000]);
   mkProp 11 19 SPA_POD_TYPE_ID 4 (words [3; 3; 5]);
   mkProp 12 0 SPA_POD_TYPE_INT 4 (words [6])].
Definition sample_buffer : SpaPODBuilder Fixed := spa_pod_builder_init (mkFixed (zeros 256) 256).
Definition filter_of (l : list item) : option (bytes * Z) := Some (enc_items l, zlen (enc_items l)).

(** [spa_props_filter] implements its specification: given the properties of a
    format in memory, the properties of a filter, and a result buffer with room for
    what is produced, the code succeeds exactly when the specification does, and then
    the buffer holds the properties the specification computes, in order, laid out
    with their sizes, padding and defaults; when the specification rejects the
    formats, the code returns a negative error. No read or write is out of bounds. *)
Theorem props_filter_refines l fl m filter (b : builder) n bs st :
  Forall item_ok l -> value_at m 0 (enc_items l) -> filter_at filter fl -> pairs_ok fl l ->
  building b n bs st -> aligned bs -> zlen bs + room fl l <= n ->
  match filter_items l fl with
  | inl qs => exists b', spa_props_filter b m (zlen (enc_items l)) filter = Done (SPA_RESULT_OK, b') /\
      building b' n (bs ++ enc_items (map IProp qs)) (grow_stack (zlen (enc_items (map IProp qs))) st)
  | inr r => exists b', spa_props_filter b m (zlen (enc_items l)) filter = Done (r, b') /\ r < 0
  end.
Proof.
  intros Hok Hat Hfl Hpairs Hb Hal Hroom.
  pose proof (filter_loop_ok filter fl m (zlen (enc_items l)) n l Hfl (length m) 0 b bs st Hok Hpairs Hat eq_refl (items_fuel _ _ _ Hok Hat) Hb Hal Hroom) as Hr.
  unfold spa_props_filter. destruct (filter_items l fl) as [qs|r] eqn:Hf.
  - destruct Hr as (b' & -> & Hb'). exists b'. split; [done |]. unfold enc_items. by rewrite map_map.
  - destruct Hr as (b' & ->). exists b'. split; [done |]. by eapply filter_items_error.
Qed.

Lemma sample_prop_ok k fl t ws :
  0 <= k < 100 /\ 0 <= fl < 100 /\ 0 <= t < 100 -> (1 <= length ws <= 4)%nat -> prop_ok (mkProp k fl t 4 (words ws)).
Proof.
  intros (Hk & Hf & Ht) Hlen. assert (Forall (fun v => zlen v = 4) (words ws)) as Hv.
  { apply Forall_forall. intros v (i & <- & _)%list_elem_of_In%in_map_iff. done. }
  split; simpl; [unfold is_u32; lia | done | done | by destruct ws; simpl in *; [lia |] |].
  unfold prop_body. simpl. autorewrite with zlen. rewrite (zlen_concat_values _ 4) by done.
  assert (zlen (words ws) <= 4) by (unfold words, zlen; rewrite length_map; lia). lia.
Qed.

Lemma sample_prop_negotiable k fl t ws :
  0 <= k < 100 -> t = SPA_POD_TYPE_INT \/ t = SPA_POD_TYPE_ID -> (1 <= length ws <= 4)%nat -> Forall (fun i => 0 <= i < 2 ^ 30) ws ->
  fl = 0 \/ fl = 19 \/ fl = 17 /\ length ws = 3%nat /\ t = SPA_POD_TYPE_INT ->
  negotiable small_word (mkProp k fl t 4 (words ws)).
Proof.
  intros Hk Ht Hlen Hws Hfl. split.
  - apply sample_prop_ok; [| done]. unfold SPA_POD_TYPE_INT, SPA_POD_TYPE_ID in *. lia.
  - apply Forall_map. eapply Forall_impl; [exact Hws |]. intros i Hi. split; [done | by exists i].
  - destruct Hfl as [-> | [-> | [-> _]]]; done.
  - unfold prop_range. simpl. destruct Hfl as [-> | [-> | (-> & Hl & ->)]]; [done | done |]. intros _.
    split_and!; [done | unfold words; rewrite length_map; lia | done].
Qed.

Ltac sample_side :=
  lazymatch goal with
  | |- Forall _ _ => repeat (apply Forall_cons; split; [lia |]); by apply Forall_nil
  | _ => unfold is_u32, SPA_POD_TYPE_INT, SPA_POD_TYPE_ID, SPA_POD_TYPE_PROP in *; simpl; lia
  end.

Lemma sample_items_ok : Forall item_ok sample_props /\ Forall item_ok sample_filter.
Proof.
  unfold sample_props, sample_filter. split; repeat (apply Forall_cons; split); try (by apply Forall_nil);
    first [apply sample_prop_ok; sample_side | cbn [item_ok]; rewrite zlen_le32; sample_side].
Qed.

Lemma only_props_in l p : IProp p ∈ l -> p ∈ only_props l.
Proof. intros Hp. apply list_elem_of_omap. by exists (IProp p). Qed.

Lemma find_key_in key l p : find_key key l = Some p -> p ∈ only_props l.
Proof.
  induction l as [|[q|t body] l IH]; simpl; [done | | done]. intros Hf. apply elem_of_cons.
  destruct (pr_key q =? key); [left; congruence | right; auto].
Qed.

Lemma sample_negotiable : negotiable_items small_word (Some sample_filter) sample_props.
Proof.
  assert (forall p, p ∈ only_props sample_props ++ only_props sample_filter -> negotiable small_word p /\ pr_size p = 4) as Hneg.
  { apply Forall_forall. unfold sample_props, sample_filter. cbn [app only_props omap list_omap].
    repeat (apply Forall_cons; split); try (by apply Forall_nil); (split; [apply sample_prop_negotiable |]);
      sample_side || done. }
  intros p p2 Hp%only_props_in Hm. destruct (Hneg p) as [N1 S1]; [apply elem_of_app; auto |].
  destruct (Hneg p2) as [N2 S2]; [apply elem_of_app; right; by eapply find_key_in |]. rewrite S1, S2. done.
Qed.

Lemma sample_building : building sample_buffer 256 [] [].
Proof. apply building_init. split_and!; [done | done | done | done |]. by eexists. Qed.

Lemma sample_at l : value_at (enc_items l) 0 (enc_items l).
Proof. exists [], []. by rewrite app_nil_r. Qed.

(** The rates meet in [48000, 96000]; the ids in 3 (twice the filter's, its default
    included, none twice in the result but 3) and 5; the last property is copied. *)
Lemma props_filter_refines_witness :
  filter_items sample_props (Some sample_filter) = inl sample_result /\
  exists b', spa_props_filter sample_buffer (enc_items sample_props) (zlen (enc_items sample_props)) (filter_of sample_filter) = Done (SPA_RESULT_OK, b') /\
    building b' 256 (enc_items (map IProp sample_result)) (grow_stack (zlen (enc_items (map IProp sample_result))) []).
Proof.
  split; [by vm_compute |].
  apply (props_filter_refines sample_props (Some sample_filter) (enc_items sample_props) (filter_of sample_filter) sample_buffer 256 [] []).
  - apply sample_items_ok.
  - apply sample_at.
  - split_and!; [apply sample_items_ok | apply sample_at | done].
  - eapply negotiable_pairs, sample_negotiable. apply small_word_ranked.
  - apply sample_building.
  - apply aligned_nil.
  - by vm_compute.
Defined.

(** C4: Filtering computes the intersection. When values of each type are compared by a rank
    and the properties that meet are enumerations or ranges, [spa_props_filter] either
    succeeds with one property per property of the format, which allows exactly the values
    allowed by both sides (or is a copy, where the filter has no such key) and whose default
    is one of these values; or it returns [SPA_RESULT_INCOMPATIBLE_PROPS], and then two
    properties of one key have different types, or have no value in common. The exception
    are two ranges: that they do not meet is never reported, and gives a property that
    allows nothing, its minimum being greater than its maximum. *)
Theorem props_filter_intersects D rank l fl m filter (b : builder) n bs st :
  ranked D rank -> negotiable_items D fl l ->
  Forall item_ok l -> value_at m 0 (enc_items l) -> filter_at filter fl ->
  building b n bs st -> aligned bs -> zlen bs + room fl l <= n ->
  (exists b' qs, spa_props_filter b m (zlen (enc_items l)) filter = Done (SPA_RESULT_OK, b') /\
    building b' n (bs ++ enc_items (map IProp qs)) (grow_stack (zlen (enc_items (map IProp qs))) st) /\
    Forall2 (negotiated D fl) (only_props l) qs) \/
  (exists b' p p2, spa_props_filter b m (zlen (enc_items l)) filter = Done (SPA_RESULT_INCOMPATIBLE_PROPS, b') /\
    IProp p ∈ l /\ mate fl p = Some p2 /\ (pr_type p <> pr_type p2 \/ no_common_value D p p2 /\ both_ranges p p2 = false)).
Proof.
  intros HD Hn Hok Hat Hfl Hb Hal Hroom. pose proof (negotiable_pairs D rank HD fl l Hn) as Hpairs.
  pose proof (filter_loop_ok filter fl m (zlen (enc_items l)) n l Hfl (length m) 0 b bs st Hok Hpairs Hat eq_refl (items_fuel _ _ _ Hok Hat) Hb Hal Hroom) as Hr.
  pose proof (filter_items_negotiated D rank HD fl l Hn) as Hf. unfold spa_props_filter.
  destruct (filter_items l fl) as [qs|r].
  - left. destruct Hr as (b' & -> & Hb'). exists b', qs. split_and!; [done | | done]. unfold enc_items. by rewrite map_map.
  - right. destruct Hr as (b' & ->). destruct Hf as (-> & p & p2 & Hex). by exists b', p, p2.
Qed.

Lemma props_filter_intersects_witness :
  (exists b' qs, spa_props_filter sample_buffer (enc_items sample_props) (zlen (enc_items sample_props)) (filter_of sample_filter) = Done (SPA_RESULT_OK, b') /\
    building b' 256 (enc_items (map IProp qs)) (grow_stack (zlen (enc_items (map IProp qs))) []) /\
    Forall2 (negotiated small_word (Some sample_filter)) (only_props sample_props) qs) \/
  (exists b' p p2, spa_props_filter sample_buffer (enc_items sample_props) (zlen (enc_items sample_props)) (filter_of sample_filter) =
      Done (SPA_RESULT_INCOMPATIBLE_PROPS, b') /\
    IProp p ∈ sample_props /\ mate (Some sample_filter) p = Some p2 /\ (pr_type p <> pr_type p2 \/ no_common_value small_word p p2 /\ both_ranges p p2 = false)).
Proof.
  apply (props_filter_intersects small_word word_rank sample_props (Some sample_filter) (enc_items sample_props) (filter_of sample_filter)
    sample_buffer 256 [] []).
  - apply small_word_ranked.
  - apply sample_negotiable.
  - apply sample_items_ok.
  - apply sample_at.
  - split_and!; [apply sample_items_ok | apply sample_at | done].
  - apply sample_building.
  - apply aligned_nil.
  - by vm_compute.
Defined.
