(* ===== verification/Buffers.v ===== *)
(** [pinos/server/link.c] ([find_param], [find_meta_enable], [alloc_buffers]): the
    parameters of a port and the buffers of a link.

    A block of shared memory holds, per buffer, its metadata, its chunks and its
    data. A pointer into the block is an offset; what the code writes to the block
    goes through bounded writes. *)
From S2P Require Import Prelude Defs Ringbuffer Pod PodUtils.

(** The types the code compares with, from [PinosType]. *)
Record PinosType := mkType {
  MetaEnable : Z; meta_enable_type : Z; meta_enable_size : Z; ringbufferSize : Z; ringbufferStride : Z;
  Buffers : Z; buffers_size : Z; buffers_stride : Z; buffers_buffers : Z;
  meta_Shared : Z; meta_Ringbuffer : Z; data_MemFd : Z
}.

(** ** Parameters *)

Definition spa_pod_is_object_type (pod : bytes) (type : Z) : outcome bool :=
  let* t := of_option (load32 4 pod) in
  if t =? SPA_POD_TYPE_OBJECT then let* o := of_option (load32 12 pod) in Done (o =? type) else Done false.

(** [spa_alloc_param_query]: what each key stored; its result is their number. *)
Definition spa_alloc_param_query (param : bytes) (keys : list (Z * Z)) : outcome (list (option got)) :=
  spa_pod_contents_queryv param 0 16 keys.

(** The variable behind a key: what it held when nothing is stored. *)
Definition stored (g : option (option got)) (old : Z) : Z :=
  match g with Some (Some (GI32 v)) => v | _ => old end.

Fixpoint find_param (params : list bytes) (type : Z) : outcome (option bytes) :=
  match params with
  | [] => Done None
  | p :: params =>
      let* b := spa_pod_is_object_type p type in
      if b then Done (Some p) else find_param params type
  end.

Fixpoint find_meta_enable (ty : PinosType) (params : list bytes) (type : Z) : outcome (option bytes) :=
  match params with
  | [] => Done None
  | p :: params =>
      let* b := spa_pod_is_object_type p (MetaEnable ty) in
      if b then
        let* gs := spa_alloc_param_query p [(meta_enable_type ty, SPA_POD_TYPE_ID)] in
        if (query_count gs =? 1) && (stored (gs !! 0%nat) 0 =? type) then Done (Some p) else find_meta_enable ty params type
      else find_meta_enable ty params type
  end.

(** ** Buffers *)

Record SpaMeta := mkMeta { meta_type : Z; meta_data : Z; meta_size : Z }.
(** [data] and [chunk] are offsets into the block; [None] is [NULL]. *)
Record SpaData := mkData { type : Z; fd : Z; mapoffset : Z; maxsize : Z; data : option Z; chunk : Z }.
Record SpaBuffer := mkBuffer { id : Z; metas : list SpaMeta; datas : list SpaData }.

Definition sizeof_SpaMeta : Z := 24.
Definition sizeof_SpaMetaShared : Z := 16.
Definition sizeof_SpaChunk : Z := 12.

Section Alloc.
Context (ty : PinosType).

(** The array [metas] has room for [24 * n_params + 1] bytes. *)
Definition add_meta (room : Z) (m : Z * Z) (l : list (Z * Z)) : outcome (list (Z * Z)) :=
  if (zlen l + 1) * sizeof_SpaMeta <=? room then Done (l ++ [m]) else Undef.

(** The (type, size) pairs of the metadata a buffer gets: a query for two values is
    taken to have succeeded when it stored one. *)
Fixpoint collect_metas (room : Z) (params : list bytes) (l : list (Z * Z)) : outcome (list (Z * Z)) :=
  match params with
  | [] => Done l
  | p :: params =>
      let* t := of_option (load32 4 p) in
      if t =? MetaEnable ty then
        let* gs := spa_alloc_param_query p [(meta_enable_type ty, SPA_POD_TYPE_ID); (meta_enable_size ty, SPA_POD_TYPE_INT)] in
        (** with one value stored the other variable is read before it is set *)
        if negb (query_count gs =? 1) then collect_metas room params l else Undef
      else collect_metas room params l
  end.

Definition sum (l : list Z) : Z := foldr Z.add 0 l.

(** Initialising the metadata of a buffer at [p], in [i]'s part of the block. *)
Fixpoint fill_metas (fd i data_size first_size : Z) (p : Z) (l : list (Z * Z)) (m : bytes) :
    outcome (list SpaMeta * Z * bytes) :=
  match l with
  | [] => Done ([], p, m)
  | (t, size) :: l =>
      let* m :=
        if t =? meta_Shared ty then
          of_option (mwrite p (le32 0 ++ le32 fd ++ le32 (u32 (data_size * i)) ++ le32 (u32 data_size)) m)
        else if t =? meta_Ringbuffer ty then
          let* r := of_option (load32 p m) in
          let* w := of_option (load32 (p + 4) m) in
          let* s := of_option (load32 (p + 8) m) in
          let* k := of_option (load32 (p + 12) m) in
          let rb := (spa_ringbuffer_init (mkRing r w s k) (u32 first_size)).2 in
          of_option (mwrite p (le32 (readindex rb) ++ le32 (writeindex rb) ++ le32 (Ringbuffer.size rb) ++ le32 (mask rb)) m)
        else Done m in
      let* (ms, q, m) := fill_metas fd i data_size first_size (p + size) l m in
      Done (mkMeta t p size :: ms, q, m)
  end.

(** The data of a buffer: chunks at [cdp], memory at [ddp]. *)
Fixpoint fill_datas (fd cdp ddp : Z) (sizes : list (Z * Z)) (m : bytes) : outcome (list SpaData * bytes) :=
  match sizes with
  | [] => Done ([], m)
  | (size, stride) :: sizes =>
      if size >? 0 then
        let* m := of_option (mwrite cdp (le32 0 ++ le32 (u32 size) ++ le32 (u32 stride)) m) in
        let* (ds, m) := fill_datas fd (cdp + sizeof_SpaChunk) (ddp + size) sizes m in
        Done (mkData (data_MemFd ty) fd (u32 ddp) (u32 size) (Some (u32 ddp)) cdp :: ds, m)
      else
        let* (ds, m) := fill_datas fd (cdp + sizeof_SpaChunk) ddp sizes m in
        Done (mkData SPA_ID_INVALID fd 0 0 None cdp :: ds, m)
  end.

(** Buffer after buffer; [count] are left to lay out, the next one is [i]. *)
Fixpoint fill_buffers (count : nat) (fd i data_size : Z) (ms : list (Z * Z)) (sizes : list (Z * Z)) (m : bytes) :
    outcome (list SpaBuffer * bytes) :=
  match count with
  | O => Done ([], m)
  | S count' =>
      let first_size := match sizes with (s, _) :: _ => s | [] => 0 end in
      let* (metas, cdp, m) := fill_metas fd i data_size first_size (data_size * i) ms m in
      let* (datas, m) := fill_datas fd cdp (cdp + sizeof_SpaChunk * zlen sizes) sizes m in
      let* (bs, m) := fill_buffers count' fd (i + 1) data_size ms sizes m in
      Done (mkBuffer i metas datas :: bs, m)
  end.

(** The sizes the code adds up: of the metadata and of one buffer's memory. *)
Definition buffer_size (ms sizes : list (Z * Z)) : Z := sum ms.*2 + (sizeof_SpaChunk * zlen sizes + sum sizes.*1).

(** How many bytes the buffers take. *)
Definition block_size (n_buffers : Z) (params : list bytes) (sizes : list (Z * Z)) : outcome Z :=
  let room := sizeof_SpaMeta * zlen params + 1 in
  let* ms := add_meta room (meta_Shared ty, sizeof_SpaMetaShared) [] in
  let* ms := collect_metas room params ms in
  Done (n_buffers * buffer_size ms sizes).

(** [sizes]: size and stride of each data. [block n] is the memory a successful
    allocation of [n] bytes maps, behind the descriptor [fd]. *)
Definition alloc_buffers (n_buffers : Z) (params : list bytes) (sizes : list (Z * Z)) (fd : Z) (block : Z -> bytes) :
    outcome (list SpaBuffer * bytes) :=
  let room := sizeof_SpaMeta * zlen params + 1 in
  let* ms := add_meta room (meta_Shared ty, sizeof_SpaMetaShared) [] in
  let* ms := collect_metas room params ms in
  let data_size := buffer_size ms sizes in
  fill_buffers (Z.to_nat n_buffers) fd 0 data_size ms sizes (block (n_buffers * data_size)).
End Alloc.

(** ** The layout *)

Section Layout.
Context (ty : PinosType).

(** Where the data of a buffer are, and the buffers themselves, by formula. *)
Fixpoint layout_datas (fd cdp ddp : Z) (sizes : list (Z * Z)) : list SpaData :=
  match sizes with
  | [] => []
  | (size, _) :: sizes =>
      (if size >? 0 then mkData (data_MemFd ty) fd ddp size (Some ddp) cdp else mkData SPA_ID_INVALID fd 0 0 None cdp)
      :: layout_datas fd (cdp + 12) (ddp + size) sizes
  end.

Definition layout (fd : Z) (sizes : list (Z * Z)) (i : Z) : SpaBuffer :=
  let start := buffer_size [(meta_Shared ty, 16)] sizes * i in
  mkBuffer i [mkMeta (meta_Shared ty) start 16] (layout_datas fd (start + 16) (start + 16 + 12 * zlen sizes) sizes).

(** The chunk of a data says that all of it is valid. *)
Definition chunk_ok (s : Z * Z) (chunk : bytes) : Prop :=
  zlen chunk = 12 /\ (0 < s.1 -> chunk = le32 0 ++ le32 s.1 ++ le32 (u32 s.2)).

(** The memory of buffer [i]. *)
Definition image (fd : Z) (sizes : list (Z * Z)) (i : Z) (b : bytes) : Prop :=
  exists chunks mem, Forall2 chunk_ok sizes chunks /\ zlen mem = sum sizes.*1 /\
    b = (le32 0 ++ le32 fd ++ le32 (buffer_size [(meta_Shared ty, 16)] sizes * i) ++ le32 (buffer_size [(meta_Shared ty, 16)] sizes)) ++
        concat chunks ++ mem.

Lemma sum_nonneg l : Forall (fun z => 0 <= z) l -> 0 <= sum l.
Proof. induction 1; simpl; [done | unfold sum in *; lia]. Qed.

Lemma fill_datas_ok fd sizes : Forall (fun s : Z * Z => 0 <= s.1 < 2 ^ 32) sizes ->
  forall a ch c ddp, zlen ch = 12 * zlen sizes -> 0 <= ddp -> ddp + sum sizes.*1 < 2 ^ 32 ->
  exists chunks, Forall2 chunk_ok sizes chunks /\
    fill_datas ty fd (zlen a) ddp sizes (a ++ ch ++ c) = Done (layout_datas fd (zlen a) ddp sizes, a ++ concat chunks ++ c).
Proof.
  induction 1 as [|[size stride] sizes Hs Hall IH]; intros a ch c ddp Hch Hd Hsum.
  { exists []. split; [constructor |]. assert (ch = []) as -> by (apply nil_length_inv; apply Nat2Z.inj; unfold zlen in Hch; simpl in *; lia). done. }
  cbn [fst] in Hs. cbn [fill_datas layout_datas].
  rewrite zlen_cons in Hch. change (ddp + (size + sum sizes.*1) < 2 ^ 32) in Hsum. destruct (split_block 12 ch) as (c1 & ch' & -> & H1 & H2); [zlen_pose; lia |].
  assert (0 <= sum sizes.*1) by (apply sum_nonneg, Forall_fmap; eapply Forall_impl; [exact Hall | simpl; lia]).
  assert (exists c1', chunk_ok (size, stride) c1' /\
    (if size >? 0 then of_option (mwrite (zlen a) (le32 0 ++ le32 (u32 size) ++ le32 (u32 stride)) (a ++ (c1 ++ ch') ++ c)) else Done (a ++ (c1 ++ ch') ++ c))
      = Done (a ++ (c1' ++ ch') ++ c)) as (c1' & Hc1 & Hw).
  { rewrite Z.gtb_ltb. destruct (Z.ltb_spec 0 size).
    - exists (le32 0 ++ le32 size ++ le32 (u32 stride)). split; [split; [zlia | done] |].
      rewrite <- !(app_assoc _ ch'), mwrite_app by zlia. by rewrite u32_small by (unfold is_u32; lia).
    - exists c1. split; [split; [done | simpl; lia] | done]. }
  destruct (IH (a ++ c1') ch' c (ddp + size)) as (chunks & Hch' & Hrun); [lia | lia | lia |].
  exists (c1' :: chunks). split; [by constructor |]. cbn [concat].
  replace (zlen (a ++ c1')) with (zlen a + 12) in Hrun by (destruct Hc1; zlia). rewrite <- !app_assoc in *. unfold sizeof_SpaChunk.
  revert Hw. rewrite Z.gtb_ltb. destruct (Z.ltb_spec 0 size); intros Hw.
  - rewrite Hw. cbn [obind]. rewrite Hrun. cbn [obind]. do 3 f_equal. by rewrite !u32_small by (unfold is_u32; lia).
  - injection Hw as Hw. rewrite Hw. replace size with 0 in * by lia. rewrite Z.add_0_r in *. rewrite Hrun. done.
Qed.

Context (fd : Z) (sizes : list (Z * Z)) (sizes_ok : Forall (fun s => 0 <= s.1 < 2 ^ 32) sizes).
Let D := buffer_size [(meta_Shared ty, 16)] sizes.

Lemma D_eq : D = 16 + 12 * zlen sizes + sum sizes.*1.
Proof. unfold D, buffer_size, sizeof_SpaChunk. simpl. lia. Qed.

Lemma sizes_sum : 0 <= sum sizes.*1.
Proof. apply sum_nonneg, Forall_fmap. eapply Forall_impl; [exact sizes_ok | simpl; lia]. Qed.

Lemma zlen_chunks l chunks : Forall2 chunk_ok l chunks -> zlen (concat chunks) = 12 * zlen l.
Proof. induction 1 as [|s c l chunks [Hc _] _ IH]; [done |]. simpl. autorewrite with zlen. lia. Qed.

Lemma zlen_image i b : image fd sizes i b -> zlen b = D.
Proof.
  intros (chunks & mem & Hc & Hm & ->). autorewrite with zlen. rewrite (zlen_chunks _ _ Hc), Hm, D_eq. lia.
Qed.

Lemma fill_buffers_ok count : forall i a r, 0 <= i -> zlen a = D * i -> zlen r = D * Z.of_nat count ->
  D * (i + Z.of_nat count) < 2 ^ 32 ->
  exists images, Forall2 (image fd sizes) (seqZ i (Z.of_nat count)) images /\
    fill_buffers ty count fd i D [(meta_Shared ty, 16)] sizes (a ++ r) = Done (layout fd sizes <$> seqZ i (Z.of_nat count), a ++ concat images).
Proof.
  pose proof sizes_sum as Hsum. pose proof D_eq as HD. pose proof (zlen_nonneg sizes) as Hn.
  induction count as [|count IH]; intros i a r Hi Ha Hr Hb.
  { exists []. split; [constructor |]. assert (r = []) as -> by (apply nil_length_inv; unfold zlen in Hr; lia). done. }
  assert (0 <= D * Z.of_nat count /\ 0 <= D * i) as [? ?] by (split; apply Z.mul_nonneg_nonneg; lia).
  destruct (split_block D r) as (b & r' & -> & Hbl & Hr'); [lia |].
  destruct (split_block 16 b) as (sh & b1 & -> & Hsh & Hb1); [lia |].
  destruct (split_block (12 * zlen sizes) b1) as (ch & mem & -> & Hch & Hmem); [lia |].
  assert (is_u32 (D * i) /\ is_u32 D) as [Hu1 Hu2] by (unfold is_u32; lia).
  set (sh' := le32 0 ++ le32 fd ++ le32 (D * i) ++ le32 D). assert (zlen sh' = 16) as Hsh' by (unfold sh'; zlia).
  destruct (fill_datas_ok fd sizes sizes_ok (a ++ sh') ch (mem ++ r') (D * i + 16 + 12 * zlen sizes)) as (chunks & Hchunks & Hdatas);
    [lia | lia | lia |].
  pose proof (zlen_chunks _ _ Hchunks) as Hzc.
  destruct (IH (i + 1) (a ++ sh' ++ concat chunks ++ mem) r') as (images & Himages & Hrun); [lia | autorewrite with zlen; lia | lia | lia |].
  exists ((sh' ++ concat chunks ++ mem) :: images). rewrite seqZ_cons by lia.
  replace (Z.pred (Z.of_nat (S count))) with (Z.of_nat count) by lia. replace (Z.succ i) with (i + 1) by lia.
  split; [constructor; [| done]; exists chunks, mem; split_and!; [done | lia | done] |].
  cbn [fill_buffers fill_metas]. rewrite Z.eqb_refl, !u32_small by done.
  rewrite <- !app_assoc. rewrite (mwrite_app a sh) by (unfold sh'; autorewrite with zlen; lia). cbn [of_option obind].
  fold sh'. unfold sizeof_SpaChunk. replace (D * i + 16) with (zlen (a ++ sh')) by zlia.
  replace (zlen (a ++ sh') + 12 * zlen sizes) with (D * i + 16 + 12 * zlen sizes) by zlia.
  rewrite (app_assoc a sh'), Hdatas. cbn [obind].
  rewrite <- !app_assoc in *. rewrite Hrun. cbn [obind]. rewrite fmap_cons. cbn [concat]. rewrite <- !app_assoc.
  do 3 f_equal. unfold layout. fold D. f_equal. f_equal; zlia.
Qed.
End Layout.

(** A parameter whose type word can be read and that is an object. *)
Definition plain_param (ty : PinosType) (p : bytes) : Prop := exists t, load32 4 p = Some t /\ t <> MetaEnable ty.

Lemma collect_metas_plain ty room params l : Forall (plain_param ty) params -> collect_metas ty room params l = Done l.
Proof.
  induction 1 as [|p params (t & Ht & Hne) _ IH]; [done |]. simpl. rewrite Ht. simpl.
  by rewrite (proj2 (Z.eqb_neq t _)).
Qed.


(** Without parameters the array of metadata is one byte long: the first entry does
    not fit. *)
Lemma alloc_buffers_no_params ty n_buffers sizes fd block : alloc_buffers ty n_buffers [] sizes fd block = Undef.
Proof. done. Qed.

Definition sample_types : PinosType := mkType 40 41 42 43 44 45 46 47 48 49 50 51.

