(* ===== verification/Graph.v ===== *)
(** The media graph of the server: nodes, their ports, and the links between ports
    ([pinos/server/node.h], [port.h], [link.h]).

    The graph is one store of objects by their address: what a [NULL] or a freed
    pointer leads to is [Undef]. Functions given to [pinos_loop_invoke] are closures
    that wait in the queue of the loop they are for (component Loop); the work of
    links and nodes waits in work queues, which are the sequences of the component
    WorkQueue. The media elements behind the nodes are an interface, [SpaNode]. *)
From stdpp Require Import gmap.
From S2P Require Import Prelude State Defs SpaList WorkQueue Mem Buffers.

(** ** Constants *)

Definition PINOS_NODE_STATE_ERROR : Z := -1.
Definition PINOS_NODE_STATE_CREATING : Z := 0.
Definition PINOS_NODE_STATE_SUSPENDED : Z := 1.
Definition PINOS_NODE_STATE_IDLE : Z := 2.
Definition PINOS_NODE_STATE_RUNNING : Z := 3.

Definition PINOS_LINK_STATE_ERROR : Z := -2.
Definition PINOS_LINK_STATE_UNLINKED : Z := -1.
Definition PINOS_LINK_STATE_INIT : Z := 0.
Definition PINOS_LINK_STATE_NEGOTIATING : Z := 1.
Definition PINOS_LINK_STATE_ALLOCATING : Z := 2.
Definition PINOS_LINK_STATE_PAUSED : Z := 3.
Definition PINOS_LINK_STATE_RUNNING : Z := 4.

Definition PINOS_PORT_STATE_CONFIGURE : Z := 1.
Definition PINOS_PORT_STATE_READY : Z := 2.
Definition PINOS_PORT_STATE_PAUSED : Z := 3.
Definition PINOS_PORT_STATE_STREAMING : Z := 4.

Inductive PinosDirection := PINOS_DIRECTION_INPUT | PINOS_DIRECTION_OUTPUT.
#[export] Instance direction_eq : EqDecision PinosDirection.
Proof. solve_decision. Defined.

Definition SPA_PORT_INFO_FLAG_CAN_ALLOC_BUFFERS : Z := Z.shiftl 1 2.
Definition SPA_PORT_INFO_FLAG_CAN_USE_BUFFERS : Z := Z.shiftl 1 3.
Definition SPA_PORT_INFO_FLAG_LIVE : Z := Z.shiftl 1 6.
Definition SPA_PORT_FORMAT_FLAG_NEAREST : Z := Z.shiftl 1 2.

(** The messages of [asprintf], by what they say. *)
Inductive message :=
| msg_set_output_format (res : Z) | msg_set_input_format (res : Z)
| msg_get_output_format (res : Z) | msg_get_input_format (res : Z)
| msg_input_enum_formats (res : Z) | msg_output_enum_formats (res : Z)
| msg_node_state | msg_get_format
| msg_output_port_info (res : Z) | msg_input_port_info (res : Z)
| msg_no_common_alloc
| msg_alloc_output (res : Z) | msg_alloc_input (res : Z) | msg_use_input (res : Z) | msg_use_output (res : Z)
| msg_changing_state (res : Z)
| msg_same_node | msg_was_linked | msg_no_node.

(** The functions given to work queues. *)
Inductive work_func := complete_ready | complete_paused | complete_streaming | check_states | init_complete | on_state_complete.

(** ** Objects *)

(** [SpaPortIO] *)
Record io := mkIo { status : Z; buffer_id : Z }.

(** [PinosNode] and [PinosNodeImpl]: [listed] when it is in the list of the core, [has_global]
    when it has a global; the listeners of [async_complete] are links. *)
Module Node.
Record t := mk {
  state : Z;
  error : option message;
  live : bool;
  clock : Z;
  listed : bool;
  has_global : bool;
  n_input_ports : Z;
  max_input_ports : Z;
  input_ports : list Z;
  input_port_map : gmap Z Z;
  n_used_input_links : Z;
  n_output_ports : Z;
  max_output_ports : Z;
  output_ports : list Z;
  output_port_map : gmap Z Z;
  n_used_output_links : Z;
  async_listeners : list Z;
  async_init : bool;
  work : Spec.queue unit work_func
}.
Definition with_state (x : Z) (o : t) : t :=
  mk x (error o) (live o) (clock o) (listed o) (has_global o) (n_input_ports o) (max_input_ports o) (input_ports o) (input_port_map o) (n_used_input_links o) (n_output_ports o) (max_output_ports o) (output_ports o) (output_port_map o) (n_used_output_links o) (async_listeners o) (async_init o) (work o).
Definition with_error (x : option message) (o : t) : t :=
  mk (state o) x (live o) (clock o) (listed o) (has_global o) (n_input_ports o) (max_input_ports o) (input_ports o) (input_port_map o) (n_used_input_links o) (n_output_ports o) (max_output_ports o) (output_ports o) (output_port_map o) (n_used_output_links o) (async_listeners o) (async_init o) (work o).
Definition with_live (x : bool) (o : t) : t :=
  mk (state o) (error o) x (clock o) (listed o) (has_global o) (n_input_ports o) (max_input_ports o) (input_ports o) (input_port_map o) (n_used_input_links o) (n_output_ports o) (max_output_ports o) (output_ports o) (output_port_map o) (n_used_output_links o) (async_listeners o) (async_init o) (work o).
Definition with_clock (x : Z) (o : t) : t :=
  mk (state o) (error o) (live o) x (listed o) (has_global o) (n_input_ports o) (max_input_ports o) (input_ports o) (input_port_map o) (n_used_input_links o) (n_output_ports o) (max_output_ports o) (output_ports o) (output_port_map o) (n_used_output_links o) (async_listeners o) (async_init o) (work o).
Definition with_listed (x : bool) (o : t) : t :=
  mk (state o) (error o) (live o) (clock o) x (has_global o) (n_input_ports o) (max_input_ports o) (input_ports o) (input_port_map o) (n_used_input_links o) (n_output_ports o) (max_output_ports o) (output_ports o) (output_port_map o) (n_used_output_links o) (async_listeners o) (async_init o) (work o).
Definition with_has_global (x : bool) (o : t) : t :=
  mk (state o) (error o) (live o) (clock o) (listed o) x (n_input_ports o) (max_input_ports o) (input_ports o) (input_port_map o) (n_used_input_links o) (n_output_ports o) (max_output_ports o) (output_ports o) (output_port_map o) (n_used_output_links o) (async_listeners o) (async_init o) (work o).
Definition with_n_input_ports (x : Z) (o : t) : t :=
  mk (state o) (error o) (live o) (clock o) (listed o) (has_global o) x (max_input_ports o) (input_ports o) (input_port_map o) (n_used_input_links o) (n_output_ports o) (max_output_ports o) (output_ports o) (output_port_map o) (n_used_output_links o) (async_listeners o) (async_init o) (work o).
Definition with_max_input_ports (x : Z) (o : t) : t :=
  mk (state o) (error o) (live o) (clock o) (listed o) (has_global o) (n_input_ports o) x (input_ports o) (input_port_map o) (n_used_input_links o) (n_output_ports o) (max_output_ports o) (output_ports o) (output_port_map o) (n_used_output_links o) (async_listeners o) (async_init o) (work o).
Definition with_input_ports (x : list Z) (o : t) : t :=
  mk (state o) (error o) (live o) (clock o) (listed o) (has_global o) (n_input_ports o) (max_input_ports o) x (input_port_map o) (n_used_input_links o) (n_output_ports o) (max_output_ports o) (output_ports o) (output_port_map o) (n_used_output_links o) (async_listeners o) (async_init o) (work o).
Definition with_input_port_map (x : gmap Z Z) (o : t) : t :=
  mk (state o) (error o) (live o) (clock o) (listed o) (has_global o) (n_input_ports o) (max_input_ports o) (input_ports o) x (n_used_input_links o) (n_output_ports o) (max_output_ports o) (output_ports o) (output_port_map o) (n_used_output_links o) (async_listeners o) (async_init o) (work o).
Definition with_n_used_input_links (x : Z) (o : t) : t :=
  mk (state o) (error o) (live o) (clock o) (listed o) (has_global o) (n_input_ports o) (max_input_ports o) (input_ports o) (input_port_map o) x (n_output_ports o) (max_output_ports o) (output_ports o) (output_port_map o) (n_used_output_links o) (async_listeners o) (async_init o) (work o).
Definition with_n_output_ports (x : Z) (o : t) : t :=
  mk (state o) (error o) (live o) (clock o) (listed o) (has_global o) (n_input_ports o) (max_input_ports o) (input_ports o) (input_port_map o) (n_used_input_links o) x (max_output_ports o) (output_ports o) (output_port_map o) (n_used_output_links o) (async_listeners o) (async_init o) (work o).
Definition with_max_output_ports (x : Z) (o : t) : t :=
  mk (state o) (error o) (live o) (clock o) (listed o) (has_global o) (n_input_ports o) (max_input_ports o) (input_ports o) (input_port_map o) (n_used_input_links o) (n_output_ports o) x (output_ports o) (output_port_map o) (n_used_output_links o) (async_listeners o) (async_init o) (work o).
Definition with_output_ports (x : list Z) (o : t) : t :=
  mk (state o) (error o) (live o) (clock o) (listed o) (has_global o) (n_input_ports o) (max_input_ports o) (input_ports o) (input_port_map o) (n_used_input_links o) (n_output_ports o) (max_output_ports o) x (output_port_map o) (n_used_output_links o) (async_listeners o) (async_init o) (work o).
Definition with_output_port_map (x : gmap Z Z) (o : t) : t :=
  mk (state o) (error o) (live o) (clock o) (listed o) (has_global o) (n_input_ports o) (max_input_ports o) (input_ports o) (input_port_map o) (n_used_input_links o) (n_output_ports o) (max_output_ports o) (output_ports o) x (n_used_output_links o) (async_listeners o) (async_init o) (work o).
Definition with_n_used_output_links (x : Z) (o : t) : t :=
  mk (state o) (error o) (live o) (clock o) (listed o) (has_global o) (n_input_ports o) (max_input_ports o) (input_ports o) (input_port_map o) (n_used_input_links o) (n_output_ports o) (max_output_ports o) (output_ports o) (output_port_map o) x (async_listeners o) (async_init o) (work o).
Definition with_async_listeners (x : list Z) (o : t) : t :=
  mk (state o) (error o) (live o) (clock o) (listed o) (has_global o) (n_input_ports o) (max_input_ports o) (input_ports o) (input_port_map o) (n_used_input_links o) (n_output_ports o) (max_output_ports o) (output_ports o) (output_port_map o) (n_used_output_links o) x (async_init o) (work o).
Definition with_async_init (x : bool) (o : t) : t :=
  mk (state o) (error o) (live o) (clock o) (listed o) (has_global o) (n_input_ports o) (max_input_ports o) (input_ports o) (input_port_map o) (n_used_input_links o) (n_output_ports o) (max_output_ports o) (output_ports o) (output_port_map o) (n_used_output_links o) (async_listeners o) x (work o).
Definition with_work (x : Spec.queue unit work_func) (o : t) : t :=
  mk (state o) (error o) (live o) (clock o) (listed o) (has_global o) (n_input_ports o) (max_input_ports o) (input_ports o) (input_port_map o) (n_used_input_links o) (n_output_ports o) (max_output_ports o) (output_ports o) (output_port_map o) (n_used_output_links o) (async_listeners o) (async_init o) x.
End Node.

(** [PinosPort] and [PinosPortImpl]; the listeners of [destroy_signal] are links. *)
Module Port.
Record t := mk {
  node : Z;
  direction : PinosDirection;
  port_id : Z;
  state : Z;
  port_io : io;
  allocated : bool;
  buffer_mem : PinosMemblock;
  buffers : Z;
  n_buffers : Z;
  links : list Z;
  rt_links : list Z;
  destroy_listeners : list Z;
  seq : Z
}.
Definition with_node (x : Z) (o : t) : t :=
  mk x (direction o) (port_id o) (state o) (port_io o) (allocated o) (buffer_mem o) (buffers o) (n_buffers o) (links o) (rt_links o) (destroy_listeners o) (seq o).
Definition with_direction (x : PinosDirection) (o : t) : t :=
  mk (node o) x (port_id o) (state o) (port_io o) (allocated o) (buffer_mem o) (buffers o) (n_buffers o) (links o) (rt_links o) (destroy_listeners o) (seq o).
Definition with_port_id (x : Z) (o : t) : t :=
  mk (node o) (direction o) x (state o) (port_io o) (allocated o) (buffer_mem o) (buffers o) (n_buffers o) (links o) (rt_links o) (destroy_listeners o) (seq o).
Definition with_state (x : Z) (o : t) : t :=
  mk (node o) (direction o) (port_id o) x (port_io o) (allocated o) (buffer_mem o) (buffers o) (n_buffers o) (links o) (rt_links o) (destroy_listeners o) (seq o).
Definition with_port_io (x : io) (o : t) : t :=
  mk (node o) (direction o) (port_id o) (state o) x (allocated o) (buffer_mem o) (buffers o) (n_buffers o) (links o) (rt_links o) (destroy_listeners o) (seq o).
Definition with_allocated (x : bool) (o : t) : t :=
  mk (node o) (direction o) (port_id o) (state o) (port_io o) x (buffer_mem o) (buffers o) (n_buffers o) (links o) (rt_links o) (destroy_listeners o) (seq o).
Definition with_buffer_mem (x : PinosMemblock) (o : t) : t :=
  mk (node o) (direction o) (port_id o) (state o) (port_io o) (allocated o) x (buffers o) (n_buffers o) (links o) (rt_links o) (destroy_listeners o) (seq o).
Definition with_buffers (x : Z) (o : t) : t :=
  mk (node o) (direction o) (port_id o) (state o) (port_io o) (allocated o) (buffer_mem o) x (n_buffers o) (links o) (rt_links o) (destroy_listeners o) (seq o).
Definition with_n_buffers (x : Z) (o : t) : t :=
  mk (node o) (direction o) (port_id o) (state o) (port_io o) (allocated o) (buffer_mem o) (buffers o) x (links o) (rt_links o) (destroy_listeners o) (seq o).
Definition with_links (x : list Z) (o : t) : t :=
  mk (node o) (direction o) (port_id o) (state o) (port_io o) (allocated o) (buffer_mem o) (buffers o) (n_buffers o) x (rt_links o) (destroy_listeners o) (seq o).
Definition with_rt_links (x : list Z) (o : t) : t :=
  mk (node o) (direction o) (port_id o) (state o) (port_io o) (allocated o) (buffer_mem o) (buffers o) (n_buffers o) (links o) x (destroy_listeners o) (seq o).
Definition with_destroy_listeners (x : list Z) (o : t) : t :=
  mk (node o) (direction o) (port_id o) (state o) (port_io o) (allocated o) (buffer_mem o) (buffers o) (n_buffers o) (links o) (rt_links o) x (seq o).
Definition with_seq (x : Z) (o : t) : t :=
  mk (node o) (direction o) (port_id o) (state o) (port_io o) (allocated o) (buffer_mem o) (buffers o) (n_buffers o) (links o) (rt_links o) (destroy_listeners o) x.
End Port.

(** [PinosLink] and [PinosLinkImpl]; a [buffer_owner] is the address of a port or a link. *)
Module Link.
Record t := mk {
  state : Z;
  error : option message;
  resources : list Z;
  output : option Z;
  input : option Z;
  rt_output : option Z;
  rt_input : option Z;
  refcount : Z;
  work : Spec.queue unit work_func;
  buffer_owner : Z;
  buffer_mem : PinosMemblock;
  buffers : Z;
  n_buffers : Z
}.
Definition with_state (x : Z) (o : t) : t :=
  mk x (error o) (resources o) (output o) (input o) (rt_output o) (rt_input o) (refcount o) (work o) (buffer_owner o) (buffer_mem o) (buffers o) (n_buffers o).
Definition with_error (x : option message) (o : t) : t :=
  mk (state o) x (resources o) (output o) (input o) (rt_output o) (rt_input o) (refcount o) (work o) (buffer_owner o) (buffer_mem o) (buffers o) (n_buffers o).
Definition with_resources (x : list Z) (o : t) : t :=
  mk (state o) (error o) x (output o) (input o) (rt_output o) (rt_input o) (refcount o) (work o) (buffer_owner o) (buffer_mem o) (buffers o) (n_buffers o).
Definition with_output (x : option Z) (o : t) : t :=
  mk (state o) (error o) (resources o) x (input o) (rt_output o) (rt_input o) (refcount o) (work o) (buffer_owner o) (buffer_mem o) (buffers o) (n_buffers o).
Definition with_input (x : option Z) (o : t) : t :=
  mk (state o) (error o) (resources o) (output o) x (rt_output o) (rt_input o) (refcount o) (work o) (buffer_owner o) (buffer_mem o) (buffers o) (n_buffers o).
Definition with_rt_output (x : option Z) (o : t) : t :=
  mk (state o) (error o) (resources o) (output o) (input o) x (rt_input o) (refcount o) (work o) (buffer_owner o) (buffer_mem o) (buffers o) (n_buffers o).
Definition with_rt_input (x : option Z) (o : t) : t :=
  mk (state o) (error o) (resources o) (output o) (input o) (rt_output o) x (refcount o) (work o) (buffer_owner o) (buffer_mem o) (buffers o) (n_buffers o).
Definition with_refcount (x : Z) (o : t) : t :=
  mk (state o) (error o) (resources o) (output o) (input o) (rt_output o) (rt_input o) x (work o) (buffer_owner o) (buffer_mem o) (buffers o) (n_buffers o).
Definition with_work (x : Spec.queue unit work_func) (o : t) : t :=
  mk (state o) (error o) (resources o) (output o) (input o) (rt_output o) (rt_input o) (refcount o) x (buffer_owner o) (buffer_mem o) (buffers o) (n_buffers o).
Definition with_buffer_owner (x : Z) (o : t) : t :=
  mk (state o) (error o) (resources o) (output o) (input o) (rt_output o) (rt_input o) (refcount o) (work o) x (buffer_mem o) (buffers o) (n_buffers o).
Definition with_buffer_mem (x : PinosMemblock) (o : t) : t :=
  mk (state o) (error o) (resources o) (output o) (input o) (rt_output o) (rt_input o) (refcount o) (work o) (buffer_owner o) x (buffers o) (n_buffers o).
Definition with_buffers (x : Z) (o : t) : t :=
  mk (state o) (error o) (resources o) (output o) (input o) (rt_output o) (rt_input o) (refcount o) (work o) (buffer_owner o) (buffer_mem o) x (n_buffers o).
Definition with_n_buffers (x : Z) (o : t) : t :=
  mk (state o) (error o) (resources o) (output o) (input o) (rt_output o) (rt_input o) (refcount o) (work o) (buffer_owner o) (buffer_mem o) (buffers o) x.
End Link.

(** ** The media elements *)

(** [SpaPortInfo]: what the server reads of it; parameters are object pods. *)
Record SpaPortInfo := mkInfo { info_flags : Z; params : list bytes }.

Definition format := bytes.

Inductive command := Pause | Start | ClockUpdate (live : bool) (rate ticks monotonic_time : Z).

(** The methods of [SpaNode] the server calls, on the state [S] of all elements. A
    result is a [SpaResult]; an output parameter that is not written is [None]. *)
Class SpaNode (S : Type) := {
  spa_node_send_command : Z -> command -> S -> Z * S;
  spa_node_port_enum_formats : Z -> PinosDirection -> Z -> option format -> Z -> S -> Z * option (option format) * S;
  spa_node_port_set_format : Z -> PinosDirection -> Z -> Z -> option format -> S -> Z * S;
  spa_node_port_get_format : Z -> PinosDirection -> Z -> S -> Z * option (option format) * S;
  spa_node_port_get_info : Z -> PinosDirection -> Z -> S -> Z * SpaPortInfo * S;
  (** buffers, by their address, and their number *)
  spa_node_port_use_buffers : Z -> PinosDirection -> Z -> Z -> Z -> S -> Z * S;
  (** the parameters of the other side; the number of buffers is written back *)
  spa_node_port_alloc_buffers : Z -> PinosDirection -> Z -> list bytes -> Z -> Z -> S -> Z * Z * S;
  spa_node_port_send_command : Z -> PinosDirection -> Z -> command -> S -> Z * S;
  spa_node_port_set_io : Z -> PinosDirection -> Z -> S -> Z * S;
  spa_node_add_port : Z -> PinosDirection -> Z -> S -> Z * S;
  (** n_input_ports, max_input_ports, n_output_ports, max_output_ports *)
  spa_node_get_n_ports : Z -> S -> Z * Z * Z * Z * S;
  spa_node_get_port_ids : Z -> S -> list Z * list Z * S;
  spa_clock_get_time : Z -> S -> (Z * Z * Z) * S
}.

(** ** The graph *)

(** What waits to be invoked in a loop, with its sequence number. *)
Inductive closure :=
| do_add_link (port link : Z)
| do_remove_link (port link : Z) (seq : Z)
| do_remove_link_done (port link : Z)
| do_clear_buffers (port : Z) (seq : Z)
| do_clear_buffers_done (port : Z)
| do_link_remove (link : Z) (seq : Z)
| do_link_remove_done (link : Z)
| do_node_remove (node : Z) (seq : Z)
| do_node_remove_done (node : Z).

(** Signals and notifications for the rest of the server. *)
Inductive event :=
| state_request (node state : Z)
| node_state_changed (node old new : Z)
| link_state_changed (link old new : Z)
| port_added (node port : Z)
| port_removed (node port : Z)
| initialized (node : Z)
| port_unlinked (link port : Z)
| link_destroyed (link : Z)
| link_freed (link : Z)
| node_destroyed (node : Z)
| node_freed (node : Z).

Record graph (S : Type) := mkGraph {
  nodes : gmap Z Node.t;
  ports : gmap Z Port.t;
  links : gmap Z Link.t;
  arrays : gmap Z (list SpaBuffer);
  node_list : list Z;
  link_list : list Z;
  main_loop : list closure;
  data_loop : list closure;
  events : list event;
  next_addr : Z;
  proc : process;
  elements : S
}.
Arguments mkGraph {S}.
Arguments nodes {S}.
Arguments ports {S}.
Arguments links {S}.
Arguments arrays {S}.
Arguments node_list {S}.
Arguments link_list {S}.
Arguments main_loop {S}.
Arguments data_loop {S}.
Arguments events {S}.
Arguments next_addr {S}.
Arguments proc {S}.
Arguments elements {S}.

(** ** Computations on the graph *)

Abbreviation G S := (ST (graph S)).

Section Access.
Context {S : Type}.

Definition get_node (n : Z) : G S Node.t := fun g => match nodes g !! n with Some o => Done (o, g) | None => Undef end.
Definition get_port (p : Z) : G S Port.t := fun g => match ports g !! p with Some o => Done (o, g) | None => Undef end.
Definition get_link (l : Z) : G S Link.t := fun g => match links g !! l with Some o => Done (o, g) | None => Undef end.

Definition with_nodes (x : gmap Z Node.t) (g : graph S) : graph S :=
  mkGraph x (ports g) (links g) (arrays g) (node_list g) (link_list g) (main_loop g) (data_loop g) (events g) (next_addr g) (proc g) (elements g).
Definition with_ports (x : gmap Z Port.t) (g : graph S) : graph S :=
  mkGraph (nodes g) x (links g) (arrays g) (node_list g) (link_list g) (main_loop g) (data_loop g) (events g) (next_addr g) (proc g) (elements g).
Definition with_links (x : gmap Z Link.t) (g : graph S) : graph S :=
  mkGraph (nodes g) (ports g) x (arrays g) (node_list g) (link_list g) (main_loop g) (data_loop g) (events g) (next_addr g) (proc g) (elements g).

Definition put_node (n : Z) (o : Node.t) : G S unit := fun g => Done (tt, with_nodes (<[n := o]> (nodes g)) g).
Definition put_port (p : Z) (o : Port.t) : G S unit := fun g => Done (tt, with_ports (<[p := o]> (ports g)) g).
Definition put_link (l : Z) (o : Link.t) : G S unit := fun g => Done (tt, with_links (<[l := o]> (links g)) g).
Definition free_node (n : Z) : G S unit := fun g => Done (tt, with_nodes (delete n (nodes g)) g).
Definition free_port (p : Z) : G S unit := fun g => Done (tt, with_ports (delete p (ports g)) g).
Definition free_link (l : Z) : G S unit := fun g => Done (tt, with_links (delete l (links g)) g).

(** Changing an object in place. *)
Definition set_node (n : Z) (f : Node.t -> Node.t) : G S unit := o <- get_node n ;; put_node n (f o).
Definition set_port (p : Z) (f : Port.t -> Port.t) : G S unit := o <- get_port p ;; put_port p (f o).
Definition set_link (l : Z) (f : Link.t -> Link.t) : G S unit := o <- get_link l ;; put_link l (f o).

Definition set_node_list (x : list Z) : G S unit := fun g =>
  Done (tt, mkGraph (nodes g) (ports g) (links g) (arrays g) x (link_list g) (main_loop g) (data_loop g) (events g) (next_addr g) (proc g) (elements g)).
Definition set_link_list (x : list Z) : G S unit := fun g =>
  Done (tt, mkGraph (nodes g) (ports g) (links g) (arrays g) (node_list g) x (main_loop g) (data_loop g) (events g) (next_addr g) (proc g) (elements g)).
Definition get_node_list : G S (list Z) := fun g => Done (node_list g, g).
Definition get_link_list : G S (list Z) := fun g => Done (link_list g, g).

Definition put_array (a : Z) (l : list SpaBuffer) : G S unit := fun g =>
  Done (tt, mkGraph (nodes g) (ports g) (links g) (<[a := l]> (arrays g)) (node_list g) (link_list g) (main_loop g) (data_loop g) (events g) (next_addr g) (proc g) (elements g)).

(** [pinos_loop_invoke] from the other thread. *)
Definition invoke_main (c : closure) : G S unit := fun g =>
  Done (tt, mkGraph (nodes g) (ports g) (links g) (arrays g) (node_list g) (link_list g) (main_loop g ++ [c]) (data_loop g) (events g) (next_addr g) (proc g) (elements g)).
Definition invoke_data (c : closure) : G S unit := fun g =>
  Done (tt, mkGraph (nodes g) (ports g) (links g) (arrays g) (node_list g) (link_list g) (main_loop g) (data_loop g ++ [c]) (events g) (next_addr g) (proc g) (elements g)).
Definition emit (e : event) : G S unit := fun g =>
  Done (tt, mkGraph (nodes g) (ports g) (links g) (arrays g) (node_list g) (link_list g) (main_loop g) (data_loop g) (events g ++ [e]) (next_addr g) (proc g) (elements g)).
(** A fresh address. *)
Definition calloc : G S Z := fun g =>
  Done (next_addr g, mkGraph (nodes g) (ports g) (links g) (arrays g) (node_list g) (link_list g) (main_loop g) (data_loop g) (events g) (next_addr g + 1) (proc g) (elements g)).
(** A call of an element. *)
Definition element {A} (f : S -> A * S) : G S A := fun g =>
  let '(a, s) := f (elements g) in
  Done (a, mkGraph (nodes g) (ports g) (links g) (arrays g) (node_list g) (link_list g) (main_loop g) (data_loop g) (events g) (next_addr g) (proc g) s).
Definition system {A} (f : process -> A * process) : G S A := fun g =>
  let '(a, p) := f (proc g) in
  Done (a, mkGraph (nodes g) (ports g) (links g) (arrays g) (node_list g) (link_list g) (main_loop g) (data_loop g) (events g) (next_addr g) p (elements g)).

(** Unlinking an element from the list it is on; elsewhere it corrupts memory. *)
Fixpoint unlink (x : Z) (l : list Z) : outcome (list Z) :=
  match l with
  | [] => Undef
  | y :: l => if x =? y then Done l else let* l := unlink x l in Done (y :: l)
  end.
Definition list_remove (x : Z) (l : list Z) : G S (list Z) := lift (unlink x l).

Definition memblock_free (mem : PinosMemblock) `{Kernel} : G S PinosMemblock := fun g =>
  let* (mem, p) := pinos_memblock_free mem (proc g) in
  Done (mem, mkGraph (nodes g) (ports g) (links g) (arrays g) (node_list g) (link_list g) (main_loop g) (data_loop g) (events g) (next_addr g) p (elements g)).

(** [pinos_work_queue_add] on the queue of a link and of a node. *)
Definition link_work (l obj res : Z) (func : work_func) (data : Z) : G S unit :=
  set_link l (fun o => Link.with_work (Spec.add obj res (Some func) data (Link.work o)).2 o).
Definition node_work (n obj res : Z) (func : work_func) (data : Z) : G S unit :=
  set_node n (fun o => Node.with_work (Spec.add obj res (Some func) data (Node.work o)).2 o).
End Access.
