(* ===== verification/Negotiate.v ===== *)
(** Bringing a link to life: [pinos/server/link.c] ([do_negotiate], [do_allocation],
    [do_start], [check_states]), the states of nodes of [node.c] and the search for a
    common format of [core.c]. *)
From stdpp Require Import gmap.
From S2P Require Import Prelude State Defs SpaList WorkQueue Mem Pod PodUtils Buffers Graph.

(** ** Fixating a format *)

(** [SPA_FORMAT_FOREACH] around clearing a flag; a turn advances by 8 bytes at least. *)
Fixpoint fixate_loop (turns : nat) (iter last : Z) (m : bytes) : outcome bytes :=
  if iter <? last then
    match turns with
    | O => Undef
    | S turns' =>
        let* flags := of_option (load32 (iter + 12) m) in
        let* m := of_option (mwrite (iter + 12) (le32 (Z.land flags (Z.lnot SPA_POD_PROP_FLAG_UNSET))) m) in
        let* size := pod_size_at iter m in
        fixate_loop turns' (iter + SPA_ROUND_UP_N size 8) last m
    end
  else Done m.

Definition spa_format_fixate (format : bytes) : outcome bytes :=
  let* size := of_option (load32 0 format) in
  fixate_loop (length format) 48 (8 + size) format.

Section Negotiate.
Context {S : Type} `{SpaNode S} `{Kernel} `{Heap} (ty : PinosType).
Local Abbreviation G := (Graph.G S).

(** ** States *)

Definition pinos_link_update_state (l state : Z) (error : option message) : G unit :=
  this <- get_link l ;;
  let old := Link.state this in
  if negb (state =? old) then
    put_link l (Link.with_error error (Link.with_state state this)) ;;;
    emit (link_state_changed l old state)
  else ret tt.

Definition pinos_node_update_state (n state : Z) (error : option message) : G unit :=
  this <- get_node n ;;
  let old := Node.state this in
  if negb (old =? state) then
    put_node n (Node.with_state state (Node.with_error error this)) ;;;
    emit (node_state_changed n old state)
  else ret tt.

Definition pinos_link_activate (l : Z) : G unit := link_work l l SPA_RESULT_WAIT_SYNC check_states l.

Definition pause_node (n : Z) : G Z :=
  this <- get_node n ;;
  if Node.state this <=? PINOS_NODE_STATE_IDLE then ret SPA_RESULT_OK
  else element (spa_node_send_command n Pause).

Definition start_node (n : Z) : G Z := element (spa_node_send_command n Start).

(** One port of [suspend_node]. *)
Definition suspend_port (n : Z) (direction : PinosDirection) (p : Z) : G Z :=
  port <- get_port p ;;
  res <- element (spa_node_port_set_format n direction (Port.port_id port) 0 None) ;;
  port <- get_port p ;;
  let port := Port.with_n_buffers 0 (Port.with_buffers 0 port) in
  mem <- (if Port.allocated port then memblock_free (Port.buffer_mem port) else ret (Port.buffer_mem port)) ;;
  put_port p (Port.with_state PINOS_PORT_STATE_CONFIGURE (Port.with_allocated false (Port.with_buffer_mem mem port))) ;;;
  ret res.

Fixpoint suspend_ports (n : Z) (direction : PinosDirection) (ps : list Z) (res : Z) : G Z :=
  match ps with
  | [] => ret res
  | p :: ps => res <- suspend_port n direction p ;; suspend_ports n direction ps res
  end.

Definition suspend_node (n : Z) : G Z :=
  this <- get_node n ;;
  res <- suspend_ports n PINOS_DIRECTION_INPUT (Node.input_ports this) SPA_RESULT_OK ;;
  this <- get_node n ;;
  suspend_ports n PINOS_DIRECTION_OUTPUT (Node.output_ports this) res.

Definition send_clock_update (n : Z) : G unit :=
  this <- get_node n ;;
  let live := negb (Node.clock this =? 0) && Node.live this in
  '(rate, ticks, time) <- (if live then element (spa_clock_get_time (Node.clock this)) else ret (1, 0, 0)) ;;
  _ <- element (spa_node_send_command n (ClockUpdate live rate ticks time)) ;; ret tt.

Definition activate_links (p : Z) : G unit := port <- get_port p ;; each (Port.links port) pinos_link_activate.

Definition node_activate (n : Z) : G unit :=
  this <- get_node n ;;
  each (Node.input_ports this) activate_links ;;;
  each (Node.output_ports this) activate_links.

Definition pinos_node_set_state (n state : Z) : G Z :=
  emit (state_request n state) ;;;
  if state =? PINOS_NODE_STATE_CREATING then ret SPA_RESULT_ERROR
  else
    res <- (if state =? PINOS_NODE_STATE_SUSPENDED then suspend_node n
            else if state =? PINOS_NODE_STATE_IDLE then pause_node n
            else if state =? PINOS_NODE_STATE_RUNNING then
              node_activate n ;;; send_clock_update n ;;; start_node n
            else ret SPA_RESULT_OK) ;;
    if SPA_RESULT_IS_ERROR res then ret res
    else node_work n n res on_state_complete state ;;; ret res.

Definition on_state_complete_func (n data res : Z) : G unit :=
  if SPA_RESULT_IS_ERROR res then pinos_node_update_state n PINOS_NODE_STATE_ERROR (Some (msg_changing_state res))
  else pinos_node_update_state n data None.

(** ** A common format *)

(** The loop of [again]: the input's formats one by one, as filters for the output's.
    Whether it ends is up to the elements. *)
Fixpoint enum_formats (fuel : nat) (output input : Z) (onode inode : Z) (oport iport : Z)
    (filter : option format) (format : option (option format)) (iidx oidx : Z) : G (option bytes * option message) :=
  match fuel with
  | O => undef
  | Datatypes.S fuel' =>
      '(res, out) <- element (fun s => let '(r, o, s) := spa_node_port_enum_formats inode PINOS_DIRECTION_INPUT iport None iidx s in ((r, o), s)) ;;
      let filter := match out with Some f => f | None => filter end in
      if (res <? 0) && (res =? SPA_RESULT_ENUM_END) && negb (iidx =? 0) then ret (None, Some (msg_input_enum_formats res))
      else
        '(res, out) <- element (fun s => let '(r, o, s) := spa_node_port_enum_formats onode PINOS_DIRECTION_OUTPUT oport filter oidx s in ((r, o), s)) ;;
        let format := match out with Some f => Some f | None => format end in
        if res <? 0 then
          if res =? SPA_RESULT_ENUM_END then
            enum_formats fuel' output input onode inode oport iport filter format (u32 (iidx + 1)) 0
          else ret (None, Some (msg_output_enum_formats res))
        else
          match format with
          | Some (Some f) => f <- lift (spa_format_fixate f) ;; ret (Some f, None)
          | _ => undef
          end
  end.

(** The format the side that has one is set to. *)
Definition given_format (n : Z) (direction : PinosDirection) (p : Z) (msg : Z -> message) : G (option bytes * option message) :=
  '(res, out) <- element (fun s => let '(r, o, s) := spa_node_port_get_format n direction p s in ((r, o), s)) ;;
  if res <? 0 then ret (None, Some (msg res))
  else match out with
       | Some (Some f) => ret (Some f, None)
       | Some None => ret (None, Some msg_get_format)
       | None => undef
       end.

Definition reconfigurable (port_state node_state : Z) : bool :=
  (port_state >? PINOS_PORT_STATE_CONFIGURE) && (node_state =? PINOS_NODE_STATE_IDLE).

Definition pinos_core_find_format (fuel : nat) (output input : Z) : G (option bytes * option message) :=
  out <- get_port output ;;
  inp <- get_port input ;;
  onode <- get_node (Port.node out) ;;
  inode <- get_node (Port.node inp) ;;
  let out_state := u32 (Port.state out) in
  let in_state := u32 (Port.state inp) in
  let out_state := if reconfigurable out_state (Node.state onode) then PINOS_PORT_STATE_CONFIGURE else out_state in
  let in_state := if reconfigurable in_state (Node.state inode) then PINOS_PORT_STATE_CONFIGURE else in_state in
  if (in_state =? PINOS_PORT_STATE_CONFIGURE) && (out_state >? PINOS_PORT_STATE_CONFIGURE) then
    given_format (Port.node out) PINOS_DIRECTION_OUTPUT (Port.port_id out) msg_get_output_format
  else if (out_state =? PINOS_PORT_STATE_CONFIGURE) && (in_state >? PINOS_PORT_STATE_CONFIGURE) then
    given_format (Port.node inp) PINOS_DIRECTION_INPUT (Port.port_id inp) msg_get_input_format
  else if (in_state =? PINOS_PORT_STATE_CONFIGURE) && (out_state =? PINOS_PORT_STATE_CONFIGURE) then
    enum_formats fuel output input (Port.node out) (Port.node inp) (Port.port_id out) (Port.port_id inp) None None 0 0
  else ret (None, Some msg_node_state).

(** ** Negotiating, allocating, starting *)

(** The owner of a side of the link: the link has both of its ports here. *)
Definition output_of (this : Link.t) : G Z := match Link.output this with Some p => ret p | None => undef end.
Definition input_of (this : Link.t) : G Z := match Link.input this with Some p => ret p | None => undef end.

(** A port that has a format although its node is idle goes back to be configured. *)
Definition reconfigure (p state : Z) : G Z :=
  port <- get_port p ;;
  node <- get_node (Port.node port) ;;
  if reconfigurable state (Node.state node) then
    pinos_node_set_state (Port.node port) PINOS_NODE_STATE_SUSPENDED ;;; ret PINOS_PORT_STATE_CONFIGURE
  else ret state.

(** Setting the format on one side: [None] when it needs none. *)
Definition set_format (l p state : Z) (direction : PinosDirection) (format : bytes) : G (option Z) :=
  if state =? PINOS_PORT_STATE_CONFIGURE then
    port <- get_port p ;;
    res <- element (spa_node_port_set_format (Port.node port) direction (Port.port_id port) SPA_PORT_FORMAT_FLAG_NEAREST (Some format)) ;;
    if res <? 0 then ret (Some res)
    else link_work l (Port.node port) res complete_ready p ;;; ret (Some res)
  else ret None.

Definition is_failure (r : option Z) : bool := match r with Some res => res <? 0 | None => false end.

Definition do_negotiate (fuel : nat) (l in_state out_state : Z) : G Z :=
  if negb (in_state =? PINOS_PORT_STATE_CONFIGURE) && negb (out_state =? PINOS_PORT_STATE_CONFIGURE) then ret SPA_RESULT_OK
  else
    pinos_link_update_state l PINOS_LINK_STATE_NEGOTIATING None ;;;
    this <- get_link l ;;
    output <- output_of this ;;
    input <- input_of this ;;
    '(format, error) <- pinos_core_find_format fuel output input ;;
    match format with
    | None => pinos_link_update_state l PINOS_LINK_STATE_ERROR error ;;; ret SPA_RESULT_ERROR
    | Some format =>
        out_state <- reconfigure output out_state ;;
        in_state <- reconfigure input in_state ;;
        r <- set_format l output out_state PINOS_DIRECTION_OUTPUT format ;;
        let res := default SPA_RESULT_ERROR r in
        if is_failure r then pinos_link_update_state l PINOS_LINK_STATE_ERROR (Some (msg_set_output_format res)) ;;; ret res
        else
          r2 <- set_format l input in_state PINOS_DIRECTION_INPUT format ;;
          if is_failure r2 then
            pinos_link_update_state l PINOS_LINK_STATE_ERROR (Some (msg_set_input_format (default 0 r2))) ;;; ret res
          else ret (match r2 with Some res2 => if negb (res2 =? SPA_RESULT_OK) then res2 else res | None => res end)
    end.

(** The flags left of each side, [None] when allocation is delayed. *)
Definition common_flags (in_state out_state in_flags out_flags : Z) : option (option (Z * Z)) :=
  let ALLOC := SPA_PORT_INFO_FLAG_CAN_ALLOC_BUFFERS in
  let USE := SPA_PORT_INFO_FLAG_CAN_USE_BUFFERS in
  if (in_state =? PINOS_PORT_STATE_READY) && (out_state =? PINOS_PORT_STATE_READY) then
    if has out_flags ALLOC && has in_flags USE then Some (Some (USE, ALLOC))
    else if has out_flags USE && has in_flags ALLOC then Some (Some (ALLOC, USE))
    else if has out_flags USE && has in_flags USE then Some (Some (USE, USE))
    else if has out_flags ALLOC && has in_flags ALLOC then Some (Some (ALLOC, ALLOC))
    else Some None
  else if (in_state =? PINOS_PORT_STATE_READY) && (out_state >? PINOS_PORT_STATE_READY) then
    Some (Some (Z.land in_flags (Z.lnot ALLOC), Z.land out_flags (Z.lnot USE)))
  else if (out_state =? PINOS_PORT_STATE_READY) && (in_state >? PINOS_PORT_STATE_READY) then
    Some (Some (Z.land in_flags (Z.lnot USE), Z.land out_flags (Z.lnot ALLOC)))
  else None.

Definition MAX_BUFFERS : Z := 16.

(** What one side's [Buffers] parameter does to (max_buffers, minsize, stride). *)
Definition merge_buffers (params : list bytes) (w : Z * Z * Z) : outcome (Z * Z * Z) :=
  let '(max_buffers, minsize, stride) := w in
  let* alloc := find_param params (Buffers ty) in
  match alloc with
  | None => Done w
  | Some p =>
      let* gs := spa_alloc_param_query p
        [(buffers_size ty, SPA_POD_TYPE_INT); (buffers_stride ty, SPA_POD_TYPE_INT); (buffers_buffers ty, SPA_POD_TYPE_INT)] in
      let qminsize := stored (gs !! 0%nat) (u32 minsize) in
      let qstride := stored (gs !! 1%nat) (u32 stride) in
      let qmax_buffers := stored (gs !! 2%nat) max_buffers in
      Done (if qmax_buffers =? 0 then max_buffers else SPA_MIN qmax_buffers max_buffers,
            SPA_MAX minsize qminsize, SPA_MAX stride qstride)
  end.

(** The number of buffers, their size and stride. Both queries ask the input's
    parameter for the size of the ring. *)
Definition buffer_requirements (iparams oparams : list bytes) : outcome (Z * Z * Z) :=
  let* in_me := find_meta_enable ty iparams (meta_Ringbuffer ty) in
  let* out_me := find_meta_enable ty oparams (meta_Ringbuffer ty) in
  match in_me, out_me with
  | Some p, Some _ =>
      let keys := [(ringbufferSize ty, SPA_POD_TYPE_INT); (ringbufferStride ty, SPA_POD_TYPE_INT)] in
      let* gs1 := spa_alloc_param_query p keys in
      if query_count gs1 =? 2 then
        let* gs2 := spa_alloc_param_query p keys in
        if query_count gs2 =? 2 then
          Done (1, SPA_MAX (stored (gs1 !! 0%nat) 0) (stored (gs2 !! 0%nat) 0), SPA_MAX (stored (gs1 !! 1%nat) 0) (stored (gs2 !! 1%nat) 0))
        else Done (1, 1024, 0)
      else Done (1, 1024, 0)
  | _, _ => let* w := merge_buffers iparams (MAX_BUFFERS, 0, 0) in merge_buffers oparams w
  end.

(** [alloc_buffers]: the result of the allocation is not looked at. *)
Definition link_alloc_buffers (l n_buffers minsize stride : Z) (params : list bytes) : G Z :=
  let flags := Z.lor (Z.lor PINOS_MEMBLOCK_FLAG_WITH_FD PINOS_MEMBLOCK_FLAG_MAP_READWRITE) PINOS_MEMBLOCK_FLAG_SEAL in
  this <- get_link l ;;
  n <- lift (block_size ty n_buffers params [(minsize, stride)]) ;;
  '(res, mem) <- system (fun p => let '(r, mem, p) := pinos_memblock_alloc flags n (Link.buffer_mem this) p in ((r, mem), p)) ;;
  set_link l (Link.with_buffer_mem mem) ;;;
  if negb (res =? SPA_RESULT_OK) && negb (n_buffers =? 0) then undef
  else
    '(bs, _) <- lift (alloc_buffers ty n_buffers params [(minsize, stride)] (Mem.fd mem) fresh) ;;
    a <- calloc ;;
    put_array a bs ;;; ret a.

(** The buffers of a port from the link, after a successful call. *)
Definition port_buffers (l p : Z) (allocated : bool) : G unit :=
  this <- get_link l ;;
  set_port p (fun port => Port.with_allocated allocated (Port.with_n_buffers (Link.n_buffers this) (Port.with_buffers (Link.buffers this) port))).

(** Letting a side fill the buffers with memory of its own. *)
Definition side_allocates (l p : Z) (direction : PinosDirection) (params : list bytes) : G Z :=
  this <- get_link l ;;
  port <- get_port p ;;
  '(res, n) <- element (fun s => let '(r, n, s) := spa_node_port_alloc_buffers (Port.node port) direction (Port.port_id port) params (Link.buffers this) (Link.n_buffers this) s in ((r, n), s)) ;;
  set_link l (Link.with_n_buffers n) ;;;
  if res <? 0 then ret res
  else
    link_work l (Port.node port) res complete_paused p ;;;
    port_buffers l p true ;;;
    this <- get_link l ;;
    set_port p (Port.with_buffer_mem (Link.buffer_mem this)) ;;;
    set_link l (Link.with_buffer_owner p) ;;; ret res.

Definition side_uses (l p : Z) (direction : PinosDirection) : G Z :=
  this <- get_link l ;;
  port <- get_port p ;;
  res <- element (spa_node_port_use_buffers (Port.node port) direction (Port.port_id port) (Link.buffers this) (Link.n_buffers this)) ;;
  if res <? 0 then ret res
  else
    link_work l (Port.node port) res complete_paused p ;;;
    port_buffers l p false ;;; ret res.

(** The label [error] of [do_allocation]. *)
Definition allocation_error (l output input : Z) (error : message) : G unit :=
  let clear := fun port => Port.with_allocated false (Port.with_n_buffers 0 (Port.with_buffers 0 port)) in
  set_port output clear ;;;
  set_port input clear ;;;
  pinos_link_update_state l PINOS_LINK_STATE_ERROR (Some error).

(** The buffers of the link when it has none: those of a side, or new ones. *)
Definition choose_buffers (l output input in_flags out_flags : Z) (iparams oparams : list bytes) : G (Z * Z) :=
  '(max_buffers, minsize, stride) <- lift (buffer_requirements iparams oparams) ;;
  let minsize := if has in_flags SPA_PORT_INFO_FLAG_CAN_ALLOC_BUFFERS || has out_flags SPA_PORT_INFO_FLAG_CAN_ALLOC_BUFFERS then 0 else minsize in
  out <- get_port output ;;
  inp <- get_port input ;;
  if negb (Port.n_buffers out =? 0) then
    set_link l (fun o => Link.with_buffer_owner output (Link.with_buffers (Port.buffers out) (Link.with_n_buffers (Port.n_buffers out) o))) ;;;
    ret (SPA_PORT_INFO_FLAG_CAN_USE_BUFFERS, 0)
  else if negb (Port.n_buffers inp =? 0) then
    set_link l (fun o => Link.with_buffer_owner input (Link.with_buffers (Port.buffers inp) (Link.with_n_buffers (Port.n_buffers inp) o))) ;;;
    ret (0, SPA_PORT_INFO_FLAG_CAN_USE_BUFFERS)
  else
    set_link l (fun o => Link.with_n_buffers max_buffers (Link.with_buffer_owner l o)) ;;;
    a <- link_alloc_buffers l max_buffers minsize stride oparams ;;
    set_link l (Link.with_buffers a) ;;;
    ret (in_flags, out_flags).

(** The rest of [do_allocation]: someone allocates, the other side uses; [res0] is
    the result so far. *)
Definition share_buffers (l output input in_flags out_flags res0 : Z) (fresh_buffers : bool) (iparams oparams : list bytes) : G Z :=
  r <- (if fresh_buffers then
          if has out_flags SPA_PORT_INFO_FLAG_CAN_ALLOC_BUFFERS then
            res <- side_allocates l output PINOS_DIRECTION_OUTPUT iparams ;; ret (res, msg_alloc_output res)
          else if has in_flags SPA_PORT_INFO_FLAG_CAN_ALLOC_BUFFERS then
            res <- side_allocates l input PINOS_DIRECTION_INPUT oparams ;; ret (res, msg_alloc_input res)
          else ret (res0, msg_no_common_alloc)
        else ret (res0, msg_no_common_alloc)) ;;
  let '(res, msg) := r in
  if res <? 0 then allocation_error l output input msg ;;; ret res
  else if has in_flags SPA_PORT_INFO_FLAG_CAN_USE_BUFFERS then
    res <- side_uses l input PINOS_DIRECTION_INPUT ;;
    if res <? 0 then allocation_error l output input (msg_use_input res) ;;; ret res else ret res
  else if has out_flags SPA_PORT_INFO_FLAG_CAN_USE_BUFFERS then
    res <- side_uses l output PINOS_DIRECTION_OUTPUT ;;
    if res <? 0 then allocation_error l output input (msg_use_output res) ;;; ret res else ret res
  else allocation_error l output input msg_no_common_alloc ;;; ret res.

Definition do_allocation (l in_state out_state : Z) : G Z :=
  if negb (in_state =? PINOS_PORT_STATE_READY) && negb (out_state =? PINOS_PORT_STATE_READY) then ret SPA_RESULT_OK
  else
    pinos_link_update_state l PINOS_LINK_STATE_ALLOCATING None ;;;
    this <- get_link l ;;
    output <- output_of this ;;
    input <- input_of this ;;
    out <- get_port output ;;
    inp <- get_port input ;;
    '(res, oinfo) <- element (fun s => let '(r, i, s) := spa_node_port_get_info (Port.node out) PINOS_DIRECTION_OUTPUT (Port.port_id out) s in ((r, i), s)) ;;
    if res <? 0 then allocation_error l output input (msg_output_port_info res) ;;; ret res
    else
      '(res, iinfo) <- element (fun s => let '(r, i, s) := spa_node_port_get_info (Port.node inp) PINOS_DIRECTION_INPUT (Port.port_id inp) s in ((r, i), s)) ;;
      if res <? 0 then allocation_error l output input (msg_input_port_info res) ;;; ret res
      else
        when (has (info_flags oinfo) SPA_PORT_INFO_FLAG_LIVE)
          (set_node (Port.node out) (Node.with_live true) ;;; set_node (Port.node inp) (Node.with_live true)) ;;;
        match common_flags in_state out_state (info_flags iinfo) (info_flags oinfo) with
        | None => ret SPA_RESULT_OK
        | Some None => allocation_error l output input msg_no_common_alloc ;;; ret SPA_RESULT_ERROR
        | Some (Some (in_flags, out_flags)) =>
            this <- get_link l ;;
            if Link.buffers this =? 0 then
              '(in_flags, out_flags) <- choose_buffers l output input in_flags out_flags (params iinfo) (params oinfo) ;;
              share_buffers l output input in_flags out_flags res true (params iinfo) (params oinfo)
            else share_buffers l output input in_flags out_flags res false (params iinfo) (params oinfo)
        end.

(** Starting the node of one side. *)
Definition start_side (l p : Z) : G Z :=
  port <- get_port p ;;
  res <- pinos_node_set_state (Port.node port) PINOS_NODE_STATE_RUNNING ;;
  link_work l (Port.node port) res complete_streaming p ;;; ret res.

Definition do_start (l in_state out_state : Z) : G Z :=
  if (in_state <? PINOS_PORT_STATE_PAUSED) || (out_state <? PINOS_PORT_STATE_PAUSED) then ret SPA_RESULT_OK
  else if (in_state =? PINOS_PORT_STATE_STREAMING) && (out_state =? PINOS_PORT_STATE_STREAMING) then
    pinos_link_update_state l PINOS_LINK_STATE_RUNNING None ;;; ret SPA_RESULT_OK
  else
    pinos_link_update_state l PINOS_LINK_STATE_PAUSED None ;;;
    this <- get_link l ;;
    output <- output_of this ;;
    input <- input_of this ;;
    res <- (if in_state =? PINOS_PORT_STATE_PAUSED then start_side l input else ret SPA_RESULT_OK) ;;
    if out_state =? PINOS_PORT_STATE_PAUSED then start_side l output else ret res.

(** One after the other, as long as each is done at once. *)
Definition check_phases (fuel : nat) (l in_state out_state : Z) : G Z :=
  res <- do_negotiate fuel l in_state out_state ;;
  if negb (res =? SPA_RESULT_OK) then ret res
  else
    res <- do_allocation l in_state out_state ;;
    if negb (res =? SPA_RESULT_OK) then ret res
    else do_start l in_state out_state.

Definition check_states_func (fuel : nat) (l : Z) : G Z :=
  this <- get_link l ;;
  if Link.state this =? PINOS_LINK_STATE_ERROR then ret SPA_RESULT_ERROR
  else
    match Link.input this, Link.output this with
    | Some input, Some output =>
        inp <- get_port input ;;
        out <- get_port output ;;
        inode <- get_node (Port.node inp) ;;
        onode <- get_node (Port.node out) ;;
        if (Node.state inode =? PINOS_NODE_STATE_ERROR) || (Node.state onode =? PINOS_NODE_STATE_ERROR) then ret SPA_RESULT_ERROR
        else
          let in_state := u32 (Port.state inp) in
          let out_state := u32 (Port.state out) in
          if (in_state =? PINOS_PORT_STATE_STREAMING) && (out_state =? PINOS_PORT_STATE_STREAMING) then ret SPA_RESULT_OK
          else
            res <- check_phases fuel l in_state out_state ;;
            if SPA_RESULT_IS_ERROR res then ret res
            else link_work l l SPA_RESULT_WAIT_SYNC check_states l ;;; ret res
    | _, _ => ret SPA_RESULT_OK
    end.

(** [complete_ready], [complete_paused], [complete_streaming] *)
Definition complete (state p res : Z) : G unit :=
  if SPA_RESULT_IS_OK res then set_port p (Port.with_state state) else ret tt.
End Negotiate.
