(* ===== verification/Topology.v ===== *)
(** Making and breaking links: [pinos/server/port.c], the construction and removal of
    links of [link.c] and of nodes of [node.c], and what the two loops and the work
    queues run. A removal goes through the data loop, which stops using the object,
    and comes back to the main loop, which frees it. *)
From stdpp Require Import gmap.
From S2P Require Import Prelude State Defs SpaList WorkQueue Mem Buffers Graph Negotiate.

Section Topology.
Context {S : Type} `{SpaNode S} `{Kernel} `{Heap} (ty : PinosType).
Local Abbreviation G := (Graph.G S).

(** ** Ports *)

Definition no_queue : Spec.queue unit work_func := Spec.mk [] false 0 tt.
Definition no_memblock : PinosMemblock := mkMem 0 0 0 0 0.

Definition pinos_port_new (node : Z) (direction : PinosDirection) (port_id : Z) : G Z :=
  p <- calloc ;;
  put_port p (Port.mk node direction port_id PINOS_PORT_STATE_CONFIGURE (mkIo SPA_RESULT_OK SPA_ID_INVALID) false no_memblock 0 0 [] [] [] 0) ;;;
  ret p.

Definition pinos_port_pause_rt (p : Z) : G Z :=
  port <- get_port p ;;
  if Port.state port <=? PINOS_PORT_STATE_PAUSED then ret SPA_RESULT_OK
  else
    res <- element (spa_node_port_send_command (Port.node port) (Port.direction port) (Port.port_id port) Pause) ;;
    set_port p (Port.with_state PINOS_PORT_STATE_PAUSED) ;;; ret res.

(** [spa_node_port_use_buffers (NULL, 0)] and the port's own fields. *)
Definition clear_buffers (p : Z) : G Z :=
  port <- get_port p ;;
  res <- element (spa_node_port_use_buffers (Port.node port) (Port.direction port) (Port.port_id port) 0 0) ;;
  set_port p (fun o => Port.with_state PINOS_PORT_STATE_READY (Port.with_n_buffers 0 (Port.with_buffers 0 o))) ;;; ret res.

Definition next_seq (p : Z) : G Z :=
  port <- get_port p ;;
  put_port p (Port.with_seq (u32 (Port.seq port + 1)) port) ;;; ret (Port.seq port).

Definition pinos_port_clear_buffers (p : Z) : G unit := seq <- next_seq p ;; invoke_data (do_clear_buffers p seq).
Definition pinos_port_unlink (p l : Z) : G unit := seq <- next_seq p ;; invoke_data (do_remove_link p l seq).

Definition do_clear_buffers_func (p seq : Z) : G unit := pinos_port_pause_rt p ;;; invoke_main (do_clear_buffers_done p).
Definition do_clear_buffers_done_func (p : Z) : G unit :=
  port <- get_port p ;;
  if Port.state port <=? PINOS_PORT_STATE_READY then ret tt else clear_buffers p ;;; ret tt.

Definition do_add_link_func (p l : Z) : G unit :=
  this <- get_port p ;;
  put_port p (Port.with_rt_links (Port.rt_links this ++ [l]) this) ;;;
  set_link l (if decide (Port.direction this = PINOS_DIRECTION_INPUT) then Link.with_rt_input (Some p) else Link.with_rt_output (Some p)).

(** Pausing the port behind one of the data loop's pointers and unlinking from it. *)
Definition rt_remove_input (l : Z) : G unit :=
  link <- get_link l ;;
  match Link.rt_input link with
  | None => undef
  | Some p =>
      pinos_port_pause_rt p ;;;
      port <- get_port p ;;
      rt <- list_remove l (Port.rt_links port) ;;
      put_port p (Port.with_rt_links rt port) ;;;
      set_link l (Link.with_rt_input None)
  end.
Definition rt_remove_output (l : Z) : G unit :=
  link <- get_link l ;;
  match Link.rt_output link with
  | None => undef
  | Some p =>
      pinos_port_pause_rt p ;;;
      port <- get_port p ;;
      rt <- list_remove l (Port.rt_links port) ;;
      put_port p (Port.with_rt_links rt port) ;;;
      set_link l (Link.with_rt_output None)
  end.

Definition do_remove_link_func (p l seq : Z) : G unit :=
  port <- get_port p ;;
  (if decide (Port.direction port = PINOS_DIRECTION_INPUT) then rt_remove_input l else rt_remove_output l) ;;;
  invoke_main (do_remove_link_done p l).

(** Taking the link off the list of a port of the node, which counts its links. *)
Definition leave_output (l p : Z) : G unit :=
  port <- get_port p ;;
  ls <- list_remove l (Port.links port) ;;
  put_port p (Port.with_links ls port) ;;;
  set_node (Port.node port) (fun o => Node.with_n_used_output_links (u32 (Node.n_used_output_links o - 1)) o).
Definition leave_input (l p : Z) : G unit :=
  port <- get_port p ;;
  ls <- list_remove l (Port.links port) ;;
  put_port p (Port.with_links ls port) ;;;
  set_node (Port.node port) (fun o => Node.with_n_used_input_links (u32 (Node.n_used_input_links o - 1)) o).

Definition do_remove_link_done_func (p l : Z) : G unit :=
  port <- get_port p ;;
  link <- get_link l ;;
  (if decide (Port.direction port = PINOS_DIRECTION_OUTPUT) then
     match Link.output link with
     | Some q => leave_output l q ;;; set_link l (Link.with_output None)
     | None => ret tt
     end
   else
     match Link.input link with
     | Some q => leave_input l q ;;; set_link l (Link.with_input None)
     | None => ret tt
     end) ;;;
  port <- get_port p ;;
  when (negb (Port.allocated port) && (Port.state port >? PINOS_PORT_STATE_READY)) (clear_buffers p ;;; ret tt) ;;;
  node <- get_node (Port.node port) ;;
  when ((Node.n_used_output_links node =? 0) && (Node.n_used_input_links node =? 0))
    (pinos_node_update_state (Port.node port) PINOS_NODE_STATE_IDLE None).

(** ** Links *)

Fixpoint find_link_in (ls : list Z) (input : Z) : G (option Z) :=
  match ls with
  | [] => ret None
  | l :: ls =>
      link <- get_link l ;;
      if decide (Link.input link = Some input) then ret (Some l) else find_link_in ls input
  end.
Definition find_link (output input : Z) : G (option Z) := port <- get_port output ;; find_link_in (Port.links port) input.
Definition pinos_port_get_link := find_link.

Definition pinos_link_new (output input : Z) : G Z :=
  l <- calloc ;;
  put_link l (Link.mk PINOS_LINK_STATE_INIT None [] (Some output) (Some input) None None 1 no_queue 0 no_memblock 0 0) ;;;
  inp <- get_port input ;;
  put_port input (Port.with_destroy_listeners (Port.destroy_listeners inp ++ [l]) inp) ;;;
  set_node (Port.node inp) (fun o => Node.with_async_listeners (Node.async_listeners o ++ [l]) o) ;;;
  out <- get_port output ;;
  put_port output (Port.with_destroy_listeners (Port.destroy_listeners out ++ [l]) out) ;;;
  set_node (Port.node out) (fun o => Node.with_async_listeners (Node.async_listeners o ++ [l]) o) ;;;
  ls <- get_link_list ;;
  set_link_list (ls ++ [l]) ;;; ret l.

(** The link, or why there is none. *)
Definition pinos_port_link (output input : Z) : G (Z + message) :=
  out <- get_port output ;;
  inp <- get_port input ;;
  if Port.node out =? Port.node inp then ret (inr msg_same_node)
  else if negb (bool_decide (Port.links inp = [])) then ret (inr msg_was_linked)
  else
    found <- find_link output input ;;
    match found with
    | Some l => ret (inl l)
    | None =>
        onode <- get_node (Port.node out) ;;
        set_node (Port.node inp) (fun o =>
          let o := Node.with_live (Node.live onode) o in
          if negb (Node.clock onode =? 0) then Node.with_clock (Node.clock onode) o else o) ;;;
        l <- pinos_link_new output input ;;
        set_port output (fun o => Port.with_links (Port.links o ++ [l]) o) ;;;
        set_port input (fun o => Port.with_links (Port.links o ++ [l]) o) ;;;
        set_node (Port.node out) (fun o => Node.with_n_used_output_links (u32 (Node.n_used_output_links o + 1)) o) ;;;
        set_node (Port.node inp) (fun o => Node.with_n_used_input_links (u32 (Node.n_used_input_links o + 1)) o) ;;;
        invoke_data (do_add_link output l) ;;;
        invoke_data (do_add_link input l) ;;; ret (inl l)
    end.

Definition pinos_link_free (l : Z) : G unit :=
  emit (link_freed l) ;;;
  link <- get_link l ;;
  (if Link.buffer_owner link =? l then memblock_free (Link.buffer_mem link) ;;; ret tt else ret tt) ;;;
  free_link l.

(** [if (--impl->refcount == 0) pinos_link_free (this)] *)
Definition link_unref (l : Z) : G unit :=
  link <- get_link l ;;
  set_link l (fun o => Link.with_refcount (Link.refcount o - 1) o) ;;;
  when (Link.refcount link - 1 =? 0) (pinos_link_free l).
Definition link_ref (l : Z) : G unit := set_link l (fun o => Link.with_refcount (Link.refcount o + 1) o).

(** A client binds to the link, and lets it go. *)
Definition link_bind_func (l resource : Z) : G unit :=
  link_ref l ;;; set_link l (fun o => Link.with_resources (Link.resources o ++ [resource]) o).
Definition link_unbind_func (l resource : Z) : G unit :=
  link <- get_link l ;;
  rs <- list_remove resource (Link.resources link) ;;
  set_link l (Link.with_resources rs) ;;; link_unref l.

Definition clear_port_buffers (l p : Z) : G unit :=
  link <- get_link l ;;
  port <- get_port p ;;
  when (negb (Link.buffer_owner link =? p) && (Port.state port >? PINOS_PORT_STATE_READY)) (clear_buffers p ;;; ret tt).

(** A node without links that is more than idle becomes idle. *)
Definition idle_when_unused (n : Z) : G unit :=
  node <- get_node n ;;
  when ((Node.n_used_input_links node =? 0) && (Node.n_used_output_links node =? 0) && (Node.state node >? PINOS_NODE_STATE_IDLE))
    (pinos_node_update_state n PINOS_NODE_STATE_IDLE None).

Definition do_link_remove_done_func (l : Z) : G unit :=
  link <- get_link l ;;
  match Link.input link with
  | Some p =>
      leave_input l p ;;; clear_port_buffers l p ;;;
      port <- get_port p ;; idle_when_unused (Port.node port) ;;;
      set_link l (Link.with_input None)
  | None => ret tt
  end ;;;
  link <- get_link l ;;
  match Link.output link with
  | Some p =>
      leave_output l p ;;; clear_port_buffers l p ;;;
      port <- get_port p ;; idle_when_unused (Port.node port) ;;;
      set_link l (Link.with_output None)
  | None => ret tt
  end ;;;
  link_unref l.

Definition do_link_remove_func (l seq : Z) : G unit :=
  link <- get_link l ;;
  when (bool_decide (is_Some (Link.rt_input link))) (rt_remove_input l) ;;;
  link <- get_link l ;;
  when (bool_decide (is_Some (Link.rt_output link))) (rt_remove_output l) ;;;
  invoke_main (do_link_remove_done l).

(** Taking the listeners of a link off a port and its node. *)
Definition stop_listening (l p : Z) : G unit :=
  port <- get_port p ;;
  ds <- list_remove l (Port.destroy_listeners port) ;;
  put_port p (Port.with_destroy_listeners ds port) ;;;
  node <- get_node (Port.node port) ;;
  asl <- list_remove l (Node.async_listeners node) ;;
  set_node (Port.node port) (Node.with_async_listeners asl).

(** One side of [pinos_link_destroy]. *)
Definition destroy_side (l : Z) (side : option Z) (seq : Z) : G unit :=
  match side with
  | Some p => stop_listening l p ;;; link_ref l ;;; invoke_data (do_link_remove l seq)
  | None => ret tt
  end.

Definition pinos_link_destroy (l : Z) : G unit :=
  emit (link_destroyed l) ;;;
  ls <- get_link_list ;;
  ls <- list_remove l ls ;;
  set_link_list ls ;;;
  this <- get_link l ;;
  each (Link.resources this) (link_unbind_func l) ;;;
  this <- get_link l ;;
  destroy_side l (Link.input this) 1 ;;;
  this <- get_link l ;;
  destroy_side l (Link.output this) 2 ;;;
  link_unref l.

Definition on_port_destroy (l p : Z) : G unit :=
  this <- get_link l ;;
  let is_input := bool_decide (Link.input this = Some p) in
  if is_input || bool_decide (Link.output this = Some p) then
    stop_listening l p ;;;
    set_link l (if is_input then Link.with_input None else Link.with_output None) ;;;
    let other := if is_input then Link.output this else Link.input this in
    when (Link.buffer_owner this =? p)
      (set_link l (fun o => Link.with_n_buffers 0 (Link.with_buffers 0 o)) ;;;
       match other with Some q => pinos_port_clear_buffers q | None => undef end) ;;;
    emit (port_unlinked l p) ;;;
    pinos_link_update_state l PINOS_LINK_STATE_UNLINKED None ;;;
    pinos_link_destroy l
  else ret tt.

Definition pinos_port_destroy (p : Z) : G unit :=
  port <- get_port p ;;
  each (Port.destroy_listeners port) (fun l => on_port_destroy l p) ;;;
  node <- get_node (Port.node port) ;;
  (if decide (Port.direction port = PINOS_DIRECTION_INPUT) then
     ps <- list_remove p (Node.input_ports node) ;; set_node (Port.node port) (Node.with_input_ports ps)
   else
     ps <- list_remove p (Node.output_ports node) ;; set_node (Port.node port) (Node.with_output_ports ps)) ;;;
  free_port p.

(** ** Nodes *)

(** The real-time side of the ports of a node that goes away. *)
Definition rt_stop_port (direction : PinosDirection) (p : Z) : G unit :=
  port <- get_port p ;;
  each (Port.rt_links port) (fun l => if decide (direction = PINOS_DIRECTION_INPUT) then rt_remove_input l else rt_remove_output l).

Definition do_node_remove_func (n seq : Z) : G unit :=
  pause_node n ;;;
  this <- get_node n ;;
  each (Node.input_ports this) (rt_stop_port PINOS_DIRECTION_INPUT) ;;;
  each (Node.output_ports this) (rt_stop_port PINOS_DIRECTION_OUTPUT) ;;;
  invoke_main (do_node_remove_done n).

Definition do_node_remove_done_func (n : Z) : G unit :=
  this <- get_node n ;;
  each (Node.input_ports this) pinos_port_destroy ;;;
  each (Node.output_ports this) pinos_port_destroy ;;;
  emit (node_freed n) ;;;
  free_node n.

Definition pinos_node_destroy (n : Z) : G unit :=
  emit (node_destroyed n) ;;;
  this <- get_node n ;;
  when (negb (Node.async_init this))
    (ns <- get_node_list ;;
     ns <- list_remove n ns ;;
     set_node_list ns ;;;
     set_node n (fun o => Node.with_has_global false (Node.with_listed false o))) ;;;
  invoke_data (do_node_remove n 1).

(** [update_port_ids]: the list of ports is walked with a cursor, [None] at its head;
    a port is inserted behind the cursor. *)
Definition node_ports (direction : PinosDirection) (o : Node.t) : list Z :=
  match direction with PINOS_DIRECTION_INPUT => Node.input_ports o | PINOS_DIRECTION_OUTPUT => Node.output_ports o end.
Definition with_node_ports (direction : PinosDirection) (l : list Z) (o : Node.t) : Node.t :=
  match direction with PINOS_DIRECTION_INPUT => Node.with_input_ports l o | PINOS_DIRECTION_OUTPUT => Node.with_output_ports l o end.
Definition node_port_map (direction : PinosDirection) (o : Node.t) : gmap Z Z :=
  match direction with PINOS_DIRECTION_INPUT => Node.input_port_map o | PINOS_DIRECTION_OUTPUT => Node.output_port_map o end.
Definition with_node_port_map (direction : PinosDirection) (m : gmap Z Z) (o : Node.t) : Node.t :=
  match direction with PINOS_DIRECTION_INPUT => Node.with_input_port_map m o | PINOS_DIRECTION_OUTPUT => Node.with_output_port_map m o end.
Definition max_ports (direction : PinosDirection) (o : Node.t) : Z :=
  match direction with PINOS_DIRECTION_INPUT => Node.max_input_ports o | PINOS_DIRECTION_OUTPUT => Node.max_output_ports o end.
Definition n_ports (direction : PinosDirection) (o : Node.t) : Z :=
  match direction with PINOS_DIRECTION_INPUT => Node.n_input_ports o | PINOS_DIRECTION_OUTPUT => Node.n_output_ports o end.
Definition with_n_ports (direction : PinosDirection) (k : Z) (o : Node.t) : Node.t :=
  match direction with PINOS_DIRECTION_INPUT => Node.with_n_input_ports k o | PINOS_DIRECTION_OUTPUT => Node.with_n_output_ports k o end.

Definition cursor_at (l : list Z) (k : nat) : option nat := if decide (k < length l)%nat then Some k else None.
Definition behind (cursor : option nat) : nat := match cursor with None => 0 | Some k => Datatypes.S k end.

(** [node->input_port_map[id] = p] *)
Definition map_port (n : Z) (direction : PinosDirection) (id : Z) (p : option Z) : G unit :=
  node <- get_node n ;;
  if (0 <=? id) && (id <? max_ports direction node) then
    set_node n (with_node_port_map direction (partial_alter (fun _ => p) id (node_port_map direction node)))
  else undef.

Fixpoint update_ports (fuel : nat) (n : Z) (direction : PinosDirection) (ids : list Z) (cursor : option nat) : G unit :=
  match fuel with
  | O => undef
  | Datatypes.S fuel' =>
      node <- get_node n ;;
      let l := node_ports direction node in
      p <- (match cursor with None => ret None | Some k => match l !! k with Some p => port <- get_port p ;; ret (Some (p, Port.port_id port)) | None => undef end end) ;;
      match p, ids with
      | Some (p, pid), id :: rest =>
          if pid =? id then
            map_port n direction id (Some p) ;;;
            update_ports fuel' n direction rest (cursor_at l (behind cursor))
          else insert_port fuel' n direction id rest cursor
      | None, id :: rest => insert_port fuel' n direction id rest cursor
      | Some (p, pid), [] =>
          map_port n direction pid None ;;;
          when (negb (Node.async_init node)) (emit (port_removed n p)) ;;;
          pinos_port_destroy p ;;;
          node <- get_node n ;;
          update_ports fuel' n direction [] (match cursor with Some k => cursor_at (node_ports direction node) k | None => None end)
      | None, [] => ret tt
      end
  end
with insert_port (fuel : nat) (n : Z) (direction : PinosDirection) (id : Z) (ids : list Z) (cursor : option nat) : G unit :=
  match fuel with
  | O => undef
  | Datatypes.S fuel' =>
      p <- pinos_port_new n direction id ;;
      _ <- element (spa_node_port_set_io n direction id) ;;
      node <- get_node n ;;
      let k := behind cursor in
      let l := take k (node_ports direction node) ++ p :: drop k (node_ports direction node) in
      set_node n (with_node_ports direction l) ;;;
      map_port n direction id (Some p) ;;;
      when (negb (Node.async_init node)) (emit (port_added n p)) ;;;
      update_ports fuel' n direction ids (cursor_at l (Datatypes.S k))
  end.

Definition update_port_ids (n : Z) : G unit :=
  '(n_in, max_in, n_out, max_out) <- element (spa_node_get_n_ports n) ;;
  set_node n (fun o => Node.with_output_port_map ∅ (Node.with_input_port_map ∅
    (Node.with_max_output_ports max_out (Node.with_n_output_ports n_out (Node.with_max_input_ports max_in (Node.with_n_input_ports n_in o)))))) ;;;
  '(in_ids, out_ids) <- element (fun s => let '(i, o, s) := spa_node_get_port_ids n s in ((i, o), s)) ;;
  let in_ids := take (Z.to_nat n_in) in_ids in
  let out_ids := take (Z.to_nat n_out) out_ids in
  node <- get_node n ;;
  update_ports (2 * (length in_ids + length (Node.input_ports node)) + 1) n PINOS_DIRECTION_INPUT in_ids None ;;;
  update_ports (2 * (length out_ids + length (Node.output_ports node)) + 1) n PINOS_DIRECTION_OUTPUT out_ids None ;;;
  emit (initialized n).

Definition init_complete_func (n : Z) : G unit :=
  update_port_ids n ;;;
  set_node n (fun o => Node.with_has_global true (Node.with_listed true (Node.with_async_init false o))) ;;;
  ns <- get_node_list ;;
  set_node_list (ns ++ [n]) ;;;
  pinos_node_update_state n PINOS_NODE_STATE_SUSPENDED None.

(** [has_info]: the element has information of its own, for the properties. A node
    that does is given up: the test of the properties is the wrong way around. *)
Definition pinos_node_new (async has_info : bool) (clock : Z) : G (option Z) :=
  n <- calloc ;;
  if has_info then ret None
  else
    put_node n (Node.mk PINOS_NODE_STATE_CREATING None false clock false false 0 0 [] ∅ 0 0 0 [] ∅ 0 [] async no_queue) ;;;
    (if async then node_work n n (SPA_RESULT_RETURN_ASYNC 0) init_complete 0 else init_complete_func n) ;;;
    ret (Some n).

(** A port without links, the first free slot, or for outputs the first port. *)
Fixpoint first_unlinked (ps : list Z) : G (option Z) :=
  match ps with
  | [] => ret None
  | p :: ps => port <- get_port p ;; if bool_decide (Port.links port = []) then ret (Some p) else first_unlinked ps
  end.

Definition free_slot (count : nat) (m : gmap Z Z) : option Z :=
  Z.of_nat <$> index_of (fun k => bool_decide (m !! Z.of_nat k = None)) (List.seq 0 count).

Definition pinos_node_get_free_port (n : Z) (direction : PinosDirection) : G (option Z) :=
  node <- get_node n ;;
  found <- first_unlinked (node_ports direction node) ;;
  match found with
  | Some p => ret (Some p)
  | None =>
      if n_ports direction node <? max_ports direction node then
        match free_slot (Z.to_nat (max_ports direction node)) (node_port_map direction node) with
        | None => ret None
        | Some i =>
            p <- pinos_port_new n direction i ;;
            map_port n direction i (Some p) ;;;
            set_node n (fun o => with_n_ports direction (u32 (n_ports direction o + 1)) (with_node_ports direction (p :: node_ports direction o) o)) ;;;
            res <- element (spa_node_add_port n direction i) ;;
            when (negb (res <? 0)) (_ <- element (spa_node_port_set_io n direction i) ;; ret tt) ;;;
            ret (Some p)
        end
      else match direction, node_ports direction node with
           | PINOS_DIRECTION_OUTPUT, p :: _ => ret (Some p)
           | _, _ => ret None
           end
  end.

(** ** What the loops and the queues run *)

Definition run_closure (c : closure) : G unit :=
  match c with
  | do_add_link p l => do_add_link_func p l
  | do_remove_link p l seq => do_remove_link_func p l seq
  | do_remove_link_done p l => do_remove_link_done_func p l
  | do_clear_buffers p seq => do_clear_buffers_func p seq
  | do_clear_buffers_done p => do_clear_buffers_done_func p
  | do_link_remove l seq => do_link_remove_func l seq
  | do_link_remove_done l => do_link_remove_done_func l
  | do_node_remove n seq => do_node_remove_func n seq
  | do_node_remove_done n => do_node_remove_done_func n
  end.

(** One turn of a loop: the function at the head of its queue. *)
Definition main_turn : G unit := fun g =>
  match main_loop g with
  | [] => Done (tt, g)
  | c :: q => run_closure c (mkGraph (nodes g) (ports g) (links g) (arrays g) (node_list g) (link_list g) q (data_loop g) (events g) (next_addr g) (proc g) (elements g))
  end.
Definition data_turn : G unit := fun g =>
  match data_loop g with
  | [] => Done (tt, g)
  | c :: q => run_closure c (mkGraph (nodes g) (ports g) (links g) (arrays g) (node_list g) (link_list g) (main_loop g) q (events g) (next_addr g) (proc g) (elements g))
  end.

Definition run_work (fuel : nat) (item : WorkItem work_func) : G unit :=
  match func item with
  | Some complete_ready => complete PINOS_PORT_STATE_READY (WorkQueue.data item) (res item)
  | Some complete_paused => complete PINOS_PORT_STATE_PAUSED (WorkQueue.data item) (res item)
  | Some complete_streaming => complete PINOS_PORT_STATE_STREAMING (WorkQueue.data item) (res item)
  | Some check_states => check_states_func ty fuel (WorkQueue.data item) ;;; ret tt
  | Some init_complete => init_complete_func (obj item)
  | Some on_state_complete => on_state_complete_func (obj item) (WorkQueue.data item) (res item)
  | None => ret tt
  end.

(** A wakeup of a work queue: the pass of the component WorkQueue, with the whole
    graph as the state behind the queue. *)
Definition set_link_queue (l : Z) (f : Spec.queue unit work_func -> Spec.queue unit work_func) : G unit :=
  set_link l (fun o => Link.with_work (f (Link.work o)) o).
Definition set_node_queue (n : Z) (f : Spec.queue unit work_func -> Spec.queue unit work_func) : G unit :=
  set_node n (fun o => Node.with_work (f (Node.work o)) o).

Section Pass.
Context (get : G (Spec.queue unit work_func)) (set : (Spec.queue unit work_func -> Spec.queue unit work_func) -> G unit).

Fixpoint queue_pass (turns fuel : nat) (k : nat) : G unit :=
  q <- get ;;
  match Spec.pending q !! k with
  | None => ret tt
  | Some item =>
      match turns with
      | O => undef
      | Datatypes.S turns' =>
          if Spec.blocked k item then queue_pass turns' fuel (Datatypes.S k)
          else
            set (fun q => Spec.mk (delete k (Spec.pending q)) (Spec.signalled q) (Spec.count q) tt) ;;;
            run_work fuel item ;;;
            if Nat.eqb (Datatypes.S k) (length (Spec.pending q)) then ret tt else queue_pass turns' fuel k
      end
  end.

Definition queue_wakeup (turns fuel : nat) : G unit :=
  q <- get ;;
  if Spec.signalled q then
    set (fun q => Spec.mk (Spec.pending q) false (Spec.count q) tt) ;;; queue_pass turns fuel 0
  else ret tt.
End Pass.

Definition link_wakeup (l : Z) (turns fuel : nat) : G unit :=
  queue_wakeup (this <- get_link l ;; ret (Link.work this)) (set_link_queue l) turns fuel.
Definition node_wakeup (n : Z) (turns fuel : nat) : G unit :=
  queue_wakeup (this <- get_node n ;; ret (Node.work this)) (set_node_queue n) turns fuel.

(** [pinos_work_queue_complete] for an asynchronous result, in the queue of the node
    and in those of the links that listen. *)
Definition on_async_complete (n seq res : Z) : G unit :=
  set_node n (fun o => Node.with_work (Spec.update (completes n seq) (completed res) (Node.work o)).2 o) ;;;
  node <- get_node n ;;
  each (Node.async_listeners node) (fun l => set_link_queue l (fun q => (Spec.update (completes n seq) (completed res) q).2)).

(** ** A running server *)

(** What the rest of the server and the two threads do with the graph. *)
Inductive request :=
| node_new (async has_info : bool) (clock : Z)
| node_destroy (n : Z)
| node_set_state (n state : Z)
| node_update_state (n state : Z) (error : option message)
| get_free_port (n : Z) (direction : PinosDirection)
| clock_update (n : Z)
| port_link (output input : Z)
| port_unlink (p l : Z)
| port_clear_buffers (p : Z)
| link_activate (l : Z)
| link_destroy (l : Z)
| link_bind (l resource : Z)
| link_unbind (l resource : Z)
| on_main_loop
| on_data_loop
| on_link_wakeup (l : Z) (turns fuel : nat)
| on_node_wakeup (n : Z) (turns fuel : nat)
| async_complete (n seq res : Z).

Definition perform (r : request) : G unit :=
  match r with
  | node_new async has_info clock => pinos_node_new async has_info clock ;;; ret tt
  | node_destroy n => pinos_node_destroy n
  | node_set_state n state => pinos_node_set_state n state ;;; ret tt
  | node_update_state n state error => pinos_node_update_state n state error
  | get_free_port n direction => pinos_node_get_free_port n direction ;;; ret tt
  | clock_update n => send_clock_update n
  | port_link output input => pinos_port_link output input ;;; ret tt
  | port_unlink p l => pinos_port_unlink p l
  | port_clear_buffers p => pinos_port_clear_buffers p
  | link_activate l => pinos_link_activate l
  | link_destroy l => pinos_link_destroy l
  | link_bind l resource => link_bind_func l resource
  | link_unbind l resource => link_unbind_func l resource
  | on_main_loop => main_turn
  | on_data_loop => data_turn
  | on_link_wakeup l turns fuel => link_wakeup l turns fuel
  | on_node_wakeup n turns fuel => node_wakeup n turns fuel
  | async_complete n seq res => on_async_complete n seq res
  end.

Definition run (rs : list request) : G unit := each rs perform.

(** Before anything happened. *)
Definition blank (p : process) (s : S) : graph S := mkGraph ∅ ∅ ∅ ∅ [] [] [] [] [] 1 p s.
End Topology.
