(* ===== verification/Formats.v ===== *)
(** Finding a common format ([pinos/server/core.c], [pinos_core_find_format]): when the
    two elements enumerate their formats as the interface says, the search ends with
    the first format of the input the output agrees to. *)
From stdpp Require Import gmap.
From S2P Require Import Prelude State Defs SpaList WorkQueue Mem Pod PodUtils Buffers Graph Negotiate.

Section Formats.
Context {S : Type} `{node_impl : SpaNode S}.
Context (output input onode inode oport iport : Z).

(** The formats of the input, what the output makes of one of them, and what it has
    without a filter. *)
Record enumerates (fs : list format) (agree : format -> option format) (any : option format) : Prop := {
  enumerates_in k s : spa_node_port_enum_formats inode PINOS_DIRECTION_INPUT iport None k s =
    match fs !! Z.to_nat k with Some f => (SPA_RESULT_OK, Some (Some f), s) | None => (SPA_RESULT_ENUM_END, None, s) end;
  enumerates_out f s : spa_node_port_enum_formats onode PINOS_DIRECTION_OUTPUT oport (Some f) 0 s =
    match agree f with Some f' => (SPA_RESULT_OK, Some (Some f'), s) | None => (SPA_RESULT_ENUM_END, None, s) end;
  enumerates_any s : spa_node_port_enum_formats onode PINOS_DIRECTION_OUTPUT oport None 0 s =
    match any with Some f' => (SPA_RESULT_OK, Some (Some f'), s) | None => (SPA_RESULT_ENUM_END, None, s) end
}.

(** What the search is for; an input that has no formats leaves it to the output. *)
Definition first_agreed (fs : list format) (agree : format -> option format) : option format := head (omap agree fs).
Definition found (fs : list format) (agree : format -> option format) (any : option format) : option format :=
  match fs with [] => any | _ => first_agreed fs agree end.

(** The same graph: an element that only answers. *)
Lemma element_pure {A} (a : A) f (g : graph S) : f (elements g) = (a, elements g) -> element f g = Done (a, g).
Proof. intros Hf. unfold element. rewrite Hf. by destruct g. Qed.

Context (fs : list format) (agree : format -> option format) (any : option format) (Hen : enumerates fs agree any).

Definition search_result (r : option format) (g : graph S) : outcome ((option bytes * option message) * graph S) :=
  match r with
  | Some f => let* f := spa_format_fixate f in Done ((Some f, None), g)
  | None => Done ((None, Some (msg_input_enum_formats SPA_RESULT_ENUM_END)), g)
  end.

Lemma enum_formats_from fuel g : forall k format filter, (k <= length fs)%nat -> (length fs < k + fuel)%nat -> Z.of_nat (length fs) < 2 ^ 32 ->
  (k = 0%nat -> fs <> []) ->
  enum_formats fuel output input onode inode oport iport filter format (Z.of_nat k) 0 g = search_result (first_agreed (drop k fs) agree) g.
Proof.
  induction fuel as [|fuel IH]; intros k format filter Hk Hfuel Hlen Hne; [lia |]. cbn [enum_formats]. unfold bind at 1.
  destruct (fs !! k) as [f |] eqn:Hf.
  - rewrite (element_pure (SPA_RESULT_OK, Some (Some f))); [| rewrite (enumerates_in _ _ _ Hen); by rewrite Nat2Z.id, Hf].
    cbn [obind]. cbv zeta iota beta. change (SPA_RESULT_OK <? 0) with false. cbn [andb]. cbv iota. unfold bind at 1.
    erewrite drop_S by exact Hf. unfold first_agreed. cbn [omap list_omap]. destruct (agree f) as [f' |] eqn:Ha.
    + rewrite (element_pure (SPA_RESULT_OK, Some (Some f'))); [| rewrite (enumerates_out _ _ _ Hen); by rewrite Ha].
      cbn [obind]. cbv zeta iota beta. change (SPA_RESULT_OK <? 0) with false. cbv iota. unfold bind, lift, ret. simpl. by destruct (spa_format_fixate f').
    + rewrite (element_pure (SPA_RESULT_ENUM_END, None)); [| rewrite (enumerates_out _ _ _ Hen); by rewrite Ha].
      cbn [obind]. cbv zeta iota beta. change (SPA_RESULT_ENUM_END <? 0) with true. change (SPA_RESULT_ENUM_END =? SPA_RESULT_ENUM_END) with true. cbv iota.
      apply lookup_lt_Some in Hf. rewrite u32_small by (unfold is_u32; lia). replace (Z.of_nat k + 1) with (Z.of_nat (Datatypes.S k)) by lia.
      apply IH; lia.
  - rewrite (element_pure (SPA_RESULT_ENUM_END, None)); [| rewrite (enumerates_in _ _ _ Hen); by rewrite Nat2Z.id, Hf].
    cbn [obind]. cbv zeta iota beta. change (SPA_RESULT_ENUM_END <? 0) with true. change (SPA_RESULT_ENUM_END =? SPA_RESULT_ENUM_END) with true.
    apply lookup_ge_None in Hf. assert (k <> 0%nat) as Hk0 by (intros ->; destruct fs; [by apply Hne | simpl in Hf; lia]).
    rewrite (proj2 (Z.eqb_neq (Z.of_nat k) 0)) by lia. cbn [andb negb]. cbv iota. by rewrite drop_ge.
Qed.

(** An input that ends at once: the output is asked without a filter. *)
Lemma enum_formats_nothing fuel g : fs = [] -> (2 <= fuel)%nat ->
  enum_formats fuel output input onode inode oport iport None None 0 0 g = search_result any g.
Proof.
  intros Hfs Hfuel. destruct fuel as [|[|fuel]]; [lia.. |]. cbn [enum_formats]. unfold bind at 1.
  rewrite (element_pure (SPA_RESULT_ENUM_END, None)); [| by rewrite (enumerates_in _ _ _ Hen), Hfs].
  cbn [obind]. cbv zeta iota beta. rewrite Z.eqb_refl. cbn [negb]. rewrite andb_false_r. cbv iota. unfold bind at 1. destruct any as [f' |] eqn:Hany.
  - rewrite (element_pure (SPA_RESULT_OK, Some (Some f'))); [| by rewrite (enumerates_any _ _ _ Hen)].
    cbn [obind]. cbv zeta iota beta. change (SPA_RESULT_OK <? 0) with false. cbv iota. unfold bind, lift, ret. simpl. by destruct (spa_format_fixate f').
  - rewrite (element_pure (SPA_RESULT_ENUM_END, None)); [| by rewrite (enumerates_any _ _ _ Hen)].
    cbn [obind]. cbv zeta iota beta. change (SPA_RESULT_ENUM_END <? 0) with true. rewrite Z.eqb_refl. cbv iota. unfold bind at 1.
    change (u32 (0 + 1)) with 1. rewrite (element_pure (SPA_RESULT_ENUM_END, None)); [| by rewrite (enumerates_in _ _ _ Hen), Hfs].
    cbn [obind]. cbv zeta iota beta. reflexivity.
Qed.

End Formats.

(** C31: When the elements of two ports enumerate their formats, the search for a common one
    ends: with the first format of the input that the output agrees to, fixated, and with an
    error when there is none. When the input has no format at all, it ends with the first
    one the output has without a filter, and with the error when that has none either. *)
Theorem find_format_first {S} `{node_impl : SpaNode S} onode inode oport iport output input fs agree any fuel (g : graph S) :
  enumerates onode inode oport iport fs agree any -> Z.of_nat (length fs) < 2 ^ 32 -> (length fs + 1 < fuel)%nat ->
  enum_formats fuel output input onode inode oport iport None None 0 0 g =
    match found fs agree any with
    | Some f => let* f := spa_format_fixate f in Done ((Some f, None), g)
    | None => Done ((None, Some (msg_input_enum_formats SPA_RESULT_ENUM_END)), g)
    end.
Proof.
  intros Hen Hlen Hfuel. destruct (decide (fs = [])) as [Hfs | Hne].
  - rewrite (enum_formats_nothing output input onode inode oport iport fs agree any Hen fuel g Hfs) by lia. by rewrite Hfs.
  - assert (found fs agree any = first_agreed fs agree) as -> by by destruct fs.
    rewrite <- (drop_0 fs) at 1. apply (enum_formats_from output input onode inode oport iport fs agree any Hen fuel g 0); lia || done.
Qed.

(** Another answer of the input than the end of its formats stops nothing: while the output
    has none for it, the search goes on for ever. *)
Theorem find_format_spins {S} `{node_impl : SpaNode S} onode inode oport iport output input r (g : graph S) :
  r < 0 -> r <> SPA_RESULT_ENUM_END ->
  (forall k s, spa_node_port_enum_formats inode PINOS_DIRECTION_INPUT iport None k s = (r, None, s)) ->
  (forall s, spa_node_port_enum_formats onode PINOS_DIRECTION_OUTPUT oport None 0 s = (SPA_RESULT_ENUM_END, None, s)) ->
  forall fuel iidx, enum_formats fuel output input onode inode oport iport None None iidx 0 g = Undef.
Proof.
  intros Hr Hend Hin Hout. induction fuel as [|fuel IH]; intros iidx; [done |]. cbn [enum_formats]. unfold bind at 1.
  rewrite (element_pure (r, None)) by by rewrite Hin.
  cbn [obind]. cbv zeta iota beta. rewrite (proj2 (Z.eqb_neq _ _) Hend), andb_false_r. cbn [andb]. cbv iota. unfold bind at 1.
  rewrite (element_pure (SPA_RESULT_ENUM_END, None)) by by rewrite Hout.
  cbn [obind]. cbv zeta iota beta. change (SPA_RESULT_ENUM_END <? 0) with true. rewrite Z.eqb_refl. cbv iota. apply IH.
Qed.

(** ** Elements that enumerate *)

Definition listing (fs : list format) (agree : format -> option format) : SpaNode unit := {|
  spa_node_send_command n c s := (SPA_RESULT_OK, s);
  spa_node_port_enum_formats n d p filter k s :=
    match d, filter with
    | PINOS_DIRECTION_OUTPUT, Some f =>
        match agree f with Some f' => (SPA_RESULT_OK, Some (Some f'), s) | None => (SPA_RESULT_ENUM_END, None, s) end
    | _, _ => match fs !! Z.to_nat k with Some f => (SPA_RESULT_OK, Some (Some f), s) | None => (SPA_RESULT_ENUM_END, None, s) end
    end;
  spa_node_port_set_format n d p flags f s := (SPA_RESULT_OK, s);
  spa_node_port_get_format n d p s := (SPA_RESULT_OK, Some None, s);
  spa_node_port_get_info n d p s := (SPA_RESULT_OK, mkInfo 0 [], s);
  spa_node_port_use_buffers n d p b k s := (SPA_RESULT_OK, s);
  spa_node_port_alloc_buffers n d p ps b k s := (SPA_RESULT_OK, k, s);
  spa_node_port_send_command n d p c s := (SPA_RESULT_OK, s);
  spa_node_port_set_io n d p s := (SPA_RESULT_OK, s);
  spa_node_add_port n d p s := (SPA_RESULT_OK, s);
  spa_node_get_n_ports n s := (1, 1, 1, 1, s);
  spa_node_get_port_ids n s := ([0], [0], s);
  spa_clock_get_time c s := ((1, 0, 0), s)
|}.

Lemma listing_enumerates fs agree : enumerates (node_impl := listing fs agree) 1 2 0 0 fs agree (head fs).
Proof. split; [done.. |]. intros s. by destruct fs. Qed.

(** Formats without properties, told apart by their media type. *)
Definition plain_format (media : Z) : format := le32 40 ++ le32 0 ++ le32 0 ++ le32 media ++ replicate 32 0.
Definition only (f f' : format) : option format := if decide (f' = f) then Some f' else None.

Definition empty_graph : graph unit := mkGraph ∅ ∅ ∅ ∅ [] [] [] [] [] 1 (mkProcess ∅ ∅ ∅ 0) tt.

(** The second format of an input; and none, with an output that has one. *)
Lemma find_format_first_witness :
  enum_formats (H := listing [plain_format 7; plain_format 8] (only (plain_format 8))) 4 10 20 1 2 0 0 None None 0 0 empty_graph =
    Done ((Some (plain_format 8), None), empty_graph) /\
  enum_formats (H := listing [] (only (plain_format 8))) 2 10 20 1 2 0 0 None None 0 0 empty_graph =
    Done ((None, Some (msg_input_enum_formats SPA_RESULT_ENUM_END)), empty_graph).
Proof.
  split.
  - rewrite (find_format_first (node_impl := listing [plain_format 7; plain_format 8] (only (plain_format 8))) 1 2 0 0 10 20 _ _ _ 4 empty_graph
      (listing_enumerates _ _)); [| done | simpl; lia].
    assert (found [plain_format 7; plain_format 8] (only (plain_format 8)) (head [plain_format 7; plain_format 8]) = Some (plain_format 8)) as -> by (vm_compute; reflexivity).
    assert (spa_format_fixate (plain_format 8) = Done (plain_format 8)) as -> by (vm_compute; reflexivity). reflexivity.
  - exact (find_format_first (node_impl := listing [] (only (plain_format 8))) 1 2 0 0 10 20 _ _ _ 2 empty_graph
      (listing_enumerates _ _) eq_refl ltac:(simpl; lia)).
Defined.
