(* ===== verification/LinkLife.v ===== *)
(** A link between two elements that oblige: when neither port has a format it comes to life, is
    negotiated, gets its buffers and streams; when its output already has one, it stalls. *)
From stdpp Require Import gmap.
From S2P Require Import Prelude State Defs SpaList WorkQueue Mem Pod PodUtils Buffers Graph Negotiate Topology.

(** ** Elements that oblige *)

(** Every request succeeds at once; ports always give the same information. The
    output can allocate buffers, the input can use them. *)
Record obliging {S} `{SpaNode S} (oinfo iinfo : SpaPortInfo) : Prop := {
  obliging_command n c s : (spa_node_send_command n c s).1 = SPA_RESULT_OK;
  obliging_enum n d p filter k s : exists f f' s',
    spa_node_port_enum_formats n d p filter k s = (SPA_RESULT_OK, Some (Some f), s') /\ spa_format_fixate f = Done f';
  obliging_get_format n d p s : exists f s', spa_node_port_get_format n d p s = (SPA_RESULT_OK, Some (Some f), s');
  obliging_set_format n d p flags f s : (spa_node_port_set_format n d p flags f s).1 = SPA_RESULT_OK;
  obliging_info n d p s : exists s', spa_node_port_get_info n d p s =
    (SPA_RESULT_OK, match d with PINOS_DIRECTION_INPUT => iinfo | PINOS_DIRECTION_OUTPUT => oinfo end, s');
  obliging_use n d p b k s : (spa_node_port_use_buffers n d p b k s).1 = SPA_RESULT_OK;
  obliging_alloc n d p ps b k s : exists k' s', spa_node_port_alloc_buffers n d p ps b k s = (SPA_RESULT_OK, k', s') /\ k' <> 0;
  obliging_out : has (info_flags oinfo) SPA_PORT_INFO_FLAG_CAN_ALLOC_BUFFERS = true;
  obliging_in : has (info_flags iinfo) SPA_PORT_INFO_FLAG_CAN_USE_BUFFERS = true
}.

(** The kernel gives the memory asked for. *)
Definition link_flags : Z := Z.lor (Z.lor PINOS_MEMBLOCK_FLAG_WITH_FD PINOS_MEMBLOCK_FLAG_MAP_READWRITE) PINOS_MEMBLOCK_FLAG_SEAL.
Definition grants `{Kernel} : Prop := forall n mem p, n <> 0 -> (pinos_memblock_alloc link_flags n mem p).1.1 = SPA_RESULT_OK.

(** The parameters of the ports can be read, and a block laid out from them. *)
Definition readable `{Heap} (ty : PinosType) (oinfo iinfo : SpaPortInfo) : Prop :=
  exists n minsize stride size, buffer_requirements ty (params iinfo) (params oinfo) = Done (n, minsize, stride) /\
    block_size ty n (params oinfo) [(0, stride)] = Done size /\ size <> 0 /\
    forall fd, exists bs m, alloc_buffers ty n (params oinfo) [(0, stride)] fd fresh = Done (bs, m).

Section Life.
Context {S : Type} `{node_impl : SpaNode S} `{kernel : Kernel} `{heap_impl : Heap} (ty : PinosType).
Context (oinfo iinfo : SpaPortInfo) (elements_oblige : obliging oinfo iinfo) (memory : grants) (parameters : readable ty oinfo iinfo).
Context (l o i no ni : Z) (two_ports : o <> i) (two_nodes : no <> ni).
Local Abbreviation G := (Graph.G S).

(** Does the output already have a format, from another link? Then its node is in use, not idle. *)
Context (configured : bool).

(** The node of a side: alive, and, for a link that starts it, with the one port. *)
Definition out_node (N : Node.t) : Prop := Node.state N <> PINOS_NODE_STATE_ERROR /\
  if configured then Node.state N <> PINOS_NODE_STATE_IDLE else Node.input_ports N = [] /\ Node.output_ports N = [o].
Definition in_node (N : Node.t) : Prop := Node.state N <> PINOS_NODE_STATE_ERROR /\
  if configured then True else Node.input_ports N = [i] /\ Node.output_ports N = [].

(** Where the objects are; the rest of the graph is arbitrary. *)
Record world (L : Link.t) (O I : Port.t) (g : graph S) : Prop := {
  w_link : links g !! l = Some L;
  w_out : ports g !! o = Some O;
  w_in : ports g !! i = Some I;
  w_onode : exists N, nodes g !! no = Some N /\ out_node N;
  w_inode : exists N, nodes g !! ni = Some N /\ in_node N;
  w_addr : 0 < next_addr g
}.

Section Steps.
Context (L : Link.t) (O I : Port.t) {B : Type} (Q : B -> graph S -> Prop).

Lemma step_get_link (k : Link.t -> G B) : runs (world L O I) (k L) Q -> runs (world L O I) (bind (get_link l) k) Q.
Proof. intros Hk g Hg. unfold bind, get_link. rewrite (w_link _ _ _ _ Hg). by apply Hk. Qed.
Lemma step_get_out (k : Port.t -> G B) : runs (world L O I) (k O) Q -> runs (world L O I) (bind (get_port o) k) Q.
Proof. intros Hk g Hg. unfold bind, get_port. rewrite (w_out _ _ _ _ Hg). by apply Hk. Qed.
Lemma step_get_in (k : Port.t -> G B) : runs (world L O I) (k I) Q -> runs (world L O I) (bind (get_port i) k) Q.
Proof. intros Hk g Hg. unfold bind, get_port. rewrite (w_in _ _ _ _ Hg). by apply Hk. Qed.
Lemma step_get_onode (k : Node.t -> G B) :
  (forall N, out_node N -> runs (world L O I) (k N) Q) -> runs (world L O I) (bind (get_node no) k) Q.
Proof. intros Hk g Hg. destruct (w_onode _ _ _ _ Hg) as (N & HN & Hok). unfold bind, get_node. rewrite HN. by apply Hk. Qed.
Lemma step_get_inode (k : Node.t -> G B) :
  (forall N, in_node N -> runs (world L O I) (k N) Q) -> runs (world L O I) (bind (get_node ni) k) Q.
Proof. intros Hk g Hg. destruct (w_inode _ _ _ _ Hg) as (N & HN & Hok). unfold bind, get_node. rewrite HN. by apply Hk. Qed.

Lemma world_put_link L' (g : graph S) : world L O I g -> world L' O I (with_links (<[l := L']> (links g)) g).
Proof. intros []. split; try done. simpl. by rewrite lookup_insert_eq. Qed.
Lemma world_put_out O' (g : graph S) : world L O I g -> world L O' I (with_ports (<[o := O']> (ports g)) g).
Proof. intros []. split; try done; simpl; [by rewrite lookup_insert_eq | by rewrite lookup_insert_ne]. Qed.
Lemma world_put_in I' (g : graph S) : world L O I g -> world L O I' (with_ports (<[i := I']> (ports g)) g).
Proof. intros []. split; try done; simpl; [by rewrite lookup_insert_ne | by rewrite lookup_insert_eq]. Qed.

Lemma step_put_link L' (k : unit -> G B) : runs (world L' O I) (k tt) Q -> runs (world L O I) (bind (put_link l L') k) Q.
Proof. intros Hk g Hg. by apply Hk, world_put_link. Qed.
Lemma step_set_link f (k : unit -> G B) : runs (world (f L) O I) (k tt) Q -> runs (world L O I) (bind (set_link l f) k) Q.
Proof. intros Hk g Hg. unfold bind, set_link, bind, get_link. rewrite (w_link _ _ _ _ Hg). by apply Hk, world_put_link. Qed.
Lemma step_set_out f (k : unit -> G B) : runs (world L (f O) I) (k tt) Q -> runs (world L O I) (bind (set_port o f) k) Q.
Proof. intros Hk g Hg. unfold bind, set_port, bind, get_port. rewrite (w_out _ _ _ _ Hg). by apply Hk, world_put_out. Qed.
Lemma step_set_in f (k : unit -> G B) : runs (world L O (f I)) (k tt) Q -> runs (world L O I) (bind (set_port i f) k) Q.
Proof. intros Hk g Hg. unfold bind, set_port, bind, get_port. rewrite (w_in _ _ _ _ Hg). by apply Hk, world_put_in. Qed.
Lemma step_set_onode f (k : unit -> G B) : (forall N, out_node N -> out_node (f N)) ->
  runs (world L O I) (k tt) Q -> runs (world L O I) (bind (set_node no f) k) Q.
Proof.
  intros Hf Hk g Hg. destruct Hg as [H1 H2 H3 (N & HN & Hok) H5 H6]. unfold bind, set_node, bind, get_node. rewrite HN. apply Hk.
  split; try done; simpl; [rewrite lookup_insert_eq; eauto | by rewrite lookup_insert_ne].
Qed.
Lemma step_set_inode f (k : unit -> G B) : (forall N, in_node N -> in_node (f N)) ->
  runs (world L O I) (k tt) Q -> runs (world L O I) (bind (set_node ni f) k) Q.
Proof.
  intros Hf Hk g Hg. destruct Hg as [H1 H2 H3 H4 (N & HN & Hok) H6]. unfold bind, set_node, bind, get_node. rewrite HN. apply Hk.
  split; try done; simpl; [by rewrite lookup_insert_ne | rewrite lookup_insert_eq; eauto].
Qed.

(** Steps that change nothing the world tells of. *)
Lemma step_same {A} (m : G A) (R : A -> Prop) (k : A -> G B) :
  (forall g, exists a g', m g = Done (a, g') /\ R a /\ links g' = links g /\ ports g' = ports g /\ nodes g' = nodes g /\ next_addr g <= next_addr g') ->
  (forall a, R a -> runs (world L O I) (k a) Q) -> runs (world L O I) (bind m k) Q.
Proof.
  intros Hm Hk g Hg. destruct (Hm g) as (a & g' & Hrun & Ha & El & Ep & En & Ea). unfold bind. rewrite Hrun. apply Hk; [exact Ha |].
  destruct Hg. split; rewrite ?El, ?Ep, ?En; try done. lia.
Qed.
Lemma step_emit e (k : unit -> G B) : runs (world L O I) (k tt) Q -> runs (world L O I) (bind (emit e) k) Q.
Proof. intros Hk. eapply (step_same _ (fun _ => True)); [| by intros []]. intros g. do 2 eexists. split; [reflexivity | done]. Qed.
Lemma step_element {A} (f : S -> A * S) (R : A -> Prop) (k : A -> G B) :
  (forall s, R (f s).1) -> (forall a, R a -> runs (world L O I) (k a) Q) -> runs (world L O I) (bind (element f) k) Q.
Proof.
  intros Hf Hk. eapply step_same; [| exact Hk]. intros g. unfold element. specialize (Hf (elements g)). destruct (f (elements g)) as [a s].
  do 2 eexists. split; [reflexivity |]. by split_and!.
Qed.
Lemma step_system {A} (f : process -> A * process) (R : A -> Prop) (k : A -> G B) :
  (forall p, R (f p).1) -> (forall a, R a -> runs (world L O I) (k a) Q) -> runs (world L O I) (bind (system f) k) Q.
Proof.
  intros Hf Hk. eapply step_same; [| exact Hk]. intros g. unfold system. specialize (Hf (proc g)). destruct (f (proc g)) as [a s].
  do 2 eexists. split; [reflexivity |]. by split_and!.
Qed.
Lemma step_lift {A} (a : A) m (k : A -> G B) : m = Done a -> runs (world L O I) (k a) Q -> runs (world L O I) (bind (lift m) k) Q.
Proof. intros -> Hk. intros g Hg. by apply Hk. Qed.
Lemma step_ret {A} (a : A) (k : A -> G B) : runs (world L O I) (k a) Q -> runs (world L O I) (bind (ret a) k) Q.
Proof. intros Hk g Hg. by apply Hk. Qed.
Lemma step_put_array a bs (k : unit -> G B) : runs (world L O I) (k tt) Q -> runs (world L O I) (bind (put_array a bs) k) Q.
Proof. intros Hk. eapply (step_same _ (fun _ => True)); [| by intros []]. intros g. do 2 eexists. split; [reflexivity | done]. Qed.
Lemma step_calloc (k : Z -> G B) : (forall a, 0 < a -> runs (world L O I) (k a) Q) -> runs (world L O I) (bind calloc k) Q.
Proof. intros Hk g Hg. apply Hk; [apply Hg |]. destruct Hg. split; try done. simpl. lia. Qed.
End Steps.

(** A condition whose value is known. *)
Ltac decided c := first [change c with true | change c with false].

Ltac step_in :=
  cbv beta zeta;
  lazymatch goal with
  | |- runs _ (bind (bind _ _) _) _ => apply runs_undo
  | |- runs _ (bind (get_link l) _) _ => apply step_get_link
  | |- runs _ (bind (get_port o) _) _ => apply step_get_out
  | |- runs _ (bind (get_port i) _) _ => apply step_get_in
  | |- runs _ (bind (get_node no) _) _ => apply step_get_onode; intros ? ?
  | |- runs _ (bind (get_node ni) _) _ => apply step_get_inode; intros ? ?
  | |- runs _ (bind (put_link l _) _) _ => apply step_put_link
  | |- runs _ (bind (set_link l _) _) _ => apply step_set_link
  | |- runs _ (bind (set_port o _) _) _ => apply step_set_out
  | |- runs _ (bind (set_port i _) _) _ => apply step_set_in
  | |- runs _ (bind (set_node no _) _) _ => apply step_set_onode; [done |]
  | |- runs _ (bind (set_node ni _) _) _ => apply step_set_inode; [done |]
  | |- runs _ (bind (emit _) _) _ => apply step_emit
  | |- runs _ (bind (ret _) _) _ => apply step_ret
  | |- runs _ (bind (put_array _ _) _) _ => apply step_put_array
  | |- runs _ (bind calloc _) _ => apply step_calloc; intros ? ?
  | |- runs _ (bind (if ?c then _ else _) _) _ => decided c; cbv iota
  | |- runs _ (if ?c then _ else _) _ => decided c; cbv iota
  end.

(** Every command succeeds. *)
Lemma step_command L O I n c {B} (k : Z -> G B) Q :
  runs (world L O I) (k SPA_RESULT_OK) Q -> runs (world L O I) (bind (element (spa_node_send_command n c)) k) Q.
Proof. intros Hk. apply (step_element _ _ _ _ _ (fun r => r = SPA_RESULT_OK)); [intros s; apply elements_oblige | by intros ? ->]. Qed.

Lemma step_clock_update L O I n {B} (k : unit -> G B) Q : n = no \/ n = ni ->
  runs (world L O I) (k tt) Q -> runs (world L O I) (bind (send_clock_update n) k) Q.
Proof.
  intros [-> | ->] Hk; unfold send_clock_update; repeat step_in; case_match; repeat step_in.
  all: try (apply (step_element _ _ _ _ _ (fun _ => True)); [done | intros [[rate ticks] time] _]).
  all: repeat step_in; apply step_command; by repeat step_in.
Qed.

(** ** The work of the link *)

Definition queued (obj : Z) (f : work_func) (res data : Z) (L : Link.t) : Link.t :=
  Link.with_work (Spec.add obj res (Some f) data (Link.work L)).2 L.
Definition checked : Link.t -> Link.t := queued l check_states SPA_RESULT_WAIT_SYNC l.
Definition in_state (st : Z) (L : Link.t) : Link.t :=
  if st =? Link.state L then L else Link.with_error None (Link.with_state st L).

(** The link has its two ports, and is not in error. *)
Definition joined (L : Link.t) : Prop :=
  Link.output L = Some o /\ Link.input L = Some i /\ Link.state L <> PINOS_LINK_STATE_ERROR.

Lemma step_link_state L O I st {B} (k : unit -> G B) Q :
  runs (world (in_state st L) O I) (k tt) Q -> runs (world L O I) (bind (pinos_link_update_state l st None) k) Q.
Proof.
  intros Hk. unfold pinos_link_update_state. step_in. step_in. cbv zeta. unfold in_state in Hk.
  destruct (st =? Link.state L); cbn [negb]; repeat step_in; exact Hk.
Qed.

Lemma step_link_work L O I obj res f data {B} (k : unit -> G B) Q :
  runs (world (queued obj f res data L) O I) (k tt) Q -> runs (world L O I) (bind (link_work l obj res f data) k) Q.
Proof. intros Hk. unfold link_work. by apply step_set_link. Qed.

(** A side's node starts: it wakes the link up. *)
Lemma step_start_in L O I {B} (k : Z -> G B) Q : configured = false -> Port.links I = [l] ->
  runs (world (checked L) O I) (k SPA_RESULT_OK) Q ->
  runs (world L O I) (bind (pinos_node_set_state ni PINOS_NODE_STATE_RUNNING) k) Q.
Proof.
  intros Hnew Hl Hk. unfold pinos_node_set_state, node_activate. repeat step_in.
  match goal with H : in_node _ |- _ => destruct H as [_ H]; rewrite Hnew in H; destruct H as [-> ->] end. cbn [each]. unfold activate_links. repeat step_in.
  rewrite Hl. cbn [each]. unfold pinos_link_activate. repeat first [apply step_link_work | step_in].
  apply step_clock_update; [by right |]. unfold start_node. apply step_command. repeat step_in.
  unfold node_work. apply step_set_inode; [done |]. by repeat step_in.
Qed.
Lemma step_start_out L O I {B} (k : Z -> G B) Q : configured = false -> Port.links O = [l] ->
  runs (world (checked L) O I) (k SPA_RESULT_OK) Q ->
  runs (world L O I) (bind (pinos_node_set_state no PINOS_NODE_STATE_RUNNING) k) Q.
Proof.
  intros Hnew Hl Hk. unfold pinos_node_set_state, node_activate. repeat step_in.
  match goal with H : out_node _ |- _ => destruct H as [_ H]; rewrite Hnew in H; destruct H as [-> ->] end. cbn [each]. unfold activate_links. repeat step_in.
  rewrite Hl. cbn [each]. unfold pinos_link_activate. repeat first [apply step_link_work | step_in].
  apply step_clock_update; [by left |]. unfold start_node. apply step_command. repeat step_in.
  unfold node_work. apply step_set_onode; [done |]. by repeat step_in.
Qed.

(** The first format of the input, filtered by the output. *)
Lemma step_enum_formats L O I fuel output input onode inode op ip filter {B} (k : option bytes * option message -> G B) Q : (0 < fuel)%nat ->
  (forall f, runs (world L O I) (k (Some f, None)) Q) ->
  runs (world L O I) (bind (enum_formats fuel output input onode inode op ip filter None 0 0) k) Q.
Proof.
  intros Hf Hk. destruct fuel as [|fuel]; [lia |]. cbn [enum_formats]. repeat step_in.
  apply (step_element _ _ _ _ _ (fun r => exists f, r = (SPA_RESULT_OK, Some (Some f)))).
  { intros s. destruct (obliging_enum _ _ elements_oblige inode PINOS_DIRECTION_INPUT ip None 0 s) as (f & f' & s' & -> & _). eauto. }
  intros ? [f ->]. repeat step_in.
  apply (step_element _ _ _ _ _ (fun r => exists f f', r = (SPA_RESULT_OK, Some (Some f)) /\ spa_format_fixate f = Done f')).
  { intros s. destruct (obliging_enum _ _ elements_oblige onode PINOS_DIRECTION_OUTPUT op (Some f) 0 s) as (f1 & f' & s' & -> & ?). eauto. }
  intros ? (f1 & f' & -> & Hfix). repeat step_in. apply (step_lift _ _ _ _ f'); [exact Hfix |]. by repeat step_in.
Qed.

Lemma step_set_format_cmd L O I n d p flags f {B} (k : Z -> G B) Q :
  runs (world L O I) (k SPA_RESULT_OK) Q -> runs (world L O I) (bind (element (spa_node_port_set_format n d p flags f)) k) Q.
Proof. intros Hk. apply (step_element _ _ _ _ _ (fun r => r = SPA_RESULT_OK)); [intros s; apply elements_oblige | by intros ? ->]. Qed.
Lemma step_use_buffers L O I n d p b c {B} (k : Z -> G B) Q :
  runs (world L O I) (k SPA_RESULT_OK) Q -> runs (world L O I) (bind (element (spa_node_port_use_buffers n d p b c)) k) Q.
Proof. intros Hk. apply (step_element _ _ _ _ _ (fun r => r = SPA_RESULT_OK)); [intros s; apply elements_oblige | by intros ? ->]. Qed.

Lemma step_live L O I b {B} (k : unit -> G B) Q : runs (world L O I) (k tt) Q ->
  runs (world L O I) (bind (when b (set_node no (Node.with_live true) ;;; set_node ni (Node.with_live true))) k) Q.
Proof. intros Hk. destruct b; cbn [when]; repeat step_in; exact Hk. Qed.

(** The memory for the buffers: a block, and the buffers laid out in it. *)
Lemma step_link_alloc L O I n stride size {B} (k : Z -> G B) Q :
  block_size ty n (params oinfo) [(0, stride)] = Done size -> size <> 0 ->
  (forall fd, exists bs m, alloc_buffers ty n (params oinfo) [(0, stride)] fd fresh = Done (bs, m)) ->
  (forall a mem, 0 < a -> runs (world (Link.with_buffer_mem mem L) O I) (k a) Q) ->
  runs (world L O I) (bind (link_alloc_buffers ty l n 0 stride (params oinfo)) k) Q.
Proof.
  intros Hsize Hne Hbs Hk. unfold link_alloc_buffers. repeat step_in. apply (step_lift _ _ _ _ size); [exact Hsize |]. repeat step_in.
  apply (step_system _ _ _ _ _ (fun r => r.1 = SPA_RESULT_OK)).
  { intros p. match goal with |- context [pinos_memblock_alloc ?f ?k ?m p] =>
      pose proof (memory k m p Hne) as Hm; change link_flags with f in Hm; destruct (pinos_memblock_alloc f k m p) as [[r mem] p'] end. exact Hm. }
  intros [r mem] Hr. simpl in Hr. subst r. repeat step_in. destruct (Hbs (Mem.fd mem)) as (bs & m & Halloc).
  apply (step_lift _ _ _ _ (bs, m)); [exact Halloc |]. repeat step_in. by apply Hk.
Qed.

(** ** One check after the other *)

(** What is left of a link after a phase: its state and its work, and whether it has no buffers yet. *)
Definition after (unused : bool) (st : Z) (w : Spec.queue unit work_func) (O I : Port.t) (g : graph S) : Prop :=
  exists L, world L O I g /\ joined L /\ (unused = true -> Link.buffers L = 0) /\ Link.state L = st /\ Link.work L = w.
Definition add_work (obj : Z) (f : work_func) (data : Z) (w : Spec.queue unit work_func) : Spec.queue unit work_func :=
  (Spec.add obj SPA_RESULT_OK (Some f) data w).2.

Lemma after_phase u st w L' O I g : world L' O I g -> Link.output L' = Some o -> Link.input L' = Some i -> st <> PINOS_LINK_STATE_ERROR ->
  (u = true -> Link.buffers L' = 0) -> Link.state L' = st -> Link.work L' = w -> after u st w O I g.
Proof. intros Hw Ho Hi Hne Hu Hs Hwork. exists L'. split; [exact Hw |]. split; [| done]. unfold joined. rewrite Hs. done. Qed.

Lemma start_side_in L O I : Port.node I = ni -> configured = false -> Port.links I = [l] -> forall B (k : Z -> G B) Q,
  runs (world (queued ni complete_streaming SPA_RESULT_OK i (checked L)) O I) (k SPA_RESULT_OK) Q ->
  runs (world L O I) (bind (start_side l i) k) Q.
Proof.
  intros Hn Hnew Hl B k Q Hk. unfold start_side. repeat step_in. rewrite Hn. apply step_start_in; [exact Hnew | exact Hl |]. by repeat first [apply step_link_work | step_in].
Qed.
Lemma start_side_out L O I : Port.node O = no -> configured = false -> Port.links O = [l] -> forall B (k : Z -> G B) Q,
  runs (world (queued no complete_streaming SPA_RESULT_OK o (checked L)) O I) (k SPA_RESULT_OK) Q ->
  runs (world L O I) (bind (start_side l o) k) Q.
Proof.
  intros Hn Hnew Hl B k Q Hk. unfold start_side. repeat step_in. rewrite Hn. apply step_start_out; [exact Hnew | exact Hl |]. by repeat first [apply step_link_work | step_in].
Qed.

Definition valid_state (s : Z) : Prop := PINOS_PORT_STATE_CONFIGURE <= s <= PINOS_PORT_STATE_STREAMING.
Lemma valid_u32 s : valid_state s -> u32 s = s.
Proof. intros [H1 H2]. apply u32_small. unfold is_u32, PINOS_PORT_STATE_CONFIGURE, PINOS_PORT_STATE_STREAMING in *. lia. Qed.

Section Check.
Context (L : Link.t) (O I : Port.t) (L_joined : joined L) (O_node : Port.node O = no) (I_node : Port.node I = ni).

Lemma in_state_ports st : Link.output (in_state st L) = Some o /\ Link.input (in_state st L) = Some i.
Proof. destruct L_joined as (H1 & H2 & _). unfold in_state. by destruct (st =? Link.state L). Qed.

Lemma in_state_state st : Link.state (in_state st L) = st.
Proof. unfold in_state. by destruct (Z.eqb_spec st (Link.state L)). Qed.
Lemma in_state_work st : Link.work (in_state st L) = Link.work L.
Proof. unfold in_state. by destruct (st =? Link.state L). Qed.

Lemma negotiates fuel : (0 < fuel)%nat -> Port.state O = PINOS_PORT_STATE_CONFIGURE -> Port.state I = PINOS_PORT_STATE_CONFIGURE ->
  runs (world L O I) (do_negotiate fuel l PINOS_PORT_STATE_CONFIGURE PINOS_PORT_STATE_CONFIGURE)
    (fun r g => r = SPA_RESULT_OK /\ world (queued ni complete_ready SPA_RESULT_OK i
      (queued no complete_ready SPA_RESULT_OK o (in_state PINOS_LINK_STATE_NEGOTIATING L))) O I g).
Proof.
  intros Hfuel HO HI. destruct (in_state_ports PINOS_LINK_STATE_NEGOTIATING) as [Ho Hi].
  unfold do_negotiate. cbn. apply step_link_state. repeat step_in. unfold output_of, input_of. rewrite Ho, Hi. repeat step_in.
  unfold pinos_core_find_format. repeat step_in. rewrite O_node, I_node, HO, HI. repeat step_in.
  apply step_enum_formats; [exact Hfuel | intros f]. unfold reconfigure. repeat step_in. rewrite O_node. repeat step_in.
  rewrite I_node. repeat step_in. unfold set_format. repeat step_in. apply step_set_format_cmd. repeat step_in. rewrite O_node.
  apply step_link_work. repeat step_in. apply step_set_format_cmd. repeat step_in. rewrite I_node. apply step_link_work. repeat step_in.
  by apply runs_ret.
Qed.

(** The output has a format already: the input is set to it, and this is not told. *)
Lemma negotiates_not fuel out_state : configured = true -> PINOS_PORT_STATE_READY <= out_state <= PINOS_PORT_STATE_STREAMING ->
  Port.state O = out_state -> Port.state I = PINOS_PORT_STATE_CONFIGURE ->
  runs (world L O I) (do_negotiate fuel l PINOS_PORT_STATE_CONFIGURE out_state)
    (fun r g => r = SPA_RESULT_ERROR /\ world (queued ni complete_ready SPA_RESULT_OK i (in_state PINOS_LINK_STATE_NEGOTIATING L)) O I g).
Proof.
  intros Hcon Hout HO HI. destruct (in_state_ports PINOS_LINK_STATE_NEGOTIATING) as [Ho Hi].
  assert (u32 out_state = out_state) as Hu by (apply valid_u32; unfold valid_state, PINOS_PORT_STATE_READY, PINOS_PORT_STATE_CONFIGURE in *; lia).
  assert (out_state =? PINOS_PORT_STATE_CONFIGURE = false) as Hne by (apply Z.eqb_neq; unfold PINOS_PORT_STATE_READY, PINOS_PORT_STATE_CONFIGURE in *; lia).
  assert (out_state >? PINOS_PORT_STATE_CONFIGURE = true) as Hgt
    by (rewrite Z.gtb_ltb; apply Z.ltb_lt; unfold PINOS_PORT_STATE_READY, PINOS_PORT_STATE_CONFIGURE in *; lia).
  assert (forall N, out_node N -> reconfigurable out_state (Node.state N) = false) as Hbusy.
  { intros N [_ HN]. rewrite Hcon in HN. unfold reconfigurable. by rewrite (proj2 (Z.eqb_neq _ _) HN), andb_false_r. }
  unfold do_negotiate. cbn [negb andb Z.eqb]. apply step_link_state. repeat step_in. unfold output_of, input_of. rewrite Ho, Hi. repeat step_in.
  unfold pinos_core_find_format. repeat step_in. rewrite O_node, I_node, HO, HI. repeat step_in. rewrite Hu, Hbusy by done.
  rewrite Hgt. repeat step_in. unfold given_format. repeat step_in.
  apply (step_element _ _ _ _ _ (fun r => exists f, r = (SPA_RESULT_OK, Some (Some f)))).
  { intros s. destruct (obliging_get_format _ _ elements_oblige no PINOS_DIRECTION_OUTPUT (Port.port_id O) s) as (f & s' & ->). eauto. }
  intros ? [f ->]. repeat step_in. unfold reconfigure. repeat step_in. rewrite O_node. repeat step_in. rewrite Hbusy by done. repeat step_in.
  rewrite I_node. repeat step_in. unfold set_format. repeat step_in. rewrite Hne. repeat step_in. apply step_set_format_cmd. repeat step_in.
  rewrite I_node. apply step_link_work. repeat step_in. by apply runs_ret.
Qed.

(** The buffers the ports share. *)
Definition with_shared (allocated : bool) (a n : Z) (P : Port.t) : Port.t :=
  Port.with_allocated allocated (Port.with_n_buffers n (Port.with_buffers a P)).

Lemma allocates : Link.buffers L = 0 -> Port.n_buffers O = 0 -> Port.n_buffers I = 0 ->
  runs (world L O I) (do_allocation ty l PINOS_PORT_STATE_READY PINOS_PORT_STATE_READY)
    (fun r g => r = SPA_RESULT_OK /\ exists a n mem, 0 < a /\ n <> 0 /\
      after false PINOS_LINK_STATE_ALLOCATING (add_work ni complete_paused i (add_work no complete_paused o (Link.work L)))
        (Port.with_buffer_mem mem (with_shared true a n O)) (with_shared false a n I) g).
Proof.
  intros HL HO HI. destruct (in_state_ports PINOS_LINK_STATE_ALLOCATING) as [Ho Hi].
  unfold do_allocation. cbn. apply step_link_state. repeat step_in. unfold output_of, input_of. rewrite Ho, Hi. repeat step_in.
  rewrite O_node, I_node.
  apply (step_element _ _ _ _ _ (fun r => r = (SPA_RESULT_OK, oinfo))).
  { intros s. by destruct (obliging_info _ _ elements_oblige no PINOS_DIRECTION_OUTPUT (Port.port_id O) s) as (s' & ->). }
  intros ? ->. repeat step_in.
  apply (step_element _ _ _ _ _ (fun r => r = (SPA_RESULT_OK, iinfo))).
  { intros s. by destruct (obliging_info _ _ elements_oblige ni PINOS_DIRECTION_INPUT (Port.port_id I) s) as (s' & ->). }
  intros ? ->. cbv beta zeta. rewrite (obliging_out _ _ elements_oblige), (obliging_in _ _ elements_oblige).
  cbn [andb]. cbv iota. apply step_live. repeat step_in.
  assert (Link.buffers (in_state PINOS_LINK_STATE_ALLOCATING L) = 0) as -> by (unfold in_state; by destruct (_ =? Link.state L)).
  repeat step_in.
  destruct parameters as (n & minsize & stride & size & Hreq & Hsize & Hne & Hbs).
  unfold choose_buffers. repeat step_in. apply (step_lift _ _ _ _ (n, minsize, stride)); [exact Hreq |]. repeat step_in.
  rewrite HO, HI. repeat step_in.
  match goal with |- context [if ?c then 0 else minsize] => change c with true end. cbv iota.
  apply (step_link_alloc _ _ _ n stride size); [exact Hsize | exact Hne | exact Hbs | intros a mem Ha]. repeat step_in.
  unfold share_buffers, side_allocates, side_uses, port_buffers. repeat step_in. rewrite O_node.
  apply (step_element _ _ _ _ _ (fun r => exists k, r = (SPA_RESULT_OK, k) /\ k <> 0)).
  { intros s. match goal with |- context [spa_node_port_alloc_buffers ?n ?d ?p ?ps ?b ?k s] =>
      destruct (obliging_alloc _ _ elements_oblige n d p ps b k s) as (k' & s' & -> & Hk) end. eauto. }
  intros ? (k & -> & Hk). repeat first [apply step_link_work | step_in].
  rewrite I_node. apply step_use_buffers. repeat first [apply step_link_work | step_in].
  apply runs_ret. intros g Hg. split; [done |]. exists a, k, mem. split_and!; [done | done |].
  eapply after_phase; [exact Hg | exact Ho | exact Hi | done | done | ..]; unfold queued, add_work; simpl; by rewrite ?in_state_state, ?in_state_work.
Qed.

(** The work that waits when a side has been started. *)
Definition add_check (w : Spec.queue unit work_func) : Spec.queue unit work_func :=
  (Spec.add l SPA_RESULT_WAIT_SYNC (Some check_states) l w).2.

Lemma starts_both : configured = false -> Port.links O = [l] -> Port.links I = [l] ->
  runs (world L O I) (do_start l PINOS_PORT_STATE_PAUSED PINOS_PORT_STATE_PAUSED)
    (fun r g => r = SPA_RESULT_OK /\ after false PINOS_LINK_STATE_PAUSED
      (add_work no complete_streaming o (add_check (add_work ni complete_streaming i (add_check (Link.work L))))) O I g).
Proof.
  intros Hnew HO HI. destruct (in_state_ports PINOS_LINK_STATE_PAUSED) as [Ho Hi]. unfold do_start. cbn. apply step_link_state. repeat step_in.
  unfold output_of, input_of. rewrite Ho, Hi. repeat step_in. apply start_side_in; [exact I_node | exact Hnew | exact HI |]. repeat step_in.
  apply runs_tail. apply start_side_out; [exact O_node | exact Hnew | exact HO |]. apply runs_ret. intros g Hg. split; [done |].
  eapply after_phase; [exact Hg | exact Ho | exact Hi | done | done | ..]; unfold checked, queued, add_work, add_check; simpl; by rewrite ?in_state_state, ?in_state_work.
Qed.
Lemma starts_out : configured = false -> Port.links O = [l] ->
  runs (world L O I) (do_start l PINOS_PORT_STATE_STREAMING PINOS_PORT_STATE_PAUSED)
    (fun r g => r = SPA_RESULT_OK /\ after false PINOS_LINK_STATE_PAUSED (add_work no complete_streaming o (add_check (Link.work L))) O I g).
Proof.
  intros Hnew HO. destruct (in_state_ports PINOS_LINK_STATE_PAUSED) as [Ho Hi]. unfold do_start. cbn. apply step_link_state. repeat step_in.
  unfold output_of, input_of. rewrite Ho, Hi. repeat step_in.
  apply runs_tail. apply start_side_out; [exact O_node | exact Hnew | exact HO |]. apply runs_ret. intros g Hg. split; [done |].
  eapply after_phase; [exact Hg | exact Ho | exact Hi | done | done | ..]; unfold checked, queued, add_work, add_check; simpl; by rewrite ?in_state_state, ?in_state_work.
Qed.

(** A check with something left to do comes back. *)
Lemma checks fuel {X} (R : X -> Prop) u st w (O' I' : X -> Port.t) :
  valid_state (Port.state O) -> valid_state (Port.state I) ->
  (Port.state I =? PINOS_PORT_STATE_STREAMING) && (Port.state O =? PINOS_PORT_STATE_STREAMING) = false ->
  runs (world L O I) (check_phases ty fuel l (Port.state I) (Port.state O))
    (fun r g => r = SPA_RESULT_OK /\ exists x, R x /\ after u st w (O' x) (I' x) g) ->
  runs (world L O I) (check_states_func ty fuel l) (fun _ g => exists x, R x /\ after u st (add_check w) (O' x) (I' x) g).
Proof.
  intros HO HI Hne Hrun. destruct L_joined as (Ho & Hi & Hs). unfold check_states_func. repeat step_in.
  rewrite (proj2 (Z.eqb_neq _ _) Hs), Ho, Hi. repeat step_in. rewrite O_node, I_node. repeat step_in.
  match goal with H1 : in_node _, H2 : out_node _ |- _ => destruct H1 as (H1 & _), H2 as (H2 & _);
    rewrite (proj2 (Z.eqb_neq _ _) H1), (proj2 (Z.eqb_neq _ _) H2) end. cbn [orb]. cbv iota.
  rewrite !valid_u32, Hne by done. cbv iota. eapply runs_bind; [exact Hrun |].
  intros r g (-> & x & Hx & L' & Hw & (Ho' & Hi' & Hs') & Hu & Hst & Hwork).
  refine (step_link_work L' (O' x) (I' x) _ _ _ _ _ _ _ g Hw). apply runs_ret. intros g' Hg'. exists x. split; [exact Hx |].
  eapply after_phase; [exact Hg' | done | done | by rewrite <- Hst | done | done |]. unfold queued, add_check. simpl. by rewrite Hwork.
Qed.

(** A check that fails does not. *)
Lemma check_stalls fuel : configured = true -> PINOS_PORT_STATE_READY <= Port.state O <= PINOS_PORT_STATE_STREAMING ->
  Port.state I = PINOS_PORT_STATE_CONFIGURE ->
  runs (world L O I) (check_states_func ty fuel l) (fun _ => after false PINOS_LINK_STATE_NEGOTIATING (add_work ni complete_ready i (Link.work L)) O I).
Proof.
  intros Hcon HO HI. destruct L_joined as (Ho & Hi & Hs). destruct (in_state_ports PINOS_LINK_STATE_NEGOTIATING) as [Ho' Hi'].
  unfold check_states_func. repeat step_in.
  rewrite (proj2 (Z.eqb_neq _ _) Hs), Ho, Hi. repeat step_in. rewrite O_node, I_node. repeat step_in.
  match goal with H1 : in_node _, H2 : out_node _ |- _ => destruct H1 as (H1 & _), H2 as (H2 & _);
    rewrite (proj2 (Z.eqb_neq _ _) H1), (proj2 (Z.eqb_neq _ _) H2) end. cbn [orb]. cbv iota. rewrite HI.
  rewrite (valid_u32 (Port.state O)) by (unfold valid_state, PINOS_PORT_STATE_READY, PINOS_PORT_STATE_CONFIGURE in *; lia). repeat step_in.
  unfold check_phases. repeat step_in. apply (runs_bind_to _ _ SPA_RESULT_ERROR _ (world (queued ni complete_ready SPA_RESULT_OK i (in_state PINOS_LINK_STATE_NEGOTIATING L)) O I)).
  { by apply negotiates_not. }
  repeat step_in. apply runs_ret. intros g Hg.
  eapply after_phase; [exact Hg | exact Ho' | exact Hi' | done | done | ..]; unfold queued, add_work; simpl; by rewrite ?in_state_state, ?in_state_work.
Qed.

(** The four checks on the way. *)
Lemma check_configure fuel : Link.buffers L = 0 -> (0 < fuel)%nat -> Port.state O = PINOS_PORT_STATE_CONFIGURE -> Port.state I = PINOS_PORT_STATE_CONFIGURE ->
  runs (world L O I) (check_states_func ty fuel l) (fun _ => after true PINOS_LINK_STATE_NEGOTIATING
    (add_check (add_work ni complete_ready i (add_work no complete_ready o (Link.work L)))) O I).
Proof.
  intros HL Hf HO HI. eapply runs_weaken.
  - apply (checks fuel (fun _ : unit => True) true PINOS_LINK_STATE_NEGOTIATING (add_work ni complete_ready i (add_work no complete_ready o (Link.work L)))
      (fun _ => O) (fun _ => I)); rewrite ?HO, ?HI; [done.. |].
    unfold check_phases. eapply runs_bind_to; [by apply negotiates |]. cbn. unfold do_allocation. repeat step_in. apply runs_ret.
    intros g Hg. split; [done |]. exists tt. split; [done |]. destruct (in_state_ports PINOS_LINK_STATE_NEGOTIATING).
    eapply after_phase; [exact Hg | done | done | done | unfold in_state; by destruct (_ =? Link.state L) | ..]; unfold queued, add_work; simpl; by rewrite ?in_state_state, ?in_state_work.
  - intros ? g (x & _ & Hg). exact Hg.
Qed.
Lemma check_ready fuel : Link.buffers L = 0 -> Port.n_buffers O = 0 -> Port.n_buffers I = 0 ->
  Port.state O = PINOS_PORT_STATE_READY -> Port.state I = PINOS_PORT_STATE_READY ->
  runs (world L O I) (check_states_func ty fuel l) (fun _ g => exists a n mem, 0 < a /\ n <> 0 /\
    after false PINOS_LINK_STATE_ALLOCATING (add_check (add_work ni complete_paused i (add_work no complete_paused o (Link.work L))))
      (Port.with_buffer_mem mem (with_shared true a n O)) (with_shared false a n I) g).
Proof.
  intros HL HnO HnI HO HI. eapply runs_weaken.
  - apply (checks fuel (fun x : Z * Z * PinosMemblock => 0 < x.1.1 /\ x.1.2 <> 0) false PINOS_LINK_STATE_ALLOCATING
      (add_work ni complete_paused i (add_work no complete_paused o (Link.work L)))
      (fun x => Port.with_buffer_mem x.2 (with_shared true x.1.1 x.1.2 O)) (fun x => with_shared false x.1.1 x.1.2 I)); rewrite ?HO, ?HI; [done.. |].
    unfold check_phases. apply (runs_bind_to _ _ SPA_RESULT_OK _ (world L O I)); [by apply (runs_ret _ SPA_RESULT_OK) |]. cbn.
    eapply runs_bind_to; [by apply allocates |]. cbn. apply runs_ret. intros g (a & n & mem & Ha & Hn & Hg).
    split; [done |]. by exists (a, n, mem).
  - intros ? g ([[a n] mem] & [Ha Hn] & Hg). by exists a, n, mem.
Qed.

(** The phases that have nothing to do any more. *)
Lemma check_start fuel w : Port.state O = PINOS_PORT_STATE_PAUSED -> PINOS_PORT_STATE_PAUSED <= Port.state I <= PINOS_PORT_STATE_STREAMING ->
  runs (world L O I) (do_start l (Port.state I) (Port.state O)) (fun r g => r = SPA_RESULT_OK /\ after false PINOS_LINK_STATE_PAUSED w O I g) ->
  runs (world L O I) (check_states_func ty fuel l) (fun _ => after false PINOS_LINK_STATE_PAUSED (add_check w) O I).
Proof.
  intros HO HI Hstart. assert (Port.state I = 3 \/ Port.state I = 4) as HI2 by (unfold PINOS_PORT_STATE_PAUSED, PINOS_PORT_STATE_STREAMING in HI; lia).
  eapply runs_weaken.
  - apply (checks fuel (fun _ : unit => True) false PINOS_LINK_STATE_PAUSED w (fun _ => O) (fun _ => I));
      [rewrite HO; done | destruct HI2 as [-> | ->]; done | rewrite HO; by rewrite andb_false_r |].
    unfold check_phases. apply (runs_bind_to _ _ SPA_RESULT_OK _ (world L O I)).
    { rewrite HO. destruct HI2 as [-> | ->]; by apply (runs_ret _ SPA_RESULT_OK). }
    cbn. apply (runs_bind_to _ _ SPA_RESULT_OK _ (world L O I)).
    { rewrite HO. destruct HI2 as [-> | ->]; by apply (runs_ret _ SPA_RESULT_OK). }
    cbn. eapply runs_weaken; [exact Hstart |]. intros r g [-> Hg]. split; [done |]. by exists tt.
  - intros ? g (x & _ & Hg). exact Hg.
Qed.

Lemma check_streaming fuel : Port.state O = PINOS_PORT_STATE_STREAMING -> Port.state I = PINOS_PORT_STATE_STREAMING ->
  runs (world L O I) (check_states_func ty fuel l) (fun _ => world L O I).
Proof.
  intros HO HI. destruct L_joined as (Ho & Hi & Hs). unfold check_states_func. repeat step_in.
  rewrite (proj2 (Z.eqb_neq _ _) Hs), Ho, Hi. repeat step_in. rewrite O_node, I_node. repeat step_in.
  match goal with H1 : in_node _, H2 : out_node _ |- _ => destruct H1 as (H1 & _), H2 as (H2 & _);
    rewrite (proj2 (Z.eqb_neq _ _) H1), (proj2 (Z.eqb_neq _ _) H2) end. cbn [orb]. cbv iota.
  rewrite HO, HI. cbn. by apply runs_ret.
Qed.
End Check.

(** ** Wakeups of the queue *)

Lemma runs_after {A} u st w O I (m : G A) Q :
  (forall L, joined L -> (u = true -> Link.buffers L = 0) -> Link.state L = st -> Link.work L = w -> runs (world L O I) m Q) ->
  runs (after u st w O I) m Q.
Proof. intros Hm g (L & Hw & Hj & Hu & Hs & Hwork). by apply (Hm L). Qed.

Definition popped (k : nat) (w : Spec.queue unit work_func) : Spec.queue unit work_func :=
  Spec.mk (delete k (Spec.pending w)) (Spec.signalled w) (Spec.count w) tt.
Definition quieted (w : Spec.queue unit work_func) : Spec.queue unit work_func := Spec.mk (Spec.pending w) false (Spec.count w) tt.

Lemma set_queue f u st w O I {B} (k : unit -> G B) Q :
  runs (after u st (f w) O I) (k tt) Q -> runs (after u st w O I) (bind (set_link_queue l f) k) Q.
Proof.
  intros Hk. apply runs_after. intros L (Ho & Hi & Hne) Hu Hs Hwork. unfold set_link_queue. apply step_set_link. intros g Hg. apply Hk.
  eapply after_phase; [exact Hg | done | done | by rewrite <- Hs | done | done |]. simpl. by rewrite Hwork.
Qed.
Lemma get_queue u st w O I {B} (k : Spec.queue unit work_func -> G B) Q :
  runs (after u st w O I) (k w) Q -> runs (after u st w O I) (bind (this <- get_link l ;; ret (Link.work this)) k) Q.
Proof.
  intros Hk. apply runs_after. intros L Hj Hu Hs Hwork. repeat step_in. rewrite Hwork. intros g Hg. apply Hk. by exists L.
Qed.

Local Abbreviation pass := (queue_pass ty (this <- get_link l ;; ret (Link.work this)) (set_link_queue l)).

Lemma pass_item u st w O I turns fuel item R Q :
  Spec.pending w !! 0%nat = Some item -> Spec.blocked 0 item = false ->
  runs (after u st (popped 0 w) O I) (run_work ty fuel item) (fun _ => R) ->
  (if Nat.eqb 1 (length (Spec.pending w)) then runs R (ret tt) Q else runs R (pass turns fuel 0) Q) ->
  runs (after u st w O I) (pass (Datatypes.S turns) fuel 0) Q.
Proof.
  intros Hitem Hb Hrun Hrest. cbn [queue_pass]. apply get_queue. rewrite Hitem, Hb. apply set_queue. eapply runs_bind; [exact Hrun |].
  intros [] . cbv beta. destruct (Nat.eqb 1 (length (Spec.pending w))); exact Hrest.
Qed.
Lemma pass_end u st w O I turns fuel (Q : unit -> graph S -> Prop) :
  Spec.pending w = [] -> (forall g, after u st w O I g -> Q tt g) -> runs (after u st w O I) (pass turns fuel 0) Q.
Proof. intros Hw HQ. destruct turns; cbn [queue_pass]; apply get_queue; rewrite Hw; by apply runs_ret. Qed.

Lemma wakeup u st w O I turns fuel Q : Spec.signalled w = true ->
  runs (after u st (quieted w) O I) (pass turns fuel 0) Q -> runs (after u st w O I) (link_wakeup ty l turns fuel) Q.
Proof. intros Hs Hrun. unfold link_wakeup, queue_wakeup. apply get_queue. rewrite Hs. by apply set_queue. Qed.

(** The results of the requests arrive. *)
Lemma completes_out u st w O I s : runs (after u st w O I) (complete s o SPA_RESULT_OK) (fun _ => after u st w (Port.with_state s O) I).
Proof. apply runs_after. intros L Hj Hu Hs Hw. unfold complete. repeat step_in. apply runs_tail, step_set_out, runs_ret. intros g Hg. by exists L. Qed.
Lemma completes_in u st w O I s : runs (after u st w O I) (complete s i SPA_RESULT_OK) (fun _ => after u st w O (Port.with_state s I)).
Proof. apply runs_after. intros L Hj Hu Hs Hw. unfold complete. repeat step_in. apply runs_tail, step_set_in, runs_ret. intros g Hg. by exists L. Qed.

(** A check, as an item of the queue. *)
Lemma item_check P fuel (R : graph S -> Prop) : runs P (check_states_func ty fuel l) (fun _ => R) ->
  runs P (bind (check_states_func ty fuel l) (fun _ => ret tt)) (fun _ => R).
Proof. intros Hc. eapply runs_bind; [exact Hc |]. intros r. by apply runs_ret. Qed.

(** ** From the activation to the stream *)

Section Way.
Context (O I : Port.t) (O_node : Port.node O = no) (I_node : Port.node I = ni) (O_links : Port.links O = [l]) (I_links : Port.links I = [l]).
Context (turns fuel : nat) (fuel_ok : (0 < fuel)%nat).

Ltac settle := match goal with |- runs (after ?u ?st ?w ?O ?I) _ _ =>
  let w' := eval vm_compute in w in replace w with w' by (vm_compute; reflexivity) end.
Ltac item := settle; eapply pass_item; [reflexivity | reflexivity | |
  match goal with |- if ?c then _ else _ => first [change c with true | change c with false] end; cbv iota].
Ltac check := cbn [run_work func WorkQueue.data]; apply item_check; apply runs_after; intros L Hj Hu Hs Hw.

Definition w1 : Spec.queue unit work_func := add_check no_queue.
Definition w2 : Spec.queue unit work_func := add_check (add_work ni complete_ready i (add_work no complete_ready o (popped 0 (quieted w1)))).

Lemma wakeup_1 st : Port.state O = PINOS_PORT_STATE_CONFIGURE -> Port.state I = PINOS_PORT_STATE_CONFIGURE ->
  runs (after true st w1 O I) (link_wakeup ty l (1 + turns) fuel) (fun _ => after true PINOS_LINK_STATE_NEGOTIATING w2 O I).
Proof.
  intros HO HI. apply wakeup; [reflexivity |]. item; [| apply runs_ret; intros g Hg; exact Hg].
  check. eapply runs_weaken; [apply check_configure; auto |]. intros r g. rewrite Hw. done.
Qed.

Definition w3 : Spec.queue unit work_func :=
  add_check (add_work ni complete_paused i (add_work no complete_paused o (popped 0 (popped 0 (popped 0 (quieted w2)))))).
Lemma wakeup_2 :
  Port.n_buffers O = 0 -> Port.n_buffers I = 0 ->
  runs (after true PINOS_LINK_STATE_NEGOTIATING w2 O I) (link_wakeup ty l (3 + turns) fuel) (fun _ g => exists a n mem, 0 < a /\ n <> 0 /\
    after false PINOS_LINK_STATE_ALLOCATING w3 (Port.with_buffer_mem mem (with_shared true a n (Port.with_state PINOS_PORT_STATE_READY O)))
      (with_shared false a n (Port.with_state PINOS_PORT_STATE_READY I)) g).
Proof.
  intros HO HI. apply wakeup; [reflexivity |].
  item; [apply completes_out |]. item; [apply completes_in |]. item; [| apply runs_ret; intros g Hg; exact Hg].
  check. eapply runs_weaken; [apply check_ready; auto |]. intros r g (a & n & mem & Ha & Hn & Hg). exists a, n, mem. rewrite Hw in Hg. done.
Qed.

Definition w4 : Spec.queue unit work_func :=
  add_check (add_work no complete_streaming o (add_check (add_work ni complete_streaming i (add_check (popped 0 (popped 0 (popped 0 (quieted w3)))))))).
Lemma wakeup_3 : configured = false ->
  runs (after false PINOS_LINK_STATE_ALLOCATING w3 O I) (link_wakeup ty l (3 + turns) fuel) (fun _ =>
    after false PINOS_LINK_STATE_PAUSED w4 (Port.with_state PINOS_PORT_STATE_PAUSED O) (Port.with_state PINOS_PORT_STATE_PAUSED I)).
Proof.
  intros Hnew. apply wakeup; [reflexivity |]. item; [apply completes_out |]. item; [apply completes_in |]. item; [| apply runs_ret; intros g Hg; exact Hg].
  check. eapply runs_weaken; [apply check_start; auto; [done | by apply starts_both] |]. intros r g. rewrite Hw. done.
Qed.

(** Both checks behind the first start a node again; then every result says that its
    port streams, and the checks in between find nothing left to do. *)
Definition Streaming : Port.t -> Port.t := Port.with_state PINOS_PORT_STATE_STREAMING.
Definition no_work (w : Spec.queue unit work_func) : Prop := Spec.pending w = [].

Lemma check_idle u st w O' I' : Port.node O' = no -> Port.node I' = ni ->
  Port.state O' = PINOS_PORT_STATE_STREAMING -> Port.state I' = PINOS_PORT_STATE_STREAMING ->
  runs (after u st w O' I') (bind (check_states_func ty fuel l) (fun _ => ret tt)) (fun _ => after u st w O' I').
Proof.
  intros Hno Hni HO HI. apply item_check, runs_after. intros L Hj Hu Hs Hw. eapply runs_weaken; [by apply check_streaming |].
  intros r g Hg. by exists L.
Qed.

Lemma wakeup_4 : configured = false -> Port.state O = PINOS_PORT_STATE_PAUSED -> Port.state I = PINOS_PORT_STATE_PAUSED ->
  runs (after false PINOS_LINK_STATE_PAUSED w4 O I) (link_wakeup ty l (13 + turns) fuel) (fun _ g => exists w, no_work w /\ Spec.signalled w = true /\
    after false PINOS_LINK_STATE_PAUSED w (Streaming (Streaming (Streaming O))) (Streaming (Streaming I)) g).
Proof.
  intros Hnew HO HI. apply wakeup; [reflexivity |].
  item; [check; eapply runs_weaken; [apply check_start; [first [done | rewrite HI; done].. | rewrite HO, HI; by apply starts_both] | intros r g; rewrite Hw; intros Hg; exact Hg] |].
  item; [apply completes_in |].
  item; [check; eapply runs_weaken; [apply check_start; [done.. | rewrite HO; by apply starts_out] | intros r g; rewrite Hw; intros Hg; exact Hg] |].
  item; [apply completes_out |].
  item; [by apply check_idle |]. item; [by apply check_idle |].
  item; [apply completes_in |]. item; [by apply check_idle |]. item; [apply completes_out |].
  item; [by apply check_idle |]. item; [by apply check_idle |]. item; [apply completes_out |]. item; [by apply check_idle |].
  settle. apply runs_ret. intros g Hg. eexists. split; [| split; [| exact Hg]]; reflexivity.
Qed.

Lemma wakeup_5 u st w : no_work w -> Spec.signalled w = true ->
  runs (after u st w O I) (link_wakeup ty l turns fuel) (fun _ g => exists w, no_work w /\ Spec.signalled w = false /\ after u st w O I g).
Proof. intros Hw Hs. apply wakeup; [exact Hs |]. apply pass_end; [exact Hw |]. intros g Hg. by exists (quieted w). Qed.

(** A wakeup without a signal does nothing. *)
Lemma no_wakeups u st w n : Spec.signalled w = false ->
  runs (after u st w O I) (each (replicate n l) (fun l => link_wakeup ty l turns fuel)) (fun _ => after u st w O I).
Proof.
  intros Hs. induction n as [|n IH]; cbn [replicate each]; [apply runs_ret; by intros g Hg |]. apply (runs_bind _ _ _ (fun _ => after u st w O I)); [| intros []; exact IH].
  unfold link_wakeup, queue_wakeup. apply get_queue. rewrite Hs. apply runs_ret. intros g Hg. exact Hg.
Qed.

(** The check that fails, and the result of the input's request. *)
Definition stalled_1 : Spec.queue unit work_func := add_work ni complete_ready i (popped 0 (quieted w1)).
Lemma wakeup_stalls st : configured = true -> PINOS_PORT_STATE_READY <= Port.state O <= PINOS_PORT_STATE_STREAMING ->
  Port.state I = PINOS_PORT_STATE_CONFIGURE ->
  runs (after true st w1 O I) (link_wakeup ty l (1 + turns) fuel) (fun _ => after false PINOS_LINK_STATE_NEGOTIATING stalled_1 O I).
Proof.
  intros Hcon HO HI. apply wakeup; [reflexivity |]. item; [| apply runs_ret; intros g Hg; exact Hg].
  check. eapply runs_weaken; [by apply check_stalls |]. intros r g. rewrite Hw. done.
Qed.
Lemma wakeup_stalled :
  runs (after false PINOS_LINK_STATE_NEGOTIATING stalled_1 O I) (link_wakeup ty l (1 + turns) fuel)
    (fun _ => after false PINOS_LINK_STATE_NEGOTIATING (popped 0 (quieted stalled_1)) O (Port.with_state PINOS_PORT_STATE_READY I)).
Proof.
  apply wakeup; [reflexivity |]. item; [apply completes_in |]. apply runs_ret. intros g Hg. exact Hg.
Qed.
End Way.

(** Both ports stream, with the same buffers. *)
Definition alive (g : graph S) : Prop := exists L O I, world L O I g /\
  Port.state O = PINOS_PORT_STATE_STREAMING /\ Port.state I = PINOS_PORT_STATE_STREAMING /\
  Port.buffers O = Port.buffers I /\ Port.buffers O <> 0 /\ Port.n_buffers O = Port.n_buffers I /\ Port.n_buffers O <> 0 /\
  Link.state L = PINOS_LINK_STATE_PAUSED /\ Spec.pending (Link.work L) = [] /\ Spec.signalled (Link.work L) = false.

(** The link waits for nothing, and nothing has come of it but a format on its input. *)
Definition stalled (P : Port.t) (g : graph S) : Prop := exists L I, world L P I g /\
  Port.state I = PINOS_PORT_STATE_READY /\ Port.buffers I = 0 /\ Port.n_buffers I = 0 /\
  Link.state L = PINOS_LINK_STATE_NEGOTIATING /\ Spec.pending (Link.work L) = [] /\ Spec.signalled (Link.work L) = false.

Lemma five_wakeups O I st turns fuel n : (0 < fuel)%nat -> configured = false ->
  Port.node O = no -> Port.node I = ni -> Port.links O = [l] -> Port.links I = [l] ->
  Port.state O = PINOS_PORT_STATE_CONFIGURE -> Port.state I = PINOS_PORT_STATE_CONFIGURE -> Port.n_buffers O = 0 -> Port.n_buffers I = 0 ->
  runs (after true st w1 O I) (each (replicate (5 + n) l) (fun l => link_wakeup ty l (13 + turns) fuel)) (fun _ => alive).
Proof.
  intros Hfuel Hnew HOn HIn HOl HIl HO HI HOb HIb. cbn [each replicate Nat.add].
  eapply runs_bind; [by apply (wakeup_1 O I HOn HIn (12 + turns) fuel) | intros []].
  eapply runs_bind; [by apply (wakeup_2 O I HOn HIn (10 + turns) fuel) | intros []].
  apply runs_exists; intros a. apply runs_exists; intros k. apply runs_exists; intros mem. apply runs_pure; intros Ha. apply runs_pure; intros Hn.
  eapply runs_bind; [by apply wakeup_3 | intros []].
  eapply runs_bind; [by apply wakeup_4 | intros []].
  apply runs_exists; intros w. apply runs_pure; intros Hw. apply runs_pure; intros Hs.
  eapply runs_bind; [by apply wakeup_5 | intros []].
  apply runs_exists; intros w'. apply runs_pure; intros Hw'. apply runs_pure; intros Hs'.
  eapply runs_weaken; [by apply no_wakeups |]. intros [] g (L & Hg & _ & _ & HL & Hwork). eexists L, _, _. split; [exact Hg |]. rewrite HL, Hwork. simpl. split_and!; try done. lia.
Qed.

Lemma stalled_wakeups O I st turns fuel n : configured = true -> Port.node O = no -> Port.node I = ni ->
  PINOS_PORT_STATE_READY <= Port.state O <= PINOS_PORT_STATE_STREAMING -> Port.state I = PINOS_PORT_STATE_CONFIGURE ->
  Port.buffers I = 0 -> Port.n_buffers I = 0 ->
  runs (after true st w1 O I) (each (replicate (2 + n) l) (fun l => link_wakeup ty l (1 + turns) fuel)) (fun _ => stalled O).
Proof.
  intros Hcon HOn HIn HO HI HIb HIn0. cbn [each replicate Nat.add].
  eapply runs_bind; [by apply wakeup_stalls | intros []]. eapply runs_bind; [by apply wakeup_stalled | intros []].
  eapply runs_weaken; [by apply no_wakeups |]. intros [] g (L & Hg & _ & _ & HL & Hwork). eexists L, _. split; [exact Hg |].
  rewrite HL, Hwork. by split_and!.
Qed.

(** C7: A new link between an output and an input whose elements oblige (every request succeeds at once,
    the output can allocate buffers and the input use them, and their parameters ask for a
    block of memory that can be laid out), the input without format and buffers, when the kernel
    grants memory and the rest of the graph is arbitrary. If the output has no format and no buffers either, and
    the two ports are the only ones of their nodes and have no other link, then the link
    comes to life once it is activated: five wakeups of its work queue negotiate a format,
    allocate buffers and start both nodes; then both ports stream, with the same buffers,
    the link is left [PAUSED] and has no work waiting, and further wakeups change nothing. If
    the output already has a format and its node is in use, so that another link has come
    first, then the link stalls, however often it is woken up: the input is given the format of the
    output, but the link stays in [NEGOTIATING] without buffers and without work. *)
Theorem link_comes_to_life L O I (g : graph S) turns fuel n : (0 < fuel)%nat ->
  world L O I g -> joined L -> Link.buffers L = 0 -> Link.work L = no_queue ->
  Port.node O = no -> Port.node I = ni ->
  Port.state I = PINOS_PORT_STATE_CONFIGURE -> Port.buffers I = 0 -> Port.n_buffers I = 0 ->
  (if configured then PINOS_PORT_STATE_READY <= Port.state O <= PINOS_PORT_STATE_STREAMING
   else Port.links O = [l] /\ Port.links I = [l] /\ Port.state O = PINOS_PORT_STATE_CONFIGURE /\ Port.n_buffers O = 0) ->
  exists g', (pinos_link_activate l ;;; each (replicate (5 + n) l) (fun l => link_wakeup ty l (13 + turns) fuel)) g = Done (tt, g') /\
    if configured then stalled O g' else alive g'.
Proof.
  intros Hfuel Hg (Ho & Hi & Hne) HL Hwork HOn HIn HI HIa HIb Hside.
  assert (runs (world L O I) (pinos_link_activate l ;;; each (replicate (5 + n) l) (fun l => link_wakeup ty l (13 + turns) fuel))
    (fun _ g => if configured then stalled O g else alive g)) as Hrun.
  { unfold pinos_link_activate. apply step_link_work. intros g0 Hg0.
    assert (after true (Link.state L) w1 O I g0) as Hafter
      by (eapply after_phase; [exact Hg0 | done | done | done | done | done |]; unfold queued; simpl; by rewrite Hwork).
    destruct configured eqn:Hcon.
    - exact (stalled_wakeups O I (Link.state L) (12 + turns) fuel (3 + n) Hcon HOn HIn Hside HI HIa HIb g0 Hafter).
    - destruct Hside as (HOl & HIl & HO & HOb).
      exact (five_wakeups O I (Link.state L) turns fuel n Hfuel Hcon HOn HIn HOl HIl HO HI HOb HIb g0 Hafter). }
  destruct (Hrun g Hg) as ([] & g' & Heq & Hg'). by exists g'.
Qed.
End Life.

(** ** Elements that oblige exist *)

Module Sample.
(** A format without properties, and a parameter that asks for nothing. *)
Definition a_format : format := le32 40 ++ replicate 44 0.
Definition a_param : bytes := le32 8 ++ le32 SPA_POD_TYPE_OBJECT ++ le32 0 ++ le32 99.
Definition oinfo : SpaPortInfo := mkInfo SPA_PORT_INFO_FLAG_CAN_ALLOC_BUFFERS [a_param].
Definition iinfo : SpaPortInfo := mkInfo SPA_PORT_INFO_FLAG_CAN_USE_BUFFERS [a_param].

(** The element of node 1 has an output, any other an input. *)
Definition ports_of (n : Z) : Z * Z := if n =? 1 then (0, 1) else (1, 0).
#[export] Instance elements : SpaNode unit := {|
  spa_node_send_command n c s := (SPA_RESULT_OK, s);
  spa_node_port_enum_formats n d p filter k s := (SPA_RESULT_OK, Some (Some a_format), s);
  spa_node_port_set_format n d p flags f s := (SPA_RESULT_OK, s);
  spa_node_port_get_format n d p s := (SPA_RESULT_OK, Some (Some a_format), s);
  spa_node_port_get_info n d p s := (SPA_RESULT_OK, match d with PINOS_DIRECTION_INPUT => iinfo | PINOS_DIRECTION_OUTPUT => oinfo end, s);
  spa_node_port_use_buffers n d p b k s := (SPA_RESULT_OK, s);
  spa_node_port_alloc_buffers n d p ps b k s := (SPA_RESULT_OK, 4, s);
  spa_node_port_send_command n d p c s := (SPA_RESULT_OK, s);
  spa_node_port_set_io n d p s := (SPA_RESULT_OK, s);
  spa_node_add_port n d p s := (SPA_RESULT_OK, s);
  spa_node_get_n_ports n s := ((ports_of n).1, (ports_of n).1, (ports_of n).2, (ports_of n).2, s);
  spa_node_get_port_ids n s := ([0], [0], s);
  spa_clock_get_time c s := ((1, 0, 0), s)
|}.

(** Two nodes, and a link between their ports. *)
Definition story : list request := [node_new false false 0; node_new false false 0; port_link 2 4; on_data_loop; on_data_loop].
Definition told_story : outcome (unit * graph unit) := run sample_types story (blank nothing_open tt).

Definition the_graph : graph unit := match told_story with Done (_, g) => g | _ => blank nothing_open tt end.

(** The link streams, and a second one is made from the same output to a third node. *)
Definition second_story : list request :=
  story ++ [link_activate 5] ++ replicate 5 (on_link_wakeup 5 13 1) ++ [node_new false false 0; port_link 2 8; on_data_loop; on_data_loop].
Definition told_second : outcome (unit * graph unit) := run sample_types second_story (blank nothing_open tt).
Definition second_graph : graph unit := match told_second with Done (_, g) => g | _ => blank nothing_open tt end.

Lemma elements_oblige : obliging oinfo iinfo.
Proof.
  split; intros; try reflexivity.
  - exists a_format, a_format, s. split; [reflexivity | by vm_compute].
  - by exists a_format, s.
  - by exists s.
  - exists 4, s. split; [reflexivity | done].
Qed.

Lemma granting_grants : grants.
Proof.
  intros n mem p Hn. unfold pinos_memblock_alloc. rewrite (proj2 (Z.eqb_neq _ _) Hn). change (has link_flags _) with true. cbv iota.
  assert (sys_open p = ((sys_open p).1, (sys_open p).2)) as -> by apply surjective_pairing. cbv iota beta zeta.
  assert ((sys_open p).1 =? -1 = false) as ->.
  { apply Z.eqb_neq. unfold sys_open. destruct (new_fd p) as [m |] eqn:Hfd; [| by vm_compute in Hfd]. apply new_fd_unused in Hfd as [? _]. simpl. lia. }
  change (sys_ftruncate _) with (0, tick (sys_open p).2). cbv iota beta. change (0 <? 0) with false. cbv iota.
  unfold pinos_memblock_map. cbn [ptr flags with_fd]. destruct (Mem.ptr mem =? 0) eqn:Hp; [| done]. cbn [negb]. cbv iota.
  change (has link_flags PINOS_MEMBLOCK_FLAG_MAP_READWRITE) with true. change (has link_flags PINOS_MEMBLOCK_FLAG_MAP_TWICE) with false. cbv iota.
  unfold sys_mmap. destruct (new_map _ _) as [a |] eqn:Ha; [| done]. apply new_map_unused in Ha as [Ha _]. cbv iota beta zeta.
  assert (a =? MAP_FAILED = false) as -> by (apply Z.eqb_neq; unfold MAP_FAILED; lia). done.
Qed.

Lemma params_readable : readable sample_types oinfo iinfo.
Proof.
  exists 16, 0, 0, 448. split; [by vm_compute |]. split; [by vm_compute |]. split; [done |]. intros fd.
  assert (Forall (fun s : Z * Z => 0 <= s.1 < 2 ^ 32) [(0, 0)]) as Hs by (apply Forall_cons; split; [simpl; lia | by apply Forall_nil]).
  destruct (fill_buffers_ok sample_types fd [(0, 0)] Hs 16 0 [] (fresh 448)) as (images & _ & Hrun); [done | done | by rewrite fresh_len | done |].
  rewrite app_nil_l in Hrun. do 2 eexists. exact Hrun.
Qed.

End Sample.
#[local] Existing Instance Sample.elements.

Lemma link_comes_to_life_witness :
  (Sample.told_story = Done (tt, Sample.the_graph) /\
   exists g', (pinos_link_activate 5 ;;; each (replicate 6 5) (fun l => link_wakeup sample_types l 13 1)) Sample.the_graph = Done (tt, g') /\
     alive 5 2 4 1 3 false g') /\
  (Sample.told_second = Done (tt, Sample.second_graph) /\
   exists O g', (pinos_link_activate 9 ;;; each (replicate 6 9) (fun l => link_wakeup sample_types l 13 1)) Sample.second_graph = Done (tt, g') /\
     Port.state O = PINOS_PORT_STATE_STREAMING /\ stalled 9 2 8 1 7 true O g').
Proof.
  split; (split; [vm_compute; reflexivity |]).
  - destruct (links Sample.the_graph !! 5) as [L |] eqn:HL; [| vm_compute in HL; discriminate HL].
    destruct (ports Sample.the_graph !! 2) as [O |] eqn:HO; [| vm_compute in HO; discriminate HO].
    destruct (ports Sample.the_graph !! 4) as [I |] eqn:HI; [| vm_compute in HI; discriminate HI].
    pose proof HL as HL'. vm_compute in HL'. injection HL' as HL'. pose proof HO as HO'. vm_compute in HO'. injection HO' as HO'.
    pose proof HI as HI'. vm_compute in HI'. injection HI' as HI'.
    apply (link_comes_to_life sample_types Sample.oinfo Sample.iinfo Sample.elements_oblige Sample.granting_grants Sample.params_readable 5 2 4 1 3
      ltac:(discriminate) ltac:(discriminate) false L O I Sample.the_graph 0 1 1);
      [lia | | subst L O I; first [reflexivity | by split_and! | split; [reflexivity | split; [reflexivity | discriminate]]]..].
    split; [exact HL | exact HO | exact HI | | | reflexivity].
    + eexists. split; [vm_compute; reflexivity |]. split; [discriminate | split; reflexivity].
    + eexists. split; [vm_compute; reflexivity |]. split; [discriminate | split; reflexivity].
  - destruct (links Sample.second_graph !! 9) as [L |] eqn:HL; [| vm_compute in HL; discriminate HL].
    destruct (ports Sample.second_graph !! 2) as [O |] eqn:HO; [| vm_compute in HO; discriminate HO].
    destruct (ports Sample.second_graph !! 8) as [I |] eqn:HI; [| vm_compute in HI; discriminate HI].
    pose proof HL as HL'. vm_compute in HL'. injection HL' as HL'. pose proof HO as HO'. vm_compute in HO'. injection HO' as HO'.
    pose proof HI as HI'. vm_compute in HI'. injection HI' as HI'. exists O.
    destruct (link_comes_to_life sample_types Sample.oinfo Sample.iinfo Sample.elements_oblige Sample.granting_grants Sample.params_readable 9 2 8 1 7
      ltac:(discriminate) ltac:(discriminate) true L O I Sample.second_graph 0 1 1) as (g' & Hrun & Hst);
      [lia | | subst L O I; first [reflexivity | by split_and! | split; [reflexivity | split; [reflexivity | discriminate]] | by split]..
       | exists g'; split; [exact Hrun | split; [by subst O | exact Hst]]].
    split; [exact HL | exact HO | exact HI | | | reflexivity].
    + eexists. split; [vm_compute; reflexivity |]. split; discriminate.
    + eexists. split; [vm_compute; reflexivity |]. split; [discriminate | exact Logic.I].
Defined.
