(* ===== verification/GraphLogic.v ===== *)
(** A program logic for computations on the media graph: the invariant of the graph,
    and for each primitive that it is kept.

    The invariant is kept with a list of held references to links: those the running
    function has taken and not yet given back. *)
From stdpp Require Import gmap.
From S2P Require Import Prelude State Defs SpaList WorkQueue Mem Buffers Graph Negotiate.

(** ** What a state is, and what the listeners were told *)

Definition valid_node_state (s : Z) : Prop := PINOS_NODE_STATE_ERROR <= s <= PINOS_NODE_STATE_RUNNING.
Definition valid_port_state (s : Z) : Prop := PINOS_PORT_STATE_CONFIGURE <= s <= PINOS_PORT_STATE_STREAMING.
Definition valid_link_state (s : Z) : Prop := PINOS_LINK_STATE_ERROR <= s <= PINOS_LINK_STATE_PAUSED.

(** A deferred change of state is one to a state. *)
Definition item_ok (i : WorkItem work_func) : Prop := func i = Some on_state_complete -> valid_node_state (WorkQueue.data i).
Definition queue_ok (q : Spec.queue unit work_func) : Prop := Forall item_ok (Spec.pending q).

Definition node_ok (o : Node.t) : Prop :=
  valid_node_state (Node.state o) /\ (is_Some (Node.error o) -> Node.state o = PINOS_NODE_STATE_ERROR) /\ queue_ok (Node.work o).
Definition port_ok (o : Port.t) : Prop := valid_port_state (Port.state o).
Definition link_ok (o : Link.t) : Prop :=
  valid_link_state (Link.state o) /\ (is_Some (Link.error o) <-> Link.state o = PINOS_LINK_STATE_ERROR) /\ queue_ok (Link.work o).

(** The state a listener knows of after the events [es]. *)
Definition link_view (l : Z) (es : list event) : Z :=
  foldl (fun s e => match e with link_state_changed l' _ new => if l' =? l then new else s | _ => s end) PINOS_LINK_STATE_INIT es.
Definition node_view (n : Z) (es : list event) : Z :=
  foldl (fun s e => match e with node_state_changed n' _ new => if n' =? n then new else s | _ => s end) PINOS_NODE_STATE_CREATING es.

(** A change of state is told with the state the listener knows of. *)
Definition told_after (es : list event) (e : event) : Prop :=
  match e with
  | link_state_changed l old new => link_view l es = old /\ old <> new
  | node_state_changed n old new => node_view n es = old /\ old <> new
  | _ => True
  end.
Definition told (es : list event) : Prop := forall es1 e es2, es = es1 ++ e :: es2 -> told_after es1 e.

Definition quiet (e : event) : Prop :=
  match e with link_state_changed _ _ _ | node_state_changed _ _ _ => False | _ => True end.

Lemma link_view_snoc l es e :
  link_view l (es ++ [e]) = match e with link_state_changed l' _ new => if l' =? l then new else link_view l es | _ => link_view l es end.
Proof. unfold link_view. rewrite foldl_app. by destruct e. Qed.
Lemma node_view_snoc n es e :
  node_view n (es ++ [e]) = match e with node_state_changed n' _ new => if n' =? n then new else node_view n es | _ => node_view n es end.
Proof. unfold node_view. rewrite foldl_app. by destruct e. Qed.
Lemma link_view_quiet l es e : quiet e -> link_view l (es ++ [e]) = link_view l es.
Proof. rewrite link_view_snoc. by destruct e. Qed.
Lemma node_view_quiet n es e : quiet e -> node_view n (es ++ [e]) = node_view n es.
Proof. rewrite node_view_snoc. by destruct e. Qed.

Lemma told_snoc es e : told es -> told_after es e -> told (es ++ [e]).
Proof.
  intros H1 H2 es1 x es2 Heq. destruct es2 as [|y es2 _] using rev_ind.
  - apply app_inj_tail in Heq as [-> ->]. done.
  - rewrite app_comm_cons, app_assoc in Heq. apply app_inj_tail in Heq as [-> _]. by eapply H1.
Qed.

(** ** References to a link *)

(** The closures of the removal that [pinos_link_destroy] starts; they hold a reference to the
    link until [do_link_remove_done] drops it. Those of [pinos_port_unlink], [do_remove_link] and
    its [do_remove_link_done], take the link off one port and hold none, so they do not count. *)
Definition removes (l : Z) (c : closure) : bool :=
  match c with do_link_remove l' _ | do_link_remove_done l' => l =? l' | _ => false end.
Definition pending (l : Z) (cs : list closure) : Z := foldr (fun c n => n + Z.b2z (removes l c)) 0 cs.
Definition occurs (l : Z) (ls : list Z) : Z := foldr (fun l' n => n + Z.b2z (l =? l')) 0 ls.

Lemma pending_app l a b : pending l (a ++ b) = pending l a + pending l b.
Proof. induction a; simpl; lia. Qed.
Lemma pending_nonneg l cs : 0 <= pending l cs.
Proof. induction cs as [|c cs IH]; simpl; [done |]. destruct (removes l c); simpl; lia. Qed.
Lemma occurs_app l a b : occurs l (a ++ b) = occurs l a + occurs l b.
Proof. induction a; simpl; lia. Qed.
Lemma occurs_nonneg l ls : 0 <= occurs l ls.
Proof. induction ls as [|x ls IH]; simpl; [done |]. destruct (l =? x); simpl; lia. Qed.
Lemma occurs_not_in l ls : l ∉ ls -> occurs l ls = 0.
Proof. induction ls as [|x ls IH]; [done |]. intros [Hne Hin]%not_elem_of_cons. simpl. rewrite IH, (proj2 (Z.eqb_neq l x)) by done. done. Qed.

Lemma occurs_in l ls : l ∈ ls -> 0 < occurs l ls.
Proof.
  induction ls as [|x ls IH]; [by intros ?%elem_of_nil |]. intros [<- | Hin]%elem_of_cons; simpl; pose proof (occurs_nonneg l ls).
  - rewrite Z.eqb_refl. simpl. lia.
  - specialize (IH Hin). destruct (l =? x); simpl; lia.
Qed.
Lemma pending_in l c cs : c ∈ cs -> removes l c = true -> 0 < pending l cs.
Proof.
  induction cs as [|x cs IH]; [by intros ?%elem_of_nil |]. intros [<- | Hin]%elem_of_cons Hc; simpl; pose proof (pending_nonneg l cs).
  - rewrite Hc. simpl. lia.
  - specialize (IH Hin Hc). destruct (removes l x); simpl; lia.
Qed.

Lemma unlink_occurs x l l' : unlink x l = Done l' -> forall y, occurs y l = occurs y l' + Z.b2z (y =? x).
Proof.
  revert l'. induction l as [|z l IH]; intros l'; [done |]. simpl. destruct (Z.eqb_spec x z) as [-> |].
  - intros [= <-] y. done.
  - destruct (unlink x l) as [l1 | |]; [| done..]. intros [= <-] y. simpl. rewrite (IH _ eq_refl). lia.
Qed.

Lemma unlink_length x l l' : unlink x l = Done l' -> zlen l = zlen l' + 1.
Proof.
  revert l'. induction l as [|z l IH]; intros l'; [done |]. simpl. rewrite zlen_cons. destruct (x =? z).
  - intros [= <-]. lia.
  - destruct (unlink x l) as [l1 | |]; [| done..]. intros [= <-]. rewrite zlen_cons, (IH _ eq_refl). lia.
Qed.

(** ** The invariant *)

Section Logic.
Context {S : Type}.
Local Abbreviation G := (Graph.G S).

(** Who refers to the link [l]: the list of the core, removals under way, and the
    references held. *)
Definition refs (held : list Z) (l : Z) (g : graph S) : Z :=
  occurs l (link_list g) + pending l (main_loop g) + pending l (data_loop g) + occurs l held.

Definition told_node (g : graph S) (n : Z) (o : Node.t) : Prop := node_ok o /\ node_view n (events g) = Node.state o.
Definition told_link (held : list Z) (g : graph S) (l : Z) (o : Link.t) : Prop :=
  link_ok o /\ link_view l (events g) = Link.state o /\ 
  Link.refcount o = zlen (Link.resources o) + refs held l g /\ 0 < Link.refcount o.

Definition unused (g : graph S) (a : Z) : Prop :=
  nodes g !! a = None /\ links g !! a = None /\ node_view a (events g) = PINOS_NODE_STATE_CREATING /\
  link_view a (events g) = PINOS_LINK_STATE_INIT.

Record inv (held : list Z) (g : graph S) : Prop := {
  inv_nodes : map_Forall (told_node g) (nodes g);
  inv_ports : map_Forall (fun _ o => port_ok o) (ports g);
  inv_links : map_Forall (told_link held g) (links g);
  inv_gone : forall l, links g !! l = None -> refs held l g = 0;
  inv_unused : forall a, next_addr g <= a -> unused g a;
  inv_told : told (events g)
}.

Lemma refs_nonneg held l g : 0 <= refs held l g.
Proof.
  unfold refs. pose proof (occurs_nonneg l (link_list g)). pose proof (occurs_nonneg l held).
  pose proof (pending_nonneg l (main_loop g)). pose proof (pending_nonneg l (data_loop g)). lia.
Qed.

Local Abbreviation keeps held := (preserves (inv held)).
Local Abbreviation gives held := (yields (inv held)).

(** ** Reading objects *)

Lemma gives_get_node held n : gives held (get_node n) node_ok.
Proof.
  intros g a g' Hg. unfold get_node. destruct (nodes g !! n) as [o |] eqn:Ho; [| done]. intros [= <- <-].
  split; [done | exact (proj1 (inv_nodes _ _ Hg _ _ Ho))].
Qed.
Lemma gives_get_port held p : gives held (get_port p) port_ok.
Proof.
  intros g a g' Hg. unfold get_port. destruct (ports g !! p) as [o |] eqn:Ho; [| done]. intros [= <- <-].
  split; [done | exact (inv_ports _ _ Hg _ _ Ho)].
Qed.
Lemma gives_get_link held l : gives held (get_link l) link_ok.
Proof.
  intros g a g' Hg. unfold get_link. destruct (links g !! l) as [o |] eqn:Ho; [| done]. intros [= <- <-].
  split; [done | exact (proj1 (inv_links _ _ Hg _ _ Ho))].
Qed.

(** ** Changing objects *)

(** A graph that differs in what the invariant does not speak of. *)
Lemma inv_same held (g g' : graph S) :
  inv held g -> nodes g' = nodes g -> ports g' = ports g -> links g' = links g -> link_list g' = link_list g ->
  main_loop g' = main_loop g -> data_loop g' = data_loop g -> events g' = events g -> next_addr g <= next_addr g' -> inv held g'.
Proof.
  intros Hg En Ep El Ell Em Ed Ee Ea. destruct Hg as [H1 H2 H3 H4 H5 H6].
  assert (forall l, refs held l g' = refs held l g) as Hr by (intros l; unfold refs; by rewrite Ell, Em, Ed).
  split.
  - rewrite En. intros n o Ho. unfold told_node. rewrite Ee. by apply H1.
  - by rewrite Ep.
  - rewrite El. intros l o Ho. unfold told_link. rewrite Ee, Hr. by apply H3.
  - intros l. rewrite El, Hr. apply H4.
  - intros a Ha. unfold unused. rewrite En, El, Ee. apply H5. lia.
  - by rewrite Ee.
Qed.

Lemma keeps_put_port held p o : port_ok o -> keeps held (put_port p o).
Proof.
  intros Ho g [] g' [H1 H2 H3 H4 H5 H6] [= <-]. split; [exact H1 | | exact H3 | exact H4 | exact H5 | exact H6].
  by apply map_Forall_insert_2.
Qed.
Lemma keeps_free_port held p : keeps held (free_port p).
Proof.
  intros g [] g' [H1 H2 H3 H4 H5 H6] [= <-]. split; [exact H1 | | exact H3 | exact H4 | exact H5 | exact H6].
  by apply map_Forall_delete.
Qed.
Lemma keeps_set_port held p f : (forall o, port_ok o -> port_ok (f o)) -> keeps held (set_port p f).
Proof. intros Hf. eapply yields_bind; [apply gives_get_port |]. intros o Ho. by apply keeps_put_port, Hf. Qed.

Lemma inv_put_node held (g : graph S) n o :
  inv held g -> nodes g !! n <> None -> told_node g n o -> inv held (with_nodes (<[n := o]> (nodes g)) g).
Proof.
  intros [H1 H2 H3 H4 H5 H6] Hn Ho. split; [| exact H2 | exact H3 | exact H4 | | exact H6].
  - by apply map_Forall_insert_2.
  - intros a Ha. destruct (H5 a Ha) as (Ha1 & Ha2). split; [| exact Ha2]. simpl. rewrite lookup_insert_ne; [done |]. by intros ->.
Qed.
Lemma inv_put_link held (g : graph S) l o :
  inv held g -> links g !! l <> None -> told_link held g l o -> inv held (with_links (<[l := o]> (links g)) g).
Proof.
  intros [H1 H2 H3 H4 H5 H6] Hl Ho. split; [exact H1 | exact H2 | | | | exact H6].
  - by apply map_Forall_insert_2.
  - intros l' Hl'. simpl in Hl'. apply lookup_insert_None in Hl' as [Hl' _]. by apply H4.
  - intros a Ha. destruct (H5 a Ha) as (Ha1 & Ha2 & Ha3). split_and!; [done | | apply Ha3..]. simpl.
    rewrite lookup_insert_ne; [done |]. by intros ->.
Qed.

Lemma keeps_set_node held n f :
  (forall o, node_ok o -> node_ok (f o) /\ Node.state (f o) = Node.state o) -> keeps held (set_node n f).
Proof.
  intros Hf g [] g' Hg. unfold set_node, bind, get_node. destruct (nodes g !! n) as [o |] eqn:Ho; [| done]. intros [= <-].
  destruct (inv_nodes _ _ Hg _ _ Ho) as [Hok Hv]. destruct (Hf o Hok) as [Hok' Hs].
  apply inv_put_node; [done | by rewrite Ho |]. split; [done | by rewrite Hs].
Qed.
Lemma keeps_set_link held l f :
  (forall o, link_ok o -> link_ok (f o) /\ Link.state (f o) = Link.state o /\ Link.refcount (f o) = Link.refcount o /\
    Link.resources (f o) = Link.resources o) -> keeps held (set_link l f).
Proof.
  intros Hf g [] g' Hg. unfold set_link, bind, get_link. destruct (links g !! l) as [o |] eqn:Ho; [| done]. intros [= <-].
  destruct (inv_links _ _ Hg _ _ Ho) as (Hok & Hv & Hc & Hp). destruct (Hf o Hok) as (Hok' & Hs & Hr & Hrs).
  apply inv_put_link; [done | by rewrite Ho |]. split_and!; [done | by rewrite Hs | by rewrite Hr, Hrs | by rewrite Hr].
Qed.

Lemma keeps_free_node held n : keeps held (free_node n).
Proof.
  intros g [] g' [H1 H2 H3 H4 H5 H6] [= <-]. split; [| exact H2 | exact H3 | exact H4 | | exact H6].
  - by apply map_Forall_delete.
  - intros a Ha. destruct (H5 a Ha) as (Ha1 & Ha2). split; [| exact Ha2]. simpl. by rewrite lookup_delete_None; right.
Qed.

(** ** The rest of the state *)

Lemma keeps_same {A} held (m : G A) :
  (forall g a g', m g = Done (a, g') -> nodes g' = nodes g /\ ports g' = ports g /\ links g' = links g /\ link_list g' = link_list g /\
    main_loop g' = main_loop g /\ data_loop g' = data_loop g /\ events g' = events g /\ next_addr g <= next_addr g') ->
  keeps held m.
Proof. intros Hm g a g' Hg Hrun. destruct (Hm _ _ _ Hrun) as (? & ? & ? & ? & ? & ? & ? & ?). by eapply inv_same. Qed.

Lemma keeps_element {A} held (f : S -> A * S) : keeps held (element f).
Proof. apply keeps_same. intros g a g'. unfold element. destruct (f (elements g)) as [x s]. intros [= <- <-]. by split_and!. Qed.
Lemma keeps_system {A} held (f : process -> A * process) : keeps held (system f).
Proof. apply keeps_same. intros g a g'. unfold system. destruct (f (proc g)) as [x s]. intros [= <- <-]. by split_and!. Qed.
Lemma keeps_memblock_free `{Kernel} held mem : keeps held (memblock_free mem).
Proof.
  apply keeps_same. intros g a g'. unfold memblock_free. destruct (pinos_memblock_free mem (proc g)) as [[m p] | |]; [| done..].
  intros [= <- <-]. by split_and!.
Qed.
Lemma keeps_calloc held : keeps held calloc.
Proof. apply keeps_same. intros g a g' [= <- <-]. simpl. split_and!; [done.. | lia]. Qed.
Lemma keeps_put_array held a l : keeps held (put_array a l).
Proof. apply keeps_same. intros g [] g' [= <-]. by split_and!. Qed.
Lemma keeps_get_node_list held : keeps held get_node_list.
Proof. apply keeps_same. intros g a g' [= <- <-]. by split_and!. Qed.
Lemma keeps_get_link_list held : keeps held get_link_list.
Proof. apply keeps_same. intros g a g' [= <- <-]. by split_and!. Qed.
Lemma keeps_set_node_list held l : keeps held (set_node_list l).
Proof. apply keeps_same. intros g [] g' [= <-]. by split_and!. Qed.
Lemma keeps_list_remove held x l : keeps held (list_remove x l).
Proof. apply preserves_lift. Qed.

Lemma inv_emit held (g g' : graph S) e :
  inv held g -> quiet e -> emit e g = Done (tt, g') -> inv held g'.
Proof.
  intros [H1 H2 H3 H4 H5 H6] He [= <-]. split; [| exact H2 | | exact H4 | |].
  - intros n o Ho. unfold told_node. simpl. rewrite node_view_quiet by done. by apply H1.
  - intros l o Ho. unfold told_link. simpl. rewrite link_view_quiet by done. by apply H3.
  - intros a Ha. unfold unused. simpl. rewrite node_view_quiet, link_view_quiet by done. by apply H5.
  - apply told_snoc; [done |]. by destruct e.
Qed.
Lemma keeps_emit held e : quiet e -> keeps held (emit e).
Proof. intros He g [] g' Hg Hrun. by eapply inv_emit. Qed.

(** ** References taken and given back *)

(** A graph that differs in who refers to links. *)
Lemma inv_moved held held' (g g' : graph S) :
  inv held g -> nodes g' = nodes g -> ports g' = ports g -> links g' = links g -> events g' = events g -> next_addr g' = next_addr g ->
  (forall l, refs held' l g' = refs held l g) -> inv held' g'.
Proof.
  intros [H1 H2 H3 H4 H5 H6] En Ep El Ee Ea Hr. split.
  - rewrite En. intros n o Ho. unfold told_node. rewrite Ee. by apply H1.
  - by rewrite Ep.
  - rewrite El. intros l o Ho. unfold told_link. rewrite Ee, Hr. by apply H3.
  - intros l. rewrite El, Hr. apply H4.
  - intros a. unfold unused. rewrite En, El, Ee, Ea. apply H5.
  - by rewrite Ee.
Qed.

Lemma invoke_main_removal held l c : removes l c = true -> hoare (inv (l :: held)) (invoke_main c) (fun _ => inv held).
Proof.
  intros Hc g [] g' Hg [= <-]. eapply inv_moved; [exact Hg | reflexivity.. |]. intros l'. unfold refs. simpl. rewrite pending_app. simpl.
  destruct c; simpl in *; try done; apply Z.eqb_eq in Hc as ->; lia.
Qed.
Lemma invoke_data_removal held l c : removes l c = true -> hoare (inv (l :: held)) (invoke_data c) (fun _ => inv held).
Proof.
  intros Hc g [] g' Hg [= <-]. eapply inv_moved; [exact Hg | reflexivity.. |]. intros l'. unfold refs. simpl. rewrite pending_app. simpl.
  destruct c; simpl in *; try done; apply Z.eqb_eq in Hc as ->; lia.
Qed.
Definition no_removal (c : closure) : Prop := match c with do_link_remove _ _ | do_link_remove_done _ => False | _ => True end.
Lemma keeps_invoke_main held c : no_removal c -> keeps held (invoke_main c).
Proof.
  intros Hc g [] g' Hg [= <-]. eapply inv_moved; [exact Hg | reflexivity.. |]. intros l'. unfold refs. simpl. rewrite pending_app. simpl.
  destruct c; simpl in *; done || lia.
Qed.
Lemma keeps_invoke_data held c : no_removal c -> keeps held (invoke_data c).
Proof.
  intros Hc g [] g' Hg [= <-]. eapply inv_moved; [exact Hg | reflexivity.. |]. intros l'. unfold refs. simpl. rewrite pending_app. simpl.
  destruct c; simpl in *; done || lia.
Qed.

(** Listing a link, and taking it off the list. *)
Lemma list_link held l : hoare (inv (l :: held)) (ls <- get_link_list ;; set_link_list (ls ++ [l])) (fun _ => inv held).
Proof.
  intros g [] g' Hg [= <-]. eapply inv_moved; [exact Hg | reflexivity.. |]. intros l'. unfold refs. simpl. rewrite occurs_app. simpl. lia.
Qed.
Lemma unlist_link held l :
  hoare (inv held) (ls <- get_link_list ;; ls <- list_remove l ls ;; set_link_list ls) (fun _ => inv (l :: held)).
Proof.
  intros g [] g' Hg. unfold bind, get_link_list, list_remove, lift. cbn [obind]. destruct (unlink l (link_list g)) as [ls | |] eqn:Hu; [| done..].
  intros [= <-]. eapply inv_moved; [exact Hg | reflexivity.. |]. intros l'. unfold refs. simpl. rewrite (unlink_occurs _ _ _ Hu l'). lia.
Qed.

(** The function at the head of a queue begins: it holds the link it was queued for. *)
Definition holds (c : closure) : list Z := match c with do_link_remove l _ | do_link_remove_done l => [l] | _ => [] end.
Lemma occurs_holds c l : occurs l (holds c) = Z.b2z (removes l c).
Proof. by destruct c. Qed.

(** One link with another count. *)
Lemma inv_count held held' (g : graph S) l o o' :
  inv held g -> links g !! l = Some o -> link_ok o' -> Link.state o' = Link.state o ->
  Link.refcount o' - zlen (Link.resources o') - occurs l held' = Link.refcount o - zlen (Link.resources o) - occurs l held ->
  0 < Link.refcount o' -> (forall l', l' <> l -> occurs l' held' = occurs l' held) -> inv held' (with_links (<[l := o']> (links g)) g).
Proof.
  intros [H1 H2 H3 H4 H5 H6] Hl Hok Hs Hc Hp Hne. destruct (H3 _ _ Hl) as (_ & Hv & Hcount & _).
  assert (forall l', l' <> l -> refs held' l' (with_links (<[l := o']> (links g)) g) = refs held l' g) as Hr.
  { intros l' Hl'. unfold refs. simpl. by rewrite Hne. }
  split; [exact H1 | exact H2 | | | | exact H6].
  - intros l' x. simpl. destruct (decide (l' = l)) as [-> | Hl'].
    + rewrite lookup_insert_eq. intros [= <-]. split_and!; [done | simpl; by rewrite Hs | | exact Hp]. unfold refs in *. simpl in *. lia.
    + rewrite lookup_insert_ne by done. intros Hx. unfold told_link. rewrite Hr by done. by apply H3.
  - intros l' Hl'. simpl in Hl'. apply lookup_insert_None in Hl' as [Hl' Hll]. rewrite Hr by done. by apply H4.
  - intros a Ha. destruct (H5 a Ha) as (Ha1 & Ha2 & Ha3). split_and!; [done | | apply Ha3..]. simpl.
    rewrite lookup_insert_ne; [done |]. intros <-. congruence.
Qed.

Lemma occurs_cons_ne l l' held : l' <> l -> occurs l' (l :: held) = occurs l' held.
Proof. intros Hne. simpl. rewrite (proj2 (Z.eqb_neq l' l)) by done. simpl. lia. Qed.
Lemma occurs_cons_eq l held : occurs l (l :: held) = occurs l held + 1.
Proof. simpl. rewrite Z.eqb_refl. simpl. lia. Qed.

(** [set_link] as a step to a state with other references. *)
Lemma count_link held held' l f :
  (forall o, link_ok o -> link_ok (f o) /\ Link.state (f o) = Link.state o) ->
  (forall o, 0 < Link.refcount o -> 0 < Link.refcount (f o)) ->
  (forall o, Link.refcount (f o) - zlen (Link.resources (f o)) - occurs l held' = Link.refcount o - zlen (Link.resources o) - occurs l held) ->
  (forall l', l' <> l -> occurs l' held' = occurs l' held) -> hoare (inv held) (set_link l f) (fun _ => inv held').
Proof.
  intros Hf Hp Hc Hne g [] g' Hg. unfold set_link, bind, get_link. destruct (links g !! l) as [o |] eqn:Ho; [| done]. intros [= <-].
  pose proof (inv_links _ _ Hg _ _ Ho) as (Ho1 & _ & _ & Ho2). destruct (Hf o Ho1) as [Hok Hs]. eapply inv_count; eauto.
Qed.

(** Without a link that only the running function refers to. *)
Lemma inv_without held (g : graph S) l :
  inv (l :: held) g -> refs held l g = 0 -> inv held (with_links (delete l (links g)) g).
Proof.
  intros [H1 H2 H3 H4 H5 H6] Hr.
  assert (forall l', l' <> l -> refs held l' (with_links (delete l (links g)) g) = refs (l :: held) l' g) as Hne.
  { intros l' Hl'. unfold refs. by rewrite occurs_cons_ne. }
  split; [exact H1 | exact H2 | | | | exact H6].
  - intros l' o Ho. simpl in Ho. apply lookup_delete_Some in Ho as [Hl' Ho]. unfold told_link. rewrite Hne by done. by apply H3.
  - intros l' Hl'. destruct (decide (l' = l)) as [-> | Hl2]; [exact Hr |]. simpl in Hl'. rewrite lookup_delete_ne in Hl' by done.
    rewrite Hne by done. by apply H4.
  - intros a Ha. destruct (H5 a Ha) as (Ha1 & Ha2 & Ha3). split_and!; [done | | apply Ha3..]. simpl.
    rewrite lookup_delete_None; by right.
Qed.
End Logic.

Abbreviation keeps held := (preserves (inv held)).
Abbreviation gives held := (yields (inv held)).
