(* ===== verification/GraphTheory.v ===== *)
(** The media graph keeps its invariant: the states of nodes, ports and links, what
    listeners are told of them, and the references to links. *)
From stdpp Require Import gmap.
From S2P Require Import Prelude State Defs SpaList WorkQueue Mem Pod PodUtils Buffers Graph Negotiate Topology LinkLife GraphLogic.

Create HintDb keeps.

(** Side conditions: what a change in place leaves alone. *)
Ltac unchanged :=
  try exact I;
  repeat match goal with
  | |- forall _, _ => intros ?
  | |- context [decide ?P] => destruct (decide P)
  | d : PinosDirection |- context [with_node_ports ?d] => is_var d; destruct d
  | d : PinosDirection |- context [with_node_port_map ?d] => is_var d; destruct d
  | d : PinosDirection |- context [with_n_ports ?d] => is_var d; destruct d
  | |- context [if ?b then _ else _] => destruct b
  | |- context [match ?b with Some _ => _ | None => _ end] => destruct b
  end;
  first [ assumption
        | match goal with |- port_ok _ => unfold port_ok, valid_port_state; simpl; split; done end
        | repeat match goal with |- _ /\ _ => split end; first [assumption | reflexivity] ].

Ltac keeps_step :=
  lazymatch goal with
  | |- keeps _ (bind (get_port _) _) => eapply yields_bind; [apply gives_get_port | intros ? ?]
  | |- keeps _ (bind (get_node _) _) => eapply yields_bind; [apply gives_get_node | intros ? ?]
  | |- keeps _ (bind (get_link _) _) => eapply yields_bind; [apply gives_get_link | intros ? ?]
  | |- keeps _ (bind _ _) => apply preserves_bind; [| intros ?]
  | |- keeps _ (ret _) => apply preserves_ret
  | |- keeps _ undef => apply preserves_undef
  | |- keeps _ (lift _) => apply preserves_lift
  | |- keeps _ (element _) => apply keeps_element
  | |- keeps _ (system _) => apply keeps_system
  | |- keeps _ (list_remove _ _) => apply keeps_list_remove
  | |- keeps _ (when _ _) => apply preserves_when; intros ?
  | |- keeps _ (each _ _) => apply preserves_each; intros ? _
  | |- keeps _ (set_port _ _) => apply keeps_set_port; solve [unchanged]
  | |- keeps _ (put_port _ _) => apply keeps_put_port; solve [unchanged]
  | |- keeps _ (set_node _ _) => apply keeps_set_node; solve [unchanged]
  | |- keeps _ (set_link _ _) => apply keeps_set_link; solve [unchanged]
  | |- keeps _ (emit _) => apply keeps_emit; exact I
  | |- keeps _ (invoke_main _) => apply keeps_invoke_main; exact I
  | |- keeps _ (invoke_data _) => apply keeps_invoke_data; exact I
  | |- keeps _ (let _ := _ in _) => cbv zeta
  | |- keeps _ (if ?b then _ else _) => destruct b eqn:?
  | |- keeps _ (match ?x with _ => _ end) => destruct x eqn:?
  | |- keeps _ _ => solve [auto with keeps]
  end.
Ltac keeps_all := repeat keeps_step.

(** A step that keeps the invariant, in front of one that changes the references. *)
Ltac after_step :=
  lazymatch goal with
  | |- hoare _ (bind (get_port _) _) _ => eapply after_yields; [apply gives_get_port | intros ? ?]
  | |- hoare _ (bind (get_node _) _) _ => eapply after_yields; [apply gives_get_node | intros ? ?]
  | |- hoare _ (bind (get_link _) _) _ => eapply after_yields; [apply gives_get_link | intros ? ?]
  | |- hoare _ (bind _ _) _ => apply after_preserves; [solve [keeps_all] | intros ?]
  end.

#[export] Hint Resolve keeps_memblock_free keeps_calloc keeps_put_array keeps_get_node_list keeps_get_link_list keeps_set_node_list
  keeps_free_port keeps_free_node : keeps.

Section Theory.
Context {S : Type} `{node_impl : SpaNode S} `{kernel : Kernel} `{heap_impl : Heap} (ty : PinosType).
Local Abbreviation G := (Graph.G S).

(** ** Changes of state *)

Lemma keeps_link_update_state held l state error :
  valid_link_state state -> (is_Some error <-> state = PINOS_LINK_STATE_ERROR) -> keeps held (pinos_link_update_state (S := S) l state error).
Proof.
  intros Hs He g [] g' Hg. unfold pinos_link_update_state, bind, get_link. destruct (links g !! l) as [o |] eqn:Ho; [| done]. cbn [obind].
  destruct (Z.eqb_spec state (Link.state o)) as [_ | Hneq]; [by intros [= <-] |]. cbn [negb]. intros [= <-].
  destruct Hg as [H1 H2 H3 H4 H5 H6]. destruct (H3 _ _ Ho) as (Hok & Hv & Hc). split; [| exact H2 | | | |].
  - intros n x Hx. unfold told_node. simpl. rewrite node_view_snoc. by apply H1.
  - intros l' x. unfold told_link. simpl. rewrite link_view_snoc. destruct (decide (l' = l)) as [-> | Hne].
    + rewrite lookup_insert_eq, Z.eqb_refl. intros [= <-]. split_and!; [| done | apply Hc..]. split_and!; [done | exact He | apply Hok].
    + rewrite lookup_insert_ne, (proj2 (Z.eqb_neq l l')) by done. apply H3.
  - intros l' Hl'. simpl in Hl'. apply lookup_insert_None in Hl' as [Hl' _]. by apply H4.
  - intros a Ha. destruct (H5 a Ha) as (Ha1 & Ha2 & Ha3 & Ha4). assert (l <> a) by congruence. unfold unused. simpl.
    rewrite node_view_snoc, link_view_snoc, (proj2 (Z.eqb_neq l a)), lookup_insert_ne by done. done.
  - simpl. apply told_snoc; [done |]. simpl. by split.
Qed.

Lemma keeps_node_update_state held n state error :
  valid_node_state state -> (is_Some error -> state = PINOS_NODE_STATE_ERROR) -> keeps held (pinos_node_update_state (S := S) n state error).
Proof.
  intros Hs He g [] g' Hg. unfold pinos_node_update_state, bind, get_node. destruct (nodes g !! n) as [o |] eqn:Ho; [| done]. cbn [obind].
  destruct (Z.eqb_spec (Node.state o) state) as [_ | Hneq]; [by intros [= <-] |]. cbn [negb]. intros [= <-].
  destruct Hg as [H1 H2 H3 H4 H5 H6]. destruct (H1 _ _ Ho) as (Hok & Hv). split; [| exact H2 | | exact H4 | |].
  - intros n' x. unfold told_node. simpl. rewrite node_view_snoc. destruct (decide (n' = n)) as [-> | Hne].
    + rewrite lookup_insert_eq, Z.eqb_refl. intros [= <-]. split; [| done]. split_and!; [done | exact He | apply Hok].
    + rewrite lookup_insert_ne, (proj2 (Z.eqb_neq n n')) by done. apply H1.
  - intros l x Hx. unfold told_link. simpl. rewrite link_view_snoc. by apply H3.
  - intros a Ha. destruct (H5 a Ha) as (Ha1 & Ha2 & Ha3 & Ha4). assert (n <> a) by congruence. unfold unused. simpl.
    rewrite node_view_snoc, link_view_snoc, (proj2 (Z.eqb_neq n a)), lookup_insert_ne by done. done.
  - simpl. apply told_snoc; [done |]. simpl. by split.
Qed.

(** The states the code writes. *)
Lemma keeps_link_to held l state error :
  match error with Some _ => state = PINOS_LINK_STATE_ERROR | None => valid_link_state state /\ state <> PINOS_LINK_STATE_ERROR end ->
  keeps held (pinos_link_update_state (S := S) l state error).
Proof.
  intros Hs. destruct error; [subst | destruct Hs]; apply keeps_link_update_state; done.
Qed.
Lemma keeps_node_to held n state error :
  match error with Some _ => state = PINOS_NODE_STATE_ERROR | None => valid_node_state state end ->
  keeps held (pinos_node_update_state (S := S) n state error).
Proof.
  intros Hs. destruct error; [subst |]; apply keeps_node_update_state; done.
Qed.

(** ** Work *)

Lemma queue_ok_add obj res func data q : item_ok (mkItem 0 obj 0 res (Some func) data) -> queue_ok q ->
  queue_ok (Spec.add (S := unit) obj res (Some func) data q).2.
Proof.
  intros Hi Hq. unfold queue_ok, Spec.add. destruct (defer res) as [seq have]. simpl. apply Forall_app. split; [exact Hq |].
  apply Forall_cons; split; [exact Hi | by apply Forall_nil].
Qed.

Lemma keeps_link_work held l obj res func data : func <> on_state_complete -> keeps held (link_work (S := S) l obj res func data).
Proof.
  intros Hf. apply keeps_set_link. intros o (H1 & H2 & H3). split; [split; [exact H1 | split; [exact H2 |]] | by repeat split].
  simpl. apply queue_ok_add; [| done]. intros [= ->]. done.
Qed.
Lemma keeps_node_work held n obj res func data :
  (func = on_state_complete -> valid_node_state data) -> keeps held (node_work (S := S) n obj res func data).
Proof.
  intros Hf. apply keeps_set_node. intros o (H1 & H2 & H3). split; [split; [exact H1 | split; [exact H2 |]] | by repeat split].
  simpl. apply queue_ok_add; [| done]. intros [= ->]. by apply Hf.
Qed.
End Theory.

Ltac to_state := simpl; first [done | split; done].
#[export] Hint Extern 1 (keeps _ (pinos_link_update_state _ _ _)) => apply keeps_link_to; solve [to_state] : keeps.
#[export] Hint Extern 1 (keeps _ (pinos_node_update_state _ _ _)) => apply keeps_node_to; solve [to_state] : keeps.
#[export] Hint Extern 1 (keeps _ (link_work _ _ _ _ _)) => apply keeps_link_work; discriminate : keeps.
#[export] Hint Extern 1 (keeps _ (node_work _ _ _ _ _)) => apply keeps_node_work; solve [done] : keeps.

#[export] Hint Extern 1 (valid_node_state _) => done : keeps.
#[export] Hint Extern 1 (valid_port_state _) => done : keeps.

Section Negotiation.
Context {S : Type} `{node_impl : SpaNode S} `{kernel : Kernel} `{heap_impl : Heap} (ty : PinosType) (held : list Z).
Local Abbreviation G := (Graph.G S).

Lemma keeps_pinos_link_activate l : keeps held (pinos_link_activate (S := S) l).
Proof. unfold pinos_link_activate. keeps_all. Qed.
Lemma keeps_pause_node n : keeps held (pause_node n).
Proof. unfold pause_node. keeps_all. Qed.
Lemma keeps_start_node n : keeps held (start_node n).
Proof. unfold start_node. keeps_all. Qed.
Lemma keeps_suspend_port n d p : keeps held (suspend_port n d p).
Proof. unfold suspend_port. keeps_all.
Qed.
#[local] Hint Resolve keeps_suspend_port : keeps.
Lemma keeps_suspend_ports n d ps : forall res, keeps held (suspend_ports n d ps res).
Proof. induction ps as [|p ps IH]; intros res; simpl; keeps_all. Qed.
#[local] Hint Resolve keeps_suspend_ports : keeps.
Lemma keeps_suspend_node n : keeps held (suspend_node n).
Proof. unfold suspend_node. keeps_all. Qed.
Lemma keeps_send_clock_update n : keeps held (send_clock_update n).
Proof. unfold send_clock_update. keeps_all. Qed.
#[local] Hint Resolve keeps_pinos_link_activate keeps_pause_node keeps_start_node keeps_suspend_node keeps_send_clock_update : keeps.
Lemma keeps_activate_links p : keeps held (activate_links (S := S) p).
Proof. unfold activate_links. keeps_all. Qed.
#[local] Hint Resolve keeps_activate_links : keeps.
Lemma keeps_node_activate n : keeps held (node_activate (S := S) n).
Proof. unfold node_activate. keeps_all. Qed.
#[local] Hint Resolve keeps_node_activate : keeps.
Lemma keeps_pinos_node_set_state n state : valid_node_state state -> keeps held (pinos_node_set_state n state).
Proof. intros Hs. unfold pinos_node_set_state. keeps_all. Qed.
Lemma keeps_on_state_complete_func n data res : valid_node_state data -> keeps held (on_state_complete_func (S := S) n data res).
Proof. intros Hs. unfold on_state_complete_func. keeps_all. Qed.
#[local] Hint Resolve keeps_pinos_node_set_state : keeps.

(** A search that finds nothing says why. *)
Definition answered (r : option bytes * option message) : Prop := is_Some r.1 \/ is_Some r.2.

Lemma gives_enum_formats fuel output input onode inode oport iport : forall filter format iidx oidx,
  gives held (enum_formats fuel output input onode inode oport iport filter format iidx oidx) answered.
Proof.
  induction fuel as [|fuel IH]; intros filter format iidx oidx; [apply yields_undef |]. cbn [enum_formats].
  apply yields_after; [apply keeps_element | intros [res out]]. cbv zeta.
  case_match; [apply yields_ret; right; eauto |].
  apply yields_after; [apply keeps_element | intros [res' out']]. cbv zeta.
  case_match; [case_match; [apply IH | apply yields_ret; right; eauto] |].
  repeat (case_match; try apply yields_undef).
  all: apply yields_after; [apply preserves_lift | intros ?]; apply yields_ret; left; eauto.
Qed.

Lemma gives_given_format n d p msg : gives held (given_format n d p msg) answered.
Proof.
  unfold given_format. apply yields_after; [apply keeps_element | intros [res out]].
  repeat (case_match; try apply yields_undef); apply yields_ret; (left + right); simpl; eauto; fail.
Qed.

Lemma gives_pinos_core_find_format fuel output input : gives held (pinos_core_find_format fuel output input) answered.
Proof.
  unfold pinos_core_find_format.
  do 2 (apply yields_after; [eapply yields_preserves, gives_get_port | intros ?]).
  do 2 (apply yields_after; [eapply yields_preserves, gives_get_node | intros ?]). cbv zeta.
  do 5 (case_match; try apply gives_given_format; try apply gives_enum_formats; try (apply yields_ret; right; simpl; eauto)).
Qed.

Lemma keeps_reconfigure p state : keeps held (reconfigure p state).
Proof. unfold reconfigure. keeps_all. Qed.
Lemma keeps_set_format l p state d format : keeps held (set_format l p state d format).
Proof. unfold set_format. keeps_all. Qed.
#[local] Hint Resolve keeps_reconfigure keeps_set_format : keeps.

Lemma keeps_do_negotiate fuel l in_state out_state : keeps held (do_negotiate fuel l in_state out_state).
Proof.
  unfold do_negotiate, output_of, input_of. case_match; [apply preserves_ret |].
  apply preserves_bind; [apply keeps_link_to; done | intros _].
  eapply yields_bind; [apply gives_get_link | intros this _].
  apply preserves_bind; [keeps_all | intros output]. apply preserves_bind; [keeps_all | intros input].
  eapply yields_bind; [apply gives_pinos_core_find_format |]. intros [[format |] error] Ha.
  - keeps_all.
  - destruct Ha as [[? [=]] | [msg Hm]]. simpl in Hm. subst error. keeps_all.
Qed.

Lemma keeps_link_alloc_buffers l n minsize stride params : keeps held (link_alloc_buffers (S := S) ty l n minsize stride params).
Proof. unfold link_alloc_buffers. keeps_all. Qed.
Lemma keeps_port_buffers l p allocated : keeps held (port_buffers (S := S) l p allocated).
Proof. unfold port_buffers. keeps_all. Qed.
#[local] Hint Resolve keeps_link_alloc_buffers keeps_port_buffers : keeps.
Lemma keeps_side_allocates l p d params : keeps held (side_allocates l p d params).
Proof. unfold side_allocates. keeps_all. Qed.
Lemma keeps_side_uses l p d : keeps held (side_uses l p d).
Proof. unfold side_uses. keeps_all. Qed.
Lemma keeps_allocation_error l output input error : keeps held (allocation_error (S := S) l output input error).
Proof. unfold allocation_error. keeps_all. Qed.
Lemma keeps_choose_buffers l output input in_flags out_flags iparams oparams :
  keeps held (choose_buffers (S := S) ty l output input in_flags out_flags iparams oparams).
Proof. unfold choose_buffers. keeps_all. Qed.
#[local] Hint Resolve keeps_side_allocates keeps_side_uses keeps_allocation_error keeps_choose_buffers : keeps.
Lemma keeps_share_buffers l output input in_flags out_flags res0 fresh_buffers iparams oparams :
  keeps held (share_buffers l output input in_flags out_flags res0 fresh_buffers iparams oparams).
Proof. unfold share_buffers. keeps_all. Qed.
#[local] Hint Resolve keeps_share_buffers : keeps.
Lemma keeps_do_allocation l in_state out_state : keeps held (do_allocation ty l in_state out_state).
Proof. unfold do_allocation, output_of, input_of. keeps_all. Qed.
Lemma keeps_start_side l p : keeps held (start_side l p).
Proof. unfold start_side. keeps_all. Qed.
#[local] Hint Resolve keeps_start_side keeps_do_allocation keeps_do_negotiate : keeps.

(** With both ports streaming already, a link would be [RUNNING]; [check_states] does not come here. *)
Lemma keeps_do_start l in_state out_state :
  (in_state =? PINOS_PORT_STATE_STREAMING) && (out_state =? PINOS_PORT_STATE_STREAMING) = false ->
  keeps held (do_start l in_state out_state).
Proof. intros Hne. unfold do_start, output_of, input_of. rewrite Hne. keeps_all. Qed.
#[local] Hint Resolve keeps_do_start : keeps.

Lemma keeps_check_states_func fuel l : keeps held (check_states_func ty fuel l).
Proof. unfold check_states_func, check_phases. keeps_all. Qed.

Lemma keeps_complete state p res : valid_port_state state -> keeps held (complete (S := S) state p res).
Proof. intros Hs. unfold complete. keeps_all. Qed.
End Negotiation.

#[export] Hint Resolve keeps_pinos_link_activate keeps_pause_node keeps_start_node keeps_suspend_node keeps_send_clock_update
  keeps_pinos_node_set_state keeps_on_state_complete_func keeps_check_states_func keeps_complete : keeps.

(** ** References *)

Section References.
Context {S : Type} `{node_impl : SpaNode S} `{kernel : Kernel} `{heap_impl : Heap} (ty : PinosType).
Local Abbreviation G := (Graph.G S).

Lemma hold_link_ref held l : hoare (inv held) (link_ref (S := S) l) (fun _ => inv (l :: held)).
Proof.
  apply count_link; [done | simpl; lia | | intros l' Hl'; by apply occurs_cons_ne].
  intros o. rewrite occurs_cons_eq. simpl. lia.
Qed.
Lemma hold_resource held l r :
  hoare (inv (l :: held)) (set_link (S := S) l (fun o => Link.with_resources (Link.resources o ++ [r]) o)) (fun _ => inv held).
Proof.
  apply count_link; [done | done | | intros l' Hl'; by rewrite occurs_cons_ne].
  intros o. rewrite occurs_cons_eq. simpl. rewrite zlen_app. change (zlen [r]) with 1. lia.
Qed.
Lemma give_resource held l r :
  hoare (inv held) (link <- get_link l ;; rs <- list_remove r (Link.resources link) ;; set_link (S := S) l (Link.with_resources rs))
    (fun _ => inv (l :: held)).
Proof.
  intros g [] g' Hg. unfold bind, set_link, get_link, bind, get_link, list_remove, lift. destruct (links g !! l) as [o |] eqn:Ho; [| done].
  cbn [obind]. destruct (unlink r (Link.resources o)) as [rs | |] eqn:Hu; [| done..]. cbn [obind]. rewrite Ho. intros [= <-].
  eapply inv_count; [exact Hg | done | apply (inv_links _ _ Hg _ _ Ho) | done | | apply (inv_links _ _ Hg _ _ Ho) | intros l' Hl'; by apply occurs_cons_ne].
  rewrite occurs_cons_eq. simpl. rewrite (unlink_length _ _ _ Hu). lia.
Qed.

(** Freeing a link: the graph without it is fine. *)
Lemma unreferenced_link_free held l :
  hoare (fun g => inv held (with_links (delete l (links g)) g)) (pinos_link_free (S := S) l) (fun _ => inv held).
Proof.
  unfold pinos_link_free. set (P := fun g : graph S => inv held (with_links (delete l (links g)) g)). eapply hoare_bind with (Q := fun _ => P).
  { intros g [] g' Hg [= <-]. unfold P in *. eapply inv_emit; [exact Hg | | reflexivity]. exact I. }
  intros _. eapply hoare_bind with (Q := fun _ => P).
  { intros g o g' Hg. unfold get_link. case_match; [| done]. by intros [= <- <-]. }
  intros link. eapply hoare_bind with (Q := fun _ => P).
  { intros g [] g' Hg. case_match; [| by intros [= <-]]. unfold bind, memblock_free.
    destruct (pinos_memblock_free _ (proc g)) as [[m p] | |]; [| done..]. intros [= <-]. by eapply inv_same. }
  intros _ g [] g' Hg [= <-]. exact Hg.
Qed.

Lemma give_link_unref held l : hoare (inv (l :: held)) (link_unref (S := S) l) (fun _ => inv held).
Proof.
  unfold link_unref. intros g [] g' Hg. unfold bind at 1, get_link. destruct (links g !! l) as [o |] eqn:Ho; [| done]. cbn [obind].
  unfold bind, set_link, bind, get_link. rewrite Ho. cbn [obind]. unfold put_link at 1. cbn [obind].
  destruct (inv_links _ _ Hg _ _ Ho) as (Hok & Hv & Hc & Hp).
  assert (refs (l :: held) l g = refs held l g + 1) as Hrefs by (unfold refs; rewrite occurs_cons_eq; lia).
  destruct (Z.eqb_spec (Link.refcount o - 1) 0) as [Hz | Hnz]; simpl.
  - apply unreferenced_link_free. unfold with_links. simpl. rewrite delete_insert_eq. apply inv_without; [exact Hg |].
    pose proof (refs_nonneg held l g). pose proof (zlen_nonneg (Link.resources o)). lia.
  - intros [= <-]. eapply inv_count; [exact Hg | exact Ho | exact Hok | done | | simpl; lia | intros l' Hl'; by rewrite occurs_cons_ne].
    rewrite occurs_cons_eq. simpl. lia.
Qed.

Lemma keeps_link_bind_func held l r : keeps held (link_bind_func (S := S) l r).
Proof. unfold link_bind_func. eapply hoare_bind; [apply hold_link_ref | intros []]. apply hold_resource. Qed.
Lemma keeps_link_unbind_func held l r : keeps held (link_unbind_func (S := S) l r).
Proof.
  intros g [] g' Hg Hrun. eapply (hoare_bind (inv held) _ (fun _ => inv (l :: held)) (fun _ => link_unref l) (fun _ => inv held)
    (give_resource held l r) (fun _ => give_link_unref held l)); [exact Hg |].
  revert Hrun. unfold link_unbind_func, bind. destruct (get_link l g) as [[o g1] | |]; [| done..]. cbn [obind].
  destruct (list_remove r (Link.resources o) g1) as [[rs g2] | |]; [| done..]. done.
Qed.

(** ** New objects *)

Lemma new_link held A (o : Link.t) (k : Z -> G A) Q :
  link_ok o -> Link.state o = PINOS_LINK_STATE_INIT -> Link.refcount o = 1 -> Link.resources o = [] ->
  (forall l, hoare (inv (l :: held)) (k l) Q) ->
  hoare (inv held) (l <- calloc ;; put_link l o ;;; k l) Q.
Proof.
  intros Hok Hs Hc Hrs Hk g a g' Hg. unfold bind at 1, calloc. cbn [obind]. unfold bind, put_link. cbn [obind]. apply (Hk (next_addr g)). clear Hk.
  destruct Hg as [H1 H2 H3 H4 H5 H6]. destruct (H5 (next_addr g)) as (Hn & Hl & Hvn & Hvl); [lia |].
  split; [exact H1 | exact H2 | | | | exact H6].
  - intros l x. simpl. destruct (decide (l = next_addr g)) as [-> | Hne].
    + rewrite lookup_insert_eq. intros [= <-]. split_and!; [exact Hok | by rewrite Hs | | by rewrite Hc].
      specialize (H4 _ Hl). unfold refs in *. simpl link_list. simpl main_loop. simpl data_loop. rewrite occurs_cons_eq, Hc, Hrs. change (zlen []) with 0. lia.
    + rewrite lookup_insert_ne by done. intros Hx. destruct (H3 _ _ Hx) as (Hx1 & Hx2 & Hx3 & Hx4). split_and!; [exact Hx1 | exact Hx2 | | exact Hx4].
      unfold refs in *. simpl link_list. simpl main_loop. simpl data_loop. by rewrite occurs_cons_ne.
  - intros l Hx. simpl in Hx. apply lookup_insert_None in Hx as [Hx Hne]. unfold refs in *. simpl link_list. simpl main_loop. simpl data_loop.
    rewrite occurs_cons_ne by done. by apply H4.
  - intros a' Ha'. simpl in Ha'. destruct (H5 a') as (Ha1 & Ha2 & Ha3); [lia |]. split_and!; [exact Ha1 | | apply Ha3..]. simpl.
    rewrite lookup_insert_ne; [done | lia].
Qed.

Lemma new_node held A (o : Node.t) (k : Z -> G A) :
  node_ok o -> Node.state o = PINOS_NODE_STATE_CREATING -> (forall n, keeps held (k n)) ->
  forall b, keeps held (n <- calloc ;; if b : bool then ret None else put_node n o ;;; k n ;;; ret (Some n)).
Proof.
  intros Hok Hs Hk b g a g' Hg. destruct b.
  { revert g a g' Hg. change (keeps held (calloc (S := S) ;;; ret (A := option Z) None)). apply preserves_bind; [apply keeps_calloc | intros _; apply preserves_ret]. }
  unfold bind at 1, calloc. cbn [obind]. unfold bind at 1, put_node. cbn [obind].
  apply (preserves_bind (inv held) (k (next_addr g)) (fun _ => ret (Some (next_addr g)))); [apply Hk | intros ?; apply preserves_ret |].
  destruct Hg as [H1 H2 H3 H4 H5 H6]. destruct (H5 (next_addr g)) as (Hn & Hl & Hvn & Hvl); [lia |].
  split; [| exact H2 | exact H3 | exact H4 | | exact H6].
  - apply map_Forall_insert_2; [| exact H1]. split; [exact Hok |]. by rewrite Hs.
  - intros a' Ha'. simpl in Ha'. destruct (H5 a') as (Ha1 & Ha2); [lia |]. split; [| exact Ha2]. simpl.
    rewrite lookup_insert_ne; [done | lia].
Qed.

Lemma no_queue_ok : queue_ok no_queue.
Proof. by apply Forall_nil. Qed.

Lemma keeps_pinos_link_new held output input : keeps held (pinos_link_new (S := S) output input).
Proof.
  apply new_link; [| done..|].
  - split; [done | split; [by split; [intros [? [=]] |] | exact no_queue_ok]].
  - intros l. do 6 after_step. apply hoare_assoc. eapply hoare_bind; [apply list_link | intros []]. apply preserves_ret.
Qed.
End References.

Lemma unlist_then {S A} held l (k : Graph.G S A) Q : hoare (inv (l :: held)) k Q ->
  hoare (inv held) (ls <- get_link_list ;; ls <- list_remove l ls ;; set_link_list ls ;;; k) Q.
Proof.
  intros Hk g a g' Hg. pose proof (unlist_link held l g) as Hu. revert Hu.
  unfold bind, get_link_list, list_remove, lift. cbn [obind]. destruct (unlink l (link_list g)) as [ls | |]; [| done..]. cbn [obind].
  intros Hu. apply Hk. by eapply Hu.
Qed.

#[export] Hint Resolve keeps_link_bind_func keeps_link_unbind_func keeps_pinos_link_new : keeps.

(** ** Ports, links, nodes *)

Section Operations.
Context {S : Type} `{node_impl : SpaNode S} `{kernel : Kernel} `{heap_impl : Heap} (ty : PinosType) (held : list Z).
Local Abbreviation G := (Graph.G S).

Lemma keeps_pinos_port_new n d id : keeps held (pinos_port_new (S := S) n d id).
Proof. unfold pinos_port_new. keeps_all. Qed.
Lemma keeps_pinos_port_pause_rt p : keeps held (pinos_port_pause_rt p).
Proof. unfold pinos_port_pause_rt. keeps_all. Qed.
Lemma keeps_clear_buffers p : keeps held (clear_buffers p).
Proof. unfold clear_buffers. keeps_all. Qed.
Lemma keeps_next_seq p : keeps held (next_seq (S := S) p).
Proof. unfold next_seq. keeps_all. Qed.
#[local] Hint Resolve keeps_pinos_port_new keeps_pinos_port_pause_rt keeps_clear_buffers keeps_next_seq : keeps.
Lemma keeps_pinos_port_clear_buffers p : keeps held (pinos_port_clear_buffers (S := S) p).
Proof. unfold pinos_port_clear_buffers. keeps_all. Qed.
Lemma keeps_pinos_port_unlink p l : keeps held (pinos_port_unlink (S := S) p l).
Proof. unfold pinos_port_unlink. keeps_all. Qed.
Lemma keeps_do_clear_buffers_func p seq : keeps held (do_clear_buffers_func p seq).
Proof. unfold do_clear_buffers_func. keeps_all. Qed.
Lemma keeps_do_clear_buffers_done_func p : keeps held (do_clear_buffers_done_func p).
Proof. unfold do_clear_buffers_done_func. keeps_all. Qed.
Lemma keeps_do_add_link_func p l : keeps held (do_add_link_func (S := S) p l).
Proof. unfold do_add_link_func. keeps_all. Qed.
Lemma keeps_rt_remove_input l : keeps held (rt_remove_input l).
Proof. unfold rt_remove_input. keeps_all. Qed.
Lemma keeps_rt_remove_output l : keeps held (rt_remove_output l).
Proof. unfold rt_remove_output. keeps_all. Qed.
#[local] Hint Resolve keeps_rt_remove_input keeps_rt_remove_output keeps_pinos_port_clear_buffers : keeps.
Lemma keeps_do_remove_link_func p l seq : keeps held (do_remove_link_func p l seq).
Proof. unfold do_remove_link_func. keeps_all. Qed.
Lemma keeps_leave_output l p : keeps held (leave_output (S := S) l p).
Proof. unfold leave_output. keeps_all. Qed.
Lemma keeps_leave_input l p : keeps held (leave_input (S := S) l p).
Proof. unfold leave_input. keeps_all. Qed.
#[local] Hint Resolve keeps_leave_output keeps_leave_input : keeps.
Lemma keeps_do_remove_link_done_func p l : keeps held (do_remove_link_done_func p l).
Proof. unfold do_remove_link_done_func. keeps_all. Qed.

Lemma keeps_find_link_in ls input : keeps held (find_link_in (S := S) ls input).
Proof. induction ls as [|l ls IH]; simpl; keeps_all. Qed.
#[local] Hint Resolve keeps_find_link_in : keeps.
Lemma keeps_find_link output input : keeps held (find_link (S := S) output input).
Proof. unfold find_link. keeps_all. Qed.
#[local] Hint Resolve keeps_find_link : keeps.
Lemma keeps_pinos_port_link output input : keeps held (pinos_port_link (S := S) output input).
Proof. unfold pinos_port_link. keeps_all. Qed.

Lemma keeps_clear_port_buffers l p : keeps held (clear_port_buffers l p).
Proof. unfold clear_port_buffers. keeps_all. Qed.
Lemma keeps_idle_when_unused n : keeps held (idle_when_unused (S := S) n).
Proof. unfold idle_when_unused. keeps_all. Qed.
#[local] Hint Resolve keeps_clear_port_buffers keeps_idle_when_unused : keeps.
Lemma keeps_stop_listening l p : keeps held (stop_listening (S := S) l p).
Proof. unfold stop_listening. keeps_all. Qed.
#[local] Hint Resolve keeps_stop_listening : keeps.
Lemma keeps_destroy_side l side seq : keeps held (destroy_side (S := S) l side seq).
Proof.
  unfold destroy_side. case_match; [| apply preserves_ret]. unfold keeps. after_step.
  eapply hoare_bind; [apply hold_link_ref | intros []]. by apply invoke_data_removal, Z.eqb_refl.
Qed.
End Operations.

#[export] Hint Resolve keeps_pinos_port_new keeps_pinos_port_pause_rt keeps_clear_buffers keeps_next_seq keeps_rt_remove_input keeps_rt_remove_output
  keeps_pinos_port_clear_buffers keeps_leave_output keeps_leave_input keeps_find_link_in keeps_find_link keeps_clear_port_buffers
  keeps_idle_when_unused keeps_stop_listening keeps_destroy_side keeps_pinos_port_unlink keeps_do_clear_buffers_func keeps_do_clear_buffers_done_func
  keeps_do_add_link_func keeps_do_remove_link_func keeps_do_remove_link_done_func keeps_pinos_port_link : keeps.

Section Removal.
Context {S : Type} `{node_impl : SpaNode S} `{kernel : Kernel} `{heap_impl : Heap} (ty : PinosType) (held : list Z).
Local Abbreviation G := (Graph.G S).

(** The reference of the list goes to the running function, which gives it back at the end. *)
Lemma keeps_pinos_link_destroy l : keeps held (pinos_link_destroy (S := S) l).
Proof.
  unfold pinos_link_destroy, keeps. after_step. apply unlist_then. do 6 after_step. apply give_link_unref.
Qed.
#[local] Hint Resolve keeps_pinos_link_destroy : keeps.

Lemma keeps_on_port_destroy l p : keeps held (on_port_destroy (S := S) l p).
Proof. unfold on_port_destroy. keeps_all. Qed.
#[local] Hint Resolve keeps_on_port_destroy : keeps.
Lemma keeps_pinos_port_destroy p : keeps held (pinos_port_destroy (S := S) p).
Proof. unfold pinos_port_destroy. keeps_all. Qed.
#[local] Hint Resolve keeps_pinos_port_destroy : keeps.

Lemma gives_link_done l : hoare (inv (l :: held)) (do_link_remove_done_func l) (fun _ => inv held).
Proof.
  unfold do_link_remove_done_func. after_step. apply after_preserves; [| intros _].
  { case_match; keeps_all. }
  after_step.
  apply after_preserves; [case_match; keeps_all | intros _]. apply give_link_unref.
Qed.
Lemma gives_link_remove l seq : hoare (inv (l :: held)) (do_link_remove_func l seq) (fun _ => inv held).
Proof.
  unfold do_link_remove_func. do 4 after_step. by apply invoke_main_removal, Z.eqb_refl.
Qed.

Lemma keeps_rt_stop_port d p : keeps held (rt_stop_port d p).
Proof. unfold rt_stop_port. keeps_all. Qed.
#[local] Hint Resolve keeps_rt_stop_port : keeps.
Lemma keeps_do_node_remove_func n seq : keeps held (do_node_remove_func n seq).
Proof. unfold do_node_remove_func. keeps_all. Qed.
Lemma keeps_do_node_remove_done_func n : keeps held (do_node_remove_done_func (S := S) n).
Proof. unfold do_node_remove_done_func. keeps_all. Qed.
Lemma keeps_pinos_node_destroy n : keeps held (pinos_node_destroy (S := S) n).
Proof. unfold pinos_node_destroy. keeps_all. Qed.

Lemma keeps_map_port n d id p : keeps held (map_port (S := S) n d id p).
Proof. unfold map_port. keeps_all. Qed.
#[local] Hint Resolve keeps_map_port : keeps.
Lemma keeps_update_insert fuel : forall n d,
  (forall ids cursor, keeps held (update_ports fuel n d ids cursor)) /\
  (forall id ids cursor, keeps held (insert_port fuel n d id ids cursor)).
Proof.
  induction fuel as [|fuel IH]; intros n d; [split; intros; apply preserves_undef |].
  destruct (IH n d) as [IH1 IH2]. split; intros; cbn [update_ports insert_port]; keeps_all; auto.
Qed.
Lemma keeps_update_ports fuel n d ids cursor : keeps held (update_ports fuel n d ids cursor).
Proof. apply keeps_update_insert. Qed.
#[local] Hint Resolve keeps_update_ports : keeps.
Lemma keeps_update_port_ids n : keeps held (update_port_ids n).
Proof. unfold update_port_ids. keeps_all. Qed.
#[local] Hint Resolve keeps_update_port_ids : keeps.
Lemma keeps_init_complete_func n : keeps held (init_complete_func n).
Proof. unfold init_complete_func. keeps_all. Qed.
#[local] Hint Resolve keeps_init_complete_func : keeps.
Lemma keeps_pinos_node_new async has_info clock : keeps held (pinos_node_new async has_info clock).
Proof.
  apply new_node; [split; [done | split; [by intros [? [=]] | exact no_queue_ok]] | done |]. intros n. keeps_all.
Qed.
Lemma keeps_first_unlinked ps : keeps held (first_unlinked (S := S) ps).
Proof. induction ps as [|p ps IH]; simpl; keeps_all. Qed.
#[local] Hint Resolve keeps_first_unlinked : keeps.
Lemma keeps_pinos_node_get_free_port n d : keeps held (pinos_node_get_free_port n d).
Proof. unfold pinos_node_get_free_port. keeps_all. Qed.
End Removal.

#[export] Hint Resolve keeps_pinos_link_destroy keeps_on_port_destroy keeps_pinos_port_destroy keeps_do_node_remove_func
  keeps_do_node_remove_done_func keeps_pinos_node_destroy keeps_init_complete_func keeps_pinos_node_new keeps_pinos_node_get_free_port : keeps.

(** ** The loops and the queues *)

Section Running.
Context {S : Type} `{node_impl : SpaNode S} `{kernel : Kernel} `{heap_impl : Heap} (ty : PinosType).
Local Abbreviation G := (Graph.G S).

Lemma hoare_run_closure held c : hoare (inv (holds c ++ held)) (run_closure c) (fun _ => inv held).
Proof.
  destruct c; simpl; first [apply gives_link_remove | apply gives_link_done
    | match goal with |- hoare _ ?m _ => change (keeps held m) end; auto with keeps].
Qed.

Lemma keeps_main_turn held : keeps held (main_turn (S := S)).
Proof.
  intros g a g' Hg. unfold main_turn. destruct (main_loop g) as [|c q] eqn:Hq; [by intros [= <- <-] |]. apply hoare_run_closure.
  eapply inv_moved; [exact Hg | reflexivity.. |]. intros l. unfold refs. simpl. rewrite Hq, occurs_app, occurs_holds. simpl. lia.
Qed.
Lemma keeps_data_turn held : keeps held (data_turn (S := S)).
Proof.
  intros g a g' Hg. unfold data_turn. destruct (data_loop g) as [|c q] eqn:Hq; [by intros [= <- <-] |]. apply hoare_run_closure.
  eapply inv_moved; [exact Hg | reflexivity.. |]. intros l. unfold refs. simpl. rewrite Hq, occurs_app, occurs_holds. simpl. lia.
Qed.

Lemma keeps_run_work held fuel item : item_ok item -> keeps held (run_work ty fuel item).
Proof. intros Hi. unfold run_work, item_ok in *. repeat case_match; keeps_all. Qed.

Lemma queue_ok_update test (change : WorkItem work_func -> WorkItem work_func) q :
  (forall i, func (change i) = func i /\ WorkQueue.data (change i) = WorkQueue.data i) -> queue_ok q ->
  queue_ok (Spec.update (S := unit) test change q).2.
Proof.
  intros Hc Hq. unfold queue_ok. simpl. apply Forall_map. eapply Forall_impl; [exact Hq |]. intros i Hi. unfold item_ok in *. simpl.
  destruct (test i); [| done]. destruct (Hc i) as [-> ->]. exact Hi.
Qed.

Section Pass.
Context (held : list Z) (get : G (Spec.queue unit work_func)) (set : (Spec.queue unit work_func -> Spec.queue unit work_func) -> G unit).
Context (get_ok : gives held get queue_ok) (set_ok : forall f, (forall q, queue_ok q -> queue_ok (f q)) -> keeps held (set f)).

Lemma keeps_queue_pass turns fuel : forall k, keeps held (queue_pass ty get set turns fuel k).
Proof.
  induction turns as [|turns IH]; intros k; cbn [queue_pass]; (eapply yields_bind; [exact get_ok | intros q Hq]); case_match.
  - apply preserves_undef.
  - apply preserves_ret.
  - case_match; [apply IH |]. apply preserves_bind; [| intros _].
    + apply set_ok. intros q' Hq'. unfold queue_ok. simpl. by apply Forall_delete.
    + apply preserves_bind; [apply keeps_run_work; by eapply Forall_lookup_1 | intros _]. case_match; [apply preserves_ret | apply IH].
  - apply preserves_ret.
Qed.
Lemma keeps_queue_wakeup turns fuel : keeps held (queue_wakeup ty get set turns fuel).
Proof.
  unfold queue_wakeup. eapply yields_bind; [exact get_ok | intros q Hq]. case_match; [| apply preserves_ret].
  apply preserves_bind; [by apply set_ok | intros _]. apply keeps_queue_pass.
Qed.
End Pass.

Lemma keeps_set_link_queue held l f : (forall q, queue_ok q -> queue_ok (f q)) -> keeps held (set_link_queue (S := S) l f).
Proof. intros Hf. apply keeps_set_link. intros o (H1 & H2 & H3). split; [split; [exact H1 | split; [exact H2 | by apply Hf]] | by repeat split]. Qed.
Lemma keeps_set_node_queue held n f : (forall q, queue_ok q -> queue_ok (f q)) -> keeps held (set_node_queue (S := S) n f).
Proof. intros Hf. apply keeps_set_node. intros o (H1 & H2 & H3). split; [split; [exact H1 | split; [exact H2 | by apply Hf]] | done]. Qed.

Lemma keeps_link_wakeup held l turns fuel : keeps held (link_wakeup ty l turns fuel).
Proof.
  apply keeps_queue_wakeup; [| intros f; by apply keeps_set_link_queue].
  eapply after_yields; [apply gives_get_link |]. intros o (_ & _ & Ho). by apply yields_ret.
Qed.
Lemma keeps_node_wakeup held n turns fuel : keeps held (node_wakeup ty n turns fuel).
Proof.
  apply keeps_queue_wakeup; [| intros f; by apply keeps_set_node_queue].
  eapply after_yields; [apply gives_get_node |]. intros o (_ & _ & Ho). by apply yields_ret.
Qed.
Lemma keeps_on_async_complete held n seq res : keeps held (on_async_complete (S := S) n seq res).
Proof.
  unfold on_async_complete. apply preserves_bind; [| intros _].
  { apply (keeps_set_node_queue held n (fun q => (Spec.update (completes n seq) (completed res) q).2)). intros q. by apply queue_ok_update. }
  eapply yields_bind; [apply gives_get_node | intros o _]. apply preserves_each. intros l _. apply keeps_set_link_queue. intros q. by apply queue_ok_update.
Qed.

(** A node is only asked to be in a state there is. *)
Definition legal (r : request) : Prop :=
  match r with
  | node_set_state _ state => valid_node_state state
  | node_update_state _ state error => valid_node_state state /\ (is_Some error -> state = PINOS_NODE_STATE_ERROR)
  | _ => True
  end.

#[local] Hint Resolve keeps_main_turn keeps_data_turn keeps_link_wakeup keeps_node_wakeup keeps_on_async_complete : keeps.
Lemma keeps_perform held r : legal r -> keeps held (perform ty r).
Proof.
  intros Hr. destruct r; simpl in *; keeps_all; auto with keeps. destruct Hr. by apply keeps_node_update_state.
Qed.

Lemma inv_blank p s : inv [] (blank (S := S) p s).
Proof. split; try apply map_Forall_empty; [intros l _; done | intros a _; done |]. intros es1 e es2 Heq. by destruct es1. Qed.

Lemma inv_run rs p s g : Forall legal rs -> run ty rs (blank p s) = Done (tt, g) -> inv [] g.
Proof.
  intros Hrs Hrun. eapply (preserves_each (inv []) rs (perform ty)); [| exact (inv_blank p s) | exact Hrun].
  intros r Hr. apply keeps_perform. rewrite Forall_forall in Hrs. by apply Hrs.
Qed.
End Running.

(** C9: Whatever the server does with its media graph, in whatever order its two loops
    and its work queues run: every node, port and link is in a state there is, a link
    carries a message exactly while it is in error, a link is never [RUNNING], and the
    changes of state the listeners were told of lead, one after the other, to the
    state each node and each link is in. *)
Theorem graph_states {S} `{node_impl : SpaNode S} `{kernel : Kernel} `{heap_impl : Heap} ty rs p (s : S) g :
  Forall legal rs -> run ty rs (blank p s) = Done (tt, g) ->
  (forall n o, nodes g !! n = Some o -> valid_node_state (Node.state o) /\ node_view n (events g) = Node.state o /\
     (is_Some (Node.error o) -> Node.state o = PINOS_NODE_STATE_ERROR)) /\
  (forall q o, ports g !! q = Some o -> valid_port_state (Port.state o)) /\
  (forall l o, links g !! l = Some o -> valid_link_state (Link.state o) /\ Link.state o <> PINOS_LINK_STATE_RUNNING /\
     link_view l (events g) = Link.state o /\ (is_Some (Link.error o) <-> Link.state o = PINOS_LINK_STATE_ERROR)) /\
  told (events g).
Proof.
  intros Hrs Hrun. destruct (inv_run _ _ _ _ _ Hrs Hrun) as [H1 H2 H3 H4 H5 H6]. split_and!; [| | | exact H6].
  - intros n o Ho. destruct (H1 _ _ Ho) as ((? & ? & _) & ?). done.
  - intros q o Ho. exact (H2 _ _ Ho).
  - intros l o Ho. destruct (H3 _ _ Ho) as ((Hs & He & _) & Hv & _). split; [exact Hs | split; [| split; [exact Hv | exact He]]].
    intros Heq. rewrite Heq in Hs. destruct Hs as [_ Hs]. by apply Hs.
Qed.

(** C10: The count of references of a link is the number of clients that watch it, of
    the list of the core, and of the removals under way. A link without references
    is freed; a removal under way always finds the link it is for. *)
Theorem link_references {S} `{node_impl : SpaNode S} `{kernel : Kernel} `{heap_impl : Heap} ty rs p (s : S) g :
  Forall legal rs -> run ty rs (blank p s) = Done (tt, g) ->
  (forall l o, links g !! l = Some o ->
     0 < Link.refcount o /\
     Link.refcount o = zlen (Link.resources o) + occurs l (link_list g) + pending l (main_loop g) + pending l (data_loop g)) /\
  (forall l c, c ∈ main_loop g ++ data_loop g -> removes l c = true -> is_Some (links g !! l)) /\
  (forall l, l ∈ link_list g -> is_Some (links g !! l)).
Proof.
  intros Hrs Hrun. destruct (inv_run _ _ _ _ _ Hrs Hrun) as [H1 H2 H3 H4 H5 H6]. unfold refs in *. split_and!.
  - intros l o Ho. destruct (H3 _ _ Ho) as (_ & _ & Hc & Hp). unfold refs in Hc. simpl in Hc. lia.
  - intros l c Hc Hrem. destruct (links g !! l) as [o |] eqn:Ho; [by exists o |]. specialize (H4 l Ho). simpl in H4.
    pose proof (pending_in l c _ Hc Hrem) as Hin. rewrite pending_app in Hin. pose proof (occurs_nonneg l (link_list g)). lia.
  - intros l Hl. destruct (links g !! l) as [o |] eqn:Ho; [by exists o |]. specialize (H4 l Ho). simpl in H4.
    pose proof (occurs_in l _ Hl). pose proof (pending_nonneg l (main_loop g)). pose proof (pending_nonneg l (data_loop g)). lia.
Qed.

(** ** A link comes and goes *)

#[local] Existing Instance Sample.elements.
(** Two linked nodes stream, a client watches the link, and one node goes away. *)
Definition whole_story : list request :=
  Sample.story ++ [link_activate 5] ++ replicate 5 (on_link_wakeup 5 13 1) ++
  [on_node_wakeup 1 9 1; link_bind 5 77; node_destroy 1; on_data_loop; on_main_loop].
Definition before_removal : graph unit :=
  match run sample_types whole_story (blank nothing_open tt) with Done (_, g) => g | _ => blank nothing_open tt end.
Definition rest_of_story : list request := [on_data_loop; on_main_loop; on_data_loop; on_main_loop].
Definition at_the_end : graph unit :=
  match run sample_types (whole_story ++ rest_of_story) (blank nothing_open tt) with Done (_, g) => g | _ => blank nothing_open tt end.

Lemma graph_states_witness :
  run sample_types whole_story (blank nothing_open tt) = Done (tt, before_removal) /\
  exists o, links before_removal !! 5 = Some o /\ Link.state o = PINOS_LINK_STATE_UNLINKED /\
    link_view 5 (events before_removal) = PINOS_LINK_STATE_UNLINKED /\ told (events before_removal).
Proof.
  assert (run sample_types whole_story (blank nothing_open tt) = Done (tt, before_removal)) as Hrun by (vm_compute; reflexivity).
  split; [exact Hrun |].
  destruct (graph_states sample_types whole_story nothing_open tt before_removal) as (_ & _ & Hl & Htold);
    [repeat (apply Forall_cons; split; [exact I |]); by apply Forall_nil | exact Hrun |].
  destruct (links before_removal !! 5) as [o |] eqn:Ho; [| vm_compute in Ho; discriminate Ho].
  destruct (Hl 5 o Ho) as (_ & _ & Hv & _). exists o. split; [reflexivity |].
  vm_compute in Ho. injection Ho as <-. split; [reflexivity |]. split; [rewrite Hv; reflexivity | exact Htold].
Defined.

(** The removal under way is what keeps the link; with it done the link is gone. *)
Lemma link_references_witness :
  (exists o, links before_removal !! 5 = Some o /\ Link.refcount o = 1 /\ pending 5 (data_loop before_removal) = 1) /\
  run sample_types (whole_story ++ rest_of_story) (blank nothing_open tt) = Done (tt, at_the_end) /\ links at_the_end !! 5 = None.
Proof.
  assert (run sample_types whole_story (blank nothing_open tt) = Done (tt, before_removal)) as Hrun by (vm_compute; reflexivity).
  destruct (link_references sample_types whole_story nothing_open tt before_removal) as (Hl & _ & _);
    [repeat (apply Forall_cons; split; [exact I |]); by apply Forall_nil | exact Hrun |].
  split; [| split; vm_compute; reflexivity].
  destruct (links before_removal !! 5) as [o |] eqn:Ho; [| vm_compute in Ho; discriminate Ho].
  destruct (Hl 5 o Ho) as [_ Hc]. exists o. split; [reflexivity |].
  assert (pending 5 (data_loop before_removal) = 1) as Hp by (vm_compute; reflexivity). rewrite Hp in Hc.
  vm_compute in Ho. injection Ho as <-. split; [| exact Hp]. rewrite Hc. vm_compute. reflexivity.
Defined.
