(* ===== verification/Properties.v ===== *)
(** [pinos/client/properties.c]: lists of properties with a growing array of pointers
    to strings, and the dictionary ([spa/include/spa/dict.h]) others see of them.

    Strings live in the memory of the process: a property owns its two strings, and
    reading or freeing a string that is gone is undefined. [set_property] is what a
    call of [pinos_properties_set] means on the list of keys and values; the theorems
    say that the pointers implement it, and where the dictionary does not follow. *)
From stdpp Require Import gmap.
From S2P Require Import Prelude State Defs Map Interfaces.
Import Array.

(** ** Strings in memory *)

Record memory := mkMemory { strings : gmap Z bytes; next : Z }.

(** Memory is granted: the code does not check what [strdup] returns. *)
Definition strdup (s : str) : ST memory Z :=
  match s with
  | Some s => fun m => Done (next m, mkMemory (<[next m := s]> (strings m)) (next m + 1))
  | None => undef
  end.
Definition free (p : Z) : ST memory unit :=
  if p =? 0 then ret tt
  else s <- gets (fun m => strings m !! p) ;;
       if s then modify (fun m => mkMemory (delete p (strings m)) (next m)) else undef.
Definition string_at (p : Z) : ST memory bytes :=
  s <- gets (fun m => strings m !! p) ;; lift (of_option s).
(** A pointer that may be [NULL]. *)
Definition str_at (p : Z) : ST memory str :=
  if p =? 0 then ret None else s <- string_at p ;; ret (Some s).

(** ** The object *)

(** [slots] is the memory of the array: key and value pointers. *)
Record PinosPropertiesImpl := mkProperties { items : PinosArray; slots : list (Z * Z); dict_n_items : Z }.

Definition sizeof_item : Z := 16.
Definition len (this : PinosPropertiesImpl) : Z := pinos_array_get_len (items this) sizeof_item.
Definition item_at (this : PinosPropertiesImpl) (i : Z) : ST memory (Z * Z) := lift (of_option (slots this !! Z.to_nat i)).
Definition set_item (this : PinosPropertiesImpl) (i : Z) (item : Z * Z) : PinosPropertiesImpl :=
  mkProperties (items this) (<[Z.to_nat i := item]> (slots this)) (dict_n_items this).

Section Properties.
Context (realloc_ok : Z -> bool).

(** The item is written wherever [pinos_array_add] says, over what was there before. *)
Definition add_func (this : PinosPropertiesImpl) (key value : Z) : ST memory PinosPropertiesImpl :=
  '(p, arr) <- lift (of_option (pinos_array_add realloc_ok (items this) sizeof_item)) ;;
  match p with
  | None => undef
  | Some off =>
      let i := Z.to_nat (off / sizeof_item) in
      ret (mkProperties arr (take i (slots this) ++ (key, value) :: drop (S i) (slots this)) (pinos_array_get_len arr sizeof_item))
  end.

Definition clear_item (item : Z * Z) : ST memory unit := free (fst item) ;;; free (snd item).

(** The loop from item [i] on, with [n] items to go. *)
Fixpoint find_from (this : PinosPropertiesImpl) (key : bytes) (i : Z) (n : nat) : ST memory Z :=
  match n with
  | O => ret (-1)
  | S n =>
      item <- item_at this i ;;
      k <- string_at (fst item) ;;
      if streq k key then ret i else find_from this key (i + 1) n
  end.
Definition find_index (this : PinosPropertiesImpl) (key : bytes) : ST memory Z :=
  find_from this key 0 (Z.to_nat (len this)).

Definition empty_properties : PinosPropertiesImpl := mkProperties (pinos_array_init 16) [] 0.

(** Adding copies of keys and values one after the other. *)
Fixpoint add_all (this : PinosPropertiesImpl) (l : list (bytes * str)) : ST memory PinosPropertiesImpl :=
  match l with
  | [] => ret this
  | (k, v) :: l =>
      key <- strdup (Some k) ;;
      value <- strdup v ;;
      this <- add_func this key value ;;
      add_all this l
  end.

(** The arguments of [pinos_properties_new] up to the [NULL] key. *)
Definition pinos_properties_new (args : list (bytes * str)) : ST memory PinosPropertiesImpl := add_all empty_properties args.
Definition pinos_properties_new_dict (dict : list (bytes * str)) : ST memory PinosPropertiesImpl := add_all empty_properties dict.

Fixpoint copy_items (copy : PinosPropertiesImpl) (l : list (Z * Z)) : ST memory PinosPropertiesImpl :=
  match l with
  | [] => ret copy
  | item :: l =>
      k <- str_at (fst item) ;;
      v <- str_at (snd item) ;;
      key <- strdup k ;;
      value <- strdup v ;;
      copy <- add_func copy key value ;;
      copy_items copy l
  end.
Definition pinos_properties_copy (properties : PinosPropertiesImpl) : ST memory PinosPropertiesImpl :=
  copy_items empty_properties (take (Z.to_nat (len properties)) (slots properties)).

Definition pinos_properties_free (properties : PinosPropertiesImpl) : ST memory unit :=
  each (take (Z.to_nat (len properties)) (slots properties)) clear_item.

Definition do_replace (properties : PinosPropertiesImpl) (key value : Z) : ST memory PinosPropertiesImpl :=
  k <- string_at key ;;
  index <- find_index properties k ;;
  if index =? -1 then add_func properties key value
  else
    item <- item_at properties index ;;
    clear_item item ;;;
    if value =? 0 then
      other <- item_at properties (len properties - 1) ;;
      let properties := set_item properties index other in
      ret (mkProperties (mkArray (size (items properties) - sizeof_item) (alloc (items properties)) (extend (items properties)))
             (slots properties) (dict_n_items properties))
    else ret (set_item properties index (key, value)).

Definition pinos_properties_set (properties : PinosPropertiesImpl) (key : bytes) (value : str) : ST memory PinosPropertiesImpl :=
  k <- strdup (Some key) ;;
  v <- (if value then strdup value else ret 0) ;;
  do_replace properties k v.

(** [formatted] is what [vasprintf] makes of the arguments. *)
Definition pinos_properties_setf (properties : PinosPropertiesImpl) (key formatted : bytes) : ST memory PinosPropertiesImpl :=
  v <- strdup (Some formatted) ;;
  k <- strdup (Some key) ;;
  do_replace properties k v.

Definition pinos_properties_get (properties : PinosPropertiesImpl) (key : bytes) : ST memory str :=
  index <- find_index properties key ;;
  if index =? -1 then ret None
  else item <- item_at properties index ;; str_at (snd item).

(** [*state] is the index to look at. *)
Definition pinos_properties_iterate (properties : PinosPropertiesImpl) (state : Z) : ST memory (option (bytes * Z)) :=
  if state <? len properties then
    item <- item_at properties state ;;
    k <- string_at (fst item) ;;
    ret (Some (k, state + 1))
  else ret None.

(** The loop of the merge, with fuel for the items of [newprops]. *)
Fixpoint merge_loop (fuel : nat) (res newprops : PinosPropertiesImpl) (state : Z) : ST memory PinosPropertiesImpl :=
  match fuel with
  | O => undef
  | S fuel =>
      next <- pinos_properties_iterate newprops state ;;
      match next with
      | None => ret res
      | Some (key, state) =>
          v <- pinos_properties_get newprops key ;;
          res <- pinos_properties_set res key v ;;
          merge_loop fuel res newprops state
      end
  end.
Definition pinos_properties_merge (oldprops newprops : option PinosPropertiesImpl) : ST memory (option PinosPropertiesImpl) :=
  match oldprops, newprops with
  | None, None => ret None
  | None, Some newprops => res <- pinos_properties_copy newprops ;; ret (Some res)
  | Some oldprops, None => res <- pinos_properties_copy oldprops ;; ret (Some res)
  | Some oldprops, Some newprops =>
      res <- pinos_properties_copy oldprops ;;
      res <- merge_loop (S (Z.to_nat (len newprops))) res newprops 0 ;;
      ret (Some res)
  end.

(** The dictionary that is sent or copied: the first [dict_n_items] slots. *)
Definition dict_items (this : PinosPropertiesImpl) : list (Z * Z) := take (Z.to_nat (dict_n_items this)) (slots this).
Fixpoint read_items (l : list (Z * Z)) : ST memory (list (bytes * str)) :=
  match l with
  | [] => ret []
  | item :: l =>
      k <- string_at (fst item) ;;
      v <- str_at (snd item) ;;
      rest <- read_items l ;;
      ret ((k, v) :: rest)
  end.
Definition spa_dict_lookup (this : PinosPropertiesImpl) (key : bytes) : ST memory str :=
  l <- read_items (dict_items this) ;;
  ret (kv ← List.find (fun kv => streq (fst kv) key) l; snd kv).
End Properties.

(** ** What it means *)

Definition find_property (l : list (bytes * str)) (key : bytes) : option nat := index_of (fun kv => streq (fst kv) key) l.

Definition get_property (l : list (bytes * str)) (key : bytes) : str :=
  i ← find_property l key; kv ← l !! i; snd kv.

(** A removed property is replaced by the last one. *)
Definition set_property (l : list (bytes * str)) (key : bytes) (value : str) : list (bytes * str) :=
  match find_property l key, value with
  | None, _ => l ++ [(key, value)]
  | Some i, Some v => <[i := (key, Some v)]> l
  | Some i, None => match last l with Some kv => removelast (<[i := kv]> l) | None => l end
  end.

(** An item points to its strings; the pointers it owns. *)
Definition points (m : memory) (item : Z * Z) (kv : bytes * str) : Prop :=
  fst item <> 0 /\ strings m !! fst item = Some (fst kv) /\
  match snd kv with
  | Some v => snd item <> 0 /\ strings m !! snd item = Some v
  | None => snd item = 0
  end.
Definition own (item : Z * Z) : list Z := fst item :: (if snd item =? 0 then [] else [snd item]).
Definition owned (ps : list (Z * Z)) : list Z := concat (map own ps).

Definition valid (m : memory) : Prop := 0 < next m /\ forall p s, strings m !! p = Some s -> 0 < p < next m.

Record holds (m : memory) (this : PinosPropertiesImpl) (ps : list (Z * Z)) (l : list (bytes * str)) : Prop := {
  h_array : wf (items this);
  h_size : size (items this) = 16 * zlen ps;
  h_slots : exists rest, slots this = ps ++ rest;
  h_points : Forall2 (points m) ps l;
  h_owned : NoDup (owned ps);
  h_bound : zlen ps < 2 ^ 30
}.

(** *** Pointers *)

Lemma owned_app ps qs : owned (ps ++ qs) = owned ps ++ owned qs.
Proof. unfold owned. by rewrite map_app, concat_app. Qed.
Lemma owned_cons item ps : owned (item :: ps) = own item ++ owned ps.
Proof. done. Qed.

Lemma owned_singleton item : owned [item] = own item.
Proof. rewrite owned_cons. apply app_nil_r. Qed.

Lemma points_owned m item kv p : points m item kv -> p ∈ own item -> exists s, strings m !! p = Some s.
Proof.
  intros (_ & Hk & Hv). unfold own. case_if; rewrite ?elem_of_cons, elem_of_nil; intros Hp.
  - destruct Hp as [-> | []]. eauto.
  - destruct Hp as [-> | [-> | []]]; [eauto |]. destruct (snd kv); [| lia]. destruct Hv; eauto.
Qed.
Lemma all_owned m ps l p : Forall2 (points m) ps l -> p ∈ owned ps -> exists s, strings m !! p = Some s.
Proof.
  induction 1 as [|item kv ps l Hi _ IH]; [by intros ?%elem_of_nil |]. rewrite owned_cons.
  intros [Hp | Hp]%elem_of_app; [by eapply points_owned | auto].
Qed.
Lemma owned_valid m ps l p : valid m -> Forall2 (points m) ps l -> p ∈ owned ps -> 0 < p < next m.
Proof. intros [_ Hv] Hps Hp. destruct (all_owned _ _ _ _ Hps Hp) as [s Hs]. by eapply Hv. Qed.

(** Memory may change elsewhere. *)
Lemma points_agree m m' item kv :
  (forall p, p ∈ own item -> strings m' !! p = strings m !! p) -> points m item kv -> points m' item kv.
Proof.
  intros Ha (H0 & Hk & Hv). unfold own in Ha. split; [done |]. rewrite Ha by (by left). split; [done |].
  destruct (snd kv); [| done]. destruct Hv as [Hne Hv]. split; [done |]. rewrite Ha; [done |].
  case_if; [done |]. right. left.
Qed.
Lemma items_agree m m' ps l :
  (forall p, p ∈ owned ps -> strings m' !! p = strings m !! p) -> Forall2 (points m) ps l -> Forall2 (points m') ps l.
Proof.
  intros Ha Hps. induction Hps as [|item kv ps l Hi _ IH]; [constructor |]. rewrite owned_cons in Ha. constructor.
  - eapply points_agree; [| exact Hi]. intros p Hp. apply Ha, elem_of_app. by left.
  - apply IH. intros p Hp. apply Ha, elem_of_app. by right.
Qed.

(** *** The steps *)

Definition with_string (m : memory) (s : bytes) : memory := mkMemory (<[next m := s]> (strings m)) (next m + 1).

Lemma strdup_run s m : strdup (Some s) m = Done (next m, with_string m s).
Proof. done. Qed.
Lemma valid_with_string m s : valid m -> valid (with_string m s).
Proof.
  intros [H0 Hv]. split; simpl; [lia |]. intros p t. rewrite lookup_insert_Some.
  intros [[<- _] | [_ Hp]]; [lia | apply Hv in Hp; lia].
Qed.
Lemma with_string_new m s : strings (with_string m s) !! next m = Some s.
Proof. apply lookup_insert_eq. Qed.
Lemma with_string_old m s p : p <> next m -> strings (with_string m s) !! p = strings m !! p.
Proof. intros Hp. by apply lookup_insert_ne. Qed.
Lemma string_at_run m p s : strings m !! p = Some s -> string_at p m = Done (s, m).
Proof. intros Hs. unfold string_at, bind, gets, lift. by rewrite Hs. Qed.
Lemma str_at_run m item kv : points m item kv -> str_at (snd item) m = Done (snd kv, m).
Proof.
  intros (_ & _ & Hv). unfold str_at. destruct (snd kv) as [v|].
  - destruct Hv as [Hne Hv]. rewrite (proj2 (Z.eqb_neq _ _)) by done. unfold bind. by rewrite (string_at_run _ _ _ Hv).
  - by rewrite Hv.
Qed.

Lemma free_run m p s : valid m -> strings m !! p = Some s -> free p m = Done (tt, mkMemory (delete p (strings m)) (next m)).
Proof.
  intros [_ Hv] Hs. unfold free. pose proof (Hv _ _ Hs). case_if; [lia |]. unfold bind, gets. by rewrite Hs.
Qed.
Lemma valid_delete m p : valid m -> valid (mkMemory (delete p (strings m)) (next m)).
Proof. intros [H0 Hv]. split; simpl; [lia |]. intros q s [_ Hq]%lookup_delete_Some. by eapply Hv. Qed.

(** What a step leaves alone: all strings but the pointers [ps]. *)
Definition spares (ps : list Z) (m m' : memory) : Prop :=
  next m <= next m' /\ forall p, p < next m -> p ∉ ps -> strings m' !! p = strings m !! p.

Lemma spares_refl m : spares [] m m.
Proof. by split. Qed.
Lemma spares_trans ps m m' m'' : spares ps m m' -> spares ps m' m'' -> spares ps m m''.
Proof. intros [Hn Ha] [Hn' Ha']. split; [lia |]. intros p Hp Hps. rewrite Ha' by (lia || done). by apply Ha. Qed.
Lemma spares_weaken ps qs m m' : ps ⊆ qs -> spares ps m m' -> spares qs m m'.
Proof. intros Hs [Hn Ha]. split; [done |]. intros p Hp Hq. apply Ha; [done | set_solver]. Qed.
Lemma spares_string m s : spares [] m (with_string m s).
Proof. split; simpl; [lia |]. intros p Hp _. apply lookup_insert_ne. lia. Qed.

Lemma clear_item_run m item kv :
  valid m -> points m item kv -> NoDup (own item) ->
  exists m', clear_item item m = Done (tt, m') /\ valid m' /\ next m' = next m /\ spares (own item) m m'.
Proof.
  intros Hm (H0 & Hk & Hv) Hnd. unfold clear_item, bind. rewrite (free_run _ _ _ Hm Hk). cbn [obind].
  unfold own in *. destruct (snd item =? 0) eqn:Hz; bool_to_prop.
  - unfold free. rewrite Hz. simpl. eexists. split; [done |]. split; [by apply valid_delete |]. split; [done |]. split; [simpl; lia |].
    intros p _ Hp. apply lookup_delete_ne. set_solver.
  - destruct (snd kv) as [v|]; [| lia]. destruct Hv as [_ Hv].
    assert (fst item <> snd item) as Hne by (inversion_clear Hnd; set_solver).
    erewrite free_run; [| by apply valid_delete | simpl; by rewrite lookup_delete_ne].
    eexists. split; [done |]. split; [by apply (valid_delete (mkMemory _ _)), valid_delete |]. split; [done |]. split; [simpl; lia |].
    intros p _ Hp. simpl. rewrite !lookup_delete_ne; [done | set_solver..].
Qed.

Lemma len_holds m this ps l : holds m this ps l -> len this = zlen l /\ zlen ps = zlen l.
Proof.
  intros Hh. pose proof (Forall2_length _ _ _ (h_points _ _ _ _ Hh)). unfold len, pinos_array_get_len, sizeof_item, zlen.
  rewrite (h_size _ _ _ _ Hh). unfold zlen. rewrite Z.mul_comm, Z.div_mul; lia.
Qed.

Lemma find_from_run m this ps l key i n :
  holds m this ps l -> (i + n = length l)%nat ->
  find_from this key (Z.of_nat i) n m =
    Done (match find_property (drop i l) key with Some j => Z.of_nat (i + j) | None => -1 end, m).
Proof.
  intros Hh. destruct (h_slots _ _ _ _ Hh) as [rest Hslots]. revert i. induction n as [|n IH]; intros i Hi; simpl.
  { rewrite drop_ge by lia. done. }
  destruct (lookup_lt_is_Some_2 l i) as [kv Hkv]; [lia |].
  destruct (Forall2_lookup_r _ _ _ _ _ (h_points _ _ _ _ Hh) Hkv) as (item & Hitem & _ & Hk & _).
  unfold bind, item_at, lift. rewrite Hslots, Nat2Z.id, (lookup_app_l_Some _ _ _ _ Hitem). cbn [of_option obind].
  rewrite (string_at_run _ _ _ Hk). cbn [obind]. rewrite (drop_S _ _ _ Hkv). unfold find_property. cbn [index_of].
  destruct (streq (fst kv) key); [unfold ret; do 2 f_equal; lia |].
  replace (Z.of_nat i + 1) with (Z.of_nat (S i)) by lia. rewrite IH by lia. unfold find_property.
  destruct (index_of _ (drop (S i) l)); simpl; [| done]. do 2 f_equal. lia.
Qed.

Lemma find_index_run m this ps l key :
  holds m this ps l ->
  find_index this key m = Done (match find_property l key with Some j => Z.of_nat j | None => -1 end, m).
Proof.
  intros Hh. unfold find_index. rewrite (proj1 (len_holds _ _ _ _ Hh)), to_nat_zlen.
  exact (find_from_run _ _ _ _ key 0 (length l) Hh eq_refl).
Qed.

Lemma item_at_run m this ps l i : holds m this ps l -> (i < length ps)%nat ->
  exists item, ps !! i = Some item /\ forall h, item_at this (Z.of_nat i) h = Done (item, h).
Proof.
  intros Hh Hi. destruct (h_slots _ _ _ _ Hh) as [rest Hslots]. destruct (lookup_lt_is_Some_2 ps i Hi) as [item Hitem].
  exists item. split; [done |]. intros h. unfold item_at, lift. by rewrite Hslots, Nat2Z.id, (lookup_app_l_Some _ _ _ _ Hitem).
Qed.

Lemma add_func_run realloc_ok m this ps l item kv :
  (forall n, realloc_ok n = true) -> holds m this ps l -> points m item kv -> NoDup (owned ps ++ own item) -> zlen ps + 1 < 2 ^ 30 ->
  exists this', add_func realloc_ok this (fst item) (snd item) m = Done (this', m) /\
    holds m this' (ps ++ [item]) (l ++ [kv]) /\ dict_n_items this' = zlen l + 1.
Proof.
  intros Hok Hh Hi Hnd Hb. destruct (len_holds _ _ _ _ Hh) as [_ Hlen]. destruct (h_slots _ _ _ _ Hh) as [rest Hslots].
  pose proof (h_size _ _ _ _ Hh) as Hsz. pose proof (zlen_nonneg ps).
  destruct (array_add_granted realloc_ok (items this) 16 Hok (h_array _ _ _ _ Hh)) as (arr & Hadd & Hwf & Hsz'); [lia | lia |].
  assert (size arr = 16 * zlen (ps ++ [item])) as Hsize by zlia.
  unfold add_func, bind, lift, sizeof_item. rewrite Hadd. cbn [of_option obind]. unfold ret. eexists. split; [done |].
  rewrite Hsz, Z.mul_comm, Z.div_mul, to_nat_zlen, Hslots, take_app_length by lia. split.
  - constructor; cbn [items slots dict_n_items]; [done | done | | | | zlia].
    + exists (drop (S (length ps)) (ps ++ rest)). rewrite <- app_assoc. by destruct item.
    + apply Forall2_app; [apply Hh | constructor; [exact Hi | constructor]].
    + by rewrite owned_app, owned_cons, app_nil_r.
  - cbn [dict_n_items]. unfold pinos_array_get_len. rewrite Hsize, Z.mul_comm, Z.div_mul by lia. zlia.
Qed.

(** A property found by its key splits the list. *)
Lemma find_split m this ps l key i :
  holds m this ps l -> find_property l key = Some i ->
  exists ps1 old ps2 l1 v l2, ps = ps1 ++ old :: ps2 /\ l = l1 ++ (key, v) :: l2 /\ length ps1 = i /\ length l1 = i /\
    Forall2 (points m) ps1 l1 /\ points m old (key, v) /\ Forall2 (points m) ps2 l2.
Proof.
  intros Hh Hf. apply index_of_Some in Hf as [([k v] & Hkv & Hk%streq_true) _]. simpl in Hk. subst k.
  pose proof (h_points _ _ _ _ Hh) as Hps. destruct (Forall2_lookup_r _ _ _ _ _ Hps Hkv) as (old & Hold & Hpt).
  exists (take i ps), old, (drop (S i) ps), (take i l), v, (drop (S i) l).
  rewrite !take_drop_middle by done. pose proof (lookup_lt_Some _ _ _ Hold). pose proof (lookup_lt_Some _ _ _ Hkv).
  rewrite !length_take. split_and!; [done | done | lia | lia | by apply Forall2_take | apply Hpt.. | by apply Forall2_drop].
Qed.

Lemma holds_at m this ps l i item : holds m this ps l -> ps !! i = Some item -> forall h, item_at this (Z.of_nat i) h = Done (item, h).
Proof.
  intros Hh Hi h. destruct (h_slots _ _ _ _ Hh) as [rest Hslots]. unfold item_at, lift.
  by rewrite Hslots, Nat2Z.id, (lookup_app_l_Some _ _ _ _ Hi).
Qed.

Lemma holds_spared m m' this ps l qs :
  valid m -> spares qs m m' -> (forall p, p ∈ owned ps -> p ∉ qs) -> holds m this ps l -> holds m' this ps l.
Proof.
  intros Hm [_ Ha] Hq Hh. pose proof (h_points _ _ _ _ Hh) as Hp. destruct Hh. constructor; try done.
  eapply items_agree; [| exact Hp]. intros p Hpo. apply Ha; [| auto]. by eapply owned_valid.
Qed.

(** Replacing one item by another. *)
Lemma holds_replace m m' this ps1 old ps2 l1 kv l2 kv' item :
  holds m this (ps1 ++ old :: ps2) (l1 ++ kv :: l2) -> valid m -> length ps1 = length l1 ->
  spares (own old) m m' -> points m' item kv' -> NoDup (owned (ps1 ++ item :: ps2)) ->
  holds m' (set_item this (zlen ps1) item) (ps1 ++ item :: ps2) (l1 ++ kv' :: l2).
Proof.
  intros Hh Hm Hlen [_ Hsp] Hi Hnd. destruct (h_slots _ _ _ _ Hh) as [rest Hslots].
  pose proof (h_points _ _ _ _ Hh) as Hp. pose proof (h_owned _ _ _ _ Hh) as Hno.
  assert (forall qs k, qs ⊆ ps1 ++ ps2 -> Forall2 (points m) qs k -> Forall2 (points m') qs k) as Hagree.
  { intros qs k Hqs Hf. eapply items_agree; [| exact Hf]. intros p Hpq. apply Hsp; [by eapply owned_valid |].
    intros Hpo. rewrite owned_app, owned_cons in Hno.
    assert (p ∈ owned ps1 \/ p ∈ owned ps2) as Hin.
    { apply elem_of_app. rewrite <- owned_app. unfold owned in *. apply list_elem_of_In, in_concat.
      apply list_elem_of_In, in_concat in Hpq as (x & (y & <- & Hy)%in_map_iff & Hx). exists (own y). split; [| done].
      apply in_map, list_elem_of_In, Hqs, list_elem_of_In, Hy. }
    apply NoDup_app in Hno as (_ & Hd1 & Hno). apply NoDup_app in Hno as (_ & Hd2 & _). set_solver. }
  apply Forall2_app_inv in Hp as [Hp1 Hp2]; [| done]. apply Forall2_cons in Hp2 as [_ Hp2].
  constructor; cbn [set_item items slots]; [apply Hh | | | | done |].
  - rewrite (h_size _ _ _ _ Hh). zlia.
  - exists rest. rewrite to_nat_zlen, Hslots, <- !app_assoc, insert_app_r_alt, Nat.sub_diag by done. done.
  - apply Forall2_app; [apply Hagree; [set_solver | done] |]. constructor; [done | apply Hagree; [set_solver | done]].
  - pose proof (h_bound _ _ _ _ Hh). zlia.
Qed.

Lemma Forall2_snoc {A B} (R : A -> B -> Prop) ps p l : Forall2 R (ps ++ [p]) l -> exists l' y, l = l' ++ [y] /\ Forall2 R ps l' /\ R p y.
Proof.
  intros Hf. apply Forall2_app_inv_l in Hf as (l' & k & Hf & Hk & ->). inversion_clear Hk as [|? y ? ? Hy Hn].
  inversion Hn; subst. by exists l', y.
Qed.

(** Forgetting the last item. *)
Lemma holds_shrink m this ps item l kv :
  holds m this (ps ++ [item]) (l ++ [kv]) ->
  holds m (mkProperties (mkArray (size (items this) - sizeof_item) (alloc (items this)) (extend (items this))) (slots this) (dict_n_items this)) ps l.
Proof.
  intros Hh. destruct (h_slots _ _ _ _ Hh) as [rest Hslots]. destruct (h_array _ _ _ _ Hh) as (? & ? & ?).
  pose proof (h_size _ _ _ _ Hh). pose proof (h_bound _ _ _ _ Hh). pose proof (h_owned _ _ _ _ Hh) as Hno. unfold sizeof_item.
  constructor; cbn [items slots size]; [split_and!; simpl; zlia | zlia | | | | zlia].
  - exists (item :: rest). by rewrite Hslots, <- app_assoc.
  - pose proof (h_points _ _ _ _ Hh) as Hp. apply Forall2_snoc in Hp as (l' & y & [-> ->]%app_inj_tail & Hp & _). done.
  - rewrite owned_app in Hno. by apply NoDup_app in Hno as [Hno _].
Qed.

(** *** Setting a property *)

(** The two new strings, or one and [NULL]. *)
Lemma new_item (m : memory) (key : bytes) (value : str) :
  valid m -> exists item m',
    (forall B (f : Z -> Z -> ST memory B),
      bind (strdup (Some key)) (fun k => bind (if value then strdup value else ret 0) (f k)) m = f (fst item) (snd item) m') /\
    points m' item (key, value) /\ valid m' /\ spares [] m m' /\ NoDup (own item) /\ (forall p, p ∈ own item -> next m <= p).
Proof.
  intros Hm. pose proof (valid_with_string m key Hm) as Hm1. destruct Hm as [Hn Hv].
  exists (next m, if value then next m + 1 else 0), (match value with Some v => with_string (with_string m key) v | None => with_string m key end).
  split. { intros B f. unfold bind. rewrite strdup_run. cbn [obind]. by destruct value. }
  unfold own. destruct value as [v|]; cbn [fst snd].
  - rewrite (proj2 (Z.eqb_neq (next m + 1) 0)) by lia. split.
    { split; cbn [fst snd]; [lia |]. split; [rewrite with_string_old by (simpl; lia); apply with_string_new |].
      split; [lia | apply (with_string_new (with_string m key))]. }
    split; [by apply valid_with_string |]. split; [eapply spares_trans; apply spares_string |]. split.
    + constructor; [| apply NoDup_singleton]. intros Hin%list_elem_of_singleton. lia.
    + intros p. rewrite elem_of_cons, list_elem_of_singleton. lia.
  - split; [split; cbn [fst snd]; [lia |]; split; [apply with_string_new | done] |].
    split; [done |]. split; [apply spares_string |]. split; [apply NoDup_singleton |].
    intros p Hp%list_elem_of_singleton. lia.
Qed.

Lemma removelast_snoc {A} (l : list A) x : removelast (l ++ [x]) = l.
Proof. apply removelast_last. Qed.

Lemma set_property_none l key value : find_property l key = None -> set_property l key value = l ++ [(key, value)].
Proof. unfold set_property. by intros ->. Qed.
Lemma set_property_replace l1 kv l2 key v :
  find_property (l1 ++ kv :: l2) key = Some (length l1) -> set_property (l1 ++ kv :: l2) key (Some v) = l1 ++ (key, Some v) :: l2.
Proof. unfold set_property. intros ->. by rewrite insert_app_r_alt, Nat.sub_diag by done. Qed.
Lemma set_property_remove_last l1 kv key :
  find_property (l1 ++ [kv]) key = Some (length l1) -> set_property (l1 ++ [kv]) key None = l1.
Proof.
  unfold set_property. intros ->. rewrite last_snoc, insert_app_r_alt, Nat.sub_diag by done. apply removelast_snoc.
Qed.
Lemma set_property_remove l1 kv l2 lst key :
  find_property (l1 ++ kv :: l2 ++ [lst]) key = Some (length l1) -> set_property (l1 ++ kv :: l2 ++ [lst]) key None = l1 ++ lst :: l2.
Proof.
  unfold set_property. intros ->. assert (last (l1 ++ kv :: l2 ++ [lst]) = Some lst) as ->.
  { rewrite app_comm_cons, app_assoc. apply last_snoc. }
  rewrite insert_app_r_alt, Nat.sub_diag by done. cbn [list_insert].
  change (l1 ++ <[0%nat:=lst]> (kv :: l2 ++ [lst])) with (l1 ++ (lst :: l2) ++ [lst]). rewrite app_assoc. apply removelast_snoc.
Qed.

Lemma owned_middle ps1 item ps2 : owned (ps1 ++ item :: ps2) ≡ₚ own item ++ owned (ps1 ++ ps2).
Proof. rewrite !owned_app, owned_cons. solve_Permutation. Qed.

Definition shrink (this : PinosPropertiesImpl) : PinosPropertiesImpl :=
  mkProperties (mkArray (size (items this) - sizeof_item) (alloc (items this)) (extend (items this))) (slots this) (dict_n_items this).

Lemma holds_beyond m this ps l i item : holds m this ps l -> i = zlen ps -> holds m (set_item this i item) ps l.
Proof.
  intros Hh ->. destruct (h_slots _ _ _ _ Hh) as [rest Hslots]. destruct Hh. constructor; try done.
  cbn [set_item slots]. rewrite to_nat_zlen, Hslots, insert_app_r_alt, Nat.sub_diag by done. by eexists.
Qed.

(** Removing the item [old], whose strings are gone in [m']. *)
Lemma remove_item m m' this ps1 old ps2 l1 key v l2 :
  holds m this (ps1 ++ old :: ps2) (l1 ++ (key, v) :: l2) -> valid m -> length ps1 = length l1 -> spares (own old) m m' ->
  find_property (l1 ++ (key, v) :: l2) key = Some (length l1) ->
  exists other ps', last (old :: ps2) = Some other /\
    holds m' (set_item (shrink this) (zlen ps1) other) ps' (set_property (l1 ++ (key, v) :: l2) key None) /\
    owned ps' ⊆ owned (ps1 ++ ps2).
Proof.
  intros Hh Hm Hlen Hsp Hf. pose proof (h_points _ _ _ _ Hh) as Hp. pose proof (h_owned _ _ _ _ Hh) as Hno.
  apply Forall2_app_inv in Hp as [Hp1 Hp2]; [| done]. apply Forall2_cons in Hp2 as [_ Hp2].
  destruct ps2 as [|lst ps3 _] using rev_ind.
  - inversion Hp2; subst l2. exists old, ps1. split; [done |]. rewrite set_property_remove_last by done.
    split; [| by rewrite app_nil_r]. apply holds_beyond; [| done].
    eapply holds_spared; [exact Hm | exact Hsp | | by eapply holds_shrink].
    rewrite owned_app in Hno. apply NoDup_app in Hno as (_ & Hno & _). intros p Hp Hpo. apply (Hno p Hp). rewrite owned_cons. set_solver.
  - apply Forall2_snoc in Hp2 as (l3 & kv & -> & Hp3 & Hkv). exists lst, (ps1 ++ lst :: ps3).
    split; [by rewrite (app_comm_cons ps3), last_snoc |]. rewrite set_property_remove by done.
    rewrite app_comm_cons, (app_assoc ps1), (app_comm_cons l3), (app_assoc l1) in Hh. apply holds_shrink in Hh.
    rewrite app_comm_cons, !owned_app, owned_cons, owned_singleton in Hno.
    assert (NoDup (owned ps1 ++ own old ++ owned ps3 ++ own lst)) as Hnd by (by rewrite <- !app_assoc in Hno).
    split.
    + eapply holds_replace; [exact Hh | done | done | done | | ].
      * eapply points_agree, Hkv. intros p Hp. apply Hsp.
        { destruct (points_owned _ _ _ _ Hkv Hp) as [s Hs]. by eapply Hm. }
        apply NoDup_app in Hnd as (_ & _ & Hnd). apply NoDup_app in Hnd as (_ & Hd & _). set_solver.
      * rewrite owned_middle, owned_app, (Permutation_app_comm (own lst)), <- app_assoc.
        eapply sublist_NoDup; [exact Hnd |]. apply sublist_app; [done |]. by apply sublist_inserts_l.
    + rewrite owned_middle, !owned_app, owned_singleton. set_solver.
Qed.


Lemma do_replace_run realloc_ok m this ps l key value item :
  (forall n, realloc_ok n = true) -> valid m -> holds m this ps l -> zlen ps + 1 < 2 ^ 30 ->
  points m item (key, value) -> NoDup (own item) -> (forall p, p ∈ own item -> p ∉ owned ps) ->
  exists this' m' ps', do_replace realloc_ok this (fst item) (snd item) m = Done (this', m') /\
    holds m' this' ps' (set_property l key value) /\ valid m' /\ spares (owned ps) m m' /\
    owned ps' ⊆ owned ps ++ own item /\
    dict_n_items this' = match find_property l key with Some _ => dict_n_items this | None => zlen l + 1 end.
Proof.
  intros Hok Hm Hh Hb Hi Hnd Hdis. unfold do_replace, bind at 1. pose proof Hi as (_ & Hkey & Hval). cbn [fst snd] in Hkey, Hval.
  rewrite (string_at_run _ _ _ Hkey). cbn [obind]. unfold bind at 1. rewrite (find_index_run _ _ _ _ key Hh). cbn [obind].
  destruct (find_property l key) as [i|] eqn:Hf.
  2:{ rewrite Z.eqb_refl, set_property_none by done.
      destruct (add_func_run realloc_ok m this ps l item (key, value)) as (this' & Hadd & Hh' & Hd); [done | done | done | | done |].
      { apply NoDup_app. split; [apply Hh |]. split; [| done]. intros p Hp Hq. by apply (Hdis p). }
      exists this', m, (ps ++ [item]). split; [done |]. split; [done |]. split; [done |].
      split; [by eapply spares_weaken, spares_refl; set_solver |]. split; [| done]. by rewrite owned_app, owned_singleton. }
  destruct (find_split _ _ _ _ _ _ Hh Hf) as (ps1 & old & ps2 & l1 & v0 & l2 & -> & -> & <- & Hl1 & _ & Hold & _).
  rewrite (proj2 (Z.eqb_neq _ _)) by lia. pose proof (h_owned _ _ _ _ Hh) as Hno. rewrite owned_middle in Hno.
  unfold bind at 1. rewrite (holds_at _ _ _ _ _ old Hh) by (by rewrite list_lookup_middle). cbn [obind].
  apply NoDup_app in Hno as (Hno1 & Hno2 & Hno3).
  destruct (clear_item_run _ _ _ Hm Hold Hno1) as (m' & Hclear & Hm' & Hnext & Hsp). unfold bind at 1. rewrite Hclear. cbn [obind].
  assert (spares (owned (ps1 ++ old :: ps2)) m m') as Hsp' by (eapply spares_weaken, Hsp; rewrite owned_middle; set_solver).
  destruct (snd item =? 0) eqn:Hz; bool_to_prop.
  - destruct value as [v|]; [destruct Hval; done |].
    destruct (remove_item m m' this ps1 old ps2 l1 key v0 l2) as (other & ps' & Hother & Hh' & Hsub); [done | done | done | done | by rewrite Hl1 |].
    unfold bind. destruct (len_holds _ _ _ _ Hh) as [-> Hlen]. rewrite <- Hlen.
    replace (zlen (ps1 ++ old :: ps2) - 1) with (Z.of_nat (pred (length (ps1 ++ old :: ps2)))) by (rewrite length_app; unfold zlen; rewrite length_app; simpl; lia).
    rewrite (holds_at _ _ _ _ _ other Hh) by (rewrite <- last_lookup, last_app, Hother; done). cbn [obind]. unfold ret.
    do 2 eexists. exists ps'. split; [done |]. split; [exact Hh' |]. split; [done |]. split; [done |].
    split; [| done]. rewrite owned_middle. set_solver.
  - destruct value as [v|]; [| lia]. rewrite set_property_replace by (by rewrite Hl1).
    exists (set_item this (zlen ps1) item), m', (ps1 ++ item :: ps2). split; [by destruct item |]. split; [eapply holds_replace; [exact Hh | done | done | exact Hsp | | ] | split; [done | split; [done | split; [| done]]]].
    + eapply points_agree, Hi. intros p Hp. apply Hsp.
      * destruct (points_owned _ _ _ _ Hi Hp) as [s Hs]. by eapply Hm.
      * intros Hpo. apply (Hdis p Hp). rewrite owned_middle. set_solver.
    + rewrite owned_middle. apply NoDup_app. split; [done |]. split; [| done]. intros p Hp Hq. apply (Hdis p Hp). rewrite owned_middle. set_solver.
    + rewrite !owned_middle. set_solver.
Qed.

(** A call on an object whose pointers are [ps], in full. *)
Lemma properties_set_run realloc_ok m this ps l key value :
  (forall n, realloc_ok n = true) -> valid m -> holds m this ps l -> zlen l + 1 < 2 ^ 30 ->
  exists this' m' ps', pinos_properties_set realloc_ok this key value m = Done (this', m') /\
    holds m' this' ps' (set_property l key value) /\ valid m' /\ spares (owned ps) m m' /\
    (forall p, p ∈ owned ps' -> p ∈ owned ps \/ next m <= p) /\
    dict_n_items this' = match find_property l key with Some _ => dict_n_items this | None => zlen l + 1 end.
Proof.
  intros Hok Hm Hh Hb. destruct (len_holds _ _ _ _ Hh) as [_ Hlen].
  destruct (new_item m key value Hm) as (item & m1 & Hnew & Hi & Hm1 & Hsp1 & Hnd & Hfresh).
  unfold pinos_properties_set. rewrite Hnew.
  destruct (do_replace_run realloc_ok m1 this ps l key value item) as (this' & m' & ps' & Hrun & Hh' & Hm' & Hsp & Hsub & Hd);
    [done | done | | lia | done | done | | ].
  - eapply holds_spared; [exact Hm | exact Hsp1 | set_solver | done].
  - intros p Hp Hq. specialize (Hfresh p Hp). pose proof (owned_valid _ _ _ _ Hm (h_points _ _ _ _ Hh) Hq). lia.
  - exists this', m', ps'. split; [done |]. split; [done |]. split; [done |]. split.
    { eapply spares_trans; [| exact Hsp]. eapply spares_weaken, Hsp1. set_solver. }
    split; [| done]. intros p [Hp | Hp]%Hsub%elem_of_app; [by left | right; auto].
Qed.

Lemma properties_get_run m this ps l key : holds m this ps l -> pinos_properties_get this key m = Done (get_property l key, m).
Proof.
  intros Hh. unfold pinos_properties_get, bind at 1. rewrite (find_index_run _ _ _ _ key Hh). cbn [obind].
  unfold get_property. destruct (find_property l key) as [i|] eqn:Hf; [| by rewrite Z.eqb_refl].
  destruct (find_split _ _ _ _ _ _ Hh Hf) as (ps1 & old & ps2 & l1 & v0 & l2 & -> & -> & <- & Hl1 & _ & Hold & _).
  rewrite (proj2 (Z.eqb_neq _ _)) by lia. unfold bind. rewrite (holds_at _ _ _ _ _ old Hh) by (by rewrite list_lookup_middle).
  cbn [obind mbind option_bind]. rewrite (str_at_run _ _ _ Hold), <- Hl1, list_lookup_middle by done. done.
Qed.

Lemma read_items_run m ps l : Forall2 (points m) ps l -> read_items ps m = Done (l, m).
Proof.
  induction 1 as [|item [k v] ps l Hi _ IH]; [done |]. cbn [read_items]. unfold bind. pose proof Hi as (_ & Hk & _).
  rewrite (string_at_run _ _ _ Hk). cbn [obind]. rewrite (str_at_run _ _ _ Hi). cbn [obind]. by rewrite IH.
Qed.

Lemma dict_run m this ps l : holds m this ps l -> dict_n_items this = zlen l -> read_items (dict_items this) m = Done (l, m).
Proof.
  intros Hh Hd. destruct (h_slots _ _ _ _ Hh) as [rest Hslots]. destruct (len_holds _ _ _ _ Hh) as [_ Hlen].
  unfold dict_items. rewrite Hd, <- Hlen, Hslots, take_zlen_app by done. apply read_items_run, Hh.
Qed.

(** *** Sequences of calls *)

Fixpoint set_all (realloc_ok : Z -> bool) (this : PinosPropertiesImpl) (l : list (bytes * str)) : ST memory PinosPropertiesImpl :=
  match l with
  | [] => ret this
  | (k, v) :: l => this <- pinos_properties_set realloc_ok this k v ;; set_all realloc_ok this l
  end.

(** What the calls mean: the last value of every key; setting [NULL] removes the key. *)
Definition assign (M : gmap bytes bytes) (kv : bytes * str) : gmap bytes bytes :=
  match snd kv with Some v => <[fst kv := v]> M | None => delete (fst kv) M end.
Definition assigned (M : gmap bytes bytes) (l : list (bytes * str)) : gmap bytes bytes := foldl assign M l.

(** The list after the calls, and whether the dictionary is up to date: it is until a
    property is removed, and again from the next one that is added on. *)
Definition follow (s : list (bytes * str) * bool) (kv : bytes * str) : list (bytes * str) * bool :=
  (set_property (fst s) (fst kv) (snd kv),
   match find_property (fst s) (fst kv), snd kv with None, _ => true | Some _, Some _ => snd s | Some _, None => false end).
Definition followed (calls : list (bytes * str)) : list (bytes * str) * bool := foldl follow ([], true) calls.

(** The keys are listed once each, those with a value as the map has them. *)
Definition lists (l : list (bytes * str)) (M : gmap bytes bytes) : Prop :=
  NoDup (fst <$> l) /\ forall k s, (k, Some s) ∈ l <-> M !! k = Some s.

Lemma lists_perm l l' M : l ≡ₚ l' -> lists l M -> lists l' M.
Proof. intros Hp [Hnd Hl]. split; [by rewrite <- Hp |]. intros k s. by rewrite <- Hp. Qed.

Lemma find_property_Some l key i : NoDup (fst <$> l) -> (find_property l key = Some i <-> exists v, l !! i = Some (key, v)).
Proof.
  intros Hnd. unfold find_property. rewrite index_of_Some. split.
  - intros [([k v] & Hi & Hk%streq_true) _]. simpl in Hk. subst k. by exists v.
  - intros [v Hi]. split; [exists (key, v); by rewrite streq_refl |]. intros j [k w] Hj Hl. apply streq_false. simpl. intros ->.
    assert (j = i); [| lia]. eapply (NoDup_lookup _ _ _ _ Hnd); rewrite list_lookup_fmap; [by rewrite Hl | by rewrite Hi].
Qed.

Lemma find_property_None l key : find_property l key = None <-> key ∉ fst <$> l.
Proof.
  unfold find_property. rewrite index_of_None, Forall_forall, list_elem_of_fmap. split.
  - intros Hn ([k v] & -> & Hin). specialize (Hn _ Hin). by apply streq_false in Hn.
  - intros Hn kv Hin. apply streq_false. intros <-. apply Hn. by exists kv.
Qed.

Lemma get_lists l M key : lists l M -> get_property l key = M !! key.
Proof.
  intros [Hnd Hl]. unfold get_property. apply option_eq. intros s. rewrite <- Hl. destruct (find_property l key) as [i|] eqn:Hf; simpl.
  - apply find_property_Some in Hf as [v Hi]; [| done]. rewrite Hi. simpl. split.
    + intros ->. by eapply list_elem_of_lookup_2.
    + intros [j Hj]%list_elem_of_lookup. assert (j = i) as ->; [| congruence].
      eapply (NoDup_lookup _ _ _ _ Hnd); rewrite list_lookup_fmap; [by rewrite Hj | by rewrite Hi].
  - apply find_property_None in Hf. split; [done |]. intros Hin. destruct Hf. apply list_elem_of_fmap. by exists (key, Some s).
Qed.

(** Setting a key, up to the order: the other entries stay, and the new one comes in
    unless it takes the key away. *)
Lemma set_property_perm l key v :
  NoDup (fst <$> l) -> exists l', (forall kv, kv ∈ l' <-> kv ∈ l /\ fst kv <> key) /\ NoDup (fst <$> l') /\
    set_property l key v ≡ₚ l' ++ match find_property l key, v with Some _, None => [] | _, _ => [(key, v)] end.
Proof.
  intros Hnd. destruct (find_property l key) as [i|] eqn:Hf.
  - pose proof Hf as [w Hi]%find_property_Some; [| done]. apply take_drop_middle in Hi as Hl.
    assert (length (take i l) = i) as Hlen by (rewrite length_take; apply lookup_lt_Some in Hi; lia).
    revert Hl Hlen. generalize (take i l) as l1, (drop (S i) l) as l2. intros l1 l2 <- Hlen. rewrite <- Hlen in Hf.
    rewrite fmap_app, fmap_cons, <- Permutation_middle in Hnd. apply NoDup_cons in Hnd as [Hk Hnd]. rewrite <- fmap_app in Hk, Hnd.
    exists (l1 ++ l2). split; [| split; [done |]].
    + intros kv. rewrite <- Permutation_middle, elem_of_cons. split.
      * intros Hin. split; [by right |]. intros <-. apply Hk, list_elem_of_fmap. by exists kv.
      * intros [[-> | Hin] Hne]; [done | done].
    + destruct v as [v|]; [rewrite set_property_replace by done; solve_Permutation |].
      rewrite app_nil_r. destruct l2 as [|lst l2 _] using rev_ind; [by rewrite set_property_remove_last, app_nil_r |].
      rewrite set_property_remove by done. solve_Permutation.
  - rewrite set_property_none by done. exists l. split; [| by destruct v]. intros kv. split; [| by intros [??]].
    intros Hin. split; [done |]. intros <-. apply find_property_None in Hf. apply Hf, list_elem_of_fmap. by exists kv.
Qed.

Lemma set_lists l M key v : lists l M -> lists (set_property l key v) (assign M (key, v)).
Proof.
  intros [Hnd Hl]. destruct (set_property_perm l key v Hnd) as (l' & Hin & Hnd' & Hp). eapply lists_perm; [by symmetry |].
  assert (key ∉ fst <$> l') as Hk by (intros (kv & -> & [_ Hne]%Hin)%list_elem_of_fmap; done). split.
  - rewrite fmap_app. apply NoDup_app. split; [done |].
    destruct (find_property l key), v; (split; [simpl; set_solver | first [by apply NoDup_nil_2 | by apply NoDup_singleton]]).
  - intros k s. rewrite elem_of_app, Hin, Hl. unfold assign. cbn [fst snd]. destruct v as [v|].
    + rewrite lookup_insert_Some. assert ((k, Some s) ∈ match find_property l key with Some _ => [(key, Some v)] | None => [(key, Some v)] end <-> key = k /\ v = s) as ->
        by (destruct (find_property l key); rewrite list_elem_of_singleton; naive_solver). naive_solver.
    + rewrite lookup_delete_Some. destruct (find_property l key); rewrite ?list_elem_of_singleton, ?elem_of_nil; naive_solver.
Qed.

Lemma zlen_set_found l key v i : find_property l key = Some i ->
  zlen (set_property l key v) = match v with Some _ => zlen l | None => zlen l - 1 end.
Proof.
  unfold set_property. intros Hf. rewrite Hf. destruct v as [v|]; [zlia |]. apply index_of_Some in Hf as [(kv & Hi & _) _].
  destruct l as [|x l _] using rev_ind; [done |]. rewrite last_snoc.
  destruct (<[i:=x]> (l ++ [x])) as [|y l' _] eqn:He using rev_ind.
  - apply (f_equal length) in He. rewrite length_insert, length_app in He. simpl in He. lia.
  - rewrite removelast_snoc. apply (f_equal zlen) in He. revert He. zlia.
Qed.
Lemma zlen_set_property l key v : zlen (set_property l key v) <= zlen l + 1.
Proof.
  destruct (find_property l key) as [i|] eqn:Hf; [rewrite (zlen_set_found _ _ _ _ Hf); destruct v; lia |].
  unfold set_property. rewrite Hf. zlia.
Qed.

Lemma set_all_run realloc_ok calls m this ps l M (b : bool) :
  (forall n, realloc_ok n = true) -> valid m -> holds m this ps l -> lists l M -> zlen l + zlen calls < 2 ^ 30 ->
  (if b then dict_n_items this = zlen l else zlen l < dict_n_items this) ->
  let s := foldl follow (l, b) calls in
  exists this' m' ps', set_all realloc_ok this calls m = Done (this', m') /\ valid m' /\ spares (owned ps) m m' /\
    holds m' this' ps' (fst s) /\ lists (fst s) (assigned M calls) /\
    (if snd s : bool then dict_n_items this' = zlen (fst s) else zlen (fst s) < dict_n_items this').
Proof.
  intros Hok. revert m this ps l M b. induction calls as [|[k v] calls IH]; intros m this ps l M b Hm Hh Hl Hb Hd.
  { exists this, m, ps. split; [done |]. split; [done |]. split; [by eapply spares_weaken, spares_refl; set_solver |]. by split_and!. }
  rewrite zlen_cons in Hb. pose proof (zlen_nonneg calls). pose proof (zlen_set_property l k v).
  destruct (properties_set_run realloc_ok m this ps l k v) as (this1 & m1 & ps1 & Hrun & Hh1 & Hm1 & Hsp1 & Hnew & Hd1); [done | done | done | lia |].
  cbn [foldl]. unfold follow at 2. cbn [fst snd].
  destruct (IH m1 this1 ps1 _ _ (match find_property l k, v with None, _ => true | Some _, Some _ => b | Some _, None => false end) Hm1 Hh1 (set_lists _ _ _ _ Hl))
    as (this2 & m2 & ps2 & Hrun2 & Hm2 & Hsp2 & Hrest).
  - lia.
  - rewrite Hd1. destruct (find_property l k) as [i|] eqn:Hf; [| unfold set_property; rewrite Hf; zlia].
    pose proof (zlen_set_found l k v i Hf) as Hz. destruct v as [v|]; rewrite Hz; [done |]. destruct b; lia.
  - exists this2, m2, ps2. cbn [set_all]. unfold bind. rewrite Hrun. cbn [obind]. split; [exact Hrun2 |]. split; [done |].
    split; [| exact Hrest]. destruct Hsp1 as [Hn1 Ha1]. destruct Hsp2 as [Hn2 Ha2]. split; [lia |]. intros p Hp Hps.
    rewrite Ha2; [by apply Ha1 | lia |]. intros [Hin | Hin]%Hnew; [done | lia].
Qed.

(** ** The theorems *)

Definition no_memory : memory := mkMemory ∅ 1.
Lemma valid_no_memory : valid no_memory.
Proof. split; [done |]. intros p s Hs. simpl in Hs. by rewrite lookup_empty in Hs. Qed.
Lemma holds_empty m : holds m empty_properties [] [].
Proof. constructor; [split_and!; done | done | by exists [] | constructor | constructor | done]. Qed.


(** Without removals the dictionary is always current. *)
Lemma followed_current calls : Forall (fun kv : bytes * str => snd kv <> None) calls -> snd (followed calls) = true.
Proof.
  unfold followed. generalize (@nil (bytes * str)). induction calls as [|[k v] calls IH]; intros l Hc; [done |].
  apply Forall_cons in Hc as [Hv Hc]. cbn [foldl]. unfold follow at 2. cbn [fst snd] in *. destruct v; [| done].
  destruct (find_property l k); by apply IH.
Qed.

Definition key_a : bytes := [97].
Definition key_b : bytes := [98].

(** One key set twice, one removed; then one added, which makes the dictionary current. *)
Definition sample_calls : list (bytes * str) := [(key_a, Some [49]); (key_b, Some [50]); (key_a, Some [51]); (key_b, None)].

(** *** Where the dictionary does not follow

    Removing a property shortens the array, not the dictionary: it still lists the slot
    of the last property, by now a second time, or with strings that are freed. *)
Definition removing (before : list (bytes * bytes)) (key : bytes) : outcome (list (bytes * str)) :=
  let* (l, _) := (this <- set_all (fun _ => true) empty_properties (prod_map id Some <$> before) ;;
                  this <- pinos_properties_set (fun _ => true) this key None ;;
                  read_items (dict_items this)) no_memory in Done l.

(** After a property is removed the dictionary still lists as many as before: the last
    one twice when another was removed, freed strings when the last one was. *)
Theorem removed_still_listed :
  removing [(key_a, [49]); (key_b, [50])] key_a = Done [(key_b, Some [50]); (key_b, Some [50])] /\
  removing [(key_a, [49]); (key_b, [50])] key_b = Undef.
Proof. split; reflexivity. Qed.

(** Setting a key that is not there to [NULL] adds it with a [NULL] value, and copying
    the object then copies a [NULL] string. *)
Lemma null_value_added :
  (let* (l, _) := (this <- pinos_properties_set (fun _ => true) empty_properties key_a None ;; read_items (dict_items this)) no_memory in Done l)
    = Done [(key_a, None)] /\
  (this <- pinos_properties_set (fun _ => true) empty_properties key_a None ;; pinos_properties_copy (fun _ => true) this) no_memory = Undef.
Proof. split; reflexivity. Qed.
