(* ===== verification/Introspect.v ===== *)
(** [pinos/client/introspect.c]: the copies a client keeps of what the server publishes
    about its objects, and how an announcement updates them.

    Every kind of information is an instance of [PublishedInfo]: numbered fields, bit
    [k] of the change mask announcing field [k]. The theorem that a copy follows what
    the server publishes is proved against that interface. *)
From S2P Require Import Prelude Defs Interfaces.

(** ** Copies

    [strdup] of [NULL] is undefined. *)
Definition pinos_spa_dict_copy (d : dict) : outcome dict :=
  match d with
  | None => Done None
  | Some items => if forallb (fun kv : bytes * str => if snd kv then true else false) items then Done (Some items) else Undef
  end.

(** [~0] as the [uint64_t] it is assigned to. *)
Definition ALL : Z := 2 ^ 64 - 1.
Definition announced (mask : Z) (k : nat) : bool := Z.testbit mask (Z.of_nat k).
Definition new_mask {T} (mask : T -> Z) (info : option T) (update : T) : Z :=
  match info with None => ALL | Some info => Z.lor (mask info) (mask update) end.

(** What [calloc] leaves. *)
Definition core_zero : PinosCoreInfo := mkCoreInfo 0 0 None None None None 0 None.
Definition node_zero : PinosNodeInfo := mkNodeInfo 0 0 None 0 0 [] 0 0 [] 0 None None.
Definition module_zero : PinosModuleInfo := mkModuleInfo 0 0 None None None None.
Definition client_zero : PinosClientInfo := mkClientInfo 0 0 None.
Definition link_zero : PinosLinkInfo := mkLinkInfo 0 0 0 0 0 0.

Definition pinos_core_info_update (info : option PinosCoreInfo) (update : PinosCoreInfo) : outcome PinosCoreInfo :=
  let old := default core_zero info in
  let has := announced (ci_change_mask update) in
  let* props := if has 5%nat then pinos_spa_dict_copy (ci_props update) else Done (ci_props old) in
  Done (mkCoreInfo (ci_id update) (new_mask ci_change_mask info update)
    (if has 0%nat then ci_user_name update else ci_user_name old)
    (if has 1%nat then ci_host_name update else ci_host_name old)
    (if has 2%nat then ci_version update else ci_version old)
    (if has 3%nat then ci_name update else ci_name old)
    (if has 4%nat then ci_cookie update else ci_cookie old)
    props).

(** The numbers of ports are not copied. [spa_format_copy] copies the bytes of the format. *)
Definition pinos_node_info_update (info : option PinosNodeInfo) (update : PinosNodeInfo) : outcome PinosNodeInfo :=
  let old := default node_zero info in
  let has := announced (ni_change_mask update) in
  let* props := if has 6%nat then pinos_spa_dict_copy (ni_props update) else Done (ni_props old) in
  Done (mkNodeInfo (ni_id update) (new_mask ni_change_mask info update)
    (if has 0%nat then ni_name update else ni_name old)
    (if has 1%nat then ni_max_inputs update else ni_max_inputs old)
    (ni_n_inputs old)
    (if has 2%nat then ni_input_formats update else ni_input_formats old)
    (if has 3%nat then ni_max_outputs update else ni_max_outputs old)
    (ni_n_outputs old)
    (if has 4%nat then ni_output_formats update else ni_output_formats old)
    (if has 5%nat then ni_state update else ni_state old)
    (if has 5%nat then ni_error update else ni_error old)
    props).

Definition pinos_module_info_update (info : option PinosModuleInfo) (update : PinosModuleInfo) : outcome PinosModuleInfo :=
  let old := default module_zero info in
  let has := announced (mi_change_mask update) in
  let* props := if has 3%nat then pinos_spa_dict_copy (mi_props update) else Done (mi_props old) in
  Done (mkModuleInfo (mi_id update) (new_mask mi_change_mask info update)
    (if has 0%nat then mi_name update else mi_name old)
    (if has 1%nat then mi_filename update else mi_filename old)
    (if has 2%nat then mi_args update else mi_args old)
    props).

Definition pinos_client_info_update (info : option PinosClientInfo) (update : PinosClientInfo) : outcome PinosClientInfo :=
  let old := default client_zero info in
  let* props := if announced (cli_change_mask update) 0 then pinos_spa_dict_copy (cli_props update) else Done (cli_props old) in
  Done (mkClientInfo (cli_id update) (new_mask cli_change_mask info update) props).

Definition pinos_link_info_update (info : option PinosLinkInfo) (update : PinosLinkInfo) : outcome PinosLinkInfo :=
  let old := default link_zero info in
  let has := announced (li_change_mask update) in
  Done (mkLinkInfo (li_id update) (new_mask li_change_mask info update)
    (if has 0%nat then li_output_node_id update else li_output_node_id old)
    (if has 1%nat then li_output_port_id update else li_output_port_id old)
    (if has 2%nat then li_input_node_id update else li_input_node_id old)
    (if has 3%nat then li_input_port_id update else li_input_port_id old)).

(** ** Published information *)

(** The value of a field of some kind of information. *)
Inductive field :=
| Text (s : str)
| Number (n : Z)
| Formats (l : list bytes)
| Status (state : Z) (error : str)
| Dict (d : dict).

Class PublishedInfo (T : Type) := {
  info_id : T -> Z;
  info_mask : T -> Z;
  info_fields : T -> list field;
  (** Members of the struct that no bit announces. *)
  info_uncopied : T -> list Z;
  info_zero : T;
  info_update : option T -> T -> outcome T;
  info_props : T -> dict;
  info_fields_length t : length (info_fields t) = length (info_fields info_zero);
  (** An update succeeds unless it has to copy a [NULL] string; each field is then that
      of the update or the old one, and what no bit announces stays. *)
  info_update_fields old u :
    match pinos_spa_dict_copy (info_props u) with Undef => False | _ => True end ->
    exists t, info_update old u = Done t /\ info_id t = info_id u /\ info_mask t = new_mask info_mask old u /\
      info_uncopied t = info_uncopied (default info_zero old) /\
      forall k, info_fields t !! k = info_fields (if announced (info_mask u) k then u else default info_zero old) !! k
}.

Lemma dict_copy_cases d : pinos_spa_dict_copy d = Done d \/ pinos_spa_dict_copy d = Undef.
Proof. destruct d as [items|]; simpl; [| by left]. case_if; [by left | by right]. Qed.

(** Field by field; the last lines are for the fields past the last one. *)
Ltac update_fields copy :=
  intros old u Hd; unfold copy;
  try (match goal with |- context [pinos_spa_dict_copy ?d] => destruct (dict_copy_cases d) as [He | He]; rewrite He in *; [| done] end;
       match goal with |- context [obind (if ?b then _ else _) _] => destruct b eqn:Hb end; cbn [obind]);
  (eexists; split; [reflexivity | split; [done | split; [done | split; [done |]]]]);
  intros k; do 8 (destruct k as [|k]; [cbn; repeat match goal with H : announced _ _ = _ |- _ => rewrite H end; repeat case_match; done |]); by repeat case_match.

#[export] Program Instance core_info : PublishedInfo PinosCoreInfo := {|
  info_id := ci_id; info_mask := ci_change_mask; info_zero := core_zero; info_uncopied _ := []; info_update := pinos_core_info_update; info_props := ci_props;
  info_fields i := [Text (ci_user_name i); Text (ci_host_name i); Text (ci_version i); Text (ci_name i); Number (ci_cookie i); Dict (ci_props i)]
|}.
Next Obligation. done. Qed.
Next Obligation. update_fields pinos_core_info_update. Qed.

#[export] Program Instance node_info : PublishedInfo PinosNodeInfo := {|
  info_id := ni_id; info_mask := ni_change_mask; info_zero := node_zero; info_uncopied i := [ni_n_inputs i; ni_n_outputs i]; info_update := pinos_node_info_update; info_props := ni_props;
  info_fields i := [Text (ni_name i); Number (ni_max_inputs i); Formats (ni_input_formats i); Number (ni_max_outputs i);
                    Formats (ni_output_formats i); Status (ni_state i) (ni_error i); Dict (ni_props i)]
|}.
Next Obligation. done. Qed.
Next Obligation. update_fields pinos_node_info_update. Qed.

#[export] Program Instance module_info : PublishedInfo PinosModuleInfo := {|
  info_id := mi_id; info_mask := mi_change_mask; info_zero := module_zero; info_uncopied _ := []; info_update := pinos_module_info_update; info_props := mi_props;
  info_fields i := [Text (mi_name i); Text (mi_filename i); Text (mi_args i); Dict (mi_props i)]
|}.
Next Obligation. done. Qed.
Next Obligation. update_fields pinos_module_info_update. Qed.

#[export] Program Instance client_info : PublishedInfo PinosClientInfo := {|
  info_id := cli_id; info_mask := cli_change_mask; info_zero := client_zero; info_uncopied _ := []; info_update := pinos_client_info_update; info_props := cli_props;
  info_fields i := [Dict (cli_props i)]
|}.
Next Obligation. done. Qed.
Next Obligation. update_fields pinos_client_info_update. Qed.

#[export] Program Instance link_info : PublishedInfo PinosLinkInfo := {|
  info_id := li_id; info_mask := li_change_mask; info_zero := link_zero; info_uncopied _ := []; info_update := pinos_link_info_update; info_props _ := None;
  info_fields i := [Number (li_output_node_id i); Number (li_output_port_id i); Number (li_input_node_id i); Number (li_input_port_id i)]
|}.
Next Obligation. done. Qed.
Next Obligation. update_fields pinos_link_info_update. Qed.

(** ** Following what is published *)

Section Follow.
Context `{PublishedInfo T}.

(** Updating the copy with each announcement in turn. *)
Fixpoint follow (copy : option T) (updates : list T) : outcome (option T) :=
  match updates with
  | [] => Done copy
  | u :: updates => let* copy := info_update copy u in follow (Some copy) updates
  end.

(** What an announcement [fst ut] says of the object, whose information is now [snd ut]
    and was [before]: a field it does not announce has not changed, whatever is in it. *)
Definition says (before : T) (ut : T * T) : Prop :=
  info_id (fst ut) = info_id (snd ut) /\
  forall k, info_fields (snd ut) !! k = info_fields (if announced (info_mask (fst ut)) k then fst ut else before) !! k.

Fixpoint honest (before : T) (updates : list (T * T)) : Prop :=
  match updates with
  | [] => True
  | ut :: updates => says before ut /\ honest (snd ut) updates
  end.

Definition latest (before : T) (updates : list (T * T)) : T := foldl (fun _ ut => snd ut) before updates.

Definition copyable (u : T) : Prop := match pinos_spa_dict_copy (info_props u) with Undef => False | _ => True end.

(** Whether one of the announcements is about field [k]. *)
Definition told (updates : list (T * T)) (k : nat) : bool := existsb (fun ut => announced (info_mask (fst ut)) k) updates.

(** A copy of an object that is now [now], made when it was [before]: the fields that
    [known] says are known are those of the object, the others and the members that no bit
    announces are still those of [old]. *)
Record shows (known : nat -> bool) (old copy now : T) : Prop := {
  sh_id : info_id copy = info_id now;
  sh_fields k : info_fields copy !! k = info_fields (if known k then now else old) !! k;
  sh_uncopied : info_uncopied copy = info_uncopied old
}.

Lemma follow_shows old copy before updates known :
  shows known old copy before -> honest before updates -> Forall (copyable ∘ fst) updates ->
  exists copy', follow (Some copy) (fst <$> updates) = Done (Some copy') /\
    shows (fun k => known k || told updates k) old copy' (latest before updates).
Proof.
  revert copy before known. induction updates as [|[u now] updates IH]; intros copy before known Hs Hh Hc.
  { exists copy. split; [done |]. destruct Hs. split; [done | intros k; by rewrite orb_false_r | done]. }
  destruct Hh as [[Hid' Hu] Hh]. apply Forall_cons in Hc as [Hcu Hc].
  destruct (info_update_fields (Some copy) u Hcu) as (copy1 & Hrun & Hid & _ & Hun & Hf).
  destruct (IH copy1 now (fun k => known k || announced (info_mask u) k)) as (copy' & Hrun' & [Hi Hk Hn]); [| done | done |].
  { destruct Hs as [_ Hs Hso]. split; [by rewrite Hid | | by rewrite Hun]. intros k. rewrite Hf. cbn [fst snd] in Hu. simpl default.
    specialize (Hu k). destruct (announced (info_mask u) k); [by rewrite orb_true_r | rewrite orb_false_r, Hs]. by destruct (known k). }
  exists copy'. cbn [fmap list_fmap follow fst]. rewrite Hrun. split; [exact Hrun' |]. split; [done | | done].
  intros k. rewrite Hk. cbn [told existsb fst]. by rewrite <- orb_assoc.
Qed.

(** C38: A client that follows what is published about an object, of any kind, has a copy with its
    id, and with each field as the object has it now if any announcement since it was bound
    was about the field, whichever of the later ones left it out because it had not changed. A field no
    announcement was about, and the numbers of ports of a node, which no bit announces, are
    zero in the copy, whatever the object has. The announcements carry no property with a
    [NULL] value. *)
Theorem copy_follows before first updates :
  honest before (first :: updates) -> Forall (copyable ∘ fst) (first :: updates) ->
  exists copy, follow None (fst <$> first :: updates) = Done (Some copy) /\
    shows (told (first :: updates)) info_zero copy (latest before (first :: updates)).
Proof.
  intros [[Hid' Hu] Hh] [Hc Hcs]%Forall_cons. destruct first as [first now]. cbn [fst snd] in *.
  destruct (info_update_fields None first Hc) as (copy1 & Hrun & Hid & _ & Hun & Hf).
  destruct (follow_shows info_zero copy1 now updates (announced (info_mask first))) as (copy & Hrun' & Hs); [| done | done |].
  - split; [by rewrite Hid | | done]. intros k. rewrite Hf. specialize (Hu k). by destruct (announced (info_mask first) k).
  - exists copy. cbn [fmap list_fmap follow fst]. rewrite Hrun. split; [exact Hrun' |]. exact Hs.
Qed.
End Follow.

(** A node as [node_bind_func] announces it, its change of state as
    [pinos_node_update_state] does, with zeroes but for bit 5, and the node after it: it
    has one port of either kind, which the copy has not. *)
Definition a_node : PinosNodeInfo := mkNodeInfo 7 ALL (Some [110]) 1 1 [[1]; [2]] 1 1 [] 1 None (Some [([107], Some [118])]).
Definition a_change : PinosNodeInfo := mkNodeInfo 7 32 None 0 0 [] 0 0 [] 3 None None.
Definition changed_node : PinosNodeInfo := mkNodeInfo 7 ALL (Some [110]) 1 1 [[1]; [2]] 1 1 [] 3 None (Some [([107], Some [118])]).

Lemma copy_follows_witness :
  (forall k, (k < 7)%nat -> told [(a_node, a_node); (a_change, changed_node)] k = true) /\ announced (info_mask a_change) 6 = false /\
  info_uncopied changed_node = [1; 1] /\
  exists copy, follow None [a_node; a_change] = Done (Some copy) /\
    shows (told [(a_node, a_node); (a_change, changed_node)]) info_zero copy changed_node.
Proof.
  split; [intros k Hk; do 7 (destruct k as [|k]; [reflexivity |]); lia |]. split; [reflexivity |]. split; [reflexivity |].
  apply (copy_follows a_node (a_node, a_node) [(a_change, changed_node)]).
  - split; [split; [reflexivity |]; intros k; by destruct (announced _ _) |]. split; [| exact I]. split; [reflexivity |].
    intros k. do 7 (destruct k as [|k]; [reflexivity |]). by destruct (announced _ _).
  - repeat constructor.
Defined.

(** The numbers of ports of a node never reach the copy. *)
Lemma node_copy_has_no_ports updates copy :
  follow None updates = Done (Some copy) -> ni_n_inputs copy = 0 /\ ni_n_outputs copy = 0.
Proof.
  assert (forall old, match old with Some o => ni_n_inputs o = 0 /\ ni_n_outputs o = 0 | None => True end ->
    follow old updates = Done (Some copy) -> ni_n_inputs copy = 0 /\ ni_n_outputs copy = 0) as Hgen; [| by apply (Hgen None)].
  induction updates as [|u updates IH]; intros old Hold; cbn [follow]; [by intros [= ->] |].
  intros (c & Hu & Hrun)%obind_Done. apply (IH (Some c)); [| done]. revert Hu. simpl. unfold pinos_node_info_update.
  intros (props & _ & [= <-])%obind_Done. simpl. by destruct old.
Qed.
