(* ===== verification/Core.v ===== *)
(** The objects of the server and who sees them: the core with its globals and its
    registries ([pinos/server/core.c]), clients ([client.c]) and the resources by which
    a client uses an object ([resource.c]).

    The server is one store of objects by address; [NULL] is 0, and following a pointer
    to an object that was freed is undefined. What is sent to a client is the list of
    its messages, each with the id of the resource it is for; [protocol-native.c] turns
    them into bytes (components ProtocolServer and Session). *)
From Stdlib Require Import Ascii String.
From stdpp Require Import gmap pretty.
From S2P Require Import Prelude State Defs Map Interfaces Introspect Properties.
Import Map.

(** ** Types of objects

    The type ids of [PinosType], named by its fields; their names are in [subscribe.h]. *)
Inductive object_type := TypeCore | TypeRegistry | TypeNode | TypeClient | TypeLink | TypeModule.
#[export] Instance object_type_eq : EqDecision object_type.
Proof. solve_decision. Defined.

Definition text (s : string) : bytes := map (fun c => Z.of_N (N_of_ascii c)) (list_ascii_of_string s).
Definition PINOS_TYPE__Core : bytes := text "Pinos:Object:Core".
Definition PINOS_TYPE__Registry : bytes := text "Pinos:Object:Registry".
Definition PINOS_TYPE__Node : bytes := text "Pinos:Object:Node".
Definition PINOS_TYPE__Client : bytes := text "Pinos:Object:Client".
Definition PINOS_TYPE__Link : bytes := text "Pinos:Object:Link".
Definition PINOS_TYPE__Module : bytes := text "Pinos:Object:Module".

(** [spa_type_map_get_type (this->type.map, type)] *)
Definition type_name (type : object_type) : bytes :=
  match type with
  | TypeCore => PINOS_TYPE__Core
  | TypeRegistry => PINOS_TYPE__Registry
  | TypeNode => PINOS_TYPE__Node
  | TypeClient => PINOS_TYPE__Client
  | TypeLink => PINOS_TYPE__Link
  | TypeModule => PINOS_TYPE__Module
  end.

(** ** Messages *)

(** What a client calls, and what the server sends. *)
Inductive call := CoreCall (m : core_method) | RegistryCall (m : registry_method).
Inductive event := CoreEvent (e : core_event) | RegistryEvent (e : registry_event) | InfoEvent (e : info_event).

(** ** Objects *)

(** The functions globals and resources are given. *)
Inductive PinosBindFunc := core_bind | client_bind | node_bind | link_bind | module_bind.
Inductive PinosDestroy := core_unbind | destroy_registry | client_unbind | node_unbind | link_unbind.

Record PinosGlobal := mkGlobal {
  global_id : Z; global_owner : Z; global_type : object_type; global_object : Z; global_bind : option PinosBindFunc }.

Record PinosResource := mkResource {
  resource_id : Z; resource_client : Z; resource_type : object_type; resource_object : Z; resource_destroy : option PinosDestroy }.

(** [resource_list]: the resources bound to the client object, of this or other clients. *)
Record PinosClient := mkClient {
  client_global : Z; client_core_resource : Z; client_objects : PinosMap; client_resource_list : list Z;
  client_properties : option (list (bytes * str)); client_info : PinosClientInfo; client_sent : list (Z * event) }.

Definition client_with_global (x : Z) (c : PinosClient) : PinosClient :=
  mkClient x (client_core_resource c) (client_objects c) (client_resource_list c) (client_properties c) (client_info c) (client_sent c).
Definition client_with_core_resource (x : Z) (c : PinosClient) : PinosClient :=
  mkClient (client_global c) x (client_objects c) (client_resource_list c) (client_properties c) (client_info c) (client_sent c).
Definition client_with_objects (x : PinosMap) (c : PinosClient) : PinosClient :=
  mkClient (client_global c) (client_core_resource c) x (client_resource_list c) (client_properties c) (client_info c) (client_sent c).
Definition client_with_resource_list (x : list Z) (c : PinosClient) : PinosClient :=
  mkClient (client_global c) (client_core_resource c) (client_objects c) x (client_properties c) (client_info c) (client_sent c).
Definition client_with_info (p : option (list (bytes * str))) (x : PinosClientInfo) (c : PinosClient) : PinosClient :=
  mkClient (client_global c) (client_core_resource c) (client_objects c) (client_resource_list c) p x (client_sent c).
Definition client_with_sent (x : list (Z * event)) (c : PinosClient) : PinosClient :=
  mkClient (client_global c) (client_core_resource c) (client_objects c) (client_resource_list c) (client_properties c) (client_info c) x.

(** What the registry needs of a node, a link or a module: its resources, and the
    information it publishes. Their own behaviour is in the components Graph and Topology. *)
Record PinosObject := mkObject { object_global : Z; object_resource_list : list Z; object_info : info_event }.
Definition object_with_resource_list (x : list Z) (o : PinosObject) : PinosObject := mkObject (object_global o) x (object_info o).
Definition object_with_info (x : info_event) (o : PinosObject) : PinosObject := mkObject (object_global o) (object_resource_list o) x.

(** The core with everything it leads to; [allocated] counts allocations. *)
Record PinosCore := mkCore {
  core_global : Z; core_info : PinosCoreInfo; core_properties : option (list (bytes * str));
  core_objects : PinosMap;
  resource_list : list Z; registry_resource_list : list Z; global_list : list Z; client_list : list Z;
  globals : gmap Z PinosGlobal; resources : gmap Z PinosResource; clients : gmap Z PinosClient; objects : gmap Z PinosObject;
  allocated : Z }.

Definition with_core_global (x : Z) (g : PinosCore) : PinosCore :=
  mkCore x (core_info g) (core_properties g) (core_objects g) (resource_list g) (registry_resource_list g) (global_list g) (client_list g) (globals g) (resources g) (clients g) (objects g) (allocated g).
Definition with_core_info (p : option (list (bytes * str))) (x : PinosCoreInfo) (g : PinosCore) : PinosCore :=
  mkCore (core_global g) x p (core_objects g) (resource_list g) (registry_resource_list g) (global_list g) (client_list g) (globals g) (resources g) (clients g) (objects g) (allocated g).
Definition with_core_objects (x : PinosMap) (g : PinosCore) : PinosCore :=
  mkCore (core_global g) (core_info g) (core_properties g) x (resource_list g) (registry_resource_list g) (global_list g) (client_list g) (globals g) (resources g) (clients g) (objects g) (allocated g).
Definition with_resource_list (x : list Z) (g : PinosCore) : PinosCore :=
  mkCore (core_global g) (core_info g) (core_properties g) (core_objects g) x (registry_resource_list g) (global_list g) (client_list g) (globals g) (resources g) (clients g) (objects g) (allocated g).
Definition with_registry_resource_list (x : list Z) (g : PinosCore) : PinosCore :=
  mkCore (core_global g) (core_info g) (core_properties g) (core_objects g) (resource_list g) x (global_list g) (client_list g) (globals g) (resources g) (clients g) (objects g) (allocated g).
Definition with_global_list (x : list Z) (g : PinosCore) : PinosCore :=
  mkCore (core_global g) (core_info g) (core_properties g) (core_objects g) (resource_list g) (registry_resource_list g) x (client_list g) (globals g) (resources g) (clients g) (objects g) (allocated g).
Definition with_client_list (x : list Z) (g : PinosCore) : PinosCore :=
  mkCore (core_global g) (core_info g) (core_properties g) (core_objects g) (resource_list g) (registry_resource_list g) (global_list g) x (globals g) (resources g) (clients g) (objects g) (allocated g).
Definition with_globals (x : gmap Z PinosGlobal) (g : PinosCore) : PinosCore :=
  mkCore (core_global g) (core_info g) (core_properties g) (core_objects g) (resource_list g) (registry_resource_list g) (global_list g) (client_list g) x (resources g) (clients g) (objects g) (allocated g).
Definition with_resources (x : gmap Z PinosResource) (g : PinosCore) : PinosCore :=
  mkCore (core_global g) (core_info g) (core_properties g) (core_objects g) (resource_list g) (registry_resource_list g) (global_list g) (client_list g) (globals g) x (clients g) (objects g) (allocated g).
Definition with_clients (x : gmap Z PinosClient) (g : PinosCore) : PinosCore :=
  mkCore (core_global g) (core_info g) (core_properties g) (core_objects g) (resource_list g) (registry_resource_list g) (global_list g) (client_list g) (globals g) (resources g) x (objects g) (allocated g).
Definition with_objects (x : gmap Z PinosObject) (g : PinosCore) : PinosCore :=
  mkCore (core_global g) (core_info g) (core_properties g) (core_objects g) (resource_list g) (registry_resource_list g) (global_list g) (client_list g) (globals g) (resources g) (clients g) x (allocated g).
Definition with_allocated (x : Z) (g : PinosCore) : PinosCore :=
  mkCore (core_global g) (core_info g) (core_properties g) (core_objects g) (resource_list g) (registry_resource_list g) (global_list g) (client_list g) (globals g) (resources g) (clients g) (objects g) x.

Abbreviation Core := (ST PinosCore).

Definition get_global (p : Z) : Core PinosGlobal := x <- gets (fun g => globals g !! p) ;; lift (of_option x).
Definition get_resource (p : Z) : Core PinosResource := x <- gets (fun g => resources g !! p) ;; lift (of_option x).
Definition get_client (p : Z) : Core PinosClient := x <- gets (fun g => clients g !! p) ;; lift (of_option x).
Definition get_object (p : Z) : Core PinosObject := x <- gets (fun g => objects g !! p) ;; lift (of_option x).

Definition put_global (p : Z) (x : PinosGlobal) : Core unit := modify (fun g => with_globals (<[p := x]> (globals g)) g).
Definition put_resource (p : Z) (x : PinosResource) : Core unit := modify (fun g => with_resources (<[p := x]> (resources g)) g).
Definition put_client (p : Z) (x : PinosClient) : Core unit := modify (fun g => with_clients (<[p := x]> (clients g)) g).
Definition put_object (p : Z) (x : PinosObject) : Core unit := modify (fun g => with_objects (<[p := x]> (objects g)) g).
Definition update_client (p : Z) (f : PinosClient -> PinosClient) : Core unit := c <- get_client p ;; put_client p (f c).
Definition update_object (p : Z) (f : PinosObject -> PinosObject) : Core unit := o <- get_object p ;; put_object p (f o).

(** [spa_list_remove] of a link that is in this list. *)
Definition unlink (p : Z) (l : list Z) : list Z := filter (fun q => q <> p) l.

(** The lists that resources are linked into: that of the core, of the registries, of the
    client objects, and of the nodes and links. *)
Inductive holder := OfCore | OfRegistries | OfClient (a : Z) | OfObject (o : Z).
#[export] Instance holder_eq : EqDecision holder.
Proof. solve_decision. Defined.

Definition holder_of (destroy : PinosDestroy) (object : Z) : holder :=
  match destroy with
  | core_unbind => OfCore
  | destroy_registry => OfRegistries
  | client_unbind => OfClient object
  | node_unbind | link_unbind => OfObject object
  end.
Definition edit_list (h : holder) (f : list Z -> list Z) : Core unit :=
  match h with
  | OfCore => modify (fun g => with_resource_list (f (resource_list g)) g)
  | OfRegistries => modify (fun g => with_registry_resource_list (f (registry_resource_list g)) g)
  | OfClient a => update_client a (fun c => client_with_resource_list (f (client_resource_list c)) c)
  | OfObject o => update_object o (fun o => object_with_resource_list (f (object_resource_list o)) o)
  end.
(** [spa_list_insert (list.prev, &resource->link)] *)
Definition append (h : holder) (p : Z) : Core unit := edit_list h (fun l => l ++ [p]).

Section Core.
(** Which allocations are granted: the [n]-th object, an array of so many bytes. And what
    the access module answers ([client], [global]); always yes without one. *)
Context (calloc_ok realloc_ok : Z -> bool) (view_global : Z -> PinosGlobal -> bool).

(** Objects are 16 bytes apart, below the end of the address space. *)
Definition address (n : Z) : Z := 16 * (n + 1).
Definition calloc : Core Z :=
  n <- gets allocated ;;
  modify (with_allocated (n + 1)) ;;;
  ret (if calloc_ok n && (address n <? 2 ^ 47) then address n else 0).

Definition insert_new (m : PinosMap) (p : Z) : Core (Z * PinosMap) := lift (of_option (pinos_map_insert_new realloc_ok m p)).
Definition insert_at (m : PinosMap) (id p : Z) : Core (bool * PinosMap) := lift (of_option (pinos_map_insert_at realloc_ok m id p)).
Definition map_init (size extend : Z) : Core PinosMap := lift (of_option (pinos_map_init realloc_ok size extend)).

(** ** Resources *)

(** Sending an event on a resource. *)
Definition notify (p : Z) (e : event) : Core unit :=
  r <- get_resource p ;;
  update_client (resource_client r) (fun c => client_with_sent (client_sent c ++ [(resource_id r, e)]) c).
Definition pinos_core_notify_error (p id res : Z) (error : bytes) : Core unit := notify p (CoreEvent (CoreError id res (Some error))).
Definition pinos_core_notify_remove_id (p id : Z) : Core unit := notify p (CoreEvent (CoreRemoveId id)).

(** The id that [pinos_map_insert_new] chose is overwritten, as in the code. *)
Definition pinos_resource_new (client id : Z) (type : object_type) (object : Z) (destroy : option PinosDestroy) : Core Z :=
  this <- calloc ;;
  if this =? 0 then ret 0 else
  c <- get_client client ;;
  inserted <- (if id =? SPA_ID_INVALID then '(_, m) <- insert_new (client_objects c) this ;; ret (true, m)
               else insert_at (client_objects c) id this) ;;
  update_client client (client_with_objects (snd inserted)) ;;;
  if negb (fst inserted) then ret 0 else
  put_resource this (mkResource id client type object destroy) ;;;
  ret this.

(** [resource->destroy (resource)]: the link is in the list of its holder. *)
Definition run_destroy (destroy : PinosDestroy) (p : Z) (r : PinosResource) : Core unit :=
  match destroy with
  | core_unbind => update_client (resource_client r) (client_with_core_resource 0)
  | _ => ret tt
  end ;;;
  edit_list (holder_of destroy (resource_object r)) (unlink p).

Definition pinos_resource_destroy (p : Z) : Core unit :=
  r <- get_resource p ;;
  c <- get_client (resource_client r) ;;
  '(_, m) <- insert_at (client_objects c) (resource_id r) 0 ;;
  update_client (resource_client r) (client_with_objects m) ;;;
  match resource_destroy r with Some destroy => run_destroy destroy p r | None => ret tt end ;;;
  c <- get_client (resource_client r) ;;
  when (negb (client_core_resource c =? 0)) (pinos_core_notify_remove_id (client_core_resource c) (resource_id r)) ;;;
  modify (fun g => with_resources (delete p (resources g)) g).

(** ** Globals *)

Definition ACCESS_VIEW_GLOBAL (client : Z) (global : PinosGlobal) : bool := view_global client global.

(** Telling the registries that may see the global. *)
Definition notify_registries (global : PinosGlobal) (e : registry_event) : Core unit :=
  registries <- gets registry_resource_list ;;
  each registries (fun registry =>
    r <- get_resource registry ;;
    when (ACCESS_VIEW_GLOBAL (resource_client r) global) (notify registry (RegistryEvent e))).

Definition pinos_core_add_global (owner : Z) (type : object_type) (object : Z) (bind : option PinosBindFunc) : Core Z :=
  this <- calloc ;;
  if this =? 0 then ret 0 else
  m <- gets core_objects ;;
  '(id, m) <- insert_new m this ;;
  modify (with_core_objects m) ;;;
  let global := mkGlobal id owner type object bind in
  put_global this global ;;;
  modify (fun g => with_global_list (global_list g ++ [this]) g) ;;;
  notify_registries global (RegistryGlobal id (Some (type_name type))) ;;;
  ret this.

Definition pinos_global_destroy (p : Z) : Core unit :=
  global <- get_global p ;;
  notify_registries global (RegistryGlobalRemove (global_id global)) ;;;
  m <- gets core_objects ;;
  m <- lift (of_option (pinos_map_remove m (global_id global))) ;;
  modify (with_core_objects m) ;;;
  modify (fun g => with_global_list (unlink p (global_list g)) g) ;;;
  modify (fun g => with_globals (delete p (globals g)) g).

(** *** Binding *)

Definition no_memory_text : bytes := text "no memory".

Definition core_bind_func (global : PinosGlobal) (client id : Z) : Core Z :=
  resource <- pinos_resource_new client id (global_type global) (global_object global) (Some core_unbind) ;;
  if resource =? 0 then ret SPA_RESULT_NO_MEMORY else
  append OfCore resource ;;;
  update_client client (client_with_core_resource resource) ;;;
  info <- gets core_info ;;
  props <- gets core_properties ;;
  let info := mkCoreInfo (ci_id info) ALL (ci_user_name info) (ci_host_name info) (ci_version info) (ci_name info) (ci_cookie info) (ci_props info) in
  modify (with_core_info props info) ;;;
  notify resource (CoreEvent (CoreInfo info)) ;;;
  ret SPA_RESULT_OK.

(** The error the other functions report, on the resource of the core. *)
Definition bind_no_memory (client : Z) : Core Z :=
  c <- get_client client ;;
  r <- get_resource (client_core_resource c) ;;
  pinos_core_notify_error (client_core_resource c) (resource_id r) SPA_RESULT_NO_MEMORY no_memory_text ;;;
  ret SPA_RESULT_NO_MEMORY.

Definition client_bind_func (global : PinosGlobal) (client id : Z) : Core Z :=
  resource <- pinos_resource_new client id (global_type global) (global_object global) (Some client_unbind) ;;
  if resource =? 0 then bind_no_memory client else
  append (OfClient (global_object global)) resource ;;;
  this <- get_client (global_object global) ;;
  let info := mkClientInfo (cli_id (client_info this)) ALL (cli_props (client_info this)) in
  put_client (global_object global) (client_with_info (client_properties this) info this) ;;;
  notify resource (InfoEvent (ClientInfo info)) ;;;
  ret SPA_RESULT_OK.

(** Nodes and links differ in the information they send. *)
Definition object_bind_func (unbind : PinosDestroy) (global : PinosGlobal) (client id : Z) : Core Z :=
  resource <- pinos_resource_new client id (global_type global) (global_object global) (Some unbind) ;;
  if resource =? 0 then bind_no_memory client else
  append (OfObject (global_object global)) resource ;;;
  this <- get_object (global_object global) ;;
  notify resource (InfoEvent (object_info this)) ;;;
  ret SPA_RESULT_OK.
Definition node_bind_func : PinosGlobal -> Z -> Z -> Core Z := object_bind_func node_unbind.
Definition link_bind_func : PinosGlobal -> Z -> Z -> Core Z := object_bind_func link_unbind.

(** A module keeps no list of its resources. *)
Definition module_bind_func (global : PinosGlobal) (client id : Z) : Core Z :=
  resource <- pinos_resource_new client id (global_type global) (global_object global) None ;;
  if resource =? 0 then bind_no_memory client else
  this <- get_object (global_object global) ;;
  notify resource (InfoEvent (object_info this)) ;;;
  ret SPA_RESULT_OK.

Definition run_bind (bind : PinosBindFunc) : PinosGlobal -> Z -> Z -> Core Z :=
  match bind with
  | core_bind => core_bind_func
  | client_bind => client_bind_func
  | node_bind => node_bind_func
  | link_bind => link_bind_func
  | module_bind => module_bind_func
  end.

Definition pinos_global_bind (p client id : Z) : Core Z :=
  global <- get_global p ;;
  match global_bind global with
  | Some bind => run_bind bind global client id
  | None =>
      c <- get_client client ;;
      r <- get_resource (client_core_resource c) ;;
      pinos_core_notify_error (client_core_resource c) (resource_id r) SPA_RESULT_NOT_IMPLEMENTED (text ("can't bind object id " ++ pretty (i32 id))) ;;;
      ret SPA_RESULT_NOT_IMPLEMENTED
  end.

(** ** The calls of clients

    [resource] is the resource the call is for. *)

Definition set_properties (props : option (list (bytes * str))) (d : dict) : Core (option (list (bytes * str))) :=
  match props, d with
  | None, d => ret d
  | Some props, None => undef
  | Some props, Some items =>
      (** what comes from a client has no [NULL] value, so that nothing is removed *)
      if forallb (fun kv : bytes * str => if snd kv then true else false) items
      then ret (Some (foldl (fun l kv => set_property l (fst kv) (snd kv)) props items)) else undef
  end.

Definition pinos_client_update_properties (client : Z) (d : dict) : Core unit :=
  this <- get_client client ;;
  props <- set_properties (client_properties this) d ;;
  let info := mkClientInfo (cli_id (client_info this)) 1 props in
  put_client client (client_with_info props info this) ;;;
  each (client_resource_list this) (fun resource => notify resource (InfoEvent (ClientInfo info))).

Definition pinos_core_update_properties (d : dict) : Core unit :=
  props <- gets core_properties ;;
  props <- set_properties props d ;;
  info <- gets core_info ;;
  let info := mkCoreInfo (ci_id info) (2 ^ 5) (ci_user_name info) (ci_host_name info) (ci_version info) (ci_name info) (ci_cookie info) props in
  modify (with_core_info props info) ;;;
  resources <- gets resource_list ;;
  each resources (fun resource => notify resource (CoreEvent (CoreInfo info))).

Definition registry_bind (resource id new_id : Z) : Core unit :=
  r <- get_resource resource ;;
  let client := resource_client r in
  list <- gets global_list ;;
  all <- gets globals ;;
  match List.find (fun p => match all !! p with Some global => global_id global =? id | None => false end) list with
  | Some p =>
      global <- get_global p ;;
      if ACCESS_VIEW_GLOBAL client global then pinos_global_bind p client new_id ;;; ret tt
      else
        c <- get_client client ;;
        '(_, m) <- insert_at (client_objects c) new_id 0 ;;
        update_client client (client_with_objects m) ;;;
        pinos_core_notify_remove_id (client_core_resource c) new_id
  | None =>
      c <- get_client client ;;
      '(_, m) <- insert_at (client_objects c) new_id 0 ;;
      update_client client (client_with_objects m) ;;;
      pinos_core_notify_remove_id (client_core_resource c) new_id
  end.

Definition core_client_update (resource : Z) (props : dict) : Core unit :=
  r <- get_resource resource ;;
  pinos_client_update_properties (resource_client r) props.

Definition core_sync (resource seq : Z) : Core unit := notify resource (CoreEvent (CoreDone seq)).

Definition core_get_registry (resource new_id : Z) : Core unit :=
  r <- get_resource resource ;;
  let client := resource_client r in
  registry_resource <- pinos_resource_new client new_id TypeRegistry 0 (Some destroy_registry) ;;
  if registry_resource =? 0 then
    c <- get_client client ;;
    pinos_core_notify_error (client_core_resource c) (resource_id r) SPA_RESULT_NO_MEMORY no_memory_text
  else
    append OfRegistries registry_resource ;;;
    list <- gets global_list ;;
    each list (fun p =>
      global <- get_global p ;;
      when (ACCESS_VIEW_GLOBAL client global)
        (notify registry_resource (RegistryEvent (RegistryGlobal (global_id global) (Some (type_name (global_type global))))))).

Definition core_create_node (resource : Z) : Core unit :=
  r <- get_resource resource ;;
  c <- get_client (resource_client r) ;;
  pinos_core_notify_error (client_core_resource c) (resource_id r) SPA_RESULT_NOT_IMPLEMENTED (text "not implemented").

(** ** Objects come and go *)

(** [init_complete] of a node, and the same calls of links and modules: a new object gets
    its global. *)
Definition new_object (owner : Z) (type : object_type) (bind : PinosBindFunc) (info : info_event) : Core Z :=
  this <- calloc ;;
  if this =? 0 then ret 0 else
  put_object this (mkObject 0 [] info) ;;;
  global <- pinos_core_add_global owner type this (Some bind) ;;
  update_object this (fun o => mkObject global (object_resource_list o) (object_info o)) ;;;
  ret this.

(** The global and the resources of a node or link that is destroyed, and the object itself
    when nothing else refers to it any more. *)
Definition destroy_object (p : Z) : Core unit :=
  this <- get_object p ;;
  pinos_global_destroy (object_global this) ;;;
  this <- get_object p ;;
  each (object_resource_list this) pinos_resource_destroy ;;;
  modify (fun g => with_objects (delete p (objects g)) g).

(** Announcing a change, as [pinos_node_update_state] does. *)
Definition announce_object (p : Z) (info announcement : info_event) : Core unit :=
  update_object p (object_with_info info) ;;;
  this <- get_object p ;;
  each (object_resource_list this) (fun resource => notify resource (InfoEvent announcement)).

(** ** Clients come and go *)

Definition pinos_client_new (properties : option (list (bytes * str))) : Core Z :=
  this <- calloc ;;
  if this =? 0 then ret 0 else
  m <- map_init 0 32 ;;
  put_client this (mkClient 0 0 m [] properties (mkClientInfo 0 0 None) []) ;;;
  modify (fun g => with_client_list (client_list g ++ [this]) g) ;;;
  global <- pinos_core_add_global this TypeClient this (Some client_bind) ;;
  update_client this (client_with_global global) ;;;
  g <- get_global global ;;
  update_client this (client_with_info properties (mkClientInfo (global_id g) 0 properties)) ;;;
  ret this.

(** [client_new] of the protocol module: the core is bound at id 0. *)
Definition client_new : Core Z :=
  client <- pinos_client_new None ;;
  if client =? 0 then ret 0 else
  core <- gets core_global ;;
  pinos_global_bind core client 0 ;;;
  ret client.

(** [pinos_map_for_each (&client->objects, destroy_resource, client)], reading each slot
    when its turn comes; [n] slots to go. *)
Fixpoint destroy_resources (client i : Z) (n : nat) : Core unit :=
  match n with
  | O => ret tt
  | S n =>
      c <- get_client client ;;
      w <- lift (of_option (get_item (client_objects c) i)) ;;
      when (negb (w =? 0) && negb (pinos_map_item_is_free w)) (pinos_resource_destroy w) ;;;
      destroy_resources client (i + 1) n
  end.

Definition pinos_client_destroy (client : Z) : Core unit :=
  c <- get_client client ;;
  modify (fun g => with_client_list (unlink client (client_list g)) g) ;;;
  pinos_global_destroy (client_global c) ;;;
  c <- get_client client ;;
  each (client_resource_list c) pinos_resource_destroy ;;;
  c <- get_client client ;;
  destroy_resources client 0 (length (words (client_objects c))) ;;;
  modify (fun g => with_clients (delete client (clients g)) g).

(** ** The server *)

Definition pinos_core_new (properties : option (list (bytes * str))) (user_name host_name : str) (cookie : Z) : outcome PinosCore :=
  let* m := of_option (pinos_map_init realloc_ok 128 32) in
  let g := mkCore 0 (mkCoreInfo 0 0 None None None None 0 None) properties m [] [] [] [] ∅ ∅ ∅ ∅ 0 in
  let* (global, g) := pinos_core_add_global 0 TypeCore 0 (Some core_bind) g in
  let* (x, g) := get_global global g in
  Done (with_core_global global
    (with_core_info properties (mkCoreInfo (global_id x) 0 user_name host_name (Some (text "0")) (Some (text "pinos-0")) cookie properties) g)).

(** A message of a client, as [connection_data] hands it to a resource (component Dispatch).
    The types it announces are kept by the component TypeMap; calling a method of another
    interface and creating nodes in the client are not modelled. *)
Definition handle_call (client dest : Z) (m : call) : Core unit :=
  c <- get_client client ;;
  let resource := pinos_map_lookup (client_objects c) dest in
  if resource =? 0 then ret tt else
  r <- get_resource resource ;;
  match resource_type r, m with
  | TypeCore, CoreCall (CoreClientUpdate props) => core_client_update resource props
  | TypeCore, CoreCall (CoreSync seq) => core_sync resource seq
  | TypeCore, CoreCall (CoreGetRegistry new_id) => core_get_registry resource new_id
  | TypeCore, CoreCall (CoreCreateNode _ _ _ _) => core_create_node resource
  | TypeCore, CoreCall (CoreUpdateTypes _ _) => ret tt
  | TypeRegistry, RegistryCall (RegistryBind id new_id) => registry_bind resource id new_id
  | TypeNode, _ | TypeClient, _ | TypeLink, _ | TypeModule, _ => pinos_client_destroy client
  | _, _ => undef
  end.
End Core.
