(* ===== verification/Context.v ===== *)
(** The client's side of the objects of the server: the context ([pinos/client/context.c])
    and the proxies that stand for resources ([proxy.c]).

    A context is one store of proxies by address, with the map that finds them by id.
    What it calls on the server is the list of its calls, each with the id of the proxy
    it is made on; what it tells the application is a list of notifications. *)
From stdpp Require Import gmap.
From S2P Require Import Prelude State Defs Map Interfaces Introspect Core.
Import Map.

Definition PINOS_CONTEXT_STATE_ERROR : Z := -1.
Definition PINOS_CONTEXT_STATE_UNCONNECTED : Z := 0.
Definition PINOS_CONTEXT_STATE_CONNECTING : Z := 1.
Definition PINOS_CONTEXT_STATE_CONNECTED : Z := 2.

Definition PINOS_CONTEXT_FLAG_NO_REGISTRY : Z := Z.shiftl 1 0.
Definition PINOS_CONTEXT_FLAG_NO_PROXY : Z := Z.shiftl 1 1.

Inductive PinosSubscriptionEvent := PINOS_SUBSCRIPTION_EVENT_NEW | PINOS_SUBSCRIPTION_EVENT_CHANGE | PINOS_SUBSCRIPTION_EVENT_REMOVE.

(** The information kept for an object, [user_data]. *)
Inductive object_info :=
| CoreData (i : PinosCoreInfo) | ModuleData (i : PinosModuleInfo) | NodeData (i : PinosNodeInfo)
| ClientData (i : PinosClientInfo) | LinkData (i : PinosLinkInfo).

Record PinosProxy := mkProxy { proxy_id : Z; proxy_type : object_type; user_data : option object_info }.

(** The signals the application listens to. *)
Inductive notification :=
| StateChanged (state : Z)
| Subscription (e : PinosSubscriptionEvent) (type : option object_type) (id : Z).

(** [PinosContext] and [PinosContextImpl]. *)
Record PinosContext := mkContext {
  ctx_state : Z; ctx_error : str; ctx_objects : PinosMap; proxies : gmap Z PinosProxy; proxy_list : list Z;
  core_proxy : Z; registry_proxy : Z; no_proxy : bool; disconnecting : bool; connection : bool;
  ctx_sent : list (Z * call); notifications : list notification; ctx_allocated : Z }.

Definition ctx_with_state (s : Z) (e : str) (k : PinosContext) : PinosContext :=
  mkContext s e (ctx_objects k) (proxies k) (proxy_list k) (core_proxy k) (registry_proxy k) (no_proxy k) (disconnecting k) (connection k) (ctx_sent k) (notifications k) (ctx_allocated k).
Definition ctx_with_objects (x : PinosMap) (k : PinosContext) : PinosContext :=
  mkContext (ctx_state k) (ctx_error k) x (proxies k) (proxy_list k) (core_proxy k) (registry_proxy k) (no_proxy k) (disconnecting k) (connection k) (ctx_sent k) (notifications k) (ctx_allocated k).
Definition ctx_with_proxies (x : gmap Z PinosProxy) (k : PinosContext) : PinosContext :=
  mkContext (ctx_state k) (ctx_error k) (ctx_objects k) x (proxy_list k) (core_proxy k) (registry_proxy k) (no_proxy k) (disconnecting k) (connection k) (ctx_sent k) (notifications k) (ctx_allocated k).
Definition ctx_with_proxy_list (x : list Z) (k : PinosContext) : PinosContext :=
  mkContext (ctx_state k) (ctx_error k) (ctx_objects k) (proxies k) x (core_proxy k) (registry_proxy k) (no_proxy k) (disconnecting k) (connection k) (ctx_sent k) (notifications k) (ctx_allocated k).
Definition ctx_with_core_proxy (x : Z) (k : PinosContext) : PinosContext :=
  mkContext (ctx_state k) (ctx_error k) (ctx_objects k) (proxies k) (proxy_list k) x (registry_proxy k) (no_proxy k) (disconnecting k) (connection k) (ctx_sent k) (notifications k) (ctx_allocated k).
Definition ctx_with_registry_proxy (x : Z) (k : PinosContext) : PinosContext :=
  mkContext (ctx_state k) (ctx_error k) (ctx_objects k) (proxies k) (proxy_list k) (core_proxy k) x (no_proxy k) (disconnecting k) (connection k) (ctx_sent k) (notifications k) (ctx_allocated k).
Definition ctx_with_no_proxy (x : bool) (k : PinosContext) : PinosContext :=
  mkContext (ctx_state k) (ctx_error k) (ctx_objects k) (proxies k) (proxy_list k) (core_proxy k) (registry_proxy k) x (disconnecting k) (connection k) (ctx_sent k) (notifications k) (ctx_allocated k).
Definition ctx_with_connection (d c : bool) (k : PinosContext) : PinosContext :=
  mkContext (ctx_state k) (ctx_error k) (ctx_objects k) (proxies k) (proxy_list k) (core_proxy k) (registry_proxy k) (no_proxy k) d c (ctx_sent k) (notifications k) (ctx_allocated k).
Definition ctx_with_sent (x : list (Z * call)) (k : PinosContext) : PinosContext :=
  mkContext (ctx_state k) (ctx_error k) (ctx_objects k) (proxies k) (proxy_list k) (core_proxy k) (registry_proxy k) (no_proxy k) (disconnecting k) (connection k) x (notifications k) (ctx_allocated k).
Definition ctx_with_notifications (x : list notification) (k : PinosContext) : PinosContext :=
  mkContext (ctx_state k) (ctx_error k) (ctx_objects k) (proxies k) (proxy_list k) (core_proxy k) (registry_proxy k) (no_proxy k) (disconnecting k) (connection k) (ctx_sent k) x (ctx_allocated k).
Definition ctx_with_allocated (x : Z) (k : PinosContext) : PinosContext :=
  mkContext (ctx_state k) (ctx_error k) (ctx_objects k) (proxies k) (proxy_list k) (core_proxy k) (registry_proxy k) (no_proxy k) (disconnecting k) (connection k) (ctx_sent k) (notifications k) x.

Abbreviation Client := (ST PinosContext).

Definition get_proxy (p : Z) : Client PinosProxy := x <- gets (fun k => proxies k !! p) ;; lift (of_option x).
Definition put_proxy (p : Z) (x : PinosProxy) : Client unit := modify (fun k => ctx_with_proxies (<[p := x]> (proxies k)) k).
Definition tell (n : notification) : Client unit := modify (fun k => ctx_with_notifications (notifications k ++ [n]) k).

(** A call on a proxy, marshalled while there is a connection. *)
Definition do_call (p : Z) (m : call) : Client unit :=
  proxy <- get_proxy p ;;
  modify (fun k => if connection k then ctx_with_sent (ctx_sent k ++ [(proxy_id proxy, m)]) k else k).

Section Context_.
Context (calloc_ok realloc_ok : Z -> bool).

Definition ctx_calloc : Client Z :=
  n <- gets ctx_allocated ;;
  modify (ctx_with_allocated (n + 1)) ;;;
  ret (if calloc_ok n && (address n <? 2 ^ 47) then address n else 0).

(** ** Proxies *)

Definition pinos_proxy_new (id : Z) (type : object_type) : Client Z :=
  this <- ctx_calloc ;;
  if this =? 0 then ret 0 else
  m <- gets ctx_objects ;;
  inserted <- (if id =? SPA_ID_INVALID
               then '(id, m) <- lift (of_option (pinos_map_insert_new realloc_ok m this)) ;; ret (id, true, m)
               else '(ok, m) <- lift (of_option (pinos_map_insert_at realloc_ok m id this)) ;; ret (id, ok, m)) ;;
  let '(id, ok, m) := inserted in
  modify (ctx_with_objects m) ;;;
  if negb ok then ret 0 else
  put_proxy this (mkProxy id type None) ;;;
  modify (fun k => ctx_with_proxy_list (this :: proxy_list k) k) ;;;
  ret this.

Definition pinos_proxy_destroy (p : Z) : Client unit :=
  proxy <- get_proxy p ;;
  m <- gets ctx_objects ;;
  m <- lift (of_option (pinos_map_remove m (proxy_id proxy))) ;;
  modify (ctx_with_objects m) ;;;
  modify (fun k => ctx_with_proxy_list (unlink p (proxy_list k)) k) ;;;
  modify (fun k => ctx_with_proxies (delete p (proxies k)) k).

(** ** Events of the server

    [p] is the proxy an event is for. *)

Definition context_set_state (state : Z) (error : str) : Client unit :=
  old <- gets ctx_state ;;
  when (negb (old =? state)) (modify (ctx_with_state state error) ;;; tell (StateChanged state)).

(** The functions of [introspect.c], by the kind of information. *)
Definition update_data {T} (wrap : T -> object_info) (unwrap : object_info -> option T) (update : option T -> T -> outcome T) (info : T)
    (p : Z) : Client unit :=
  proxy <- get_proxy p ;;
  let e := if user_data proxy then PINOS_SUBSCRIPTION_EVENT_CHANGE else PINOS_SUBSCRIPTION_EVENT_NEW in
  data <- lift (update (d ← user_data proxy; unwrap d) info) ;;
  put_proxy p (mkProxy (proxy_id proxy) (proxy_type proxy) (Some (wrap data))) ;;;
  tell (Subscription e (Some (proxy_type proxy)) (proxy_id proxy)).

Definition core_data (d : object_info) : option PinosCoreInfo := match d with CoreData i => Some i | _ => None end.
Definition module_data (d : object_info) : option PinosModuleInfo := match d with ModuleData i => Some i | _ => None end.
Definition node_data (d : object_info) : option PinosNodeInfo := match d with NodeData i => Some i | _ => None end.
Definition client_data (d : object_info) : option PinosClientInfo := match d with ClientData i => Some i | _ => None end.
Definition link_data (d : object_info) : option PinosLinkInfo := match d with LinkData i => Some i | _ => None end.

Definition core_event_info (p : Z) (info : PinosCoreInfo) : Client unit := update_data CoreData core_data pinos_core_info_update info p.
Definition module_event_info (p : Z) (info : PinosModuleInfo) : Client unit := update_data ModuleData module_data pinos_module_info_update info p.
Definition node_event_info (p : Z) (info : PinosNodeInfo) : Client unit := update_data NodeData node_data pinos_node_info_update info p.
Definition client_event_info (p : Z) (info : PinosClientInfo) : Client unit := update_data ClientData client_data pinos_client_info_update info p.
Definition link_event_info (p : Z) (info : PinosLinkInfo) : Client unit := update_data LinkData link_data pinos_link_info_update info p.

Definition core_event_done (seq : Z) : Client unit :=
  if seq =? 0 then core <- gets core_proxy ;; do_call core (CoreCall (CoreSync 1))
  else when (seq =? 1) (context_set_state PINOS_CONTEXT_STATE_CONNECTED None).

Definition core_event_error (error : str) : Client unit := context_set_state PINOS_CONTEXT_STATE_ERROR error.

Definition core_event_remove_id (id : Z) : Client unit :=
  m <- gets ctx_objects ;;
  let proxy := pinos_map_lookup m id in
  when (negb (proxy =? 0)) (pinos_proxy_destroy proxy).

(** The type of proxy for the name of a type; other types are left alone. *)
Definition proxy_type_of (name : bytes) : option object_type :=
  if streq name PINOS_TYPE__Node then Some TypeNode
  else if streq name PINOS_TYPE__Module then Some TypeModule
  else if streq name PINOS_TYPE__Client then Some TypeClient
  else if streq name PINOS_TYPE__Link then Some TypeLink
  else None.

(** [strcmp] of [NULL] is undefined. *)
Definition registry_event_global (p id : Z) (type : str) : Client unit :=
  ignore <- gets no_proxy ;;
  if (ignore : bool) then ret tt else
  name <- lift (of_option type) ;;
  match proxy_type_of name with
  | Some t =>
      proxy <- pinos_proxy_new SPA_ID_INVALID t ;;
      if proxy =? 0 then ret tt else
      x <- get_proxy proxy ;;
      do_call p (RegistryCall (RegistryBind id (proxy_id x)))
  | None => ret tt
  end.

Definition registry_event_global_remove (id : Z) : Client unit :=
  tell (Subscription PINOS_SUBSCRIPTION_EVENT_REMOVE None id).

(** An event, as [on_context_data] hands it to a proxy (component Dispatch). The types the
    server announces are kept by the component TypeMap; the events of another interface
    are refused by the demarshal functions, and dropped. *)
Definition handle_event (dest : Z) (e : event) : Client unit :=
  stop <- gets disconnecting ;;
  if (stop : bool) then ret tt else
  m <- gets ctx_objects ;;
  let p := pinos_map_lookup m dest in
  if p =? 0 then ret tt else
  proxy <- get_proxy p ;;
  match proxy_type proxy, e with
  | TypeCore, CoreEvent (CoreInfo info) => core_event_info p info
  | TypeCore, CoreEvent (CoreDone seq) => core_event_done seq
  | TypeCore, CoreEvent (CoreError _ _ error) => core_event_error error
  | TypeCore, CoreEvent (CoreRemoveId id) => core_event_remove_id id
  | TypeCore, CoreEvent (CoreEvUpdateTypes _ _) => ret tt
  | TypeRegistry, RegistryEvent (RegistryGlobal id type) => registry_event_global p id type
  | TypeRegistry, RegistryEvent (RegistryGlobalRemove id) => registry_event_global_remove id
  | TypeModule, InfoEvent (ModuleInfo info) => module_event_info p info
  | TypeNode, InfoEvent (NodeInfo info) => node_event_info p info
  | TypeClient, InfoEvent (ClientInfo info) => client_event_info p info
  | TypeLink, InfoEvent (LinkInfo info) => link_event_info p info
  | _, _ => ret tt
  end.

(** ** The context *)

Definition pinos_context_new : outcome PinosContext :=
  let* m := of_option (pinos_map_init realloc_ok 64 32) in
  Done (mkContext PINOS_CONTEXT_STATE_UNCONNECTED None m ∅ [] 0 0 false false false [] [] 0).

(** With a connected socket; [properties] are those of the context. *)
Definition pinos_context_connect_fd (flags : Z) (properties : dict) : Client bool :=
  context_set_state PINOS_CONTEXT_STATE_CONNECTING None ;;;
  modify (ctx_with_connection false true) ;;;
  core <- pinos_proxy_new 0 TypeCore ;;
  modify (ctx_with_core_proxy core) ;;;
  if core =? 0 then modify (ctx_with_connection false false) ;;; ret false else
  do_call core (CoreCall (CoreClientUpdate properties)) ;;;
  ok <- (if Z.land flags PINOS_CONTEXT_FLAG_NO_REGISTRY =? 0 then
           registry <- pinos_proxy_new SPA_ID_INVALID TypeRegistry ;;
           modify (ctx_with_registry_proxy registry) ;;;
           if registry =? 0 then
             pinos_proxy_destroy core ;;; modify (ctx_with_connection false false) ;;; ret false
           else
             x <- get_proxy registry ;;
             do_call core (CoreCall (CoreGetRegistry (proxy_id x))) ;;; ret true
         else ret true) ;;
  if negb ok then ret false else
  modify (ctx_with_no_proxy (negb (Z.land flags PINOS_CONTEXT_FLAG_NO_PROXY =? 0))) ;;;
  do_call core (CoreCall (CoreSync 0)) ;;;
  ret true.

Definition pinos_context_disconnect : Client bool :=
  modify (fun k => ctx_with_connection true (connection k) k) ;;;
  registry <- gets registry_proxy ;;
  when (negb (registry =? 0)) (pinos_proxy_destroy registry) ;;;
  modify (ctx_with_registry_proxy 0) ;;;
  core <- gets core_proxy ;;
  when (negb (core =? 0)) (pinos_proxy_destroy core) ;;;
  modify (ctx_with_core_proxy 0) ;;;
  modify (ctx_with_connection true false) ;;;
  context_set_state PINOS_CONTEXT_STATE_UNCONNECTED None ;;;
  ret true.

(** *** What is known of the objects *)

(** The answers a callback gets, ended by [SPA_RESULT_ENUM_END]. *)
Definition do_list (type : object_type) : Client (list object_info) :=
  m <- gets ctx_objects ;;
  all <- gets proxies ;;
  lift (foldr (fun w rest =>
    if pinos_map_item_is_free w then rest
    else let* proxy := of_option (all !! w) in
         let* l := rest in
         Done (if decide (proxy_type proxy = type) then match user_data proxy with Some d => d :: l | None => l end else l))
    (Done []) (words m)).

(** The information on one object: [SPA_RESULT_INVALID_OBJECT_ID] or what is known. The
    callback clears the change mask. *)
Definition clear_mask (d : object_info) : object_info :=
  match d with
  | CoreData i => CoreData (mkCoreInfo (ci_id i) 0 (ci_user_name i) (ci_host_name i) (ci_version i) (ci_name i) (ci_cookie i) (ci_props i))
  | ModuleData i => ModuleData (mkModuleInfo (mi_id i) 0 (mi_name i) (mi_filename i) (mi_args i) (mi_props i))
  | NodeData i => NodeData (mkNodeInfo (ni_id i) 0 (ni_name i) (ni_max_inputs i) (ni_n_inputs i) (ni_input_formats i)
      (ni_max_outputs i) (ni_n_outputs i) (ni_output_formats i) (ni_state i) (ni_error i) (ni_props i))
  | ClientData i => ClientData (mkClientInfo (cli_id i) 0 (cli_props i))
  | LinkData i => LinkData (mkLinkInfo (li_id i) 0 (li_output_node_id i) (li_output_port_id i) (li_input_node_id i) (li_input_port_id i))
  end.
Definition get_info_by_id (type : object_type) (id : Z) : Client (Z * option object_info) :=
  m <- gets ctx_objects ;;
  let p := pinos_map_lookup m id in
  if p =? 0 then ret (SPA_RESULT_INVALID_OBJECT_ID, None) else
  proxy <- get_proxy p ;;
  if decide (proxy_type proxy = type) then
    match user_data proxy with
    | Some d => put_proxy p (mkProxy (proxy_id proxy) (proxy_type proxy) (Some (clear_mask d))) ;;; ret (SPA_RESULT_OK, Some d)
    | None => ret (SPA_RESULT_ENUM_END, None)
    end
  else ret (SPA_RESULT_ENUM_END, None).
End Context_.
