(* ===== verification/Registry.v ===== *)
(** A running server with its clients: core and contexts together, joined by the calls and
    events that are on their way.

    [peers] are the contexts of the clients that are connected, by the address of the
    client at the server. Calls wait in the context that made them, events in the client
    they are for, both in order; every step below handles one of them, or is something
    the server or an application decides to do. *)
From stdpp Require Import gmap.
From S2P Require Import Prelude State Defs Map Interfaces ProtocolTheory Introspect Core Context.
Import Map.

Record system := mkSystem { server : PinosCore; peers : gmap Z PinosContext }.
Definition with_server (x : PinosCore) (s : system) : system := mkSystem x (peers s).
Definition with_peers (x : gmap Z PinosContext) (s : system) : system := mkSystem (server s) x.

Abbreviation Sys := (ST system).

(** What arrives of a call and of an event: [NULL] as an empty string or dictionary, change
    masks with 32 bits (component ProtocolTheory; formats are translated there too). *)
Definition recv_call (m : call) : call :=
  match m with CoreCall m => CoreCall (recv_core_method m) | RegistryCall m => RegistryCall m end.
Definition recv_info (e : info_event) : info_event :=
  match e with
  | ModuleInfo m => ModuleInfo (mkModuleInfo (mi_id m) (u32 (mi_change_mask m)) (recv_str (mi_name m)) (recv_str (mi_filename m))
      (recv_str (mi_args m)) (recv_dict (mi_props m)))
  | NodeInfo n => NodeInfo (mkNodeInfo (ni_id n) (u32 (ni_change_mask n)) (recv_str (ni_name n)) (ni_max_inputs n) (ni_n_inputs n)
      (ni_input_formats n) (ni_max_outputs n) (ni_n_outputs n) (ni_output_formats n) (ni_state n) (recv_str (ni_error n)) (recv_dict (ni_props n)))
  | ClientInfo c => ClientInfo (mkClientInfo (cli_id c) (u32 (cli_change_mask c)) (recv_dict (cli_props c)))
  | LinkInfo l => LinkInfo (mkLinkInfo (li_id l) (u32 (li_change_mask l)) (li_output_node_id l) (li_output_port_id l) (li_input_node_id l) (li_input_port_id l))
  end.
Definition recv_event (e : event) : event :=
  match e with
  | CoreEvent e => CoreEvent (recv_core_event e)
  | RegistryEvent (RegistryGlobal id type) => RegistryEvent (RegistryGlobal id (recv_str type))
  | RegistryEvent (RegistryGlobalRemove id) => RegistryEvent (RegistryGlobalRemove id)
  | InfoEvent e => InfoEvent (recv_info e)
  end.

(** What the server does, and what one of the contexts does. *)
Definition at_server {A} (m : Core A) : Sys A := fun s => let* (a, g) := m (server s) in Done (a, with_server g s).
Definition at_peer {A} (c : Z) (m : Client A) : Sys A :=
  fun s => let* k := of_option (peers s !! c) in let* (a, k) := m k in Done (a, with_peers (<[c := k]> (peers s)) s).

(** What can happen. A connection brings a new context with its flags and properties; an
    application may ask for a roundtrip, or disconnect; a client whose connection is gone
    is destroyed by the server. *)
Inductive step :=
| Connect (flags : Z) (properties : dict)
| Serve (c : Z)
| Deliver (c : Z)
| Sync (c seq : Z)
| Disconnect (c : Z)
| Hangup (c : Z)
| NewObject (owner : Z) (bind : PinosBindFunc) (info : info_event)
| DestroyObject (p : Z)
| AnnounceObject (p : Z) (info announcement : info_event).

Section System.
Context (calloc_ok realloc_ok : Z -> bool) (view_global : Z -> PinosGlobal -> bool).

(** The first call of a context, or the first event for a client, is taken. *)
Definition take_call : Client (option (Z * call)) :=
  l <- gets ctx_sent ;;
  match l with
  | [] => ret None
  | m :: l => modify (ctx_with_sent l) ;;; ret (Some m)
  end.
Definition take_event (c : Z) : Core (option (Z * event)) :=
  x <- get_client c ;;
  match client_sent x with
  | [] => ret None
  | e :: l => put_client c (client_with_sent l x) ;;; ret (Some e)
  end.

Definition serve (c : Z) : Sys unit :=
  m <- at_peer c take_call ;;
  match m with
  | Some (dest, m) => at_server (handle_call calloc_ok realloc_ok view_global c dest (recv_call m))
  | None => ret tt
  end.
Definition deliver (c : Z) : Sys unit :=
  e <- at_server (take_event c) ;;
  match e with
  | Some (dest, e) => at_peer c (handle_event calloc_ok realloc_ok dest (recv_event e))
  | None => ret tt
  end.

Definition connect (flags : Z) (properties : dict) : Sys unit :=
  c <- at_server (client_new calloc_ok realloc_ok view_global) ;;
  if c =? 0 then ret tt else
  k <- lift (pinos_context_new realloc_ok) ;;
  modify (fun s => with_peers (<[c := k]> (peers s)) s) ;;;
  at_peer c (pinos_context_connect_fd calloc_ok realloc_ok flags properties) ;;;
  ret tt.

Definition sync (c seq : Z) : Sys unit := at_peer c (core <- gets core_proxy ;; do_call core (CoreCall (CoreSync seq))).

(** What is on its way when a connection is closed is lost. *)
Definition disconnect (c : Z) : Sys unit :=
  at_peer c pinos_context_disconnect ;;;
  modify (fun s => with_peers (delete c (peers s)) s).
Definition hangup (c : Z) : Sys unit :=
  modify (fun s => with_peers (delete c (peers s)) s) ;;;
  at_server (pinos_client_destroy realloc_ok view_global c).

(** Steps of a client that is not there, or on an object that is not, do nothing. *)
Definition at_live (b : system -> bool) (m : Sys unit) : Sys unit := ok <- gets b ;; when ok m.
Definition is_peer (c : Z) (s : system) : bool := bool_decide (is_Some (peers s !! c)).
Definition is_client (c : Z) (s : system) : bool := bool_decide (is_Some (clients (server s) !! c)).
(** Nodes, links and modules, with the type of each. Nodes and links are destroyed; modules stay. *)
Definition object_kind (bind : PinosBindFunc) : option object_type :=
  match bind with node_bind => Some TypeNode | link_bind => Some TypeLink | module_bind => Some TypeModule | _ => None end.
Definition is_object (p : Z) (s : system) : bool := bool_decide (is_Some (objects (server s) !! p)).
Definition has_unbind (bind : PinosBindFunc) : bool := match bind with node_bind | link_bind => true | _ => false end.
Definition can_go (p : Z) (s : system) : bool :=
  match (o ← objects (server s) !! p; x ← globals (server s) !! object_global o; global_bind x) with
  | Some bind => has_unbind bind
  | None => false
  end.

Definition perform (x : step) : Sys unit :=
  match x with
  | Connect flags properties => connect flags properties
  | Serve c => at_live (is_peer c) (serve c)
  | Deliver c => at_live (is_peer c) (deliver c)
  | Sync c seq => at_live (is_peer c) (sync c seq)
  | Disconnect c => at_live (is_peer c) (disconnect c)
  | Hangup c => at_live (is_client c) (hangup c)
  | NewObject owner bind info =>
      match object_kind bind with
      | Some type => at_server (new_object calloc_ok realloc_ok view_global owner type bind info) ;;; ret tt
      | None => ret tt
      end
  | DestroyObject p => at_live (can_go p) (at_server (destroy_object realloc_ok view_global p))
  | AnnounceObject p info announcement => at_live (is_object p) (at_server (announce_object p info announcement))
  end.

Fixpoint perform_all (l : list step) : Sys unit :=
  match l with
  | [] => ret tt
  | x :: l => perform x ;;; perform_all l
  end.

Definition running (properties : option (list (bytes * str))) (user_name host_name : str) (cookie : Z) : outcome system :=
  let* g := pinos_core_new calloc_ok realloc_ok view_global properties user_name host_name cookie in
  Done (mkSystem g ∅).
End System.
