(* ===== verification/RegistryLogic.v ===== *)
(** What holds of the server between, and during, its operations on resources and globals:
    its structure ([sound]), and for every connected client how the ids it uses stand
    ([agree]). Every operation of the component Core is shown to return and to keep both. *)
From stdpp Require Import gmap.
From S2P Require Import Prelude State Defs Map Interfaces ProtocolTheory Introspect Core Context Registry.
Import Map.

(** ** Live slots *)

Fixpoint live_from {A} (i : nat) (l : list (option A)) : list nat :=
  match l with
  | [] => []
  | Some _ :: l => i :: live_from (S i) l
  | None :: l => live_from (S i) l
  end.
Definition live {A} (l : list (option A)) : list nat := live_from 0 l.

(** The slots of a map that is never removed from: [NULL] is an empty one. *)
Definition slots (ws : list Z) : list (option Z) := (fun w => if w =? 0 then None else Some w) <$> ws.

Section Live.
Context {A : Type}.
Implicit Types (l : list (option A)) (d : A).

Lemma elem_of_live_from l i j : j ∈ live_from i l <-> exists k d, l !! k = Some (Some d) /\ j = (i + k)%nat.
Proof.
  revert i. induction l as [|[x|] l IH]; intros i; simpl.
  - rewrite elem_of_nil. split; [done |]. intros (k & d & Hk & _). by rewrite lookup_nil in Hk.
  - rewrite elem_of_cons, IH. split.
    + intros [-> | (k & d & Hk & ->)]; [exists 0%nat, x | exists (S k), d]; (split; [done | lia]).
    + intros (k & d & Hk & ->). destruct k as [|k]; [left; lia | right]. exists k, d. split; [done | lia].
  - rewrite IH. split.
    + intros (k & d & Hk & ->). exists (S k), d. split; [done | lia].
    + intros (k & d & Hk & ->). destruct k as [|k]; [done |]. exists k, d. split; [done | lia].
Qed.
Lemma elem_of_live l i : i ∈ live l <-> exists d, l !! i = Some (Some d).
Proof.
  unfold live. rewrite elem_of_live_from. split; [intros (k & d & Hk & ->); eauto |]. intros [d Hd]. by exists i, d.
Qed.
Lemma live_nodup l : NoDup (live l).
Proof.
  unfold live. generalize 0%nat. induction l as [|[x|] l IH]; intros i; simpl; [constructor | | apply IH].
  constructor; [| apply IH]. rewrite elem_of_live_from. intros (k & d & _ & Hk). lia.
Qed.

(** Two lists of slots with the same live ones, but for some. *)
Lemma live_perm l new l' : NoDup (new ++ live l) -> (forall i, i ∈ live l' <-> i ∈ new \/ i ∈ live l) -> live l' ≡ₚ new ++ live l.
Proof.
  intros Hnd Hi. apply NoDup_Permutation; [apply live_nodup | done |]. intros i. by rewrite Hi, elem_of_app.
Qed.

Lemma live_push l d : live (l ++ [Some d]) ≡ₚ length l :: live l.
Proof.
  apply (live_perm l [length l]).
  - apply NoDup_cons. split; [| apply live_nodup]. rewrite elem_of_live. intros [x Hx%lookup_lt_Some]. lia.
  - intros i. rewrite !elem_of_live, list_elem_of_singleton. split.
    + intros [x [Hx | [Hle [Hx _]%list_lookup_singleton_Some]]%lookup_app_Some]; [eauto |]. left. lia.
    + intros [-> | [x Hx]]; [exists d; by rewrite lookup_app_r, Nat.sub_diag by lia |]. exists x. by apply lookup_app_l_Some.
Qed.
Lemma live_push_none l : live (l ++ [None]) ≡ₚ live l.
Proof.
  apply (live_perm l []); [apply live_nodup |]. intros i. rewrite !elem_of_live. split.
  - intros [x [Hx | [_ [_ Hx]%list_lookup_singleton_Some]]%lookup_app_Some]; [eauto | done].
  - intros [Hi%elem_of_nil | [x Hx]]; [done |]. exists x. by apply lookup_app_l_Some.
Qed.
Lemma live_fill l i d : l !! i = Some None -> live (<[i := Some d]> l) ≡ₚ i :: live l.
Proof.
  intros Hi. pose proof (lookup_lt_Some _ _ _ Hi). apply (live_perm l [i]).
  - apply NoDup_cons. split; [| apply live_nodup]. rewrite elem_of_live. intros [x Hx]. congruence.
  - intros j. rewrite !elem_of_live, list_elem_of_singleton. destruct (decide (j = i)) as [-> | Hne].
    + rewrite list_lookup_insert_eq by done. naive_solver.
    + rewrite list_lookup_insert_ne by done. naive_solver.
Qed.
Lemma live_clear l i d : l !! i = Some (Some d) -> live l ≡ₚ i :: live (<[i := None]> l).
Proof.
  intros Hi. pose proof (lookup_lt_Some _ _ _ Hi). rewrite <- (live_fill (<[i := None]> l) i d).
  - by rewrite list_insert_insert, decide_True, list_insert_id by done.
  - by rewrite list_lookup_insert_eq by done.
Qed.
Lemma live_refill l i d d' : l !! i = Some (Some d) -> live (<[i := Some d']> l) = live l.
Proof.
  unfold live. generalize 0%nat. revert i. induction l as [|x l IH]; intros [|i] j Hi; simplify_eq/=; [done |].
  destruct x; by rewrite IH.
Qed.
End Live.

Lemma slots_app ws w : slots (ws ++ [w]) = slots ws ++ [if w =? 0 then None else Some w].
Proof. unfold slots. by rewrite fmap_app. Qed.
Lemma slots_insert ws i w : slots (<[i := w]> ws) = <[i := if w =? 0 then None else Some w]> (slots ws).
Proof. unfold slots. by rewrite list_fmap_insert. Qed.
Lemma slots_lookup ws i w : ws !! i = Some w -> slots ws !! i = Some (if w =? 0 then None else Some w).
Proof. unfold slots. rewrite list_lookup_fmap. by intros ->. Qed.
Lemma elem_of_live_slots ws i : i ∈ live (slots ws) <-> exists w, ws !! i = Some w /\ w <> 0.
Proof.
  rewrite elem_of_live. unfold slots. split.
  - intros [w Hw]. rewrite list_lookup_fmap in Hw. destruct (ws !! i) as [x|]; [| done]. simpl in Hw.
    destruct (x =? 0) eqn:Hx; bool_to_prop; simplify_eq. eauto.
  - intros (w & Hw & Hne). exists w. rewrite list_lookup_fmap, Hw. simpl. by rewrite (proj2 (Z.eqb_neq _ _)).
Qed.
Lemma length_slots ws : length (slots ws) = length ws.
Proof. apply length_fmap. Qed.

(** ** The structure of the server *)

(** The part of clients and objects that the structure is about. *)
Record client_bones := mkBones { b_global : Z; b_core : Z; b_objects : PinosMap; b_list : list Z }.
Definition bones_of (c : PinosClient) : client_bones :=
  mkBones (client_global c) (client_core_resource c) (client_objects c) (client_resource_list c).
Definition clients_of (g : PinosCore) : gmap Z client_bones := bones_of <$> clients g.
Definition objects_of (g : PinosCore) : gmap Z (Z * list Z) := (fun o => (object_global o, object_resource_list o)) <$> objects g.

Definition holder_at (r : PinosResource) : option holder := (fun d => holder_of d (resource_object r)) <$> resource_destroy r.
Definition list_at (g : PinosCore) (h : holder) : list Z :=
  match h with
  | OfCore => resource_list g
  | OfRegistries => registry_resource_list g
  | OfClient a => default [] (b_list <$> clients_of g !! a)
  | OfObject o => default [] (snd <$> objects_of g !! o)
  end.
Definition has_holder (g : PinosCore) (h : holder) : Prop :=
  match h with
  | OfCore | OfRegistries => True
  | OfClient a => is_Some (clients_of g !! a)
  | OfObject o => is_Some (objects_of g !! o)
  end.

Definition allocated_at (g : PinosCore) (p : Z) : Prop := exists k, p = address k /\ 0 <= k < allocated g /\ p < 2 ^ 47.

(** What a global is of: the core, a client, or a node, link or module that knows it. *)
Definition global_of (g : PinosCore) (ug : list Z) (p : Z) (x : PinosGlobal) : Prop :=
  match global_bind x with
  | Some core_bind => p = core_global g /\ global_type x = TypeCore
  | Some client_bind =>
      global_type x = TypeClient /\
      (global_object x ∈ ug \/ exists c, clients_of g !! global_object x = Some c /\ b_global c = p)
  | Some b =>
      object_kind b = Some (global_type x) /\
      (global_object x ∈ ug \/ exists o, objects_of g !! global_object x = Some o /\ fst o = p)
  | None => False
  end.

(** In the middle of an operation, the resources [um] may be missing in the map of their
    client, the resources [ul] in the list of their holder, and the objects [ug] need not
    have a global. *)
Record sound (um ul ug : list Z) (g : PinosCore) : Prop := {
  s_count : 0 <= allocated g;
  s_globals_fresh p x : globals g !! p = Some x -> allocated_at g p;
  s_resources_fresh p r : resources g !! p = Some r -> allocated_at g p;
  s_clients_fresh a c : clients_of g !! a = Some c -> allocated_at g a;
  s_objects_fresh o y : objects_of g !! o = Some y -> allocated_at g o;
  s_repr a c : clients_of g !! a = Some c -> repr (b_objects c) (Some <$> words (b_objects c)) [];
  s_client p r : resources g !! p = Some r -> is_Some (clients_of g !! resource_client r);
  s_mapped p r : resources g !! p = Some r -> p ∉ um ->
    exists c, clients_of g !! resource_client r = Some c /\ 0 <= resource_id r /\ words (b_objects c) !! Z.to_nat (resource_id r) = Some p;
  s_word a c i w : clients_of g !! a = Some c -> words (b_objects c) !! i = Some w -> w <> 0 ->
    exists r, resources g !! w = Some r /\ resource_client r = a /\ resource_id r = Z.of_nat i;
  s_core a c : clients_of g !! a = Some c -> b_core c <> 0 ->
    exists r, resources g !! b_core c = Some r /\ resource_client r = a /\ resource_id r = 0 /\
      resource_type r = TypeCore /\ resource_destroy r = Some core_unbind;
  s_kind p r : resources g !! p = Some r -> resource_type r = TypeRegistry -> resource_destroy r = Some destroy_registry;
  s_list h p : p ∈ list_at g h -> exists r, resources g !! p = Some r /\ holder_at r = Some h;
  s_listed p r h : resources g !! p = Some r -> holder_at r = Some h -> p ∉ ul -> p ∈ list_at g h;
  s_holder p r h : resources g !! p = Some r -> holder_at r = Some h -> has_holder g h;
  s_nodup h : NoDup (list_at g h);
  s_globals p : p ∈ global_list g <-> is_Some (globals g !! p);
  s_globals_nodup : NoDup (global_list g);
  s_ids : exists a l, repr (core_objects g) a l /\ zlen a <= allocated g /\
    forall p x, globals g !! p = Some x -> 0 <= global_id x /\ a !! Z.to_nat (global_id x) = Some (Some p);
  s_global_of p x : globals g !! p = Some x -> global_of g ug p x;
  s_core_global : exists x, globals g !! core_global g = Some x /\ global_id x = 0 /\ global_bind x = Some core_bind;
  s_client_global a c : clients_of g !! a = Some c -> a ∉ ug ->
    exists x, globals g !! b_global c = Some x /\ global_bind x = Some client_bind /\ global_object x = a;
  s_object_global o y : objects_of g !! o = Some y -> o ∉ ug ->
    exists x b, globals g !! fst y = Some x /\ global_bind x = Some b /\ is_Some (object_kind b) /\ global_object x = o
}.

(** ** The ids of a client

    Every id a client uses is somewhere: in a call on its way ([new_ids]), in the map of
    the server, in the announcement on its way that it is removed ([removed]); or the
    server is about to announce that ([v_limbo]), or the client is about to remove it
    ([v_taken]). *)
Definition new_id (m : call) : option nat :=
  match m with
  | CoreCall (CoreGetRegistry i) => Some (Z.to_nat i)
  | RegistryCall (RegistryBind _ i) => Some (Z.to_nat i)
  | _ => None
  end.
Definition new_ids (l : list (Z * call)) : list nat := omap (fun dm => new_id (snd dm)) l.
Definition registry_id (m : call) : option nat := match m with CoreCall (CoreGetRegistry i) => Some (Z.to_nat i) | _ => None end.
Definition registry_ids (l : list (Z * call)) : list nat := omap (fun dm => registry_id (snd dm)) l.
Definition removal (e : event) : option nat := match e with CoreEvent (CoreRemoveId i) => Some (Z.to_nat i) | _ => None end.
Definition removed (l : list (Z * event)) : list nat := omap (fun de => removal (snd de)) l.

(** What a context is to the server: the slots of its map, its calls on their way, the ids
    of its registries. *)
Record view := mkView { v_slots : list (option Z); v_calls : list (Z * call); v_regs : list nat; v_limbo : list nat; v_taken : list nat }.

(** The calls find what they are for: the core at 0, and registries, which may still be on
    their way. A global that is bound is not that of the core. *)
Fixpoint acceptable (R : nat -> Prop) (l : list (Z * call)) : Prop :=
  match l with
  | [] => True
  | (d, m) :: l =>
      match m with
      | CoreCall (CoreGetRegistry i) => d = 0 /\ 0 <= i < 2 ^ 30 /\ acceptable (fun j => R j \/ j = Z.to_nat i) l
      | CoreCall (CoreSync _) | CoreCall (CoreClientUpdate _) => d = 0 /\ acceptable R l
      | RegistryCall (RegistryBind id i) => 0 <= d /\ R (Z.to_nat d) /\ id <> 0 /\ 0 <= i < 2 ^ 30 /\ acceptable R l
      | _ => False
      end
  end.

(** The events find their proxies: [ok] are the ids that are live, [regs] registries. *)
Definition event_ok (e : event) : Prop :=
  match e with
  | CoreEvent (CoreRemoveId i) => False
  | RegistryEvent (RegistryGlobal id type) => exists name, type = Some name /\ (proxy_type_of name <> None -> id <> 0)
  | _ => True
  end.
Fixpoint deliverable (regs : list nat) (ok : nat -> Prop) (l : list (Z * event)) : Prop :=
  match l with
  | [] => True
  | (d, e) :: l =>
      0 <= d /\ ok (Z.to_nat d) /\
      match e with
      | CoreEvent (CoreRemoveId i) =>
          d = 0 /\ 0 < i /\ ok (Z.to_nat i) /\ Z.to_nat i ∉ regs /\ deliverable regs (fun j => ok j /\ j <> Z.to_nat i) l
      | _ => event_ok e /\ deliverable regs ok l
      end
  end.

Definition is_registry (g : PinosCore) (c : PinosClient) (i : nat) : Prop :=
  exists p r, words (client_objects c) !! i = Some p /\ resources g !! p = Some r /\ resource_type r = TypeRegistry.

Record agree (g : PinosCore) (c : PinosClient) (v : view) : Prop := {
  a_core : client_core_resource c <> 0;
  a_bound : zlen (v_slots v) < 2 ^ 30;
  a_tokens : live (v_slots v) ≡ₚ new_ids (v_calls v) ++ live (slots (words (client_objects c))) ++ removed (client_sent c) ++ v_limbo v ++ v_taken v;
  a_room : (length (words (client_objects c)) <= length (v_slots v))%nat;
  a_growth : filter (fun i => length (words (client_objects c)) <= i)%nat (new_ids (v_calls v)) =
    seq (length (words (client_objects c))) (length (v_slots v) - length (words (client_objects c)));
  a_events : deliverable (v_regs v) (fun i => i ∈ live (v_slots v) /\ i ∉ v_taken v) (client_sent c);
  a_calls : acceptable (is_registry g c) (v_calls v);
  a_regs i : i ∈ v_regs v -> is_registry g c i \/ i ∈ registry_ids (v_calls v)
}.

Definition all_agree (vs : gmap Z view) (g : PinosCore) : Prop :=
  forall a v, vs !! a = Some v -> exists c, clients g !! a = Some c /\ agree g c v.

(** [m] bounds the allocations so far. *)
Record well (um ul ug : list Z) (m : Z) (vs : gmap Z view) (g : PinosCore) : Prop := {
  w_sound : sound um ul ug g;
  w_count : allocated g <= m;
  w_agree : all_agree vs g
}.

(** ** Running primitives *)


Lemma get_resource_run g p r : resources g !! p = Some r -> get_resource p g = Done (r, g).
Proof. intros Hr. unfold get_resource, bind, gets, lift. by rewrite Hr. Qed.
Lemma get_global_run g p x : globals g !! p = Some x -> get_global p g = Done (x, g).
Proof. intros Hx. unfold get_global, bind, gets, lift. by rewrite Hx. Qed.
Lemma get_client_run g a c : clients g !! a = Some c -> get_client a g = Done (c, g).
Proof. intros Hc. unfold get_client, bind, gets, lift. by rewrite Hc. Qed.
Lemma get_object_run g o y : objects g !! o = Some y -> get_object o g = Done (y, g).
Proof. intros Hy. unfold get_object, bind, gets, lift. by rewrite Hy. Qed.

Definition set_client (a : Z) (c : PinosClient) (g : PinosCore) : PinosCore := with_clients (<[a := c]> (clients g)) g.
Definition set_object (o : Z) (y : PinosObject) (g : PinosCore) : PinosCore := with_objects (<[o := y]> (objects g)) g.

Lemma update_client_run g a c f : clients g !! a = Some c -> update_client a f g = Done (tt, set_client a (f c) g).
Proof. intros Hc. unfold update_client. by rewrite (run_bind_done _ _ _ _ _ (get_client_run _ _ _ Hc)). Qed.
Lemma update_object_run g o y f : objects g !! o = Some y -> update_object o f g = Done (tt, set_object o (f y) g).
Proof. intros Hy. unfold update_object. by rewrite (run_bind_done _ _ _ _ _ (get_object_run _ _ _ Hy)). Qed.

Lemma clients_of_lookup g a b : clients_of g !! a = Some b <-> exists c, clients g !! a = Some c /\ bones_of c = b.
Proof. unfold clients_of. rewrite lookup_fmap_Some. naive_solver. Qed.
Lemma objects_of_lookup g o b : objects_of g !! o = Some b <-> exists y, objects g !! o = Some y /\ (object_global y, object_resource_list y) = b.
Proof. unfold objects_of. rewrite lookup_fmap_Some. naive_solver. Qed.
Lemma clients_of_set a c g : clients_of (set_client a c g) = <[a := bones_of c]> (clients_of g).
Proof. unfold clients_of, set_client. simpl. apply fmap_insert. Qed.
Lemma clients_of_same a c c' g : clients g !! a = Some c -> bones_of c' = bones_of c -> clients_of (set_client a c' g) = clients_of g.
Proof. intros Hc Hb. rewrite clients_of_set, Hb. apply insert_id, clients_of_lookup. eauto. Qed.
Lemma objects_of_set o y g : objects_of (set_object o y g) = <[o := (object_global y, object_resource_list y)]> (objects_of g).
Proof. unfold objects_of, set_object. simpl. by rewrite fmap_insert. Qed.
Lemma bones_lookup g a c : clients g !! a = Some c -> clients_of g !! a = Some (bones_of c).
Proof. intros Hc. apply clients_of_lookup. eauto. Qed.

(** ** Frames *)

Lemma sound_same um ul ug g g' :
  globals g' = globals g -> resources g' = resources g -> clients_of g' = clients_of g -> objects_of g' = objects_of g ->
  core_objects g' = core_objects g -> core_global g' = core_global g -> resource_list g' = resource_list g ->
  registry_resource_list g' = registry_resource_list g -> global_list g' = global_list g -> allocated g' = allocated g ->
  sound um ul ug g -> sound um ul ug g'.
Proof.
  intros H1 H2 H3 H4 H5 H6 H7 H8 H9 H10 [].
  constructor; unfold list_at, has_holder, global_of, allocated_at in *; rewrite ?H1, ?H2, ?H3, ?H4, ?H5, ?H6, ?H7, ?H8, ?H9, ?H10; assumption.
Qed.

(** The registries that were there still are. *)
Definition keeps_registries (g g' : PinosCore) : Prop :=
  forall p r, resources g !! p = Some r -> resource_type r = TypeRegistry -> resources g' !! p = Some r.

Lemma is_registry_mono g g' c c' i :
  keeps_registries g g' -> (forall w, words (client_objects c) !! i = Some w -> words (client_objects c') !! i = Some w) ->
  is_registry g c i -> is_registry g' c' i.
Proof. intros Hk Hw (p & r & Hp & Hr & Ht). exists p, r. split_and!; auto. Qed.

Lemma acceptable_mono (R R' : nat -> Prop) l : (forall i, R i -> R' i) -> acceptable R l -> acceptable R' l.
Proof.
  revert R R'. induction l as [|[d m] l IH]; intros R R' Hm; simpl; [done |].
  destruct m as [[]|[]]; try done; intros Hl; destruct_and?; split_and?; try done; try (by apply Hm);
    (eapply IH; [| done]; try exact Hm). intros i [Hi | Hi]; [left; by apply Hm | by right].
Qed.

Lemma agree_frame g g' c v : keeps_registries g g' -> agree g c v -> agree g' c v.
Proof.
  intros Hk []. constructor; try done.
  - eapply acceptable_mono; [| done]. intros i. by apply is_registry_mono.
  - intros i Hi. destruct (a_regs0 i Hi) as [Hr | Hr]; [left; by eapply is_registry_mono | by right].
Qed.

Lemma all_agree_frame g g' vs : clients g' = clients g -> keeps_registries g g' -> all_agree vs g -> all_agree vs g'.
Proof. intros Hc Hk Ha a v Hv. destruct (Ha a v Hv) as (c & Hcl & Hag). exists c. rewrite Hc. split; [done |]. by eapply agree_frame. Qed.

(** Changing a client that has no view, or so that it still agrees. *)
Lemma all_agree_set g a c vs :
  (forall v, vs !! a = Some v -> agree g c v) -> all_agree vs g -> all_agree vs (set_client a c g).
Proof.
  intros Hc Ha b v Hv. destruct (decide (b = a)) as [-> | Hne].
  - exists c. split; [apply lookup_insert_eq |]. eapply agree_frame; [| by apply Hc]. by intros p r.
  - destruct (Ha b v Hv) as (c' & Hc' & Hag). exists c'. split; [simpl; by rewrite lookup_insert_ne |].
    eapply agree_frame; [| done]. by intros p r.
Qed.

(** ** Events *)

Lemma removed_app l l' : removed (l ++ l') = removed l ++ removed l'.
Proof. unfold removed. apply omap_app. Qed.

Lemma deliverable_mono regs (ok ok' : nat -> Prop) l : (forall i, ok i -> ok' i) -> deliverable regs ok l -> deliverable regs ok' l.
Proof.
  revert ok ok'. induction l as [|[d e] l IH]; intros ok ok' Hm; simpl; [done |].
  intros (Hd & Ho & He). split; [done |]. split; [auto |].
  destruct e as [[]|[]|]; try (by destruct He; split; [done |]; eapply IH).
  destruct He as (? & ? & ? & ? & ?). split_and!; [done | done | auto | done |]. eapply IH; [| done]. naive_solver.
Qed.
Lemma deliverable_app regs (ok : nat -> Prop) l l' :
  deliverable regs ok (l ++ l') <-> deliverable regs ok l /\ deliverable regs (fun j => ok j /\ j ∉ removed l) l'.
Proof.
  revert ok. induction l as [|[d e] l IH]; intros ok; simpl.
  - split; [intros Hl; split; [done |]; eapply deliverable_mono; [| done]; intros i Hi; split; [done | by intros ?%elem_of_nil] |].
    intros [_ Hl]. eapply deliverable_mono; [| done]. naive_solver.
  - destruct e as [[]|[]|]; cbn [removed omap list_omap removal snd]; rewrite ?IH; try naive_solver.
    fold (removed l). split.
    + intros (? & ? & ? & ? & ? & ? & ? & Hl). split_and!; try done. eapply deliverable_mono; [| done].
      intros j [[? ?] ?]. split; [done |]. rewrite not_elem_of_cons. done.
    + intros [(? & ? & ? & ? & ? & ? & ?) Hl]. split_and!; try done. eapply deliverable_mono; [| done].
      intros j [? [? ?]%not_elem_of_cons]. done.
Qed.

(** ** Sending *)

(** Nothing has changed but what was sent. *)
Record quiet (g g' : PinosCore) : Prop := {
  q_globals : globals g' = globals g;
  q_resources : resources g' = resources g;
  q_objects : objects g' = objects g;
  q_core_objects : core_objects g' = core_objects g;
  q_core_global : core_global g' = core_global g;
  q_resource_list : resource_list g' = resource_list g;
  q_registries : registry_resource_list g' = registry_resource_list g;
  q_global_list : global_list g' = global_list g;
  q_client_list : client_list g' = client_list g;
  q_allocated : allocated g' = allocated g;
  q_clients a : (exists l, clients g' !! a = client_with_sent l <$> clients g !! a);
  q_untouched a : (forall p r, resources g !! p = Some r -> resource_client r <> a) -> clients g' !! a = clients g !! a
}.
Lemma quiet_refl g : quiet g g.
Proof.
  constructor; try done. intros a. destruct (clients g !! a) as [[]|] eqn:Ha; [eexists; simpl; done | by exists []].
Qed.
Lemma quiet_trans g1 g2 g3 : quiet g1 g2 -> quiet g2 g3 -> quiet g1 g3.
Proof.
  intros [] []. constructor; try congruence; intros a.
  - destruct (q_clients0 a) as [l Hl]. destruct (q_clients1 a) as [l' Hl']. exists l'. rewrite Hl', Hl. by destruct (clients g1 !! a).
  - intros Ha. rewrite q_untouched1; [by apply q_untouched0 |]. by rewrite q_resources0.
Qed.
Lemma quiet_bones g g' : quiet g g' -> clients_of g' = clients_of g.
Proof.
  intros Hq. apply map_eq. intros a. unfold clients_of. rewrite !lookup_fmap.
  destruct (q_clients _ _ Hq a) as [l ->]. by destruct (clients g !! a).
Qed.
Lemma quiet_client g g' a c : quiet g g' -> clients g !! a = Some c -> exists l, clients g' !! a = Some (client_with_sent l c).
Proof. intros Hq Hc. destruct (q_clients _ _ Hq a) as [l Hl]. rewrite Hc in Hl. by exists l. Qed.

Definition post (a : Z) (c : PinosClient) (x : Z * event) (g : PinosCore) : PinosCore := set_client a (client_with_sent (client_sent c ++ [x]) c) g.

Lemma quiet_post p r c x g : resources g !! p = Some r -> clients g !! resource_client r = Some c -> quiet g (post (resource_client r) c x g).
Proof.
  intros Hr Hc. constructor; try done; intros b; unfold post, set_client; simpl; destruct (decide (b = resource_client r)) as [-> | Hne].
  - exists (client_sent c ++ [x]). by rewrite lookup_insert_eq, Hc.
  - rewrite lookup_insert_ne by done. exists (default [] (client_sent <$> clients g !! b)). by destruct (clients g !! b) as [[]|].
  - intros Ha. by destruct (Ha p r Hr).
  - intros _. by rewrite lookup_insert_ne.
Qed.
Lemma notify_run g p r c e : resources g !! p = Some r -> clients g !! resource_client r = Some c ->
  notify p e g = Done (tt, post (resource_client r) c (resource_id r, e) g).
Proof.
  intros Hr Hc. unfold notify. rewrite (run_bind_done _ _ _ _ _ (get_resource_run _ _ _ Hr)). by rewrite (update_client_run _ _ c).
Qed.
Lemma sound_quiet um ul ug g g' : quiet g g' -> sound um ul ug g -> sound um ul ug g'.
Proof.
  intros Hq. pose proof (quiet_bones _ _ Hq). destruct Hq. apply sound_same; try done. unfold objects_of. by rewrite q_objects0.
Qed.

(** Every id is in one place. *)
Lemma agree_nodup g c v : agree g c v ->
  NoDup (new_ids (v_calls v) ++ live (slots (words (client_objects c))) ++ removed (client_sent c) ++ v_limbo v ++ v_taken v).
Proof. intros Ha. rewrite <- (a_tokens _ _ _ Ha). apply live_nodup. Qed.
Lemma mapped_live g c v i : agree g c v -> i ∈ live (slots (words (client_objects c))) ->
  i ∈ live (v_slots v) /\ i ∉ new_ids (v_calls v) /\ i ∉ removed (client_sent c) /\ i ∉ v_limbo v /\ i ∉ v_taken v.
Proof.
  intros Ha Hi. pose proof (agree_nodup _ _ _ Ha) as Hnd. apply NoDup_app in Hnd as (_ & Hd1 & Hnd).
  apply NoDup_app in Hnd as (_ & Hd2 & _). split; [rewrite (a_tokens _ _ _ Ha); set_solver |].
  split; [intros Hn; apply (Hd1 _ Hn); set_solver |]. specialize (Hd2 _ Hi). set_solver.
Qed.

Lemma agree_post g c v i e : agree g c v -> event_ok e -> 0 <= i -> Z.to_nat i ∈ live (slots (words (client_objects c))) ->
  agree g (client_with_sent (client_sent c ++ [(i, e)]) c) v.
Proof.
  intros Ha He Hi Hl. destruct (mapped_live _ _ _ _ Ha Hl) as (H1 & H2 & H3 & H4 & H5).
  assert (removed [(i, e)] = []) as Hr by (unfold removed; cbn; by destruct e as [[]| |]).
  destruct Ha. constructor; try done; cbn [client_objects client_with_sent client_sent].
  - rewrite removed_app, Hr, app_nil_r. done.
  - apply deliverable_app. split; [done |]. simpl. split; [done |]. split; [done |]. destruct e as [[]|[]|]; done.
Qed.

(** A resource in the map of its client. *)
Lemma mapped_id um ul ug g p r : sound um ul ug g -> resources g !! p = Some r -> p ∉ um ->
  exists c, clients g !! resource_client r = Some c /\ 0 <= resource_id r /\
    words (client_objects c) !! Z.to_nat (resource_id r) = Some p /\ Z.to_nat (resource_id r) ∈ live (slots (words (client_objects c))).
Proof.
  intros Hs Hr Hp. destruct (s_mapped _ _ _ _ Hs _ _ Hr Hp) as (b & (c & Hc & <-)%clients_of_lookup & Hid & Hw). simpl in Hw.
  exists c. split_and!; [done | done | done |]. apply elem_of_live_slots. exists p. split; [done |].
  destruct (s_resources_fresh _ _ _ _ Hs _ _ Hr) as (k & -> & Hk & _). unfold address. lia.
Qed.

Lemma notify_well um ul ug m vs g p r e :
  well um ul ug m vs g -> resources g !! p = Some r -> p ∉ um -> event_ok e ->
  exists g', notify p e g = Done (tt, g') /\ well um ul ug m vs g' /\ quiet g g'.
Proof.
  intros [Hs Hm Ha] Hr Hp He. destruct (mapped_id _ _ _ _ _ _ Hs Hr Hp) as (c & Hc & Hid & _ & Hl).
  eexists. split; [by apply notify_run |]. pose proof (quiet_post _ _ _ (resource_id r, e) _ Hr Hc) as Hq. split; [| done].
  constructor; [by eapply sound_quiet | done |]. apply all_agree_set; [| done]. intros v Hv.
  destruct (Ha _ _ Hv) as (c' & Hc' & Hag). rewrite Hc in Hc'. injection Hc' as <-. by apply agree_post.
Qed.

(** Loops that only send. *)
Lemma each_quiet {A} um ul ug m vs g (l : list A) (f : A -> Core unit) :
  well um ul ug m vs g ->
  (forall x g1, x ∈ l -> quiet g g1 -> well um ul ug m vs g1 -> exists g2, f x g1 = Done (tt, g2) /\ well um ul ug m vs g2 /\ quiet g1 g2) ->
  exists g', each l f g = Done (tt, g') /\ well um ul ug m vs g' /\ quiet g g'.
Proof.
  intros Hw Hf. assert (forall g1, quiet g g1 -> well um ul ug m vs g1 ->
    exists g', each l f g1 = Done (tt, g') /\ well um ul ug m vs g' /\ quiet g1 g') as Hgen; [| apply Hgen; [apply quiet_refl | done]].
  clear Hw. induction l as [|x l IH]; intros g1 Hq Hw.
  { exists g1. split; [done |]. split; [done | apply quiet_refl]. }
  destruct (Hf x g1) as (g2 & Hrun & Hw2 & Hq2); [left | done | done |].
  destruct (IH ltac:(intros; apply Hf; [by right | done | done]) g2) as (g' & Hrun' & Hw' & Hq'); [by eapply quiet_trans | done |].
  exists g'. cbn [each]. rewrite (run_bind_done _ _ _ _ _ Hrun). split; [done |]. split; [done |]. by eapply quiet_trans.
Qed.

(** ** Allocation *)

Lemma is_data_address g p : allocated_at g p -> is_data p /\ p <> 0.
Proof.
  intros (k & -> & Hk & Hp). unfold is_data, is_u64, address in *. split; [split; [lia |] | lia].
  rewrite Z.odd_mul. done.
Qed.

Lemma sound_alloc um ul ug g : sound um ul ug g -> sound um ul ug (with_allocated (allocated g + 1) g).
Proof.
  intros [].
  assert (forall p, allocated_at g p -> allocated_at (with_allocated (allocated g + 1) g) p) as Hmono.
  { intros p (k & -> & Hk & Hp). exists k. simpl. split_and!; [done | lia | lia | done]. }
  constructor; eauto; try done.
  - simpl. lia.
  - destruct s_ids0 as (a & l & Hr & Hl & Hi). exists a, l. split_and!; [done | simpl; lia | done].
Qed.

Section Granted.
Context (calloc_ok : Z -> bool) (view_global : Z -> PinosGlobal -> bool).
Hypothesis calloc_granted : forall n, calloc_ok n = true.

Lemma calloc_run g : 0 <= allocated g < 2 ^ 40 ->
  calloc calloc_ok g = Done (address (allocated g), with_allocated (allocated g + 1) g).
Proof.
  intros Hn. unfold calloc, bind, gets, modify, ret. simpl. rewrite calloc_granted. simpl.
  rewrite (proj2 (Z.ltb_lt _ _)); [done | unfold address; lia].
Qed.

(** The new object is at an address where nothing is. *)
Lemma fresh_address um ul ug g : sound um ul ug g -> 0 <= allocated g < 2 ^ 40 ->
  let p := address (allocated g) in
  globals g !! p = None /\ resources g !! p = None /\ clients_of g !! p = None /\ objects_of g !! p = None /\
  allocated_at (with_allocated (allocated g + 1) g) p.
Proof.
  intros Hs Hn p. assert (forall q, allocated_at g q -> q <> p) as Hne.
  { intros q (k & -> & Hk & _). unfold p, address. lia. }
  split_and!.
  - destruct (globals g !! p) eqn:Hp; [| done]. by destruct (Hne p (s_globals_fresh _ _ _ _ Hs _ _ Hp)).
  - destruct (resources g !! p) eqn:Hp; [| done]. by destruct (Hne p (s_resources_fresh _ _ _ _ Hs _ _ Hp)).
  - destruct (clients_of g !! p) eqn:Hp; [| done]. by destruct (Hne p (s_clients_fresh _ _ _ _ Hs _ _ Hp)).
  - destruct (objects_of g !! p) eqn:Hp; [| done]. by destruct (Hne p (s_objects_fresh _ _ _ _ Hs _ _ Hp)).
  - exists (allocated g). simpl. unfold p, address. lia.
Qed.

(** ** Globals *)

Lemma notify_registries_well ul ug m vs g x e :
  well [] ul ug m vs g -> event_ok (RegistryEvent e) ->
  exists g', notify_registries view_global x e g = Done (tt, g') /\ well [] ul ug m vs g' /\ quiet g g'.
Proof.
  intros Hw He. unfold notify_registries, bind at 1, gets. cbn [obind]. apply each_quiet; [done |].
  intros p g1 Hp Hq Hw1. destruct (s_list _ _ _ _ (w_sound _ _ _ _ _ _ Hw) OfRegistries p Hp) as (r & Hr & _).
  rewrite <- (q_resources _ _ Hq) in Hr. rewrite (run_bind_done _ _ _ _ _ (get_resource_run _ _ _ Hr)).
  destruct (ACCESS_VIEW_GLOBAL view_global (resource_client r) x); simpl.
  - eapply notify_well; [done | done | by intros ?%elem_of_nil | done].
  - exists g1. split; [done |]. split; [done | apply quiet_refl].
Qed.

End Granted.

Definition add_global (p : Z) (x : PinosGlobal) (m : PinosMap) (g : PinosCore) : PinosCore :=
  with_global_list (global_list g ++ [p]) (with_globals (<[p := x]> (globals g)) (with_core_objects m g)).

Lemma sound_add_global ul ug g p x a l m :
  sound [] ul ug g -> globals g !! p = None -> allocated_at g p -> 0 <= global_id x -> global_object x ∈ ug ->
  match global_bind x with Some client_bind => global_type x = TypeClient | Some b => object_kind b = Some (global_type x) | None => False end ->
  repr m a l -> zlen a <= allocated g -> a !! Z.to_nat (global_id x) = Some (Some p) ->
  (forall q y, globals g !! q = Some y -> 0 <= global_id y /\ a !! Z.to_nat (global_id y) = Some (Some q)) ->
  sound [] ul ug (add_global p x m g).
Proof.
  intros Hs Hp Hfresh Hid Hobj Hbind Hrep Hlen Hslot Hids.
  assert (p <> core_global g) as Hcore by (destruct (s_core_global _ _ _ _ Hs) as (y & Hy & _); intros ->; congruence).
  assert (forall q y, globals g !! q = Some y -> <[p := x]> (globals g) !! q = Some y) as Hold.
  { intros q y Hq. rewrite lookup_insert_ne; [done |]. intros ->. congruence. }
  constructor; cbn [add_global globals resources core_objects core_global resource_list registry_resource_list global_list allocated
    with_global_list with_globals with_core_objects]; try apply Hs.
  - intros q y [[<- <-] | [_ Hq]]%lookup_insert_Some; [done | by eapply (s_globals_fresh _ _ _ _ Hs)].
  - intros q. rewrite elem_of_app, list_elem_of_singleton, (s_globals _ _ _ _ Hs). destruct (decide (q = p)) as [-> | Hne].
    + rewrite lookup_insert_eq. split; [by eexists | by right].
    + rewrite lookup_insert_ne by done. naive_solver.
  - apply NoDup_app. split; [apply Hs |]. split; [| apply NoDup_singleton].
    intros q Hq ->%list_elem_of_singleton. apply (s_globals _ _ _ _ Hs) in Hq as [y Hy]. congruence.
  - exists a, l. split_and!; [done | done |]. intros q y [[<- <-] | [_ Hq]]%lookup_insert_Some; [done | auto].
  - intros q y [[<- <-] | [_ Hq]]%lookup_insert_Some; [| by apply (s_global_of _ _ _ _ Hs)].
    unfold global_of. destruct (global_bind x) as [[]|]; try done; (split; [done | by left]).
  - destruct (s_core_global _ _ _ _ Hs) as (y & Hy & Hrest). exists y. split; [by apply Hold | done].
  - intros b c Hc Hb. destruct (s_client_global _ _ _ _ Hs b c Hc Hb) as (y & Hy & Hrest). exists y. split; [by apply Hold | done].
  - intros o y Hy Ho. destruct (s_object_global _ _ _ _ Hs o y Hy Ho) as (z & b & Hz & Hrest). exists z, b. split; [by apply Hold | done].
Qed.
