(* ===== verification/RegistryServer.v ===== *)
(** Every operation of the server on globals, resources, clients and objects returns, and
    keeps [well]: the structure of the server, and the agreement with its clients. *)
From stdpp Require Import gmap.
From S2P Require Import Prelude State Defs Map Interfaces ProtocolTheory Introspect Properties Core Context Registry RegistryLogic.
Import Map.

#[export] Instance PinosDestroy_eq : EqDecision PinosDestroy.
Proof. solve_decision. Defined.

(** ** Slots of a map *)

(** The slot [i] is taken for [d]: it was free, or it is a new one at the end. *)
Definition took (a : list (option Z)) (i : nat) (d : Z) (a' : list (option Z)) : Prop :=
  (a !! i = Some None /\ a' = <[i := Some d]> a) \/ (i = length a /\ a' = a ++ [Some d]).

Section Took.
Context (a : list (option Z)) (i : nat) (d : Z) (a' : list (option Z)) (Ht : took a i d a').

Lemma took_lookup : a' !! i = Some (Some d).
Proof using Ht.
  destruct Ht as [[Hi ->] | [-> ->]].
  - apply list_lookup_insert_eq. by eapply lookup_lt_Some.
  - by rewrite lookup_app_r, Nat.sub_diag by lia.
Qed.
Lemma took_old j w : a !! j = Some (Some w) -> a' !! j = Some (Some w) /\ j <> i.
Proof using Ht.
  intros Hj. pose proof (lookup_lt_Some _ _ _ Hj). destruct Ht as [[Hi ->] | [-> ->]].
  - assert (j <> i) by (intros ->; congruence). by rewrite list_lookup_insert_ne.
  - rewrite lookup_app_l by done. split; [done | lia].
Qed.
Lemma took_live : live a' ≡ₚ i :: live a.
Proof using Ht. destruct Ht as [[Hi ->] | [-> ->]]; [by apply live_fill | apply live_push]. Qed.
Lemma took_length : (length a <= length a' <= S (length a))%nat.
Proof using Ht. destruct Ht as [[Hi ->] | [-> ->]]; rewrite ?length_insert, ?length_app; simpl; lia. Qed.
End Took.

Lemma insert_new_took realloc_ok m a l d :
  repr m a l -> is_data d -> zlen a + 1 < 2 ^ 30 -> (forall n, realloc_ok n = true) ->
  exists i m' a' l', pinos_map_insert_new realloc_ok m d = Some (Z.of_nat i, m') /\ repr m' a' l' /\ took a i d a'.
Proof.
  intros Hr Hd Hb Hok. destruct l as [|i l].
  - destruct (insert_new_append realloc_ok m a d Hr Hd Hb Hok) as (m' & Hrun & Hr').
    exists (length a), m', (a ++ [Some d]), []. split_and!; [done | done | by right].
  - destruct (insert_new_reuse realloc_ok m a i l d Hr Hd) as (m' & Hrun & Hr').
    exists i, m', (<[i := Some d]> a), l. split_and!; [done | done | left]. split; [| done].
    apply (repr_free _ _ _ Hr). left.
Qed.

Section Server.
Context (calloc_ok realloc_ok : Z -> bool) (view_global : Z -> PinosGlobal -> bool).
Hypothesis calloc_granted : forall n, calloc_ok n = true.
Hypothesis realloc_granted : forall n, realloc_ok n = true.

(** ** Globals *)

Lemma pinos_core_add_global_well ul ug m vs g owner type object bind :
  well [] ul ug m vs g -> m + 1 < 2 ^ 30 -> object ∈ ug ->
  match bind with client_bind => type = TypeClient | b => object_kind b = Some type end ->
  exists p id mm g', pinos_core_add_global calloc_ok realloc_ok view_global owner type object (Some bind) g = Done (p, g') /\
    globals g !! p = None /\ well [] ul ug (m + 1) vs g' /\
    quiet (add_global p (mkGlobal id owner type object (Some bind)) mm (with_allocated (allocated g + 1) g)) g'.
Proof.
  intros [Hs Hm Ha] Hb Hug Hbind. pose proof (s_count _ _ _ _ Hs) as Hc.
  destruct (fresh_address _ _ _ _ Hs ltac:(lia)) as (Hg & _ & _ & _ & Hat).
  destruct (is_data_address _ _ Hat) as [Hd Hnz].
  destruct (s_ids _ _ _ _ Hs) as (a & l & Hr & Hlen & Hids). apply sound_alloc in Hs.
  destruct (insert_new_took realloc_ok _ _ _ _ Hr Hd ltac:(lia) realloc_granted) as (i & mm & a' & l' & Hins & Hr' & Ht).
  set (p := address (allocated g)) in *. set (x := mkGlobal (Z.of_nat i) owner type object (Some bind)).
  destruct (s_core_global _ _ _ _ Hs) as (y & Hy & Hid & _). cbn [globals with_allocated core_global] in Hy.
  assert (a !! 0%nat = Some (Some (core_global g))) as H0.
  { destruct (Hids _ _ Hy) as [_ H0]. by rewrite Hid in H0. }
  assert (well [] ul ug (m + 1) vs (add_global p x mm (with_allocated (allocated g + 1) g))) as Hw.
  { split; [| simpl; lia | by apply (all_agree_frame g); [| intros q r |]].
    eapply (sound_add_global _ _ _ p x a' l'); try done.
    - simpl. lia.
    - pose proof (took_length _ _ _ _ Ht). unfold zlen in *. simpl. lia.
    - cbn [x global_id]. rewrite Nat2Z.id. by eapply took_lookup.
    - intros q z Hz. destruct (Hids q z Hz) as [H1 H2]. split; [done |]. by eapply took_old. }
  destruct (notify_registries_well view_global ul ug (m + 1) vs _ x (RegistryGlobal (global_id x) (Some (type_name type))) Hw) as (g' & Hrun & Hw' & Hq').
  { exists (type_name type). split; [done |]. intros _ Hi. apply (took_old _ _ _ _ Ht) in H0 as [_ H0]. cbn in Hi. lia. }
  exists p, (Z.of_nat i), mm, g'. split; [| done].
  unfold pinos_core_add_global. run (calloc_run calloc_ok calloc_granted g ltac:(lia)). fold p.
  rewrite (proj2 (Z.eqb_neq _ _) Hnz). run_step. unfold insert_new. cbn [core_objects with_allocated]. rewrite Hins. run_step.
  unfold put_global. run_step. change (Z.of_nat i) with (global_id x). run Hrun. done.
Qed.

Definition del_global (p : Z) (mm : PinosMap) (g : PinosCore) : PinosCore :=
  with_globals (delete p (globals g)) (with_global_list (unlink p (global_list g)) (with_core_objects mm g)).

Lemma elem_of_unlink p q l : q ∈ unlink p l <-> q <> p /\ q ∈ l.
Proof. unfold unlink. by rewrite list_elem_of_filter. Qed.
Lemma unlink_nodup p l : NoDup l -> NoDup (unlink p l).
Proof. apply NoDup_filter. Qed.

Lemma sound_del_global ul ug g p x a l mm :
  sound [] ul ug g -> globals g !! p = Some x -> global_bind x <> Some core_bind ->
  (forall q y, globals g !! q = Some y -> 0 <= global_id y /\ a !! Z.to_nat (global_id y) = Some (Some q)) ->
  repr mm (<[Z.to_nat (global_id x) := None]> a) l -> zlen a <= allocated g ->
  sound [] ul (global_object x :: ug) (del_global p mm g).
Proof.
  intros Hs Hp Hbind Hids Hr Hlen.
  destruct (s_core_global _ _ _ _ Hs) as (y & Hy & Hid & Hyb).
  assert (forall q z, globals g !! q = Some z -> q <> p -> delete p (globals g) !! q = Some z) as Hold.
  { intros q z Hq Hne. by rewrite lookup_delete_ne. }
  constructor; cbn [del_global globals resources core_objects core_global resource_list registry_resource_list global_list allocated
    with_global_list with_globals with_core_objects]; try apply Hs.
  - intros q z [_ Hq]%lookup_delete_Some. by eapply (s_globals_fresh _ _ _ _ Hs).
  - intros q. rewrite elem_of_unlink, (s_globals _ _ _ _ Hs), <- !not_eq_None_Some, lookup_delete_None. naive_solver.
  - apply unlink_nodup, Hs.
  - exists (<[Z.to_nat (global_id x) := None]> a), l. split_and!; [done | unfold zlen in *; by rewrite length_insert |].
    intros q z [Hne Hq]%lookup_delete_Some. destruct (Hids q z Hq) as [H1 H2]. split; [done |].
    rewrite list_lookup_insert_ne; [done |]. intros Heq. destruct (Hids p x Hp) as [_ H3]. congruence.
  - intros q z [_ Hq]%lookup_delete_Some. pose proof (s_global_of _ _ _ _ Hs q z Hq) as Hof.
    unfold global_of in *. destruct (global_bind z) as [[]|]; try done;
      (destruct Hof as [H1 [H2 | H2]]; (split; [done |]); [left; by right | by right]).
  - exists y. split_and!; [apply Hold; [done |] | done | done]. intros Heq. rewrite Heq in Hy. congruence.
  - intros b c Hc [Hne Hb]%not_elem_of_cons. destruct (s_client_global _ _ _ _ Hs b c Hc Hb) as (z & Hz & Hzb & Hzo).
    exists z. split_and!; [apply Hold; [done |] | done | done]. intros Heq. rewrite Heq in Hz. congruence.
  - intros o c Hc [Hne Hb]%not_elem_of_cons. destruct (s_object_global _ _ _ _ Hs o c Hc Hb) as (z & b & Hz & Hzb & Hzk & Hzo).
    exists z, b. split_and!; [apply Hold; [done |] | done | done | done]. intros Heq. rewrite Heq in Hz. congruence.
Qed.

Lemma pinos_global_destroy_well ul ug m vs g p x :
  well [] ul ug m vs g -> globals g !! p = Some x -> global_bind x <> Some core_bind ->
  exists mm g1, pinos_global_destroy view_global p g = Done (tt, del_global p mm g1) /\
    well [] ul (global_object x :: ug) m vs (del_global p mm g1) /\ quiet g g1.
Proof.
  intros Hw Hp Hbind.
  destruct (notify_registries_well view_global ul ug m vs g x (RegistryGlobalRemove (global_id x)) Hw I) as (g1 & Hrun & [Hs Hm Ha] & Hq).
  destruct (s_ids _ _ _ _ Hs) as (a & l & Hr & Hlen & Hids). pose proof Hp as Hp1. rewrite <- (q_globals _ _ Hq) in Hp1.
  destruct (Hids p x Hp1) as [Hid Ha1]. destruct (remove_spec _ _ _ _ _ Hr Ha1) as (mm & Hrem & Hr' & _).
  exists mm, g1. split; [| split; [split |]]; try done.
  - unfold pinos_global_destroy. run (get_global_run _ _ _ Hp). run Hrun. rewrite Z2Nat.id in Hrem by done.
    rewrite Hrem. run_step. done.
  - by eapply sound_del_global.
  - apply (all_agree_frame g1); [done | by intros q r | done].
Qed.
End Server.

(** ** Lists of resources *)

(** Only the list of [h] has changed, by [f]. *)
Record edited (h : holder) (f : list Z -> list Z) (g g' : PinosCore) : Prop := {
  e_globals : globals g' = globals g;
  e_resources : resources g' = resources g;
  e_core_objects : core_objects g' = core_objects g;
  e_core_global : core_global g' = core_global g;
  e_global_list : global_list g' = global_list g;
  e_allocated : allocated g' = allocated g;
  e_list h' : list_at g' h' = if decide (h' = h) then f (list_at g h) else list_at g h';
  e_clients a : exists l, clients g' !! a = client_with_resource_list l <$> clients g !! a;
  e_objects o : exists l, objects g' !! o = object_with_resource_list l <$> objects g !! o
}.

Lemma list_at_client g a c : clients g !! a = Some c -> list_at g (OfClient a) = client_resource_list c.
Proof. intros Hc. unfold list_at. by rewrite (bones_lookup _ _ _ Hc). Qed.
Lemma list_at_object g o y : objects g !! o = Some y -> list_at g (OfObject o) = object_resource_list y.
Proof. intros Hy. unfold list_at, objects_of. by rewrite lookup_fmap, Hy. Qed.
Lemma client_list_id (c : option PinosClient) : exists l, c = client_with_resource_list l <$> c.
Proof. destruct c as [[]|]; [by eexists | by exists []]. Qed.
Lemma object_list_id (y : option PinosObject) : exists l, y = object_with_resource_list l <$> y.
Proof. destruct y as [[]|]; [by eexists | by exists []]. Qed.

Lemma edit_list_run h f g : has_holder g h -> exists g', edit_list h f g = Done (tt, g') /\ edited h f g g'.
Proof.
  intros Hh. destruct h as [| | a | o]; simpl in *.
  - eexists. split; [done |]. constructor; try done; [| intros; apply client_list_id | intros; apply object_list_id].
    intros h'. case_decide as Hd; [by subst | by destruct h'].
  - eexists. split; [done |]. constructor; try done; [| intros; apply client_list_id | intros; apply object_list_id].
    intros h'. case_decide as Hd; [by subst | by destruct h'].
  - destruct Hh as [b (c & Hc & _)%clients_of_lookup]. eexists. split; [by apply (update_client_run _ _ c) |].
    constructor; try done; [| | intros; apply object_list_id].
    + intros h'. case_decide as Hd.
      * subst. rewrite (list_at_client g a c Hc). apply (list_at_client _ _ (client_with_resource_list (f (client_resource_list c)) c)).
        apply lookup_insert_eq.
      * destruct h' as [| | a' | o']; try done. unfold list_at. rewrite clients_of_set, lookup_insert_ne by congruence. done.
    + intros a'. simpl. destruct (decide (a' = a)) as [-> | Hne].
      * rewrite lookup_insert_eq, Hc. by eexists.
      * rewrite lookup_insert_ne by done. apply client_list_id.
  - destruct Hh as [b (c & Hc & _)%objects_of_lookup]. eexists. split; [by apply (update_object_run _ _ c) |].
    constructor; try done; [| intros; apply client_list_id |].
    + intros h'. case_decide as Hd.
      * subst. rewrite (list_at_object g o c Hc). apply (list_at_object _ _ (object_with_resource_list (f (object_resource_list c)) c)).
        apply lookup_insert_eq.
      * destruct h' as [| | a' | o']; try done. unfold list_at. rewrite objects_of_set, lookup_insert_ne by congruence. done.
    + intros a'. simpl. destruct (decide (a' = o)) as [-> | Hne].
      * rewrite lookup_insert_eq, Hc. by eexists.
      * rewrite lookup_insert_ne by done. apply object_list_id.
Qed.

Section Edited.
Context (h : holder) (f : list Z -> list Z) (g g' : PinosCore) (He : edited h f g g').

Lemma edited_client a c : clients g !! a = Some c -> exists l, clients g' !! a = Some (client_with_resource_list l c).
Proof using He. intros Hc. destruct (e_clients _ _ _ _ He a) as [l Hl]. rewrite Hc in Hl. eauto. Qed.
Lemma edited_bones a b : clients_of g !! a = Some b -> exists l, clients_of g' !! a = Some (mkBones (b_global b) (b_core b) (b_objects b) l).
Proof using He.
  intros (c & Hc & <-)%clients_of_lookup. destruct (edited_client _ _ Hc) as [l Hl]. exists l. by rewrite (bones_lookup _ _ _ Hl).
Qed.
Lemma edited_bones_inv a b : clients_of g' !! a = Some b -> exists l, clients_of g !! a = Some (mkBones (b_global b) (b_core b) (b_objects b) l).
Proof using He.
  intros (c' & Hc & <-)%clients_of_lookup. destruct (e_clients _ _ _ _ He a) as [l Hl]. rewrite Hc in Hl.
  destruct (clients g !! a) as [c|] eqn:Hca; [| done]. simplify_eq/=. eexists. by rewrite (bones_lookup _ _ _ Hca).
Qed.
Lemma edited_objects o y : objects_of g !! o = Some y -> exists l, objects_of g' !! o = Some (fst y, l).
Proof using He.
  intros (x & Hx & <-)%objects_of_lookup. destruct (e_objects _ _ _ _ He o) as [l Hl]. rewrite Hx in Hl.
  eexists. apply objects_of_lookup. eauto.
Qed.
Lemma edited_objects_inv o y : objects_of g' !! o = Some y -> exists l, objects_of g !! o = Some (fst y, l).
Proof using He.
  intros (x & Hx & <-)%objects_of_lookup. destruct (e_objects _ _ _ _ He o) as [l Hl]. rewrite Hx in Hl.
  destruct (objects g !! o) as [z|] eqn:Hz; [| done]. simplify_eq/=. eexists. apply objects_of_lookup. eauto.
Qed.
Lemma edited_has_holder h' : has_holder g h' -> has_holder g' h'.
Proof using He.
  destruct h' as [| | a | o]; simpl; try done; intros [b Hb].
  - destruct (edited_bones _ _ Hb) as [l Hl]. by rewrite Hl.
  - destruct (edited_objects _ _ Hb) as [l Hl]. by rewrite Hl.
Qed.
Lemma edited_global_of ug p x : global_of g ug p x -> global_of g' ug p x.
Proof using He.
  unfold global_of. rewrite (e_core_global _ _ _ _ He).
  destruct (global_bind x) as [[]|]; try done; intros [H1 [H2 | (c & Hc & Hp)]]; (split; [done |]); (try by left); right.
  - destruct (edited_bones _ _ Hc) as [l Hl]. by eexists.
  - destruct (edited_objects _ _ Hc) as [l Hl]. by eexists.
  - destruct (edited_objects _ _ Hc) as [l Hl]. by eexists.
  - destruct (edited_objects _ _ Hc) as [l Hl]. by eexists.
Qed.

Lemma sound_edited um ul ul' ug :
  sound um ul ug g ->
  NoDup (f (list_at g h)) ->
  (forall p, p ∈ f (list_at g h) -> exists r, resources g !! p = Some r /\ holder_at r = Some h) ->
  (forall p r, resources g !! p = Some r -> holder_at r = Some h -> p ∉ ul' -> p ∈ f (list_at g h)) ->
  (forall p r h', resources g !! p = Some r -> holder_at r = Some h' -> h' <> h -> p ∉ ul' -> p ∉ ul) ->
  sound um ul' ug g'.
Proof using He.
  intros Hs Hnd Hl1 Hl2 Hl3. pose proof He as []. constructor; unfold allocated_at in *; rewrite ?e_globals0, ?e_resources0, ?e_core_objects0, ?e_core_global0,
    ?e_global_list0, ?e_allocated0; try apply Hs.
  - intros a b [l Hb]%edited_bones_inv. by eapply (s_clients_fresh _ _ _ _ Hs).
  - intros o y [l Hy]%edited_objects_inv. by eapply (s_objects_fresh _ _ _ _ Hs).
  - intros a b [l Hb]%edited_bones_inv. by apply (s_repr _ _ _ _ Hs _ _ Hb).
  - intros p r Hr. destruct (s_client _ _ _ _ Hs p r Hr) as [b Hb]. destruct (edited_bones _ _ Hb) as [l Hb']. by eexists.
  - intros p r Hr Hp. destruct (s_mapped _ _ _ _ Hs p r Hr Hp) as (b & Hb & Hid). destruct (edited_bones _ _ Hb) as [l Hb']. by eexists.
  - intros a b i w [l Hb]%edited_bones_inv. by apply (s_word _ _ _ _ Hs _ _ _ _ Hb).
  - intros a b [l Hb]%edited_bones_inv. by apply (s_core _ _ _ _ Hs _ _ Hb).
  - intros h' p. rewrite e_list0. case_decide; [subst; apply Hl1 | by apply (s_list _ _ _ _ Hs)].
  - intros p r h' Hr Hh Hp. rewrite e_list0. case_decide; [subst; by apply (Hl2 p r) |].
    apply (s_listed _ _ _ _ Hs p r h' Hr Hh). by eapply Hl3.
  - intros p r h' Hr Hh. by apply edited_has_holder, (s_holder _ _ _ _ Hs p r).
  - intros h'. rewrite e_list0. case_decide; [by subst | apply Hs].
  - intros p x Hx. by apply edited_global_of, (s_global_of _ _ _ _ Hs).
  - intros a b [l Hb]%edited_bones_inv. by apply (s_client_global _ _ _ _ Hs _ _ Hb).
  - intros o y [l Hy]%edited_objects_inv. by apply (s_object_global _ _ _ _ Hs _ _ Hy).
Qed.
End Edited.

(** What a client agrees on does not involve the rest of it. *)
Lemma agree_same g g' c c' v :
  (forall i, is_registry g c i -> is_registry g' c' i) -> client_core_resource c' = client_core_resource c ->
  client_objects c' = client_objects c -> client_sent c' = client_sent c -> agree g c v -> agree g' c' v.
Proof.
  intros Hk H1 H2 H3 []. constructor; rewrite ?H1, ?H2, ?H3; try done; [by eapply acceptable_mono |].
  intros i Hi. destruct (a_regs i Hi) as [Hr | Hr]; [left; auto | by right].
Qed.

Lemma edited_well um ul ul' ug m vs h f g g' :
  edited h f g g' -> well um ul ug m vs g -> sound um ul' ug g' -> well um ul' ug m vs g'.
Proof.
  intros He [_ Hm Ha] Hs. constructor; [done | by rewrite (e_allocated _ _ _ _ He) |]. intros a v Hv.
  destruct (Ha a v Hv) as (c & Hc & Hag). destruct (edited_client _ _ _ _ He a c Hc) as [l Hl]. eexists. split; [done |].
  apply (agree_same g _ c); try done. intros i (p & r & Hp & Hr & Ht). exists p, r. by rewrite (e_resources _ _ _ _ He).
Qed.

Lemma unlink_well um ul ug m vs g p r h :
  well um ul ug m vs g -> resources g !! p = Some r -> holder_at r = Some h ->
  exists g', edit_list h (unlink p) g = Done (tt, g') /\ well um (p :: ul) ug m vs g' /\ edited h (unlink p) g g'.
Proof.
  intros Hw Hr Hh. pose proof (w_sound _ _ _ _ _ _ Hw) as Hs.
  destruct (edit_list_run h (unlink p) g (s_holder _ _ _ _ Hs _ _ _ Hr Hh)) as (g' & Hrun & He). exists g'. split; [done |]. split; [| done].
  apply (edited_well _ _ _ _ _ _ _ _ _ _ He Hw). apply (sound_edited _ _ _ _ He _ _ _ _ Hs).
  - apply unlink_nodup, Hs.
  - intros q [_ Hq]%elem_of_unlink. by apply (s_list _ _ _ _ Hs).
  - intros q r' Hq Hh' [Hne Hul]%not_elem_of_cons. apply elem_of_unlink. split; [done |]. by apply (s_listed _ _ _ _ Hs q r').
  - by intros q r' h' _ _ _ [_ Hul]%not_elem_of_cons.
Qed.

Lemma append_well um ug m vs g p r h :
  well um [p] ug m vs g -> resources g !! p = Some r -> holder_at r = Some h -> p ∉ list_at g h ->
  exists g', append h p g = Done (tt, g') /\ well um [] ug m vs g' /\ edited h (fun l => l ++ [p]) g g'.
Proof.
  intros Hw Hr Hh Hp. pose proof (w_sound _ _ _ _ _ _ Hw) as Hs.
  destruct (edit_list_run h (fun l => l ++ [p]) g (s_holder _ _ _ _ Hs _ _ _ Hr Hh)) as (g' & Hrun & He). exists g'. split; [done |]. split; [| done].
  apply (edited_well _ _ _ _ _ _ _ _ _ _ He Hw). apply (sound_edited _ _ _ _ He _ _ _ _ Hs).
  - apply NoDup_app. split; [apply Hs |]. split; [| apply NoDup_singleton]. by intros q Hq ->%list_elem_of_singleton.
  - intros q [Hq | ->%list_elem_of_singleton]%elem_of_app; [by apply (s_list _ _ _ _ Hs) | eauto].
  - intros q r' Hq Hh' _. apply elem_of_app. destruct (decide (q = p)) as [-> | Hne]; [right; left |]. left.
    by apply (s_listed _ _ _ _ Hs q r'); [| | intros ?%list_elem_of_singleton].
  - intros q r' h' Hq Hh' Hne _ ->%list_elem_of_singleton. congruence.
Qed.

(** A resource without a holder is in no list anyway. *)
Lemma sound_unheld um ul ug g p r : resources g !! p = Some r -> holder_at r = None -> sound um (p :: ul) ug g <-> sound um ul ug g.
Proof.
  intros Hr Hh. split; intros []; constructor; try done; intros q r' h Hq Hh' Hul; apply (s_listed q r' h Hq Hh').
  - intros [-> | ?]%elem_of_cons; [congruence | done].
  - intros ?. apply Hul. by right.
Qed.

(** ** Resources *)

Lemma list_at_set g a c c' h : clients g !! a = Some c -> client_resource_list c' = client_resource_list c ->
  list_at (set_client a c' g) h = list_at g h.
Proof.
  intros Hc Hl. destruct h as [| | b | o]; try done. unfold list_at. rewrite clients_of_set. destruct (decide (b = a)) as [-> | Hne].
  - by rewrite lookup_insert_eq, (bones_lookup _ _ _ Hc).
  - by rewrite lookup_insert_ne.
Qed.
Lemma quiet_list g g' h : quiet g g' -> list_at g' h = list_at g h.
Proof.
  intros Hq. unfold list_at, objects_of. by rewrite (q_resource_list _ _ Hq), (q_registries _ _ Hq), (quiet_bones _ _ Hq), (q_objects _ _ Hq).
Qed.

(** Changing the map of a client, or its core resource. *)
Lemma sound_set_client um um' ul ug g a c c' :
  sound um ul ug g -> clients g !! a = Some c ->
  client_global c' = client_global c \/ a ∈ ug -> client_resource_list c' = client_resource_list c ->
  repr (client_objects c') (Some <$> words (client_objects c')) [] ->
  (forall p r, resources g !! p = Some r -> resource_client r = a -> p ∉ um' ->
    0 <= resource_id r /\ words (client_objects c') !! Z.to_nat (resource_id r) = Some p) ->
  (forall p r, resources g !! p = Some r -> resource_client r <> a -> p ∉ um' -> p ∉ um) ->
  (forall i w, words (client_objects c') !! i = Some w -> w <> 0 ->
    exists r, resources g !! w = Some r /\ resource_client r = a /\ resource_id r = Z.of_nat i) ->
  (client_core_resource c' <> 0 -> exists r, resources g !! client_core_resource c' = Some r /\ resource_client r = a /\
    resource_id r = 0 /\ resource_type r = TypeCore /\ resource_destroy r = Some core_unbind) ->
  sound um' ul ug (set_client a c' g).
Proof.
  intros Hs Hc H1 H2 Hrepr Hm Hum Hw Hcore. pose proof (bones_lookup _ _ _ Hc) as Hb.
  assert (forall b d, clients_of (set_client a c' g) !! b = Some d -> exists d', clients_of g !! b = Some d' /\ (b_global d' = b_global d \/ b ∈ ug)) as Hinv.
  { intros b d. rewrite clients_of_set. intros [[<- <-] | [Hne Hd]]%lookup_insert_Some; [| by exists d; eauto]. exists (bones_of c).
    split; [done |]. destruct H1; [by left | by right]. }
  assert (forall b d, clients_of g !! b = Some d -> exists d', clients_of (set_client a c' g) !! b = Some d' /\ (b_global d' = b_global d \/ b ∈ ug)) as Hfwd.
  { intros b d Hd. rewrite clients_of_set. destruct (decide (b = a)) as [-> | Hne].
    - rewrite lookup_insert_eq. eexists. split; [done |]. rewrite Hb in Hd. simplify_eq/=. destruct H1; [by left | by right].
    - rewrite lookup_insert_ne by done. exists d. eauto. }
  pose proof (fun h => list_at_set g a c c' h Hc H2) as Hl.
  constructor; try apply Hs.
  - intros b d (d' & Hd & _)%Hinv. by eapply (s_clients_fresh _ _ _ _ Hs).
  - intros b d. rewrite clients_of_set. intros [[<- <-] | [Hne Hd]]%lookup_insert_Some; [done | by apply (s_repr _ _ _ _ Hs _ _ Hd)].
  - intros p r Hr. destruct (s_client _ _ _ _ Hs p r Hr) as [d (d' & Hd' & _)%Hfwd]. by eexists.
  - intros p r Hr Hp. destruct (decide (resource_client r = a)) as [Heq | Hne].
    + destruct (Hm p r Hr Heq Hp) as [Hid Hi]. exists (bones_of c'). rewrite clients_of_set, Heq, lookup_insert_eq. done.
    + destruct (s_mapped _ _ _ _ Hs p r Hr (Hum p r Hr Hne Hp)) as (d & Hd & Hid). exists d. by rewrite clients_of_set, lookup_insert_ne.
  - intros b d i w. rewrite clients_of_set. intros [[<- <-] | [Hne Hd]]%lookup_insert_Some; [apply Hw | by apply (s_word _ _ _ _ Hs)].
  - intros b d. rewrite clients_of_set. intros [[<- <-] | [Hne Hd]]%lookup_insert_Some; [apply Hcore | by apply (s_core _ _ _ _ Hs)].
  - intros h p. rewrite Hl. apply (s_list _ _ _ _ Hs).
  - intros p r h. rewrite Hl. apply (s_listed _ _ _ _ Hs).
  - intros p r h Hr Hh. pose proof (s_holder _ _ _ _ Hs p r h Hr Hh) as Hok. destruct h as [| | b | o]; try done.
    destruct Hok as [d (d' & Hd' & _)%Hfwd]. by eexists.
  - intros h. rewrite Hl. apply Hs.
  - intros p x Hx. pose proof (s_global_of _ _ _ _ Hs p x Hx) as Hof. unfold global_of in *. destruct (global_bind x) as [[]|]; try done.
    destruct Hof as [H3 [H4 | (d & (d' & Hd' & [<- | Hug])%Hfwd & Hp)]]; (split; [done |]); [by left | right; by exists d' | by left].
  - intros b d (d' & Hd & [<- | Hug])%Hinv Hnug; [| done]. by apply (s_client_global _ _ _ _ Hs _ _ Hd).
Qed.

(** A new resource is not in the map of its client, nor in a list. *)
Lemma sound_put_resource um ul ug g p r :
  sound um ul ug g -> resources g !! p = None -> allocated_at g p -> is_Some (clients g !! resource_client r) ->
  (resource_type r = TypeRegistry -> resource_destroy r = Some destroy_registry) -> (forall h, holder_at r = Some h -> has_holder g h) ->
  sound (p :: um) (p :: ul) ug (with_resources (<[p := r]> (resources g)) g).
Proof.
  intros Hs Hp Hat [c Hc] Hkind Hhold.
  assert (forall q r', resources g !! q = Some r' -> <[p := r]> (resources g) !! q = Some r') as Hold.
  { intros q r' Hq. rewrite lookup_insert_ne; [done |]. intros ->. congruence. }
  constructor; cbn [resources with_resources]; try apply Hs.
  - intros q r' [[<- <-] | [_ Hq]]%lookup_insert_Some; [done | by eapply (s_resources_fresh _ _ _ _ Hs)].
  - intros q r' [[<- <-] | [_ Hq]]%lookup_insert_Some; [exists (bones_of c); exact (bones_lookup g _ c Hc) | by eapply (s_client _ _ _ _ Hs)].
  - intros q r' [[<- <-] | [_ Hq]]%lookup_insert_Some [? ?]%not_elem_of_cons; [done | by apply (s_mapped _ _ _ _ Hs)].
  - intros b d i w Hb Hw Hnz. destruct (s_word _ _ _ _ Hs b d i w Hb Hw Hnz) as (r' & Hr' & Hrest). exists r'. split; [by apply Hold | done].
  - intros b d Hb Hnz. destruct (s_core _ _ _ _ Hs b d Hb Hnz) as (r' & Hr' & Hrest). exists r'. split; [by apply Hold | done].
  - intros q r' [[<- <-] | [_ Hq]]%lookup_insert_Some; [done | by eapply (s_kind _ _ _ _ Hs)].
  - intros h q Hq. destruct (s_list _ _ _ _ Hs h q Hq) as (r' & Hr' & Hrest). exists r'. split; [by apply Hold | done].
  - intros q r' h [[<- <-] | [_ Hq]]%lookup_insert_Some Hh [? ?]%not_elem_of_cons; [done | by apply (s_listed _ _ _ _ Hs q r')].
  - intros q r' h [[<- <-] | [_ Hq]]%lookup_insert_Some Hh; [by apply Hhold | by apply (s_holder _ _ _ _ Hs q r')].
Qed.

(** A resource nothing leads to is freed. *)
Lemma sound_delete_resource ug g p :
  sound [p] [p] ug g -> (forall h, p ∉ list_at g h) -> (forall a b, clients_of g !! a = Some b -> p ∉ words (b_objects b) /\ b_core b <> p) -> p <> 0 ->
  sound [] [] ug (with_resources (delete p (resources g)) g).
Proof.
  intros Hs Hl Hb Hp.
  constructor; cbn [resources with_resources]; try apply Hs.
  - intros q r [_ Hq]%lookup_delete_Some. by eapply (s_resources_fresh _ _ _ _ Hs).
  - intros q r [_ Hq]%lookup_delete_Some. by eapply (s_client _ _ _ _ Hs).
  - intros q r [Hne Hq]%lookup_delete_Some _. apply (s_mapped _ _ _ _ Hs); [done |]. by intros ->%list_elem_of_singleton.
  - intros a b i w Ha Hw Hnz. destruct (s_word _ _ _ _ Hs a b i w Ha Hw Hnz) as (r & Hr & Hrest). exists r. split; [| done].
    rewrite lookup_delete_ne; [done |]. intros ->. destruct (Hb a b Ha) as [Hin _]. by apply Hin, (list_elem_of_lookup_2 _ i).
  - intros a b Ha Hnz. destruct (s_core _ _ _ _ Hs a b Ha Hnz) as (r & Hr & Hrest). exists r. split; [| done].
    rewrite lookup_delete_ne; [done |]. intros ->. by destruct (Hb a b Ha).
  - intros q r [_ Hq]%lookup_delete_Some. by eapply (s_kind _ _ _ _ Hs).
  - intros h q Hq. destruct (s_list _ _ _ _ Hs h q Hq) as (r & Hr & Hrest). exists r. split; [| done].
    rewrite lookup_delete_ne; [done |]. intros ->. by apply (Hl h).
  - intros q r h [Hne Hq]%lookup_delete_Some Hh _. apply (s_listed _ _ _ _ Hs q r h Hq Hh). by intros ->%list_elem_of_singleton.
  - intros q r h [Hne Hq]%lookup_delete_Some. by apply (s_holder _ _ _ _ Hs q r h Hq).
Qed.

(** The resource leaves the list of its holder; the core resource is forgotten as well. *)
Definition forgets_core (r : PinosResource) (a : Z) : bool :=
  bool_decide (a = resource_client r) && bool_decide (resource_destroy r = Some core_unbind).
Definition forget_core (b : bool) (c : PinosClient) : PinosClient := if b then client_with_core_resource 0 c else c.

Record unheld (p : Z) (r : PinosResource) (g g' : PinosCore) : Prop := {
  u_globals : globals g' = globals g;
  u_resources : resources g' = resources g;
  u_core_global : core_global g' = core_global g;
  u_allocated : allocated g' = allocated g;
  u_list h : list_at g' h = if decide (holder_at r = Some h) then unlink p (list_at g h) else list_at g h;
  u_clients a : exists l, clients g' !! a = (fun c => forget_core (forgets_core r a) (client_with_resource_list l c)) <$> clients g !! a;
  u_objects o : exists l, objects g' !! o = object_with_resource_list l <$> objects g !! o
}.

Lemma edited_unheld p r h g g' : holder_at r = Some h -> resource_destroy r <> Some core_unbind -> edited h (unlink p) g g' -> unheld p r g g'.
Proof.
  intros Hh Hd []. constructor; try done.
  - intros h'. rewrite e_list0, Hh. case_decide as H1; case_decide as H2; congruence.
  - intros a. destruct (e_clients0 a) as [l ->]. exists l. unfold forgets_core. rewrite (bool_decide_eq_false_2 _ Hd), andb_false_r. done.
Qed.

Lemma run_destroy_sound ug g p r :
  sound [p] [] ug g -> resources g !! p = Some r ->
  exists g', match resource_destroy r with Some destroy => run_destroy destroy p r | None => ret tt end g = Done (tt, g') /\
    sound [p] [p] ug g' /\ unheld p r g g'.
Proof.
  intros Hs Hr. destruct (resource_destroy r) as [d|] eqn:Hd.
  2: { exists g. assert (holder_at r = None) as Hh by (unfold holder_at; by rewrite Hd). split_and!; [done | by eapply sound_unheld |].
       constructor; try done; [| | intros; apply object_list_id].
       - intros h. by rewrite Hh.
       - intros a. destruct (client_list_id (clients g !! a)) as [l Hl]. exists l. unfold forgets_core.
         rewrite (bool_decide_eq_false_2 (resource_destroy r = _)), andb_false_r by congruence. done. }
  assert (holder_at r = Some (holder_of d (resource_object r))) as Hh by (unfold holder_at; by rewrite Hd).
  assert (forall g1, sound [p] [] ug g1 -> resources g1 = resources g ->
    exists g', edit_list (holder_of d (resource_object r)) (unlink p) g1 = Done (tt, g') /\ sound [p] [p] ug g' /\ edited (holder_of d (resource_object r)) (unlink p) g1 g') as Hedit.
  { intros g1 Hs1 Hr1. destruct (unlink_well [p] [] ug (allocated g1) ∅ g1 p r _ ltac:(constructor; done) ltac:(by rewrite Hr1) Hh) as (g' & Hrun & Hw & He).
    exists g'. split_and!; [done | apply Hw | done]. }
  unfold run_destroy. destruct (decide (d = core_unbind)) as [-> | Hne].
  - destruct (s_client _ _ _ _ Hs p r Hr) as [b (c & Hc & <-)%clients_of_lookup].
    run (update_client_run g _ c (client_with_core_resource 0) Hc). set (g1 := set_client _ _ g).
    destruct (Hedit g1) as (g' & Hrun & Hs' & He); [| done |].
    { pose proof (bones_lookup _ _ _ Hc) as Hb. apply (sound_set_client [p] [p] [] ug g _ c); try done; [by left | ..].
      - exact (s_repr _ _ _ _ Hs _ _ Hb).
      - intros q r' Hq Heq Hp. destruct (s_mapped _ _ _ _ Hs q r' Hq Hp) as (b & Hb' & Hid). rewrite Heq, Hb in Hb'. by simplify_eq/=.
      - intros i w. exact (s_word _ _ _ _ Hs _ _ i w Hb). }
    exists g'. split_and!; [done | done |]. destruct He. constructor; try done.
    + intros h. rewrite e_list0, Hh. unfold g1. rewrite !(list_at_set _ _ c) by done. case_decide; case_decide; congruence.
    + intros a. destruct (e_clients0 a) as [l Hl]. exists l. rewrite Hl. unfold g1, forgets_core. simpl. rewrite (bool_decide_eq_true_2 _ Hd), andb_true_r.
      destruct (decide (a = resource_client r)) as [-> | Hna].
      * rewrite lookup_insert_eq, Hc, bool_decide_eq_true_2 by done. done.
      * rewrite lookup_insert_ne, bool_decide_eq_false_2 by done. done.
  - destruct (Hedit g Hs eq_refl) as (g' & Hrun & Hs' & He). exists g'. split; [by destruct d |]. split; [done |].
    eapply edited_unheld; [done | congruence | done].
Qed.

(** The resource is gone, and its slot in the map of its client is empty. *)
Record freed (p : Z) (r : PinosResource) (g g' : PinosCore) : Prop := {
  f_globals : globals g' = globals g;
  f_resources : resources g' = delete p (resources g);
  f_core_global : core_global g' = core_global g;
  f_list h : list_at g' h = if decide (holder_at r = Some h) then unlink p (list_at g h) else list_at g h;
  f_client c : clients g !! resource_client r = Some c -> exists c', clients g' !! resource_client r = Some c' /\ client_global c' = client_global c /\
    words (client_objects c') = <[Z.to_nat (resource_id r) := 0]> (words (client_objects c));
  f_others a : a <> resource_client r -> exists l, clients g' !! a = client_with_resource_list l <$> clients g !! a;
  f_objects o : exists l, objects g' !! o = object_with_resource_list l <$> objects g !! o
}.

(** An id leaves the map of the server for the announcement that it is removed. *)
Lemma agree_freed g g' c c' v i p r :
  agree g c v -> words (client_objects c) !! i = Some p -> p <> 0 -> resources g !! p = Some r -> resource_type r <> TypeRegistry -> (0 < i)%nat ->
  0%nat ∈ live (slots (words (client_objects c))) ->
  (forall j w, words (client_objects c) !! j = Some w -> w = p -> j = i) ->
  resources g' = delete p (resources g) ->
  client_core_resource c' = client_core_resource c -> words (client_objects c') = <[i := 0]> (words (client_objects c)) ->
  client_sent c' = client_sent c ++ [(0, CoreEvent (CoreRemoveId (Z.of_nat i)))] -> agree g' c' v.
Proof.
  intros Hag Hw Hp Hr Ht Hi H0 Huniq Hres Hc Hws Hsent. pose proof Hag as [].
  assert (i ∈ live (slots (words (client_objects c)))) as Hli by (apply elem_of_live_slots; eauto).
  destruct (mapped_live _ _ _ _ Hag Hli) as (L1 & L2 & L3 & L4 & L5). destruct (mapped_live _ _ _ _ Hag H0) as (M1 & M2 & M3 & M4 & M5).
  assert (forall j, is_registry g c j -> is_registry g' c' j) as Hreg.
  { intros j (q & r' & Hq & Hr' & Ht'). exists q, r'. assert (q <> p) by (intros ->; congruence).
    rewrite Hws, Hres, lookup_delete_ne by done. split_and!; [| done | done].
    rewrite list_lookup_insert_ne; [done |]. intros ->. congruence. }
  constructor; rewrite ?Hc, ?Hws, ?Hsent, ?length_insert; try done.
  - rewrite a_tokens, removed_app. pose proof (slots_lookup _ _ _ Hw) as Hsl. rewrite (proj2 (Z.eqb_neq _ _) Hp) in Hsl.
    rewrite (live_clear _ _ _ Hsl), slots_insert. cbn [removed omap list_omap removal snd fst Z.eqb]. rewrite Nat2Z.id. cbn [app].
    rewrite <- !app_assoc. cbn [app]. by rewrite <- !Permutation_middle.
  - apply deliverable_app. split; [done |]. simpl. rewrite Nat2Z.id. split_and!; try done; [lia |].
    intros Hin. destruct (a_regs i Hin) as [(q & r' & Hq & Hr' & Ht') | Hin']; [congruence |]. apply L2.
    revert Hin'. unfold registry_ids, new_ids. rewrite !list_elem_of_omap. intros (x & Hx & Hxi). exists x. split; [done |].
    destruct x as [d [[]|[]]]; done.
  - by eapply acceptable_mono.
  - intros j Hj. destruct (a_regs j Hj); [left; auto | by right].
Qed.

(** Once it is in no list and no map, nothing leads to the resource. *)
Lemma sound_freed ug g g2 p r c2 :
  sound [p] [p] ug g2 -> unheld p r g g2 -> resources g2 !! p = Some r -> (forall h, p ∈ list_at g h -> holder_at r = Some h) ->
  clients g2 !! resource_client r = Some c2 -> words (client_objects c2) !! Z.to_nat (resource_id r) = Some 0 ->
  (forgets_core r (resource_client r) = true -> client_core_resource c2 = 0) -> p <> 0 ->
  sound [] [] ug (with_resources (delete p (resources g2)) g2).
Proof.
  intros Hs Hu Hr Hl Hc Hw Hf Hp. apply sound_delete_resource; [done | | | done].
  - intros h. rewrite (u_list _ _ _ _ Hu). case_decide as Hh; [rewrite elem_of_unlink; naive_solver |]. intros Hin. by apply Hh, Hl.
  - intros a b Hb. pose proof Hb as (c & Hc' & <-)%clients_of_lookup. split.
    + intros [i Hi]%list_elem_of_lookup. destruct (s_word _ _ _ _ Hs _ _ _ _ Hb Hi Hp) as (r' & Hr' & <- & Hid).
      rewrite Hr in Hr'. simplify_eq/=. rewrite Hid, Nat2Z.id in Hw. congruence.
    + intros Hcore. assert (b_core (bones_of c) <> 0) as Hnz by congruence.
      destruct (s_core _ _ _ _ Hs _ _ Hb Hnz) as (r' & Hr' & Hra & _ & _ & Hd). rewrite Hcore, Hr in Hr'. simplify_eq.
      simplify_eq. simpl in Hnz. rewrite Hf in Hnz; [done |]. unfold forgets_core. by rewrite !bool_decide_eq_true_2.
Qed.

Section Destroy.
Context (realloc_ok : Z -> bool).

(** A word of the map of a client is cleared. *)
Lemma clear_word um ul ug g p r c :
  sound um ul ug g -> resources g !! p = Some r -> clients g !! resource_client r = Some c -> 0 <= resource_id r ->
  words (client_objects c) !! Z.to_nat (resource_id r) = Some p ->
  exists m', pinos_map_insert_at realloc_ok (client_objects c) (resource_id r) 0 = Some (true, m') /\
    words m' = <[Z.to_nat (resource_id r) := 0]> (words (client_objects c)) /\
    sound (p :: um) ul ug (set_client (resource_client r) (client_with_objects m' c) g).
Proof.
  intros Hs Hr Hc Hid Hw. pose proof (bones_lookup _ _ _ Hc) as Hb. pose proof (s_repr _ _ _ _ Hs _ _ Hb) as Hrep. cbn in Hrep.
  set (i := Z.to_nat (resource_id r)) in *.
  destruct (insert_at_live realloc_ok _ _ _ i p 0 Hrep) as (m' & Hrun & Hrep'); [by rewrite list_lookup_fmap, Hw | by repeat split |].
  replace (Z.of_nat i) with (resource_id r) in Hrun by lia.
  assert (<[i:=Some 0]> (Some <$> words (client_objects c)) = Some <$> <[i := 0]> (words (client_objects c))) as Heq by (by rewrite list_fmap_insert).
  rewrite Heq in Hrep'. pose proof (repr_words _ _ _ Hrep') as Hws. exists m'. split_and!; [done | done |].
  assert (i < length (words (client_objects c)))%nat as Hlt by by eapply lookup_lt_Some.
  apply (sound_set_client um (p :: um) ul ug g _ c); try done; cbn [client_objects client_with_objects]; rewrite ?Hws; try done; [by left | ..].
  - intros q r' Hq Heqc [Hne Hum]%not_elem_of_cons. destruct (s_mapped _ _ _ _ Hs q r' Hq Hum) as (b & Hb' & Hid' & Hw').
    rewrite Heqc, Hb in Hb'. simplify_eq/=. split; [done |]. rewrite list_lookup_insert_ne; [done |]. intros Hi. rewrite <- Hi in Hw'. congruence.
  - intros q r' _ _ [_ Hum]%not_elem_of_cons. done.
  - intros j w Hj Hnz. destruct (decide (j = i)) as [-> | Hne]; [by rewrite list_lookup_insert_eq in Hj by done; simplify_eq |].
    rewrite list_lookup_insert_ne in Hj by done. by apply (s_word _ _ _ _ Hs _ _ j w Hb).
  - exact (s_core _ _ _ _ Hs _ _ Hb).
Qed.

Lemma pinos_resource_destroy_well ug m vs g p r :
  well [] [] ug m vs g -> resources g !! p = Some r ->
  (is_Some (vs !! resource_client r) -> resource_type r <> TypeRegistry /\ resource_destroy r <> Some core_unbind) ->
  exists g', pinos_resource_destroy realloc_ok p g = Done (tt, g') /\ well [] [] ug m vs g' /\ freed p r g g'.
Proof.
  intros [Hs Hm Ha] Hr Hview. set (a := resource_client r) in *.
  destruct (mapped_id _ _ _ _ _ _ Hs Hr ltac:(by apply not_elem_of_nil)) as (c & Hc & Hid & Hw & Hl). fold a in Hc.
  destruct (is_data_address _ _ (s_resources_fresh _ _ _ _ Hs _ _ Hr)) as [_ Hp].
  destruct (clear_word _ _ _ _ _ _ _ Hs Hr Hc Hid Hw) as (m' & Hins & Hws & Hs1). fold a in Hs1. set (g1 := set_client a _ g) in *.
  destruct (run_destroy_sound ug g1 p r Hs1 Hr) as (g2 & Hrun2 & Hs2 & Hu). destruct (u_clients _ _ _ _ Hu a) as [l Hc2].
  unfold g1 in Hc2. simpl in Hc2. rewrite lookup_insert_eq in Hc2. simpl in Hc2.
  set (c2 := forget_core _ _) in Hc2.
  assert (client_objects c2 = m' /\ client_sent c2 = client_sent c /\ client_global c2 = client_global c) as (Ho2 & Hsent2 & Hg2).
  { unfold c2, forget_core. by destruct (forgets_core r a). }
  assert (Hcore2 : client_core_resource c2 = if forgets_core r a then 0 else client_core_resource c).
  { unfold c2, forget_core. by destruct (forgets_core r a). }
  assert (exists g3, when (negb (client_core_resource c2 =? 0)) (pinos_core_notify_remove_id (client_core_resource c2) (resource_id r)) g2 = Done (tt, g3) /\
    quiet g2 g3 /\ clients g3 = (if client_core_resource c2 =? 0 then clients g2
      else <[a := client_with_sent (client_sent c2 ++ [(0, CoreEvent (CoreRemoveId (resource_id r)))]) c2]> (clients g2))) as (g3 & Hrun3 & Hq & Hc3).
  { destruct (client_core_resource c2 =? 0) eqn:Hz; bool_to_prop; [exists g2; split_and!; [done | apply quiet_refl | done] |].
    destruct (s_core _ _ _ _ Hs2 a _ (bones_lookup _ _ _ Hc2) Hz) as (rc & Hrc & Hrca & Hrci & _).
    eexists. rewrite <- Hrca in Hc2. split; [by apply (notify_run _ _ rc c2) |]. split; [by eapply quiet_post |]. by rewrite Hrca, Hrci. }
  set (g' := with_resources (delete p (resources g3)) g3).
  assert (pinos_resource_destroy realloc_ok p g = Done (tt, g')) as Hrun.
  { unfold pinos_resource_destroy. run (get_resource_run _ _ _ Hr). run (get_client_run _ _ _ Hc). unfold insert_at. rewrite Hins. run_step.
    run (update_client_run _ _ c (client_with_objects m') Hc). fold a. fold g1. run Hrun2. run (get_client_run _ _ _ Hc2). run Hrun3. done. }
  assert (resources g3 = resources g) as Hr3 by by rewrite (q_resources _ _ Hq), (u_resources _ _ _ _ Hu).
  assert (sound [] [] ug g') as Hs'.
  { apply (sound_same _ _ _ (with_resources (delete p (resources g2)) g2)); try (by destruct Hq); [cbn; by rewrite Hr3, (u_resources _ _ _ _ Hu) | exact (quiet_bones _ _ Hq) | |].
    { unfold objects_of. cbn. by rewrite (q_objects _ _ Hq). }
    apply (sound_freed ug g1 g2 p r c2); try done.
    - by rewrite (u_resources _ _ _ _ Hu).
    - unfold g1. intros h. rewrite (list_at_set _ _ c) by done. intros Hin. destruct (s_list _ _ _ _ Hs h p Hin) as (r' & Hr' & Hh). congruence.
    - rewrite Ho2, Hws. apply list_lookup_insert_eq. by eapply lookup_lt_Some.
    - intros Hf. rewrite Hcore2. unfold a. by rewrite Hf. }
  exists g'. split; [done |]. split.
  - constructor; [done | by cbn; rewrite (q_allocated _ _ Hq), (u_allocated _ _ _ _ Hu) |]. intros b v Hv. destruct (Ha b v Hv) as (cb & Hcb & Hag).
    destruct (decide (b = a)) as [-> | Hne].
    + destruct (Hview (mk_is_Some _ _ Hv)) as [Ht Hd]. rewrite Hc in Hcb. injection Hcb as <-.
      assert (client_core_resource c2 = client_core_resource c) as Hcore.
      { rewrite Hcore2. unfold forgets_core. by rewrite (bool_decide_eq_false_2 _ Hd), andb_false_r. }
      pose proof (a_core _ _ _ Hag) as Hnz. rewrite Hcore, (proj2 (Z.eqb_neq _ _) Hnz) in Hc3. eexists. split; [simpl; rewrite Hc3; apply lookup_insert_eq |].
      destruct (s_core _ _ _ _ Hs a _ (bones_lookup _ _ _ Hc) Hnz) as (rc & Hrc & Hrca & Hrci & _ & Hrcd).
      destruct (mapped_id _ _ _ _ _ _ Hs Hrc ltac:(by apply not_elem_of_nil)) as (c' & Hc' & _ & Hw0 & Hl0).
      rewrite Hrca, Hc in Hc'. injection Hc' as <-. rewrite Hrci in Hw0, Hl0.
      apply (agree_freed g g' c _ v (Z.to_nat (resource_id r)) p r); try done.
      * destruct (decide (Z.to_nat (resource_id r) = 0%nat)) as [H0 |]; [| lia]. rewrite H0 in Hw. change (Z.to_nat 0) with 0%nat in Hw0.
        cbn in Hrc, Hw0. congruence.
      * intros j w Hj ->. destruct (s_word _ _ _ _ Hs _ _ _ _ (bones_lookup _ _ _ Hc) Hj Hp) as (r' & Hr' & _ & Hid'). simplify_eq. lia.
      * by cbn; rewrite Hr3.
      * by rewrite <- Hws, <- Ho2.
      * cbn. by rewrite Hsent2, Z2Nat.id.
    + destruct (u_clients _ _ _ _ Hu b) as [lb Hb]. exists (client_with_resource_list lb cb).
      assert (clients g' !! b = clients g2 !! b) as -> by (cbn; rewrite Hc3; case_if; [done | by apply lookup_insert_ne]).
      rewrite Hb. unfold g1, forgets_core. rewrite (bool_decide_eq_false_2 _ Hne). simpl. rewrite lookup_insert_ne, Hcb by done. split; [done |].
      apply (agree_same g g' cb _ v); try done. intros i (q & r' & Hq' & Hr' & Ht'). exists q, r'. cbn. rewrite Hr3. split_and!; try done.
      rewrite lookup_delete_ne; [done |]. intros ->.
      destruct (s_word _ _ _ _ Hs _ _ _ _ (bones_lookup _ _ _ Hcb) Hq' Hp) as (r'' & Hr'' & Hb'' & _). rewrite Hr in Hr''. simplify_eq.
  - constructor; cbn [globals resources core_global clients objects with_resources g'].
    + by rewrite (q_globals _ _ Hq), (u_globals _ _ _ _ Hu).
    + by rewrite Hr3.
    + by rewrite (q_core_global _ _ Hq), (u_core_global _ _ _ _ Hu).
    + intros h. change (list_at g' h) with (list_at g3 h). rewrite (quiet_list _ _ _ Hq), (u_list _ _ _ _ Hu). unfold g1.
      by rewrite !(list_at_set _ _ c).
    + intros c0 Hc0. fold a in Hc0. rewrite Hc in Hc0. injection Hc0 as <-. fold a. rewrite Hc3. case_if.
      * exists c2. by rewrite Ho2.
      * eexists. split; [apply lookup_insert_eq |]. cbn. by rewrite Ho2.
    + intros b Hne. fold a in Hne. destruct (u_clients _ _ _ _ Hu b) as [lb Hb]. exists lb. rewrite Hc3.
      unfold g1, forgets_core in Hb. rewrite (bool_decide_eq_false_2 _ Hne) in Hb. simpl in Hb. rewrite lookup_insert_ne in Hb by done.
      case_if; [done | by rewrite lookup_insert_ne].
    + intros o. rewrite (q_objects _ _ Hq). apply Hu.
Qed.
End Destroy.
