(* ===== verification/RegistryCalls.v ===== *)
(** The calls of clients: binding an id, and what the core and its registries answer. Each
    returns, and keeps [well]; the first call of the client is then done with. *)
From stdpp Require Import gmap.
From S2P Require Import Prelude State Defs Map Interfaces ProtocolTheory Introspect Properties Core Context Registry RegistryLogic RegistryServer.
Import Map.

(** The first call of a client is done with. *)
Definition served (v : view) : view := mkView (v_slots v) (tail (v_calls v)) (v_regs v) (v_limbo v) (v_taken v).

(** A call that takes no id. *)
Lemma served_well um ul ug m vs g a v d cl rest :
  well um ul ug m vs g -> vs !! a = Some v -> v_calls v = (d, cl) :: rest -> new_id cl = None -> well um ul ug m (<[a := served v]> vs) g.
Proof.
  intros [Hs Hm Ha] Hv Hcalls Hn. constructor; [done | done |]. intros b w. rewrite lookup_insert_Some. intros [[<- <-] | [_ Hw]]; [| by apply Ha].
  destruct (Ha a v Hv) as (c & Hc & Hag). exists c. split; [done |]. destruct Hag.
  assert (new_ids (v_calls v) = new_ids rest) as Hnew by (rewrite Hcalls; cbn; by rewrite Hn).
  assert (registry_ids (v_calls v) = registry_ids rest) as Hreg by (rewrite Hcalls; cbn; destruct cl as [[]|[]]; done).
  rewrite Hnew in *. rewrite Hreg in *. constructor; cbn [served v_slots v_calls v_regs v_limbo v_taken]; rewrite ?Hcalls; cbn [tail]; try done.
  rewrite Hcalls in a_calls. cbn in a_calls. destruct cl as [[]|[]]; naive_solver.
Qed.

Section Calls.
Context (calloc_ok realloc_ok : Z -> bool) (view_global : Z -> PinosGlobal -> bool).
Hypothesis calloc_granted : forall n, calloc_ok n = true.
Hypothesis realloc_granted : forall n, realloc_ok n = true.

(** ** Binding an id

    The slot of a new id is empty, or the next one. *)
Definition vacant (i : nat) (ws : list Z) : Prop := (i = length ws /\ zlen ws + 1 < 2 ^ 30) \/ ws !! i = Some 0.
Definition filled (i : nat) (d : Z) (ws : list Z) : list Z := if decide (i = length ws) then ws ++ [d] else <[i := d]> ws.

Section Vacant.
Context (i : nat) (d : Z) (ws : list Z) (Hv : vacant i ws).

Lemma filled_lookup : filled i d ws !! i = Some d.
Proof using Hv.
  unfold filled. case_decide as Hi; [by rewrite lookup_app_r, Hi, Nat.sub_diag by lia |].
  destruct Hv as [[? _] | Hw]; [done |]. apply list_lookup_insert_eq. by eapply lookup_lt_Some.
Qed.
Lemma filled_ne j : j <> i -> (j < length ws)%nat -> filled i d ws !! j = ws !! j.
Proof using Type.
  intros Hne Hj. unfold filled. case_decide; [by apply lookup_app_l | by apply list_lookup_insert_ne].
Qed.
Lemma filled_inv j w : filled i d ws !! j = Some w -> (j = i /\ w = d) \/ (j <> i /\ ws !! j = Some w).
Proof using Hv.
  intros Hj. destruct (decide (j = i)) as [-> | Hne]; [left; rewrite filled_lookup in Hj; by simplify_eq |]. right. split; [done |].
  rewrite <- Hj. symmetry. apply filled_ne; [done |]. apply lookup_lt_Some in Hj. revert Hj. unfold filled.
  case_decide; rewrite ?length_app, ?length_insert; simpl; lia.
Qed.
Lemma filled_old j w : ws !! j = Some w -> w <> 0 -> filled i d ws !! j = Some w.
Proof using Hv.
  intros Hj Hw. assert (j <> i) as Hne.
  { intros ->. destruct Hv as [[-> _] | H0]; [apply lookup_lt_Some in Hj; lia | congruence]. }
  rewrite filled_ne; [done | done | by eapply lookup_lt_Some].
Qed.
Lemma filled_live : d <> 0 -> live (slots (filled i d ws)) ≡ₚ i :: live (slots ws).
Proof using Hv.
  intros Hd. assert ((if d =? 0 then None else Some d) = Some d) as Heq by by rewrite (proj2 (Z.eqb_neq _ _) Hd).
  unfold filled. case_decide as Hi.
  - by rewrite slots_app, Heq, live_push, length_slots, Hi.
  - destruct Hv as [[? _] | Hw]; [done |]. rewrite slots_insert, Heq. apply live_fill. by rewrite (slots_lookup _ _ _ Hw).
Qed.
Lemma filled_live_0 : live (slots (filled i 0 ws)) ≡ₚ live (slots ws).
Proof using Hv.
  unfold filled. case_decide as Hi; [by rewrite slots_app, live_push_none |].
  destruct Hv as [[? _] | Hw]; [done |]. by rewrite list_insert_id.
Qed.
Lemma filled_length : length (filled i d ws) = if decide (i = length ws) then S (length ws) else length ws.
Proof using Type. unfold filled. case_decide; [rewrite length_app; simpl; lia | apply length_insert]. Qed.
End Vacant.

Lemma insert_at_vacant m ws i d :
  repr m (Some <$> ws) [] -> vacant i ws -> is_data d ->
  exists m', pinos_map_insert_at realloc_ok m (Z.of_nat i) d = Some (true, m') /\ words m' = filled i d ws /\ repr m' (Some <$> filled i d ws) [].
Proof.
  intros Hr Hv Hd. unfold filled. case_decide as Hi.
  - destruct Hv as [[_ Hb] | Hw]; [| apply lookup_lt_Some in Hw; lia].
    destruct (insert_at_end realloc_ok m _ [] d Hr Hd) as (m' & Hrun & Hr'); [by rewrite zlen_fmap | done |].
    rewrite zlen_fmap in Hrun. unfold zlen in Hrun. rewrite <- Hi in Hrun.
    change [Some d] with (Some <$> [d]) in Hr'. rewrite <- fmap_app in Hr'. exists m'. split_and!; [done | by eapply repr_words | done].
  - destruct Hv as [[? _] | Hw]; [done |].
    destruct (insert_at_live realloc_ok m _ [] i 0 d Hr) as (m' & Hrun & Hr'); [by rewrite list_lookup_fmap, Hw | done |].
    rewrite <- (list_fmap_insert Some) in Hr'. exists m'. split_and!; [done | by eapply repr_words | done].
Qed.

(** The new ids beyond the end of the map are those that come next, in order. *)
Lemma growth_next i n k rest :
  filter (fun j => n <= j)%nat (i :: rest) = seq n k ->
  (i = n /\ (0 < k)%nat /\ filter (fun j => S n <= j)%nat rest = seq (S n) (k - 1)) \/
  ((i < n)%nat /\ filter (fun j => n <= j)%nat rest = seq n k).
Proof.
  destruct (decide (n <= i)%nat) as [Hle | Hlt]; [rewrite filter_cons_True by done | rewrite filter_cons_False by done; right; split; [lia | done]].
  destruct k as [|k]; [done |]. cbn [seq]. intros [= -> Hr]. left. split_and!; [done | lia |].
  rewrite <- (list_filter_filter_l (fun j => S n <= j)%nat (fun j => n <= j)%nat) by lia. rewrite Hr. replace (S k - 1)%nat with k by lia.
  clear Hr. assert (forall b, (S n <= b)%nat -> filter (fun j => S n <= j)%nat (seq b k) = seq b k) as Hseq; [| by apply Hseq].
  induction k as [|k IH]; intros b Hb; [done |]. cbn [seq]. by rewrite filter_cons_True, IH by lia.
Qed.

Lemma new_id_vacant g c v d m rest i :
  agree g c v -> v_calls v = (d, m) :: rest -> new_id m = Some i -> vacant i (words (client_objects c)).
Proof.
  intros Hag Hv Hi. pose proof (agree_nodup _ _ _ Hag) as Hnd. pose proof Hag as []. rewrite Hv in *.
  change (new_ids ((d, m) :: rest)) with (match new_id m with Some i => i :: new_ids rest | None => new_ids rest end) in *. rewrite Hi in *.
  destruct (decide (i < length (words (client_objects c)))%nat) as [Hlt | Hge].
  - right. destruct (lookup_lt_is_Some_2 _ _ Hlt) as [w Hw]. rewrite Hw. f_equal. destruct (decide (w = 0)) as [| Hnz]; [done |].
    cbn in Hnd. apply NoDup_cons in Hnd as [Hn _]. destruct Hn. rewrite !elem_of_app. right. left. apply elem_of_live_slots. eauto.
  - left. apply growth_next in a_growth as [(-> & Hk & _) | [? _]]; [| lia]. unfold zlen in *. split; [done | lia].
Qed.

Definition bound (a : Z) (c : PinosClient) (m' : PinosMap) (p : Z) (r : PinosResource) (g : PinosCore) : PinosCore :=
  set_client a (client_with_objects m' c) (with_resources (<[p := r]> (resources g)) (with_allocated (allocated g + 1) g)).

Lemma pinos_resource_new_run um ul ug g a c i type object destroy :
  sound um ul ug g -> allocated g < 2 ^ 40 -> clients g !! a = Some c -> vacant i (words (client_objects c)) -> Z.of_nat i < 2 ^ 30 ->
  (type = TypeRegistry -> destroy = Some destroy_registry) ->
  (forall h, ((fun d => holder_of d object) <$> destroy) = Some h -> has_holder g h) ->
  let p := address (allocated g) in let r := mkResource (Z.of_nat i) a type object destroy in
  exists m', pinos_resource_new calloc_ok realloc_ok a (Z.of_nat i) type object destroy g = Done (p, bound a c m' p r g) /\
    words m' = filled i p (words (client_objects c)) /\ p <> 0 /\ resources g !! p = None /\ sound um (p :: ul) ug (bound a c m' p r g).
Proof.
  intros Hs Hb Hc Hv Hi Hkind Hhold p r. pose proof (s_count _ _ _ _ Hs) as Hpos.
  destruct (fresh_address _ _ _ _ Hs ltac:(lia)) as (_ & Hfr & _ & _ & Hat). fold p in Hfr, Hat.
  destruct (is_data_address _ _ Hat) as [Hd Hp]. pose proof (sound_alloc _ _ _ _ Hs) as Hs1.
  pose proof (bones_lookup _ _ _ Hc) as Hbone. pose proof (s_repr _ _ _ _ Hs _ _ Hbone) as Hrep. cbn in Hrep.
  destruct (insert_at_vacant _ _ _ _ Hrep Hv Hd) as (m' & Hins & Hws & Hrep').
  exists m'. split_and!; [| done | done | done |].
  - unfold pinos_resource_new. run (calloc_run calloc_ok calloc_granted g ltac:(lia)). fold p.
    rewrite (proj2 (Z.eqb_neq _ _) Hp). run (get_client_run (with_allocated (allocated g + 1) g) _ _ Hc).
    assert ((Z.of_nat i =? SPA_ID_INVALID) = false) as -> by (apply Z.eqb_neq; unfold SPA_ID_INVALID; lia).
    unfold insert_at. rewrite Hins. run_step. cbn [fst snd negb].
    run (update_client_run (with_allocated (allocated g + 1) g) _ c (client_with_objects m') Hc). done.
  - assert (sound (p :: um) (p :: ul) ug (with_resources (<[p := r]> (resources g)) (with_allocated (allocated g + 1) g))) as Hs2.
    { apply (sound_put_resource um ul ug (with_allocated (allocated g + 1) g) p r); try done; eauto. }
    apply (sound_set_client (p :: um) um (p :: ul) ug _ a c _ Hs2 Hc); try done; cbn [client_objects client_with_objects resources with_resources set_client]; [by left | ..].
    + by rewrite Hws.
    + rewrite Hws. intros q r' [[<- <-] | [Hne Hq]]%lookup_insert_Some Ha Hum.
      { cbn. rewrite Nat2Z.id. split; [lia | by apply filled_lookup]. }
      destruct (s_mapped _ _ _ _ Hs q r' Hq Hum) as (b & Hb' & Hid & Hw). rewrite Ha, Hbone in Hb'. simplify_eq. split; [done |].
      apply filled_old; [done | done |]. by destruct (is_data_address _ _ (s_resources_fresh _ _ _ _ Hs _ _ Hq)).
    + intros q r' [[<- <-] | [Hne Hq]]%lookup_insert_Some Hna Hum; [done |]. apply not_elem_of_cons. done.
    + rewrite Hws. intros j w [[-> ->] | [Hne Hj]]%(filled_inv _ _ _ Hv) Hnz.
      { exists r. by rewrite lookup_insert_eq. }
      destruct (s_word _ _ _ _ Hs _ _ _ _ Hbone Hj Hnz) as (r' & Hr' & Hrest). exists r'. split; [| done].
      rewrite lookup_insert_ne; [done |]. congruence.
    + intros Hnz. destruct (s_core _ _ _ _ Hs _ _ Hbone Hnz) as (r' & Hr' & Hrest). exists r'. split; [| done].
      rewrite lookup_insert_ne; [done |]. cbn in *. congruence.
Qed.

(** What the id of a call becomes when it is bound ... *)
Lemma agree_bound um ul ug g c v d m rest i m' p r :
  sound um ul ug g -> agree g c v -> v_calls v = (d, m) :: rest -> new_id m = Some i -> words m' = filled i p (words (client_objects c)) -> p <> 0 ->
  resources g !! p = None -> (registry_id m <> None -> resource_type r = TypeRegistry) ->
  agree (bound (resource_client r) c m' p r g) (client_with_objects m' c) (served v).
Proof.
  intros Hs Hag Hv Hi Hws Hp Hfr Hreg. pose proof (new_id_vacant _ _ _ _ _ _ _ Hag Hv Hi) as Hvac. pose proof Hag as []. rewrite Hv in *.
  change (new_ids ((d, m) :: rest)) with (match new_id m with Some i => i :: new_ids rest | None => new_ids rest end) in *. rewrite Hi in *.
  set (g' := bound _ _ _ _ _ _). set (c' := client_with_objects m' c).
  assert (forall j, is_registry g c j -> is_registry g' c' j) as Hold.
  { intros j (q & r' & Hq & Hr' & Ht). assert (q <> p) by congruence. exists q, r'. cbn. rewrite Hws, lookup_insert_ne by done.
    split_and!; [| done | done]. apply filled_old; [done | done |].
    by destruct (is_data_address _ _ (s_resources_fresh _ _ _ _ Hs _ _ Hr')). }
  assert (forall j, registry_id m = Some j -> is_registry g' c' j) as Hnew.
  { intros j Hj. exists p, r. cbn. rewrite Hws, lookup_insert_eq. split_and!; [| done | apply Hreg; congruence].
    assert (j = i) as -> by (destruct m as [[]|[]]; simplify_eq/=; done). by apply filled_lookup. }
  constructor; cbn [client_core_resource client_objects client_sent c' client_with_objects served v_slots v_calls v_regs v_limbo v_taken];
    rewrite ?Hv, ?Hws; cbn [tail]; try done.
  - rewrite a_tokens. rewrite (filled_live i p _ Hvac Hp). cbn [app]. by rewrite <- !Permutation_middle.
  - rewrite filled_length. apply growth_next in a_growth as [(-> & Hk & _) | [Hlt _]]; case_decide; lia.
  - rewrite filled_length. apply growth_next in a_growth as [(-> & Hk & Hgr) | [Hlt Hgr]]; case_decide; try lia; [| done].
    rewrite Hgr. f_equal. lia.
  - cbn in a_calls. destruct m as [[]|[]]; try done; destruct_and?; simplify_eq/=.
    + eapply acceptable_mono; [| done]. intros j [Hj | ->]; auto.
    + by eapply acceptable_mono.
  - intros j Hj. destruct (a_regs j Hj) as [Hr | Hr]; [left; auto |]. destruct (registry_id m) as [k|] eqn:Hk; cbn in Hr; rewrite Hk in Hr.
    + apply elem_of_cons in Hr as [-> | Hr]; [left; auto | by right].
    + by right.
Qed.

Lemma registry_new_ids i l : i ∈ registry_ids l -> i ∈ new_ids l.
Proof.
  unfold registry_ids, new_ids. rewrite !list_elem_of_omap. intros (x & Hx & Hxi). exists x. split; [done |]. by destruct x as [d [[]|[]]].
Qed.

(** ... and when it is refused. *)
Lemma agree_refused um ul ug g g' c c' v d m rest i :
  sound um ul ug g -> agree g c v -> v_calls v = (d, m) :: rest -> new_id m = Some i -> registry_id m = None ->
  0%nat ∈ live (slots (words (client_objects c))) -> resources g' = resources g ->
  client_core_resource c' = client_core_resource c -> words (client_objects c') = filled i 0 (words (client_objects c)) ->
  client_sent c' = client_sent c ++ [(0, CoreEvent (CoreRemoveId (Z.of_nat i)))] -> agree g' c' (served v).
Proof.
  intros Hs Hag Hv Hi Hni H0 Hres Hc Hws Hsent. pose proof (new_id_vacant _ _ _ _ _ _ _ Hag Hv Hi) as Hvac. pose proof Hag as [].
  pose proof (agree_nodup _ _ _ Hag) as Hnd. destruct (mapped_live _ _ _ _ Hag H0) as (M1 & M2 & M3 & M4 & M5). rewrite Hv in *.
  assert (new_ids ((d, m) :: rest) = i :: new_ids rest) as Hids by (cbn; by rewrite Hi).
  assert (registry_ids ((d, m) :: rest) = registry_ids rest) as Hregs by (cbn; by rewrite Hni). rewrite Hids in *. rewrite Hregs in *.
  assert (forall q r, resources g !! q = Some r -> q <> 0) as Hnz.
  { intros q r Hq. by destruct (is_data_address _ _ (s_resources_fresh _ _ _ _ Hs _ _ Hq)). }
  assert (forall j, is_registry g c j -> is_registry g' c' j) as Hold.
  { intros j (q & r & Hq & Hr & Ht). exists q, r. rewrite Hws, Hres. split_and!; [| done | done]. apply filled_old; eauto. }
  cbn [app] in Hnd. apply NoDup_cons in Hnd as [Hnin Hnd]. rewrite !not_elem_of_app in Hnin. destruct Hnin as (N1 & N2 & N3 & N4 & N5).
  constructor; cbn [served v_slots v_calls v_regs v_limbo v_taken]; rewrite ?Hv, ?Hws, ?Hc, ?Hsent; cbn [tail]; try done.
  - rewrite a_tokens, (filled_live_0 i _ Hvac), removed_app. cbn [removed omap list_omap removal snd]. rewrite Nat2Z.id. cbn [app].
    rewrite <- !app_assoc. cbn [app]. by rewrite <- !Permutation_middle.
  - rewrite filled_length. apply growth_next in a_growth as [(-> & Hk & _) | [Hlt _]]; case_decide; lia.
  - rewrite filled_length. apply growth_next in a_growth as [(-> & Hk & Hgr) | [Hlt Hgr]]; case_decide; try lia; [| done].
    rewrite Hgr. f_equal. lia.
  - apply deliverable_app. split; [done |]. simpl. rewrite Nat2Z.id. split_and!; try done.
    + destruct i; [done | lia].
    + rewrite a_tokens. by left.
    + intros Hin. destruct (a_regs i Hin) as [(q & r & Hq & Hr & _) | Hin'%registry_new_ids]; [| done].
      destruct Hvac as [[-> _] | Hw]; [apply lookup_lt_Some in Hq; lia |]. rewrite Hw in Hq. injection Hq as <-. by apply (Hnz 0 r).
  - cbn in a_calls. destruct m as [[]|[]]; try done; destruct_and?; simplify_eq/=. by eapply acceptable_mono.
  - intros j Hj. destruct (a_regs j Hj); [left; auto | by right].
Qed.

Lemma pinos_resource_new_well ug m vs g a c v d cl rest i type object destroy :
  well [] [] ug m vs g -> m + 1 < 2 ^ 30 -> clients g !! a = Some c ->
  vs !! a = Some v -> v_calls v = (d, cl) :: rest -> new_id cl = Some i -> Z.of_nat i < 2 ^ 30 ->
  (registry_id cl <> None -> type = TypeRegistry) -> (type = TypeRegistry -> destroy = Some destroy_registry) ->
  (forall h, ((fun d => holder_of d object) <$> destroy) = Some h -> has_holder g h) ->
  let r := mkResource (Z.of_nat i) a type object destroy in
  exists p g', pinos_resource_new calloc_ok realloc_ok a (Z.of_nat i) type object destroy g = Done (p, g') /\ p <> 0 /\
    well [] [p] ug (m + 1) (<[a := served v]> vs) g' /\ resources g' = <[p := r]> (resources g) /\ (forall h, p ∉ list_at g' h) /\
    globals g' = globals g /\ global_list g' = global_list g /\ objects_of g' = objects_of g /\
    (forall b, is_Some (clients g !! b) -> is_Some (clients g' !! b)).
Proof.
  intros [Hs Hm Ha] Hb Hc Hv Hcalls Hi Hlt Hreg Hkind Hhold r. destruct (Ha a v Hv) as (c' & Hc' & Hag). rewrite Hc in Hc'. injection Hc' as <-.
  pose proof (new_id_vacant _ _ _ _ _ _ _ Hag Hcalls Hi) as Hvac.
  destruct (pinos_resource_new_run [] [] ug g a c i type object destroy Hs ltac:(lia) Hc Hvac Hlt Hkind Hhold) as (m' & Hrun & Hws & Hp & Hfr & Hs').
  set (p := address (allocated g)) in *. exists p, (bound a c m' p r g). split_and!; try done.
  - constructor; [done | cbn; lia |]. intros b w. rewrite lookup_insert_Some. intros [[<- <-] | [Hne Hw]].
    + exists (client_with_objects m' c). split; [apply lookup_insert_eq |]. by eapply (agree_bound [] [] ug g c v d cl rest i m' p r).
    + destruct (Ha b w Hw) as (cb & Hcb & Hagb). exists cb. split; [cbn; by rewrite lookup_insert_ne |]. eapply agree_frame; [| done].
      intros q r' Hq _. cbn. rewrite lookup_insert_ne; [done |]. congruence.
  - intros h Hin. unfold bound in Hin. rewrite (list_at_set _ _ c) in Hin by done.
    destruct (s_list _ _ _ _ Hs h p Hin) as (r' & Hr' & _). congruence.
  - intros b [cb Hcb]. cbn. destruct (decide (b = a)) as [-> | Hne]; [rewrite lookup_insert_eq; by eexists | rewrite lookup_insert_ne by done; by eexists].
Qed.

Lemma set_info_well um ul ug m vs g a c c' :
  well um ul ug m vs g -> clients g !! a = Some c -> bones_of c' = bones_of c -> client_sent c' = client_sent c -> well um ul ug m vs (set_client a c' g).
Proof.
  intros [Hs Hm Ha] Hc Hb Hsent. constructor; [| done |].
  - apply (sound_same _ _ _ g); try done. by eapply clients_of_same.
  - apply all_agree_set; [| done]. intros v Hv. destruct (Ha a v Hv) as (c0 & Hc0 & Hag). rewrite Hc in Hc0. injection Hc0 as <-.
    injection Hb as H1 H2 H3 H4. apply (agree_same g g c c' v); try done. intros i (p & r & Hp & Hr & Ht). exists p, r. by rewrite H3.
Qed.

(** ** The functions that bind a global

    The client [a] binds [x] with the first of its calls. *)
Section Bind.
Context (m : Z) (vs : gmap Z view) (g : PinosCore) (x : PinosGlobal) (a : Z) (v : view) (d : Z) (cl : call) (rest : list (Z * call)) (i : nat).
Hypotheses (Hw : well [] [] [] m vs g) (Hb : m + 1 < 2 ^ 30) (Hv : vs !! a = Some v) (Hcalls : v_calls v = (d, cl) :: rest)
  (Hi : new_id cl = Some i) (Hni : registry_id cl = None) (Hlt : Z.of_nat i < 2 ^ 30) (Ht : global_type x <> TypeRegistry).

Definition binds (f : PinosGlobal -> Z -> Z -> Core Z) : Prop :=
  exists res g', f x a (Z.of_nat i) g = Done (res, g') /\ well [] [] [] (m + 1) (<[a := served v]> vs) g'.

(** A resource with a holder is appended to its list. *)
Lemma bind_resource destroy :
  has_holder g (holder_of destroy (global_object x)) -> destroy <> destroy_registry ->
  exists q g1 g2, pinos_resource_new calloc_ok realloc_ok a (Z.of_nat i) (global_type x) (global_object x) (Some destroy) g = Done (q, g1) /\ q <> 0 /\
    append (holder_of destroy (global_object x)) q g1 = Done (tt, g2) /\ well [] [] [] (m + 1) (<[a := served v]> vs) g2 /\
    is_Some (resources g2 !! q) /\ (forall h, has_holder g h -> has_holder g2 h).
Proof using calloc_granted realloc_granted Hw Hb Hv Hcalls Hi Hni Hlt Ht.
  intros Hh Hd. destruct (w_agree _ _ _ _ _ _ Hw a v Hv) as (c & Hc & _).
  destruct (pinos_resource_new_well [] m vs g a c v d cl rest i (global_type x) (global_object x) (Some destroy) Hw Hb Hc Hv Hcalls Hi Hlt) as
    (q & g1 & Hrun & Hq & Hw1 & Hres & Hnl & _ & _ & Hobj & Hcl); [congruence | done | |].
  { intros h. simpl. by intros [= <-]. }
  assert (resources g1 !! q = Some (mkResource (Z.of_nat i) a (global_type x) (global_object x) (Some destroy))) as Hr by (rewrite Hres; apply lookup_insert_eq).
  destruct (append_well _ _ _ _ _ _ _ (holder_of destroy (global_object x)) Hw1 Hr eq_refl) as (g2 & Hrun2 & Hw2 & He); [apply Hnl |].
  exists q, g1, g2. rewrite (e_resources _ _ _ _ He), Hr. split_and!; try done.
  intros h Hok. apply (edited_has_holder _ _ _ _ He). destruct h as [| | b | o]; simpl in *; try done; [| by rewrite Hobj].
  destruct Hok as [cb (c' & Hc' & _)%clients_of_lookup]. destruct (Hcl b) as [c2 Hc2]; [by eexists |]. rewrite (bones_lookup _ _ _ Hc2). by eexists.
Qed.

Lemma object_bind_func_well unbind :
  has_holder g (OfObject (global_object x)) -> unbind = node_unbind \/ unbind = link_unbind -> binds (object_bind_func calloc_ok realloc_ok unbind).
Proof using calloc_granted realloc_granted Hw Hb Hv Hcalls Hi Hni Hlt Ht.
  intros Ho Hun. destruct (bind_resource unbind) as (q & g1 & g2 & Hrun & Hq & Hrun2 & Hw2 & [r Hr] & Hh); [by destruct Hun as [-> | ->] | by destruct Hun as [-> | ->] |].
  replace (holder_of unbind _) with (OfObject (global_object x)) in Hrun2 by by destruct Hun as [-> | ->].
  destruct (Hh (OfObject (global_object x)) Ho) as [o (y & Hy & _)%objects_of_lookup].
  destruct (notify_well _ _ _ _ _ _ _ _ (InfoEvent (Core.object_info y)) Hw2 Hr) as (g3 & Hrun3 & Hw3 & _); [by apply not_elem_of_nil | done |].
  exists SPA_RESULT_OK, g3. split; [| done]. unfold object_bind_func. run Hrun. rewrite (proj2 (Z.eqb_neq _ _) Hq).
  run Hrun2. run (get_object_run _ _ _ Hy). run Hrun3. done.
Qed.

Lemma client_bind_func_well : has_holder g (OfClient (global_object x)) -> binds (client_bind_func calloc_ok realloc_ok).
Proof using calloc_granted realloc_granted Hw Hb Hv Hcalls Hi Hni Hlt Ht.
  intros Ho. destruct (bind_resource client_unbind) as (q & g1 & g2 & Hrun & Hq & Hrun2 & Hw2 & [r Hr] & Hh); [done | done |].
  destruct (Hh _ Ho) as [o (y & Hy & _)%clients_of_lookup].
  set (info := mkClientInfo (cli_id (client_info y)) ALL (cli_props (client_info y))).
  pose proof (set_info_well _ _ _ _ _ _ _ _ (client_with_info (client_properties y) info y) Hw2 Hy eq_refl eq_refl) as Hw3.
  destruct (notify_well _ _ _ _ _ _ _ _ (InfoEvent (ClientInfo info)) Hw3 Hr) as (g3 & Hrun3 & Hw4 & _); [by apply not_elem_of_nil | done |].
  exists SPA_RESULT_OK, g3. split; [| done]. unfold client_bind_func. run Hrun. rewrite (proj2 (Z.eqb_neq _ _) Hq).
  run Hrun2. run (get_client_run _ _ _ Hy). unfold put_client. run_step. fold info. run Hrun3. done.
Qed.

Lemma module_bind_func_well : has_holder g (OfObject (global_object x)) -> binds (module_bind_func calloc_ok realloc_ok).
Proof using calloc_granted realloc_granted Hw Hb Hv Hcalls Hi Hni Hlt Ht.
  intros Ho. destruct (w_agree _ _ _ _ _ _ Hw a v Hv) as (c & Hc & _).
  destruct (pinos_resource_new_well [] m vs g a c v d cl rest i (global_type x) (global_object x) None Hw Hb Hc Hv Hcalls Hi Hlt) as
    (q & g1 & Hrun & Hq & [Hs1 Hm1 Ha1] & Hres & Hnl & _ & _ & Hobj & _); [congruence | done | done |].
  assert (resources g1 !! q = Some (mkResource (Z.of_nat i) a (global_type x) (global_object x) None)) as Hr by (rewrite Hres; apply lookup_insert_eq).
  apply (proj1 (sound_unheld _ _ _ _ _ _ Hr eq_refl)) in Hs1. simpl in Ho. rewrite <- Hobj in Ho. destruct Ho as [o (y & Hy & _)%objects_of_lookup].
  assert (well [] [] [] (m + 1) (<[a := served v]> vs) g1) as Hw1 by by constructor.
  destruct (notify_well _ _ _ _ _ _ _ _ (InfoEvent (Core.object_info y)) Hw1 Hr) as (g3 & Hrun3 & Hw3 & _); [by apply not_elem_of_nil | done |].
  exists SPA_RESULT_OK, g3. split; [| done]. unfold module_bind_func. run Hrun. rewrite (proj2 (Z.eqb_neq _ _) Hq).
  run (get_object_run _ _ _ Hy). run Hrun3. done.
Qed.

Lemma run_bind_well p b : globals g !! p = Some x -> global_bind x = Some b -> b <> core_bind -> binds (run_bind calloc_ok realloc_ok b).
Proof using calloc_granted realloc_granted Hw Hb Hv Hcalls Hi Hni Hlt Ht.
  intros Hx Hbind Hne. pose proof (s_global_of _ _ _ _ (w_sound _ _ _ _ _ _ Hw) p x Hx) as Hof. unfold global_of in Hof. rewrite Hbind in Hof.
  destruct b; [done |..]; destruct Hof as (_ & [Hin | (o & Ho & _)]); try (by apply elem_of_nil in Hin);
    [apply client_bind_func_well | apply object_bind_func_well | apply object_bind_func_well | apply module_bind_func_well]; simpl; eauto.
Qed.
End Bind.

(** A refused id: its slot stays empty, and the client is told. *)
Definition refuse (a new_id : Z) : Core unit :=
  c <- get_client a ;;
  '(_, m) <- insert_at realloc_ok (client_objects c) new_id 0 ;;
  update_client a (client_with_objects m) ;;;
  pinos_core_notify_remove_id (client_core_resource c) new_id.

Lemma core_resource_at_0 um ul ug g a c :
  sound um ul ug g -> clients g !! a = Some c -> client_core_resource c <> 0 -> client_core_resource c ∉ um ->
  exists r, resources g !! client_core_resource c = Some r /\ resource_client r = a /\ resource_id r = 0 /\ resource_type r = TypeCore /\
    resource_destroy r = Some core_unbind /\ words (client_objects c) !! 0%nat = Some (client_core_resource c) /\
    0%nat ∈ live (slots (words (client_objects c))).
Proof.
  intros Hs Hc Hnz Hum. destruct (s_core _ _ _ _ Hs a _ (bones_lookup _ _ _ Hc) Hnz) as (r & Hr & Hra & Hri & Hrt & Hrd).
  destruct (mapped_id _ _ _ _ _ _ Hs Hr Hum) as (c' & Hc' & _ & Hw0 & Hl0). rewrite Hra, Hc in Hc'. injection Hc' as <-.
  rewrite Hri in Hw0, Hl0. exists r. done.
Qed.

Lemma refuse_well m vs g a v d cl rest i :
  well [] [] [] m vs g -> vs !! a = Some v -> v_calls v = (d, cl) :: rest -> new_id cl = Some i -> registry_id cl = None ->
  exists g', refuse a (Z.of_nat i) g = Done (tt, g') /\ well [] [] [] m (<[a := served v]> vs) g'.
Proof.
  intros [Hs Hm Ha] Hv Hcalls Hi Hni. destruct (Ha a v Hv) as (c & Hc & Hag). pose proof (new_id_vacant _ _ _ _ _ _ _ Hag Hcalls Hi) as Hvac.
  pose proof (bones_lookup _ _ _ Hc) as Hbone. pose proof (s_repr _ _ _ _ Hs _ _ Hbone) as Hrep. cbn in Hrep.
  destruct (insert_at_vacant _ _ _ 0 Hrep Hvac) as (m' & Hins & Hws & Hrep'); [by repeat split |].
  destruct (core_resource_at_0 _ _ _ _ _ _ Hs Hc (a_core _ _ _ Hag) ltac:(apply not_elem_of_nil)) as (r & Hr & Hra & Hri & _ & _ & Hw0 & Hl0).
  assert (sound [] [] [] (set_client a (client_with_objects m' c) g)) as Hs1.
  { apply (sound_set_client [] [] [] [] g a c); try done; cbn [client_objects client_with_objects]; rewrite ?Hws; try done; [by left | ..].
    - intros q r' Hq Hqa Hum. destruct (s_mapped _ _ _ _ Hs q r' Hq Hum) as (b & Hb' & Hid & Hw). rewrite Hqa, Hbone in Hb'. simplify_eq. split; [done |].
      apply filled_old; [done | done |]. by destruct (is_data_address _ _ (s_resources_fresh _ _ _ _ Hs _ _ Hq)).
    - intros j w [[-> ->] | [Hne Hj]]%(filled_inv _ _ _ Hvac) Hnz; [done |]. by apply (s_word _ _ _ _ Hs _ _ _ _ Hbone).
    - exact (s_core _ _ _ _ Hs _ _ Hbone). }
  set (g1 := set_client _ _ g) in *. assert (clients g1 !! a = Some (client_with_objects m' c)) as Hc1 by apply lookup_insert_eq.
  exists (post a (client_with_objects m' c) (0, CoreEvent (CoreRemoveId (Z.of_nat i))) g1). split.
  - unfold refuse. run (get_client_run _ _ _ Hc). unfold insert_at. rewrite Hins. run_step.
    run (update_client_run g a c (client_with_objects m') Hc). fold g1.
    unfold pinos_core_notify_remove_id. rewrite (notify_run g1 _ r (client_with_objects m' c)); [| done | by rewrite Hra]. by rewrite Hra, Hri.
  - constructor; [eapply sound_quiet; [rewrite <- Hra in *; by eapply (quiet_post _ r) | done] | done |]. intros b w. rewrite lookup_insert_Some. intros [[<- <-] | [Hne Hw]].
    + eexists. split; [apply lookup_insert_eq |]. by apply (agree_refused [] [] [] g _ c _ v d cl rest i Hs Hag).
    + destruct (Ha b w Hw) as (cb & Hcb & Hagb). exists cb. split; [cbn; by rewrite !lookup_insert_ne |]. apply (agree_frame g); [by intros q r' Hq | done].
Qed.

Lemma registry_bind_well m vs g p r a v d id rest i :
  well [] [] [] m vs g -> m + 1 < 2 ^ 30 -> resources g !! p = Some r -> resource_client r = a -> vs !! a = Some v ->
  v_calls v = (d, RegistryCall (RegistryBind id (Z.of_nat i))) :: rest -> id <> 0 -> Z.of_nat i < 2 ^ 30 ->
  exists g', registry_bind calloc_ok realloc_ok view_global p id (Z.of_nat i) g = Done (tt, g') /\ well [] [] [] (m + 1) (<[a := served v]> vs) g'.
Proof.
  intros Hw Hb Hr Hra Hv Hcalls Hid Hlt. unfold registry_bind. run (get_resource_run _ _ _ Hr). rewrite Hra.
  assert (exists g', refuse a (Z.of_nat i) g = Done (tt, g') /\ well [] [] [] (m + 1) (<[a := served v]> vs) g') as Hrefuse.
  { destruct (refuse_well m vs g a v _ _ _ i Hw Hv Hcalls) as (g' & Hrun & Hw'); [cbn; by rewrite Nat2Z.id | done |].
    exists g'. split; [done |]. destruct Hw'. constructor; [done | lia | done]. }
  destruct (List.find _ _) as [q|] eqn:Hfind; [| exact Hrefuse].
  apply List.find_some in Hfind as [_ Hq]. destruct (globals g !! q) as [x|] eqn:Hx; [| done]. bool_to_prop.
  run (get_global_run _ _ _ Hx). destruct (ACCESS_VIEW_GLOBAL view_global a x); [| exact Hrefuse].
  pose proof (s_global_of _ _ _ _ (w_sound _ _ _ _ _ _ Hw) q x Hx) as Hof. unfold global_of in Hof.
  destruct (global_bind x) as [b|] eqn:Hbind; [| done].
  assert (b <> core_bind /\ global_type x <> TypeRegistry) as [Hne Ht].
  { destruct b; destruct Hof as [Heq Hof]; (split; [| rewrite ?Hof; try congruence]); try done; cbn in Heq; try congruence.
    destruct (s_core_global _ _ _ _ (w_sound _ _ _ _ _ _ Hw)) as (y & Hy & Hy0 & _). congruence. }
  destruct (run_bind_well m vs g x a v d _ rest i Hw Hb Hv Hcalls) with (p := q) (b := b) as (res & g' & Hrun & Hw'); try done; [cbn; by rewrite Nat2Z.id |].
  exists g'. split; [| done]. unfold pinos_global_bind. run (get_global_run _ _ _ Hx). rewrite Hbind. by run Hrun.
Qed.

(** ** The calls of clients *)

Lemma event_ok_global um ul ug g p x : sound um ul ug g -> globals g !! p = Some x ->
  event_ok (RegistryEvent (RegistryGlobal (global_id x) (Some (type_name (global_type x))))).
Proof.
  intros Hs Hx. exists (type_name (global_type x)). split; [done |]. intros Ht H0. apply Ht.
  destruct (s_ids _ _ _ _ Hs) as (a & l & _ & _ & Hids). destruct (s_core_global _ _ _ _ Hs) as (y & Hy & Hy0 & Hyb).
  destruct (Hids _ _ Hx) as [_ H1]. destruct (Hids _ _ Hy) as [_ H2]. rewrite H0 in H1. rewrite Hy0, H1 in H2. injection H2 as ->.
  rewrite Hx in Hy. injection Hy as ->. pose proof (s_global_of _ _ _ _ Hs _ _ Hx) as Hof. unfold global_of in Hof. rewrite Hyb in Hof.
  destruct Hof as [_ ->]. done.
Qed.

Lemma core_get_registry_well m vs g p r a v d rest i :
  well [] [] [] m vs g -> m + 1 < 2 ^ 30 -> resources g !! p = Some r -> resource_client r = a -> vs !! a = Some v ->
  v_calls v = (d, CoreCall (CoreGetRegistry (Z.of_nat i))) :: rest -> Z.of_nat i < 2 ^ 30 ->
  exists g', core_get_registry calloc_ok realloc_ok view_global p (Z.of_nat i) g = Done (tt, g') /\ well [] [] [] (m + 1) (<[a := served v]> vs) g'.
Proof.
  intros Hw Hb Hr Hra Hv Hcalls Hlt. destruct (w_agree _ _ _ _ _ _ Hw a v Hv) as (c & Hc & _).
  destruct (pinos_resource_new_well [] m vs g a c v d _ rest i TypeRegistry 0 (Some destroy_registry) Hw Hb Hc Hv Hcalls) as
    (q & g1 & Hrun & Hq & Hw1 & Hres & Hnl & Hgl & Hgll & _); [cbn; by rewrite Nat2Z.id | done | done | done | intros h; simpl; by intros [= <-] |].
  assert (resources g1 !! q = Some (mkResource (Z.of_nat i) a TypeRegistry 0 (Some destroy_registry))) as Hr1 by (rewrite Hres; apply lookup_insert_eq).
  destruct (append_well _ _ _ _ _ _ _ OfRegistries Hw1 Hr1 eq_refl (Hnl _)) as (g2 & Hrun2 & Hw2 & He).
  destruct (each_quiet [] [] [] (m + 1) (<[a := served v]> vs) g2 (global_list g2) (fun p =>
      global <- get_global p ;;
      when (ACCESS_VIEW_GLOBAL view_global a global)
        (notify q (RegistryEvent (RegistryGlobal (global_id global) (Some (type_name (global_type global)))))))) as (g3 & Hrun3 & Hw3 & _); [done | |].
  { intros p' g' Hin Hq' Hw'. apply (s_globals _ _ _ _ (w_sound _ _ _ _ _ _ Hw2)) in Hin as [x Hx]. rewrite <- (q_globals _ _ Hq') in Hx.
    rewrite (run_bind_done _ _ _ _ _ (get_global_run _ _ _ Hx)). rewrite <- (e_resources _ _ _ _ He), <- (q_resources _ _ Hq') in Hr1.
    destruct (ACCESS_VIEW_GLOBAL view_global a x); simpl; [| by exists g'; split_and!; [| | apply quiet_refl]].
    eapply notify_well; [done | done | by apply not_elem_of_nil |]. by eapply event_ok_global; [apply Hw' |]. }
  exists g3. split; [| done]. unfold core_get_registry. run (get_resource_run _ _ _ Hr). rewrite Hra. run Hrun.
  rewrite (proj2 (Z.eqb_neq _ _) Hq). run Hrun2. exact Hrun3.
Qed.

Lemma notify_all_well um ul ug m vs g l e :
  well um ul ug m vs g -> (forall p, p ∈ l -> is_Some (resources g !! p) /\ p ∉ um) -> event_ok e ->
  exists g', each l (fun p => notify p e) g = Done (tt, g') /\ well um ul ug m vs g' /\ quiet g g'.
Proof.
  intros Hw Hl He. apply each_quiet; [done |]. intros p g1 Hin Hq Hw1. destruct (Hl p Hin) as [[r Hr] Hp].
  rewrite <- (q_resources _ _ Hq) in Hr. by eapply notify_well.
Qed.

Lemma set_properties_run props (d : dict) g : exists l, set_properties props (recv_dict d) g = Done (l, g).
Proof.
  destruct props as [props|]; [| by eexists]. unfold recv_dict. cbn [set_properties].
  rewrite (proj2 (forallb_forall _ _)); [by eexists |]. intros kv [[k w] [<- _]]%in_map_iff. done.
Qed.

Lemma core_client_update_well ul ug m vs g p r props :
  well [] ul ug m vs g -> resources g !! p = Some r ->
  exists g', core_client_update p (recv_dict props) g = Done (tt, g') /\ well [] ul ug m vs g'.
Proof.
  intros Hw Hr. destruct (s_client _ _ _ _ (w_sound _ _ _ _ _ _ Hw) p r Hr) as [b (c & Hc & _)%clients_of_lookup].
  destruct (set_properties_run (client_properties c) props g) as [l Hl].
  set (info := mkClientInfo (cli_id (client_info c)) 1 l).
  pose proof (set_info_well _ _ _ _ _ _ _ _ (client_with_info l info c) Hw Hc eq_refl eq_refl) as Hw1.
  destruct (notify_all_well _ _ _ _ _ _ (client_resource_list c) (InfoEvent (ClientInfo info)) Hw1) as (g' & Hrun & Hw2 & _); [| done |].
  { intros q Hq. rewrite <- (list_at_client g _ _ Hc) in Hq. destruct (s_list _ _ _ _ (w_sound _ _ _ _ _ _ Hw) _ _ Hq) as (r' & Hr' & _).
    split; [by eexists | apply not_elem_of_nil]. }
  exists g'. split; [| done]. unfold core_client_update, pinos_client_update_properties. run (get_resource_run _ _ _ Hr).
  run (get_client_run _ _ _ Hc). run Hl. unfold put_client. run_step. exact Hrun.
Qed.

Lemma core_sync_well ul ug m vs g p r seq :
  well [] ul ug m vs g -> resources g !! p = Some r -> exists g', core_sync p seq g = Done (tt, g') /\ well [] ul ug m vs g'.
Proof.
  intros Hw Hr. destruct (notify_well _ _ _ _ _ _ _ _ (CoreEvent (CoreDone seq)) Hw Hr) as (g' & Hrun & Hw' & _); [apply not_elem_of_nil | done |].
  by exists g'.
Qed.

Lemma lookup_resource um ul ug g a c i p :
  sound um ul ug g -> clients g !! a = Some c -> words (client_objects c) !! i = Some p -> pinos_map_lookup (client_objects c) (Z.of_nat i) = p.
Proof.
  intros Hs Hc Hw. pose proof (s_repr _ _ _ _ Hs _ _ (bones_lookup _ _ _ Hc)) as Hrep. cbn in Hrep.
  apply (lookup_live _ _ _ i p Hrep). by rewrite list_lookup_fmap, Hw.
Qed.

(** The first call of a client is handled. *)
Lemma handle_call_well m vs g a v d cl rest :
  well [] [] [] m vs g -> m + 1 < 2 ^ 30 -> vs !! a = Some v -> v_calls v = (d, cl) :: rest ->
  exists g', handle_call calloc_ok realloc_ok view_global a d (recv_call cl) g = Done (tt, g') /\ well [] [] [] (m + 1) (<[a := served v]> vs) g'.
Proof.
  intros Hw Hb Hv Hcalls. pose proof Hw as [Hs Hm Ha]. destruct (Ha a v Hv) as (c & Hc & Hag).
  assert (forall g', well [] [] [] m (<[a := served v]> vs) g' -> well [] [] [] (m + 1) (<[a := served v]> vs) g') as Hmore.
  { intros g' []. constructor; [done | lia | done]. }
  pose proof (a_calls _ _ _ Hag) as Hacc. rewrite Hcalls in Hacc. cbn in Hacc.
  unfold handle_call. run (get_client_run _ _ _ Hc).
  destruct cl as [cm | rm]; cbn [recv_call].
  - destruct (core_resource_at_0 _ _ _ _ _ _ Hs Hc (a_core _ _ _ Hag) ltac:(apply not_elem_of_nil)) as (r & Hr & Hra & _ & Hrt & _ & Hw0 & _).
    assert (d = 0) as -> by by destruct cm; destruct_and?.
    pose proof (lookup_resource _ _ _ _ _ _ _ _ Hs Hc Hw0 : pinos_map_lookup _ 0 = _) as ->. rewrite (proj2 (Z.eqb_neq _ _) (a_core _ _ _ Hag)).
    run (get_resource_run _ _ _ Hr). rewrite Hrt. destruct cm; cbn [recv_core_method]; try done.
    + assert (well [] [] [] m (<[a := served v]> vs) g) as Hw1 by by eapply served_well.
      destruct (core_client_update_well _ _ _ _ _ _ _ props Hw1 Hr) as (g' & Hrun & Hw'). eauto.
    + assert (well [] [] [] m (<[a := served v]> vs) g) as Hw1 by by eapply served_well.
      destruct (core_sync_well _ _ _ _ _ _ _ seq Hw1 Hr) as (g' & Hrun & Hw'). eauto.
    + destruct Hacc as (_ & Hid & _). rewrite <- (Z2Nat.id new_id) in Hcalls |- * by lia.
      eapply core_get_registry_well; try done. lia.
  - destruct rm as [id ni]. destruct Hacc as (Hd & (p & r & Hp & Hr & Ht) & Hid & Hni & _).
    destruct (is_data_address _ _ (s_resources_fresh _ _ _ _ Hs _ _ Hr)) as [_ Hnz].
    destruct (s_word _ _ _ _ Hs _ _ _ _ (bones_lookup _ _ _ Hc) Hp Hnz) as (r' & Hr' & Hra & _). rewrite Hr in Hr'. injection Hr' as <-.
    rewrite <- (Z2Nat.id d) by done. rewrite (lookup_resource _ _ _ _ _ _ _ _ Hs Hc Hp), (proj2 (Z.eqb_neq _ _) Hnz).
    run (get_resource_run _ _ _ Hr). rewrite Ht. rewrite <- (Z2Nat.id ni) in Hcalls |- * by lia.
    eapply registry_bind_well; try done. lia.
Qed.
End Calls.
