(* ===== verification/RegistryLife.v ===== *)
(** Objects and clients of the server come and go: each operation returns, and keeps [well]. *)
From stdpp Require Import gmap.
From S2P Require Import Prelude State Defs Map Interfaces ProtocolTheory Introspect Properties Core Context Registry RegistryLogic RegistryServer RegistryCalls.
Import Map.

(** ** Globals and what they are of

    Outside of the operations below, every global is of an object that knows it, and the
    other way around. *)
Definition titled (g : PinosCore) : Prop := forall p x, globals g !! p = Some x -> global_of g [] p x.
Definition clients_titled (g : PinosCore) : Prop :=
  forall a c, clients_of g !! a = Some c -> exists x, globals g !! b_global c = Some x /\ global_bind x = Some client_bind /\ global_object x = a.
Definition objects_titled (g : PinosCore) : Prop :=
  forall o y, objects_of g !! o = Some y -> exists x b, globals g !! fst y = Some x /\ global_bind x = Some b /\ is_Some (object_kind b) /\ global_object x = o.

Lemma sound_titled um ul ug g : sound um ul ug g -> titled g -> clients_titled g -> objects_titled g -> sound um ul [] g.
Proof. intros [] H1 H2 H3. constructor; try assumption; [intros a c Ha _; by apply H2 | intros o y Ho _; by apply H3]. Qed.
Lemma titled_sound um ul g : sound um ul [] g -> titled g /\ clients_titled g /\ objects_titled g.
Proof.
  intros Hs. split_and!.
  - exact (s_global_of _ _ _ _ Hs).
  - intros a c Hc. apply (s_client_global _ _ _ _ Hs); [done | apply not_elem_of_nil].
  - intros o y Hy. apply (s_object_global _ _ _ _ Hs); [done | apply not_elem_of_nil].
Qed.

(** The same clients and objects, with the same globals. *)
Record alike (g g' : PinosCore) : Prop := {
  k_core_global : core_global g' = core_global g;
  k_clients a c : clients g !! a = Some c -> exists c', clients g' !! a = Some c' /\ client_global c' = client_global c /\
    length (words (client_objects c')) = length (words (client_objects c));
  k_objects o : fst <$> (objects_of g' !! o) = fst <$> (objects_of g !! o);
  k_clients_back a : is_Some (clients g' !! a) -> is_Some (clients g !! a)
}.
Lemma alike_refl g : alike g g.
Proof. constructor; try done. intros a c Hc. by exists c. Qed.
Lemma alike_trans g1 g2 g3 : alike g1 g2 -> alike g2 g3 -> alike g1 g3.
Proof.
  intros H1 H2. constructor.
  - by rewrite (k_core_global _ _ H2), (k_core_global _ _ H1).
  - intros a c Hc. destruct (k_clients _ _ H1 a c Hc) as (c' & Hc' & <- & <-). apply (k_clients _ _ H2 a c' Hc').
  - intros o. by rewrite (k_objects _ _ H2), (k_objects _ _ H1).
  - intros a Ha. by apply (k_clients_back _ _ H1), (k_clients_back _ _ H2).
Qed.
Lemma alike_quiet g g' : quiet g g' -> alike g g'.
Proof.
  intros Hq. constructor; [by destruct Hq | | |].
  - intros a c Hc. destruct (quiet_client _ _ _ _ Hq Hc) as [l Hl]. by eexists.
  - intros o. unfold objects_of. by rewrite (q_objects _ _ Hq).
  - intros a. destruct (q_clients _ _ Hq a) as [l ->]. by destruct (clients g !! a).
Qed.
Lemma alike_del_global p mm g : alike g (del_global p mm g).
Proof. constructor; try done. intros a c Hc. by exists c. Qed.
Lemma alike_freed p r g g' c : clients g !! resource_client r = Some c -> freed p r g g' -> alike g g'.
Proof.
  intros Hc Hf. destruct Hf. constructor; [done | | |].
  - intros a c0 Hc0. destruct (decide (a = resource_client r)) as [-> | Hne].
    + destruct (f_client _ Hc0) as (c' & Hc' & Hg & Hw). exists c'. split_and!; [done | done |]. by rewrite Hw, length_insert.
    + destruct (f_others a Hne) as [l Hl]. rewrite Hc0 in Hl. eexists. split_and!; [done | done | done].
  - intros o. destruct (f_objects o) as [l Hl]. unfold objects_of. rewrite !lookup_fmap, Hl. by destruct (objects g !! o).
  - intros a. destruct (decide (a = resource_client r)) as [-> | Hne]; [by rewrite Hc |].
    destruct (f_others a Hne) as [l ->]. by destruct (clients g !! a).
Qed.

Lemma alike_bones g g' a b : alike g g' -> clients_of g !! a = Some b -> exists b', clients_of g' !! a = Some b' /\ b_global b' = b_global b.
Proof.
  intros Hk (c & Hc & <-)%clients_of_lookup. destruct (k_clients _ _ Hk a c Hc) as (c' & Hc' & Hg & _). exists (bones_of c').
  split; [by apply bones_lookup | done].
Qed.
Lemma alike_bones_back g g' a b : alike g g' -> clients_of g' !! a = Some b -> exists b', clients_of g !! a = Some b' /\ b_global b' = b_global b.
Proof.
  intros Hk Hb. pose proof Hb as (c & Hc & _)%clients_of_lookup. destruct (k_clients_back _ _ Hk a) as [c0 Hc0]; [by eexists |].
  destruct (alike_bones _ _ a _ Hk (bones_lookup _ _ _ Hc0)) as (b' & Hb' & Heq). rewrite Hb in Hb'. injection Hb' as <-.
  exists (bones_of c0). split; [by apply bones_lookup | done].
Qed.
Lemma alike_objects g g' o y : alike g g' -> objects_of g !! o = Some y -> exists y', objects_of g' !! o = Some y' /\ fst y' = fst y.
Proof.
  intros Hk Hy. pose proof (k_objects _ _ Hk o) as Ho. rewrite Hy in Ho. destruct (objects_of g' !! o) as [y'|]; [| done].
  exists y'. simplify_eq/=. done.
Qed.
Lemma alike_objects_back g g' o y : alike g g' -> objects_of g' !! o = Some y -> exists y', objects_of g !! o = Some y' /\ fst y' = fst y.
Proof.
  intros Hk Hy. pose proof (k_objects _ _ Hk o) as Ho. rewrite Hy in Ho. destruct (objects_of g !! o) as [y'|]; [| done].
  exists y'. simplify_eq/=. done.
Qed.

(** A global stays that of an object that is still there and knows it. *)
Lemma global_of_mono g g' ug p x :
  core_global g' = core_global g ->
  (forall c, global_bind x = Some client_bind -> clients_of g !! global_object x = Some c -> b_global c = p ->
    exists c', clients_of g' !! global_object x = Some c' /\ b_global c' = p) ->
  (forall b y, global_bind x = Some b -> is_Some (object_kind b) -> objects_of g !! global_object x = Some y -> fst y = p ->
    exists y', objects_of g' !! global_object x = Some y' /\ fst y' = p) ->
  global_of g ug p x -> global_of g' ug p x.
Proof.
  intros Hcore Hc Ho. unfold global_of. rewrite Hcore. destruct (global_bind x) as [[]|] eqn:Hb; try done;
    intros [Ht [Hin | (y & Hy & Hp)]]; (split; [done |]); (try by left); right; [eapply Hc | eapply Ho | eapply Ho | eapply Ho]; eauto.
Qed.

(** Once the global [q] is gone. *)
Section Retired.
Context (g g' : PinosCore) (q : Z) (x : PinosGlobal).
Hypotheses (Hs : titled g /\ clients_titled g /\ objects_titled g) (Hq : globals g !! q = Some x).
Hypotheses (Hg : globals g' = delete q (globals g)) (Hk : alike g g').

Lemma retired_titled : titled g'.
Proof using Hs Hg Hk.
  intros p y. rewrite Hg. intros [Hne Hp]%lookup_delete_Some. destruct Hs as (H1 & _ & _).
  eapply global_of_mono; [by apply Hk | | | by apply H1].
  - intros c _ Hc <-. by eapply alike_bones.
  - intros b z _ _ Hz <-. by eapply alike_objects.
Qed.
Lemma retired_clients a c : clients_of g' !! a = Some c -> global_bind x <> Some client_bind \/ a <> global_object x ->
  exists y, globals g' !! b_global c = Some y /\ global_bind y = Some client_bind /\ global_object y = a.
Proof using Hs Hg Hk Hq.
  intros (c0 & Hc0 & Heq)%(alike_bones_back _ _ _ _ Hk) Hx. destruct Hs as (_ & H2 & _). destruct (H2 a c0 Hc0) as (y & Hy & Hyb & Hyo).
  exists y. rewrite Hg, <- Heq, lookup_delete_ne; [done |]. intros ->. naive_solver.
Qed.
Lemma retired_objects o z : objects_of g' !! o = Some z -> o <> global_object x \/ global_bind x = Some client_bind ->
  exists y b, globals g' !! fst z = Some y /\ global_bind y = Some b /\ is_Some (object_kind b) /\ global_object y = o.
Proof using Hs Hg Hk Hq.
  intros (z0 & Hz0 & Heq)%(alike_objects_back _ _ _ _ Hk) Hx. destruct Hs as (_ & _ & H3). destruct (H3 o z0 Hz0) as (y & b & Hy & Hyb & Hyk & Hyo).
  exists y, b. rewrite Hg, <- Heq, lookup_delete_ne; [done |]. intros ->. rewrite Hq in Hy. injection Hy as <-.
  destruct Hx as [Hx | Hx]; [congruence |]. rewrite Hx in Hyb. injection Hyb as <-. by destruct Hyk.
Qed.
End Retired.

Section Life.
Context (calloc_ok realloc_ok : Z -> bool) (view_global : Z -> PinosGlobal -> bool).
Hypothesis calloc_granted : forall n, calloc_ok n = true.
Hypothesis realloc_granted : forall n, realloc_ok n = true.

(** ** Destroying the resources of an object or a client *)

Definition of_object (h : holder) : Prop := match h with OfClient _ | OfObject _ => True | _ => False end.

Lemma destroy_all_well ug m vs g h l :
  well [] [] ug m vs g -> of_object h -> list_at g h = l ->
  exists g', each l (pinos_resource_destroy realloc_ok) g = Done (tt, g') /\ well [] [] ug m vs g' /\ list_at g' h = [] /\ globals g' = globals g /\ alike g g'.
Proof.
  intros Hw Hh. revert g Hw. induction l as [|p l IH]; intros g Hw Hl.
  { exists g. split_and!; [done | done | done | done | apply alike_refl]. }
  pose proof (w_sound _ _ _ _ _ _ Hw) as Hs.
  destruct (s_list _ _ _ _ Hs h p) as (r & Hr & Hrh); [rewrite Hl; left |].
  destruct (pinos_resource_destroy_well realloc_ok ug m vs g p r Hw Hr) as (g1 & Hrun & Hw1 & Hf).
  { intros _. unfold holder_at in Hrh. split.
    - intros Ht. rewrite (s_kind _ _ _ _ Hs p r Hr Ht) in Hrh. simpl in Hrh. by simplify_eq.
    - intros Hd. rewrite Hd in Hrh. simpl in Hrh. by simplify_eq. }
  destruct (IH g1 Hw1) as (g' & Hrun' & Hw' & Hl' & Hg' & Hk).
  { rewrite (f_list _ _ _ _ Hf), decide_True, Hl by done. pose proof (s_nodup _ _ _ _ Hs h) as Hnd. rewrite Hl in Hnd.
    apply NoDup_cons in Hnd as [Hp _]. unfold unlink. rewrite filter_cons_False by (intros Hne; by apply Hne).
    clear -Hp. induction l as [|q l IH]; [done |]. apply not_elem_of_cons in Hp as [Hne Hp]. rewrite filter_cons_True by congruence. f_equal. by apply IH. }
  destruct (s_client _ _ _ _ Hs p r Hr) as [b (c & Hc & _)%clients_of_lookup].
  exists g'. split; [cbn [each]; by run Hrun |]. rewrite Hg', (f_globals _ _ _ _ Hf).
  split_and!; try done. eapply alike_trans; [by eapply alike_freed | done].
Qed.

(** ** Objects *)

Lemma sound_del_object g o y :
  sound [] [] [o] g -> objects_of g !! o = Some y -> globals g !! fst y = None -> list_at g (OfObject o) = [] ->
  titled g -> clients_titled g ->
  (forall p z, objects_of g !! p = Some z -> p <> o -> exists x b, globals g !! fst z = Some x /\ global_bind x = Some b /\ is_Some (object_kind b) /\ global_object x = p) ->
  sound [] [] [] (with_objects (delete o (objects g)) g).
Proof.
  intros Hs Hy Hg Hl H1 H2 H3. set (g' := with_objects _ g).
  assert (objects_of g' = delete o (objects_of g)) as Ho by apply fmap_delete.
  assert (forall h, list_at g' h = if decide (h = OfObject o) then [] else list_at g h) as Hlist.
  { intros h. case_decide as Hd; [| destruct h; try done]; subst; unfold list_at; rewrite Ho; [by rewrite lookup_delete_eq |].
    rewrite lookup_delete_ne by congruence. done. }
  constructor; rewrite ?Ho; try apply Hs.
  - intros p z [_ Hz]%lookup_delete_Some. by apply (s_objects_fresh _ _ _ _ Hs p z).
  - intros h p. rewrite Hlist. case_decide; [by intros ?%elem_of_nil | by apply (s_list _ _ _ _ Hs)].
  - intros p r h Hr Hh Hul. rewrite Hlist. pose proof (s_listed _ _ _ _ Hs p r h Hr Hh Hul) as Hin. case_decide; [| done].
    subst. by rewrite Hl in Hin.
  - intros p r h Hr Hh. pose proof (s_holder _ _ _ _ Hs p r h Hr Hh) as Hok. destruct h as [| | a | q]; try done. simpl. rewrite Ho.
    rewrite lookup_delete_ne; [done |]. intros <-. pose proof (s_listed _ _ _ _ Hs p r _ Hr Hh ltac:(apply not_elem_of_nil)) as Hin.
    rewrite Hl in Hin. by apply elem_of_nil in Hin.
  - intros h. rewrite Hlist. case_decide; [constructor | apply Hs].
  - intros p x Hx. eapply (global_of_mono g); [done | by eauto | | by apply H1].
    intros b z _ _ Hz Hp. exists z. rewrite Ho, lookup_delete_ne; [done |]. intros Heq. rewrite <- Heq, Hy in Hz. injection Hz as <-. cbn in Hx. congruence.
  - intros a c Hc _. by apply H2.
  - intros p z [Hne Hz]%lookup_delete_Some _. by apply H3.
Qed.

Lemma destroy_object_well m vs g p o :
  well [] [] [] m vs g -> objects g !! p = Some o ->
  exists g', destroy_object realloc_ok view_global p g = Done (tt, g') /\ well [] [] [] m vs g'.
Proof.
  intros Hw Ho. pose proof (titled_sound _ _ _ (w_sound _ _ _ _ _ _ Hw)) as Ht.
  assert (objects_of g !! p = Some (object_global o, object_resource_list o)) as Hof by (apply objects_of_lookup; eauto).
  destruct Ht as (H1 & H2 & H3). destruct (H3 p _ Hof) as (x & b & Hx & Hxb & Hbk & Hxo). cbn in Hx.
  destruct (pinos_global_destroy_well view_global [] [] m vs g _ x Hw Hx) as (mm & g1 & Hrun & Hw1 & Hq).
  { rewrite Hxb. intros [= ->]. by destruct Hbk. }
  rewrite Hxo in Hw1. set (gd := del_global _ _ g1) in *.
  assert (objects gd !! p = Some o) as Ho1 by (cbn; by rewrite (q_objects _ _ Hq)).
  destruct (destroy_all_well [p] m vs gd (OfObject p) _ Hw1 I (list_at_object _ _ _ Ho1)) as (g2 & Hrun2 & Hw2 & Hl2 & Hg2 & Hk2).
  assert (alike g g2) as Hk by (by eapply alike_trans; [apply alike_quiet | eapply alike_trans; [apply alike_del_global | exact Hk2]]).
  assert (globals g2 = delete (object_global o) (globals g)) as Hg by by rewrite Hg2; cbn; rewrite (q_globals _ _ Hq).
  destruct (alike_objects _ _ _ _ Hk Hof) as (y & Hy & Hyg).
  exists (with_objects (delete p (objects g2)) g2). split.
  - unfold destroy_object. run (get_object_run _ _ _ Ho). run Hrun. run (get_object_run gd _ _ Ho1). run Hrun2. done.
  - destruct Hw2 as [Hs2 Hm2 Ha2]. constructor; [| done | apply (all_agree_frame g2); [done | by intros q r | done]].
    apply (sound_del_object g2 p y Hs2 Hy); [by rewrite Hyg, Hg, lookup_delete_eq | done | | |].
    + by eapply retired_titled.
    + intros a c Hc. eapply (retired_clients g g2 _ x); try done. left. rewrite Hxb. intros [= ->]. by destruct Hbk.
    + intros q z Hz Hne. eapply (retired_objects g g2 _ x); try done. left. congruence.
Qed.

(** ** Clients *)

Lemma sound_del_client g a c :
  sound [] [] [a] g -> clients g !! a = Some c -> Forall (fun w => w = 0) (words (client_objects c)) ->
  globals g !! client_global c = None -> list_at g (OfClient a) = [] ->
  titled g -> objects_titled g ->
  (forall b d, clients_of g !! b = Some d -> b <> a -> exists x, globals g !! b_global d = Some x /\ global_bind x = Some client_bind /\ global_object x = b) ->
  sound [] [] [] (with_clients (delete a (clients g)) g).
Proof.
  intros Hs Hc Hws Hg Hl H1 H3 H2. set (g' := with_clients _ g). pose proof (bones_lookup _ _ _ Hc) as Hbone.
  assert (clients_of g' = delete a (clients_of g)) as Hcs by apply fmap_delete.
  assert (forall p r, resources g !! p = Some r -> resource_client r <> a) as Hgone.
  { intros p r Hr Hra. destruct (mapped_id _ _ _ _ _ _ Hs Hr ltac:(apply not_elem_of_nil)) as (c' & Hc' & _ & Hw & _).
    rewrite Hra, Hc in Hc'. injection Hc' as <-. apply (proj1 (Forall_lookup _ _) Hws) in Hw. subst p.
    by destruct (is_data_address _ _ (s_resources_fresh _ _ _ _ Hs _ _ Hr)). }
  assert (forall h, list_at g' h = if decide (h = OfClient a) then [] else list_at g h) as Hlist.
  { intros h. case_decide as Hd; [| destruct h; try done]; subst; unfold list_at; rewrite Hcs; [by rewrite lookup_delete_eq |].
    rewrite lookup_delete_ne by congruence. done. }
  constructor; rewrite ?Hcs; try apply Hs.
  - intros b d [_ Hd]%lookup_delete_Some. by apply (s_clients_fresh _ _ _ _ Hs b d).
  - intros b d [_ Hd]%lookup_delete_Some. by apply (s_repr _ _ _ _ Hs b d).
  - intros p r Hr. rewrite lookup_delete_ne; [by apply (s_client _ _ _ _ Hs p r) |]. intros Heq. by apply (Hgone p r Hr).
  - intros p r Hr Hp. rewrite lookup_delete_ne; [by apply (s_mapped _ _ _ _ Hs p r) |]. intros Heq. by apply (Hgone p r Hr).
  - intros b d j w [_ Hd]%lookup_delete_Some. by apply (s_word _ _ _ _ Hs).
  - intros b d [_ Hd]%lookup_delete_Some. by apply (s_core _ _ _ _ Hs).
  - intros h p. rewrite Hlist. case_decide; [by intros ?%elem_of_nil | by apply (s_list _ _ _ _ Hs)].
  - intros p r h Hr Hh Hul. rewrite Hlist. pose proof (s_listed _ _ _ _ Hs p r h Hr Hh Hul) as Hin. case_decide; [| done].
    subst. by rewrite Hl in Hin.
  - intros p r h Hr Hh. pose proof (s_holder _ _ _ _ Hs p r h Hr Hh) as Hok. destruct h as [| | b | q]; try done. simpl. rewrite Hcs.
    rewrite lookup_delete_ne; [done |]. intros <-. pose proof (s_listed _ _ _ _ Hs p r _ Hr Hh ltac:(apply not_elem_of_nil)) as Hin.
    rewrite Hl in Hin. by apply elem_of_nil in Hin.
  - intros h. rewrite Hlist. case_decide; [constructor | apply Hs].
  - intros p x Hx. eapply (global_of_mono g); [done | | by eauto | by apply H1].
    intros d _ Hd Hp. exists d. rewrite Hcs, lookup_delete_ne; [done |]. intros Heq. rewrite <- Heq, Hbone in Hd. injection Hd as <-. cbn in *. congruence.
  - intros b d [Hne Hd]%lookup_delete_Some _. by apply H2.
  - intros p z Hz _. by apply H3.
Qed.

Lemma destroy_resources_well ug m vs a n i g c :
  well [] [] ug m vs g -> vs !! a = None -> clients g !! a = Some c -> (i + n)%nat = length (words (client_objects c)) ->
  (forall j w, (j < i)%nat -> words (client_objects c) !! j = Some w -> w = 0) -> list_at g (OfClient a) = [] ->
  exists g' c', destroy_resources realloc_ok a (Z.of_nat i) n g = Done (tt, g') /\ well [] [] ug m vs g' /\ clients g' !! a = Some c' /\
    Forall (fun w => w = 0) (words (client_objects c')) /\ list_at g' (OfClient a) = [] /\ globals g' = globals g /\ alike g g'.
Proof.
  intros Hw Hvs. revert i g c Hw. induction n as [|n IH]; intros i g c Hw Hc Hlen Hz Hl.
  { exists g, c. split_and!; try done; [| apply alike_refl]. apply Forall_lookup. intros j w Hj. apply (Hz j w); [| done].
    apply lookup_lt_Some in Hj. lia. }
  pose proof (w_sound _ _ _ _ _ _ Hw) as Hs. destruct (lookup_lt_is_Some_2 (words (client_objects c)) i ltac:(lia)) as [w Hwi].
  pose proof (s_repr _ _ _ _ Hs _ _ (bones_lookup _ _ _ Hc)) as Hrep. cbn in Hrep.
  destruct (repr_live _ _ _ Hrep i w) as [_ Hd]; [by rewrite list_lookup_fmap, Hwi |].
  cbn [destroy_resources]. run (get_client_run _ _ _ Hc). unfold get_item. rewrite Nat2Z.id, Hwi. run_step.
  rewrite (is_data_not_free w Hd), andb_true_r. replace (Z.of_nat i + 1) with (Z.of_nat (S i)) by lia.
  destruct (decide (w = 0)) as [-> | Hnz].
  - simpl. destruct (IH (S i) g c Hw Hc) as (g' & c' & Hrun & Hrest); [lia | | done |].
    { intros j w' Hj Hw'. destruct (decide (j = i)) as [-> | Hne]; [congruence |]. eapply (Hz j); [lia | done]. }
    exists g', c'. split; [| done]. exact Hrun.
  - rewrite (proj2 (Z.eqb_neq _ _) Hnz). cbn [negb when].
    destruct (s_word _ _ _ _ Hs _ _ _ _ (bones_lookup _ _ _ Hc) Hwi Hnz) as (r & Hr & Hra & Hri).
    destruct (pinos_resource_destroy_well realloc_ok ug m vs g w r Hw Hr) as (g1 & Hrun1 & Hw1 & Hf).
    { rewrite Hra, Hvs. by intros []. }
    pose proof Hc as Hca. rewrite <- Hra in Hca. destruct (f_client _ _ _ _ Hf c Hca) as (c1 & Hc1 & _ & Hws). rewrite Hra in Hc1.
    rewrite Hri, Nat2Z.id in Hws.
    destruct (IH (S i) g1 c1 Hw1 Hc1) as (g' & c' & Hrun & Hw' & Hc' & Hf' & Hl' & Hg' & Hk).
    { rewrite Hws, length_insert. lia. }
    { intros j w' Hj. rewrite Hws. intros [(-> & <- & _) | [Hne Hw']]%list_lookup_insert_Some; [done |]. eapply (Hz j); [lia | done]. }
    { rewrite (f_list _ _ _ _ Hf), Hl. by case_decide. }
    exists g', c'. split; [run Hrun1; exact Hrun |]. rewrite Hg', (f_globals _ _ _ _ Hf).
    split_and!; try done. eapply alike_trans; [by eapply alike_freed | done].
Qed.

Lemma pinos_client_destroy_well m vs g a :
  well [] [] [] m vs g -> vs !! a = None -> is_Some (clients g !! a) ->
  exists g', pinos_client_destroy realloc_ok view_global a g = Done (tt, g') /\ well [] [] [] m vs g'.
Proof.
  intros Hw0 Hvs [c Hc]. set (g0 := with_client_list (unlink a (client_list g)) g).
  assert (well [] [] [] m vs g0) as Hw.
  { destruct Hw0 as [Hs Hm Ha]. constructor; [by apply (sound_same _ _ _ g) | done | by apply (all_agree_frame g); [| intros q r |]]. }
  pose proof (titled_sound _ _ _ (w_sound _ _ _ _ _ _ Hw)) as (H1 & H2 & H3).
  destruct (H2 a (bones_of c)) as (x & Hx & Hxb & Hxo); [by apply (bones_lookup g0) |]. cbn [b_global bones_of] in Hx.
  destruct (pinos_global_destroy_well view_global [] [] m vs g0 _ x Hw Hx) as (mm & g1 & Hrun & Hw1 & Hq); [congruence |].
  rewrite Hxo in Hw1. set (gd := del_global _ _ g1) in *.
  destruct (quiet_client g0 g1 a c Hq Hc) as [l Hc1]. change (clients g1) with (clients gd) in Hc1.
  destruct (destroy_all_well [a] m vs gd (OfClient a) _ Hw1 I (list_at_client _ _ _ Hc1)) as (g2 & Hrun2 & Hw2 & Hl2 & Hg2 & Hk2).
  destruct (k_clients _ _ Hk2 a _ Hc1) as (c2 & Hc2 & Hcg2 & _).
  destruct (destroy_resources_well [a] m vs a (length (words (client_objects c2))) 0 g2 c2 Hw2 Hvs Hc2) as
    (g3 & c3 & Hrun3 & Hw3 & Hc3 & Hws & Hl3 & Hg3 & Hk3); [lia | lia | done |].
  destruct (k_clients _ _ Hk3 a _ Hc2) as (c3' & Hc3' & Hcg3 & _). rewrite Hc3 in Hc3'. injection Hc3' as <-.
  assert (alike g0 g3) as Hk.
  { eapply alike_trans; [by apply alike_quiet |]. eapply alike_trans; [apply alike_del_global |]. by eapply alike_trans. }
  assert (globals g3 = delete (client_global c) (globals g0)) as Hg by by rewrite Hg3, Hg2; cbn; rewrite (q_globals _ _ Hq).
  exists (with_clients (delete a (clients g3)) g3). split.
  - unfold pinos_client_destroy. run (get_client_run g _ _ Hc). fold g0. run Hrun. run (get_client_run gd _ _ Hc1). run Hrun2.
    run (get_client_run _ _ _ Hc2). run Hrun3. done.
  - destruct Hw3 as [Hs3 Hm3 Ha3]. constructor; [| done |].
    + apply (sound_del_client g3 a c3 Hs3 Hc3 Hws); [| done | | |].
      * rewrite Hg, Hcg3, Hcg2. apply lookup_delete_eq.
      * by eapply retired_titled.
      * intros o z Hz. eapply (retired_objects g0 g3 _ x); try done. by right.
      * intros b d Hd Hne. eapply (retired_clients g0 g3 _ x); try done. right. congruence.
    + intros b v Hv. destruct (Ha3 b v Hv) as (cb & Hcb & Hag). exists cb. split; [cbn; rewrite lookup_delete_ne by congruence; done |].
      by apply (agree_frame g3); [intros q r |].
Qed.

(** ** New objects *)

Lemma list_at_set_object g o y h : list_at g (OfObject o) = object_resource_list y -> list_at (set_object o y g) h = list_at g h.
Proof.
  intros Hl. destruct h as [| | a | q]; try done. unfold list_at at 1. rewrite objects_of_set. destruct (decide (q = o)) as [-> | Hne].
  - by rewrite lookup_insert_eq.
  - by rewrite lookup_insert_ne.
Qed.
Lemma has_holder_set_object g o y h : has_holder g h -> has_holder (set_object o y g) h.
Proof.
  intros Hh. destruct h as [| | a | q]; try done. simpl in *. rewrite objects_of_set. destruct (decide (q = o)) as [-> | Hne].
  - rewrite lookup_insert_eq. by eexists.
  - by rewrite lookup_insert_ne.
Qed.

(** An object that need not have a global is put in place, or gets another global. *)
Lemma sound_set_object um ul ug g o y :
  sound um ul ug g -> o ∈ ug -> allocated_at g o -> list_at g (OfObject o) = object_resource_list y -> sound um ul ug (set_object o y g).
Proof.
  intros Hs Ho Hat Hl. constructor; rewrite ?objects_of_set; try apply Hs.
  - intros q z [[<- <-] | [_ Hz]]%lookup_insert_Some; [done | by apply (s_objects_fresh _ _ _ _ Hs q z)].
  - intros h p. rewrite (list_at_set_object _ _ _ _ Hl). by apply (s_list _ _ _ _ Hs).
  - intros p r h. rewrite (list_at_set_object _ _ _ _ Hl). apply (s_listed _ _ _ _ Hs).
  - intros p r h Hr Hh. by apply has_holder_set_object, (s_holder _ _ _ _ Hs p r).
  - intros h. rewrite (list_at_set_object _ _ _ _ Hl). apply Hs.
  - intros p x Hx. pose proof (s_global_of _ _ _ _ Hs p x Hx) as Hof. unfold global_of in *. rewrite objects_of_set.
    destruct (decide (global_object x = o)) as [-> | Hne]; [| by rewrite lookup_insert_ne].
    destruct (global_bind x) as [[]|]; try done; (split; [apply Hof | by left]).
  - intros q z [[<- <-] | [_ Hz]]%lookup_insert_Some Hug; [done | by apply (s_object_global _ _ _ _ Hs q z)].
Qed.

Lemma sound_more um ul ug ug' g : (forall o, o ∈ ug -> o ∈ ug') -> sound um ul ug g -> sound um ul ug' g.
Proof.
  intros Hi Hs. constructor; try apply Hs.
  - intros p x Hx. pose proof (s_global_of _ _ _ _ Hs p x Hx) as Hof. unfold global_of in *.
    destruct (global_bind x) as [[]|]; try done; destruct Hof as [H1 [H2 | H2]]; (split; [done |]); (try by left; apply Hi); by right.
  - intros a c Hc Ha. apply (s_client_global _ _ _ _ Hs a c Hc). auto.
  - intros o y Hy Ho. apply (s_object_global _ _ _ _ Hs o y Hy). auto.
Qed.

(** With a global of its own, a new object is like the others. *)
Lemma titled_new_object g g' p q x y :
  titled g /\ clients_titled g /\ objects_titled g -> objects_of g !! p = None -> globals g !! q = None -> core_global g <> q ->
  globals g' = <[q := x]> (globals g) -> core_global g' = core_global g -> clients_of g' = clients_of g -> objects_of g' = <[p := y]> (objects_of g) ->
  fst y = q -> global_object x = p -> (exists b, global_bind x = Some b /\ object_kind b = Some (global_type x)) ->
  titled g' /\ clients_titled g' /\ objects_titled g'.
Proof.
  intros (H1 & H2 & H3) Hp Hq Hcq Hg Hcore Hc Ho Hy Hxo (b & Hb & Hk).
  assert (forall r z, globals g !! r = Some z -> globals g' !! r = Some z) as Hold.
  { intros r z Hr. rewrite Hg, lookup_insert_ne; [done |]. congruence. }
  split_and!.
  - intros r z. rewrite Hg. intros [[<- <-] | [_ Hr]]%lookup_insert_Some.
    + unfold global_of. rewrite Hb, Ho, Hxo, lookup_insert_eq. destruct b; try done; (split; [done | right; by exists y]).
    + eapply (global_of_mono g); [done | | | by apply H1].
      * intros c _ Hc' Hgc. exists c. by rewrite Hc.
      * intros b' y' _ _ Hy' Hgy. exists y'. rewrite Ho, lookup_insert_ne; [done |]. congruence.
  - intros a c. rewrite Hc. intros Ha. destruct (H2 a c Ha) as (z & Hz & Hrest). exists z. split; [by apply Hold | done].
  - intros o z. rewrite Ho. intros [[<- <-] | [_ Hz]]%lookup_insert_Some.
    + exists x, b. rewrite Hg, Hy, lookup_insert_eq, Hk. split_and!; done.
    + destruct (H3 o z Hz) as (w & b' & Hw & Hrest). exists w, b'. split; [by apply Hold | done].
Qed.

Lemma new_object_well m vs g owner type bind info :
  well [] [] [] m vs g -> m + 2 < 2 ^ 30 -> object_kind bind = Some type ->
  exists p g', new_object calloc_ok realloc_ok view_global owner type bind info g = Done (p, g') /\ well [] [] [] (m + 2) vs g'.
Proof.
  intros [Hs Hm Ha] Hb Hk. destruct (s_core_global _ _ _ _ Hs) as (y & Hy & _). pose proof (s_count _ _ _ _ Hs) as Hpos. pose proof (titled_sound _ _ _ Hs) as Ht.
  destruct (fresh_address _ _ _ _ Hs ltac:(lia)) as (Hpg & _ & Hpc & Hpo & Hat). set (p := address (allocated g)) in *.
  destruct (is_data_address _ _ Hat) as [_ Hp]. apply sound_alloc in Hs. set (g1 := with_allocated (allocated g + 1) g) in *.
  set (g2 := set_object p (mkObject 0 [] info) g1).
  assert (list_at g1 (OfObject p) = []) as Hl by (unfold list_at; change (objects_of g1) with (objects_of g); by rewrite Hpo).
  assert (well [] [] [p] (m + 1) vs g2) as Hw2.
  { constructor; [| simpl; lia | by apply (all_agree_frame g); [| intros q r |]].
    apply (sound_set_object [] [] [p] g1); [| left | done | done]. eapply sound_more; [| exact Hs]. by intros o ?%elem_of_nil. }
  destruct (pinos_core_add_global_well calloc_ok realloc_ok view_global calloc_granted realloc_granted [] [p] (m + 1) vs g2 owner type p bind Hw2)
    as (q & id & mm & g3 & Hrun & Hqf & Hw3 & Hq); [lia | left | by destruct bind |].
  set (x := mkGlobal id owner type p (Some bind)) in *.
  assert (objects g3 !! p = Some (mkObject 0 [] info)) as Hp3 by (rewrite (q_objects _ _ Hq); apply lookup_insert_eq).
  exists p, (set_object p (mkObject q [] info) g3). split.
  - unfold new_object. run (calloc_run calloc_ok calloc_granted g ltac:(lia)). fold p. fold g1. rewrite (proj2 (Z.eqb_neq _ _) Hp).
    unfold put_object. run_step. fold (set_object p (mkObject 0 [] info) g1). fold g2. run Hrun.
    run (update_object_run _ _ _ (fun o => mkObject q (object_resource_list o) (Core.object_info o)) Hp3). done.
  - destruct Hw3 as [Hs3 Hm3 Ha3]. constructor; [| simpl; lia | by apply (all_agree_frame g3); [| intros r' ? |]].
    assert (sound [] [] [p] (set_object p (mkObject q [] info) g3)) as Hs4.
    { apply sound_set_object; [done | left | | by rewrite (list_at_object _ _ _ Hp3)].
      apply (s_objects_fresh _ _ _ _ Hs3 p (0, [])), objects_of_lookup. by eexists. }
    destruct (titled_new_object g (set_object p (mkObject q [] info) g3) p q x (q, [])) as (T1 & T2 & T3); try done.
    + intros Heq. rewrite <- Heq in Hqf. cbn in Hqf. congruence.
    + cbn. by rewrite (q_globals _ _ Hq).
    + cbn. by rewrite (q_core_global _ _ Hq).
    + change (clients_of g3 = clients_of g). by rewrite (quiet_bones _ _ Hq).
    + rewrite objects_of_set. unfold objects_of at 1. rewrite (q_objects _ _ Hq). change (<[p := (q, [])]> (objects_of g2) = <[p := (q, [])]> (objects_of g)).
      unfold g2. rewrite objects_of_set. apply insert_insert_eq.
    + by exists bind.
    + by eapply sound_titled.
Qed.

(** ** New clients *)

Lemma sound_put_client um ul ug g a c :
  sound um ul ug g -> clients_of g !! a = None -> allocated_at g a -> a ∈ ug -> client_core_resource c = 0 ->
  client_objects c = empty_map -> client_resource_list c = [] -> sound um ul ug (set_client a c g).
Proof.
  intros Hs Hn Hat Hug Hcore Hobj Hlst.
  assert (forall h, list_at (set_client a c g) h = list_at g h) as Hl.
  { intros [| | b | o]; try done. unfold list_at. rewrite clients_of_set. destruct (decide (b = a)) as [-> | Hne].
    - rewrite lookup_insert_eq, Hn. exact Hlst.
    - by rewrite lookup_insert_ne. }
  assert (forall b d, clients_of g !! b = Some d -> <[a := bones_of c]> (clients_of g) !! b = Some d) as Hold.
  { intros b d Hb. rewrite lookup_insert_ne; [done |]. congruence. }
  constructor; rewrite ?clients_of_set; try apply Hs.
  - intros b d [[<- <-] | [_ Hd]]%lookup_insert_Some; [done | by apply (s_clients_fresh _ _ _ _ Hs b d)].
  - intros b d [[<- <-] | [_ Hd]]%lookup_insert_Some; [cbn; rewrite Hobj; apply empty_repr | by apply (s_repr _ _ _ _ Hs b d)].
  - intros p r Hr. destruct (s_client _ _ _ _ Hs p r Hr) as [d Hd]. rewrite (Hold _ _ Hd). by eexists.
  - intros p r Hr Hp. destruct (s_mapped _ _ _ _ Hs p r Hr Hp) as (d & Hd & Hrest). exists d. split; [by apply Hold | done].
  - intros b d i w [[<- <-] | [_ Hd]]%lookup_insert_Some; [cbn; rewrite Hobj; done | by apply (s_word _ _ _ _ Hs)].
  - intros b d [[<- <-] | [_ Hd]]%lookup_insert_Some; [cbn; rewrite Hcore; done | by apply (s_core _ _ _ _ Hs)].
  - intros h p. rewrite Hl. by apply (s_list _ _ _ _ Hs).
  - intros p r h. rewrite Hl. apply (s_listed _ _ _ _ Hs).
  - intros p r h Hr Hh. pose proof (s_holder _ _ _ _ Hs p r h Hr Hh) as Hok. destruct h as [| | b | o]; try done. simpl. rewrite clients_of_set.
    destruct Hok as [d Hd]. rewrite (Hold _ _ Hd). by eexists.
  - intros h. rewrite Hl. apply Hs.
  - intros p x Hx. eapply (global_of_mono g); [done | | by eauto | by apply (s_global_of _ _ _ _ Hs)].
    intros d _ Hd Hp. exists d. rewrite clients_of_set. split; [by apply Hold | done].
  - intros b d [[<- <-] | [_ Hd]]%lookup_insert_Some Hb; [done | by apply (s_client_global _ _ _ _ Hs b d)].
Qed.

Lemma titled_new_client g g' a q x b :
  titled g /\ clients_titled g /\ objects_titled g -> clients_of g !! a = None -> globals g !! q = None ->
  globals g' = <[q := x]> (globals g) -> core_global g' = core_global g -> objects_of g' = objects_of g -> clients_of g' = <[a := b]> (clients_of g) ->
  b_global b = q -> global_object x = a -> global_bind x = Some client_bind -> global_type x = TypeClient ->
  titled g' /\ clients_titled g' /\ objects_titled g'.
Proof.
  intros (H1 & H2 & H3) Ha Hq Hg Hcore Ho Hc Hb Hxo Hbind Ht.
  assert (forall r z, globals g !! r = Some z -> globals g' !! r = Some z) as Hold.
  { intros r z Hr. rewrite Hg, lookup_insert_ne; [done |]. congruence. }
  split_and!.
  - intros r z. rewrite Hg. intros [[<- <-] | [_ Hr]]%lookup_insert_Some.
    + unfold global_of. rewrite Hbind, Hc, Hxo, lookup_insert_eq. split; [done | right; by exists b].
    + eapply (global_of_mono g); [done | | | by apply H1].
      * intros c _ Hc' Hgc. exists c. rewrite Hc, lookup_insert_ne; [done |]. congruence.
      * intros b' y' _ _ Hy' Hgy. exists y'. by rewrite Ho.
  - intros c z. rewrite Hc. intros [[<- <-] | [_ Hz]]%lookup_insert_Some.
    + exists x. rewrite Hg, Hb, lookup_insert_eq. done.
    + destruct (H2 c z Hz) as (w & Hw & Hrest). exists w. split; [by apply Hold | done].
  - intros o z. rewrite Ho. intros Hz. destruct (H3 o z Hz) as (w & b' & Hw & Hrest). exists w, b'. split; [by apply Hold | done].
Qed.

Lemma map_init_empty : pinos_map_init realloc_ok 0 32 = Some empty_map.
Proof using Type. reflexivity. Qed.

Lemma pinos_client_new_well m vs g :
  well [] [] [] m vs g -> m + 2 < 2 ^ 30 ->
  exists a g' c, pinos_client_new calloc_ok realloc_ok view_global None g = Done (a, g') /\ a <> 0 /\ well [] [] [] (m + 2) vs g' /\ vs !! a = None /\
    clients g' !! a = Some c /\ client_objects c = empty_map /\ client_sent c = [].
Proof.
  intros [Hs Hm Ha] Hb. pose proof (s_count _ _ _ _ Hs) as Hpos. pose proof (titled_sound _ _ _ Hs) as Ht.
  destruct (fresh_address _ _ _ _ Hs ltac:(lia)) as (Hpg & _ & Hpc & Hpo & Hat). set (a := address (allocated g)) in *.
  destruct (is_data_address _ _ Hat) as [_ Hp]. apply sound_alloc in Hs. set (g1 := with_allocated (allocated g + 1) g) in *.
  set (c0 := mkClient 0 0 empty_map [] None (mkClientInfo 0 0 None) []).
  set (g2 := with_client_list (client_list g ++ [a]) (set_client a c0 g1)).
  assert (vs !! a = None) as Hvs.
  { destruct (vs !! a) as [v|] eqn:Hv; [| done]. destruct (Ha a v Hv) as (c & Hc & _). rewrite (bones_lookup _ _ _ Hc) in Hpc. done. }
  assert (well [] [] [a] (m + 1) vs g2) as Hw2.
  { constructor; [| simpl; lia |].
    - apply (sound_same _ _ _ (set_client a c0 g1)); try done.
      apply (sound_put_client [] [] [a] g1); try done; [| left]. eapply sound_more; [| exact Hs]. by intros o ?%elem_of_nil.
    - intros b v Hv. destruct (Ha b v Hv) as (c & Hc & Hag). exists c. split; [cbn; rewrite lookup_insert_ne by congruence; done |].
      by apply (agree_frame g); [intros q r |]. }
  destruct (pinos_core_add_global_well calloc_ok realloc_ok view_global calloc_granted realloc_granted [] [a] (m + 1) vs g2 a TypeClient a client_bind Hw2)
    as (q & id & mm & g3 & Hrun & Hqf & Hw3 & Hq); [lia | left | done |].
  set (x := mkGlobal id a TypeClient a (Some client_bind)) in *.
  assert (clients g3 !! a = Some c0) as Hc3.
  { rewrite (q_untouched _ _ Hq a); [apply lookup_insert_eq |]. intros p r Hr Hra. destruct (s_client _ _ _ _ Hs p r Hr) as [d Hd].
    rewrite Hra in Hd. change (clients_of g !! a = Some d) in Hd. congruence. }
  set (c4 := client_with_global q c0). set (g4 := set_client a c4 g3).
  set (c5 := client_with_info None (mkClientInfo id 0 None) c4).
  assert (globals g3 !! q = Some x) as Hx by (rewrite (q_globals _ _ Hq); apply lookup_insert_eq).
  exists a, (set_client a c5 g4), c5. split_and!; try done; [| | apply lookup_insert_eq].
  - unfold pinos_client_new. run (calloc_run calloc_ok calloc_granted g ltac:(lia)). fold a. fold g1. rewrite (proj2 (Z.eqb_neq _ _) Hp).
    unfold map_init. rewrite map_init_empty. run_step. unfold put_client. run_step. fold (set_client a c0 g1). fold g2. run Hrun.
    run (update_client_run _ _ _ (client_with_global q) Hc3). fold g4. run (get_global_run g4 q x Hx).
    run (update_client_run g4 a c4 (client_with_info None (mkClientInfo (global_id x) 0 None)) (lookup_insert_eq _ _ _)). done.
  - assert (forall v, vs !! a <> Some v) as Hnv by congruence. destruct Hw3 as [Hs3 Hm3 Ha3].
    assert (sound [] [] [a] (set_client a c5 g4)) as Hs5.
    { assert (set_client a c5 g4 = set_client a c5 g3) as -> by (unfold g4, set_client; cbn; by rewrite insert_insert_eq).
      apply (sound_set_client [] [] [] [a] g3 a c0); try done; [right; left | apply empty_repr |].
      intros r z Hr Hra. exfalso. rewrite (q_resources _ _ Hq) in Hr. destruct (s_client _ _ _ _ Hs r z Hr) as [d Hd].
      rewrite Hra in Hd. change (clients_of g !! a = Some d) in Hd. congruence. }
    constructor; [| simpl; lia |].
    + destruct (titled_new_client g (set_client a c5 g4) a q x (bones_of c5) Ht Hpc Hqf) as (T1 & T2 & T3); try done.
      * cbn. by rewrite (q_globals _ _ Hq).
      * cbn. by rewrite (q_core_global _ _ Hq).
      * unfold objects_of. cbn. by rewrite (q_objects _ _ Hq).
      * unfold g4. rewrite !clients_of_set, (quiet_bones _ _ Hq), insert_insert_eq. change (clients_of (add_global _ _ _ _)) with (clients_of (set_client a c0 g1)).
        rewrite clients_of_set, insert_insert_eq. done.
      * by eapply sound_titled.
    + apply all_agree_set; [intros v Hv; congruence |]. by apply all_agree_set; [intros v Hv; congruence |].
Qed.

(** The core is bound at 0 when a client connects. *)
Lemma client_new_well m vs g :
  well [] [] [] m vs g -> m + 3 < 2 ^ 30 ->
  exists a g' c i, client_new calloc_ok realloc_ok view_global g = Done (a, g') /\ a <> 0 /\ well [] [] [] (m + 3) vs g' /\ vs !! a = None /\
    clients g' !! a = Some c /\ client_core_resource c <> 0 /\ words (client_objects c) = [client_core_resource c] /\ client_sent c = [(0, CoreEvent (CoreInfo i))].
Proof.
  intros Hw Hb. destruct (pinos_client_new_well m vs g Hw) as (a & g1 & c & Hrun & Hnz & [Hs Hm Ha] & Hvs & Hc & Hco & Hcs); [lia |].
  destruct (s_core_global _ _ _ _ Hs) as (x & Hx & Hx0 & Hxb). pose proof (s_global_of _ _ _ _ Hs _ _ Hx) as Hof. unfold global_of in Hof.
  rewrite Hxb in Hof. destruct Hof as [_ Hxt].
  destruct (pinos_resource_new_run calloc_ok realloc_ok calloc_granted realloc_granted [] [] [] g1 a c 0 TypeCore (global_object x) (Some core_unbind) Hs)
    as (m' & Hrun2 & Hws & Hp & Hfr & Hs2); [lia | done | left; by rewrite Hco | lia | done | intros h; simpl; by intros [= <-] |].
  set (p := address (allocated g1)) in *. set (r := mkResource 0 a TypeCore (global_object x) (Some core_unbind)) in *.
  set (g2 := bound a c m' p r g1) in *.
  assert (forall h, p ∉ list_at g2 h) as Hnl.
  { intros h Hin. unfold g2, bound in Hin. rewrite (list_at_set _ _ c) in Hin by done. destruct (s_list _ _ _ _ Hs h p Hin) as (r' & Hr' & _). congruence. }
  assert (well [] [p] [] (m + 3) vs g2) as Hw2.
  { constructor; [done | cbn; lia |]. apply all_agree_set; [intros v Hv; congruence |]. apply (all_agree_frame g1); [done | | done].
    intros q z Hq _. cbn. rewrite lookup_insert_ne; [done |]. congruence. }
  assert (resources g2 !! p = Some r) as Hr2 by apply lookup_insert_eq.
  destruct (append_well _ _ _ _ _ _ _ OfCore Hw2 Hr2 eq_refl (Hnl _)) as (g3 & Hrun3 & Hw3 & He).
  destruct (edited_client _ _ _ _ He a _ (lookup_insert_eq _ _ _)) as [l Hc3]. set (c3 := client_with_resource_list l _) in Hc3.
  set (c4 := client_with_core_resource p c3). set (g4 := set_client a c4 g3).
  assert (well [] [] [] (m + 3) vs g4) as Hw4.
  { destruct Hw3 as [Hs3 Hm3 Ha3]. constructor; [| done | by apply all_agree_set; [intros v Hv; congruence |]].
    pose proof (bones_lookup _ _ _ Hc3) as Hb3. apply (sound_set_client [] [] [] [] g3 a c3); try done; [by left | exact (s_repr _ _ _ _ Hs3 _ _ Hb3) | | |].
    - intros q z Hz Hza Hum. destruct (s_mapped _ _ _ _ Hs3 q z Hz Hum) as (b & Hb' & Hid). rewrite Hza, Hb3 in Hb'. by simplify_eq.
    - intros j w. exact (s_word _ _ _ _ Hs3 _ _ j w Hb3).
    - intros _. exists r. by rewrite (e_resources _ _ _ _ He). }
  set (info := mkCoreInfo (ci_id (core_info g4)) ALL (ci_user_name (core_info g4)) (ci_host_name (core_info g4)) (ci_version (core_info g4)) (ci_name (core_info g4)) (ci_cookie (core_info g4)) (ci_props (core_info g4))).
  set (g5 := with_core_info (core_properties g4) info g4).
  assert (well [] [] [] (m + 3) vs g5) as Hw5.
  { destruct Hw4 as [Hs4 Hm4 Ha4]. constructor; [by apply (sound_same _ _ _ g4) | done | by apply (all_agree_frame g4); [| intros q z |]]. }
  assert (resources g5 !! p = Some r) as Hr5 by by cbn; rewrite (e_resources _ _ _ _ He).
  assert (clients g5 !! resource_client r = Some c4) as Hc5 by apply lookup_insert_eq.
  destruct (notify_well _ _ _ _ _ _ _ _ (CoreEvent (CoreInfo info)) Hw5 Hr5) as (g6 & Hrun6 & Hw6 & _); [apply not_elem_of_nil | done |].
  pose proof (notify_run g5 p r c4 (CoreEvent (CoreInfo info)) Hr5 Hc5) as Hrun6'. rewrite Hrun6 in Hrun6'. injection Hrun6' as ->.
  exists a, (post a c4 (0, CoreEvent (CoreInfo info)) g5), (client_with_sent (client_sent c4 ++ [(0, CoreEvent (CoreInfo info))]) c4), info.
  split_and!; try done.
  - unfold client_new. run Hrun. rewrite (proj2 (Z.eqb_neq _ _) Hnz). run_step.
    unfold pinos_global_bind. run (get_global_run _ _ _ Hx). rewrite Hxb. cbn [run_bind]. unfold core_bind_func. rewrite Hxt. run Hrun2.
    rewrite (proj2 (Z.eqb_neq _ _) Hp). run Hrun3. run (update_client_run g3 a c3 (client_with_core_resource p) Hc3). fold c4. fold g4.
    run_step. fold info. fold g5. run Hrun6. done.
  - apply lookup_insert_eq.
  - cbn. rewrite Hws, Hco. done.
  - cbn. rewrite Hcs. done.
Qed.

(** ** Announcing, and the first state *)

Lemma announce_object_well m vs g p o info announcement :
  well [] [] [] m vs g -> objects g !! p = Some o ->
  exists g', announce_object p info announcement g = Done (tt, g') /\ well [] [] [] m vs g'.
Proof.
  intros Hw Ho. set (o' := object_with_info info o). set (g1 := set_object p o' g).
  assert (well [] [] [] m vs g1) as Hw1.
  { destruct Hw as [Hs Hm Ha]. constructor; [| done | by apply (all_agree_frame g); [| intros q r |]].
    apply (sound_same _ _ _ g); try done. unfold g1. rewrite objects_of_set. apply insert_id, objects_of_lookup. by exists o. }
  assert (objects g1 !! p = Some o') as Ho1 by apply lookup_insert_eq.
  destruct (notify_all_well _ _ _ _ _ _ (object_resource_list o') (InfoEvent announcement) Hw1) as (g' & Hrun & Hw' & _); [| done |].
  { intros q Hq. rewrite <- (list_at_object g1 p o' Ho1) in Hq. destruct (s_list _ _ _ _ (w_sound _ _ _ _ _ _ Hw1) _ _ Hq) as (r' & Hr' & _).
    split; [by eexists | apply not_elem_of_nil]. }
  exists g'. split; [| done]. unfold announce_object. run (update_object_run g p o (object_with_info info) Ho). fold o'. fold g1.
  run (get_object_run _ _ _ Ho1). exact Hrun.
Qed.

Lemma map_init_repr size extend : 0 <= size <= 2 ^ 58 -> 0 < extend < 2 ^ 63 ->
  exists m, pinos_map_init realloc_ok size extend = Some m /\ repr m [] [].
Proof.
  intros Hsz Hext. unfold pinos_map_init, sizeof_item. rewrite u64_small by (unfold is_u64; lia).
  destruct (Array.ensure_size_spec realloc_ok (Array.pinos_array_init extend) (size * 8)) as (ok & arr & -> & Hwf & Hs & _);
    [unfold Array.wf; simpl; lia | lia | simpl; lia |].
  eexists. split; [done |]. constructor; simpl; try done; [constructor |]. intros i. split; [done | by intros ?%elem_of_nil].
Qed.

Lemma pinos_core_new_well properties user_name host_name cookie :
  exists g, pinos_core_new calloc_ok realloc_ok view_global properties user_name host_name cookie = Done g /\ well [] [] [] 1 ∅ g.
Proof.
  unfold pinos_core_new. destruct (map_init_repr 128 32) as (mm & Hinit & Hrep); [lia | lia |]. rewrite Hinit. cbn [of_option obind].
  set (g0 := mkCore 0 _ _ mm [] [] [] [] ∅ ∅ ∅ ∅ 0).
  destruct (insert_new_append realloc_ok mm [] 16 Hrep) as (mm' & Hins & Hrep'); [by repeat split | done | done |].
  set (x := mkGlobal 0 0 TypeCore 0 (Some core_bind)).
  assert (pinos_core_add_global calloc_ok realloc_ok view_global 0 TypeCore 0 (Some core_bind) g0 =
    Done (16, add_global 16 x mm' (with_allocated 1 g0))) as ->.
  { unfold pinos_core_add_global. run (calloc_run calloc_ok calloc_granted g0 ltac:(simpl; lia)). change (address (allocated g0)) with 16. cbn [Z.eqb].
    run_step. unfold insert_new. cbn [core_objects with_allocated g0]. rewrite Hins. run_step. unfold put_global. run_step.
    unfold notify_registries. run_step. cbn [each registry_resource_list]. run_step. done. }
  cbn [obind]. rewrite (get_global_run _ 16 x) by reflexivity. cbn [obind]. eexists. split; [done |].
  constructor; [| simpl; lia | intros a v Hv; by rewrite lookup_empty in Hv].
  constructor; unfold clients_of, objects_of; cbn; rewrite ?fmap_empty; try (intros *; by rewrite lookup_empty).
  - lia.
  - intros p y [[<- <-] | [_ Hp]]%lookup_insert_Some; [exists 0; unfold address; simpl; lia | by rewrite lookup_empty in Hp].
  - intros h p Hp. unfold list_at, clients_of, objects_of in Hp. destruct h; cbn in Hp; rewrite ?fmap_empty, ?lookup_empty in Hp; by apply elem_of_nil in Hp.
  - intros h. unfold list_at, clients_of, objects_of. destruct h; cbn; rewrite ?fmap_empty, ?lookup_empty; constructor.
  - intros p. rewrite list_elem_of_singleton. split; [intros ->; rewrite lookup_insert_eq; by eexists |].
    intros [y [[<- _] | [_ Hp]]%lookup_insert_Some]; [done | by rewrite lookup_empty in Hp].
  - apply NoDup_singleton.
  - exists [Some 16], []. split_and!; [done | unfold zlen; simpl; lia |].
    intros p y [[<- <-] | [_ Hp]]%lookup_insert_Some; [done | by rewrite lookup_empty in Hp].
  - intros p y [[<- <-] | [_ Hp]]%lookup_insert_Some; [done | by rewrite lookup_empty in Hp].
  - exists x. by rewrite lookup_insert_eq.
Qed.
End Life.
