(* ===== verification/RegistryTheory.v ===== *)
(** The ids of a server and its clients agree, whatever happens and in whatever order: the
    contexts' part of the invariant, and the theorem on the whole system. *)
From stdpp Require Import gmap.
From S2P Require Import Prelude State Defs Map Interfaces ProtocolTheory Introspect Core Context Registry RegistryLogic RegistryServer RegistryCalls RegistryLife.
Import Map.

(** ** Proxies

    Slots and proxies correspond. *)
Record proxied (k : PinosContext) (slots : list (option Z)) : Prop := {
  c_repr : exists l, repr (ctx_objects k) slots l;
  c_count : 0 <= ctx_allocated k;
  c_room : zlen slots <= ctx_allocated k;
  c_slot i p : slots !! i = Some (Some p) -> exists x, proxies k !! p = Some x /\ proxy_id x = Z.of_nat i;
  c_proxy p x : proxies k !! p = Some x -> 0 <= proxy_id x /\ slots !! Z.to_nat (proxy_id x) = Some (Some p);
  c_fresh p x : proxies k !! p = Some x -> exists j, p = address j /\ 0 <= j < ctx_allocated k
}.

(** The parts of a context that proxies coming and going leave alone. *)
Record same_rest (k k' : PinosContext) : Prop := {
  r_core : core_proxy k' = core_proxy k;
  r_registry : registry_proxy k' = registry_proxy k;
  r_disconnecting : disconnecting k' = disconnecting k;
  r_connection : connection k' = connection k;
  r_sent : ctx_sent k' = ctx_sent k
}.

Lemma get_proxy_run k p x : proxies k !! p = Some x -> get_proxy p k = Done (x, k).
Proof. intros Hx. unfold get_proxy, bind, gets, lift. by rewrite Hx. Qed.
Lemma do_call_run k p x m : proxies k !! p = Some x -> connection k = true ->
  do_call p m k = Done (tt, ctx_with_sent (ctx_sent k ++ [(proxy_id x, m)]) k).
Proof. intros Hx Hc. unfold do_call. run (get_proxy_run _ _ _ Hx). unfold modify. by rewrite Hc. Qed.

Lemma lookup_proxy k slots p x : proxied k slots -> proxies k !! p = Some x -> pinos_map_lookup (ctx_objects k) (proxy_id x) = p.
Proof.
  intros Hk Hx. destruct (c_repr _ _ Hk) as [l Hr]. destruct (c_proxy _ _ Hk p x Hx) as [Hid Hs].
  rewrite <- (Z2Nat.id (proxy_id x)) by done. by eapply lookup_live.
Qed.

(** The slots are all that is left of an operation that changes no proxy. *)
Lemma proxied_same k k' slots : ctx_objects k' = ctx_objects k -> proxies k' = proxies k -> ctx_allocated k' = ctx_allocated k ->
  proxied k slots -> proxied k' slots.
Proof. intros H1 H2 H3 []. constructor; rewrite ?H1, ?H2, ?H3; done. Qed.

Section Proxies.
Context (calloc_ok realloc_ok : Z -> bool).
Hypothesis calloc_granted : forall n, calloc_ok n = true.
Hypothesis realloc_granted : forall n, realloc_ok n = true.

Lemma pinos_proxy_new_run k slots id type :
  proxied k slots -> ctx_allocated k + 1 < 2 ^ 30 -> id = SPA_ID_INVALID \/ id = zlen slots ->
  exists p i slots' k', pinos_proxy_new calloc_ok realloc_ok id type k = Done (p, k') /\ p <> 0 /\ took slots i p slots' /\ (id = zlen slots -> i = length slots) /\
    proxied k' slots' /\ proxies k !! p = None /\ proxies k' = <[p := mkProxy (Z.of_nat i) type None]> (proxies k) /\
    ctx_allocated k' = ctx_allocated k + 1 /\ same_rest k k'.
Proof.
  intros Hk Hb Hid. pose proof (c_count _ _ Hk) as Hpos. pose proof (c_room _ _ Hk) as Hroom. set (p := address (ctx_allocated k)).
  assert (is_data p /\ p <> 0) as [Hd Hp] by (apply (is_data_address (with_allocated (ctx_allocated k + 1) (mkCore 0 core_zero None empty_map [] [] [] [] ∅ ∅ ∅ ∅ 0)));
    exists (ctx_allocated k); unfold p, address; cbn; lia).
  assert (proxies k !! p = None) as Hfr.
  { destruct (proxies k !! p) as [x|] eqn:Hx; [| done]. destruct (c_fresh _ _ Hk p x Hx) as (j & Hj & Hlt). unfold p, address in Hj. lia. }
  destruct (c_repr _ _ Hk) as [l Hr].
  assert (exists i m' slots' l', (if id =? SPA_ID_INVALID
      then '(id, m) <- lift (of_option (pinos_map_insert_new realloc_ok (ctx_objects k) p)) ;; ret (id, true, m)
      else '(ok, m) <- lift (of_option (pinos_map_insert_at realloc_ok (ctx_objects k) id p)) ;; ret (id, ok, m)) (ctx_with_allocated (ctx_allocated k + 1) k) =
      Done (Z.of_nat i, true, m', ctx_with_allocated (ctx_allocated k + 1) k) /\ repr m' slots' l' /\ took slots i p slots' /\ (id = zlen slots -> i = length slots))
    as (i & m' & slots' & l' & Hins & Hr' & Ht & Hil).
  { assert (id = zlen slots -> (id =? SPA_ID_INVALID) = false) as Hne by (intros ->; apply Z.eqb_neq; unfold SPA_ID_INVALID; lia).
    destruct Hid as [-> | ->].
    - destruct (insert_new_took realloc_ok _ _ _ p Hr Hd) as (i & m' & slots' & l' & Hi & Hr' & Ht); [lia | done |].
      exists i, m', slots', l'. cbn [Z.eqb]. unfold SPA_ID_INVALID at 1. rewrite Z.eqb_refl. run_step. rewrite Hi. run_step. split_and!; try done.
      intros Heq. by specialize (Hne Heq).
    - destruct (insert_at_end realloc_ok _ _ _ p Hr Hd) as (m' & Hi & Hr'); [lia | done |].
      exists (length slots), m', (slots ++ [Some p]), l. rewrite (Hne eq_refl). rewrite Hi. run_step. split_and!; try done. by right. }
  eexists p, i, slots', _. split.
  { unfold pinos_proxy_new, ctx_calloc. run_step. rewrite calloc_granted. cbn [andb].
    rewrite (proj2 (Z.ltb_lt _ _)) by (unfold address; lia). fold p. rewrite (proj2 (Z.eqb_neq _ _) Hp). run_step. cbn [ctx_objects ctx_with_allocated].
    rewrite (run_bind_done _ _ _ _ _ Hins). run_step. cbn [negb]. unfold put_proxy. run_step. done. }
  split_and!; try done. constructor; cbn.
  - by exists l'.
  - lia.
  - pose proof (took_length _ _ _ _ Ht). unfold zlen in *. lia.
  - intros j q Hj. destruct (decide (j = i)) as [-> | Hne].
    + rewrite (took_lookup _ _ _ _ Ht) in Hj. injection Hj as <-. rewrite lookup_insert_eq. by eexists.
    + assert (slots !! j = Some (Some q)) as Hj'.
      { destruct Ht as [[Hi ->] | [-> ->]]; [by rewrite list_lookup_insert_ne in Hj |]. apply lookup_app_Some in Hj as [Hj | [Hle Hj]]; [done |].
        apply list_lookup_singleton_Some in Hj. lia. }
      destruct (c_slot _ _ Hk j q Hj') as (x & Hx & Hxi). exists x. rewrite lookup_insert_ne; [done |]. congruence.
  - intros q x [[<- <-] | [_ Hq]]%lookup_insert_Some.
    + cbn. rewrite Nat2Z.id. split; [lia | by eapply took_lookup].
    + destruct (c_proxy _ _ Hk q x Hq) as [H1 H2]. split; [done |]. by eapply took_old.
  - intros q x [[<- <-] | [_ Hq]]%lookup_insert_Some; [exists (ctx_allocated k); split; [done | lia] |].
    destruct (c_fresh _ _ Hk q x Hq) as (j & Hj & Hlt). exists j. split; [done | lia].
Qed.
End Proxies.

Lemma pinos_proxy_destroy_run k slots p x :
  proxied k slots -> proxies k !! p = Some x ->
  exists k', pinos_proxy_destroy p k = Done (tt, k') /\ proxied k' (<[Z.to_nat (proxy_id x) := None]> slots) /\ proxies k' = delete p (proxies k) /\
    ctx_allocated k' = ctx_allocated k /\ same_rest k k'.
Proof.
  intros Hk Hx. destruct (c_repr _ _ Hk) as [l Hr]. destruct (c_proxy _ _ Hk p x Hx) as [Hid Hs].
  destruct (remove_spec _ _ _ _ _ Hr Hs) as (m' & Hrem & Hr' & _). rewrite Z2Nat.id in Hrem by done.
  eexists. split; [unfold pinos_proxy_destroy; run (get_proxy_run _ _ _ Hx); rewrite Hrem; run_step; done |].
  split_and!; try done. constructor; cbn.
  - by exists (Z.to_nat (proxy_id x) :: l).
  - apply Hk.
  - unfold zlen. rewrite length_insert. apply Hk.
  - intros i q [(_ & ? & _) | [Hne Hq]]%list_lookup_insert_Some; [done |]. destruct (c_slot _ _ Hk i q Hq) as (y & Hy & Hyi). exists y.
    rewrite lookup_delete_ne; [done |]. intros ->. rewrite Hx in Hy. injection Hy as <-. lia.
  - intros q y [Hne Hq]%lookup_delete_Some. destruct (c_proxy _ _ Hk q y Hq) as [H1 H2]. split; [done |].
    rewrite list_lookup_insert_ne; [done |]. intros Heq. rewrite <- Heq, Hs in H2. congruence.
  - intros q y [_ Hq]%lookup_delete_Some. by apply (c_fresh _ _ Hk q y).
Qed.

(** ** A connected context *)

Record connected (k : PinosContext) (v : view) : Prop := {
  n_proxied : proxied k (v_slots v);
  n_core : exists x, proxies k !! core_proxy k = Some x /\ proxy_id x = 0 /\ proxy_type x = TypeCore;
  n_regs p x : proxies k !! p = Some x -> proxy_type x = TypeRegistry -> Z.to_nat (proxy_id x) ∈ v_regs v;
  n_registry : registry_proxy k <> 0 -> exists x, proxies k !! registry_proxy k = Some x /\ proxy_type x = TypeRegistry;
  n_connected : connection k = true /\ disconnecting k = false;
  n_calls : v_calls v = ctx_sent k;
  n_quiet : v_limbo v = [] /\ v_taken v = []
}.

(** The next call of the context is on its way. *)
Definition calling (m : Z * call) (v : view) : view := mkView (v_slots v) (v_calls v ++ [m]) (v_regs v) (v_limbo v) (v_taken v).

Lemma connected_same k k' v : ctx_objects k' = ctx_objects k -> proxies k' = proxies k -> ctx_allocated k' = ctx_allocated k -> same_rest k k' ->
  connected k v -> connected k' v.
Proof.
  intros H1 H2 H3 [] []. constructor; rewrite ?H2, ?r_core0, ?r_registry0, ?r_disconnecting0, ?r_connection0, ?r_sent0; try done.
  by eapply proxied_same.
Qed.

Definition called (x : PinosProxy) (m : call) (k : PinosContext) : PinosContext := ctx_with_sent (ctx_sent k ++ [(proxy_id x, m)]) k.

Lemma connected_call k v p x m : connected k v -> proxies k !! p = Some x ->
  do_call p m k = Done (tt, called x m k) /\ connected (called x m k) (calling (proxy_id x, m) v).
Proof.
  intros Hk Hx. pose proof Hk as []. split; [apply (do_call_run k p x); [done | by destruct n_connected0] |].
  constructor; try done; [by apply (proxied_same k) |]. cbn. by rewrite n_calls0.
Qed.

(** ** Events

    What is left of the agreement when the first event is taken. *)
Lemma acceptable_app (R : nat -> Prop) l l' : acceptable R (l ++ l') <-> acceptable R l /\ acceptable (fun i => R i \/ i ∈ registry_ids l) l'.
Proof.
  revert R. induction l as [|[d m] l IH]; intros R; simpl.
  - split; [intros Hl; split; [done |]; eapply acceptable_mono; [| done]; by left |].
    intros [_ Hl]. eapply acceptable_mono; [| done]. intros i [Hi | Hi%elem_of_nil]; done.
  - destruct m as [[]|[]]; rewrite ?IH; cbn [registry_ids omap list_omap registry_id snd]; fold (registry_ids l); try naive_solver.
    split.
    + intros (? & ? & ? & Hl). split; [done |]. eapply acceptable_mono; [| done]. intros j [[Hj | ->] | Hj]; [by left | right; left | right; by right].
    + intros [(? & ? & ?) Hl]. do 3 (split; [done |]). eapply acceptable_mono; [| done].
      intros j [Hj | [-> | Hj]%elem_of_cons]; [left; by left | left; by right | by right].
Qed.

Lemma new_ids_app l l' : new_ids (l ++ l') = new_ids l ++ new_ids l'.
Proof. apply omap_app. Qed.
Lemma registry_ids_app l l' : registry_ids (l ++ l') = registry_ids l ++ registry_ids l'.
Proof. apply omap_app. Qed.

(** An event that removes nothing is taken. *)
Lemma agree_taken g c v d e rest : agree g c v -> client_sent c = (d, e) :: rest -> removal e = None -> agree g (client_with_sent rest c) v.
Proof.
  intros [] Hs He. assert (removed (client_sent c) = removed rest) as Hr by (rewrite Hs; cbn; by rewrite He).
  rewrite Hr in *. constructor; try done. cbn. rewrite Hs in a_events. cbn in a_events. destruct e as [[]|[]|]; naive_solver.
Qed.

(** A call that takes no new id. *)
Lemma agree_call g c v m : agree g c v -> new_id (snd m) = None -> acceptable (fun i => is_registry g c i \/ i ∈ registry_ids (v_calls v)) [m] ->
  agree g c (calling m v).
Proof.
  intros [] Hm Ha. assert (new_ids (v_calls v ++ [m]) = new_ids (v_calls v)) as Hn by (rewrite new_ids_app; cbn; rewrite Hm; apply app_nil_r).
  constructor; cbn [calling v_slots v_calls v_regs v_limbo v_taken]; rewrite ?Hn; try done.
  - by apply acceptable_app.
  - intros i Hi. destruct (a_regs i Hi) as [Hr | Hr]; [by left | right]. rewrite registry_ids_app. apply elem_of_app. by left.
Qed.

(** The id of a proxy that goes is announced to be removed. *)
Lemma agree_removed g c v i rest : agree g c v -> v_taken v = [] -> client_sent c = (0, CoreEvent (CoreRemoveId i)) :: rest ->
  agree g (client_with_sent rest c) (mkView (<[Z.to_nat i := None]> (v_slots v)) (v_calls v) (v_regs v) (v_limbo v) (v_taken v)).
Proof.
  intros [] Ht Hs. rewrite Hs in *. cbn in a_events. destruct a_events as (_ & _ & _ & Hi & [Hlive Hnt] & Hreg & Hrest).
  pose proof Hlive as [p Hp]%elem_of_live. pose proof (live_clear _ _ _ Hp) as Hcl.
  change (removed (_ :: rest)) with (Z.to_nat i :: removed rest) in a_tokens.
  constructor; cbn [client_core_resource client_objects client_sent client_with_sent v_slots v_calls v_regs v_limbo v_taken]; rewrite ?length_insert; try done.
  - unfold zlen. by rewrite length_insert.
  - rewrite Hcl in a_tokens. cbn [app] in a_tokens.
    apply (Permutation_cons_inv (a := Z.to_nat i)). rewrite a_tokens. cbn [app]. by rewrite <- !Permutation_middle.
  - eapply deliverable_mono; [| done]. intros j [[Hj Hjt] Hne]. split; [| done].
    rewrite Hcl in Hj. apply elem_of_cons in Hj as [-> | Hj]; done.
Qed.

(** A new proxy asks to be bound. *)
Lemma agree_new g c v i p slots' d id rest :
  agree g c v -> took (v_slots v) i p slots' -> zlen slots' < 2 ^ 30 -> 0 <= d -> (is_registry g c (Z.to_nat d) \/ Z.to_nat d ∈ registry_ids (v_calls v)) -> id <> 0 ->
  client_sent c = rest ->
  agree g c (mkView slots' (v_calls v ++ [(d, RegistryCall (RegistryBind id (Z.of_nat i)))]) (v_regs v) (v_limbo v) (v_taken v)).
Proof.
  intros Hag Ht Hb Hd Hr Hid _. pose proof (agree_nodup _ _ _ Hag) as Hnd. pose proof Hag as [].
  pose proof (took_length _ _ _ _ Ht) as Hlen. pose proof (took_live _ _ _ _ Ht) as Hlive.
  constructor; cbn [v_slots v_calls v_regs v_limbo v_taken]; try done.
  - rewrite Hlive, a_tokens, new_ids_app. cbn. rewrite Nat2Z.id, <- app_assoc. cbn. by rewrite <- !Permutation_middle.
  - lia.
  - rewrite new_ids_app, filter_app. change (new_ids [(d, _)]) with [Z.to_nat (Z.of_nat i)]. rewrite Nat2Z.id, a_growth. destruct Ht as [[Hi ->] | [-> ->]].
    + rewrite length_insert. assert (~ (length (words (client_objects c)) <= i)%nat) as Hlt; [| rewrite (filter_cons_False _ i []), app_nil_r; done].
      intros Hle. assert (i ∈ new_ids (v_calls v)) as Hin.
      { eapply list_elem_of_filter. rewrite a_growth. apply elem_of_seq. apply lookup_lt_Some in Hi. lia. }
      assert (i ∈ live (v_slots v)) as [x Hx]%elem_of_live by (rewrite a_tokens; apply elem_of_app; by left). congruence.
    + rewrite length_app. cbn [length]. rewrite (filter_cons_True _ _ []) by (clear -a_room; lia).
      replace (length (v_slots v) + 1 - length (words (client_objects c)))%nat with ((length (v_slots v) - length (words (client_objects c))) + 1)%nat by lia.
      rewrite seq_app. cbn. f_equal. f_equal. lia.
  - eapply deliverable_mono; [| done]. intros j [Hj Hjt]. split; [| done]. rewrite Hlive. by right.
  - apply acceptable_app. split; [done |]. cbn. split_and!; try done; [lia |].
    pose proof (took_lookup _ _ _ _ Ht) as Hl%lookup_lt_Some. unfold zlen in Hb. lia.
  - intros j Hj. destruct (a_regs j Hj) as [Hr' | Hr']; [by left | right]. rewrite registry_ids_app. apply elem_of_app. by left.
Qed.

(** ** Handling an event *)

(** What is kept for a proxy may change. *)
Lemma connected_data k k' v p x data :
  connected k v -> proxies k !! p = Some x -> ctx_objects k' = ctx_objects k -> proxies k' = <[p := mkProxy (proxy_id x) (proxy_type x) data]> (proxies k) ->
  ctx_allocated k' = ctx_allocated k -> same_rest k k' -> connected k' v.
Proof.
  intros Hk Hx H1 H2 H3 []. destruct Hk.
  assert (forall q y, proxies k !! q = Some y -> exists y', proxies k' !! q = Some y' /\ proxy_id y' = proxy_id y /\ proxy_type y' = proxy_type y) as Hfwd.
  { intros q y Hq. rewrite H2. destruct (decide (q = p)) as [-> | Hne]; [rewrite lookup_insert_eq; eexists; rewrite Hx in Hq; by simplify_eq/= |].
    rewrite lookup_insert_ne by done. by exists y. }
  assert (forall q y, proxies k' !! q = Some y -> exists y', proxies k !! q = Some y' /\ proxy_id y' = proxy_id y /\ proxy_type y' = proxy_type y) as Hback.
  { intros q y. rewrite H2. intros [[<- <-] | [_ Hq]]%lookup_insert_Some; [by exists x | by exists y]. }
  destruct n_proxied0. constructor; rewrite ?r_core0, ?r_registry0, ?r_disconnecting0, ?r_connection0, ?r_sent0; try done.
  - constructor; rewrite ?H1, ?H3; try done.
    + intros i q Hi. destruct (c_slot0 i q Hi) as (y & Hy & Hyi). destruct (Hfwd q y Hy) as (y' & Hy' & Heq & _). exists y'. split; [done | congruence].
    + intros q y (y' & Hy' & <- & _)%Hback. by apply c_proxy0.
    + intros q y (y' & Hy' & _)%Hback. by eapply c_fresh0.
  - destruct n_core0 as (y & Hy & Hy0 & Hyt). destruct (Hfwd _ y Hy) as (y' & Hy' & H4 & H5). exists y'. split_and!; [done | congruence | congruence].
  - intros q y (y' & Hy' & <- & <-)%Hback. by eapply n_regs0.
  - intros Hr. destruct (n_registry0 Hr) as (y & Hy & Hyt). destruct (Hfwd _ y Hy) as (y' & Hy' & H4 & H5). exists y'. split; [done | congruence].
Qed.

Lemma update_data_well {T} `{!PublishedInfo T} (wrap : T -> object_info) unwrap info p x k v :
  connected k v -> proxies k !! p = Some x -> pinos_spa_dict_copy (info_props info) <> Undef ->
  exists k', update_data wrap unwrap info_update info p k = Done (tt, k') /\ connected k' v /\ ctx_allocated k' = ctx_allocated k.
Proof.
  intros Hk Hx Hp. destruct (info_update_fields (d ← user_data x; unwrap d) info) as (t & Ht & _); [by destruct (pinos_spa_dict_copy _) |].
  eexists. split; [unfold update_data; run (get_proxy_run _ _ _ Hx); rewrite Ht; run_step; unfold put_proxy, tell; run_step; done |].
  split; [| done]. by eapply connected_data.
Qed.

Lemma dict_copy_recv d : pinos_spa_dict_copy (recv_dict d) <> Undef.
Proof.
  unfold recv_dict. cbn [pinos_spa_dict_copy]. rewrite (proj2 (forallb_forall _ _)); [done |]. intros kv [[k w] [<- _]]%in_map_iff. done.
Qed.

(** The computation returns, and the context is still connected. *)
Definition stays {A} (m : Client A) (k : PinosContext) (v : view) : Prop :=
  exists a k', m k = Done (a, k') /\ connected k' v /\ ctx_allocated k' = ctx_allocated k.

Lemma stays_ret {A} (a : A) k v : connected k v -> stays (ret a) k v.
Proof. intros Hk. by exists a, k. Qed.
Lemma stays_notified k v n : connected k v -> stays (tell n) k v.
Proof. intros Hk. exists tt, (ctx_with_notifications (notifications k ++ [n]) k). split_and!; [done | by apply (connected_same k) | done]. Qed.
Lemma stays_state k v state error : connected k v -> stays (context_set_state state error) k v.
Proof.
  intros Hk. unfold stays, context_set_state. run_step. unfold when, tell. case_match; [| by exists tt, k].
  run_step. eexists tt, _. split_and!; [done | by apply (connected_same k) | done].
Qed.

(** ** The first event of a client is handled *)

Section Events.
Context (calloc_ok realloc_ok : Z -> bool).
Hypothesis calloc_granted : forall n, calloc_ok n = true.
Hypothesis realloc_granted : forall n, realloc_ok n = true.

(** The proxy an event is for. *)
Lemma live_proxy k v i : connected k v -> i ∈ live (v_slots v) -> exists p x, proxies k !! p = Some x /\ p <> 0 /\ proxy_id x = Z.of_nat i /\
  v_slots v !! i = Some (Some p) /\ pinos_map_lookup (ctx_objects k) (Z.of_nat i) = p.
Proof.
  intros Hk [p Hp]%elem_of_live. destruct (c_slot _ _ (n_proxied _ _ Hk) i p Hp) as (x & Hx & Hxi). exists p, x.
  split_and!; try done; [| rewrite <- Hxi; eapply lookup_proxy; [apply Hk | done]].
  destruct (c_fresh _ _ (n_proxied _ _ Hk) p x Hx) as (j & -> & Hj). unfold address. lia.
Qed.

Lemma remove_well k v g c i rest :
  connected k v -> agree g c v -> client_sent c = (0, CoreEvent (CoreRemoveId i)) :: rest ->
  exists k' v', core_event_remove_id i k = Done (tt, k') /\ connected k' v' /\ ctx_allocated k' = ctx_allocated k /\ agree g (client_with_sent rest c) v'.
Proof.
  intros Hk Hag Hs. destruct (n_quiet _ _ Hk) as [_ Ht]. pose proof (a_events _ _ _ Hag) as Hev. rewrite Hs in Hev. cbn in Hev.
  destruct Hev as (_ & _ & _ & Hi & [Hlive _] & Hreg & _). destruct (live_proxy k v _ Hk Hlive) as (p & x & Hx & Hp & Hxi & Hslot & Hlk).
  rewrite Z2Nat.id in Hlk, Hxi by lia. destruct (pinos_proxy_destroy_run k _ p x (n_proxied _ _ Hk) Hx) as (k' & Hrun & Hk' & Hpr & Hal & Hrest).
  rewrite Hxi in Hk'. eexists k', _. split_and!; [| | done | by apply (agree_removed g c v i rest)].
  - unfold core_event_remove_id. run_step. rewrite Hlk, (proj2 (Z.eqb_neq _ _) Hp). exact Hrun.
  - destruct Hk, Hrest. constructor; cbn [v_slots v_calls v_regs v_limbo v_taken]; rewrite ?r_core0, ?r_registry0, ?r_disconnecting0, ?r_connection0, ?r_sent0, ?Hpr; try done.
    + destruct n_core0 as (y & Hy & Hy0 & Hyt). exists y. rewrite lookup_delete_ne; [done |]. intros ->. rewrite Hx in Hy. injection Hy as <-. lia.
    + intros q y [_ Hq]%lookup_delete_Some. by eapply n_regs0.
    + intros Hr. destruct (n_registry0 Hr) as (y & Hy & Hyt). exists y. rewrite lookup_delete_ne; [done |]. intros Heq. rewrite <- Heq, Hx in Hy. injection Hy as <-.
      apply Hreg. rewrite <- Hxi. by eapply n_regs0.
Qed.

(** A global is announced to the registry [p]. *)
Lemma global_well m k v g c p x id name :
  connected k v -> agree g c v -> ctx_allocated k <= m -> m + 1 < 2 ^ 30 -> proxies k !! p = Some x -> proxy_type x = TypeRegistry ->
  (proxy_type_of name <> None -> id <> 0) ->
  exists k' v', registry_event_global calloc_ok realloc_ok p id (Some name) k = Done (tt, k') /\ connected k' v' /\ ctx_allocated k' <= m + 1 /\ agree g c v'.
Proof.
  intros Hk Hag Hm Hb Hx Hxt Hid. unfold registry_event_global. run_step.
  destruct (no_proxy k); [exists k, v; split_and!; [done | done | lia | done] |]. run_step.
  destruct (proxy_type_of name) as [t|] eqn:Ht; [| exists k, v; split_and!; [done | done | lia | done]].
  destruct (pinos_proxy_new_run calloc_ok realloc_ok calloc_granted realloc_granted k _ SPA_ID_INVALID t (n_proxied _ _ Hk)) as
    (q & i & slots' & k1 & Hrun & Hq & Htook & _ & Hk1 & Hfr & Hpr & Hal & Hrest); [lia | by left |].
  set (y := mkProxy (Z.of_nat i) t None) in *. destruct (c_proxy _ _ (n_proxied _ _ Hk) p x Hx) as [Hxid _].
  assert (q <> p) as Hne by congruence. assert (proxies k1 !! p = Some x) as Hx1 by (rewrite Hpr, lookup_insert_ne; done).
  assert (proxies k1 !! q = Some y) as Hy by (rewrite Hpr; apply lookup_insert_eq).
  destruct (n_connected _ _ Hk) as [Hconn Hdis]. rewrite <- (r_connection _ _ Hrest) in Hconn.
  exists (ctx_with_sent (ctx_sent k1 ++ [(proxy_id x, RegistryCall (RegistryBind id (Z.of_nat i)))]) k1).
  eexists. split; [| split; [| split; [simpl; lia |]]]; last eapply (agree_new g c v i q slots' (proxy_id x) id (client_sent c) Hag Htook).
  - run Hrun. rewrite (proj2 (Z.eqb_neq _ _) Hq). run (get_proxy_run _ _ _ Hy). rewrite (do_call_run k1 p x); [done | done | done].
  - assert (t <> TypeRegistry) as Htr.
    { revert Ht. unfold proxy_type_of. by repeat case_match; intros; simplify_eq. }
    destruct Hk, Hrest. constructor; cbn [v_slots v_calls v_regs v_limbo v_taken ctx_with_sent ctx_sent proxies core_proxy registry_proxy connection disconnecting];
      rewrite ?r_core0, ?r_registry0, ?r_disconnecting0, ?r_connection0, ?r_sent0, ?Hpr; try done.
    + by apply (proxied_same k1).
    + destruct n_core0 as (z & Hz & Hrest). exists z. rewrite lookup_insert_ne; [done |]. congruence.
    + intros r z [[<- <-] | [_ Hz]]%lookup_insert_Some; [done |]. by eapply n_regs0.
    + intros Hr. destruct (n_registry0 Hr) as (z & Hz & Hzt). exists z. rewrite lookup_insert_ne; [done |]. congruence.
    + congruence.
  - pose proof (c_room _ _ Hk1). lia.
  - done.
  - apply (a_regs _ _ _ Hag). by eapply (n_regs _ _ Hk).
  - apply Hid. done.
  - done.
Qed.

Lemma handle_event_well m k v g c d e rest :
  connected k v -> agree g c v -> client_sent c = (d, e) :: rest -> ctx_allocated k <= m -> m + 1 < 2 ^ 30 ->
  exists k' v', handle_event calloc_ok realloc_ok d (recv_event e) k = Done (tt, k') /\ connected k' v' /\ ctx_allocated k' <= m + 1 /\
    agree g (client_with_sent rest c) v'.
Proof.
  intros Hk Hag Hs Hm Hb. pose proof (a_events _ _ _ Hag) as Hev. rewrite Hs in Hev. cbn in Hev. destruct Hev as (Hd & [Hlive _] & He).
  destruct (live_proxy k v _ Hk Hlive) as (p & x & Hx & Hp & Hxi & Hslot & Hlk). rewrite Z2Nat.id in Hlk, Hxi by done.
  unfold handle_event. run_step. rewrite (proj2 (n_connected _ _ Hk)). run_step. rewrite Hlk, (proj2 (Z.eqb_neq _ _) Hp). run (get_proxy_run _ _ _ Hx).
  destruct (removal e) as [j|] eqn:Hrem.
  { destruct e as [[| | | i |]| |]; try done. destruct He as (-> & _). destruct (n_core _ _ Hk) as (y & Hy & Hy0 & Hyt).
    assert (p = core_proxy k) as -> by (rewrite <- (lookup_proxy _ _ _ _ (n_proxied _ _ Hk) Hy), Hy0; done). rewrite Hx in Hy. injection Hy as ->.
    rewrite Hyt. cbn [recv_event recv_core_event].
    destruct (remove_well k v g c i rest Hk Hag Hs) as (k' & v' & Hrun & Hk' & Hal & Hag'). exists k', v'. split_and!; [done | done | lia | done]. }
  pose proof (agree_taken g c v d e rest Hag Hs Hrem) as Hag1.
  assert (forall r : Client unit, stays r k v -> exists k' v', r k = Done (tt, k') /\ connected k' v' /\ ctx_allocated k' <= m + 1 /\ agree g (client_with_sent rest c) v') as Hstay.
  { intros r ([] & k' & Hrun & Hk' & Hal). exists k', v. split_and!; [done | done | lia | done]. }
  assert (forall T (H : PublishedInfo T) (wrap : T -> object_info) unwrap info, pinos_spa_dict_copy (info_props info) <> Undef -> stays (update_data wrap unwrap info_update info p) k v) as Hupd.
  { intros T HT wrap unwrap info Hi. destruct (update_data_well wrap unwrap info p x k v Hk Hx Hi) as (k' & Hrun & Hrest). by exists tt, k'. }
  destruct (proxy_type x) eqn:Hxt, e as [ce | re | ie]; try (apply Hstay, stays_ret; exact Hk);
    try (destruct ce); try (destruct re); try (destruct ie); cbn [recv_event recv_core_event recv_info]; try (apply Hstay, stays_ret; exact Hk).
  - apply Hstay, (Hupd _ Introspect.core_info), dict_copy_recv.
  - unfold core_event_done. case_if; [| apply Hstay; unfold when; case_if; [by apply stays_state | by apply stays_ret]].
    destruct (n_core _ _ Hk) as (y & Hy & Hy0 & Hyt). run_step.
    destruct (connected_call k v _ y (CoreCall (CoreSync 1)) Hk Hy) as (Hrun & Hk'). rewrite Hy0 in Hk'.
    exists (called y (CoreCall (CoreSync 1)) k), (calling (0, CoreCall (CoreSync 1)) v). split_and!; [done | done | simpl; lia |]. by apply agree_call.
  - by apply Hstay, stays_state.
  - done.
  - destruct He as [(name & -> & Hid) _]. by apply (global_well m k v g _ p x id name).
  - by apply Hstay, stays_notified.
  - apply Hstay, (Hupd _ node_info), dict_copy_recv.
  - apply Hstay, (Hupd _ Introspect.client_info), dict_copy_recv.
  - by apply Hstay, (Hupd _ link_info).
  - apply Hstay, (Hupd _ module_info), dict_copy_recv.
Qed.

(** ** Connecting *)

Definition first_view (p : Z) : view := mkView [Some p] [] [] [] [].

(** The core proxy is made first, at 0. *)
Lemma core_proxy_well m : repr m [] [] ->
  exists p k1, pinos_proxy_new calloc_ok realloc_ok 0 TypeCore (ctx_with_connection false true (ctx_with_notifications [StateChanged 1]
      (mkContext 1 None m ∅ [] 0 0 false false false [] [] 0))) = Done (p, k1) /\ p <> 0 /\
    connected (ctx_with_core_proxy p k1) (first_view p) /\ ctx_allocated k1 = 1.
Proof.
  intros Hr. set (k := ctx_with_connection _ _ _). assert (proxied k []) as Hk.
  { constructor; cbn; try done. by exists []. }
  destruct (pinos_proxy_new_run calloc_ok realloc_ok calloc_granted realloc_granted k [] 0 TypeCore Hk) as
    (p & i & slots' & k1 & Hrun & Hp & Ht & Hi & Hk1 & _ & Hpr & Hal & []); [done | by right |].
  exists p, k1. specialize (Hi eq_refl). subst i. destruct Ht as [[? _] | [_ ->]]; [done |].
  split_and!; [done | done | | done]. constructor; cbn; rewrite ?Hpr, ?r_registry0, ?r_disconnecting0, ?r_connection0, ?r_sent0; try done.
  - by apply (proxied_same k1).
  - exists (mkProxy 0 TypeCore None). by rewrite lookup_insert_eq.
  - intros q x [[<- <-] | [_ Hq]]%lookup_insert_Some; [done | done].
Qed.

(** Then the proxy of the registry, at 1. *)
Lemma registry_proxy_well p k v : connected k v -> v_slots v = [Some p] -> ctx_allocated k = 1 ->
  exists q k1 x, pinos_proxy_new calloc_ok realloc_ok SPA_ID_INVALID TypeRegistry k = Done (q, k1) /\ q <> 0 /\
    proxies k1 !! q = Some x /\ proxy_id x = 1 /\ ctx_allocated k1 = 2 /\
    connected (ctx_with_registry_proxy q k1) (mkView [Some p; Some q] (v_calls v) [1%nat] (v_limbo v) (v_taken v)) /\ core_proxy k1 = core_proxy k.
Proof.
  intros Hk Hv Hal. pose proof Hk as []. rewrite Hv in n_proxied0.
  destruct (pinos_proxy_new_run calloc_ok realloc_ok calloc_granted realloc_granted k _ SPA_ID_INVALID TypeRegistry n_proxied0) as
    (q & i & slots' & k1 & Hrun & Hq & Ht & _ & Hk1 & Hfr & Hpr & Hal1 & []); [lia | by left |].
  destruct Ht as [[Hi _] | [-> ->]]; [by destruct i as [|[|i]] |].
  exists q, k1, (mkProxy 1 TypeRegistry None). rewrite Hpr, lookup_insert_eq, Hal1, Hal. split_and!; try done.
  constructor; cbn; rewrite ?Hpr, ?r_core0, ?r_registry0, ?r_disconnecting0, ?r_connection0, ?r_sent0; try done.
  - by apply (proxied_same k1).
  - destruct n_core0 as (z & Hz & Hrest). exists z. rewrite lookup_insert_ne; [done |]. congruence.
  - intros r z [[<- <-] | [_ Hz]]%lookup_insert_Some Hzt; [by left |].
    destruct (c_proxy _ _ n_proxied0 r z Hz) as [_ Hs]. destruct (Z.to_nat (proxy_id z)) as [|j] eqn:Hid; [| by destruct j].
    simpl in Hs. injection Hs as <-. destruct n_core0 as (y & Hy & Hy0 & Hyt). destruct (c_proxy _ _ n_proxied0 _ y Hy) as [_ Hs'].
    rewrite Hy0 in Hs'. change (Some (Some p) = Some (Some (core_proxy k))) in Hs'. injection Hs' as Heq. rewrite <- Heq, Hz in Hy. congruence.
  - intros _. exists (mkProxy 1 TypeRegistry None). by rewrite lookup_insert_eq.
Qed.

Lemma connect_fd_well g c info flags properties :
  client_core_resource c <> 0 -> words (client_objects c) = [client_core_resource c] -> client_sent c = [(0, CoreEvent (CoreInfo info))] ->
  exists k0 ok k' v', pinos_context_new realloc_ok = Done k0 /\ pinos_context_connect_fd calloc_ok realloc_ok flags properties k0 = Done (ok, k') /\
    connected k' v' /\ ctx_allocated k' <= 2 /\ agree g c v'.
Proof.
  intros Hnz Hws Hsent. destruct (map_init_repr realloc_ok 64 32) as (m & Hinit & Hr); [lia | lia |].
  set (k0 := mkContext PINOS_CONTEXT_STATE_UNCONNECTED None m ∅ [] 0 0 false false false [] [] 0).
  destruct (core_proxy_well m Hr) as (p & k1 & Hrun1 & Hp & Hk1 & Hal1). set (k2 := ctx_with_core_proxy p k1) in *.
  assert (slots [client_core_resource c] = [Some (client_core_resource c)]) as Hsl by (unfold slots; cbn; by rewrite (proj2 (Z.eqb_neq _ _) Hnz)).
  destruct (n_core _ _ Hk1) as (x & Hx & Hx0 & Hxt).
  destruct (connected_call k2 _ p x (CoreCall (CoreClientUpdate properties)) Hk1 Hx) as (Hrun3 & Hk3). rewrite Hx0 in Hk3.
  set (k3 := called x _ k2) in *. exists k0. unfold pinos_context_new. rewrite Hinit. cbn [of_option obind].
  unfold pinos_context_connect_fd, context_set_state. run_step. cbn [ctx_state k0 PINOS_CONTEXT_STATE_UNCONNECTED PINOS_CONTEXT_STATE_CONNECTING Z.eqb negb when].
  unfold tell. run_step. run Hrun1. fold k2. rewrite (proj2 (Z.eqb_neq _ _) Hp). run Hrun3.
  set (b := negb (Z.land flags PINOS_CONTEXT_FLAG_NO_PROXY =? 0)).
  destruct (Z.land flags PINOS_CONTEXT_FLAG_NO_REGISTRY =? 0).
  - destruct (registry_proxy_well p k3 _ Hk3 eq_refl Hal1) as (q & k4 & y & Hrun4 & Hq & Hy & Hy1 & Hal4 & Hk4 & Hcore).
    set (k5 := ctx_with_registry_proxy q k4) in *. set (v5 := mkView [Some p; Some q] _ _ _ _) in Hk4.
    assert (core_proxy k5 = p) as Hcp by exact Hcore. destruct (n_core _ _ Hk4) as (z & Hz & Hz0 & Hzt). rewrite Hcp in Hz.
    destruct (connected_call k5 v5 p z (CoreCall (CoreGetRegistry 1)) Hk4 Hz) as (Hrun6 & Hk6). rewrite Hz0 in Hk6.
    set (k6 := ctx_with_no_proxy b (called z (CoreCall (CoreGetRegistry 1)) k5)).
    assert (connected k6 (calling (0, CoreCall (CoreGetRegistry 1)) v5)) as Hk6' by by apply (connected_same (called z (CoreCall (CoreGetRegistry 1)) k5)).
    destruct (connected_call k6 _ p z (CoreCall (CoreSync 0)) Hk6' Hz) as (Hrun7 & Hk7). rewrite Hz0 in Hk7.
    eexists true, _, _. split; [done |]. split; [| split; [exact Hk7 |]].
    + run Hrun4. fold k5. rewrite (proj2 (Z.eqb_neq _ _) Hq). run (get_proxy_run k5 q y Hy). rewrite Hy1. run Hrun6. cbn [negb]. run_step.
      fold b. fold k6. run Hrun7. done.
    + split; [cbn; lia |]. constructor; cbn [calling v_slots v_calls v_regs v_limbo v_taken v5 first_view app]; rewrite ?Hws, ?Hsent, ?Hsl; try done.
      * exact (perm_swap 1%nat 0%nat []).
      * cbn. lia.
      * cbn. split_and!; try done; [left | by intros ?%elem_of_nil].
      * intros j ->%list_elem_of_singleton. right. cbn. left.
  - set (k6 := ctx_with_no_proxy b k3). assert (connected k6 (calling (0, CoreCall (CoreClientUpdate properties)) (first_view p))) as Hk6 by by apply (connected_same k3).
    destruct (connected_call k6 _ p x (CoreCall (CoreSync 0)) Hk6 Hx) as (Hrun7 & Hk7). rewrite Hx0 in Hk7.
    eexists true, _, _. split; [done |]. split; [| split; [exact Hk7 |]].
    + run_step. cbn [negb]. run_step. fold b. fold k6. run Hrun7. done.
    + split; [cbn; lia |]. constructor; cbn [calling v_slots v_calls v_regs v_limbo v_taken first_view app]; rewrite ?Hws, ?Hsent, ?Hsl; try done.
      * cbn. split_and!; try done; [left | by intros ?%elem_of_nil].
      * by intros j ?%elem_of_nil.
Qed.
End Events.

Lemma disconnect_run k v : connected k v -> exists ok k', pinos_context_disconnect k = Done (ok, k').
Proof.
  intros Hk. pose proof Hk as []. set (k0 := ctx_with_connection true (connection k) k).
  assert (proxied k0 (v_slots v)) as Hk0 by by apply (proxied_same k). destruct n_core0 as (x & Hx & _ & Hxt).
  assert (exists k1 slots1, when (negb (registry_proxy k =? 0)) (pinos_proxy_destroy (registry_proxy k)) k0 = Done (tt, k1) /\ proxied k1 slots1 /\
    proxies k1 !! core_proxy k = Some x /\ core_proxy k1 = core_proxy k) as (k1 & slots1 & Hrun1 & Hk1 & Hx1 & Hc1).
  { destruct (registry_proxy k =? 0) eqn:Hr; bool_to_prop; [by exists k0, (v_slots v) |].
    destruct (n_registry0 Hr) as (y & Hy & Hyt). destruct (pinos_proxy_destroy_run k0 _ _ y Hk0 Hy) as (k1 & Hrun & Hk1 & Hpr & _ & []).
    eexists k1, _. split_and!; [exact Hrun | exact Hk1 | | done]. rewrite Hpr, lookup_delete_ne; [done |]. intros Heq. rewrite Heq, Hx in Hy. congruence. }
  assert (exists k2, when (negb (core_proxy k =? 0)) (pinos_proxy_destroy (core_proxy k)) (ctx_with_registry_proxy 0 k1) = Done (tt, k2)) as (k2 & Hrun2).
  { destruct (core_proxy k =? 0); [by eexists |]. assert (proxied (ctx_with_registry_proxy 0 k1) slots1) as Hk1' by by apply (proxied_same k1).
    destruct (pinos_proxy_destroy_run _ _ _ x Hk1' Hx1) as (k2 & Hrun & _). by exists k2. }
  unfold pinos_context_disconnect. run_step. fold k0. change (registry_proxy k0) with (registry_proxy k). run Hrun1. cbn [core_proxy ctx_with_registry_proxy].
  rewrite Hc1. run Hrun2. unfold context_set_state, when, tell. run_step. case_match; run_step; by eexists _, _.
Qed.

(** ** The system *)

(** Between steps; [m] bounds what the server and each of the contexts allocated so far. *)
Definition inv (m : Z) (s : system) : Prop :=
  exists vs, well [] [] [] m vs (server s) /\
    forall a, match peers s !! a, vs !! a with
              | Some k, Some v => connected k v /\ ctx_allocated k <= m
              | None, None => True
              | _, _ => False
              end.

Lemma run_server {A} (m : Core A) s a g : m (server s) = Done (a, g) -> at_server m s = Done (a, with_server g s).
Proof. intros Hm. unfold at_server. by rewrite Hm. Qed.
Lemma run_peer {A} c (m : Client A) s k a k' : peers s !! c = Some k -> m k = Done (a, k') -> at_peer c m s = Done (a, with_peers (<[c := k']> (peers s)) s).
Proof. intros Hc Hm. unfold at_peer. rewrite Hc. cbn. by rewrite Hm. Qed.

Section Peers.
Context (m : Z) (s : system) (vs : gmap Z view).
Hypothesis Hpeers : forall a, match peers s !! a, vs !! a with Some k, Some v => connected k v /\ ctx_allocated k <= m | None, None => True | _, _ => False end.

Lemma peer_view a k : peers s !! a = Some k -> exists v, vs !! a = Some v /\ connected k v /\ ctx_allocated k <= m.
Proof using Hpeers. intros Hk. specialize (Hpeers a). rewrite Hk in Hpeers. destruct (vs !! a) as [v|]; [| done]. by exists v. Qed.

(** One of the clients has gone on, the others have not. *)
Lemma peers_insert m' a k v : m <= m' -> connected k v -> ctx_allocated k <= m' ->
  forall b, match <[a := k]> (peers s) !! b, <[a := v]> vs !! b with Some k, Some v => connected k v /\ ctx_allocated k <= m' | None, None => True | _, _ => False end.
Proof using Hpeers.
  intros Hm Hk Ha b. destruct (decide (b = a)) as [-> | Hne]; [by rewrite !lookup_insert_eq |]. rewrite !lookup_insert_ne by done.
  specialize (Hpeers b). destruct (peers s !! b), (vs !! b); try done. destruct Hpeers. split; [done | lia].
Qed.
Lemma peers_same m' : m <= m' -> forall b, match peers s !! b, vs !! b with Some k, Some v => connected k v /\ ctx_allocated k <= m' | None, None => True | _, _ => False end.
Proof using Hpeers. intros Hm b. specialize (Hpeers b). destruct (peers s !! b), (vs !! b); try done. destruct Hpeers. split; [done | lia]. Qed.
Lemma peers_delete m' a : m <= m' ->
  forall b, match delete a (peers s) !! b, delete a vs !! b with Some k, Some v => connected k v /\ ctx_allocated k <= m' | None, None => True | _, _ => False end.
Proof using Hpeers.
  intros Hm b. destruct (decide (b = a)) as [-> | Hne]; [by rewrite !lookup_delete_eq |]. rewrite !lookup_delete_ne by done. by apply peers_same.
Qed.
End Peers.

Lemma well_more um ul ug m m' vs g : m <= m' -> well um ul ug m vs g -> well um ul ug m' vs g.
Proof. intros Hm []. constructor; [done | lia | done]. Qed.
Lemma well_delete um ul ug m vs g a : well um ul ug m vs g -> well um ul ug m (delete a vs) g.
Proof. intros []. constructor; [done | done |]. intros b v [_ Hv]%lookup_delete_Some. by apply w_agree. Qed.

Section System.
Context (calloc_ok realloc_ok : Z -> bool) (view_global : Z -> PinosGlobal -> bool).
Hypothesis calloc_granted : forall n, calloc_ok n = true.
Hypothesis realloc_granted : forall n, realloc_ok n = true.

Lemma serve_inv m s c : inv m s -> m + 1 < 2 ^ 30 -> is_Some (peers s !! c) ->
  exists s', serve calloc_ok realloc_ok view_global c s = Done (tt, s') /\ inv (m + 1) s'.
Proof.
  intros (vs & Hw & Hp) Hb [k Hk]. destruct (peer_view _ _ _ Hp c k Hk) as (v & Hv & Hconn & Hal). pose proof (n_calls _ _ Hconn) as Hcalls.
  unfold serve. destruct (ctx_sent k) as [|[d cl] rest] eqn:Hsent.
  - assert (take_call k = Done (None, k)) as Htake by (unfold take_call; run_step; rewrite Hsent; done).
    exists s. run (run_peer _ _ _ _ _ _ Hk Htake). rewrite insert_id by done. destruct s. split; [done |].
    exists vs. split; [by eapply well_more; [| done]; lia |]. apply (peers_same m); [done | lia].
  - assert (take_call k = Done (Some (d, cl), ctx_with_sent rest k)) as Htake by (unfold take_call; run_step; rewrite Hsent; done).
    destruct (handle_call_well calloc_ok realloc_ok view_global calloc_granted realloc_granted m vs (server s) c v d cl rest Hw Hb Hv Hcalls) as (g' & Hrun & Hw').
    eexists. split; [run (run_peer _ _ _ _ _ _ Hk Htake); by apply run_server |]. exists (<[c := served v]> vs). split; [done |].
    apply (peers_insert m); [done | lia | | simpl; lia]. destruct Hconn. constructor; try done; [by apply (proxied_same k) |]. cbn. by rewrite Hcalls.
Qed.

Lemma deliver_inv m s c : inv m s -> m + 1 < 2 ^ 30 -> is_Some (peers s !! c) ->
  exists s', deliver calloc_ok realloc_ok c s = Done (tt, s') /\ inv (m + 1) s'.
Proof.
  intros (vs & Hw & Hp) Hb [k Hk]. destruct (peer_view _ _ _ Hp c k Hk) as (v & Hv & Hconn & Hal). pose proof Hw as [Hs Hm Ha].
  destruct (Ha c v Hv) as (cl & Hcl & Hag). unfold deliver. destruct (client_sent cl) as [|[d e] rest] eqn:Hsent.
  - assert (take_event c (server s) = Done (None, server s)) as Htake by (unfold take_event; run (get_client_run _ _ _ Hcl); rewrite Hsent; done).
    exists s. run (run_server _ _ _ _ Htake). destruct s. split; [done |].
    exists vs. split; [by eapply well_more; [| done]; lia |]. apply (peers_same m); [done | lia].
  - assert (take_event c (server s) = Done (Some (d, e), set_client c (client_with_sent rest cl) (server s))) as Htake.
    { unfold take_event. run (get_client_run _ _ _ Hcl). rewrite Hsent. unfold put_client. run_step. done. }
    destruct (handle_event_well calloc_ok realloc_ok calloc_granted realloc_granted m k v _ cl d e rest Hconn Hag Hsent Hal Hb) as (k' & v' & Hrun & Hk' & Hal' & Hag').
    eexists. split; [run (run_server _ _ _ _ Htake); by apply (run_peer _ _ _ k) |]. exists (<[c := v']> vs). split; [| by apply (peers_insert m); [| lia | |]].
    constructor; [| simpl; lia |].
    + eapply sound_same; [..| exact Hs]; try done. by apply (clients_of_same c cl).
    + intros b w. rewrite lookup_insert_Some. intros [[<- <-] | [Hne Hw']].
      * eexists. split; [apply lookup_insert_eq |]. by apply (agree_frame (server s)); [intros q r |].
      * destruct (Ha b w Hw') as (cb & Hcb & Hagb). exists cb. split; [cbn; by rewrite lookup_insert_ne |]. by apply (agree_frame (server s)); [intros q r |].
Qed.

Lemma connect_inv m s flags properties : inv m s -> m + 3 < 2 ^ 30 ->
  exists s', connect calloc_ok realloc_ok view_global flags properties s = Done (tt, s') /\ inv (m + 3) s'.
Proof.
  intros (vs & Hw & Hp) Hb. pose proof (s_count _ _ _ _ (w_sound _ _ _ _ _ _ Hw)) as Hpos. pose proof (w_count _ _ _ _ _ _ Hw) as Hm.
  destruct (client_new_well calloc_ok realloc_ok view_global calloc_granted realloc_granted m vs (server s) Hw Hb) as
    (a & g' & c & i & Hrun & Hnz & Hw' & Hvs & Hc & Hcore & Hws & Hsent).
  destruct (connect_fd_well calloc_ok realloc_ok calloc_granted realloc_granted g' c i flags properties Hcore Hws Hsent) as
    (k0 & ok & k' & v' & Hnew & Hrun2 & Hk' & Hal & Hag).
  eexists. split.
  { unfold connect. run (run_server _ _ _ _ Hrun). rewrite (proj2 (Z.eqb_neq _ _) Hnz). rewrite Hnew. run_step.
    run (run_peer a (pinos_context_connect_fd calloc_ok realloc_ok flags properties) (with_peers (<[a := k0]> (peers (with_server g' s))) (with_server g' s)) k0 ok k'
      (lookup_insert_eq _ _ _) Hrun2). done. }
  exists (<[a := v']> vs). cbn [server peers with_peers with_server]. rewrite insert_insert_eq. split; [| apply (peers_insert m); [done | lia | done | lia]].
  destruct Hw' as [Hs' Hm' Ha']. constructor; [done | done |]. intros b w. rewrite lookup_insert_Some. intros [[<- <-] | [_ Hbw]]; [by exists c | by apply Ha'].
Qed.

Lemma sync_inv m s c seq : inv m s -> is_Some (peers s !! c) -> exists s', sync c seq s = Done (tt, s') /\ inv m s'.
Proof.
  intros (vs & Hw & Hp) [k Hk]. destruct (peer_view _ _ _ Hp c k Hk) as (v & Hv & Hconn & Hal). pose proof Hw as [Hs Hm Ha].
  destruct (n_core _ _ Hconn) as (x & Hx & Hx0 & _). destruct (connected_call k v _ x (CoreCall (CoreSync seq)) Hconn Hx) as [Hrun Hk']. rewrite Hx0 in Hk'.
  eexists. split; [unfold sync; eapply (run_peer _ _ _ k _ _ Hk); run_step; exact Hrun |]. exists (<[c := calling (0, CoreCall (CoreSync seq)) v]> vs).
  split; [| by apply (peers_insert m)]. constructor; [done | done |]. intros b w. rewrite lookup_insert_Some. intros [[<- <-] | [_ Hw']]; [| by apply Ha].
  destruct (Ha c v Hv) as (cl & Hcl & Hag). exists cl. split; [done |]. by apply agree_call.
Qed.

Lemma disconnect_inv m s c : inv m s -> is_Some (peers s !! c) -> exists s', disconnect c s = Done (tt, s') /\ inv m s'.
Proof.
  intros (vs & Hw & Hp) [k Hk]. destruct (peer_view _ _ _ Hp c k Hk) as (v & Hv & Hconn & Hal).
  destruct (disconnect_run k v Hconn) as (ok & k' & Hrun). eexists. split; [unfold disconnect; run (run_peer _ _ _ _ _ _ Hk Hrun); done |].
  exists (delete c vs). split; [by apply well_delete |]. cbn [peers with_peers]. rewrite delete_insert_eq. by apply (peers_delete m).
Qed.

Lemma hangup_inv m s c : inv m s -> is_Some (clients (server s) !! c) -> exists s', hangup realloc_ok view_global c s = Done (tt, s') /\ inv m s'.
Proof.
  intros (vs & Hw & Hp) Hc. destruct (pinos_client_destroy_well realloc_ok view_global m (delete c vs) (server s) c) as (g' & Hrun & Hw').
  { by apply well_delete. } { apply lookup_delete_eq. } { done. }
  eexists. split; [unfold hangup; run_step; by apply run_server |]. exists (delete c vs). split; [done |]. by apply (peers_delete m).
Qed.

Lemma perform_inv m s x : inv m s -> m + 3 < 2 ^ 30 ->
  exists s', perform calloc_ok realloc_ok view_global x s = Done (tt, s') /\ inv (m + 3) s'.
Proof.
  intros Hi Hb. assert (forall m', m' <= m + 3 -> forall s', inv m' s' -> inv (m + 3) s') as Hmore.
  { intros m' Hm' s' (vs & Hw & Hp). exists vs. split; [by eapply well_more | by apply (peers_same m')]. }
  assert (inv (m + 3) s) as Hid by (apply (Hmore m); [lia | done]).
  assert (forall (b : system -> bool) (r : Sys unit), (b s = true -> exists s', r s = Done (tt, s') /\ inv (m + 3) s') ->
    exists s', at_live b r s = Done (tt, s') /\ inv (m + 3) s') as Hlive.
  { intros b r Hr. unfold at_live. run_step. destruct (b s); [by apply Hr | by exists s]. }
  destruct x as [flags properties | c | c | c seq | c | c | owner bind info | p | p info announcement]; cbn [perform].
  - by apply connect_inv.
  - apply Hlive. intros H%bool_decide_eq_true. destruct (serve_inv m s c Hi ltac:(lia) H) as (s' & Hrun & Hi').
    exists s'. split; [done |]. eapply Hmore; [| done]; lia.
  - apply Hlive. intros H%bool_decide_eq_true. destruct (deliver_inv m s c Hi ltac:(lia) H) as (s' & Hrun & Hi').
    exists s'. split; [done |]. eapply Hmore; [| done]; lia.
  - apply Hlive. intros H%bool_decide_eq_true. destruct (sync_inv m s c seq Hi H) as (s' & Hrun & Hi').
    exists s'. split; [done |]. eapply Hmore; [| done]; lia.
  - apply Hlive. intros H%bool_decide_eq_true. destruct (disconnect_inv m s c Hi H) as (s' & Hrun & Hi').
    exists s'. split; [done |]. eapply Hmore; [| done]; lia.
  - apply Hlive. intros H%bool_decide_eq_true. destruct (hangup_inv m s c Hi H) as (s' & Hrun & Hi').
    exists s'. split; [done |]. eapply Hmore; [| done]; lia.
  - destruct (object_kind bind) as [type|] eqn:Hk; [| by exists s]. destruct Hi as (vs & Hw & Hp).
    destruct (new_object_well calloc_ok realloc_ok view_global calloc_granted realloc_granted m vs (server s) owner type bind info Hw) as (p & g' & Hrun & Hw'); [lia | done |].
    eexists. split; [run (run_server _ _ _ _ Hrun); done |]. apply (Hmore (m + 2)); [lia |]. exists vs. split; [done |]. apply (peers_same m); [done | lia].
  - apply Hlive. intros H. destruct Hi as (vs & Hw & Hp). unfold can_go in H. destruct (objects (server s) !! p) as [o|] eqn:Ho; [| done].
    destruct (destroy_object_well realloc_ok view_global m vs (server s) p o Hw Ho) as (g' & Hrun & Hw').
    exists (with_server g' s). split; [by apply run_server |]. apply (Hmore m); [lia |]. by exists vs.
  - apply Hlive. intros [o Ho]%bool_decide_eq_true. destruct Hi as (vs & Hw & Hp).
    destruct (announce_object_well m vs (server s) p o info announcement Hw Ho) as (g' & Hrun & Hw').
    exists (with_server g' s). split; [by apply run_server |]. apply (Hmore m); [lia |]. by exists vs.
Qed.

Lemma perform_all_inv l : forall m s, inv m s -> m + 3 * zlen l < 2 ^ 30 ->
  exists s', perform_all calloc_ok realloc_ok view_global l s = Done (tt, s') /\ inv (m + 3 * zlen l) s'.
Proof.
  induction l as [|x l IH]; intros m s Hi Hb.
  { exists s. split; [done |]. by replace (m + 3 * zlen []) with m by (unfold zlen; simpl; lia). }
  rewrite zlen_cons in *. pose proof (zlen_nonneg l). destruct (perform_inv m s x Hi ltac:(lia)) as (s1 & Hrun & Hi1).
  destruct (IH (m + 3) s1 Hi1 ltac:(lia)) as (s2 & Hrun2 & Hi2). exists s2. cbn [perform_all]. run Hrun. split; [done |].
  by replace (m + 3 * (1 + zlen l)) with (m + 3 + 3 * zlen l) by lia.
Qed.
End System.

(** ** The theorem

    The ids of the proxies of a context, and of the resources of a client. *)
Definition proxy_ids (k : PinosContext) : list nat := (fun px => Z.to_nat (proxy_id (snd px))) <$> map_to_list (proxies k).
Definition resource_ids (g : PinosCore) (a : Z) : list nat :=
  (fun pr => Z.to_nat (resource_id (snd pr))) <$> filter (fun pr => resource_client (snd pr) = a) (map_to_list (resources g)).

(** The values of a map, each at an index of its own, are those indices. *)
Lemma indices_live {A} (l : list (Z * A)) (f : Z * A -> nat) (slots : list (option Z)) :
  NoDup l -> (forall p x, (p, x) ∈ l -> slots !! f (p, x) = Some (Some p)) ->
  (forall p x y, (p, x) ∈ l -> (p, y) ∈ l -> x = y) -> (forall i p, slots !! i = Some (Some p) -> exists x, (p, x) ∈ l /\ f (p, x) = i) ->
  f <$> l ≡ₚ live slots.
Proof.
  intros Hnd Hf Hfun Hs. apply NoDup_Permutation; [| apply live_nodup |].
  - apply NoDup_fmap_2_strong; [| done]. intros [p x] [q y] Hp Hq Heq. pose proof (Hf p x Hp) as H1. rewrite Heq, (Hf q y Hq) in H1.
    injection H1 as ->. f_equal. eauto.
  - intros i. rewrite list_elem_of_fmap, elem_of_live. split.
    + intros ([p x] & -> & Hp). eauto.
    + intros [p Hp]. destruct (Hs i p Hp) as (x & Hx & <-). eauto.
Qed.

Lemma proxy_ids_live k v : connected k v -> proxy_ids k ≡ₚ live (v_slots v).
Proof.
  intros Hk. pose proof (n_proxied _ _ Hk) as []. apply indices_live; [apply NoDup_map_to_list | | |].
  - intros p x Hp%elem_of_map_to_list. by apply c_proxy0.
  - intros p x y Hx%elem_of_map_to_list Hy%elem_of_map_to_list. congruence.
  - intros i p Hi. destruct (c_slot0 i p Hi) as (x & Hx & Hxi). exists x. rewrite elem_of_map_to_list. cbn. split; [done | lia].
Qed.

Lemma resource_ids_live ul ug g a c : sound [] ul ug g -> clients g !! a = Some c -> resource_ids g a ≡ₚ live (slots (words (client_objects c))).
Proof.
  intros Hs Hc. apply indices_live.
  - apply NoDup_filter, NoDup_map_to_list.
  - intros p r [Hra Hr%elem_of_map_to_list]%list_elem_of_filter. cbn in *.
    destruct (mapped_id _ _ _ _ _ _ Hs Hr ltac:(apply not_elem_of_nil)) as (c' & Hc' & _ & Hw & _). rewrite Hra, Hc in Hc'. injection Hc' as <-.
    rewrite (slots_lookup _ _ _ Hw), (proj2 (Z.eqb_neq _ _)); [done |]. by destruct (is_data_address _ _ (s_resources_fresh _ _ _ _ Hs _ _ Hr)).
  - intros p x y [_ Hx%elem_of_map_to_list]%list_elem_of_filter [_ Hy%elem_of_map_to_list]%list_elem_of_filter. congruence.
  - intros i p Hi. unfold slots in Hi. rewrite list_lookup_fmap in Hi. destruct (words (client_objects c) !! i) as [w|] eqn:Hw; [| done].
    cbn in Hi. case_match; bool_to_prop; simplify_eq. destruct (s_word _ _ _ _ Hs _ _ _ _ (bones_lookup _ _ _ Hc) Hw) as (r & Hr & Hra & Hri); [done |].
    exists r. rewrite list_elem_of_filter, elem_of_map_to_list. cbn. rewrite Hri, Nat2Z.id. done.
Qed.

(** What is on its way finds what it is for. *)
Lemma deliverable_ok regs ok l d e : deliverable regs ok l -> (d, e) ∈ l -> 0 <= d /\ ok (Z.to_nat d).
Proof.
  revert ok. induction l as [|[d' e'] l IH]; intros ok Hl Hin; [by apply elem_of_nil in Hin |]. cbn in Hl. destruct Hl as (Hd & Ho & Hl).
  apply elem_of_cons in Hin as [[= -> ->] | Hin]; [done |].
  destruct e' as [[]|[]|]; try (destruct Hl as [_ Hl]; by apply (IH _ Hl Hin)).
  destruct Hl as (_ & _ & _ & _ & Hl). destruct (IH _ Hl Hin) as [? []]. done.
Qed.

Lemma call_finds g c v l d m l' um ul ug : sound um ul ug g -> um = [] -> (exists a, clients g !! a = Some c) -> agree g c v -> v_calls v = l ++ (d, m) :: l' ->
  pinos_map_lookup (client_objects c) d <> 0 \/ Z.to_nat d ∈ new_ids l.
Proof.
  intros Hs -> [a Hc] Hag Hv. pose proof (a_calls _ _ _ Hag) as Hacc. rewrite Hv in Hacc. apply acceptable_app in Hacc as [_ Hacc]. cbn in Hacc.
  destruct m as [cm | [id ni]].
  - assert (d = 0) as -> by by destruct cm; destruct_and?. left.
    destruct (core_resource_at_0 _ _ _ _ _ _ Hs Hc (a_core _ _ _ Hag) ltac:(apply not_elem_of_nil)) as (r & _ & _ & _ & _ & _ & Hw0 & _).
    pose proof (lookup_resource _ _ _ _ _ _ _ _ Hs Hc Hw0 : pinos_map_lookup _ 0 = _) as ->. apply (a_core _ _ _ Hag).
  - destruct Hacc as (Hd & [(p & r & Hp & Hr & _) | Hin] & _); [left | right; by apply registry_new_ids].
    rewrite <- (Z2Nat.id d) by done. rewrite (lookup_resource _ _ _ _ _ _ _ _ Hs Hc Hp).
    by destruct (is_data_address _ _ (s_resources_fresh _ _ _ _ Hs _ _ Hr)).
Qed.


(** A client learns of a node and binds it; the node goes and another comes, and a second
    client connects, while calls and events are on their way. *)
Definition granted (_ : Z) : bool := true.
Definition visible (_ : Z) (_ : PinosGlobal) : bool := true.
Definition a_node : info_event := NodeInfo (mkNodeInfo 3 ALL None 0 0 [] 0 0 [] 0 None None).
Definition story : list step :=
  [NewObject 0 node_bind a_node; Connect 0 None; Serve 64; Serve 64; Serve 64;
   Deliver 64; Deliver 64; Deliver 64; Deliver 64; Deliver 64; Deliver 64; Serve 64; Serve 64;
   DestroyObject 32; NewObject 0 node_bind a_node; Connect 0 None;
   Deliver 64; Deliver 64; Deliver 64; Deliver 64; Deliver 64].


(** At the end of it: for each context the ids of its proxies, those it asks for, and those
    of its resources. The first has been given the id 2 again. *)
Definition told (l : list step) : outcome (list (Z * list nat * list nat * list nat)) :=
  let* s0 := running granted granted visible None None None 0 in
  let* (_, s) := perform_all granted granted visible l s0 in
  Done ((fun ak => (fst ak, proxy_ids (snd ak), new_ids (ctx_sent (snd ak)), resource_ids (server s) (fst ak))) <$> map_to_list (peers s)).
Example story_ids : told story = Done [(192%Z, [1; 0], [1], [0])%nat; (64%Z, [2; 3; 1; 0], [2], [1; 3; 0])%nat].
Proof. vm_compute. reflexivity. Qed.

(** The id of a global is used again when another comes: a client that binds what it was told
    of before gets a resource of another type than its proxy. *)
Definition types_at (a : Z) (i : Z) (l : list step) : outcome (option (object_type * object_type)) :=
  let* s0 := running granted granted visible None None None 0 in
  let* (_, s) := perform_all granted granted visible l s0 in
  Done (k ← peers s !! a; x ← proxies k !! pinos_map_lookup (ctx_objects k) i;
        c ← clients (server s) !! a; r ← resources (server s) !! pinos_map_lookup (client_objects c) i;
        Some (proxy_type x, resource_type r)).
Definition reuse : list step :=
  [NewObject 0 node_bind a_node; Connect 0 None; Serve 64; Serve 64; Serve 64;
   Deliver 64; Deliver 64; Deliver 64; Deliver 64;
   DestroyObject 32; NewObject 0 module_bind a_node; Serve 64; Serve 64].
Example types_differ : types_at 64 2 reuse = Done (Some (TypeNode, TypeModule)).
Proof. vm_compute. reflexivity. Qed.
