(* ===== verification/NodeEvents.v ===== *)
(** What a client node and its stream tell each other next to the protocol: the events
    and commands of nodes ([spa/include/spa/event.h], [command.h], [event-node.h],
    [command-node.h], [pinos/client/transport.h]), which are object pods with fixed
    fields, and the IO areas of ports ([spa/include/spa/node.h]) in shared memory.

    The ids of the types are what the type map gives at run time: a class. *)
From S2P Require Import Prelude Defs Pod Transport.

(** The part of [PinosType] that streams and client nodes use. *)
Class PinosType := {
  HaveOutput : Z; NeedInput : Z; ReuseBuffer : Z;
  AsyncComplete : Z; RequestClockUpdate : Z;
  Pause : Z; Start : Z; ClockUpdate : Z;
  data_MemPtr : Z; data_MemFd : Z; data_DmaBuf : Z; data_Id : Z;
  meta_Shared : Z
}.

Definition SPA_DIRECTION_INPUT : Z := 0.
Definition SPA_DIRECTION_OUTPUT : Z := 1.

(** ** Fields *)

(** [SpaPODInt], with its padding, and [SpaPODLong]. *)
Definition SPA_POD_INT_INIT (v : Z) : bytes := le32 4 ++ le32 SPA_POD_TYPE_INT ++ le32 v ++ le32 0.
Definition SPA_POD_LONG_INIT (v : Z) : bytes := le32 8 ++ le32 SPA_POD_TYPE_LONG ++ le64 v.

Definition SPA_EVENT_INIT_COMPLEX (type : Z) (fields : bytes) : bytes :=
  le32 (8 + zlen fields) ++ le32 SPA_POD_TYPE_OBJECT ++ le32 0 ++ le32 type ++ fields.
Definition SPA_EVENT_INIT (type : Z) : bytes := SPA_EVENT_INIT_COMPLEX type [].

(** [SPA_EVENT_TYPE], [SPA_COMMAND_TYPE] *)
Definition SPA_EVENT_TYPE (event : bytes) : outcome Z := of_option (load32 12 event).

(** The value of the field at an offset in the structure. *)
Definition int_at (off : Z) (event : bytes) : outcome Z := let* v := of_option (load32 (off + 8) event) in Done (i32 v).
Definition long_at (off : Z) (event : bytes) : outcome Z :=
  let* v := of_option (load64 (off + 8) event) in Done ((v + 2 ^ 63) mod 2 ^ 64 - 2 ^ 63).

(** ** Events *)

Section Events.
Context `{PinosType}.

Definition reuse_buffer_event (port_id buffer_id : Z) : bytes :=
  SPA_EVENT_INIT_COMPLEX ReuseBuffer (SPA_POD_INT_INIT port_id ++ SPA_POD_INT_INIT buffer_id).
Definition async_complete_event (seq res : Z) : bytes :=
  SPA_EVENT_INIT_COMPLEX AsyncComplete (SPA_POD_INT_INIT seq ++ SPA_POD_INT_INIT res).

Definition SPA_EVENT_NODE_REQUEST_CLOCK_UPDATE_TIME : Z := Z.shiftl 1 0.
Definition request_clock_update_event (update_mask timestamp offset : Z) : bytes :=
  SPA_EVENT_INIT_COMPLEX RequestClockUpdate
    (SPA_POD_INT_INIT update_mask ++ SPA_POD_LONG_INIT timestamp ++ SPA_POD_LONG_INIT offset).

(** [SPA_COMMAND_INIT] has the layout of [SPA_EVENT_INIT]. *)
Definition SPA_COMMAND_NODE_CLOCK_UPDATE_FLAG_LIVE : Z := Z.shiftl 1 0.
Definition clock_update_command (change_mask rate ticks monotonic_time offset scale state flags latency : Z) : bytes :=
  SPA_EVENT_INIT_COMPLEX ClockUpdate
    (SPA_POD_INT_INIT change_mask ++ SPA_POD_INT_INIT rate ++ SPA_POD_LONG_INIT ticks ++ SPA_POD_LONG_INIT monotonic_time ++
     SPA_POD_LONG_INIT offset ++ SPA_POD_INT_INIT scale ++ SPA_POD_INT_INIT state ++ SPA_POD_INT_INIT flags ++
     SPA_POD_LONG_INIT latency).
End Events.

(** [pinos_spa_pod_copy] ([pinos/client/utils.h]); memory is granted. *)
Definition pinos_spa_pod_copy (pod : option bytes) : outcome (option bytes) :=
  match pod with
  | None => Done None
  | Some pod =>
      let* n := SPA_POD_SIZE pod in
      let* d := of_option (mread 0 n pod) in Done (Some d)
  end.
Fixpoint copy_pods (pods : list bytes) : outcome (list bytes) :=
  match pods with
  | [] => Done []
  | pod :: pods =>
      let* copy := pinos_spa_pod_copy (Some pod) in
      let* copy := of_option copy in
      let* l := copy_pods pods in Done (copy :: l)
  end.

(** ** IO areas *)

(** [SpaPortIO]: the range is kept as its bytes. *)
Record SpaPortIO := mkIO { status : Z; buffer_id : Z; range : bytes }.

Definition load_io (p : Z) (m : bytes) : outcome SpaPortIO :=
  let* s := of_option (load32 p m) in
  let* b := of_option (load32 (p + 4) m) in
  let* r := of_option (mread (p + 8) 16 m) in
  Done (mkIO s b r).
Definition store_io (p : Z) (io : SpaPortIO) (m : bytes) : outcome bytes :=
  of_option (mwrite p (le32 (status io) ++ le32 (buffer_id io) ++ range io) m).

(** The areas of port [i], and single fields of them. *)
Definition input_io (trans : PinosTransport) (i : Z) : Z := inputs trans + sizeof_SpaPortIO * i.
Definition output_io (trans : PinosTransport) (i : Z) : Z := outputs trans + sizeof_SpaPortIO * i.
Definition get_io_status (p : Z) (m : bytes) : outcome Z := of_option (load32 p m).
Definition set_io_status (p v : Z) (m : bytes) : outcome bytes := of_option (mwrite p (le32 v) m).
Definition get_io_buffer_id (p : Z) (m : bytes) : outcome Z := of_option (load32 (p + 4) m).
Definition set_io_buffer_id (p v : Z) (m : bytes) : outcome bytes := of_option (mwrite (p + 4) (le32 v) m).

(** The counts of ports in the area. *)
Definition area_n_inputs (m : bytes) : outcome Z := of_option (load32 4 m).
Definition area_n_outputs (m : bytes) : outcome Z := of_option (load32 12 m).
Definition set_area_n_ports (n_inputs n_outputs : Z) (m : bytes) : outcome bytes :=
  let* m := of_option (mwrite 4 (le32 n_inputs) m) in of_option (mwrite 12 (le32 n_outputs) m).

(** ** What is read is what was built *)

Lemma zlen_int v : zlen (SPA_POD_INT_INIT v) = 16.
Proof. unfold SPA_POD_INT_INIT. zlia. Qed.
Lemma zlen_long v : zlen (SPA_POD_LONG_INIT v) = 16.
Proof. unfold SPA_POD_LONG_INIT. zlia. Qed.
#[export] Hint Rewrite zlen_int zlen_long : zlen.

Lemma load32_in a z c off : off = zlen a -> load32 off (a ++ le32 z ++ c) = Some (u32 z).
Proof. intros ->. by apply load32_app. Qed.

Lemma event_type type fields : is_u32 type -> SPA_EVENT_TYPE (SPA_EVENT_INIT_COMPLEX type fields) = Done type.
Proof.
  intros Ht. unfold SPA_EVENT_TYPE, SPA_EVENT_INIT_COMPLEX.
  rewrite (app_assoc (le32 _) (le32 _)), (app_assoc (_ ++ le32 _) (le32 0)), load32_in by zlia.
  by rewrite u32_small.
Qed.

Lemma zlen_event type fields : zlen (SPA_EVENT_INIT_COMPLEX type fields) = 16 + zlen fields.
Proof. unfold SPA_EVENT_INIT_COMPLEX. zlia. Qed.
#[export] Hint Rewrite zlen_event : zlen.

Lemma built_event_ok type fields : zlen fields < 2 ^ 31 -> event_ok (SPA_EVENT_INIT_COMPLEX type fields).
Proof.
  intros Hf. split; [zlia |]. exists (le32 SPA_POD_TYPE_OBJECT ++ le32 0 ++ le32 type ++ fields).
  rewrite zlen_event. unfold SPA_EVENT_INIT_COMPLEX. do 2 f_equal. lia.
Qed.

(** A field behind others. *)
Lemma int_field type a v c off : off = 16 + zlen a ->
  int_at off (SPA_EVENT_INIT_COMPLEX type (a ++ SPA_POD_INT_INIT v ++ c)) = Done (i32 (u32 v)).
Proof.
  intros ->. unfold int_at, SPA_EVENT_INIT_COMPLEX. set (n := le32 (8 + _)). unfold SPA_POD_INT_INIT. rewrite <- !app_assoc.
  rewrite !(app_assoc n), !(app_assoc (n ++ _)), !(app_assoc ((n ++ _) ++ _)), !(app_assoc (((n ++ _) ++ _) ++ _)).
  rewrite (app_assoc ((((n ++ _) ++ _) ++ _) ++ a)), (app_assoc (((((n ++ _) ++ _) ++ _) ++ a) ++ _)).
  rewrite load32_in by (unfold n; zlia). done.
Qed.

Lemma i32_of_u32 v : i32 (u32 v) = i32 v.
Proof. unfold i32, u32. rewrite Zplus_mod_idemp_l. done. Qed.
Lemma u32_i32 v : u32 (i32 v) = u32 v.
Proof. unfold i32, u32. rewrite Zminus_mod, Z.mod_mod, <- Zminus_mod by lia. f_equal. lia. Qed.

Lemma reuse_buffer_fields `{PinosType} p b :
  int_at 16 (reuse_buffer_event p b) = Done (i32 p) /\ int_at 32 (reuse_buffer_event p b) = Done (i32 b).
Proof.
  unfold reuse_buffer_event. split.
  - rewrite <- (app_nil_l (_ ++ SPA_POD_INT_INIT b)), int_field by done. by rewrite i32_of_u32.
  - rewrite <- (app_nil_r (SPA_POD_INT_INIT b)), int_field by zlia. by rewrite i32_of_u32.
Qed.

Lemma async_complete_fields `{PinosType} seq res :
  int_at 16 (async_complete_event seq res) = Done (i32 seq) /\ int_at 32 (async_complete_event seq res) = Done (i32 res).
Proof.
  unfold async_complete_event. split.
  - rewrite <- (app_nil_l (_ ++ SPA_POD_INT_INIT res)), int_field by done. by rewrite i32_of_u32.
  - rewrite <- (app_nil_r (SPA_POD_INT_INIT res)), int_field by zlia. by rewrite i32_of_u32.
Qed.
