(* ===== verification/Stream.v ===== *)
(** [pinos/client/stream.c]: a stream, the application's end of a client node.

    The state is one record; a handler is a computation on it. What the stream sends to
    the server is a list of requests, what it tells the application a list of signals.
    The application is a parameter: what it calls when it hears a signal, from inside the
    signal, so a handler is defined for any [emit], and [emit_at] ties the knot for calls
    nested up to a depth.

    [free] is the list of unused buffers, as the positions of its nodes; linking a node
    that is linked, or unlinking one that is not, has no meaning (component SpaList). *)
From stdpp Require Import pretty.
From S2P Require Import Prelude State Defs Pod Map Properties Interfaces Mem Transport Loop Core NodeEvents.
Import Array.

Definition PINOS_STREAM_STATE_ERROR : Z := -1.
Definition PINOS_STREAM_STATE_UNCONNECTED : Z := 0.
Definition PINOS_STREAM_STATE_CONNECTING : Z := 1.
Definition PINOS_STREAM_STATE_CONFIGURE : Z := 2.
Definition PINOS_STREAM_STATE_READY : Z := 3.
Definition PINOS_STREAM_STATE_PAUSED : Z := 4.
Definition PINOS_STREAM_STATE_STREAMING : Z := 5.

Definition PINOS_STREAM_FLAG_AUTOCONNECT : Z := Z.shiftl 1 0.

Definition pinos_stream_state_as_string (state : Z) : bytes :=
  if state =? PINOS_STREAM_STATE_ERROR then text "error"
  else if state =? PINOS_STREAM_STATE_UNCONNECTED then text "unconnected"
  else if state =? PINOS_STREAM_STATE_CONNECTING then text "connecting"
  else if state =? PINOS_STREAM_STATE_CONFIGURE then text "configure"
  else if state =? PINOS_STREAM_STATE_READY then text "ready"
  else if state =? PINOS_STREAM_STATE_PAUSED then text "paused"
  else if state =? PINOS_STREAM_STATE_STREAMING then text "streaming"
  else text "invalid-state".

(** [interfaces.h] *)
Definition PINOS_MESSAGE_NODE_UPDATE_MAX_INPUTS : Z := Z.shiftl 1 0.
Definition PINOS_MESSAGE_NODE_UPDATE_MAX_OUTPUTS : Z := Z.shiftl 1 1.
Definition PINOS_MESSAGE_PORT_UPDATE_POSSIBLE_FORMATS : Z := Z.shiftl 1 0.
Definition PINOS_MESSAGE_PORT_UPDATE_FORMAT : Z := Z.shiftl 1 1.
Definition PINOS_MESSAGE_PORT_UPDATE_PROPS : Z := Z.shiftl 1 2.
Definition PINOS_MESSAGE_PORT_UPDATE_INFO : Z := Z.shiftl 1 3.

Definition SPA_PORT_INFO_FLAG_CAN_USE_BUFFERS : Z := Z.shiftl 1 3.

(** ** Data *)

Record MemId := mkMemId { mid_id : Z; mid_fd : Z; mid_flags : Z; mid_ptr : Z; mid_offset : Z; mid_size : Z }.

(** The copy of a buffer, with its pointers resolved. The descriptor of a data is only
    set for the kinds of data the stream knows. *)
Record BufMeta := mkBufMeta { bm_type : Z; bm_size : Z; bm_data : Z }.
Record BufData := mkBufData { bd_type : Z; bd_flags : Z; bd_fd : option Z; bd_mapoffset : Z; bd_maxsize : Z; bd_data : Z; bd_chunk : Z }.
Record Buf := mkBuf { buf_id : Z; buf_metas : list BufMeta; buf_datas : list BufData }.

Record BufferId := mkBufferId { bid_id : Z; bid_used : bool; bid_buf_ptr : Z; bid_buf : option Buf }.
Definition sizeof_BufferId : Z := 40.
Definition sizeof_MemId : Z := 32.
Definition sizeof_SpaChunk : Z := 12.

(** What the application is told. *)
Inductive signal :=
| destroy_signal | state_changed | format_changed (format : option bytes)
| add_buffer (id : Z) | remove_buffer (id : Z) | new_buffer (id : Z) | need_buffer.

(** What the application calls. The calls that only look at the stream are functions of
    its state: see the end of the operations. *)
Inductive api :=
| ApiConnect (direction mode : Z) (port_path : option bytes) (flags : Z) (possible_formats : list bytes)
| ApiFinishFormat (res : Z) (params : list bytes)
| ApiDisconnect
| ApiRecycle (id : Z)
| ApiSend (id : Z).

(** What goes to the server. *)
Inductive request :=
| CreateClientNode (name : bytes) (props : list (bytes * str)) (new_id : Z)
| NodeMethod (proxy : Z) (m : client_node_method).

(** [PinosStream] and [PinosStreamImpl]; [area] is the memory [trans] maps, and [wakeups]
    counts what was written to [rtwritefd]. A source is the mask it waits for. *)
Record PinosStream := mkStream {
  st_state : Z; st_properties : list (bytes * str); possible_formats : list bytes; st_format : option bytes;
  port_info : Interfaces.SpaPortInfo; direction : Z; port_id : Z; pending_seq : Z; mode : Z; rtreadfd : Z;
  rtwritefd : Z; rtsocket_source : option Z; timeout_source : bool; node_proxy : option Z; st_disconnecting : bool;
  trans : option PinosTransport; area : bytes; mem_array : PinosArray; mem_ids : list MemId;
  buffer_array : PinosArray; buffer_ids : list BufferId; in_order : bool; free : list nat; in_need_buffer : bool;
  last_ticks : Z; last_rate : Z; last_monotonic : Z; proc : process; sent : list request; emitted : list signal;
  wakeups : Z }.

Definition with_possible_formats (x : list bytes) (s : PinosStream) : PinosStream :=
  mkStream (st_state s) (st_properties s) x (st_format s) (port_info s) (direction s) (port_id s) (pending_seq s)
    (mode s) (rtreadfd s) (rtwritefd s) (rtsocket_source s) (timeout_source s) (node_proxy s) (st_disconnecting s)
    (trans s) (area s) (mem_array s) (mem_ids s) (buffer_array s) (buffer_ids s) (in_order s) (free s)
    (in_need_buffer s) (last_ticks s) (last_rate s) (last_monotonic s) (proc s) (sent s) (emitted s) (wakeups s).
Definition with_state (x : Z) (s : PinosStream) : PinosStream :=
  mkStream x (st_properties s) (possible_formats s) (st_format s) (port_info s) (direction s) (port_id s)
    (pending_seq s) (mode s) (rtreadfd s) (rtwritefd s) (rtsocket_source s) (timeout_source s) (node_proxy s)
    (st_disconnecting s) (trans s) (area s) (mem_array s) (mem_ids s) (buffer_array s) (buffer_ids s) (in_order s)
    (free s) (in_need_buffer s) (last_ticks s) (last_rate s) (last_monotonic s) (proc s) (sent s) (emitted s)
    (wakeups s).
Definition with_properties (x : list (bytes * str)) (s : PinosStream) : PinosStream :=
  mkStream (st_state s) x (possible_formats s) (st_format s) (port_info s) (direction s) (port_id s) (pending_seq s)
    (mode s) (rtreadfd s) (rtwritefd s) (rtsocket_source s) (timeout_source s) (node_proxy s) (st_disconnecting s)
    (trans s) (area s) (mem_array s) (mem_ids s) (buffer_array s) (buffer_ids s) (in_order s) (free s)
    (in_need_buffer s) (last_ticks s) (last_rate s) (last_monotonic s) (proc s) (sent s) (emitted s) (wakeups s).
Definition with_format (x : option bytes) (s : PinosStream) : PinosStream :=
  mkStream (st_state s) (st_properties s) (possible_formats s) x (port_info s) (direction s) (port_id s)
    (pending_seq s) (mode s) (rtreadfd s) (rtwritefd s) (rtsocket_source s) (timeout_source s) (node_proxy s)
    (st_disconnecting s) (trans s) (area s) (mem_array s) (mem_ids s) (buffer_array s) (buffer_ids s) (in_order s)
    (free s) (in_need_buffer s) (last_ticks s) (last_rate s) (last_monotonic s) (proc s) (sent s) (emitted s)
    (wakeups s).
Definition with_port_info (x : Interfaces.SpaPortInfo) (s : PinosStream) : PinosStream :=
  mkStream (st_state s) (st_properties s) (possible_formats s) (st_format s) x (direction s) (port_id s)
    (pending_seq s) (mode s) (rtreadfd s) (rtwritefd s) (rtsocket_source s) (timeout_source s) (node_proxy s)
    (st_disconnecting s) (trans s) (area s) (mem_array s) (mem_ids s) (buffer_array s) (buffer_ids s) (in_order s)
    (free s) (in_need_buffer s) (last_ticks s) (last_rate s) (last_monotonic s) (proc s) (sent s) (emitted s)
    (wakeups s).
Definition with_target (x : Z) (y : Z) (z : Z) (s : PinosStream) : PinosStream :=
  mkStream (st_state s) (st_properties s) (possible_formats s) (st_format s) (port_info s) x y (pending_seq s) z
    (rtreadfd s) (rtwritefd s) (rtsocket_source s) (timeout_source s) (node_proxy s) (st_disconnecting s) (trans s)
    (area s) (mem_array s) (mem_ids s) (buffer_array s) (buffer_ids s) (in_order s) (free s) (in_need_buffer s)
    (last_ticks s) (last_rate s) (last_monotonic s) (proc s) (sent s) (emitted s) (wakeups s).
Definition with_pending_seq (x : Z) (s : PinosStream) : PinosStream :=
  mkStream (st_state s) (st_properties s) (possible_formats s) (st_format s) (port_info s) (direction s) (port_id s) x
    (mode s) (rtreadfd s) (rtwritefd s) (rtsocket_source s) (timeout_source s) (node_proxy s) (st_disconnecting s)
    (trans s) (area s) (mem_array s) (mem_ids s) (buffer_array s) (buffer_ids s) (in_order s) (free s)
    (in_need_buffer s) (last_ticks s) (last_rate s) (last_monotonic s) (proc s) (sent s) (emitted s) (wakeups s).
Definition with_fds (x : Z) (y : Z) (s : PinosStream) : PinosStream :=
  mkStream (st_state s) (st_properties s) (possible_formats s) (st_format s) (port_info s) (direction s) (port_id s)
    (pending_seq s) (mode s) x y (rtsocket_source s) (timeout_source s) (node_proxy s) (st_disconnecting s) (trans s)
    (area s) (mem_array s) (mem_ids s) (buffer_array s) (buffer_ids s) (in_order s) (free s) (in_need_buffer s)
    (last_ticks s) (last_rate s) (last_monotonic s) (proc s) (sent s) (emitted s) (wakeups s).
Definition with_rtsocket_source (x : option Z) (s : PinosStream) : PinosStream :=
  mkStream (st_state s) (st_properties s) (possible_formats s) (st_format s) (port_info s) (direction s) (port_id s)
    (pending_seq s) (mode s) (rtreadfd s) (rtwritefd s) x (timeout_source s) (node_proxy s) (st_disconnecting s)
    (trans s) (area s) (mem_array s) (mem_ids s) (buffer_array s) (buffer_ids s) (in_order s) (free s)
    (in_need_buffer s) (last_ticks s) (last_rate s) (last_monotonic s) (proc s) (sent s) (emitted s) (wakeups s).
Definition with_timeout_source (x : bool) (s : PinosStream) : PinosStream :=
  mkStream (st_state s) (st_properties s) (possible_formats s) (st_format s) (port_info s) (direction s) (port_id s)
    (pending_seq s) (mode s) (rtreadfd s) (rtwritefd s) (rtsocket_source s) x (node_proxy s) (st_disconnecting s)
    (trans s) (area s) (mem_array s) (mem_ids s) (buffer_array s) (buffer_ids s) (in_order s) (free s)
    (in_need_buffer s) (last_ticks s) (last_rate s) (last_monotonic s) (proc s) (sent s) (emitted s) (wakeups s).
Definition with_node_proxy (x : option Z) (s : PinosStream) : PinosStream :=
  mkStream (st_state s) (st_properties s) (possible_formats s) (st_format s) (port_info s) (direction s) (port_id s)
    (pending_seq s) (mode s) (rtreadfd s) (rtwritefd s) (rtsocket_source s) (timeout_source s) x (st_disconnecting s)
    (trans s) (area s) (mem_array s) (mem_ids s) (buffer_array s) (buffer_ids s) (in_order s) (free s)
    (in_need_buffer s) (last_ticks s) (last_rate s) (last_monotonic s) (proc s) (sent s) (emitted s) (wakeups s).
Definition with_disconnecting (x : bool) (s : PinosStream) : PinosStream :=
  mkStream (st_state s) (st_properties s) (possible_formats s) (st_format s) (port_info s) (direction s) (port_id s)
    (pending_seq s) (mode s) (rtreadfd s) (rtwritefd s) (rtsocket_source s) (timeout_source s) (node_proxy s) x
    (trans s) (area s) (mem_array s) (mem_ids s) (buffer_array s) (buffer_ids s) (in_order s) (free s)
    (in_need_buffer s) (last_ticks s) (last_rate s) (last_monotonic s) (proc s) (sent s) (emitted s) (wakeups s).
Definition with_trans (x : option PinosTransport) (s : PinosStream) : PinosStream :=
  mkStream (st_state s) (st_properties s) (possible_formats s) (st_format s) (port_info s) (direction s) (port_id s)
    (pending_seq s) (mode s) (rtreadfd s) (rtwritefd s) (rtsocket_source s) (timeout_source s) (node_proxy s)
    (st_disconnecting s) x (area s) (mem_array s) (mem_ids s) (buffer_array s) (buffer_ids s) (in_order s) (free s)
    (in_need_buffer s) (last_ticks s) (last_rate s) (last_monotonic s) (proc s) (sent s) (emitted s) (wakeups s).
Definition with_area (x : bytes) (s : PinosStream) : PinosStream :=
  mkStream (st_state s) (st_properties s) (possible_formats s) (st_format s) (port_info s) (direction s) (port_id s)
    (pending_seq s) (mode s) (rtreadfd s) (rtwritefd s) (rtsocket_source s) (timeout_source s) (node_proxy s)
    (st_disconnecting s) (trans s) x (mem_array s) (mem_ids s) (buffer_array s) (buffer_ids s) (in_order s) (free s)
    (in_need_buffer s) (last_ticks s) (last_rate s) (last_monotonic s) (proc s) (sent s) (emitted s) (wakeups s).
Definition with_mems (x : PinosArray) (y : list MemId) (s : PinosStream) : PinosStream :=
  mkStream (st_state s) (st_properties s) (possible_formats s) (st_format s) (port_info s) (direction s) (port_id s)
    (pending_seq s) (mode s) (rtreadfd s) (rtwritefd s) (rtsocket_source s) (timeout_source s) (node_proxy s)
    (st_disconnecting s) (trans s) (area s) x y (buffer_array s) (buffer_ids s) (in_order s) (free s)
    (in_need_buffer s) (last_ticks s) (last_rate s) (last_monotonic s) (proc s) (sent s) (emitted s) (wakeups s).
Definition with_buffers (x : PinosArray) (y : list BufferId) (s : PinosStream) : PinosStream :=
  mkStream (st_state s) (st_properties s) (possible_formats s) (st_format s) (port_info s) (direction s) (port_id s)
    (pending_seq s) (mode s) (rtreadfd s) (rtwritefd s) (rtsocket_source s) (timeout_source s) (node_proxy s)
    (st_disconnecting s) (trans s) (area s) (mem_array s) (mem_ids s) x y (in_order s) (free s) (in_need_buffer s)
    (last_ticks s) (last_rate s) (last_monotonic s) (proc s) (sent s) (emitted s) (wakeups s).
Definition with_in_order (x : bool) (s : PinosStream) : PinosStream :=
  mkStream (st_state s) (st_properties s) (possible_formats s) (st_format s) (port_info s) (direction s) (port_id s)
    (pending_seq s) (mode s) (rtreadfd s) (rtwritefd s) (rtsocket_source s) (timeout_source s) (node_proxy s)
    (st_disconnecting s) (trans s) (area s) (mem_array s) (mem_ids s) (buffer_array s) (buffer_ids s) x (free s)
    (in_need_buffer s) (last_ticks s) (last_rate s) (last_monotonic s) (proc s) (sent s) (emitted s) (wakeups s).
Definition with_free (x : list nat) (s : PinosStream) : PinosStream :=
  mkStream (st_state s) (st_properties s) (possible_formats s) (st_format s) (port_info s) (direction s) (port_id s)
    (pending_seq s) (mode s) (rtreadfd s) (rtwritefd s) (rtsocket_source s) (timeout_source s) (node_proxy s)
    (st_disconnecting s) (trans s) (area s) (mem_array s) (mem_ids s) (buffer_array s) (buffer_ids s) (in_order s) x
    (in_need_buffer s) (last_ticks s) (last_rate s) (last_monotonic s) (proc s) (sent s) (emitted s) (wakeups s).
Definition with_in_need_buffer (x : bool) (s : PinosStream) : PinosStream :=
  mkStream (st_state s) (st_properties s) (possible_formats s) (st_format s) (port_info s) (direction s) (port_id s)
    (pending_seq s) (mode s) (rtreadfd s) (rtwritefd s) (rtsocket_source s) (timeout_source s) (node_proxy s)
    (st_disconnecting s) (trans s) (area s) (mem_array s) (mem_ids s) (buffer_array s) (buffer_ids s) (in_order s)
    (free s) x (last_ticks s) (last_rate s) (last_monotonic s) (proc s) (sent s) (emitted s) (wakeups s).
Definition with_clock (x : Z) (y : Z) (z : Z) (s : PinosStream) : PinosStream :=
  mkStream (st_state s) (st_properties s) (possible_formats s) (st_format s) (port_info s) (direction s) (port_id s)
    (pending_seq s) (mode s) (rtreadfd s) (rtwritefd s) (rtsocket_source s) (timeout_source s) (node_proxy s)
    (st_disconnecting s) (trans s) (area s) (mem_array s) (mem_ids s) (buffer_array s) (buffer_ids s) (in_order s)
    (free s) (in_need_buffer s) x y z (proc s) (sent s) (emitted s) (wakeups s).
Definition with_proc (x : process) (s : PinosStream) : PinosStream :=
  mkStream (st_state s) (st_properties s) (possible_formats s) (st_format s) (port_info s) (direction s) (port_id s)
    (pending_seq s) (mode s) (rtreadfd s) (rtwritefd s) (rtsocket_source s) (timeout_source s) (node_proxy s)
    (st_disconnecting s) (trans s) (area s) (mem_array s) (mem_ids s) (buffer_array s) (buffer_ids s) (in_order s)
    (free s) (in_need_buffer s) (last_ticks s) (last_rate s) (last_monotonic s) x (sent s) (emitted s) (wakeups s).
Definition with_sent (x : list request) (s : PinosStream) : PinosStream :=
  mkStream (st_state s) (st_properties s) (possible_formats s) (st_format s) (port_info s) (direction s) (port_id s)
    (pending_seq s) (mode s) (rtreadfd s) (rtwritefd s) (rtsocket_source s) (timeout_source s) (node_proxy s)
    (st_disconnecting s) (trans s) (area s) (mem_array s) (mem_ids s) (buffer_array s) (buffer_ids s) (in_order s)
    (free s) (in_need_buffer s) (last_ticks s) (last_rate s) (last_monotonic s) (proc s) x (emitted s) (wakeups s).
Definition with_emitted (x : list signal) (s : PinosStream) : PinosStream :=
  mkStream (st_state s) (st_properties s) (possible_formats s) (st_format s) (port_info s) (direction s) (port_id s)
    (pending_seq s) (mode s) (rtreadfd s) (rtwritefd s) (rtsocket_source s) (timeout_source s) (node_proxy s)
    (st_disconnecting s) (trans s) (area s) (mem_array s) (mem_ids s) (buffer_array s) (buffer_ids s) (in_order s)
    (free s) (in_need_buffer s) (last_ticks s) (last_rate s) (last_monotonic s) (proc s) (sent s) x (wakeups s).
Definition with_wakeups (x : Z) (s : PinosStream) : PinosStream :=
  mkStream (st_state s) (st_properties s) (possible_formats s) (st_format s) (port_info s) (direction s) (port_id s)
    (pending_seq s) (mode s) (rtreadfd s) (rtwritefd s) (rtsocket_source s) (timeout_source s) (node_proxy s)
    (st_disconnecting s) (trans s) (area s) (mem_array s) (mem_ids s) (buffer_array s) (buffer_ids s) (in_order s)
    (free s) (in_need_buffer s) (last_ticks s) (last_rate s) (last_monotonic s) (proc s) (sent s) (emitted s) x.

Abbreviation Stream := (ST PinosStream).

Section Ops.
Context `{PinosType} `{Kernel} `{Heap}.
(** Whether memory is granted, whether a block moves when it grows, and the id of a new
    proxy, if there is one ([pinos_proxy_new], component Context). *)
Context (realloc_ok realloc_moves : Z -> bool) (new_proxy : list request -> option Z).
Context (emit : signal -> Stream unit).

(** ** Memory *)

Definition clear_memid (mid : MemId) : Stream unit :=
  when (negb (mid_ptr mid =? 0)) (modify (fun s => with_proc (sys_munmap (mid_ptr mid) (u32 (mid_size mid + mid_offset mid)) (proc s)) s)) ;;;
  modify (fun s => with_proc (sys_close (mid_fd mid) (proc s)) s).

Definition empty_array (arr : PinosArray) : PinosArray := mkArray 0 (alloc arr) (extend arr).

Definition clear_mems : Stream unit :=
  mems <- gets mem_ids ;;
  each mems clear_memid ;;;
  modify (fun s => with_mems (empty_array (mem_array s)) [] s).

Definition cleared (bid : BufferId) : BufferId := mkBufferId (bid_id bid) false (bid_buf_ptr bid) None.

(** From the buffer at position [i] on, with [n] to go; the application may empty the array. *)
Fixpoint clear_from (n i : nat) : Stream unit :=
  match n with
  | O => ret tt
  | S n =>
      bid <- gets (fun s => buffer_ids s !! i) ;;
      match bid with
      | None => ret tt
      | Some bid =>
          emit (remove_buffer (bid_id bid)) ;;;
          modify (fun s => with_buffers (buffer_array s) (alter cleared i (buffer_ids s)) s) ;;;
          clear_from n (S i)
      end
  end.

Definition clear_buffers : Stream unit :=
  n <- gets (fun s => length (buffer_ids s)) ;;
  clear_from n 0 ;;;
  modify (fun s => with_buffers (empty_array (buffer_array s)) [] s) ;;;
  modify (with_in_order true) ;;;
  modify (with_free []).

Definition stream_set_state (state : Z) : Stream unit :=
  old <- gets st_state ;;
  when (negb (old =? state)) (modify (with_state state) ;;; emit state_changed).

(** ** The loop *)

(** Destroying the source closes the descriptor it was made for. *)
Definition unhandle_socket : Stream unit :=
  source <- gets rtsocket_source ;;
  (match source with
   | Some _ => modify (fun s => with_proc (sys_close (rtreadfd s) (proc s)) s) ;;; modify (with_rtsocket_source None)
   | None => ret tt
   end) ;;;
  modify (with_timeout_source false).

Definition handle_socket (readfd writefd : Z) : Stream unit :=
  modify (with_fds readfd writefd) ;;;
  modify (with_rtsocket_source (Some (Z.lor SPA_IO_ERR SPA_IO_HUP))) ;;;
  modify (with_timeout_source true).

(** [pinos_loop_update_io]: of a source that is gone it is undefined. *)
Definition update_rtsocket (mask : Z) : Stream unit :=
  source <- gets rtsocket_source ;;
  match source with Some _ => modify (with_rtsocket_source (Some mask)) | None => undef end.

(** ** What is sent *)

(** A method of the proxy; there is none of [NULL]. *)
Definition do_method (m : client_node_method) : Stream unit :=
  proxy <- gets node_proxy ;;
  match proxy with Some p => modify (fun s => with_sent (sent s ++ [NodeMethod p m]) s) | None => undef end.

Definition add_node_update (change_mask : Z) : Stream unit :=
  dir <- gets direction ;;
  let max_input_ports := if has change_mask PINOS_MESSAGE_NODE_UPDATE_MAX_INPUTS then (if dir =? SPA_DIRECTION_INPUT then 1 else 0) else 0 in
  let max_output_ports := if has change_mask PINOS_MESSAGE_NODE_UPDATE_MAX_OUTPUTS then (if dir =? SPA_DIRECTION_OUTPUT then 1 else 0) else 0 in
  do_method (CnUpdate change_mask max_input_ports max_output_ports None).

Definition add_port_update (change_mask : Z) : Stream unit :=
  s <- gets id ;;
  do_method (CnPortUpdate (direction s) (port_id s) change_mask (possible_formats s) (st_format s) None (Some (port_info s))).

(** The calls on the transport; its event is dropped when there is no room. *)
Definition get_trans : Stream PinosTransport := t <- gets trans ;; lift (of_option t).
Definition add_event (event : bytes) : Stream unit :=
  t <- get_trans ;;
  m <- gets area ;;
  '(_, m) <- lift (pinos_transport_add_event t event m) ;;
  modify (with_area m).
Definition wake_up : Stream unit := modify (fun s => with_wakeups (wakeups s + 1) s).

(** Its body is compiled out. *)
Definition send_need_input : Stream unit := ret tt.
Definition send_have_output : Stream unit := add_event (SPA_EVENT_INIT HaveOutput) ;;; wake_up.

Definition add_request_clock_update : Stream unit :=
  do_method (CnEvent (request_clock_update_event SPA_EVENT_NODE_REQUEST_CLOCK_UPDATE_TIME 0 0)).
Definition add_async_complete (seq res : Z) : Stream unit := do_method (CnEvent (async_complete_event seq res)).

Definition with_info_flags (flags : Z) (i : Interfaces.SpaPortInfo) : Interfaces.SpaPortInfo :=
  mkPortInfo flags (pi_rate i) (pi_maxbuffering i) (pi_latency i) (pi_params i) (pi_extra i).
Definition with_info_params (params : list bytes) (i : Interfaces.SpaPortInfo) : Interfaces.SpaPortInfo :=
  mkPortInfo (pi_flags i) (pi_rate i) (pi_maxbuffering i) (pi_latency i) params (pi_extra i).

Definition do_node_init : Stream unit :=
  add_node_update (Z.lor PINOS_MESSAGE_NODE_UPDATE_MAX_INPUTS PINOS_MESSAGE_NODE_UPDATE_MAX_OUTPUTS) ;;;
  modify (fun s => with_port_info (with_info_flags SPA_PORT_INFO_FLAG_CAN_USE_BUFFERS (port_info s)) s) ;;;
  add_port_update (Z.lor PINOS_MESSAGE_PORT_UPDATE_POSSIBLE_FORMATS PINOS_MESSAGE_PORT_UPDATE_INFO) ;;;
  add_async_complete 0 SPA_RESULT_OK.

Definition on_timeout : Stream unit := add_request_clock_update.

(** ** Buffers *)

(** Positions in the arrays. *)
Definition find_mem (id : Z) (s : PinosStream) : option nat := index_of (fun mid => mid_id mid =? id) (mem_ids s).
Definition find_buffer (id : Z) (s : PinosStream) : option nat :=
  if in_order s && (id <? pinos_array_get_len (buffer_array s) sizeof_BufferId) then Some (Z.to_nat id)
  else index_of (fun bid => bid_id bid =? id) (buffer_ids s).
Definition bid_at (i : nat) : Stream BufferId := bid <- gets (fun s => buffer_ids s !! i) ;; lift (of_option bid).

(** [spa_list_insert] before the head, and [spa_list_remove]. *)
Definition link_free (i : nat) : Stream unit :=
  l <- gets free ;;
  if bool_decide (i ∈ l) then undef else modify (with_free (l ++ [i])).
Definition unlink_free (i : nat) : Stream unit :=
  l <- gets free ;;
  if bool_decide (i ∈ l) then modify (with_free (filter (fun j => j <> i) l)) else undef.

Definition set_used (used : bool) (i : nat) (s : PinosStream) : PinosStream :=
  with_buffers (buffer_array s) (alter (fun b => mkBufferId (bid_id b) used (bid_buf_ptr b) (bid_buf b)) i (buffer_ids s)) s.

Definition reuse_buffer (id : Z) : Stream unit :=
  i <- gets (find_buffer id) ;;
  match i with
  | Some i =>
      bid <- bid_at i ;;
      when (bid_used bid) (modify (set_used false i) ;;; link_free i ;;; emit (new_buffer id))
  | None => ret tt
  end.

(** ** Events of the data path *)

(** The loops over the ports, from port [i] on with [n] to go: the count, which is read
    from the shared memory, does not change while the loop runs. *)
Fixpoint take_inputs (n : nat) (i : Z) : Stream unit :=
  match n with
  | O => ret tt
  | S n =>
      t <- get_trans ;;
      m <- gets area ;;
      b <- lift (get_io_buffer_id (input_io t i) m) ;;
      (if b =? SPA_ID_INVALID then ret tt
       else
         emit (new_buffer b) ;;;
         m <- gets area ;;
         m <- lift (set_io_buffer_id (input_io t i) SPA_ID_INVALID m) ;;
         modify (with_area m)) ;;;
      take_inputs n (i + 1)
  end.

Fixpoint reuse_outputs (n : nat) (i : Z) : Stream unit :=
  match n with
  | O => ret tt
  | S n =>
      t <- get_trans ;;
      m <- gets area ;;
      b <- lift (get_io_buffer_id (output_io t i) m) ;;
      (if b =? SPA_ID_INVALID then ret tt
       else
         reuse_buffer b ;;;
         m <- gets area ;;
         m <- lift (set_io_buffer_id (output_io t i) SPA_ID_INVALID m) ;;
         modify (with_area m)) ;;;
      reuse_outputs n (i + 1)
  end.

Definition ask_buffer : Stream unit :=
  modify (with_in_need_buffer true) ;;;
  emit need_buffer ;;;
  modify (with_in_need_buffer false).

Definition handle_rtnode_event (event : bytes) : Stream unit :=
  type <- lift (SPA_EVENT_TYPE event) ;;
  if type =? HaveOutput then
    m <- gets area ;;
    n <- lift (area_n_inputs m) ;;
    take_inputs (Z.to_nat n) 0 ;;;
    send_need_input
  else if type =? NeedInput then
    m <- gets area ;;
    n <- lift (area_n_outputs m) ;;
    reuse_outputs (Z.to_nat n) 0 ;;;
    ask_buffer
  else if type =? ReuseBuffer then
    p <- lift (int_at 16 event) ;;
    s <- gets id ;;
    if negb (u32 p =? port_id s) then ret tt
    else if negb (direction s =? SPA_DIRECTION_OUTPUT) then ret tt
    else b <- lift (int_at 32 event) ;; reuse_buffer (u32 b)
  else ret tt.

(** The loop over the events, with fuel: every event takes some of the 4096 bytes. *)
Fixpoint dispatch_events (fuel : nat) : Stream unit :=
  match fuel with
  | O => undef
  | S fuel =>
      t <- get_trans ;;
      m <- gets area ;;
      '(res, t, _) <- lift (pinos_transport_next_event t m) ;;
      modify (with_trans (Some t)) ;;;
      if negb (res =? SPA_RESULT_OK) then ret tt
      else
        '(_, ev, m) <- lift (pinos_transport_parse_event t m) ;;
        modify (with_area m) ;;;
        handle_rtnode_event ev ;;;
        dispatch_events fuel
  end.

Definition event_fuel : nat := 513.

Definition on_rtsocket_condition (mask : Z) : Stream unit :=
  if has mask (Z.lor SPA_IO_ERR SPA_IO_HUP) then unhandle_socket
  else when (has mask SPA_IO_IN) (dispatch_events event_fuel).

(** ** Events of the server *)

(** ["%"PRId64] *)
Definition print_int64 (v : Z) : bytes := text (pretty v).

Definition handle_node_command (seq : Z) (command : bytes) : Stream unit :=
  type <- lift (SPA_EVENT_TYPE command) ;;
  if type =? Pause then
    add_async_complete seq SPA_RESULT_OK ;;;
    state <- gets st_state ;;
    when (state =? PINOS_STREAM_STATE_STREAMING)
      (update_rtsocket (Z.lor SPA_IO_ERR SPA_IO_HUP) ;;; stream_set_state PINOS_STREAM_STATE_PAUSED)
  else if type =? Start then
    add_async_complete seq SPA_RESULT_OK ;;;
    state <- gets st_state ;;
    when (state =? PINOS_STREAM_STATE_PAUSED)
      (update_rtsocket (Z.lor (Z.lor SPA_IO_IN SPA_IO_ERR) SPA_IO_HUP) ;;;
       dir <- gets direction ;;
       (if dir =? SPA_DIRECTION_INPUT then send_need_input else ask_buffer) ;;;
       stream_set_state PINOS_STREAM_STATE_STREAMING)
  else if type =? ClockUpdate then
    flags <- lift (int_at 128 command) ;;
    (if has flags SPA_COMMAND_NODE_CLOCK_UPDATE_FLAG_LIVE then
       latency <- lift (long_at 144 command) ;;
       modify (fun s => with_properties (set_property (st_properties s) (text "pinos.latency.is-live") (Some (text "1"))) s) ;;;
       modify (fun s => with_properties (set_property (st_properties s) (text "pinos.latency.min") (Some (print_int64 latency))) s)
     else ret tt) ;;;
    ticks <- lift (long_at 48 command) ;;
    rate <- lift (int_at 32 command) ;;
    monotonic <- lift (long_at 64 command) ;;
    modify (with_clock ticks rate monotonic)
  else add_async_complete seq SPA_RESULT_NOT_IMPLEMENTED.

Definition client_node_done (readfd writefd : Z) : Stream unit :=
  handle_socket readfd writefd ;;;
  do_node_init ;;;
  stream_set_state PINOS_STREAM_STATE_CONFIGURE.

Definition client_node_set_format (seq : Z) (format : option bytes) : Stream unit :=
  copy <- lift (pinos_spa_pod_copy format) ;;
  modify (with_format copy) ;;;
  modify (with_pending_seq seq) ;;;
  emit (format_changed copy) ;;;
  stream_set_state (if format then PINOS_STREAM_STATE_READY else PINOS_STREAM_STATE_CONFIGURE).

Definition client_node_add_mem (mem_id memfd flags offset size : Z) : Stream unit :=
  let m := mkMemId mem_id memfd flags 0 offset size in
  k <- gets (find_mem mem_id) ;;
  match k with
  | Some k =>
      old <- gets (fun s => mem_ids s !! k) ;;
      old <- lift (of_option old) ;;
      clear_memid old ;;;
      modify (fun s => with_mems (mem_array s) (<[k := m]> (mem_ids s)) s)
  | None =>
      arr <- gets mem_array ;;
      '(p, arr) <- lift (of_option (pinos_array_add realloc_ok arr sizeof_MemId)) ;;
      match p with
      | Some _ => modify (fun s => with_mems arr (mem_ids s ++ [m]) s)
      | None => undef
      end
  end.

(** Mapping a memory the first time it is used: its address, 0 when that fails. *)
Definition map_mem (k : nat) : Stream Z :=
  mid <- gets (fun s => mem_ids s !! k) ;;
  mid <- lift (of_option mid) ;;
  if negb (mid_ptr mid =? 0) then ret (mid_ptr mid)
  else
    proc <- gets proc ;;
    let '(p, proc) := sys_mmap (u32 (mid_size mid + mid_offset mid)) proc in
    modify (with_proc proc) ;;;
    let ptr := if p =? MAP_FAILED then 0 else p + mid_offset mid in
    modify (fun s => with_mems (mem_array s)
      (<[k := mkMemId (mid_id mid) (mid_fd mid) (mid_flags mid) ptr (mid_offset mid) (mid_size mid)]> (mem_ids s)) s) ;;;
    ret ptr.

(** A new element of the array. The nodes of the free list are in the array: where the
    block moves while there are some, the list is lost. *)
Definition new_bid : Stream nat :=
  s <- gets id ;;
  '(p, arr) <- lift (of_option (pinos_array_add realloc_ok (buffer_array s) sizeof_BufferId)) ;;
  match p with
  | Some off =>
      if negb (alloc arr =? alloc (buffer_array s)) && realloc_moves (alloc arr) && negb (bool_decide (free s = [])) then undef
      else modify (with_buffers arr (buffer_ids s)) ;;; ret (Z.to_nat (off / sizeof_BufferId))
  | None => undef
  end.

(** The metadata lie behind each other from [offset] on; the end of the last. *)
Fixpoint place_metas (buf_ptr offset : Z) (metas : list SpaMeta) : list BufMeta * Z :=
  match metas with
  | [] => ([], offset)
  | m :: metas =>
      let '(l, e) := place_metas buf_ptr (offset + meta_size m) metas in
      (mkBufMeta (meta_type m) (meta_size m) (buf_ptr + offset) :: l, e)
  end.

Fixpoint place_datas (s : PinosStream) (buf_ptr offset j : Z) (datas : list SpaData) : outcome (list BufData) :=
  match datas with
  | [] => Done []
  | d :: datas =>
      let chunk := buf_ptr + (offset + sizeof_SpaChunk * j) in
      let* d :=
        if data_type d =? data_Id then
          let* k := of_option (find_mem (u32 (data_data d)) s) in
          let* bmid := of_option (mem_ids s !! k) in
          Done (mkBufData data_MemFd (data_flags d) (Some (mid_fd bmid)) (data_mapoffset d) (data_maxsize d) 0 chunk)
        else if data_type d =? data_MemPtr then
          Done (mkBufData (data_type d) (data_flags d) (Some (-1)) (data_mapoffset d) (data_maxsize d) (buf_ptr + i32 (data_data d)) chunk)
        else Done (mkBufData (data_type d) (data_flags d) None (data_mapoffset d) (data_maxsize d) (data_data d) chunk) in
      let* l := place_datas s buf_ptr offset (j + 1) datas in
      Done (d :: l)
  end.

Definition use_buffer (buf : PinosClientNodeBuffer) : Stream unit :=
  k <- gets (find_mem (nb_mem_id buf)) ;;
  match k with
  | None => ret tt
  | Some k =>
      ptr <- map_mem k ;;
      if ptr =? 0 then ret tt else
      i <- new_bid ;;
      dir <- gets direction ;;
      let used := negb (dir =? SPA_DIRECTION_OUTPUT) in
      let buf_ptr := ptr + nb_offset buf in
      let bid := nb_buffer_id buf in
      let '(metas, offset) := place_metas buf_ptr 0 (nb_metas buf) in
      s <- gets id ;;
      datas <- lift (place_datas s buf_ptr offset 0 (nb_datas buf)) ;;
      modify (fun s => with_buffers (buffer_array s) (buffer_ids s ++ [mkBufferId bid used buf_ptr (Some (mkBuf bid metas datas))]) s) ;;;
      when (negb used) (link_free i) ;;;
      when (negb (bid =? Z.of_nat i)) (modify (with_in_order false)) ;;;
      emit (add_buffer bid)
  end.

Definition client_node_use_buffers (seq : Z) (buffers : list PinosClientNodeBuffer) : Stream unit :=
  clear_buffers ;;;
  each buffers use_buffer ;;;
  add_async_complete seq SPA_RESULT_OK ;;;
  if negb (zlen buffers =? 0) then stream_set_state PINOS_STREAM_STATE_PAUSED
  else clear_mems ;;; stream_set_state PINOS_STREAM_STATE_READY.

(** [file]: what the descriptor refers to. *)
Definition client_node_transport (memfd offset size : Z) (file : bytes) : Stream unit :=
  if memfd =? -1 then ret tt
  else
    old <- gets trans ;;
    (match old with
     | Some t =>
         proc <- gets proc ;;
         proc <- lift (pinos_transport_destroy t proc) ;;
         modify (with_proc proc)
     | None => ret tt
     end) ;;;
    proc <- gets proc ;;
    '(t, proc) <- lift (pinos_transport_new_from_info (mkInfo memfd offset size) file proc) ;;
    modify (with_proc proc) ;;;
    modify (with_trans t) ;;;
    modify (with_area (take (Z.to_nat size) file)).

(** The events of the interface, [client_node_events]. *)
Definition handle_client_node_event (e : client_node_event) (file : bytes) : Stream unit :=
  match e with
  | CnDone readfd writefd => client_node_done readfd writefd
  | CnEvEvent _ => ret tt
  | CnAddPort _ _ _ => ret tt
  | CnRemovePort _ _ _ => ret tt
  | CnSetFormat seq _ _ _ format => client_node_set_format seq format
  | CnSetProperty _ _ _ => ret tt
  | CnAddMem _ _ mem_id _ memfd flags offset size => client_node_add_mem mem_id memfd flags offset size
  | CnUseBuffers seq _ _ buffers => client_node_use_buffers seq buffers
  | CnNodeCommand seq command => handle_node_command seq command
  | CnPortCommand _ _ => ret tt
  | CnTransport memfd offset size => client_node_transport memfd offset size file
  end.

Definition on_node_proxy_destroy : Stream unit :=
  modify (with_disconnecting false) ;;;
  modify (with_node_proxy None) ;;;
  stream_set_state PINOS_STREAM_STATE_UNCONNECTED.

(** ** Calls of the application *)

Definition pinos_stream_connect (dir mode : Z) (port_path : option bytes) (flags : Z) (formats : list bytes) : Stream bool :=
  modify (with_target (if dir =? SPA_DIRECTION_INPUT then SPA_DIRECTION_INPUT else SPA_DIRECTION_OUTPUT) 0 mode) ;;;
  copies <- lift (copy_pods formats) ;;
  modify (with_possible_formats copies) ;;;
  stream_set_state PINOS_STREAM_STATE_CONNECTING ;;;
  (match port_path with
   | Some path => modify (fun s => with_properties (set_property (st_properties s) (text "pinos.target.node") (Some path)) s)
   | None => ret tt
   end) ;;;
  when (has flags PINOS_STREAM_FLAG_AUTOCONNECT)
    (modify (fun s => with_properties (set_property (st_properties s) (text "pinos.autoconnect") (Some (text "1"))) s)) ;;;
  proxy <- gets (fun s => new_proxy (sent s)) ;;
  modify (with_node_proxy proxy) ;;;
  match proxy with
  | None => ret false
  | Some p =>
      modify (fun s => with_sent (sent s ++ [CreateClientNode (text "client-node") (st_properties s) p]) s) ;;;
      ret true
  end.

Definition pinos_stream_finish_format (res : Z) (params : list bytes) : Stream bool :=
  modify (fun s => with_port_info (with_info_params params (port_info s)) s) ;;;
  when (SPA_RESULT_IS_OK res)
    (add_port_update (Z.lor (if negb (zlen params =? 0) then PINOS_MESSAGE_PORT_UPDATE_INFO else 0) PINOS_MESSAGE_PORT_UPDATE_FORMAT) ;;;
     format <- gets st_format ;;
     when (negb (bool_decide (is_Some format))) (clear_buffers ;;; clear_mems)) ;;;
  modify (fun s => with_port_info (with_info_params [] (port_info s)) s) ;;;
  seq <- gets pending_seq ;;
  add_async_complete seq res ;;;
  modify (with_pending_seq SPA_ID_INVALID) ;;;
  ret true.

Definition pinos_stream_disconnect : Stream bool :=
  modify (with_disconnecting true) ;;;
  unhandle_socket ;;;
  do_method CnDestroy ;;;
  ret true.

Definition pinos_stream_recycle_buffer (id : Z) : Stream bool :=
  port_id <- gets port_id ;;
  let rb := reuse_buffer_event port_id id in
  i <- gets (find_buffer id) ;;
  match i with
  | None => ret false
  | Some i =>
      bid <- bid_at i ;;
      if negb (bid_used bid) then ret false
      else
        modify (set_used false i) ;;;
        link_free i ;;;
        add_event rb ;;;
        wake_up ;;;
        ret true
  end.

Definition pinos_stream_send_buffer (id : Z) : Stream bool :=
  t <- get_trans ;;
  m <- gets area ;;
  pending <- lift (get_io_buffer_id (output_io t 0) m) ;;
  if negb (pending =? SPA_ID_INVALID) then ret false
  else
    i <- gets (find_buffer id) ;;
    (match i with
     | Some i =>
         bid <- bid_at i ;;
         when (negb (bid_used bid))
           (modify (set_used true i) ;;;
            unlink_free i ;;;
            m <- lift (set_io_buffer_id (output_io t 0) id m) ;;
            m <- lift (set_io_status (output_io t 0) (u32 SPA_RESULT_HAVE_BUFFER) m) ;;
            modify (with_area m) ;;;
            asked <- gets in_need_buffer ;;
            when (negb asked) send_have_output)
     | None => ret tt
     end) ;;;
    ret true.

(** Calls that only look. *)
Definition pinos_stream_get_empty_buffer (s : PinosStream) : outcome Z :=
  match free s with
  | [] => Done SPA_ID_INVALID
  | i :: _ => let* bid := of_option (buffer_ids s !! i) in Done (bid_id bid)
  end.

Definition pinos_stream_peek_buffer (id : Z) (s : PinosStream) : option Buf :=
  i ← find_buffer id s; bid ← buffer_ids s !! i; bid_buf bid.

(** [now] is what the clock shows; (now, ticks, rate), signed overflow is undefined. *)
Definition SPA_USEC_PER_SEC : Z := 1000000.
Definition int64 (v : Z) : outcome Z := if (- 2 ^ 63 <=? v) && (v <? 2 ^ 63) then Done v else Undef.
Definition pinos_stream_get_time (now : Z) (s : PinosStream) : outcome (Z * Z * Z) :=
  let* d := int64 (now - last_monotonic s) in
  let elapsed := Z.quot d 1000 in
  let* scaled := int64 (elapsed * last_rate s) in
  let* ticks := int64 (last_ticks s + Z.quot scaled SPA_USEC_PER_SEC) in
  Done (now, ticks, last_rate s).

Definition api_call (c : api) : Stream unit :=
  match c with
  | ApiConnect dir mode port_path flags formats => pinos_stream_connect dir mode port_path flags formats ;;; ret tt
  | ApiFinishFormat res params => pinos_stream_finish_format res params ;;; ret tt
  | ApiDisconnect => pinos_stream_disconnect ;;; ret tt
  | ApiRecycle id => pinos_stream_recycle_buffer id ;;; ret tt
  | ApiSend id => pinos_stream_send_buffer id ;;; ret tt
  end.

(** What is left of the stream is freed: the process remains. *)
Definition pinos_stream_destroy : Stream unit :=
  emit destroy_signal ;;;
  unhandle_socket ;;;
  modify (with_possible_formats []) ;;;
  modify (with_format None) ;;;
  clear_buffers ;;;
  clear_mems ;;;
  t <- gets trans ;;
  match t with
  | Some t =>
      proc <- gets proc ;;
      proc <- lift (pinos_transport_destroy t proc) ;;
      modify (with_proc proc)
  | None => ret tt
  end.
End Ops.

(** ** A stream and its application *)

Section System.
Context `{PinosType} `{Kernel} `{Heap}.
Context (realloc_ok realloc_moves : Z -> bool) (new_proxy : list request -> option Z).
(** The calls with which the application answers a signal, given all it can know. *)
Context (app : signal -> PinosStream -> list api).

(** Calls from inside a signal may emit signals, and so on; [undef] is a stack overflow. *)
Fixpoint emit_at (depth : nat) (sig : signal) : Stream unit :=
  match depth with
  | O => undef
  | S depth =>
      modify (fun s => with_emitted (emitted s ++ [sig]) s) ;;;
      calls <- gets (app sig) ;;
      each calls (api_call new_proxy (emit_at depth))
  end.

(** What happens to a stream, from the outside. *)
Inductive step :=
| NodeEvent (e : client_node_event) (file : bytes)
| SocketReady (mask : Z)
| TimerFired
| ProxyDestroyed
| Call (c : api)
| PeerWrites (m : bytes).

(** A proxy that is gone hears no events, and a source that is gone never fires. *)
Definition perform (depth : nat) (st : step) : Stream unit :=
  s <- gets id ;;
  match st with
  | NodeEvent e file =>
      if node_proxy s then handle_client_node_event realloc_ok realloc_moves (emit_at depth) e file else ret tt
  | SocketReady mask =>
      match rtsocket_source s with
      | Some waits => on_rtsocket_condition (emit_at depth) (Z.land mask (Z.lor waits (Z.lor SPA_IO_ERR SPA_IO_HUP)))
      | None => ret tt
      end
  | TimerFired => if timeout_source s then on_timeout else ret tt
  | ProxyDestroyed => if node_proxy s then on_node_proxy_destroy (emit_at depth) else ret tt
  | Call c => api_call new_proxy (emit_at depth) c
  | PeerWrites m => modify (with_area m)
  end.

Definition run_steps (depth : nat) (steps : list step) : Stream unit := each steps (perform depth).
End System.

(** [props] is what the application passes, [name] the name of the stream. *)
Definition array_room (realloc_ok : Z -> bool) (extend room : Z) : outcome PinosArray :=
  let* (_, arr) := of_option (pinos_array_ensure_size realloc_ok (pinos_array_init extend) room) in Done arr.

Definition pinos_stream_new (realloc_ok : Z -> bool) (name : bytes) (props : option (list (bytes * str))) (p : process) : outcome PinosStream :=
  let props := match props with
               | None => [(text "media.name", Some name)]
               | Some props => if get_property props (text "media.name") then props else set_property props (text "media.name") (Some name)
               end in
  let* mems := array_room realloc_ok 64 (sizeof_MemId * 64) in
  let* bufs := array_room realloc_ok 32 (sizeof_BufferId * 64) in
  Done (mkStream PINOS_STREAM_STATE_UNCONNECTED props [] None (mkPortInfo 0 0 0 0 [] None) SPA_DIRECTION_INPUT 0 SPA_ID_INVALID 0
          0 0 None false None false None [] mems [] bufs [] false [] false 0 0 0 p [] [] 0).
