(* ===== verification/StreamTheory.v ===== *)
(** The buffers of a stream, whatever the server sends and however the application
    answers from inside its signals.

    [pool] is the part of the state that describes them. [tidy] holds everywhere, also
    while [clear_buffers] runs; [settled] between any two steps. The operations that only
    use the pool keep every predicate that is [Closed] under what can happen to it. *)
From S2P Require Import Prelude State Defs Pod Map Properties Interfaces Mem Ringbuffer Transport Loop NodeEvents Stream.
Import Array.

(** ** The pool *)

Record pool := mkPool { p_array : PinosArray; p_bids : list BufferId; p_in_order : bool; p_free : list nat }.
Definition pool_of (s : PinosStream) : pool := mkPool (buffer_array s) (buffer_ids s) (in_order s) (free s).

Definition with_use (used : bool) (b : BufferId) : BufferId := mkBufferId (bid_id b) used (bid_buf_ptr b) (bid_buf b).

Definition linked (i : nat) (p : pool) : pool := mkPool (p_array p) (alter (with_use false) i (p_bids p)) (p_in_order p) (p_free p ++ [i]).
Definition unlinked (i : nat) (p : pool) : pool :=
  mkPool (p_array p) (alter (with_use true) i (p_bids p)) (p_in_order p) (filter (fun j => j <> i) (p_free p)).
Definition emptied (p : pool) : pool := mkPool (empty_array (p_array p)) [] true [].
(** A new buffer, used or not, with an id that is its position or not. *)
Definition extended (arr : PinosArray) (b : BufferId) (p : pool) : pool :=
  mkPool arr (p_bids p ++ [b]) (p_in_order p && (bid_id b =? zlen (p_bids p)))
    (if bid_used b then p_free p else p_free p ++ [length (p_bids p)]).

Record tidy (p : pool) : Prop := {
  t_array : wf (p_array p);
  t_size : size (p_array p) = sizeof_BufferId * zlen (p_bids p);
  t_order : p_in_order p = true -> forall i b, p_bids p !! i = Some b -> bid_id b = Z.of_nat i;
  t_nodup : NoDup (p_free p);
  t_free : forall i, i ∈ p_free p -> exists b, p_bids p !! i = Some b /\ bid_used b = false
}.

Record settled (p : pool) : Prop := {
  s_tidy : tidy p;
  s_unused : forall i b, p_bids p !! i = Some b -> bid_used b = false -> i ∈ p_free p
}.

(** What can happen to the pool outside of [clear_buffers]. *)
Class Closed (P : pool -> Prop) : Prop := {
  closed_tidy p : P p -> tidy p;
  closed_linked p i b : P p -> p_bids p !! i = Some b -> i ∉ p_free p -> P (linked i p);
  closed_unlinked p i : P p -> i ∈ p_free p -> P (unlinked i p);
  closed_extended p arr b : P p -> wf arr -> size arr = size (p_array p) + sizeof_BufferId -> P (extended arr b p)
}.

Lemma linked_lookup i j p : p_bids (linked i p) !! j = if decide (i = j) then with_use false <$> p_bids p !! j else p_bids p !! j.
Proof. simpl. case_decide as Hj; [subst; apply list_lookup_alter_eq | by apply list_lookup_alter_ne]. Qed.
Lemma unlinked_lookup i j p : p_bids (unlinked i p) !! j = if decide (i = j) then with_use true <$> p_bids p !! j else p_bids p !! j.
Proof. simpl. case_decide as Hj; [subst; apply list_lookup_alter_eq | by apply list_lookup_alter_ne]. Qed.

Lemma zlen_alter {A} (f : A -> A) i (l : list A) : zlen (alter f i l) = zlen l.
Proof. unfold zlen. by rewrite length_alter. Qed.
Lemma alter_id f i (l : list BufferId) j b : (forall x, bid_id (f x) = bid_id x) ->
  alter f i l !! j = Some b -> exists x, l !! j = Some x /\ bid_id b = bid_id x.
Proof.
  intros Hf. destruct (decide (i = j)) as [-> | Hne].
  - rewrite list_lookup_alter_eq. destruct (l !! j) as [x|]; [| done]. intros [= <-]. eauto.
  - rewrite list_lookup_alter_ne by done. eauto.
Qed.

#[export] Instance tidy_closed : Closed tidy.
Proof.
  split; [done | | |].
  - intros p i b Hp Hi Hf. destruct Hp as [Ha Hs Ho Hn Hl]. split; simpl; [done | by rewrite zlen_alter | | |].
    + intros Hord j x (y & Hy & ->)%alter_id; [by apply Ho | done].
    + apply NoDup_app. split_and!; [done | | apply NoDup_singleton]. by intros j Hj ->%list_elem_of_singleton.
    + intros j Hj. destruct (decide (i = j)) as [<- | Hne].
      { exists (with_use false b). by rewrite list_lookup_alter_eq, Hi. }
      rewrite list_lookup_alter_ne by done. apply Hl. set_solver.
  - intros p i Hp Hi. destruct Hp as [Ha Hs Ho Hn Hl]. split; simpl; [done | by rewrite zlen_alter | | |].
    + intros Hord j x (y & Hy & ->)%alter_id; [by apply Ho | done].
    + by apply NoDup_filter.
    + intros j [Hne Hj]%list_elem_of_filter. rewrite list_lookup_alter_ne by done. by apply Hl.
  - intros p arr b Hp Hw Hsz. destruct Hp as [Ha Hs Ho Hn Hl].
    assert (length (p_bids p) ∉ p_free p) as Hnew.
    { intros (x & Hx & _)%Hl. by rewrite lookup_ge_None_2 in Hx. }
    split; simpl; [done | rewrite Hsz, Hs; zlia | | |].
    + intros [Hord Hid]%andb_true_iff j x [[_ Hx] | [-> <-]]%lookup_snoc_Some; [by apply Ho |]. by apply Z.eqb_eq.
    + destruct (bid_used b); [done |]. apply NoDup_app. split_and!; [done | | apply NoDup_singleton].
      by intros j Hj ->%list_elem_of_singleton.
    + intros j Hj. destruct (bid_used b) eqn:Hb; [| apply elem_of_app in Hj as [Hj | ->%list_elem_of_singleton]].
      * destruct (Hl j Hj) as (x & Hx & Hu). exists x. by rewrite (lookup_app_l_Some _ _ _ _ Hx).
      * destruct (Hl j Hj) as (x & Hx & Hu). exists x. by rewrite (lookup_app_l_Some _ _ _ _ Hx).
      * exists b. by rewrite lookup_app_r, Nat.sub_diag.
Qed.

#[export] Instance settled_closed : Closed settled.
Proof.
  split; [by intros p [] | | |].
  - intros p i b [Ht Hu] Hi Hf. split; [by eapply closed_linked |]. intros j x.
    rewrite linked_lookup. simpl. case_decide as Hj; [set_solver |]. intros Hx Hxu. apply elem_of_app. left. by eapply Hu.
  - intros p i [Ht Hu] Hi. split; [by apply closed_unlinked |]. intros j x.
    rewrite unlinked_lookup. simpl. case_decide as Hj.
    + destruct (p_bids p !! j); [| done]. by intros [= <-].
    + intros Hx Hxu. apply list_elem_of_filter. split; [done | by eapply Hu].
  - intros p arr b [Ht Hu] Hw Hsz. split; [by apply closed_extended |]. simpl.
    intros j x [[_ Hx] | [-> ->]]%lookup_snoc_Some Hxu.
    + case_if; [by eapply Hu |]. apply elem_of_app. left. by eapply Hu.
    + rewrite Hxu. set_solver.
Qed.

Lemma emptied_settled p : tidy p -> settled (emptied p).
Proof.
  intros [(Hs & Ha & He) _ _ _ _]. split; [| done]. split; simpl; try done; [| constructor | by intros i ?%elem_of_nil].
  unfold wf, empty_array. simpl. lia.
Qed.

(** Clearing the buffer at a position. *)
Definition cleared_at (i : nat) (p : pool) : pool := mkPool (p_array p) (alter cleared i (p_bids p)) (p_in_order p) (p_free p).
Lemma cleared_tidy i p : tidy p -> tidy (cleared_at i p).
Proof.
  intros [Ha Hs Ho Hn Hl]. split; simpl; [done | by rewrite zlen_alter | | done |].
  - intros Hord j x (y & Hy & ->)%alter_id; [by apply Ho | done].
  - intros j Hj. destruct (Hl j Hj) as (b & Hb & Hu). destruct (decide (i = j)) as [<- | Hne].
    + exists (cleared b). by rewrite list_lookup_alter_eq, Hb.
    + exists b. by rewrite list_lookup_alter_ne.
Qed.

(** ** The operations *)

Create HintDb pool.

(** A field outside of the pool changes: the goal does not see it. *)
Ltac pool_step :=
  lazymatch goal with
  | |- preserves _ (bind _ _) => apply preserves_bind; [| intros ?]
  | |- preserves _ (ret _) => apply preserves_ret
  | |- preserves _ undef => apply preserves_undef
  | |- preserves _ (lift _) => apply preserves_lift
  | |- preserves _ (gets _) => apply preserves_gets
  | |- preserves _ (modify _) => apply preserves_modify; intros ? ?; assumption
  | |- preserves _ (when _ _) => apply preserves_when; intros ?
  | |- preserves _ (each _ _) => apply preserves_each; intros ? _
  | |- preserves _ (let _ := _ in _) => cbv zeta
  | |- preserves _ (if ?b then _ else _) => destruct b eqn:?
  | |- preserves _ (match ?x with _ => _ end) => destruct x eqn:?
  | |- preserves _ _ => first [assumption | solve [auto with pool]]
  end.
Ltac pool_all := repeat pool_step.

Lemma grow_ge fuel alloc need a : grow fuel alloc need = Some a -> need <= a.
Proof.
  revert alloc. induction fuel as [|fuel IH]; intros alloc; simpl; case_if; [done | by intros [= <-] | apply IH | by intros [= <-]].
Qed.

Lemma array_add_some realloc_ok arr sz off arr' :
  (forall n, realloc_ok n = true -> n < 2 ^ 63) -> wf arr -> 0 <= sz < 2 ^ 32 ->
  pinos_array_add realloc_ok arr sz = Some (Some off, arr') -> off = size arr /\ size arr' = size arr + sz /\ wf arr'.
Proof.
  intros Hok (Hs & Ha & He) Hsz. unfold pinos_array_add, pinos_array_ensure_size.
  rewrite (u64_small (size arr + sz)) by (unfold is_u64; lia). case_if.
  - destruct (grow 64 _ _) as [a|] eqn:Hg; [| done]. simpl. destruct (realloc_ok a) eqn:Hra; simpl; [| done].
    intros [= <- <-]. simpl. apply Hok in Hra. rewrite u64_small by (unfold is_u64; lia).
    apply grow_ge in Hg.
    split_and!; [done | done |]. unfold wf. simpl. lia.
  - intros [= <- <-]. simpl. rewrite u64_small by (unfold is_u64; lia). split_and!; [done | done |]. unfold wf. simpl. lia.
Qed.

Section Keep.
Context `{PinosType} `{Kernel}.
Context (realloc_ok realloc_moves : Z -> bool) (new_proxy : list request -> option Z).
Context (realloc_small : forall n, realloc_ok n = true -> n < 2 ^ 63).
Context (P : pool -> Prop) `{!Closed P} (emit : signal -> Stream unit).

Abbreviation keeps m := (preserves (fun s => P (pool_of s)) m).
Context (emit_keeps : forall sig, keeps (emit sig)).
Context (clear_buffers_keeps : keeps (clear_buffers emit)).
#[local] Hint Resolve emit_keeps clear_buffers_keeps : pool.

Lemma clear_memid_keeps mid : keeps (clear_memid mid).
Proof. unfold clear_memid. pool_all. Qed.
#[local] Hint Resolve clear_memid_keeps : pool.
Lemma clear_mems_keeps : keeps clear_mems.
Proof. unfold clear_mems. pool_all. Qed.
Lemma stream_set_state_keeps state : keeps (stream_set_state emit state).
Proof. unfold stream_set_state. pool_all. Qed.
Lemma unhandle_socket_keeps : keeps unhandle_socket.
Proof. unfold unhandle_socket. pool_all. Qed.
Lemma update_rtsocket_keeps mask : keeps (update_rtsocket mask).
Proof. unfold update_rtsocket. pool_all. Qed.
Lemma do_method_keeps m : keeps (do_method m).
Proof. unfold do_method. pool_all. Qed.
Lemma add_event_keeps ev : keeps (add_event ev).
Proof. unfold add_event, get_trans. pool_all. Qed.
#[local] Hint Resolve clear_mems_keeps stream_set_state_keeps unhandle_socket_keeps update_rtsocket_keeps do_method_keeps add_event_keeps : pool.
#[local] Hint Extern 1 (preserves _ (add_async_complete _ _)) => apply do_method_keeps : pool.
#[local] Hint Extern 1 (preserves _ on_timeout) => apply do_method_keeps : pool.
Lemma add_port_update_keeps mask : keeps (add_port_update mask).
Proof. unfold add_port_update. pool_all. Qed.
Lemma send_have_output_keeps : keeps send_have_output.
Proof. unfold send_have_output, wake_up. pool_all. Qed.
Lemma ask_buffer_keeps : keeps (ask_buffer emit).
Proof. unfold ask_buffer. pool_all. Qed.
#[local] Hint Resolve add_port_update_keeps send_have_output_keeps ask_buffer_keeps : pool.

(** *** Linking and unlinking *)

Lemma link_step i b s0 : P (pool_of s0) -> buffer_ids s0 !! i = Some b ->
  hoare (fun s => s = s0) (modify (set_used false i) ;;; link_free i) (fun _ s => P (pool_of s)).
Proof.
  intros Hp Hb s [] s' -> Hrun. unfold link_free in Hrun. unfold bind, modify, gets in Hrun. cbn [obind] in Hrun.
  case_bool_decide as Hin; [done |]. injection Hrun as <-. exact (closed_linked _ _ b Hp Hb Hin).
Qed.
Lemma unlink_step i s0 : P (pool_of s0) ->
  hoare (fun s => s = s0) (modify (set_used true i) ;;; unlink_free i) (fun _ s => P (pool_of s)).
Proof.
  intros Hp s [] s' -> Hrun. unfold unlink_free in Hrun. unfold bind, modify, gets in Hrun. cbn [obind] in Hrun.
  case_bool_decide as Hin; [| done]. injection Hrun as <-. exact (closed_unlinked _ _ Hp Hin).
Qed.

(** What follows the look at a buffer. *)
Lemma after_bid {B} i (k : BufferId -> Stream B) :
  (forall b s0, P (pool_of s0) -> buffer_ids s0 !! i = Some b -> hoare (fun s => s = s0) (k b) (fun _ s => P (pool_of s))) ->
  keeps (bind (bid_at i) k).
Proof.
  intros Hk s x s' Hp. unfold bid_at, bind, gets, lift. cbn [obind].
  destruct (buffer_ids s !! i) as [b|] eqn:Hb; [| done]. cbn [of_option obind]. by apply (Hk b s).
Qed.
Lemma hoare_point {B} s0 (m : Stream B) : P (pool_of s0) -> keeps m -> hoare (fun s => s = s0) m (fun _ s => P (pool_of s)).
Proof. intros Hp Hm s x s' ->. by apply Hm. Qed.

Lemma reuse_buffer_keeps id : keeps (reuse_buffer emit id).
Proof.
  unfold reuse_buffer. apply preserves_bind; [apply preserves_gets |]. intros [i|]; [| apply preserves_ret].
  apply after_bid. intros b s0 Hp Hb. destruct (bid_used b); simpl; [| by apply hoare_point, preserves_ret].
  apply hoare_assoc. eapply hoare_bind; [by eapply link_step |]. intros []. apply emit_keeps.
Qed.

Lemma recycle_keeps id : keeps (pinos_stream_recycle_buffer id).
Proof.
  unfold pinos_stream_recycle_buffer. apply preserves_bind; [apply preserves_gets |]. intros port. cbv zeta.
  apply preserves_bind; [apply preserves_gets |]. intros [i|]; [| apply preserves_ret].
  apply after_bid. intros b s0 Hp Hb. destruct (bid_used b); simpl; [| by apply hoare_point, preserves_ret].
  apply hoare_assoc. eapply hoare_bind; [by eapply link_step |]. intros []. unfold wake_up. change (keeps (add_event (reuse_buffer_event port id) ;;; modify (fun s => with_wakeups (wakeups s + 1) s) ;;; ret true)). pool_all.
Qed.

Lemma send_buffer_keeps id : keeps (pinos_stream_send_buffer id).
Proof.
  unfold pinos_stream_send_buffer, get_trans. do 3 (apply preserves_bind; [pool_all | intros ?]). case_if; [apply preserves_ret |].
  apply preserves_bind; [pool_all | intros [i|]]; [| pool_all]. apply preserves_bind; [| intros _; apply preserves_ret].
  apply after_bid. intros b s0 Hp Hb. destruct (bid_used b); simpl; [by apply hoare_point, preserves_ret |].
  apply hoare_assoc. eapply hoare_bind; [by eapply unlink_step |]. intros [].
  match goal with |- hoare _ ?m _ => change (keeps m) end. pool_all.
Qed.
#[local] Hint Resolve reuse_buffer_keeps recycle_keeps send_buffer_keeps : pool.

(** *** A new buffer *)

Lemma map_mem_keeps k : keeps (map_mem k).
Proof. unfold map_mem. pool_all. Qed.
#[local] Hint Resolve map_mem_keeps : pool.

(** The array has room for one more buffer, at the position its length gives. *)
Definition growing (i : nat) (s : PinosStream) : Prop :=
  exists p arr, P p /\ wf arr /\ size arr = size (p_array p) + sizeof_BufferId /\ i = length (p_bids p) /\
    pool_of s = mkPool arr (p_bids p) (p_in_order p) (p_free p).

Lemma new_bid_growing : hoare (fun s => P (pool_of s)) (new_bid realloc_ok realloc_moves) growing.
Proof.
  intros s i s' Hp. unfold new_bid. unfold bind, gets, lift, Datatypes.id. cbn [obind].
  destruct (pinos_array_add realloc_ok (buffer_array s) sizeof_BufferId) as [[off arr]|] eqn:Hadd; cbn [of_option obind]; [| done].
  destruct off as [off|]; [| done]. pose proof (closed_tidy _ Hp) as Ht.
  assert (0 <= sizeof_BufferId < 2 ^ 32) as Hsmall by done.
  destruct (array_add_some _ _ _ _ _ realloc_small (t_array _ Ht) Hsmall Hadd) as (-> & Hsz & Hw).
  case_if; [done |]. intros [= <- <-]. exists (pool_of s), arr. split_and!; try done.
  pose proof (t_size _ Ht) as Hlen. simpl in *. rewrite Hlen, Z.mul_comm, Z.div_mul by done. apply to_nat_zlen.
Qed.

Lemma growing_frame {B} i (m : Stream B) : (forall Q : pool -> Prop, preserves (fun s => Q (pool_of s)) m) ->
  hoare (growing i) m (fun _ => growing i).
Proof.
  intros Hm s b s' (p & arr & Hp & Hw & Hsz & Hi & Hs) Hrun. exists p, arr. split_and!; [done.. |].
  exact (Hm (fun q => q = mkPool arr (p_bids p) (p_in_order p) (p_free p)) s b s' Hs Hrun).
Qed.

Lemma add_bid i b : hoare (growing i)
  (modify (fun s => with_buffers (buffer_array s) (buffer_ids s ++ [b]) s) ;;;
   when (negb (bid_used b)) (link_free i) ;;;
   when (negb (bid_id b =? Z.of_nat i)) (modify (with_in_order false)))
  (fun _ s => P (pool_of s)).
Proof.
  intros s [] s' (p & arr & Hp & Hw & Hsz & -> & Hs) Hrun.
  pose proof (closed_extended p arr b Hp Hw Hsz) as Hext. unfold extended in Hext. injection Hs as Ha Hb Ho Hf.
  rewrite <- Ha, <- Hb, <- Ho, <- Hf in Hext. rewrite <- Hb in Hrun. fold (zlen (buffer_ids s)) in Hrun. unfold zlen in Hext.
  unfold link_free in Hrun. unfold bind, modify, gets in Hrun. cbn [obind] in Hrun.
  destruct (bid_used b), (bid_id b =? _); simpl in Hrun, Hext; rewrite ?andb_true_r, ?andb_false_r in Hext;
    repeat case_bool_decide; try discriminate Hrun; injection Hrun as <-; exact Hext.
Qed.

Lemma use_buffer_keeps buf : keeps (use_buffer realloc_ok realloc_moves emit buf).
Proof.
  unfold use_buffer. apply preserves_bind; [apply preserves_gets | intros [k|]; [| apply preserves_ret]].
  apply preserves_bind; [apply map_mem_keeps | intros ptr]. case_if; [apply preserves_ret |].
  eapply hoare_bind; [apply new_bid_growing | intros i]. simpl.
  eapply hoare_bind; [apply growing_frame; intros Q; apply preserves_gets | intros dir]. cbv zeta.
  destruct (place_metas _ _ _) as [metas offset].
  eapply hoare_bind; [apply growing_frame; intros Q; apply preserves_gets | intros s0]. simpl.
  eapply hoare_bind; [apply growing_frame; intros Q; apply preserves_lift | intros datas]. simpl.
  intros s [] s' Hg Hrun.
  pose proof (add_bid i (mkBufferId (nb_buffer_id buf) (negb (dir =? SPA_DIRECTION_OUTPUT)) (ptr + nb_offset buf)
    (Some (mkBuf (nb_buffer_id buf) metas datas))) s) as Hadd.
  rewrite <- !bind_assoc in Hrun. unfold bind at 1 in Hrun. simpl in Hadd. rewrite <- bind_assoc in Hadd.
  destruct ((_ ;;; _) s) as [[[] s1]| |]; [| done..]. cbn [obind] in Hrun.
  exact (emit_keeps _ s1 tt s' (Hadd tt s1 Hg eq_refl) Hrun).
Qed.
#[local] Hint Resolve use_buffer_keeps : pool.

(** *** Handlers *)

Lemma take_inputs_keeps n i : keeps (take_inputs emit n i).
Proof. revert i. induction n as [|n IH]; intros i; simpl; unfold get_trans; pool_all. Qed.
Lemma reuse_outputs_keeps n i : keeps (reuse_outputs emit n i).
Proof. revert i. induction n as [|n IH]; intros i; simpl; unfold get_trans; pool_all. Qed.
#[local] Hint Resolve take_inputs_keeps reuse_outputs_keeps : pool.

Lemma handle_rtnode_event_keeps ev : keeps (handle_rtnode_event emit ev).
Proof. unfold handle_rtnode_event, send_need_input. pool_all. Qed.
#[local] Hint Resolve handle_rtnode_event_keeps : pool.
Lemma dispatch_events_keeps fuel : keeps (dispatch_events emit fuel).
Proof. induction fuel as [|fuel IH]; simpl; unfold get_trans; pool_all. Qed.
#[local] Hint Resolve dispatch_events_keeps : pool.

Lemma finish_format_keeps res params : keeps (pinos_stream_finish_format emit res params).
Proof. unfold pinos_stream_finish_format. pool_all. Qed.
Lemma connect_keeps dir mode path flags formats : keeps (pinos_stream_connect new_proxy emit dir mode path flags formats).
Proof. unfold pinos_stream_connect. pool_all. Qed.
#[local] Hint Resolve finish_format_keeps connect_keeps : pool.

Lemma api_call_keeps c : keeps (api_call new_proxy emit c).
Proof. destruct c; simpl; unfold pinos_stream_disconnect; pool_all. Qed.

Lemma client_node_event_keeps e file : keeps (handle_client_node_event realloc_ok realloc_moves emit e file).
Proof.
  destruct e; simpl; unfold client_node_done, handle_socket, do_node_init, add_node_update, client_node_set_format, client_node_add_mem,
    client_node_use_buffers, handle_node_command, send_need_input, client_node_transport; pool_all.
Qed.
Lemma rtsocket_keeps mask : keeps (on_rtsocket_condition emit mask).
Proof. unfold on_rtsocket_condition. pool_all. Qed.
Lemma proxy_destroy_keeps : keeps (on_node_proxy_destroy emit).
Proof. unfold on_node_proxy_destroy. pool_all. Qed.
End Keep.

(** ** Clearing all buffers *)

Section Clear.
Context `{PinosType} `{Kernel}.
Context (emit : signal -> Stream unit) (emit_tidy : forall sig, preserves (fun s => tidy (pool_of s)) (emit sig)).

Lemma clear_from_tidy n i : preserves (fun s => tidy (pool_of s)) (clear_from emit n i).
Proof.
  revert i. induction n as [|n IH]; intros i; simpl; [apply preserves_ret |].
  apply preserves_bind; [apply preserves_gets | intros [b|]; [| apply preserves_ret]].
  apply preserves_bind; [apply emit_tidy | intros _]. apply preserves_bind; [| intros _; apply IH].
  apply preserves_modify. intros s Hs. exact (cleared_tidy i _ Hs).
Qed.

Lemma clear_buffers_settles : hoare (fun s => tidy (pool_of s)) (clear_buffers emit) (fun _ s => settled (pool_of s)).
Proof.
  unfold clear_buffers. eapply hoare_bind; [apply (preserves_gets (fun s => tidy (pool_of s))) | intros n]. simpl.
  eapply hoare_bind; [apply clear_from_tidy | intros []]. simpl.
  intros s [] s' Hs [= <-]. exact (emptied_settled _ Hs).
Qed.

Lemma clear_buffers_tidy : preserves (fun s => tidy (pool_of s)) (clear_buffers emit).
Proof. eapply hoare_weaken; [apply clear_buffers_settles |]. by intros [] s []. Qed.
Lemma clear_buffers_settled : preserves (fun s => settled (pool_of s)) (clear_buffers emit).
Proof. intros s a s' Hs. apply clear_buffers_settles. by destruct Hs. Qed.
End Clear.

(** ** Any application *)

Section Application.
Context `{PinosType} `{Kernel}.
Context (realloc_ok realloc_moves : Z -> bool) (new_proxy : list request -> option Z).
Context (realloc_small : forall n, realloc_ok n = true -> n < 2 ^ 63).
Context (app : signal -> PinosStream -> list api).

Lemma emit_at_step (P : pool -> Prop) `{!Closed P} depth :
  (forall sig, preserves (fun s => P (pool_of s)) (emit_at new_proxy app depth sig)) ->
  preserves (fun s => P (pool_of s)) (clear_buffers (emit_at new_proxy app depth)) ->
  forall sig, preserves (fun s => P (pool_of s)) (emit_at new_proxy app (S depth) sig).
Proof.
  intros He Hc sig. simpl. apply preserves_bind; [by apply preserves_modify | intros _].
  apply preserves_bind; [apply preserves_gets | intros calls]. apply preserves_each. intros c _. by apply api_call_keeps.
Qed.

Lemma emit_at_tidy depth sig : preserves (fun s => tidy (pool_of s)) (emit_at new_proxy app depth sig).
Proof.
  revert sig. induction depth as [|depth IH]; intros sig; [apply preserves_undef |].
  apply emit_at_step; [apply _ | exact IH | by apply clear_buffers_tidy].
Qed.
Lemma emit_at_settled depth sig : preserves (fun s => settled (pool_of s)) (emit_at new_proxy app depth sig).
Proof.
  revert sig. induction depth as [|depth IH]; intros sig; [apply preserves_undef |].
  apply emit_at_step; [apply _ | exact IH | apply clear_buffers_settled, emit_at_tidy].
Qed.

Lemma perform_settled depth st : preserves (fun s => settled (pool_of s)) (perform realloc_ok realloc_moves new_proxy app depth st).
Proof.
  pose proof (emit_at_settled depth) as He.
  assert (preserves (fun s => settled (pool_of s)) (clear_buffers (emit_at new_proxy app depth))) as Hc
    by (apply clear_buffers_settled, emit_at_tidy).
  unfold perform. apply preserves_bind; [apply preserves_gets | intros s].
  destruct st as [e file | mask | | | c | m]; try case_match; try apply preserves_ret.
  - apply client_node_event_keeps; first [done | apply _].
  - apply rtsocket_keeps; first [done | apply _].
  - apply do_method_keeps; first [done | apply _].
  - apply proxy_destroy_keeps; first [done | apply _].
  - apply api_call_keeps; first [done | apply _].
  - by apply preserves_modify.
Qed.

Lemma run_steps_settled depth steps : preserves (fun s => settled (pool_of s)) (run_steps realloc_ok realloc_moves new_proxy app depth steps).
Proof. apply preserves_each. intros st _. apply perform_settled. Qed.

Lemma new_settled name props p s : pinos_stream_new realloc_ok name props p = Done s -> settled (pool_of s).
Proof.
  unfold pinos_stream_new. destruct (array_room realloc_ok 64 _) as [mems| |]; [| done..]. cbn [obind].
  destruct (array_room realloc_ok 32 _) as [bufs| |] eqn:Hb; [| done..]. intros [= <-].
  unfold array_room in Hb. destruct (pinos_array_ensure_size _ _ _) as [[ok arr]|] eqn:Hs; [| done]. injection Hb as <-.
  destruct (ensure_size_spec realloc_ok (pinos_array_init 32) (sizeof_BufferId * 64)) as (ok' & arr' & Hs' & Hw & Hsz & _);
    [unfold wf; simpl; lia | done | done |].
  rewrite Hs in Hs'. injection Hs' as <- <-. split; [| done]. split; simpl; try done; [constructor | by intros i ?%elem_of_nil].
Qed.
End Application.

(** ** What it means *)

(** The shortcut of [find_buffer], which takes an id for a position while the buffers
    came in order, finds what searching for the id finds: the first buffer with the id. *)
Theorem find_buffer_first s id : tidy (pool_of s) -> 0 <= id ->
  find_buffer id s = index_of (fun bid => bid_id bid =? id) (buffer_ids s).
Proof.
  intros Ht Hid. unfold find_buffer. destruct (in_order s && _) eqn:Hc; [| done]. apply andb_true_iff in Hc as [Hord Hlt].
  pose proof (t_size _ Ht) as Hs. simpl in Hs. unfold pinos_array_get_len in Hlt. rewrite Hs, Z.mul_comm, Z.div_mul in Hlt by done.
  bool_to_prop. unfold zlen in Hlt. symmetry. apply index_of_Some.
  assert (forall i b, buffer_ids s !! i = Some b -> bid_id b = Z.of_nat i) as Hpos by exact (t_order _ Ht Hord). split.
  - destruct (lookup_lt_is_Some_2 (buffer_ids s) (Z.to_nat id)) as [b Hb]; [lia |]. exists b. split; [done |].
    rewrite (Hpos _ _ Hb). apply Z.eqb_eq. lia.
  - intros j y Hj Hy. rewrite (Hpos _ _ Hy). apply Z.eqb_neq. lia.
Qed.

Section Meaning.
Context `{PinosType} `{Kernel}.
Context (realloc_ok realloc_moves : Z -> bool) (new_proxy : list request -> option Z).
Context (realloc_small : forall n, realloc_ok n = true -> n < 2 ^ 63).
Context (app : signal -> PinosStream -> list api).

(** C11: Whatever the server sends, in whatever order, and whatever the application calls,
    also from inside the signals of the stream: in every run that does nothing undefined the
    list of free buffers has, between two steps, exactly the buffers that are not in use,
    each once. So an empty buffer is one that is not in use, and there is none only when
    all are.  Runs that are undefined exist ([StreamStories.sent_while_removing]). *)
Theorem free_list_exact name props p s0 depth steps s :
  pinos_stream_new realloc_ok name props p = Done s0 ->
  run_steps realloc_ok realloc_moves new_proxy app depth steps s0 = Done (tt, s) ->
  NoDup (free s) /\ (forall i, i ∈ free s <-> exists b, buffer_ids s !! i = Some b /\ bid_used b = false) /\
  (pinos_stream_get_empty_buffer s = Done SPA_ID_INVALID /\ Forall (fun b => bid_used b = true) (buffer_ids s) \/
   exists i b, buffer_ids s !! i = Some b /\ bid_used b = false /\ pinos_stream_get_empty_buffer s = Done (bid_id b)).
Proof.
  intros Hnew Hrun. pose proof (new_settled _ _ _ _ _ Hnew) as Hs0.
  pose proof (run_steps_settled _ realloc_moves new_proxy realloc_small app depth steps _ _ _ Hs0 Hrun) as [[_ _ _ Hn Hl] Hu].
  simpl in *. split; [done |]. split.
  { intros i. split; [apply Hl | intros (b & Hb & Hub); by eapply Hu]. }
  unfold pinos_stream_get_empty_buffer. destruct (free s) as [|i l].
  - left. split; [done |]. apply Forall_lookup. intros i b Hb. destruct (bid_used b) eqn:Hub; [done |].
    pose proof (Hu i b Hb Hub) as Hi. by apply elem_of_nil in Hi.
  - right. destruct (Hl i) as (b & Hb & Hub); [by left |]. exists i, b. split_and!; [done | done |]. by rewrite Hb.
Qed.
End Meaning.
