(* ===== verification/StreamRequests.v ===== *)
(** A stream answers every request of the server, once and in order.

    The answers are events that complete what the node waits for: [answers] reads them the
    way [on_node_event] of [pinos/server/node.c] does. *)
From S2P Require Import Prelude State Defs Pod Map Properties Interfaces Mem Transport Loop NodeEvents Stream StreamTheory.

(** The types are different, and words. *)
Class DistinctTypes `{PinosType} : Prop := {
  types_words : Forall is_u32 [HaveOutput; NeedInput; ReuseBuffer; AsyncComplete; RequestClockUpdate; Pause; Start; ClockUpdate];
  types_distinct : List.NoDup [HaveOutput; NeedInput; ReuseBuffer; AsyncComplete; RequestClockUpdate; Pause; Start; ClockUpdate]
}.
Lemma types_apart `{DistinctTypes} : HaveOutput <> NeedInput /\ HaveOutput <> ReuseBuffer /\ NeedInput <> ReuseBuffer /\
  is_u32 HaveOutput /\ is_u32 NeedInput /\ is_u32 ReuseBuffer.
Proof.
  pose proof types_words as Hw. rewrite !Forall_cons in Hw. pose proof types_distinct as Hd.
  apply NoDup_ListNoDup in Hd. rewrite !NoDup_cons in Hd. split_and!; set_solver.
Qed.

Section Requests.
Context `{PinosType} `{Kernel}.

(** (seq, res) of an event that completes something. *)
Definition answer (r : request) : option (Z * Z) :=
  match r with
  | NodeMethod _ (CnEvent ev) =>
      match SPA_EVENT_TYPE ev, int_at 16 ev, int_at 32 ev with
      | Done type, Done seq, Done res => if type =? AsyncComplete then Some (seq, res) else None
      | _, _, _ => None
      end
  | _ => None
  end.
Definition answers (l : list request) : list (Z * Z) := omap answer l.

(** What an application that fixes formats by [verdict] makes of a step. *)
Definition replies (verdict : option bytes -> Z * list bytes) (st : step) : list (Z * Z) :=
  match st with
  | NodeEvent (CnDone _ _) _ => [(0, SPA_RESULT_OK)]
  | NodeEvent (CnSetFormat seq _ _ _ format) _ =>
      match pinos_spa_pod_copy format with Done f => [(i32 seq, i32 (fst (verdict f)))] | _ => [] end
  | NodeEvent (CnUseBuffers seq _ _ _) _ => [(i32 seq, SPA_RESULT_OK)]
  | NodeEvent (CnNodeCommand seq command) _ =>
      match SPA_EVENT_TYPE command with
      | Done type =>
          if type =? Pause then [(i32 seq, SPA_RESULT_OK)]
          else if type =? Start then [(i32 seq, SPA_RESULT_OK)]
          else if type =? ClockUpdate then []
          else [(i32 seq, SPA_RESULT_NOT_IMPLEMENTED)]
      | _ => []
      end
  | _ => []
  end.

(** The calls of the data path. *)
Definition data_call (c : api) : Prop := match c with ApiRecycle _ | ApiSend _ => True | _ => False end.
Definition undisturbed (st : step) : Prop :=
  match st with ProxyDestroyed => False | Call c => data_call c | _ => True end.

(** It finishes a format when it hears of it, and then only moves buffers. *)
Record cooperative (verdict : option bytes -> Z * list bytes) (app : signal -> PinosStream -> list api) : Prop := {
  coop_format f s : app (format_changed f) s = [ApiFinishFormat (fst (verdict f)) (snd (verdict f))];
  coop_data sig s : (forall f, sig <> format_changed f) -> Forall data_call (app sig s)
}.

(** What was looked at. *)
Lemma hoare_look {A B} (P : PinosStream -> Prop) (f : PinosStream -> A) (k : A -> Stream B) Q :
  (forall x, hoare (fun s => P s /\ f s = x) (k x) Q) -> hoare P (bind (gets f) k) Q.
Proof. intros Hk s r s' Hs. unfold bind, gets. cbn [obind]. by apply Hk. Qed.

Lemma hoare_lifted {A B} (P : PinosStream -> Prop) (o : outcome A) a (k : A -> Stream B) Q :
  o = Done a -> hoare P (k a) Q -> hoare P (bind (lift o) k) Q.
Proof. by intros ->. Qed.

(** ** What sends nothing *)

Section Silent.
Context (realloc_ok realloc_moves : Z -> bool) (P : option Z * list request * Z -> Prop).
Abbreviation silent m := (preserves (fun s => P (node_proxy s, sent s, pending_seq s)) m).

Lemma add_event_silent ev : silent (add_event ev).
Proof. unfold add_event, get_trans. pool_all. Qed.
Lemma link_free_silent i : silent (link_free i).
Proof. unfold link_free. pool_all. Qed.
Lemma unlink_free_silent i : silent (unlink_free i).
Proof. unfold unlink_free. pool_all. Qed.
Lemma unhandle_socket_silent : silent unhandle_socket.
Proof. unfold unhandle_socket. pool_all. Qed.
Lemma update_rtsocket_silent mask : silent (update_rtsocket mask).
Proof. unfold update_rtsocket. pool_all. Qed.
#[local] Hint Resolve add_event_silent link_free_silent unlink_free_silent unhandle_socket_silent update_rtsocket_silent : pool.
Lemma clear_memid_silent mid : silent (clear_memid mid).
Proof. unfold clear_memid. pool_all. Qed.
#[local] Hint Resolve clear_memid_silent : pool.
Lemma clear_mems_silent : silent clear_mems.
Proof. unfold clear_mems. pool_all. Qed.
Lemma recycle_silent id : silent (pinos_stream_recycle_buffer id).
Proof. unfold pinos_stream_recycle_buffer, bid_at, wake_up. pool_all. Qed.
Lemma send_silent id : silent (pinos_stream_send_buffer id).
Proof. unfold pinos_stream_send_buffer, bid_at, get_trans, send_have_output, wake_up. pool_all. Qed.
Lemma map_mem_silent k : silent (map_mem k).
Proof. unfold map_mem. pool_all. Qed.
Lemma new_bid_silent : silent (new_bid realloc_ok realloc_moves).
Proof. unfold new_bid. pool_all. Qed.
#[local] Hint Resolve clear_mems_silent map_mem_silent new_bid_silent : pool.

Lemma data_call_silent new_proxy emit c : data_call c -> silent (api_call new_proxy emit c).
Proof.
  destruct c; simpl; try done; intros _; (apply preserves_bind; [| intros _; apply preserves_ret]); [apply recycle_silent | apply send_silent].
Qed.

Context (emit : signal -> Stream unit) (emit_silent : forall sig, (forall f, sig <> format_changed f) -> silent (emit sig)).
#[local] Hint Extern 1 (preserves _ (emit _)) => apply emit_silent; intros; discriminate : pool.

Lemma clear_from_silent n i : silent (clear_from emit n i).
Proof. revert i. induction n as [|n IH]; intros i; simpl; pool_all. Qed.
#[local] Hint Resolve clear_from_silent : pool.
Lemma clear_buffers_silent : silent (clear_buffers emit).
Proof. unfold clear_buffers. pool_all. Qed.
Lemma stream_set_state_silent state : silent (stream_set_state emit state).
Proof. unfold stream_set_state. pool_all. Qed.
Lemma reuse_buffer_silent id : silent (reuse_buffer emit id).
Proof. unfold reuse_buffer, bid_at. pool_all. Qed.
#[local] Hint Resolve reuse_buffer_silent : pool.
Lemma take_inputs_silent n i : silent (take_inputs emit n i).
Proof. revert i. induction n as [|n IH]; intros i; simpl; unfold get_trans; pool_all. Qed.
Lemma reuse_outputs_silent n i : silent (reuse_outputs emit n i).
Proof. revert i. induction n as [|n IH]; intros i; simpl; unfold get_trans; pool_all. Qed.
Lemma ask_buffer_silent : silent (ask_buffer emit).
Proof. unfold ask_buffer. pool_all. Qed.
#[local] Hint Resolve take_inputs_silent reuse_outputs_silent ask_buffer_silent : pool.
Lemma handle_rtnode_event_silent ev : silent (handle_rtnode_event emit ev).
Proof. unfold handle_rtnode_event, send_need_input. pool_all. Qed.
#[local] Hint Resolve handle_rtnode_event_silent : pool.
Lemma dispatch_events_silent fuel : silent (dispatch_events emit fuel).
Proof. induction fuel as [|fuel IH]; simpl; unfold get_trans; pool_all. Qed.
#[local] Hint Resolve dispatch_events_silent : pool.
Lemma rtsocket_silent mask : silent (on_rtsocket_condition emit mask).
Proof. unfold on_rtsocket_condition. pool_all. Qed.
Lemma use_buffer_silent buf : silent (use_buffer realloc_ok realloc_moves emit buf).
Proof.
  unfold use_buffer. pool_all.
Qed.
End Silent.

(** ** What is sent *)

Context `{!DistinctTypes} (p : Z).

(** The proxy is there, the answers so far are [l], and what is pending is [seq]. *)
Definition owing (l : list (Z * Z)) (seq : Z) (v : option Z * list request * Z) : Prop :=
  fst (fst v) = Some p /\ answers (snd (fst v)) = l /\ snd v = seq.
Abbreviation owes l seq := (fun s => owing l seq (node_proxy s, sent s, pending_seq s)).

Lemma answers_app l k : answers (l ++ k) = answers l ++ answers k.
Proof. apply omap_app. Qed.

Lemma answer_async seq res : answer (NodeMethod p (CnEvent (async_complete_event seq res))) = Some (i32 seq, i32 res).
Proof.
  simpl. destruct (async_complete_fields seq res) as [-> ->]. unfold async_complete_event. rewrite event_type; [by rewrite Z.eqb_refl |].
  pose proof types_words as Hw. rewrite !Forall_cons in Hw. tauto.
Qed.
Lemma answer_clock_update mask : answer (NodeMethod p (CnEvent (request_clock_update_event mask 0 0))) = None.
Proof.
  simpl. unfold request_clock_update_event. rewrite event_type by (pose proof types_words as Hw; rewrite !Forall_cons in Hw; tauto).
  assert ((RequestClockUpdate =? AsyncComplete) = false) as ->.
  { apply Z.eqb_neq. pose proof types_distinct as Hd. apply NoDup_ListNoDup in Hd. rewrite !NoDup_cons in Hd. set_solver. }
  by repeat case_match.
Qed.

Lemma do_method_owes l seq m :
  hoare (owes l seq) (do_method m) (fun _ => owes (l ++ answers [NodeMethod p m]) seq).
Proof.
  intros s [] s' (Hp & Hl & Hs). unfold do_method. unfold bind, gets. cbn [obind]. simpl in Hp, Hl, Hs. rewrite Hp. intros [= <-].
  unfold owing. simpl. by rewrite answers_app, Hl.
Qed.
Lemma method_owes l seq m : answer (NodeMethod p m) = None -> preserves (owes l seq) (do_method m).
Proof.
  intros Hm. eapply hoare_weaken; [apply do_method_owes |]. intros [] s.
  unfold answers. cbn [omap list_omap]. by rewrite Hm, app_nil_r.
Qed.
Lemma async_complete_owes l seq n res :
  hoare (owes l seq) (add_async_complete n res) (fun _ => owes (l ++ [(i32 n, i32 res)]) seq).
Proof.
  eapply hoare_weaken; [apply do_method_owes |]. intros [] s.
  unfold answers. cbn [omap list_omap]. by rewrite answer_async.
Qed.
Lemma node_update_owes l seq mask : preserves (owes l seq) (add_node_update mask).
Proof. unfold add_node_update. apply preserves_bind; [apply preserves_gets | intros d]. by apply method_owes. Qed.
Lemma port_update_owes l seq mask : preserves (owes l seq) (add_port_update mask).
Proof. unfold add_port_update. apply preserves_bind; [apply preserves_gets | intros d]. by apply method_owes. Qed.

(** ** The application *)

Context (realloc_ok realloc_moves : Z -> bool) (new_proxy : list request -> option Z).
Context (verdict : option bytes -> Z * list bytes) (app : signal -> PinosStream -> list api) (coop : cooperative verdict app).
Abbreviation emit depth := (emit_at new_proxy app depth).

Lemma emit_silent (P : option Z * list request * Z -> Prop) depth sig : (forall f, sig <> format_changed f) ->
  preserves (fun s => P (node_proxy s, sent s, pending_seq s)) (emit depth sig).
Proof.
  intros Hsig. destruct depth as [|depth]; simpl; [apply preserves_undef |]. apply preserves_bind; [by apply preserves_modify | intros _].
  intros s r s' Hs Hrun. unfold bind, gets in Hrun. cbn [obind] in Hrun.
  pose proof (coop_data _ _ coop sig s Hsig) as Hdata.
  eapply (preserves_each (fun s => P (node_proxy s, sent s, pending_seq s))); [| exact Hs | exact Hrun].
  intros c Hc. apply data_call_silent. by eapply Forall_forall.
Qed.

Lemma finish_format_owes depth l seq res params :
  hoare (owes l seq) (pinos_stream_finish_format (emit depth) res params) (fun _ => owes (l ++ [(i32 seq, i32 res)]) SPA_ID_INVALID).
Proof.
  unfold pinos_stream_finish_format. apply after_preserves; [by apply preserves_modify | intros _].
  apply after_preserves.
  { apply preserves_when. intros _. apply preserves_bind; [apply port_update_owes | intros _].
    apply preserves_bind; [apply preserves_gets | intros fmt]. apply preserves_when. intros _.
    apply preserves_bind; [apply clear_buffers_silent; intros; by apply emit_silent | intros _]. apply clear_mems_silent. }
  intros _. apply after_preserves; [by apply preserves_modify | intros _].
  apply hoare_look. intros n s r s' [Hs Hn]. assert (n = seq) as -> by (destruct Hs as (_ & _ & Hs); simpl in *; congruence).
  clear Hn. revert s r s' Hs.
  change (hoare (owes l seq) (add_async_complete seq res ;;; modify (with_pending_seq SPA_ID_INVALID) ;;; ret true)
    (fun _ => owes (l ++ [(i32 seq, i32 res)]) SPA_ID_INVALID)).
  eapply hoare_bind; [apply async_complete_owes | intros []].
  eapply (hoare_bind _ _ (fun _ => owes (l ++ [(i32 seq, i32 res)]) SPA_ID_INVALID)); [| intros []; apply hoare_ret].
  intros s [] s' (Hp & Hl & _) [= <-]. done.
Qed.

(** Hearing of a format, the application finishes it. *)
Lemma format_changed_owes depth l seq f :
  hoare (owes l seq) (emit depth (format_changed f)) (fun _ => owes (l ++ [(i32 seq, i32 (fst (verdict f)))]) SPA_ID_INVALID).
Proof.
  destruct depth as [|depth]; simpl; [by intros ????|]. apply after_preserves; [by apply preserves_modify | intros _].
  apply hoare_look. intros calls. intros s r s' [Hs Happ]. rewrite (coop_format _ _ coop) in Happ. subst calls. cbn [each]. simpl.
  unfold bind. destruct (pinos_stream_finish_format _ _ _ s) as [[b s1]| |] eqn:Hf; [| done..]. cbn [obind]. intros [= <- <-].
  by eapply finish_format_owes in Hf.
Qed.

(** ** The steps *)

Abbreviation serves l k m := (hoare (fun s => exists seq, owing l seq (node_proxy s, sent s, pending_seq s)) m
  (fun _ s => exists seq, owing k seq (node_proxy s, sent s, pending_seq s))).

Lemma serves_owes {A} l k (m : Stream A) : (forall seq, exists seq', hoare (owes l seq) m (fun _ => owes k seq')) -> serves l k m.
Proof. intros Hm s r s' [seq Hs] Hrun. destruct (Hm seq) as [seq' Hk]. exists seq'. by eapply Hk. Qed.
Lemma serves_silent {A} l (m : Stream A) :
  (forall P : option Z * list request * Z -> Prop, preserves (fun s => P (node_proxy s, sent s, pending_seq s)) m) -> serves l l m.
Proof. intros Hm. apply serves_owes. intros seq. exists seq. apply Hm. Qed.

(** The state changes last. *)
Lemma then_set_state depth l k seq seq' (m : Stream unit) state :
  hoare (owes l seq) m (fun _ => owes k seq') -> hoare (owes l seq) (bind m (fun _ => stream_set_state (emit depth) state)) (fun _ => owes k seq').
Proof.
  intros Hm. eapply hoare_bind; [exact Hm | intros []]. apply (stream_set_state_silent (owing k seq')). intros. by apply emit_silent.
Qed.

Lemma done_serves depth l readfd writefd : serves l (l ++ [(0, SPA_RESULT_OK)]) (client_node_done (emit depth) readfd writefd).
Proof.
  apply serves_owes. intros seq. exists seq. unfold client_node_done, handle_socket, do_node_init.
  apply after_preserves; [pool_all | intros _].
  apply then_set_state.
  apply after_preserves; [apply node_update_owes | intros _]. apply after_preserves; [by apply preserves_modify | intros _].
  apply after_preserves; [apply port_update_owes | intros _]. apply async_complete_owes.
Qed.

Lemma set_format_serves depth l seq format f : pinos_spa_pod_copy format = Done f ->
  serves l (l ++ [(i32 seq, i32 (fst (verdict f)))]) (client_node_set_format (emit depth) seq format).
Proof.
  intros Hcopy. apply serves_owes. intros old. exists SPA_ID_INVALID. unfold client_node_set_format. eapply hoare_lifted; [exact Hcopy |].
  apply after_preserves; [by apply preserves_modify | intros _].
  eapply (hoare_bind _ _ (fun _ => owes l seq)); [by intros s [] s' (Hp & Hl & _) [= <-] | intros _].
  apply then_set_state, format_changed_owes.
Qed.

Lemma use_buffers_serves depth l seq bufs :
  serves l (l ++ [(i32 seq, SPA_RESULT_OK)]) (client_node_use_buffers realloc_ok realloc_moves (emit depth) seq bufs).
Proof.
  apply serves_owes. intros old. exists old. unfold client_node_use_buffers.
  apply after_preserves; [apply clear_buffers_silent; intros; by apply emit_silent | intros _].
  apply after_preserves; [apply preserves_each; intros b _; apply use_buffer_silent; intros; by apply emit_silent | intros _].
  eapply hoare_bind; [apply async_complete_owes | intros []]. change (i32 SPA_RESULT_OK) with SPA_RESULT_OK.
  case_if; [apply (stream_set_state_silent (owing _ old)); intros; by apply emit_silent |].
  apply then_set_state. apply (clear_mems_silent (owing _ old)).
Qed.

Lemma command_serves depth l seq command type : SPA_EVENT_TYPE command = Done type ->
  serves l (l ++ replies verdict (NodeEvent (CnNodeCommand seq command) [])) (handle_node_command (emit depth) seq command).
Proof.
  intros Ht. apply serves_owes. intros old. exists old. unfold handle_node_command. cbn [replies]. rewrite Ht. eapply hoare_lifted; [done |]. cbv beta.
  destruct (type =? Pause); [| destruct (type =? Start); [| destruct (type =? ClockUpdate)]].
  - eapply hoare_bind; [apply async_complete_owes | intros []]. apply preserves_bind; [apply preserves_gets | intros state].
    apply preserves_when. intros _. apply preserves_bind; [apply (update_rtsocket_silent (owing _ old)) | intros _].
    apply (stream_set_state_silent (owing _ old)). intros; by apply emit_silent.
  - eapply hoare_bind; [apply async_complete_owes | intros []]. apply preserves_bind; [apply preserves_gets | intros state].
    apply preserves_when. intros _. apply preserves_bind; [apply (update_rtsocket_silent (owing _ old)) | intros _].
    apply preserves_bind; [apply preserves_gets | intros dir]. apply preserves_bind.
    { case_if; [apply preserves_ret |]. apply (ask_buffer_silent (owing _ old)). intros; by apply emit_silent. }
    intros _. apply (stream_set_state_silent (owing _ old)). intros; by apply emit_silent.
  - rewrite app_nil_r. match goal with |- hoare ?P ?m _ => change (preserves P m) end. pool_all.
  - apply async_complete_owes.
Qed.

Lemma perform_serves depth l st : undisturbed st ->
  serves l (l ++ replies verdict st) (perform realloc_ok realloc_moves new_proxy app depth st).
Proof.
  intros Hst s r s' [seq Hs]. unfold perform. unfold bind at 1, gets, Datatypes.id. cbn [obind].
  assert (node_proxy s = Some p) as Hp by apply Hs. intros Hrun.
  assert (exists seq, owes l seq s) as Hl by eauto. clear seq Hs.
  destruct st as [e file | mask | | | c | m]; [rewrite Hp in Hrun |..]; try done.
  - destruct e; try (rewrite app_nil_r; injection Hrun as _ <-; exact Hl).
    + by eapply done_serves in Hrun.
    + simpl. destruct (pinos_spa_pod_copy format) as [f| |] eqn:Hc; [by eapply set_format_serves in Hrun |..];
        simpl in Hrun; unfold client_node_set_format in Hrun; rewrite Hc in Hrun; done.
    + rewrite app_nil_r. eapply (serves_silent l); [| exact Hl | exact Hrun]. intros P. simpl. unfold client_node_add_mem, clear_memid. pool_all.
    + by eapply use_buffers_serves in Hrun.
    + destruct (SPA_EVENT_TYPE command) as [type| |] eqn:Ht; [by eapply command_serves in Hrun |..];
        simpl in Hrun; unfold handle_node_command in Hrun; rewrite Ht in Hrun; done.
    + rewrite app_nil_r. eapply (serves_silent l); [| exact Hl | exact Hrun]. intros P. simpl. unfold client_node_transport. pool_all.
  - rewrite app_nil_r. destruct (rtsocket_source s); [| by injection Hrun as _ <-].
    eapply (serves_silent l); [| exact Hl | exact Hrun]. intros P. apply rtsocket_silent. intros; by apply emit_silent.
  - rewrite app_nil_r. destruct (timeout_source s); [| by injection Hrun as _ <-].
    eapply serves_owes; [| exact Hl | exact Hrun]. intros seq. exists seq. apply method_owes, answer_clock_update.
  - rewrite app_nil_r. eapply (serves_silent l); [| exact Hl | exact Hrun]. intros P. by apply data_call_silent.
  - rewrite app_nil_r. injection Hrun as _ <-. exact Hl.
Qed.

End Requests.
