(* ===== verification/StreamStories.v ===== *)
(** Concrete streams: the theorems at work, and what goes wrong.

    The kernel grants everything; descriptors and addresses are numbered. *)
From stdpp Require Import gmap.
From S2P Require Import Prelude State Defs Pod Map Properties Interfaces Mem Ringbuffer Transport Loop NodeEvents Stream StreamTheory StreamRequests.

#[local] Instance types : PinosType := Build_PinosType 101 102 103 104 105 106 107 108 109 110 111 112 113.
Lemma types_numbered : DistinctTypes.
Proof.
  split; [repeat constructor; vm_compute; congruence |].
  repeat (constructor; [vm_compute; intuition discriminate |]). constructor.
Qed.

Definition numbered_fd (s : process) : option Z :=
  let n := 100 + Z.of_nat (Mem.calls s) in if bool_decide (n ∈ descriptors s) then None else Some n.
Definition numbered_map (s : process) (len : Z) : option Z :=
  let a := 4096 * (1 + Z.of_nat (Mem.calls s)) in
  if bool_decide (mappings s !! a = None /\ a ∉ allocations s) then Some a else None.
Definition numbered_block (s : process) (len : Z) : option Z :=
  let a := 1 + Z.of_nat (Mem.calls s) in if bool_decide (a ∈ allocations s) then None else Some a.
Definition generous : Kernel.
Proof.
  refine (Build_Kernel numbered_fd numbered_map numbered_block (fun _ => true) _ _ _).
  - unfold numbered_fd. intros s n. case_bool_decide; [done |]. intros [= <-]. split; [lia | done].
  - unfold numbered_map. intros s len a. case_bool_decide; [| done]. intros [= <-]. split; [lia | done].
  - unfold numbered_block. intros s len a. case_bool_decide; [done |]. intros [= <-]. split; [lia | done].
Defined.
#[local] Existing Instance generous.

Definition grants (n : Z) : bool := n <? 2 ^ 40.
Lemma grants_small n : grants n = true -> n < 2 ^ 63.
Proof. unfold grants. intros Hn. bool_to_prop. lia. Qed.
Definition one_proxy (l : list request) : option Z := Some 7.
Definition empty_process : process := mkProcess ∅ ∅ ∅ 0.

(** An application that agrees to every format and sends a buffer when it is asked. *)
Definition agree (f : option bytes) : Z * list bytes := (SPA_RESULT_OK, []).
Definition player (sig : signal) (s : PinosStream) : list api :=
  match sig with
  | format_changed f => [ApiFinishFormat (fst (agree f)) (snd (agree f))]
  | need_buffer => match pinos_stream_get_empty_buffer s with Done id => [ApiSend id] | _ => [] end
  | _ => []
  end.
Lemma player_cooperative : cooperative agree player.
Proof.
  split; [done |]. intros sig s Hsig. destruct sig as [| | f | | | |]; try exact (Forall_nil_2 _); [by destruct (Hsig f) |].
  simpl. destruct (pinos_stream_get_empty_buffer s); repeat constructor.
Qed.

Definition run (steps : list step) : outcome (unit * PinosStream) :=
  let* s := pinos_stream_new grants [] None empty_process in
  run_steps grants (fun _ => true) one_proxy player 3 steps s.

(** The area a server lays out for one output port. *)
Definition output_file : bytes :=
  match pinos_transport_new 0 1 empty_process with
  | Done (_, m, _) => match set_area_n_ports 0 1 m with Done m => m | _ => [] end
  | _ => []
  end.

Definition format : bytes := SPA_EVENT_INIT 55.
Definition plain_buffer (id : Z) : PinosClientNodeBuffer := mkNodeBuffer 0 0 64 id [] [Interfaces.mkData data_MemPtr 0 0 0 64].
Definition connect : step := Call (ApiConnect SPA_DIRECTION_OUTPUT 0 None 1 [format]).
Definition setup : list step :=
  [NodeEvent (CnDone 20 21) []; NodeEvent (CnSetFormat 1 1 0 0 (Some format)) []; NodeEvent (CnAddMem 1 0 0 0 22 0 0 4096) [];
   NodeEvent (CnUseBuffers 2 1 0 [plain_buffer 0; plain_buffer 1]) []; NodeEvent (CnTransport 23 0 (zlen output_file)) output_file].
Definition playing : list step := setup ++ [NodeEvent (CnNodeCommand 3 (SPA_EVENT_INIT Start)) []; TimerFired].

Definition the_stream (steps : list step) : PinosStream :=
  match run steps with Done (_, s) => s | _ => mkStream 0 [] [] None (mkPortInfo 0 0 0 0 [] None) 0 0 0 0 0 0 None false None false None []
    (Array.pinos_array_init 0) [] (Array.pinos_array_init 0) [] false [] false 0 0 0 empty_process [] [] 0 end.

(** The first buffer is on its way, the other one is free. *)
Lemma free_list_exact_witness :
  exists s, run (connect :: playing) = Done (tt, s) /\ free s = [1%nat] /\ NoDup (free s) /\ pinos_stream_get_empty_buffer s = Done 1.
Proof.
  unfold run. destruct (pinos_stream_new grants [] None empty_process) as [s0| |] eqn:Hnew; [| exfalso; vm_compute in Hnew; discriminate..].
  cbn [obind]. destruct (run_steps grants (fun _ => true) one_proxy player 3 (connect :: playing) s0) as [[[] s]| |] eqn:Hrun;
    [| exfalso; revert Hrun; vm_compute in Hnew; injection Hnew as <-; vm_compute; discriminate..].
  exists s. pose proof (free_list_exact grants (fun _ => true) one_proxy grants_small player [] None empty_process s0 3 (connect :: playing) s Hnew Hrun) as (Hn & _ & _).
  split; [done |]. split; [| split; [done |]];
    (revert Hrun; vm_compute in Hnew; injection Hnew as <-; vm_compute; intros [= <-]; done).
Defined.


Lemma find_buffer_first_witness : find_buffer 1 (the_stream (connect :: playing)) = Some 1%nat.
Proof.
  rewrite find_buffer_first; [vm_compute; done | | done].
  assert (exists s0, pinos_stream_new grants [] None empty_process = Done s0) as [s0 Hnew] by (eexists; vm_compute; done).
  assert (run_steps grants (fun _ => true) one_proxy player 3 (connect :: playing) s0 = Done (tt, the_stream (connect :: playing))) as Hrun
    by (vm_compute in Hnew; injection Hnew as <-; vm_compute; done).
  exact (s_tidy _ (run_steps_settled grants (fun _ => true) one_proxy grants_small player 3 (connect :: playing) s0 tt _
    (new_settled grants _ _ _ _ Hnew) Hrun)).
Defined.

(** ** What goes wrong *)

(** The node is destroyed by the server: the timer is still there, and has no proxy. *)
Example timer_without_proxy : run (connect :: setup ++ [ProxyDestroyed; TimerFired]) = Undef.
Proof. vm_compute. done. Qed.

(** After an error of the socket its source is gone, and is used by the next command. *)
Example pause_without_socket :
  run (connect :: playing ++ [SocketReady SPA_IO_ERR; NodeEvent (CnNodeCommand 4 (SPA_EVENT_INIT Pause)) []]) = Undef.
Proof. vm_compute. done. Qed.

(** A memory with an offset: what was mapped is not what is unmapped. *)
Definition offset_story : list step :=
  [connect; NodeEvent (CnDone 20 21) []; NodeEvent (CnAddMem 1 0 0 0 22 0 4096 4096) [];
   NodeEvent (CnUseBuffers 2 1 0 [plain_buffer 0]) []; NodeEvent (CnUseBuffers 3 1 0 []) []].
Example mapping_leaks : mem_ids (the_stream offset_story) = [] /\ mappings (proc (the_stream offset_story)) = {[4096 := 8192]}.
Proof. vm_compute. done. Qed.

(** An input stream: the server hands over buffer 0, the application gives it back, and
    again. The second time the buffer is refused: nothing goes back to the server. *)
Definition input_file : bytes :=
  match pinos_transport_new 1 0 empty_process with
  | Done (_, m, _) => match set_area_n_ports 1 0 m with Done m => m | _ => [] end
  | _ => []
  end.
Definition server_end : PinosTransport := match pinos_transport_new 1 0 empty_process with Done (t, _, _) => t | _ => new_transport no_mem end.
Definition hand_over (m : bytes) : list step :=
  match (let* m := store_io (input_io server_end 0) (mkIO 0 0 (replicate 16 0)) m in pinos_transport_add_event server_end (SPA_EVENT_INIT HaveOutput) m) with
  | Done (_, m) => [PeerWrites m; SocketReady SPA_IO_IN; Call (ApiRecycle 0)]
  | _ => []
  end.
Definition input_setup : list step :=
  [Call (ApiConnect SPA_DIRECTION_INPUT 0 None 1 [format]); NodeEvent (CnDone 20 21) []; NodeEvent (CnSetFormat 1 0 0 0 (Some format)) [];
   NodeEvent (CnAddMem 0 0 0 0 22 0 0 4096) []; NodeEvent (CnUseBuffers 2 0 0 [plain_buffer 0]) [];
   NodeEvent (CnTransport 23 0 (zlen input_file)) input_file; NodeEvent (CnNodeCommand 3 (SPA_EVENT_INIT Start)) []].
Definition once : list step := input_setup ++ hand_over (area (the_stream input_setup)).
Definition twice : list step := once ++ hand_over (area (the_stream once)).

Definition is_new (sig : signal) : bool := match sig with new_buffer _ => true | _ => false end.
Example recycled_once :
  List.filter is_new (emitted (the_stream twice)) = [new_buffer 0; new_buffer 0] /\
  wakeups (the_stream once) = 1 /\ wakeups (the_stream twice) = 1.
Proof. vm_compute. done. Qed.

(** An application that answers the removal of buffer 1 by sending buffer 0, which was in use
    when it was removed: [clear_buffers] has marked it unused without linking it, so
    [pinos_stream_send_buffer] takes a buffer out of the free list that is not in it. *)
Definition hasty (send : bool) (sig : signal) (s : PinosStream) : list api :=
  match sig with
  | remove_buffer id => if send && (id =? 1) then [ApiSend 0] else []
  | _ => player sig s
  end.
Definition run_with (app : signal -> PinosStream -> list api) (steps : list step) : outcome (unit * PinosStream) :=
  let* s := pinos_stream_new grants [] None empty_process in
  run_steps grants (fun _ => true) one_proxy app 3 steps s.
Definition server_takes (s : PinosStream) : list step :=
  match trans s with
  | Some t => match set_io_buffer_id (output_io t 0) SPA_ID_INVALID (area s) with Done m => [PeerWrites m] | _ => [] end
  | None => []
  end.
Definition sent_then_removed : list step :=
  connect :: playing ++ server_takes (the_stream (connect :: playing)) ++ [NodeEvent (CnUseBuffers 3 1 0 []) []].

Theorem sent_while_removing :
  (exists s, run_with (hasty false) sent_then_removed = Done (tt, s)) /\ run_with (hasty true) sent_then_removed = Undef.
Proof.
  split; [| by vm_compute].
  destruct (run_with (hasty false) sent_then_removed) as [[[] s]| |] eqn:Hrun; [by exists s | exfalso; revert Hrun; by vm_compute..].
Qed.
