(* ===== verification/ClientNode.v ===== *)
(** [pinos/server/client-node.c]: the node of the server that stands for a stream.

    To the server it is an element, the proxy, with the methods of [SpaNode]: what they
    ask becomes events of the protocol, answered later, and the data path goes through
    the transport. The node that owns the proxy is the host: its callbacks are a
    parameter, a computation that may call the proxy again (component DataPath). *)
From stdpp Require Import gmap.
From S2P Require Import Prelude State Defs Pod Props Interfaces Mem Transport Loop NodeEvents.

Definition MAX_INPUTS : Z := 64.
Definition MAX_OUTPUTS : Z := 64.
Definition MAX_BUFFERS : Z := 64.
Definition MAX_METAS : Z := 4.
Definition MAX_DATAS : Z := 4.

Definition SPA_RESULT_INVALID_PORT : Z := -6.

(** [interfaces.h] *)
Definition NODE_UPDATE_MAX_INPUTS : Z := Z.shiftl 1 0.
Definition NODE_UPDATE_MAX_OUTPUTS : Z := Z.shiftl 1 1.
Definition PORT_UPDATE_POSSIBLE_FORMATS : Z := Z.shiftl 1 0.
Definition PORT_UPDATE_FORMAT : Z := Z.shiftl 1 1.
Definition PORT_UPDATE_PROPS : Z := Z.shiftl 1 2.
Definition PORT_UPDATE_INFO : Z := Z.shiftl 1 3.

(** ** Data *)

(** What the host passes as buffers: metadata with the contents of the shared one, data. *)
Record SpaMetaShared := mkShared { sh_flags : Z; sh_fd : Z; sh_offset : Z; sh_size : Z }.
Record HostMeta := mkHostMeta { hm_type : Z; hm_size : Z; hm_shared : SpaMetaShared }.
Record HostData := mkHostData { hd_type : Z; hd_flags : Z; hd_fd : Z; hd_mapoffset : Z; hd_maxsize : Z; hd_data : Z }.
Record HostBuffer := mkHostBuffer { hb_id : Z; hb_metas : list HostMeta; hb_datas : list HostData }.

(** [sizes] are the sizes of the 64 [ProxyBuffer]s; [io] is a pointer, 0 is [NULL]. *)
Record SpaProxyPort := mkPort {
  valid : bool; info : SpaPortInfo; format : option bytes; formats : list bytes; io : Z;
  n_buffers : Z; sizes : list Z; buffer_mem : PinosMemblock }.

Definition port_with_valid (x : bool) (p : SpaProxyPort) := mkPort x (info p) (format p) (formats p) (io p) (n_buffers p) (sizes p) (buffer_mem p).
Definition port_with_info (x : SpaPortInfo) (p : SpaProxyPort) := mkPort (valid p) x (format p) (formats p) (io p) (n_buffers p) (sizes p) (buffer_mem p).
Definition port_with_format (x : option bytes) (p : SpaProxyPort) := mkPort (valid p) (info p) x (formats p) (io p) (n_buffers p) (sizes p) (buffer_mem p).
Definition port_with_formats (x : list bytes) (p : SpaProxyPort) := mkPort (valid p) (info p) (format p) x (io p) (n_buffers p) (sizes p) (buffer_mem p).
Definition port_with_io (x : Z) (p : SpaProxyPort) := mkPort (valid p) (info p) (format p) (formats p) x (n_buffers p) (sizes p) (buffer_mem p).
Definition port_with_buffers (x : Z) (y : list Z) (z : PinosMemblock) (p : SpaProxyPort) := mkPort (valid p) (info p) (format p) (formats p) (io p) x y z.

Definition zero_mem : PinosMemblock := mkMem 0 0 0 0 0.
Definition zero_info : SpaPortInfo := mkPortInfo 0 0 0 0 [] None.
Definition zero_port : SpaProxyPort := mkPort false zero_info None [] 0 0 (replicate 64 0) zero_mem.

(** [SpaNodeCallbacks], and destroying the node. *)
Inductive node_callback :=
| cb_event (event : bytes)
| cb_need_input
| cb_have_output
| cb_reuse_buffer (port_id buffer_id : Z)
| cb_destroy_signal
| cb_node_destroy.

(** [PinosClientNodeImpl] with its [SpaProxy]; [cn_area] is the memory of the transport,
    [ios] the IO areas of the ports of the node, [cn_wakeups] counts what was written to
    [writefd]. *)
Record PinosClientNode := mkClientNode {
  px_max_inputs : Z; px_n_inputs : Z; px_max_outputs : Z; px_n_outputs : Z; in_ports : list SpaProxyPort;
  out_ports : list SpaProxyPort; format_buffer : bytes; px_seq : Z; resource : option Z; data_loop : Z;
  data_source_fd : Z; writefd : Z; data_source_added : bool; transport : option PinosTransport; cn_area : bytes;
  px_fds : Z * Z; other_fds : Z * Z; ios : gmap Z SpaPortIO; cn_proc : process; notified : list client_node_event;
  cn_wakeups : Z }.

Definition with_max_ports (x : Z) (y : Z) (s : PinosClientNode) : PinosClientNode :=
  mkClientNode x (px_n_inputs s) y (px_n_outputs s) (in_ports s) (out_ports s) (format_buffer s) (px_seq s)
    (resource s) (data_loop s) (data_source_fd s) (writefd s) (data_source_added s) (transport s) (cn_area s)
    (px_fds s) (other_fds s) (ios s) (cn_proc s) (notified s) (cn_wakeups s).
Definition with_n_ports (x : Z) (y : Z) (s : PinosClientNode) : PinosClientNode :=
  mkClientNode (px_max_inputs s) x (px_max_outputs s) y (in_ports s) (out_ports s) (format_buffer s) (px_seq s)
    (resource s) (data_loop s) (data_source_fd s) (writefd s) (data_source_added s) (transport s) (cn_area s)
    (px_fds s) (other_fds s) (ios s) (cn_proc s) (notified s) (cn_wakeups s).
Definition with_in_ports (x : list SpaProxyPort) (s : PinosClientNode) : PinosClientNode :=
  mkClientNode (px_max_inputs s) (px_n_inputs s) (px_max_outputs s) (px_n_outputs s) x (out_ports s) (format_buffer s)
    (px_seq s) (resource s) (data_loop s) (data_source_fd s) (writefd s) (data_source_added s) (transport s)
    (cn_area s) (px_fds s) (other_fds s) (ios s) (cn_proc s) (notified s) (cn_wakeups s).
Definition with_out_ports (x : list SpaProxyPort) (s : PinosClientNode) : PinosClientNode :=
  mkClientNode (px_max_inputs s) (px_n_inputs s) (px_max_outputs s) (px_n_outputs s) (in_ports s) x (format_buffer s)
    (px_seq s) (resource s) (data_loop s) (data_source_fd s) (writefd s) (data_source_added s) (transport s)
    (cn_area s) (px_fds s) (other_fds s) (ios s) (cn_proc s) (notified s) (cn_wakeups s).
Definition with_format_buffer (x : bytes) (s : PinosClientNode) : PinosClientNode :=
  mkClientNode (px_max_inputs s) (px_n_inputs s) (px_max_outputs s) (px_n_outputs s) (in_ports s) (out_ports s) x
    (px_seq s) (resource s) (data_loop s) (data_source_fd s) (writefd s) (data_source_added s) (transport s)
    (cn_area s) (px_fds s) (other_fds s) (ios s) (cn_proc s) (notified s) (cn_wakeups s).
Definition with_seq (x : Z) (s : PinosClientNode) : PinosClientNode :=
  mkClientNode (px_max_inputs s) (px_n_inputs s) (px_max_outputs s) (px_n_outputs s) (in_ports s) (out_ports s)
    (format_buffer s) x (resource s) (data_loop s) (data_source_fd s) (writefd s) (data_source_added s) (transport s)
    (cn_area s) (px_fds s) (other_fds s) (ios s) (cn_proc s) (notified s) (cn_wakeups s).
Definition with_resource (x : option Z) (s : PinosClientNode) : PinosClientNode :=
  mkClientNode (px_max_inputs s) (px_n_inputs s) (px_max_outputs s) (px_n_outputs s) (in_ports s) (out_ports s)
    (format_buffer s) (px_seq s) x (data_loop s) (data_source_fd s) (writefd s) (data_source_added s) (transport s)
    (cn_area s) (px_fds s) (other_fds s) (ios s) (cn_proc s) (notified s) (cn_wakeups s).
Definition with_data_loop (x : Z) (s : PinosClientNode) : PinosClientNode :=
  mkClientNode (px_max_inputs s) (px_n_inputs s) (px_max_outputs s) (px_n_outputs s) (in_ports s) (out_ports s)
    (format_buffer s) (px_seq s) (resource s) x (data_source_fd s) (writefd s) (data_source_added s) (transport s)
    (cn_area s) (px_fds s) (other_fds s) (ios s) (cn_proc s) (notified s) (cn_wakeups s).
Definition with_data_source (x : Z) (y : Z) (s : PinosClientNode) : PinosClientNode :=
  mkClientNode (px_max_inputs s) (px_n_inputs s) (px_max_outputs s) (px_n_outputs s) (in_ports s) (out_ports s)
    (format_buffer s) (px_seq s) (resource s) (data_loop s) x y (data_source_added s) (transport s) (cn_area s)
    (px_fds s) (other_fds s) (ios s) (cn_proc s) (notified s) (cn_wakeups s).
Definition with_data_source_added (x : bool) (s : PinosClientNode) : PinosClientNode :=
  mkClientNode (px_max_inputs s) (px_n_inputs s) (px_max_outputs s) (px_n_outputs s) (in_ports s) (out_ports s)
    (format_buffer s) (px_seq s) (resource s) (data_loop s) (data_source_fd s) (writefd s) x (transport s) (cn_area s)
    (px_fds s) (other_fds s) (ios s) (cn_proc s) (notified s) (cn_wakeups s).
Definition with_transport (x : option PinosTransport) (s : PinosClientNode) : PinosClientNode :=
  mkClientNode (px_max_inputs s) (px_n_inputs s) (px_max_outputs s) (px_n_outputs s) (in_ports s) (out_ports s)
    (format_buffer s) (px_seq s) (resource s) (data_loop s) (data_source_fd s) (writefd s) (data_source_added s) x
    (cn_area s) (px_fds s) (other_fds s) (ios s) (cn_proc s) (notified s) (cn_wakeups s).
Definition with_cn_area (x : bytes) (s : PinosClientNode) : PinosClientNode :=
  mkClientNode (px_max_inputs s) (px_n_inputs s) (px_max_outputs s) (px_n_outputs s) (in_ports s) (out_ports s)
    (format_buffer s) (px_seq s) (resource s) (data_loop s) (data_source_fd s) (writefd s) (data_source_added s)
    (transport s) x (px_fds s) (other_fds s) (ios s) (cn_proc s) (notified s) (cn_wakeups s).
Definition with_eventfds (x : Z * Z) (y : Z * Z) (s : PinosClientNode) : PinosClientNode :=
  mkClientNode (px_max_inputs s) (px_n_inputs s) (px_max_outputs s) (px_n_outputs s) (in_ports s) (out_ports s)
    (format_buffer s) (px_seq s) (resource s) (data_loop s) (data_source_fd s) (writefd s) (data_source_added s)
    (transport s) (cn_area s) x y (ios s) (cn_proc s) (notified s) (cn_wakeups s).
Definition with_ios (x : gmap Z SpaPortIO) (s : PinosClientNode) : PinosClientNode :=
  mkClientNode (px_max_inputs s) (px_n_inputs s) (px_max_outputs s) (px_n_outputs s) (in_ports s) (out_ports s)
    (format_buffer s) (px_seq s) (resource s) (data_loop s) (data_source_fd s) (writefd s) (data_source_added s)
    (transport s) (cn_area s) (px_fds s) (other_fds s) x (cn_proc s) (notified s) (cn_wakeups s).
Definition with_cn_proc (x : process) (s : PinosClientNode) : PinosClientNode :=
  mkClientNode (px_max_inputs s) (px_n_inputs s) (px_max_outputs s) (px_n_outputs s) (in_ports s) (out_ports s)
    (format_buffer s) (px_seq s) (resource s) (data_loop s) (data_source_fd s) (writefd s) (data_source_added s)
    (transport s) (cn_area s) (px_fds s) (other_fds s) (ios s) x (notified s) (cn_wakeups s).
Definition with_notified (x : list client_node_event) (s : PinosClientNode) : PinosClientNode :=
  mkClientNode (px_max_inputs s) (px_n_inputs s) (px_max_outputs s) (px_n_outputs s) (in_ports s) (out_ports s)
    (format_buffer s) (px_seq s) (resource s) (data_loop s) (data_source_fd s) (writefd s) (data_source_added s)
    (transport s) (cn_area s) (px_fds s) (other_fds s) (ios s) (cn_proc s) x (cn_wakeups s).
Definition with_cn_wakeups (x : Z) (s : PinosClientNode) : PinosClientNode :=
  mkClientNode (px_max_inputs s) (px_n_inputs s) (px_max_outputs s) (px_n_outputs s) (in_ports s) (out_ports s)
    (format_buffer s) (px_seq s) (resource s) (data_loop s) (data_source_fd s) (writefd s) (data_source_added s)
    (transport s) (cn_area s) (px_fds s) (other_fds s) (ios s) (cn_proc s) (notified s) x.

Abbreviation Proxy := (ST PinosClientNode).

Definition is_input (direction : Z) : bool := direction =? SPA_DIRECTION_INPUT.
Definition CHECK_PORT_ID (d p : Z) : bool :=
  (d =? SPA_DIRECTION_INPUT) && (p <? MAX_INPUTS) || (d =? SPA_DIRECTION_OUTPUT) && (p <? MAX_OUTPUTS).

(** [port = direction == SPA_DIRECTION_INPUT ? &in_ports[port_id] : &out_ports[port_id]] *)
Definition ports_of (direction : Z) (s : PinosClientNode) : list SpaProxyPort := if is_input direction then in_ports s else out_ports s.
Definition with_ports_of (direction : Z) (l : list SpaProxyPort) (s : PinosClientNode) : PinosClientNode :=
  if is_input direction then with_in_ports l s else with_out_ports l s.
Definition port_at (direction port_id : Z) (s : PinosClientNode) : option SpaProxyPort := ports_of direction s !! Z.to_nat port_id.
Definition port_valid (direction port_id : Z) (s : PinosClientNode) : bool := from_option valid false (port_at direction port_id s).

Definition CHECK_FREE_PORT (s : PinosClientNode) (d p : Z) : bool := CHECK_PORT_ID d p && negb (port_valid d p s).
Definition CHECK_PORT (s : PinosClientNode) (d p : Z) : bool := CHECK_PORT_ID d p && port_valid d p s.

Definition get_port (direction port_id : Z) : Proxy SpaProxyPort := p <- gets (port_at direction port_id) ;; lift (of_option p).
Definition set_port (direction port_id : Z) (p : SpaProxyPort) : Proxy unit :=
  modify (fun s => with_ports_of direction (<[Z.to_nat port_id := p]> (ports_of direction s)) s).
Definition update_port (direction port_id : Z) (f : SpaProxyPort -> SpaProxyPort) : Proxy unit :=
  p <- get_port direction port_id ;; set_port direction port_id (f p).

(** One port more, one port less; the counts are [uint32_t]. *)
Definition count_ports (direction d : Z) (s : PinosClientNode) : PinosClientNode :=
  if is_input direction then with_n_ports (u32 (px_n_inputs s + d)) (px_n_outputs s) s
  else with_n_ports (px_n_inputs s) (u32 (px_n_outputs s + d)) s.

Section Ops.
Context `{PinosType} `{Kernel} `{Heap}.
Context (host : node_callback -> Proxy unit).

(** ** What is sent *)

Definition notify (e : client_node_event) : Proxy unit := modify (fun s => with_notified (notified s ++ [e]) s).
(** [this->seq++] *)
Definition next_seq : Proxy Z := n <- gets px_seq ;; modify (with_seq (u32 (n + 1))) ;;; ret n.
Definition return_async : Proxy Z := n <- next_seq ;; ret (SPA_RESULT_RETURN_ASYNC n).

Definition get_transport : Proxy PinosTransport := t <- gets transport ;; lift (of_option t).
Definition add_event (event : bytes) : Proxy unit :=
  t <- get_transport ;;
  m <- gets cn_area ;;
  '(_, m) <- lift (pinos_transport_add_event t event m) ;;
  modify (with_cn_area m).
Definition do_flush : Proxy unit := modify (fun s => with_cn_wakeups (cn_wakeups s + 1) s).
Definition send_need_input : Proxy unit := add_event (SPA_EVENT_INIT NeedInput) ;;; do_flush.
Definition send_have_output : Proxy unit := add_event (SPA_EVENT_INIT HaveOutput) ;;; do_flush.

(** ** Ports *)

Definition clear_buffers (direction port_id : Z) : Proxy Z :=
  p <- get_port direction port_id ;;
  (if negb (n_buffers p =? 0) then
     proc <- gets cn_proc ;;
     '(mem, proc) <- lift (pinos_memblock_free (buffer_mem p) proc) ;;
     modify (with_cn_proc proc) ;;;
     set_port direction port_id (port_with_buffers 0 (sizes p) mem p)
   else ret tt) ;;;
  ret SPA_RESULT_OK.

Definition do_update_port (direction port_id change_mask : Z) (possible_formats : list bytes) (fmt : option bytes)
    (new_info : option SpaPortInfo) : Proxy unit :=
  when (has change_mask PORT_UPDATE_POSSIBLE_FORMATS)
    (copies <- lift (copy_pods possible_formats) ;; update_port direction port_id (port_with_formats copies)) ;;;
  when (has change_mask PORT_UPDATE_FORMAT)
    (copy <- lift (pinos_spa_pod_copy fmt) ;; update_port direction port_id (port_with_format copy)) ;;;
  (match new_info with
   | Some i =>
       when (has change_mask PORT_UPDATE_INFO)
         (params <- lift (copy_pods (pi_params i)) ;;
          update_port direction port_id (port_with_info (mkPortInfo (pi_flags i) (pi_rate i) (pi_maxbuffering i) (pi_latency i) params None)))
   | None => ret tt
   end) ;;;
  p <- get_port direction port_id ;;
  when (negb (valid p))
    (set_port direction port_id (port_with_valid true (port_with_format None p)) ;;;
     modify (count_ports direction 1)).

Definition clear_port (direction port_id : Z) : Proxy unit :=
  do_update_port direction port_id
    (Z.lor (Z.lor (Z.lor PORT_UPDATE_POSSIBLE_FORMATS PORT_UPDATE_FORMAT) PORT_UPDATE_PROPS) PORT_UPDATE_INFO) [] None None ;;;
  clear_buffers direction port_id ;;;
  ret tt.

Definition do_uninit_port (direction port_id : Z) : Proxy unit :=
  modify (count_ports direction (-1)) ;;;
  clear_port direction port_id ;;;
  update_port direction port_id (port_with_valid false).

(** ** The methods of the element

    The proxy, and the pointers results are written to, are never [NULL]. *)

Definition spa_proxy_node_get_props : Proxy Z := ret SPA_RESULT_NOT_IMPLEMENTED.
Definition spa_proxy_node_set_props : Proxy Z := ret SPA_RESULT_NOT_IMPLEMENTED.

Definition spa_proxy_node_send_command (command : bytes) : Proxy Z :=
  r <- gets resource ;;
  match r with
  | None => ret SPA_RESULT_OK
  | Some _ =>
      type <- lift (SPA_EVENT_TYPE command) ;;
      if type =? ClockUpdate then
        n <- next_seq ;;
        notify (CnNodeCommand n command) ;;;
        ret SPA_RESULT_OK
      else
        n <- gets px_seq ;;
        notify (CnNodeCommand n command) ;;;
        when (type =? Start) send_need_input ;;;
        return_async
  end.

Definition spa_proxy_node_get_n_ports (s : PinosClientNode) : Z * Z * Z * Z :=
  (px_n_inputs s, px_max_inputs s, px_n_outputs s, px_max_outputs s).

(** The ids of the valid ports, at most [n]. *)
Definition valid_ids (l : list SpaProxyPort) : list Z :=
  omap (fun ip => if valid (snd ip) then Some (Z.of_nat (fst ip)) else None) (imap pair l).
Definition spa_proxy_node_get_port_ids (n_input_ports n_output_ports : Z) (s : PinosClientNode) : list Z * list Z :=
  (take (Z.to_nat n_input_ports) (valid_ids (in_ports s)), take (Z.to_nat n_output_ports) (valid_ids (out_ports s))).

Definition spa_proxy_node_add_port (direction port_id : Z) : Proxy Z :=
  s <- gets id ;;
  if negb (CHECK_FREE_PORT s direction port_id) then ret SPA_RESULT_INVALID_PORT
  else clear_port direction port_id ;;; ret SPA_RESULT_OK.

Definition spa_proxy_node_remove_port (direction port_id : Z) : Proxy Z :=
  s <- gets id ;;
  if negb (CHECK_PORT s direction port_id) then ret SPA_RESULT_INVALID_PORT
  else do_uninit_port direction port_id ;;; ret SPA_RESULT_OK.

(** The loop over the formats that are left; the format found is in [format_buffer], which
    the next call overwrites. *)
Fixpoint enum_from (l : list bytes) (filter : option bytes) (index mtch : Z) : Proxy (Z * option bytes) :=
  match l with
  | [] => ret (SPA_RESULT_ENUM_END, None)
  | fmt :: l =>
      buf <- gets format_buffer ;;
      '(res, b) <- lift (spa_format_filter (Some fmt) filter (spa_pod_builder_init (mkFixed buf 1024))) ;;
      modify (with_format_buffer (fixed_data (bw b))) ;;;
      if negb (res =? SPA_RESULT_OK) then enum_from l filter index mtch
      else if negb (mtch =? index) then enum_from l filter index (u32 (mtch + 1))
      else buf <- gets format_buffer ;; ret (SPA_RESULT_OK, Some buf)
  end.

Definition spa_proxy_node_port_enum_formats (direction port_id : Z) (filter : option bytes) (index : Z) : Proxy (Z * option bytes) :=
  s <- gets id ;;
  if negb (CHECK_PORT s direction port_id) then ret (SPA_RESULT_INVALID_PORT, None)
  else
    p <- get_port direction port_id ;;
    let count := if filter then 0 else index in
    enum_from (drop (Z.to_nat count) (formats p)) filter index count.

Definition spa_proxy_node_port_set_format (direction port_id flags : Z) (fmt : option bytes) : Proxy Z :=
  s <- gets id ;;
  if negb (CHECK_PORT s direction port_id) then ret SPA_RESULT_INVALID_PORT
  else if negb (bool_decide (is_Some (resource s))) then ret SPA_RESULT_OK
  else notify (CnSetFormat (px_seq s) direction port_id flags fmt) ;;; return_async.

Definition spa_proxy_node_port_get_format (direction port_id : Z) : Proxy (Z * option bytes) :=
  s <- gets id ;;
  if negb (CHECK_PORT s direction port_id) then ret (SPA_RESULT_INVALID_PORT, None)
  else
    p <- get_port direction port_id ;;
    match format p with None => ret (SPA_RESULT_NO_FORMAT, None) | Some f => ret (SPA_RESULT_OK, Some f) end.

Definition spa_proxy_node_port_get_info (direction port_id : Z) : Proxy (Z * option SpaPortInfo) :=
  s <- gets id ;;
  if negb (CHECK_PORT s direction port_id) then ret (SPA_RESULT_INVALID_PORT, None)
  else p <- get_port direction port_id ;; ret (SPA_RESULT_OK, Some (info p)).

Definition spa_proxy_node_port_get_props : Proxy Z := ret SPA_RESULT_NOT_IMPLEMENTED.
Definition spa_proxy_node_port_set_props : Proxy Z := ret SPA_RESULT_NOT_IMPLEMENTED.

Definition spa_proxy_node_port_set_io (direction port_id io : Z) : Proxy Z :=
  s <- gets id ;;
  if negb (CHECK_PORT s direction port_id) then ret SPA_RESULT_INVALID_PORT
  else update_port direction port_id (port_with_io io) ;;; ret SPA_RESULT_OK.

(** *** Buffers *)

Definition spa_buffer_find_meta (b : HostBuffer) (type : Z) : option HostMeta := List.find (fun m => hm_type m =? type) (hb_metas b).

(** The data of a buffer: what they become, the next memory id, the size so far. *)
Fixpoint map_datas (direction port_id n_mem size : Z) (datas : list HostData) : Proxy (list SpaData * Z * Z) :=
  match datas with
  | [] => ret ([], n_mem, size)
  | d :: datas =>
      if (hd_type d =? data_DmaBuf) || (hd_type d =? data_MemFd) then
        notify (CnAddMem direction port_id n_mem (hd_type d) (hd_fd d) (hd_flags d) (hd_mapoffset d) (hd_maxsize d)) ;;;
        '(l, n, sz) <- map_datas direction port_id (n_mem + 1) size datas ;;
        ret (mkData data_Id n_mem (hd_flags d) (hd_mapoffset d) (hd_maxsize d) :: l, n, sz)
      else if hd_type d =? data_MemPtr then
        '(l, n, sz) <- map_datas direction port_id n_mem (u64 (size + hd_maxsize d)) datas ;;
        ret (mkData (hd_type d) size (hd_flags d) (hd_mapoffset d) (hd_maxsize d) :: l, n, sz)
      else
        '(l, n, sz) <- map_datas direction port_id n_mem size datas ;;
        ret (mkData SPA_ID_INVALID 0 (hd_flags d) (hd_mapoffset d) (hd_maxsize d) :: l, n, sz)
  end.

(** The loop over the buffers, from number [i] on. [None]: the shared metadata is missing.
    The arrays [buffers], [metas] and [datas] have a fixed length. *)
Fixpoint map_buffers (direction port_id i n_mem : Z) (buffers : list HostBuffer) : Proxy (option (list PinosClientNodeBuffer)) :=
  match buffers with
  | [] => ret (Some [])
  | b :: buffers =>
      if negb (i <? MAX_BUFFERS) then undef else
      match spa_buffer_find_meta b meta_Shared with
      | None => ret None
      | Some m =>
          let msh := hm_shared m in
          if negb ((zlen (hb_metas b) <=? MAX_METAS) && (zlen (hb_datas b) <=? MAX_DATAS)) then undef else
          notify (CnAddMem direction port_id n_mem data_MemFd (sh_fd msh) (sh_flags msh) (sh_offset msh) (sh_size msh)) ;;;
          p <- get_port direction port_id ;;
          size <- lift (of_option (sizes p !! Z.to_nat i)) ;;
          '(datas, n, size) <- map_datas direction port_id (n_mem + 1) size (hb_datas b) ;;
          update_port direction port_id (fun p => port_with_buffers (n_buffers p) (<[Z.to_nat i := size]> (sizes p)) (buffer_mem p) p) ;;;
          rest <- map_buffers direction port_id (i + 1) n buffers ;;
          ret (rest ← rest; Some (mkNodeBuffer n_mem 0 (sh_size msh) (hb_id b)
            (map (fun m => Interfaces.mkMeta (hm_type m) (hm_size m)) (hb_metas b)) datas :: rest))
      end
  end.

Definition spa_proxy_node_port_use_buffers (direction port_id : Z) (buffers : list HostBuffer) : Proxy Z :=
  s <- gets id ;;
  if negb (CHECK_PORT s direction port_id) then ret SPA_RESULT_INVALID_PORT
  else
    p <- get_port direction port_id ;;
    match format p with
    | None => ret SPA_RESULT_NO_FORMAT
    | Some _ =>
        clear_buffers direction port_id ;;;
        update_port direction port_id (fun p => port_with_buffers (zlen buffers) (sizes p) (buffer_mem p) p) ;;;
        if negb (bool_decide (is_Some (resource s))) then ret SPA_RESULT_OK
        else
          mb <- map_buffers direction port_id 0 0 buffers ;;
          match mb with
          | None => ret SPA_RESULT_ERROR
          | Some mb =>
              n <- gets px_seq ;;
              notify (CnUseBuffers n direction port_id mb) ;;;
              return_async
          end
    end.

Definition spa_proxy_node_port_alloc_buffers (direction port_id : Z) : Proxy Z :=
  s <- gets id ;;
  if negb (CHECK_PORT s direction port_id) then ret SPA_RESULT_INVALID_PORT
  else
    p <- get_port direction port_id ;;
    match format p with None => ret SPA_RESULT_NO_FORMAT | Some _ => ret SPA_RESULT_NOT_IMPLEMENTED end.

Definition spa_proxy_node_port_reuse_buffer (port_id buffer_id : Z) : Proxy Z :=
  s <- gets id ;;
  if negb (CHECK_PORT s SPA_DIRECTION_OUTPUT port_id) then ret SPA_RESULT_INVALID_PORT
  else add_event (reuse_buffer_event port_id buffer_id) ;;; ret SPA_RESULT_OK.

Definition spa_proxy_node_port_send_command : Proxy Z := ret SPA_RESULT_NOT_IMPLEMENTED.

(** *** The data path *)

Definition get_io (p : Z) : Proxy SpaPortIO := x <- gets (fun s => ios s !! p) ;; lift (of_option x).
Definition put_io (p : Z) (x : SpaPortIO) : Proxy unit := modify (fun s => with_ios (<[p := x]> (ios s)) s).

(** The loops over the 64 ports, from port [i] on. *)
Fixpoint push_inputs (n : nat) (i : Z) : Proxy unit :=
  match n with
  | O => ret tt
  | S n =>
      p <- get_port SPA_DIRECTION_INPUT i ;;
      (if io p =? 0 then ret tt
       else
         x <- get_io (io p) ;;
         t <- get_transport ;;
         m <- gets cn_area ;;
         m <- lift (store_io (input_io t i) x m) ;;
         modify (with_cn_area m) ;;;
         put_io (io p) (mkIO SPA_RESULT_OK (buffer_id x) (range x))) ;;;
      push_inputs n (i + 1)
  end.

Definition spa_proxy_node_process_input : Proxy Z :=
  push_inputs (Z.to_nat MAX_INPUTS) 0 ;;;
  send_have_output ;;;
  ret SPA_RESULT_OK.

(** (send_need, flush) *)
Fixpoint pull_outputs (n : nat) (i : Z) (send_need flush : bool) : Proxy (bool * bool) :=
  match n with
  | O => ret (send_need, flush)
  | S n =>
      p <- get_port SPA_DIRECTION_OUTPUT i ;;
      if io p =? 0 then pull_outputs n (i + 1) send_need flush
      else
        x <- get_io (io p) ;;
        flush <- (if negb (buffer_id x =? SPA_ID_INVALID) then
                    add_event (reuse_buffer_event i (buffer_id x)) ;;;
                    put_io (io p) (mkIO (status x) SPA_ID_INVALID (range x)) ;;;
                    ret true
                  else ret flush) ;;
        t <- get_transport ;;
        m <- gets cn_area ;;
        tmp <- lift (load_io (output_io t i) m) ;;
        x <- get_io (io p) ;;
        m <- lift (store_io (output_io t i) x m) ;;
        modify (with_cn_area m) ;;;
        put_io (io p) tmp ;;;
        pull_outputs n (i + 1) (send_need || (status x =? u32 SPA_RESULT_NEED_BUFFER)) flush
  end.

Definition spa_proxy_node_process_output : Proxy Z :=
  '(send_need, flush) <- pull_outputs (Z.to_nat MAX_OUTPUTS) 0 false false ;;
  (if (send_need : bool) then send_need_input else when flush do_flush) ;;;
  ret SPA_RESULT_HAVE_BUFFER.

(** ** Events of the client *)

Fixpoint fetch_outputs (n : nat) (i : Z) : Proxy unit :=
  match n with
  | O => ret tt
  | S n =>
      p <- get_port SPA_DIRECTION_OUTPUT i ;;
      (if io p =? 0 then ret tt
       else
         t <- get_transport ;;
         m <- gets cn_area ;;
         x <- lift (load_io (output_io t i) m) ;;
         _ <- get_io (io p) ;;
         put_io (io p) x) ;;;
      fetch_outputs n (i + 1)
  end.

Definition handle_node_event (event : bytes) : Proxy unit :=
  type <- lift (SPA_EVENT_TYPE event) ;;
  if type =? HaveOutput then fetch_outputs (Z.to_nat MAX_OUTPUTS) 0 ;;; host cb_have_output
  else if type =? NeedInput then host cb_need_input
  else if type =? ReuseBuffer then
    p <- lift (int_at 16 event) ;;
    b <- lift (int_at 32 event) ;;
    host (cb_reuse_buffer (u32 p) (u32 b))
  else ret tt.

(** The loop over the events, with fuel: every event takes some of the 4096 bytes. *)
Fixpoint dispatch_events (fuel : nat) : Proxy unit :=
  match fuel with
  | O => undef
  | S fuel =>
      t <- get_transport ;;
      m <- gets cn_area ;;
      '(res, t, _) <- lift (pinos_transport_next_event t m) ;;
      modify (with_transport (Some t)) ;;;
      if negb (res =? SPA_RESULT_OK) then ret tt
      else
        '(_, ev, m) <- lift (pinos_transport_parse_event t m) ;;
        modify (with_cn_area m) ;;;
        handle_node_event ev ;;;
        dispatch_events fuel
  end.

Definition proxy_on_data_fd_events (rmask : Z) : Proxy unit :=
  if has rmask (Z.lor SPA_IO_ERR SPA_IO_HUP) then ret tt
  else when (has rmask SPA_IO_IN) (dispatch_events 513).

(** *** The methods of the resource *)

Definition client_node_update (change_mask max_input_ports max_output_ports : Z) : Proxy unit :=
  modify (fun s => with_max_ports (if has change_mask NODE_UPDATE_MAX_INPUTS then max_input_ports else px_max_inputs s)
                     (if has change_mask NODE_UPDATE_MAX_OUTPUTS then max_output_ports else px_max_outputs s) s).

Definition client_node_port_update (direction port_id change_mask : Z) (possible_formats : list bytes) (fmt : option bytes)
    (new_info : option SpaPortInfo) : Proxy unit :=
  if negb (CHECK_PORT_ID direction port_id) then ret tt
  else if change_mask =? 0 then do_uninit_port direction port_id
  else do_update_port direction port_id change_mask possible_formats fmt new_info.

Definition client_node_event (event : bytes) : Proxy unit := host (cb_event event).

(** [client_node_resource_destroy], which [pinos_resource_destroy] calls. *)
Definition client_node_resource_destroy : Proxy unit :=
  host cb_destroy_signal ;;;
  modify (with_resource None) ;;;
  fd <- gets data_source_fd ;;
  when (negb (fd =? -1)) (modify (with_data_source_added false)) ;;;
  host cb_node_destroy.
Definition pinos_client_node_destroy : Proxy unit :=
  r <- gets resource ;;
  match r with Some _ => client_node_resource_destroy | None => undef end.

Definition handle_client_node_method (m : client_node_method) : Proxy unit :=
  match m with
  | CnUpdate change_mask max_inputs max_outputs _ => client_node_update change_mask max_inputs max_outputs
  | CnPortUpdate direction port_id change_mask formats fmt _ info => client_node_port_update direction port_id change_mask formats fmt info
  | CnEvent event => client_node_event event
  | CnDestroy => pinos_client_node_destroy
  end.

(** ** The life of a client node *)

(** The node counts its ports for the transport. *)
Definition on_initialized (max_input_ports max_output_ports n_input_ports n_output_ports : Z) : Proxy unit :=
  r <- gets resource ;;
  match r with
  | None => ret tt
  | Some _ =>
      proc <- gets cn_proc ;;
      '(t, m, proc) <- lift (pinos_transport_new max_input_ports max_output_ports proc) ;;
      modify (with_cn_proc proc) ;;;
      modify (with_transport (Some t)) ;;;
      m <- lift (set_area_n_ports n_input_ports n_output_ports m) ;;
      modify (with_cn_area m) ;;;
      let i := pinos_transport_get_info t in
      notify (CnTransport (memfd i) (info_offset i) (info_size i))
  end.

Definition on_loop_changed (loop : Z) : Proxy unit := modify (with_data_loop loop).

(** The ports that are valid are cleared. *)
Fixpoint clear_ports (direction : Z) (n : nat) (i : Z) : Proxy unit :=
  match n with
  | O => ret tt
  | S n =>
      p <- get_port direction i ;;
      when (valid p) (clear_port direction i) ;;;
      clear_ports direction n (i + 1)
  end.
Definition proxy_clear : Proxy Z :=
  clear_ports SPA_DIRECTION_INPUT (Z.to_nat MAX_INPUTS) 0 ;;;
  clear_ports SPA_DIRECTION_OUTPUT (Z.to_nat MAX_OUTPUTS) 0 ;;;
  ret SPA_RESULT_OK.

Definition close_fd (fd : Z) : Proxy unit := when (negb (fd =? -1)) (modify (fun s => with_cn_proc (sys_close fd (cn_proc s)) s)).

Definition on_node_free : Proxy unit :=
  proxy_clear ;;;
  t <- gets transport ;;
  (match t with
   | Some t =>
       proc <- gets cn_proc ;;
       proc <- lift (pinos_transport_destroy t proc) ;;
       modify (with_cn_proc proc)
   | None => ret tt
   end) ;;;
  f <- gets px_fds ;;
  close_fd (fst f) ;;;
  close_fd (snd f).

(** [eventfd]; a failure is not noticed. *)
Definition sys_eventfd : Proxy Z :=
  proc <- gets cn_proc ;; let '(fd, proc) := sys_open proc in modify (with_cn_proc proc) ;;; ret fd.

(** The descriptors for the client: it reads the one the server writes. *)
Definition pinos_client_node_get_fds : Proxy (Z * Z) :=
  f <- gets px_fds ;;
  (if fst f =? -1 then
     a <- sys_eventfd ;;
     b <- sys_eventfd ;;
     modify (with_data_source a b) ;;;
     modify (with_eventfds (a, b) (b, a)) ;;;
     modify (with_data_source_added true)
   else ret tt) ;;;
  gets other_fds.
End Ops.

(** [proxy_init], in a zeroed structure: (result, node). [new_resource] is the resource the
    node is given once it exists; the node and its resource are of the components Graph
    and Core. *)
Definition proxy_init (loop : Z) (p : process) : Z * PinosClientNode :=
  (SPA_RESULT_RETURN_ASYNC 0,
   mkClientNode 0 0 0 0 (replicate 64 zero_port) (replicate 64 zero_port) (replicate 1024 0) 1 None loop (-1) 0 false
     None [] (-1, -1) (0, 0) ∅ p [] 0).
Definition pinos_client_node_new (loop new_resource : Z) (p : process) : PinosClientNode :=
  with_resource (Some new_resource) (snd (proxy_init loop p)).

(** ** A node and its host *)

(** What the host calls, and what happens to the proxy from the outside. *)
Inductive element_call :=
| SendCommand (command : bytes)
| AddPort (direction port_id : Z)
| RemovePort (direction port_id : Z)
| EnumFormats (direction port_id : Z) (filter : option bytes) (index : Z)
| SetFormat (direction port_id flags : Z) (fmt : option bytes)
| SetIo (direction port_id io : Z)
| UseBuffers (direction port_id : Z) (buffers : list HostBuffer)
| ReuseBufferOf (port_id buffer_id : Z)
| ProcessInput
| ProcessOutput
| WriteIo (p : Z) (io : SpaPortIO).

Inductive step :=
| Element (c : element_call)
| Method (m : client_node_method)
| DataReady (rmask : Z)
| Initialized (max_input_ports max_output_ports n_input_ports n_output_ports : Z)
| LoopChanged (loop : Z)
| GetFds
| PeerWrites (m : bytes).

Section System.
Context `{PinosType} `{Kernel} `{Heap}.

(** The host writes the IO areas of its ports itself. *)
Definition element_call_ (c : element_call) : Proxy unit :=
  match c with
  | SendCommand command => spa_proxy_node_send_command command ;;; ret tt
  | AddPort direction port_id => spa_proxy_node_add_port direction port_id ;;; ret tt
  | RemovePort direction port_id => spa_proxy_node_remove_port direction port_id ;;; ret tt
  | EnumFormats direction port_id filter index => spa_proxy_node_port_enum_formats direction port_id filter index ;;; ret tt
  | SetFormat direction port_id flags fmt => spa_proxy_node_port_set_format direction port_id flags fmt ;;; ret tt
  | SetIo direction port_id io => spa_proxy_node_port_set_io direction port_id io ;;; ret tt
  | UseBuffers direction port_id buffers => spa_proxy_node_port_use_buffers direction port_id buffers ;;; ret tt
  | ReuseBufferOf port_id buffer_id => spa_proxy_node_port_reuse_buffer port_id buffer_id ;;; ret tt
  | ProcessInput => spa_proxy_node_process_input ;;; ret tt
  | ProcessOutput => spa_proxy_node_process_output ;;; ret tt
  | WriteIo p io => put_io p io
  end.

Context (node : node_callback -> PinosClientNode -> list element_call).

(** What the host does when it is called back. *)
Definition host_calls (cb : node_callback) : Proxy unit := calls <- gets (node cb) ;; each calls element_call_.

Definition perform (st : step) : Proxy unit :=
  match st with
  | Element c => element_call_ c
  | Method m => handle_client_node_method host_calls m
  | DataReady rmask => proxy_on_data_fd_events host_calls rmask
  | Initialized a b c d => on_initialized a b c d
  | LoopChanged loop => on_loop_changed loop
  | GetFds => pinos_client_node_get_fds ;;; ret tt
  | PeerWrites m => modify (with_cn_area m)
  end.
End System.
