(* ===== verification/ClientNodeTheory.v ===== *)
(** The proxy of a client node: its counts of ports, and its formats. *)
From stdpp Require Import gmap.
From S2P Require Import Prelude State Defs Pod PodTheory Props Interfaces Mem Transport Loop NodeEvents ClientNode.

(** ** The counts of ports

    [counted d e]: the counts are [d] and [e] away from the numbers of valid ports. While a
    port is removed the count is one too low. *)

Definition n_valid (l : list SpaProxyPort) : Z := zlen (filter (fun p => valid p = true) l).

Record counted (d e : Z) (s : PinosClientNode) : Prop := {
  c_ins : length (in_ports s) = 64%nat;
  c_outs : length (out_ports s) = 64%nat;
  c_n_inputs : px_n_inputs s = u32 (n_valid (in_ports s) + d);
  c_n_outputs : px_n_outputs s = u32 (n_valid (out_ports s) + e)
}.

Definition shift (direction : Z) (x : Z) (de : Z * Z) : Z * Z :=
  if is_input direction then (fst de + x, snd de) else (fst de, snd de + x).
Abbreviation off de := (counted (fst de) (snd de)).

Lemma n_valid_insert l i p q : l !! i = Some p ->
  n_valid (<[i := q]> l) = n_valid l - Z.b2z (valid p) + Z.b2z (valid q).
Proof.
  intros Hi. pose proof (lookup_lt_Some _ _ _ Hi). unfold n_valid.
  rewrite insert_take_drop by done. rewrite <- (take_drop_middle l i p Hi) at 3.
  rewrite !filter_app, !filter_cons, !zlen_app.
  destruct (valid p), (valid q); repeat case_decide; rewrite ?zlen_cons; simpl; try done; lia.
Qed.
Lemma n_valid_nonneg l : 0 <= n_valid l.
Proof. apply zlen_nonneg. Qed.
Lemma n_valid_bound l : n_valid l <= zlen l.
Proof. unfold n_valid, zlen. pose proof (length_filter (fun p => valid p = true) l). lia. Qed.

Lemma zlen_valid_ids l : zlen (valid_ids l) = n_valid l.
Proof.
  unfold valid_ids, n_valid.
  assert (forall g : nat -> nat, zlen (omap (fun ip : nat * SpaProxyPort => if valid (snd ip) then Some (Z.of_nat (fst ip)) else None)
            (imap (fun i p => (g i, p)) l)) = zlen (filter (fun p => valid p = true) l)) as Hg; [| exact (Hg (fun i => i))].
  induction l as [|p l IH]; intros g; [done |]. cbn [imap omap list_omap]. rewrite filter_cons.
  specialize (IH (fun i => g (S i))). simpl. destruct (valid p); case_decide; try done.
  rewrite !zlen_cons. by rewrite <- IH.
Qed.

Lemma u32_add a b : u32 (u32 a + b) = u32 (a + b).
Proof. unfold u32. by rewrite Zplus_mod_idemp_l. Qed.

(** Replacing a port, and what that does to the counts. *)
Lemma counted_replace de direction i p q s : off de s -> port_at direction i s = Some p ->
  off (shift direction (Z.b2z (valid p) - Z.b2z (valid q)) de) (with_ports_of direction (<[Z.to_nat i := q]> (ports_of direction s)) s).
Proof.
  intros [Hi Ho Hni Hno] Hp. unfold port_at, ports_of, with_ports_of, shift in *.
  destruct (is_input direction); split; simpl; rewrite ?length_insert, ?(n_valid_insert _ _ _ q Hp); try done;
    [rewrite Hni | rewrite Hno]; f_equal; lia.
Qed.

Lemma counted_count de direction x s : off de s -> off (shift direction x de) (count_ports direction x s).
Proof.
  intros [Hi Ho Hni Hno]. unfold count_ports, shift. destruct (is_input direction); split; simpl; try done;
    [rewrite Hni | rewrite Hno]; rewrite u32_add; f_equal; lia.
Qed.

Lemma shift_0 direction de : shift direction 0 de = de.
Proof. unfold shift. destruct de. destruct (is_input direction); simpl; by rewrite Z.add_0_r. Qed.
Lemma shift_shift direction x y de : shift direction x (shift direction y de) = shift direction (y + x) de.
Proof. unfold shift. destruct de. destruct (is_input direction); simpl; f_equal; lia. Qed.

Create HintDb ports.
Ltac port_step :=
  lazymatch goal with
  | |- preserves _ (bind _ _) => apply preserves_bind; [| intros ?]
  | |- preserves _ (ret _) => apply preserves_ret
  | |- preserves _ undef => apply preserves_undef
  | |- preserves _ (lift _) => apply preserves_lift
  | |- preserves _ (gets _) => apply preserves_gets
  | |- preserves _ (modify (fun s => with_n_ports _ _ _)) => fail
  | |- preserves _ (modify _) => apply preserves_modify; let H := fresh in intros ? H; destruct H; split; assumption
  | |- preserves _ (when _ _) => apply preserves_when; intros ?
  | |- preserves _ (let _ := _ in _) => cbv zeta
  | |- preserves _ (if ?b then _ else _) => destruct b eqn:?
  | |- preserves _ (match ?x with _ => _ end) => destruct x eqn:?
  | |- preserves _ _ => first [assumption | solve [auto with ports]]
  end.
Ltac port_all := repeat port_step.

Section Counts.
Context `{PinosType} `{Kernel} `{Heap}.
Context (host : node_callback -> Proxy unit).

Section Off.
Context (de : Z * Z).

Lemma update_port_keeps direction i f : (forall p, valid (f p) = valid p) -> preserves (off de) (update_port direction i f).
Proof.
  intros Hf s [] s' Hs. unfold update_port, get_port, set_port. unfold bind, gets, lift, modify. cbn [obind].
  destruct (port_at direction i s) as [p|] eqn:Hp; [| done]. intros [= <-].
  pose proof (counted_replace _ _ _ _ (f p) _ Hs Hp) as Hc. by rewrite Hf, Z.sub_diag, shift_0 in Hc.
Qed.

Lemma update_valid_keeps direction i f : (forall p, valid (f p) = valid p) ->
  preserves (fun s => port_valid direction i s = true) (update_port direction i f).
Proof.
  intros Hf s [] s' Hv. unfold update_port, get_port, set_port. unfold bind, gets, lift, modify. cbn [obind].
  destruct (port_at direction i s) as [p|] eqn:Hp; [| done]. intros [= <-].
  unfold port_valid in *. rewrite Hp in Hv. unfold port_at, ports_of, with_ports_of in *.
  destruct (is_input direction); simpl; rewrite list_lookup_insert_eq by (by eapply lookup_lt_Some); simpl; by rewrite Hf.
Qed.
End Off.

Lemma clear_buffers_keeps de direction i : preserves (off de) (clear_buffers direction i).
Proof.
  intros s r s' Hs. unfold clear_buffers, get_port, set_port, when. unfold bind, gets, lift, modify. cbn [obind].
  destruct (port_at direction i s) as [p|] eqn:Hp; [| done]. cbn [of_option obind]. case_if; [| by intros [= <- <-]].
  destruct (pinos_memblock_free _ _) as [[mem proc]| |]; [| done..]. cbn [obind]. intros [= <- <-].
  pose proof (counted_replace de direction i p (port_with_buffers 0 (sizes p) mem p) s Hs Hp) as Hc.
  simpl in Hc. rewrite Z.sub_diag, shift_0 in Hc. destruct Hc as [Hi Ho Hni Hno].
  unfold ports_of, with_ports_of in *. destruct (is_input direction); split; assumption.
Qed.

(** Updating a port keeps the counts right and leaves it valid. *)
Definition updated (de : Z * Z) (direction i : Z) (s : PinosClientNode) : Prop := off de s /\ port_valid direction i s = true.

Lemma do_update_port_spec de direction i mask formats fmt info :
  hoare (off de) (do_update_port direction i mask formats fmt info) (fun _ => updated de direction i).
Proof.
  unfold do_update_port.
  do 3 (apply after_preserves; [port_all; by apply update_port_keeps | intros _]).
  intros s [] s' Hs. unfold get_port, set_port, when. unfold bind, gets, lift, modify. cbn [obind].
  destruct (port_at direction i s) as [p|] eqn:Hp; [| done]. cbn [of_option obind].
  destruct (valid p) eqn:Hv; cbn [negb]; intros [= <-].
  { split; [done |]. unfold port_valid. by rewrite Hp. }
  pose proof (counted_replace de direction i p (port_with_valid true (port_with_format None p)) s Hs Hp) as Hc.
  apply (counted_count _ direction 1) in Hc. rewrite Hv, shift_shift, shift_0 in Hc. split; [exact Hc |].
  clear Hc. unfold port_valid, port_at, count_ports, with_ports_of, ports_of in *.
  destruct (is_input direction); simpl; by rewrite list_lookup_insert_eq by (by eapply lookup_lt_Some).
Qed.

Lemma clear_buffers_valid direction i : preserves (fun s => port_valid direction i s = true) (clear_buffers direction i).
Proof.
  intros s r s' Hs. unfold clear_buffers, get_port, set_port. unfold bind, gets, lift, modify. cbn [obind].
  destruct (port_at direction i s) as [p|] eqn:Hp; [| done]. cbn [of_option obind]. case_if; [| by intros [= <- <-]].
  destruct (pinos_memblock_free _ _) as [[mem proc]| |]; [| done..]. cbn [obind]. intros [= <- <-].
  unfold port_valid in *. rewrite Hp in Hs. unfold port_at, ports_of, with_ports_of in *.
  destruct (is_input direction); simpl in *; rewrite list_lookup_insert_eq by (by eapply lookup_lt_Some); done.
Qed.

Lemma clear_port_spec de direction i : hoare (off de) (clear_port direction i) (fun _ => updated de direction i).
Proof.
  unfold clear_port. eapply hoare_bind; [apply do_update_port_spec | intros []].
  eapply hoare_bind; [| intros r; apply hoare_ret].
  intros s r s' [Hs Hv] Hrun. split; [by eapply clear_buffers_keeps | by eapply clear_buffers_valid].
Qed.

(** One port less: the count goes down first. *)
Lemma do_uninit_port_keeps de direction i : preserves (off de) (do_uninit_port direction i).
Proof.
  unfold do_uninit_port. eapply (hoare_bind _ _ (fun _ => off (shift direction (-1) de))).
  { intros s [] s' Hs [= <-]. by apply counted_count. }
  intros _. eapply hoare_bind; [apply clear_port_spec | intros []].
  intros s [] s' [Hs Hv]. unfold update_port, get_port, set_port. unfold bind, gets, lift, modify. cbn [obind].
  unfold port_valid in Hv. destruct (port_at direction i s) as [p|] eqn:Hp; [| done]. cbn [of_option obind]. simpl in Hv.
  intros [= <-]. pose proof (counted_replace _ direction i p (port_with_valid false p) s Hs Hp) as Hc.
  rewrite Hv, shift_shift in Hc. by rewrite shift_0 in Hc.
Qed.

(** *** The methods *)

Context (de : Z * Z).
#[local] Hint Resolve clear_buffers_keeps do_uninit_port_keeps : ports.
#[local] Hint Extern 1 (preserves _ (update_port _ _ _)) => apply update_port_keeps; done : ports.

Lemma do_update_port_keeps direction i mask formats fmt info : preserves (off de) (do_update_port direction i mask formats fmt info).
Proof. eapply hoare_weaken; [apply do_update_port_spec |]. by intros ?? [? _]. Qed.
Lemma clear_port_keeps direction i : preserves (off de) (clear_port direction i).
Proof. eapply hoare_weaken; [apply clear_port_spec |]. by intros ?? [? _]. Qed.
Lemma node_add_event_keeps ev : preserves (off de) (add_event ev).
Proof. unfold add_event, get_transport. port_all. Qed.
Lemma notify_keeps e : preserves (off de) (notify e).
Proof. unfold notify. port_all. Qed.
#[local] Hint Resolve do_update_port_keeps clear_port_keeps node_add_event_keeps notify_keeps : ports.
Lemma map_datas_keeps direction i n size datas : preserves (off de) (map_datas direction i n size datas).
Proof. revert n size. induction datas as [|d datas IH]; intros n size; simpl; port_all. Qed.
#[local] Hint Resolve map_datas_keeps : ports.
Lemma map_buffers_keeps direction i k n bufs : preserves (off de) (map_buffers direction i k n bufs).
Proof. revert k n. induction bufs as [|b bufs IH]; intros k n; simpl; unfold get_port; port_all. Qed.
Lemma enum_from_keeps l filter index mtch : preserves (off de) (enum_from l filter index mtch).
Proof. revert mtch. induction l as [|f l IH]; intros mtch; simpl; port_all. Qed.
Lemma push_inputs_keeps n i : preserves (off de) (push_inputs n i).
Proof. revert i. induction n as [|n IH]; intros i; simpl; unfold get_port, get_io, get_transport, put_io; port_all. Qed.
Lemma pull_outputs_keeps n i a b : preserves (off de) (pull_outputs n i a b).
Proof. revert i a b. induction n as [|n IH]; intros i a b; simpl; unfold get_port, get_io, get_transport, put_io; port_all. Qed.
Lemma fetch_outputs_keeps n i : preserves (off de) (fetch_outputs n i).
Proof. revert i. induction n as [|n IH]; intros i; simpl; unfold get_port, get_io, get_transport, put_io; port_all. Qed.
#[local] Hint Resolve map_buffers_keeps enum_from_keeps push_inputs_keeps pull_outputs_keeps fetch_outputs_keeps : ports.

Lemma element_call_keeps c : preserves (off de) (element_call_ c).
Proof.
  destruct c; simpl; unfold spa_proxy_node_send_command, spa_proxy_node_add_port, spa_proxy_node_remove_port,
    spa_proxy_node_port_enum_formats, spa_proxy_node_port_set_format, spa_proxy_node_port_set_io, spa_proxy_node_port_use_buffers,
    spa_proxy_node_port_reuse_buffer, spa_proxy_node_process_input, spa_proxy_node_process_output, send_need_input, send_have_output,
    do_flush, return_async, next_seq, get_port, put_io; port_all.
Qed.

Context (host_keeps : forall cb, preserves (off de) (host cb)).
#[local] Hint Resolve host_keeps : ports.

Lemma handle_node_event_keeps ev : preserves (off de) (handle_node_event host ev).
Proof. unfold handle_node_event. port_all. Qed.
#[local] Hint Resolve handle_node_event_keeps : ports.
Lemma node_dispatch_keeps fuel : preserves (off de) (dispatch_events host fuel).
Proof. induction fuel as [|fuel IH]; simpl; unfold get_transport; port_all. Qed.
#[local] Hint Resolve node_dispatch_keeps : ports.

Lemma method_keeps m : preserves (off de) (handle_client_node_method host m).
Proof.
  destruct m; simpl; unfold client_node_update, client_node_port_update, client_node_event, pinos_client_node_destroy,
    client_node_resource_destroy; port_all.
Qed.
Lemma data_ready_keeps mask : preserves (off de) (proxy_on_data_fd_events host mask).
Proof. unfold proxy_on_data_fd_events. port_all. Qed.
Lemma initialized_keeps a b c d : preserves (off de) (on_initialized a b c d).
Proof. unfold on_initialized. port_all. Qed.
Lemma get_fds_keeps : preserves (off de) pinos_client_node_get_fds.
Proof. unfold pinos_client_node_get_fds, sys_eventfd. port_all. Qed.
End Counts.

Section Steps.
Context `{PinosType} `{Kernel} `{Heap}.
Context (node : node_callback -> PinosClientNode -> list element_call).

Lemma host_calls_keeps de cb : preserves (off de) (host_calls node cb).
Proof.
  unfold host_calls. apply preserves_bind; [apply preserves_gets | intros calls]. apply preserves_each. intros c _. apply element_call_keeps.
Qed.

Lemma perform_keeps de st : preserves (off de) (perform node st).
Proof.
  destruct st; simpl.
  - apply element_call_keeps.
  - apply method_keeps, host_calls_keeps.
  - apply data_ready_keeps, host_calls_keeps.
  - apply initialized_keeps.
  - unfold on_loop_changed. port_all.
  - apply preserves_bind; [apply get_fds_keeps | intros _; apply preserves_ret].
  - port_all.
Qed.

Lemma new_counted loop r p : counted 0 0 (pinos_client_node_new loop r p).
Proof. split; done. Qed.

(** C29: Whatever the server asks of a client node, whatever the client sends, and however
    the host answers when it is called back: the numbers of ports the node reports are the
    numbers of its valid ports, and asking for the ids of that many ports gives all the
    valid ones. *)
Theorem ports_counted loop r p steps s :
  each steps (perform node) (pinos_client_node_new loop r p) = Done (tt, s) ->
  px_n_inputs s = zlen (valid_ids (in_ports s)) /\ px_n_outputs s = zlen (valid_ids (out_ports s)) /\
  spa_proxy_node_get_port_ids (px_n_inputs s) (px_n_outputs s) s = (valid_ids (in_ports s), valid_ids (out_ports s)).
Proof.
  intros Hrun. destruct (preserves_each (off (0, 0)) steps _ (fun st _ => perform_keeps (0, 0) st) _ _ _ (new_counted loop r p) Hrun) as [Hi Ho Hni Hno].
  unfold spa_proxy_node_get_port_ids. rewrite Hni, Hno, !zlen_valid_ids. simpl. rewrite !Z.add_0_r.
  pose proof (n_valid_bound (in_ports s)). pose proof (n_valid_bound (out_ports s)).
  pose proof (n_valid_nonneg (in_ports s)). pose proof (n_valid_nonneg (out_ports s)).
  rewrite !u32_small by (unfold is_u32, zlen in *; lia). split_and!; [done.. |].
  rewrite <- !zlen_valid_ids. by rewrite !to_nat_zlen, !firstn_all.
Qed.
End Steps.

(** ** Formats *)

Section Formats.
Context `{PinosType} `{Kernel} `{Heap}.

(** Writing [d] behind [a] in a buffer of 1024 bytes: all of it or nothing. *)
Lemma raw_fixed (b : SpaPODBuilder Fixed) (d : bytes) :
  fixed_size (bw b) = 1024 -> zlen (fixed_data (bw b)) = 1024 -> 0 <= Pod.offset b -> 0 < zlen d -> Pod.offset b + zlen d < 2 ^ 32 ->
  exists b' ref, spa_pod_builder_raw b d = Done (b', ref) /\ Pod.offset b' = Pod.offset b + zlen d /\
    fixed_size (bw b') = 1024 /\ zlen (fixed_data (bw b')) = 1024 /\
    fixed_data (bw b') = if Pod.offset b + zlen d <=? 1024
      then take (Z.to_nat (Pod.offset b)) (fixed_data (bw b)) ++ d ++ drop (Z.to_nat (Pod.offset b + zlen d)) (fixed_data (bw b))
      else fixed_data (bw b).
Proof.
  intros Hs Hl Ho Hd Hlt. pose proof (zlen_nonneg d). unfold spa_pod_builder_raw. simpl. unfold fixed_append.
  rewrite Hs, !u32_small by (unfold is_u32; lia). rewrite Z.gtb_ltb. destruct (Pod.offset b + zlen d <=? 1024) eqn:Hle; bool_to_prop.
  - rewrite (proj2 (Z.ltb_ge _ _)) by lia.
    destruct (mwrite_defined (Pod.offset b) d (fixed_data (bw b))) as (m & Hm); [lia | lia |]. rewrite Hm. simpl.
    pose proof (mwrite_length _ _ _ _ Hm) as Hlen. unfold mwrite in Hm. destruct (in_range _ _ _); [| done]. injection Hm as <-.
    eexists _, _. split; [done |]. split_and!; try done; simpl; lia.
  - rewrite (proj2 (Z.ltb_lt _ _)) by lia. simpl. eexists _, _. split; [done |]. by split_and!.
Qed.

(** Copying [d] to the front, and the padding behind it. *)
Lemma copy_to_front (buf d : bytes) : zlen buf = 1024 -> 8 <= zlen d < 2 ^ 31 ->
  exists b' ref, spa_pod_builder_raw_padded (spa_pod_builder_init (mkFixed buf 1024)) d = Done (b', ref) /\
    zlen (fixed_data (bw b')) = 1024 /\
    if zlen d <=? 1024 then exists rest, fixed_data (bw b') = d ++ rest else fixed_data (bw b') = buf.
Proof.
  intros Hbuf Hd. unfold spa_pod_builder_raw_padded. rewrite (proj2 (Z.eqb_neq _ 0)) by lia.
  destruct (raw_fixed (spa_pod_builder_init (mkFixed buf 1024)) d) as (b1 & ref & -> & Ho & Hs & Hl & Hdata); [done | done | done | lia | simpl; lia |].
  cbn [obind]. simpl in Ho, Hdata. rewrite ?Z.add_0_l in Ho, Hdata. unfold spa_pod_builder_pad. rewrite ROUND_UP_8. pose proof (round8_bounds (zlen d)).
  rewrite !(u32_small (round8 _)), !u32_small by (unfold is_u32; lia).
  assert (if zlen d <=? 1024 then exists rest, fixed_data (bw b1) = d ++ rest else fixed_data (bw b1) = buf) as Hb1
    by (rewrite Hdata; case_if; [by eexists | done]). clear Hdata.
  case_if; [exists b1, ref; by split_and! |].
  assert (zlen (Pod.zeros (round8 (zlen d) - zlen d)) = round8 (zlen d) - zlen d) as Hz by (apply zlen_zeros; lia).
  destruct (raw_fixed b1 (Pod.zeros (round8 (zlen d) - zlen d))) as (b2 & ref2 & -> & Ho2 & Hs2 & Hl2 & Hdata2);
    [done | done | lia | lia | lia |].
  cbn [obind]. exists b2, ref. split_and!; [done | done |]. rewrite Hdata2, Ho, Hz. case_if.
  - destruct Hb1 as [rest Hb1]. replace (zlen d + (round8 (zlen d) - zlen d)) with (round8 (zlen d)) by lia.
    rewrite (proj2 (Z.leb_le _ _)) by (unfold round8 in *; Z.div_mod_to_equations; lia).
    rewrite Hb1. eexists. rewrite take_zlen_app by lia. done.
  - by rewrite (proj2 (Z.leb_gt _ _)) by lia.
Qed.

(** A format as [pinos_spa_pod_copy] leaves it. *)
Definition sized (f : bytes) : Prop := 8 <= zlen f < 2 ^ 31 /\ load32 0 f = Some (zlen f - 8).

(** Without a filter, the proxy enumerates the formats that the client announced for the
    port, one by one, and then ends; a format of more than the 1024 bytes of the buffer is
    announced as found, but what is returned is what the buffer held before. *)
Theorem enum_formats_unfiltered direction i p k s :
  CHECK_PORT s direction i = true -> port_at direction i s = Some p -> Forall sized (formats p) ->
  zlen (format_buffer s) = 1024 -> 0 <= k ->
  match formats p !! Z.to_nat k with
  | Some f =>
      exists buf, spa_proxy_node_port_enum_formats direction i None k s = Done (SPA_RESULT_OK, Some buf, with_format_buffer buf s) /\
        zlen buf = 1024 /\ if zlen f <=? 1024 then exists rest, buf = f ++ rest else buf = format_buffer s
  | None => spa_proxy_node_port_enum_formats direction i None k s = Done (SPA_RESULT_ENUM_END, None, s)
  end.
Proof.
  intros Hc Hp Hsz Hbuf Hk. unfold spa_proxy_node_port_enum_formats, get_port. unfold bind, gets, lift. cbn [obind]. unfold id.
  rewrite Hc. cbn [negb obind]. rewrite Hp. cbn [of_option obind].
  destruct (formats p !! Z.to_nat k) as [f|] eqn:Hf.
  - pose proof (lookup_lt_Some _ _ _ Hf) as Hlt. rewrite (drop_S _ _ _ Hf). cbn [enum_from]. unfold bind, gets, lift, modify. cbn [obind].
    destruct (Forall_lookup_1 _ _ _ _ Hsz Hf) as [Hfs Hld]. unfold spa_format_filter, pod_size_at. rewrite Hld. cbn [fmap option_fmap option_map of_option obind].
    rewrite u32_small by (unfold is_u32; lia). rewrite mread_all by lia. cbn [of_option obind].
    destruct (copy_to_front (format_buffer s) f Hbuf Hfs) as (b & ref & -> & Hl & Hd). cbn [obind].
    rewrite (Z.eqb_refl k). simpl. by exists (fixed_data (bw b)).
  - rewrite drop_ge by (apply lookup_ge_None; done). done.
Qed.
End Formats.

(** A client announces a port, removes another that was never there, and then its own. *)
#[local] Instance types : PinosType := Build_PinosType 1 2 3 4 5 6 7 8 9 10 11 12 13.
Definition no_kernel : Kernel.
Proof. by refine (Build_Kernel (fun _ => None) (fun _ _ => None) (fun _ _ => None) (fun _ => false) _ _ _). Defined.
#[local] Existing Instance no_kernel.

Definition silent (cb : node_callback) (s : PinosClientNode) : list element_call := [].
Definition no_process : process := mkProcess ∅ ∅ ∅ 0.
Definition announce (direction port_id mask : Z) : step := Method (CnPortUpdate direction port_id mask [] None None (Some zero_info)).
Definition port_story : list step := [announce 1 0 9; announce 0 3 9; announce 0 7 0; announce 0 3 0].

Lemma ports_counted_witness :
  exists s, each port_story (perform silent) (pinos_client_node_new 5 1 no_process) = Done (tt, s) /\
    spa_proxy_node_get_port_ids (px_n_inputs s) (px_n_outputs s) s = ([], [0]).
Proof.
  destruct (each port_story (perform silent) (pinos_client_node_new 5 1 no_process)) as [[[] s]| |] eqn:Hrun;
    [| exfalso; vm_compute in Hrun; discriminate Hrun..].
  exists s. split; [done |]. pose proof (proj2 (proj2 (ports_counted silent 5 1 no_process port_story s Hrun))) as Hids.
  rewrite Hids. clear Hids. revert Hrun. vm_compute. by intros [= <-].
Defined.

(** A port with one format, asked for its first. *)
Definition one_format : list bytes := [SPA_EVENT_INIT 7].
Definition with_formats : PinosClientNode :=
  with_out_ports (<[0%nat := port_with_valid true (port_with_formats one_format zero_port)]> (replicate 64 zero_port)) (pinos_client_node_new 5 1 no_process).
Lemma enum_formats_unfiltered_witness :
  exists buf, spa_proxy_node_port_enum_formats SPA_DIRECTION_OUTPUT 0 None 0 with_formats = Done (SPA_RESULT_OK, Some buf, with_format_buffer buf with_formats) /\
    zlen buf = 1024 /\ take 16 buf = SPA_EVENT_INIT 7.
Proof.
  assert (Forall sized one_format) as Hsz by (repeat constructor; vm_compute; congruence).
  pose proof (enum_formats_unfiltered SPA_DIRECTION_OUTPUT 0 (port_with_valid true (port_with_formats one_format zero_port)) 0 with_formats
    eq_refl eq_refl Hsz eq_refl (Z.le_refl 0)) as Henum. cbn iota beta in Henum.
  destruct Henum as (buf & Hrun & Hl & rest & Hd). exists buf. split; [exact Hrun |]. split; [exact Hl |]. rewrite Hd. reflexivity.
Defined.
