(* ===== verification/Exchange.v ===== *)
(** The memory that a stream and its client node share, in the case there is: one output
    port. [shares] says what is in it; the lemmas are what either side reads and writes. *)
From S2P Require Import Prelude State Defs Pod Mem Ringbuffer Transport NodeEvents.

(** ** IO areas *)

Definition io_bytes (x : SpaPortIO) : bytes := le32 (status x) ++ le32 (buffer_id x) ++ range x.
Definition io_ok (x : SpaPortIO) : Prop := is_u32 (status x) /\ is_u32 (buffer_id x) /\ zlen (range x) = 16.

(** The buffer that is in an IO area. *)
Definition slot_ids (x : SpaPortIO) : list Z := if buffer_id x =? SPA_ID_INVALID then [] else [buffer_id x].

Definition with_buffer_id (b : Z) (x : SpaPortIO) : SpaPortIO := mkIO (status x) b (range x).
Definition with_status (v : Z) (x : SpaPortIO) : SpaPortIO := mkIO v (buffer_id x) (range x).

(** In front of the rings: the counts and the area of the port. *)
Definition counts : bytes := area_bytes (mkArea 0 0 1 1).
Definition head (x : SpaPortIO) : bytes := counts ++ io_bytes x.

Lemma zlen_counts : zlen counts = 16.
Proof. unfold counts, area_bytes. simpl. zlia. Qed.
Lemma zlen_io x : io_ok x -> zlen (io_bytes x) = 24.
Proof. intros (_ & _ & Hr). unfold io_bytes. zlia. Qed.
Lemma zlen_head x : io_ok x -> zlen (head x) = 40.
Proof. intros Hx. unfold head. rewrite zlen_app, zlen_counts, zlen_io; done. Qed.

Lemma io_ok_buffer b x : is_u32 b -> io_ok x -> io_ok (with_buffer_id b x).
Proof. intros Hb (? & ? & ?). done. Qed.
Lemma io_ok_status v x : is_u32 v -> io_ok x -> io_ok (with_status v x).
Proof. intros Hb (? & ? & ?). done. Qed.

Section Head.
Context (x : SpaPortIO) (rest : bytes) (Hx : io_ok x).

Lemma read_status : get_io_status 16 (head x ++ rest) = Done (status x).
Proof.
  unfold get_io_status, head, io_bytes. rewrite <- !app_assoc, load32_in by (by rewrite zlen_counts). rewrite u32_small by apply Hx. done.
Qed.
Lemma read_buffer_id : get_io_buffer_id 16 (head x ++ rest) = Done (buffer_id x).
Proof.
  unfold get_io_buffer_id, head, io_bytes. rewrite <- !app_assoc, (app_assoc counts), load32_in by (pose proof zlen_counts; zlia).
  rewrite u32_small by apply Hx. done.
Qed.
Lemma read_n_outputs : area_n_outputs (head x ++ rest) = Done 1.
Proof.
  unfold area_n_outputs, head, counts, area_bytes. simpl. rewrite <- !app_assoc.
  rewrite (app_assoc (le32 _) (le32 _)), (app_assoc (_ ++ le32 _) (le32 1)), load32_in by zlia. done.
Qed.

Lemma read_io : load_io 16 (head x ++ rest) = Done x.
Proof.
  unfold load_io. pose proof read_status as Hs. pose proof read_buffer_id as Hb. unfold get_io_status, get_io_buffer_id in Hs, Hb.
  destruct (load32 16 _); [| done]. injection Hs as ->. destruct (load32 (16 + 4) _); [| done]. injection Hb as ->. cbn [of_option obind].
  unfold head, io_bytes. rewrite <- !app_assoc, !(app_assoc counts), !(app_assoc (counts ++ le32 _)).
  destruct Hx as (_ & _ & Hr). rewrite mread_app by (pose proof zlen_counts; zlia). by destruct x.
Qed.

Lemma write_buffer_id b : set_io_buffer_id 16 b (head x ++ rest) = Done (head (with_buffer_id b x) ++ rest).
Proof.
  unfold set_io_buffer_id, head, io_bytes. rewrite <- !app_assoc, !(app_assoc counts), mwrite_app by (pose proof zlen_counts; zlia). done.
Qed.
Lemma write_status v : set_io_status 16 v (head x ++ rest) = Done (head (with_status v x) ++ rest).
Proof.
  unfold set_io_status, head, io_bytes. rewrite <- !app_assoc, mwrite_app by (pose proof zlen_counts; zlia). done.
Qed.
Lemma write_io y : io_ok y -> store_io 16 y (head x ++ rest) = Done (head y ++ rest).
Proof.
  intros Hy. unfold store_io, head. rewrite <- !app_assoc. fold (io_bytes y).
  rewrite mwrite_app; [done | by rewrite zlen_counts | by rewrite !zlen_io].
Qed.
End Head.

(** ** The events on their way *)

Section Events.
Context `{PinosType}.

Inductive note := Reuse (b : Z) | Need.
Definition note_event (nt : note) : bytes :=
  match nt with Reuse b => reuse_buffer_event 0 b | Need => SPA_EVENT_INIT NeedInput end.
Definition note_id (nt : note) : option Z := match nt with Reuse b => Some b | Need => None end.
Definition coming (notes : list note) : list Z := omap note_id notes.
Definition have_event : bytes := SPA_EVENT_INIT HaveOutput.

Lemma note_event_ok nt : event_ok (note_event nt).
Proof. destruct nt; apply built_event_ok; zlia. Qed.
Lemma have_event_ok : event_ok have_event.
Proof. apply built_event_ok. done. Qed.
Lemma zlen_note nt : zlen (note_event nt) <= 48.
Proof. destruct nt; unfold note_event, reuse_buffer_event, SPA_EVENT_INIT; rewrite zlen_event; zlia. Qed.
Lemma zlen_note_ge nt : 16 <= zlen (note_event nt).
Proof. destruct nt; unfold note_event, reuse_buffer_event, SPA_EVENT_INIT; rewrite zlen_event; zlia. Qed.

(** The memory [m] of the two transports: the area of the port is [x], the client has
    [notes] to read, the server [k] announcements. *)
Definition shares (srv cli : PinosTransport) (m : bytes) (x : SpaPortIO) (notes : list note) (k : nat) : Prop :=
  io_ok x /\ outputs srv = 16 /\ outputs cli = 16 /\
  exists sp, implements_at (head x) (mkShared srv cli m) sp /\
    Spec.inbox sp Client = map note_event notes /\ Spec.inbox sp Server = replicate k have_event.

Lemma implements_prefix pre st sp : implements_at pre st sp -> exists rest, block st = pre ++ rest.
Proof. intros (r1 & d1 & r2 & d2 & c1 & c2 & Hm & _). by exists (ring_bytes r1 ++ d1 ++ ring_bytes r2 ++ d2). Qed.

(** The rings do not see what is in front of them. *)
Lemma implements_swap pre pre' st sp rest : implements_at pre st sp -> block st = pre ++ rest -> zlen pre' = zlen pre ->
  implements_at pre' (with_block (pre' ++ rest) st) sp.
Proof.
  intros (r1 & d1 & r2 & d2 & c1 & c2 & Hm & Hrest) Hb Hlen. rewrite Hb in Hm. apply app_inv_head in Hm as ->.
  exists r1, d1, r2, d2, c1, c2. rewrite Hlen. destruct st. exact (conj eq_refl Hrest).
Qed.

Lemma shares_split srv cli m x notes k : shares srv cli m x notes k -> exists rest, m = head x ++ rest.
Proof. intros (_ & _ & _ & sp & Him & _). by apply implements_prefix in Him. Qed.

Lemma shares_head srv cli x rest y notes k :
  shares srv cli (head x ++ rest) x notes k -> io_ok y -> shares srv cli (head y ++ rest) y notes k.
Proof.
  intros (Hx & Hs & Hc & sp & Him & Hq) Hy. split_and!; [done.. |]. exists sp. split; [| done].
  exact (implements_swap _ (head y) _ _ rest Him eq_refl ltac:(by rewrite !zlen_head)).
Qed.

(** *** Reading and adding events *)

Lemma next_outputs t m res t' e : pinos_transport_next_event t m = Done (res, t', e) -> outputs t' = outputs t.
Proof.
  unfold pinos_transport_next_event. destruct (load_ring _ m) as [r| |]; [| done..]. cbn [obind].
  destruct (spa_ringbuffer_get_read_index r) as [avail index]. case_if; [by intros [= _ <- _] |].
  destruct (ring_read _ _ _ _ m); [| done..]. by intros [= _ <- _].
Qed.

(** What a side looks at, and that it may take it. *)
Lemma look srv cli m who pre sp : implements_at pre (mkShared srv cli m) sp ->
  let t := of_side who (mkShared srv cli m) in
  exists t' e, pinos_transport_next_event t m =
      Done (match Spec.inbox sp who with [] => SPA_RESULT_ENUM_END | _ :: _ => SPA_RESULT_OK end, t', e) /\ outputs t' = outputs t /\
    exists sp', implements_at pre (with_side who t' (mkShared srv cli m)) sp' /\ Spec.inbox sp' = Spec.inbox sp /\
      Spec.peeked sp' who = negb (bool_decide (Spec.inbox sp who = [])).
Proof.
  intros Him t.
  assert (exists res e sp', Spec.call who NextEvent sp = Some (res, e, sp') /\ Spec.inbox sp' = Spec.inbox sp /\
    res = match Spec.inbox sp who with [] => SPA_RESULT_ENUM_END | _ :: _ => SPA_RESULT_OK end /\
    Spec.peeked sp' who = negb (bool_decide (Spec.inbox sp who = []))) as (res & e & sp' & Hcall & Hq & Hres & Hpk).
  { simpl. destruct (Spec.inbox sp who) as [|ev q]; (eexists _, _, _; split; [done |]);
      unfold Spec.upd; simpl; by rewrite decide_True. }
  destruct (call_refines_at _ _ NextEvent _ _ _ _ _ Him I Hcall) as (st' & Hrun & Him'). simpl in Hrun.
  fold t in Hrun. destruct (pinos_transport_next_event t m) as [[[r t'] ev]| |] eqn:Hnext; [| done..].
  cbn [obind] in Hrun. injection Hrun as -> -> <-. exists t', e. rewrite Hres. split; [done |].
  split; [by eapply next_outputs |]. by exists sp'.
Qed.

Lemma take_one srv cli m who pre sp ev q : implements_at pre (mkShared srv cli m) sp ->
  Spec.inbox sp who = ev :: q -> Spec.peeked sp who = true ->
  exists m', pinos_transport_parse_event (of_side who (mkShared srv cli m)) m = Done (SPA_RESULT_OK, ev, m') /\
    exists sp', implements_at pre (mkShared srv cli m') sp' /\ Spec.inbox sp' = Spec.upd (Spec.inbox sp) who q.
Proof.
  intros Him Hq Hpk.
  assert (Spec.call who ParseEvent sp = Some (SPA_RESULT_OK, ev, Spec.mk (Spec.upd (Spec.inbox sp) who q) (Spec.upd (Spec.peeked sp) who false)))
    as Hcall by (simpl; by rewrite Hq, Hpk).
  destruct (call_refines_at _ _ ParseEvent _ _ _ _ _ Him I Hcall) as (st' & Hrun & Him'). simpl in Hrun.
  destruct (pinos_transport_parse_event _ m) as [[[r e] m']| |]; [| done..]. cbn [obind] in Hrun. injection Hrun as -> -> <-.
  exists m'. split; [done |]. eexists. split; [exact Him' | done].
Qed.

Lemma add_one srv cli m who pre sp ev : implements_at pre (mkShared srv cli m) sp -> event_ok ev ->
  exists res m', pinos_transport_add_event (of_side who (mkShared srv cli m)) ev m = Done (res, m') /\
    exists sp', implements_at pre (mkShared srv cli m') sp' /\
      Spec.inbox sp' = if total (Spec.inbox sp (Spec.other who)) + zlen ev <=? 4096
                       then Spec.upd (Spec.inbox sp) (Spec.other who) (Spec.inbox sp (Spec.other who) ++ [ev]) else Spec.inbox sp.
Proof.
  intros Him Hev.
  assert (exists res sp', Spec.call who (AddEvent ev) sp = Some (res, [], sp') /\
    Spec.inbox sp' = if total (Spec.inbox sp (Spec.other who)) + zlen ev <=? 4096
                     then Spec.upd (Spec.inbox sp) (Spec.other who) (Spec.inbox sp (Spec.other who) ++ [ev]) else Spec.inbox sp)
    as (res & sp' & Hcall & Hq) by (simpl; case_if; by eexists _, _).
  destruct (call_refines_at _ _ (AddEvent ev) _ _ _ _ _ Him Hev Hcall) as (st' & Hrun & Him'). simpl in Hrun.
  destruct (pinos_transport_add_event _ ev m) as [[r m']| |]; [| done..]. cbn [obind] in Hrun. injection Hrun as -> <-.
  exists res, m'. split; [done |]. by exists sp'.
Qed.

(** *** The client *)

Lemma client_takes srv cli m x nt notes k : shares srv cli m x (nt :: notes) k ->
  exists cli' e m', pinos_transport_next_event cli m = Done (SPA_RESULT_OK, cli', e) /\
    pinos_transport_parse_event cli' m = Done (SPA_RESULT_OK, note_event nt, m') /\ shares srv cli' m' x notes k.
Proof.
  intros (Hx & Hs & Hc & sp & Him & Hq & Hh). destruct (look _ _ _ Client _ _ Him) as (cli' & e & Hnext & Ho & sp1 & Him1 & Hq1 & Hpk).
  rewrite Hq in Hnext, Hpk. simpl in Hnext, Ho, Him1.
  destruct (take_one _ _ _ Client _ _ (note_event nt) (map note_event notes) Him1) as (m' & Hparse & sp2 & Him2 & Hq2); [by rewrite Hq1 | done |].
  exists cli', e, m'. split; [done |]. split; [done |]. split_and!; [done | done | congruence |]. exists sp2. split; [done |].
  rewrite Hq2, Hq1. done.
Qed.
Lemma client_done srv cli m x k : shares srv cli m x [] k ->
  exists cli' e, pinos_transport_next_event cli m = Done (SPA_RESULT_ENUM_END, cli', e) /\ shares srv cli' m x [] k.
Proof.
  intros (Hx & Hs & Hc & sp & Him & Hq & Hh). destruct (look _ _ _ Client _ _ Him) as (cli' & e & Hnext & Ho & sp1 & Him1 & Hq1 & Hpk).
  rewrite Hq in Hnext. exists cli', e. split; [done |]. split_and!; [done | done | simpl in Ho; congruence |]. exists sp1. by rewrite Hq1.
Qed.
(** An announcement may be dropped. *)
Lemma client_announces srv cli m x notes k : shares srv cli m x notes k ->
  exists res m' k', pinos_transport_add_event cli have_event m = Done (res, m') /\ shares srv cli m' x notes k'.
Proof.
  intros (Hx & Hs & Hc & sp & Him & Hq & Hh). destruct (add_one _ _ _ Client _ _ _ Him have_event_ok) as (res & m' & Hadd & sp' & Him' & Hq').
  exists res, m'. simpl in Hq', Hadd. rewrite Hh in Hq'. destruct (_ <=? 4096).
  - exists (S k). split; [done |]. split_and!; try done. exists sp'. split; [done |]. rewrite Hq'. unfold Spec.upd. simpl. split; [done |].
    by rewrite <- replicate_cons_app.
  - exists k. split; [done |]. split_and!; try done. exists sp'. by rewrite Hq'.
Qed.

(** *** The server *)

Lemma server_takes srv cli m x notes k : shares srv cli m x notes (S k) ->
  exists srv' e m', pinos_transport_next_event srv m = Done (SPA_RESULT_OK, srv', e) /\
    pinos_transport_parse_event srv' m = Done (SPA_RESULT_OK, have_event, m') /\ shares srv' cli m' x notes k.
Proof.
  intros (Hx & Hs & Hc & sp & Him & Hq & Hh). destruct (look _ _ _ Server _ _ Him) as (srv' & e & Hnext & Ho & sp1 & Him1 & Hq1 & Hpk).
  rewrite Hh in Hnext, Hpk. simpl in Hnext, Ho, Him1.
  destruct (take_one _ _ _ Server _ _ have_event (replicate k have_event) Him1) as (m' & Hparse & sp2 & Him2 & Hq2); [by rewrite Hq1 | done |].
  exists srv', e, m'. split; [done |]. split; [done |]. split_and!; [done | congruence | done |]. exists sp2. split; [done |].
  rewrite Hq2, Hq1. done.
Qed.
Lemma server_done srv cli m x notes : shares srv cli m x notes 0 ->
  exists srv' e, pinos_transport_next_event srv m = Done (SPA_RESULT_ENUM_END, srv', e) /\ shares srv' cli m x notes 0.
Proof.
  intros (Hx & Hs & Hc & sp & Him & Hq & Hh). destruct (look _ _ _ Server _ _ Him) as (srv' & e & Hnext & Ho & sp1 & Him1 & Hq1 & Hpk).
  rewrite Hh in Hnext. exists srv', e. split; [done |]. split_and!; [done | simpl in Ho; congruence | done |]. exists sp1. by rewrite Hq1.
Qed.

(** The bytes the notes take. *)
Definition weight (notes : list note) : Z := total (map note_event notes).
Lemma weight_snoc notes nt : weight (notes ++ [nt]) = weight notes + zlen (note_event nt).
Proof. unfold weight. rewrite map_app. apply total_snoc. Qed.

Lemma weight_length notes : 16 * zlen notes <= weight notes.
Proof.
  induction notes as [|nt notes IH] using rev_ind; [done |]. rewrite weight_snoc, zlen_app. pose proof (zlen_note_ge nt). unfold zlen at 2. simpl. lia.
Qed.
Lemma zlen_need : zlen (note_event Need) = 16.
Proof. unfold note_event, SPA_EVENT_INIT. by rewrite zlen_event. Qed.

(** The bytes that wait for a side. *)
Definition pending (t : PinosTransport) (m : bytes) : outcome Z :=
  let* r := load_ring (input_buffer t) m in Done (fst (spa_ringbuffer_get_read_index r)).

Lemma pending_inbox pre st sp who : implements_at pre st sp -> pending (of_side who st) (block st) = Done (total (Spec.inbox sp who)).
Proof.
  intros (r1 & d1 & r2 & d2 & c1 & c2 & Hm & [Hs _] & [Hc _] & Hq1 & Hq2 & _). destruct (carries_words _ _ _ _ Hq1) as (Hw1 & Hd1 & _).
  destruct (carries_words _ _ _ _ Hq2) as (Hw2 & _). unfold pending. destruct who; cbn [of_side].
  - rewrite Hs, Hm, load_ring_ok by done. cbn [obind]. by rewrite (carries_avail _ _ _ _ Hq1).
  - destruct (pieces_second pre r1 d1 r2 d2 [] Hd1) as [Heq Hl]. rewrite Hc, Hm, Heq, <- Hl, load_ring_ok by done. cbn [obind].
    by rewrite (carries_avail _ _ _ _ Hq2).
Qed.

Lemma pending_notes srv cli m x notes k : shares srv cli m x notes k -> pending cli m = Done (weight notes).
Proof. intros (_ & _ & _ & sp & Him & Hq & _). unfold weight. rewrite <- Hq. exact (pending_inbox _ _ _ Client Him). Qed.
Lemma pending_announcements srv cli m x notes k : shares srv cli m x notes k -> pending srv m = Done (16 * Z.of_nat k).
Proof.
  intros (_ & _ & _ & sp & Him & _ & Hq). rewrite (pending_inbox _ _ _ Server Him : pending srv m = _), Hq. f_equal.
  clear. induction k as [|k IH]; [done |]. replace (16 * Z.of_nat (S k)) with (16 + 16 * Z.of_nat k) by lia. rewrite <- IH. unfold total. simpl.
  by rewrite zlen_app, (zlen_need : zlen have_event = 16).
Qed.
Lemma weight_bound srv cli m x notes k : shares srv cli m x notes k -> weight notes <= 4096.
Proof.
  intros (_ & _ & _ & sp & (r1 & d1 & r2 & d2 & c1 & c2 & _ & _ & _ & _ & Hq2 & _) & Hq & _). unfold weight. rewrite <- Hq.
  by destruct (carries_words _ _ _ _ Hq2) as (_ & _ & ?).
Qed.
Lemma announcements_bound srv cli m x notes k : shares srv cli m x notes k -> 16 * Z.of_nat k <= 4096.
Proof.
  intros Hsh. pose proof (pending_announcements _ _ _ _ _ _ Hsh) as Hp. destruct Hsh as (_ & _ & _ & sp & Him & _).
  rewrite (pending_inbox _ _ _ Server Him : pending srv m = _) in Hp. injection Hp as <-.
  destruct Him as (r1 & d1 & r2 & d2 & c1 & c2 & _ & _ & _ & Hq1 & _). by destruct (carries_words _ _ _ _ Hq1) as (_ & _ & ?).
Qed.

Lemma server_sends srv cli m x notes k nt : shares srv cli m x notes k -> weight notes + zlen (note_event nt) <= 4096 ->
  exists res m', pinos_transport_add_event srv (note_event nt) m = Done (res, m') /\ shares srv cli m' x (notes ++ [nt]) k.
Proof.
  intros (Hx & Hs & Hc & sp & Him & Hq & Hh) Hroom.
  destruct (add_one _ _ _ Server _ _ _ Him (note_event_ok nt)) as (res & m' & Hadd & sp' & Him' & Hq').
  exists res, m'. simpl in Hq', Hadd. rewrite Hq in Hq'. rewrite (proj2 (Z.leb_le _ _)) in Hq' by exact Hroom.
  split; [done |]. split_and!; try done. exists sp'. split; [done |]. rewrite Hq', map_app. unfold Spec.upd. simpl. done.
Qed.
End Events.
