(* ===== verification/Streaming.v ===== *)
(** An output stream and its client node: where the buffers are.

    A buffer the application sent is in the IO area, or with the host of the node, or on
    its way back as an event; the theorem is that it is in one of these places, once, and
    that everything else is in the list of free buffers. *)
From S2P Require Import Prelude State Defs Pod Map Properties Interfaces Mem Ringbuffer Transport Loop NodeEvents Stream StreamTheory StreamRequests Exchange.

(** ** Buffers in use *)

Definition used_ids (l : list BufferId) : list Z := bid_id <$> filter (fun b => bid_used b = true) l.
Definition valid_id (b : BufferId) : Prop := is_u32 (bid_id b) /\ bid_id b <> SPA_ID_INVALID.

Lemma alter_split {A} (f : A -> A) i (l : list A) b : l !! i = Some b -> alter f i l = take i l ++ f b :: drop (S i) l.
Proof.
  intros Hb. rewrite <- (take_drop_middle l i b Hb) at 1. pose proof (lookup_lt_Some _ _ _ Hb).
  rewrite alter_app_r_alt by (rewrite length_take; lia). rewrite length_take. by replace (i - i `min` length l)%nat with 0%nat by lia.
Qed.

Lemma used_alter l i b u : l !! i = Some b ->
  used_ids (alter (with_use u) i l) ++ (if bid_used b then [bid_id b] else []) ≡ₚ used_ids l ++ (if u then [bid_id b] else []).
Proof.
  intros Hb. rewrite (alter_split _ _ _ _ Hb). unfold used_ids. rewrite <- (take_drop_middle l i b Hb) at 3.
  rewrite !filter_app, !filter_cons, !fmap_app. destruct u, (bid_used b) eqn:Hu; simpl; rewrite ?Hu;
    repeat case_decide; try done; simpl; rewrite ?app_nil_r; solve_Permutation.
Qed.

Lemma ids_alter (l : list BufferId) (i : nat) u : bid_id <$> alter (with_use u) i l = bid_id <$> l.
Proof.
  apply list_eq. intros j. rewrite !list_lookup_fmap. destruct (decide (i = j)) as [<- | Hj].
  - rewrite list_lookup_alter_eq. by destruct (l !! i).
  - by rewrite list_lookup_alter_ne.
Qed.

(** With unique ids, a buffer is found by its id. *)
Lemma index_of_id (l : list BufferId) i b : NoDup (bid_id <$> l) -> l !! i = Some b ->
  index_of (fun x => bid_id x =? bid_id b) l = Some i.
Proof.
  intros Hn Hb. apply index_of_Some. split; [exists b; split; [done | apply Z.eqb_refl] |].
  intros j y Hj Hy. apply Z.eqb_neq. intros Heq. assert (j = i); [| lia].
  eapply NoDup_lookup; [exact Hn | |]; rewrite list_lookup_fmap; [by rewrite Hy | by rewrite Hb, Heq].
Qed.

Section Client.
Context `{PinosType} `{!DistinctTypes} `{Kernel}.
Context `{Heap} (realloc_ok realloc_moves : Z -> bool) (new_proxy : list request -> option Z) (app : signal -> PinosStream -> list api).
(** The application sends buffers, whatever it hears. *)
Definition sends_only : Prop := forall sig s, Forall (fun c => exists id, c = ApiSend id /\ is_u32 id) (app sig s).
Context (Happ : sends_only) (depth : nat).
Abbreviation emit := (emit_at new_proxy app (S depth)).

Record plain (s : PinosStream) : Prop := {
  p_direction : direction s = SPA_DIRECTION_OUTPUT;
  p_port : port_id s = 0;
  p_settled : settled (pool_of s);
  p_unique : NoDup (bid_id <$> buffer_ids s);
  p_valid : Forall valid_id (buffer_ids s)
}.

(** What is in use is in the IO area, on its way back, or held by someone. While an event
    takes back the buffer of the area, the area is [stale]. *)
Definition good (srv : PinosTransport) (notes : list note) (held : list Z) (s : PinosStream) : Prop :=
  plain s /\ exists cli x k, trans s = Some cli /\ shares srv cli (area s) x notes k /\
    used_ids (buffer_ids s) ≡ₚ slot_ids x ++ coming notes ++ held.
Definition stale (srv : PinosTransport) (notes : list note) (held : list Z) (s : PinosStream) : Prop :=
  plain s /\ exists cli x k, trans s = Some cli /\ shares srv cli (area s) x notes k /\
    buffer_id x <> SPA_ID_INVALID /\ used_ids (buffer_ids s) ≡ₚ coming notes ++ held.

Lemma plain_find s id : plain s -> is_u32 id ->
  match find_buffer id s with
  | Some i => exists b, buffer_ids s !! i = Some b /\ bid_id b = id
  | None => forall b, b ∈ buffer_ids s -> bid_id b <> id
  end.
Proof.
  intros Hp Hid. rewrite find_buffer_first by first [apply (s_tidy _ (p_settled _ Hp)) | unfold is_u32 in Hid; lia].
  destruct (index_of _ _) as [i|] eqn:Hi.
  - apply index_of_Some in Hi as [(b & Hb & Heq) _]. bool_to_prop. by exists b.
  - apply index_of_None in Hi. intros b Hb. rewrite Forall_forall in Hi. specialize (Hi b Hb). simpl in Hi. by bool_to_prop.
Qed.

Lemma plain_update s s' : plain s -> settled (pool_of s') -> (bid_id <$> buffer_ids s') = (bid_id <$> buffer_ids s) ->
  direction s' = direction s -> port_id s' = port_id s -> plain s'.
Proof.
  intros [Hd Hpt _ Hn Hv] Hs Hids Hd' Hp'. split; [congruence | congruence | done | by rewrite Hids |].
  change (Forall ((fun i => is_u32 i /\ i <> SPA_ID_INVALID) ∘ bid_id) (buffer_ids s')).
  rewrite <- Forall_fmap, Hids. by apply Forall_fmap.
Qed.

(** *** Sending a buffer *)

Lemma send_busy srv cli s x notes k id : trans s = Some cli -> shares srv cli (area s) x notes k -> buffer_id x <> SPA_ID_INVALID ->
  pinos_stream_send_buffer id s = Done (false, s).
Proof.
  intros Ht Hsh Hx. destruct (shares_split _ _ _ _ _ _ Hsh) as [rest Hm]. pose proof Hsh as (Hok & _ & Ho & _).
  unfold pinos_stream_send_buffer, get_trans. run_step. rewrite Ht. run_step. rewrite Hm.
  unfold output_io. rewrite Ho, Z.mul_0_r, Z.add_0_r, (read_buffer_id x rest Hok). run_step.
  by rewrite (proj2 (Z.eqb_neq _ _)).
Qed.

(** The announcement, which nobody waits for. *)
Lemma announce_keeps srv notes held : runs (good srv notes held) send_have_output (fun _ => good srv notes held).
Proof.
  intros s [Hp (cli & x & k & Ht & Hsh & Hused)]. unfold send_have_output, add_event, get_trans, wake_up.
  destruct (client_announces _ _ _ _ _ _ Hsh) as (res & m' & k' & Hadd & Hsh').
  run_step. rewrite Ht. run_step. unfold have_event in Hadd. rewrite Hadd. run_step. eexists _, _. split; [done |].
  split; [by eapply plain_update; [exact Hp | apply (p_settled _ Hp) | ..] |]. exists cli, x, k'. done.
Qed.

Lemma send_good srv notes held id : is_u32 id -> runs (good srv notes held) (pinos_stream_send_buffer id) (fun _ => good srv notes held).
Proof.
  intros Hid s Hg. pose proof Hg as [Hp (cli & x & k & Ht & Hsh & Hused)].
  destruct (decide (buffer_id x = SPA_ID_INVALID)) as [Hx | Hx]; [| eexists _, _; split; [by eapply send_busy | done]].
  destruct (shares_split _ _ _ _ _ _ Hsh) as [rest Hm]. pose proof Hsh as (Hok & _ & Ho & _).
  pose proof (plain_find s id Hp Hid) as Hfind.
  unfold pinos_stream_send_buffer, get_trans. run_step. rewrite Ht. run_step. rewrite Hm.
  unfold output_io. rewrite Ho, Z.mul_0_r, Z.add_0_r, (read_buffer_id x rest Hok). run_step. rewrite Hx, Z.eqb_refl. cbn [negb].
  rewrite run_gets. destruct (find_buffer id s) as [i|]; [| by eexists _, _].
  destruct Hfind as (b & Hb & <-). unfold bid_at. run_step. rewrite Hb. run_step.
  destruct (bid_used b) eqn:Hub; cbn [negb when]; [by eexists _, _ |].
  pose proof (s_unused _ (p_settled _ Hp) i b Hb Hub) as Hfree. simpl in Hfree.
  unfold unlink_free. run_step. rewrite bool_decide_true by exact Hfree. run_step.
  rewrite (write_buffer_id x rest). run_step.
  rewrite (write_status (with_buffer_id (bid_id b) x) rest). run_step.
  set (y := with_status (u32 SPA_RESULT_HAVE_BUFFER) (with_buffer_id (bid_id b) x)).
  set (s2 := with_area (head y ++ rest) _).
  assert (good srv notes held s2) as Hg2.
  { rewrite Hm in Hsh. assert (io_ok y) as Hy by (apply io_ok_status, io_ok_buffer; [apply u32_bound | done | done]).
    split.
    - apply (plain_update s); [done | | apply ids_alter | done | done]. exact (closed_unlinked _ i (p_settled _ Hp) Hfree).
    - exists cli, y, k. split; [done |]. split; [by eapply shares_head |].
      pose proof (used_alter _ _ _ true Hb) as Hperm. rewrite Hub, app_nil_r in Hperm. simpl. unfold with_use in Hperm. rewrite Hperm, Hused.
      unfold slot_ids. rewrite Hx, Z.eqb_refl. simpl.
      rewrite (proj2 (Z.eqb_neq _ _)) by (eapply Forall_lookup_1 in Hb; [| exact (p_valid _ Hp)]; apply Hb). solve_Permutation. }
  destruct (in_need_buffer s2) eqn:Hasked; cbn [negb when]; run_step; [by eexists _, _ |].
  destruct (announce_keeps _ _ _ s2 Hg2) as ([] & s3 & Hrun & Hg3). run Hrun. by eexists _, _.
Qed.

(** *** Signals *)

Lemma runs_each {A} (P : PinosStream -> Prop) (l : list A) f : (forall x, x ∈ l -> runs P (f x) (fun _ => P)) -> runs P (each l f) (fun _ => P).
Proof.
  induction l as [|x l IH]; intros Hf; simpl; [by apply runs_ret |].
  eapply runs_bind; [apply Hf; left | intros []]. apply IH. intros y Hy. apply Hf. by right.
Qed.

Lemma emit_runs (P : PinosStream -> Prop) sig :
  (forall l s, P s -> P (with_emitted l s)) -> (forall id, is_u32 id -> runs P (pinos_stream_send_buffer id) (fun _ => P)) ->
  runs P (emit sig) (fun _ => P).
Proof.
  intros Hl Hsend s Hs. cbn [emit_at]. run_step. set (s1 := with_emitted _ s).
  refine (runs_each P (app sig s1) _ _ s1 (Hl _ _ Hs)). intros c Hc.
  destruct (proj1 (Forall_forall _ _) (Happ sig s1) c Hc) as (id & -> & Hid). simpl.
  eapply runs_bind; [by apply Hsend | intros r; by apply runs_ret].
Qed.

Lemma plain_emitted l s : plain s -> plain (with_emitted l s).
Proof. intros [? ? ? ? ?]. done. Qed.
Lemma emit_good srv notes held sig : runs (good srv notes held) (emit sig) (fun _ => good srv notes held).
Proof. apply emit_runs; [intros l s [Hp Hs]; exact (conj (plain_emitted l s Hp) Hs) | intros id; apply send_good]. Qed.
Lemma emit_stale srv notes held sig : runs (stale srv notes held) (emit sig) (fun _ => stale srv notes held).
Proof.
  apply emit_runs; [intros l s [Hp Hs]; exact (conj (plain_emitted l s Hp) Hs) |]. intros id _ s Hs. pose proof Hs as (Hp & cli & x & k & Ht & Hsh & Hx & _).
  eexists _, _. split; [by eapply send_busy | done].
Qed.

(** *** Buffers that come back *)

Lemma used_find s id : plain s -> id ∈ used_ids (buffer_ids s) ->
  exists i b, find_buffer id s = Some i /\ buffer_ids s !! i = Some b /\ bid_id b = id /\ bid_used b = true.
Proof.
  intros Hp (b & -> & [Hu Hb]%list_elem_of_filter)%list_elem_of_fmap. apply list_elem_of_lookup in Hb as [i Hi].
  exists i, b. split; [| done]. pose proof (Forall_lookup_1 _ _ _ _ (p_valid _ Hp) Hi) as [Hid _].
  rewrite find_buffer_first by first [apply (s_tidy _ (p_settled _ Hp)) | unfold is_u32 in Hid; lia]. by apply index_of_id; [apply Hp |].
Qed.

(** The buffer is unlinked from its place before the application hears of it. *)
Definition freed_by (P Q : PinosStream -> Prop) (id : Z) : Prop := forall s, P s -> exists i b,
  find_buffer id s = Some i /\ buffer_ids s !! i = Some b /\ bid_used b = true /\ i ∉ free s /\
  Q (with_free (free s ++ [i]) (set_used false i s)).

Lemma reuse_runs P Q id : freed_by P Q id -> runs Q (emit (new_buffer id)) (fun _ => Q) -> runs P (reuse_buffer emit id) (fun _ => Q).
Proof.
  intros Hfree Hemit s Hs. destruct (Hfree s Hs) as (i & b & Hf & Hb & Hu & Hi & Hq).
  unfold reuse_buffer, bid_at, link_free. run_step. rewrite Hf. run_step. rewrite Hb. run_step. rewrite Hu. cbn [when]. run_step.
  rewrite bool_decide_false by exact Hi. run_step. by apply Hemit.
Qed.

Lemma free_step s id rest : plain s -> used_ids (buffer_ids s) ≡ₚ id :: rest ->
  exists i b, find_buffer id s = Some i /\ buffer_ids s !! i = Some b /\ bid_used b = true /\ i ∉ free s /\
    plain (with_free (free s ++ [i]) (set_used false i s)) /\ used_ids (buffer_ids (set_used false i s)) ≡ₚ rest.
Proof.
  intros Hp Hused. destruct (used_find s id Hp) as (i & b & Hf & Hb & <- & Hu); [rewrite Hused; by left |].
  assert (i ∉ free s) as Hi.
  { intros (b' & Hb' & Hu')%(t_free _ (s_tidy _ (p_settled _ Hp))). simpl in Hb'. congruence. }
  exists i, b. split_and!; try done.
  - apply (plain_update s); [done | | apply ids_alter | done | done]. exact (closed_linked _ i b (p_settled _ Hp) Hb Hi).
  - pose proof (used_alter _ _ _ false Hb) as Hperm. rewrite Hu, app_nil_r, Hused in Hperm. simpl. unfold with_use in Hperm.
    apply (Permutation_cons_inv (a := bid_id b)). rewrite <- Hperm. solve_Permutation.
Qed.

(** A buffer someone holds. *)
Lemma reuse_good srv notes held b : runs (good srv notes (b :: held)) (reuse_buffer emit b) (fun _ => good srv notes held).
Proof.
  apply reuse_runs; [| apply emit_good]. intros s (Hp & cli & x & k & Ht & Hsh & Hused).
  destruct (free_step s b (slot_ids x ++ coming notes ++ held) Hp) as (i & bid & ? & ? & ? & ? & Hp' & Hused'); [rewrite Hused; solve_Permutation |].
  exists i, bid. do 4 (split; [done |]). split; [done |]. by exists cli, x, k.
Qed.

(** A buffer the application sent and nobody fetched. *)
Lemma reuse_area srv notes held b : b <> SPA_ID_INVALID ->
  runs (fun s => good srv notes held s /\ exists rest x, area s = head x ++ rest /\ io_ok x /\ buffer_id x = b) (reuse_buffer emit b)
    (fun _ => stale srv notes held).
Proof.
  intros Hb. apply reuse_runs; [| apply emit_stale]. intros s [(Hp & cli & x & k & Ht & Hsh & Hused) (rest & x' & Hm & Hok' & Hx')].
  assert (buffer_id x = b) as Hx.
  { destruct (shares_split _ _ _ _ _ _ Hsh) as [rest' Hm']. pose proof Hsh as (Hok & _).
    pose proof (read_buffer_id x rest' Hok) as H1'. pose proof (read_buffer_id x' rest Hok') as H2'. rewrite <- Hm' in H1'. rewrite <- Hm, Hx' in H2'.
    congruence. }
  destruct (free_step s b (coming notes ++ held) Hp) as (i & bid & ? & ? & ? & ? & Hp' & Hused').
  { rewrite Hused. unfold slot_ids. rewrite Hx, (proj2 (Z.eqb_neq _ _)) by done. done. }
  exists i, bid. do 4 (split; [done |]). split; [done |]. exists cli, x, k. split_and!; try done. by rewrite Hx.
Qed.

Lemma reuse_outputs_good srv notes held : runs (good srv notes held) (reuse_outputs emit 1 0) (fun _ => good srv notes held).
Proof.
  intros s Hg. pose proof Hg as (Hp & cli & x & k & Ht & Hsh & Hused). destruct (shares_split _ _ _ _ _ _ Hsh) as [rest Hm].
  pose proof Hsh as (Hok & _ & Ho & _). cbn [reuse_outputs]. unfold get_trans. run_step. rewrite Ht. run_step. rewrite Hm.
  unfold output_io. rewrite Ho, Z.mul_0_r, Z.add_0_r, (read_buffer_id x rest Hok). run_step.
  destruct (decide (buffer_id x = SPA_ID_INVALID)) as [Hx | Hx]; [rewrite Hx, Z.eqb_refl; by eexists _, _ |].
  rewrite (proj2 (Z.eqb_neq _ _)) by done.
  destruct (reuse_area srv notes held (buffer_id x) Hx s) as ([] & s1 & Hrun & (Hp1 & cli1 & x1 & k1 & Ht1 & Hsh1 & Hx1 & Hused1)).
  { split; [done |]. by exists rest, x. }
  run Hrun. destruct (shares_split _ _ _ _ _ _ Hsh1) as [rest1 Hm1]. rewrite Hm1, (write_buffer_id x1 rest1). run_step.
  eexists _, _. split; [done |]. split; [by apply (plain_update s1); [| apply (p_settled _ Hp1) | ..] |].
  exists cli1, (with_buffer_id SPA_ID_INVALID x1), k1. split; [done |]. split.
  - rewrite Hm1 in Hsh1. eapply shares_head; [done |]. apply io_ok_buffer; [done | apply Hsh1].
  - exact Hused1.
Qed.

Lemma good_flag srv notes held v s : good srv notes held s -> good srv notes held (with_in_need_buffer v s).
Proof. intros [[? ? ? ? ?] Hs]. by split. Qed.
Lemma ask_good srv notes held : runs (good srv notes held) (ask_buffer emit) (fun _ => good srv notes held).
Proof.
  unfold ask_buffer. intros s Hs. run_step.
  destruct (emit_good srv notes held need_buffer (with_in_need_buffer true s) (good_flag _ _ _ true s Hs)) as ([] & s1 & Hrun & Hs1). run Hrun.
  run_step. eexists _, _. split; [done | by apply good_flag].
Qed.

(** *** The events *)

Definition note_ids (nt : note) : list Z := match note_id nt with Some b => [b] | None => [] end.

Lemma handle_good srv notes held nt : (forall b, nt = Reuse b -> is_u32 b) ->
  runs (good srv notes (note_ids nt ++ held)) (handle_rtnode_event emit (note_event nt)) (fun _ => good srv notes held).
Proof.
  intros Hw. destruct types_apart as (Hhn & Hhr & Hnr & Hh & Hn & Hr). intros s Hg. unfold handle_rtnode_event.
  destruct nt as [b |]; unfold note_event.
  - destruct (reuse_buffer_fields 0 b) as [Hport Hid]. unfold reuse_buffer_event in *. rewrite event_type by done. run_step.
    rewrite !(proj2 (Z.eqb_neq _ _)), Z.eqb_refl by done. rewrite Hport. run_step. unfold Datatypes.id.
    pose proof Hg as (Hp & _). rewrite (p_port _ Hp), (p_direction _ Hp). cbn [negb Z.eqb u32 i32]. rewrite Hid.
    change (negb (u32 (i32 0) =? 0)) with false. change (negb (SPA_DIRECTION_OUTPUT =? SPA_DIRECTION_OUTPUT)) with false. cbn iota. run_step.
    rewrite u32_i32, u32_small by (by apply Hw). by apply reuse_good.
  - unfold SPA_EVENT_INIT. rewrite event_type by done. run_step. rewrite (proj2 (Z.eqb_neq _ _)), Z.eqb_refl by congruence.
    pose proof Hg as (Hp & cli & x & k & Ht & Hsh & Hused). destruct (shares_split _ _ _ _ _ _ Hsh) as [rest Hm].
    run_step. rewrite Hm, read_n_outputs. run_step. change (Z.to_nat 1) with 1%nat.
    destruct (reuse_outputs_good srv notes held s Hg) as ([] & s1 & Hrun & Hg1). run Hrun. by apply ask_good.
Qed.

(** All that is there. *)
Lemma coming_cons nt notes : coming (nt :: notes) = note_ids nt ++ coming notes.
Proof. by destruct nt. Qed.

Lemma used_valid s b : plain s -> b ∈ used_ids (buffer_ids s) -> is_u32 b.
Proof.
  intros Hp (x & -> & [_ Hx]%list_elem_of_filter)%list_elem_of_fmap. by apply (proj1 (Forall_forall _ _) (p_valid _ Hp) x Hx).
Qed.

Lemma dispatch_good srv held : forall notes fuel, (length notes < fuel)%nat ->
  runs (good srv notes held) (dispatch_events emit fuel) (fun _ => good srv [] held).
Proof.
  induction notes as [|nt notes IH]; intros [|fuel] Hf s Hg; simpl in Hf; try lia; pose proof Hg as (Hp & cli & x & k & Ht & Hsh & Hused);
    cbn [dispatch_events]; unfold get_trans; run_step; rewrite Ht; run_step.
  - destruct (client_done _ _ _ _ _ Hsh) as (cli' & e & Hnext & Hsh'). rewrite Hnext. run_step. eexists _, _. split; [done |].
    destruct Hp. split; [by split | by exists cli', x, k].
  - destruct (client_takes _ _ _ _ _ _ _ Hsh) as (cli' & e & m' & Hnext & Hparse & Hsh'). rewrite Hnext. run_step.
    cbn [negb Z.eqb SPA_RESULT_OK]. run_step. rewrite Hparse. run_step.
    set (s1 := with_area m' (with_trans (Some cli') s)).
    assert (good srv notes (note_ids nt ++ held) s1) as Hg1.
    { destruct Hp. split; [by split |]. exists cli', x, k. split; [done |]. split; [done |]. simpl. rewrite Hused, coming_cons. solve_Permutation. }
    destruct (handle_good srv notes held nt) with (g := s1) as ([] & s2 & Hrun & Hg2); [| done |].
    { intros b ->. apply (used_valid s); [done |]. rewrite Hused, coming_cons. set_solver. }
    run Hrun. apply IH; [lia | done].
Qed.

(** The stream may not be streaming; then the events stay where they are. *)
Lemma ready_mask waits : has (Z.land SPA_IO_IN waits) (Z.lor SPA_IO_ERR SPA_IO_HUP) = false.
Proof. unfold has. by rewrite <- Z.land_assoc, (Z.land_comm waits), Z.land_assoc. Qed.

Lemma read_good srv notes held s : good srv notes held s ->
  exists s' notes', perform realloc_ok realloc_moves new_proxy app (S depth) (SocketReady SPA_IO_IN) s = Done (tt, s') /\ good srv notes' held s'.
Proof.
  intros Hg. unfold perform. run_step. unfold Datatypes.id. destruct (rtsocket_source s) as [waits|]; [| by exists s, notes].
  unfold on_rtsocket_condition. rewrite ready_mask. unfold when. destruct (has _ SPA_IO_IN); [| by exists s, notes].
  pose proof Hg as (_ & cli & x & k & _ & Hsh & _). pose proof (weight_bound _ _ _ _ _ _ Hsh) as Hw. pose proof (weight_length notes) as Hl.
  destruct (dispatch_good srv held notes event_fuel) with (g := s) as ([] & s' & Hrun & Hg').
  { unfold zlen in Hl. unfold event_fuel. lia. }
  { done. }
  exists s', []. by split.
Qed.

Lemma call_good srv notes held id s : is_u32 id -> good srv notes held s ->
  exists s', perform realloc_ok realloc_moves new_proxy app (S depth) (Call (ApiSend id)) s = Done (tt, s') /\ good srv notes held s'.
Proof.
  intros Hid Hg. unfold perform. run_step. destruct (send_good srv notes held id Hid s Hg) as (r & s' & Hrun & Hg').
  exists s'. split; [| done]. unfold api_call. by rewrite (run_bind_done _ _ _ _ _ Hrun).
Qed.
End Client.
