(* ===== verification/Serving.v ===== *)
(** The server's end of an output stream: what [spa_proxy_node_process_output] and the
    events of the client do to the memory they share.

    [ready] is a client node with one output port in use; its IO area, which the host
    reads and writes, is at [a]. *)
From stdpp Require Import gmap.
From S2P Require Import Prelude State Defs Pod Mem Ringbuffer Transport Loop NodeEvents StreamRequests Exchange ClientNode.

(** The host as the node is linked: its consumer is done with a buffer when it returns
    from [spa_node_process_input]. See [on_node_have_output] of pinos/server/node.c. *)
Definition linked_host (a : Z) (cb : node_callback) (n : PinosClientNode) : list element_call :=
  match cb with
  | cb_have_output =>
      match ios n !! a with
      | Some x => if buffer_id x =? SPA_ID_INVALID then [ProcessOutput] else [WriteIo a (with_status (u32 SPA_RESULT_NEED_BUFFER) x); ProcessOutput]
      | None => [ProcessOutput]
      end
  | _ => []
  end.

(** What [spa_proxy_node_process_output] tells the client, given the IO area of the port. *)
Definition given (y : SpaPortIO) : list note :=
  (if buffer_id y =? SPA_ID_INVALID then [] else [Reuse (buffer_id y)]) ++
  (if status y =? u32 SPA_RESULT_NEED_BUFFER then [Need] else []).

Section Serving.
Context `{PinosType} `{!DistinctTypes} `{Kernel} `{Heap} (a : Z).

Record ready (srv : PinosTransport) (m : bytes) (n : PinosClientNode) : Prop := {
  r_transport : transport n = Some srv;
  r_area : cn_area n = m;
  r_io : a <> 0;
  r_port : exists p, out_ports n !! 0%nat = Some p /\ valid p = true /\ io p = a;
  r_others : forall i p, out_ports n !! S i = Some p -> io p = 0;
  r_length : length (out_ports n) = 64%nat
}.

Lemma ready_change srv m n n' srv' m' : ready srv m n -> transport n' = Some srv' -> cn_area n' = m' -> out_ports n' = out_ports n ->
  ready srv' m' n'.
Proof. intros [_ _ Ha Hp Ho Hl] Ht Hm Heq. split; rewrite ?Heq; done. Qed.

Lemma get_first srv m n : ready srv m n -> exists p, io p = a /\ port_at SPA_DIRECTION_OUTPUT 0 n = Some p /\ valid p = true.
Proof. intros Hr. destruct (r_port _ _ _ Hr) as (p & Hp & Hv & Hio). exists p. done. Qed.
Lemma get_other srv m n i : ready srv m n -> 0 < i < 64 -> exists p, io p = 0 /\ port_at SPA_DIRECTION_OUTPUT i n = Some p.
Proof.
  intros Hr Hi. destruct (out_ports n !! Z.to_nat i) as [p|] eqn:Hp.
  2: { apply lookup_ge_None in Hp. rewrite (r_length _ _ _ Hr) in Hp. lia. }
  exists p. split; [| done]. replace (Z.to_nat i) with (S (Z.to_nat (i - 1))) in Hp by lia. by apply (r_others _ _ _ Hr) in Hp.
Qed.

(** The loops skip the other ports. *)
Lemma pull_others srv m nd sn fl : ready srv m nd -> forall k i, 0 < i -> i + Z.of_nat k <= 64 ->
  pull_outputs k i sn fl nd = Done ((sn, fl), nd).
Proof.
  intros Hr. induction k as [|k IH]; intros i Hi Hk; [done |]. cbn [pull_outputs]. unfold get_port.
  destruct (get_other _ _ _ i Hr) as (p & Hio & Hp); [lia |]. run_step. rewrite Hp. run_step. rewrite Hio. apply IH; lia.
Qed.
Lemma fetch_others srv m nd : ready srv m nd -> forall k i, 0 < i -> i + Z.of_nat k <= 64 -> fetch_outputs k i nd = Done (tt, nd).
Proof.
  intros Hr. induction k as [|k IH]; intros i Hi Hk; [done |]. cbn [fetch_outputs]. unfold get_port.
  destruct (get_other _ _ _ i Hr) as (p & Hio & Hp); [lia |]. run_step. rewrite Hp. run_step. rewrite Hio. run_step. apply IH; lia.
Qed.

(** *** Sending *)

Lemma send_note srv cli m x notes k n nt : ready srv m n -> shares srv cli m x notes k -> weight notes + zlen (note_event nt) <= 4096 ->
  exists m', add_event (note_event nt) n = Done (tt, with_cn_area m' n) /\ shares srv cli m' x (notes ++ [nt]) k.
Proof.
  intros Hr Hsh Hroom. destruct (server_sends _ _ _ _ _ _ nt Hsh Hroom) as (res & m' & Hadd & Hsh').
  exists m'. split; [| done]. unfold add_event, get_transport. run_step. rewrite (r_transport _ _ _ Hr). run_step. rewrite (r_area _ _ _ Hr), Hadd. done.
Qed.

(** *** [spa_proxy_node_process_output] *)

Definition handed_back (y : SpaPortIO) : list note := if buffer_id y =? SPA_ID_INVALID then [] else [Reuse (buffer_id y)].
Definition asked (y : SpaPortIO) : bool := status y =? u32 SPA_RESULT_NEED_BUFFER.

Lemma weight_handed notes y : weight (notes ++ handed_back y) <= weight notes + 48.
Proof.
  unfold handed_back. destruct (buffer_id y =? _); [rewrite app_nil_r; lia |]. rewrite weight_snoc.
  pose proof (zlen_note (Reuse (buffer_id y))). lia.
Qed.
Lemma weight_given notes y : weight (notes ++ given y) <= weight notes + 64.
Proof.
  unfold given. rewrite app_assoc. fold (handed_back y). fold (asked y). pose proof (weight_handed notes y).
  destruct (asked y); [rewrite weight_snoc, zlen_need; lia | rewrite app_nil_r; lia].
Qed.

Lemma handed_back_step srv cli m x notes k n y : ready srv m n -> shares srv cli m x notes k -> ios n !! a = Some y ->
  weight notes + 48 <= 4096 ->
  exists n' m', (if negb (buffer_id y =? SPA_ID_INVALID) then
      add_event (reuse_buffer_event 0 (buffer_id y)) ;;; put_io a (mkIO (status y) SPA_ID_INVALID (range y)) ;;; ret true
    else ret false) n = Done (negb (buffer_id y =? SPA_ID_INVALID), n') /\ ready srv m' n' /\
    ios n' !! a = Some (with_buffer_id SPA_ID_INVALID y) /\ shares srv cli m' x (notes ++ handed_back y) k.
Proof.
  intros Hr Hsh Hy Hroom. unfold handed_back. destruct (Z.eqb_spec (buffer_id y) SPA_ID_INVALID) as [Hb | Hb]; cbn [negb].
  - exists n, m. rewrite app_nil_r, Hy. unfold with_buffer_id. rewrite <- Hb. by destruct y.
  - pose proof (zlen_note (Reuse (buffer_id y))) as Hl.
    destruct (send_note _ _ _ _ _ _ _ (Reuse (buffer_id y)) Hr Hsh ltac:(lia)) as (m' & Hadd & Hsh').
    change (reuse_buffer_event 0 (buffer_id y)) with (note_event (Reuse (buffer_id y))). run Hadd. unfold put_io. run_step.
    eexists _, m'. split; [done |]. split; [by apply (ready_change srv m n); [| apply Hr | ..] |]. split; [| done]. apply lookup_insert_eq.
Qed.

Lemma pull_first srv cli m x notes k n y j : ready srv m n -> shares srv cli m x notes k -> ios n !! a = Some y -> io_ok y ->
  weight notes + 48 <= 4096 -> (j < 64)%nat ->
  exists n' m', pull_outputs (S j) 0 false false n = Done ((asked y, negb (buffer_id y =? SPA_ID_INVALID)), n') /\ ready srv m' n' /\
    ios n' !! a = Some x /\ shares srv cli m' (with_buffer_id SPA_ID_INVALID y) (notes ++ handed_back y) k.
Proof.
  intros Hr Hsh Hy Hok Hroom Hj. destruct (get_first _ _ _ Hr) as (p & Hio & Hp & _). pose proof (r_io _ _ _ Hr) as Ha.
  cbn [pull_outputs]. unfold get_port, get_io. run_step. rewrite Hp. run_step. rewrite Hio, (proj2 (Z.eqb_neq _ _) Ha). run_step.
  rewrite Hy. run_step.
  destruct (handed_back_step _ _ _ _ _ _ _ _ Hr Hsh Hy Hroom) as (n1 & m1 & Hrun & Hr1 & Hy1 & Hsh1). run Hrun.
  destruct (shares_split _ _ _ _ _ _ Hsh1) as [rest Hm]. pose proof Hsh1 as (Hx & Ho & _).
  unfold get_transport. run_step. rewrite (r_transport _ _ _ Hr1). run_step. rewrite (r_area _ _ _ Hr1), Hm.
  unfold output_io. rewrite Ho, Z.mul_0_r, Z.add_0_r, (read_io x rest Hx). run_step. rewrite Hy1. run_step.
  assert (io_ok (with_buffer_id SPA_ID_INVALID y)) as Hok1 by by apply io_ok_buffer.
  rewrite (write_io x rest Hx _ Hok1). run_step. unfold put_io. run_step.
  set (n2 := with_ios _ _). exists n2, (head (with_buffer_id SPA_ID_INVALID y) ++ rest).
  assert (ready srv (head (with_buffer_id SPA_ID_INVALID y) ++ rest) n2) as Hr2 by (by apply (ready_change srv m1 n1); [| apply Hr1 | ..]).
  split; [| split_and!].
  - change (asked y) with (asked (with_buffer_id SPA_ID_INVALID y)). cbn [orb]. apply (pull_others _ _ _ _ _ Hr2); lia.
  - done.
  - apply lookup_insert_eq.
  - rewrite Hm in Hsh1. by eapply shares_head.
Qed.

(** The IO area of the port, [y], and that of the transport, [x], change places; the
    buffer in the former goes back to the client. *)
Lemma process_output srv cli m x notes k n y : ready srv m n -> shares srv cli m x notes k -> ios n !! a = Some y -> io_ok y ->
  weight notes + 64 <= 4096 ->
  exists n' m', spa_proxy_node_process_output n = Done (SPA_RESULT_HAVE_BUFFER, n') /\ ready srv m' n' /\ ios n' !! a = Some x /\
    shares srv cli m' (with_buffer_id SPA_ID_INVALID y) (notes ++ given y) k.
Proof.
  intros Hr Hsh Hy Hok Hroom. unfold spa_proxy_node_process_output, given. fold (handed_back y). fold (asked y). rewrite app_assoc.
  destruct (Z.to_nat MAX_OUTPUTS) as [|j] eqn:Hj; [done |].
  destruct (pull_first _ _ _ _ _ _ _ _ j Hr Hsh Hy Hok) as (n1 & m1 & Hrun & Hr1 & Hx & Hsh1); [lia | unfold MAX_OUTPUTS in Hj; lia |].
  run Hrun. destruct (asked y).
  - assert (weight (notes ++ handed_back y) + zlen (note_event Need) <= 4096) as Hroom1.
    { rewrite zlen_need. unfold handed_back. destruct (buffer_id y =? SPA_ID_INVALID); [rewrite app_nil_r; lia |].
      rewrite weight_snoc. pose proof (zlen_note (Reuse (buffer_id y))). lia. }
    destruct (send_note _ _ _ _ _ _ _ Need Hr1 Hsh1 Hroom1) as (m2 & Hadd & Hsh2).
    unfold send_need_input. change (SPA_EVENT_INIT NeedInput) with (note_event Need). run Hadd. unfold do_flush. run_step.
    eexists _, m2. split; [done |]. split; [by apply (ready_change srv m1 n1); [| apply Hr1 | ..] |]. done.
  - rewrite app_nil_r. unfold when, do_flush.
    destruct (negb _); run_step; eexists _, m1; (split; [done |]); (split; [by apply (ready_change srv m1 n1); [| apply Hr1 | apply Hr1 | ..] |]); done.
Qed.

Lemma coming_given y : coming (given y) = slot_ids y.
Proof. unfold coming, given, slot_ids. rewrite omap_app. destruct (buffer_id y =? _), (status y =? _); done. Qed.
Lemma slot_taken y : slot_ids (with_buffer_id SPA_ID_INVALID y) = [].
Proof. done. Qed.

(** *** The events of the client *)

Lemma fetch_area srv cli m x notes k n y : ready srv m n -> shares srv cli m x notes k -> ios n !! a = Some y ->
  fetch_outputs (Z.to_nat MAX_OUTPUTS) 0 n = Done (tt, with_ios (<[a := x]> (ios n)) n).
Proof.
  intros Hr Hsh Hy. destruct (get_first _ _ _ Hr) as (p & Hio & Hp & _). pose proof (r_io _ _ _ Hr) as Ha.
  destruct (shares_split _ _ _ _ _ _ Hsh) as [rest Hm]. pose proof Hsh as (Hx & Ho & _).
  destruct (Z.to_nat MAX_OUTPUTS) as [|j] eqn:Hj; [done |]. cbn [fetch_outputs]. unfold get_port, get_io, get_transport. run_step.
  rewrite Hp. run_step. rewrite Hio, (proj2 (Z.eqb_neq _ _) Ha). run_step. rewrite (r_transport _ _ _ Hr). run_step.
  rewrite (r_area _ _ _ Hr), Hm. unfold output_io. rewrite Ho, Z.mul_0_r, Z.add_0_r, (read_io x rest Hx). run_step.
  rewrite Hy. run_step. unfold put_io. run_step.
  apply (fetch_others srv m); [by apply (ready_change srv m n); [| apply Hr | apply Hr | ..] | lia | unfold MAX_OUTPUTS in Hj; lia].
Qed.

(** An announcement: what is in the area has been used, and goes back. *)
Lemma announced srv cli m x notes k n y : ready srv m n -> shares srv cli m x notes k -> ios n !! a = Some y -> weight notes + 64 <= 4096 ->
  exists n' m' x' nts y', handle_node_event (host_calls (linked_host a)) have_event n = Done (tt, n') /\ ready srv m' n' /\
    shares srv cli m' x' (notes ++ nts) k /\ ios n' !! a = Some y' /\ weight (notes ++ nts) <= weight notes + 64 /\
    slot_ids x ++ coming notes ≡ₚ slot_ids x' ++ coming (notes ++ nts).
Proof.
  intros Hr Hsh Hy Hroom. destruct types_apart as (_ & _ & _ & Hh & _). unfold handle_node_event, have_event, SPA_EVENT_INIT.
  rewrite event_type by done. run_step. rewrite Z.eqb_refl. run (fetch_area _ _ _ _ _ _ _ _ Hr Hsh Hy).
  set (n1 := with_ios _ n). pose proof Hsh as (Hx & _).
  assert (ready srv m n1) as Hr1 by (by apply (ready_change srv m n); [| apply Hr | apply Hr | ..]).
  assert (forall n2 z, ready srv m n2 -> ios n2 !! a = Some z -> io_ok z -> buffer_id z = buffer_id x ->
    exists n' m' x' nts y', spa_proxy_node_process_output n2 = Done (SPA_RESULT_HAVE_BUFFER, n') /\ ready srv m' n' /\
      shares srv cli m' x' (notes ++ nts) k /\ ios n' !! a = Some y' /\ weight (notes ++ nts) <= weight notes + 64 /\
      slot_ids x ++ coming notes ≡ₚ slot_ids x' ++ coming (notes ++ nts)) as Hgo.
  { intros n2 z Hr2 Hz Hzok Hzb. destruct (process_output _ _ _ _ _ _ _ _ Hr2 Hsh Hz Hzok Hroom) as (n' & m' & Hrun & Hr' & Hx' & Hsh').
    exists n', m', (with_buffer_id SPA_ID_INVALID z), (given z), x. split; [done |]. split; [done |]. split; [done |]. split; [done |].
    split; [apply weight_given |].
    unfold coming. rewrite slot_taken, omap_app. fold (coming notes). fold (coming (given z)). rewrite coming_given. unfold slot_ids. rewrite Hzb. solve_Permutation. }
  unfold host_calls, linked_host. run_step. simpl (ios n1). rewrite lookup_insert_eq.
  destruct (Z.eqb_spec (buffer_id x) SPA_ID_INVALID) as [Hb | Hb].
  - run_step. cbn [each element_call_]. destruct (Hgo n1 x Hr1) as (n' & m' & x' & nts & y' & Hrun & Hrest); [apply lookup_insert_eq | done | done |].
    exists n', m', x', nts, y'. split; [by run Hrun | done].
  - run_step. cbn [each element_call_]. unfold put_io at 1. run_step. set (n2 := with_ios _ n1).
    destruct (Hgo n2 (with_status (u32 SPA_RESULT_NEED_BUFFER) x)) as (n' & m' & x' & nts & y' & Hrun & Hrest).
    { by apply (ready_change srv m n); [| apply Hr | apply Hr | ..]. }
    { apply lookup_insert_eq. }
    { apply io_ok_status; [apply u32_bound | done]. }
    { done. }
    exists n', m', x', nts, y'. split; [by run Hrun | done].
Qed.

(** All the announcements there are, as long as the answers fit. *)
Lemma serve_all cli : forall k srv m x notes n y fuel, ready srv m n -> shares srv cli m x notes k -> ios n !! a = Some y -> (k < fuel)%nat ->
  weight notes + 64 * Z.of_nat k <= 4096 ->
  exists n' srv' m' x' notes' y', dispatch_events (host_calls (linked_host a)) fuel n = Done (tt, n') /\ ready srv' m' n' /\
    shares srv' cli m' x' notes' 0 /\ ios n' !! a = Some y' /\ slot_ids x ++ coming notes ≡ₚ slot_ids x' ++ coming notes'.
Proof.
  induction k as [|k IH]; intros srv m x notes n y [|fuel] Hr Hsh Hy Hf Hroom; try lia; cbn [dispatch_events]; unfold get_transport; run_step;
    rewrite (r_transport _ _ _ Hr); run_step; rewrite (r_area _ _ _ Hr).
  - destruct (server_done _ _ _ _ _ Hsh) as (srv' & e & Hnext & Hsh'). rewrite Hnext. run_step.
    eexists _, srv', m, x, notes, y. split; [done |]. split; [by apply (ready_change srv m n); [| | apply Hr | ..] |]. done.
  - destruct (server_takes _ _ _ _ _ _ Hsh) as (srv1 & e & m1 & Hnext & Hparse & Hsh1). rewrite Hnext. run_step.
    change (negb (SPA_RESULT_OK =? SPA_RESULT_OK)) with false. cbn iota. rewrite Hparse. run_step. set (n1 := with_cn_area m1 _).
    destruct (announced srv1 cli m1 x notes k n1 y) as (n2 & m2 & x2 & nts & y2 & Hrun & Hr2 & Hsh2 & Hy2 & Hw & Hperm);
      [by apply (ready_change srv m n) | done | done | lia |].
    run Hrun. destruct (IH srv1 m2 x2 (notes ++ nts) n2 y2 fuel) as (n' & srv' & m' & x' & notes' & y' & Hall & Hr' & Hsh' & Hy' & Hperm');
      [done.. | lia | lia |].
    exists n', srv', m', x', notes', y'. split_and!; try done. by rewrite Hperm.
Qed.

Lemma data_ready srv cli m x notes k n y : ready srv m n -> shares srv cli m x notes k -> ios n !! a = Some y ->
  weight notes + 64 * Z.of_nat k <= 4096 ->
  exists n' srv' m' x' notes' y', perform (linked_host a) (DataReady SPA_IO_IN) n = Done (tt, n') /\ ready srv' m' n' /\
    shares srv' cli m' x' notes' 0 /\ ios n' !! a = Some y' /\ slot_ids x ++ coming notes ≡ₚ slot_ids x' ++ coming notes'.
Proof.
  intros Hr Hsh Hy Hroom. unfold perform, proxy_on_data_fd_events. change (has SPA_IO_IN _) with false at 1. change (has SPA_IO_IN SPA_IO_IN) with true.
  eapply serve_all; [done.. | | done]. pose proof (announcements_bound _ _ _ _ _ _ Hsh). lia.
Qed.

(** A buffer the host gives back. *)
Lemma reuse_buffer_of srv cli m x notes k n b : ready srv m n -> shares srv cli m x notes k -> weight notes + 48 <= 4096 ->
  exists n' m', perform (linked_host a) (Element (ReuseBufferOf 0 b)) n = Done (tt, n') /\ ready srv m' n' /\ ios n' = ios n /\
    shares srv cli m' x (notes ++ [Reuse b]) k.
Proof.
  intros Hr Hsh Hroom. destruct (get_first _ _ _ Hr) as (p & Hio & Hp & Hv). pose proof (zlen_note (Reuse b)) as Hl.
  destruct (send_note _ _ _ _ _ _ _ (Reuse b) Hr Hsh ltac:(lia)) as (m' & Hadd & Hsh').
  unfold perform, element_call_, spa_proxy_node_port_reuse_buffer. run_step. unfold CHECK_PORT, port_valid, Datatypes.id. rewrite Hp. simpl from_option.
  rewrite Hv. change (CHECK_PORT_ID SPA_DIRECTION_OUTPUT 0) with true. cbn [andb negb].
  change (reuse_buffer_event 0 b) with (note_event (Reuse b)). run Hadd.
  eexists _, m'. split; [done |]. split; [by apply (ready_change srv m n); [| apply Hr | ..] |]. done.
Qed.

(** The host asks for a buffer, and gives back the one of its area: [do_pull] of node.c. *)
Lemma pulled srv cli m x notes k n y : ready srv m n -> shares srv cli m x notes k -> io_ok y -> weight notes + 64 <= 4096 ->
  exists n' m', each [WriteIo a y; ProcessOutput] element_call_ n = Done (tt, n') /\ ready srv m' n' /\ ios n' !! a = Some x /\
    shares srv cli m' (with_buffer_id SPA_ID_INVALID y) (notes ++ given y) k.
Proof.
  intros Hr Hsh Hok Hroom. cbn [each element_call_]. unfold put_io. run_step. set (n1 := with_ios _ n).
  destruct (process_output srv cli m x notes k n1 y) as (n' & m' & Hrun & Hrest);
    [by apply (ready_change srv m n); [| apply Hr | apply Hr | ..] | done | apply lookup_insert_eq | done | done |].
  exists n', m'. split; [by run Hrun | done].
Qed.
End Serving.
