(* ===== verification/Pipeline.v ===== *)
(** An output stream and its client node, with an application that sends buffers and a
    host that pulls them: what happens to the buffers.

    A buffer the application sent is in the IO area, with the host, or on its way back as
    an event; each in one of these places, once, and everything else is in the list of
    free buffers. *)
From stdpp Require Import gmap.
From S2P Require Import Prelude State Defs Pod Map Properties Interfaces Mem Ringbuffer Transport Loop NodeEvents Stream StreamTheory StreamRequests Exchange.
From S2P Require ClientNode Streaming Serving.
Import Streaming Serving.

(** [sy_held]: what the host has. *)
Record system := mkSystem { sy_stream : PinosStream; sy_node : ClientNode.PinosClientNode; sy_held : list Z }.

(** Each side looks at its events, or does something of its own. *)
Inductive move :=
| ClientReads
| ClientSends (id : Z)
| HostPulls (y : SpaPortIO)
| HostReturns (b : Z)
| ServerReads.

Section Pipeline.
Context `{PinosType} `{!DistinctTypes} `{Kernel} `{Heap}.
Context (realloc_ok realloc_moves : Z -> bool) (new_proxy : list request -> option Z) (app : signal -> PinosStream -> list api).
Context (Happ : sends_only app) (depth : nat) (a : Z).

Definition client_move (st : Stream.step) (sy : system) : outcome system :=
  let* (_, s) := Stream.perform realloc_ok realloc_moves new_proxy app (S depth) st (sy_stream sy) in
  Done (mkSystem s (ClientNode.with_cn_area (area s) (sy_node sy)) (sy_held sy)).

(** What the host has afterwards, given the node. *)
Definition server_move (m : ST ClientNode.PinosClientNode unit) (hold : ClientNode.PinosClientNode -> list Z) (sy : system) : outcome system :=
  let* (_, n) := m (sy_node sy) in
  Done (mkSystem (with_area (ClientNode.cn_area n) (sy_stream sy)) n (hold n)).

Definition taken (n : ClientNode.PinosClientNode) : list Z := from_option slot_ids [] (ClientNode.ios n !! a).
Definition without (b : Z) (l : list Z) : list Z := filter (fun c => c <> b) l.

Definition play (mv : move) (sy : system) : outcome system :=
  match mv with
  | ClientReads => client_move (SocketReady SPA_IO_IN) sy
  | ClientSends id => client_move (Call (ApiSend id)) sy
  | HostPulls y =>
      server_move (each [ClientNode.WriteIo a y; ClientNode.ProcessOutput] ClientNode.element_call_)
        (fun n => taken n ++ without (buffer_id y) (sy_held sy)) sy
  | HostReturns b =>
      server_move (ClientNode.perform (linked_host a) (ClientNode.Element (ClientNode.ReuseBufferOf 0 b))) (fun _ => without b (sy_held sy)) sy
  | ServerReads => server_move (ClientNode.perform (linked_host a) (ClientNode.DataReady SPA_IO_IN)) (fun _ => sy_held sy) sy
  end.

Fixpoint plays (moves : list move) (sy : system) : outcome system :=
  match moves with
  | [] => Done sy
  | mv :: moves => let* sy := play mv sy in plays moves sy
  end.

(** The host gives back what it has, and the client keeps up: [need] bytes, and what the
    answers to the announcements take, fit in its ring. *)
Definition room (need answer : Z) (sy : system) : bool :=
  match trans (sy_stream sy), ClientNode.transport (sy_node sy) with
  | Some cli, Some srv =>
      match pending cli (area (sy_stream sy)), pending srv (area (sy_stream sy)) with
      | Done w, Done v => w + need + answer * v <=? 4096
      | _, _ => false
      end
  | _, _ => false
  end.
Definition word_ok (v : Z) : bool := (0 <=? v) && (v <? 2 ^ 32).
Definition allowed (mv : move) (sy : system) : bool :=
  match mv with
  | ClientReads => true
  | ClientSends id => word_ok id
  | HostPulls y =>
      word_ok (status y) && word_ok (buffer_id y) && (zlen (range y) =? 16) &&
      ((buffer_id y =? SPA_ID_INVALID) || bool_decide (buffer_id y ∈ sy_held sy)) && room 64 0 sy
  | HostReturns b => bool_decide (b ∈ sy_held sy) && room 48 0 sy
  | ServerReads => room 0 4 sy
  end.
Fixpoint keeps_up (moves : list move) (sy : system) : bool :=
  match moves with
  | [] => true
  | mv :: moves => allowed mv sy && match play mv sy with Done sy => keeps_up moves sy | _ => true end
  end.

(** The stream has its buffers, the node its port, and the host nothing yet. *)
Record started (sy : system) : Prop := {
  st_plain : plain (sy_stream sy);
  st_held : sy_held sy = [];
  st_shared : exists srv cli x y, trans (sy_stream sy) = Some cli /\ shares srv cli (area (sy_stream sy)) x [] 0 /\
    used_ids (buffer_ids (sy_stream sy)) ≡ₚ slot_ids x /\
    ready a srv (area (sy_stream sy)) (sy_node sy) /\ ClientNode.ios (sy_node sy) !! a = Some y
}.

(** Every buffer in use is in one place. *)
Definition accounted (sy : system) : Prop :=
  let s := sy_stream sy in
  NoDup (used_ids (buffer_ids s)) /\
  (forall i b, buffer_ids s !! i = Some b -> (bid_used b = false <-> i ∈ free s)) /\
  exists srv cli x notes k, ClientNode.transport (sy_node sy) = Some srv /\ trans s = Some cli /\
    ClientNode.cn_area (sy_node sy) = area s /\ shares srv cli (area s) x notes k /\
    used_ids (buffer_ids s) ≡ₚ slot_ids x ++ coming notes ++ sy_held sy.

(** Between two moves. *)
Definition linked_up (sy : system) : Prop :=
  exists srv notes, good srv notes (sy_held sy) (sy_stream sy) /\ ready a srv (area (sy_stream sy)) (sy_node sy) /\
    is_Some (ClientNode.ios (sy_node sy) !! a).

Lemma started_linked sy : started sy -> linked_up sy.
Proof.
  intros [Hp Hh (srv & cli & x & y & Ht & Hsh & Hu & Hr & Hy)]. exists srv, []. split; [| by split].
  split; [done |]. exists cli, x, 0%nat. rewrite Hh. by rewrite app_nil_r.
Qed.

Lemma used_nodup s : plain s -> NoDup (used_ids (buffer_ids s)).
Proof.
  intros Hp. unfold used_ids. pose proof (p_unique _ Hp) as Hn. revert Hn. generalize (buffer_ids s). clear.
  induction l as [|b l IH]; [constructor |]. rewrite filter_cons, fmap_cons, NoDup_cons. intros [Hb Hn].
  case_decide; [| by apply IH]. rewrite fmap_cons, NoDup_cons. split; [| by apply IH].
  intros (c & Hc & [_ Hin]%list_elem_of_filter)%list_elem_of_fmap. apply Hb. rewrite Hc. by apply list_elem_of_fmap_2.
Qed.

Lemma linked_accounted sy : linked_up sy -> accounted sy.
Proof.
  intros (srv & notes & (Hp & cli & x & k & Ht & Hsh & Hu) & Hr & _). split; [by apply used_nodup |]. split.
  - intros i b Hb. split; [exact (s_unused _ (p_settled _ Hp) i b Hb) |].
    intros (b' & Hb' & Hu')%(t_free _ (s_tidy _ (p_settled _ Hp))). simpl in Hb'. congruence.
  - exists srv, cli, x, notes, k. split_and!; try done; apply Hr.
Qed.

(** *** Moves of the client *)

Lemma client_linked st sy :
  (forall srv notes, good srv notes (sy_held sy) (sy_stream sy) ->
    exists s notes', Stream.perform realloc_ok realloc_moves new_proxy app (S depth) st (sy_stream sy) = Done (tt, s) /\ good srv notes' (sy_held sy) s) ->
  linked_up sy -> exists sy', client_move st sy = Done sy' /\ linked_up sy'.
Proof.
  intros Hst (srv & notes & Hg & Hr & Hio). destruct (Hst srv notes Hg) as (s & notes' & Hrun & Hg').
  unfold client_move. rewrite Hrun. eexists. split; [done |]. exists srv, notes'. split; [done |]. split; [| done].
  by apply (ready_change a srv (area (sy_stream sy)) (sy_node sy)); [| apply Hr | ..].
Qed.

(** *** Moves of the server *)

Lemma good_moved srv srv' notes notes' held held' s cli x' k' m : good srv notes held s -> trans s = Some cli ->
  shares srv' cli m x' notes' k' -> used_ids (buffer_ids s) ≡ₚ slot_ids x' ++ coming notes' ++ held' ->
  good srv' notes' held' (with_area m s).
Proof. intros [[? ? ? ? ?] _] Ht Hsh Hu. split; [by split |]. by exists cli, x', k'. Qed.

Lemma server_linked m hold sy srv srv' notes notes' n m' cli x' k' :
  good srv notes (sy_held sy) (sy_stream sy) -> trans (sy_stream sy) = Some cli ->
  m (sy_node sy) = Done (tt, n) -> ready a srv' m' n -> is_Some (ClientNode.ios n !! a) -> shares srv' cli m' x' notes' k' ->
  used_ids (buffer_ids (sy_stream sy)) ≡ₚ slot_ids x' ++ coming notes' ++ hold n ->
  exists sy', server_move m hold sy = Done sy' /\ linked_up sy'.
Proof.
  intros Hg Ht Hrun Hr Hio Hsh Hu. unfold server_move. rewrite Hrun. eexists. split; [done |]. rewrite (r_area _ _ _ _ Hr).
  exists srv', notes'. split; [by eapply good_moved |]. done.
Qed.

Lemma without_perm b l : NoDup l -> b ∈ l -> l ≡ₚ b :: without b l.
Proof.
  intros Hn. unfold without. induction Hn as [|c l Hc Hn IH]; [by intros ?%elem_of_nil |]. rewrite filter_cons. case_decide as Hd.
  - intros [-> | Hin]%elem_of_cons; [done |]. rewrite (IH Hin) at 1. solve_Permutation.
  - assert (c = b) as -> by (destruct (decide (c = b)); [done | tauto]). intros _. f_equiv.
    clear IH Hn Hd. induction l as [|d l IH]; [done |]. rewrite filter_cons, decide_True by set_solver. f_equiv. apply IH. set_solver.
Qed.

Lemma held_nodup srv notes held s : good srv notes held s -> NoDup held.
Proof.
  intros (Hp & cli & x & k & _ & _ & Hu). pose proof (used_nodup _ Hp) as Hn. rewrite Hu in Hn.
  by apply NoDup_app in Hn as (_ & _ & Hn%NoDup_app); destruct Hn as (_ & _ & ?).
Qed.

Lemma room_fits need answer sy srv cli x notes k : trans (sy_stream sy) = Some cli -> ClientNode.transport (sy_node sy) = Some srv ->
  shares srv cli (area (sy_stream sy)) x notes k -> room need answer sy = true -> weight notes + need + answer * (16 * Z.of_nat k) <= 4096.
Proof.
  intros Ht Hs Hsh. unfold room. rewrite Ht, Hs, (pending_notes _ _ _ _ _ _ Hsh), (pending_announcements _ _ _ _ _ _ Hsh). apply Z.leb_le.
Qed.

Lemma word_ok_u32 v : word_ok v = true -> is_u32 v.
Proof. unfold word_ok, is_u32. intros H1'. bool_to_prop. lia. Qed.

(** What the host gives back with the IO area it had. *)
Lemma back_perm held y : NoDup held -> buffer_id y = SPA_ID_INVALID \/ buffer_id y ∈ held -> SPA_ID_INVALID ∉ held ->
  held ≡ₚ slot_ids y ++ without (buffer_id y) held.
Proof.
  intros Hn Hy Hinv. unfold slot_ids. destruct (Z.eqb_spec (buffer_id y) SPA_ID_INVALID) as [Heq | Hne]; simpl.
  - rewrite Heq. clear Hy Heq Hn. unfold without. induction held as [|d l IH]; [done |]. rewrite filter_cons, decide_True by set_solver.
    f_equiv. apply IH. set_solver.
  - destruct Hy as [? | Hin]; [done |]. by apply without_perm.
Qed.

Lemma held_valid srv notes held s : good srv notes held s -> SPA_ID_INVALID ∉ held.
Proof.
  intros (Hp & cli & x & k & _ & _ & Hu) Hin.
  assert (SPA_ID_INVALID ∈ used_ids (buffer_ids s)) as (b & Hb & [_ Hl]%list_elem_of_filter)%list_elem_of_fmap by (rewrite Hu; set_solver).
  by destruct (proj1 (Forall_forall _ _) (p_valid _ Hp) b Hl).
Qed.

Lemma pull_linked sy y : linked_up sy -> allowed (HostPulls y) sy = true -> exists sy', play (HostPulls y) sy = Done sy' /\ linked_up sy'.
Proof.
  intros (srv & notes & Hg & Hr & _) Hall. simpl in Hall. pose proof Hg as (_ & cli & x & k & Ht & Hsh & Hu).
  apply andb_prop in Hall as [[[[Hs Hb]%andb_prop Hl]%andb_prop Hback]%andb_prop Hroom].
  assert (io_ok y) as Hok by (split_and!; [by apply word_ok_u32 | by apply word_ok_u32 | by apply Z.eqb_eq]).
  pose proof (room_fits _ _ _ _ _ _ _ _ Ht (r_transport _ _ _ _ Hr) Hsh Hroom) as Hw.
  destruct (pulled a _ _ _ _ _ _ _ y Hr Hsh Hok) as (n' & m' & Hrun & Hr' & Hio & Hsh'); [lia |].
  assert (sy_held sy ≡ₚ slot_ids y ++ without (buffer_id y) (sy_held sy)) as Hheld.
  { apply back_perm; [by eapply held_nodup | | by eapply held_valid].
    apply orb_prop in Hback as [?%Z.eqb_eq | ?%bool_decide_eq_true]; tauto. }
  eapply (server_linked _ _ sy srv srv notes (notes ++ given y) n' m' cli _ k); try done.
  unfold taken. rewrite Hio. simpl. unfold coming. rewrite omap_app. fold (coming notes). fold (coming (given y)). rewrite coming_given, Hu.
  rewrite Hheld at 1. solve_Permutation.
Qed.

Lemma return_linked sy b : linked_up sy -> allowed (HostReturns b) sy = true -> exists sy', play (HostReturns b) sy = Done sy' /\ linked_up sy'.
Proof.
  intros (srv & notes & Hg & Hr & Hio) Hall. simpl in Hall. pose proof Hg as (_ & cli & x & k & Ht & Hsh & Hu).
  apply andb_prop in Hall as [Hb%bool_decide_eq_true Hroom].
  pose proof (room_fits _ _ _ _ _ _ _ _ Ht (r_transport _ _ _ _ Hr) Hsh Hroom) as Hw.
  destruct (reuse_buffer_of a _ _ _ _ _ _ _ b Hr Hsh) as (n' & m' & Hrun & Hr' & Hio' & Hsh'); [lia |].
  eapply (server_linked _ _ sy srv srv notes (notes ++ [Reuse b]) n' m' cli x k); try done; [by rewrite Hio' |].
  unfold coming. rewrite omap_app. fold (coming notes). simpl. rewrite Hu.
  rewrite (without_perm b (sy_held sy)) at 1 by first [by eapply held_nodup | done]. solve_Permutation.
Qed.

Lemma serve_linked sy : linked_up sy -> allowed ServerReads sy = true -> exists sy', play ServerReads sy = Done sy' /\ linked_up sy'.
Proof.
  intros (srv & notes & Hg & Hr & [y Hy]) Hroom. simpl in Hroom. pose proof Hg as (_ & cli & x & k & Ht & Hsh & Hu).
  pose proof (room_fits _ _ _ _ _ _ _ _ Ht (r_transport _ _ _ _ Hr) Hsh Hroom) as Hw.
  destruct (data_ready a _ _ _ _ _ _ _ y Hr Hsh Hy) as (n' & srv' & m' & x' & notes' & y' & Hrun & Hr' & Hsh' & Hy' & Hperm); [lia |].
  eapply (server_linked _ _ sy srv srv' notes notes' n' m' cli x' 0); try done.
  by rewrite Hu, !app_assoc, Hperm.
Qed.

Lemma move_linked mv sy : linked_up sy -> allowed mv sy = true -> exists sy', play mv sy = Done sy' /\ linked_up sy'.
Proof.
  intros Hsy Hall. destruct mv as [| id | y | b |].
  - apply client_linked; [| done]. intros srv notes Hg. destruct (read_good realloc_ok realloc_moves new_proxy app Happ depth _ _ _ _ Hg) as (s & notes' & ?). eauto.
  - apply client_linked; [| done]. intros srv notes Hg.
    destruct (call_good realloc_ok realloc_moves new_proxy app depth srv notes (sy_held sy) id (sy_stream sy)) as (s & ?); [by apply word_ok_u32 | done |]. eauto.
  - by apply pull_linked.
  - by apply return_linked.
  - by apply serve_linked.
Qed.

(** C3: An output stream, its client node, an application that sends buffers whatever it
    hears and a host that pulls, whatever the order in which they move: as long as the
    client reads its events before its ring is full, every call returns, and every buffer
    in use is in exactly one place, the IO area, an event on its way back or the host;
    all other buffers, and only they, are in the list of free ones. *)
Theorem buffers_accounted sy moves : started sy -> keeps_up moves sy = true -> exists sy', plays moves sy = Done sy' /\ accounted sy'.
Proof.
  intros Hst Hmoves. apply started_linked in Hst as Hsy. clear Hst. revert sy Hsy Hmoves.
  induction moves as [|mv moves IH]; intros sy Hsy Hmoves; [by eexists; split; [| apply linked_accounted] |].
  cbn [keeps_up] in Hmoves. apply andb_prop in Hmoves as [Hmv Hrest]. destruct (move_linked mv sy Hsy Hmv) as (sy1 & Hplay & Hsy1).
  cbn [plays]. rewrite Hplay in *. cbn [obind]. by apply IH.
Qed.
End Pipeline.
