(* ===== verification/PipelineStories.v ===== *)
(** A stream of two buffers and its client node at work: the theorem of Pipeline on a
    concrete run, and what happens when the client does not keep up. *)
From stdpp Require Import gmap.
From S2P Require Import Prelude State Defs Pod Map Properties Interfaces Mem Ringbuffer Transport Loop NodeEvents Stream StreamTheory StreamRequests StreamStories Exchange.
From S2P Require ClientNode.
From S2P Require Import Streaming Serving Pipeline.

#[local] Existing Instance StreamStories.types.
#[local] Existing Instance StreamStories.generous.
#[local] Existing Instance types_numbered.

(** The application sends a buffer when it is asked for one. *)
Definition sender (sig : signal) (s : PinosStream) : list api :=
  match sig with
  | need_buffer => match pinos_stream_get_empty_buffer s with Done id => [ApiSend (u32 id)] | _ => [] end
  | _ => []
  end.
Lemma sender_sends : sends_only sender.
Proof.
  intros sig s. destruct sig; try apply Forall_nil_2. simpl. destruct (pinos_stream_get_empty_buffer s); [| constructor..].
  apply Forall_singleton. eexists. split; [done | apply u32_bound].
Qed.

(** A node with a port, whose IO area is at 9, and its transport. *)
Definition node_setup : list ClientNode.step :=
  [ClientNode.GetFds; ClientNode.Element (ClientNode.AddPort SPA_DIRECTION_OUTPUT 0); ClientNode.Element (ClientNode.SetIo SPA_DIRECTION_OUTPUT 0 9);
   ClientNode.Element (ClientNode.WriteIo 9 (mkIO 0 SPA_ID_INVALID (replicate 16 0))); ClientNode.Initialized 0 1 0 1].
Definition the_node : ClientNode.PinosClientNode :=
  match each node_setup (ClientNode.perform (linked_host 9)) (ClientNode.pinos_client_node_new 5 1 empty_process) with
  | Done (_, n) => n | _ => ClientNode.pinos_client_node_new 5 1 empty_process
  end.

(** The stream was started, and sent its first buffer. *)
Definition the_start : system :=
  let s := the_stream (connect :: playing) in mkSystem s (ClientNode.with_cn_area (area s) the_node) [].
Definition first_io : SpaPortIO := mkIO (u32 SPA_RESULT_HAVE_BUFFER) 0 (replicate 16 0).

Definition of_some {A} (d : A) (x : option A) : A := from_option (fun y => y) d x.
Definition srv : PinosTransport := of_some (new_transport no_mem) (ClientNode.transport (sy_node the_start)).
Definition cli : PinosTransport := of_some (new_transport no_mem) (trans (sy_stream the_start)).

Lemma start_layout : area (sy_stream the_start) =
  head first_io ++ ring_bytes empty_ring ++ replicate 4096 0 ++ ring_bytes empty_ring ++ replicate 4096 0.
Proof. vm_compute. done. Qed.

Lemma first_io_ok : io_ok first_io.
Proof. vm_compute. split_and!; done. Qed.
Lemma srv_uses : outputs srv = 16 /\ uses srv 40 4152.
Proof. vm_compute. split_and!; done. Qed.
Lemma cli_uses : outputs cli = 16 /\ uses cli 4152 40.
Proof. vm_compute. split_and!; done. Qed.

Lemma start_shares : shares srv cli (area (sy_stream the_start)) first_io [] 0.
Proof.
  split; [exact first_io_ok |]. split; [apply srv_uses |]. split; [apply cli_uses |]. exists Spec.start. split; [| done]. rewrite start_layout.
  exists empty_ring, (replicate 4096 0), empty_ring, (replicate 4096 0), [], []. rewrite (zlen_head _ first_io_ok).
  split; [done |]. split; [apply srv_uses |]. split; [apply cli_uses |].
  split; [by apply empty_carries |]. split; [by apply empty_carries |]. split; discriminate.
Qed.

(** A node whose ports after the first have no IO area. *)
Definition no_io (p : ClientNode.SpaProxyPort) : bool := ClientNode.io p =? 0.
Lemma start_node : ready 9 srv (area (sy_stream the_start)) (sy_node the_start).
Proof.
  split; [vm_compute; reflexivity | reflexivity | done | | | vm_compute; reflexivity].
  - eexists. vm_compute. done.
  - intros i p Hp. apply Z.eqb_eq. change (is_true (no_io p)). revert i p Hp.
    assert (forallb no_io (drop 1 (ClientNode.out_ports (sy_node the_start))) = true) as Hall by (vm_compute; reflexivity).
    intros i p Hp. rewrite forallb_forall in Hall. apply Hall. apply list_elem_of_In, list_elem_of_lookup. exists i. by rewrite lookup_drop.
Qed.

Lemma start_started : started 9 the_start.
Proof.
  assert (exists s0, pinos_stream_new grants [] None empty_process = Done s0) as [s0 Hnew] by (eexists; vm_compute; done).
  assert (run_steps grants (fun _ => true) one_proxy player 3 (connect :: playing) s0 = Done (tt, the_stream (connect :: playing))) as Hrun
    by (vm_compute in Hnew; injection Hnew as <-; vm_compute; done).
  assert (bid_id <$> buffer_ids (sy_stream the_start) = [0; 1]) as Hids by (vm_compute; done).
  split; [split | done |].
  - vm_compute. done.
  - vm_compute. done.
  - exact (run_steps_settled grants (fun _ => true) one_proxy grants_small player 3 (connect :: playing) s0 tt _ (new_settled grants _ _ _ _ Hnew) Hrun).
  - rewrite Hids. by apply (bool_decide_eq_true_1 _).
  - apply Forall_forall. intros b Hb. assert (bid_id b ∈ [0; 1]) as Hin by (rewrite <- Hids; by apply list_elem_of_fmap_2).
    unfold valid_id, is_u32, SPA_ID_INVALID. set_unfold in Hin. lia.
  - exists srv, cli, first_io, (mkIO 0 SPA_ID_INVALID (replicate 16 0)). split; [vm_compute; done |]. split; [exact start_shares |].
    split; [| split; [exact start_node | vm_compute; done]].
    assert (used_ids (buffer_ids (sy_stream the_start)) = [0]) as -> by (vm_compute; done). done.
Qed.

Definition wants (b : Z) : SpaPortIO := mkIO (u32 SPA_RESULT_NEED_BUFFER) b (replicate 16 0).
Definition some_moves : list move :=
  [HostPulls (wants SPA_ID_INVALID); ClientReads; HostPulls (wants 0); ClientReads; HostReturns 1; ServerReads; ClientReads;
   HostPulls (wants SPA_ID_INVALID); ClientSends 1; ServerReads].

Lemma buffers_accounted_witness :
  exists sy, plays grants (fun _ => true) one_proxy sender 1 9 some_moves the_start = Done sy /\ accounted sy /\ sy_held sy = [0].
Proof.
  destruct (buffers_accounted grants (fun _ => true) one_proxy sender sender_sends 1 9 the_start some_moves start_started) as (sy & Hrun & Hacc);
    [vm_compute; reflexivity |].
  exists sy. split; [exact Hrun |]. split; [exact Hacc |]. revert Hrun. clear. vm_compute. by intros [= <-].
Defined.

(** The host asks 256 times while the client does not look; then it gives buffer 0 back,
    and the event is dropped. In the end both buffers are in use, one of them nowhere. *)
Definition late_moves : list move :=
  HostPulls (wants SPA_ID_INVALID) :: replicate 255 (HostPulls (wants SPA_ID_INVALID)) ++ [HostReturns 0; ClientReads].
(** Buffers in use, what the host has, what the client has to read, the IO area. *)
Definition whereabouts (sy : system) : list Z * list Z * outcome Z * outcome Z :=
  let s := sy_stream sy in (used_ids (buffer_ids s), sy_held sy, pending cli (area s), get_io_buffer_id 16 (area s)).
Example buffer_lost :
  (let* sy := plays grants (fun _ => true) one_proxy sender 1 9 late_moves the_start in Done (whereabouts sy)) = Done ([0; 1], [], Done 0, Done 1).
Proof. vm_compute. reflexivity. Qed.
