(* ===== verification/Element.v ===== *)
(** What the media elements under [spa/plugins] have in common: the types they look up, the
    macros they build formats and parameters with ([spa/include/spa/pod-builder.h],
    [format-builder.h], [props.h], [format-utils.h]), the formats they parse
    ([video/format-utils.h], [audio/format-utils.h]), what the host shares with them
    (buffers and IO areas; [buffer.h], [meta.h], [node.h]), and the pool every element
    keeps its buffers in: a fixed array and a list of the free ones.

    Buffers and IO areas belong to the host and are reached by pointer: they live in
    stores by address. The memory of a data and of a meta is an object of its own. *)
From stdpp Require Import gmap.
From S2P Require Import Prelude State Defs Pod PodUtils Props.

(** ** Results and flags *)

Definition SPA_RESULT_INVALID_PORT : Z := -6.
Definition SPA_RESULT_UNKNOWN_INTERFACE : Z := -22.
Definition SPA_RESULT_NO_BUFFERS : Z := -27.
Definition SPA_RESULT_INVALID_BUFFER_ID : Z := -28.
Definition SPA_RESULT_WRONG_STATE : Z := -29.
Definition SPA_RESULT_OUT_OF_BUFFERS : Z := -35.

Definition SPA_PORT_INFO_FLAG_REMOVABLE : Z := Z.shiftl 1 0.
Definition SPA_PORT_INFO_FLAG_OPTIONAL : Z := Z.shiftl 1 1.
Definition SPA_PORT_INFO_FLAG_CAN_USE_BUFFERS : Z := Z.shiftl 1 3.
Definition SPA_PORT_INFO_FLAG_IN_PLACE : Z := Z.shiftl 1 4.
Definition SPA_PORT_INFO_FLAG_NO_REF : Z := Z.shiftl 1 5.
Definition SPA_PORT_INFO_FLAG_LIVE : Z := Z.shiftl 1 6.

Definition SPA_DIRECTION_INPUT : Z := 0.
Definition SPA_DIRECTION_OUTPUT : Z := 1.
Definition SPA_NSEC_PER_SEC : Z := 1000000000.
Definition INT32_MAX : Z := 2147483647.

(** The ids all elements look up. *)
Class ElementType := {
  t_node : Z; t_clock : Z; t_format : Z; t_props : Z;
  meta_Header : Z; meta_Ringbuffer : Z;
  data_MemPtr : Z; data_MemFd : Z; data_DmaBuf : Z;
  media_audio : Z; media_video : Z; subtype_raw : Z;
  command_Start : Z; command_Pause : Z;
  alloc_Buffers : Z; alloc_size : Z; alloc_stride : Z; alloc_buffers : Z; alloc_align : Z;
  alloc_MetaEnable : Z; alloc_meta_type : Z; alloc_meta_size : Z
}.

(** [SPA_COMMAND_TYPE] *)
Definition SPA_COMMAND_TYPE (command : bytes) : outcome Z := of_option (load32 12 command).

(** An [int] computation that must not overflow. *)
Definition int (z : Z) : outcome Z := if (- 2 ^ 31 <=? z) && (z <? 2 ^ 31) then Done z else Undef.

Lemma int_ok z : - 2 ^ 31 <= z < 2 ^ 31 -> int z = Done z.
Proof. intros. unfold int. by rewrite (proj2 (Z.leb_le _ _)), (proj2 (Z.ltb_lt _ _)) by lia. Qed.

(** ** Building parameters *)

Local Abbreviation builder := (SpaPODBuilder Fixed).

(** The frames [f[0]] and [f[1]]. *)
Definition f0 : nat := 0.
Definition f1 : nat := 1.

(** [SPA_POD_PROP]: a property with its values, and the end of its frame. *)
Definition SPA_POD_PROP (key flags : Z) (vals : list prim) : list arg := [AProp f1 key flags vals; APop f1].
Definition PROP (key : Z) (v : prim) : list arg := SPA_POD_PROP key 0 [v].
Definition PROP_MM (key : Z) (v lo hi : prim) : list arg := SPA_POD_PROP key 1 [v; lo; hi].
Definition PROP_U_MM (key : Z) (v lo hi : prim) : list arg := SPA_POD_PROP key (Z.lor 16 1) [v; lo; hi].
Definition PROP_EN (key : Z) (vals : list prim) : list arg := SPA_POD_PROP key 3 vals.
Definition PROP_U_EN (key : Z) (vals : list prim) : list arg := SPA_POD_PROP key (Z.lor 16 3) vals.

(** The reference is that of the frame, which popping does not change. *)
Definition spa_pod_builder_object (b : builder) (id type : Z) (args : list arg) : outcome (builder * Z) :=
  let* b := spa_pod_builder_addv b [AObject f0 id type] in
  let* (frame, _) := of_option (find_frame f0 (stack b)) in
  let* b := spa_pod_builder_addv b (args ++ [APop f0]) in
  Done (b, f_ref frame).
Definition spa_pod_builder_props (b : builder) (type : Z) (args : list arg) : outcome (builder * Z) :=
  spa_pod_builder_object b 0 type args.
Definition spa_pod_builder_format (b : builder) (type media_type media_subtype : Z) (args : list arg) : outcome (builder * Z) :=
  spa_pod_builder_object b 0 type ([APrim (PId media_type); APrim (PId media_subtype)] ++ args).

(** A pointer into the buffer; with the reference of a write that did not fit it points nowhere. *)
Definition SPA_POD_BUILDER_DEREF (b : builder) (ref : Z) : outcome bytes :=
  if ref =? ref_invalid then Undef else Done (mem_from ref (fixed_data (bw b))).

(** ** Formats *)

Definition spa_format_query (format : bytes) (keys : list (Z * Z)) : outcome (list (option got)) :=
  spa_pod_contents_queryv format 0 48 keys.
Definition spa_props_query (props : bytes) (keys : list (Z * Z)) : outcome (list (option got)) :=
  spa_pod_contents_queryv props 0 16 keys.

(** The variable a key is stored in afterwards; it held [old]. *)
Definition stored_word (gs : list (option got)) (i : nat) (old : Z) : Z :=
  match gs !! i with Some (Some (GI32 v)) => v | _ => old end.
Definition stored_pair (gs : list (option got)) (i : nat) (old : Z * Z) : Z * Z :=
  match gs !! i with Some (Some (GRectangle w h)) => (w, h) | Some (Some (GFraction n d)) => (n, d) | _ => old end.
Definition stored_double (gs : list (option got)) (i : nat) (old : Z) : Z :=
  match gs !! i with Some (Some (GF64 v)) => v | _ => old end.
(** A [bool] that four bytes are written through: it is the first of them. *)
Definition stored_bool (gs : list (option got)) (i : nat) (old : bool) : outcome bool :=
  match gs !! i with
  | Some (Some (GI32 v)) => if u8 v =? 0 then Done false else if u8 v =? 1 then Done true else Undef
  | _ => Done old
  end.

Class VideoFormatType := {
  fv_format : Z; fv_size : Z; fv_framerate : Z; fv_max_framerate : Z; fv_views : Z; fv_interlace_mode : Z;
  fv_pixel_aspect_ratio : Z; fv_multiview_mode : Z; fv_multiview_flags : Z; fv_chroma_site : Z; fv_color_range : Z;
  fv_color_matrix : Z; fv_transfer_function : Z; fv_color_primaries : Z;
  video_RGB : Z; video_UYVY : Z
}.
Class AudioFormatType := {
  fa_format : Z; fa_flags : Z; fa_layout : Z; fa_rate : Z; fa_channels : Z; fa_channel_mask : Z;
  audio_S16 : Z; audio_S32 : Z; audio_F32 : Z; audio_F64 : Z
}.

Record SpaVideoInfoRaw := mkVideoRaw {
  vr_format : Z; vr_size : Z * Z; vr_framerate : Z * Z; vr_max_framerate : Z * Z; vr_views : Z; vr_interlace_mode : Z;
  vr_pixel_aspect_ratio : Z * Z; vr_multiview_mode : Z; vr_multiview_flags : Z; vr_chroma_site : Z; vr_color_range : Z;
  vr_color_matrix : Z; vr_transfer_function : Z; vr_color_primaries : Z }.
Record SpaAudioInfoRaw := mkAudioRaw {
  ar_format : Z; ar_flags : Z; ar_layout : Z; ar_rate : Z; ar_channels : Z; ar_channel_mask : Z }.

Definition zero_video_raw : SpaVideoInfoRaw := mkVideoRaw 0 (0, 0) (0, 0) (0, 0) 0 0 (0, 0) 0 0 0 0 0 0 0.
Definition zero_audio_raw : SpaAudioInfoRaw := mkAudioRaw 0 0 0 0 0 0.

(** They always succeed: what a format does not say keeps the value it had. *)
Definition spa_format_video_raw_parse `{VideoFormatType} (format : bytes) (info : SpaVideoInfoRaw) : outcome SpaVideoInfoRaw :=
  let* gs := spa_format_query format [
    (fv_format, SPA_POD_TYPE_ID); (fv_size, SPA_POD_TYPE_RECTANGLE); (fv_framerate, SPA_POD_TYPE_FRACTION);
    (fv_max_framerate, SPA_POD_TYPE_FRACTION); (fv_views, SPA_POD_TYPE_INT); (fv_interlace_mode, SPA_POD_TYPE_INT);
    (fv_pixel_aspect_ratio, SPA_POD_TYPE_FRACTION); (fv_multiview_mode, SPA_POD_TYPE_INT);
    (fv_multiview_flags, SPA_POD_TYPE_INT); (fv_chroma_site, SPA_POD_TYPE_INT); (fv_color_range, SPA_POD_TYPE_INT);
    (fv_color_matrix, SPA_POD_TYPE_INT); (fv_transfer_function, SPA_POD_TYPE_INT); (fv_color_primaries, SPA_POD_TYPE_INT)] in
  Done (mkVideoRaw (stored_word gs 0 (vr_format info)) (stored_pair gs 1 (vr_size info)) (stored_pair gs 2 (vr_framerate info))
    (stored_pair gs 3 (vr_max_framerate info)) (stored_word gs 4 (vr_views info)) (stored_word gs 5 (vr_interlace_mode info))
    (stored_pair gs 6 (vr_pixel_aspect_ratio info)) (stored_word gs 7 (vr_multiview_mode info))
    (stored_word gs 8 (vr_multiview_flags info)) (stored_word gs 9 (vr_chroma_site info)) (stored_word gs 10 (vr_color_range info))
    (stored_word gs 11 (vr_color_matrix info)) (stored_word gs 12 (vr_transfer_function info))
    (stored_word gs 13 (vr_color_primaries info))).

Definition spa_format_audio_raw_parse `{AudioFormatType} (format : bytes) (info : SpaAudioInfoRaw) : outcome SpaAudioInfoRaw :=
  let* gs := spa_format_query format [
    (fa_format, SPA_POD_TYPE_ID); (fa_flags, SPA_POD_TYPE_INT); (fa_layout, SPA_POD_TYPE_INT); (fa_rate, SPA_POD_TYPE_INT);
    (fa_channels, SPA_POD_TYPE_INT); (fa_channel_mask, SPA_POD_TYPE_INT)] in
  Done (mkAudioRaw (stored_word gs 0 (ar_format info)) (stored_word gs 1 (ar_flags info)) (stored_word gs 2 (ar_layout info))
    (stored_word gs 3 (ar_rate info)) (stored_word gs 4 (ar_channels info)) (stored_word gs 5 (ar_channel_mask info))).

(** ** What the host shares *)

Record SpaChunk := mkChunk { ck_offset : Z; ck_size : Z; ck_stride : Z }.
Record MediaData := mkMediaData { md_type : Z; md_maxsize : Z; md_data : option bytes; md_chunk : SpaChunk }.
Record MediaMeta := mkMediaMeta { mm_type : Z; mm_data : bytes }.
Record MediaBuffer := mkMediaBuffer { mb_id : Z; mb_metas : list MediaMeta; mb_datas : list MediaData }.
Record PortIO := mkPortIO { io_status : Z; io_buffer_id : Z; io_min_size : Z; io_max_size : Z }.
Record Host := mkHost { bufs : gmap Z MediaBuffer; ios : gmap Z PortIO }.

Definition with_buf (p : Z) (b : MediaBuffer) (h : Host) : Host := mkHost (<[p := b]> (bufs h)) (ios h).
Definition with_io (p : Z) (io : PortIO) (h : Host) : Host := mkHost (bufs h) (<[p := io]> (ios h)).

Definition with_status (v : Z) (io : PortIO) : PortIO := mkPortIO v (io_buffer_id io) (io_min_size io) (io_max_size io).
Definition with_buffer_id (v : Z) (io : PortIO) : PortIO := mkPortIO (io_status io) v (io_min_size io) (io_max_size io).
Definition with_metas (l : list MediaMeta) (b : MediaBuffer) : MediaBuffer := mkMediaBuffer (mb_id b) l (mb_datas b).
Definition with_datas (l : list MediaData) (b : MediaBuffer) : MediaBuffer := mkMediaBuffer (mb_id b) (mb_metas b) l.
Definition with_md_data (m : bytes) (d : MediaData) : MediaData := mkMediaData (md_type d) (md_maxsize d) (Some m) (md_chunk d).
Definition with_md_chunk (c : SpaChunk) (d : MediaData) : MediaData := mkMediaData (md_type d) (md_maxsize d) (md_data d) c.

(** The first meta of a type: its position. *)
Definition spa_buffer_find_meta (b : MediaBuffer) (type : Z) : option nat := index_of (fun m => mm_type m =? type) (mb_metas b).

(** The fields of a [SpaMetaHeader]. *)
Definition header_at (off : Z) (v : bytes) (m : MediaMeta) : outcome MediaMeta :=
  let* d := of_option (mwrite off v (mm_data m)) in Done (mkMediaMeta (mm_type m) d).
Definition set_header (seq pts dts_offset : Z) (m : MediaMeta) : outcome MediaMeta :=
  let* m := header_at 4 (le32 seq) m in
  let* m := header_at 8 (le64 pts) m in
  header_at 16 (le64 dts_offset) m.

(** The state of an element, with what its host shares with it. *)
Class HasHost (σ : Type) := { host_of : σ -> Host; set_host : Host -> σ -> σ }.

Section Access.
Context {σ : Type} `{HasHost σ}.

Definition get_buf (p : Z) : ST σ MediaBuffer := s <- gets id ;; lift (of_option (bufs (host_of s) !! p)).
Definition put_buf (p : Z) (b : MediaBuffer) : ST σ unit := modify (fun s => set_host (with_buf p b (host_of s)) s).
(** Through an IO pointer; of [NULL] it is undefined. *)
Definition io_at (p : option Z) : ST σ PortIO :=
  s <- gets id ;; p <- lift (of_option p) ;; lift (of_option (ios (host_of s) !! p)).
Definition set_io_at (p : option Z) (f : PortIO -> PortIO) : ST σ unit :=
  io <- io_at p ;; p <- lift (of_option p) ;; modify (fun s => set_host (with_io p (f io) (host_of s)) s).
End Access.

(** ** The pool *)

(** The entry of a buffer: where the host has it, its metas, whether it is with the host. *)
Record Slot := mkSlot { outbuf : Z; outstanding : bool; slot_h : option nat; slot_rb : option nat }.
Definition empty_slot : Slot := mkSlot 0 false None None.
Definition with_outstanding (v : bool) (s : Slot) : Slot := mkSlot (outbuf s) v (slot_h s) (slot_rb s).

(** The array of [MAX_BUFFERS] entries, how many are in use, and the list [empty] of
    the free ones, as positions; linking an entry that is linked makes no sense. *)
Record Pool := mkPool { slots : list Slot; n_buffers : Z; empty : list nat }.

Definition pool_init (max : nat) : Pool := mkPool (replicate max empty_slot) 0 [].

(** [&this->buffers[i]]: beyond the array there is none. *)
Definition pool_slot (i : Z) (p : Pool) : outcome Slot := if i <? 0 then Undef else of_option (slots p !! Z.to_nat i).
Definition with_slot (i : nat) (s : Slot) (p : Pool) : Pool := mkPool (<[i := s]> (slots p)) (n_buffers p) (empty p).

(** [spa_list_insert (this->empty.prev, &b->link)] *)
Definition link_empty (i : nat) (p : Pool) : outcome Pool :=
  if bool_decide (i ∈ empty p) then Undef else Done (mkPool (slots p) (n_buffers p) (empty p ++ [i])).

(** [spa_list_first] and [spa_list_remove], and the buffer is with the host. *)
Definition pool_take (p : Pool) : outcome (nat * Slot * Pool) :=
  match empty p with
  | [] => Undef
  | i :: l =>
      let* s := pool_slot (Z.of_nat i) p in
      let s := with_outstanding true s in
      Done (i, s, with_slot i s (mkPool (slots p) (n_buffers p) l))
  end.

(** The body of [reuse_buffer]: [false] when the buffer is not outstanding. *)
Definition pool_put (id : Z) (p : Pool) : outcome (bool * Pool) :=
  let* s := pool_slot id p in
  if negb (outstanding s) then Done (false, p)
  else
    let* p := link_empty (Z.to_nat id) (with_slot (Z.to_nat id) (with_outstanding false s) p) in
    Done (true, p).

Definition pool_clear (p : Pool) : Pool := if n_buffers p >? 0 then mkPool (slots p) 0 [] else p.

(** ** Enumerating formats *)

(** Of an element with one possible format, from label [next] on; the result is built in a
    buffer of [room] bytes. The second turn ends the enumeration. *)
Fixpoint enum_one_format `{Heap} (format : outcome bytes) (room : Z) (fuel : nat) (filter : option bytes) (index count match_ : Z) :
    outcome (Z * option bytes) :=
  match fuel with
  | O => Refuse
  | S fuel =>
      if count =? 0 then
        let* fmt := format in
        let* (res, b) := spa_format_filter (Some fmt) filter (spa_pod_builder_init (mkFixed (fresh room) room)) in
        if negb (res =? SPA_RESULT_OK) then enum_one_format format room fuel filter index (u32 (count + 1)) match_
        else if negb (match_ =? index) then enum_one_format format room fuel filter index (u32 (count + 1)) (u32 (match_ + 1))
        else let* f := SPA_POD_BUILDER_DEREF b 0 in Done (SPA_RESULT_OK, Some f)
      else Done (SPA_RESULT_ENUM_END, None)
  end.
