(* ===== verification/ElementTheory.v ===== *)
(** That what elements build fits the buffers they build it in, and what the pools of
    elements keep: the lemmas the elements' theorems share. *)
From stdpp Require Import gmap.
From S2P Require Import Prelude State Defs Pod PodUtils PodTheory Props Element.

(** ** What the host shares *)

Section Access.
Context {σ : Type} `{HasHost σ}.
Implicit Types s : σ.

Lemma get_buf_run s p b : bufs (host_of s) !! p = Some b -> get_buf p s = Done (b, s).
Proof. intros Hb. unfold get_buf, bind, gets, lift. cbn. by rewrite Hb. Qed.
Lemma io_at_run s p a : ios (host_of s) !! p = Some a -> io_at (Some p) s = Done (a, s).
Proof. intros Ha. unfold io_at, bind, gets, lift. cbn. by rewrite Ha. Qed.
Lemma set_io_at_run s p a f : ios (host_of s) !! p = Some a ->
  set_io_at (Some p) f s = Done (tt, set_host (with_io p (f a) (host_of s)) s).
Proof. intros Ha. unfold set_io_at. run (io_at_run s p a Ha). done. Qed.
End Access.

(** ** Properties a builder writes *)

Section Emits.
Context {W : Type} `{PodWriterLaws W}.
Implicit Types (b : SpaPODBuilder W).

Lemma written_pieces b n bs st ds : written b n bs st -> zlen bs + zlen (concat ds) <= n ->
  exists b', raw_pieces b ds = Done b' /\ written b' n (bs ++ concat ds) (grow_stack (zlen (concat ds)) st) /\ in_array b' = in_array b.
Proof.
  revert b bs st; induction ds as [|d ds IH]; intros b bs st Hb Hroom; simpl.
  - exists b. rewrite app_nil_r, zlen_nil, grow_stack_0' by apply Hb. done.
  - simpl in Hroom. rewrite zlen_app in Hroom. pose proof (zlen_nonneg (concat ds)).
    destruct (written_raw b n bs st d Hb ltac:(lia)) as (b1 & -> & Hb1 & Ha1). simpl.
    destruct (IH b1 _ _ Hb1) as (b2 & -> & Hb2 & Ha2); [zlia |]. exists b2. rewrite app_assoc, zlen_app, <- grow_stack_add. by rewrite <- Ha1.
Qed.

(** [raw_pieces] does not look at [first]. *)
Lemma raw_first b d b' r : spa_pod_builder_raw b d = Done (b', r) -> first b' = first b.
Proof. unfold spa_pod_builder_raw. destruct (pw_append _ _ _) as [[w x] | |]; [| done..]. by intros [= <- <-]. Qed.
Lemma raw_pieces_first b ds b' : raw_pieces b ds = Done b' -> first b' = first b.
Proof.
  revert b. induction ds as [|d ds IH]; intros b; simpl; [by intros [= <-] |].
  destruct (spa_pod_builder_raw b d) as [[b1 r] | |] eqn:Hr; simpl; [| done..]. intros Hrun. apply IH in Hrun. apply raw_first in Hr. congruence.
Qed.

(** The values behind the first one are bare. *)
Lemma bare_values b n bs st ps : written b n bs st -> in_array b = true -> first b = false ->
  zlen bs + zlen (concat (prim_body <$> ps)) <= n ->
  exists b', addv_prims b ps = Done b' /\ written b' n (bs ++ concat (prim_body <$> ps)) (grow_stack (zlen (concat (prim_body <$> ps))) st).
Proof.
  revert b bs st; induction ps as [|p ps IH]; intros b bs st Hb Ha Hf Hroom; rewrite ?fmap_cons, ?fmap_nil in *; cbn [concat addv_prims] in *.
  - exists b. rewrite app_nil_r, zlen_nil, grow_stack_0' by apply Hb. done.
  - rewrite zlen_app in Hroom. pose proof (zlen_nonneg (concat (prim_body <$> ps))).
    unfold addv_prim, body_pieces. rewrite Ha, Hf. cbn [negb orb].
    destruct (written_pieces b n bs st [prim_body p] Hb) as (b1 & Hr & Hb1 & Ha1); [simpl; rewrite app_nil_r; zlen_pose; lia |].
    rewrite Hr. cbn [obind]. cbn [concat] in Hb1. rewrite app_nil_r in Hb1.
    destruct (IH b1 _ _ Hb1) as (b2 & -> & Hb2); [congruence | by rewrite (raw_pieces_first _ _ _ Hr) | zlia |].
    exists b2. rewrite app_assoc, zlen_app, <- grow_stack_add. done.
Qed.

Definition prop_values_of (p : prim) (ps : list prim) : bytes :=
  pod_header (zlen (prim_body p)) (prim_type p) ++ prim_body p ++ concat (prim_body <$> ps).

Lemma emits_prop f key flags p ps :
  emits [AProp f key flags (p :: ps); APop f] (enc_pod SPA_POD_TYPE_PROP (le32 key ++ le32 flags ++ prop_values_of p ps)).
Proof.
  set (vs := prop_values_of p ps). split; [apply aligned_enc_pod |].
  intros b n bs st Hb Hbs Hroom. pose proof (building_room _ _ _ _ Hb). pose proof Hroom as Hroom'.
  rewrite zlen_enc_pod, !zlen_app, !zlen_le32 in Hroom'. pose proof (round8_bounds (4 + (4 + zlen vs))).
  pose proof (zlen_nonneg bs). pose proof (zlen_nonneg vs).
  cbn [spa_pod_builder_addv addv_step]. unfold addv_frame at 1. rewrite (bld_flat _ _ _ _ Hb). cbn [negb orb].
  destruct (raw_ok (with_first b false) n bs st (pod_header 8 SPA_POD_TYPE_PROP ++ le32 key ++ le32 flags)) as (b1 & -> & Hb1);
    [by apply building_first | rewrite !zlen_app, !zlen_le32, zlen_pod_header; lia |].
  cbn [obind]. set (b2 := spa_pod_builder_push b1 f 8 SPA_POD_TYPE_PROP (zlen bs)).
  assert (written (with_first b2 false) n (bs ++ pod_header 8 SPA_POD_TYPE_PROP ++ le32 key ++ le32 flags)
    (mkFrame f 8 SPA_POD_TYPE_PROP (zlen bs) :: grow_stack (zlen (pod_header 8 SPA_POD_TYPE_PROP ++ le32 key ++ le32 flags)) st)) as Hb2.
  { destruct Hb1 as [Hh1 Ho1 Hs1 Ha1 Hf1]. split; simpl; [done | done | by rewrite Hs1 |].
    constructor; [simpl; unfold is_u32; lia |]. eapply Forall_impl; [exact Hf1 |]. by intros fr []. }
  cbn [addv_prims]. unfold addv_prim at 1, body_pieces. cbn [in_array first b2 spa_pod_builder_push with_first is_array_type].
  change (is_array_type SPA_POD_TYPE_PROP) with true. cbn [negb orb].
  assert (zlen vs = 8 + (zlen (prim_body p) + zlen (concat (prim_body <$> ps)))) as Hvs
    by (unfold vs, prop_values_of; rewrite !zlen_app, zlen_pod_header; lia).
  pose proof (zlen_nonneg (prim_body p)). pose proof (zlen_nonneg (concat (prim_body <$> ps))).
  destruct (written_pieces (with_first b2 false) n _ _ [pod_header (zlen (prim_body p)) (prim_type p); prim_body p] Hb2) as (b3 & Hr & Hb3 & Ha3).
  { cbn [concat]. rewrite app_nil_r, !zlen_app, !zlen_le32, !zlen_pod_header. lia. }
  change (mkBuilder _ _ _ _ false) with (with_first b2 false) in *. rewrite Hr. cbn [obind].
  cbn [concat] in Hb3. rewrite app_nil_r in Hb3.
  destruct (bare_values b3 n _ _ ps Hb3) as (b4 & -> & Hb4);
    [by rewrite Ha3 | by rewrite (raw_pieces_first _ _ _ Hr) | rewrite !zlen_app, !zlen_le32, !zlen_pod_header; lia |].
  cbn [obind].
  set (hd := pod_header 8 SPA_POD_TYPE_PROP) in *. set (body := le32 key ++ le32 flags ++ vs).
  assert (zlen body = 8 + zlen vs) as Hbody by (unfold body; rewrite !zlen_app, !zlen_le32; lia).
  assert (written b4 n (bs ++ hd ++ body) (mkFrame f (zlen body) SPA_POD_TYPE_PROP (zlen bs) :: grow_stack (8 + zlen body) st)) as Hb5.
  { destruct Hb4 as [Hh4 Ho4 Hs4 Hz4]. rewrite <- !app_assoc in *. fold vs in Hh4, Ho4.
    split; [exact Hh4 | exact Ho4 | | ].
    - rewrite Hs4. rewrite !grow_stack_cons, !grow_stack_add. unfold frame_grow. cbn [f_id f_size f_type f_ref].
      rewrite Hbody. autorewrite with zlen. unfold hd. rewrite !zlen_pod_header. f_equal; [| f_equal; lia].
      f_equal. rewrite Hvs. rewrite (u32_small (8 + _)) by (unfold is_u32; lia). rewrite u32_small by (unfold is_u32; lia). lia.
    - constructor; [simpl; unfold is_u32; lia |]. apply grow_sized. }
  destruct (pop_ok b4 n bs hd body _ f SPA_POD_TYPE_PROP Hb5) as (b6 & -> & [Hh6 Ho6 Hs6 _] & Ha6); [apply zlen_pod_header | done | done |].
  cbn [obind]. exists b6. split; [done |]. split; [done | done | | |].
  - rewrite Hs6, grow_stack_add. f_equal. unfold enc_pod. rewrite !zlen_app, zlen_pod_header.
    rewrite zlen_zeros by apply pad8_bounds. lia.
  - rewrite Ha6. pose proof (bld_frames _ _ _ _ Hb) as Hfr. destruct st as [|g st]; [done |]. apply Forall_cons in Hfr as [[_ ?] _]. done.
  - apply grow_stack_flat, Hb.
Qed.
End Emits.

(** ** Objects in a fixed buffer *)

Section Objects.
Implicit Types (b : SpaPODBuilder Fixed).

(** The object behind what is there, and its reference. *)
Lemma object_ok b n bs id type args d :
  building b n bs [] -> aligned bs -> emits args d -> zlen bs + (16 + zlen d) <= n ->
  exists b', spa_pod_builder_object b id type args = Done (b', zlen bs) /\
    building b' n (bs ++ enc_pod SPA_POD_TYPE_OBJECT (le32 id ++ le32 type ++ d)) [].
Proof.
  intros Hb Hal He Hroom. pose proof (building_room _ _ _ _ Hb). pose proof (zlen_nonneg bs). pose proof (zlen_nonneg d).
  assert (aligned (le32 id ++ le32 type ++ d)) as Hal' by (rewrite app_assoc; apply aligned_app; [done | apply He]).
  destruct (emits_object f0 id type args d He) as [_ Hobj].
  destruct (Hobj b n bs [] Hb Hal) as (b2 & Hrun & Hb2); [rewrite enc_pod_aligned by done; rewrite !zlen_app, zlen_pod_header, !zlen_le32; lia |].
  exists b2. split; [| exact Hb2]. unfold spa_pod_builder_object.
  change (AObject f0 id type :: args ++ [APop f0]) with ([AObject f0 id type] ++ (args ++ [APop f0])) in Hrun.
  rewrite addv_app in Hrun. cbn [spa_pod_builder_addv addv_step] in *. unfold addv_frame in *.
  rewrite (bld_flat _ _ _ _ Hb) in *. cbn [negb orb] in *.
  destruct (raw_ok (with_first b false) n bs [] (pod_header 8 SPA_POD_TYPE_OBJECT ++ le32 id ++ le32 type)) as (b1 & Hr & Hb1);
    [by apply building_first | rewrite !zlen_app, zlen_pod_header, !zlen_le32; lia |].
  rewrite Hr in *. cbn [obind] in *.
  cbn [spa_pod_builder_push stack find_frame f_id]. rewrite decide_True by done. cbn [of_option obind f_ref]. rewrite Hrun. done.
Qed.

Lemma builder_on_ok `{Heap} n : 0 <= n < 2 ^ 31 -> building (spa_pod_builder_init (mkFixed (fresh n) n)) n [] [].
Proof.
  intros Hn. split; [| done | done | done | constructor]. unfold pw_holds. cbn. unfold fixed_holds. cbn.
  rewrite fresh_len by lia. split_and!; [lia | unfold zlen; simpl; lia | lia | lia | by eexists].
Qed.

(** What a reference points to. *)
Lemma deref_ok b n bs st ref : building b n bs st -> 0 <= ref < 2 ^ 31 ->
  exists rest, SPA_POD_BUILDER_DEREF b ref = Done (mem_from ref (bs ++ rest)).
Proof.
  intros Hb Hr. destruct Hb as [(_ & _ & _ & _ & rest & Hd) _ _ _ _]. exists rest. unfold SPA_POD_BUILDER_DEREF, ref_invalid.
  rewrite (proj2 (Z.eqb_neq ref _)) by lia. by rewrite Hd.
Qed.

Lemma emits_PROP key v : emits (W := Fixed) (PROP key v) (enc_pod SPA_POD_TYPE_PROP (le32 key ++ le32 0 ++ prop_values_of v [])).
Proof. apply emits_prop. Qed.
Lemma emits_PROP_U_MM key v lo hi :
  emits (W := Fixed) (PROP_U_MM key v lo hi) (enc_pod SPA_POD_TYPE_PROP (le32 key ++ le32 17 ++ prop_values_of v [lo; hi])).
Proof. apply emits_prop. Qed.
Lemma emits_PROP_MM key v lo hi :
  emits (W := Fixed) (PROP_MM key v lo hi) (enc_pod SPA_POD_TYPE_PROP (le32 key ++ le32 1 ++ prop_values_of v [lo; hi])).
Proof. apply emits_prop. Qed.
Lemma emits_PROP_EN key v vs :
  emits (W := Fixed) (PROP_EN key (v :: vs)) (enc_pod SPA_POD_TYPE_PROP (le32 key ++ le32 3 ++ prop_values_of v vs)).
Proof. apply emits_prop. Qed.
Lemma emits_PROP_U_EN key v vs :
  emits (W := Fixed) (PROP_U_EN key (v :: vs)) (enc_pod SPA_POD_TYPE_PROP (le32 key ++ le32 19 ++ prop_values_of v vs)).
Proof. apply emits_prop. Qed.
End Objects.
#[export] Hint Resolve emits_PROP emits_PROP_U_MM emits_PROP_MM emits_PROP_EN emits_PROP_U_EN : emits.

(** ** Pools

    An exact pool: the free list has each free buffer once, and nothing else. *)

Record pool_ok (max : nat) (p : Pool) : Prop := {
  pool_slots : length (slots p) = max;
  pool_count : 0 <= n_buffers p <= Z.of_nat max;
  pool_once : NoDup (empty p);
  pool_free : forall i, i ∈ empty p <-> Z.of_nat i < n_buffers p /\ exists s, slots p !! i = Some s /\ outstanding s = false
}.

Lemma pool_init_ok max : pool_ok max (pool_init max).
Proof. split; simpl; [by rewrite length_replicate | lia | constructor |]. intros i. split; [by intros ?%elem_of_nil | lia]. Qed.

Lemma pool_clear_ok max p : pool_ok max p -> pool_ok max (pool_clear p) /\ n_buffers (pool_clear p) = 0 /\ slots (pool_clear p) = slots p.
Proof.
  intros Hp. unfold pool_clear. rewrite Z.gtb_ltb. destruct (Z.ltb_spec 0 (n_buffers p)).
  - split; [| done]. split; simpl; [apply Hp | lia | constructor |]. intros i. split; [by intros ?%elem_of_nil | lia].
  - split; [done |]. split; [pose proof (pool_count _ _ Hp); lia | done].
Qed.

(** An empty pool has nothing linked. *)
Lemma pool_none max p : pool_ok max p -> n_buffers p = 0 -> empty p = [].
Proof.
  intros Hp Hn. destruct (empty p) as [|i l] eqn:He; [done |]. exfalso.
  assert (i ∈ empty p) as Hi by (rewrite He; left). apply (pool_free _ _ Hp) in Hi as [Hi _]. lia.
Qed.

Lemma pool_slot_lt max p i : pool_ok max p -> Z.of_nat i < Z.of_nat max -> exists s, slots p !! i = Some s /\ pool_slot (Z.of_nat i) p = Done s.
Proof.
  intros Hp Hi. destruct (lookup_lt_is_Some_2 (slots p) i) as [s Hs]; [rewrite (pool_slots _ _ Hp); lia |].
  exists s. split; [done |]. unfold pool_slot. rewrite (proj2 (Z.ltb_ge _ _)) by lia. by rewrite Nat2Z.id, Hs.
Qed.

Lemma pool_take_ok max p i l : pool_ok max p -> empty p = i :: l ->
  exists s, slots p !! i = Some s /\ outstanding s = false /\ Z.of_nat i < n_buffers p /\
    let s' := with_outstanding true s in let p' := with_slot i s' (mkPool (slots p) (n_buffers p) l) in
    pool_take p = Done (i, s', p') /\ pool_ok max p'.
Proof.
  intros Hp He. assert (i ∈ empty p) as Hi by (rewrite He; left). pose proof (pool_once _ _ Hp) as Hnd. rewrite He in Hnd.
  apply NoDup_cons in Hnd as [Hil Hnd]. apply (pool_free _ _ Hp) in Hi as [Hi (s & Hs & Ho)].
  exists s. split_and!; [done | done | done |]. split.
  - unfold pool_take. rewrite He. unfold pool_slot. rewrite (proj2 (Z.ltb_ge _ _)) by lia. by rewrite Nat2Z.id, Hs.
  - split; simpl; [rewrite length_insert; apply Hp | apply Hp | done |]. intros j. destruct (decide (j = i)) as [-> | Hne].
    + split; [done |]. intros [_ (t & Ht & Hto)]. rewrite list_lookup_insert_eq in Ht by (by eapply lookup_lt_Some). by injection Ht as <-.
    + rewrite list_lookup_insert_ne by done. rewrite <- (pool_free _ _ Hp j), He, elem_of_cons. naive_solver.
Qed.

(** Giving back a buffer that is in use: it is free afterwards, whether it was with the host or not. *)
Lemma pool_put_ok max p i : pool_ok max p -> Z.of_nat i < n_buffers p ->
  exists s, slots p !! i = Some s /\
    let p' := if outstanding s then mkPool (<[i := with_outstanding false s]> (slots p)) (n_buffers p) (empty p ++ [i]) else p in
    pool_put (Z.of_nat i) p = Done (outstanding s, p') /\ pool_ok max p'.
Proof.
  intros Hp Hi. pose proof (pool_count _ _ Hp). destruct (pool_slot_lt max p i Hp ltac:(lia)) as (s & Hs & Hslot). exists s. split; [done |].
  unfold pool_put. rewrite Hslot. cbn [obind]. destruct (outstanding s) eqn:Ho; cbn [negb]; [| done].
  assert (i ∉ empty p) as Hni by (intros [_ (t & Ht & Hto)]%(pool_free _ _ Hp); congruence).
  rewrite Nat2Z.id. unfold link_empty. cbn [empty with_slot]. rewrite bool_decide_eq_false_2 by done. cbn [obind]. split; [done |].
  split; simpl; [rewrite length_insert; apply Hp | apply Hp | apply NoDup_app; split_and!; [apply Hp | set_solver | apply NoDup_singleton] |].
  intros j. rewrite elem_of_app, list_elem_of_singleton. destruct (decide (j = i)) as [-> | Hne].
  - split; [intros _ | by right]. split; [done |]. rewrite list_lookup_insert_eq by (by eapply lookup_lt_Some). by eexists.
  - rewrite list_lookup_insert_ne by done. rewrite <- (pool_free _ _ Hp j). naive_solver.
Qed.
