(* ===== verification/TestSource.v ===== *)
(** The skeleton of the test sources: what [spa/plugins/videotestsrc/videotestsrc.c] and
    [spa/plugins/audiotestsrc/audiotestsrc.c] do alike, line by line: commands, callbacks,
    buffers, the timer, when a buffer is made. It is given once, for any properties [P] and
    format [F], and VideoTestSrc and AudioTestSrc instantiate it.

    The timer is a descriptor armed for a point in time, once; reading it when it is not
    armed blocks: [Refuse] is a call that never returns. The callback [have_output] is the
    last thing the timer's handler does, so that what the host does from inside it is a
    call of its own: [signalled] counts the callbacks. *)
From stdpp Require Import gmap.
From S2P Require Import Prelude State Defs Pod Element.

(** ** State *)

(** The part of [SpaPortInfo] that is set: [n_params] is the length of [ei_params]. *)
Record ElementInfo := mkElementInfo { ei_flags : Z; ei_params : list bytes; ei_maxbuffering : Z; ei_latency : Z }.
Definition with_ei_flags (v : Z) (i : ElementInfo) : ElementInfo :=
  mkElementInfo v (ei_params i) (ei_maxbuffering i) (ei_latency i).

(** [have_output]: the callback is set; [data_loop]: there is one; [count]: the frames or
    samples since the start. *)
Record Source (P F : Type) := mkSource {
  props : P; have_output : bool; data_loop : bool; timer : option Z; info : ElementInfo; io : option Z;
  have_format : bool; current_format : F; pool : Pool; started : bool; start_time : Z; elapsed_time : Z; count : Z;
  host : Host; signalled : Z }.
Arguments mkSource {P F}.
Arguments props {P F}.
Arguments have_output {P F}.
Arguments data_loop {P F}.
Arguments timer {P F}.
Arguments info {P F}.
Arguments io {P F}.
Arguments have_format {P F}.
Arguments current_format {P F}.
Arguments pool {P F}.
Arguments started {P F}.
Arguments start_time {P F}.
Arguments elapsed_time {P F}.
Arguments count {P F}.
Arguments host {P F}.
Arguments signalled {P F}.

Section Setters.
Context {P F : Type}.
Definition with_src_props (x : P) (s : Source P F) : Source P F :=
  mkSource x (have_output s) (data_loop s) (timer s) (info s) (io s) (have_format s) (current_format s) (pool s)
    (started s) (start_time s) (elapsed_time s) (count s) (host s) (signalled s).
Definition with_have_output (x : bool) (s : Source P F) : Source P F :=
  mkSource (props s) x (data_loop s) (timer s) (info s) (io s) (have_format s) (current_format s) (pool s) (started s)
    (start_time s) (elapsed_time s) (count s) (host s) (signalled s).
Definition with_data_loop (x : bool) (s : Source P F) : Source P F :=
  mkSource (props s) (have_output s) x (timer s) (info s) (io s) (have_format s) (current_format s) (pool s)
    (started s) (start_time s) (elapsed_time s) (count s) (host s) (signalled s).
Definition with_timer (x : option Z) (s : Source P F) : Source P F :=
  mkSource (props s) (have_output s) (data_loop s) x (info s) (io s) (have_format s) (current_format s) (pool s)
    (started s) (start_time s) (elapsed_time s) (count s) (host s) (signalled s).
Definition with_info (x : ElementInfo) (s : Source P F) : Source P F :=
  mkSource (props s) (have_output s) (data_loop s) (timer s) x (io s) (have_format s) (current_format s) (pool s)
    (started s) (start_time s) (elapsed_time s) (count s) (host s) (signalled s).
Definition with_src_io (x : option Z) (s : Source P F) : Source P F :=
  mkSource (props s) (have_output s) (data_loop s) (timer s) (info s) x (have_format s) (current_format s) (pool s)
    (started s) (start_time s) (elapsed_time s) (count s) (host s) (signalled s).
Definition with_have_format (x : bool) (s : Source P F) : Source P F :=
  mkSource (props s) (have_output s) (data_loop s) (timer s) (info s) (io s) x (current_format s) (pool s) (started s)
    (start_time s) (elapsed_time s) (count s) (host s) (signalled s).
Definition with_current_format (x : F) (s : Source P F) : Source P F :=
  mkSource (props s) (have_output s) (data_loop s) (timer s) (info s) (io s) (have_format s) x (pool s) (started s)
    (start_time s) (elapsed_time s) (count s) (host s) (signalled s).
Definition with_pool (x : Pool) (s : Source P F) : Source P F :=
  mkSource (props s) (have_output s) (data_loop s) (timer s) (info s) (io s) (have_format s) (current_format s) x
    (started s) (start_time s) (elapsed_time s) (count s) (host s) (signalled s).
Definition with_started (x : bool) (s : Source P F) : Source P F :=
  mkSource (props s) (have_output s) (data_loop s) (timer s) (info s) (io s) (have_format s) (current_format s)
    (pool s) x (start_time s) (elapsed_time s) (count s) (host s) (signalled s).
Definition with_start_time (x : Z) (s : Source P F) : Source P F :=
  mkSource (props s) (have_output s) (data_loop s) (timer s) (info s) (io s) (have_format s) (current_format s)
    (pool s) (started s) x (elapsed_time s) (count s) (host s) (signalled s).
Definition with_elapsed_time (x : Z) (s : Source P F) : Source P F :=
  mkSource (props s) (have_output s) (data_loop s) (timer s) (info s) (io s) (have_format s) (current_format s)
    (pool s) (started s) (start_time s) x (count s) (host s) (signalled s).
Definition with_count (x : Z) (s : Source P F) : Source P F :=
  mkSource (props s) (have_output s) (data_loop s) (timer s) (info s) (io s) (have_format s) (current_format s)
    (pool s) (started s) (start_time s) (elapsed_time s) x (host s) (signalled s).
Definition with_host (x : Host) (s : Source P F) : Source P F :=
  mkSource (props s) (have_output s) (data_loop s) (timer s) (info s) (io s) (have_format s) (current_format s)
    (pool s) (started s) (start_time s) (elapsed_time s) (count s) x (signalled s).
Definition with_signalled (x : Z) (s : Source P F) : Source P F :=
  mkSource (props s) (have_output s) (data_loop s) (timer s) (info s) (io s) (have_format s) (current_format s)
    (pool s) (started s) (start_time s) (elapsed_time s) (count s) (host s) x.
End Setters.

(** What the two differ in here: where the property [live] is, which ports are accepted, and
    which metas an entry remembers. *)
Class SourceKind (P F : Type) := {
  live : P -> bool;
  check_port : option Z -> Z -> Z -> bool;
  remember : MediaBuffer -> option nat * option nat
}.

Abbreviation Src P F := (ST (Source P F)).

#[export] Instance source_host {P F} : HasHost (Source P F) := { host_of := host; set_host := with_host }.

(** A read that never returns. *)
Definition block {σ A} : ST σ A := fun _ => Refuse.

Section Skeleton.
Context `{ElementType} {P F : Type} `{SourceKind P F}.
Local Abbreviation state := (Source P F).
Local Abbreviation Op := (ST (Source P F)).

(** ** The timer *)

Definition set_timer (enabled : bool) : Op unit :=
  s <- gets id ;;
  when (have_output s || live (props s))
    (let time :=
       if enabled then (if live (props s) then u64 (start_time s + elapsed_time s) else 1) else 0 in
     modify (with_timer (if time =? 0 then None else Some time))).

Definition read_timer : Op unit :=
  s <- gets id ;;
  when (have_output s || live (props s))
    (match timer s with Some _ => modify (with_timer None) | None => block end).

(** ** Buffers *)

Definition clear_buffers : Op unit :=
  s <- gets id ;;
  when (n_buffers (pool s) >? 0)
    (modify (fun s => with_pool (pool_clear (pool s)) s) ;;; modify (with_started false) ;;; set_timer false).

(** One turn of the loop of [use_buffers]. *)
Definition use_buffer (i : nat) (p : Z) : Op unit :=
  b <- get_buf p ;;
  let (h, rb) := remember b in
  _ <- lift (of_option (mb_datas b !! 0%nat)) ;;
  s <- gets id ;;
  _ <- lift (pool_slot (Z.of_nat i) (pool s)) ;;
  q <- lift (link_empty i (with_slot i (mkSlot p false h rb) (pool s))) ;;
  modify (with_pool q).

Definition use_buffers_loop (buffers : list Z) : Op unit :=
  each (zip (seq 0 (length buffers)) buffers) (fun ip => use_buffer ip.1 ip.2).

Definition port_use_buffers (direction port_id : Z) (buffers : list Z) : Op Z :=
  s <- gets id ;;
  if negb (check_port (io s) direction port_id) then ret SPA_RESULT_INVALID_PORT
  else if negb (have_format s) then ret SPA_RESULT_NO_FORMAT
  else
    clear_buffers ;;;
    use_buffers_loop buffers ;;;
    modify (fun s => with_pool (mkPool (slots (pool s)) (zlen buffers) (empty (pool s))) s) ;;;
    ret SPA_RESULT_OK.

Definition reuse_buffer (id : Z) : Op unit :=
  s <- gets (fun s => s) ;;
  '(ok, q) <- lift (pool_put id (pool s)) ;;
  modify (with_pool q) ;;;
  when (ok && negb (live (props s))) (set_timer true).

Definition port_reuse_buffer (port_id buffer_id : Z) : Op Z :=
  s <- gets id ;;
  if negb (port_id =? 0) then ret SPA_RESULT_INVALID_PORT
  else if negb (n_buffers (pool s) >? 0) then ret SPA_RESULT_NO_BUFFERS
  else if negb (buffer_id <? n_buffers (pool s)) then ret SPA_RESULT_INVALID_BUFFER_ID
  else reuse_buffer buffer_id ;;; ret SPA_RESULT_OK.

(** The free buffer for the next frame; [None]: out of buffers, the timer is off. *)
Definition next_buffer : Op (option (nat * Slot)) :=
  read_timer ;;;
  s <- gets id ;;
  match empty (pool s) with
  | [] => set_timer false ;;; ret None
  | _ =>
      '(i, e, q) <- lift (pool_take (pool s)) ;;
      modify (with_pool q) ;;;
      ret (Some (i, e))
  end.

(** The header of the frame, if its buffer has one. *)
Definition write_header (e : Slot) : Op unit :=
  match slot_h e with
  | None => ret tt
  | Some k =>
      s <- gets id ;;
      b <- get_buf (outbuf e) ;;
      m <- lift (of_option (mb_metas b !! k)) ;;
      m <- lift (set_header (count s) (u64 (start_time s + elapsed_time s)) 0 m) ;;
      put_buf (outbuf e) (with_metas (<[k := m]> (mb_metas b)) b)
  end.

(** The end of [make_buffer]: the next tick, and the buffer is in the IO area. *)
Definition deliver (e : Slot) (n elapsed : Z) : Op Z :=
  modify (with_count n) ;;;
  modify (with_elapsed_time elapsed) ;;;
  set_timer true ;;;
  s <- gets id ;;
  b <- get_buf (outbuf e) ;;
  set_io_at (io s) (with_buffer_id (mb_id b)) ;;;
  set_io_at (io s) (with_status (u32 SPA_RESULT_HAVE_BUFFER)) ;;;
  ret SPA_RESULT_HAVE_BUFFER.

(** ** The node *)

(** [now] is what [clock_gettime] answers, in nanoseconds. *)
Definition node_send_command (command : bytes) (now : Z) : Op Z :=
  type <- lift (SPA_COMMAND_TYPE command) ;;
  s <- gets id ;;
  if type =? command_Start then
    if negb (have_format s) then ret SPA_RESULT_NO_FORMAT
    else if n_buffers (pool s) =? 0 then ret SPA_RESULT_NO_BUFFERS
    else if started s then ret SPA_RESULT_OK
    else
      modify (with_start_time (if live (props s) then u64 now else 0)) ;;;
      modify (with_count 0) ;;;
      modify (with_elapsed_time 0) ;;;
      modify (with_started true) ;;;
      set_timer true ;;;
      ret SPA_RESULT_OK
  else if type =? command_Pause then
    if negb (have_format s) then ret SPA_RESULT_NO_FORMAT
    else if n_buffers (pool s) =? 0 then ret SPA_RESULT_NO_BUFFERS
    else if negb (started s) then ret SPA_RESULT_OK
    else modify (with_started false) ;;; set_timer false ;;; ret SPA_RESULT_OK
  else ret SPA_RESULT_NOT_IMPLEMENTED.

Definition node_set_callbacks (callback : bool) : Op Z :=
  s <- gets id ;;
  if negb (data_loop s) && callback then ret SPA_RESULT_ERROR
  else modify (with_have_output callback) ;;; ret SPA_RESULT_OK.

(** The flag follows the property. *)
Definition update_live : Op unit :=
  modify (fun s =>
    let flags := if live (props s) then Z.lor (ei_flags (info s)) SPA_PORT_INFO_FLAG_LIVE
                 else Z.land (ei_flags (info s)) (u32 (Z.lnot SPA_PORT_INFO_FLAG_LIVE)) in
    with_info (with_ei_flags flags (info s)) s).

Definition port_alloc_buffers (direction port_id : Z) : Op Z :=
  s <- gets id ;;
  if negb (check_port (io s) direction port_id) then ret SPA_RESULT_INVALID_PORT
  else if negb (have_format s) then ret SPA_RESULT_NO_FORMAT
  else ret SPA_RESULT_NOT_IMPLEMENTED.

Definition port_get_info (direction port_id : Z) : Op (Z * option ElementInfo) :=
  s <- gets id ;;
  if negb (check_port (io s) direction port_id) then ret (SPA_RESULT_INVALID_PORT, None)
  else ret (SPA_RESULT_OK, Some (info s)).

(** [make_buffer] is the element's own. *)
Definition node_process_output (make_buffer : Op Z) : Op Z :=
  s <- gets id ;;
  match io s with
  | None => ret SPA_RESULT_WRONG_STATE
  | Some p =>
      a <- io_at (Some p) ;;
      if io_status a =? u32 SPA_RESULT_HAVE_BUFFER then ret SPA_RESULT_HAVE_BUFFER
      else
        when (negb (io_buffer_id a =? SPA_ID_INVALID))
          (reuse_buffer (io_buffer_id a) ;;; set_io_at (Some p) (with_buffer_id SPA_ID_INVALID)) ;;;
        if negb (have_output s) && (io_status a =? u32 SPA_RESULT_NEED_BUFFER) then make_buffer
        else ret SPA_RESULT_OK
  end.
End Skeleton.

(** Ports: none and at most none in, one out. *)
Definition node_get_n_ports : Z * Z * Z * Z := (0, 0, 1, 1).
Definition node_get_port_ids (n_output_ports : Z) : option Z := if n_output_ports >? 0 then Some 0 else None.
