(* ===== verification/SourceTheory.v ===== *)
(** The steps of the skeleton of the test sources: what reading and arming the timer, taking the
    next buffer, writing the header and delivering do, for any source. *)
From stdpp Require Import gmap.
From S2P Require Import Prelude State Defs Pod Element ElementTheory TestSource.

(** *** The header *)

Definition header_bytes (seq pts : Z) (d : bytes) : bytes :=
  take 4 d ++ le32 seq ++ le64 pts ++ le64 0 ++ drop 24 d.

Lemma set_header_run seq pts m : 24 <= zlen (mm_data m) ->
  set_header seq pts 0 m = Done (mkMediaMeta (mm_type m) (header_bytes seq pts (mm_data m))).
Proof.
  intros Hm. unfold set_header, header_at, header_bytes. destruct m as [t d]. cbn [mm_data mm_type] in *.
  destruct (split_block 4 d) as (x0 & d1 & -> & H0' & H1'); [lia |]. rewrite zlen_app in Hm.
  destruct (split_block 4 d1) as (x1 & d2 & -> & Hx1 & Hd2); [lia |]. rewrite zlen_app in Hm.
  destruct (split_block 8 d2) as (x2 & d3 & -> & Hx2 & Hd3); [lia |]. rewrite zlen_app in Hm.
  destruct (split_block 8 d3) as (x3 & d4 & -> & Hx3 & Hd4); [lia |].
  rewrite (mwrite_app x0 x1) by (rewrite ?zlen_le32; lia). cbn [of_option obind mm_data mm_type].
  rewrite (app_assoc x0), (mwrite_app (x0 ++ _) x2) by (rewrite ?zlen_app, ?zlen_le32, ?zlen_le64; lia).
  cbn [of_option obind mm_data mm_type].
  rewrite (app_assoc (x0 ++ _)), (mwrite_app ((x0 ++ _) ++ _) x3) by (rewrite ?zlen_app, ?zlen_le32, ?zlen_le64; lia).
  cbn [of_option obind]. do 2 f_equal. rewrite <- !app_assoc.
  rewrite take_app_le by (unfold zlen in *; lia). rewrite take_ge by (unfold zlen in *; lia). do 4 f_equal.
  rewrite !drop_app_ge by (unfold zlen in *; lia). replace (24 - _ - _ - _ - _)%nat with 0%nat by (unfold zlen in *; lia). done.
Qed.

Lemma header_bytes_length seq pts d : 24 <= zlen d -> zlen (header_bytes seq pts d) = zlen d.
Proof. intros Hd. unfold header_bytes. autorewrite with zlen. lia. Qed.

Section Steps.
Context `{ElementType} {P F : Type} `{SourceKind P F}.
Implicit Types (s : Source P F) (b : MediaBuffer) (e : Slot).

(** The timer is needed, and it is armed. *)
Definition waits s : bool := have_output s || live (props s).

Definition unarmed s : Source P F := if waits s then with_timer None s else s.

Lemma read_timer_run s : (waits s = true -> timer s <> None) -> read_timer s = Done (tt, unarmed s).
Proof.
  intros Ht. unfold read_timer, unarmed, waits, bind, gets, when in *. cbn. destruct (have_output s || live (props s)); [| done].
  destruct (timer s); [done | by destruct Ht].
Qed.

Lemma read_timer_blocks s : waits s = true -> timer s = None -> read_timer s = Refuse.
Proof. intros Hw Ht. unfold read_timer, waits, bind, gets, when in *. cbn. by rewrite Hw, Ht. Qed.

Lemma unarmed_same s : unarmed s = s \/ unarmed s = with_timer None s.
Proof. unfold unarmed. destruct (waits s); auto. Qed.

(** The next free buffer. *)
Lemma next_buffer_run max s i l : pool_ok max (pool s) -> empty (pool s) = i :: l -> (waits s = true -> timer s <> None) ->
  exists e, slots (pool s) !! i = Some e /\ Z.of_nat i < n_buffers (pool s) /\
    let q := with_slot i (with_outstanding true e) (mkPool (slots (pool s)) (n_buffers (pool s)) l) in
    next_buffer s = Done (Some (i, with_outstanding true e), with_pool q (unarmed s)) /\ pool_ok max q.
Proof.
  intros Hs He Ht. destruct (pool_take_ok _ _ _ _ Hs He) as (e & Hi & _ & Hn & Htake & Hq).
  exists e. split_and!; [done | done |]. split; [| done]. unfold next_buffer. run (read_timer_run s Ht). cbn [id].
  assert (pool (unarmed s) = pool s) as -> by (destruct (unarmed_same s) as [-> | ->]; done).
  rewrite He. cbv zeta in Htake. rewrite Htake. run_step. done.
Qed.

(** *** The header *)

(** The header of the buffer, with the number and the time of the frame. *)
Definition with_header s b : MediaBuffer :=
  match spa_buffer_find_meta b meta_Header with
  | None => b
  | Some k =>
      match mb_metas b !! k with
      | None => b
      | Some m => with_metas (<[k := mkMediaMeta (mm_type m)
          (header_bytes (count s) (u64 (start_time s + elapsed_time s)) (mm_data m))]> (mb_metas b)) b
      end
  end.

Lemma write_header_run s e b : bufs (host s) !! outbuf e = Some b -> slot_h e = spa_buffer_find_meta b meta_Header ->
  (forall k, slot_h e = Some k -> exists m, mb_metas b !! k = Some m /\ 24 <= zlen (mm_data m)) ->
  exists h, write_header e s = Done (tt, with_host h s) /\ h = match slot_h e with Some _ => with_buf (outbuf e) (with_header s b) (host s) | None => host s end.
Proof.
  intros Hb Hh Hroom. unfold write_header, with_header. rewrite <- Hh. destruct (slot_h e) as [k |]; [| exists (host s); by destruct s].
  destruct (Hroom k eq_refl) as (m & Hm & Hlen). rewrite Hm. eexists. split; [| done].
  run_step. run (get_buf_run s _ b Hb). rewrite Hm. run_step. rewrite set_header_run by done. run_step. done.
Qed.

Lemma write_header_exact s e b : bufs (host s) !! outbuf e = Some b -> slot_h e = spa_buffer_find_meta b meta_Header ->
  (forall k, slot_h e = Some k -> exists m, mb_metas b !! k = Some m /\ 24 <= zlen (mm_data m)) ->
  write_header e s = Done (tt, with_host (with_buf (outbuf e) (with_header s b) (host s)) s).
Proof.
  intros Hb Hh Hroom. destruct (write_header_run s e b Hb Hh Hroom) as (h & -> & ->). do 3 f_equal.
  destruct (slot_h e) eqn:He; [done |]. unfold with_header. rewrite <- Hh. unfold with_buf. rewrite insert_id by done. by destruct (host s).
Qed.

Lemma with_header_id s b : mb_id (with_header s b) = mb_id b.
Proof. unfold with_header. repeat (case_match; try done). Qed.
Lemma with_header_datas s b : mb_datas (with_header s b) = mb_datas b.
Proof. unfold with_header. repeat (case_match; try done). Qed.
Lemma with_header_same s s' b b' : mb_metas b' = mb_metas b -> count s' = count s -> start_time s' = start_time s -> elapsed_time s' = elapsed_time s ->
  mb_metas (with_header s' b') = mb_metas (with_header s b).
Proof.
  intros Hm Hc Hs He. unfold with_header, spa_buffer_find_meta. rewrite Hm, Hc, Hs, He. case_match; [case_match; [by cbn; rewrite ?Hm | done] | done].
Qed.

(** *** The timer *)

(** The state when the buffer [i] with the frame has been delivered. *)
Definition next_time s : option Z :=
  if waits s then
    let t := if live (props s) then u64 (start_time s + elapsed_time s) else 1 in if t =? 0 then None else Some t
  else timer s.

Lemma set_timer_run s : set_timer true s = Done (tt, with_timer (next_time s) s).
Proof.
  unfold set_timer, next_time, waits, bind, gets, when. cbn. destruct (have_output s || live (props s)); [done |]. by destruct s.
Qed.

Lemma set_timer_same (on : bool) s : exists t, set_timer on s = Done (tt, with_timer t s).
Proof.
  unfold set_timer, bind, gets, when. cbn. destruct (have_output s || live (props s)); [by eexists |]. exists (timer s). by destruct s.
Qed.

Lemma deliver_run s e b p a n elapsed : bufs (host s) !! outbuf e = Some b -> io s = Some p -> ios (host s) !! p = Some a ->
  let s1 := with_elapsed_time elapsed (with_count n s) in
  deliver e n elapsed s = Done (SPA_RESULT_HAVE_BUFFER,
    with_host (with_io p (with_status (u32 SPA_RESULT_HAVE_BUFFER) (with_buffer_id (mb_id b) a)) (host s)) (with_timer (next_time s1) s1)).
Proof.
  intros Hb Hp Ha s1. unfold deliver. run_step. run (set_timer_run (with_elapsed_time elapsed (with_count n s))). unfold id.
  change (with_elapsed_time elapsed (with_count n s)) with s1. set (s2 := with_timer (next_time s1) s1).
  run (get_buf_run s2 (outbuf e) b Hb). change (io s2) with (io s). rewrite Hp.
  run (set_io_at_run (H := source_host) s2 p a (with_buffer_id (mb_id b)) Ha).
  erewrite run_bind_done; [| eapply set_io_at_run; cbn [host with_host with_io ios]; apply lookup_insert_eq].
  unfold ret. do 2 f_equal. unfold with_host, with_io. cbn. by rewrite insert_insert_eq.
Qed.

End Steps.
