(* ===== verification/Draw.v ===== *)
(** [spa/plugins/videotestsrc/draw.c]: the pictures of the video test source, and that
    drawing writes exactly the picture.

    The memory of a buffer is a list of bytes, and a write outside it is [Undef], as is an
    [int] computation that overflows. [dd->line] and the position in the stream of random
    numbers are the state of the drawing; the table of colors is a global variable whose
    YUV values are computed once. *)
From S2P Require Import Prelude State Defs Element.

(** ** Colors *)

Record Pixel := mkPixel { px_R : Z; px_G : Z; px_B : Z; px_Y : Z; px_U : Z; px_V : Z }.

(** The constants of the enumeration [Color]. *)
Definition BLUE : Z := 6.
Definition BLACK : Z := 7.
Definition NEG_I : Z := 8.
Definition WHITE : Z := 9.
Definition POS_Q : Z := 10.
Definition DARK_BLACK : Z := 11.
Definition LIGHT_BLACK : Z := 12.
Definition N_COLORS : Z := 13.

Definition rgb (r g b : Z) : Pixel := mkPixel r g b 0 0 0.
Definition initial_colors : list Pixel :=
  [rgb 191 191 191; rgb 191 191 0; rgb 0 191 191; rgb 0 191 0; rgb 191 0 191; rgb 191 0 0; rgb 0 0 191;
   rgb 19 19 19; rgb 0 33 76; rgb 255 255 255; rgb 49 0 107; rgb 9 9 9; rgb 29 29 29].

Definition u16 (z : Z) : Z := z mod 2 ^ 16.

Definition update_yuv (p : Pixel) : Pixel :=
  let y := u16 (76 * px_R p + 150 * px_G p + 29 * px_B p) in
  let u := u16 (-43 * px_R p - 84 * px_G p + 127 * px_B p) in
  let v := u16 (127 * px_R p - 106 * px_G p - 21 * px_B p) in
  let y := u16 (Z.shiftr (y + 128) 8) in
  let u := u16 (Z.shiftr (u + 128) 8) in
  let v := u16 (Z.shiftr (v + 128) 8) in
  mkPixel (px_R p) (px_G p) (px_B p) (u8 y) (u8 (u + 128)) (u8 (v + 128)).

Definition init_colors (colors : list Pixel) : list Pixel :=
  if negb (px_Y (nth (Z.to_nat WHITE) colors (rgb 0 0 0)) =? 0) then colors else update_yuv <$> colors.

(** ** Drawing *)

Record SpaVideoInfo := mkVideoInfo { vi_media_type : Z; vi_media_subtype : Z; vi_raw : SpaVideoInfoRaw }.

(** What is drawn on: the memory of the data, the line, the numbers drawn so far. *)
Record Canvas := mkCanvas { mem : bytes; line : Z; rands : nat }.
Definition with_mem (m : bytes) (c : Canvas) : Canvas := mkCanvas m (line c) (rands c).

Inductive DrawPixelFunc := draw_pixel_rgb_func | draw_pixel_uyvy_func.
Record DrawingData := mkDrawing { dd_width : Z; dd_height : Z; dd_stride : Z; dd_draw_pixel : DrawPixelFunc }.

Local Abbreviation Draw := (ST Canvas).

(** [dd->line[i] = v] *)
Definition put (i v : Z) : Draw unit :=
  i <- lift (int i) ;;
  c <- gets id ;;
  m <- lift (of_option (mwrite (line c + i) [v] (mem c))) ;;
  modify (with_mem m).

Definition draw_pixel_rgb (x : Z) (color : Pixel) : Draw unit :=
  put (3 * x + 0) (px_R color) ;;;
  put (3 * x + 1) (px_G color) ;;;
  put (3 * x + 2) (px_B color).

Definition draw_pixel_uyvy (x : Z) (color : Pixel) : Draw unit :=
  if Z.odd x then put (2 * (x - 1) + 3) (px_Y color)
  else
    put (2 * x + 0) (px_U color) ;;;
    put (2 * x + 1) (px_Y color) ;;;
    put (2 * x + 2) (px_V color).

Definition draw_pixel (f : DrawPixelFunc) : Z -> Pixel -> Draw unit :=
  match f with draw_pixel_rgb_func => draw_pixel_rgb | draw_pixel_uyvy_func => draw_pixel_uyvy end.

(** [for (i = a; i < b; i++)] *)
Definition for_ (a b : Z) (f : Z -> Draw unit) : Draw unit := each (seqZ a (b - a)) f.

(** An [int] division. *)
Definition idiv (a b : Z) : outcome Z := let* a := int a in Done (Z.quot a b).

Section Patterns.
Context (colors : list Pixel) (rand : nat -> Z) (dd : DrawingData).

(** [r = rand ()], as an [unsigned char]. *)
Definition snow_pixel : Draw Pixel :=
  n <- gets rands ;;
  modify (fun c => mkCanvas (mem c) (line c) (S n)) ;;;
  let r := u8 (rand n) in
  ret (update_yuv (rgb r r r)).

Definition draw_pixels (offset color length : Z) : Draw unit :=
  last <- lift (int (offset + length)) ;;
  for_ offset last (fun x =>
    p <- lift (of_option (colors !! Z.to_nat color)) ;;
    draw_pixel (dd_draw_pixel dd) x p).

Definition next_line : Draw unit := modify (fun c => mkCanvas (mem c) (line c + dd_stride dd) (rands c)).

(** The seven bars of one line. *)
Definition draw_bars (color : Z -> Z) : Draw unit :=
  let w := dd_width dd in
  for_ 0 7 (fun j =>
    x1 <- lift (idiv (j * w) 7) ;;
    x2 <- lift (idiv ((j + 1) * w) 7) ;;
    draw_pixels x1 (color j) (x2 - x1)).

Definition draw_snow_from (x : Z) : Draw unit :=
  for_ x (dd_width dd) (fun j => p <- snow_pixel ;; draw_pixel (dd_draw_pixel dd) j p).

Definition draw_smpte_snow : Draw unit :=
  let w := dd_width dd in
  let h := dd_height dd in
  y1 <- lift (idiv (2 * h) 3) ;;
  y2 <- lift (idiv (3 * h) 4) ;;
  for_ 0 y1 (fun _ => draw_bars (fun j => j) ;;; next_line) ;;;
  for_ y1 y2 (fun _ => draw_bars (fun j => if Z.odd j then BLACK else BLUE - j) ;;; next_line) ;;;
  for_ y2 h (fun _ =>
    let x := 0 in
    (* negative I *)
    draw_pixels x NEG_I (Z.quot w 6) ;;;
    let x := x + Z.quot w 6 in
    (* white *)
    draw_pixels x WHITE (Z.quot w 6) ;;;
    let x := x + Z.quot w 6 in
    (* positive Q *)
    draw_pixels x POS_Q (Z.quot w 6) ;;;
    let x := x + Z.quot w 6 in
    (* pluge *)
    draw_pixels x DARK_BLACK (Z.quot w 12) ;;;
    let x := x + Z.quot w 12 in
    draw_pixels x BLACK (Z.quot w 12) ;;;
    let x := x + Z.quot w 12 in
    draw_pixels x LIGHT_BLACK (Z.quot w 12) ;;;
    let x := x + Z.quot w 12 in
    (* war of the ants (a.k.a. snow) *)
    draw_snow_from x ;;;
    next_line).

Definition draw_snow : Draw unit :=
  for_ 0 (dd_height dd) (fun _ => draw_snow_from 0 ;;; next_line).
End Patterns.

(** The ids [draw] compares with, next to those of all elements. *)
Class PatternType := { pattern_smpte_snow : Z; pattern_snow : Z }.

Section DrawFrame.
Context `{ElementType} `{VideoFormatType} `{PatternType}.

Definition drawing_data_init (format : SpaVideoInfo) (stride : Z) : Z * option DrawingData :=
  if negb (vi_media_type format =? media_video) || negb (vi_media_subtype format =? subtype_raw)
  then (SPA_RESULT_NOT_IMPLEMENTED, None)
  else
    let dd := mkDrawing (i32 (vr_size (vi_raw format)).1) (i32 (vr_size (vi_raw format)).2) stride in
    if vr_format (vi_raw format) =? video_RGB then (SPA_RESULT_OK, Some (dd draw_pixel_rgb_func))
    else if vr_format (vi_raw format) =? video_UYVY then (SPA_RESULT_OK, Some (dd draw_pixel_uyvy_func))
    else (SPA_RESULT_NOT_IMPLEMENTED, None).

(** The result, the colors, the memory and how many random numbers have been drawn. *)
Definition draw (colors : list Pixel) (rand : nat -> Z) (n : nat) (format : SpaVideoInfo) (stride pattern : Z) (data : bytes) :
    outcome (Z * list Pixel * bytes * nat) :=
  let colors := init_colors colors in
  match drawing_data_init format stride with
  | (res, None) => Done (res, colors, data, n)
  | (_, Some dd) =>
      if pattern =? pattern_smpte_snow then
        let* (_, c) := draw_smpte_snow colors rand dd (mkCanvas data 0 n) in Done (SPA_RESULT_OK, colors, mem c, rands c)
      else if pattern =? pattern_snow then
        let* (_, c) := draw_snow rand dd (mkCanvas data 0 n) in Done (SPA_RESULT_OK, colors, mem c, rands c)
      else Done (SPA_RESULT_NOT_IMPLEMENTED, colors, data, n)
  end.
End DrawFrame.

(** ** What a drawing writes *)

(** From any memory of [L] bytes, at line [l] and with [n] numbers drawn, the drawing
    returns, having written the bytes [P] and nothing else. *)
Definition paints (m : Draw unit) (L l : Z) (n : nat) (P : Z -> option Z) (l' : Z) (n' : nat) : Prop :=
  forall d, zlen d = L -> exists d', m (mkCanvas d l n) = Done (tt, mkCanvas d' l' n') /\ zlen d' = L /\
    forall p, 0 <= p -> d' !! Z.to_nat p = match P p with Some b => Some b | None => d !! Z.to_nat p end.

Definition over (P Q : Z -> option Z) (p : Z) : option Z := match P p with Some b => Some b | None => Q p end.

Lemma paints_ext m L l n P Q l' n' : (forall p, 0 <= p -> P p = Q p) -> paints m L l n P l' n' -> paints m L l n Q l' n'.
Proof.
  intros HPQ Hm d Hd. destruct (Hm d Hd) as (d' & Hrun & Hlen & Hp). exists d'. split_and!; [done | done |].
  intros p Hp0. rewrite <- HPQ by done. by apply Hp.
Qed.

Lemma paints_seq m1 m2 L l n P l1 n1 Q l2 n2 :
  paints m1 L l n P l1 n1 -> paints m2 L l1 n1 Q l2 n2 -> paints (m1 ;;; m2) L l n (over Q P) l2 n2.
Proof.
  intros H1 H2 d Hd. destruct (H1 d Hd) as (d1 & Hrun1 & Hlen1 & Hp1). destruct (H2 d1 Hlen1) as (d2 & Hrun2 & Hlen2 & Hp2).
  exists d2. split_and!; [by rewrite (run_bind_done _ _ _ _ _ Hrun1) | done |].
  intros p Hp. rewrite Hp2 by done. unfold over. destruct (Q p); [done | by apply Hp1].
Qed.

(** The same drawing, some steps later. *)
Lemma paints_eq m m' L l n l1 n1 P l' n' : (forall d, m (mkCanvas d l n) = m' (mkCanvas d l1 n1)) ->
  paints m' L l1 n1 P l' n' -> paints m L l n P l' n'.
Proof. intros Hm Hm' d Hd. rewrite Hm. by apply Hm'. Qed.

Lemma paints_none L l n : paints (ret tt) L l n (fun _ => None) l n.
Proof. intros d Hd. by exists d. Qed.

Lemma each_app {σ A} (l1 l2 : list A) (f : A -> ST σ unit) g : each (l1 ++ l2) f g = (each l1 f ;;; each l2 f) g.
Proof.
  revert g. induction l1 as [|x l1 IH]; intros g; [done |]. simpl. rewrite bind_assoc. unfold bind at 1 2.
  destruct (f x g) as [[a g1] | |]; [apply IH | done..].
Qed.

Lemma each_ext {σ A} (l : list A) (f f' : A -> ST σ unit) g : (forall x g, f x g = f' x g) -> each l f g = each l f' g.
Proof.
  intros Hf. revert g. induction l as [|x l IH]; intros g; [done |]. simpl. unfold bind. rewrite Hf. destruct (f' x g) as [[a g1] | |]; [apply IH | done..].
Qed.

(** A loop: [Q j] is what has been written before turn [j]. *)
Lemma paints_for a b f L (l : Z -> Z) (n : Z -> nat) (P Q : Z -> Z -> option Z) :
  a <= b -> (forall p, 0 <= p -> Q a p = None) ->
  (forall j, a <= j < b -> paints (f j) L (l j) (n j) (P j) (l (j + 1)) (n (j + 1))) ->
  (forall j p, a <= j < b -> 0 <= p -> Q (j + 1) p = over (P j) (Q j) p) ->
  paints (for_ a b f) L (l a) (n a) (Q b) (l b) (n b).
Proof.
  intros Hab H0 Hf HQ. unfold for_. remember (Z.to_nat (b - a)) as k eqn:Hk. revert b Hab Hf HQ Hk.
  induction k as [|k IH]; intros b Hab Hf HQ Hk.
  - replace b with a by lia. rewrite Z.sub_diag. cbn [seqZ]. eapply paints_ext, paints_none. intros p Hp. by rewrite H0.
  - replace (b - a) with ((b - 1 - a) + 1) by lia. rewrite seqZ_app by lia. replace (a + (b - 1 - a)) with (b - 1) by lia.
    assert (paints (each (seqZ a (b - 1 - a)) f) L (l a) (n a) (Q (b - 1)) (l (b - 1)) (n (b - 1))) as H1
      by (apply IH; [lia | intros; apply Hf; lia | intros; apply HQ; lia | lia]).
    specialize (Hf (b - 1) ltac:(lia)). specialize (HQ (b - 1)). replace (b - 1 + 1) with b in * by lia.
    intros d Hd. destruct (paints_seq _ _ _ _ _ _ _ _ _ _ _ H1 Hf d Hd) as (d' & Hrun & Hlen & Hp).
    exists d'. split_and!; [| done |].
    + rewrite each_app. cbn [seqZ Z.to_nat]. change (seqZ (b - 1) 1) with [b - 1]. cbn [each].
      unfold bind in *. destruct (each (seqZ a (b - 1 - a)) f _) as [[[] g1] | |]; [| done..]. simpl in *. by rewrite Hrun.
    + intros p Hp0. rewrite Hp by done. rewrite HQ by lia. done.
Qed.

Lemma paints_put L l n i v : - 2 ^ 31 <= i < 2 ^ 31 -> 0 <= l + i < L ->
  paints (put i v) L l n (fun p => if p =? l + i then Some v else None) l n.
Proof.
  intros Hi Hr d Hd. destruct (mwrite_defined (l + i) [v] d) as [d' Hw]; [lia | autorewrite with zlen; lia |].
  exists d'. unfold put. rewrite int_ok by lia. run_step. unfold bind, lift, modify, gets. cbn [line mem id]. rewrite Hw. cbn.
  split_and!; [done | by rewrite (mwrite_length _ _ _ _ Hw) |].
  intros p Hp. rewrite (mwrite_lookup _ _ _ _ p Hw Hp). autorewrite with zlen.
  destruct (Z.eqb_spec p (l + i)) as [-> | Hne].
  - rewrite (proj2 (Z.leb_le _ _)), (proj2 (Z.ltb_lt _ _)) by lia. by rewrite Z.sub_diag.
  - case_if; [lia | done].
Qed.

(** *** Pixels in a line *)

(** The column a byte of a line belongs to, and the component it holds. *)
Definition column (f : DrawPixelFunc) (k : Z) : Z :=
  match f with draw_pixel_rgb_func => k / 3 | draw_pixel_uyvy_func => if Z.odd k then k / 2 else 2 * (k / 4) end.
Definition component (f : DrawPixelFunc) (k : Z) (p : Pixel) : Z :=
  match f with
  | draw_pixel_rgb_func => if k mod 3 =? 0 then px_R p else if k mod 3 =? 1 then px_G p else px_B p
  | draw_pixel_uyvy_func => if Z.odd k then px_Y p else if k mod 4 =? 0 then px_U p else px_V p
  end.

(** The bytes the first [w] pixels of a line take. *)
Definition extent (f : DrawPixelFunc) (w : Z) : Z :=
  match f with draw_pixel_rgb_func => 3 * w | draw_pixel_uyvy_func => 2 * w + w mod 2 end.

(** The bytes of the pixels from [a] to [b] of a line at [l]. *)
Definition strip (f : DrawPixelFunc) (l a b : Z) (px : Z -> Pixel) (p : Z) : option Z :=
  let k := p - l in
  if (0 <=? k) && (a <=? column f k) && (column f k <? b) then Some (component f k (px (column f k))) else None.

Lemma strip_ext f l a b px py p : (forall x, a <= x < b -> px x = py x) -> strip f l a b px p = strip f l a b py p.
Proof. intros Hpx. unfold strip. case_if; [| done]. do 2 f_equal. apply Hpx. lia. Qed.

Lemma strip_empty f l a px p : strip f l a a px p = None.
Proof. unfold strip. case_if; [lia | done]. Qed.

Lemma strip_app f l a b c px p : a <= b <= c -> over (strip f l b c px) (strip f l a b px) p = strip f l a c px p.
Proof.
  intros Habc. unfold over, strip. destruct (Z.leb_spec 0 (p - l)); simpl; [| done].
  destruct (Z.leb_spec b (column f (p - l))), (Z.ltb_spec (column f (p - l)) c), (Z.leb_spec a (column f (p - l))),
    (Z.ltb_spec (column f (p - l)) b); simpl; done || lia.
Qed.

Lemma extent_mono f v w : 0 <= v <= w -> extent f v <= extent f w.
Proof.
  intros Hvw. destruct f; simpl; [lia |]. pose proof (Z.mod_pos_bound v 2). pose proof (Z.mod_pos_bound w 2).
  destruct (decide (v = w)) as [-> |]; lia.
Qed.

Lemma odd_mod k : Z.odd k = (k mod 2 =? 1).
Proof. rewrite Zmod_odd. by destruct (Z.odd k). Qed.

Lemma paints_pixel f L l n x px : 0 <= x -> 0 <= l -> l + extent f (x + 1) <= L -> extent f (x + 1) <= 2 ^ 31 ->
  paints (draw_pixel f x px) L l n (strip f l x (x + 1) (fun _ => px)) l n.
Proof.
  intros Hx Hl HL Hint. destruct f; cbn [draw_pixel extent] in *.
  - unfold draw_pixel_rgb. eapply paints_ext; [| eapply paints_seq; [| eapply paints_seq]; apply paints_put; lia].
    intros p Hp. unfold over, strip, column, component. pose proof (Z.div_mod (p - l) 3). pose proof (Z.mod_pos_bound (p - l) 3).
    set (q := (p - l) / 3) in *. set (r := (p - l) mod 3) in *.
    repeat match goal with |- context [?a =? ?b] => destruct (Z.eqb_spec a b) | |- context [?a <=? ?b] => destruct (Z.leb_spec a b)
      | |- context [?a <? ?b] => destruct (Z.ltb_spec a b) end; simpl; done || lia.
  - unfold draw_pixel_uyvy. rewrite odd_mod. pose proof (Z.div_mod x 2). pose proof (Z.mod_pos_bound x 2).
    pose proof (Z.mod_pos_bound (x + 1) 2). pose proof (Z.div_mod (x + 1) 2).
    destruct (Z.eqb_spec (x mod 2) 1).
    + eapply paints_ext; [| apply paints_put; lia]. intros p Hp. unfold strip, column, component. rewrite odd_mod.
      pose proof (Z.div_mod (p - l) 2). pose proof (Z.mod_pos_bound (p - l) 2). pose proof (Z.div_mod (p - l) 4). pose proof (Z.mod_pos_bound (p - l) 4).
      repeat match goal with |- context [?a =? ?b] => destruct (Z.eqb_spec a b) | |- context [?a <=? ?b] => destruct (Z.leb_spec a b)
        | |- context [?a <? ?b] => destruct (Z.ltb_spec a b) end; simpl; done || lia.
    + eapply paints_ext; [| eapply paints_seq; [| eapply paints_seq]; apply paints_put; lia].
      intros p Hp. unfold over, strip, column, component. rewrite odd_mod.
      pose proof (Z.div_mod (p - l) 2). pose proof (Z.mod_pos_bound (p - l) 2). pose proof (Z.div_mod (p - l) 4). pose proof (Z.mod_pos_bound (p - l) 4).
      repeat match goal with |- context [?a =? ?b] => destruct (Z.eqb_spec a b) | |- context [?a <=? ?b] => destruct (Z.leb_spec a b)
        | |- context [?a <? ?b] => destruct (Z.ltb_spec a b) end; simpl; done || lia.
Qed.

(** *** Lines *)

(** The color of bar [b] of a line of [w] pixels is that of the pixels from [b * w / 7] on. *)
Definition bar (w x : Z) : Z := (7 * x + 6) / w.

Definition snow (v : Z) : Pixel := update_yuv (rgb (u8 v) (u8 v) (u8 v)).

(** Where the snow begins in the lower lines. *)
Definition snow_start (w : Z) : Z := w / 6 + w / 6 + w / 6 + w / 12 + w / 12 + w / 12.

Section Lines.
Context (colors : list Pixel) (colors_all : length colors = Z.to_nat N_COLORS) (rand : nat -> Z) (dd : DrawingData).
Local Abbreviation f := (dd_draw_pixel dd).
Local Abbreviation w := (dd_width dd).
Context (L : Z) (width_ok : 0 < w) (width_int : extent f w <= 2 ^ 31) (bars_int : 7 * w < 2 ^ 31).

Definition color_of (c : Z) : Pixel := nth (Z.to_nat c) colors (rgb 0 0 0).

Lemma color_lookup c : 0 <= c < N_COLORS -> colors !! Z.to_nat c = Some (color_of c).
Proof.
  intros Hc. unfold color_of. destruct (nth_lookup_or_length colors (Z.to_nat c) (rgb 0 0 0)) as [-> | Hlen]; [done |].
  unfold N_COLORS in *. lia.
Qed.

Section Line.
Context (l : Z) (line_ok : 0 <= l) (line_room : l + extent f w <= L).

Lemma paints_pixel_in n x px : 0 <= x < w -> paints (draw_pixel f x px) L l n (strip f l x (x + 1) (fun _ => px)) l n.
Proof. intros Hx. pose proof (extent_mono f (x + 1) w). apply paints_pixel; lia. Qed.

Lemma paints_draw_pixels n a c k (px : Z -> Pixel) :
  0 <= a -> 0 <= k -> a + k <= w -> 0 <= c < N_COLORS -> (forall x, a <= x < a + k -> px x = color_of c) ->
  paints (draw_pixels colors dd a c k) L l n (strip f l a (a + k) px) l n.
Proof.
  intros Ha Hk Hw Hc Hpx. unfold draw_pixels. rewrite int_ok by lia. eapply paints_eq; [intros d; by run_step |].
  apply (paints_for a (a + k) _ L (fun _ => l) (fun _ => n) (fun x => strip f l x (x + 1) px) (fun x => strip f l a x px)).
  - lia.
  - intros p _. apply strip_empty.
  - intros x Hx. rewrite color_lookup by done. eapply paints_eq; [intros d; by run_step |].
    eapply paints_ext; [| apply (paints_pixel_in n x (color_of c)); lia].
    intros p _. apply strip_ext. intros y Hy. rewrite Hpx by lia. done.
  - intros x p Hx _. symmetry. apply strip_app. lia.
Qed.

Lemma paints_bars n (color : Z -> Z) (px : Z -> Pixel) : (forall j, 0 <= j < 7 -> 0 <= color j < N_COLORS) ->
  (forall x, 0 <= x < w -> px x = color_of (color (bar w x))) -> paints (draw_bars colors dd color) L l n (strip f l 0 w px) l n.
Proof.
  intros Hcolor Hpx. unfold draw_bars. replace (strip f l 0 w px) with (strip f l 0 (7 * w / 7) px)
    by (by rewrite Z.mul_comm, Z.div_mul by lia).
  apply (paints_for 0 7 _ L (fun _ => l) (fun _ => n) (fun j => strip f l (j * w / 7) ((j + 1) * w / 7) px) (fun j => strip f l 0 (j * w / 7) px)).
  - lia.
  - intros p _. apply strip_empty.
  - intros j Hj. unfold idiv. rewrite !int_ok by nia. cbn [obind]. eapply paints_eq; [intros d; by run_step |].
    rewrite !Z.quot_div_nonneg by nia. pose proof (Z.div_mod (j * w) 7). pose proof (Z.mod_pos_bound (j * w) 7).
    pose proof (Z.div_mod ((j + 1) * w) 7). pose proof (Z.mod_pos_bound ((j + 1) * w) 7).
    replace ((j + 1) * w / 7) with (j * w / 7 + ((j + 1) * w / 7 - j * w / 7)) at 2 by lia.
    apply paints_draw_pixels; [lia | lia | nia | by apply Hcolor |].
    intros x Hx. rewrite Hpx by nia. do 2 f_equal. unfold bar. symmetry. apply Z.div_unique with (7 * x + 6 - w * j); nia.
  - intros j p Hj _. symmetry. apply strip_app. split; [apply Z.div_pos; nia | apply Z.div_le_mono; nia].
Qed.

Lemma paints_snow n x (px : Z -> Pixel) : 0 <= x <= w -> (forall y, x <= y < w -> px y = snow (rand (n + Z.to_nat (y - x))%nat)) ->
  paints (draw_snow_from rand dd x) L l n (strip f l x w px) l (n + Z.to_nat (w - x)).
Proof.
  intros Hx Hpx. unfold draw_snow_from. replace n with (n + Z.to_nat (x - x))%nat at 1 by lia.
  apply (paints_for x w _ L (fun _ => l) (fun y => n + Z.to_nat (y - x))%nat (fun y => strip f l y (y + 1) px) (fun y => strip f l x y px)).
  - lia.
  - intros p _. apply strip_empty.
  - intros y Hy. replace (n + Z.to_nat (y + 1 - x))%nat with (S (n + Z.to_nat (y - x))) by lia.
    apply (paints_eq _ (draw_pixel f y (px y)) L l _ l (S (n + Z.to_nat (y - x)))).
    + intros d. rewrite Hpx by lia. done.
    + eapply paints_ext; [| apply (paints_pixel_in _ y (px y)); lia].
      intros p _. apply strip_ext. intros z Hz. f_equal. lia.
  - intros y p Hy _. symmetry. apply strip_app. lia.
Qed.

(** The colors of a lower line, before the snow. *)
Definition lower_color (x : Z) : Z :=
  if x <? w / 6 then NEG_I
  else if x <? w / 6 + w / 6 then WHITE
  else if x <? w / 6 + w / 6 + w / 6 then POS_Q
  else if x <? w / 6 + w / 6 + w / 6 + w / 12 then DARK_BLACK
  else if x <? w / 6 + w / 6 + w / 6 + w / 12 + w / 12 then BLACK
  else LIGHT_BLACK.
End Line.
End Lines.

(** *** Pictures *)

Lemma column_nonneg f k : 0 <= k -> 0 <= column f k.
Proof. intros Hk. destruct f; simpl; [apply Z.div_pos; lia |]. pose proof (Z.div_pos k 2). pose proof (Z.div_pos k 4). case_if; lia. Qed.

Lemma column_extent f k w : 0 <= k -> column f k < w -> k < extent f w.
Proof.
  intros Hk. destruct f; simpl.
  - intros Hc. apply Z.div_lt_upper_bound in Hc || idtac. pose proof (Z.div_mod k 3). pose proof (Z.mod_pos_bound k 3). lia.
  - rewrite odd_mod. pose proof (Z.div_mod k 2). pose proof (Z.mod_pos_bound k 2). pose proof (Z.div_mod k 4).
    pose proof (Z.mod_pos_bound k 4). pose proof (Z.mod_pos_bound w 2). pose proof (Z.div_mod w 2). destruct (Z.eqb_spec (k mod 2) 1); lia.
Qed.

(** The lines from [a] to [b] of a picture: byte [p] of the memory. *)
Definition lines (f : DrawPixelFunc) (w stride a b : Z) (pix : Z -> Z -> Pixel) (p : Z) : option Z :=
  let i := p / stride in
  let k := p mod stride in
  if (a <=? i) && (i <? b) && (column f k <? w) then Some (component f k (pix i (column f k))) else None.

Lemma lines_empty f w stride a pix p : lines f w stride a a pix p = None.
Proof. unfold lines. case_if; [lia | done]. Qed.

Lemma lines_app f w stride a b c pix p : a <= b <= c ->
  over (lines f w stride b c pix) (lines f w stride a b pix) p = lines f w stride a c pix p.
Proof.
  intros Habc. unfold over, lines. set (i := p / stride). set (k := column f (p mod stride)).
  destruct (Z.leb_spec b i), (Z.ltb_spec i c), (Z.leb_spec a i), (Z.ltb_spec i b), (Z.ltb_spec k w); simpl; done || lia.
Qed.

Lemma lines_strip f w stride i pix p : 0 <= i -> 0 < stride -> extent f w <= stride -> 0 <= p ->
  lines f w stride i (i + 1) pix p = strip f (i * stride) 0 w (pix i) p.
Proof.
  intros Hi Hs He Hp. unfold lines, strip. cbv zeta. destruct (decide (p / stride = i)) as [<- | Hne].
  - rewrite (proj2 (Z.leb_le _ _)), (proj2 (Z.ltb_lt _ (_ + 1))) by lia. pose proof (Z.mod_pos_bound p stride Hs).
    replace (p - p / stride * stride) with (p mod stride) by (pose proof (Z.div_mod p stride); lia).
    pose proof (column_nonneg f (p mod stride)). rewrite !(proj2 (Z.leb_le 0 _)) by lia. done.
  - replace (_ && (p / stride <? i + 1)) with false by (symmetry; apply andb_false_iff; destruct (Z.leb_spec i (p / stride)); [right | left; done]; apply Z.ltb_ge; lia).
    cbn [andb]. destruct (Z.leb_spec 0 (p - i * stride)) as [Hk |]; [| done].
    destruct (Z.ltb_spec (column f (p - i * stride)) w) as [Hc |]; [| by rewrite andb_false_r].
    pose proof (column_extent f (p - i * stride) w Hk Hc). exfalso. apply Hne. symmetry. apply Z.div_unique with (p - i * stride); lia.
Qed.

Lemma paints_join m1 m2 f L l n a b c px n1 n2 : a <= b <= c ->
  paints m1 L l n (strip f l a b px) l n1 -> paints m2 L l n1 (strip f l b c px) l n2 -> paints (m1 ;;; m2) L l n (strip f l a c px) l n2.
Proof. intros Habc H1 H2. eapply paints_ext; [| by eapply paints_seq]. intros p _. by apply strip_app. Qed.

Lemma paints_next_line dd L l n : paints (next_line dd) L l n (fun _ => None) (l + dd_stride dd) n.
Proof. intros d Hd. by exists d. Qed.

Section Picture.
Context (colors : list Pixel) (colors_all : length colors = Z.to_nat N_COLORS) (rand : nat -> Z) (dd : DrawingData).
Local Abbreviation f := (dd_draw_pixel dd).
Local Abbreviation w := (dd_width dd).
Local Abbreviation h := (dd_height dd).
Local Abbreviation stride := (dd_stride dd).
Context (L : Z) (width_ok : 0 < w) (width_int : extent f w <= 2 ^ 31) (bars_int : 7 * w < 2 ^ 31).
Context (height_ok : 0 < h) (height_int : 3 * h < 2 ^ 31) (stride_ok : extent f w <= stride) (room : stride * h <= L).

Lemma stride_pos : 0 < stride.
Proof. pose proof width_ok. destruct f eqn:Hf; simpl in stride_ok; [lia |]. pose proof (Z.mod_pos_bound w 2). lia. Qed.

(** One line after the other. *)
Lemma paints_lines a b body (n : Z -> nat) pix : 0 <= a <= b -> b <= h ->
  (forall i, a <= i < b -> paints (body i) L (i * stride) (n i) (strip f (i * stride) 0 w (pix i)) (i * stride) (n (i + 1))) ->
  paints (for_ a b (fun i => body i ;;; next_line dd)) L (a * stride) (n a) (lines f w stride a b pix) (b * stride) (n b).
Proof.
  intros Hab Hb Hbody. pose proof stride_pos.
  apply (paints_for a b _ L (fun i => i * stride) n (fun i => strip f (i * stride) 0 w (pix i)) (fun i => lines f w stride a i pix)).
  - lia.
  - intros p _. apply lines_empty.
  - intros i Hi. replace ((i + 1) * stride) with (i * stride + stride) by lia.
    eapply paints_ext; [| eapply paints_seq; [by apply Hbody | apply paints_next_line]]. by intros p _.
  - intros i p Hi Hp. unfold over at 1. rewrite <- (lines_strip f w stride i pix p) by lia. symmetry. apply lines_app. lia.
Qed.

Lemma line_room i : 0 <= i < h -> i * stride + extent f w <= L.
Proof. intros Hi. pose proof stride_pos. nia. Qed.

(** The pictures, pixel by pixel. *)
Definition smpte_picture (n : nat) (i x : Z) : Pixel :=
  if i <? 2 * h / 3 then color_of colors (bar w x)
  else if i <? 3 * h / 4 then color_of colors (if Z.odd (bar w x) then BLACK else BLUE - bar w x)
  else if x <? snow_start w then color_of colors (lower_color dd x)
  else snow (rand (n + Z.to_nat ((i - 3 * h / 4) * (w - snow_start w) + (x - snow_start w)))%nat).
Definition snow_picture (n : nat) (i x : Z) : Pixel := snow (rand (n + Z.to_nat (i * w + x))%nat).

Lemma bar_range x : 0 <= x < w -> 0 <= bar w x < 7.
Proof. intros Hx. unfold bar. split; [apply Z.div_pos; lia | apply Z.div_lt_upper_bound; lia]. Qed.

Lemma snow_start_range : 0 <= snow_start w <= w.
Proof.
  unfold snow_start. pose proof (Z.div_mod w 6). pose proof (Z.mod_pos_bound w 6). pose proof (Z.div_mod w 12). pose proof (Z.mod_pos_bound w 12). lia.
Qed.

Lemma draw_snow_paints n : paints (draw_snow rand dd) L 0 n (lines f w stride 0 h (snow_picture n)) (h * stride) (n + Z.to_nat (h * w)).
Proof.
  pose proof stride_pos. unfold draw_snow. replace n with (n + Z.to_nat (0 * w))%nat at 1 by lia.
  apply (paints_lines 0 h (fun _ => draw_snow_from rand dd 0) (fun i => n + Z.to_nat (i * w))%nat); [lia | lia |].
  intros i Hi. replace (n + Z.to_nat ((i + 1) * w))%nat with (n + Z.to_nat (i * w) + Z.to_nat (w - 0))%nat by nia.
  eapply paints_snow; try done; [nia | by apply line_room | lia |].
  intros x Hx. unfold snow_picture. do 2 f_equal. nia.
Qed.

(** The pieces of a lower line. *)
Definition lower_parts : Draw unit :=
  draw_pixels colors dd 0 NEG_I (w / 6) ;;; draw_pixels colors dd (w / 6) WHITE (w / 6) ;;;
    draw_pixels colors dd (w / 6 + w / 6) POS_Q (w / 6) ;;; draw_pixels colors dd (w / 6 + w / 6 + w / 6) DARK_BLACK (w / 12) ;;;
    draw_pixels colors dd (w / 6 + w / 6 + w / 6 + w / 12) BLACK (w / 12) ;;;
    draw_pixels colors dd (w / 6 + w / 6 + w / 6 + w / 12 + w / 12) LIGHT_BLACK (w / 12) ;;; draw_snow_from rand dd (snow_start w).

Lemma lower_line n l px : 0 <= l -> l + extent f w <= L ->
  (forall x, 0 <= x < snow_start w -> px x = color_of colors (lower_color dd x)) ->
  (forall x, snow_start w <= x < w -> px x = snow (rand (n + Z.to_nat (x - snow_start w))%nat)) ->
  paints lower_parts L l n (strip f l 0 w px) l (n + Z.to_nat (w - snow_start w)).
Proof.
  intros Hl Hroom Hlow Hsnow. pose proof snow_start_range as Hs. unfold snow_start in Hs.
  pose proof (Z.div_pos w 6 ltac:(lia) ltac:(lia)) as H6. pose proof (Z.div_pos w 12 ltac:(lia) ltac:(lia)) as H12.
  assert (forall a c k, 0 <= a -> 0 <= k -> a + k <= snow_start w -> 0 <= c < N_COLORS -> (forall x, a <= x < a + k -> lower_color dd x = c) ->
    paints (draw_pixels colors dd a c k) L l n (strip f l a (a + k) px) l n) as Hpart.
  { intros a c k Ha Hk Hak Hc Hx. pose proof snow_start_range. eapply paints_draw_pixels; try done; try lia.
    intros x Hx1. rewrite Hlow, Hx by lia. done. }
  unfold snow_start in Hpart. unfold lower_color in Hpart. unfold lower_parts.
  do 6 (eapply paints_join; [| apply Hpart; [lia | lia | lia | done |]; intros x Hx; repeat case_if; done || lia |]; [lia |]).
  eapply paints_snow; done.
Qed.

Lemma draw_smpte_snow_paints n :
  paints (draw_smpte_snow colors rand dd) L 0 n (lines f w stride 0 h (smpte_picture n)) (h * stride)
    (n + Z.to_nat ((h - 3 * h / 4) * (w - snow_start w))).
Proof.
  assert (0 <= 2 * h / 3 <= 3 * h / 4 /\ 3 * h / 4 <= h) as [Hy1 Hy2].
  { pose proof (Z.div_mod (2 * h) 3). pose proof (Z.mod_pos_bound (2 * h) 3). pose proof (Z.div_mod (3 * h) 4). pose proof (Z.mod_pos_bound (3 * h) 4). lia. }
  pose proof snow_start_range as Hs. pose proof stride_pos as Hst.
  unfold draw_smpte_snow, idiv. rewrite !int_ok by lia. cbn [obind]. rewrite !Z.quot_div_nonneg by lia.
  eapply paints_eq; [intros d; by run_step |].
  eapply paints_ext; [intros p _; apply (lines_app f w stride 0 (2 * h / 3) h); lia |].
  eapply paints_seq.
  - apply (paints_lines 0 (2 * h / 3) (fun _ => draw_bars colors dd (fun j => j)) (fun _ => n)); [lia | lia |].
    intros i Hi. eapply paints_bars; try done; [nia | apply line_room; lia | unfold N_COLORS; lia |].
    intros x Hx. unfold smpte_picture. by rewrite (proj2 (Z.ltb_lt _ _)) by lia.
  - eapply paints_ext; [intros p _; apply (lines_app f w stride _ (3 * h / 4) h); lia |].
    eapply paints_seq.
    + apply (paints_lines (2 * h / 3) (3 * h / 4) (fun _ => draw_bars colors dd (fun j => if Z.odd j then BLACK else BLUE - j)) (fun _ => n)); [lia | lia |].
      intros i Hi. eapply paints_bars; try done; [nia | apply line_room; lia | |].
      * intros j Hj. unfold N_COLORS, BLACK, BLUE. case_if; lia.
      * intros x Hx. unfold smpte_picture. by rewrite (proj2 (Z.ltb_ge _ _)), (proj2 (Z.ltb_lt _ _)) by lia.
    + replace n with (n + Z.to_nat ((3 * h / 4 - 3 * h / 4) * (w - snow_start w)))%nat at 1 by nia.
      apply (paints_eq _ (for_ (3 * h / 4) h (fun _ => lower_parts ;;; next_line dd)) L _ _ (3 * h / 4 * stride)
        (n + Z.to_nat ((3 * h / 4 - 3 * h / 4) * (w - snow_start w)))).
      { intros d. apply each_ext. intros i g. cbv zeta. rewrite !Z.add_0_l.
        unfold lower_parts, snow_start, bind. do 7 (match goal with |- obind ?e _ = _ => destruct e as [[[] ?] | |]; [cbn [obind] | done | done] end). done. }
      apply (paints_lines (3 * h / 4) h (fun _ => lower_parts) (fun i => n + Z.to_nat ((i - 3 * h / 4) * (w - snow_start w)))%nat); [lia | lia |].
      intros i Hi. replace (n + Z.to_nat ((i + 1 - 3 * h / 4) * (w - snow_start w)))%nat
        with (n + Z.to_nat ((i - 3 * h / 4) * (w - snow_start w)) + Z.to_nat (w - snow_start w))%nat by nia.
      apply lower_line; [nia | apply line_room; lia | |]; intros x Hx; unfold smpte_picture;
        rewrite !(proj2 (Z.ltb_ge i _)) by lia.
      * by rewrite (proj2 (Z.ltb_lt _ _)) by lia.
      * rewrite (proj2 (Z.ltb_ge _ _)) by lia. do 2 f_equal. nia.
Qed.
End Picture.

(** *** Colors *)

Lemma shift_u16 z : - 2 ^ 15 < z < 2 ^ 16 - 2 ^ 8 ->
  u8 (u16 (Z.shiftr (u16 z + 128) 8) + 128) = ((z + 128) / 256 + 128) mod 256.
Proof.
  intros Hz. unfold u8, u16. rewrite Z.shiftr_div_pow2 by lia. change (2 ^ 16) with 65536. change (2 ^ 8) with 256.
  destruct (Z_le_gt_dec 0 z).
  - rewrite (Z.mod_small z) by lia. rewrite (Z.mod_small (_ / _)); [done |].
    split; [apply Z.div_pos; lia | apply Z.div_lt_upper_bound; lia].
  - replace (z mod 65536) with (z + 65536) by (apply (Z.mod_unique _ _ (-1)); lia).
    replace (z + 65536 + 128) with ((z + 128) + 256 * 256) by lia. rewrite Z.div_add by lia.
    rewrite (Z.mod_small (_ + 256)); [rewrite <- (Z.mod_add ((z + 128) / 256 + 128) 1 256) by lia; f_equal; lia |].
    pose proof (Z.div_mod (z + 128) 256). pose proof (Z.mod_pos_bound (z + 128) 256). lia.
Qed.

(** The sums wrap around in 16 bits and the result is cut to 8, and still the conversion is
    that of the standard, rounded to the nearest, for every color. *)
Lemma update_yuv_exact p : is_byte (px_R p) -> is_byte (px_G p) -> is_byte (px_B p) ->
  update_yuv p = mkPixel (px_R p) (px_G p) (px_B p)
    ((76 * px_R p + 150 * px_G p + 29 * px_B p + 128) / 256)
    (128 + (-43 * px_R p - 84 * px_G p + 127 * px_B p + 128) / 256)
    (128 + (127 * px_R p - 106 * px_G p - 21 * px_B p + 128) / 256).
Proof.
  destruct p as [r g b y u v]. cbn [px_R px_G px_B]. unfold is_byte. intros Hr Hg Hb. unfold update_yuv. cbn [px_R px_G px_B].
  assert (forall z, - 32385 <= z <= 32385 -> ((z + 128) / 256 + 128) mod 256 = 128 + (z + 128) / 256) as Hsmall.
  { intros z Hz. pose proof (Z.div_mod (z + 128) 256). pose proof (Z.mod_pos_bound (z + 128) 256). rewrite Z.mod_small by lia. lia. }
  rewrite !shift_u16, !Hsmall by lia. f_equal. unfold u8, u16. rewrite Z.shiftr_div_pow2 by lia. change (2 ^ 16) with 65536. change (2 ^ 8) with 256.
  rewrite (Z.mod_small (_ + _ + _) 65536) by lia.
  pose proof (Z.div_mod (76 * r + 150 * g + 29 * b + 128) 256). pose proof (Z.mod_pos_bound (76 * r + 150 * g + 29 * b + 128) 256).
  rewrite (Z.mod_small _ 65536) by lia. by rewrite Z.mod_small by lia.
Qed.

Lemma init_colors_twice : init_colors (init_colors initial_colors) = init_colors initial_colors.
Proof. by vm_compute. Qed.

(** ** A frame *)

Section Frame.
Context `{ElementType} `{VideoFormatType} `{PatternType}.

(** The formats and patterns there are. *)
Definition draws (format : SpaVideoInfo) (f : DrawPixelFunc) : Prop :=
  vi_media_type format = media_video /\ vi_media_subtype format = subtype_raw /\ video_RGB <> video_UYVY /\
  vr_format (vi_raw format) = match f with draw_pixel_rgb_func => video_RGB | draw_pixel_uyvy_func => video_UYVY end.

Definition picture (colors : list Pixel) (rand : nat -> Z) (dd : DrawingData) (n : nat) (pattern i x : Z) : Pixel :=
  if pattern =? pattern_smpte_snow then smpte_picture colors rand dd n i x else snow_picture rand dd n i x.

Lemma draws_init format f w h stride : draws format f -> vr_size (vi_raw format) = (w, h) -> 0 <= w < 2 ^ 31 -> 0 <= h < 2 ^ 31 ->
  drawing_data_init format stride = (SPA_RESULT_OK, Some (mkDrawing w h stride f)).
Proof.
  intros (Ht & Hs & Hne & Hf) Hsize Hw Hh. unfold drawing_data_init. rewrite Ht, Hs, !Z.eqb_refl, Hsize. cbn [negb orb fst snd].
  rewrite !i32_small by lia. rewrite Hf. destruct f; [by rewrite Z.eqb_refl |].
  rewrite (proj2 (Z.eqb_neq _ _)) by done. by rewrite Z.eqb_refl.
Qed.
End Frame.

(** What [draw] does to the memory of a buffer. *)
Lemma draw_frame `{ElementType} `{VideoFormatType} `{PatternType} colors rand n format f w h stride pattern data :
  length colors = Z.to_nat N_COLORS -> draws format f -> vr_size (vi_raw format) = (w, h) ->
  pattern = pattern_smpte_snow \/ pattern = pattern_snow ->
  0 < w -> 0 < h -> 7 * w < 2 ^ 31 -> 3 * h < 2 ^ 31 -> extent f w <= stride -> stride * h <= zlen data ->
  exists data' n', draw colors rand n format stride pattern data = Done (SPA_RESULT_OK, init_colors colors, data', n') /\
    zlen data' = zlen data /\
    forall p, 0 <= p -> data' !! Z.to_nat p =
      match lines f w stride 0 h (picture (init_colors colors) rand (mkDrawing w h stride f) n pattern) p with
      | Some b => Some b
      | None => data !! Z.to_nat p
      end.
Proof.
  intros Hall Hf Hsize Hpat Hw Hh Hwi Hhi Hs Hroom. unfold draw.
  rewrite (draws_init format f w h stride Hf Hsize) by lia.
  assert (length (init_colors colors) = Z.to_nat N_COLORS) as Hall'
    by (unfold init_colors; case_if; [done | by rewrite length_fmap]).
  assert (extent f w <= 2 ^ 31) as Hi by (destruct f; simpl; pose proof (Z.mod_pos_bound w 2); lia).
  set (dd := mkDrawing w h stride f). unfold picture. destruct (Z.eqb_spec pattern pattern_smpte_snow) as [_ | Hne].
  - destruct (draw_smpte_snow_paints (init_colors colors) Hall' rand dd (zlen data) Hw Hi Hwi Hh Hhi Hs Hroom n data eq_refl)
      as (d' & Hrun & Hlen & Hp).
    rewrite Hrun. cbn. eexists d', _. split_and!; [done | done | exact Hp].
  - destruct Hpat as [-> | ->]; [done |]. rewrite Z.eqb_refl.
    destruct (draw_snow_paints (init_colors colors) Hall' rand dd (zlen data) Hw Hi Hh Hs Hroom n data eq_refl) as (d' & Hrun & Hlen & Hp).
    rewrite Hrun. cbn. eexists d', _. split_and!; [done | done | exact Hp].
Qed.

(** C16: Drawing a frame writes the picture and nothing else: for both formats and both
    patterns, a byte of the buffer that belongs to a pixel of the picture has that pixel's
    component, every other byte, in the padding of a line or behind the last one, is what it
    was; no access is outside the buffer and nothing overflows, for any size up to the
    seventh of an [int] whose lines fit the stride and whose stride times height fits the
    buffer. *)
Theorem draw_exact `{ElementType} `{VideoFormatType} `{PatternType} colors rand n format f w h stride pattern data :
  length colors = Z.to_nat N_COLORS -> draws format f -> vr_size (vi_raw format) = (w, h) ->
  pattern = pattern_smpte_snow \/ pattern = pattern_snow ->
  0 < w -> 0 < h -> 7 * w < 2 ^ 31 -> 3 * h < 2 ^ 31 -> extent f w <= stride -> stride * h <= zlen data ->
  exists data' n', draw colors rand n format stride pattern data = Done (SPA_RESULT_OK, init_colors colors, data', n') /\
    zlen data' = zlen data /\
    forall p, 0 <= p -> data' !! Z.to_nat p =
      match lines f w stride 0 h (picture (init_colors colors) rand (mkDrawing w h stride f) n pattern) p with
      | Some b => Some b
      | None => data !! Z.to_nat p
      end.
Proof. apply draw_frame. Qed.

(** The ids of a run. *)
#[export] Instance sample_element_types : ElementType | 100 :=
  Build_ElementType 1 2 3 4 5 6 7 8 9 10 11 12 13 14 15 16 17 18 19 20 21 22.
#[export] Instance sample_video_types : VideoFormatType | 100 :=
  Build_VideoFormatType 30 31 32 33 34 35 36 37 38 39 40 41 42 43 44 45.
#[export] Instance sample_pattern_types : PatternType | 100 := Build_PatternType 50 51.

Definition sample_video (format w h : Z) : SpaVideoInfo :=
  mkVideoInfo media_video subtype_raw
    (mkVideoRaw format (w, h) (25, 1) (0, 0) 0 0 (0, 0) 0 0 0 0 0 0 0).

(** Three columns of UYVY: seven bytes of a line of eight, and the eighth is left alone. *)
Example draw_odd_width :
  draw initial_colors (fun _ => 100) 0 (sample_video video_UYVY 3 1) 8 pattern_snow (replicate 8 9) =
    Done (SPA_RESULT_OK, update_yuv <$> initial_colors, [128; 100; 128; 100; 128; 100; 128; 9], 3%nat).
Proof. by vm_compute. Qed.

Lemma draw_exact_witness :
  exists data' n', draw initial_colors (fun _ => 0) 0 (sample_video video_RGB 14 4) 44 pattern_smpte_snow (replicate 180 7) =
      Done (SPA_RESULT_OK, init_colors initial_colors, data', n') /\
    take 8 data' = [191; 191; 191; 191; 191; 191; 191; 191] /\ drop 176 data' = [7; 7; 7; 7].
Proof.
  destruct (draw_exact initial_colors (fun _ => 0) 0 (sample_video video_RGB 14 4) draw_pixel_rgb_func 14 4 44 pattern_smpte_snow (replicate 180 7))
    as (data' & n' & Hrun & _ & _).
  - done.
  - split_and!; done.
  - done.
  - by left.
  - lia.
  - lia.
  - lia.
  - lia.
  - simpl. lia.
  - by vm_compute.
  - exists data', n'. split; [exact Hrun |]. vm_compute in Hrun. injection Hrun as <- <-. split; reflexivity.
Defined.
