(* ===== verification/VideoTestSrc.v ===== *)
(** [spa/plugins/videotestsrc/videotestsrc.c]: the video test source, an element with one
    output port that makes the frames of Draw, at the times its framerate says. *)
From stdpp Require Import gmap.
From S2P Require Import Prelude State Defs Pod PodUtils Props Element TestSource Draw.

(** ** State *)

Class VideoSrcType := { vt_prop_live : Z; vt_prop_pattern : Z }.

Record SpaVideoTestSrcProps := mkVideoProps { vp_live : bool; vp_pattern : Z }.

(** The format, what is computed from it, and the globals of [draw.c]. *)
Record VideoState := mkVideoState { vs_info : SpaVideoInfo; bpp : Z; stride : Z; vs_colors : list Pixel; vs_rands : nat }.
Definition with_vs_info (i : SpaVideoInfo) (v : VideoState) : VideoState := mkVideoState i (bpp v) (stride v) (vs_colors v) (vs_rands v).
Definition with_bpp (b : Z) (v : VideoState) : VideoState := mkVideoState (vs_info v) b (stride v) (vs_colors v) (vs_rands v).
Definition with_stride (b : Z) (v : VideoState) : VideoState := mkVideoState (vs_info v) (bpp v) b (vs_colors v) (vs_rands v).
Definition with_globals (c : list Pixel) (n : nat) (v : VideoState) : VideoState := mkVideoState (vs_info v) (bpp v) (stride v) c n.

Definition MAX_BUFFERS : nat := 16.
Definition MAX_PORTS : Z := 1.

Definition CHECK_PORT_NUM (direction port_id : Z) : bool := (direction =? SPA_DIRECTION_OUTPUT) && (port_id <? MAX_PORTS).
Definition CHECK_PORT (io : option Z) (direction port_id : Z) : bool :=
  CHECK_PORT_NUM direction port_id && bool_decide (is_Some io).

#[export] Instance video_kind `{ElementType} : SourceKind SpaVideoTestSrcProps VideoState := {
  live := vp_live;
  check_port := CHECK_PORT;
  remember b := (spa_buffer_find_meta b meta_Header, None)
}.

Abbreviation SpaVideoTestSrc := (Source SpaVideoTestSrcProps VideoState).
Abbreviation VTS := (ST SpaVideoTestSrc).

Section Ops.
Context `{ElementType} `{VideoFormatType} `{PatternType} `{VideoSrcType} `{Heap}.
(** The numbers of [rand]. *)
Context (rand : nat -> Z).

(** ** Properties *)

Definition reset_videotestsrc_props : SpaVideoTestSrcProps := mkVideoProps true pattern_smpte_snow.

(** A builder on a buffer of [n] bytes. *)
Definition builder_on (n : Z) : SpaPODBuilder Fixed := spa_pod_builder_init (mkFixed (fresh n) n).

Definition spa_videotestsrc_node_get_props : VTS (Z * bytes) :=
  s <- gets id ;;
  p <- lift (
    let* (b, ref) := spa_pod_builder_props (builder_on 512) t_props (
      PROP vt_prop_live (PBool (if vp_live (props s) then 1 else 0)) ++
      PROP_EN vt_prop_pattern [PId (vp_pattern (props s)); PId pattern_smpte_snow; PId pattern_snow]) in
    SPA_POD_BUILDER_DEREF b ref) ;;
  ret (SPA_RESULT_OK, p).

Definition spa_videotestsrc_node_set_props (new : option bytes) : VTS Z :=
  s <- gets id ;;
  p <- match new with
       | None => ret reset_videotestsrc_props
       | Some new =>
           gs <- lift (spa_props_query new [(vt_prop_live, SPA_POD_TYPE_BOOL); (vt_prop_pattern, SPA_POD_TYPE_ID)]) ;;
           live <- lift (stored_bool gs 0 (vp_live (props s))) ;;
           ret (mkVideoProps live (stored_word gs 1 (vp_pattern (props s))))
       end ;;
  modify (with_src_props p) ;;;
  update_live ;;;
  ret SPA_RESULT_OK.

(** ** Frames *)

(** In 64 bits; a framerate of 0 divides by zero. *)
Definition FRAMES_TO_TIME (rate : Z * Z) (f : Z) : outcome Z :=
  if rate.1 =? 0 then Undef else Done (u64 (u64 (rate.2 * f) * SPA_NSEC_PER_SEC) / rate.1).

(** Its result is not looked at. Memory that is [NULL] is written to all the same. *)
Definition fill_buffer (e : Slot) : VTS unit :=
  s <- gets id ;;
  b <- get_buf (outbuf e) ;;
  d <- lift (of_option (mb_datas b !! 0%nat)) ;;
  let v := current_format s in
  '(_, colors, m, n) <- lift (draw (vs_colors v) rand (vs_rands v) (vs_info v) (stride v) (vp_pattern (props s)) (default [] (md_data d))) ;;
  modify (with_current_format (with_globals colors n v)) ;;;
  match md_data d with
  | None => ret tt
  | Some _ => put_buf (outbuf e) (with_datas (<[0%nat := with_md_data m d]> (mb_datas b)) b)
  end.

(** The chunk of the first data: all of its memory. *)
Definition write_chunk (e : Slot) : VTS unit :=
  s <- gets id ;;
  b <- get_buf (outbuf e) ;;
  d <- lift (of_option (mb_datas b !! 0%nat)) ;;
  put_buf (outbuf e) (with_datas (<[0%nat := with_md_chunk (mkChunk 0 (md_maxsize d) (stride (current_format s))) d]> (mb_datas b)) b).

Definition videotestsrc_make_buffer : VTS Z :=
  next <- next_buffer ;;
  match next with
  | None => ret SPA_RESULT_OUT_OF_BUFFERS
  | Some (_, e) =>
      fill_buffer e ;;;
      write_chunk e ;;;
      write_header e ;;;
      s <- gets id ;;
      let n := u64 (count s + 1) in
      elapsed <- lift (FRAMES_TO_TIME (vr_framerate (vi_raw (vs_info (current_format s)))) n) ;;
      deliver e n elapsed
  end.

(** The callback is called whether it is set or not. *)
Definition videotestsrc_on_output : VTS unit :=
  res <- videotestsrc_make_buffer ;;
  when (res =? SPA_RESULT_HAVE_BUFFER)
    (s <- gets id ;; if have_output s then modify (with_signalled (signalled s + 1)) else undef).

(** ** The node *)

Definition spa_videotestsrc_node_send_command (command : bytes) (now : Z) : VTS Z := node_send_command command now.
Definition spa_videotestsrc_node_set_callbacks (callback : bool) : VTS Z := node_set_callbacks callback.

(** The one format, with its ranges. *)
Definition possible_format : outcome bytes :=
  let* (b, ref) := spa_pod_builder_format (builder_on 1024) t_format media_video subtype_raw (
    PROP_U_EN fv_format [PId video_RGB; PId video_RGB; PId video_UYVY] ++
    PROP_U_MM fv_size (PRectangle 320 240) (PRectangle 1 1) (PRectangle INT32_MAX INT32_MAX) ++
    PROP_U_MM fv_framerate (PFraction 25 1) (PFraction 0 1) (PFraction INT32_MAX 1)) in
  SPA_POD_BUILDER_DEREF b ref.

Definition enum_formats_loop : nat -> option bytes -> Z -> Z -> Z -> outcome (Z * option bytes) := enum_one_format possible_format 1024.

Definition spa_videotestsrc_node_port_enum_formats (direction port_id : Z) (filter : option bytes) (index : Z) : VTS (Z * option bytes) :=
  s <- gets id ;;
  if negb (CHECK_PORT (io s) direction port_id) then ret (SPA_RESULT_INVALID_PORT, None)
  else
    let start := match filter with Some _ => 0 | None => index end in
    lift (enum_formats_loop 2 filter index start start).

(** What the format asks of the buffers. *)
Definition update_params : VTS unit :=
  s <- gets id ;;
  let v := current_format s in
  let size := vr_size (vi_raw (vs_info v)) in
  let stride := i32 (SPA_ROUND_UP_N (bpp v * size.1) 4) in
  '(p0, p1) <- lift (
    let* (b, r0) := spa_pod_builder_object (builder_on 1024) 0 alloc_Buffers (
      PROP alloc_size (PInt (stride * size.2)) ++
      PROP alloc_stride (PInt stride) ++
      PROP_U_MM alloc_buffers (PInt 32) (PInt 2) (PInt 32) ++
      PROP alloc_align (PInt 16)) in
    let* (b, r1) := spa_pod_builder_object b 0 alloc_MetaEnable (
      PROP alloc_meta_type (PId meta_Header) ++
      PROP alloc_meta_size (PInt 24)) in
    let* p0 := SPA_POD_BUILDER_DEREF b r0 in
    let* p1 := SPA_POD_BUILDER_DEREF b r1 in
    Done (p0, p1)) ;;
  modify (with_current_format (with_stride stride v)) ;;;
  modify (fun s => with_info (mkElementInfo (ei_flags (info s)) [p0; p1] (u64 (-1)) 0) s).

Definition spa_videotestsrc_node_port_set_format (direction port_id : Z) (format : option bytes) : VTS Z :=
  s <- gets id ;;
  if negb (CHECK_PORT (io s) direction port_id) then ret SPA_RESULT_INVALID_PORT
  else
    match format with
    | None => modify (with_have_format false) ;;; clear_buffers ;;; ret SPA_RESULT_OK
    | Some format =>
        media <- lift (SPA_FORMAT_MEDIA_TYPE format) ;;
        sub <- lift (SPA_FORMAT_MEDIA_SUBTYPE format) ;;
        if negb (media =? media_video) && negb (sub =? subtype_raw) then ret SPA_RESULT_INVALID_MEDIA_TYPE
        else
          raw <- lift (spa_format_video_raw_parse format zero_video_raw) ;;
          known <- (if vr_format raw =? video_RGB then
                      modify (fun s => with_current_format (with_bpp 3 (current_format s)) s) ;;; ret true
                    else if vr_format raw =? video_UYVY then
                      modify (fun s => with_current_format (with_bpp 2 (current_format s)) s) ;;; ret true
                    else ret false) ;;
          if negb known then ret SPA_RESULT_NOT_IMPLEMENTED
          else
            modify (fun s => with_current_format (with_vs_info (mkVideoInfo media sub raw) (current_format s)) s) ;;;
            modify (with_have_format true) ;;;
            update_params ;;;
            ret SPA_RESULT_OK
    end.

Definition spa_videotestsrc_node_port_get_format (direction port_id : Z) : VTS (Z * option bytes) :=
  s <- gets id ;;
  if negb (CHECK_PORT (io s) direction port_id) then ret (SPA_RESULT_INVALID_PORT, None)
  else if negb (have_format s) then ret (SPA_RESULT_NO_FORMAT, None)
  else
    let raw := vi_raw (vs_info (current_format s)) in
    f <- lift (
      let* (b, ref) := spa_pod_builder_format (builder_on 1024) t_format media_video subtype_raw (
        PROP fv_format (PId (vr_format raw)) ++
        PROP fv_size (PRectangle (vr_size raw).1 (vr_size raw).2) ++
        PROP fv_framerate (PFraction (vr_framerate raw).1 (vr_framerate raw).2)) in
      SPA_POD_BUILDER_DEREF b ref) ;;
    ret (SPA_RESULT_OK, Some f).

Definition spa_videotestsrc_node_port_get_info (direction port_id : Z) : VTS (Z * option ElementInfo) := port_get_info direction port_id.
Definition spa_videotestsrc_node_port_use_buffers (direction port_id : Z) (buffers : list Z) : VTS Z :=
  port_use_buffers direction port_id buffers.
Definition spa_videotestsrc_node_port_alloc_buffers (direction port_id : Z) : VTS Z := port_alloc_buffers direction port_id.

Definition spa_videotestsrc_node_port_set_io (direction port_id : Z) (p : option Z) : VTS Z :=
  if negb (CHECK_PORT_NUM direction port_id) then ret SPA_RESULT_INVALID_PORT
  else modify (with_src_io p) ;;; ret SPA_RESULT_OK.

Definition spa_videotestsrc_node_port_reuse_buffer (port_id buffer_id : Z) : VTS Z := port_reuse_buffer port_id buffer_id.
Definition spa_videotestsrc_node_process_output : VTS Z := node_process_output videotestsrc_make_buffer.

(** The rest is not implemented. *)
Definition spa_videotestsrc_node_add_port : Z := SPA_RESULT_NOT_IMPLEMENTED.
Definition spa_videotestsrc_node_remove_port : Z := SPA_RESULT_NOT_IMPLEMENTED.
Definition spa_videotestsrc_node_port_get_props : Z := SPA_RESULT_NOT_IMPLEMENTED.
Definition spa_videotestsrc_node_port_set_props : Z := SPA_RESULT_NOT_IMPLEMENTED.
Definition spa_videotestsrc_node_port_send_command : Z := SPA_RESULT_NOT_IMPLEMENTED.
Definition spa_videotestsrc_node_process_input : Z := SPA_RESULT_NOT_IMPLEMENTED.

(** ** The clock and the handle *)

(** The rate, the ticks and the time. *)
Definition spa_videotestsrc_clock_get_time (now : Z) : Z * Z * Z := (SPA_NSEC_PER_SEC, i64 now, i64 now).

Inductive interface := INode | IClock.
Definition spa_videotestsrc_get_interface (interface_id : Z) : Z * option interface :=
  if interface_id =? t_node then (SPA_RESULT_OK, Some INode)
  else if interface_id =? t_clock then (SPA_RESULT_OK, Some IClock)
  else (SPA_RESULT_UNKNOWN_INTERFACE, None).

(** [map] and [loop]: whether the host supports a type map and a data loop. The memory of the handle is zero. *)
Definition videotestsrc_init (map loop : bool) (h : Host) : Z * option SpaVideoTestSrc :=
  if negb map then (SPA_RESULT_ERROR, None)
  else
    let p := reset_videotestsrc_props in
    let flags := Z.lor SPA_PORT_INFO_FLAG_CAN_USE_BUFFERS SPA_PORT_INFO_FLAG_NO_REF in
    let flags := if vp_live p then Z.lor flags SPA_PORT_INFO_FLAG_LIVE else flags in
    (SPA_RESULT_OK, Some (mkSource p false loop None (mkElementInfo flags [] 0 0) None false
      (mkVideoState (mkVideoInfo 0 0 zero_video_raw) 0 0 initial_colors 0) (pool_init MAX_BUFFERS) false 0 0 0 h 0)).

(** The interfaces the factory lists. *)
Definition videotestsrc_enum_interface_info (index : Z) : Z * option interface :=
  if index =? 0 then (SPA_RESULT_OK, Some INode) else (SPA_RESULT_ENUM_END, None).
End Ops.
