(* ===== verification/VideoTheory.v ===== *)
(** The video test source is a good element: as long as the host keeps its side, nothing is
    accessed that is not there, the pool stays exact, and each buffer that is delivered has
    the next frame, whole and on time. *)
From stdpp Require Import gmap.
From S2P Require Import Prelude State Defs Pod PodUtils PodTheory Props Element ElementTheory TestSource SourceTheory Draw VideoTestSrc.

Section Theory.
Context `{ElementType} `{VideoFormatType} `{PatternType} `{VideoSrcType} `{Heap}.
Context (rand : nat -> Z).
Implicit Types (s : SpaVideoTestSrc) (v : VideoState) (b : MediaBuffer) (e : Slot).

(** ** What holds *)

(** A format the source can draw: of this kind and size, at this rate. *)
Record video_format v (f : DrawPixelFunc) (w h num denom : Z) : Prop := {
  vf_draws : draws (vs_info v) f;
  vf_size : vr_size (vi_raw (vs_info v)) = (w, h);
  vf_rate : vr_framerate (vi_raw (vs_info v)) = (num, denom) /\ num <> 0;
  vf_width : 0 < w /\ 7 * w < 2 ^ 31;
  vf_height : 0 < h /\ 3 * h < 2 ^ 31;
  vf_stride : extent f w <= stride v
}.
Definition format_ok v : Prop := exists f w h num denom, video_format v f w h num denom.

(** A buffer the host gives: with its memory, and room for the header if it has one. *)
Record buffer_ok v (i : nat) b : Prop := {
  bo_id : mb_id b = Z.of_nat i;
  bo_data : exists d l m, mb_datas b = d :: l /\ md_data d = Some m /\ stride v * (vr_size (vi_raw (vs_info v))).2 <= zlen m;
  bo_header : forall k, spa_buffer_find_meta b meta_Header = Some k -> exists m, mb_metas b !! k = Some m /\ 24 <= zlen (mm_data m)
}.

Definition rate s : Z * Z := vr_framerate (vi_raw (vs_info (current_format s))).

Record source_ok s : Prop := {
  so_pool : pool_ok MAX_BUFFERS (pool s);
  so_colors : length (vs_colors (current_format s)) = Z.to_nat N_COLORS;
  so_format : have_format s = true -> format_ok (current_format s);
  so_in_use : 0 < n_buffers (pool s) -> have_format s = true;
  so_buffers : forall i e, Z.of_nat i < n_buffers (pool s) -> slots (pool s) !! i = Some e ->
    exists b, bufs (host s) !! outbuf e = Some b /\ buffer_ok (current_format s) i b /\ slot_h e = spa_buffer_find_meta b meta_Header;
  so_io : forall p, io s = Some p -> is_Some (ios (host s) !! p);
  so_started : started s = true -> 0 < n_buffers (pool s) /\ FRAMES_TO_TIME (rate s) (count s) = Done (elapsed_time s)
}.

(** ** The pieces of a frame *)

(** ** A frame *)

(** What [m'] is when the next frame has been drawn on [m]. *)
Definition drawn s (m m' : bytes) : Prop :=
  zlen m' = zlen m /\
  forall f w h num denom, video_format (current_format s) f w h num denom ->
    let pattern := vp_pattern (props s) in
    (pattern = pattern_smpte_snow \/ pattern = pattern_snow) ->
    forall p, 0 <= p -> m' !! Z.to_nat p =
      match lines f w (stride (current_format s)) 0 h
              (picture (init_colors (vs_colors (current_format s))) rand (mkDrawing w h (stride (current_format s)) f)
                 (vs_rands (current_format s)) pattern) p with
      | Some x => Some x
      | None => m !! Z.to_nat p
      end.

(** The buffer with the next frame: its first data drawn on, the rest as it was. *)
Record framed s b b' : Prop := {
  fr_id : mb_id b' = mb_id b;
  fr_metas : mb_metas b' = mb_metas (with_header s b);
  fr_datas : exists d m m' l, mb_datas b = d :: l /\ md_data d = Some m /\ drawn s m m' /\
    mb_datas b' = mkMediaData (md_type d) (md_maxsize d) (Some m') (mkChunk 0 (md_maxsize d) (stride (current_format s))) :: l
}.

(** *** Drawing on the buffer *)

Lemma init_colors_length colors : length (init_colors colors) = length colors.
Proof. unfold init_colors. case_if; [done | by rewrite length_fmap]. Qed.

Lemma video_format_unique v f w h num denom f' w' h' num' denom' :
  video_format v f w h num denom -> video_format v f' w' h' num' denom' -> f = f' /\ w = w' /\ h = h'.
Proof.
  intros [(_ & _ & Hne & Hf) Hs _ _ _ _] [(_ & _ & _ & Hf') Hs' _ _ _ _]. rewrite Hs in Hs'. injection Hs' as -> ->.
  split; [| done]. destruct f, f'; congruence.
Qed.

Lemma draw_total s m : format_ok (current_format s) -> length (vs_colors (current_format s)) = Z.to_nat N_COLORS ->
  stride (current_format s) * (vr_size (vi_raw (vs_info (current_format s)))).2 <= zlen m ->
  exists res m' n', draw (vs_colors (current_format s)) rand (vs_rands (current_format s)) (vs_info (current_format s))
      (stride (current_format s)) (vp_pattern (props s)) m = Done (res, init_colors (vs_colors (current_format s)), m', n') /\ drawn s m m'.
Proof.
  intros (f & w & h & num & denom & Hv) Hc Hroom. pose proof Hv as [Hd Hsize _ [Hw Hwi] [Hh Hhi] Hst]. rewrite Hsize in Hroom. cbn [snd] in Hroom.
  assert (Hdec : (vp_pattern (props s) = pattern_smpte_snow \/ vp_pattern (props s) = pattern_snow) \/
    (vp_pattern (props s) <> pattern_smpte_snow /\ vp_pattern (props s) <> pattern_snow)) by lia.
  destruct Hdec as [Hp | [Hp1 Hp2]].
  - destruct (draw_frame (vs_colors (current_format s)) rand (vs_rands (current_format s)) (vs_info (current_format s)) f w h
      (stride (current_format s)) (vp_pattern (props s)) m) as (m' & n' & Hrun & Hlen & Hpic); try done.
    exists SPA_RESULT_OK, m', n'. split; [exact Hrun |]. split; [exact Hlen |]. intros f' w' h' num' denom' Hv' pattern _ p Hp0.
    destruct (video_format_unique _ _ _ _ _ _ _ _ _ _ _ Hv Hv') as (<- & <- & <-). by apply Hpic.
  - exists SPA_RESULT_NOT_IMPLEMENTED, m, (vs_rands (current_format s)). split.
    + unfold draw. rewrite (draws_init _ f w h _ Hd Hsize) by lia. by rewrite !(proj2 (Z.eqb_neq _ _)) by done.
    + split; [done |]. intros f' w' h' num' denom' _ pattern [Hp | Hp]; done.
Qed.

Lemma fill_buffer_run s e b d l m : bufs (host s) !! outbuf e = Some b -> mb_datas b = d :: l -> md_data d = Some m ->
  format_ok (current_format s) -> length (vs_colors (current_format s)) = Z.to_nat N_COLORS ->
  stride (current_format s) * (vr_size (vi_raw (vs_info (current_format s)))).2 <= zlen m ->
  exists m' n', drawn s m m' /\
    fill_buffer rand e s = Done (tt, with_host (with_buf (outbuf e) (with_datas (with_md_data m' d :: l) b) (host s))
      (with_current_format (with_globals (init_colors (vs_colors (current_format s))) n' (current_format s)) s)).
Proof.
  intros Hb Hd Hm Hf Hc Hroom. destruct (draw_total s m Hf Hc Hroom) as (res & m' & n' & Hrun & Hdr). exists m', n'. split; [exact Hdr |].
  unfold fill_buffer. run_step. run (get_buf_run s _ b Hb). rewrite Hd. cbn [lookup list_lookup of_option]. run_step.
  unfold id. rewrite Hm. unfold default. rewrite Hrun. run_step. unfold put_buf. run_step. done.
Qed.

Lemma write_chunk_run s e b d l : bufs (host s) !! outbuf e = Some b -> mb_datas b = d :: l ->
  write_chunk e s = Done (tt, with_host (with_buf (outbuf e)
    (with_datas (with_md_chunk (mkChunk 0 (md_maxsize d) (stride (current_format s))) d :: l) b) (host s)) s).
Proof.
  intros Hb Hd. unfold write_chunk. run_step. run (get_buf_run s _ b Hb). rewrite Hd. cbn [lookup list_lookup of_option]. run_step. done.
Qed.

(** *** The whole frame *)

(** The state after the frame: the timer is armed for the next one, the buffer is with the
    host and in its IO area. *)
Definition after_frame s (p : Z) (a : PortIO) (i : nat) (l : list nat) (e : Slot) b' (n' : nat) (elapsed : Z) : SpaVideoTestSrc :=
  let time := if vp_live (props s) then u64 (start_time s + elapsed) else 1 in
  mkSource (props s) (have_output s) (data_loop s)
    (if waits s then (if time =? 0 then None else Some time) else timer s)
    (info s) (io s) (have_format s)
    (with_globals (init_colors (vs_colors (current_format s))) n' (current_format s))
    (with_slot i (with_outstanding true e) (mkPool (slots (pool s)) (n_buffers (pool s)) l))
    (started s) (start_time s) elapsed (u64 (count s + 1))
    (mkHost (<[outbuf e := b']> (bufs (host s)))
       (<[p := mkPortIO (u32 SPA_RESULT_HAVE_BUFFER) (Z.of_nat i) (io_min_size a) (io_max_size a)]> (ios (host s))))
    (signalled s).

Lemma frames_to_time_total r f : r.1 <> 0 -> exists t, FRAMES_TO_TIME r f = Done t.
Proof. intros Hr. unfold FRAMES_TO_TIME. rewrite (proj2 (Z.eqb_neq _ _)) by done. by eexists. Qed.

Lemma make_buffer_run s p a i l : source_ok s -> io s = Some p -> ios (host s) !! p = Some a -> empty (pool s) = i :: l ->
  (waits s = true -> timer s <> None) ->
  exists e b b' n' elapsed, slots (pool s) !! i = Some e /\ bufs (host s) !! outbuf e = Some b /\ framed s b b' /\
    buffer_ok (current_format s) i b /\ Z.of_nat i < n_buffers (pool s) /\
    FRAMES_TO_TIME (rate s) (u64 (count s + 1)) = Done elapsed /\
    videotestsrc_make_buffer rand s = Done (SPA_RESULT_HAVE_BUFFER, after_frame s p a i l e b' n' elapsed).
Proof.
  intros Hs Hp Ha He Ht. destruct (next_buffer_run _ s i l (so_pool _ Hs) He Ht) as (e & Hi & Hn & Hnext & _).
  destruct (so_buffers _ Hs i e Hn Hi) as (b & Hb & Hok & Hh). pose proof Hok as [Hid (d & r & m & Hd & Hm & Hroom) Hhead].
  pose proof (so_format _ Hs (so_in_use _ Hs ltac:(lia))) as Hf. pose proof Hf as (f & w & h & num & denom & Hv).
  destruct (frames_to_time_total (rate s) (u64 (count s + 1))) as [elapsed Hel].
  { unfold rate. destruct (vf_rate _ _ _ _ _ _ Hv) as [-> ?]. done. }
  set (s1 := with_pool _ (unarmed s)) in Hnext.
  assert (current_format s1 = current_format s /\ host s1 = host s /\ props s1 = props s) as (Hcf & Hho & Hpr)
    by (unfold s1; destruct (unarmed_same s) as [-> | ->]; done).
  set (e' := with_outstanding true e) in *.
  destruct (fill_buffer_run s1 e' b d r m) as (m' & n' & Hdr & Hfill); [by rewrite Hho | done | done | by rewrite Hcf | rewrite Hcf; apply Hs | by rewrite Hcf |].
  set (v' := with_globals (init_colors (vs_colors (current_format s1))) n' (current_format s1)) in *.
  set (b1 := with_datas (with_md_data m' d :: r) b) in *.
  set (s2 := with_host (with_buf (outbuf e') b1 (host s1)) (with_current_format v' s1)) in *.
  pose proof (write_chunk_run s2 e' b1 (with_md_data m' d) r (lookup_insert_eq _ _ _) eq_refl) as Hchunk.
  set (b2 := with_datas _ b1) in Hchunk. set (s3 := with_host _ s2) in Hchunk.
  destruct (write_header_run s3 e' b2) as (h4 & Hhead4 & Hh4).
  { cbn [s3 host with_host with_buf bufs]. apply lookup_insert_eq. }
  { exact Hh. }
  { intros k Hk. apply Hhead. by rewrite <- Hh. }
  assert (exists b4, h4 = mkHost (<[outbuf e := b4]> (bufs (host s))) (ios (host s)) /\ mb_id b4 = mb_id b /\
    mb_metas b4 = mb_metas (with_header s b) /\ mb_datas b4 = mb_datas b2) as (b4 & -> & Hid4 & Hm4 & Hd4).
  { rewrite Hh4. assert (mb_metas (with_header s3 b2) = mb_metas (with_header s b) /\ mb_datas (with_header s3 b2) = mb_datas b2 /\
      mb_id (with_header s3 b2) = mb_id b) as (Hwm & Hwd & Hwi).
    { unfold with_header. change (spa_buffer_find_meta b2 meta_Header) with (spa_buffer_find_meta b meta_Header).
      change (mb_metas b2) with (mb_metas b).
      assert (count s3 = count s /\ start_time s3 = start_time s /\ elapsed_time s3 = elapsed_time s) as (-> & -> & ->)
        by (unfold s3, s2, s1; destruct (unarmed_same s) as [-> | ->]; done).
      by destruct (spa_buffer_find_meta b meta_Header); [destruct (mb_metas b !! n) |]. }
    change (slot_h e') with (slot_h e). rewrite Hh. destruct (spa_buffer_find_meta b meta_Header) as [k |] eqn:Hk.
    - exists (with_header s3 b2). split_and!; [| done | done | done]. generalize (with_header s3 b2). intros b4.
      unfold s3, s2, with_buf. cbn [bufs ios host with_host with_current_format]. by rewrite !insert_insert_eq, Hho.
    - exists b2. split_and!; [| done | unfold with_header; by rewrite Hk | done].
      unfold s3, s2, with_buf. cbn [bufs ios host with_host with_current_format]. by rewrite !insert_insert_eq, Hho. }
  set (s4 := with_host _ s3) in Hhead4.
  assert (bufs (host s4) !! outbuf e' = Some b4) as Hb4 by apply lookup_insert_eq.
  assert (io s4 = Some p) as Hp4 by (unfold s4, s3, s2, s1; destruct (unarmed_same s) as [-> | ->]; done).
  pose proof (deliver_run s4 e' b4 p a (u64 (count s + 1)) elapsed Hb4 Hp4 Ha) as Hdel. cbv zeta in Hdel.
  exists e, b, b4, n', elapsed. split_and!; [done | done | | done | lia | done |].
  { split; [done | done |]. exists d, m, m', r. split_and!; [done | done | unfold drawn in *; by rewrite Hcf, Hpr in Hdr | by rewrite Hd4, <- Hcf]. }
  unfold videotestsrc_make_buffer. run Hnext. run Hfill. run Hchunk. run Hhead4. unfold id.
  assert (count s4 = count s /\ rate s4 = rate s) as [-> Hrate] by (unfold s4, s3, s2, v', s1; destruct (unarmed_same s) as [-> | ->]; done).
  change (vr_framerate _) with (rate s4). rewrite Hrate, Hel. run_step. rewrite Hdel.
  do 2 f_equal. unfold after_frame, next_time. unfold s4, s3, s2, v', s1, unarmed.
  destruct (waits s) eqn:Hw; cbn; change (waits _) with (waits s); rewrite Hw; cbn; rewrite Hid4, Hid; done.
Qed.

(** ** The frame keeps what holds *)

(** Only the types of metas matter for finding one. *)
Lemma find_meta_types b b' t : mm_type <$> mb_metas b' = mm_type <$> mb_metas b -> spa_buffer_find_meta b' t = spa_buffer_find_meta b t.
Proof.
  unfold spa_buffer_find_meta. generalize (mb_metas b) (mb_metas b'). intros l l'. revert l'.
  induction l as [|m l IH]; intros [|m' l'] Heq; [done.. |]. rewrite !fmap_cons in Heq. injection Heq as Ht Heq.
  cbn [index_of]. rewrite Ht, (IH _ Heq). done.
Qed.

Lemma with_header_types s b : mm_type <$> mb_metas (with_header s b) = mm_type <$> mb_metas b.
Proof.
  unfold with_header. destruct (spa_buffer_find_meta b meta_Header) as [k |]; [| done]. destruct (mb_metas b !! k) as [m |] eqn:Hm; [| done].
  cbn. rewrite list_fmap_insert. apply list_insert_id. by rewrite list_lookup_fmap, Hm.
Qed.

Lemma framed_find s b b' : framed s b b' -> spa_buffer_find_meta b' meta_Header = spa_buffer_find_meta b meta_Header.
Proof. intros Hf. apply find_meta_types. rewrite (fr_metas _ _ _ Hf). apply with_header_types. Qed.

(** What a buffer needs depends on the size of the frames. *)
Lemma buffer_ok_same v v' i b : stride v' = stride v -> vs_info v' = vs_info v -> buffer_ok v i b -> buffer_ok v' i b.
Proof. intros Hs Hi [? ? ?]. split; [done | by rewrite Hs, Hi | done]. Qed.
Lemma video_format_same v v' f w h num denom : stride v' = stride v -> vs_info v' = vs_info v ->
  video_format v f w h num denom -> video_format v' f w h num denom.
Proof. intros Hs Hi [? ? ? ? ? ?]. split; rewrite ?Hs, ?Hi; done. Qed.

Lemma framed_ok s b b' i : framed s b b' -> buffer_ok (current_format s) i b -> buffer_ok (current_format s) i b'.
Proof.
  intros Hf [Hid (d & l & m & Hd & Hm & Hroom) Hh]. pose proof (framed_find _ _ _ Hf) as Hfind.
  destruct Hf as [Hid' Hmetas (d1 & m1 & m' & l1 & Hd1 & Hm1 & [Hlen _] & Hd')]. split.
  - congruence.
  - rewrite Hd in Hd1. injection Hd1 as <- <-. rewrite Hm in Hm1. injection Hm1 as <-. eexists _, _, m'. split_and!; [exact Hd' | done | lia].
  - intros k Hk. rewrite Hfind in Hk. destruct (Hh k Hk) as (x & Hx & Hxl). rewrite Hmetas. unfold with_header. rewrite Hk, Hx. cbn.
    rewrite list_lookup_insert_eq by (by eapply lookup_lt_Some). eexists. split; [done |]. cbn. by rewrite header_bytes_length.
Qed.

Lemma after_frame_ok s p a i l e b b' n' elapsed : source_ok s -> io s = Some p -> ios (host s) !! p = Some a -> empty (pool s) = i :: l ->
  slots (pool s) !! i = Some e -> bufs (host s) !! outbuf e = Some b -> framed s b b' -> buffer_ok (current_format s) i b ->
  Z.of_nat i < n_buffers (pool s) -> FRAMES_TO_TIME (rate s) (u64 (count s + 1)) = Done elapsed ->
  source_ok (after_frame s p a i l e b' n' elapsed).
Proof.
  intros Hs Hp Ha He Hi Hb Hf Hok Hn Hel. destruct (pool_take_ok _ _ _ _ (so_pool _ Hs) He) as (e1 & Hi1 & _ & _ & _ & Hq).
  rewrite Hi in Hi1. injection Hi1 as <-. split; cbn [after_frame pool have_format current_format host io started n_buffers with_slot slots].
  - exact Hq.
  - cbn. rewrite init_colors_length. apply Hs.
  - intros Hh. destruct (so_format _ Hs Hh) as (f & w & h & num & denom & Hv). exists f, w, h, num, denom. by apply (video_format_same (current_format s)).
  - apply Hs.
  - intros j x Hj Hx. cbn [bufs]. destruct (decide (j = i)) as [-> | Hne].
    + rewrite list_lookup_insert_eq in Hx by (by eapply lookup_lt_Some). injection Hx as <-. cbn [outbuf with_outstanding slot_h].
      rewrite lookup_insert_eq. exists b'. split_and!; [done | by apply (buffer_ok_same (current_format s)), (framed_ok _ b) |].
      destruct (so_buffers _ Hs i e Hn Hi) as (b1 & Hb1 & _ & Hh1). rewrite Hb in Hb1. injection Hb1 as <-.
      rewrite (framed_find _ _ _ Hf). exact Hh1.
    + rewrite list_lookup_insert_ne in Hx by done. destruct (so_buffers _ Hs j x Hj Hx) as (b1 & Hb1 & Hok1 & Hh1).
      exists b1. split; [| split; [by apply (buffer_ok_same (current_format s)) | done]]. rewrite lookup_insert_ne; [done |]. intros Heq. rewrite <- Heq, Hb in Hb1.
      injection Hb1 as <-. pose proof (bo_id _ _ _ Hok). pose proof (bo_id _ _ _ Hok1). lia.
  - intros q Hq1. cbn [ios]. destruct (decide (q = p)) as [-> | Hne]; [rewrite lookup_insert_eq; by eexists |].
    rewrite lookup_insert_ne by done. by apply Hs.
  - intros Hst. split; [apply (so_started _ Hs Hst) |]. exact Hel.
Qed.

(** ** The operations *)

(** What holds does not depend on properties, the timer and the callback. *)
Lemma source_ok_same s s' : source_ok s -> pool s' = pool s -> current_format s' = current_format s -> have_format s' = have_format s ->
  host s' = host s -> io s' = io s -> started s' = started s -> elapsed_time s' = elapsed_time s -> count s' = count s -> source_ok s'.
Proof.
  intros [? ? ? ? ? ? Hst] Hp Hc Hh Hho Hi Hs He Hn. split; unfold rate; rewrite ?Hp, ?Hc, ?Hh, ?Hho, ?Hi, ?Hs, ?He, ?Hn; done.
Qed.

(** A computation that returns, in a state where all is well. *)
Definition fine {A} (m : VTS A) s : Prop := exists r s', m s = Done (r, s') /\ source_ok s'.

Lemma fine_ret {A} (a : A) s : source_ok s -> fine (ret a) s.
Proof. intros Hs. by exists a, s. Qed.
Lemma fine_step {A B} (m : VTS A) (k : A -> VTS B) a s s' : m s = Done (a, s') -> fine (k a) s' -> fine (bind m k) s.
Proof. intros Hm (r & s2 & Hk & Hs). exists r, s2. split; [by rewrite (run_bind_done _ _ _ _ _ Hm) | done]. Qed.
Lemma fine_modify {B} f (k : unit -> VTS B) s : fine (k tt) (f s) -> fine (bind (modify f) k) s.
Proof. by apply fine_step. Qed.
Lemma fine_gets {A B} (f : SpaVideoTestSrc -> A) (k : A -> VTS B) s : fine (k (f s)) s -> fine (bind (gets f) k) s.
Proof. by apply fine_step. Qed.

Lemma set_props_fine new s : source_ok s ->
  (forall d, new = Some d -> exists gs l, spa_props_query d [(vt_prop_live, SPA_POD_TYPE_BOOL); (vt_prop_pattern, SPA_POD_TYPE_ID)] = Done gs /\
    stored_bool gs 0 (vp_live (props s)) = Done l) ->
  fine (spa_videotestsrc_node_set_props new) s.
Proof.
  intros Hs Hnew. unfold spa_videotestsrc_node_set_props. apply fine_gets. unfold id. destruct new as [d |].
  - destruct (Hnew d eq_refl) as (gs & l & Hgs & Hl). eapply fine_step.
    { rewrite Hgs. run_step. rewrite Hl. by run_step. }
    apply fine_modify. eapply fine_step; [done |]. apply fine_ret. by eapply source_ok_same.
  - eapply fine_step; [done |]. apply fine_modify. eapply fine_step; [done |]. apply fine_ret. by eapply source_ok_same.
Qed.

Lemma rate_nonzero s : source_ok s -> have_format s = true -> (rate s).1 <> 0.
Proof. intros Hs Hh. destruct (so_format _ Hs Hh) as (f & w & h & num & denom & Hv). unfold rate. by destruct (vf_rate _ _ _ _ _ _ Hv) as [-> ?]. Qed.

Lemma frames_to_time_0 r : r.1 <> 0 -> FRAMES_TO_TIME r 0 = Done 0.
Proof. intros Hr. unfold FRAMES_TO_TIME. rewrite (proj2 (Z.eqb_neq _ _)) by done. by rewrite Z.mul_0_r. Qed.

Lemma send_command_fine command now s : source_ok s -> (exists t, SPA_COMMAND_TYPE command = Done t) ->
  fine (spa_videotestsrc_node_send_command command now) s.
Proof.
  intros Hs [t Ht]. unfold spa_videotestsrc_node_send_command, node_send_command. rewrite Ht. eapply fine_step; [done |]. apply fine_gets. unfold id.
  destruct (t =? command_Start).
  - destruct (have_format s) eqn:Hh; cbn [negb]; [| by apply fine_ret].
    destruct (Z.eqb_spec (n_buffers (pool s)) 0); [by apply fine_ret |]. destruct (started s); [by apply fine_ret |].
    pose proof (pool_count _ _ (so_pool _ Hs)). pose proof (rate_nonzero s Hs Hh).
    do 4 apply fine_modify. destruct (set_timer_same true (with_started true (with_elapsed_time 0 (with_count 0 (with_start_time
      (if live (props s) then u64 now else 0) s))))) as [tm Htm]. eapply fine_step; [exact Htm |]. apply fine_ret.
    destruct Hs as [? ? ? ? ? ? _]. split; try done. intros _. split; [cbn; lia |]. by apply frames_to_time_0.
  - destruct (t =? command_Pause); [| by apply fine_ret]. destruct (have_format s); cbn [negb]; [| by apply fine_ret].
    destruct (n_buffers (pool s) =? 0); [by apply fine_ret |]. destruct (started s); cbn [negb]; [| by apply fine_ret].
    apply fine_modify. destruct (set_timer_same false (with_started false s)) as [tm Htm]. eapply fine_step; [exact Htm |]. apply fine_ret.
    destruct Hs as [? ? ? ? ? ? _]. by split.
Qed.

(** Clearing the buffers leaves none, and stops. *)
Lemma clear_buffers_run s : (started s = true -> 0 < n_buffers (pool s)) -> exists t,
  clear_buffers s = Done (tt, with_timer t (with_started false (with_pool (pool_clear (pool s)) s))).
Proof.
  intros Hs. unfold clear_buffers. run_step. unfold id, when. rewrite Z.gtb_ltb. destruct (Z.ltb_spec 0 (n_buffers (pool s))).
  - destruct (set_timer_same false (with_started false (with_pool (pool_clear (pool s)) s))) as [t Ht]. exists t. run_step. exact Ht.
  - exists (timer s). unfold ret. do 2 f_equal. unfold pool_clear. rewrite Z.gtb_ltb, (proj2 (Z.ltb_ge _ _)) by done.
    destruct (started s) eqn:Hst; [specialize (Hs eq_refl); lia |]. destruct s; cbn in *. by subst.
Qed.

Lemma cleared_ok s t : source_ok s -> source_ok (with_timer t (with_started false (with_pool (pool_clear (pool s)) s))).
Proof.
  intros Hs. destruct (pool_clear_ok _ _ (so_pool _ Hs)) as (Hp & Hn & _). destruct Hs as [? ? ? Hu Hb ? ?].
  split; try done; cbn [pool with_timer with_started with_pool host current_format have_format].
  - rewrite Hn. lia.
  - intros i e Hi. rewrite Hn in Hi. lia.
Qed.

Lemma no_format_ok s : source_ok s -> n_buffers (pool s) = 0 -> source_ok (with_have_format false s).
Proof. intros [? ? ? ? Hb ? ?] Hn. split; try done. cbn. lia. Qed.

Lemma zlen_prop_enc key flags p ps :
  zlen (enc_pod SPA_POD_TYPE_PROP (le32 key ++ le32 flags ++ prop_values_of p ps)) = 8 + round8 (8 + zlen (prop_values_of p ps)).
Proof. rewrite zlen_enc_pod. autorewrite with zlen. f_equal. f_equal. lia. Qed.

Lemma zlen_int_values p ps : zlen (prim_body p) = 4 -> Forall (fun q => zlen (prim_body q) = 4) ps ->
  zlen (prop_values_of p ps) = 12 + 4 * zlen ps.
Proof.
  intros Hp Hps. unfold prop_values_of. rewrite !zlen_app, zlen_pod_header, Hp.
  enough (zlen (concat (prim_body <$> ps)) = 4 * zlen ps) by lia.
  induction Hps as [|q qs Hq _ IH]; [done |]. rewrite fmap_cons. cbn [concat]. rewrite zlen_app, zlen_cons. lia.
Qed.

Ltac int_values := repeat constructor; cbn; by rewrite zlen_le32.

(** The parameters fit their buffer. *)
Lemma update_params_run s : exists p0 p1,
  let v := current_format s in
  let size := vr_size (vi_raw (vs_info v)) in
  let stride := i32 (SPA_ROUND_UP_N (bpp v * size.1) 4) in
  update_params s = Done (tt, with_info (mkElementInfo (ei_flags (info s)) [p0; p1] (u64 (-1)) 0) (with_current_format (with_stride stride v) s)).
Proof.
  set (v := current_format s). set (size := vr_size (vi_raw (vs_info v))). set (stride := i32 (SPA_ROUND_UP_N (bpp v * size.1) 4)).
  edestruct (object_ok (builder_on 1024) 1024 [] 0 alloc_Buffers
    (PROP alloc_size (PInt (stride * size.2)) ++ PROP alloc_stride (PInt stride) ++
     PROP_U_MM alloc_buffers (PInt 32) (PInt 2) (PInt 32) ++ PROP alloc_align (PInt 16))) as (b1 & Hr1 & Hb1).
  { apply builder_on_ok. lia. }
  { apply aligned_nil. }
  { apply emits_app; [apply emits_PROP |]. apply emits_app; [apply emits_PROP |]. apply emits_app; [apply emits_PROP_U_MM | apply emits_PROP]. }
  { rewrite !zlen_app, !zlen_prop_enc, !zlen_int_values; [by vm_compute | int_values ..]. }
  rewrite app_nil_l in Hb1. set (o1 := enc_pod _ _) in Hb1.
  assert (zlen o1 = 152) as Ho1.
  { unfold o1. rewrite zlen_enc_pod, !zlen_app, !zlen_le32, !zlen_prop_enc, !zlen_int_values; [by vm_compute | int_values ..]. }
  edestruct (object_ok b1 1024 o1 0 alloc_MetaEnable (PROP alloc_meta_type (PId meta_Header) ++ PROP alloc_meta_size (PInt 24)))
    as (b2 & Hr2 & Hb2).
  { done. }
  { apply aligned_enc_pod. }
  { apply emits_app; [apply emits_PROP | apply emits_PROP]. }
  { rewrite Ho1, !zlen_app, !zlen_prop_enc, !zlen_int_values; [by vm_compute | int_values ..]. }
  destruct (deref_ok b2 _ _ _ (zlen (A := Z) []) Hb2) as (r0 & Hd0); [by vm_compute |].
  destruct (deref_ok b2 _ _ _ (zlen o1) Hb2) as (r1 & Hd1); [rewrite Ho1; lia |].
  eexists _, _. cbv zeta. unfold update_params. run_step. unfold id. fold v. cbv zeta. fold size. fold stride.
  rewrite Hr1. cbn [obind]. rewrite Hr2. cbn [obind]. rewrite Hd0. cbn [obind]. rewrite Hd1. cbn [obind]. run_step. done.
Qed.

(** A format the source accepts: one of its own, with values it can draw. *)
Record good_format (format : bytes) (raw : SpaVideoInfoRaw) : Prop := {
  gf_media : SPA_FORMAT_MEDIA_TYPE format = Done media_video;
  gf_sub : SPA_FORMAT_MEDIA_SUBTYPE format = Done subtype_raw;
  gf_parse : spa_format_video_raw_parse format zero_video_raw = Done raw;
  gf_format : video_RGB <> video_UYVY /\ (vr_format raw = video_RGB \/ vr_format raw = video_UYVY);
  gf_size : 0 < (vr_size raw).1 /\ 7 * (vr_size raw).1 < 2 ^ 31 /\ 0 < (vr_size raw).2 /\ 3 * (vr_size raw).2 < 2 ^ 31;
  gf_rate : (vr_framerate raw).1 <> 0
}.

Lemma good_format_ok v raw f : vr_format raw = (match f with draw_pixel_rgb_func => video_RGB | draw_pixel_uyvy_func => video_UYVY end) ->
  video_RGB <> video_UYVY -> 0 < (vr_size raw).1 /\ 7 * (vr_size raw).1 < 2 ^ 31 /\ 0 < (vr_size raw).2 /\ 3 * (vr_size raw).2 < 2 ^ 31 ->
  (vr_framerate raw).1 <> 0 -> vs_info v = mkVideoInfo media_video subtype_raw raw ->
  stride v = i32 (SPA_ROUND_UP_N ((match f with draw_pixel_rgb_func => 3 | draw_pixel_uyvy_func => 2 end) * (vr_size raw).1) 4) ->
  format_ok v.
Proof.
  intros Hf Hne Hsize Hrate Hinfo Hst. destruct (vr_size raw) as [w h] eqn:Hs. destruct (vr_framerate raw) as [num denom] eqn:Hr. cbn [fst snd] in *.
  exists f, w, h, num, denom. split; rewrite ?Hinfo; [done | done | done | lia | lia |].
  pose proof (SPA_ROUND_UP_N_spec (match f with draw_pixel_rgb_func => 3 | draw_pixel_uyvy_func => 2 end * w) 2 ltac:(lia)) as [Hb Hm].
  change (2 ^ 2) with 4 in Hb, Hm. rewrite Hst. destruct f; cbn [extent] in *.
  - rewrite i32_small by lia. lia.
  - rewrite i32_small by lia. pose proof (Z.mod_pos_bound w 2). pose proof (Z.div_mod w 2).
    set (r := SPA_ROUND_UP_N (2 * w) 4) in *. pose proof (Z.div_mod r 4). lia.
Qed.

Lemma set_format_fine d q format s : source_ok s ->
  (forall fm, format = Some fm -> n_buffers (pool s) = 0 /\ exists raw, good_format fm raw) ->
  fine (spa_videotestsrc_node_port_set_format d q format) s.
Proof.
  intros Hs Hfm. unfold spa_videotestsrc_node_port_set_format. apply fine_gets. unfold id. destruct (CHECK_PORT (io s) d q); cbn [negb]; [| by apply fine_ret].
  destruct format as [fm |].
  - destruct (Hfm fm eq_refl) as (Hn & raw & [Hm Hsub Hp [Hne Hf] Hsize Hrate]). rewrite Hm, Hsub, Hp.
    do 2 (eapply fine_step; [done |]). rewrite !Z.eqb_refl. cbn [negb andb]. eapply fine_step; [done |].
    set (f := if vr_format raw =? video_RGB then draw_pixel_rgb_func else draw_pixel_uyvy_func).
    set (s1 := with_current_format (with_bpp (match f with draw_pixel_rgb_func => 3 | draw_pixel_uyvy_func => 2 end) (current_format s)) s).
    eapply (fine_step _ _ true s s1).
    { unfold s1, f. destruct (Z.eqb_spec (vr_format raw) video_RGB); [by run_step |]. destruct Hf as [| Hf]; [done |].
      rewrite Hf, Z.eqb_refl. by run_step. }
    cbn [negb]. do 2 apply fine_modify. set (s2 := with_have_format true _).
    destruct (update_params_run s2) as (p0 & p1 & Hrun). eapply fine_step; [exact Hrun |]. apply fine_ret.
    destruct Hs as [? Hc ? ? Hb ? Hst]. split; cbn; try done.
    + intros _. eapply (good_format_ok _ raw f); try done. unfold f. destruct (Z.eqb_spec (vr_format raw) video_RGB); [done |]. by destruct Hf.
    + intros i e Hi. lia.
    + intros Hstart. destruct (Hst Hstart). lia.
  - apply fine_modify. destruct (clear_buffers_run (with_have_format false s)) as [t Ht]; [apply (so_started _ Hs) |].
    eapply fine_step; [exact Ht |]. apply fine_ret. pose proof (cleared_ok s t Hs) as Hcl.
    eapply (source_ok_same (with_have_format false (with_timer t (with_started false (with_pool (pool_clear (pool s)) s))))); try done.
    apply no_format_ok; [done |]. by destruct (pool_clear_ok _ _ (so_pool _ Hs)) as (_ & ? & _).
Qed.

(** *** Using buffers *)

(** The pool while the first [k] of the buffers have their entries. *)
Record filling (h : Host) (ptrs : list Z) (k : nat) (p : Pool) : Prop := {
  fl_slots : length (slots p) = MAX_BUFFERS;
  fl_none : n_buffers p = 0;
  fl_empty : empty p = seq 0 k;
  fl_entries : forall i, (i < k)%nat -> exists ptr b, ptrs !! i = Some ptr /\ bufs h !! ptr = Some b /\
    slots p !! i = Some (mkSlot ptr false (spa_buffer_find_meta b meta_Header) None)
}.

Lemma use_buffer_run s k ptr ptrs b : (k < MAX_BUFFERS)%nat -> filling (host s) ptrs k (pool s) -> ptrs !! k = Some ptr ->
  bufs (host s) !! ptr = Some b -> mb_datas b <> [] ->
  exists q, use_buffer k ptr s = Done (tt, with_pool q s) /\ filling (host s) ptrs (S k) q.
Proof.
  intros Hk [Hlen Hn He Hent] Hp Hb Hd.
  set (x := mkSlot ptr false (spa_buffer_find_meta b meta_Header) None).
  exists (mkPool (<[k := x]> (slots (pool s))) (n_buffers (pool s)) (empty (pool s) ++ [k])). split.
  - unfold use_buffer. run (get_buf_run s ptr b Hb). cbn [remember video_kind]. destruct (mb_datas b) as [|d l]; [done |].
    cbn [lookup list_lookup of_option]. run_step. unfold id.
    destruct (lookup_lt_is_Some_2 (slots (pool s)) k) as [y Hy]; [lia |].
    unfold pool_slot. rewrite (proj2 (Z.ltb_ge _ _)) by lia. rewrite Nat2Z.id, Hy. run_step.
    unfold link_empty. cbn [with_slot empty slots n_buffers]. rewrite bool_decide_eq_false_2 by (rewrite He, elem_of_seq; lia). run_step. done.
  - split; cbn [slots n_buffers empty]; [by rewrite length_insert | done | rewrite He; by rewrite seq_S |].
    intros i Hi. destruct (decide (i = k)) as [-> | Hne].
    + exists ptr, b. rewrite list_lookup_insert_eq by lia. done.
    + rewrite list_lookup_insert_ne by done. apply Hent. lia.
Qed.

Lemma with_pool_twice q q' s : with_pool q' (with_pool q s) = with_pool q' s.
Proof. done. Qed.

Lemma use_loop_run ptrs : forall l k s, ptrs = take k ptrs ++ l -> (k + length l = length ptrs)%nat -> (length ptrs <= MAX_BUFFERS)%nat ->
  filling (host s) ptrs k (pool s) -> (forall i ptr, ptrs !! i = Some ptr -> exists b, bufs (host s) !! ptr = Some b /\ mb_datas b <> []) ->
  exists q, each (zip (seq k (length l)) l) (fun ip => use_buffer ip.1 ip.2) s = Done (tt, with_pool q s) /\ filling (host s) ptrs (length ptrs) q.
Proof.
  induction l as [|ptr l IH]; intros k s Hsplit Hlen Hmax Hf Hb; simpl.
  - exists (pool s). simpl in Hlen. rewrite Nat.add_0_r in Hlen. subst k. split; [by destruct s | done].
  - simpl in Hlen. assert (ptrs !! k = Some ptr) as Hk.
    { rewrite Hsplit, lookup_app_r by (rewrite length_take; lia). rewrite length_take. by replace (k - _)%nat with 0%nat by lia. }
    destruct (Hb k ptr Hk) as (b & Hbp & Hd). destruct (use_buffer_run s k ptr ptrs b) as (q & Hrun & Hq); [lia | done.. |].
    rewrite (run_bind_done _ _ _ _ _ Hrun).
    destruct (IH (S k) (with_pool q s)) as (q' & Hrun' & Hq').
    + rewrite (take_S_r _ _ _ Hk), <- app_assoc. exact Hsplit.
    + lia.
    + done.
    + exact Hq.
    + exact Hb.
    + exists q'. split; [exact Hrun' | exact Hq'].
Qed.

Lemma use_buffers_fine d q ptrs s : source_ok s -> (length ptrs <= MAX_BUFFERS)%nat ->
  (forall i ptr, ptrs !! i = Some ptr -> exists b, bufs (host s) !! ptr = Some b /\ buffer_ok (current_format s) i b) ->
  fine (spa_videotestsrc_node_port_use_buffers d q ptrs) s.
Proof.
  intros Hs Hmax Hb. unfold spa_videotestsrc_node_port_use_buffers, port_use_buffers. apply fine_gets. unfold id.
  destruct (check_port (io s) d q); cbn [negb]; [| by apply fine_ret]. destruct (have_format s) eqn:Hh; cbn [negb]; [| by apply fine_ret].
  destruct (clear_buffers_run s) as [t Ht]; [apply (so_started _ Hs) |]. eapply fine_step; [exact Ht |].
  pose proof (cleared_ok s t Hs) as Hc. set (s1 := with_timer t _) in *.
  destruct (pool_clear_ok _ _ (so_pool _ Hs)) as (Hp1 & Hn1 & _).
  destruct (use_loop_run ptrs ptrs 0 s1) as (p & Hrun & [Hlen Hn He Hent]).
  - done.
  - done.
  - done.
  - split; [apply (pool_slots _ _ Hp1) | exact Hn1 | apply (pool_none _ _ Hp1 Hn1) | lia].
  - intros i ptr Hi. destruct (Hb i ptr Hi) as (b & Hbp & [_ (x & l & m & Hd & _) _]). exists b. split; [done |]. by rewrite Hd.
  - eapply fine_step; [exact Hrun |]. apply fine_modify. apply fine_ret.
    assert (zlen ptrs = Z.of_nat (length ptrs)) as Hz by done. destruct Hc as [_ ? ? _ _ ? _].
    split; cbn [pool with_pool have_format host io started current_format]; try done; cbn [n_buffers slots empty].
    + split; cbn [slots n_buffers empty]; [done | lia | rewrite He; apply NoDup_seq |]. intros i. rewrite He, elem_of_seq. split.
      * intros Hi. split; [lia |]. destruct (Hent i ltac:(lia)) as (ptr & b & _ & _ & Hsl). by eexists.
      * intros [Hi _]. lia.
    + intros i e Hi He1. destruct (Hent i ltac:(lia)) as (ptr & b & Hptr & Hbp & Hsl). rewrite Hsl in He1. injection He1 as <-.
      destruct (Hb i ptr Hptr) as (b' & Hbp' & Hok). cbn [outbuf slot_h]. exists b'. change (host s1) with (host s) in Hbp. rewrite Hbp in Hbp'. injection Hbp' as <-. done.
Qed.

(** *** Giving back *)

Lemma reuse_run s (i : nat) : source_ok s -> Z.of_nat i < n_buffers (pool s) -> exists q t,
  reuse_buffer (Z.of_nat i) s = Done (tt, with_timer t (with_pool q s)) /\ source_ok (with_timer t (with_pool q s)) /\
  n_buffers q = n_buffers (pool s) /\ (vp_live (props s) = true -> t = timer s).
Proof.
  intros Hs Hi. destruct (pool_put_ok _ _ i (so_pool _ Hs) Hi) as (e & He & Hput & Hok). cbv zeta in *.
  set (q := if outstanding e then _ else _) in *.
  assert (n_buffers q = n_buffers (pool s)) as Hn by (unfold q; by destruct (outstanding e)).
  assert (forall t, source_ok (with_timer t (with_pool q s))) as Hall.
  { intros t. destruct Hs as [? ? ? ? Hb ? ?]. split; cbn [pool with_timer with_pool have_format host io started current_format]; try done.
    - by rewrite Hn.
    - intros j x Hj Hx. rewrite Hn in Hj. unfold q in Hx. destruct (outstanding e); [| by apply Hb]. cbn [slots] in Hx.
      destruct (decide (j = i)) as [-> | Hne]; [| rewrite list_lookup_insert_ne in Hx by done; by apply Hb].
      rewrite list_lookup_insert_eq in Hx by (by eapply lookup_lt_Some). injection Hx as <-. by apply (Hb i e).
    - unfold rate in *. cbn. by rewrite Hn. }
  unfold reuse_buffer. run_step. rewrite Hput. run_step. unfold when. destruct (outstanding e && negb (live (props s))) eqn:Hc.
  - destruct (set_timer_same true (with_pool q s)) as [t Ht]. rewrite Ht. exists q, t. split_and!; [done | apply Hall | done |].
    apply andb_true_iff in Hc as [_ Hc]. cbn in Hc. intros Hl. by rewrite Hl in Hc.
  - exists q, (timer s). split_and!; [by destruct s | apply Hall | done | done].
Qed.

Lemma port_reuse_fine p id s : source_ok s -> 0 <= id -> fine (spa_videotestsrc_node_port_reuse_buffer p id) s.
Proof.
  intros Hs Hid. unfold spa_videotestsrc_node_port_reuse_buffer, port_reuse_buffer. apply fine_gets. unfold Datatypes.id.
  destruct (p =? 0); cbn [negb]; [| by apply fine_ret]. rewrite Z.gtb_ltb. destruct (Z.ltb_spec 0 (n_buffers (pool s))); cbn [negb]; [| by apply fine_ret].
  destruct (Z.ltb_spec id (n_buffers (pool s))); cbn [negb]; [| by apply fine_ret].
  destruct (reuse_run s (Z.to_nat id) Hs) as (q & t & Hrun & Hok & _); [lia |]. rewrite Z2Nat.id in Hrun by done.
  eapply fine_step; [exact Hrun |]. by apply fine_ret.
Qed.

(** *** Making buffers *)

Lemma host_io_ok s p a : source_ok s -> source_ok (with_host (with_io p a (host s)) s).
Proof.
  intros [? ? ? ? ? Hi ?]. split; try done. intros q Hq. cbn [host with_host with_io ios]. destruct (decide (q = p)) as [-> | Hne].
  - rewrite lookup_insert_eq. by eexists.
  - rewrite lookup_insert_ne by done. by apply Hi.
Qed.

(** Out of buffers: the timer is off. *)
Lemma out_of_buffers_run s : empty (pool s) = [] -> (waits s = true -> timer s <> None) ->
  exists t, videotestsrc_make_buffer rand s = Done (SPA_RESULT_OUT_OF_BUFFERS, with_timer t s).
Proof.
  intros He Ht. unfold videotestsrc_make_buffer, next_buffer. run (read_timer_run s Ht). unfold id.
  assert (pool (unarmed s) = pool s) as -> by (destruct (unarmed_same s) as [-> | ->]; done). rewrite He.
  destruct (set_timer_same false (unarmed s)) as [t Hrun]. run Hrun. exists t.
  destruct (unarmed_same s) as [-> | ->]; done.
Qed.

Lemma make_buffer_fine s : source_ok s -> is_Some (io s) -> (waits s = true -> timer s <> None) -> fine (videotestsrc_make_buffer rand) s.
Proof.
  intros Hs [p Hp] Ht. destruct (so_io _ Hs p Hp) as [a Ha]. destruct (empty (pool s)) as [|i l] eqn:He.
  - destruct (out_of_buffers_run s He Ht) as [t Hrun]. exists SPA_RESULT_OUT_OF_BUFFERS, (with_timer t s). split; [exact Hrun | by eapply source_ok_same].
  - destruct (make_buffer_run s p a i l Hs Hp Ha He Ht) as (e & b & b' & n' & elapsed & Hi & Hb & Hf & Hok & Hn & Hel & Hrun).
    eexists _, _. split; [exact Hrun |]. by eapply after_frame_ok.
Qed.

(** A live source without a callback waits for its timer, which is off when it ran out of buffers. *)
Definition stuck s : Prop := have_output s = false /\ vp_live (props s) = true /\ timer s = None /\
  exists p a, io s = Some p /\ ios (host s) !! p = Some a /\ io_status a = u32 SPA_RESULT_NEED_BUFFER.

Lemma make_buffer_blocks s : waits s = true -> timer s = None -> videotestsrc_make_buffer rand s = Refuse.
Proof.
  intros Hw Ht. unfold videotestsrc_make_buffer, next_buffer, bind. by rewrite read_timer_blocks.
Qed.

(** The buffer in the IO area, if any, is one of those in use. *)
Definition io_in_use s : Prop := forall p a, io s = Some p -> ios (host s) !! p = Some a ->
  io_buffer_id a = SPA_ID_INVALID \/ 0 <= io_buffer_id a < n_buffers (pool s).

Lemma process_output_fine s : source_ok s -> io_in_use s ->
  fine (spa_videotestsrc_node_process_output rand) s \/ (spa_videotestsrc_node_process_output rand s = Refuse /\ stuck s).
Proof.
  intros Hs Huse. unfold spa_videotestsrc_node_process_output, node_process_output. destruct (io s) as [p |] eqn:Hp.
  2: { left. apply fine_gets. unfold id. rewrite Hp. by apply fine_ret. }
  destruct (so_io _ Hs p Hp) as [a Ha]. unfold fine. rewrite !run_gets. unfold id. rewrite Hp, (run_bind_done _ _ _ _ _ (io_at_run (H := source_host) s p a Ha)).
  destruct (io_status a =? u32 SPA_RESULT_HAVE_BUFFER); [left; by apply fine_ret |].
  assert (exists s1, when (negb (io_buffer_id a =? SPA_ID_INVALID))
      (reuse_buffer (io_buffer_id a) ;;; set_io_at (Some p) (with_buffer_id SPA_ID_INVALID)) s = Done (tt, s1) /\ source_ok s1 /\
      io s1 = Some p /\ have_output s1 = have_output s /\ props s1 = props s /\ (vp_live (props s) = true -> timer s1 = timer s)) as (s1 & Hrun & Hs1 & Hp1 & Hho & Hpr & Ht1).
  { unfold when. destruct (Z.eqb_spec (io_buffer_id a) SPA_ID_INVALID); cbn [negb]; [by exists s |].
    destruct (Huse p a Hp Ha) as [? | Hid]; [done |].
    destruct (reuse_run s (Z.to_nat (io_buffer_id a)) Hs) as (q & t & Hr & Hok & _ & Ht); [lia |]. rewrite Z2Nat.id in Hr by lia.
    rewrite (run_bind_done _ _ _ _ _ Hr). rewrite (set_io_at_run (H := source_host) (with_timer t (with_pool q s)) p a _ Ha). eexists. split; [done |].
    split_and!; [by apply host_io_ok | done.. |]. exact Ht. }
  rewrite (run_bind_done _ _ _ _ _ Hrun). destruct (negb (have_output s) && (io_status a =? u32 SPA_RESULT_NEED_BUFFER)) eqn:Hneed; [| left; by apply fine_ret].
  apply andb_true_iff in Hneed as [Hno Hneed%Z.eqb_eq]. apply negb_true_iff in Hno.
  destruct (vp_live (props s)) eqn:Hl; [destruct (timer s) as [t |] eqn:Ht |].
  - left. apply make_buffer_fine; [done | by eexists |]. intros _. by rewrite Ht1.
  - right. split; [| split_and!; [done | done | done | by exists p, a]]. apply make_buffer_blocks; [| by rewrite Ht1].
    unfold waits. cbn. by rewrite Hpr, Hl, orb_true_r.
  - left. apply make_buffer_fine; [done | by eexists |]. unfold waits. cbn. rewrite Hho, Hpr, Hno, Hl. done.
Qed.

Lemma on_output_fine s : source_ok s -> have_output s = true -> is_Some (io s) -> timer s <> None -> fine (videotestsrc_on_output rand) s.
Proof.
  intros Hs Hc Hp Ht. pose proof Hp as [p Hp']. destruct (so_io _ Hs p Hp') as [a Ha]. unfold videotestsrc_on_output. destruct (empty (pool s)) as [|i l] eqn:He.
  - destruct (out_of_buffers_run s He) as [t Hrun]; [done |]. eapply fine_step; [exact Hrun |]. apply fine_ret. by eapply source_ok_same.
  - destruct (make_buffer_run s p a i l Hs Hp' Ha He) as (e & b & b' & n' & elapsed & Hi & Hb & Hf & Hok & Hn & Hel & Hrun); [done |].
    eapply fine_step; [exact Hrun |]. change (SPA_RESULT_HAVE_BUFFER =? SPA_RESULT_HAVE_BUFFER) with true. unfold when.
    apply fine_gets. unfold id. change (have_output (after_frame _ _ _ _ _ _ _ _ _)) with (have_output s). rewrite Hc.
    eexists _, _. split; [done |]. eapply source_ok_same; [by eapply after_frame_ok | done..].
Qed.

(** ** A run *)

(** What the host does: it calls the element, its loop calls the element's timer, and it
    writes to what it shares. *)
Inductive host_op :=
| SetProps (new : option bytes) | SendCommand (command : bytes) (now : Z) | SetCallbacks (callback : bool)
| SetFormat (direction port_id : Z) (format : option bytes) | UseBuffers (direction port_id : Z) (buffers : list Z)
| SetIo (direction port_id : Z) (p : option Z) | ReuseBuffer (port_id buffer_id : Z) | ProcessOutput | TimerFires
| WriteIo (p : Z) (a : PortIO) | WriteBuffer (p : Z) (b : MediaBuffer).

Definition run_op (o : host_op) : VTS Z :=
  match o with
  | SetProps new => spa_videotestsrc_node_set_props new
  | SendCommand command now => spa_videotestsrc_node_send_command command now
  | SetCallbacks callback => spa_videotestsrc_node_set_callbacks callback
  | SetFormat d p format => spa_videotestsrc_node_port_set_format d p format
  | UseBuffers d p buffers => spa_videotestsrc_node_port_use_buffers d p buffers
  | SetIo d p io => spa_videotestsrc_node_port_set_io d p io
  | ReuseBuffer p id => spa_videotestsrc_node_port_reuse_buffer p id
  | ProcessOutput => spa_videotestsrc_node_process_output rand
  | TimerFires => videotestsrc_on_output rand ;;; ret 0
  | WriteIo p a => modify (fun s => with_host (with_io p a (host s)) s) ;;; ret 0
  | WriteBuffer p b => modify (fun s => with_host (with_buf p b (host s)) s) ;;; ret 0
  end.

(** The host's side: what it passes can be read, a format is one of those announced and comes
    when no buffers are in use, there are as many buffers as there is room for, with their
    memory, the timer only fires when it is armed, with a callback and an IO area, and the
    buffer in the IO area is in use. *)
Definition host_ok (o : host_op) s : Prop :=
  match o with
  | SetProps new => forall d, new = Some d -> exists gs l,
      spa_props_query d [(vt_prop_live, SPA_POD_TYPE_BOOL); (vt_prop_pattern, SPA_POD_TYPE_ID)] = Done gs /\
      stored_bool gs 0 (vp_live (props s)) = Done l
  | SendCommand command now => exists t, SPA_COMMAND_TYPE command = Done t
  | SetCallbacks _ => True
  | SetFormat _ _ format => forall fm, format = Some fm -> n_buffers (pool s) = 0 /\ exists raw, good_format fm raw
  | UseBuffers _ _ buffers => (length buffers <= MAX_BUFFERS)%nat /\
      forall i ptr, buffers !! i = Some ptr -> exists b, bufs (host s) !! ptr = Some b /\ buffer_ok (current_format s) i b
  | SetIo _ _ p => forall q, p = Some q -> is_Some (ios (host s) !! q)
  | ReuseBuffer _ id => 0 <= id
  | ProcessOutput => io_in_use s
  | TimerFires => have_output s = true /\ is_Some (io s) /\ timer s <> None
  | WriteIo _ _ => True
  | WriteBuffer p b => forall i e, Z.of_nat i < n_buffers (pool s) -> slots (pool s) !! i = Some e -> outbuf e = p ->
      buffer_ok (current_format s) i b /\ slot_h e = spa_buffer_find_meta b meta_Header
  end.

Lemma run_op_fine o s : source_ok s -> host_ok o s -> fine (run_op o) s \/ (o = ProcessOutput /\ run_op o s = Refuse /\ stuck s).
Proof.
  intros Hs Ho. destruct o; cbn [run_op host_ok] in *.
  - left. by apply set_props_fine.
  - left. by apply send_command_fine.
  - left. unfold spa_videotestsrc_node_set_callbacks, node_set_callbacks. apply fine_gets. case_if; [by apply fine_ret |].
    apply fine_modify, fine_ret. by eapply source_ok_same.
  - left. by apply set_format_fine.
  - left. by apply use_buffers_fine; destruct Ho.
  - left. unfold spa_videotestsrc_node_port_set_io. case_if; [by apply fine_ret |]. apply fine_modify, fine_ret.
    destruct Hs as [? ? ? ? ? _ ?]. split; done.
  - left. by apply port_reuse_fine.
  - destruct (process_output_fine s Hs Ho) as [Hf | [Hr Hst]]; [by left | by right].
  - left. destruct Ho as (Hc & Hp & Ht). destruct (on_output_fine s Hs Hc Hp Ht) as (r & s' & Hrun & Hs'). eapply fine_step; [exact Hrun | by apply fine_ret].
  - left. apply fine_modify, fine_ret. by apply host_io_ok.
  - left. apply fine_modify, fine_ret. destruct Hs as [? ? ? ? Hb ? ?]. split; try done. intros i e Hi He. cbn [host with_host with_buf bufs].
    destruct (decide (outbuf e = p)) as [<- | Hne].
    + rewrite lookup_insert_eq. destruct (Ho i e Hi He eq_refl) as [Hok Hh]. by exists b.
    + rewrite lookup_insert_ne by done. by apply Hb.
Qed.

Lemma init_ok loop h s : videotestsrc_init true loop h = (SPA_RESULT_OK, Some s) -> source_ok s.
Proof.
  intros [= <-]. split; cbn; try done; [apply pool_init_ok | lia].
Qed.

Inductive reachable : SpaVideoTestSrc -> Prop :=
| reach_init loop h s : videotestsrc_init true loop h = (SPA_RESULT_OK, Some s) -> reachable s
| reach_step o s r s' : reachable s -> host_ok o s -> run_op o s = Done (r, s') -> reachable s'.

Lemma reachable_ok s : reachable s -> source_ok s.
Proof.
  induction 1 as [loop h s Hi | o s r s' _ IH Ho Hr]; [by eapply init_ok |].
  destruct (run_op_fine o s IH Ho) as [(r1 & s1 & Hr1 & Hok) | (_ & Hr1 & _)]; congruence.
Qed.
End Theory.

Arguments reachable {_ _ _ _ _} rand s.

(** C14: Whatever a host does that keeps its side of the contract, calls in any order, timers,
    buffers given, taken and given back, the video test source returns: no access is outside
    a buffer, no entry is linked twice and nothing divides by zero. The one exception is a
    live source without a callback that ran out of buffers: its timer is off, and the next
    request for a buffer never returns. And every buffer in use is either free, once, or
    with the host. *)
Theorem video_source_safe `{ElementType} `{VideoFormatType} `{PatternType} `{VideoSrcType} `{Heap} rand s o :
  reachable rand s -> host_ok o s ->
  ((exists r s', run_op rand o s = Done (r, s')) \/ (o = ProcessOutput /\ run_op rand o s = Refuse /\ stuck s)) /\
  NoDup (empty (pool s)) /\
  forall i e, Z.of_nat i < n_buffers (pool s) -> slots (pool s) !! i = Some e -> i ∈ empty (pool s) <-> outstanding e = false.
Proof.
  intros Hr Ho. pose proof (reachable_ok rand s Hr) as Hs. split_and!.
  - destruct (run_op_fine rand o s Hs Ho) as [(r & s' & Hrun & _) | Hst]; [left; by exists r, s' | by right].
  - apply (so_pool _ Hs).
  - intros i e Hi He. rewrite (pool_free _ _ (so_pool _ Hs)). split; [intros [_ (e' & He' & Ho')]; congruence | intros Ho'; by eauto].
Qed.

(** C13: Frames are exact and on time. When a started source makes a buffer it is the first
    free one; it holds the picture of the pattern, all of it and nothing else, its chunk
    says all of its memory, and its header has the number of the frame and, as its time,
    the start and as many periods as there were frames before it, computed anew from that
    number, so that no rounding adds up. *)
Theorem video_frames_on_time `{ElementType} `{VideoFormatType} `{PatternType} `{VideoSrcType} `{Heap} rand s p a i l num denom :
  reachable rand s -> started s = true -> io s = Some p -> ios (host s) !! p = Some a -> empty (pool s) = i :: l ->
  (waits s = true -> timer s <> None) -> rate s = (num, denom) ->
  0 <= denom -> 0 <= count s -> denom * count s * SPA_NSEC_PER_SEC < 2 ^ 64 ->
  exists e b b' s', slots (pool s) !! i = Some e /\ bufs (host s) !! outbuf e = Some b /\
    videotestsrc_make_buffer rand s = Done (SPA_RESULT_HAVE_BUFFER, s') /\
    framed rand s b b' /\ elapsed_time s = denom * count s * SPA_NSEC_PER_SEC / num /\
    bufs (host s') = <[outbuf e := b']> (bufs (host s)) /\ empty (pool s') = l /\ count s' = u64 (count s + 1) /\
    ios (host s') !! p = Some (mkPortIO (u32 SPA_RESULT_HAVE_BUFFER) (Z.of_nat i) (io_min_size a) (io_max_size a)).
Proof.
  intros Hr Hst Hp Ha He Ht Hrate Hd Hc Hmax. pose proof (reachable_ok rand s Hr) as Hs.
  destruct (make_buffer_run rand s p a i l Hs Hp Ha He Ht) as (e & b & b' & n' & elapsed & Hi & Hb & Hf & _ & _ & _ & Hrun).
  exists e, b, b', (after_frame s p a i l e b' n' elapsed). split_and!; try done.
  - destruct (so_started _ Hs Hst) as [_ Hel]. rewrite Hrate in Hel. unfold FRAMES_TO_TIME in Hel. cbn [fst snd] in Hel.
    destruct (num =? 0); [done |]. injection Hel as <-. unfold SPA_NSEC_PER_SEC in *.
    rewrite (u64_small (denom * count s)) by (unfold is_u64; nia). by rewrite u64_small by (unfold is_u64; nia).
  - cbn. apply lookup_insert_eq.
Qed.

(** The video test source at work: concrete runs, which also show that the theorems'
    hypotheses can hold, and what happens when the host does what the element lets it. *)

#[export] Instance sample_video_src : VideoSrcType | 100 := Build_VideoSrcType 60 61.

(** RGB, or UYVY, of a size, at a rate. *)
Definition sample_format (format w h num denom : Z) : bytes :=
  match (let* (b, ref) := spa_pod_builder_format (builder_on 1024) t_format media_video subtype_raw (
           PROP fv_format (PId format) ++ PROP fv_size (PRectangle w h) ++ PROP fv_framerate (PFraction num denom)) in
         SPA_POD_BUILDER_DEREF b ref) with Done f => f | _ => [] end.

Definition start_command : bytes := le32 8 ++ le32 16 ++ le32 0 ++ le32 command_Start.

(** Buffers at 100, 101, ...: with a header and [n] bytes. *)
Definition sample_buffer (id n : Z) : MediaBuffer :=
  mkMediaBuffer id [mkMediaMeta meta_Header (zeros 24)] [mkMediaData data_MemPtr n (Some (zeros n)) (mkChunk 0 0 0)].
Definition sample_host (k : nat) (n : Z) : Host :=
  mkHost (list_to_map (map (fun i => (100 + Z.of_nat i, sample_buffer (Z.of_nat i) n)) (seq 0 k)))
    {[ 7 := mkPortIO (u32 SPA_RESULT_NEED_BUFFER) SPA_ID_INVALID 0 0 ]}.
Definition pointers_to (k : nat) : list Z := map (fun i => 100 + Z.of_nat i) (seq 0 k).

Definition no_rand (_ : nat) : Z := 77.

Fixpoint perform (ops : list host_op) (s : SpaVideoTestSrc) : outcome (list Z * SpaVideoTestSrc) :=
  match ops with
  | [] => Done ([], s)
  | o :: ops => let* (r, s) := run_op no_rand o s in let* (rs, s) := perform ops s in Done (r :: rs, s)
  end.

(** A run from the beginning: the results, and what it leaves. *)
Definition story (k : nat) (n : Z) (ops : list host_op) : outcome (list Z * SpaVideoTestSrc) :=
  match videotestsrc_init true true (sample_host k n) with
  | (_, Some s) => perform ops s
  | (_, None) => Refuse
  end.

Definition output : Z := SPA_DIRECTION_OUTPUT.
Definition configure (k : nat) : list host_op :=
  [SetIo output 0 (Some 7); SetFormat output 0 (Some (sample_format video_RGB 4 2 25 1)); UseBuffers output 0 (pointers_to k)].
Definition play (k : nat) : list host_op := configure k ++ [SendCommand start_command 5000].

(** A live source: two frames, with the times of frames 0 and 1 at 25 per second. *)
Definition headers (s : SpaVideoTestSrc) (p : Z) : option (Z * Z) :=
  match bufs (host s) !! p with
  | Some b => match mb_metas b with m :: _ => match load32 4 (mm_data m), load64 8 (mm_data m) with Some seq, Some pts => Some (seq, pts) | _, _ => None end | [] => None end
  | None => None
  end.
Example two_frames :
  match story 2 24 (play 2 ++ [ProcessOutput; WriteIo 7 (mkPortIO (u32 SPA_RESULT_NEED_BUFFER) SPA_ID_INVALID 0 0); ProcessOutput]) with
  | Done (rs, s) => rs = [0; 0; 0; 0; SPA_RESULT_HAVE_BUFFER; 0; SPA_RESULT_HAVE_BUFFER] /\
      headers s 100 = Some (0, 5000) /\ headers s 101 = Some (1, 40005000) /\ empty (pool s) = [] /\ timer s = Some 80005000
  | _ => False
  end.
Proof. vm_compute. by split_and!. Qed.

(** ** The theorems' hypotheses hold *)

(** The state after an operation. *)
Definition after (o : host_op) (s : SpaVideoTestSrc) : SpaVideoTestSrc :=
  match run_op no_rand o s with Done (_, s) => s | _ => s end.
Definition st0 : SpaVideoTestSrc :=
  match videotestsrc_init true true (sample_host 2 24) with
  | (_, Some s) => s
  | (_, None) => mkSource (mkVideoProps true 0) false false None (mkElementInfo 0 [] 0 0) None false
      (mkVideoState (mkVideoInfo 0 0 zero_video_raw) 0 0 [] 0) (pool_init 0) false 0 0 0 (sample_host 0 0) 0
  end.
Definition st1 : SpaVideoTestSrc := after (SetIo output 0 (Some 7)) st0.
Definition st2 : SpaVideoTestSrc := after (SetFormat output 0 (Some (sample_format video_RGB 4 2 25 1))) st1.
Definition st3 : SpaVideoTestSrc := after (UseBuffers output 0 (pointers_to 2)) st2.
Definition st4 : SpaVideoTestSrc := after (SendCommand start_command 5000) st3.

Lemma good_sample : exists raw, good_format (sample_format video_RGB 4 2 25 1) raw.
Proof.
  exists (mkVideoRaw video_RGB (4, 2) (25, 1) (0, 0) 0 0 (0, 0) 0 0 0 0 0 0 0).
  split; try (by vm_compute). split; [done | by left].
Qed.

Lemma sample_buffers_ok i ptr : pointers_to 2 !! i = Some ptr ->
  exists b, bufs (host st2) !! ptr = Some b /\ buffer_ok (current_format st2) i b.
Proof.
  intros Hi. destruct i as [|[|i]]; [| | done]; injection Hi as <-.
  - exists (sample_buffer 0 24). split; [vm_compute; reflexivity |]. split; [by vm_compute | |].
    + eexists _, _, _. split_and!; [reflexivity | reflexivity | by vm_compute].
    + intros k Hk. vm_compute in Hk. injection Hk as <-. eexists. split; [reflexivity | by vm_compute].
  - exists (sample_buffer 1 24). split; [by vm_compute |]. split; [by vm_compute | |].
    + eexists _, _, _. split_and!; [reflexivity | reflexivity | by vm_compute].
    + intros k Hk. vm_compute in Hk. injection Hk as <-. eexists. split; [reflexivity | by vm_compute].
Qed.

Lemma playing : reachable no_rand st4.
Proof.
  assert (reachable no_rand st0) as H0 by (apply (reach_init no_rand true (sample_host 2 24)); reflexivity).
  assert (reachable no_rand st1) as H1.
  { apply (reach_step no_rand (SetIo output 0 (Some 7)) st0 0); [exact H0 | | by vm_compute]. intros q [= <-]. by eexists. }
  assert (reachable no_rand st2) as H2.
  { apply (reach_step no_rand (SetFormat output 0 (Some (sample_format video_RGB 4 2 25 1))) st1 0); [exact H1 | | by vm_compute].
    intros fm Hfm. apply Some_inj in Hfm. rewrite <- Hfm. split; [by vm_compute | apply good_sample]. }
  assert (reachable no_rand st3) as H3.
  { apply (reach_step no_rand (UseBuffers output 0 (pointers_to 2)) st2 0); [exact H2 | | by vm_compute].
    split; [by vm_compute; lia | apply sample_buffers_ok]. }
  apply (reach_step no_rand (SendCommand start_command 5000) st3 0); [exact H3 | | by vm_compute]. by eexists.
Qed.

Lemma video_source_safe_witness :
  reachable no_rand st4 /\ ((exists r s', run_op no_rand ProcessOutput st4 = Done (r, s')) \/ stuck st4) /\ NoDup (empty (pool st4)).
Proof.
  assert (host_ok ProcessOutput st4) as Ho.
  { intros p a Hp Ha. vm_compute in Hp. injection Hp as <-. vm_compute in Ha. injection Ha as <-. by left. }
  destruct (video_source_safe no_rand st4 ProcessOutput playing Ho) as ([Hrun | (_ & _ & Hst)] & Hnd & _).
  - split; [apply playing |]. split; [by left | exact Hnd].
  - split; [apply playing |]. split; [by right | exact Hnd].
Defined.

Lemma video_frames_on_time_witness :
  exists e b b' s', slots (pool st4) !! 0%nat = Some e /\ bufs (host st4) !! outbuf e = Some b /\
    videotestsrc_make_buffer no_rand st4 = Done (SPA_RESULT_HAVE_BUFFER, s') /\ framed no_rand st4 b b' /\ empty (pool s') = [1%nat].
Proof.
  destruct (video_frames_on_time no_rand st4 7 (mkPortIO (u32 SPA_RESULT_NEED_BUFFER) SPA_ID_INVALID 0 0) 0 [1%nat] 25 1)
    as (e & b & b' & s' & He & Hb & Hrun & Hf & _ & _ & Hl & _).
  - apply playing.
  - by vm_compute.
  - by vm_compute.
  - by vm_compute.
  - by vm_compute.
  - intros _. by vm_compute.
  - by vm_compute.
  - lia.
  - by vm_compute.
  - by vm_compute.
  - exists e, b, b', s'. by split_and!.
Defined.

(** ** What the host must not do *)

(** Out of buffers, a live source without a callback turns its timer off, and waits for it
    the next time it is asked, even when its buffers have come back. *)
Example waits_forever :
  match story 1 24 (play 1 ++ [ProcessOutput; WriteIo 7 (mkPortIO (u32 SPA_RESULT_NEED_BUFFER) SPA_ID_INVALID 0 0); ProcessOutput]) with
  | Done (rs, s) => rs = [0; 0; 0; 0; SPA_RESULT_HAVE_BUFFER; 0; SPA_RESULT_OUT_OF_BUFFERS] /\ timer s = None /\
      match perform [ReuseBuffer 0 0; WriteIo 7 (mkPortIO (u32 SPA_RESULT_NEED_BUFFER) SPA_ID_INVALID 0 0)] s with
      | Done (_, s) => empty (pool s) = [0%nat] /\ run_op no_rand ProcessOutput s = Refuse
      | _ => False
      end
  | _ => False
  end.
Proof. vm_compute. by split_and!. Qed.

(** The timer of a live source fires whether there is a callback or not. *)
Example timer_without_callback : story 1 24 (play 1 ++ [TimerFires]) = Undef.
Proof. by vm_compute. Qed.

(** It announces a rate of 0, and divides by it. *)
Example rate_zero :
  story 1 24 [SetIo output 0 (Some 7); SetFormat output 0 (Some (sample_format video_RGB 4 2 0 1)); UseBuffers output 0 (pointers_to 1);
    SendCommand start_command 5000; ProcessOutput] = Undef.
Proof. by vm_compute. Qed.

(** It asks for up to 32 buffers, and has room for 16. *)
Example seventeen_buffers : story 17 24 (configure 17) = Undef.
Proof. by vm_compute. Qed.

(** A larger format while buffers are in use: the next frame does not fit them. *)
Example larger_format :
  story 1 24 (play 1 ++ [SetFormat output 0 (Some (sample_format video_RGB 8 2 25 1)); ProcessOutput]) = Undef.
Proof. by vm_compute. Qed.

(** The id of a buffer stays in the IO area when the buffers are taken away. The next request
    gives it back to a pool that has none, and using buffers then links it a second time. *)
Example stale_buffer_id :
  match story 1 24 (play 1 ++ [SetCallbacks true; ProcessOutput; TimerFires; SetFormat output 0 None;
    WriteIo 7 (mkPortIO (u32 SPA_RESULT_NEED_BUFFER) 0 0 0); ProcessOutput]) with
  | Done (_, s) => n_buffers (pool s) = 0 /\ empty (pool s) = [0%nat] /\
      perform [SetFormat output 0 (Some (sample_format video_RGB 4 2 25 1)); UseBuffers output 0 (pointers_to 1)] s = Undef
  | _ => False
  end.
Proof. vm_compute. by split_and!. Qed.
