(* ===== verification/AudioMixer.v ===== *)
(** [spa/plugins/audiomixer/audiomixer.c]: an element that adds up the 16-bit samples of its
    input ports.

    A port has a pool as the sources have; the list of the pool is the port's [queue]: the
    buffers with data on an input, the free ones on the output. The list of an input port is
    initialised when the port is added ([mp_linked]); before that its memory is zero and the
    list cannot be used. The memory mixed from and the memory mixed to are different objects. *)
From stdpp Require Import gmap.
From S2P Require Import Prelude State Defs Pod PodUtils Props Element.

Definition MIXER_MAX_BUFFERS : nat := 64.
Definition MIXER_MAX_PORTS : nat := 128.
Definition SIZE_MAX : Z := 2 ^ 64 - 1.
Definition INT16_MIN : Z := -32768.
Definition INT16_MAX : Z := 32767.

Record SpaAudioMixerPort := mkMixerPort {
  mp_io : option Z; mp_have_format : bool; mp_flags : Z; mp_linked : bool; mp_pool : Pool; mp_offset : Z;
  mp_bytes : Z }.

Definition with_mp_io (x : option Z) (s : SpaAudioMixerPort) : SpaAudioMixerPort :=
  mkMixerPort x (mp_have_format s) (mp_flags s) (mp_linked s) (mp_pool s) (mp_offset s) (mp_bytes s).
Definition with_mp_have_format (x : bool) (s : SpaAudioMixerPort) : SpaAudioMixerPort :=
  mkMixerPort (mp_io s) x (mp_flags s) (mp_linked s) (mp_pool s) (mp_offset s) (mp_bytes s).
Definition with_mp_flags (x : Z) (s : SpaAudioMixerPort) : SpaAudioMixerPort :=
  mkMixerPort (mp_io s) (mp_have_format s) x (mp_linked s) (mp_pool s) (mp_offset s) (mp_bytes s).
Definition with_mp_linked (x : bool) (s : SpaAudioMixerPort) : SpaAudioMixerPort :=
  mkMixerPort (mp_io s) (mp_have_format s) (mp_flags s) x (mp_pool s) (mp_offset s) (mp_bytes s).
Definition with_mp_pool (x : Pool) (s : SpaAudioMixerPort) : SpaAudioMixerPort :=
  mkMixerPort (mp_io s) (mp_have_format s) (mp_flags s) (mp_linked s) x (mp_offset s) (mp_bytes s).
Definition with_mp_offset (x : Z) (s : SpaAudioMixerPort) : SpaAudioMixerPort :=
  mkMixerPort (mp_io s) (mp_have_format s) (mp_flags s) (mp_linked s) (mp_pool s) x (mp_bytes s).
Definition with_mp_bytes (x : Z) (s : SpaAudioMixerPort) : SpaAudioMixerPort :=
  mkMixerPort (mp_io s) (mp_have_format s) (mp_flags s) (mp_linked s) (mp_pool s) (mp_offset s) x.

(** [in_ports] has [MAX_PORTS] entries; the memory of the element is zero to begin with. *)
Record SpaAudioMixer := mkMixer {
  in_ports : list SpaAudioMixerPort; out_port : SpaAudioMixerPort; port_count : Z; port_queued : Z;
  mx_format : Z * Z * SpaAudioInfoRaw; mx_started : bool; mx_callbacks : bool; mx_host : Host }.

Definition with_in_ports (x : list SpaAudioMixerPort) (s : SpaAudioMixer) : SpaAudioMixer :=
  mkMixer x (out_port s) (port_count s) (port_queued s) (mx_format s) (mx_started s) (mx_callbacks s) (mx_host s).
Definition with_out_port (x : SpaAudioMixerPort) (s : SpaAudioMixer) : SpaAudioMixer :=
  mkMixer (in_ports s) x (port_count s) (port_queued s) (mx_format s) (mx_started s) (mx_callbacks s) (mx_host s).
Definition with_port_count (x : Z) (s : SpaAudioMixer) : SpaAudioMixer :=
  mkMixer (in_ports s) (out_port s) x (port_queued s) (mx_format s) (mx_started s) (mx_callbacks s) (mx_host s).
Definition with_port_queued (x : Z) (s : SpaAudioMixer) : SpaAudioMixer :=
  mkMixer (in_ports s) (out_port s) (port_count s) x (mx_format s) (mx_started s) (mx_callbacks s) (mx_host s).
Definition with_mx_format (x : Z * Z * SpaAudioInfoRaw) (s : SpaAudioMixer) : SpaAudioMixer :=
  mkMixer (in_ports s) (out_port s) (port_count s) (port_queued s) x (mx_started s) (mx_callbacks s) (mx_host s).
Definition with_mx_started (x : bool) (s : SpaAudioMixer) : SpaAudioMixer :=
  mkMixer (in_ports s) (out_port s) (port_count s) (port_queued s) (mx_format s) x (mx_callbacks s) (mx_host s).
Definition with_mx_callbacks (x : bool) (s : SpaAudioMixer) : SpaAudioMixer :=
  mkMixer (in_ports s) (out_port s) (port_count s) (port_queued s) (mx_format s) (mx_started s) x (mx_host s).
Definition with_mx_host (x : Host) (s : SpaAudioMixer) : SpaAudioMixer :=
  mkMixer (in_ports s) (out_port s) (port_count s) (port_queued s) (mx_format s) (mx_started s) (mx_callbacks s) x.

#[export] Instance mixer_host : HasHost SpaAudioMixer := { host_of := mx_host; set_host := with_mx_host }.

Abbreviation Mixer := (ST SpaAudioMixer).

(** ** Samples *)

Definition i16 (z : Z) : Z := (z + 2 ^ 15) mod 2 ^ 16 - 2 ^ 15.
Definition load16 (off : Z) (m : bytes) : option Z := (fun d => i16 (unle d)) <$> mread off 2 m.
Definition store16 (off v : Z) (m : bytes) : option bytes := mwrite off (le 2 v) m.

(** [for (i = 0; i < size; i++) op[i] = SPA_CLAMP (op[i] + ip[i], INT16_MIN, INT16_MAX)];
    [n] turns are left, [ip] starts at [base]. *)
Fixpoint mix_loop (n : nat) (i : Z) (base : Z) (ip op : bytes) : outcome bytes :=
  match n with
  | O => Done op
  | S n =>
      let* a := of_option (load16 (2 * i) op) in
      let* b := of_option (load16 (base + 2 * i) ip) in
      let* op := of_option (store16 (2 * i) (SPA_CLAMP (a + b) INT16_MIN INT16_MAX) op) in
      mix_loop n (i + 1) base ip op
  end.

Section Ops.
Context `{ElementType} `{AudioFormatType} `{Heap}.

(** ** Ports *)

Definition get_port (i : nat) : Mixer SpaAudioMixerPort := s <- gets id ;; lift (of_option (in_ports s !! i)).
Definition set_port (i : nat) (f : SpaAudioMixerPort -> SpaAudioMixerPort) : Mixer unit :=
  modify (fun s => with_in_ports (alter f i (in_ports s)) s).

Definition in_port_io (s : SpaAudioMixer) (port_id : Z) : option Z := in_ports s !! Z.to_nat port_id ≫= mp_io.

Definition CHECK_PORT_NUM (direction port_id : Z) : bool :=
  ((direction =? SPA_DIRECTION_INPUT) && (port_id <? Z.of_nat MIXER_MAX_PORTS)) ||
  ((direction =? SPA_DIRECTION_OUTPUT) && (port_id =? 0)).
Definition CHECK_FREE_IN_PORT (s : SpaAudioMixer) (direction port_id : Z) : bool :=
  (direction =? SPA_DIRECTION_INPUT) && (port_id <? Z.of_nat MIXER_MAX_PORTS) && bool_decide (in_port_io s port_id = None).
Definition CHECK_IN_PORT (s : SpaAudioMixer) (direction port_id : Z) : bool :=
  (direction =? SPA_DIRECTION_INPUT) && (port_id <? Z.of_nat MIXER_MAX_PORTS) && bool_decide (is_Some (in_port_io s port_id)).
Definition CHECK_OUT_PORT (direction port_id : Z) : bool := (direction =? SPA_DIRECTION_OUTPUT) && (port_id =? 0).
Definition CHECK_PORT (s : SpaAudioMixer) (direction port_id : Z) : bool :=
  CHECK_OUT_PORT direction port_id || CHECK_IN_PORT s direction port_id.

(** The port of a direction. *)
Definition the_port (direction port_id : Z) : Mixer SpaAudioMixerPort :=
  if direction =? SPA_DIRECTION_INPUT then get_port (Z.to_nat port_id) else gets out_port.
Definition set_the_port (direction port_id : Z) (f : SpaAudioMixerPort -> SpaAudioMixerPort) : Mixer unit :=
  if direction =? SPA_DIRECTION_INPUT then set_port (Z.to_nat port_id) f else modify (fun s => with_out_port (f (out_port s)) s).

(** ** The node *)

Definition spa_audiomixer_node_send_command (command : bytes) : Mixer Z :=
  type <- lift (SPA_COMMAND_TYPE command) ;;
  if type =? command_Start then modify (with_mx_started true) ;;; ret SPA_RESULT_OK
  else if type =? command_Pause then modify (with_mx_started false) ;;; ret SPA_RESULT_OK
  else ret SPA_RESULT_NOT_IMPLEMENTED.

Definition spa_audiomixer_node_set_callbacks (callback : bool) : Mixer Z :=
  modify (with_mx_callbacks callback) ;;; ret SPA_RESULT_OK.

(** It always says that it has no input ports. *)
Definition spa_audiomixer_node_get_n_ports : Z * Z * Z * Z := (0, Z.of_nat MIXER_MAX_PORTS, 1, 1).

Definition has_io (p : SpaAudioMixerPort) : bool := bool_decide (is_Some (mp_io p)).
(** The first [n_input_ports] input ports with an IO area, and the output port. *)
Definition spa_audiomixer_node_get_port_ids (s : SpaAudioMixer) (n_input_ports n_output_ports : Z) : list Z * option Z :=
  (take (Z.to_nat n_input_ports) (omap (fun ip => if has_io ip.2 then Some (Z.of_nat ip.1) else None) (imap pair (in_ports s))),
   if n_output_ports >? 0 then Some 0 else None).

Definition spa_audiomixer_node_add_port (direction port_id : Z) : Mixer Z :=
  s <- gets id ;;
  if negb (CHECK_FREE_IN_PORT s direction port_id) then ret SPA_RESULT_INVALID_PORT
  else
    modify (fun s => with_port_count (port_count s + 1) s) ;;;
    set_port (Z.to_nat port_id) (fun p =>
      with_mp_flags (Z.lor (Z.lor (Z.lor SPA_PORT_INFO_FLAG_CAN_USE_BUFFERS SPA_PORT_INFO_FLAG_REMOVABLE) SPA_PORT_INFO_FLAG_OPTIONAL)
          SPA_PORT_INFO_FLAG_IN_PLACE)
        (with_mp_linked true (with_mp_pool (mkPool (slots (mp_pool p)) (n_buffers (mp_pool p)) []) p))) ;;;
    ret SPA_RESULT_OK.

(** A buffer id other than 0 is taken for a buffer. *)
Definition spa_audiomixer_node_remove_port (direction port_id : Z) : Mixer Z :=
  s <- gets id ;;
  if negb (CHECK_IN_PORT s direction port_id) then ret SPA_RESULT_INVALID_PORT
  else
    a <- io_at (in_port_io s port_id) ;;
    when (negb (io_buffer_id a =? 0)) (modify (fun s => with_port_queued (port_queued s - 1) s)) ;;;
    set_port (Z.to_nat port_id) (with_mp_io None) ;;;
    modify (fun s => with_port_count (port_count s - 1) s) ;;;
    ret SPA_RESULT_OK.

Definition mixer_format : outcome bytes :=
  let* (b, ref) := spa_pod_builder_format (spa_pod_builder_init (mkFixed (fresh 256) 256)) t_format media_audio subtype_raw (
    PROP fa_format (PId audio_S16) ++
    PROP_U_MM fa_rate (PInt 44100) (PInt 1) (PInt INT32_MAX) ++
    PROP_U_MM fa_channels (PInt 2) (PInt 1) (PInt INT32_MAX)) in
  SPA_POD_BUILDER_DEREF b ref.

Definition enum_formats_loop : nat -> option bytes -> Z -> Z -> Z -> outcome (Z * option bytes) := enum_one_format mixer_format 4096.
Definition spa_audiomixer_node_port_enum_formats (direction port_id : Z) (filter : option bytes) (index : Z) : Mixer (Z * option bytes) :=
  s <- gets id ;;
  if negb (CHECK_PORT s direction port_id) then ret (SPA_RESULT_INVALID_PORT, None)
  else
    let start := match filter with Some _ => 0 | None => index end in
    lift (enum_formats_loop 2 filter index start start).

(** Initialising the list when there were buffers. *)
Definition clear_port (p : SpaAudioMixerPort) : SpaAudioMixerPort :=
  if n_buffers (mp_pool p) >? 0 then with_mp_linked true (with_mp_pool (pool_clear (mp_pool p)) p) else p.
Definition clear_buffers (direction port_id : Z) : Mixer unit := set_the_port direction port_id clear_port.

Definition spa_audiomixer_node_port_set_format (direction port_id : Z) (format : option bytes) : Mixer Z :=
  s <- gets id ;;
  if negb (CHECK_PORT s direction port_id) then ret SPA_RESULT_INVALID_PORT
  else
    match format with
    | None =>
        set_the_port direction port_id (with_mp_have_format false) ;;;
        clear_buffers direction port_id ;;;
        ret SPA_RESULT_OK
    | Some format =>
        media <- lift (SPA_FORMAT_MEDIA_TYPE format) ;;
        sub <- lift (SPA_FORMAT_MEDIA_SUBTYPE format) ;;
        if negb (media =? media_audio) || negb (sub =? subtype_raw) then ret SPA_RESULT_INVALID_MEDIA_TYPE
        else
          raw <- lift (spa_format_audio_raw_parse format zero_audio_raw) ;;
          modify (with_mx_format (media, sub, raw)) ;;;
          set_the_port direction port_id (with_mp_have_format true) ;;;
          ret SPA_RESULT_OK
    end.

Definition spa_audiomixer_node_port_get_format (direction port_id : Z) : Mixer (Z * option bytes) :=
  s <- gets id ;;
  if negb (CHECK_PORT s direction port_id) then ret (SPA_RESULT_INVALID_PORT, None)
  else
    p <- the_port direction port_id ;;
    if negb (mp_have_format p) then ret (SPA_RESULT_NO_FORMAT, None)
    else
      let raw := (mx_format s).2 in
      f <- lift (
        let* (b, ref) := spa_pod_builder_format (spa_pod_builder_init (mkFixed (fresh 4096) 4096)) t_format media_audio subtype_raw (
          PROP fa_format (PId (ar_format raw)) ++ PROP fa_rate (PInt (ar_rate raw)) ++ PROP fa_channels (PInt (ar_channels raw))) in
        SPA_POD_BUILDER_DEREF b ref) ;;
      ret (SPA_RESULT_OK, Some f).

Definition spa_audiomixer_node_port_get_info (direction port_id : Z) : Mixer (Z * option Z) :=
  s <- gets id ;;
  if negb (CHECK_PORT s direction port_id) then ret (SPA_RESULT_INVALID_PORT, None)
  else p <- the_port direction port_id ;; ret (SPA_RESULT_OK, Some (mp_flags p)).

(** One entry; a list that was never initialised cannot be linked to. *)
Definition link_port (i : nat) (p : SpaAudioMixerPort) : outcome SpaAudioMixerPort :=
  if negb (mp_linked p) then Undef else let* q := link_empty i (mp_pool p) in Done (with_mp_pool q p).

(** The memory a data must have. *)
Definition good_memory (d : MediaData) : bool :=
  ((md_type d =? data_MemPtr) || (md_type d =? data_MemFd) || (md_type d =? data_DmaBuf)) && bool_decide (is_Some (md_data d)).

(** One turn of the loop: [false] when the buffer has no memory. *)
Definition use_buffer (direction port_id : Z) (i : nat) (ptr : Z) : Mixer bool :=
  b <- get_buf ptr ;;
  p <- the_port direction port_id ;;
  _ <- lift (pool_slot (Z.of_nat i) (mp_pool p)) ;;
  let out := direction =? SPA_DIRECTION_INPUT in
  set_the_port direction port_id (fun p =>
    with_mp_pool (with_slot i (mkSlot ptr out (spa_buffer_find_meta b meta_Header) None) (mp_pool p)) p) ;;;
  d <- lift (of_option (mb_datas b !! 0%nat)) ;;
  if negb (good_memory d) then ret false
  else
    when (negb out)
      (p <- the_port direction port_id ;;
       p <- lift (link_port i p) ;;
       set_the_port direction port_id (fun _ => p)) ;;;
    ret true.

Fixpoint use_buffers_loop (direction port_id : Z) (l : list (nat * Z)) : Mixer bool :=
  match l with
  | [] => ret true
  | (i, ptr) :: l =>
      good <- use_buffer direction port_id i ptr ;;
      if good then use_buffers_loop direction port_id l else ret false
  end.

Definition spa_audiomixer_node_port_use_buffers (direction port_id : Z) (buffers : list Z) : Mixer Z :=
  s <- gets id ;;
  if negb (CHECK_PORT s direction port_id) then ret SPA_RESULT_INVALID_PORT
  else
    p <- the_port direction port_id ;;
    if negb (mp_have_format p) then ret SPA_RESULT_NO_FORMAT
    else
      clear_buffers direction port_id ;;;
      good <- use_buffers_loop direction port_id (zip (seq 0 (length buffers)) buffers) ;;
      if negb good then ret SPA_RESULT_ERROR
      else
        set_the_port direction port_id (fun p => with_mp_pool (mkPool (slots (mp_pool p)) (zlen buffers) (empty (mp_pool p))) p) ;;;
        ret SPA_RESULT_OK.

Definition spa_audiomixer_node_port_set_io (direction port_id : Z) (io : option Z) : Mixer Z :=
  if negb (CHECK_PORT_NUM direction port_id) then ret SPA_RESULT_INVALID_PORT
  else set_the_port direction port_id (with_mp_io io) ;;; ret SPA_RESULT_OK.

(** The id is not looked at but for the array of the output port. *)
Definition recycle_buffer (id : Z) : Mixer unit :=
  s <- gets (fun s => s) ;;
  let p := out_port s in
  e <- lift (pool_slot id (mp_pool p)) ;;
  if negb (outstanding e) then ret tt
  else
    p <- lift (link_port (Z.to_nat id) p) ;;
    modify (with_out_port (with_mp_pool (with_slot (Z.to_nat id) (with_outstanding false e) (mp_pool p)) p)).

Definition spa_audiomixer_node_port_reuse_buffer (port_id buffer_id : Z) : Mixer Z :=
  s <- gets id ;;
  if negb (CHECK_PORT s SPA_DIRECTION_OUTPUT port_id) then ret SPA_RESULT_INVALID_PORT
  else recycle_buffer buffer_id ;;; ret SPA_RESULT_NOT_IMPLEMENTED.

(** ** Mixing *)

(** The memory of the first data of a buffer, and that data. *)
Definition first_data (ptr : Z) : Mixer MediaData :=
  b <- get_buf ptr ;; lift (of_option (mb_datas b !! 0%nat)).
Definition put_first (ptr : Z) (d : MediaData) : Mixer unit :=
  b <- get_buf ptr ;; put_buf ptr (with_datas (<[0%nat := d]> (mb_datas b)) b).

(** The first entry of a port's queue. *)
Definition queue_first (p : SpaAudioMixerPort) : outcome (nat * Slot) :=
  match empty (mp_pool p) with
  | [] => Undef
  | i :: _ => let* e := pool_slot (Z.of_nat i) (mp_pool p) in Done (i, e)
  end.
Definition queue_is_empty (p : SpaAudioMixerPort) : outcome bool :=
  if mp_linked p then Done (bool_decide (empty (mp_pool p) = [])) else Undef.

(** What goes to the output: a copy of the first layer, then the others are added. *)
Definition mix_memory (layer off n : Z) (ip op : bytes) : outcome bytes :=
  if layer =? 0 then let* d := of_option (mread off n ip) in of_option (mwrite 0 d op)
  else mix_loop (Z.to_nat (i32 (n / 2))) 0 off ip op.

Definition add_port_data (out outsize : Z) (i : nat) (layer : Z) : Mixer unit :=
  port <- get_port i ;;
  '(k, e) <- lift (queue_first port) ;;
  d <- first_data (outbuf e) ;;
  let off := mp_offset port + ck_offset (md_chunk d) in
  let insize := u64 (ck_size (md_chunk d) - mp_offset port) in
  let outsize := SPA_MIN outsize insize in
  od <- first_data out ;;
  ip <- lift (of_option (md_data d)) ;;
  op <- lift (of_option (md_data od)) ;;
  op <- lift (mix_memory layer off outsize ip op) ;;
  put_first out (with_md_data op od) ;;;
  set_port i (fun p => with_mp_offset (u64 (mp_offset p + outsize)) (with_mp_bytes (u64 (mp_bytes p - outsize)) p)) ;;;
  when (outsize =? insize)
    (b <- get_buf (outbuf e) ;;
     set_io_at (mp_io port) (with_buffer_id (mb_id b)) ;;;
     set_port i (fun p => with_mp_offset 0
       (with_mp_pool (with_slot k (with_outstanding true e) (mkPool (slots (mp_pool p)) (n_buffers (mp_pool p)) (tail (empty (mp_pool p))))) p))).

(** From input port [i] on; [out] is the output buffer. *)
Fixpoint mix_ports (ports : list nat) (layer out n_bytes : Z) : Mixer unit :=
  match ports with
  | [] => ret tt
  | i :: ports =>
      port <- get_port i ;;
      if negb (has_io port) || (n_buffers (mp_pool port) =? 0) then mix_ports ports layer out n_bytes
      else
        none <- lift (queue_is_empty port) ;;
        if none then
          set_port i (fun p => with_mp_offset 0 (with_mp_bytes 0 p)) ;;;
          mix_ports ports layer out n_bytes
        else
          add_port_data out n_bytes i layer ;;;
          mix_ports ports (layer + 1) out n_bytes
  end.

Definition all_ports : list nat := seq 0 MIXER_MAX_PORTS.

Definition mix_output (n_bytes : Z) : Mixer Z :=
  s <- gets id ;;
  let output := mp_io (out_port s) in
  none <- lift (queue_is_empty (out_port s)) ;;
  if none then ret SPA_RESULT_OUT_OF_BUFFERS
  else
    '(k, e, q) <- lift (pool_take (mp_pool (out_port s))) ;;
    modify (fun s => with_out_port (with_mp_pool q (out_port s)) s) ;;;
    od <- first_data (outbuf e) ;;
    let n_bytes := SPA_MIN n_bytes (md_maxsize od) in
    put_first (outbuf e) (with_md_chunk (mkChunk 0 (u32 n_bytes) 0) od) ;;;
    mix_ports all_ports 0 (outbuf e) n_bytes ;;;
    b <- get_buf (outbuf e) ;;
    set_io_at output (with_buffer_id (mb_id b)) ;;;
    set_io_at output (with_status (u32 SPA_RESULT_HAVE_BUFFER)) ;;;
    ret SPA_RESULT_HAVE_BUFFER.

(** A new buffer on input port [i], if its queue has run dry; the smallest queue so far. *)
Definition collect_port (i : nat) (min_queued : Z) : Mixer Z :=
  port <- get_port i ;;
  if negb (has_io port) || (n_buffers (mp_pool port) =? 0) then ret min_queued
  else
    input <- io_at (mp_io port) ;;
    go <- (if (mp_bytes port =? 0) && (io_status input =? u32 SPA_RESULT_HAVE_BUFFER) && negb (io_buffer_id input =? SPA_ID_INVALID) then
             e <- lift (pool_slot (io_buffer_id input) (mp_pool port)) ;;
             if negb (outstanding e) then
               set_io_at (mp_io port) (with_status (u32 SPA_RESULT_INVALID_BUFFER_ID)) ;;; ret false
             else
               let k := Z.to_nat (io_buffer_id input) in
               set_io_at (mp_io port) (fun a => with_status (u32 SPA_RESULT_OK) (with_buffer_id SPA_ID_INVALID a)) ;;;
               port <- lift (link_port k (with_mp_pool (with_slot k (with_outstanding false e) (mp_pool port)) port)) ;;
               d <- first_data (outbuf e) ;;
               set_port i (fun _ => with_mp_bytes (u64 (mp_bytes port + ck_size (md_chunk d))) port) ;;;
               ret true
           else ret true) ;;
    if go : bool then
      port <- get_port i ;;
      ret (if (mp_bytes port >? 0) && (mp_bytes port <? min_queued) then mp_bytes port else min_queued)
    else ret min_queued.

Fixpoint collect_ports (ports : list nat) (min_queued : Z) : Mixer Z :=
  match ports with
  | [] => ret min_queued
  | i :: ports => m <- collect_port i min_queued ;; collect_ports ports m
  end.

(** [output->status = res; return output->status] *)
Definition set_output (output : option Z) (res : Z) : Mixer Z :=
  set_io_at output (with_status (u32 res)) ;;;
  a <- io_at output ;;
  ret (i32 (io_status a)).

Definition spa_audiomixer_node_process_input : Mixer Z :=
  s <- gets id ;;
  match mp_io (out_port s) with
  | None => ret SPA_RESULT_ERROR
  | Some output =>
      a <- io_at (Some output) ;;
      if io_status a =? u32 SPA_RESULT_HAVE_BUFFER then ret SPA_RESULT_HAVE_BUFFER
      else
        min_queued <- collect_ports all_ports SIZE_MAX ;;
        if negb (min_queued =? SIZE_MAX) && (min_queued >? 0) then
          res <- mix_output min_queued ;; set_output (Some output) res
        else set_output (Some output) SPA_RESULT_NEED_BUFFER
  end.

(** The smallest queue, empty ones included. *)
Fixpoint smallest_queue (ports : list nat) (min_queued : Z) : Mixer Z :=
  match ports with
  | [] => ret min_queued
  | i :: ports =>
      port <- get_port i ;;
      if negb (has_io port) || (n_buffers (mp_pool port) =? 0) then smallest_queue ports min_queued
      else smallest_queue ports (if mp_bytes port <? min_queued then mp_bytes port else min_queued)
  end.

(** The requested range, for the ports that need data. *)
Fixpoint request_input (ports : list nat) (output : option Z) : Mixer unit :=
  match ports with
  | [] => ret tt
  | i :: ports =>
      port <- get_port i ;;
      (if negb (has_io port) || (n_buffers (mp_pool port) =? 0) then ret tt
       else if mp_bytes port =? 0 then
         a <- io_at output ;;
         set_io_at (mp_io port) (fun io => mkPortIO (u32 SPA_RESULT_NEED_BUFFER) (io_buffer_id io) (io_min_size a) (io_max_size a))
       else set_io_at (mp_io port) (with_status (u32 SPA_RESULT_OK))) ;;;
      request_input ports output
  end.

Definition spa_audiomixer_node_process_output : Mixer Z :=
  s <- gets id ;;
  match mp_io (out_port s) with
  | None => ret SPA_RESULT_ERROR
  | Some output =>
      a <- io_at (Some output) ;;
      if io_status a =? u32 SPA_RESULT_HAVE_BUFFER then ret SPA_RESULT_HAVE_BUFFER
      else
        when (negb (io_buffer_id a =? SPA_ID_INVALID))
          (recycle_buffer (io_buffer_id a) ;;; set_io_at (Some output) (with_buffer_id SPA_ID_INVALID)) ;;;
        min_queued <- smallest_queue all_ports SIZE_MAX ;;
        if negb (min_queued =? SIZE_MAX) && (min_queued >? 0) then
          res <- mix_output min_queued ;; set_output (Some output) res
        else
          request_input all_ports (Some output) ;;;
          a <- io_at (Some output) ;;
          ret (i32 (io_status a))
  end.

(** The rest is not implemented. *)
Definition spa_audiomixer_node_get_props : Z := SPA_RESULT_NOT_IMPLEMENTED.
Definition spa_audiomixer_node_set_props : Z := SPA_RESULT_NOT_IMPLEMENTED.
Definition spa_audiomixer_node_port_get_props : Z := SPA_RESULT_NOT_IMPLEMENTED.
Definition spa_audiomixer_node_port_set_props : Z := SPA_RESULT_NOT_IMPLEMENTED.
Definition spa_audiomixer_node_port_alloc_buffers : Z := SPA_RESULT_NOT_IMPLEMENTED.
Definition spa_audiomixer_node_port_send_command : Z := SPA_RESULT_NOT_IMPLEMENTED.

(** Is it the node? *)
Definition spa_audiomixer_get_interface (interface_id : Z) : Z :=
  if interface_id =? t_node then SPA_RESULT_OK else SPA_RESULT_UNKNOWN_INTERFACE.

Definition zero_port : SpaAudioMixerPort := mkMixerPort None false 0 false (pool_init MIXER_MAX_BUFFERS) 0 0.

(** [map]: whether the host supports a type map. *)
Definition spa_audiomixer_init (map : bool) (h : Host) : Z * option SpaAudioMixer :=
  if negb map then (SPA_RESULT_ERROR, None)
  else
    (SPA_RESULT_OK, Some (mkMixer (replicate MIXER_MAX_PORTS zero_port)
      (with_mp_linked true (with_mp_flags (Z.lor SPA_PORT_INFO_FLAG_CAN_USE_BUFFERS SPA_PORT_INFO_FLAG_NO_REF) zero_port))
      0 0 (0, 0, zero_audio_raw) false false h)).
Definition audiomixer_enum_interface_info (index : Z) : Z := if index =? 0 then SPA_RESULT_OK else SPA_RESULT_ENUM_END.
End Ops.
