(* ===== verification/MixerTheory.v ===== *)
(** What the audio mixer mixes: the samples its inputs have queued are added up in the order of
    the ports, clamped at every step, and every input moves on by what was taken from it. *)
From stdpp Require Import gmap.
From S2P Require Import Prelude State Defs Pod PodUtils Props Element ElementTheory AudioMixer.

(** ** Samples *)

Definition clamp16 (v : Z) : Z := Z.max INT16_MIN (Z.min INT16_MAX v).

(** Two runs of samples, added; an odd byte at the end is that of the first. *)
Fixpoint add_samples (a b : bytes) : bytes :=
  match a, b with
  | a0 :: a1 :: a, b0 :: b1 :: b => le 2 (clamp16 (i16 (unle [a0; a1]) + i16 (unle [b0; b1]))) ++ add_samples a b
  | _, _ => a
  end.

Lemma SPA_CLAMP_16 v : SPA_CLAMP v INT16_MIN INT16_MAX = clamp16 v.
Proof. unfold SPA_CLAMP, clamp16, INT16_MIN, INT16_MAX. rewrite Z.gtb_ltb. repeat case_if; lia. Qed.

Lemma zlen_add_samples a b : zlen (add_samples a b) = zlen a.
Proof.
  remember (length a) as n eqn:Hn. assert (length a <= n)%nat as Hle by lia. clear Hn. revert a b Hle.
  induction n as [|n IH]; intros [|a0 [|a1 a]] [|b0 [|b1 b]] Hle; simpl in Hle; try done; try lia.
  cbn [add_samples]. rewrite zlen_app, zlen_le, IH by (simpl in *; lia). rewrite !zlen_cons. lia.
Qed.

(** The samples of a run, and their sum. *)
Fixpoint samples (m : bytes) : list Z :=
  match m with a0 :: a1 :: m => i16 (unle [a0; a1]) :: samples m | _ => [] end.

Lemma i16_bounds z : INT16_MIN <= i16 z <= INT16_MAX.
Proof. unfold i16, INT16_MIN, INT16_MAX. pose proof (Z.mod_pos_bound (z + 2 ^ 15) (2 ^ 16)). lia. Qed.
Lemma clamp16_bounds v : INT16_MIN <= clamp16 v <= INT16_MAX.
Proof. unfold clamp16, INT16_MIN, INT16_MAX. lia. Qed.

Lemma i16_le v : INT16_MIN <= v <= INT16_MAX -> i16 (unle (le 2 v)) = v.
Proof.
  unfold INT16_MIN, INT16_MAX. intros Hv. rewrite unle_le. unfold i16. change (256 ^ Z.of_nat 2) with 65536. change (2 ^ 15) with 32768. change (2 ^ 16) with 65536.
  pose proof (Z.div_mod v 65536). pose proof (Z.mod_pos_bound v 65536).
  assert (v / 65536 = 0 \/ v / 65536 = -1) as [Hq | Hq] by lia.
  - rewrite Z.mod_small by lia. lia.
  - replace (v mod 65536 + 32768) with ((v + 32768) + 1 * 65536) by lia. rewrite Z.mod_add by lia. rewrite Z.mod_small by lia. lia.
Qed.

(** Added samples are the saturated sums. *)
Lemma samples_add a b : length a = length b -> samples (add_samples a b) = zip_with (fun x y => clamp16 (x + y)) (samples a) (samples b).
Proof.
  remember (length a) as n eqn:Hn. intros Hb. assert (length a <= n)%nat as Hle by lia. rewrite Hn in Hb. clear Hn. revert a b Hb Hle.
  induction n as [|n IH]; intros [|a0 [|a1 a]] [|b0 [|b1 b]] Hb Hle; simpl in Hb, Hle; try done; try lia.
  cbn [add_samples samples zip_with].
  change (le 2 ?v ++ ?l) with (v mod 256 :: v / 256 mod 256 :: l). cbn [samples]. f_equal; [| apply IH; lia].
  set (v := clamp16 _). change [v mod 256; v / 256 mod 256] with (le 2 v). apply i16_le. apply clamp16_bounds.
Qed.

(** ** The loop *)

Lemma load16_app a x0 x1 c off : off = zlen a -> load16 off (a ++ x0 :: x1 :: c) = Some (i16 (unle [x0; x1])).
Proof. intros ->. unfold load16. change (x0 :: x1 :: c) with ([x0; x1] ++ c). by rewrite mread_app. Qed.

Lemma two_more {A} (m : list A) : 2 <= zlen m -> exists x0 x1 c, m = x0 :: x1 :: c /\ zlen m = 2 + zlen c.
Proof. destruct m as [|x0 [|x1 c]]; [unfold zlen; simpl; lia.. |]. intros _. exists x0, x1, c. split; [done |]. rewrite !zlen_cons. lia. Qed.

Lemma mix_loop_ok n : forall i oa ia op ip, zlen oa = 2 * i -> zlen ip >= 2 * Z.of_nat n -> zlen op >= 2 * Z.of_nat n ->
  mix_loop n i (zlen ia - 2 * i) (ia ++ ip) (oa ++ op) =
    Done (oa ++ add_samples (take (2 * n) op) (take (2 * n) ip) ++ drop (2 * n) op).
Proof.
  induction n as [|n IH]; intros i oa ia op ip Hoa Hip Hop; [done |].
  destruct (two_more op) as (o0 & o1 & op' & -> & Hlo); [lia |]. destruct (two_more ip) as (p0 & p1 & ip' & -> & Hli); [lia |].
  cbn [mix_loop]. rewrite load16_app by lia. cbn [of_option obind].
  replace (zlen ia - 2 * i + 2 * i) with (zlen ia) by lia. rewrite load16_app by done. cbn [of_option obind].
  rewrite SPA_CLAMP_16. set (v := clamp16 _). unfold store16.
  change (o0 :: o1 :: op') with ([o0; o1] ++ op'). rewrite mwrite_app by (try lia; by rewrite zlen_le). cbn [of_option obind].
  replace (2 * S n)%nat with (S (S (2 * n))) by lia. cbn [take drop app].
  change (ia ++ p0 :: p1 :: ip') with (ia ++ [p0; p1] ++ ip'). rewrite (app_assoc ia), (app_assoc oa).
  replace (zlen ia - 2 * i) with (zlen (ia ++ [p0; p1]) - 2 * (i + 1)) by (rewrite zlen_app; unfold zlen at 2; simpl; lia).
  rewrite IH; [| rewrite zlen_app, zlen_le; lia | lia | lia].
  cbn [add_samples]. by rewrite <- !app_assoc.
Qed.

Lemma add_samples_even a b (n : nat) : length a = n -> length b = n ->
  add_samples (take (2 * (n / 2)) a) (take (2 * (n / 2)) b) ++ drop (2 * (n / 2)) a = add_samples a b.
Proof.
  remember (n / 2)%nat as k eqn:Hk. revert n a b Hk. induction k as [|k IH]; intros n a b Hk Ha Hb.
  - assert (n < 2)%nat as Hn by (pose proof (Nat.div_mod n 2); pose proof (Nat.mod_upper_bound n 2); lia).
    cbn. destruct a as [|a0 [|a1 a]], b as [|b0 [|b1 b]]; simpl in *; try done; lia.
  - assert (2 <= n)%nat as Hn by (pose proof (Nat.div_mod n 2); pose proof (Nat.mod_upper_bound n 2); lia).
    destruct a as [|a0 [|a1 a]], b as [|b0 [|b1 b]]; simpl in Ha, Hb; try lia.
    replace (2 * S k)%nat with (S (S (2 * k))) by lia. cbn [take drop add_samples]. rewrite <- app_assoc. f_equal.
    apply (IH (n - 2)%nat); [| lia | lia]. replace n with ((n - 2) + 1 * 2)%nat in Hk by lia. rewrite Nat.div_add in Hk by lia. lia.
Qed.

(** A run added to a longer one: the end of that stays. *)
Lemma add_samples_short a d : (length d <= length a)%nat ->
  add_samples a d = add_samples (take (length d) a) d ++ drop (length d) a.
Proof.
  remember (length a) as n eqn:Hn. intros Hd. assert (length a <= n)%nat as Hle by lia. rewrite Hn in Hd. clear Hn. revert a d Hd Hle.
  induction n as [|n IH]; intros [|a0 [|a1 a]] [|d0 [|d1 d]] Hd Hle; simpl in Hd, Hle; try done; try lia.
  cbn [add_samples length take drop]. rewrite <- app_assoc. f_equal. apply IH; lia.
Qed.

(** What a layer makes of the output: the first one is copied over its start. *)
Definition layered (layer : Z) (acc d : bytes) : bytes :=
  if layer =? 0 then d ++ drop (length d) acc else add_samples acc d.

Lemma zlen_layered layer acc d : zlen d <= zlen acc -> zlen (layered layer acc d) = zlen acc.
Proof. intros Hd. unfold layered. case_if; [| apply zlen_add_samples]. rewrite zlen_app, zlen_drop. unfold zlen in *. lia. Qed.

Lemma mix_memory_ok layer off n ip d a rest : 0 <= n < 2 ^ 31 -> n <= zlen a -> mread off n ip = Some d ->
  mix_memory layer off n ip (a ++ rest) = Done (layered layer a d ++ rest).
Proof.
  intros Hn Ha Hd. pose proof (mread_length _ _ _ _ Hd) as Hdl. unfold mix_memory, layered. rewrite Hd.
  assert (length d <= length a)%nat as Hda by (unfold zlen in *; lia). destruct (layer =? 0).
  - cbn [of_option obind]. rewrite <- (take_drop (length d) a) at 1. rewrite <- (app_nil_l ((take _ _ ++ _) ++ rest)), <- !app_assoc.
    rewrite mwrite_app; [done | done |]. rewrite zlen_take. unfold zlen in *. lia.
  - rewrite (add_samples_short a d Hda). rewrite <- (take_drop (length d) a) at 1. rewrite <- !app_assoc.
    assert (zlen (take (length d) a) = n) as Ha' by (rewrite zlen_take; unfold zlen in *; lia).
    revert Ha'. generalize (take (length d) a) as a', (drop (length d) a ++ rest) as rest'. clear a rest Ha Hda. intros a rest Ha.
    apply mread_Some in Hd as (pre & post & -> & Hpre & _). set (k := (length a / 2)%nat).
    assert (n / 2 = Z.of_nat k) as Hk by (unfold k; rewrite Nat2Z.inj_div, <- Ha; done).
    rewrite i32_small by (split; [pose proof (Z.div_pos n 2); lia | apply Z.div_lt_upper_bound; lia]).
    rewrite Hk, Nat2Z.id. assert (2 * k <= length a)%nat as H2k by (unfold k; pose proof (Nat.div_mod (length a) 2); lia).
    assert (length d = length a) as Hlen by (unfold zlen in *; lia).
    pose proof (mix_loop_ok k 0 [] pre (a ++ rest) (d ++ post)) as Hloop. cbn [app] in Hloop. rewrite Z.mul_0_r, Z.sub_0_r, Hpre in Hloop.
    rewrite Hloop; [| done | rewrite zlen_app; unfold zlen in *; lia | rewrite zlen_app; unfold zlen in *; lia].
    rewrite !take_app_le, drop_app_le by lia. rewrite app_assoc. unfold k. by rewrite (add_samples_even a d (length a)).
Qed.

(** ** The ports *)

Section Mix.
Context `{ElementType} `{AudioFormatType} `{Heap}.
Implicit Types (s : SpaAudioMixer) (p : SpaAudioMixerPort).

Definition active p : bool := has_io p && negb (n_buffers (mp_pool p) =? 0).

(** The first buffer of the queue: its place, its entry, its data and their memory. *)
Definition front s p : option (nat * Slot * MediaData * bytes) :=
  k ← head (empty (mp_pool p)); e ← slots (mp_pool p) !! k; b ← bufs (mx_host s) !! outbuf e;
  x ← mb_datas b !! 0%nat; m ← md_data x; Some (k, e, x, m).

(** How many bytes the port gives when [n] are asked for: its first buffer may have fewer. *)
Definition taken (n : Z) p (x : MediaData) : Z := Z.min n (ck_size (md_chunk x) - mp_offset p).

(** The bytes it gives. *)
Definition contribution s (n : Z) p : option bytes :=
  if active p then
    match front s p with Some (_, _, x, m) => mread (mp_offset p + ck_offset (md_chunk x)) (taken n p x) m | None => None end
  else None.

(** The port when these have been taken: a buffer that has been used up leaves the queue. *)
Definition moved s (n : Z) p : SpaAudioMixerPort :=
  if active p then
    match front s p with
    | None => with_mp_offset 0 (with_mp_bytes 0 p)
    | Some (k, e, x, _) =>
        let n := taken n p x in
        if n =? ck_size (md_chunk x) - mp_offset p then
          with_mp_offset 0 (with_mp_bytes (mp_bytes p - n)
            (with_mp_pool (with_slot k (with_outstanding true e) (mkPool (slots (mp_pool p)) (n_buffers (mp_pool p)) (tail (empty (mp_pool p))))) p))
        else with_mp_offset (mp_offset p + n) (with_mp_bytes (mp_bytes p - n) p)
    end
  else p.

(** The port has no buffer queued, or one, of however many bytes, whose chunk is in memory
    of its own. *)
Record ready s (n out : Z) p : Prop := {
  rd_linked : mp_linked p = true;
  rd_io : forall q, mp_io p = Some q -> is_Some (ios (mx_host s) !! q);
  rd_front : empty (mp_pool p) = [] \/ exists k e x m d, front s p = Some (k, e, x, m) /\ outbuf e <> out /\
    mread (mp_offset p + ck_offset (md_chunk x)) (taken n p x) m = Some d /\
    0 <= mp_offset p <= ck_size (md_chunk x) /\ ck_size (md_chunk x) < 2 ^ 32 /\ taken n p x <= mp_bytes p < 2 ^ 64
}.

(** The output buffer, of id [oid], with this memory. *)
Context (oid : Z).
Definition holds s (out : Z) (m : bytes) : Prop :=
  exists b x r, bufs (mx_host s) !! out = Some b /\ mb_id b = oid /\ mb_datas b = x :: r /\ md_data x = Some m.

Lemma first_data_run s ptr b x r : bufs (mx_host s) !! ptr = Some b -> mb_datas b = x :: r -> first_data ptr s = Done (x, s).
Proof. intros Hb Hx. unfold first_data. run (get_buf_run (H := mixer_host) s ptr b Hb). unfold lift. by rewrite Hx. Qed.

Lemma put_first_run s ptr b x r y : bufs (mx_host s) !! ptr = Some b -> mb_datas b = x :: r ->
  put_first ptr y s = Done (tt, with_mx_host (with_buf ptr (with_datas (y :: r) b) (mx_host s)) s).
Proof. intros Hb Hx. unfold put_first. run (get_buf_run (H := mixer_host) s ptr b Hb). by rewrite Hx. Qed.

Lemma front_inv s p k e x m : front s p = Some (k, e, x, m) -> exists l b r,
  empty (mp_pool p) = k :: l /\ slots (mp_pool p) !! k = Some e /\ bufs (mx_host s) !! outbuf e = Some b /\ mb_datas b = x :: r /\ md_data x = Some m.
Proof.
  unfold front. intros Hf. destruct (empty (mp_pool p)) as [|k1 l]; [done |]. cbn [head] in Hf.
  apply bind_Some in Hf as (k0 & [= <-] & Hf). apply bind_Some in Hf as (e0 & He & Hf). apply bind_Some in Hf as (b & Hb & Hf).
  apply bind_Some in Hf as (x0 & Hx & Hf). apply bind_Some in Hf as (m0 & Hm & [= -> -> -> ->]).
  destruct (mb_datas b) as [|y r] eqn:Hd; [done |]. injection Hx as ->. by exists l, b, r.
Qed.

Lemma get_port_run s i p : in_ports s !! i = Some p -> get_port i s = Done (p, s).
Proof. intros Hp. unfold get_port, bind, gets, lift. cbn. by rewrite Hp. Qed.

(** *** One port *)

Lemma add_port_data_run s out n i layer p acc rest d : 0 <= n < 2 ^ 31 -> in_ports s !! i = Some p -> active p = true ->
  ready s n out p -> contribution s n p = Some d -> holds s out (acc ++ rest) -> zlen acc = n ->
  exists s', add_port_data out n i layer s = Done (tt, s') /\
    in_ports s' = <[i := moved s n p]> (in_ports s) /\ out_port s' = out_port s /\
    holds s' out (layered layer acc d ++ rest) /\
    (forall q, q <> out -> bufs (mx_host s') !! q = bufs (mx_host s) !! q) /\
    (forall q, is_Some (ios (mx_host s) !! q) -> is_Some (ios (mx_host s') !! q)).
Proof.
  intros Hn Hp Hact [Hlink Hio Hfront] Hc (ob & ox & or & Hob & Hoid & Hod & Hom) Hacc.
  unfold contribution in Hc. rewrite Hact in Hc. destruct Hfront as [He | (k & e & x & m & d' & Hf & Hne & Hd & Ho & Hsz & Hby)].
  { unfold front in Hc. rewrite He in Hc. done. }
  rewrite Hf in Hc. cbn in Hc. rewrite Hd in Hc. injection Hc as ->.
  destruct (front_inv _ _ _ _ _ _ Hf) as (l & b & r & He & Hk & Hb & Hx & Hm).
  set (off := mp_offset p + ck_offset (md_chunk x)) in *. set (insize := ck_size (md_chunk x) - mp_offset p) in *.
  assert (u64 (ck_size (md_chunk x) - mp_offset p) = insize) as Hu by (apply u64_small; unfold is_u64; lia).
  set (op := layered layer acc d ++ rest). set (t := taken n p x) in *.
  assert (t <= n /\ 0 <= t <= insize) as (Htn & Ht) by (unfold t, taken, insize; lia).
  set (h1 := with_buf out (with_datas (with_md_data op ox :: or) ob) (mx_host s)). set (s1 := with_mx_host h1 s).
  assert (add_port_data out n i layer s =
    (set_port i (fun p => with_mp_offset (u64 (mp_offset p + t)) (with_mp_bytes (u64 (mp_bytes p - t)) p)) ;;;
     when (t =? insize)
       (b <- get_buf (outbuf e) ;;
        set_io_at (mp_io p) (with_buffer_id (mb_id b)) ;;;
        set_port i (fun p => with_mp_offset 0
          (with_mp_pool (with_slot k (with_outstanding true e) (mkPool (slots (mp_pool p)) (n_buffers (mp_pool p)) (tail (empty (mp_pool p))))) p)))) s1) as Hrun.
  { unfold add_port_data. run (get_port_run s i p Hp). unfold queue_first, pool_slot. rewrite He.
    rewrite (proj2 (Z.ltb_ge _ _)) by lia. rewrite Nat2Z.id, Hk. cbn [of_option obind]. run_step.
    rewrite (run_bind_done _ _ _ _ _ (first_data_run s (outbuf e) b x r Hb Hx)).
    rewrite (run_bind_done _ _ _ _ _ (first_data_run s out ob ox or Hob Hod)). rewrite Hm, Hom. run_step.
    fold off. rewrite Hu. rewrite SPA_MIN_min. change (Z.min n insize) with t.
    rewrite (mix_memory_ok layer off t m d acc rest ltac:(lia) ltac:(lia) Hd). run_step.
    rewrite (run_bind_done _ _ _ _ _ (put_first_run s out ob ox or _ Hob Hod)). done. }
  rewrite Hrun. clear Hrun. unfold moved. rewrite Hact, Hf. cbv zeta. fold insize t.
  set (p1 := with_mp_offset (mp_offset p + t) (with_mp_bytes (mp_bytes p - t) p)).
  assert (set_port i (fun p => with_mp_offset (u64 (mp_offset p + t)) (with_mp_bytes (u64 (mp_bytes p - t)) p)) s1 =
    Done (tt, with_in_ports (<[i := p1]> (in_ports s1)) s1)) as Hset.
  { unfold set_port, modify. do 3 f_equal. apply list_eq. intros j. destruct (decide (j = i)) as [-> | Hji].
    - rewrite list_lookup_alter_eq, list_lookup_insert_eq by (by eapply lookup_lt_Some). change (in_ports s1) with (in_ports s). rewrite Hp. cbn.
      unfold p1. by rewrite !u64_small by (unfold is_u64; lia).
    - by rewrite list_lookup_alter_ne, list_lookup_insert_ne. }
  rewrite (run_bind_done _ _ _ _ _ Hset). set (s2 := with_in_ports _ s1).
  assert (holds s2 out op) as Hholds by (exists (with_datas (with_md_data op ox :: or) ob), (with_md_data op ox), or; split_and!; [apply lookup_insert_eq | done | done | done]).
  assert (forall q, q <> out -> bufs (mx_host s2) !! q = bufs (mx_host s) !! q) as Hother by (intros q Hq; by apply lookup_insert_ne).
  destruct (Z.eqb_spec t insize) as [Heq | Hneq]; cbn [when].
  2: { exists s2. by split_and!. }
  assert (bufs (mx_host s2) !! outbuf e = Some b) as Hb2 by (rewrite Hother; done).
  destruct (mp_io p) as [q |] eqn:Hq; [| unfold active, has_io in Hact; by rewrite Hq in Hact].
  destruct (Hio q eq_refl) as [a Ha].
  run (get_buf_run (H := mixer_host) s2 (outbuf e) b Hb2). run (set_io_at_run (H := mixer_host) s2 q a (with_buffer_id (mb_id b)) Ha).
  eexists. split; [done |]. split_and!.
  - cbn [in_ports with_in_ports set_host mixer_host with_mx_host]. apply list_eq. intros j. destruct (decide (j = i)) as [-> | Hji].
    + rewrite list_lookup_alter_eq. unfold s2. cbn [in_ports with_in_ports]. change (in_ports s1) with (in_ports s).
      rewrite !list_lookup_insert_eq by (by eapply lookup_lt_Some). done.
    + rewrite list_lookup_alter_ne by done. unfold s2. cbn [in_ports with_in_ports]. change (in_ports s1) with (in_ports s). by rewrite !list_lookup_insert_ne.
  - done.
  - exact Hholds.
  - exact Hother.
  - intros q' Hq'. cbn. destruct (decide (q' = q)) as [-> | Hqq]; [rewrite lookup_insert_eq; by eexists | by rewrite lookup_insert_ne].
Qed.

(** *** All ports *)

(** Nothing but the output buffer has changed, as far as the other ports are concerned. *)
Definition untouched s s1 (out : Z) : Prop :=
  (forall q, q <> out -> bufs (mx_host s1) !! q = bufs (mx_host s) !! q) /\
  (forall q, is_Some (ios (mx_host s) !! q) -> is_Some (ios (mx_host s1) !! q)).

Lemma ready_front s n out p : ready s n out p ->
  (empty (mp_pool p) = [] /\ front s p = None) \/ (exists k e x m, front s p = Some (k, e, x, m) /\ outbuf e <> out /\ empty (mp_pool p) <> []).
Proof.
  intros [_ _ [He | (k & e & x & m & d & Hf & Hne & _)]]; [left; split; [done | by unfold front; rewrite He] | right].
  exists k, e, x, m. split_and!; [done | done |]. destruct (front_inv _ _ _ _ _ _ Hf) as (l & b & r & -> & _). done.
Qed.

Lemma front_untouched s s1 n out p : untouched s s1 out -> ready s n out p -> front s1 p = front s p.
Proof.
  intros [Hb _] Hr. destruct (ready_front _ _ _ _ Hr) as [[He _] | (k & e & x & m & Hf & Hne & _)].
  - unfold front. by rewrite He.
  - destruct (front_inv _ _ _ _ _ _ Hf) as (l & b & r & He & Hk & _). unfold front. rewrite He. cbn. rewrite Hk. cbn. by rewrite Hb.
Qed.

Lemma ready_untouched s s1 n out p : untouched s s1 out -> ready s n out p ->
  ready s1 n out p /\ contribution s1 n p = contribution s n p /\ moved s1 n p = moved s n p.
Proof.
  intros Hu Hr. pose proof (front_untouched _ _ _ _ _ Hu Hr) as Hf. split_and!.
  - destruct Hr as [Hl Hio Hfr]. split; [done | intros q Hq; by apply Hu, Hio |]. by rewrite Hf.
  - unfold contribution. by rewrite Hf.
  - unfold moved. by rewrite Hf.
Qed.

(** The sum of what the ports have: a copy of the first, then the others are added to it. *)
Fixpoint mixed (layer : Z) (acc : bytes) (ds : list bytes) : bytes :=
  match ds with
  | [] => acc
  | d :: ds => mixed (layer + 1) (layered layer acc d) ds
  end.

Lemma contribution_length s n p d : contribution s n p = Some d -> zlen d <= n.
Proof.
  unfold contribution. destruct (active p); [| done]. destruct (front s p) as [[[[k e] x] m] |]; [| done].
  intros ->%mread_length. unfold taken. lia.
Qed.

Definition port_contribution s (n : Z) (i : nat) : option bytes := in_ports s !! i ≫= contribution s n.

Lemma contributions_same s s1 n (ports : list nat) : (forall i, i ∈ ports -> port_contribution s1 n i = port_contribution s n i) ->
  omap (port_contribution s1 n) ports = omap (port_contribution s n) ports.
Proof.
  induction ports as [|i ports IH]; intros Hi; [done |]. cbn [omap list_omap]. rewrite Hi by left. rewrite IH; [done |]. intros j Hj. apply Hi. by right.
Qed.

(** One turn of the loop. *)
Lemma mix_port_step n out rest i p ports layer acc s : 0 <= n < 2 ^ 31 -> in_ports s !! i = Some p -> (active p = true -> ready s n out p) ->
  holds s out (acc ++ rest) -> zlen acc = n ->
  exists s1 layer1 acc1, mix_ports (i :: ports) layer out n s = mix_ports ports layer1 out n s1 /\
    in_ports s1 = <[i := moved s n p]> (in_ports s) /\ out_port s1 = out_port s /\ holds s1 out (acc1 ++ rest) /\ untouched s s1 out /\ zlen acc1 = n /\
    mixed layer acc (omap (port_contribution s n) (i :: ports)) = mixed layer1 acc1 (omap (port_contribution s n) ports).
Proof.
  intros Hn Hp Hready Hh Hacc. cbn [mix_ports]. rewrite (run_bind_done _ _ _ _ _ (get_port_run s i p Hp)).
  cbn [omap list_omap]. unfold port_contribution at 1. rewrite Hp. change (Some p ≫= contribution s n) with (contribution s n p).
  assert (negb (has_io p) || (n_buffers (mp_pool p) =? 0) = negb (active p)) as ->
    by (unfold active; by destruct (has_io p), (n_buffers (mp_pool p) =? 0)).
  destruct (active p) eqn:Hact; cbn [negb].
  2: { exists s, layer, acc. assert (moved s n p = p) as -> by (unfold moved; by rewrite Hact).
    assert (contribution s n p = None) as -> by (unfold contribution; by rewrite Hact).
    split_and!; try done. by rewrite list_insert_id. }
  specialize (Hready eq_refl). pose proof (rd_linked _ _ _ _ Hready) as Hl. unfold queue_is_empty. rewrite Hl. rewrite run_lift.
  destruct (ready_front _ _ _ _ Hready) as [[He Hf] | (k & e & x & m & Hf & Hne & He)].
  - rewrite bool_decide_eq_true_2 by done. set (p1 := moved s n p).
    exists (with_in_ports (<[i := p1]> (in_ports s)) s), layer, acc.
    assert (contribution s n p = None) as -> by (unfold contribution; by rewrite Hact, Hf).
    split_and!; try done. unfold set_port. rewrite run_modify. f_equal. unfold with_in_ports. f_equal. apply list_eq. intros j. destruct (decide (j = i)) as [-> | Hji].
    + rewrite list_lookup_alter_eq, list_lookup_insert_eq by (by eapply lookup_lt_Some). rewrite Hp. cbn. unfold p1, moved. by rewrite Hact, Hf.
    + by rewrite list_lookup_alter_ne, list_lookup_insert_ne.
  - rewrite bool_decide_eq_false_2 by done. assert (exists d, contribution s n p = Some d) as [d Hd].
    { destruct (rd_front _ _ _ _ Hready) as [? | (k' & e' & x' & m' & d & Hf' & _ & Hd & _)]; [done |]. exists d. unfold contribution. by rewrite Hact, Hf'. }
    destruct (add_port_data_run s out n i layer p acc rest d Hn Hp Hact Hready Hd Hh Hacc) as (s1 & Hrun & Hin & Hout & Hh' & Hu1 & Hu2).
    exists s1, (layer + 1), (layered layer acc d). rewrite (run_bind_done _ _ _ _ _ Hrun), Hd.
    split_and!; try done. rewrite zlen_layered; [done |]. rewrite Hacc. by eapply contribution_length.
Qed.

Lemma mix_ports_run n out rest : 0 <= n < 2 ^ 31 -> forall ports layer acc s, NoDup ports ->
  (forall i, i ∈ ports -> exists p, in_ports s !! i = Some p /\ (active p = true -> ready s n out p)) ->
  holds s out (acc ++ rest) -> zlen acc = n ->
  exists s', mix_ports ports layer out n s = Done (tt, s') /\
    (forall i p, in_ports s !! i = Some p -> in_ports s' !! i = Some (if bool_decide (i ∈ ports) then moved s n p else p)) /\
    out_port s' = out_port s /\ holds s' out (mixed layer acc (omap (port_contribution s n) ports) ++ rest) /\ untouched s s' out.
Proof.
  intros Hn. induction ports as [|i ports IH]; intros layer acc s Hnd Hall Hh Hacc.
  { exists s. split_and!; [done | intros i p Hp; by rewrite bool_decide_eq_false_2 by set_solver | done | done | split; done]. }
  apply NoDup_cons in Hnd as [Hi Hnd]. destruct (Hall i) as (p & Hp & Hready); [left |].
  destruct (mix_port_step n out rest i p ports layer acc s Hn Hp Hready Hh Hacc)
    as (s1 & layer1 & acc1 & -> & Hin1 & Hout1 & Hh1 & Hu & Hacc1 & Hmix).
  assert (forall j q, j ∈ ports -> in_ports s !! j = Some q -> in_ports s1 !! j = Some q) as Hsame.
  { intros j q Hj Hq. rewrite Hin1, list_lookup_insert_ne; [done |]. intros ->. done. }
  assert (forall j q, j ∈ ports -> in_ports s !! j = Some q -> contribution s1 n q = contribution s n q /\ moved s1 n q = moved s n q) as Hstable.
  { intros j q Hj Hq. destruct (Hall j) as (q' & Hq' & Hr); [by right |]. rewrite Hq in Hq'. injection Hq' as <-.
    destruct (active q) eqn:Hact; [by apply (ready_untouched s s1 n out q Hu), Hr |]. unfold contribution, moved. by rewrite Hact. }
  destruct (IH layer1 acc1 s1 Hnd) as (s' & Hrun & Hin' & Hout' & Hh' & Hu'); [| done | done |].
  { intros j Hj. destruct (Hall j) as (q & Hq & Hr); [by right |]. exists q. split; [by apply Hsame |]. intros Hact. by apply (ready_untouched s s1 n out q Hu), Hr. }
  exists s'. split_and!; [done | | congruence | | ].
  - intros j q Hq. destruct (decide (j = i)) as [-> | Hji].
    + rewrite Hp in Hq. injection Hq as <-. rewrite (bool_decide_eq_true_2 (i ∈ i :: ports)) by left.
      rewrite (Hin' i (moved s n p)); [by rewrite bool_decide_eq_false_2 |]. rewrite Hin1. apply list_lookup_insert_eq. by eapply lookup_lt_Some.
    + rewrite (Hin' j q) by (by rewrite Hin1, list_lookup_insert_ne). f_equal. destruct (decide (j ∈ ports)) as [Hj | Hj].
      * rewrite !bool_decide_eq_true_2 by (done || by right). by apply Hstable with j.
      * rewrite !bool_decide_eq_false_2; [done | | done]. set_solver.
  - rewrite Hmix. rewrite <- (contributions_same s s1); [exact Hh' |]. intros j Hj. destruct (Hall j) as (q & Hq & _); [by right |].
    unfold port_contribution. rewrite Hq, (Hsame j q Hj Hq). cbn. by apply Hstable with j.
  - destruct Hu as [Hb Hio], Hu' as [Hb' Hio']. split; [intros q Hq; rewrite Hb' by done; by apply Hb | intros q Hq; by apply Hio', Hio].
Qed.

(** ** The output *)

(** What the inputs add up to: the first is copied over what was there, the others are added. *)
Definition mixdown (acc : bytes) (ds : list bytes) : bytes :=
  match ds with [] => acc | d :: ds => foldl add_samples (d ++ drop (length d) acc) ds end.

Lemma mixed_foldl ds : forall layer acc, 0 < layer -> mixed layer acc ds = foldl add_samples acc ds.
Proof.
  induction ds as [|d ds IH]; intros layer acc Hl; [done |]. cbn [mixed foldl]. unfold layered. rewrite (proj2 (Z.eqb_neq _ _)) by lia. apply IH. lia.
Qed.
Lemma mixed_mixdown acc ds : mixed 0 acc ds = mixdown acc ds.
Proof. destruct ds as [|d ds]; [done |]. cbn. by rewrite mixed_foldl. Qed.

(** The next output buffer: its entry, itself, its data and their memory. *)
Record next_output s (k : nat) (l : list nat) (e : Slot) (b : MediaBuffer) (x : MediaData) (r : list MediaData) (m : bytes) : Prop := {
  no_linked : mp_linked (out_port s) = true;
  no_queue : empty (mp_pool (out_port s)) = k :: l;
  no_entry : slots (mp_pool (out_port s)) !! k = Some e;
  no_buffer : bufs (mx_host s) !! outbuf e = Some b;
  no_data : mb_datas b = x :: r /\ md_data x = Some m
}.

End Mix.

Section Output.
Context `{ElementType} `{AudioFormatType} `{Heap}.
Implicit Types (s : SpaAudioMixer) (p : SpaAudioMixerPort).

Lemma omap_all_ports {A} (l : list SpaAudioMixerPort) (f : SpaAudioMixerPort -> option A) :
  length l = MIXER_MAX_PORTS -> omap (fun i => l !! i ≫= f) all_ports = omap f l.
Proof.
  unfold all_ports. intros <-. induction l as [|p l IH] using rev_ind; [done |]. rewrite length_app, Nat.add_1_r, seq_S, !omap_app. cbn [omap list_omap].
  rewrite lookup_app_r by lia. rewrite Nat.add_0_l, Nat.sub_diag. cbn. f_equal. rewrite <- IH. 
  assert (forall ns : list nat, Forall (fun i => (i < length l)%nat) ns -> omap (fun i => (l ++ [p]) !! i ≫= f) ns = omap (fun i => l !! i ≫= f) ns) as Hext.
  { induction 1 as [|i ns Hi _ IHn]; [done |]. cbn [omap list_omap]. by rewrite lookup_app_l, IHn by done. }
  apply Hext, Forall_seq. lia.
Qed.

Lemma mix_output_run s q a k l e b x r m n : mp_io (out_port s) = Some q -> ios (mx_host s) !! q = Some a ->
  next_output s k l e b x r m -> length (in_ports s) = MIXER_MAX_PORTS ->
  let n' := Z.min n (md_maxsize x) in
  0 <= n' < 2 ^ 31 -> n' <= zlen m ->
  (forall i p, in_ports s !! i = Some p -> active p = true -> ready s n' (outbuf e) p) ->
  exists s', mix_output n s = Done (SPA_RESULT_HAVE_BUFFER, s') /\
    holds (mb_id b) s' (outbuf e) (mixdown (take (Z.to_nat n') m) (omap (contribution s n') (in_ports s)) ++ drop (Z.to_nat n') m) /\
    (forall i p, in_ports s !! i = Some p -> in_ports s' !! i = Some (moved s n' p)) /\
    empty (mp_pool (out_port s')) = l /\
    exists a', ios (mx_host s') !! q = Some a' /\ io_status a' = u32 SPA_RESULT_HAVE_BUFFER /\ io_buffer_id a' = mb_id b.
Proof.
  intros Hq Ha [Hl He Hk Hb [Hx Hm]] Hlen n' Hn Hroom Hready.
  set (pool' := with_slot k (with_outstanding true e) (mkPool (slots (mp_pool (out_port s))) (n_buffers (mp_pool (out_port s))) l)).
  set (s1 := with_out_port (with_mp_pool pool' (out_port s)) s).
  set (x1 := with_md_chunk (mkChunk 0 (u32 n') 0) x).
  set (s2 := with_mx_host (with_buf (outbuf e) (with_datas (x1 :: r) b) (mx_host s1)) s1).
  assert (untouched s s2 (outbuf e)) as Hu by (split; [intros p Hp; by apply lookup_insert_ne | done]).
  destruct (mix_ports_run (mb_id b) n' (outbuf e) (drop (Z.to_nat n') m) Hn all_ports 0 (take (Z.to_nat n') m) s2) as (s3 & Hrun & Hin & Hout & Hh & [_ Hios]).
  { apply NoDup_seq. }
  { intros i Hi. apply elem_of_seq in Hi. destruct (lookup_lt_is_Some_2 (in_ports s) i) as [p Hp]; [lia |]. exists p. split; [exact Hp |].
    intros Hact. by apply (ready_untouched s s2 n' _ p Hu), (Hready i). }
  { exists (with_datas (x1 :: r) b), x1, r. split_and!; [apply lookup_insert_eq | done | done |]. cbn. by rewrite take_drop. }
  { rewrite zlen_take. lia. }
  destruct (Hios q) as [a3 Ha3]; [by exists a |].
  assert (forall i p, in_ports s !! i = Some p -> contribution s2 n' p = contribution s n' p /\ moved s2 n' p = moved s n' p) as Hstable.
  { intros i p Hp. destruct (active p) eqn:Hact; [by apply (ready_untouched s s2 n' _ p Hu), (Hready i) |]. unfold contribution, moved. by rewrite Hact. }
  assert (omap (port_contribution s2 n') all_ports = omap (contribution s n') (in_ports s)) as Homap.
  { rewrite <- (omap_all_ports (in_ports s) _ Hlen). apply contributions_same. intros i Hi. unfold port_contribution. change (in_ports s2) with (in_ports s).
    destruct (in_ports s !! i) as [p |] eqn:Hp; [| done]. by apply (Hstable i). }
  rewrite mixed_mixdown, Homap in Hh. pose proof Hh as (b3 & x3 & r3 & Hb3 & Hid3 & _).
  set (s4 := with_mx_host (with_io q (with_status (u32 SPA_RESULT_HAVE_BUFFER) (with_buffer_id (mb_id b3) a3)) (mx_host s3)) s3).
  exists s4. split_and!.
  - unfold mix_output. run_step. unfold queue_is_empty, id. rewrite Hl. run_step. rewrite bool_decide_eq_false_2 by (by rewrite He).
    unfold pool_take, pool_slot. rewrite He, (proj2 (Z.ltb_ge _ _)), Nat2Z.id, Hk by lia. cbn [of_option obind]. run_step. fold pool'. fold s1.
    change (outbuf (with_outstanding true e)) with (outbuf e).
    rewrite (run_bind_done _ _ _ _ _ (first_data_run s1 (outbuf e) b x r Hb Hx)). rewrite SPA_MIN_min. fold n'.
    rewrite (run_bind_done _ _ _ _ _ (put_first_run s1 (outbuf e) b x r _ Hb Hx)). fold x1 s2.
    rewrite (run_bind_done _ _ _ _ _ Hrun), Hq.
    run (get_buf_run (H := mixer_host) s3 (outbuf e) b3 Hb3). run (set_io_at_run (H := mixer_host) s3 q a3 (with_buffer_id (mb_id b3)) Ha3).
    erewrite run_bind_done; [| eapply (set_io_at_run (H := mixer_host)); apply lookup_insert_eq].
    unfold ret. do 2 f_equal. unfold s4, with_mx_host, with_io. cbn. by rewrite insert_insert_eq.
  - exact Hh.
  - intros i p Hp. change (in_ports s4) with (in_ports s3). rewrite (Hin i p Hp). f_equal.
    rewrite bool_decide_eq_true_2 by (apply elem_of_seq; apply lookup_lt_Some in Hp; lia). by apply (Hstable i).
  - change (out_port s4) with (out_port s3). by rewrite Hout.
  - eexists. split; [apply lookup_insert_eq |]. done.
Qed.
End Output.

(** C15: Mixing an amount. Given a free output buffer, input ports with a list of their own, an
    IO area and either nothing queued or a first buffer whose chunk is in memory of its own,
    mixing does not fail. Each port gives the bytes asked for (or as many as fit in the output
    buffer), or all that its first buffer has left. The output buffer then starts with the
    bytes of the first port that has a buffer queued; to these, and behind them to what the
    output buffer held before, the 16-bit samples of the others are added in the order of
    the ports, clamped after each addition; the rest is what it was. Every input port has
    moved on by what was taken from it, giving its buffer back when all of it has been
    used; the buffer has left the output's list, and its id and the result are in the
    output's IO area. *)
Theorem mix_output_exact `{ElementType} `{AudioFormatType} `{Heap} (s : SpaAudioMixer) q a k l e b x r m n :
  mp_io (out_port s) = Some q -> ios (mx_host s) !! q = Some a ->
  next_output s k l e b x r m -> length (in_ports s) = MIXER_MAX_PORTS ->
  let n' := Z.min n (md_maxsize x) in
  0 <= n' < 2 ^ 31 -> n' <= zlen m ->
  (forall i p, in_ports s !! i = Some p -> active p = true -> ready s n' (outbuf e) p) ->
  exists s', mix_output n s = Done (SPA_RESULT_HAVE_BUFFER, s') /\
    holds (mb_id b) s' (outbuf e) (mixdown (take (Z.to_nat n') m) (omap (contribution s n') (in_ports s)) ++ drop (Z.to_nat n') m) /\
    (forall i p, in_ports s !! i = Some p -> in_ports s' !! i = Some (moved s n' p)) /\
    empty (mp_pool (out_port s')) = l /\
    exists a', ios (mx_host s') !! q = Some a' /\ io_status a' = u32 SPA_RESULT_HAVE_BUFFER /\ io_buffer_id a' = mb_id b.
Proof. apply mix_output_run. Qed.

(** The audio mixer at work: concrete runs, which also show that the theorem's hypotheses can
    hold, and what happens when the host does what the element lets it. *)

#[local] Instance sample_mixer_types : ElementType :=
  Build_ElementType 1 2 3 4 5 6 7 8 9 10 11 12 13 14 15 16 17 18 19 20 21 22.
#[local] Instance sample_audio_types : AudioFormatType := Build_AudioFormatType 30 31 32 33 34 35 36 37 38 39.

Definition sample_audio (rate channels : Z) : bytes :=
  match (let* (b, ref) := spa_pod_builder_format (spa_pod_builder_init (mkFixed (fresh 1024) 1024)) t_format media_audio subtype_raw (
           PROP fa_format (PId audio_S16) ++ PROP fa_rate (PInt rate) ++ PROP fa_channels (PInt channels)) in
         SPA_POD_BUILDER_DEREF b ref) with Done f => f | _ => [] end.

Definition pcm (l : list Z) : bytes := flat_map (le 2) l.
Definition audio_buffer (id : Z) (l : list Z) : MediaBuffer :=
  mkMediaBuffer id [] [mkMediaData data_MemPtr (2 * zlen l) (Some (pcm l)) (mkChunk 0 (2 * zlen l) 0)].

(** Two buffers for each of two inputs, at 100 and 200, one for the output, at 300, and the
    three IO areas. *)
Definition idle : PortIO := mkPortIO (u32 SPA_RESULT_NEED_BUFFER) SPA_ID_INVALID 0 0.
Definition mixer_sample_host : Host :=
  mkHost (list_to_map [(100, audio_buffer 0 [1; 2; 3; 30000]); (101, audio_buffer 1 [5; 6; 7; 8]);
                       (200, audio_buffer 0 [10; -20; 30000; 30000]); (201, audio_buffer 1 [0; 0; 0; 0]);
                       (300, audio_buffer 0 [9; 9; 9; 9; 9])])
    (list_to_map [(1, idle); (2, idle); (7, idle)]).

(** The host writes an IO area. *)
Definition write_io (q : Z) (a : PortIO) : Mixer Z := set_io_at (Some q) (fun _ => a) ;;; ret 0.
Definition queue_up (q id : Z) : Mixer Z := write_io q (mkPortIO (u32 SPA_RESULT_HAVE_BUFFER) id 0 0).

Fixpoint perform (ops : list (Mixer Z)) (s : SpaAudioMixer) : outcome (list Z * SpaAudioMixer) :=
  match ops with
  | [] => Done ([], s)
  | o :: ops => let* (r, s) := o s in let* (rs, s) := perform ops s in Done (r :: rs, s)
  end.
Definition fresh_mixer : SpaAudioMixer :=
  mkMixer (replicate MIXER_MAX_PORTS zero_port)
    (with_mp_linked true (with_mp_flags (Z.lor SPA_PORT_INFO_FLAG_CAN_USE_BUFFERS SPA_PORT_INFO_FLAG_NO_REF) zero_port))
    0 0 (0, 0, zero_audio_raw) false false mixer_sample_host.
Definition story (ops : list (Mixer Z)) : outcome (list Z * SpaAudioMixer) := perform ops fresh_mixer.

Definition input : Z := SPA_DIRECTION_INPUT.
Definition output : Z := SPA_DIRECTION_OUTPUT.
Definition set_up (direction port io : Z) (buffers : list Z) : list (Mixer Z) :=
  [spa_audiomixer_node_port_set_io direction port (Some io);
   spa_audiomixer_node_port_set_format direction port (Some (sample_audio 44100 2));
   spa_audiomixer_node_port_use_buffers direction port buffers].
Definition two_inputs : list (Mixer Z) :=
  spa_audiomixer_node_add_port input 0 :: set_up input 0 1 [100; 101] ++
  spa_audiomixer_node_add_port input 5 :: set_up input 5 2 [200; 201] ++ set_up output 0 7 [300].

Definition memory (s : SpaAudioMixer) (p : Z) : option (list Z) :=
  b ← bufs (mx_host s) !! p; x ← mb_datas b !! 0%nat; m ← md_data x; Some (samples m).

Lemma starts : spa_audiomixer_init true mixer_sample_host = (SPA_RESULT_OK, Some fresh_mixer).
Proof. reflexivity. Qed.

Example mix_two :
  match story (two_inputs ++ [queue_up 1 0; queue_up 2 0; spa_audiomixer_node_process_input]) with
  | Done (rs, s) => last rs = Some SPA_RESULT_HAVE_BUFFER /\ memory s 300 = Some [11; -18; 30003; 32767; 9] /\
      empty (mp_pool (out_port s)) = [] /\
      ios (mx_host s) !! 7 = Some (mkPortIO (u32 SPA_RESULT_HAVE_BUFFER) 0 0 0) /\
      ios (mx_host s) !! 1 = Some (mkPortIO (u32 SPA_RESULT_OK) 0 0 0)
  | _ => False
  end.
Proof. vm_compute. by split_and!. Qed.

(** ** The theorem's hypotheses hold *)

(** The state in which [mix_output] is called. *)
Definition collected : SpaAudioMixer :=
  match story (two_inputs ++ [queue_up 1 0; queue_up 2 0; collect_ports all_ports SIZE_MAX]) with
  | Done (_, s) => s | _ => fresh_mixer end.

Definition ready_now (s : SpaAudioMixer) (n out : Z) (p : SpaAudioMixerPort) : bool :=
  mp_linked p && match mp_io p with Some q => bool_decide (is_Some (ios (mx_host s) !! q)) | None => true end &&
  match front s p with
  | Some (k, e, x, m) => negb (outbuf e =? out) && bool_decide (is_Some (mread (mp_offset p + ck_offset (md_chunk x)) (taken n p x) m)) &&
      (0 <=? mp_offset p) && (mp_offset p <=? ck_size (md_chunk x)) && (ck_size (md_chunk x) <? 2 ^ 32) && (taken n p x <=? mp_bytes p) && (mp_bytes p <? 2 ^ 64)
  | None => bool_decide (empty (mp_pool p) = [])
  end.
Lemma ready_now_ready s n out p : ready_now s n out p = true -> ready s n out p.
Proof.
  unfold ready_now. intros [[Hl Hio]%andb_prop Hf]%andb_prop. split; [done | |].
  - intros q Hq. rewrite Hq in Hio. by apply bool_decide_eq_true in Hio.
  - destruct (front s p) as [[[[k e] x] m] |]; [right | left; by apply bool_decide_eq_true in Hf].
    repeat (apply andb_prop in Hf as [Hf ?]). apply bool_decide_eq_true in H4 as [d Hd]. exists k, e, x, m, d.
    apply negb_true_iff, Z.eqb_neq in Hf. split_and!; try done; lia.
Qed.

Lemma all_ready s n out : forallb (fun p => negb (active p) || ready_now s n out p) (in_ports s) = true ->
  forall i p, in_ports s !! i = Some p -> active p = true -> ready s n out p.
Proof.
  rewrite forallb_forall. intros Hall i p Hp Hact. apply ready_now_ready. specialize (Hall p). rewrite Hact in Hall. apply Hall.
  apply list_elem_of_In. by apply list_elem_of_lookup_2 with i.
Qed.

Lemma mix_output_exact_witness :
  exists s', mix_output 8 collected = Done (SPA_RESULT_HAVE_BUFFER, s') /\
    holds 0 s' 300 (pcm [11; -18; 30003; 32767; 9]) /\ empty (mp_pool (out_port s')) = [].
Proof.
  destruct (mix_output_exact collected 7 idle 0%nat [] (mkSlot 300 false None None) (audio_buffer 0 [9; 9; 9; 9; 9])
    (mkMediaData data_MemPtr 10 (Some (pcm [9; 9; 9; 9; 9])) (mkChunk 0 10 0)) [] (pcm [9; 9; 9; 9; 9]) 8)
    as (s' & Hrun & Hh & _ & He & _).
  - by vm_compute.
  - by vm_compute.
  - split; [by vm_compute | by vm_compute | by vm_compute | by vm_compute | by split; vm_compute].
  - by vm_compute.
  - by split; vm_compute.
  - by vm_compute.
  - apply all_ready. by vm_compute.
  - exists s'. split_and!; [exact Hrun | | exact He]. exact Hh.
Defined.

(** ** What the host may see *)

(** Ports are there, and the element says there are none. *)
Example ports_uncounted :
  match story two_inputs with
  | Done (_, s) => spa_audiomixer_node_get_port_ids s 4 1 = ([0; 5], Some 0) /\ spa_audiomixer_node_get_n_ports.1.1.1 = 0
  | _ => False
  end.
Proof. vm_compute. by split_and!. Qed.

(** A port without an IO area is free: adding it again succeeds and is counted again. *)
Example added_twice :
  match story [spa_audiomixer_node_add_port input 0; spa_audiomixer_node_add_port input 0] with
  | Done (rs, s) => rs = [SPA_RESULT_OK; SPA_RESULT_OK] /\ port_count s = 2
  | _ => False
  end.
Proof. vm_compute. by split_and!. Qed.

(** Removing a port that has no buffer in its IO area counts a queued buffer less. *)
Example remove_uncounts :
  match story (two_inputs ++ [spa_audiomixer_node_remove_port input 0]) with
  | Done (rs, s) => last rs = Some SPA_RESULT_OK /\ port_queued s = -1
  | _ => False
  end.
Proof. vm_compute. by split_and!. Qed.

(** A port that got an IO area without having been added passes for a port, and its queue is
    read although it was never initialised. *)
Example never_added :
  story (set_up input 3 1 [100] ++ set_up output 0 7 [300] ++ [queue_up 1 0; spa_audiomixer_node_process_input]) = Undef.
Proof. by vm_compute. Qed.

(** Buffers given back are taken back, and the answer is that this is not implemented. *)
Example reuse_answers :
  match story (two_inputs ++ [queue_up 1 0; queue_up 2 0; spa_audiomixer_node_process_input; spa_audiomixer_node_port_reuse_buffer 0 0]) with
  | Done (rs, s) => last rs = Some SPA_RESULT_NOT_IMPLEMENTED /\ empty (mp_pool (out_port s)) = [0%nat]
  | _ => False
  end.
Proof. vm_compute. by split_and!. Qed.

(** The ids are not checked. *)
Example reuse_out_of_range : story (two_inputs ++ [spa_audiomixer_node_port_reuse_buffer 0 64]) = Undef.
Proof. by vm_compute. Qed.
Example input_id_out_of_range : story (two_inputs ++ [queue_up 1 64; spa_audiomixer_node_process_input]) = Undef.
Proof. by vm_compute. Qed.

(** When the buffers of an input are replaced, the bytes queued from the old ones still count:
    what goes out is memory nothing was written to. *)
Example stale_bytes :
  match story (spa_audiomixer_node_add_port input 0 :: set_up input 0 1 [100; 101] ++ [
    spa_audiomixer_node_port_set_io output 0 (Some 7); queue_up 1 0; spa_audiomixer_node_process_input;
    spa_audiomixer_node_port_use_buffers input 0 [100; 101]] ++ set_up output 0 7 [300] ++ [spa_audiomixer_node_process_input]) with
  | Done (rs, s) => rs !! 6%nat = Some SPA_RESULT_OUT_OF_BUFFERS /\ last rs = Some SPA_RESULT_HAVE_BUFFER /\ memory s 300 = Some [9; 9; 9; 9; 9] /\
      md_chunk <$> (bufs (mx_host s) !! 300 ≫= fun b => mb_datas b !! 0%nat) = Some (mkChunk 0 8 0)
  | _ => False
  end.
Proof. vm_compute. by split_and!. Qed.

(** Using buffers of which one has no memory fails with the entries before it in the list;
    the number of buffers is still 0, so that trying again links them a second time. *)
Example retry_links_twice :
  match story ([spa_audiomixer_node_port_set_io output 0 (Some 7); spa_audiomixer_node_port_set_format output 0 (Some (sample_audio 44100 2));
    modify (with_mx_host (mkHost (<[400 := mkMediaBuffer 1 [] [mkMediaData data_MemPtr 8 None (mkChunk 0 0 0)]]> (bufs mixer_sample_host)) (ios mixer_sample_host))) ;;; ret 0;
    spa_audiomixer_node_port_use_buffers output 0 [300; 400]]) with
  | Done (rs, s) => last rs = Some SPA_RESULT_ERROR /\ empty (mp_pool (out_port s)) = [0%nat] /\
      spa_audiomixer_node_port_use_buffers output 0 [300] s = Undef
  | _ => False
  end.
Proof. vm_compute. by split_and!. Qed.

(** A first port with an empty buffer queued is a layer: the second port is added to what the
    output buffer held. *)
Example empty_first :
  match story ((modify (with_mx_host (mkHost (<[100 := audio_buffer 0 []]> (bufs mixer_sample_host)) (ios mixer_sample_host))) ;;; ret 0) ::
    two_inputs ++ [queue_up 1 0; queue_up 2 0; spa_audiomixer_node_process_input]) with
  | Done (rs, s) => last rs = Some SPA_RESULT_HAVE_BUFFER /\ memory s 300 = Some [19; -11; 30009; 30009; 9]
  | _ => False
  end.
Proof. vm_compute. by split_and!. Qed.
