(* ===== verification/Float.v ===== *)
(** Floating-point numbers as the machine has them: binary64 and binary32, on the Standard
    Library's specification of IEEE 754 arithmetic. A [double] in memory is its bits; there is
    one NaN here, the payloads are left out. *)
From Stdlib Require Import SpecFloat.
From S2P Require Import Prelude State Defs Pod PodUtils Props.

Definition d_mul : spec_float -> spec_float -> spec_float := SFmul 53 1024.
Definition d_div : spec_float -> spec_float -> spec_float := SFdiv 53 1024.
Definition d_add : spec_float -> spec_float -> spec_float := SFadd 53 1024.
Definition d_sub : spec_float -> spec_float -> spec_float := SFsub 53 1024.
Definition d_ge (x y : spec_float) : bool := SFleb y x.
Definition d_of_Z (z : Z) : spec_float := binary_normalize 53 1024 z 0 false.

(** [(float) x] *)
Definition to_float (x : spec_float) : spec_float :=
  match x with S754_finite s m e => binary_round 24 128 s m e | _ => x end.

(** ** Bits: a sign, [ew] bits of exponent and [mw] of the mantissa *)

Definition decode (ew mw b : Z) : spec_float := float_of_bits (mw + 1) ew b.

Definition encode (ew mw : Z) (x : spec_float) : Z :=
  let sign (s : bool) := if s then 2 ^ (ew + mw) else 0 in
  let least := 2 - 2 ^ (ew - 1) - mw in
  match x with
  | S754_zero s => sign s
  | S754_infinity s => sign s + (2 ^ ew - 1) * 2 ^ mw
  | S754_nan => (2 ^ ew - 1) * 2 ^ mw + 2 ^ (mw - 1)
  | S754_finite s m e =>
      if Zpos m <? 2 ^ mw then sign s + Zpos m else sign s + (e - least + 1) * 2 ^ mw + (Zpos m - 2 ^ mw)
  end.

Definition double_of_bits : Z -> spec_float := decode 11 52.
Definition bits_of_double : spec_float -> Z := encode 11 52.
Definition bits_of_float (x : spec_float) : Z := encode 8 23 x.

Example bits_440 : bits_of_double (d_of_Z 440) = 0x407B800000000000.
Proof. by vm_compute. Qed.
Example bits_third : bits_of_double (d_div (d_of_Z 1) (d_of_Z (-3))) = 0xBFD5555555555555.
Proof. by vm_compute. Qed.
Example float_tenth : bits_of_float (to_float (d_div (d_of_Z 1) (d_of_Z 10))) = 0x3DCCCCCD.
Proof. by vm_compute. Qed.

Lemma land_mask x k : 0 <= k -> Z.land x (2 ^ k - 1) = x mod 2 ^ k.
Proof. intros Hk. rewrite <- Z.land_ones by done. f_equal. rewrite Z.ones_equiv. lia. Qed.

(** The bits of a number give it back. *)
Lemma encode_decode ew mw b : 0 < ew -> 0 < mw -> 0 <= b < 2 ^ (1 + ew + mw) -> decode ew mw b <> S754_nan -> encode ew mw (decode ew mw b) = b.
Proof.
  intros He Hm Hb. unfold decode, float_of_bits. replace (mw + 1 + ew - 1) with (ew + mw) by lia. replace (mw + 1 - 1) with mw by lia.
  replace (3 - 2 ^ (ew - 1) - (mw + 1)) with (2 - 2 ^ (ew - 1) - mw) by lia.
  rewrite !land_mask by lia. set (m := b mod 2 ^ mw). set (e := Z.shiftr b mw mod 2 ^ ew). set (s := Z.testbit b (ew + mw)).
  pose proof (Z.pow_pos_nonneg 2 mw). pose proof (Z.pow_pos_nonneg 2 ew).
  assert (0 <= m < 2 ^ mw) as Hmb by (apply Z.mod_pos_bound; lia). assert (0 <= e < 2 ^ ew) as Heb by (apply Z.mod_pos_bound; lia).
  assert (b = (if s then 2 ^ (ew + mw) else 0) + e * 2 ^ mw + m) as Hsum.
  { unfold s, e, m. rewrite Z.shiftr_div_pow2 by lia.
    pose proof (Z.div_mod b (2 ^ mw)). pose proof (Z.div_mod (b / 2 ^ mw) (2 ^ ew)).
    rewrite Z.div_div in * by lia. rewrite <- Z.pow_add_r in * by lia. rewrite (Z.add_comm mw ew) in *.
    assert (b / 2 ^ (ew + mw) = if Z.testbit b (ew + mw) then 1 else 0) as Ht.
    { rewrite Z.testbit_eqb by lia. assert (0 <= b / 2 ^ (ew + mw) < 2).
      { split; [apply Z.div_pos; lia |]. apply Z.div_lt_upper_bound; [lia |]. replace (2 ^ (ew + mw) * 2) with (2 ^ (1 + ew + mw)) by (rewrite <- Z.add_assoc, Z.pow_add_r by lia; lia). lia. }
      rewrite Z.mod_small by lia. case_if; lia. }
    rewrite Z.pow_add_r in * by lia. rewrite Ht in *. destruct (Z.testbit b (ew + mw)); nia. }
  generalize dependent s. intros s Hsum Hnan. clearbody m e. clear Hb.
  destruct (Z.eqb_spec e 0) as [-> | Hnz].
  - destruct m as [| p | p]; [| | lia]; cbn; [destruct s; lia |]. rewrite (proj2 (Z.ltb_lt _ _)) by lia. destruct s; lia.
  - destruct (Z.eqb_spec e (2 ^ ew - 1)) as [-> | Hinf].
    + destruct (Z.eqb_spec m 0) as [-> |]; [| done]. cbn. destruct s; lia.
    + destruct (m + 2 ^ mw) as [| p | p] eqn:Hp; [lia | | lia]. cbn. rewrite (proj2 (Z.ltb_ge _ _)) by lia.
      rewrite <- Hp. destruct s; nia.
Qed.

(** The integer a conversion gives: towards zero; infinities and NaN have none. *)
Definition truncate (x : spec_float) : option Z :=
  match x with
  | S754_zero _ => Some 0
  | S754_finite s m e => let v := if 0 <=? e then Zpos m * 2 ^ e else Zpos m / 2 ^ (- e) in Some (if s then - v else v)
  | _ => None
  end.
(** [(type) x] of an integer type: what it cannot represent is undefined. *)
Definition to_int (lo hi : Z) (x : spec_float) : outcome Z :=
  match truncate x with Some v => if (lo <=? v) && (v <=? hi) then Done v else Undef | None => Undef end.

Example half_down : truncate (d_mul (d_of_Z 7) (d_div (d_of_Z (-1)) (d_of_Z 2))) = Some (-3).
Proof. by vm_compute. Qed.

(** ** Multiplying by one *)

Lemma iter_pos_iter {A} (f : A -> A) n : forall x, SpecFloat.iter_pos f n x = Pos.iter f x n.
Proof.
  induction n as [n IH | n IH |]; intros x; cbn; [| by rewrite !IH | done].
  rewrite !IH. by rewrite <- !Pos.iter_swap.
Qed.

Definition shifted (p k : positive) : positive := Pos.iter xO p k.
Lemma shifted_Z p k : Zpos (shifted p k) = Zpos p * 2 ^ Zpos k.
Proof.
  unfold shifted. induction k as [|k IH] using Pos.peano_ind; [cbn; lia |]. rewrite Pos.iter_succ, Pos2Z.inj_succ, Z.pow_succ_r by lia.
  rewrite (Pos2Z.inj_xO (Pos.iter _ _ _)), IH. lia.
Qed.
Lemma shifted_digits p k : digits2_pos (shifted p k) = (digits2_pos p + k)%positive.
Proof.
  unfold shifted. induction k as [|k IH] using Pos.peano_ind; [cbn; lia |]. rewrite Pos.iter_succ. cbn. rewrite IH. lia.
Qed.
Lemma shr_shifted p k : SpecFloat.iter_pos shr_1 k (Build_shr_record (Zpos (shifted p k)) false false) = Build_shr_record (Zpos p) false false.
Proof.
  rewrite iter_pos_iter. unfold shifted. induction k as [|k IH] using Pos.peano_ind; [done |]. rewrite (Pos.iter_succ_r k _ shr_1), (Pos.iter_succ k _ xO p). exact IH.
Qed.

(** What fits the mantissa is not rounded. *)
Lemma round_exact s p e : digits2_pos p = 53%positive -> -1074 <= e <= 971 -> binary_round_aux 53 1024 s (Zpos p) e loc_Exact = S754_finite s p e.
Proof.
  intros Hp He. unfold binary_round_aux, shr_fexp, Zdigits2. rewrite Hp. unfold fexp, emin.
  replace (Z.max _ _ - e) with 0 by lia. cbn [shr shr_record_of_loc loc_of_shr_record round_nearest_even shr_m Zdigits2].
  rewrite Hp. replace (Z.max _ _ - e) with 0 by lia. cbn [shr shr_m]. by rewrite (proj2 (Z.leb_le _ _)) by lia.
Qed.
Lemma round_shifted s p k e : digits2_pos p = 53%positive -> -1074 <= e + Zpos k <= 971 ->
  binary_round_aux 53 1024 s (Zpos (shifted p k)) e loc_Exact = S754_finite s p (e + Zpos k).
Proof.
  intros Hp He. unfold binary_round_aux, shr_fexp, Zdigits2. rewrite shifted_digits, Hp. unfold fexp, emin.
  replace (Z.max _ _ - e) with (Zpos k) by lia. unfold shr, shr_record_of_loc. rewrite shr_shifted.
  cbn [loc_of_shr_record round_nearest_even shr_m]. rewrite Hp. replace (Z.max _ _ - _) with 0 by lia.
  cbn [shr_m]. by rewrite (proj2 (Z.leb_le _ _)) by lia.
Qed.

(** An integer of up to 53 bits is itself. *)
Lemma d_of_Z_exact p k : digits2_pos p = 53%positive -> Zpos k <= 52 -> forall q, shifted q k = p ->
  d_of_Z (Zpos q) = S754_finite false p (- Zpos k).
Proof.
  intros Hp Hk q Hq. unfold d_of_Z, binary_normalize, binary_round, fexp, emin.
  assert (digits2_pos q + k = 53)%positive as Hd by (rewrite <- Hp, <- Hq; symmetry; apply shifted_digits).
  unfold shl_align. replace (Z.max _ _ - 0) with (Zneg k) by lia. fold (shifted q k). rewrite Hq.
  replace (Z.max _ _) with (- Zpos k) by lia. apply round_exact; [done | lia].
Qed.

Definition one : spec_float := d_of_Z 1.
Lemma mul_one s p e : digits2_pos p = 53%positive -> -1074 <= e <= 971 -> d_mul (S754_finite s p e) one = S754_finite s p e.
Proof.
  intros Hp He. change one with (S754_finite false (shifted 1 52) (-52)). unfold d_mul, SFmul. rewrite xorb_false_r.
  assert (p * shifted 1 52 = shifted p 52)%positive as ->. { apply Pos2Z.inj. rewrite Pos2Z.inj_mul, !shifted_Z. lia. }
  rewrite round_shifted by (done || lia). f_equal. lia.
Qed.

Lemma digits_least p : 2 ^ (Zpos (digits2_pos p) - 1) <= Zpos p.
Proof.
  induction p as [p IH | p IH |]; cbn [digits2_pos]; [| | cbn; lia];
    rewrite Pos2Z.inj_succ; replace (Z.succ _ - 1) with (Z.succ (Zpos (digits2_pos p) - 1)) by lia; rewrite Z.pow_succ_r by lia; lia.
Qed.

Lemma scale_one v : 0 <= v < 2 ^ 52 -> truncate (d_mul (d_of_Z v) one) = Some v.
Proof.
  intros Hv. destruct v as [| q | q]; [done | | lia]. set (d := digits2_pos q).
  assert (Zpos d <= 52) as Hd. { pose proof (digits_least q) as Hl. fold d in Hl. destruct (Z.le_gt_cases (Zpos d) 52); [done |].
    pose proof (Z.pow_le_mono_r 2 52 (Zpos d - 1)). lia. }
  assert (exists k, Zpos k = 53 - Zpos d) as [k Hk] by (exists (Z.to_pos (53 - Zpos d)); lia).
  assert (digits2_pos (shifted q k) = 53%positive) as Hs by (rewrite shifted_digits; fold d; lia).
  rewrite (d_of_Z_exact _ k Hs ltac:(lia) q eq_refl), mul_one by (done || lia). unfold truncate.
  rewrite (proj2 (Z.leb_gt _ _)) by lia. rewrite Z.opp_involutive, shifted_Z, Z.div_mul by lia. done.
Qed.
