(* ===== verification/AudioTestSrc.v ===== *)
(** [spa/plugins/audiotestsrc/audiotestsrc.c] and [render.c]: the audio test source, an element
    with one output port that makes a sine wave, on the skeleton of TestSource.

    [sin] is a parameter. A [double] property is its bits; computations are in binary64. *)
From Stdlib Require Import SpecFloat.
From stdpp Require Import gmap.
From S2P Require Import Prelude State Defs Ringbuffer Mem Transport Pod PodUtils Props Element TestSource Float.

(** ** State *)

Class AudioSrcType := { at_prop_live : Z; at_prop_wave : Z; at_prop_freq : Z; at_prop_volume : Z; wave_sine : Z; wave_square : Z }.

Record SpaAudioTestSrcProps := mkAudioProps { ap_live : bool; ap_wave : Z; ap_freq : Z; ap_volume : Z }.

(** The functions of [sine_funcs], by the type of their samples. *)
Inductive RenderFunc := sine_int16_t | sine_int32_t | sine_float | sine_double.

Record SpaAudioInfo := mkAudioInfo { ai_media_type : Z; ai_media_subtype : Z; ai_raw : SpaAudioInfoRaw }.
(** The format and what is computed from it; where the wave is. *)
Record AudioState := mkAudioState { as_info : SpaAudioInfo; bpf : Z; render_func : option RenderFunc; accumulator : spec_float }.
Definition with_accumulator (x : spec_float) (a : AudioState) : AudioState := mkAudioState (as_info a) (bpf a) (render_func a) x.

Definition MAX_BUFFERS : nat := 16.
Definition CHECK_PORT (direction port_id : Z) : bool := (direction =? SPA_DIRECTION_OUTPUT) && (port_id =? 0).

#[export] Instance audio_kind `{ElementType} : SourceKind SpaAudioTestSrcProps AudioState := {
  live := ap_live;
  check_port _ := CHECK_PORT;
  remember b := (spa_buffer_find_meta b meta_Header, spa_buffer_find_meta b meta_Ringbuffer)
}.

Abbreviation SpaAudioTestSrc := (Source SpaAudioTestSrcProps AudioState).
Abbreviation ATS := (ST SpaAudioTestSrc).

(** ** render.c *)

(** [M_PI + M_PI] *)
Definition M_PI : spec_float := double_of_bits 0x400921FB54442D18.
Definition M_PI_M2 : spec_float := d_add M_PI M_PI.

(** [(type) x] as it is stored. *)
Definition sample_bytes (f : RenderFunc) (x : spec_float) : outcome bytes :=
  match f with
  | sine_int16_t => let* v := to_int (- 2 ^ 15) (2 ^ 15 - 1) x in Done (le 2 v)
  | sine_int32_t => let* v := to_int (- 2 ^ 31) (2 ^ 31 - 1) x in Done (le 4 v)
  | sine_float => Done (le 4 (bits_of_float (to_float x)))
  | sine_double => Done (le 8 (bits_of_double x))
  end.
Definition sample_size (f : RenderFunc) : Z := match f with sine_int16_t => 2 | sine_int32_t | sine_float => 4 | sine_double => 8 end.
Definition scale (f : RenderFunc) : spec_float :=
  match f with sine_int16_t => d_of_Z 32767 | sine_int32_t => d_of_Z 2147483647 | sine_float | sine_double => d_of_Z 1 end.

Section Render.
Context (sin : spec_float -> spec_float).

Definition advance (step acc : spec_float) : spec_float :=
  let acc := d_add acc step in if d_ge acc M_PI_M2 then d_sub acc M_PI_M2 else acc.

(** The channels of one frame. *)
Fixpoint put_channels (c : nat) (f : RenderFunc) (x : spec_float) (off : Z) (m : bytes) : outcome bytes :=
  match c with
  | O => Done m
  | S c =>
      let* w := sample_bytes f x in
      let* m := of_option (mwrite off w m) in
      put_channels c f x (off + sample_size f) m
  end.

(** The loop over the frames; [n] are left. *)
Fixpoint put_frames (n : nat) (f : RenderFunc) (channels : nat) (step amp acc : spec_float) (off : Z) (m : bytes) : outcome (spec_float * bytes) :=
  match n with
  | O => Done (acc, m)
  | S n =>
      let acc := advance step acc in
      let* m := put_channels channels f (d_mul (sin acc) amp) off m in
      put_frames n f channels step amp acc (off + Z.of_nat channels * sample_size f) m
  end.

Definition step_of (p : SpaAudioTestSrcProps) (raw : SpaAudioInfoRaw) : spec_float :=
  d_div (d_mul M_PI_M2 (double_of_bits (ap_freq p))) (d_of_Z (ar_rate raw)).
Definition amp_of (f : RenderFunc) (p : SpaAudioTestSrcProps) : spec_float := d_mul (double_of_bits (ap_volume p)) (scale f).
(** [channels] is an [int]. *)
Definition channels_of (raw : SpaAudioInfoRaw) : nat := Z.to_nat (i32 (ar_channels raw)).

(** [samples] is at [off]; more frames than an [int] counts are undefined. *)
Definition audio_test_src_create_sine (f : RenderFunc) (p : SpaAudioTestSrcProps) (raw : SpaAudioInfoRaw) (acc : spec_float) (off n_samples : Z) (m : bytes) :
    outcome (spec_float * bytes) :=
  if n_samples <? 2 ^ 31 then put_frames (Z.to_nat n_samples) f (channels_of raw) (step_of p raw) (amp_of f p) acc off m else Undef.
End Render.

Section Ops.
Context `{ElementType} `{AudioFormatType} `{AudioSrcType} `{Heap}.
Context (sin : spec_float -> spec_float).

(** ** Properties *)

Definition reset_audiotestsrc_props : SpaAudioTestSrcProps :=
  mkAudioProps true wave_sine (bits_of_double (d_of_Z 440)) (bits_of_double (d_of_Z 1)).

Definition spa_audiotestsrc_node_get_props : ATS (Z * bytes) :=
  s <- gets id ;;
  p <- lift (
    let d z := PDouble (bits_of_double (d_of_Z z)) in
    let* (b, ref) := spa_pod_builder_props (spa_pod_builder_init (mkFixed (fresh 512) 512)) t_props (
      PROP at_prop_live (PBool (if ap_live (props s) then 1 else 0)) ++
      PROP_EN at_prop_wave [PId (ap_wave (props s)); PId wave_sine; PId wave_square] ++
      PROP_MM at_prop_freq (PDouble (ap_freq (props s))) (d 0) (d 50000000) ++
      PROP_MM at_prop_volume (PDouble (ap_volume (props s))) (d 0) (d 10)) in
    SPA_POD_BUILDER_DEREF b ref) ;;
  ret (SPA_RESULT_OK, p).

Definition spa_audiotestsrc_node_set_props (new : option bytes) : ATS Z :=
  s <- gets id ;;
  p <- match new with
       | None => ret reset_audiotestsrc_props
       | Some new =>
           gs <- lift (spa_props_query new [(at_prop_live, SPA_POD_TYPE_BOOL); (at_prop_wave, SPA_POD_TYPE_ID);
                                            (at_prop_freq, SPA_POD_TYPE_DOUBLE); (at_prop_volume, SPA_POD_TYPE_DOUBLE)]) ;;
           live <- lift (stored_bool gs 0 (ap_live (props s))) ;;
           ret (mkAudioProps live (stored_word gs 1 (ap_wave (props s))) (stored_double gs 2 (ap_freq (props s))) (stored_double gs 3 (ap_volume (props s))))
       end ;;
  modify (with_src_props p) ;;;
  update_live ;;;
  ret SPA_RESULT_OK.

(** ** Making a buffer *)

Definition SAMPLES_TO_TIME (rate n : Z) : outcome Z :=
  if rate =? 0 then Undef else Done (u64 (n * SPA_NSEC_PER_SEC) / rate).
Definition BYTES_TO_SAMPLES (bpf b : Z) : outcome Z := if bpf =? 0 then Undef else Done (b / bpf).
Definition BYTES_TO_TIME (bpf rate b : Z) : outcome Z := let* n := BYTES_TO_SAMPLES bpf b in SAMPLES_TO_TIME rate n.

(** How much the host asks for, at most; the comparisons are unsigned. *)
Definition requested (io : PortIO) (maxsize : Z) : Z :=
  let n_bytes := i32 maxsize in
  if io_min_size io =? 0 then n_bytes
  else
    let n_bytes := i32 (SPA_MIN (u32 n_bytes) (io_min_size io)) in
    if io_max_size io <? u32 n_bytes then i32 (io_max_size io) else n_bytes.

(** [this->render_func (this, data + off, n)] *)
Definition render (e : Slot) (off n : Z) : ATS unit :=
  s <- gets id ;;
  b <- get_buf (outbuf e) ;;
  d <- lift (of_option (mb_datas b !! 0%nat)) ;;
  let a := current_format s in
  f <- lift (of_option (render_func a)) ;;
  '(acc, m) <- lift (audio_test_src_create_sine sin f (props s) (ai_raw (as_info a)) (accumulator a) off n (default [] (md_data d))) ;;
  modify (with_current_format (with_accumulator acc a)) ;;;
  match md_data d with
  | None => ret tt
  | Some _ => put_buf (outbuf e) (with_datas (<[0%nat := with_md_data m d]> (mb_datas b)) b)
  end.

(** Into the ring of the buffer, in two parts where it wraps around: the number of samples. *)
Definition render_ring (e : Slot) (k : nat) (n_bytes : Z) : ATS Z :=
  s <- gets id ;;
  b <- get_buf (outbuf e) ;;
  m <- lift (of_option (mb_metas b !! k)) ;;
  r <- lift (load_ring 0 (mm_data m)) ;;
  let '(filled, index) := spa_ringbuffer_get_write_index r in
  let avail := i32 (u32 (Ringbuffer.size r - filled)) in
  let n_bytes := SPA_MIN avail n_bytes in
  let bpf := bpf (current_format s) in
  n_samples <- lift (BYTES_TO_SAMPLES bpf (u64 n_bytes)) ;;
  let offset := Z.land index (mask r) in
  (if u32 (offset + n_bytes) >? Ringbuffer.size r then
     let l0 := u32 (Ringbuffer.size r - offset) in
     render e offset (l0 / bpf) ;;;
     render e 0 (u32 (n_bytes - l0) / bpf)
   else render e offset (u64 (i32 n_samples))) ;;;
  b <- get_buf (outbuf e) ;;
  m <- lift (of_option (mb_metas b !! k)) ;;
  d <- lift (of_option (mwrite 4 (le32 (writeindex (spa_ringbuffer_write_update r (index + n_bytes)))) (mm_data m))) ;;
  put_buf (outbuf e) (with_metas (<[k := mkMediaMeta (mm_type m) d]> (mb_metas b)) b) ;;;
  ret (i32 n_samples).

(** To the start of the data, and the chunk says where it is. *)
Definition render_plain (e : Slot) (n_bytes : Z) : ATS Z :=
  s <- gets id ;;
  n_samples <- lift (BYTES_TO_SAMPLES (bpf (current_format s)) (u64 n_bytes)) ;;
  render e 0 (u64 (i32 n_samples)) ;;;
  b <- get_buf (outbuf e) ;;
  d <- lift (of_option (mb_datas b !! 0%nat)) ;;
  put_buf (outbuf e) (with_datas (<[0%nat := with_md_chunk (mkChunk 0 (u32 n_bytes) 0) d]> (mb_datas b)) b) ;;;
  ret (i32 n_samples).

Definition audiotestsrc_make_buffer : ATS Z :=
  next <- next_buffer ;;
  match next with
  | None => ret SPA_RESULT_OUT_OF_BUFFERS
  | Some (_, e) =>
      s <- gets id ;;
      b <- get_buf (outbuf e) ;;
      d <- lift (of_option (mb_datas b !! 0%nat)) ;;
      a <- io_at (io s) ;;
      let n_bytes := requested a (md_maxsize d) in
      n_samples <- (match slot_rb e with Some k => render_ring e k n_bytes | None => render_plain e n_bytes end) ;;
      write_header e ;;;
      s <- gets id ;;
      let n := u64 (count s + n_samples) in
      elapsed <- lift (SAMPLES_TO_TIME (ar_rate (ai_raw (as_info (current_format s)))) n) ;;
      deliver e n elapsed
  end.

Definition send_have_output : ATS unit :=
  s <- gets id ;; when (have_output s) (modify (with_signalled (signalled s + 1))).
Definition audiotestsrc_on_output : ATS unit :=
  res <- audiotestsrc_make_buffer ;; when (res =? SPA_RESULT_HAVE_BUFFER) send_have_output.

(** ** The node *)

Definition spa_audiotestsrc_node_send_command (command : bytes) (now : Z) : ATS Z := node_send_command command now.
Definition spa_audiotestsrc_node_set_callbacks (callback : bool) : ATS Z := node_set_callbacks callback.

Definition possible_format : outcome bytes :=
  let* (b, ref) := spa_pod_builder_format (spa_pod_builder_init (mkFixed (fresh 256) 256)) t_format media_audio subtype_raw (
    PROP_U_EN fa_format [PId audio_S16; PId audio_S16; PId audio_S32; PId audio_F32; PId audio_F64] ++
    PROP_U_MM fa_rate (PInt 44100) (PInt 1) (PInt INT32_MAX) ++
    PROP_U_MM fa_channels (PInt 2) (PInt 1) (PInt INT32_MAX)) in
  SPA_POD_BUILDER_DEREF b ref.

Definition spa_audiotestsrc_node_port_enum_formats (direction port_id : Z) (filter : option bytes) (index : Z) : ATS (Z * option bytes) :=
  if negb (CHECK_PORT direction port_id) then ret (SPA_RESULT_INVALID_PORT, None)
  else
    let start := match filter with Some _ => 0 | None => index end in
    lift (enum_one_format possible_format 1024 2 filter index start start).

(** What the format asks of the buffers. *)
Definition update_params : ATS unit :=
  s <- gets id ;;
  let a := current_format s in
  latency <- lift (BYTES_TO_TIME (bpf a) (ar_rate (ai_raw (as_info a))) 1024) ;;
  '(p0, p1) <- lift (
    let* (b, r0) := spa_pod_builder_object (spa_pod_builder_init (mkFixed (fresh 1024) 1024)) 0 alloc_Buffers (
      PROP alloc_size (PInt (1024 * bpf a)) ++
      PROP alloc_stride (PInt (bpf a)) ++
      PROP_U_MM alloc_buffers (PInt 32) (PInt 2) (PInt 32) ++
      PROP alloc_align (PInt 16)) in
    let* (b, r1) := spa_pod_builder_object b 0 alloc_MetaEnable (
      PROP alloc_meta_type (PId meta_Header) ++
      PROP alloc_meta_size (PInt 24)) in
    let* p0 := SPA_POD_BUILDER_DEREF b r0 in
    let* p1 := SPA_POD_BUILDER_DEREF b r1 in
    Done (p0, p1)) ;;
  modify (fun s => with_info (mkElementInfo (ei_flags (info s)) [p0; p1] (u64 (-1)) latency) s).

(** The function and the size of a sample. *)
Definition sine_funcs (format : Z) : option RenderFunc :=
  if format =? audio_S16 then Some sine_int16_t
  else if format =? audio_S32 then Some sine_int32_t
  else if format =? audio_F32 then Some sine_float
  else if format =? audio_F64 then Some sine_double
  else None.

Definition spa_audiotestsrc_node_port_set_format (direction port_id : Z) (format : option bytes) : ATS Z :=
  if negb (CHECK_PORT direction port_id) then ret SPA_RESULT_INVALID_PORT
  else
    match format with
    | None => modify (with_have_format false) ;;; clear_buffers ;;; ret SPA_RESULT_OK
    | Some format =>
        media <- lift (SPA_FORMAT_MEDIA_TYPE format) ;;
        sub <- lift (SPA_FORMAT_MEDIA_SUBTYPE format) ;;
        if negb (media =? media_audio) || negb (sub =? subtype_raw) then ret SPA_RESULT_INVALID_MEDIA_TYPE
        else
          raw <- lift (spa_format_audio_raw_parse format zero_audio_raw) ;;
          match sine_funcs (ar_format raw) with
          | None => ret SPA_RESULT_INVALID_MEDIA_TYPE
          | Some f =>
              modify (fun s => with_current_format (mkAudioState (mkAudioInfo media sub raw) (u32 (sample_size f * ar_channels raw)) (Some f)
                (accumulator (current_format s))) s) ;;;
              modify (with_have_format true) ;;;
              update_params ;;;
              ret SPA_RESULT_OK
          end
    end.

Definition spa_audiotestsrc_node_port_get_format (direction port_id : Z) : ATS (Z * option bytes) :=
  s <- gets id ;;
  if negb (CHECK_PORT direction port_id) then ret (SPA_RESULT_INVALID_PORT, None)
  else if negb (have_format s) then ret (SPA_RESULT_NO_FORMAT, None)
  else
    let raw := ai_raw (as_info (current_format s)) in
    f <- lift (
      let* (b, ref) := spa_pod_builder_format (spa_pod_builder_init (mkFixed (fresh 1024) 1024)) t_format media_audio subtype_raw (
        PROP fa_format (PId (ar_format raw)) ++ PROP fa_rate (PInt (ar_rate raw)) ++ PROP fa_channels (PInt (ar_channels raw))) in
      SPA_POD_BUILDER_DEREF b ref) ;;
    ret (SPA_RESULT_OK, Some f).

Definition spa_audiotestsrc_node_port_get_info (direction port_id : Z) : ATS (Z * option ElementInfo) := port_get_info direction port_id.
Definition spa_audiotestsrc_node_port_use_buffers (direction port_id : Z) (buffers : list Z) : ATS Z :=
  port_use_buffers direction port_id buffers.
Definition spa_audiotestsrc_node_port_alloc_buffers (direction port_id : Z) : ATS Z := port_alloc_buffers direction port_id.

Definition spa_audiotestsrc_node_port_set_io (direction port_id : Z) (p : option Z) : ATS Z :=
  if negb (CHECK_PORT direction port_id) then ret SPA_RESULT_INVALID_PORT
  else modify (with_src_io p) ;;; ret SPA_RESULT_OK.

Definition spa_audiotestsrc_node_port_reuse_buffer (port_id buffer_id : Z) : ATS Z := port_reuse_buffer port_id buffer_id.
Definition spa_audiotestsrc_node_process_output : ATS Z := node_process_output audiotestsrc_make_buffer.

(** The rest is not implemented. *)
Definition spa_audiotestsrc_node_add_port : Z := SPA_RESULT_NOT_IMPLEMENTED.
Definition spa_audiotestsrc_node_remove_port : Z := SPA_RESULT_NOT_IMPLEMENTED.
Definition spa_audiotestsrc_node_port_get_props : Z := SPA_RESULT_NOT_IMPLEMENTED.
Definition spa_audiotestsrc_node_port_set_props : Z := SPA_RESULT_NOT_IMPLEMENTED.
Definition spa_audiotestsrc_node_port_send_command : Z := SPA_RESULT_NOT_IMPLEMENTED.
Definition spa_audiotestsrc_node_process_input : Z := SPA_RESULT_NOT_IMPLEMENTED.

(** ** The clock and the handle *)

(** The rate, the ticks and the time. *)
Definition spa_audiotestsrc_clock_get_time (now : Z) : Z * Z * Z := (SPA_NSEC_PER_SEC, i64 now, i64 now).

(** The interface found: the node, or the clock. *)
Inductive audio_interface := audio_node | audio_clock.
Definition spa_audiotestsrc_get_interface (interface_id : Z) : Z * option audio_interface :=
  if interface_id =? t_node then (SPA_RESULT_OK, Some audio_node)
  else if interface_id =? t_clock then (SPA_RESULT_OK, Some audio_clock)
  else (SPA_RESULT_UNKNOWN_INTERFACE, None).

(** [map] and [loop]: whether the host supports a type map and a data loop. The memory of the
    handle is zero. *)
Definition audiotestsrc_init (map loop : bool) (h : Host) : Z * option SpaAudioTestSrc :=
  if negb map then (SPA_RESULT_ERROR, None)
  else
    let p := reset_audiotestsrc_props in
    let flags := Z.lor SPA_PORT_INFO_FLAG_CAN_USE_BUFFERS SPA_PORT_INFO_FLAG_NO_REF in
    let flags := if ap_live p then Z.lor flags SPA_PORT_INFO_FLAG_LIVE else flags in
    (SPA_RESULT_OK, Some (mkSource p false loop None (mkElementInfo flags [] 0 0) None false
      (mkAudioState (mkAudioInfo 0 0 zero_audio_raw) 0 None (S754_zero false)) (pool_init MAX_BUFFERS) false 0 0 0 h 0)).

(** The interfaces the factory lists. *)
Definition audiotestsrc_enum_interface_info (index : Z) : Z * option audio_interface :=
  if index =? 0 then (SPA_RESULT_OK, Some audio_node) else (SPA_RESULT_ENUM_END, None).
End Ops.
