(* ===== verification/AudioTheory.v ===== *)
(** What the audio test source makes: the samples of a wave that goes on from buffer to buffer,
    at the times its rate says. *)
From Stdlib Require Import SpecFloat.
From stdpp Require Import gmap.
From S2P Require Import Prelude State Defs Pod PodUtils Props Element ElementTheory TestSource SourceTheory Float AudioTestSrc.

Lemma zlen_nil_inv {A} (l : list A) : zlen l = 0 -> l = [].
Proof. destruct l; [done |]. rewrite zlen_cons. pose proof (zlen_nonneg l). lia. Qed.
Lemma zlen_concat_replicate {A} n (l : list A) : zlen (concat (replicate n l)) = Z.of_nat n * zlen l.
Proof. induction n as [|n IH]; [done |]. cbn [replicate concat]. rewrite zlen_app, IH. lia. Qed.

(** ** The wave *)

Section Wave.
Context (sin : spec_float -> spec_float) (f : RenderFunc) (channels : nat) (step amp : spec_float).

(** Where the wave is after [k] frames. *)
Definition phase (acc : spec_float) (k : nat) : spec_float := Nat.iter k (advance step) acc.
(** The frame at a phase: the same sample on every channel. *)
Definition frame (x : spec_float) : bytes :=
  match sample_bytes f (d_mul (sin x) amp) with Done w => concat (replicate channels w) | _ => [] end.
(** The next [n] frames. *)
Definition wave (acc : spec_float) (n : nat) : bytes := flat_map (fun k => frame (phase acc (S k))) (seq 0 n).
(** No sample of them is out of the range of its type. *)
Definition in_range (acc : spec_float) (n : nat) : Prop :=
  forall k, (k < n)%nat -> exists w, sample_bytes f (d_mul (sin (phase acc (S k))) amp) = Done w.

Lemma phase_shift acc k : phase acc (S k) = phase (advance step acc) k.
Proof. apply Nat.iter_succ_r. Qed.

Lemma wave_S acc n : wave acc (S n) = frame (advance step acc) ++ wave (advance step acc) n.
Proof.
  unfold wave. cbn [seq flat_map]. f_equal. rewrite <- seq_shift, !flat_map_concat_map, map_map. f_equal.
  apply map_ext. intros k. by rewrite phase_shift.
Qed.

(** The wave goes on: what is made in two parts is what is made at once. *)
Lemma wave_app n : forall acc m, wave acc (n + m) = wave acc n ++ wave (phase acc n) m.
Proof.
  induction n as [|n IH]; intros acc m; [done |]. cbn [Nat.add]. rewrite !wave_S, IH, <- app_assoc, phase_shift. done.
Qed.

Lemma in_range_S acc n : in_range acc (S n) ->
  (exists w, sample_bytes f (d_mul (sin (advance step acc)) amp) = Done w) /\ in_range (advance step acc) n.
Proof.
  intros Hr. split; [by apply (Hr 0%nat); lia |]. intros k Hk. rewrite <- phase_shift. apply Hr. lia.
Qed.

Lemma sample_bytes_length x w : sample_bytes f x = Done w -> zlen w = sample_size f.
Proof.
  destruct f; cbn; intros Hw; [| | by injection Hw as <- ..];
    (destruct (to_int _ _ x) as [v | |]; [| done..]); cbn in Hw; by injection Hw as <-.
Qed.

Lemma put_channels_run x w c : sample_bytes f x = Done w -> forall a y z, zlen y = Z.of_nat c * sample_size f ->
  put_channels c f x (zlen a) (a ++ y ++ z) = Done (a ++ concat (replicate c w) ++ z).
Proof.
  intros Hw. pose proof (sample_bytes_length _ _ Hw) as Hlen. induction c as [|c IH]; intros a y z Hy.
  { rewrite (zlen_nil_inv y) by lia. done. }
  cbn [put_channels]. rewrite Hw. cbn [obind]. destruct (split_block (sample_size f) y) as (y0 & y1 & -> & H0 & H1); [destruct f; cbn in *; lia |].
  rewrite <- app_assoc, mwrite_app by lia. cbn [of_option obind].
  rewrite <- Hlen, <- zlen_app, app_assoc, IH by lia. cbn [replicate concat]. by rewrite <- !app_assoc.
Qed.

Lemma put_frames_run n : forall acc a y z, in_range acc n -> zlen y = Z.of_nat n * (Z.of_nat channels * sample_size f) ->
  put_frames sin n f channels step amp acc (zlen a) (a ++ y ++ z) = Done (phase acc n, a ++ wave acc n ++ z).
Proof.
  induction n as [|n IH]; intros acc a y z Hr Hy.
  { rewrite (zlen_nil_inv y) by lia. done. }
  apply in_range_S in Hr as [[w Hw] Hr]. cbn [put_frames]. set (size := Z.of_nat channels * sample_size f) in *.
  assert (0 <= size) as Hs by (unfold size; destruct f; cbn; lia).
  destruct (split_block size y) as (y0 & y1 & -> & H0 & H1); [nia |].
  rewrite <- app_assoc, (put_channels_run _ w) by (done || unfold size in *; lia). cbn [obind].
  assert (zlen (concat (replicate channels w)) = size) as Hlen.
  { rewrite zlen_concat_replicate. rewrite (sample_bytes_length _ _ Hw). unfold size. lia. }
  rewrite <- Hlen, <- zlen_app, app_assoc, IH by (done || nia). rewrite phase_shift, wave_S. unfold frame at 1. rewrite Hw. by rewrite <- !app_assoc.
Qed.

Lemma wave_length acc n : in_range acc n -> zlen (wave acc n) = Z.of_nat n * (Z.of_nat channels * sample_size f).
Proof.
  revert acc. induction n as [|n IH]; intros acc Hr; [done |]. apply in_range_S in Hr as [[w Hw] Hr].
  rewrite wave_S, zlen_app, IH by done. unfold frame. rewrite Hw, zlen_concat_replicate, (sample_bytes_length _ _ Hw). lia.
Qed.
End Wave.

(** ** A buffer *)

Section Buffer.
Context `{ElementType} `{AudioFormatType} `{AudioSrcType} `{Heap}.
Context (sin : spec_float -> spec_float).
Implicit Types (s : SpaAudioTestSrc) (b : MediaBuffer) (e : Slot) (f : RenderFunc).

Definition raw s : SpaAudioInfoRaw := ai_raw (as_info (current_format s)).

(** The next [n] frames of the wave, where it is then, and that they are in range. *)
Definition next_wave s f (n : nat) : bytes :=
  wave sin f (channels_of (raw s)) (step_of (props s) (raw s)) (amp_of f (props s)) (accumulator (current_format s)) n.
Definition next_phase s (n : nat) : spec_float := phase (step_of (props s) (raw s)) (accumulator (current_format s)) n.
Definition wave_in_range s f (n : nat) : Prop :=
  in_range sin f (step_of (props s) (raw s)) (amp_of f (props s)) (accumulator (current_format s)) n.

(** The next buffer: the first free one, without a ring, with its memory and room for the
    header if it has one; and the format that was set. *)
Record next_audio s (i : nat) (l : list nat) e b (d : MediaData) (r : list MediaData) (m : bytes) f : Prop := {
  na_pool : pool_ok MAX_BUFFERS (pool s);
  na_free : empty (pool s) = i :: l;
  na_entry : slots (pool s) !! i = Some e;
  na_plain : slot_rb e = None;
  na_buffer : bufs (host s) !! outbuf e = Some b;
  na_header : slot_h e = spa_buffer_find_meta b meta_Header;
  na_room : forall k, slot_h e = Some k -> exists h, mb_metas b !! k = Some h /\ 24 <= zlen (mm_data h);
  na_data : mb_datas b = d :: r /\ md_data d = Some m;
  na_func : render_func (current_format s) = Some f;
  na_channels : 0 < ar_channels (raw s) < 2 ^ 28;
  na_bpf : bpf (current_format s) = sample_size f * ar_channels (raw s);
  na_rate : ar_rate (raw s) <> 0
}.

Lemma i32_bounds z : - 2 ^ 31 <= i32 z < 2 ^ 31.
Proof. unfold i32. pose proof (Z.mod_pos_bound (z + 2 ^ 31) (2 ^ 32)). lia. Qed.

Lemma requested_lt a size : requested a size < 2 ^ 31.
Proof.
  unfold requested. cbv zeta. pose proof (i32_bounds size). pose proof (i32_bounds (io_max_size a)).
  pose proof (i32_bounds (SPA_MIN (u32 (i32 size)) (io_min_size a))). repeat case_if; lia.
Qed.

Lemma render_run s e b d r m f n : bufs (host s) !! outbuf e = Some b -> mb_datas b = d :: r -> md_data d = Some m ->
  render_func (current_format s) = Some f -> 0 <= n < 2 ^ 31 -> wave_in_range s f (Z.to_nat n) ->
  n * (Z.of_nat (channels_of (raw s)) * sample_size f) <= zlen m ->
  render sin e 0 n s = Done (tt,
    with_host (with_buf (outbuf e) (with_datas (with_md_data (next_wave s f (Z.to_nat n) ++
        drop (Z.to_nat (n * (Z.of_nat (channels_of (raw s)) * sample_size f))) m) d :: r) b) (host s))
      (with_current_format (with_accumulator (next_phase s (Z.to_nat n)) (current_format s)) s)).
Proof.
  intros Hb Hd Hm Hf Hn Hr Hroom. set (size := Z.of_nat (channels_of (raw s)) * sample_size f) in *.
  assert (0 <= size) by (unfold size; destruct f; cbn; lia).
  unfold render. run_step. unfold id. run (get_buf_run s _ b Hb). rewrite Hd. cbn [lookup list_lookup of_option]. run_step. rewrite Hf. run_step.
  rewrite Hm. cbn [default]. unfold audio_test_src_create_sine. rewrite (proj2 (Z.ltb_lt _ _)) by lia. fold (raw s).
  pose proof (put_frames_run sin f (channels_of (raw s)) (step_of (props s) (raw s)) (amp_of f (props s)) (Z.to_nat n) (accumulator (current_format s))
    [] (take (Z.to_nat (n * size)) m) (drop (Z.to_nat (n * size)) m) Hr) as Hrun.
  rewrite take_drop in Hrun. cbn [app] in Hrun. change (zlen []) with 0 in Hrun. rewrite Hrun.
  2: { rewrite zlen_take. fold size. rewrite !Z2Nat.id by nia. nia. }
  run_step. unfold put_buf. run_step. done.
Qed.

Lemma render_plain_run s e b d r m f n_bytes : bufs (host s) !! outbuf e = Some b -> mb_datas b = d :: r -> md_data d = Some m ->
  render_func (current_format s) = Some f -> 0 < ar_channels (raw s) < 2 ^ 28 -> bpf (current_format s) = sample_size f * ar_channels (raw s) ->
  0 <= n_bytes < 2 ^ 31 -> n_bytes <= zlen m ->
  let n := n_bytes / bpf (current_format s) in
  wave_in_range s f (Z.to_nat n) ->
  render_plain sin e n_bytes s = Done (n,
    with_host (with_buf (outbuf e) (with_datas (mkMediaData (md_type d) (md_maxsize d)
        (Some (next_wave s f (Z.to_nat n) ++ drop (Z.to_nat (n * bpf (current_format s))) m)) (mkChunk 0 n_bytes 0) :: r) b) (host s))
      (with_current_format (with_accumulator (next_phase s (Z.to_nat n)) (current_format s)) s)).
Proof.
  intros Hb Hd Hm Hf Hch Hbpf Hn Hroom n Hr.
  assert (Z.of_nat (channels_of (raw s)) * sample_size f = bpf (current_format s)) as Hsize.
  { unfold channels_of. rewrite i32_small by lia. rewrite Z2Nat.id by lia. lia. }
  assert (0 < bpf (current_format s)) as Hpos by (rewrite Hbpf; destruct f; cbn; lia).
  assert (0 <= n <= n_bytes) as Hnn by (split; [apply Z.div_pos; lia | apply Z.div_le_upper_bound; nia]).
  assert (n * bpf (current_format s) <= n_bytes) by (unfold n; rewrite Z.mul_comm; apply Z.mul_div_le; lia).
  unfold render_plain. run_step. unfold id, BYTES_TO_SAMPLES. rewrite (proj2 (Z.eqb_neq _ _)) by lia. run_step.
  rewrite (u64_small n_bytes) by (unfold is_u64; lia). fold n. rewrite (i32_small n), (u64_small n) by (unfold is_u64; lia).
  pose proof (render_run s e b d r m f n Hb Hd Hm Hf ltac:(lia) Hr ltac:(rewrite Hsize; lia)) as Hrun. rewrite Hsize in Hrun. run Hrun.
  set (b1 := with_datas _ b). set (s1 := with_host _ _).
  assert (bufs (host s1) !! outbuf e = Some b1) as Hb1 by apply lookup_insert_eq.
  run (get_buf_run s1 _ b1 Hb1). cbn [mb_datas b1 with_datas lookup list_lookup of_option]. run_step. unfold put_buf. run_step.
  rewrite (u32_small n_bytes) by (unfold is_u32; lia). unfold s1, with_buf. cbn. by rewrite insert_insert_eq.
Qed.

(** The time of sample [n], after the start: 64 bits for the product. *)
Definition sample_time s (n : Z) : Z := u64 (n * SPA_NSEC_PER_SEC) / ar_rate (raw s).
(** The time of the next buffer is that of its first sample. *)
Definition on_time s : Prop := 0 <= count s < 2 ^ 64 /\ elapsed_time s = sample_time s (count s).

(** The number and the time that the header of a buffer gives. *)
Definition header_says (e : Slot) b (seq pts : Z) : Prop :=
  forall k, slot_h e = Some k -> exists h, mb_metas b !! k = Some h /\ load32 4 (mm_data h) = Some seq /\ load64 8 (mm_data h) = Some pts.

Lemma with_header_says s e b : slot_h e = spa_buffer_find_meta b meta_Header ->
  (forall k, slot_h e = Some k -> exists h, mb_metas b !! k = Some h /\ 24 <= zlen (mm_data h)) ->
  header_says e (with_header s b) (u32 (count s)) (u64 (start_time s + elapsed_time s)).
Proof.
  intros Hh Hroom k Hk. destruct (Hroom k Hk) as (h & Hm & Hl). unfold with_header. rewrite <- Hh, Hk, Hm. cbn [with_metas mb_metas].
  eexists. rewrite list_lookup_insert_eq by (by eapply lookup_lt_Some). split; [done |]. cbn [mm_data]. unfold header_bytes.
  assert (zlen (take 4 (mm_data h)) = 4) as H4 by (rewrite zlen_take; lia). split.
  - by rewrite load32_app by done.
  - rewrite (app_assoc (take 4 _)). rewrite load64_app by (rewrite zlen_app, H4, zlen_le32; done). unfold u64. by rewrite Z.mod_mod.
Qed.

Lemma audio_buffer_run s p x i l e b d r m f : next_audio s i l e b d r m f -> io s = Some p -> ios (host s) !! p = Some x ->
  (waits s = true -> timer s <> None) ->
  let n_bytes := requested x (md_maxsize d) in
  let n := n_bytes / bpf (current_format s) in
  0 <= n_bytes -> n_bytes <= zlen m -> wave_in_range s f (Z.to_nat n) ->
  exists b' s', audiotestsrc_make_buffer sin s = Done (SPA_RESULT_HAVE_BUFFER, s') /\
    bufs (host s') = <[outbuf e := b']> (bufs (host s)) /\ mb_id b' = mb_id b /\ mb_metas b' = mb_metas (with_header s b) /\
    mb_datas b' = mkMediaData (md_type d) (md_maxsize d)
      (Some (next_wave s f (Z.to_nat n) ++ drop (Z.to_nat (n * bpf (current_format s))) m)) (mkChunk 0 n_bytes 0) :: r /\
    props s' = props s /\ current_format s' = with_accumulator (next_phase s (Z.to_nat n)) (current_format s) /\ empty (pool s') = l /\
    header_says e b' (u32 (count s)) (u64 (start_time s + elapsed_time s)) /\ start_time s' = start_time s /\
    count s' = u64 (count s + n) /\ elapsed_time s' = sample_time s (u64 (count s + n)) /\ timer s' = next_time s' /\
    ios (host s') !! p = Some (mkPortIO (u32 SPA_RESULT_HAVE_BUFFER) (mb_id b) (io_min_size x) (io_max_size x)).
Proof.
  intros [Hpool Hfree Hi Hplain Hb Hh Hroom [Hd Hm] Hf Hch Hbpf Hrate] Hp Hx Ht n_bytes n Hn0 Hnm Hr.
  pose proof (requested_lt x (md_maxsize d)) as Hlt. fold n_bytes in Hlt.
  assert (0 < bpf (current_format s)) as Hpos by (rewrite Hbpf; destruct f; cbn; lia).
  assert (0 <= n) as Hnn by (apply Z.div_pos; lia).
  destruct (next_buffer_run _ s i l Hpool Hfree Ht) as (e0 & Hi0 & _ & Hnext & _). rewrite Hi in Hi0. injection Hi0 as <-.
  set (e' := with_outstanding true e) in *. set (s1 := with_pool _ (unarmed s)) in Hnext.
  assert (host s1 = host s /\ current_format s1 = current_format s /\ props s1 = props s /\ io s1 = io s /\ count s1 = count s /\
    start_time s1 = start_time s /\ elapsed_time s1 = elapsed_time s /\ empty (pool s1) = l /\ have_output s1 = have_output s) as (Hho & Hcf & Hpr & Hio & Hco & Hst & Hel & Hem & Hou)
    by (unfold s1; destruct (unarmed_same s) as [-> | ->]; done).
  assert (bufs (host s1) !! outbuf e' = Some b) as Hb1 by (by rewrite Hho).
  pose proof (render_plain_run s1 e' b d r m f n_bytes Hb1 Hd Hm) as Hren. unfold raw, wave_in_range, next_wave, next_phase, raw in Hren. rewrite Hcf, Hpr in Hren.
  specialize (Hren Hf Hch Hbpf ltac:(lia) Hnm Hr). cbv zeta in Hren. fold n (raw s) (next_wave s f (Z.to_nat n)) (next_phase s (Z.to_nat n)) in Hren.
  set (b2 := with_datas _ b) in Hren. set (s2 := with_host _ _) in Hren.
  pose proof (write_header_exact s2 e' b2 (lookup_insert_eq _ _ _) Hh Hroom) as Hhead. set (b3 := with_header s2 b2) in Hhead. set (s3 := with_host _ s2) in Hhead.
  assert (bufs (host s3) !! outbuf e' = Some b3) as Hb3 by apply lookup_insert_eq.
  assert (ios (host s1) !! p = Some x) as Hx1 by congruence.
  assert (io s3 = Some p) as Hp3 by (change (io s3) with (io s1); congruence).
  assert (ios (host s3) !! p = Some x) as Hx3 by (change (ios (host s3)) with (ios (host s1)); congruence).
  set (elapsed := sample_time s (u64 (count s + n))).
  pose proof (deliver_run s3 e' b3 p x (u64 (count s + n)) elapsed Hb3 Hp3 Hx3) as Hdel. cbv zeta in Hdel. set (s5 := with_elapsed_time _ _) in Hdel. set (s4 := with_host _ _) in Hdel.
  exists b3, s4. split.
  { unfold audiotestsrc_make_buffer. run Hnext. unfold id. run (get_buf_run s1 _ b Hb1). rewrite Hd. cbn [lookup list_lookup of_option]. run_step. rewrite Hio, Hp.
    run (io_at_run (H := source_host) s1 p x Hx1). change (slot_rb e') with (slot_rb e). rewrite Hplain. fold n_bytes. run Hren. run Hhead. unfold id.
    change (count s3) with (count s1). rewrite Hco. unfold SAMPLES_TO_TIME. change (ai_raw (as_info (current_format s3))) with (raw s).
    rewrite (proj2 (Z.eqb_neq _ _)) by done. run_step. exact Hdel. }
  split_and!.
  - unfold s4, s5, s3, s2. cbn. rewrite insert_insert_eq. by destruct (unarmed_same s) as [-> | ->].
  - unfold b3. by rewrite with_header_id.
  - unfold b3. apply with_header_same; [done | exact Hco | exact Hst | exact Hel].
  - unfold b3. by rewrite with_header_datas.
  - exact Hpr.
  - done.
  - exact Hem.
  - unfold b3. pose proof (with_header_says s2 e b2 Hh Hroom) as Hs2.
    assert (count s2 = count s /\ start_time s2 = start_time s /\ elapsed_time s2 = elapsed_time s) as (E1 & E2 & E3) by done.
    by rewrite E1, E2, E3 in Hs2.
  - exact Hst.
  - done.
  - done.
  - change (timer s4) with (next_time s5). unfold next_time at 2. change (waits s4) with (waits s5). destruct (waits s5) eqn:Hw; [unfold next_time; by rewrite Hw | done].
  - unfold s4. cbn. rewrite lookup_insert_eq. unfold with_status, with_buffer_id. cbn. unfold b3. by rewrite with_header_id.
Qed.
End Buffer.

(** C18: Audio goes on from buffer to buffer, on time. When the next free buffer of the source has no
    ring, what the host asks for fits in its memory, and no sample of it leaves the range of
    its type, the source takes this buffer and puts into it the next frames of the wave, as
    many as fit in what the host asks for; the rest of the memory is what it was, and the
    chunk says what was asked for. If it has a header, this gives the number of the buffer's
    first sample and the time of this sample, the start plus the number of samples before it
    divided by the rate. The time of the next buffer is computed anew from the number of
    samples, so that no rounding adds up, and the timer is armed for it; it is the time of
    the next buffer's first sample again, and whatever is made next continues the wave where
    this buffer ends. The product of samples and nanoseconds has 64 bits: from 2^64 / 10^9
    samples on it wraps around, and below that the time is exact. *)
Theorem audio_wave_goes_on `{ElementType} `{AudioFormatType} `{AudioSrcType} `{Heap} sin (s : SpaAudioTestSrc) p x i l e b d r m f :
  next_audio s i l e b d r m f -> io s = Some p -> ios (host s) !! p = Some x -> (waits s = true -> timer s <> None) -> on_time s ->
  let n_bytes := requested x (md_maxsize d) in
  let n := n_bytes / bpf (current_format s) in
  0 <= n_bytes -> n_bytes <= zlen m -> wave_in_range sin s f (Z.to_nat n) ->
  exists b' s', audiotestsrc_make_buffer sin s = Done (SPA_RESULT_HAVE_BUFFER, s') /\
    bufs (host s') = <[outbuf e := b']> (bufs (host s)) /\ mb_id b' = mb_id b /\ mb_metas b' = mb_metas (with_header s b) /\
    mb_datas b' = mkMediaData (md_type d) (md_maxsize d)
      (Some (next_wave sin s f (Z.to_nat n) ++ drop (Z.to_nat (n * bpf (current_format s))) m)) (mkChunk 0 n_bytes 0) :: r /\
    header_says e b' (u32 (count s)) (u64 (start_time s + sample_time s (count s))) /\
    empty (pool s') = l /\ count s' = u64 (count s + n) /\ on_time s' /\ start_time s' = start_time s /\ timer s' = next_time s' /\
    ((count s + n) * SPA_NSEC_PER_SEC < 2 ^ 64 ->
      count s' = count s + n /\ sample_time s (count s) = count s * SPA_NSEC_PER_SEC / ar_rate (raw s) /\
      elapsed_time s' = (count s + n) * SPA_NSEC_PER_SEC / ar_rate (raw s)) /\
    ios (host s') !! p = Some (mkPortIO (u32 SPA_RESULT_HAVE_BUFFER) (mb_id b) (io_min_size x) (io_max_size x)) /\
    forall k, next_wave sin s f (Z.to_nat n + k) = next_wave sin s f (Z.to_nat n) ++ next_wave sin s' f k.
Proof.
  intros Hn Hp Hx Ht [Hc He] n_bytes n Hnn Hm Hr.
  destruct (audio_buffer_run sin s p x i l e b d r m f Hn Hp Hx Ht Hnn Hm Hr)
    as (b' & s' & Hrun & Hb & Hid & Hme & Hd & Hpr & Hcf & Hem & Hhead & Hst & Hco & Hel & Htm & Hio).
  fold n_bytes in Hco, Hel. fold n in Hco, Hel. rewrite He in Hhead.
  assert (forall k, sample_time s' k = sample_time s k) as Htime by (intros k; unfold sample_time, raw; by rewrite Hcf).
  assert (0 <= n) as Hnz.
  { apply Z.div_pos; [done |]. destruct Hn as [_ _ _ _ _ _ _ _ _ Hch Hbpf _]. rewrite Hbpf. destruct f; cbn; lia. }
  assert (on_time s') as Hon.
  { split; [rewrite Hco; unfold u64; by apply Z.mod_pos_bound | by rewrite Hel, Htime, Hco]. }
  exists b', s'. repeat (split; [assumption |]). split.
  - intros Hmax. unfold SPA_NSEC_PER_SEC in *. rewrite Hco, Hel. unfold sample_time, SPA_NSEC_PER_SEC.
    rewrite (u64_small (count s + n)), (u64_small (count s * _)), (u64_small (_ * _)) by (unfold is_u64; lia). done.
  - split; [assumption |]. intros k. unfold next_wave, raw. rewrite Hpr, Hcf. apply wave_app.
Qed.

(** The audio test source at work: concrete runs, with a square wave for the sine, which also
    show that the theorem's hypotheses can hold. *)

#[local] Instance sample_source_types : ElementType :=
  Build_ElementType 1 2 3 4 5 6 7 8 9 10 11 12 13 14 15 16 17 18 19 20 21 22.
#[local] Instance sample_source_formats : AudioFormatType := Build_AudioFormatType 30 31 32 33 34 35 36 37 38 39.
#[local] Instance sample_source_props : AudioSrcType := Build_AudioSrcType 60 61 62 63 64 65.

Definition square (x : spec_float) : spec_float := if d_ge x M_PI then d_of_Z (-1) else d_of_Z 1.

Definition sample_format (format rate channels : Z) : bytes :=
  match (let* (b, ref) := spa_pod_builder_format (spa_pod_builder_init (mkFixed (fresh 1024) 1024)) t_format media_audio subtype_raw (
           PROP fa_format (PId format) ++ PROP fa_rate (PInt rate) ++ PROP fa_channels (PInt channels)) in
         SPA_POD_BUILDER_DEREF b ref) with Done f => f | _ => [] end.
Definition sample_props (wave : Z) (freq volume : spec_float) : bytes :=
  match (let* (b, ref) := spa_pod_builder_props (spa_pod_builder_init (mkFixed (fresh 1024) 1024)) t_props (
           PROP at_prop_wave (PId wave) ++ PROP at_prop_freq (PDouble (bits_of_double freq)) ++ PROP at_prop_volume (PDouble (bits_of_double volume))) in
         SPA_POD_BUILDER_DEREF b ref) with Done f => f | _ => [] end.
Definition start_command : bytes := le32 8 ++ le32 16 ++ le32 0 ++ le32 command_Start.

(** Buffers at 100 and 101, with a header and [n] bytes; at 102 one with a ring of 16 bytes that
    is empty, 12 bytes on. *)
Definition sample_buffer (id n : Z) : MediaBuffer :=
  mkMediaBuffer id [mkMediaMeta meta_Header (replicate 24 0)] [mkMediaData data_MemPtr n (Some (replicate (Z.to_nat n) 7)) (mkChunk 0 0 0)].
Definition ring_buffer : MediaBuffer :=
  mkMediaBuffer 0 [mkMediaMeta meta_Ringbuffer (le32 12 ++ le32 12 ++ le32 16 ++ le32 15)]
    [mkMediaData data_MemPtr 16 (Some (replicate 16 7)) (mkChunk 0 0 0)].
Definition idle : PortIO := mkPortIO (u32 SPA_RESULT_NEED_BUFFER) SPA_ID_INVALID 0 0.
Definition sample_host (n : Z) : Host :=
  mkHost (list_to_map [(100, sample_buffer 0 n); (101, sample_buffer 1 n); (102, ring_buffer)]) {[ 7 := idle ]}.

Fixpoint perform (ops : list (ATS Z)) (s : SpaAudioTestSrc) : outcome (list Z * SpaAudioTestSrc) :=
  match ops with
  | [] => Done ([], s)
  | o :: ops => let* (r, s) := o s in let* (rs, s) := perform ops s in Done (r :: rs, s)
  end.
Definition story (n : Z) (ops : list (ATS Z)) : outcome (list Z * SpaAudioTestSrc) :=
  match audiotestsrc_init true true (sample_host n) with (_, Some s) => perform ops s | (_, None) => Refuse end.

Definition output : Z := SPA_DIRECTION_OUTPUT.
Definition write_io (a : PortIO) : ATS Z := set_io_at (Some 7) (fun _ => a) ;;; ret 0.
Definition configure (format : bytes) (ptrs : list Z) : list (ATS Z) :=
  [spa_audiotestsrc_node_port_set_io output 0 (Some 7); spa_audiotestsrc_node_port_set_format output 0 (Some format);
   spa_audiotestsrc_node_port_use_buffers output 0 ptrs; spa_audiotestsrc_node_send_command start_command 5000].
Definition memory (s : SpaAudioTestSrc) (p : Z) : option (bytes * SpaChunk) :=
  b ← bufs (host s) !! p; d ← mb_datas b !! 0%nat; m ← md_data d; Some (m, md_chunk d).
Definition header (s : SpaAudioTestSrc) (p : Z) : option (Z * Z) :=
  b ← bufs (host s) !! p; m ← mb_metas b !! 0%nat; seq ← load32 4 (mm_data m); pts ← load64 8 (mm_data m); Some (seq, pts).

(** A quarter of the rate: two samples up, two down, over two buffers of three samples each,
    which are 750 microseconds apart. *)
Example two_buffers :
  match story 6 (spa_audiotestsrc_node_set_props (Some (sample_props wave_sine (d_of_Z 1000) (d_of_Z 1))) ::
      configure (sample_format audio_S16 4000 1) [100; 101] ++
      [spa_audiotestsrc_node_process_output square; write_io idle; spa_audiotestsrc_node_process_output square]) with
  | Done (rs, s) => rs = [0; 0; 0; 0; 0; SPA_RESULT_HAVE_BUFFER; 0; SPA_RESULT_HAVE_BUFFER] /\
      memory s 100 = Some (le 2 32767 ++ le 2 (-32767) ++ le 2 (-32767), mkChunk 0 6 0) /\
      memory s 101 = Some (le 2 32767 ++ le 2 32767 ++ le 2 (-32767), mkChunk 0 6 0) /\
      header s 100 = Some (0, 5000) /\ header s 101 = Some (3, 755000) /\ timer s = Some 1505000
  | _ => False
  end.
Proof. vm_compute. by split_and!. Qed.

(** ** The theorem's hypotheses hold *)

Definition source_ready : SpaAudioTestSrc :=
  match story 6 (spa_audiotestsrc_node_set_props (Some (sample_props wave_sine (d_of_Z 1000) (d_of_Z 1))) ::
      configure (sample_format audio_S16 4000 1) [100; 101]) with
  | Done (_, s) => s
  | _ => mkSource reset_audiotestsrc_props false false None (mkElementInfo 0 [] 0 0) None false
      (mkAudioState (mkAudioInfo 0 0 zero_audio_raw) 0 None (S754_zero false)) (pool_init 0) false 0 0 0 (sample_host 0) 0
  end.

Lemma ready_pool : pool_ok MAX_BUFFERS (pool source_ready).
Proof.
  assert (empty (pool source_ready) = [0; 1]%nat) as He by by vm_compute.
  assert (n_buffers (pool source_ready) = 2) as Hn by by vm_compute.
  split; rewrite ?He, ?Hn; [by vm_compute | unfold MAX_BUFFERS; lia | |].
  - apply NoDup_ListNoDup. repeat constructor; simpl; intuition discriminate.
  - intros i. split.
    + intros Hi. apply list_elem_of_In in Hi. destruct Hi as [<- | [<- | []]]; (split; [lia | eexists; split; by vm_compute]).
    + intros [Hi _]. apply list_elem_of_In. simpl. lia.
Qed.

Lemma audio_wave_goes_on_witness : exists s',
  audiotestsrc_make_buffer square source_ready = Done (SPA_RESULT_HAVE_BUFFER, s') /\
  next_wave square source_ready sine_int16_t 3 = le 2 32767 ++ le 2 (-32767) ++ le 2 (-32767) /\
  count s' = 3 /\ on_time s' /\ elapsed_time s' = 750000 /\ timer s' = next_time s'.
Proof.
  destruct (audio_wave_goes_on square source_ready 7 idle 0%nat [1%nat] (mkSlot 100 false (Some 0%nat) None) (sample_buffer 0 6)
    (mkMediaData data_MemPtr 6 (Some (replicate 6 7)) (mkChunk 0 0 0)) [] (replicate 6 7) sine_int16_t)
    as (b' & s' & Hrun & _ & _ & _ & _ & _ & _ & Hc & Hon & _ & Ht & Hel & _).
  - split; [apply ready_pool | by vm_compute | by vm_compute | by vm_compute | by vm_compute | by vm_compute | | by split; vm_compute | by vm_compute | by split; vm_compute | by vm_compute | by vm_compute].
    intros k [= <-]. eexists. split; by vm_compute.
  - by vm_compute.
  - by vm_compute.
  - by vm_compute.
  - by vm_compute.
  - by vm_compute.
  - by vm_compute.
  - intros k Hk. vm_compute in Hk. destruct k as [|[|[|k]]]; [by eexists; vm_compute.. | lia].
  - exists s'. split; [exact Hrun |]. split; [by vm_compute |]. split; [exact Hc |]. split; [exact Hon |].
    split; [apply Hel; by vm_compute | exact Ht].
Defined.

(** ** What the host may see *)

Definition process : ATS Z := spa_audiotestsrc_node_process_output square.

(** The kind of wave is a property, and is not looked at. *)
Example wave_ignored : 
  let run wave := story 6 (spa_audiotestsrc_node_set_props (Some (sample_props wave (d_of_Z 1000) (d_of_Z 1))) ::
      configure (sample_format audio_S16 4000 1) [100] ++ [process]) in
  match run wave_sine, run wave_square with
  | Done (_, s), Done (_, s') => ap_wave (props s') = wave_square /\ memory s 100 = memory s' 100
  | _, _ => False
  end.
Proof. vm_compute. by split. Qed.

(** A volume up to 10 can be set; above 1 the samples are out of their range. *)
Example loud : story 6 (spa_audiotestsrc_node_set_props (Some (sample_props wave_sine (d_of_Z 1000) (d_of_Z 2))) ::
  configure (sample_format audio_S16 4000 1) [100] ++ [process]) = Undef.
Proof. by vm_compute. Qed.

(** No rate, or no channels: a division by zero. *)
Example no_rate : story 6 (configure (sample_format audio_S16 0 1) [100]) = Undef.
Proof. by vm_compute. Qed.
Example no_channels : story 6 (configure (sample_format audio_S16 4000 0) [100]) = Undef.
Proof. by vm_compute. Qed.

(** Buffers that do not hold a whole number of frames: the chunk says all of the memory, and the
    end of it was not written to. *)
Example partial_frame :
  match story 6 (configure (sample_format audio_S16 4000 2) [100] ++ [process]) with
  | Done (rs, s) => last rs = Some SPA_RESULT_HAVE_BUFFER /\ drop 4 <$> (fst <$> memory s 100) = Some [7; 7] /\
      snd <$> memory s 100 = Some (mkChunk 0 6 0) /\ count s = 1
  | _ => False
  end.
Proof. vm_compute. by split_and!. Qed.

(** A ring that wraps around inside a frame: the four bytes at its end are passed over, and
    the samples behind them are in the wrong place. *)
Example ring_wraps :
  match story 6 (configure (sample_format audio_S16 4000 3) [102] ++ [process]) with
  | Done (rs, s) => last rs = Some SPA_RESULT_HAVE_BUFFER /\ drop 12 <$> (fst <$> memory s 102) = Some [7; 7; 7; 7] /\
      count s = 2 /\ (mm_data <$> (bufs (host s) !! 102 ≫= fun b => mb_metas b !! 0%nat)) = Some (le32 12 ++ le32 28 ++ le32 16 ++ le32 15)
  | _ => False
  end.
Proof. vm_compute. by split_and!. Qed.
