(* ===== verification/Volume.v ===== *)
(** [spa/plugins/volume/volume.c]: an element that scales the samples of its input port onto a
    buffer of its output port.

    Both ports have a pool of buffers; its list is the port's [empty]. What an entry remembers
    of its memory ([ptr], [size]) is never read and left out. The samples are read and
    written one by one through the host's buffers, which may be the same on both ports; the
    memory of different buffers is different. [released] are the ids the callback
    [reuse_buffer] was called with. *)
From Stdlib Require Import SpecFloat.
From stdpp Require Import gmap.
From S2P Require Import Prelude State Defs Pod PodUtils Props Element TestSource Float.

Definition MAX_BUFFERS : nat := 16.

Class VolumeType := { vo_prop_volume : Z; vo_prop_mute : Z }.

Record SpaVolumeProps := mkVolumeProps { vo_volume : Z; vo_mute : bool }.
Record SpaVolumePort := mkVolumePort { vo_have_format : bool; vo_info : ElementInfo; vo_pool : Pool; vo_io : option Z }.
Definition with_vo_have_format (x : bool) (p : SpaVolumePort) : SpaVolumePort := mkVolumePort x (vo_info p) (vo_pool p) (vo_io p).
Definition with_vo_info (x : ElementInfo) (p : SpaVolumePort) : SpaVolumePort := mkVolumePort (vo_have_format p) x (vo_pool p) (vo_io p).
Definition with_vo_pool (x : Pool) (p : SpaVolumePort) : SpaVolumePort := mkVolumePort (vo_have_format p) (vo_info p) x (vo_io p).
Definition with_vo_io (x : option Z) (p : SpaVolumePort) : SpaVolumePort := mkVolumePort (vo_have_format p) (vo_info p) (vo_pool p) x.

(** [vo_callback]: [reuse_buffer] is set. *)
Record SpaVolume := mkVolume {
  vo_props : SpaVolumeProps; vo_callback : bool; vo_format : Z * Z * SpaAudioInfoRaw; vo_in : SpaVolumePort; vo_out : SpaVolumePort;
  vo_started : bool; vo_host : Host; released : list Z }.
Definition with_vo_props (x : SpaVolumeProps) (s : SpaVolume) : SpaVolume :=
  mkVolume x (vo_callback s) (vo_format s) (vo_in s) (vo_out s) (vo_started s) (vo_host s) (released s).
Definition with_vo_callback (x : bool) (s : SpaVolume) : SpaVolume :=
  mkVolume (vo_props s) x (vo_format s) (vo_in s) (vo_out s) (vo_started s) (vo_host s) (released s).
Definition with_vo_format (x : Z * Z * SpaAudioInfoRaw) (s : SpaVolume) : SpaVolume :=
  mkVolume (vo_props s) (vo_callback s) x (vo_in s) (vo_out s) (vo_started s) (vo_host s) (released s).
Definition with_vo_in (x : SpaVolumePort) (s : SpaVolume) : SpaVolume :=
  mkVolume (vo_props s) (vo_callback s) (vo_format s) x (vo_out s) (vo_started s) (vo_host s) (released s).
Definition with_vo_out (x : SpaVolumePort) (s : SpaVolume) : SpaVolume :=
  mkVolume (vo_props s) (vo_callback s) (vo_format s) (vo_in s) x (vo_started s) (vo_host s) (released s).
Definition with_vo_started (x : bool) (s : SpaVolume) : SpaVolume :=
  mkVolume (vo_props s) (vo_callback s) (vo_format s) (vo_in s) (vo_out s) x (vo_host s) (released s).
Definition with_vo_host (x : Host) (s : SpaVolume) : SpaVolume :=
  mkVolume (vo_props s) (vo_callback s) (vo_format s) (vo_in s) (vo_out s) (vo_started s) x (released s).
Definition with_released (x : list Z) (s : SpaVolume) : SpaVolume :=
  mkVolume (vo_props s) (vo_callback s) (vo_format s) (vo_in s) (vo_out s) (vo_started s) (vo_host s) x.

#[export] Instance volume_host : HasHost SpaVolume := { host_of := vo_host; set_host := with_vo_host }.
Abbreviation Vol := (ST SpaVolume).

(** The direction is not looked at. *)
Definition CHECK_PORT (direction port_id : Z) : bool := port_id =? 0.

Section Ops.
Context `{ElementType} `{AudioFormatType} `{VolumeType} `{Heap}.

(** ** Properties, commands, ports *)

Definition reset_volume_props : SpaVolumeProps := mkVolumeProps (bits_of_double (d_of_Z 1)) false.

Definition spa_volume_node_get_props : Vol (Z * bytes) :=
  s <- gets id ;;
  p <- lift (
    let d z := PDouble (bits_of_double (d_of_Z z)) in
    let* (b, ref) := spa_pod_builder_props (spa_pod_builder_init (mkFixed (fresh 512) 512)) t_props (
      PROP_MM vo_prop_volume (PDouble (vo_volume (vo_props s))) (d 0) (d 10) ++
      PROP vo_prop_mute (PBool (if vo_mute (vo_props s) then 1 else 0))) in
    SPA_POD_BUILDER_DEREF b ref) ;;
  ret (SPA_RESULT_OK, p).

Definition spa_volume_node_set_props (new : option bytes) : Vol Z :=
  s <- gets id ;;
  p <- match new with
       | None => ret reset_volume_props
       | Some new =>
           gs <- lift (spa_props_query new [(vo_prop_volume, SPA_POD_TYPE_DOUBLE); (vo_prop_mute, SPA_POD_TYPE_BOOL)]) ;;
           mute <- lift (stored_bool gs 1 (vo_mute (vo_props s))) ;;
           ret (mkVolumeProps (stored_double gs 0 (vo_volume (vo_props s))) mute)
       end ;;
  modify (with_vo_props p) ;;;
  ret SPA_RESULT_OK.

Definition spa_volume_node_send_command (command : bytes) : Vol Z :=
  type <- lift (SPA_COMMAND_TYPE command) ;;
  if type =? command_Start then modify (with_vo_started true) ;;; ret SPA_RESULT_OK
  else if type =? command_Pause then modify (with_vo_started false) ;;; ret SPA_RESULT_OK
  else ret SPA_RESULT_NOT_IMPLEMENTED.

Definition spa_volume_node_set_callbacks (callback : bool) : Vol Z := modify (with_vo_callback callback) ;;; ret SPA_RESULT_OK.

Definition spa_volume_node_get_n_ports : Z * Z * Z * Z := (1, 1, 1, 1).
Definition spa_volume_node_get_port_ids (n_input_ports n_output_ports : Z) : option Z * option Z :=
  (if n_input_ports >? 0 then Some 0 else None, if n_output_ports >? 0 then Some 0 else None).

(** The port of a direction. *)
Definition the_port (direction : Z) (s : SpaVolume) : SpaVolumePort := if direction =? SPA_DIRECTION_INPUT then vo_in s else vo_out s.
Definition set_the_port (direction : Z) (f : SpaVolumePort -> SpaVolumePort) : Vol unit :=
  modify (fun s => if direction =? SPA_DIRECTION_INPUT then with_vo_in (f (vo_in s)) s else with_vo_out (f (vo_out s)) s).

(** ** Formats *)

Definition volume_format : outcome bytes :=
  let* (b, ref) := spa_pod_builder_format (spa_pod_builder_init (mkFixed (fresh 1024) 1024)) t_format media_audio subtype_raw (
    PROP_U_EN fa_format [PId audio_S16; PId audio_S16; PId audio_S32] ++
    PROP_U_MM fa_rate (PInt 44100) (PInt 1) (PInt INT32_MAX) ++
    PROP_U_MM fa_channels (PInt 2) (PInt 1) (PInt INT32_MAX)) in
  SPA_POD_BUILDER_DEREF b ref.

Definition spa_volume_node_port_enum_formats (direction port_id : Z) (filter : option bytes) (index : Z) : Vol (Z * option bytes) :=
  if negb (CHECK_PORT direction port_id) then ret (SPA_RESULT_INVALID_PORT, None)
  else
    let start := match filter with Some _ => 0 | None => index end in
    lift (enum_one_format volume_format 1024 2 filter index start start).

Definition clear_buffers (direction : Z) : Vol unit := set_the_port direction (fun p => with_vo_pool (pool_clear (vo_pool p)) p).

(** What is asked of the buffers. *)
Definition volume_params : outcome (list bytes) :=
  let* (b, r0) := spa_pod_builder_object (spa_pod_builder_init (mkFixed (fresh 1024) 1024)) 0 alloc_Buffers (
    PROP alloc_size (PInt 16) ++
    PROP alloc_stride (PInt 16) ++
    PROP_U_MM alloc_buffers (PInt (Z.of_nat MAX_BUFFERS)) (PInt 2) (PInt (Z.of_nat MAX_BUFFERS)) ++
    PROP alloc_align (PInt 16)) in
  let* (b, r1) := spa_pod_builder_object b 0 alloc_MetaEnable (
    PROP alloc_meta_type (PId meta_Header) ++
    PROP alloc_meta_size (PInt 24)) in
  let* p0 := SPA_POD_BUILDER_DEREF b r0 in
  let* p1 := SPA_POD_BUILDER_DEREF b r1 in
  Done [p0; p1].

Definition spa_volume_node_port_set_format (direction port_id : Z) (format : option bytes) : Vol Z :=
  if negb (CHECK_PORT direction port_id) then ret SPA_RESULT_INVALID_PORT
  else
    match format with
    | None => set_the_port direction (with_vo_have_format false) ;;; clear_buffers direction ;;; ret SPA_RESULT_OK
    | Some format =>
        media <- lift (SPA_FORMAT_MEDIA_TYPE format) ;;
        sub <- lift (SPA_FORMAT_MEDIA_SUBTYPE format) ;;
        if negb (media =? media_audio) || negb (sub =? subtype_raw) then ret SPA_RESULT_INVALID_MEDIA_TYPE
        else
          raw <- lift (spa_format_audio_raw_parse format zero_audio_raw) ;;
          modify (with_vo_format (media, sub, raw)) ;;;
          params <- lift volume_params ;;
          set_the_port direction (fun p =>
            with_vo_info (mkElementInfo (ei_flags (vo_info p)) params (u64 (-1)) 0) (with_vo_have_format true p)) ;;;
          ret SPA_RESULT_OK
    end.

(** The format is not given back. *)
Definition spa_volume_node_port_get_format (direction port_id : Z) : Vol (Z * option bytes) :=
  s <- gets id ;;
  if negb (CHECK_PORT direction port_id) then ret (SPA_RESULT_INVALID_PORT, None)
  else if negb (vo_have_format (the_port direction s)) then ret (SPA_RESULT_NO_FORMAT, None)
  else ret (SPA_RESULT_OK, None).

Definition spa_volume_node_port_get_info (direction port_id : Z) : Vol (Z * option ElementInfo) :=
  s <- gets id ;;
  if negb (CHECK_PORT direction port_id) then ret (SPA_RESULT_INVALID_PORT, None)
  else ret (SPA_RESULT_OK, Some (vo_info (the_port direction s))).

(** ** Buffers *)

Definition good_memory (d : MediaData) : bool :=
  ((md_type d =? data_MemPtr) || (md_type d =? data_MemFd) || (md_type d =? data_DmaBuf)) && bool_decide (is_Some (md_data d)).

(** One turn of the loop: [false] when the buffer has no memory. Entries start outstanding
    and in the list. *)
Definition use_buffer (direction : Z) (i : nat) (ptr : Z) : Vol bool :=
  b <- get_buf ptr ;;
  s <- gets id ;;
  _ <- lift (pool_slot (Z.of_nat i) (vo_pool (the_port direction s))) ;;
  set_the_port direction (fun p => with_vo_pool (with_slot i (mkSlot ptr true (spa_buffer_find_meta b meta_Header) None) (vo_pool p)) p) ;;;
  d <- lift (of_option (mb_datas b !! 0%nat)) ;;
  if negb (good_memory d) then ret false
  else
    s <- gets id ;;
    q <- lift (link_empty i (vo_pool (the_port direction s))) ;;
    set_the_port direction (with_vo_pool q) ;;;
    ret true.

Fixpoint use_buffers_loop (direction : Z) (l : list (nat * Z)) : Vol bool :=
  match l with
  | [] => ret true
  | (i, ptr) :: l => good <- use_buffer direction i ptr ;; if good then use_buffers_loop direction l else ret false
  end.

Definition spa_volume_node_port_use_buffers (direction port_id : Z) (buffers : list Z) : Vol Z :=
  s <- gets id ;;
  if negb (CHECK_PORT direction port_id) then ret SPA_RESULT_INVALID_PORT
  else if negb (vo_have_format (the_port direction s)) then ret SPA_RESULT_NO_FORMAT
  else
    clear_buffers direction ;;;
    good <- use_buffers_loop direction (zip (seq 0 (length buffers)) buffers) ;;
    if negb good then ret SPA_RESULT_ERROR
    else
      set_the_port direction (fun p => with_vo_pool (mkPool (slots (vo_pool p)) (zlen buffers) (empty (vo_pool p))) p) ;;;
      ret SPA_RESULT_OK.

Definition spa_volume_node_port_set_io (direction port_id : Z) (io : option Z) : Vol Z :=
  if negb (CHECK_PORT direction port_id) then ret SPA_RESULT_INVALID_PORT
  else set_the_port direction (with_vo_io io) ;;; ret SPA_RESULT_OK.

Definition spa_volume_node_port_reuse_buffer (port_id buffer_id : Z) : Vol Z :=
  s <- gets id ;;
  let port := vo_out s in
  if negb (CHECK_PORT SPA_DIRECTION_OUTPUT port_id) then ret SPA_RESULT_INVALID_PORT
  else if n_buffers (vo_pool port) =? 0 then ret SPA_RESULT_NO_BUFFERS
  else if buffer_id >=? n_buffers (vo_pool port) then ret SPA_RESULT_INVALID_BUFFER_ID
  else
    '(_, q) <- lift (pool_put buffer_id (vo_pool port)) ;;
    modify (fun s => with_vo_out (with_vo_pool q (vo_out s)) s) ;;;
    ret SPA_RESULT_OK.

(** ** Scaling *)

(** The buffer, or [None]. *)
Definition find_free_buffer : Vol (option Z) :=
  s <- gets id ;;
  match empty (vo_pool (vo_out s)) with
  | [] => ret None
  | _ =>
      '(_, e, q) <- lift (pool_take (vo_pool (vo_out s))) ;;
      modify (fun s => with_vo_out (with_vo_pool q (vo_out s)) s) ;;;
      ret (Some (outbuf e))
  end.

(** The callback is called whether it is set or not. *)
Definition release_buffer (buffer : Z) : Vol unit :=
  b <- get_buf buffer ;;
  s <- gets id ;;
  if vo_callback s then modify (fun s => with_released (released s ++ [mb_id b]) s) else undef.

Definition get_data (buffer : Z) (i : nat) : Vol MediaData := b <- get_buf buffer ;; lift (of_option (mb_datas b !! i)).
Definition put_data (buffer : Z) (i : nat) (d : MediaData) : Vol unit :=
  b <- get_buf buffer ;; put_buf buffer (with_datas (<[i := d]> (mb_datas b)) b).

(** [v * volume], as a [uint16_t]. *)
Definition scale_sample (volume : spec_float) (v : Z) : outcome Z := to_int 0 65535 (d_mul (d_of_Z v) volume).

(** [for (i = 0; i < n_samples; i++) *src++ = *dst++ * volume], of data [si] and [di]. *)
Fixpoint scale_loop (n : nat) (volume : spec_float) (sbuf : Z) (si : nat) (src : Z) (dbuf : Z) (di : nat) (dst : Z) : Vol unit :=
  match n with
  | O => ret tt
  | S n =>
      dd <- get_data dbuf di ;;
      w <- lift (of_option (md_data dd ≫= mread dst 2)) ;;
      v <- lift (scale_sample volume (unle w)) ;;
      sd <- get_data sbuf si ;;
      m <- lift (of_option (md_data sd ≫= mwrite src (le 2 v))) ;;
      put_data sbuf si (with_md_data m sd) ;;;
      scale_loop n volume sbuf si (src + 2) dbuf di (dst + 2)
  end.

(** The loop over the data of both buffers; [si] of [sbuf] and [di] of [dbuf] are at [soff] and [doff]. *)
Fixpoint volume_loop (fuel : nat) (volume : spec_float) (dbuf sbuf : Z) (si di : nat) (soff doff : Z) : Vol unit :=
  match fuel with
  | O => lift Refuse
  | S fuel =>
      sb <- get_buf sbuf ;;
      db <- get_buf dbuf ;;
      if bool_decide (si = length (mb_datas sb)) || bool_decide (di = length (mb_datas db)) then ret tt
      else
        sd <- get_data sbuf si ;;
        dd <- get_data dbuf di ;;
        let n_bytes := SPA_MIN (u32 (ck_size (md_chunk sd) - soff)) (u32 (ck_size (md_chunk dd) - doff)) in
        scale_loop (Z.to_nat (n_bytes / 2)) volume sbuf si (ck_offset (md_chunk sd) + soff) dbuf di (ck_offset (md_chunk dd) + doff) ;;;
        let soff := u32 (soff + n_bytes) in
        let doff := u32 (doff + n_bytes) in
        let '(si, soff) := if soff >=? ck_size (md_chunk sd) then (S si, 0) else (si, soff) in
        let '(di, doff) := if doff >=? ck_size (md_chunk dd) then (S di, 0) else (di, doff) in
        volume_loop fuel volume dbuf sbuf si di soff doff
  end.

(** Every turn ends one of the data. *)
Definition do_volume (dbuf sbuf : Z) : Vol unit :=
  s <- gets id ;;
  sb <- get_buf sbuf ;;
  db <- get_buf dbuf ;;
  volume_loop (S (length (mb_datas sb) + length (mb_datas db))) (double_of_bits (vo_volume (vo_props s))) dbuf sbuf 0 0 0 0.

(** The callee's names for the two buffers are the other way around. *)
Definition spa_volume_node_process_input : Vol Z :=
  s <- gets id ;;
  match vo_io (vo_in s), vo_io (vo_out s) with
  | Some input, Some output =>
      if negb (vo_have_format (vo_in s)) then
        set_io_at (Some input) (with_status (u32 SPA_RESULT_NO_FORMAT)) ;;; ret SPA_RESULT_ERROR
      else
        i <- io_at (Some input) ;;
        if io_buffer_id i >=? n_buffers (vo_pool (vo_in s)) then
          set_io_at (Some input) (with_status (u32 SPA_RESULT_INVALID_BUFFER_ID)) ;;; ret SPA_RESULT_ERROR
        else
          o <- io_at (Some output) ;;
          dbuf <- (if io_buffer_id o >=? n_buffers (vo_pool (vo_out s)) then find_free_buffer
                   else e <- lift (pool_slot (io_buffer_id o) (vo_pool (vo_out s))) ;; ret (Some (outbuf e))) ;;
          match dbuf with
          | None => ret SPA_RESULT_OUT_OF_BUFFERS
          | Some dbuf =>
              e <- lift (pool_slot (io_buffer_id i) (vo_pool (vo_in s))) ;;
              let sbuf := outbuf e in
              set_io_at (Some input) (fun a => with_status (u32 SPA_RESULT_OK) (with_buffer_id SPA_ID_INVALID a)) ;;;
              do_volume sbuf dbuf ;;;
              b <- get_buf dbuf ;;
              set_io_at (Some output) (fun a => with_status (u32 SPA_RESULT_OK) (with_buffer_id (mb_id b) a)) ;;;
              when (negb (sbuf =? dbuf)) (release_buffer sbuf) ;;;
              ret SPA_RESULT_HAVE_BUFFER
          end
  | _, _ => ret SPA_RESULT_ERROR
  end.

Definition spa_volume_node_process_output : Z := SPA_RESULT_NEED_BUFFER.

(** The rest is not implemented. *)
Definition spa_volume_node_add_port : Z := SPA_RESULT_NOT_IMPLEMENTED.
Definition spa_volume_node_remove_port : Z := SPA_RESULT_NOT_IMPLEMENTED.
Definition spa_volume_node_port_get_props : Z := SPA_RESULT_NOT_IMPLEMENTED.
Definition spa_volume_node_port_set_props : Z := SPA_RESULT_NOT_IMPLEMENTED.
Definition spa_volume_node_port_alloc_buffers : Z := SPA_RESULT_NOT_IMPLEMENTED.
Definition spa_volume_node_port_send_command : Z := SPA_RESULT_NOT_IMPLEMENTED.

(** Is it the node? *)
Definition spa_volume_get_interface (interface_id : Z) : Z :=
  if interface_id =? t_node then SPA_RESULT_OK else SPA_RESULT_UNKNOWN_INTERFACE.

(** [map]: whether the host supports a type map. *)
Definition volume_init (map : bool) (h : Host) : Z * option SpaVolume :=
  if negb map then (SPA_RESULT_ERROR, None)
  else
    let port flags := mkVolumePort false (mkElementInfo flags [] 0 0) (pool_init MAX_BUFFERS) None in
    (SPA_RESULT_OK, Some (mkVolume reset_volume_props false (0, 0, zero_audio_raw)
      (port (Z.lor SPA_PORT_INFO_FLAG_CAN_USE_BUFFERS SPA_PORT_INFO_FLAG_IN_PLACE))
      (port (Z.lor SPA_PORT_INFO_FLAG_CAN_USE_BUFFERS SPA_PORT_INFO_FLAG_NO_REF)) false h [])).
Definition volume_enum_interface_info (index : Z) : Z := if index =? 0 then SPA_RESULT_OK else SPA_RESULT_ENUM_END.
End Ops.
