(* ===== verification/VolumeTheory.v ===== *)
(** What the volume element does to samples, which it takes as unsigned 16-bit words: the output
    buffer gets the scaled words of the input buffer, in the order of their bytes, however both
    are cut into data; or processing is undefined, when one of them does not fit. *)
From Stdlib Require Import SpecFloat.
From stdpp Require Import gmap.
From S2P Require Import Prelude State Defs Pod PodUtils Props Element ElementTheory TestSource Float Volume.

(** ** Samples *)

Definition even_length (m : bytes) : Prop := exists n : nat, length m = (2 * n)%nat.

(** The samples of some bytes, as the element takes them: unsigned words, also those of the
    signed formats that its ports take, where [v < 0] is the word [2 ^ 16 + v]. *)
Fixpoint words (m : bytes) : list Z := match m with a :: b :: m => unle [a; b] :: words m | _ => [] end.
(** None of them leaves the range of its type. *)
Definition scalable (volume : spec_float) (v : Z) : Prop := exists w, scale_sample volume v = Done w.
(** The scaled bytes. *)
Definition scaled (volume : spec_float) (v : Z) : bytes := match scale_sample volume v with Done w => le 2 w | _ => [] end.
Definition scale_bytes (volume : spec_float) (m : bytes) : bytes := flat_map (scaled volume) (words m).
Definition can_scale (volume : spec_float) (m : bytes) : bool :=
  forallb (fun v => match scale_sample volume v with Done _ => true | _ => false end) (words m).

Lemma even_ind (P : bytes -> Prop) : P [] -> (forall a b m, even_length m -> P m -> P (a :: b :: m)) -> forall m, even_length m -> P m.
Proof.
  intros H0 HS m [n Hn]. revert m Hn. induction n as [|n IH]; intros m Hn; [by destruct m |].
  destruct m as [|a [|b m]]; simpl in Hn; try lia. assert (length m = 2 * n)%nat as Hm by lia. apply HS; [by exists n | by apply IH].
Qed.

Lemma words_app m m' : even_length m -> words (m ++ m') = words m ++ words m'.
Proof. revert m. apply even_ind; [done |]. intros a b m _ IH. cbn. by rewrite IH. Qed.
Lemma scale_bytes_app volume m m' : even_length m -> scale_bytes volume (m ++ m') = scale_bytes volume m ++ scale_bytes volume m'.
Proof. intros Hm. unfold scale_bytes. by rewrite words_app, flat_map_app. Qed.

Lemma can_scale_spec volume m : can_scale volume m = true <-> Forall (scalable volume) (words m).
Proof.
  unfold can_scale. rewrite forallb_forall, Forall_forall. setoid_rewrite <- list_elem_of_In.
  split; intros Hv v Hin; specialize (Hv v Hin); destruct (scale_sample volume v) as [w| |] eqn:Hw; try done; [by exists w | destruct Hv; congruence..].
Qed.
Lemma can_scale_app volume m m' : even_length m -> can_scale volume (m ++ m') = can_scale volume m && can_scale volume m'.
Proof. intros Hm. unfold can_scale. by rewrite words_app, forallb_app. Qed.
Lemma scale_sample_total volume v : scalable volume v \/ scale_sample volume v = Undef.
Proof. unfold scalable, scale_sample, to_int. destruct (truncate _); [case_match |]; [left; by eexists | by right..]. Qed.

Lemma scaled_length volume v : scalable volume v -> length (scaled volume v) = 2%nat.
Proof. intros [w Hw]. unfold scaled. by rewrite Hw. Qed.
Lemma scale_bytes_length volume m : even_length m -> Forall (scalable volume) (words m) -> length (scale_bytes volume m) = length m.
Proof.
  revert m. apply (even_ind (fun m => Forall _ (words m) -> length (scale_bytes volume m) = length m)); [done |].
  intros a b m _ IH Hs. cbn in Hs. apply Forall_cons in Hs as [Hv Hs]. unfold scale_bytes. cbn [words flat_map].
  rewrite length_app, scaled_length by done. change (flat_map _ _) with (scale_bytes volume m). rewrite IH by done. done.
Qed.

(** At the default volume samples are what they were. *)
Lemma scale_bytes_one m : even_length m -> Forall (fun b => 0 <= b < 256) m -> scale_bytes one m = m.
Proof.
  revert m. apply (even_ind (fun m => Forall _ m -> scale_bytes one m = m)); [done |].
  intros a b m _ IH Hm. apply Forall_cons in Hm as [Ha Hm]. apply Forall_cons in Hm as [Hb Hm].
  unfold scale_bytes. cbn [words flat_map]. change (flat_map _ _) with (scale_bytes one m). rewrite IH by done.
  assert (unle [a; b] = a + 256 * b) as Hu by (cbn; lia). unfold scaled, scale_sample, to_int.
  rewrite Hu, scale_one by lia. rewrite (proj2 (Z.leb_le _ _)), (proj2 (Z.leb_le _ _)) by lia. cbn [andb].
  change (le 2 ?v) with [v mod 256; v / 256 mod 256]. cbn [app]. f_equal; [| f_equal].
  - rewrite Z.mul_comm, Z.mod_add by lia. apply Z.mod_small. lia.
  - rewrite Z.mul_comm, Z.div_add by lia. rewrite Z.div_small by lia. apply Z.mod_small. lia.
Qed.

Lemma can_scale_one m : even_length m -> Forall (fun b => 0 <= b < 256) m -> can_scale one m = true.
Proof.
  revert m. apply (even_ind (fun m => Forall _ m -> can_scale one m = true)); [done |].
  intros a b m _ IH [Ha [Hb Hm]%Forall_cons]%Forall_cons. unfold can_scale. cbn [words forallb]. apply andb_true_iff. split; [| by apply IH].
  assert (unle [a; b] = a + 256 * b) as -> by (cbn; lia). unfold scale_sample, to_int.
  by rewrite scale_one, (proj2 (Z.leb_le _ _)), (proj2 (Z.leb_le _ _)) by lia.
Qed.

(** ** Streams: the valid bytes of the data of a buffer *)

(** A data whose chunk is a piece of its memory: what is before the piece, the piece, the rest. *)
Record pieces (d : MediaData) (a v z : bytes) : Prop := {
  pc_memory : md_data d = Some (a ++ v ++ z);
  pc_offset : zlen a = ck_offset (md_chunk d);
  pc_size : zlen v = ck_size (md_chunk d)
}.
Definition valid (d : MediaData) : bytes :=
  take (Z.to_nat (ck_size (md_chunk d))) (drop (Z.to_nat (ck_offset (md_chunk d))) (default [] (md_data d))).
Definition stream (l : list MediaData) : bytes := flat_map valid l.

(** The data is of whole samples. *)
Definition data_ok (d : MediaData) : Prop :=
  exists a v z, pieces d a v z /\ even_length v /\ ck_size (md_chunk d) < 2 ^ 32.

Lemma pieces_valid d a v z : pieces d a v z -> valid d = v.
Proof.
  intros [Hm Ha Hv]. unfold valid. rewrite Hm. cbn [default]. unfold id. rewrite <- Ha, <- Hv, !to_nat_zlen, drop_app_length, take_app_length. done.
Qed.

Lemma stream_app l l' : stream (l ++ l') = stream l ++ stream l'.
Proof. apply flat_map_app. Qed.
Lemma stream_split l i d : l !! i = Some d -> stream l = stream (take i l) ++ valid d ++ stream (drop (S i) l).
Proof. intros Hd. rewrite <- (take_drop_middle l i d Hd) at 1. by rewrite stream_app. Qed.

(** The same place with other valid bytes. *)
Record same_place (d d' : MediaData) : Prop := {
  sp_type : md_type d' = md_type d;
  sp_maxsize : md_maxsize d' = md_maxsize d;
  sp_chunk : md_chunk d' = md_chunk d;
  sp_memory : exists a v v' z, pieces d a v z /\ md_data d' = Some (a ++ v' ++ z) /\ zlen v' = zlen v
}.

Lemma same_place_refl d : data_ok d -> same_place d d.
Proof. intros (a & v & z & Hp & _). split; try done. exists a, v, v, z. split_and!; [done | apply Hp | done]. Qed.

Lemma same_place_trans d1 d2 d3 : same_place d1 d2 -> same_place d2 d3 -> same_place d1 d3.
Proof.
  intros [Ht Hm Hc (a & v & v' & z & [Hd Ha Hv] & Hd2 & Hl)] [Ht' Hm' Hc' (b & w & w' & y & [Hd' Hb Hw] & Hd3 & Hl')].
  split; [congruence.. |]. exists a, v, w', z. rewrite Hd2 in Hd'. apply Some_inj in Hd'.
  assert (a = b /\ v' = w /\ z = y) as (-> & -> & ->).
  { destruct (app_inj_1 a b (v' ++ z) (w ++ y)) as [? Heq]; [| done |].
    - rewrite Hc in Hb. unfold zlen in *. lia.
    - destruct (app_inj_1 v' w z y) as [? ?]; [| done | done]. rewrite Hc in Hw. unfold zlen in *. lia. }
  split_and!; [done | done | congruence].
Qed.

Lemma same_place_ok d d' : data_ok d -> same_place d d' -> data_ok d'.
Proof.
  intros (a0 & v0 & z0 & Hp0 & [n Hn] & Hsize) [_ _ Hc (a & v & v' & z & Hp & Hd & Hl)]. exists a, v', z.
  pose proof (pieces_valid _ _ _ _ Hp0) as E0. pose proof (pieces_valid _ _ _ _ Hp) as E. assert (v0 = v) as -> by congruence.
  destruct Hp as [Hd0 Ha Hv]. split_and!; [split; rewrite ?Hc; congruence | exists n; unfold zlen in *; lia | by rewrite Hc].
Qed.

(** Writing into the valid bytes of one data of a list. *)
Lemma stream_write l i d a v1 y v2 z y' : l !! i = Some d -> pieces d a (v1 ++ y ++ v2) z -> zlen y' = zlen y ->
  let d' := with_md_data (a ++ (v1 ++ y' ++ v2) ++ z) d in
  same_place d d' /\
  stream (<[i := d']> l) = take (length (stream (take i l)) + length v1) (stream l) ++ y' ++ drop (length (stream (take i l)) + length v1 + length y) (stream l).
Proof.
  intros Hi Hp Hy d'.
  assert (pieces d' a (v1 ++ y' ++ v2) z) as Hp'.
  { destruct Hp as [Hd Ha Hv]. split; [done | done |]. cbn. rewrite <- Hv, !zlen_app. lia. }
  split.
  { split; try done. exists a, (v1 ++ y ++ v2), (v1 ++ y' ++ v2), z. split_and!; [done | done |]. rewrite !zlen_app. lia. }
  rewrite (stream_split l i d Hi), (pieces_valid _ _ _ _ Hp).
  rewrite (stream_split (<[i := d']> l) i d') by (apply list_lookup_insert_eq; by eapply lookup_lt_Some).
  rewrite (pieces_valid _ _ _ _ Hp'), take_insert_ge, drop_insert_lt by lia.
  generalize (stream (take i l)) (stream (drop (S i) l)). intros p q.
  assert (p ++ (v1 ++ y ++ v2) ++ q = (p ++ v1) ++ y ++ v2 ++ q) as -> by (by rewrite <- !app_assoc).
  rewrite take_app_length' by (rewrite length_app; lia).
  rewrite (app_assoc (p ++ v1) y), drop_app_length' by (rewrite !length_app; lia). by rewrite <- !app_assoc.
Qed.

(** ** Places in a stream *)

(** The place [off] of data [i] is [k] bytes into the stream, between two samples. *)
Record place (l : list MediaData) (i off k : nat) : Prop := {
  pl_k : k = (length (stream (take i l)) + off)%nat;
  pl_i : (i <= length l)%nat;
  pl_off : off = 0%nat \/ exists d, l !! i = Some d /\ (off < length (valid d))%nat;
  pl_even : Nat.Even off /\ Nat.Even k
}.

Lemma even_length_iff m : even_length m <-> Nat.Even (length m).
Proof. split; intros [n Hn]; by exists n. Qed.

Lemma place_end l k i off : place l i off k -> i = length l -> k = length (stream l).
Proof.
  intros [-> _ [-> | (d & Hd & _)] _] ->; [by rewrite take_ge, Nat.add_0_r by lia |]. apply lookup_lt_Some in Hd. lia.
Qed.
Lemma place_le l k i off : place l i off k -> (k <= length (stream l))%nat.
Proof.
  intros [-> _ [-> | (d & Hd & Ho)] _].
  - rewrite Nat.add_0_r. rewrite <- (take_drop i l) at 2. rewrite stream_app, length_app. lia.
  - rewrite (stream_split l i d Hd), !length_app. lia.
Qed.

(** The bytes at a place are those of its data. *)
Lemma place_bytes l k i off d nb : place l i off k -> l !! i = Some d -> (off + nb <= length (valid d))%nat ->
  take nb (drop k (stream l)) = take nb (drop off (valid d)).
Proof.
  intros [-> _ _ _] Hd Hn. rewrite (stream_split l i d Hd), drop_app_add, drop_app_le, take_app_le; [done | rewrite length_drop; lia | lia].
Qed.

Lemma place_step l k i off d nb : place l i off k -> l !! i = Some d -> (off + nb <= length (valid d))%nat -> Nat.Even nb ->
  place l (if (length (valid d) <=? off + nb)%nat then S i else i) (if (length (valid d) <=? off + nb)%nat then 0%nat else (off + nb)%nat) (k + nb).
Proof.
  intros [-> Hi _ [He Hk]] Hd Hn Hnb. destruct (Nat.leb_spec (length (valid d)) (off + nb)).
  - assert (off + nb = length (valid d))%nat as Heq by lia. split.
    + rewrite (take_S_r l i d Hd), stream_app. cbn [stream flat_map]. rewrite app_nil_r, length_app. lia.
    + apply lookup_lt_Some in Hd. lia.
    + by left.
    + split; [by exists 0%nat | by apply Nat.Even_Even_add].
  - split; [lia | done | right; exists d; split; [done | lia] |]. split; by apply Nat.Even_Even_add.
Qed.

(** ** The loops *)

Section Loops.
Implicit Types (s : SpaVolume).
(** The target and the source, two buffers. *)
Context (volume : spec_float) (t u : Z) (Htu : u <> t).

Lemma get_data_run s p b i d : bufs (vo_host s) !! p = Some b -> mb_datas b !! i = Some d -> get_data p i s = Done (d, s).
Proof. intros Hb Hd. unfold get_data. run (get_buf_run (H := volume_host) s p b Hb). unfold lift. by rewrite Hd. Qed.

Lemma put_data_run s p b i d : bufs (vo_host s) !! p = Some b ->
  put_data p i d s = Done (tt, with_vo_host (with_buf p (with_datas (<[i := d]> (mb_datas b)) b) (vo_host s)) s).
Proof. intros Hb. unfold put_data. run (get_buf_run (H := volume_host) s p b Hb). done. Qed.

Lemma with_buf_same s p b : bufs (vo_host s) !! p = Some b -> with_vo_host (with_buf p b (vo_host s)) s = s.
Proof. intros Hb. unfold with_vo_host, with_buf. rewrite insert_id by done. by destruct s as [? ? ? ? ? ? [] ?]. Qed.

Lemma scale_loop_run si di n : forall bs s bt x a y z bu dd c w,
  length bs = (2 * n)%nat ->
  bufs (vo_host s) !! t = Some bt -> mb_datas bt !! si = Some x -> md_data x = Some (a ++ y ++ z) -> zlen y = zlen bs ->
  bufs (vo_host s) !! u = Some bu -> mb_datas bu !! di = Some dd -> md_data dd = Some (c ++ bs ++ w) ->
  scale_loop n volume t si (zlen a) u di (zlen c) s = if can_scale volume bs then Done (tt,
    with_vo_host (with_buf t (with_datas (<[si := with_md_data (a ++ scale_bytes volume bs ++ z) x]> (mb_datas bt)) bt) (vo_host s)) s) else Undef.
Proof.
  induction n as [|n IH]; intros bs s bt x a y z bu dd c w Hlen Ht Hx Hm Hy Hu Hdd Hmu.
  - destruct bs; [| done]. destruct y; [| unfold zlen in *; simpl in *; lia]. cbn [scale_loop]. change (can_scale volume []) with true. cbn iota. unfold ret. f_equal. f_equal.
    assert (with_datas (<[si := with_md_data (a ++ scale_bytes volume [] ++ z) x]> (mb_datas bt)) bt = bt) as Heq.
    { unfold with_datas. rewrite list_insert_id; [by destruct bt |]. rewrite Hx. f_equal. destruct x. cbn in *. unfold with_md_data. cbn. by f_equal. }
    rewrite Heq. by rewrite with_buf_same.
  - destruct bs as [|b0 [|b1 bs]]; simpl in Hlen; try lia. destruct y as [|y0 [|y1 y]]; try (unfold zlen in *; simpl in *; lia).
    cbn [scale_loop].
    rewrite (run_bind_done _ _ _ _ _ (get_data_run s u bu di dd Hu Hdd)). rewrite Hmu.
    change (c ++ (b0 :: b1 :: bs) ++ w) with (c ++ [b0; b1] ++ (bs ++ w)). cbn [option_bind mbind].
    change (Some ?l ≫= mread ?o ?k) with (mread o k l). rewrite mread_app by done. cbn [of_option]. run_step.
    assert (can_scale volume (b0 :: b1 :: bs) = match scale_sample volume (unle [b0; b1]) with Done _ => true | _ => false end && can_scale volume bs) as -> by done.
    destruct (scale_sample_total volume (unle [b0; b1])) as [[v Hv] | Hv]; rewrite Hv; [| done]. cbn [andb]. run_step.
    rewrite (run_bind_done _ _ _ _ _ (get_data_run s t bt si x Ht Hx)). rewrite Hm.
    change (a ++ (y0 :: y1 :: y) ++ z) with (a ++ [y0; y1] ++ (y ++ z)).
    change (Some ?l ≫= mwrite ?o ?k) with (mwrite o k l). rewrite mwrite_app by (rewrite ?zlen_le; done). cbn [of_option]. run_step.
    rewrite (run_bind_done _ _ _ _ _ (put_data_run s t bt si _ Ht)).
    set (x1 := with_md_data _ x). set (bt1 := with_datas _ bt). set (s1 := with_vo_host _ s).
    replace (zlen a + 2) with (zlen (a ++ le 2 v)) by (rewrite zlen_app, zlen_le; lia).
    replace (zlen c + 2) with (zlen (c ++ [b0; b1])) by (rewrite zlen_app; done).
    rewrite (IH bs s1 bt1 x1 (a ++ le 2 v) y z bu dd (c ++ [b0; b1]) w); [| lia | | | | | | done |].
    + destruct (can_scale volume bs); [| done]. f_equal. f_equal. unfold s1, bt1, with_vo_host, with_buf, with_datas. cbn [vo_host bufs ios mb_datas mb_id mb_metas vo_props vo_callback vo_format vo_in vo_out vo_started released].
      rewrite insert_insert_eq. do 4 f_equal. rewrite list_insert_insert_eq. f_equal. unfold x1, with_md_data. cbn [md_type md_maxsize md_chunk]. do 2 f_equal.
      unfold scale_bytes. cbn [words flat_map]. unfold scaled at 2. rewrite Hv. by rewrite <- !app_assoc.
    + apply lookup_insert_eq.
    + cbn. apply list_lookup_insert_eq. by eapply lookup_lt_Some.
    + cbn. by rewrite <- !app_assoc.
    + unfold zlen in *. simpl in Hy. lia.
    + cbn. by rewrite lookup_insert_ne.
    + rewrite Hmu. by rewrite <- !app_assoc.
Qed.

(** One turn: [nb] bytes at a place of each buffer. *)
Lemma turn_run s bt bu x dd si di soff doff k nb : bufs (vo_host s) !! t = Some bt -> bufs (vo_host s) !! u = Some bu ->
  mb_datas bt !! si = Some x -> mb_datas bu !! di = Some dd -> data_ok x -> data_ok dd ->
  place (mb_datas bt) si soff k -> place (mb_datas bu) di doff k ->
  (soff + nb <= length (valid x))%nat -> (doff + nb <= length (valid dd))%nat -> Nat.Even nb ->
  let bs := take nb (drop k (stream (mb_datas bu))) in
  let run := scale_loop (nb / 2) volume t si (ck_offset (md_chunk x) + Z.of_nat soff) u di (ck_offset (md_chunk dd) + Z.of_nat doff) s in
  if can_scale volume bs then exists x', same_place x x' /\
    stream (<[si := x']> (mb_datas bt)) = take k (stream (mb_datas bt)) ++ scale_bytes volume bs ++ drop (k + nb) (stream (mb_datas bt)) /\
    run = Done (tt, with_vo_host (with_buf t (with_datas (<[si := x']> (mb_datas bt)) bt) (vo_host s)) s)
  else run = Undef.
Proof.
  intros Ht Hu Hx Hdd (a & v & z & Hp & _) (c & w & e & Hq & _) Hpt Hpu Hns Hnd Hnb bs run.
  pose proof (place_le _ _ _ _ Hpu) as Hku. pose proof (place_bytes _ _ _ _ _ nb Hpu Hdd Hnd) as Hbs. fold bs in Hbs.
  assert (k + nb <= length (stream (mb_datas bu)))%nat as Hroom.
  { destruct Hpu as [-> _ _ _]. rewrite (stream_split _ _ _ Hdd), !length_app. lia. }
  assert (length bs = nb) as Hlen by (unfold bs; rewrite length_take, length_drop; lia).
  rewrite (pieces_valid _ _ _ _ Hp) in Hns. rewrite (pieces_valid _ _ _ _ Hq) in Hnd, Hbs.
  set (v1 := take soff v). set (y := take nb (drop soff v)). set (v2 := drop nb (drop soff v)).
  assert (v = v1 ++ y ++ v2) as Hv by (unfold v1, y, v2; by rewrite !take_drop).
  assert (w = take doff w ++ bs ++ drop nb (drop doff w)) as Hw by (rewrite Hbs; by rewrite !take_drop).
  assert (length v1 = soff) as Hl1 by (unfold v1; rewrite length_take; lia).
  assert (length y = nb) as Hly by (unfold y; rewrite length_take, length_drop; lia).
  rewrite Hv in Hp. pose proof Hp as [Hm Ha _]. pose proof Hq as [Hmu Hc _]. rewrite Hw in Hmu.
  assert (run = if can_scale volume bs then Done (tt,
    with_vo_host (with_buf t (with_datas (<[si := with_md_data ((a ++ v1) ++ scale_bytes volume bs ++ v2 ++ z) x]> (mb_datas bt)) bt) (vo_host s)) s) else Undef) as Hrun.
  { assert (exists n, nb = 2 * n)%nat as [n Hn] by exact Hnb. unfold run. replace (nb / 2)%nat with n by (rewrite Hn, Nat.mul_comm, Nat.div_mul; lia).
    replace (ck_offset (md_chunk x) + Z.of_nat soff) with (zlen (a ++ v1)) by (rewrite zlen_app; unfold zlen in *; lia).
    replace (ck_offset (md_chunk dd) + Z.of_nat doff) with (zlen (c ++ take doff w)) by (rewrite zlen_app; unfold zlen in *; rewrite length_take; lia).
    apply (scale_loop_run si di n bs s bt x (a ++ v1) y (v2 ++ z) bu dd (c ++ take doff w) (drop nb (drop doff w) ++ e)); try done.
    - lia.
    - rewrite Hm. by rewrite <- !app_assoc.
    - unfold zlen. lia.
    - rewrite Hmu. by rewrite <- !app_assoc. }
  rewrite Hrun. clear Hrun. destruct (can_scale volume bs) eqn:Hcan; [| done].
  assert (zlen (scale_bytes volume bs) = zlen y) as Hsl.
  { unfold zlen. rewrite scale_bytes_length; [lia | apply even_length_iff; by rewrite Hlen | by apply can_scale_spec]. }
  destruct (stream_write _ _ _ _ _ _ _ _ (scale_bytes volume bs) Hx Hp Hsl) as [Hsame Hstr]. cbv zeta in *.
  eexists. split; [exact Hsame |]. split.
  { rewrite Hstr, Hl1, Hly. destruct Hpt as [-> _ _ _]. done. }
  do 5 f_equal. f_equal. by rewrite <- !app_assoc.
Qed.

(** The lengths of valid bytes are those of the chunks. *)
Lemma data_ok_size d : data_ok d -> ck_size (md_chunk d) = Z.of_nat (length (valid d)) /\ Nat.Even (length (valid d)) /\ ck_size (md_chunk d) < 2 ^ 32.
Proof.
  intros (a & v & z & Hp & He & Hs). rewrite (pieces_valid _ _ _ _ Hp). split_and!; [by destruct Hp as [_ _ <-] | by apply even_length_iff | done].
Qed.

Lemma same_place_length d d' : data_ok d -> same_place d d' -> length (valid d') = length (valid d).
Proof.
  intros Hd Hs. pose proof (same_place_ok _ _ Hd Hs) as Hd'. destruct (data_ok_size _ Hd) as [H1 _], (data_ok_size _ Hd') as [H2 _].
  rewrite (sp_chunk _ _ Hs) in H2. lia.
Qed.
Lemma same_places_ok l l' : Forall2 same_place l l' -> Forall data_ok l -> Forall data_ok l'.
Proof. induction 1 as [|d d' l l' Hd _ IH]; [done |]. intros [? ?]%Forall_cons. constructor; [by eapply same_place_ok | by apply IH]. Qed.
Lemma same_places_length l l' : Forall2 same_place l l' -> Forall data_ok l -> length (stream l') = length (stream l).
Proof.
  induction 1 as [|d d' l l' Hd _ IH]; [done |]. intros [? ?]%Forall_cons. cbn [stream flat_map]. rewrite !length_app.
  change (flat_map valid ?m) with (stream m). rewrite IH by done. by rewrite (same_place_length d d').
Qed.
Lemma same_places_place l l' i off k : Forall2 same_place l l' -> Forall data_ok l -> place l i off k -> place l' i off k.
Proof.
  intros Hl Hok [Hk Hi Ho He]. split; [| by rewrite <- (Forall2_length _ _ _ Hl) | | done].
  - rewrite Hk. f_equal. symmetry. apply same_places_length; [by apply Forall2_take | by apply Forall_take].
  - destruct Ho as [-> | (d & Hd & Ho)]; [by left | right]. destruct (Forall2_lookup_l _ _ _ _ _ Hl Hd) as (d' & Hd' & Hs).
    exists d'. split; [done |]. rewrite (same_place_length d d'); [done | exact (Forall_lookup_1 _ _ _ _ Hok Hd) | done].
Qed.

(** A part of the target scaled, then the rest of it. *)
Lemma join_parts (st st1 su bs : bytes) k nb n : (k + nb <= n)%nat -> (n <= length st)%nat -> (n <= length su)%nat -> Nat.Even nb ->
  bs = take nb (drop k su) -> length (scale_bytes volume bs) = nb ->
  st1 = take k st ++ scale_bytes volume bs ++ drop (k + nb) st ->
  take (k + nb) st1 ++ scale_bytes volume (take (n - (k + nb)) (drop (k + nb) su)) ++ drop n st1 =
    take k st ++ scale_bytes volume (take (n - k) (drop k su)) ++ drop n st.
Proof.
  intros Hn Ht Hu Hnb Hbs Hl ->. rewrite (app_assoc (take k st)).
  rewrite take_app_length' by (rewrite length_app, length_take, Hl; lia).
  replace n with ((k + nb) + (n - (k + nb)))%nat at 2 by lia.
  rewrite drop_app_add' by (rewrite length_app, length_take, Hl; lia). rewrite drop_drop.
  replace (n - k)%nat with (nb + (n - (k + nb)))%nat by lia. rewrite <- (take_take_drop _ nb), <- Hbs, drop_drop, scale_bytes_app.
  - rewrite <- !app_assoc. do 4 f_equal; lia.
  - apply even_length_iff. rewrite Hbs, length_take, length_drop. by replace (Nat.min _ _) with nb by lia.
Qed.

Lemma stream_even l : Forall data_ok l -> Nat.Even (length (stream l)).
Proof.
  induction 1 as [|d l Hd _ IH]; [by exists 0%nat |]. cbn [stream flat_map]. rewrite length_app. apply Nat.Even_Even_add; [by apply data_ok_size | done].
Qed.

(** How the loop moves on. *)
Lemma loop_moves (i off nb : nat) (size : Z) n : size = Z.of_nat n -> Z.of_nat (off + nb) < 2 ^ 32 ->
  (if u32 (Z.of_nat off + Z.of_nat nb) >=? size then (S i, 0) else (i, u32 (Z.of_nat off + Z.of_nat nb))) =
  ((if (n <=? off + nb)%nat then S i else i), Z.of_nat (if (n <=? off + nb)%nat then 0%nat else (off + nb)%nat)).
Proof.
  intros -> Hb. rewrite <- Nat2Z.inj_add, u32_small by (unfold is_u32; lia). rewrite Z.geb_leb.
  destruct (Nat.leb_spec n (off + nb)); [by rewrite (proj2 (Z.leb_le _ _)) by lia | by rewrite (proj2 (Z.leb_gt _ _)) by lia].
Qed.

Lemma volume_loop_run fuel : forall s bt bu si di soff doff k,
  bufs (vo_host s) !! t = Some bt -> bufs (vo_host s) !! u = Some bu ->
  Forall data_ok (mb_datas bt) -> Forall data_ok (mb_datas bu) ->
  place (mb_datas bt) si soff k -> place (mb_datas bu) di doff k ->
  (length (mb_datas bt) - si + (length (mb_datas bu) - di) < fuel)%nat ->
  let n := Nat.min (length (stream (mb_datas bt))) (length (stream (mb_datas bu))) in
  let run := volume_loop fuel volume u t si di (Z.of_nat soff) (Z.of_nat doff) s in
  if can_scale volume (take (n - k) (drop k (stream (mb_datas bu)))) then exists l, Forall2 same_place (mb_datas bt) l /\
    stream l = take k (stream (mb_datas bt)) ++ scale_bytes volume (take (n - k) (drop k (stream (mb_datas bu)))) ++ drop n (stream (mb_datas bt)) /\
    run = Done (tt, with_vo_host (with_buf t (with_datas l bt) (vo_host s)) s)
  else run = Undef.
Proof.
  induction fuel as [|fuel IH]; intros s bt bu si di soff doff k Ht Hu Hokt Hoku Hpt Hpu Hf n run; [lia |].
  unfold run. clear run. cbn [volume_loop]. run (get_buf_run (H := volume_host) s t bt Ht). run (get_buf_run (H := volume_host) s u bu Hu).
  pose proof (place_le _ _ _ _ Hpt) as Hkt. pose proof (place_le _ _ _ _ Hpu) as Hku.
  destruct (bool_decide (si = length (mb_datas bt)) || bool_decide (di = length (mb_datas bu))) eqn:Hend.
  - assert (n = k) as ->.
    { apply orb_true_iff in Hend as [He%bool_decide_eq_true | He%bool_decide_eq_true];
        [pose proof (place_end _ _ _ _ Hpt He) | pose proof (place_end _ _ _ _ Hpu He)]; unfold n; lia. }
    rewrite Nat.sub_diag, take_0. change (can_scale volume []) with true. cbn iota. exists (mb_datas bt). split_and!.
    + apply Forall_Forall2_diag. eapply Forall_impl; [exact Hokt |]. apply same_place_refl.
    + change (scale_bytes volume []) with (@nil Z). cbn [app]. by rewrite take_drop.
    + unfold ret. do 2 f_equal. symmetry. replace (with_datas (mb_datas bt) bt) with bt by (by destruct bt). by apply with_buf_same.
  - apply orb_false_iff in Hend as [Hs%bool_decide_eq_false Hd%bool_decide_eq_false].
    destruct (lookup_lt_is_Some_2 (mb_datas bt) si) as [x Hx]; [destruct Hpt; lia |].
    destruct (lookup_lt_is_Some_2 (mb_datas bu) di) as [dd Hdd]; [destruct Hpu; lia |].
    pose proof (Forall_lookup_1 _ _ _ _ Hokt Hx) as Hxok. pose proof (Forall_lookup_1 _ _ _ _ Hoku Hdd) as Hdok.
    destruct (data_ok_size x Hxok) as (Hxs & Hxe & Hxb). destruct (data_ok_size dd Hdok) as (Hds & Hde & Hdb).
    assert (soff <= length (valid x))%nat as Hso. { destruct (pl_off _ _ _ _ Hpt) as [-> | (d & Hd' & ?)]; [lia |]. rewrite Hx in Hd'. injection Hd' as <-. lia. }
    assert (doff <= length (valid dd))%nat as Hdo. { destruct (pl_off _ _ _ _ Hpu) as [-> | (d & Hd' & ?)]; [lia |]. rewrite Hdd in Hd'. injection Hd' as <-. lia. }
    set (nb := Nat.min (length (valid x) - soff) (length (valid dd) - doff)).
    assert (Nat.Even nb) as Hnb.
    { destruct (pl_even _ _ _ _ Hpt) as [[i1 E1] _], (pl_even _ _ _ _ Hpu) as [[i2 E2] _], Hxe as [i3 E3], Hde as [i4 E4].
      exists (Nat.min (i3 - i1) (i4 - i2)). unfold nb. lia. }
    rewrite (run_bind_done _ _ _ _ _ (get_data_run s t bt si x Ht Hx)), (run_bind_done _ _ _ _ _ (get_data_run s u bu di dd Hu Hdd)).
    rewrite (u32_small (_ - _)), (u32_small (_ - _)) by (unfold is_u32; lia). rewrite SPA_MIN_min.
    replace (Z.min _ _) with (Z.of_nat nb) by (unfold nb; lia).
    replace (Z.to_nat (Z.of_nat nb / 2)) with (nb / 2)%nat by (change 2 with (Z.of_nat 2); rewrite <- Nat2Z.inj_div; lia).
    assert (k + nb <= n)%nat as Hkn.
    { pose proof (place_le _ _ _ _ (place_step _ _ _ _ _ nb Hpt Hx ltac:(unfold nb; lia) Hnb)).
      pose proof (place_le _ _ _ _ (place_step _ _ _ _ _ nb Hpu Hdd ltac:(unfold nb; lia) Hnb)). unfold n. lia. }
    set (bs := take nb (drop k (stream (mb_datas bu)))).
    assert (length bs = nb) as Hlb by (unfold bs; rewrite length_take, length_drop; unfold n in Hkn; lia).
    assert (take (n - k) (drop k (stream (mb_datas bu))) = bs ++ take (n - (k + nb)) (drop (k + nb) (stream (mb_datas bu)))) as ->.
    { replace (n - k)%nat with (nb + (n - (k + nb)))%nat by lia. rewrite <- (take_take_drop _ nb), drop_drop. done. }
    rewrite can_scale_app by (apply even_length_iff; by rewrite Hlb).
    pose proof (turn_run s bt bu x dd si di soff doff k nb Ht Hu Hx Hdd Hxok Hdok Hpt Hpu ltac:(unfold nb; lia) ltac:(unfold nb; lia) Hnb) as Hturn.
    cbv zeta in Hturn. fold bs in Hturn. destruct (can_scale volume bs) eqn:Hcan; cbn [andb]; cbv iota in Hturn;
      [destruct Hturn as (x' & Hsame & Hstr & Hrun) | unfold bind; by rewrite Hturn].
    rewrite (run_bind_done _ _ _ _ _ Hrun). set (bt1 := with_datas _ bt) in *. set (s1 := with_vo_host _ s) in *.
    rewrite (loop_moves si soff nb _ _ Hxs), (loop_moves di doff nb _ _ Hds) by lia.
    assert (Forall2 same_place (mb_datas bt) (mb_datas bt1)) as Hfirst.
    { cbn. apply Forall2_same_length_lookup_2; [by rewrite length_insert |]. intros j d d' Hj Hj'. destruct (decide (j = si)) as [-> | Hne].
      - rewrite list_lookup_insert_eq in Hj' by (by eapply lookup_lt_Some). rewrite Hx in Hj. injection Hj as <-. by injection Hj' as <-.
      - rewrite list_lookup_insert_ne in Hj' by done. rewrite Hj in Hj'. injection Hj' as <-. apply same_place_refl. exact (Forall_lookup_1 _ _ _ _ Hokt Hj). }
    pose proof (same_places_length _ _ Hfirst Hokt) as Hlen. pose proof (Forall2_length _ _ _ Hfirst) as Hll.
    assert (bufs (vo_host s1) !! t = Some bt1) as Ht1 by apply lookup_insert_eq.
    assert (bufs (vo_host s1) !! u = Some bu) as Hu1 by (cbn; by rewrite lookup_insert_ne).
    assert (Forall data_ok (mb_datas bt1)) as Hok1 by (by eapply same_places_ok).
    assert (place (mb_datas bt1) (if (length (valid x) <=? soff + nb)%nat then S si else si)
      (if (length (valid x) <=? soff + nb)%nat then 0%nat else (soff + nb)%nat) (k + nb)) as Hpt1.
    { eapply same_places_place; [done | done |]. eapply place_step; [done | done | unfold nb; lia | done]. }
    assert (place (mb_datas bu) (if (length (valid dd) <=? doff + nb)%nat then S di else di)
      (if (length (valid dd) <=? doff + nb)%nat then 0%nat else (doff + nb)%nat) (k + nb)) as Hpu1.
    { eapply place_step; [done | done | unfold nb; lia | done]. }
    pose proof (IH s1 bt1 bu _ _ _ _ _ Ht1 Hu1 Hok1 Hoku Hpt1 Hpu1) as Hnext. rewrite Hlen in Hnext. fold n in Hnext.
    specialize (Hnext ltac:(rewrite <- Hll; apply lookup_lt_Some in Hx, Hdd;
      destruct (Nat.leb_spec (length (valid x)) (soff + nb)), (Nat.leb_spec (length (valid dd)) (doff + nb)); unfold nb in *; lia)).
    cbv zeta in Hnext. destruct (can_scale volume (take (n - (k + nb)) _)); cbv iota in Hnext; [| exact Hnext].
    destruct Hnext as (l & Hl & Hsl & Hrest). exists l. split_and!.
    + apply Forall2_same_length_lookup_2; [by rewrite Hll; apply Forall2_length in Hl |]. intros j d d2 Hj Hj2.
      destruct (Forall2_lookup_l _ _ _ _ _ Hfirst Hj) as (d1 & Hj1 & H1). destruct (Forall2_lookup_l _ _ _ _ _ Hl Hj1) as (d2' & Hj2' & H2).
      assert (d2' = d2) as -> by congruence. by eapply same_place_trans.
    + rewrite Hsl.
      pose proof (join_parts (stream (mb_datas bt)) (stream (mb_datas bt1)) (stream (mb_datas bu)) bs k nb n) as Hjoin.
      replace (bs ++ take (n - (k + nb)) (drop (k + nb) (stream (mb_datas bu)))) with (take (n - k) (drop k (stream (mb_datas bu)))).
      * apply Hjoin; [done | unfold n; lia | unfold n; lia | done | done | | exact Hstr].
        rewrite scale_bytes_length; [done | apply even_length_iff; by rewrite Hlb | by apply can_scale_spec].
      * replace (n - k)%nat with (nb + (n - (k + nb)))%nat by lia. rewrite <- (take_take_drop _ nb), drop_drop. done.
    + rewrite Hrest. do 2 f_equal. unfold s1, with_vo_host, with_buf. cbn. by rewrite insert_insert_eq.
Qed.
End Loops.

(** ** The element *)

Section Process.
Context `{ElementType} `{AudioFormatType} `{VolumeType} `{Heap}.
Implicit Types (s : SpaVolume).

Definition volume_of s : spec_float := double_of_bits (vo_volume (vo_props s)).

Lemma do_volume_run s t u bt bu : u <> t -> bufs (vo_host s) !! t = Some bt -> bufs (vo_host s) !! u = Some bu ->
  Forall data_ok (mb_datas bt) -> Forall data_ok (mb_datas bu) ->
  let n := Nat.min (length (stream (mb_datas bt))) (length (stream (mb_datas bu))) in
  if can_scale (volume_of s) (take n (stream (mb_datas bu))) then exists l, Forall2 same_place (mb_datas bt) l /\
    stream l = scale_bytes (volume_of s) (take n (stream (mb_datas bu))) ++ drop n (stream (mb_datas bt)) /\
    do_volume u t s = Done (tt, with_vo_host (with_buf t (with_datas l bt) (vo_host s)) s)
  else do_volume u t s = Undef.
Proof.
  intros Htu Ht Hu Hokt Hoku n.
  assert (forall l : list MediaData, place l 0 0 0) as Hstart by (intros l; split; [done | lia | by left | split; by exists 0%nat]).
  pose proof (volume_loop_run (volume_of s) t u Htu (S (length (mb_datas bt) + length (mb_datas bu))) s bt bu 0 0 0 0 0 Ht Hu Hokt Hoku (Hstart _) (Hstart _)
    ltac:(lia)) as Hloop. cbv zeta in Hloop. fold n in Hloop. rewrite Nat.sub_0_r, drop_0 in Hloop.
  unfold do_volume. run_step. run (get_buf_run (H := volume_host) s t bt Ht). run (get_buf_run (H := volume_host) s u bu Hu).
  destruct (can_scale _ _); cbv iota in Hloop; [| exact Hloop]. destruct Hloop as (l & Hl & Hs & Hrun). by exists l.
Qed.

(** A buffer is on the input, and one is free for the output. *)
Record volume_ready s (i o t u : Z) (bt bu : MediaBuffer) (k : nat) (l : list nat) : Prop := {
  vr_ios : vo_io (vo_in s) = Some i /\ vo_io (vo_out s) = Some o /\ i <> o;
  vr_format : vo_have_format (vo_in s) = true;
  vr_callback : vo_callback s = true;
  vr_in : exists a e, ios (vo_host s) !! i = Some a /\ 0 <= io_buffer_id a < n_buffers (vo_pool (vo_in s)) /\
    slots (vo_pool (vo_in s)) !! Z.to_nat (io_buffer_id a) = Some e /\ outbuf e = u;
  vr_out : exists a e, ios (vo_host s) !! o = Some a /\ n_buffers (vo_pool (vo_out s)) <= io_buffer_id a /\
    empty (vo_pool (vo_out s)) = k :: l /\ slots (vo_pool (vo_out s)) !! k = Some e /\ outbuf e = t;
  vr_bufs : u <> t /\ bufs (vo_host s) !! t = Some bt /\ bufs (vo_host s) !! u = Some bu;
  vr_data : Forall data_ok (mb_datas bt) /\ Forall data_ok (mb_datas bu)
}.

Lemma process_input_run s i o t u bt bu k l : volume_ready s i o t u bt bu k l ->
  let n := Nat.min (length (stream (mb_datas bt))) (length (stream (mb_datas bu))) in
  if can_scale (volume_of s) (take n (stream (mb_datas bu))) then exists s' datas, spa_volume_node_process_input s = Done (SPA_RESULT_HAVE_BUFFER, s') /\
    Forall2 same_place (mb_datas bt) datas /\
    stream datas = scale_bytes (volume_of s) (take n (stream (mb_datas bu))) ++ drop n (stream (mb_datas bt)) /\
    bufs (vo_host s') = <[t := with_datas datas bt]> (bufs (vo_host s)) /\
    (exists a, ios (vo_host s') !! i = Some a /\ io_status a = u32 SPA_RESULT_OK /\ io_buffer_id a = SPA_ID_INVALID) /\
    (exists a, ios (vo_host s') !! o = Some a /\ io_status a = u32 SPA_RESULT_OK /\ io_buffer_id a = mb_id bt) /\
    released s' = released s ++ [mb_id bu] /\ empty (vo_pool (vo_out s')) = l
  else spa_volume_node_process_input s = Undef.
Proof.
  intros [(Hi & Ho & Hne) Hf Hcb (a & e & Ha & Hid & He & Hu) (a' & e' & Ha' & Hid' & Hem & He' & Ht) (Htu & Hbt & Hbu) (Hokt & Hoku)] n.
  set (q := with_slot k (with_outstanding true e') (mkPool (slots (vo_pool (vo_out s))) (n_buffers (vo_pool (vo_out s))) l)).
  set (s1 := with_vo_out (with_vo_pool q (vo_out s)) s).
  set (s2 := with_vo_host (with_io i (with_status (u32 SPA_RESULT_OK) (with_buffer_id SPA_ID_INVALID a)) (vo_host s1)) s1).
  pose proof (do_volume_run s2 t u bt bu Htu Hbt Hbu Hokt Hoku) as Hvol. cbv zeta in Hvol. fold n in Hvol. change (volume_of s2) with (volume_of s) in Hvol.
  assert (spa_volume_node_process_input s = (do_volume u t ;;; b <- get_buf t ;;
    set_io_at (Some o) (fun a => with_status (u32 SPA_RESULT_OK) (with_buffer_id (mb_id b) a)) ;;;
    when (negb (u =? t)) (release_buffer u) ;;; ret SPA_RESULT_HAVE_BUFFER) s2) as Hstart.
  { unfold spa_volume_node_process_input. run_step. unfold id. rewrite Hi, Ho, Hf. cbn [negb].
    run (io_at_run (H := volume_host) s i a Ha). rewrite Z.geb_leb, (proj2 (Z.leb_gt _ _)) by lia.
    run (io_at_run (H := volume_host) s o a' Ha'). rewrite Z.geb_leb, (proj2 (Z.leb_le _ _)) by lia.
    assert (find_free_buffer s = Done (Some t, s1)) as Hfree.
    { unfold find_free_buffer. run_step. unfold id. rewrite Hem. unfold pool_take, pool_slot. rewrite Hem, (proj2 (Z.ltb_ge _ _)), Nat2Z.id, He' by lia.
      cbn [of_option obind]. run_step. by rewrite <- Ht. }
    rewrite (run_bind_done _ _ _ _ _ Hfree). unfold pool_slot. rewrite (proj2 (Z.ltb_ge _ _)), He by lia. cbn [of_option]. run_step. rewrite Hu.
    run (set_io_at_run (H := volume_host) s1 i a (fun a => with_status (u32 SPA_RESULT_OK) (with_buffer_id SPA_ID_INVALID a)) Ha). done. }
  rewrite Hstart. clear Hstart. destruct (can_scale _ _); cbv iota in Hvol; [| unfold bind at 1; by rewrite Hvol].
  destruct Hvol as (datas & Hd & Hs & Hrun).
  set (s3 := with_vo_host (with_buf t (with_datas datas bt) (vo_host s2)) s2) in Hrun.
  assert (ios (vo_host s3) !! o = Some a') as Ha3 by (cbn; by rewrite lookup_insert_ne).
  set (s4 := with_vo_host (with_io o (with_status (u32 SPA_RESULT_OK) (with_buffer_id (mb_id bt) a')) (vo_host s3)) s3).
  assert (bufs (vo_host s4) !! u = Some bu) as Hbu4 by (cbn; by rewrite lookup_insert_ne).
  exists (with_released (released s4 ++ [mb_id bu]) s4), datas. split.
  { run Hrun. run (get_buf_run (H := volume_host) s3 t (with_datas datas bt) (lookup_insert_eq _ _ _)).
    run (set_io_at_run (H := volume_host) s3 o a' (fun a => with_status (u32 SPA_RESULT_OK) (with_buffer_id (mb_id (with_datas datas bt)) a)) Ha3).
    rewrite (proj2 (Z.eqb_neq _ _)) by done. cbn [negb when]. unfold release_buffer. fold s4.
    erewrite run_bind_done; [done |]. run (get_buf_run (H := volume_host) s4 u bu Hbu4). unfold id.
    change (vo_callback s4) with (vo_callback s). by rewrite Hcb. }
  split_and!; [done | exact Hs | done | | | done | done].
  - eexists. split; [cbn; rewrite lookup_insert_ne by done; apply lookup_insert_eq | done].
  - eexists. split; [cbn; apply lookup_insert_eq | done].
Qed.
End Process.

(** C17: The volume element scales. Given a buffer on its input and a free one for its output, both
    with data of whole 16-bit words and chunks inside their memory, let [n] be the number of
    valid bytes that both have, the sizes of the output's chunks being what the host left in
    them: the element does not set them.  The words of the first [n] input bytes are taken
    as unsigned, whatever the format says.  If the scaled value of one of them is outside
    the range of an unsigned word, processing is undefined.  Otherwise processing returns,
    and the valid bytes of the output, in the order of its data, start with the scaled
    words of the input, in the order of the input's data, however differently the two are
    cut into data; every other byte is what it was, in both buffers. At the default volume
    the words are the input's, and every word can be scaled. The input buffer is given
    back, once. *)
Theorem volume_scales `{ElementType} `{AudioFormatType} `{VolumeType} `{Heap} (s : SpaVolume) i o t u bt bu k l :
  volume_ready s i o t u bt bu k l ->
  let n := Nat.min (length (stream (mb_datas bt))) (length (stream (mb_datas bu))) in
  let m := take n (stream (mb_datas bu)) in
  (volume_of s = one -> Forall (fun b => 0 <= b < 256) m -> can_scale (volume_of s) m = true) /\
  if can_scale (volume_of s) m then exists s' datas, spa_volume_node_process_input s = Done (SPA_RESULT_HAVE_BUFFER, s') /\
    Forall2 same_place (mb_datas bt) datas /\
    stream datas = scale_bytes (volume_of s) m ++ drop n (stream (mb_datas bt)) /\
    (volume_of s = one -> Forall (fun b => 0 <= b < 256) m -> stream datas = m ++ drop n (stream (mb_datas bt))) /\
    bufs (vo_host s') = <[t := with_datas datas bt]> (bufs (vo_host s)) /\
    (exists a, ios (vo_host s') !! i = Some a /\ io_status a = u32 SPA_RESULT_OK /\ io_buffer_id a = SPA_ID_INVALID) /\
    (exists a, ios (vo_host s') !! o = Some a /\ io_status a = u32 SPA_RESULT_OK /\ io_buffer_id a = mb_id bt) /\
    released s' = released s ++ [mb_id bu] /\ empty (vo_pool (vo_out s')) = l
  else spa_volume_node_process_input s = Undef.
Proof.
  intros Hr n m.
  assert (even_length m) as Hev.
  { apply even_length_iff. unfold m. rewrite length_take. destruct (vr_data _ _ _ _ _ _ _ _ _ Hr) as [Ht Hu].
    pose proof (stream_even _ Ht). pose proof (stream_even _ Hu). replace (Nat.min n _) with n by (unfold n; lia).
    unfold n. by destruct (Nat.min_spec (length (stream (mb_datas bt))) (length (stream (mb_datas bu)))) as [[_ ->] | [_ ->]]. }
  split; [intros -> Hb; by apply can_scale_one |].
  pose proof (process_input_run s i o t u bt bu k l Hr) as Hrun. cbv zeta in Hrun. fold n in Hrun. fold m in Hrun.
  destruct (can_scale _ _); cbv iota in Hrun; [| exact Hrun]. destruct Hrun as (s' & datas & Hrun & Hd & Hs & Hrest).
  exists s', datas. split_and!; [done | done | exact Hs | | apply Hrest..].
  intros Hone Hb. by rewrite Hs, Hone, scale_bytes_one.
Qed.

(** The volume element at work: concrete runs, which also show that the theorem's hypotheses can
    hold, and what happens when the host does what the element lets it. *)

#[local] Instance sample_filter_types : ElementType :=
  Build_ElementType 1 2 3 4 5 6 7 8 9 10 11 12 13 14 15 16 17 18 19 20 21 22.
#[local] Instance sample_filter_formats : AudioFormatType := Build_AudioFormatType 30 31 32 33 34 35 36 37 38 39.
#[local] Instance sample_volume_props : VolumeType := Build_VolumeType 60 61.

Definition sample_format (rate channels : Z) : bytes :=
  match (let* (b, ref) := spa_pod_builder_format (spa_pod_builder_init (mkFixed (fresh 1024) 1024)) t_format media_audio subtype_raw (
           PROP fa_format (PId audio_S16) ++ PROP fa_rate (PInt rate) ++ PROP fa_channels (PInt channels)) in
         SPA_POD_BUILDER_DEREF b ref) with Done f => f | _ => [] end.
Definition sample_props (volume : spec_float) (mute : Z) : bytes :=
  match (let* (b, ref) := spa_pod_builder_props (spa_pod_builder_init (mkFixed (fresh 1024) 1024)) t_props (
           PROP vo_prop_volume (PDouble (bits_of_double volume)) ++ PROP vo_prop_mute (PBool mute)) in
         SPA_POD_BUILDER_DEREF b ref) with Done f => f | _ => [] end.
Definition half : spec_float := d_div (d_of_Z 1) (d_of_Z 2).

Definition sample_data (size : Z) (l : list Z) : MediaData :=
  mkMediaData data_MemPtr (2 * zlen l) (Some (flat_map (le 2) l)) (mkChunk 0 size 0).
(** An input of two data at 100, outputs at 200 and, with an empty chunk, at 201; the IO areas. *)
Definition idle : PortIO := mkPortIO (u32 SPA_RESULT_NEED_BUFFER) SPA_ID_INVALID 0 0.
Definition filter_host : Host :=
  mkHost (list_to_map [(100, mkMediaBuffer 0 [] [sample_data 4 [2; 40; 9]; sample_data 2 [1001]]);
                       (200, mkMediaBuffer 0 [] [sample_data 8 [5; 5; 5; 5; 5]]); (201, mkMediaBuffer 0 [] [sample_data 0 [5; 5]])])
    (list_to_map [(1, idle); (2, idle)]).

Fixpoint perform (ops : list (Vol Z)) (s : SpaVolume) : outcome (list Z * SpaVolume) :=
  match ops with
  | [] => Done ([], s)
  | o :: ops => let* (r, s) := o s in let* (rs, s) := perform ops s in Done (r :: rs, s)
  end.
Definition story (ops : list (Vol Z)) : outcome (list Z * SpaVolume) :=
  match volume_init true filter_host with (_, Some s) => perform ops s | (_, None) => Refuse end.

Definition input : Z := SPA_DIRECTION_INPUT.
Definition output : Z := SPA_DIRECTION_OUTPUT.
Definition set_up (direction io : Z) (ptrs : list Z) : list (Vol Z) :=
  [spa_volume_node_port_set_io direction 0 (Some io); spa_volume_node_port_set_format direction 0 (Some (sample_format 44100 1));
   spa_volume_node_port_use_buffers direction 0 ptrs].
Definition queue_up (id : Z) : Vol Z := set_io_at (Some 1) (fun _ => mkPortIO (u32 SPA_RESULT_HAVE_BUFFER) id 0 0) ;;; ret 0.
(** Both ports with one buffer, at a volume, and a buffer queued. *)
Definition prepared (volume : spec_float) (mute out : Z) : list (Vol Z) :=
  spa_volume_node_set_callbacks true :: spa_volume_node_set_props (Some (sample_props volume mute)) :: set_up input 1 [100] ++ set_up output 2 [out] ++ [queue_up 0].
Definition memory (s : SpaVolume) (p : Z) : option (list Z) :=
  b ← bufs (vo_host s) !! p; d ← mb_datas b !! 0%nat; m ← md_data d; Some (words m).

Example halved :
  match story (prepared half 0 200 ++ [spa_volume_node_process_input]) with
  | Done (rs, s) => last rs = Some SPA_RESULT_HAVE_BUFFER /\ memory s 200 = Some [1; 20; 500; 5; 5] /\ released s = [0]
  | _ => False
  end.
Proof. vm_compute. by split_and!. Qed.

(** ** The theorem's hypotheses hold *)

Definition filter_ready : SpaVolume :=
  match story (prepared half 0 200) with
  | Done (_, s) => s
  | _ => mkVolume reset_volume_props false (0, 0, zero_audio_raw) (mkVolumePort false (mkElementInfo 0 [] 0 0) (pool_init 0) None)
      (mkVolumePort false (mkElementInfo 0 [] 0 0) (pool_init 0) None) false filter_host []
  end.
Definition input_buffer : MediaBuffer := mkMediaBuffer 0 [] [sample_data 4 [2; 40; 9]; sample_data 2 [1001]].
Definition output_buffer : MediaBuffer := mkMediaBuffer 0 [] [sample_data 8 [5; 5; 5; 5; 5]].

Lemma sample_data_ok (n : nat) l : Z.of_nat (2 * n) <= zlen (flat_map (le 2) l) -> Z.of_nat (2 * n) < 2 ^ 32 -> data_ok (sample_data (Z.of_nat (2 * n)) l).
Proof.
  intros Hn Hs. destruct (split_block (Z.of_nat (2 * n)) (flat_map (le 2) l)) as (v & z & Heq & Hv & _); [lia |].
  exists [], v, z. split_and!; [split; [change (md_data _) with (Some (flat_map (le 2) l)); by rewrite Heq | done | exact Hv] | exists n; unfold zlen in Hv; lia | done].
Qed.

Lemma filter_ready_ready : volume_ready filter_ready 1 2 200 100 output_buffer input_buffer 0%nat [].
Proof.
  split.
  - split_and!; [by vm_compute | by vm_compute | done].
  - by vm_compute.
  - by vm_compute.
  - eexists _, _. split_and!; [vm_compute; reflexivity | done | by vm_compute | vm_compute; reflexivity | by vm_compute].
  - eexists _, _. split_and!; [vm_compute; reflexivity | by vm_compute | by vm_compute | vm_compute; reflexivity | by vm_compute].
  - split_and!; [done | by vm_compute | by vm_compute].
  - split; (repeat constructor); [apply (sample_data_ok 4) | apply (sample_data_ok 2) | apply (sample_data_ok 1)]; by vm_compute.
Qed.

Lemma volume_scales_witness : exists s' datas,
  spa_volume_node_process_input filter_ready = Done (SPA_RESULT_HAVE_BUFFER, s') /\
  words (stream datas) = [1; 20; 500; 5] /\ released s' = [0].
Proof.
  destruct (volume_scales filter_ready 1 2 200 100 output_buffer input_buffer 0%nat [] filter_ready_ready) as [_ Hrun].
  match type of Hrun with (if ?c then _ else _) => assert (c = true) as Hc by (vm_compute; reflexivity) end. rewrite Hc in Hrun.
  destruct Hrun as (s' & datas & Hrun & _ & Hs & _ & _ & _ & _ & Hrel & _).
  exists s', datas. split; [exact Hrun |]. split; [rewrite Hs; by vm_compute | rewrite Hrel; by vm_compute].
Defined.

(** ** What the host may see *)

(** Nothing sets the chunk of the output: a buffer that never held anything gets nothing, and
    is put out. *)
Example nothing_copied :
  match story (prepared half 0 201 ++ [spa_volume_node_process_input]) with
  | Done (rs, s) => last rs = Some SPA_RESULT_HAVE_BUFFER /\ memory s 201 = Some [5; 5]
  | _ => False
  end.
Proof. vm_compute. by split_and!. Qed.

(** Muting does nothing. *)
Example mute_ignored :
  match story (prepared half 1 200 ++ [spa_volume_node_process_input]) with
  | Done (_, s) => vo_mute (vo_props s) = true /\ memory s 200 = Some [1; 20; 500; 5; 5]
  | _ => False
  end.
Proof. vm_compute. by split_and!. Qed.

(** Samples are taken as unsigned: half of -2 is 32767, and twice -2 does not fit. *)
Example unsigned_half : scale_sample half (unle (le 2 (-2))) = Done 32767.
Proof. by vm_compute. Qed.
Example unsigned_twice : scale_sample (d_of_Z 2) (unle (le 2 (-2))) = Undef.
Proof. by vm_compute. Qed.

(** The callback is needed. *)
Example without_callback : story (prepared half 0 200 ++ [spa_volume_node_set_callbacks false; spa_volume_node_process_input]) = Undef.
Proof. by vm_compute. Qed.

(** A new buffer counts as given away and is in the list of the free ones all the same: giving
    it back links it twice. *)
Example free_and_outstanding : story (prepared half 0 200 ++ [spa_volume_node_port_reuse_buffer 0 0]) = Undef.
Proof. by vm_compute. Qed.

(** The format that was set is not given back. *)
Example no_format_back :
  match story (prepared half 0 200) with
  | Done (_, s) => spa_volume_node_port_get_format input 0 s = Done (SPA_RESULT_OK, None, s)
  | _ => False
  end.
Proof. by vm_compute. Qed.
