(* ===== verification/LoopSources.v ===== *)
(** [pinos/client/loop.c]: the sources of a loop and one turn of it.

    A source is an object of the heap with the descriptor that wakes it; its address is
    what the kernel keeps for the descriptor in the set of [epoll]. The kernel is a
    parameter ([Files]) with what its manual promises of the set ([FilesLaws]); so is the
    code the sources call ([client_code]). *)
From stdpp Require Import gmap.
From S2P Require Import Prelude State Defs Loop.

(** ** The kernel *)

Inductive epoll_op := EPOLL_CTL_ADD | EPOLL_CTL_MOD | EPOLL_CTL_DEL.

(** [struct epoll_event]: events and [data.ptr]. *)
Abbreviation epoll_event := (Z * Z)%type.
(** [struct timespec]: seconds and nanoseconds. *)
Abbreviation timespec := (Z * Z)%type.

Class Files (K : Type) := {
  sys_epoll_ctl : epoll_op -> Z -> epoll_event -> K -> Z * K;
  (** at most so many events, the timeout; [None] is -1 *)
  sys_epoll_wait : Z -> Z -> K -> option (list epoll_event) * K;
  sys_eventfd : Z -> K -> Z * K;
  sys_timerfd_create : K -> Z * K;
  (** the descriptor, absolute, [it_value], [it_interval] *)
  sys_timerfd_settime : Z -> bool -> timespec -> timespec -> K -> Z * K;
  (** with the signal blocked for the process *)
  sys_signalfd : Z -> K -> Z * K;
  (** whether as many bytes as asked were read, or written *)
  sys_read : Z -> Z -> K -> bool * K;
  sys_write : Z -> Z -> K -> bool * K;
  sys_close : Z -> K -> K;
  (** whether memory is granted *)
  sys_calloc : Z -> K -> bool * K
}.

(** What [epoll(7)] says of the set: at most one entry for a descriptor; a descriptor
    that is created is not in it, one that is closed leaves it; what [epoll_wait]
    returns are entries of it, each once. *)
Class FilesLaws (K : Type) `{Files K} := {
  epoll_set : K -> gmap Z epoll_event;
  ctl_add fd e k : (sys_epoll_ctl EPOLL_CTL_ADD fd e k).1 < 0 /\ epoll_set (sys_epoll_ctl EPOLL_CTL_ADD fd e k).2 = epoll_set k \/
    0 <= (sys_epoll_ctl EPOLL_CTL_ADD fd e k).1 /\ epoll_set k !! fd = None /\
      epoll_set (sys_epoll_ctl EPOLL_CTL_ADD fd e k).2 = <[fd := e]> (epoll_set k);
  ctl_mod fd e k : (sys_epoll_ctl EPOLL_CTL_MOD fd e k).1 < 0 /\ epoll_set (sys_epoll_ctl EPOLL_CTL_MOD fd e k).2 = epoll_set k \/
    0 <= (sys_epoll_ctl EPOLL_CTL_MOD fd e k).1 /\ is_Some (epoll_set k !! fd) /\
      epoll_set (sys_epoll_ctl EPOLL_CTL_MOD fd e k).2 = <[fd := e]> (epoll_set k);
  ctl_del fd e k : epoll_set (sys_epoll_ctl EPOLL_CTL_DEL fd e k).2 = delete fd (epoll_set k);
  wait_keeps n t k : epoll_set (sys_epoll_wait n t k).2 = epoll_set k;
  wait_entries n t k l : (sys_epoll_wait n t k).1 = Some l -> zlen l <= Z.max 0 n /\ exists fds, NoDup fds /\
    Forall2 (fun fd e => exists evs, epoll_set k !! fd = Some (evs, e.2)) fds l;
  eventfd_keeps n k : epoll_set (sys_eventfd n k).2 = epoll_set k;
  timerfd_keeps k : epoll_set (sys_timerfd_create k).2 = epoll_set k;
  settime_keeps fd a v i k : epoll_set (sys_timerfd_settime fd a v i k).2 = epoll_set k;
  signalfd_keeps n k : epoll_set (sys_signalfd n k).2 = epoll_set k;
  read_keeps fd n k : epoll_set (sys_read fd n k).2 = epoll_set k;
  write_keeps fd v k : epoll_set (sys_write fd v k).2 = epoll_set k;
  close_leaves fd k : epoll_set (sys_close fd k) = delete fd (epoll_set k);
  calloc_keeps n k : epoll_set (sys_calloc n k).2 = epoll_set k
}.

(** ** Sources *)

(** The function of a source, static in the file. *)
Inductive source_func := source_io_func | source_idle_func | source_event_func | source_timer_func | source_signal_func.
#[export] Instance source_func_eq : EqDecision source_func.
Proof. solve_decision. Defined.

Module Source.
(** [SpaSource]; [loop] is whether it points to the loop. *)
Record SpaSource := mkSource { loop : bool; func : source_func; data : Z; fd : Z; mask : Z; rmask : Z }.
(** [callback] is the union [func]. *)
Record SpaSourceImpl := mk { source : SpaSource; close : bool; callback : Z; signal_number : Z; enabled : bool }.

Definition on_source (f : SpaSource -> SpaSource) (s : SpaSourceImpl) : SpaSourceImpl :=
  mk (f (source s)) (close s) (callback s) (signal_number s) (enabled s).
Definition with_loop (x : bool) (s : SpaSource) : SpaSource := mkSource x (func s) (data s) (fd s) (mask s) (rmask s).
Definition with_mask (x : Z) (s : SpaSource) : SpaSource := mkSource (loop s) (func s) (data s) (fd s) x (rmask s).
Definition with_rmask (x : Z) (s : SpaSource) : SpaSource := mkSource (loop s) (func s) (data s) (fd s) (mask s) x.
Definition with_enabled (x : bool) (s : SpaSourceImpl) : SpaSourceImpl := mk (source s) (close s) (callback s) (signal_number s) x.
End Source.
Import Source.

Definition sizeof_SpaSourceImpl : Z := 88.

(** What the loop calls: hooks and the listeners of [before_iterate], and the callback
    of a source, with its address, its data, and what goes with it. *)
Inductive client_call :=
| before_iterate
| loop_hook (f data : Z)
| io_call (f source fd mask data : Z)
| idle_call (f source data : Z)
| event_call (f source data : Z)
| timer_call (f source data : Z)
| signal_call (f source number data : Z).

(** [PinosLoopImpl] without the queue of Loop: the objects by their address, the list
    of them, the hooks, the thread; then the kernel, the calls made, and the state of
    everything else. *)
Record sources_of (K S : Type) := mkSources {
  sources : gmap Z SpaSourceImpl;
  source_list : list Z;
  pre_func : Z;
  post_func : Z;
  hook_data : Z;
  thread : Z;
  next_addr : Z;
  kernel : K;
  called : list client_call;
  rest : S
}.
Arguments mkSources {K S}.
Arguments sources {K S}.
Arguments source_list {K S}.
Arguments pre_func {K S}.
Arguments post_func {K S}.
Arguments hook_data {K S}.
Arguments thread {K S}.
Arguments next_addr {K S}.
Arguments kernel {K S}.
Arguments called {K S}.
Arguments rest {K S}.

Section Loop.
Context {K S : Type} `{Files K}.
Local Abbreviation L := (ST (sources_of K S)).

Definition with_sources (x : gmap Z SpaSourceImpl) (l : sources_of K S) : sources_of K S :=
  mkSources x (source_list l) (pre_func l) (post_func l) (hook_data l) (thread l) (next_addr l) (kernel l) (called l) (rest l).
Definition with_source_list (x : list Z) (l : sources_of K S) : sources_of K S :=
  mkSources (sources l) x (pre_func l) (post_func l) (hook_data l) (thread l) (next_addr l) (kernel l) (called l) (rest l).
Definition with_hooks (pre post data : Z) (l : sources_of K S) : sources_of K S :=
  mkSources (sources l) (source_list l) pre post data (thread l) (next_addr l) (kernel l) (called l) (rest l).
Definition with_thread (x : Z) (l : sources_of K S) : sources_of K S :=
  mkSources (sources l) (source_list l) (pre_func l) (post_func l) (hook_data l) x (next_addr l) (kernel l) (called l) (rest l).
Definition with_next_addr (x : Z) (l : sources_of K S) : sources_of K S :=
  mkSources (sources l) (source_list l) (pre_func l) (post_func l) (hook_data l) (thread l) x (kernel l) (called l) (rest l).
Definition with_kernel (x : K) (l : sources_of K S) : sources_of K S :=
  mkSources (sources l) (source_list l) (pre_func l) (post_func l) (hook_data l) (thread l) (next_addr l) x (called l) (rest l).
Definition with_called (x : list client_call) (l : sources_of K S) : sources_of K S :=
  mkSources (sources l) (source_list l) (pre_func l) (post_func l) (hook_data l) (thread l) (next_addr l) (kernel l) x (rest l).

(** A system call. *)
Definition sys {A} (f : K -> A * K) : L A := fun l => let '(a, k) := f (kernel l) in Done (a, with_kernel k l).

(** Following a pointer to a source, and writing one. *)
Definition get_source (p : Z) : L SpaSourceImpl :=
  fun l => match sources l !! p with Some s => Done (s, l) | None => Undef end.
Definition set_source (p : Z) (f : SpaSourceImpl -> SpaSourceImpl) : L unit :=
  s <- get_source p ;; modify (fun l => with_sources (<[p := f s]> (sources l)) l).

(** ** The functions of [SpaLoop] *)

Definition loop_add_source (p : Z) : L Z :=
  set_source p (on_source (with_loop true)) ;;;
  s <- get_source p ;;
  if negb (fd (source s) =? -1) then
    r <- sys (sys_epoll_ctl EPOLL_CTL_ADD (fd (source s)) (spa_io_to_epoll (mask (source s)), p)) ;;
    ret (if r <? 0 then SPA_RESULT_ERRNO else SPA_RESULT_OK)
  else ret SPA_RESULT_OK.

Definition loop_update_source (p : Z) : L Z :=
  s <- get_source p ;;
  if negb (fd (source s) =? -1) then
    r <- sys (sys_epoll_ctl EPOLL_CTL_MOD (fd (source s)) (spa_io_to_epoll (mask (source s)), p)) ;;
    ret (if r <? 0 then SPA_RESULT_ERRNO else SPA_RESULT_OK)
  else ret SPA_RESULT_OK.

(** With [loop] NULL the address of the loop is computed from NULL. *)
Definition loop_remove_source (p : Z) : L unit :=
  s <- get_source p ;;
  if loop (source s) then
    (if negb (fd (source s) =? -1) then _ <- sys (sys_epoll_ctl EPOLL_CTL_DEL (fd (source s)) (0, 0)) ;; ret tt else ret tt) ;;;
    set_source p (on_source (with_loop false))
  else undef.

(** ** The functions of [SpaLoopUtils] *)

(** What every [loop_add_...] does: the object, the descriptor, the set, the list; the
    result is NULL (0) without memory. *)
Definition new_source (f : source_func) (open : L Z) (mask : Z) (close : bool) (callback data number : Z) : L Z :=
  granted <- sys (sys_calloc sizeof_SpaSourceImpl) ;;
  if granted : bool then
    p <- gets next_addr ;;
    modify (with_next_addr (p + 1)) ;;;
    fd <- open ;;
    modify (fun l => with_sources (<[p := Source.mk (mkSource true f data fd mask 0) close callback number false]> (sources l)) l) ;;;
    _ <- loop_add_source p ;;
    modify (fun l => with_source_list (p :: source_list l) l) ;;;
    ret p
  else ret 0.

Definition loop_add_io (fd mask : Z) (close : bool) (func data : Z) : L Z :=
  new_source source_io_func (ret fd) mask close func data 0.

Definition loop_update_io (p mask : Z) : L Z :=
  set_source p (on_source (with_mask mask)) ;;;
  s <- get_source p ;;
  if loop (source s) then loop_update_source p else undef.

Definition loop_enable_idle (p : Z) (enabled : bool) : L unit :=
  s <- get_source p ;;
  (if enabled && negb (Source.enabled s) then _ <- sys (sys_write (fd (source s)) 1) ;; ret tt
   else if negb enabled && Source.enabled s then _ <- sys (sys_read (fd (source s)) 8) ;; ret tt
   else ret tt) ;;;
  set_source p (with_enabled enabled).

Definition loop_add_idle (enabled : bool) (func data : Z) : L Z :=
  p <- new_source source_idle_func (sys (sys_eventfd 0)) SPA_IO_IN true func data 0 ;;
  when (enabled && negb (p =? 0)) (loop_enable_idle p true) ;;;
  ret p.

Definition loop_add_event (func data : Z) : L Z :=
  new_source source_event_func (sys (sys_eventfd 0)) SPA_IO_IN true func data 0.

Definition loop_signal_event (p : Z) : L unit :=
  s <- get_source p ;; _ <- sys (sys_write (fd (source s)) 1) ;; ret tt.

Definition loop_add_timer (func data : Z) : L Z :=
  new_source source_timer_func (sys sys_timerfd_create) SPA_IO_IN true func data 0.

Definition loop_update_timer (p : Z) (value interval : option timespec) (absolute : bool) : L Z :=
  s <- get_source p ;;
  let '(it_value, absolute) :=
    match value, interval with
    | Some v, _ => (v, absolute)
    | None, Some i => (i, true)
    | None, None => ((0, 0), absolute)
    end in
  r <- sys (sys_timerfd_settime (fd (source s)) absolute it_value (default (0, 0) interval)) ;;
  ret (if r <? 0 then SPA_RESULT_ERRNO else SPA_RESULT_OK).

Definition loop_add_signal (number func data : Z) : L Z :=
  new_source source_signal_func (sys (sys_signalfd number)) SPA_IO_IN true func data number.

(** [spa_list_remove] of a source that is in the list. *)
Definition leave_list (p : Z) : L unit :=
  ps <- gets source_list ;;
  if decide (p ∈ ps) then modify (with_source_list (filter (fun q => q <> p) ps)) else undef.

Definition loop_destroy_source (p : Z) : L unit :=
  leave_list p ;;;
  loop_remove_source p ;;;
  s <- get_source p ;;
  when (negb (fd (source s) =? -1) && close s) (modify (fun l => with_kernel (sys_close (fd (source s)) (kernel l)) l)) ;;;
  modify (fun l => with_sources (delete p (sources l)) l).

(** ** The functions of [SpaLoopControl] *)

Definition loop_set_hooks (pre post data : Z) : L unit := modify (with_hooks pre post data).
Definition loop_enter (self : Z) : L unit := modify (with_thread self).
Definition loop_leave : L unit := modify (with_thread 0).

(** The code the loop calls. *)
Context (client_code : client_call -> L unit).
Definition call (c : client_call) : L unit := modify (fun l => with_called (called l ++ [c]) l) ;;; client_code c.

(** [source->func (source)] *)
Definition call_source (p : Z) : L unit :=
  s <- get_source p ;;
  let f := callback s in
  let d := data (source s) in
  match func (source s) with
  | source_io_func => call (io_call f p (fd (source s)) (rmask (source s)) d)
  | source_idle_func => call (idle_call f p d)
  | source_event_func => _ <- sys (sys_read (fd (source s)) 8) ;; call (event_call f p d)
  | source_timer_func => _ <- sys (sys_read (fd (source s)) 8) ;; call (timer_call f p d)
  | source_signal_func => _ <- sys (sys_read (fd (source s)) 128) ;; call (signal_call f p (signal_number s) d)
  end.

Definition run_hook (f : Z) : L unit := d <- gets hook_data ;; when (negb (f =? 0)) (call (loop_hook f d)).

(** Every source first gets its [rmask]; then those that still have one are called. *)
Definition set_rmasks (ep : list epoll_event) : L unit :=
  each ep (fun e => set_source e.2 (on_source (with_rmask (spa_epoll_to_io e.1)))).
Definition call_ready (ep : list epoll_event) : L unit :=
  each ep (fun e => s <- get_source e.2 ;; when (negb (rmask (source s) =? 0)) (call_source e.2)).

Definition loop_iterate (timeout : Z) : L Z :=
  call before_iterate ;;;
  (pre <- gets pre_func ;; run_hook pre) ;;;
  nfds <- sys (sys_epoll_wait 32 timeout) ;;
  (post <- gets post_func ;; run_hook post) ;;;
  match nfds with
  | None => ret SPA_RESULT_ERRNO
  | Some ep => set_rmasks ep ;;; call_ready ep ;;; ret SPA_RESULT_OK
  end.

(** What [pinos_loop_new] starts from, before it adds the event of the queue. *)
Definition no_sources (k : K) (s : S) : sources_of K S := mkSources ∅ [] 0 0 0 0 1 k [] s.

(** [pinos_loop_destroy], after its signal: the loop of [spa_list_for_each_safe]. *)
Definition destroy_sources : L unit := ps <- gets source_list ;; each ps loop_destroy_source.
End Loop.
