(* ===== verification/LoopSourcesTheory.v ===== *)
(** The sources of a loop: every operation leaves the set of [epoll] with live sources
    only, a turn calls what is ready, and the interface of timers (see TimerLoop) is
    what a loop gives its users. *)
From stdpp Require Import gmap.
From S2P Require Import Prelude State Defs Loop LoopSources.
Import Source.

Section Theory.
Context {K S : Type} `{FilesLaws K}.
Local Abbreviation L := (ST (sources_of K S)).

(** ** The invariant *)

(** What [epoll] returns leads to a live source with that descriptor; the list is
    exactly of the live sources. *)
Record wf (l : sources_of K S) : Prop := {
  wf_set fd e p : epoll_set (kernel l) !! fd = Some (e, p) -> fd <> -1 /\ exists s, sources l !! p = Some s /\ Source.fd (source s) = fd;
  wf_nodup : NoDup (source_list l);
  wf_list p : p ∈ source_list l <-> is_Some (sources l !! p);
  wf_live p s : sources l !! p = Some s -> loop (source s) = true /\ 0 < p < next_addr l;
  wf_next : 0 < next_addr l
}.

Lemma wf_no_sources k s : epoll_set k = ∅ -> wf (no_sources k s).
Proof.
  intros Hk. split; simpl; [| constructor | | | lia].
  - intros fd e p. rewrite Hk. by intros ?%lookup_empty_Some.
  - intros p. rewrite lookup_empty. split; [by intros ?%not_elem_of_nil | by intros []].
  - intros p t. by intros ?%lookup_empty_Some.
Qed.

(** All sources but [own] stay what they are. *)
Definition steady (own : list Z) (l l' : sources_of K S) : Prop :=
  (forall q, q ∉ own -> is_Some (sources l !! q) -> sources l' !! q = sources l !! q) /\ called l' = called l.

Definition does {A} (own : list Z) (m : L A) (l : sources_of K S) (Q : A -> sources_of K S -> Prop) : Prop :=
  exists a l', m l = Done (a, l') /\ wf l' /\ steady own l l' /\ Q a l'.

Lemma steady_refl own l : steady own l l.
Proof. done. Qed.
Lemma steady_trans own l1 l2 l3 : steady own l1 l2 -> steady own l2 l3 -> steady own l1 l3.
Proof.
  intros [H1 C1] [H2 C2]. split; [| congruence]. intros q Hq Hl. rewrite H2, H1; [done.. |]. by rewrite H1.
Qed.

Lemma does_ret {A} own (a : A) l (Q : A -> sources_of K S -> Prop) : wf l -> Q a l -> does own (ret a) l Q.
Proof. intros Hl HQ. by exists a, l. Qed.
Lemma does_bind {A B} own (m : L A) (f : A -> L B) l Q R :
  does own m l Q -> (forall a l1, wf l1 -> steady own l l1 -> Q a l1 -> does own (f a) l1 R) -> does own (bind m f) l R.
Proof.
  intros (a & l1 & Hm & Hw & Hs & HQ) Hf. destruct (Hf a l1 Hw Hs HQ) as (b & l2 & Hm2 & Hw2 & Hs2 & HR).
  exists b, l2. split; [by rewrite (run_bind_done _ _ _ _ _ Hm) |]. split_and!; [done | by eapply steady_trans | done].
Qed.
Lemma does_weaken {A} own (m : L A) l (Q R : A -> sources_of K S -> Prop) :
  does own m l Q -> (forall a l1, Q a l1 -> R a l1) -> does own m l R.
Proof. intros (a & l1 & Hm & Hw & Hs & HQ) HR. exists a, l1. split_and!; [done.. | by apply HR]. Qed.

Lemma does_gets {A B} own (f : sources_of K S -> A) (k : A -> L B) l Q : does own (k (f l)) l Q -> does own (bind (gets f) k) l Q.
Proof. done. Qed.
Lemma does_get {B} own p s (k : _ -> L B) l Q : sources l !! p = Some s -> does own (k s) l Q -> does own (bind (get_source p) k) l Q.
Proof. intros Hp Hk. unfold does, bind, get_source. by rewrite Hp. Qed.
Lemma run_set {B} p s f (k : unit -> L B) l : sources l !! p = Some s ->
  bind (set_source p f) k l = k tt (with_sources (<[p := f s]> (sources l)) l).
Proof. intros Hp. unfold set_source, bind, get_source. by rewrite Hp. Qed.

Lemma same_kernel (l : sources_of K S) : l = with_kernel (kernel l) l.
Proof. by destruct l. Qed.

(** A system call that leaves the set alone. *)
Lemma wf_kernel k l : wf l -> epoll_set k ⊆ epoll_set (kernel l) -> wf (with_kernel k l).
Proof. intros [W1 W2 W3 W4 W5] Hk. split; try done. simpl. intros fd e p Hp. apply (W1 fd e p). by eapply lookup_weaken. Qed.
Lemma does_sys {A} own (f : K -> A * K) l : wf l -> epoll_set (f (kernel l)).2 = epoll_set (kernel l) ->
  does own (sys f) l (fun a l' => sources l' = sources l /\ a = (f (kernel l)).1).
Proof.
  intros Hl Hf. unfold does, sys. destruct (f (kernel l)) as [a k] eqn:Hk. exists a, (with_kernel k l).
  split_and!; try done. apply wf_kernel; [done |]. simpl in Hf. by rewrite Hf.
Qed.

(** Changing what does not matter to the invariant. *)
Lemma wf_insert p s s' l : wf l -> sources l !! p = Some s -> loop (source s') = true -> Source.fd (source s') = Source.fd (source s) ->
  wf (with_sources (<[p := s']> (sources l)) l).
Proof.
  intros [W1 W2 W3 W4 W5] Hp Hloop Hfd. destruct (W4 p s Hp) as [_ Hb]. split; simpl; try done.
  - intros fd e q Hq. destruct (W1 fd e q Hq) as (Hne & t & Ht & Hf). split; [done |]. destruct (decide (q = p)) as [-> |].
    + exists s'. rewrite lookup_insert_eq. split; [done | congruence].
    + exists t. by rewrite lookup_insert_ne by done.
  - intros q. rewrite W3. destruct (decide (q = p)) as [-> |]; [rewrite lookup_insert_eq, Hp; by split | by rewrite lookup_insert_ne by done].
  - intros q t. destruct (decide (q = p)) as [-> |]; [rewrite lookup_insert_eq; by intros [= <-] |]. rewrite lookup_insert_ne by done. apply W4.
Qed.
Lemma does_set own p s f l : wf l -> sources l !! p = Some s -> p ∈ own -> loop (source (f s)) = loop (source s) -> Source.fd (source (f s)) = Source.fd (source s) ->
  does own (set_source p f) l (fun _ l' => l' = with_sources (<[p := f s]> (sources l)) l).
Proof.
  intros Hl Hp Hown Hloop Hfd. exists tt, (with_sources (<[p := f s]> (sources l)) l). split_and!.
  - unfold set_source, bind, get_source. by rewrite Hp.
  - eapply wf_insert; try done. rewrite Hloop. by eapply wf_live.
  - split; [| done]. intros q Hq _. simpl. rewrite lookup_insert_ne; [done | by intros ->].
  - done.
Qed.

(** ** The operations *)

Definition opens (open : L Z) : Prop := forall l, exists fd k, open l = Done (fd, with_kernel k l) /\ epoll_set k = epoll_set (kernel l).
Lemma opens_ret fd : opens (ret fd).
Proof. intros l. exists fd, (kernel l). by destruct l. Qed.
Lemma opens_sys f : (forall k, epoll_set (f k).2 = epoll_set k) -> opens (sys f).
Proof. intros Hf l. unfold sys. destruct (f (kernel l)) as [fd k] eqn:Hk. exists fd, k. split; [done |]. rewrite <- (Hf (kernel l)). by rewrite Hk. Qed.

(** A new source is at a fresh address, or there is no memory. *)
Definition made (f : source_func) (mask : Z) (close : bool) (callback data number : Z) (l : sources_of K S) (p : Z) (l' : sources_of K S) : Prop :=
  p = 0 /\ sources l' = sources l /\ (sys_calloc sizeof_SpaSourceImpl (kernel l)).1 = false \/
  p <> 0 /\ sources l !! p = None /\ exists fd, sources l' = <[p := Source.mk (mkSource true f data fd mask 0) close callback number false]> (sources l).

Lemma wf_new p s k l : wf l -> p = next_addr l -> loop (source s) = true ->
  epoll_set k ⊆ epoll_set (kernel l) \/ Source.fd (source s) <> -1 /\ epoll_set k = <[Source.fd (source s) := (spa_io_to_epoll (mask (source s)), p)]> (epoll_set (kernel l)) ->
  wf (with_source_list (p :: source_list l) (with_kernel k (with_sources (<[p := s]> (sources l)) (with_next_addr (p + 1) l)))).
Proof.
  intros [W1 W2 W3 W4 W5] -> Hloop Hk.
  assert (sources l !! next_addr l = None) as Hnew by (destruct (sources l !! next_addr l) as [t |] eqn:Ht; [destruct (W4 _ _ Ht); lia | done]).
  assert (forall fd e q, epoll_set (kernel l) !! fd = Some (e, q) -> fd <> -1 /\ exists t, <[next_addr l := s]> (sources l) !! q = Some t /\ Source.fd (source t) = fd) as Hold.
  { intros fd e q Hq. destruct (W1 fd e q Hq) as (Hne & t & Ht & Hf). split; [done |]. exists t. rewrite lookup_insert_ne; [done | congruence]. }
  split; simpl.
  - intros fd e q Hq. destruct Hk as [Hk | [Hne Hk]]; [apply (Hold fd e q); by eapply lookup_weaken |].
    rewrite Hk in Hq. destruct (decide (fd = Source.fd (source s))) as [-> |].
    + rewrite lookup_insert_eq in Hq. injection Hq as <- <-. split; [done |]. exists s. by rewrite lookup_insert_eq.
    + rewrite lookup_insert_ne in Hq by done. by apply (Hold fd e q).
  - constructor; [| done]. rewrite W3, Hnew. by intros [].
  - intros q. rewrite elem_of_cons, W3. destruct (decide (q = next_addr l)) as [-> |].
    + rewrite lookup_insert_eq. split; [by exists s | by left].
    + rewrite lookup_insert_ne by done. split; [intros [-> |]; done | by right].
  - intros q t. destruct (decide (q = next_addr l)) as [-> |].
    + rewrite lookup_insert_eq. intros [= <-]. split; [done | lia].
    + rewrite lookup_insert_ne by done. intros Ht. destruct (W4 q t Ht). split; [done | lia].
  - lia.
Qed.

Lemma new_source_does own f open mask close callback data number l : wf l -> opens open ->
  does own (new_source f open mask close callback data number) l (made f mask close callback data number l).
Proof.
  intros Hl Hopen. unfold new_source.
  destruct (sys_calloc sizeof_SpaSourceImpl (kernel l)) as [granted k0] eqn:Hc.
  assert (epoll_set k0 = epoll_set (kernel l)) as Hk0 by (rewrite <- (calloc_keeps sizeof_SpaSourceImpl (kernel l)); by rewrite Hc).
  assert (sys (sys_calloc sizeof_SpaSourceImpl) l = Done (granted, with_kernel k0 l)) as Hrun by (unfold sys; by rewrite Hc).
  unfold does. rewrite (run_bind_done _ _ _ _ _ Hrun). destruct granted.
  2: { exists 0, (with_kernel k0 l). split_and!; [done | apply wf_kernel; [done | by rewrite Hk0] | done | left; by rewrite Hc]. }
  run_step. change (next_addr (with_kernel k0 l)) with (next_addr l). set (p := next_addr l).
  destruct (Hopen (with_next_addr (p + 1) (with_kernel k0 l))) as (fd & k1 & Ho & Hk1). rewrite (run_bind_done _ _ _ _ _ Ho). run_step.
  set (s := Source.mk (mkSource true f data fd mask 0) close callback number false).
  set (l1 := with_sources (<[p := s]> (sources l)) (with_kernel k1 (with_next_addr (p + 1) (with_kernel k0 l)))).
  assert (epoll_set k1 = epoll_set (kernel l)) as Hk1' by (rewrite Hk1; exact Hk0).
  assert (exists r k2, loop_add_source p l1 = Done (r, with_kernel k2 l1) /\
    (epoll_set k2 ⊆ epoll_set (kernel l) \/ fd <> -1 /\ epoll_set k2 = <[fd := (spa_io_to_epoll mask, p)]> (epoll_set (kernel l)))) as (r & k2 & Hadd & Hk2).
  { unfold loop_add_source. rewrite (run_set p s) by (simpl; by rewrite lookup_insert_eq). change (sources l1) with (<[p := s]> (sources l)).
    rewrite insert_insert_eq. change (on_source (with_loop true) s) with s. change (with_sources (<[p:=s]> (sources l)) l1) with l1.
    unfold bind at 1, get_source. replace (sources l1 !! p) with (Some s) by (simpl; by rewrite lookup_insert_eq).
    cbn [obind]. change (Source.fd (source s)) with fd. change (Source.mask (source s)) with mask. case_match eqn:Hfd.
    - unfold bind, sys. change (kernel l1) with k1. pose proof (ctl_add fd (spa_io_to_epoll mask, p) k1) as Hctl.
      destruct (sys_epoll_ctl EPOLL_CTL_ADD fd (spa_io_to_epoll mask, p) k1) as [r k2]. cbn [obind]. eexists _, k2. split; [done |]. simpl in Hctl.
      rewrite Hk1' in Hctl. apply negb_true_iff, Z.eqb_neq in Hfd. destruct Hctl as [[_ Hk] | (_ & _ & Hk)]; [left; by rewrite Hk | right; done].
    - exists SPA_RESULT_OK, k1. split; [by destruct l | left; by rewrite Hk1']. }
  rewrite (run_bind_done _ _ _ _ _ Hadd). run_step.
  exists p, (with_source_list (p :: source_list l) (with_kernel k2 (with_sources (<[p := s]> (sources l)) (with_next_addr (p + 1) l)))).
  assert (sources l !! p = None) as Hnew by (destruct (sources l !! p) as [t |] eqn:Ht; [pose proof (wf_live l Hl _ _ Ht) as [_ ?]; lia | done]).
  split_and!; [by destruct l | by apply (wf_new p s k2 l) | | ].
  - split; [| done]. intros q _ [t Ht]. simpl. rewrite lookup_insert_ne; [done | congruence].
  - right. split; [pose proof (wf_next l Hl); lia |]. split; [exact Hnew | by exists fd].
Qed.

Lemma add_io_does own fd mask close func data l : wf l -> does own (loop_add_io fd mask close func data) l (made source_io_func mask close func data 0 l).
Proof. intros Hl. apply new_source_does; [done | apply opens_ret]. Qed.
Lemma add_event_does own func data l : wf l -> does own (loop_add_event func data) l (made source_event_func SPA_IO_IN true func data 0 l).
Proof. intros Hl. apply new_source_does; [done | apply opens_sys, eventfd_keeps]. Qed.
Lemma add_timer_does own func data l : wf l -> does own (loop_add_timer func data) l (made source_timer_func SPA_IO_IN true func data 0 l).
Proof. intros Hl. apply new_source_does; [done | apply opens_sys, timerfd_keeps]. Qed.
Lemma add_signal_does own number func data l : wf l ->
  does own (loop_add_signal number func data) l (made source_signal_func SPA_IO_IN true func data number l).
Proof. intros Hl. apply new_source_does; [done | apply opens_sys, signalfd_keeps]. Qed.

(** Calls on a source that is there. *)
Lemma update_io_does own p mask s l : wf l -> sources l !! p = Some s -> p ∈ own ->
  does own (loop_update_io p mask) l (fun _ l' => sources l' = <[p := on_source (with_mask mask) s]> (sources l)).
Proof.
  intros Hl Hp Hown. unfold loop_update_io. eapply does_bind; [by apply (does_set own p s (on_source (with_mask mask))) |].
  intros [] l1 Hl1 _ ->. set (l1 := with_sources _ l). assert (sources l1 !! p = Some (on_source (with_mask mask) s)) as Hp1 by (simpl; by rewrite lookup_insert_eq).
  eapply does_get; [exact Hp1 |]. rewrite (proj1 (wf_live l1 Hl1 _ _ Hp1)). unfold loop_update_source. eapply does_get; [exact Hp1 |].
  case_match; [| by apply does_ret]. set (e := (_, p)).
  pose proof (ctl_mod (Source.fd (source s)) e (kernel l1)) as Hctl. unfold does, bind, sys.
  cbn [source on_source with_mask Source.fd] in *. destruct (sys_epoll_ctl EPOLL_CTL_MOD _ e (kernel l1)) as [r k] eqn:Hr. cbn [obind fst snd] in *.
  eexists _, (with_kernel k l1).
  split; [done |]. split_and!; try done. destruct Hctl as [[_ Hk] | (_ & _ & Hk)]; [apply wf_kernel; [done | by rewrite Hk] |].
  destruct Hl1 as [W1 W2 W3 W4 W5]. split; try done. intros fd ev q. change (kernel (with_kernel k l1)) with k. change (sources (with_kernel k l1)) with (sources l1).
  rewrite Hk. destruct (decide (fd = Source.fd (source s))) as [-> |]; [| rewrite lookup_insert_ne by done; apply W1].
  rewrite lookup_insert_eq. intros [= _ <-]. split; [by apply Z.eqb_neq, negb_true_iff | by eexists].
Qed.

Lemma update_timer_does own p value interval absolute s l : wf l -> sources l !! p = Some s ->
  does own (loop_update_timer p value interval absolute) l (fun _ l' => sources l' = sources l).
Proof.
  intros Hl Hp. unfold loop_update_timer. eapply does_get; [exact Hp |].
  set (va := match value, interval with Some v, _ => (v, absolute) | None, Some i => (i, true) | None, None => ((0, 0), absolute) end).
  destruct va as [it a]. eapply does_bind; [apply does_sys; [done | apply settime_keeps] |]. intros r l1 Hl1 _ [Hs _]. by apply does_ret.
Qed.

Lemma signal_event_does own p s l : wf l -> sources l !! p = Some s -> does own (loop_signal_event p) l (fun _ l' => sources l' = sources l).
Proof.
  intros Hl Hp. unfold loop_signal_event. eapply does_get; [exact Hp |].
  eapply does_bind; [apply does_sys; [done | apply write_keeps] |]. intros r l1 Hl1 _ [Hs _]. by apply does_ret.
Qed.

Lemma enable_idle_does own p enabled s l : wf l -> sources l !! p = Some s -> p ∈ own ->
  does own (loop_enable_idle p enabled) l (fun _ l' => sources l' = <[p := with_enabled enabled s]> (sources l)).
Proof.
  intros Hl Hp Hown. unfold loop_enable_idle. eapply does_get; [exact Hp |].
  eapply (does_bind own _ _ l (fun _ l' => sources l' = sources l)).
  - repeat case_match; try (eapply does_bind; [apply does_sys; [done | first [apply write_keeps | apply read_keeps]] | intros ? ? ? _ [? _]]); by apply does_ret.
  - intros [] l1 Hl1 _ Hs. eapply does_weaken; [eapply (does_set own p s); [done | congruence | done..] |]. intros [] l2 ->. simpl. by rewrite Hs.
Qed.

Lemma add_idle_does own enabled func data l : wf l ->
  does own (loop_add_idle enabled func data) l (fun p l' => p = 0 /\ sources l' = sources l \/
    p <> 0 /\ sources l !! p = None /\ exists fd, sources l' =
      <[p := Source.mk (mkSource true source_idle_func data fd SPA_IO_IN 0) true func 0 enabled]> (sources l)).
Proof.
  intros Hl. destruct (new_source_does [] source_idle_func (sys (sys_eventfd 0)) SPA_IO_IN true func data 0 l Hl (opens_sys _ (eventfd_keeps 0)))
    as (p & l1 & Hrun & Hl1 & Hs & Hmade). unfold loop_add_idle, does. rewrite (run_bind_done _ _ _ _ _ Hrun).
  assert (steady own l l1) as Hown by (destruct Hs as [H1 H2]; split; [| done]; intros q _; apply H1, not_elem_of_nil).
  destruct Hmade as [(-> & Hm & _) | (Hne & Hnew & fd & Hm)].
  - rewrite andb_false_r. exists 0, l1. split_and!; [done.. | by left].
  - rewrite (proj2 (Z.eqb_neq p 0) Hne), andb_true_r. destruct enabled; simpl.
    + set (s := Source.mk _ _ _ _ _) in Hm. assert (sources l1 !! p = Some s) as Hp by (rewrite Hm; by rewrite lookup_insert_eq).
      destruct (enable_idle_does [p] p true s l1 Hl1 Hp) as ([] & l2 & Hr2 & Hl2 & Hs2 & Hm2); [by left |]. rewrite (run_bind_done _ _ _ _ _ Hr2).
      exists p, l2. split_and!; [done.. | |].
      * destruct Hs2 as [H1 H2], Hown as [H3 H4]. split; [| congruence]. intros q Hq [t Ht].
        rewrite H1, H3; [done | done | by exists t | |]; [| rewrite H3; [by exists t | done | by exists t]].
        intros ->%list_elem_of_singleton. congruence.
      * right. split_and!; [done.. |]. exists fd. rewrite Hm2, Hm. by rewrite insert_insert_eq.
    + exists p, l1. split_and!; [done.. |]. right. split_and!; [done.. |]. by exists fd.
Qed.

(** The descriptor leaves the set before the object goes. *)
Lemma destroy_source_does own p s l : wf l -> sources l !! p = Some s -> p ∈ own ->
  does own (loop_destroy_source p) l (fun _ l' => sources l' = delete p (sources l) /\ source_list l' = filter (fun q => q <> p) (source_list l)).
Proof.
  intros Hl Hp Hown. pose proof Hl as [W1 W2 W3 W4 W5]. unfold does, loop_destroy_source, leave_list. run_step.
  rewrite decide_True by (apply W3; by exists s). run_step. set (l1 := with_source_list _ l).
  assert (sources l1 !! p = Some s) as Hp1 by done. unfold loop_remove_source. run_step. unfold bind at 1, get_source. rewrite Hp1. cbn [obind].
  rewrite (proj1 (W4 p s Hp)). run_step. set (fd := Source.fd (source s)).
  assert (exists k, (if negb (fd =? -1) then _ <- sys (sys_epoll_ctl EPOLL_CTL_DEL fd (0, 0)) ;; ret tt else ret tt) l1 = Done (tt, with_kernel k l1) /\
    epoll_set k = delete fd (epoll_set (kernel l))) as (k & Hdel & Hk).
  { case_match eqn:Hfd.
    - unfold bind, sys. change (kernel l1) with (kernel l). pose proof (ctl_del fd (0, 0) (kernel l)) as Hctl.
      destruct (sys_epoll_ctl EPOLL_CTL_DEL fd (0, 0) (kernel l)) as [r k]. by exists k.
    - exists (kernel l). split; [by destruct l |]. apply negb_false_iff, Z.eqb_eq in Hfd. rewrite delete_id; [done |].
      destruct (epoll_set (kernel l) !! fd) as [[e q] |] eqn:He; [| done]. by destruct (W1 _ _ _ He). }
  rewrite (run_bind_done _ _ _ _ _ Hdel). rewrite (run_set p s) by done. set (s' := on_source (with_loop false) s).
  unfold bind at 1, get_source. replace (sources (with_sources _ _) !! p) with (Some s') by (simpl; by rewrite lookup_insert_eq). cbn [obind].
  set (l2 := with_sources _ (with_kernel k l1)).
  assert (exists k', when (negb (Source.fd (source s') =? -1) && close s') (modify (fun l => with_kernel (sys_close (Source.fd (source s')) (kernel l)) l)) l2 = Done (tt, with_kernel k' l2) /\
    epoll_set k' ⊆ epoll_set k /\ epoll_set k' !! fd = None) as (k' & Hclose & Hk' & Hgone).
  { destruct (negb _ && _); simpl.
    - eexists. split; [done |]. change (kernel l2) with k. change (Source.fd (source s')) with fd. rewrite close_leaves, Hk. split; [apply delete_subseteq | by rewrite lookup_delete_eq].
    - exists k. split; [exact (f_equal (fun x => Done (tt, x)) (same_kernel l2)) |]. rewrite Hk. split; [done | by rewrite lookup_delete_eq]. }
  rewrite (run_bind_done _ _ _ _ _ Hclose).
  set (l3 := with_source_list (filter (fun q => q <> p) (source_list l)) (with_kernel k' (with_sources (delete p (sources l)) l))).
  exists tt, l3. split_and!; [| | | reflexivity | reflexivity].
  - unfold modify. f_equal. f_equal. unfold l3, l2. destruct l; simpl. unfold with_sources, with_kernel. simpl. f_equal. by rewrite delete_insert_eq.
  - split; simpl; try done.
    + intros f e q Hq. assert (f <> fd) by (intros ->; congruence). assert (epoll_set (kernel l) !! f = Some (e, q)) as Hq'.
      { eapply lookup_weaken; [exact Hq |]. etrans; [exact Hk' |]. rewrite Hk. apply delete_subseteq. }
      destruct (W1 f e q Hq') as (Hne & t & Ht & Hf). split; [done |]. exists t. rewrite lookup_delete_ne; [done |]. intros <-. rewrite Hp in Ht. injection Ht as <-. done.
    + by apply NoDup_filter.
    + intros q. rewrite list_elem_of_filter, W3. destruct (decide (q = p)) as [-> |]; [rewrite lookup_delete_eq; split; [by intros [] | by intros []] |].
      rewrite lookup_delete_ne by done. by split; [intros [] | ].
    + intros q t [_ Ht]%lookup_delete_Some. by apply W4.
  - split; [| done]. intros q Hq _. simpl. rewrite lookup_delete_ne; [done | by intros <-].
Qed.

Lemma filter_absent p (ps : list Z) : p ∉ ps -> filter (fun q => q <> p) ps = ps.
Proof.
  induction ps as [|q ps IH]; [done |]. intros [Hne Hp]%not_elem_of_cons. rewrite filter_cons_True by done. by rewrite IH.
Qed.

(** [pinos_loop_destroy] leaves nothing. *)
Lemma destroy_sources_does l : wf l -> exists l', destroy_sources l = Done (tt, l') /\ wf l' /\ sources l' = ∅ /\ source_list l' = [].
Proof.
  intros Hl. unfold destroy_sources. run_step.
  assert (forall ps l, wf l -> source_list l = ps -> exists l', each ps loop_destroy_source l = Done (tt, l') /\ wf l' /\ source_list l' = []) as Hall.
  { clear l Hl. induction ps as [|p ps IH]; intros l Hl Hps; simpl; [by exists l |].
    destruct (proj1 (wf_list l Hl p)) as [s Hs]; [rewrite Hps; left |].
    destruct (destroy_source_does [p] p s l Hl Hs) as ([] & l1 & Hrun & Hl1 & _ & Hs1 & Hlist); [by left |]. rewrite (run_bind_done _ _ _ _ _ Hrun).
    apply IH; [done |]. rewrite Hlist, Hps. pose proof (wf_nodup l Hl) as Hn. rewrite Hps in Hn. apply NoDup_cons in Hn as [Hn _].
    rewrite filter_cons_False by (by intros []). by apply filter_absent. }
  destruct (Hall _ l Hl eq_refl) as (l' & Hrun & Hl' & He). exists l'. split_and!; [done.. | | done].
  apply map_eq. intros p. rewrite lookup_empty. destruct (sources l' !! p) as [s |] eqn:Hp; [| done].
  assert (p ∈ source_list l') as Hin by (apply wf_list; [done | by exists s]). rewrite He in Hin. by apply not_elem_of_nil in Hin.
Qed.

(** ** A turn of the loop *)

Context (client_code : client_call -> L unit).

(** The source a call is for. *)
Definition callee (c : client_call) : list Z :=
  match c with
  | before_iterate | loop_hook _ _ => []
  | io_call _ p _ _ _ | idle_call _ p _ | event_call _ p _ | timer_call _ p _ | signal_call _ p _ _ => [p]
  end.

(** Code that returns, keeps to the operations, and leaves all sources alone but the
    one it is called for; it may destroy that one, and make new ones. *)
Definition considerate : Prop :=
  forall c l, wf l -> (forall p, p ∈ callee c -> is_Some (sources l !! p)) -> does (callee c) (client_code c) l (fun _ _ => True).

(** The call of a source that is ready. *)
Definition source_call (p : Z) (s : SpaSourceImpl) (events : Z) : client_call :=
  match func (source s) with
  | source_io_func => io_call (callback s) p (Source.fd (source s)) (spa_epoll_to_io events) (data (source s))
  | source_idle_func => idle_call (callback s) p (data (source s))
  | source_event_func => event_call (callback s) p (data (source s))
  | source_timer_func => timer_call (callback s) p (data (source s))
  | source_signal_func => signal_call (callback s) p (signal_number s) (data (source s))
  end.
(** The calls for what [epoll_wait] returned: events the loop has no name for count
    for nothing. *)
Definition ready_calls (h : gmap Z SpaSourceImpl) (ep : list epoll_event) : list client_call :=
  omap (fun e => match h !! e.2 with
    | Some s => if spa_epoll_to_io e.1 =? 0 then None else Some (source_call e.2 s e.1)
    | None => None
    end) ep.

Definition is_hook (c : client_call) : Prop := match c with before_iterate | loop_hook _ _ => True | _ => False end.

Lemma call_returns c l : considerate -> wf l -> (forall p, p ∈ callee c -> is_Some (sources l !! p)) ->
  exists l', call client_code c l = Done (tt, l') /\ wf l' /\ called l' = called l ++ [c] /\
    forall q, q ∉ callee c -> is_Some (sources l !! q) -> sources l' !! q = sources l !! q.
Proof.
  intros Hc Hl Hcallee. unfold call. run_step. set (l1 := with_called _ l).
  assert (wf l1) as Hl1 by (destruct Hl; by split).
  destruct (Hc c l1 Hl1 Hcallee) as ([] & l' & Hrun & Hl' & [Hs Hcalled] & _). exists l'. by split_and!.
Qed.

Lemma hook_returns f l : considerate -> wf l ->
  exists l' hooks, run_hook client_code f l = Done (tt, l') /\ wf l' /\ Forall is_hook hooks /\ called l' = called l ++ hooks /\
    forall q, is_Some (sources l !! q) -> sources l' !! q = sources l !! q.
Proof.
  intros Hc Hl. unfold run_hook. run_step. destruct (negb (f =? 0)); simpl.
  - destruct (call_returns (loop_hook f (hook_data l)) l Hc Hl) as (l' & Hrun & Hl' & Hcalled & Hs); [by intros p ?%not_elem_of_nil |].
    exists l', [loop_hook f (hook_data l)]. split_and!; [done.. | by repeat constructor | done |]. intros q. apply Hs, not_elem_of_nil.
  - exists l, []. split_and!; [done.. | by constructor | by rewrite app_nil_r | done].
Qed.

Lemma call_source_returns p s events l : considerate -> wf l -> sources l !! p = Some (on_source (with_rmask (spa_epoll_to_io events)) s) ->
  exists l', call_source client_code p l = Done (tt, l') /\ wf l' /\ called l' = called l ++ [source_call p s events] /\
    forall q, q <> p -> is_Some (sources l !! q) -> sources l' !! q = sources l !! q.
Proof.
  intros Hc Hl Hp. unfold call_source. rewrite (run_bind_done (get_source p) _ l _ l) by (unfold get_source; by rewrite Hp).
  set (c := source_call p s events). assert (callee c = [p]) as Hcallee by (unfold c, source_call; by destruct (func (source s))).
  assert (forall l1, wf l1 -> sources l1 = sources l -> called l1 = called l ->
    exists l', call client_code c l1 = Done (tt, l') /\ wf l' /\ called l' = called l ++ [c] /\
      forall q, q <> p -> is_Some (sources l !! q) -> sources l' !! q = sources l !! q) as Hcall.
  { intros l1 Hl1 Hs1 Hc1. destruct (call_returns c l1 Hc Hl1) as (l' & Hrun & Hl' & Hcalled & Hs).
    - intros q. rewrite Hcallee. intros ->%list_elem_of_singleton. rewrite Hs1, Hp. done.
    - exists l'. split_and!; [done.. | by rewrite Hcalled, Hc1 |]. intros q Hq. rewrite <- Hs1. apply Hs. rewrite Hcallee. by intros ?%list_elem_of_singleton. }
  assert (forall n fd', exists l', bind (sys (sys_read fd' n)) (fun _ => call client_code c) l = Done (tt, l') /\ wf l' /\ called l' = called l ++ [c] /\
      forall q, q <> p -> is_Some (sources l !! q) -> sources l' !! q = sources l !! q) as Hread.
  { intros n fd'. destruct (does_sys [] (sys_read fd' n) l Hl (read_keeps _ _ _)) as (b & l1 & Hrun & Hl1 & [_ Hc1] & Hs1 & _).
    rewrite (run_bind_done _ _ _ _ _ Hrun). by apply Hcall. }
  unfold c, source_call in *. cbn [source on_source with_rmask func data Source.fd rmask callback signal_number].
  destruct (func (source s)); first [by apply Hcall | by apply Hread].
Qed.

Lemma set_rmasks_returns ep : forall l, wf l -> NoDup ep.*2 -> (forall e, e ∈ ep -> is_Some (sources l !! e.2)) ->
  exists l', set_rmasks ep l = Done (tt, l') /\ wf l' /\ called l' = called l /\
    (forall q, q ∉ ep.*2 -> sources l' !! q = sources l !! q) /\
    forall e, e ∈ ep -> sources l' !! e.2 = on_source (with_rmask (spa_epoll_to_io e.1)) <$> sources l !! e.2.
Proof.
  induction ep as [|e ep IH]; intros l Hl Hn Halive; [exists l; split_and!; try done; by intros e ?%not_elem_of_nil |].
  apply NoDup_cons in Hn as [Hne Hn]. destruct (Halive e) as [s Hs]; [by left |].
  destruct (does_set [e.2] e.2 s (on_source (with_rmask (spa_epoll_to_io e.1))) l Hl Hs) as ([] & l1 & Hrun & Hl1 & [Hs1 Hc1] & ->); [by left | done.. |].
  set (l1 := with_sources _ l) in *. unfold set_rmasks. simpl. rewrite (run_bind_done _ _ _ _ _ Hrun).
  destruct (IH l1 Hl1 Hn) as (l' & Hrun' & Hl' & Hc' & Hq' & He').
  { intros x Hx. unfold l1. simpl. destruct (decide (x.2 = e.2)) as [-> |]; [rewrite lookup_insert_eq; done |].
    rewrite lookup_insert_ne by done. apply Halive. by right. }
  exists l'. split_and!; [done.. | by rewrite Hc' | |].
  - intros q [Hq1 Hq2]%not_elem_of_cons. rewrite Hq' by done. unfold l1. simpl. by rewrite lookup_insert_ne.
  - intros x [-> | Hx]%elem_of_cons.
    + rewrite Hq' by done. unfold l1. simpl. by rewrite lookup_insert_eq, Hs.
    + rewrite He' by done. unfold l1. simpl. rewrite lookup_insert_ne; [done |]. intros Heq. apply Hne. rewrite Heq. by apply list_elem_of_fmap_2.
Qed.

Lemma call_ready_returns h ep : considerate -> forall l, wf l -> NoDup ep.*2 ->
  (forall e, e ∈ ep -> exists s, h !! e.2 = Some s /\ sources l !! e.2 = Some (on_source (with_rmask (spa_epoll_to_io e.1)) s)) ->
  exists l', call_ready client_code ep l = Done (tt, l') /\ wf l' /\ called l' = called l ++ ready_calls h ep.
Proof.
  intros Hc. induction ep as [|e ep IH]; intros l Hl Hn Hready; [exists l; split_and!; [done.. | by rewrite app_nil_r] |].
  apply NoDup_cons in Hn as [Hne Hn]. destruct (Hready e) as (s & Hh & Hs); [by left |].
  unfold call_ready. simpl. rewrite Hh. rewrite bind_assoc.
  rewrite (run_bind_done (get_source e.2) _ l _ l) by (unfold get_source; by rewrite Hs). cbn [source on_source with_rmask rmask].
  destruct (spa_epoll_to_io e.1 =? 0); simpl.
  - run_step. apply IH; [done.. |]. intros x Hx. apply Hready. by right.
  - destruct (call_source_returns e.2 s e.1 l Hc Hl Hs) as (l1 & Hrun & Hl1 & Hc1 & Hs1). rewrite (run_bind_done _ _ _ _ _ Hrun).
    destruct (IH l1 Hl1 Hn) as (l' & Hrun' & Hl' & Hc').
    + intros x Hx. destruct (Hready x) as (t & Ht & Hst); [by right |]. exists t. split; [done |]. rewrite Hs1; [done | | by rewrite Hst].
      intros Heq. apply Hne. rewrite <- Heq. by apply list_elem_of_fmap_2.
    + exists l'. split_and!; [done.. |]. rewrite Hc', Hc1, <- app_assoc. done.
Qed.

(** Each source has one descriptor: what [epoll_wait] returns has no source twice. *)
Lemma ready_nodup n t ep l : wf l -> (sys_epoll_wait n t (kernel l)).1 = Some ep ->
  NoDup ep.*2 /\ forall e, e ∈ ep -> is_Some (sources l !! e.2).
Proof.
  intros Hl Hw. destruct (wait_entries n t (kernel l) ep Hw) as (_ & fds & Hn & Hall). clear Hw. revert Hn.
  induction Hall as [|fd e fds ep [evs He] Hall IH]; intros Hn; [split; [constructor | by intros e ?%not_elem_of_nil] |].
  apply NoDup_cons in Hn as [Hfd Hn]. destruct (IH Hn) as [IH1 IH2]. destruct (wf_set l Hl _ _ _ He) as (_ & s & Hs & Hf). split.
  - simpl. constructor; [| done]. intros (x & Heq & Hx)%list_elem_of_fmap. apply Hfd.
    apply list_elem_of_lookup in Hx as [i Hi]. destruct (Forall2_lookup_r _ _ _ _ _ Hall Hi) as (fd' & Hi' & evs' & He').
    destruct (wf_set l Hl _ _ _ He') as (_ & s' & Hs' & Hf'). assert (fd' = fd) as <- by (rewrite <- Heq in Hs'; congruence). by eapply list_elem_of_lookup_2.
  - intros x [-> | Hx]%elem_of_cons; [by exists s | by apply IH2].
Qed.

(** C21: A turn of the loop returns, whatever is ready: it calls the sources the kernel
    names, each once, in the kernel's order and with what it is ready for, and
    touches no source that is gone, as long as the code it calls leaves the
    sources of others alone. *)
Theorem loop_turn_calls_ready timeout l :
  wf l -> considerate ->
  exists r l' l1 hooks, loop_iterate client_code timeout l = Done (r, l') /\ wf l' /\ wf l1 /\ Forall is_hook hooks /\
    (forall q, is_Some (sources l !! q) -> sources l1 !! q = sources l !! q) /\
    match (sys_epoll_wait 32 timeout (kernel l1)).1 with
    | Some ep => r = SPA_RESULT_OK /\ called l' = called l ++ hooks ++ ready_calls (sources l1) ep
    | None => r = SPA_RESULT_ERRNO /\ called l' = called l ++ hooks
    end.
Proof.
  intros Hl Hc. unfold loop_iterate.
  destruct (call_returns before_iterate l Hc Hl) as (l0 & Hr0 & Hl0 & Hc0 & Hs0); [by intros p ?%not_elem_of_nil |]. rewrite (run_bind_done _ _ _ _ _ Hr0). run_step.
  destruct (hook_returns (pre_func l0) l0 Hc Hl0) as (l1 & h1 & Hr1 & Hl1 & Hh1 & Hc1 & Hs1). rewrite (run_bind_done _ _ _ _ _ Hr1).
  destruct (does_sys [] (sys_epoll_wait 32 timeout) l1 Hl1 (wait_keeps _ _ _)) as (nfds & l2 & Hr2 & Hl2 & [_ Hc2] & Hs2 & Hw).
  rewrite (run_bind_done _ _ _ _ _ Hr2). run_step.
  destruct (hook_returns (post_func l2) l2 Hc Hl2) as (l3 & h3 & Hr3 & Hl3 & Hh3 & Hc3 & Hs3). rewrite (run_bind_done _ _ _ _ _ Hr3).
  assert (forall q, is_Some (sources l !! q) -> sources l1 !! q = sources l !! q) as Hsame.
  { intros q Hq. rewrite Hs1, Hs0; [done | apply not_elem_of_nil | done |]. rewrite Hs0; [done | apply not_elem_of_nil | done]. }
  assert (Forall is_hook ([before_iterate] ++ h1 ++ h3)) as Hhooks by (constructor; [done | by apply Forall_app]).
  assert (called l3 = called l ++ [before_iterate] ++ h1 ++ h3) as Hcalled by (rewrite Hc3, Hc2, Hc1, Hc0; by rewrite <- !app_assoc).
  destruct nfds as [ep |].
  2: { exists SPA_RESULT_ERRNO, l3, l1, ([before_iterate] ++ h1 ++ h3). rewrite <- Hw. by split_and!. }
  destruct (ready_nodup 32 timeout ep l1 Hl1 (eq_sym Hw)) as [Hn Halive].
  destruct (set_rmasks_returns ep l3 Hl3 Hn) as (l4 & Hr4 & Hl4 & Hc4 & _ & Hs4); [intros e He; rewrite Hs3, Hs2; rewrite ?Hs2; by apply Halive |].
  rewrite (run_bind_done _ _ _ _ _ Hr4).
  destruct (call_ready_returns (sources l1) ep Hc l4 Hl4 Hn) as (l5 & Hr5 & Hl5 & Hc5).
  { intros e He. destruct (Halive e He) as [s Hs]. exists s. split; [done |]. rewrite Hs4, Hs3, Hs2, Hs; [done | rewrite Hs2; by exists s | done]. }
  rewrite (run_bind_done _ _ _ _ _ Hr5). exists SPA_RESULT_OK, l5, l1, ([before_iterate] ++ h1 ++ h3). rewrite <- Hw.
  split_and!; try done. by rewrite Hc5, Hc4, Hcalled, <- !app_assoc.
Qed.
End Theory.

(** A kernel that keeps the promises of [FilesLaws], turns of a loop on it, and what
    happens when a callback takes the source of another one away. *)

(** The set, the next descriptor, and which descriptors are readable next. *)
Record toy_kernel := mkToy { toy_set : gmap Z epoll_event; toy_fd : Z; toy_ready : list Z }.
Definition with_toy_set (x : gmap Z epoll_event) (k : toy_kernel) : toy_kernel := mkToy x (toy_fd k) (toy_ready k).
Definition toy_open (k : toy_kernel) : Z * toy_kernel := (toy_fd k, mkToy (toy_set k) (toy_fd k + 1) (toy_ready k)).

#[export] Instance toy_files : Files toy_kernel := {|
  sys_epoll_ctl op fd e k :=
    match op, toy_set k !! fd with
    | EPOLL_CTL_ADD, None | EPOLL_CTL_MOD, Some _ => (0, with_toy_set (<[fd := e]> (toy_set k)) k)
    | EPOLL_CTL_DEL, Some _ => (0, with_toy_set (delete fd (toy_set k)) k)
    | _, _ => (-1, k)
    end;
  sys_epoll_wait n timeout k :=
    (Some (take (Z.to_nat n) (omap (fun fd => (fun e => (EPOLLIN, e.2)) <$> toy_set k !! fd) (remove_dups (toy_ready k)))), k);
  sys_eventfd n := toy_open;
  sys_timerfd_create := toy_open;
  sys_timerfd_settime fd absolute value interval k := (0, k);
  sys_signalfd n := toy_open;
  sys_read fd n k := (true, k);
  sys_write fd v k := (true, k);
  sys_close fd k := with_toy_set (delete fd (toy_set k)) k;
  sys_calloc n k := (true, k)
|}.

Lemma toy_entries (m : gmap Z epoll_event) n fds : NoDup fds ->
  exists fds', NoDup fds' /\ (forall fd, fd ∈ fds' -> fd ∈ fds) /\
    Forall2 (fun fd (e : epoll_event) => exists evs, m !! fd = Some (evs, e.2)) fds'
      (take n (omap (fun fd => (fun e => (EPOLLIN, e.2)) <$> m !! fd) fds)).
Proof.
  revert n. induction fds as [|fd fds IH]; intros n Hn; simpl; [exists []; rewrite take_nil; by split_and!; [constructor | | constructor] |].
  apply NoDup_cons in Hn as [Hfd Hn]. destruct (m !! fd) as [[evs p] |] eqn:Hm; simpl.
  - destruct n as [|n]; [exists []; split_and!; [constructor | by intros x ?%not_elem_of_nil | constructor] |].
    destruct (IH n Hn) as (fds' & Hn' & Hsub & Hall). exists (fd :: fds'). split_and!.
    + constructor; [| done]. intros Hin. by apply Hfd, Hsub.
    + intros x [-> | Hx]%elem_of_cons; [by left | right; by apply Hsub].
    + simpl. constructor; [by exists evs | done].
  - destruct (IH n Hn) as (fds' & Hn' & Hsub & Hall). exists fds'. split_and!; [done | intros x Hx; right; by apply Hsub | done].
Qed.

#[export] Program Instance toy_laws : FilesLaws toy_kernel := {| epoll_set := toy_set |}.
Next Obligation. intros fd e k. simpl. destruct (toy_set k !! fd) eqn:Hfd; simpl; [left; by split | right; by split_and!]. Qed.
Next Obligation. intros fd e k. simpl. destruct (toy_set k !! fd) eqn:Hfd; simpl; [right; by split_and! | left; by split]. Qed.
Next Obligation. intros fd e k. simpl. destruct (toy_set k !! fd) eqn:Hfd; simpl; [done | by rewrite delete_id]. Qed.
Next Obligation. done. Qed.
Next Obligation.
  intros n t k l. simpl. intros [= <-]. split; [| destruct (toy_entries (toy_set k) (Z.to_nat n) _ (NoDup_remove_dups (toy_ready k))) as (fds & ? & _ & ?); by exists fds].
  rewrite zlen_take. pose proof (zlen_nonneg (omap (fun fd => (fun e : epoll_event => (EPOLLIN, e.2)) <$> toy_set k !! fd) (remove_dups (toy_ready k)))). lia.
Qed.
Next Obligation. done. Qed.
Next Obligation. done. Qed.
Next Obligation. done. Qed.
Next Obligation. done. Qed.
Next Obligation. done. Qed.
Next Obligation. done. Qed.
Next Obligation. done. Qed.
Next Obligation. done. Qed.

(** ** Turns *)

Abbreviation toy_loop := (sources_of toy_kernel unit).
Definition toy_start (ready : list Z) : toy_loop := no_sources (mkToy ∅ 10 ready) tt.

(** What the callbacks here do: 1 destroys its own source, 2 the source that is its
    data, the hook 3 destroys the source that is the data of the hooks; the others
    do nothing. *)
Definition toy_client (c : client_call) : ST toy_loop unit :=
  match c with
  | timer_call f p d => if f =? 1 then loop_destroy_source p else if f =? 2 then loop_destroy_source d else ret tt
  | loop_hook f d => if f =? 3 then loop_destroy_source d else ret tt
  | _ => ret tt
  end.
(** The same without the two that take from others. *)
Definition considerate_client (c : client_call) : ST toy_loop unit :=
  match c with timer_call f p d => if f =? 1 then loop_destroy_source p else ret tt | _ => ret tt end.

Lemma considerate_toy : considerate considerate_client.
Proof.
  intros c l Hl Hcallee. destruct c as [| | | | | f p d |]; try by apply does_ret. simpl. case_match; [| by apply does_ret].
  destruct (Hcallee p) as [s Hs]; [by left |]. eapply does_weaken; [eapply (destroy_source_does _ _ s); [done | done | by left] | done].
Qed.

(** Two timers: the descriptors are 10 and 11, the sources 1 and 2. *)
Definition two_timers (f1 d1 f2 d2 : Z) : ST toy_loop unit := loop_add_timer f1 d1 ;;; loop_add_timer f2 d2 ;;; ret tt.
Definition after (m : ST toy_loop unit) (l : toy_loop) : toy_loop := match m l with Done (_, l') => l' | _ => l end.
Definition waiting : toy_loop := after (two_timers 1 7 0 8) (toy_start [11; 10; 12]).

Lemma wf_waiting : wf waiting.
Proof.
  assert (does [] (two_timers 1 7 0 8) (toy_start [11; 10; 12]) (fun _ _ => True)) as (a & l & Hrun & Hl & _).
  - unfold two_timers. eapply does_bind; [by apply add_timer_does, wf_no_sources | intros p l1 Hl1 _ _].
    eapply does_bind; [by apply add_timer_does | intros q l2 Hl2 _ _]. by apply does_ret.
  - unfold waiting, after. by rewrite Hrun.
Qed.

(** Both timers are called, in the kernel's order, and the first one is gone. *)
Lemma loop_turn_calls_ready_witness :
  exists r l', loop_iterate considerate_client (-1) waiting = Done (r, l') /\ r = SPA_RESULT_OK /\
    called l' = [before_iterate; timer_call 0 2 8; timer_call 1 1 7] /\ source_list l' = [2].
Proof.
  destruct (loop_turn_calls_ready considerate_client (-1) waiting wf_waiting considerate_toy) as (r & l' & l1 & hooks & Hrun & _).
  exists r, l'. split; [exact Hrun |]. vm_compute in Hrun. injection Hrun as <- <-. split; [reflexivity |]. split; reflexivity.
Defined.

(** ** Sources that are gone *)

(** The first callback of a batch destroys the source of the second: [loop_iterate]
    still looks at its [rmask]. *)
Example callback_destroys_next :
  loop_iterate toy_client (-1) (after (two_timers 2 2 0 0) (toy_start [10; 11])) = Undef.
Proof. vm_compute. reflexivity. Qed.
(** In the other order it is fine. *)
Example callback_destroys_previous :
  exists l, loop_iterate toy_client (-1) (after (two_timers 2 2 0 0) (toy_start [11; 10])) = Done (SPA_RESULT_OK, l) /\ source_list l = [1].
Proof. eexists. split; vm_compute; reflexivity. Qed.
(** While the thread of a [PinosThreadMainLoop] waits in its hook for the lock, the
    one who has it destroys a source that [epoll_wait] has returned. *)
Example destroyed_before_the_lock :
  loop_iterate toy_client (-1) (after (two_timers 0 0 0 0 ;;; loop_set_hooks 0 3 1) (toy_start [10])) = Undef.
Proof. vm_compute. reflexivity. Qed.

(** A descriptor that has a source already is not added again, nobody is told, and
    when the second source goes the first one hears nothing any more. *)
Example twice_the_same_descriptor :
  let m := loop_add_io 5 SPA_IO_IN false 0 0 ;;; loop_add_io 5 SPA_IO_IN false 0 0 ;;; loop_destroy_source 2 in
  let l := after m (toy_start [5]) in
  source_list l = [1] /\ toy_set (kernel l) = ∅.
Proof. vm_compute. done. Qed.
