(* ===== verification/TimerLoop.v ===== *)
(** What a loop gives to those who only use its timers ([pinos_loop_add_timer] and the
    other macros of [pinos/client/loop.h]), as an interface with its laws, and that
    the sources of a loop implement it. *)
From stdpp Require Import gmap.
From S2P Require Import Prelude State Defs Loop LoopSources LoopSourcesTheory.

Class TimerLoop (T : Type) := {
  pinos_loop_add_timer : Z -> Z -> ST T Z;
  pinos_loop_update_timer : Z -> option timespec -> option timespec -> bool -> ST T Z;
  pinos_loop_destroy_source : Z -> ST T unit
}.

(** [timers]: the timers there are, with the function and the data of each. Without
    memory there is none, and the result is NULL. *)
Class TimerLaws (T : Type) `{TimerLoop T} := {
  timers_ok : T -> Prop;
  timers : T -> gmap Z (Z * Z);
  add_timer_law f d t : timers_ok t -> exists p t', pinos_loop_add_timer f d t = Done (p, t') /\ timers_ok t' /\
    (p = 0 /\ timers t' = timers t \/ p <> 0 /\ timers t !! p = None /\ timers t' = <[p := (f, d)]> (timers t));
  update_timer_law p v i a t : timers_ok t -> is_Some (timers t !! p) ->
    exists r t', pinos_loop_update_timer p v i a t = Done (r, t') /\ timers_ok t' /\ timers t' = timers t;
  destroy_source_law p t : timers_ok t -> is_Some (timers t !! p) ->
    exists t', pinos_loop_destroy_source p t = Done (tt, t') /\ timers_ok t' /\ timers t' = delete p (timers t)
}.

Section Instance.
Context {K S : Type} `{FilesLaws K}.

#[export] Instance loop_timers : TimerLoop (sources_of K S) := {
  pinos_loop_add_timer := loop_add_timer;
  pinos_loop_update_timer := loop_update_timer;
  pinos_loop_destroy_source := loop_destroy_source
}.

Definition timer_of (s : Source.SpaSourceImpl) : option (Z * Z) :=
  if decide (Source.func (Source.source s) = source_timer_func) then Some (Source.callback s, Source.data (Source.source s)) else None.
Definition timers_of (l : sources_of K S) : gmap Z (Z * Z) := omap timer_of (sources l).

Lemma timers_of_source l p : is_Some (timers_of l !! p) -> exists s, sources l !! p = Some s.
Proof. intros [t Ht]. unfold timers_of in Ht. rewrite lookup_omap in Ht. destruct (sources l !! p) as [s |]; [by exists s | done]. Qed.

#[export] Program Instance loop_timers_laws : TimerLaws (sources_of K S) := {| timers_ok := wf; timers := timers_of |}.
Next Obligation.
  intros f d l Hl. destruct (add_timer_does [] f d l Hl) as (p & l' & Hrun & Hl' & _ & Hmade). exists p, l'. split_and!; [done.. |].
  unfold timers_of. destruct Hmade as [(-> & -> & _) | (Hne & Hnew & fd & ->)]; [by left | right].
  split_and!; [done | by rewrite lookup_omap, Hnew |]. by rewrite (omap_insert_Some _ _ _ _ (f, d)).
Qed.
Next Obligation.
  intros p v i a l Hl [s Hs]%timers_of_source. destruct (update_timer_does [] p v i a s l Hl Hs) as (r & l' & Hrun & Hl' & _ & Heq).
  exists r, l'. split_and!; [done.. |]. unfold timers_of. by rewrite Heq.
Qed.
Next Obligation.
  intros p l Hl [s Hs]%timers_of_source. destruct (destroy_source_does [p] p s l Hl Hs) as ([] & l' & Hrun & Hl' & _ & Heq & _); [by left |].
  exists l'. split_and!; [done.. |]. unfold timers_of. by rewrite Heq, omap_delete.
Qed.

(** Where memory is always granted there always is a timer. *)
Lemma loop_timers_granted f d (l : sources_of K S) p l' : (forall n k, (sys_calloc n k).1 = true) ->
  timers_ok l -> pinos_loop_add_timer f d l = Done (p, l') -> p <> 0.
Proof.
  intros Hmem Hl Hrun. destruct (add_timer_does [] f d l Hl) as (q & l1 & Hrun1 & _ & _ & Hmade). cbn in Hrun. rewrite Hrun1 in Hrun.
  injection Hrun as <- _. destruct Hmade as [(_ & _ & Hc) | [Hne _]]; [| done]. by rewrite Hmem in Hc.
Qed.
End Instance.
