(* ===== verification/GraphLog.v ===== *)
(** The log of the media graph: whatever the graph does, what was told stays told. *)
From stdpp Require Import gmap.
From S2P Require Import Prelude State Defs SpaList WorkQueue Mem Pod PodUtils Buffers Graph Negotiate Topology.

(** It returns a graph whose log goes on from the one it was given. *)
Definition grows {S A} (m : G S A) : Prop :=
  forall g a g', m g = Done (a, g') -> events g `prefix_of` events g'.

Create HintDb grows.

Section Log.
Context {S : Type}.

Lemma grows_ret {A} (a : A) : grows (S := S) (ret a).
Proof. by intros g b g' [= _ <-]. Qed.
Lemma grows_undef {A} : grows (S := S) (A := A) undef.
Proof. by intros g b g' [=]. Qed.
Lemma grows_lift {A} (o : outcome A) : grows (S := S) (lift o).
Proof. intros g b g'. unfold lift. destruct o; [| done..]. by intros [= _ <-]. Qed.
Lemma grows_bind {A B} (m : G S A) (f : A -> G S B) : grows m -> (forall a, grows (f a)) -> grows (bind m f).
Proof.
  intros Hm Hf g b g'. unfold bind. destruct (m g) as [[a g1] | |] eqn:Hrun; [| done..]. intros Hrun2.
  etrans; [by eapply Hm | by eapply Hf].
Qed.
Lemma grows_each {X} (l : list X) (f : X -> G S unit) : (forall x, grows (f x)) -> grows (each l f).
Proof. intros Hf. induction l as [|x l IH]; simpl; [apply grows_ret | apply grows_bind; [apply Hf | done]]. Qed.
Lemma grows_emit e : grows (S := S) (emit e).
Proof. intros g [] g' [= <-]. by apply prefix_app_r. Qed.

(** A primitive that does not touch the log. *)
Lemma grows_silent {A} (m : G S A) : (forall g a g', m g = Done (a, g') -> events g' = events g) -> grows m.
Proof. intros Hm g a g' Hrun. by rewrite (Hm _ _ _ Hrun). Qed.
End Log.

Ltac silent :=
  apply grows_silent;
  intros ? ? ?; cbv beta delta [get_node get_port get_link put_node put_port put_link free_node free_port free_link set_node_list set_link_list
    get_node_list get_link_list put_array invoke_main invoke_data calloc element system memblock_free main_turn data_turn];
  repeat (case_match; try done); intros Heq; simplify_eq; done.

Ltac grows_step :=
  lazymatch goal with
  | |- grows (ret _) => apply grows_ret
  | |- grows undef => apply grows_undef
  | |- grows (lift _) => apply grows_lift
  | |- grows (bind _ _) => apply grows_bind; [| intros ?]
  | |- grows (each _ _) => apply grows_each; intros ?
  | |- grows (emit _) => apply grows_emit
  | |- grows (let _ := _ in _) => cbv zeta
  | |- grows (if ?b then _ else _) => destruct b
  | |- grows (match ?x with _ => _ end) => destruct x
  | |- grows _ => first [solve [auto with grows nocore] | match goal with |- grows ?m => let h := head_of m in unfold h end]
  end
with head_of m := lazymatch m with ?f _ => head_of f | _ => m end.
Ltac grows_all := repeat grows_step.

Section Primitives.
Context {S : Type} `{Kernel}.
Lemma grows_get_node n : grows (S := S) (get_node n). Proof. silent. Qed.
Lemma grows_get_port p : grows (S := S) (get_port p). Proof. silent. Qed.
Lemma grows_get_link l : grows (S := S) (get_link l). Proof. silent. Qed.
Lemma grows_put_node n o : grows (S := S) (put_node n o). Proof. silent. Qed.
Lemma grows_put_port p o : grows (S := S) (put_port p o). Proof. silent. Qed.
Lemma grows_put_link l o : grows (S := S) (put_link l o). Proof. silent. Qed.
Lemma grows_free_node n : grows (S := S) (free_node n). Proof. silent. Qed.
Lemma grows_free_port p : grows (S := S) (free_port p). Proof. silent. Qed.
Lemma grows_free_link l : grows (S := S) (free_link l). Proof. silent. Qed.
Lemma grows_set_node_list x : grows (S := S) (set_node_list x). Proof. silent. Qed.
Lemma grows_set_link_list x : grows (S := S) (set_link_list x). Proof. silent. Qed.
Lemma grows_get_node_list : grows (S := S) get_node_list. Proof. silent. Qed.
Lemma grows_get_link_list : grows (S := S) get_link_list. Proof. silent. Qed.
Lemma grows_put_array a l : grows (S := S) (put_array a l). Proof. silent. Qed.
Lemma grows_invoke_main c : grows (S := S) (invoke_main c). Proof. silent. Qed.
Lemma grows_invoke_data c : grows (S := S) (invoke_data c). Proof. silent. Qed.
Lemma grows_calloc : grows (S := S) calloc. Proof. silent. Qed.
Lemma grows_element {A} (f : S -> A * S) : grows (element f).
Proof. apply grows_silent. intros g a g'. unfold element. destruct (f (elements g)). by intros [= _ <-]. Qed.
Lemma grows_system {A} (f : process -> A * process) : grows (S := S) (system f).
Proof. apply grows_silent. intros g a g'. unfold system. destruct (f (proc g)). by intros [= _ <-]. Qed.
Lemma grows_memblock_free mem : grows (S := S) (memblock_free mem).
Proof. apply grows_silent. intros g a g'. unfold memblock_free. destruct (pinos_memblock_free mem (proc g)) as [[m p] | |]; [| done..]. by intros [= _ <-]. Qed.
End Primitives.

#[export] Hint Resolve grows_get_node grows_get_port grows_get_link grows_put_node grows_put_port grows_put_link grows_free_node grows_free_port
  grows_free_link grows_set_node_list grows_set_link_list grows_get_node_list grows_get_link_list grows_put_array grows_invoke_main
  grows_invoke_data grows_calloc grows_element grows_system grows_memblock_free : grows.

Section Graph.
Context {S : Type} `{node_impl : SpaNode S} `{kernel : Kernel} `{heap_impl : Heap} (ty : PinosType).

Lemma grows_suspend_ports n direction ps : forall res, grows (S := S) (suspend_ports n direction ps res).
Proof. induction ps as [|p ps IH]; intros res; cbn [suspend_ports]; [apply grows_ret |]. apply grows_bind; [grows_all | intros r; apply IH]. Qed.
#[local] Hint Resolve grows_suspend_ports : grows.
Lemma grows_set_state n state : grows (S := S) (pinos_node_set_state n state).
Proof. grows_all. Qed.
#[local] Hint Resolve grows_set_state : grows.

Lemma grows_find_link_in ls input : grows (S := S) (find_link_in ls input).
Proof. induction ls as [|l ls IH]; cbn [find_link_in]; [apply grows_ret |]. grows_all. Qed.
Lemma grows_first_unlinked ps : grows (S := S) (first_unlinked ps).
Proof. induction ps as [|p ps IH]; cbn [first_unlinked]; [apply grows_ret |]. grows_all. Qed.
Lemma grows_link_destroy l : grows (S := S) (pinos_link_destroy l).
Proof. grows_all. Qed.
Lemma grows_enum_formats fuel output input onode inode oport iport : forall filter format iidx oidx,
  grows (S := S) (enum_formats fuel output input onode inode oport iport filter format iidx oidx).
Proof. induction fuel as [|fuel IH]; intros filter format iidx oidx; cbn [enum_formats]; [apply grows_undef |]. grows_all; apply IH. Qed.
#[local] Hint Resolve grows_enum_formats grows_find_link_in grows_first_unlinked grows_link_destroy : grows.
Lemma grows_port_destroy p : grows (S := S) (pinos_port_destroy p).
Proof. grows_all. Qed.
#[local] Hint Resolve grows_port_destroy : grows.

Lemma grows_update_ports fuel n direction : forall ids cursor,
  grows (S := S) (update_ports fuel n direction ids cursor) /\ forall id, grows (S := S) (insert_port fuel n direction id ids cursor).
Proof.
  induction fuel as [|fuel IH]; intros ids cursor; [split; [apply grows_undef | intros id; apply grows_undef] |].
  assert (forall ids cursor, grows (S := S) (update_ports fuel n direction ids cursor)) as IH1 by (intros; apply IH).
  assert (forall id ids cursor, grows (S := S) (insert_port fuel n direction id ids cursor)) as IH2 by (intros; apply IH).
  clear IH. split; [| intros id]; cbn [update_ports insert_port]; grows_all; solve [apply IH1 | apply IH2].
Qed.
Lemma grows_update_port_ids n : grows (S := S) (update_port_ids n).
Proof. unfold update_port_ids. grows_all; apply grows_update_ports. Qed.
#[local] Hint Resolve grows_update_port_ids : grows.

Lemma grows_run_closure c : grows (S := S) (run_closure c).
Proof. grows_all. Qed.
Lemma grows_main_turn : grows (S := S) main_turn.
Proof.
  intros g [] g'. unfold main_turn. destruct (main_loop g) as [|c q]; [by intros [= <-] |]. intros Hrun. by apply grows_run_closure in Hrun.
Qed.
Lemma grows_data_turn : grows (S := S) data_turn.
Proof.
  intros g [] g'. unfold data_turn. destruct (data_loop g) as [|c q]; [by intros [= <-] |]. intros Hrun. by apply grows_run_closure in Hrun.
Qed.
Lemma grows_run_work fuel item : grows (S := S) (run_work ty fuel item).
Proof. grows_all. Qed.
Lemma grows_queue_wakeup get set turns fuel : grows get -> (forall f, grows (set f)) -> grows (S := S) (queue_wakeup ty get set turns fuel).
Proof.
  intros Hget Hset. assert (forall turns k, grows (queue_pass ty get set turns fuel k)) as Hpass.
  { clear turns. induction turns as [|turns IH]; intros k; cbn [queue_pass]; (apply grows_bind; [exact Hget | intros q]); case_match; try apply grows_ret; [apply grows_undef |].
    case_match; [apply IH |]. apply grows_bind; [apply Hset | intros _]. apply grows_bind; [apply grows_run_work | intros _].
    case_match; [apply grows_ret | apply IH]. }
  unfold queue_wakeup. apply grows_bind; [exact Hget | intros q]. case_match; [| apply grows_ret]. apply grows_bind; [apply Hset | intros _]. apply Hpass.
Qed.

(** Whatever is asked of the graph. *)
Lemma grows_perform r : grows (S := S) (perform ty r).
Proof.
  destruct r; cbn [perform]; try solve [grows_all | apply grows_main_turn | apply grows_data_turn];
    (apply grows_queue_wakeup; [grows_all | intros f; grows_all]).
Qed.
End Graph.

#[export] Hint Resolve grows_suspend_ports grows_set_state grows_enum_formats grows_find_link_in grows_first_unlinked grows_link_destroy
  grows_port_destroy grows_update_port_ids : grows.
