(* ===== verification/SuspendOnIdle.v ===== *)
(** [pinos/modules/module-suspend-on-idle.c]: suspending nodes that have been idle for
    three seconds, and the server with this module loaded.

    The module listens to the signals of the core and of its nodes, which are the log of
    the media graph (see Graph), and asks the graph back through [pinos_node_set_state];
    its timers are those of a loop (see TimerLoop). Its handlers touch nothing the graph
    looks at, so that what a request signals is delivered when the request is done. *)
From stdpp Require Import gmap.
From S2P Require Import Prelude State Defs Mem Buffers Graph Negotiate Topology LoopSources TimerLoop.

Module NodeInfo.
(** [idle_timeout] is 0 for NULL. *)
Record t := mk { node : Z; idle_timeout : Z }.
Definition with_idle_timeout (x : Z) (i : t) : t := mk (node i) x.
End NodeInfo.

(** [ModuleImpl], the infos by their address, the loop of the core, the clock, and what
    the kernel knows of timers: when each expires. *)
Record ModuleImpl (T : Type) := mkModule {
  infos : gmap Z NodeInfo.t;
  info_list : list Z;
  next_info : Z;
  main_loop : T;
  clock : Z;
  expiry : gmap Z Z
}.
Arguments mkModule {T}.
Arguments infos {T}.
Arguments info_list {T}.
Arguments next_info {T}.
Arguments main_loop {T}.
Arguments clock {T}.
Arguments expiry {T}.

Definition SPA_NSEC_PER_SEC : Z := 1000000000.

Section Module.
Context {T : Type} `{TimerLoop T}.
(** The address of the function [idle_timeout]. *)
Context (idle_timeout_ptr : Z).
Local Abbreviation M := (ST (ModuleImpl T)).

Definition with_infos (x : gmap Z NodeInfo.t) (m : ModuleImpl T) : ModuleImpl T :=
  mkModule x (info_list m) (next_info m) (main_loop m) (clock m) (expiry m).
Definition with_info_list (x : list Z) (m : ModuleImpl T) : ModuleImpl T :=
  mkModule (infos m) x (next_info m) (main_loop m) (clock m) (expiry m).
Definition with_next_info (x : Z) (m : ModuleImpl T) : ModuleImpl T :=
  mkModule (infos m) (info_list m) x (main_loop m) (clock m) (expiry m).
Definition with_main_loop (x : T) (m : ModuleImpl T) : ModuleImpl T :=
  mkModule (infos m) (info_list m) (next_info m) x (clock m) (expiry m).
Definition with_clock (x : Z) (m : ModuleImpl T) : ModuleImpl T :=
  mkModule (infos m) (info_list m) (next_info m) (main_loop m) x (expiry m).
Definition with_expiry (x : gmap Z Z) (m : ModuleImpl T) : ModuleImpl T :=
  mkModule (infos m) (info_list m) (next_info m) (main_loop m) (clock m) x.

Definition get_info (p : Z) : M NodeInfo.t := fun m => match infos m !! p with Some i => Done (i, m) | None => Undef end.
Definition set_info (p : Z) (f : NodeInfo.t -> NodeInfo.t) : M unit :=
  i <- get_info p ;; modify (fun m => with_infos (<[p := f i]> (infos m)) m).
Definition on_loop {A} (f : ST T A) : M A := fun m => let* (a, t) := f (main_loop m) in Done (a, with_main_loop t m).

(** [pinos_loop_update_timer] with a relative time: the kernel counts from now. *)
Definition arm (t : Z) (value : timespec) : M unit :=
  _ <- on_loop (pinos_loop_update_timer t (Some value) None false) ;;
  modify (fun m => with_expiry (<[t := clock m + value.1 * SPA_NSEC_PER_SEC + value.2]> (expiry m)) m).

(** ** The functions of the module *)

Fixpoint find_info_in (ps : list Z) (node : Z) : M Z :=
  match ps with
  | [] => ret 0
  | p :: ps => i <- get_info p ;; if NodeInfo.node i =? node then ret p else find_info_in ps node
  end.
Definition find_node_info (node : Z) : M Z := ps <- gets info_list ;; find_info_in ps node.

Definition remove_idle_timeout (p : Z) : M unit :=
  i <- get_info p ;;
  when (negb (NodeInfo.idle_timeout i =? 0))
    (on_loop (pinos_loop_destroy_source (NodeInfo.idle_timeout i)) ;;;
     set_info p (NodeInfo.with_idle_timeout 0)).

Definition node_info_free (p : Z) : M unit :=
  ps <- gets info_list ;;
  ps <- lift (unlink p ps) ;;
  modify (with_info_list ps) ;;;
  remove_idle_timeout p ;;;
  modify (fun m => with_infos (delete p (infos m)) m).

(** Up to its call of [pinos_node_set_state], with the node it is for. *)
Definition idle_timeout (p : Z) : M Z :=
  remove_idle_timeout p ;;;
  i <- get_info p ;;
  ret (NodeInfo.node i).

Definition on_node_state_request (p : Z) : M unit := remove_idle_timeout p.

Definition on_node_state_changed (state p : Z) : M unit :=
  if negb (state =? PINOS_NODE_STATE_IDLE) then remove_idle_timeout p
  else
    t <- on_loop (pinos_loop_add_timer idle_timeout_ptr p) ;;
    set_info p (NodeInfo.with_idle_timeout t) ;;;
    arm t (3, 0).

(** With the type of the global: whether it is a node. *)
Definition on_global_added (is_node : bool) (object : Z) : M unit :=
  when is_node
    (p <- gets next_info ;;
     modify (with_next_info (p + 1)) ;;;
     modify (fun m => with_infos (<[p := NodeInfo.mk object 0]> (infos m)) m) ;;;
     modify (fun m => with_info_list (info_list m ++ [p]) m)).

Definition on_global_removed (is_node : bool) (object : Z) : M unit :=
  when is_node
    (p <- find_node_info object ;;
     when (negb (p =? 0)) (node_info_free p)).

Definition module_new (loop : T) (now : Z) : ModuleImpl T := mkModule ∅ [] 1 loop now ∅.

(** ** Its signals *)

(** The listeners on the signals of a node: one of every info for it, in the order
    they were added. *)
Definition signal_node (n : Z) (listener : Z -> M unit) : M unit :=
  ps <- gets info_list ;;
  each ps (fun p => i <- get_info p ;; when (NodeInfo.node i =? n) (listener p)).

(** The global of a node is added right after the node signals [initialized]
    ([init_complete]) and destroyed right after it signals that it is destroyed
    ([pinos_node_destroy]; a node that never was initialized has none, and no info). *)
Definition deliver (e : event) : M unit :=
  match e with
  | state_request n _ => signal_node n on_node_state_request
  | node_state_changed n _ new => signal_node n (on_node_state_changed new)
  | initialized n => on_global_added true n
  | node_destroyed n => on_global_removed true n
  | _ => ret tt
  end.
End Module.

(** ** The server with the module *)

Record server (S T : Type) := mkServer {
  server_graph : graph S;
  server_module : ModuleImpl T;
  (** what the module was told, and when *)
  history : list (Z * event)
}.
Arguments mkServer {S T}.
Arguments server_graph {S T}.
Arguments server_module {S T}.
Arguments history {S T}.

Section Server.
Context {S T : Type} `{node_impl : SpaNode S} `{kernel_impl : Kernel} `{heap_impl : Heap} `{TimerLoop T} (ty : PinosType) (idle_timeout_ptr : Z).
Local Abbreviation V := (ST (server S T)).

Definition on_module {A} (f : ST (ModuleImpl T) A) : V A := fun s =>
  let* (a, m) := f (server_module s) in Done (a, mkServer (server_graph s) m (history s)).
Definition note (e : event) : V unit :=
  modify (fun s => mkServer (server_graph s) (server_module s) (history s ++ [(clock (server_module s), e)])).

(** A request to the graph: the module hears what it signals. *)
Definition request_graph (r : request) : V unit := fun s =>
  let* (_, g) := perform ty r (server_graph s) in
  each (drop (length (events (server_graph s))) (events g)) (fun e => note e ;;; on_module (deliver idle_timeout_ptr e))
    (mkServer g (server_module s) (history s)).

(** A timer of the module expires. *)
Definition expire (p : Z) : V unit :=
  n <- on_module (idle_timeout p) ;;
  request_graph (node_set_state n PINOS_NODE_STATE_SUSPENDED).

Definition pass (ns : Z) : V unit := on_module (modify (fun m => with_clock (clock m + ns) m)).

Definition server_new (g : graph S) (loop : T) (now : Z) : server S T := mkServer g (module_new loop now) [].
End Server.
