(* ===== verification/SuspendTheory.v ===== *)
(** The module that suspends idle nodes: its timers are exactly of the nodes that are
    idle and left alone, in every state the server can reach. *)
From stdpp Require Import gmap.
From S2P Require Import Prelude State Defs Mem Buffers Graph Negotiate Topology LinkLife GraphLogic GraphTheory LoopSources LoopSourcesTheory TimerLoop GraphLog SuspendOnIdle.

(** ** What the module promises *)

Definition THREE_SECONDS : Z := 3 * SPA_NSEC_PER_SEC.

(** The nodes it knows, each with the time since when it is idle and was not asked to
    be in another state. *)
Abbreviation entries := (list (Z * option Z)).

Definition of_node (n : Z) (f : Z * option Z -> Z * option Z) (e : Z * option Z) : Z * option Z := if e.1 =? n then f e else e.
Fixpoint forget (n : Z) (es : entries) : entries :=
  match es with [] => [] | e :: es => if e.1 =? n then es else e :: forget n es end.

Definition entries_after (es : entries) (x : Z * event) : entries :=
  match x.2 with
  | state_request n _ => map (of_node n (fun e => (e.1, None))) es
  | node_state_changed n _ new =>
      map (of_node n (fun e => (e.1, if new =? PINOS_NODE_STATE_IDLE then Some x.1 else None))) es
  | initialized n => es ++ [(n, None)]
  | node_destroyed n => forget n es
  | _ => es
  end.
(** After everything that was told, each with the time. *)
Definition idle_entries (h : list (Z * event)) : entries := foldl entries_after [] h.

Lemma Forall2_weaken_in {A B} (P Q : A -> B -> Prop) l k : Forall2 P l k -> (forall x y, x ∈ l -> P x y -> Q x y) -> Forall2 Q l k.
Proof.
  intros HP. induction HP as [|x y l k Hx _ IH]; intros HQ; constructor; [apply HQ; [left | done] |]. apply IH. intros a b Ha. apply HQ. by right.
Qed.

Section Module.
Context {T : Type} `{TimerLaws T} (ptr : Z).
(** There is memory for timers: the module does not look at what it gets. *)
Hypothesis granted : forall f d (t : T) p t', timers_ok t -> pinos_loop_add_timer f d t = Done (p, t') -> p <> 0.
Local Abbreviation M := (ST (ModuleImpl T)).

Definition entry_ok (m : ModuleImpl T) (p : Z) (e : Z * option Z) : Prop :=
  exists t, infos m !! p = Some (NodeInfo.mk e.1 t) /\
    match e.2 with
    | None => t = 0
    | Some since => t <> 0 /\ timers (main_loop m) !! t = Some (ptr, p) /\ expiry m !! t = Some (since + THREE_SECONDS)
    end.

(** The module is as its entries say, and has no other timers in the loop. *)
Record represents (m : ModuleImpl T) (es : entries) : Prop := {
  rep_loop : timers_ok (main_loop m);
  rep_list : Forall2 (entry_ok m) (info_list m) es;
  rep_nodup : NoDup (info_list m);
  rep_infos p : is_Some (infos m !! p) <-> p ∈ info_list m;
  rep_timers t p : timers (main_loop m) !! t = Some (ptr, p) -> t <> 0 /\ exists n, infos m !! p = Some (NodeInfo.mk n t);
  rep_fresh p : p ∈ info_list m -> 0 < p < next_info m;
  rep_next : 0 < next_info m
}.

Lemma represents_new loop now : timers_ok loop -> (forall t p, timers loop !! t <> Some (ptr, p)) -> represents (module_new loop now) [].
Proof.
  intros Hok Hnone. split; simpl; [done | constructor | constructor | | | by intros p ?%not_elem_of_nil | lia].
  - intros p. rewrite lookup_empty. split; [by intros [] | by intros ?%not_elem_of_nil].
  - intros t p Ht. by destruct (Hnone t p).
Qed.

Lemma represents_clock now m es : represents m es -> represents (with_clock now m) es.
Proof. intros [R1 R2 R3 R4 R5 R6 R7]. by split. Qed.

(** Changing the entry of one info: the timers of the others stay. *)
Lemma represents_update m m' l1 p l2 a e e' t' b :
  represents m (a ++ e :: b) -> info_list m = l1 ++ p :: l2 -> length l1 = length a ->
  info_list m' = info_list m -> next_info m' = next_info m -> infos m' = <[p := NodeInfo.mk e.1 t']> (infos m) -> e'.1 = e.1 ->
  timers_ok (main_loop m') ->
  (forall q t, q <> p -> timers (main_loop m) !! t = Some (ptr, q) -> timers (main_loop m') !! t = Some (ptr, q) /\ expiry m' !! t = expiry m !! t) ->
  (forall q t, timers (main_loop m') !! t = Some (ptr, q) -> t <> 0 /\ (q <> p /\ timers (main_loop m) !! t = Some (ptr, q) \/ q = p /\ t = t')) ->
  entry_ok m' p e' -> represents m' (a ++ e' :: b).
Proof.
  intros [R1 R2 R3 R4 R5 R6 R7] Hl Hlen Hl' Hn' Hi' He' Hok Hkeep Hconv Hentry.
  assert (forall q x, q <> p -> entry_ok m q x -> entry_ok m' q x) as Hother.
  { intros q x Hq (t & Hi & Ht). exists t. rewrite Hi', lookup_insert_ne by done. split; [done |]. destruct (x.2); [| done].
    destruct Ht as (Hne & Ht & Hx). destruct (Hkeep q t Hq Ht) as [-> ->]. done. }
  rewrite Hl in R2, R3. apply Forall2_app_inv in R2 as [Ha Hb]; [| done]. apply Forall2_cons in Hb as [He Hb].
  apply NoDup_app in R3 as (N1 & N2 & N3). apply NoDup_cons in N3 as [N3 N4].
  split; try done; rewrite ?Hl', ?Hl, ?Hn', ?Hi'.
  - apply Forall2_app; [| constructor; [done |]].
    + eapply Forall2_weaken_in; [exact Ha |]. intros q x Hq. apply Hother. intros ->. apply (N2 p Hq). by left.
    + eapply Forall2_weaken_in; [exact Hb |]. intros q x Hq. apply Hother. by intros ->.
  - apply NoDup_app. split_and!; [done.. | by constructor].
  - intros q. rewrite <- Hl. destruct (decide (q = p)) as [-> |]; [rewrite lookup_insert_eq | by rewrite lookup_insert_ne].
    split; [intros _; rewrite Hl; apply elem_of_app; right; by left | done].
  - intros t q Hq. destruct (Hconv q t Hq) as [Hne [[Hqp Hold] | [-> ->]]]; split; try done.
    + rewrite lookup_insert_ne by done. by apply R5.
    + exists e.1. by rewrite lookup_insert_eq.
  - rewrite <- Hl. exact R6.
  - exact R7.
Qed.

(** ** Its handlers *)

(** A handler on one info: it returns, and the entry becomes [e']. *)
Definition handles (h : Z -> M unit) (f : Z -> Z * option Z -> Z * option Z) (ok : Z * option Z -> Prop) : Prop :=
  forall m l1 p l2 a e b, represents m (a ++ e :: b) -> info_list m = l1 ++ p :: l2 -> length l1 = length a -> ok e ->
  exists m', h p m = Done (tt, m') /\ represents m' (a ++ f (clock m) e :: b) /\ info_list m' = info_list m /\ clock m' = clock m.

Lemma info_of m l1 p l2 a e b : represents m (a ++ e :: b) -> info_list m = l1 ++ p :: l2 -> length l1 = length a -> entry_ok m p e.
Proof.
  intros Hr Hl Hlen. pose proof (rep_list m _ Hr) as Hall. rewrite Hl in Hall. apply Forall2_app_inv in Hall as [_ Hall]; [| done].
  by apply Forall2_cons in Hall as [He _].
Qed.
Lemma run_get_info {B} p i (k : NodeInfo.t -> M B) m : infos m !! p = Some i -> bind (get_info p) k m = k i m.
Proof. intros Hp. unfold bind, get_info. by rewrite Hp. Qed.
Lemma run_set_info {B} p i f (k : unit -> M B) m : infos m !! p = Some i -> bind (set_info p f) k m = k tt (with_infos (<[p := f i]> (infos m)) m).
Proof. intros Hp. unfold set_info, bind, get_info. by rewrite Hp. Qed.
Lemma run_on_loop {A} (f : ST T A) a t m : f (main_loop m) = Done (a, t) -> on_loop f m = Done (a, with_main_loop t m).
Proof. intros Hf. unfold on_loop. by rewrite Hf. Qed.

Lemma remove_handles : handles remove_idle_timeout (fun _ e => (e.1, None)) (fun _ => True).
Proof.
  intros m l1 p l2 a e b Hr Hl Hlen _. destruct (info_of m l1 p l2 a e b Hr Hl Hlen) as (t & Hi & Ht).
  unfold remove_idle_timeout. rewrite (run_get_info _ _ _ _ Hi). cbn [NodeInfo.idle_timeout]. destruct e as [n [since |]]; simpl in *.
  - destruct Ht as (Hne & Ht & Hx). rewrite (proj2 (Z.eqb_neq t 0) Hne). simpl.
    destruct (destroy_source_law t (main_loop m) (rep_loop m _ Hr)) as (loop & Hrun & Hok & Htimers); [by eexists |].
    rewrite (run_bind_done _ _ _ _ _ (run_on_loop _ _ _ _ Hrun)). unfold set_info. rewrite (run_get_info _ _ _ (with_main_loop loop m) Hi).
    eexists. split; [reflexivity |]. split; [| done].
    eapply (represents_update m _ l1 p l2 a (n, Some since) (n, None) 0 b Hr Hl Hlen); try done; simpl; rewrite ?Htimers.
    + intros q x Hq Hx'. rewrite lookup_delete_ne; [done |]. intros <-. rewrite Ht in Hx'. congruence.
    + intros q x [Hne' Hx']%lookup_delete_Some. destruct (rep_timers m _ Hr x q Hx') as (Hx0 & n' & Hq). split; [done |]. left. split; [| done].
      intros ->. rewrite Hi in Hq. congruence.
    + exists 0. simpl. by rewrite lookup_insert_eq.
  - subst t. exists m. done.
Qed.

Lemma changed_handles state : handles (on_node_state_changed ptr state)
  (fun now e => (e.1, if state =? PINOS_NODE_STATE_IDLE then Some now else None))
  (fun e => state = PINOS_NODE_STATE_IDLE -> e.2 = None).
Proof.
  intros m l1 p l2 a e b Hr Hl Hlen He. unfold on_node_state_changed. destruct (Z.eqb_spec state PINOS_NODE_STATE_IDLE) as [Hs | _]; simpl.
  2: by apply (remove_handles m l1 p l2 a e b).
  destruct (info_of m l1 p l2 a e b Hr Hl Hlen) as (t & Hi & Ht). rewrite (He Hs) in Ht. subst t.
  destruct (add_timer_law ptr p (main_loop m) (rep_loop m _ Hr)) as (t & loop & Hrun & Hok & Htimers).
  pose proof (granted _ _ _ _ _ (rep_loop m _ Hr) Hrun) as Hne. destruct Htimers as [[? _] | (_ & Hnew & Htimers)]; [done |].
  rewrite (run_bind_done _ _ _ _ _ (run_on_loop _ _ _ _ Hrun)). rewrite (run_set_info _ _ _ _ (with_main_loop loop m) Hi).
  unfold arm. set (m1 := with_infos _ _).
  destruct (update_timer_law t (Some (3, 0)) None false (main_loop m1) Hok) as (r & loop' & Hrun' & Hok' & Htimers');
    [change (main_loop m1) with loop; rewrite Htimers, lookup_insert_eq; by eexists |].
  change (main_loop m1) with loop in Htimers'. rewrite (run_bind_done _ _ _ _ _ (run_on_loop _ _ _ _ Hrun')). eexists. split; [reflexivity |]. split; [| done].
  eapply (represents_update m _ l1 p l2 a e _ t b Hr Hl Hlen); try done; simpl; rewrite ?Htimers', ?Htimers.
  - intros q x Hq Hx. rewrite !lookup_insert_ne by congruence. done.
  - intros q x. destruct (decide (x = t)) as [-> |]; [rewrite lookup_insert_eq; intros [= <-]; split; [done | by right] |].
    rewrite lookup_insert_ne by done. intros Hx. destruct (rep_timers m _ Hr x q Hx) as (Hx0 & n' & Hq). split; [done |]. left. split; [| done].
    intros ->. rewrite Hi in Hq. congruence.
  - exists t. simpl. rewrite Htimers', Htimers, !lookup_insert_eq. split; [done |]. split; [done |]. split; [done |]. unfold THREE_SECONDS. f_equal. lia.
Qed.

(** A signal of a node reaches every info for it, and no other. *)
Lemma signal_node_ok h f ok n m es : handles h f ok -> represents m es -> (forall e, e ∈ es -> e.1 = n -> ok e) ->
  exists m', signal_node n h m = Done (tt, m') /\ represents m' (map (of_node n (f (clock m))) es) /\ clock m' = clock m.
Proof.
  intros Hh Hr Hes. unfold signal_node. run_step.
  assert (forall b l2 a l1 m0, represents m0 (a ++ b) -> info_list m0 = l1 ++ l2 -> length l1 = length a -> clock m0 = clock m ->
    (forall e, e ∈ b -> e.1 = n -> ok e) ->
    exists m', each l2 (fun p => i <- get_info p ;; when (NodeInfo.node i =? n) (h p)) m0 = Done (tt, m') /\
      represents m' (a ++ map (of_node n (f (clock m))) b) /\ clock m' = clock m) as Hall.
  { induction b as [|e b IH]; intros l2 a l1 m0 Hr0 Hl Hlen Hc Hb; pose proof (Forall2_length _ _ _ (rep_list m0 _ Hr0)) as Hlen';
      rewrite Hl, !length_app, Hlen in Hlen'; (destruct l2 as [|p l2]; [|]); try (simpl in Hlen'; lia); [by exists m0 |].
    destruct (info_of m0 l1 p l2 a e b Hr0 Hl Hlen) as (t & Hi & _). simpl. rewrite bind_assoc, (run_get_info _ _ _ _ Hi). cbn [NodeInfo.node]. unfold of_node at 1.
    assert (exists m1, when (e.1 =? n) (h p) m0 = Done (tt, m1) /\ represents m1 (a ++ (if e.1 =? n then f (clock m) e else e) :: b) /\
      info_list m1 = info_list m0 /\ clock m1 = clock m) as (m1 & Hrun & Hr1 & Hl1 & Hc1).
    { destruct (Z.eqb_spec e.1 n) as [Heq |]; simpl; [| by exists m0].
      destruct (Hh m0 l1 p l2 a e b Hr0 Hl Hlen) as (m1 & Hrun & Hr1 & Hl1 & Hc1); [apply Hb; [by left | done] |].
      exists m1. rewrite Hc in Hr1, Hc1. done. }
    rewrite (run_bind_done _ _ _ _ _ Hrun). rewrite cons_middle, app_assoc. rewrite cons_middle, app_assoc in Hr1.
    apply (IH l2 _ (l1 ++ [p])); [done | by rewrite Hl1, Hl, <- app_assoc | rewrite !length_app; simpl; lia | done |]. intros x Hx. apply Hb. by right. }
  apply (Hall es (info_list m) [] [] m Hr eq_refl eq_refl eq_refl Hes).
Qed.

Lemma added_ok n m es : represents m es ->
  exists m', on_global_added true n m = Done (tt, m') /\ represents m' (es ++ [(n, None)]) /\ clock m' = clock m.
Proof.
  intros [R1 R2 R3 R4 R5 R6 R7]. unfold on_global_added. simpl. run_step. eexists. split; [reflexivity |]. split; [| done].
  set (p := next_info m). assert (p ∉ info_list m) as Hp by (intros Hin; specialize (R6 p Hin); lia).
  assert (infos m !! p = None) as Hnone by (destruct (infos m !! p) eqn:Hi; [destruct Hp; apply R4; by eexists | done]).
  split; simpl.
  - done.
  - apply Forall2_app; [| constructor; [| constructor]].
    + eapply Forall2_weaken_in; [exact R2 |]. intros q e Hq (t & Hi & Ht). exists t. simpl. rewrite lookup_insert_ne; [done |]. by intros <-.
    + exists 0. simpl. by rewrite lookup_insert_eq.
  - apply NoDup_app. split_and!; [done | intros x Hx ->%list_elem_of_singleton; done | apply NoDup_singleton].
  - intros q. rewrite elem_of_app, list_elem_of_singleton, <- R4. destruct (decide (q = p)) as [-> |].
    + rewrite lookup_insert_eq. split; [by right | by eexists].
    + rewrite lookup_insert_ne by done. split; [by left | by intros [? | ->]].
  - intros t q Ht. destruct (R5 t q Ht) as (Hne & n' & Hi). split; [done |]. exists n'. rewrite lookup_insert_ne; [done | congruence].
  - intros q [Hq | ->%list_elem_of_singleton]%elem_of_app; [specialize (R6 q Hq) |]; lia.
  - lia.
Qed.

Lemma find_info_ok n m es : represents m es ->
  exists p, find_node_info n m = Done (p, m) /\
    (p = 0 /\ forget n es = es \/
     p <> 0 /\ exists l1 l2 a e b, info_list m = l1 ++ p :: l2 /\ es = a ++ e :: b /\ length l1 = length a /\ forget n es = a ++ b).
Proof.
  intros Hr. unfold find_node_info. run_step.
  assert (forall ps es0, Forall2 (entry_ok m) ps es0 -> (forall p, p ∈ ps -> p <> 0) -> exists p, find_info_in ps n m = Done (p, m) /\
    (p = 0 /\ forget n es0 = es0 \/
     p <> 0 /\ exists l1 l2 a e b, ps = l1 ++ p :: l2 /\ es0 = a ++ e :: b /\ length l1 = length a /\ forget n es0 = a ++ b)) as Hfind.
  { intros ps es0 Hall. induction Hall as [|p e ps es0 (t & Hi & _) Hall IH]; intros Hps; [exists 0; split; [done | by left] |].
    simpl. rewrite (run_get_info _ _ _ _ Hi). cbn [NodeInfo.node]. destruct (e.1 =? n).
    - exists p. split; [done |]. right. split; [apply Hps; by left |]. by exists [], ps, [], e, es0.
    - destruct IH as (q & Hrun & Hq); [intros q Hq; apply Hps; by right |]. exists q. split; [done |].
      destruct Hq as [[-> ->] | (Hne & l1 & l2 & a & x & b & -> & -> & Hlen & Hf)]; [by left |]. right. split; [done |].
      exists (p :: l1), l2, (e :: a), x, b. rewrite Hf. simpl. by rewrite Hlen. }
  apply Hfind; [apply (rep_list m es Hr) |]. intros p Hp. pose proof (rep_fresh m es Hr p Hp). lia.
Qed.

Lemma unlink_middle p l1 l2 : p ∉ l1 -> unlink p (l1 ++ p :: l2) = Done (l1 ++ l2).
Proof.
  induction l1 as [|q l1 IH]; simpl; [by rewrite Z.eqb_refl |]. intros [Hne Hp]%not_elem_of_cons.
  rewrite (proj2 (Z.eqb_neq p q) Hne), IH by done. done.
Qed.

(** [remove_idle_timeout] does not look at the list. *)
Lemma remove_frame p x m m' : remove_idle_timeout p m = Done (tt, m') ->
  remove_idle_timeout p (with_info_list x m) = Done (tt, with_info_list x m').
Proof.
  unfold remove_idle_timeout. destruct (infos m !! p) as [i |] eqn:Hi; [| unfold bind, get_info; by rewrite Hi].
  rewrite !(run_get_info p i) by done. destruct (negb _); simpl; [| by intros [= <-]].
  unfold bind, on_loop. simpl. destruct (pinos_loop_destroy_source _ (main_loop m)) as [[u t] | |]; [| done..]. cbn [obind].
  unfold set_info, bind, get_info. simpl. rewrite !Hi. unfold modify. simpl. by intros [= <-].
Qed.

Lemma removed_ok n m es : represents m es ->
  exists m', on_global_removed true n m = Done (tt, m') /\ represents m' (forget n es) /\ clock m' = clock m.
Proof.
  intros Hr. unfold on_global_removed. simpl. destruct (find_info_ok n m es Hr) as (p & Hrun & Hp). rewrite (run_bind_done _ _ _ _ _ Hrun).
  destruct Hp as [[-> ->] | (Hne & l1 & l2 & a & e & b & Hl & -> & Hlen & ->)]; [by exists m |].
  rewrite (proj2 (Z.eqb_neq p 0) Hne). simpl. unfold node_info_free. run_step.
  pose proof (rep_nodup m _ Hr) as Hn. rewrite Hl in Hn. apply NoDup_app in Hn as (N1 & N2 & N3). apply NoDup_cons in N3 as [N3 N4].
  rewrite Hl, unlink_middle by (intros Hin; apply (N2 p Hin); by left). run_step.
  destruct (remove_handles m l1 p l2 a e b Hr Hl Hlen I) as (m' & Hrem & Hr' & Hl' & Hc').
  rewrite (run_bind_done _ _ _ _ _ (remove_frame _ (l1 ++ l2) _ _ Hrem)). eexists. split; [reflexivity |]. split; [| done].
  destruct (info_of m' l1 p l2 a (e.1, None) b Hr') as (t & Hi & Ht); [by rewrite Hl' | done |]. simpl in Hi, Ht. subst t.
  destruct Hr' as [R1 R2 R3 R4 R5 R6 R7]. rewrite Hl', Hl in R2. apply Forall2_app_inv in R2 as [Ha Hb]; [| done]. apply Forall2_cons in Hb as [_ Hb].
  assert (forall q x, q ∈ l1 ++ l2 -> entry_ok m' q x -> entry_ok (with_infos (delete p (infos m')) (with_info_list (l1 ++ l2) m')) q x) as Hother.
  { intros q x Hq (t & Hiq & Ht). exists t. simpl. rewrite lookup_delete_ne; [done |]. intros ->. apply elem_of_app in Hq as [Hq | Hq]; [| done].
    apply (N2 q Hq). by left. }
  split; simpl; try done.
  - apply Forall2_app; (eapply Forall2_weaken_in; [eassumption |]); intros q x Hq; apply Hother; apply elem_of_app; auto.
  - apply NoDup_app. split_and!; [done | | done]. intros q Hq Hq2. apply (N2 q Hq). by right.
  - intros q. destruct (decide (q = p)) as [-> |].
    + rewrite lookup_delete_eq. split; [by intros [] |]. intros [Hq | Hq]%elem_of_app; [| done]. destruct (N2 p Hq). by left.
    + rewrite lookup_delete_ne by done. rewrite R4, Hl', Hl, !elem_of_app, elem_of_cons. naive_solver.
  - intros t q Ht. destruct (R5 t q Ht) as (Ht0 & n' & Hq). split; [done |]. exists n'. rewrite lookup_delete_ne; [done |]. intros ->. rewrite Hi in Hq. congruence.
  - intros q Hq. apply R6. rewrite Hl', Hl. apply elem_of_app in Hq as [Hq | Hq]; apply elem_of_app; [by left | right; by right].
Qed.

(** Entries and timers are the same. *)
Lemma represents_timer m es : represents m es -> forall n since, (n, Some since) ∈ es ->
  exists t p, timers (main_loop m) !! t = Some (ptr, p) /\ infos m !! p = Some (NodeInfo.mk n t) /\ expiry m !! t = Some (since + THREE_SECONDS).
Proof.
  intros Hr n since [i Hi]%list_elem_of_lookup. destruct (Forall2_lookup_r _ _ _ _ _ (rep_list m es Hr) Hi) as (p & _ & t & Hp & _ & Ht & Hx).
  by exists t, p.
Qed.
Lemma timer_represents m es : represents m es -> forall t p, timers (main_loop m) !! t = Some (ptr, p) ->
  exists n since, infos m !! p = Some (NodeInfo.mk n t) /\ (n, Some since) ∈ es /\ expiry m !! t = Some (since + THREE_SECONDS).
Proof.
  intros Hr t p Ht. destruct (rep_timers m es Hr t p Ht) as (Hne & n & Hi).
  assert (p ∈ info_list m) as [i Hp]%list_elem_of_lookup by (apply (rep_infos m es Hr); by eexists).
  destruct (Forall2_lookup_l _ _ _ _ _ (rep_list m es Hr) Hp) as (e & He & t' & Hi' & Hx). rewrite Hi in Hi'. injection Hi' as -> <-.
  destruct e as [n' [since |]]; simpl in *; [| done]. exists n', since. split_and!; [done | by eapply list_elem_of_lookup_2 | apply Hx].
Qed.

(** What is delivered, as long as no node is said to become idle twice. *)
Definition fits (es : entries) (e : event) : Prop :=
  match e with
  | node_state_changed n _ new => new = PINOS_NODE_STATE_IDLE -> forall x, x ∈ es -> x.1 = n -> x.2 = None
  | _ => True
  end.
Lemma deliver_ok e m es : represents m es -> fits es e ->
  exists m', deliver ptr e m = Done (tt, m') /\ represents m' (entries_after es (clock m, e)) /\ clock m' = clock m.
Proof.
  intros Hr Hf. destruct e; simpl in *; try by exists m.
  - apply (signal_node_ok _ (fun _ e => (e.1, None)) (fun _ => True)); [apply remove_handles | done | done].
  - apply (signal_node_ok _ (fun now e => (e.1, if new =? PINOS_NODE_STATE_IDLE then Some now else None)) (fun e => new = PINOS_NODE_STATE_IDLE -> e.2 = None));
      [apply changed_handles | done |]. intros x Hx Hn Hnew. by apply (Hf Hnew x Hx Hn).
  - by apply added_ok.
  - by apply removed_ok.
Qed.
End Module.

(** ** The server with the module *)

Lemma forget_subset n es x : x ∈ forget n es -> x ∈ es.
Proof.
  induction es as [|e es IH]; simpl; [done |]. destruct (e.1 =? n); [by right |]. intros [-> | Hx]%elem_of_cons; [by left | right; by apply IH].
Qed.
Lemma idle_entries_snoc h x : idle_entries (h ++ [x]) = entries_after (idle_entries h) x.
Proof. unfold idle_entries. by rewrite foldl_app. Qed.

(** An entry that says idle is of a node the listeners know as idle. *)
Definition idle_ok (now : Z) (h : list (Z * event)) : Prop :=
  forall n since, (n, Some since) ∈ idle_entries h -> node_view n h.*2 = PINOS_NODE_STATE_IDLE /\ since <= now.

Lemma idle_ok_fits now h e : idle_ok now h -> told_after h.*2 e -> fits (idle_entries h) e.
Proof.
  intros Hi He. destruct e; simpl in *; try done. destruct He as [Hv Hne]. intros -> [m o] Hx Hm. simpl in *. subst m. destruct o as [since |]; [| done].
  destruct (Hi _ _ Hx). congruence.
Qed.
Lemma idle_ok_snoc now h e : idle_ok now h -> told_after h.*2 e -> idle_ok now (h ++ [(now, e)]).
Proof.
  intros Hi He n since. rewrite idle_entries_snoc, fmap_app. cbn [fmap list_fmap snd]. rewrite node_view_snoc.
  destruct e as [m st | m old new | | | | m | | | | m |]; cbn [entries_after snd fst]; try apply Hi.
  - intros (x & Hx & Hin)%list_elem_of_fmap. unfold of_node in Hx. destruct (x.1 =? m); [done |]. subst x. by apply Hi.
  - intros (x & Hx & Hin)%list_elem_of_fmap. unfold of_node in Hx. destruct (Z.eqb_spec x.1 m) as [Hm | Hm].
    + injection Hx as -> Hs. rewrite (proj2 (Z.eqb_eq m x.1)) by done. destruct (Z.eqb_spec new PINOS_NODE_STATE_IDLE); [| done]. injection Hs as ->. split; [done | lia].
    + subst x. simpl in Hm. rewrite (proj2 (Z.eqb_neq m n)) by done. by apply Hi.
  - intros [Hin | Hin%list_elem_of_singleton]%elem_of_app; [by apply Hi | done].
  - intros Hin%forget_subset. by apply Hi.
Qed.

Section Server.
Context {S T : Type} `{node_impl : SpaNode S} `{kernel_impl : Kernel} `{heap_impl : Heap} `{TimerLaws T} (ty : PinosType) (ptr : Z).
Hypothesis granted : forall f d (t : T) p t', timers_ok t -> pinos_loop_add_timer f d t = Done (p, t') -> p <> 0.
Context (proc0 : process) (elements0 : S).

(** The loop calls a timer that is there, when the kernel's time for it has come. *)
Definition may_expire (t p : Z) (s : server S T) : Prop :=
  timers (main_loop (server_module s)) !! t = Some (ptr, p) /\
  exists at_, expiry (server_module s) !! t = Some at_ /\ at_ <= clock (server_module s).

(** The server from its start: requests to the graph, time that passes, timers of
    the module, and others who use the loop for their own timers. *)
Inductive reach : server S T -> Prop :=
| reach_start loop now : timers_ok loop -> (forall t p, timers loop !! t <> Some (ptr, p)) -> reach (server_new (blank proc0 elements0) loop now)
| reach_request s r s' : reach s -> legal r -> request_graph ty ptr r s = Done (tt, s') -> reach s'
| reach_pass s ns s' : reach s -> 0 <= ns -> pass ns s = Done (tt, s') -> reach s'
| reach_expire s t p s' : reach s -> may_expire t p s -> expire ty ptr p s = Done (tt, s') -> reach s'
| reach_others s loop s' : reach s -> timers_ok loop ->
    (forall t p, timers loop !! t = Some (ptr, p) <-> timers (main_loop (server_module s)) !! t = Some (ptr, p)) ->
    on_module (modify (with_main_loop loop)) s = Done (tt, s') -> reach s'.

Record good (s : server S T) : Prop := {
  good_graph : inv [] (server_graph s);
  good_module : represents ptr (server_module s) (idle_entries (history s));
  good_history : (history s).*2 = events (server_graph s);
  good_idle : idle_ok (clock (server_module s)) (history s)
}.

(** Delivering what was signalled. *)
Lemma deliver_all es : forall g m h, represents ptr m (idle_entries h) -> idle_ok (clock m) h -> told (h.*2 ++ es) ->
  exists s' : server S T, each es (fun e => note e ;;; on_module (deliver ptr e)) (mkServer g m h) = Done (tt, s') /\ server_graph s' = g /\
    represents ptr (server_module s') (idle_entries (history s')) /\ idle_ok (clock (server_module s')) (history s') /\ (history s').*2 = h.*2 ++ es.
Proof.
  induction es as [|e es IH]; intros g m h Hr Hi Ht; [exists (mkServer g m h); split_and!; [done.. | by rewrite app_nil_r] |].
  assert (told_after h.*2 e) as He by (by eapply Ht). simpl. unfold note. run_step. cbn [server_graph server_module history].
  destruct (deliver_ok ptr granted e m (idle_entries h) Hr (idle_ok_fits _ _ _ Hi He)) as (m' & Hrun & Hr' & Hc').
  set (s1 := mkServer g m (h ++ [(clock m, e)])).
  assert (on_module (deliver ptr e) s1 = Done (tt, mkServer g m' (h ++ [(clock m, e)]))) as Hrun' by (unfold on_module; simpl; by rewrite Hrun).
  rewrite (run_bind_done _ _ _ _ _ Hrun').
  destruct (IH g m' (h ++ [(clock m, e)])) as (s' & Hs' & Hg & Hrs & His & Hh).
  - by rewrite idle_entries_snoc.
  - rewrite Hc'. by apply idle_ok_snoc.
  - rewrite fmap_app, <- app_assoc. done.
  - exists s'. split_and!; [done.. |]. rewrite Hh, fmap_app, <- app_assoc. done.
Qed.

Lemma request_good s r g' : good s -> legal r -> perform ty r (server_graph s) = Done (tt, g') ->
  exists s', request_graph ty ptr r s = Done (tt, s') /\ server_graph s' = g' /\ good s'.
Proof.
  intros [G1 G2 G3 G4] Hr Hrun. unfold request_graph. rewrite Hrun. cbn [obind].
  pose proof (keeps_perform ty [] r Hr _ _ _ G1 Hrun) as Hinv.
  destruct (grows_perform ty r _ _ _ Hrun) as [es Hes]. rewrite Hes, drop_app_length.
  destruct (deliver_all es g' (server_module s) (history s) G2 G4) as (s' & Hs' & Hg & Hrs & His & Hh).
  - rewrite G3, <- Hes. by destruct Hinv.
  - exists s'. split_and!; [done.. |]. split; try done; [by rewrite Hg | by rewrite Hh, G3, Hg].
Qed.

(** What is behind a timer that may expire: its info, with the node. *)
Lemma expiring s t p : good s -> may_expire t p s ->
  exists n since m' a b, idle_entries (history s) = a ++ (n, Some since) :: b /\ since + THREE_SECONDS <= clock (server_module s) /\
    idle_timeout p (server_module s) = Done (n, m') /\ represents ptr m' (a ++ (n, None) :: b) /\ clock m' = clock (server_module s).
Proof.
  intros [G1 G2 G3 G4] [Ht (x & Hx & Hle)]. set (m := server_module s) in *. destruct (rep_timers ptr m _ G2 t p Ht) as (Hne & n & Hi).
  assert (p ∈ info_list m) as Hin by (apply (rep_infos ptr m _ G2); by eexists). apply list_elem_of_split in Hin as (l1 & l2 & Hl).
  pose proof (rep_list ptr m _ G2) as Hall. rewrite Hl in Hall. apply Forall2_app_inv_l in Hall as (a & b0 & Ha & Hb & Heq).
  apply Forall2_cons_inv_l in Hb as (e & b & (t' & Hi' & He) & Hb & ->). assert (length l1 = length a) as Hlen by by apply Forall2_length in Ha.
  rewrite Heq in G2. destruct e as [n' o]. simpl in *. rewrite Hi in Hi'. injection Hi' as <- <-. destruct o as [since |]; [| done].
  destruct He as (_ & _ & He). rewrite He in Hx. injection Hx as <-.
  destruct (remove_handles ptr m l1 p l2 a (n, Some since) b G2 Hl Hlen I) as (m' & Hrem & Hr' & Hl' & Hc').
  exists n, since, m', a, b. split_and!; [done.. | | done | done].
  unfold idle_timeout. rewrite (run_bind_done _ _ _ _ _ Hrem).
  destruct (info_of ptr m' l1 p l2 a (n, None) b Hr') as (t'' & Hi'' & _); [by rewrite Hl' | done |]. by rewrite (run_get_info _ _ _ _ Hi'').
Qed.

Lemma set_state_asks n state g g' : perform ty (node_set_state n state) g = Done (tt, g') -> exists es, events g' = events g ++ state_request n state :: es.
Proof.
  cbn [perform]. unfold pinos_node_set_state. rewrite !bind_assoc. unfold bind at 1, emit. cbn [obind]. set (g1 := mkGraph _ _ _ _ _ _ _ _ _ _ _ _).
  set (k := bind _ _). intros Hrun. assert (grows k) as Hk by (unfold k; grows_all).
  destruct (Hk _ _ _ Hrun) as [es Hes]. exists es. rewrite Hes. simpl. by rewrite <- app_assoc.
Qed.

Lemma expire_good s t p n since m' a b g' : good s -> may_expire t p s -> idle_entries (history s) = a ++ (n, Some since) :: b ->
  idle_timeout p (server_module s) = Done (n, m') -> represents ptr m' (a ++ (n, None) :: b) -> clock m' = clock (server_module s) ->
  perform ty (node_set_state n PINOS_NODE_STATE_SUSPENDED) (server_graph s) = Done (tt, g') ->
  exists s', expire ty ptr p s = Done (tt, s') /\ server_graph s' = g' /\ good s'.
Proof.
  intros [G1 G2 G3 G4] _ Heq Hidle Hr' Hc' Hrun. unfold expire, bind at 1, on_module. rewrite Hidle. cbn [obind].
  unfold request_graph. cbn [server_graph server_module history]. rewrite Hrun. cbn [obind].
  assert (legal (node_set_state n PINOS_NODE_STATE_SUSPENDED)) as Hlegal by (simpl; unfold valid_node_state; by split).
  pose proof (keeps_perform ty [] _ Hlegal _ _ _ G1 Hrun) as Hinv.
  destruct (set_state_asks _ _ _ _ Hrun) as [es Hes]. rewrite Hes, drop_app_length. simpl. unfold note at 1. run_step. cbn [server_graph server_module history].
  set (e := state_request n PINOS_NODE_STATE_SUSPENDED) in *. set (h1 := history s ++ [(clock m', e)]).
  destruct (deliver_ok ptr granted e m' _ Hr' I) as (m1 & Hrun1 & Hr1 & Hc1).
  assert (on_module (deliver ptr e) (mkServer g' m' h1) = Done (tt, mkServer g' m1 h1)) as Hrun1' by (unfold on_module; cbn [server_graph server_module history]; by rewrite Hrun1).
  rewrite (run_bind_done _ _ _ _ _ Hrun1').
  assert (idle_entries h1 = entries_after (a ++ (n, None) :: b) (clock m', e)) as Hh1.
  { unfold h1. rewrite idle_entries_snoc, Heq. unfold entries_after, e. cbn [snd fst]. rewrite !map_app. simpl. unfold of_node at 2 5. simpl. by rewrite Z.eqb_refl. }
  destruct (deliver_all es g' m1 h1) as (s' & Hs' & Hg & Hrs & His & Hh).
  - by rewrite Hh1.
  - rewrite Hc1. unfold h1. rewrite Hc'. by apply idle_ok_snoc.
  - unfold h1. rewrite fmap_app, G3, <- app_assoc. simpl. rewrite <- Hes. by destruct Hinv.
  - exists s'. split_and!; [done.. |]. split; try done; [by rewrite Hg |].
    rewrite Hh, Hg, Hes. unfold h1. by rewrite fmap_app, G3, <- app_assoc.
Qed.

Lemma reach_good s : reach s -> good s.
Proof.
  induction 1 as [loop now Hok Hnone | s r s' _ IH Hr Hrun | s ns s' _ [G1 G2 G3 G4] Hns Hrun | s t p s' _ IH Hmay Hrun | s loop s' _ [G1 G2 G3 G4] Hok Hiff Hrun].
  - split; simpl; [apply inv_blank | by apply represents_new | done | by intros n since ?%not_elem_of_nil].
  - destruct (perform ty r (server_graph s)) as [[[] g'] | |] eqn:Hg; [| unfold request_graph in Hrun; by rewrite Hg in Hrun..].
    destruct (request_good s r g' IH Hr Hg) as (s1 & Hrun1 & _ & Hgood). rewrite Hrun in Hrun1. by injection Hrun1 as <-.
  - injection Hrun as <-. split; simpl; [done | by apply represents_clock | done |]. intros n since Hin. destruct (G4 n since Hin). split; [done | lia].
  - destruct (expiring s t p IH Hmay) as (n & since & m' & a & b & Heq & Hle & Hidle & Hr' & Hc').
    destruct (perform ty (node_set_state n PINOS_NODE_STATE_SUSPENDED) (server_graph s)) as [[[] g'] | |] eqn:Hg.
    2, 3: exfalso; unfold expire, bind, on_module, request_graph in Hrun; rewrite Hidle in Hrun; simpl in Hrun; unfold request_graph in Hrun; simpl in Hg, Hrun; by rewrite Hg in Hrun.
    destruct (expire_good s t p n since m' a b g' IH Hmay Heq Hidle Hr' Hc' Hg) as (s1 & Hrun1 & _ & Hgood). rewrite Hrun in Hrun1. by injection Hrun1 as <-.
  - injection Hrun as <-. split; try done. destruct G2 as [R1 R2 R3 R4 R5 R6 R7]. split; simpl; try done.
    + eapply Forall2_weaken_in; [exact R2 |]. intros p e _ (t & Hi & Ht). exists t. split; [done |]. destruct (e.2); [| done]. simpl. by rewrite Hiff.
    + intros t p Ht. apply R5. by apply Hiff.
Qed.

(** C20: The timers of the module are those of the nodes that are idle and were not asked
    to be in another state since, each three seconds after the node became idle, in
    every state the server can reach; there are no others. No signal makes it use an
    info or a timer that is gone, and a timer that expires asks the node to suspend
    when it has been idle for three seconds. *)
Theorem idle_nodes_suspend s : reach s ->
  (forall n since, (n, Some since) ∈ idle_entries (history s) <->
     exists t p, timers (main_loop (server_module s)) !! t = Some (ptr, p) /\ infos (server_module s) !! p = Some (NodeInfo.mk n t) /\
       expiry (server_module s) !! t = Some (since + THREE_SECONDS)) /\
  (forall t p, timers (main_loop (server_module s)) !! t = Some (ptr, p) ->
     exists n since, infos (server_module s) !! p = Some (NodeInfo.mk n t) /\ (n, Some since) ∈ idle_entries (history s)) /\
  (forall n since o, (n, Some since) ∈ idle_entries (history s) -> nodes (server_graph s) !! n = Some o -> Node.state o = PINOS_NODE_STATE_IDLE) /\
  (forall r g', legal r -> perform ty r (server_graph s) = Done (tt, g') ->
     exists s', request_graph ty ptr r s = Done (tt, s') /\ server_graph s' = g') /\
  (forall t p, may_expire t p s -> exists n since, (n, Some since) ∈ idle_entries (history s) /\
     since + THREE_SECONDS <= clock (server_module s) /\
     forall g', perform ty (node_set_state n PINOS_NODE_STATE_SUSPENDED) (server_graph s) = Done (tt, g') ->
       exists s', expire ty ptr p s = Done (tt, s') /\ server_graph s' = g').
Proof.
  intros Hs%reach_good. pose proof Hs as [G1 G2 G3 G4]. split_and!.
  - intros n since. split; [apply (represents_timer ptr _ _ G2) |]. intros (t & p & Ht & Hi & Hx).
    destruct (timer_represents ptr _ _ G2 t p Ht) as (n' & since' & Hi' & Hin & Hx').
    rewrite Hi in Hi'. injection Hi' as <-. rewrite Hx in Hx'. injection Hx' as Hx'. assert (since = since') as -> by lia. done.
  - intros t p Ht. destruct (timer_represents ptr _ _ G2 t p Ht) as (n & since & Hi & Hin & _). by exists n, since.
  - intros n since o Hin Ho. destruct (G4 n since Hin) as [Hv _]. rewrite G3 in Hv. by rewrite <- Hv, (proj2 (inv_nodes _ _ G1 _ _ Ho)).
  - intros r g' Hr Hg. destruct (request_good s r g' Hs Hr Hg) as (s' & Hrun & Heq & _). by exists s'.
  - intros t p Hmay. destruct (expiring s t p Hs Hmay) as (n & since & m' & a & b & Heq & Hle & Hidle & Hr' & Hc').
    exists n, since. split; [rewrite Heq; apply elem_of_app; right; by left |]. split; [done |]. intros g' Hg.
    destruct (expire_good s t p n since m' a b g' Hs Hmay Heq Hidle Hr' Hc' Hg) as (s' & Hrun & Heq' & _). by exists s'.
Qed.
End Server.

(** The module that suspends idle nodes, on the sources of a loop: a node that is idle is
    suspended, and one that was asked for something that did not happen never is. *)

#[local] Existing Instance Sample.elements.

Abbreviation toy_server := (server unit toy_loop).
Definition ptr : Z := 77.

Lemma toy_granted f d (t : toy_loop) p t' : timers_ok t -> pinos_loop_add_timer f d t = Done (p, t') -> p <> 0.
Proof. by apply loop_timers_granted. Qed.

(** ** Runs *)

Inductive action := Ask (r : request) | Pass (ns : Z) | Expire (p : Z).
Definition act (a : action) : ST toy_server unit :=
  match a with
  | Ask r => request_graph sample_types ptr r
  | Pass ns => pass ns
  | Expire p => expire sample_types ptr p
  end.
Definition server_start : toy_server := server_new (blank nothing_open tt) (toy_start []) 1000.
Definition story_of (l : list action) : toy_server := match each l act server_start with Done (_, s) => s | _ => server_start end.

(** A node is made and becomes idle. *)
Definition becomes_idle : list action := [Ask (node_new false false 0); Ask (node_set_state 1 PINOS_NODE_STATE_IDLE); Pass 50; Ask (on_node_wakeup 1 9 1)].
Definition node_state (s : toy_server) : option Z := Node.state <$> nodes (server_graph s) !! 1.

(** Its timer is the first source of the loop, its info the first of the module. *)
Definition idle_story : toy_server := story_of becomes_idle.
Example becomes_idle_timer :
  node_state idle_story = Some PINOS_NODE_STATE_IDLE /\ idle_entries (history idle_story) = [(1, Some 1050)] /\
  timers_of (main_loop (server_module idle_story)) !! 1 = Some (ptr, 1) /\ expiry (server_module idle_story) !! 1 = Some (1050 + THREE_SECONDS).
Proof. vm_compute. done. Qed.

(** Three seconds later it is suspended, and there is no timer any more. *)
Example idle_then_suspended :
  let s := story_of (becomes_idle ++ [Pass THREE_SECONDS; Expire 1; Ask (on_node_wakeup 1 9 1)]) in
  node_state s = Some PINOS_NODE_STATE_SUSPENDED /\ sources (main_loop (server_module s)) = ∅.
Proof. vm_compute. done. Qed.

(** An element that does not start. *)
Definition unstartable : SpaNode unit := {|
  spa_node_send_command n c s := (match c with Start => SPA_RESULT_ERROR | _ => SPA_RESULT_OK end, s);
  spa_node_port_enum_formats := spa_node_port_enum_formats;
  spa_node_port_set_format := spa_node_port_set_format;
  spa_node_port_get_format := spa_node_port_get_format;
  spa_node_port_get_info := spa_node_port_get_info;
  spa_node_port_use_buffers := spa_node_port_use_buffers;
  spa_node_port_alloc_buffers := spa_node_port_alloc_buffers;
  spa_node_port_send_command := spa_node_port_send_command;
  spa_node_port_set_io := spa_node_port_set_io;
  spa_node_add_port := spa_node_add_port;
  spa_node_get_n_ports := spa_node_get_n_ports;
  spa_node_get_port_ids := spa_node_get_port_ids;
  spa_clock_get_time := spa_clock_get_time
|}.
(** It stays idle when it is asked to run, without a timer. *)
Example idle_after_failure :
  match request_graph (node_impl := unstartable) sample_types ptr (node_set_state 1 PINOS_NODE_STATE_RUNNING) idle_story with
  | Done (_, s) => node_state s = Some PINOS_NODE_STATE_IDLE /\ sources (main_loop (server_module s)) = ∅
  | _ => False
  end.
Proof. vm_compute. done. Qed.

(** Asked to be what it is, the node signals no change: its timer is gone for good. *)
Example idle_for_ever :
  let s := story_of (becomes_idle ++ [Ask (node_set_state 1 PINOS_NODE_STATE_IDLE); Ask (on_node_wakeup 1 9 1)]) in
  node_state s = Some PINOS_NODE_STATE_IDLE /\ sources (main_loop (server_module s)) = ∅.
Proof. vm_compute. done. Qed.

Lemma reach_story l : Forall (fun a => match a with Ask r => legal r | Pass ns => 0 <= ns | Expire _ => False end) l ->
  forall s s', reach sample_types ptr nothing_open tt s -> each l act s = Done (tt, s') -> reach sample_types ptr nothing_open tt s'.
Proof.
  induction 1 as [|a l Ha _ IH]; intros s s' Hs; simpl; [by intros [= <-] |]. unfold bind. destruct (act a s) as [[[] s1] | |] eqn:Hrun; [| done..].
  apply IH. destruct a as [r | ns | p]; [by eapply reach_request | by eapply reach_pass | done].
Qed.
Lemma reach_idle_story : reach sample_types ptr nothing_open tt idle_story.
Proof.
  assert (each becomes_idle act server_start = Done (tt, idle_story)) as Hrun by (vm_compute; reflexivity).
  eapply (reach_story becomes_idle); [| | exact Hrun].
  - repeat constructor; done.
  - apply reach_start; [by apply wf_no_sources | by intros t p].
Qed.

Lemma idle_nodes_suspend_witness :
  (1, Some 1050) ∈ idle_entries (history idle_story) /\
  exists t p, timers (main_loop (server_module idle_story)) !! t = Some (ptr, p) /\
    expiry (server_module idle_story) !! t = Some (1050 + THREE_SECONDS).
Proof.
  destruct (idle_nodes_suspend sample_types ptr toy_granted nothing_open tt idle_story reach_idle_story) as (Hiff & _).
  assert ((1, Some 1050) ∈ idle_entries (history idle_story)) as Hin by (vm_compute; left).
  split; [exact Hin |]. destruct (proj1 (Hiff 1 1050) Hin) as (t & p & Ht & _ & Hx). exists t, p. split; [exact Ht | exact Hx].
Defined.
