(* ===== verification/MainLoops.v ===== *)
(** [pinos/client/thread-mainloop.c]: a loop in a thread of its own, and the threads of
    the application that share a lock with it.

    Every function is the list of what it does, an instruction for every call of pthread
    and every access to the counters; threads interleave between instructions. The lock
    is recursive, and [pthread_cond_wait] gives back one level of it, as pthread has it. *)
From S2P Require Import Prelude.

(** ** Programs *)

Inductive condition := cond | accept_cond.
#[export] Instance condition_eq : EqDecision condition.
Proof. solve_decision. Defined.

(** What is tested. *)
Inductive test := is_running | not_running | has_waiting | has_waiting_for_accept.

Inductive instr :=
| mutex_lock
| mutex_unlock
| cond_wait (c : condition)
| cond_signal (c : condition)
| cond_broadcast (c : condition)
| set_running (b : bool)
(** [impl->n_waiting += k], [impl->n_waiting_for_accept += k] *)
| add_waiting (k : Z)
| add_waiting_for_accept (k : Z)
| if_ (t : test) (l : list instr)
| while_ (t : test) (l : list instr)
(** [pinos_loop_signal_event], [pthread_join], [pthread_create] *)
| signal_event
| join
| create
(** [epoll_wait], and the callbacks of what is ready *)
| poll
| callbacks.

Abbreviation code := (list instr).

(** ** The functions *)

Definition pinos_thread_main_loop_lock : code := [mutex_lock].
Definition pinos_thread_main_loop_unlock : code := [mutex_unlock].

Definition pinos_thread_main_loop_signal (wait_for_accept : bool) : code :=
  if_ has_waiting [cond_broadcast cond] ::
  (if wait_for_accept then
     [add_waiting_for_accept 1;
      while_ has_waiting_for_accept [cond_wait accept_cond]]
   else []).

Definition pinos_thread_main_loop_wait : code :=
  [add_waiting 1; cond_wait cond; add_waiting (-1)].

Definition pinos_thread_main_loop_accept : code :=
  [add_waiting_for_accept (-1); cond_signal accept_cond].

(** [loop_iterate] with the two hooks. *)
Definition pre_hook : code := [mutex_unlock].
Definition post_hook : code := [mutex_lock].
Definition iterate : code := pre_hook ++ [poll] ++ post_hook ++ [callbacks].

Definition thread_do_loop : code := [mutex_lock; while_ is_running iterate; mutex_unlock].

Definition pinos_thread_main_loop_start : code := [if_ not_running [set_running true; create]].
Definition pinos_thread_main_loop_stop : code := [if_ is_running [signal_event; join; set_running false]].

(** ** Threads *)

(** [PinosThreadMainLoopImpl]: the counters, who has the lock and how often, who waits
    for which condition, whether the event is signalled; and what every thread has
    still to do. Thread 0 is the one of the loop. *)
Record threads := mkThreads {
  running : bool;
  n_waiting : Z;
  n_waiting_for_accept : Z;
  lock : option (nat * nat);
  blocked : list (nat * condition);
  event : bool;
  todo : list code
}.

Definition holds (s : threads) (t : nat) : nat :=
  match lock s with Some (o, d) => if decide (o = t) then d else 0 | None => 0 end%nat.
Definition is_blocked (s : threads) (t : nat) : Prop := exists c, (t, c) ∈ blocked s.

Definition passes (s : threads) (t : test) : bool :=
  match t with
  | is_running => running s
  | not_running => negb (running s)
  | has_waiting => 0 <? n_waiting s
  | has_waiting_for_accept => 0 <? n_waiting_for_accept s
  end.

Definition with_running (x : bool) (s : threads) : threads := mkThreads x (n_waiting s) (n_waiting_for_accept s) (lock s) (blocked s) (event s) (todo s).
Definition with_waiting (x : Z) (s : threads) : threads := mkThreads (running s) x (n_waiting_for_accept s) (lock s) (blocked s) (event s) (todo s).
Definition with_accept (x : Z) (s : threads) : threads := mkThreads (running s) (n_waiting s) x (lock s) (blocked s) (event s) (todo s).
Definition with_lock (x : option (nat * nat)) (s : threads) : threads := mkThreads (running s) (n_waiting s) (n_waiting_for_accept s) x (blocked s) (event s) (todo s).
Definition with_blocked (x : list (nat * condition)) (s : threads) : threads := mkThreads (running s) (n_waiting s) (n_waiting_for_accept s) (lock s) x (event s) (todo s).
Definition with_event (x : bool) (s : threads) : threads := mkThreads (running s) (n_waiting s) (n_waiting_for_accept s) (lock s) (blocked s) x (todo s).
Definition set_todo (t : nat) (l : code) (s : threads) : threads :=
  mkThreads (running s) (n_waiting s) (n_waiting_for_accept s) (lock s) (blocked s) (event s) (<[t := l]> (todo s)).

(** Taking the lock, when nobody else has it; giving one level back. *)
Definition acquire (t : nat) (s : threads) : option threads :=
  match lock s with
  | None => Some (with_lock (Some (t, 1%nat)) s)
  | Some (o, d) => if decide (o = t) then Some (with_lock (Some (t, S d)) s) else None
  end.
Definition release (t : nat) (s : threads) : option threads :=
  match lock s with
  | Some (o, S d) => if decide (o = t) then Some (with_lock (if decide (d = 0%nat) then None else Some (t, d)) s) else None
  | _ => None
  end.

Definition waiters (c : condition) (s : threads) : list nat := map fst (filter (fun b => b.2 = c) (blocked s)).
Definition wake (ws : list nat) (s : threads) : threads := with_blocked (filter (fun b => b.1 ∉ ws) (blocked s)) s.

(** What the instruction [i] of the thread [t] does, with [l] to be done after it;
    [None] is a thread that cannot go on. [pthread_cond_signal] wakes the [k]th waiter. *)
Definition step_instr (t : nat) (i : instr) (l : code) (k : nat) (s : threads) : option threads :=
  match i with
  | mutex_lock => set_todo t l <$> acquire t s
  | mutex_unlock => set_todo t l <$> release t s
  | cond_wait c => s' ← release t s; Some (set_todo t (mutex_lock :: l) (with_blocked (blocked s' ++ [(t, c)]) s'))
  | cond_signal c =>
      Some (set_todo t l (match waiters c s !! k with Some w => wake [w] s | None => match waiters c s with [] => s | w :: _ => wake [w] s end end))
  | cond_broadcast c => Some (set_todo t l (wake (waiters c s) s))
  | set_running b => Some (set_todo t l (with_running b s))
  | add_waiting d => Some (set_todo t l (with_waiting (n_waiting s + d) s))
  | add_waiting_for_accept d => Some (set_todo t l (with_accept (n_waiting_for_accept s + d) s))
  | if_ b x => Some (set_todo t (if passes s b then x ++ l else l) s)
  | while_ b x => Some (set_todo t (if passes s b then x ++ while_ b x :: l else l) s)
  | signal_event => Some (set_todo t l (with_event true s))
  | join => match todo s !! 0%nat with Some [] => Some (set_todo t l s) | _ => None end
  | create => Some (set_todo 0 thread_do_loop (set_todo t l s))
  | poll => Some (set_todo t l s)
  | callbacks => Some (set_todo t l s)
  end%stdpp.

(** What the application may call, and with how much of the lock: the functions on
    conditions with it, [start] and [stop] without it and all by the same thread, 1. *)
Inductive api := Lock | Unlock | Signal (wait_for_accept : bool) | Wait | Accept | Start | Stop.
Definition api_code (a : api) : code :=
  match a with
  | Lock => pinos_thread_main_loop_lock
  | Unlock => pinos_thread_main_loop_unlock
  | Signal w => pinos_thread_main_loop_signal w
  | Wait => pinos_thread_main_loop_wait
  | Accept => pinos_thread_main_loop_accept
  | Start => pinos_thread_main_loop_start
  | Stop => pinos_thread_main_loop_stop
  end.
Definition may_call (a : api) (t depth : nat) : Prop :=
  match a with
  | Lock => True
  | Unlock => (0 < depth)%nat
  | Signal _ | Wait | Accept => depth = 1%nat
  | Start | Stop => depth = 0%nat /\ t = 1%nat
  end.

(** The callback of the event, once [source_event_func] has read it. *)
Definition do_stop (s : threads) : threads := with_running false (with_event false s).

(** A step of some thread: an instruction, a call of the application, a callback that
    signals, the callback of the event, a wakeup without a reason. *)
Inductive step (s : threads) : threads -> Prop :=
| step_do t i l k s' : todo s !! t = Some (i :: l) -> ~ is_blocked s t -> step_instr t i l k s = Some s' -> step s s'
| step_call t a : (0 < t)%nat -> todo s !! t = Some [] -> may_call a t (holds s t) -> step s (set_todo t (api_code a) s)
| step_callback w l : todo s !! 0%nat = Some (callbacks :: l) -> step s (set_todo 0 (pinos_thread_main_loop_signal w ++ callbacks :: l) s)
| step_stop l : todo s !! 0%nat = Some (callbacks :: l) -> event s = true ->
    step s (do_stop s)
| step_spurious t c : (t, c) ∈ blocked s -> step s (wake [t] s).

(** The loop before [start], and [n] threads of the application. *)
Definition before_start (n : nat) : threads := mkThreads false 0 0 None [] false (replicate (S n) []).

Inductive reaches (n : nat) : threads -> Prop :=
| reaches_start : reaches n (before_start n)
| reaches_step s s' : reaches n s -> step s s' -> reaches n s'.

(** Threads around a loop: the counters are touched with the lock only, a signal wakes
    every thread that waits, callbacks run with the lock, and a new thread starts when
    the old one has finished. *)

(** ** Waits under way *)

(** How often the code will still take from [n_waiting] what it has added. *)
Definition owes (i : instr) : Z := match i with add_waiting k => - k | _ => 0 end.
Definition debt (l : code) : Z := foldr (fun i n => owes i + n) 0 l.
Definition total (ls : list code) : Z := foldr (fun l n => debt l + n) 0 ls.

Lemma debt_app a b : debt (a ++ b) = debt a + debt b.
Proof. induction a as [|i a IH]; simpl; lia. Qed.
Lemma total_insert ls t l l' : ls !! t = Some l -> total (<[t := l']> ls) = total ls - debt l + debt l'.
Proof.
  revert t. induction ls as [|x ls IH]; intros [|t]; simpl; try done.
  - intros [= ->]. lia.
  - intros Hl. rewrite (IH t Hl). lia.
Qed.
Lemma total_member ls t l : (forall x, x ∈ ls -> 0 <= debt x) -> ls !! t = Some l -> debt l <= total ls.
Proof.
  revert t. induction ls as [|x ls IH]; intros [|t] Hpos; simpl; try done.
  - intros [= ->]. assert (0 <= total ls); [| lia]. clear IH. induction ls as [|y ls IH]; simpl; [done |].
    assert (0 <= debt y) by (apply Hpos; right; left). assert (0 <= total ls); [| lia]. apply IH. intros z [-> | Hz]%elem_of_cons; apply Hpos; [left | right; by right].
  - intros Hl. assert (0 <= debt x) by (apply Hpos; left). assert (debt l <= total ls); [| lia]. apply (IH t); [| done]. intros y Hy. apply Hpos. by right.
Qed.

(** ** Code that keeps to the lock *)

(** What only the thread that starts and stops does. *)
Definition control (i : instr) : bool := match i with set_running _ | create | signal_event | join => true | _ => false end.
Definition plain (l : code) : bool := match l with i :: _ => negb (control i) | [] => true end.

(** [safe t l d]: the thread [t] with [d] levels of the lock can do [l]. *)
Fixpoint safe (t : nat) (l : code) (d : nat) : Prop :=
  match l with
  | [] => t = 0%nat -> d = 0%nat
  | i :: l =>
      (control i = false -> plain l = true) /\
      match i with
      | mutex_lock => safe t l (S d)
      | mutex_unlock => (0 < d)%nat /\ safe t l (d - 1)
      | cond_wait c => d = 1%nat /\ debt l = (if decide (c = cond) then 1 else 0) /\ safe t l d
      | cond_signal _ | cond_broadcast _ | add_waiting_for_accept _ => (0 < d)%nat /\ safe t l d
      | add_waiting k => (0 < d)%nat /\ (k = 1 /\ debt l = 1 \/ k = -1 /\ debt l = 0) /\ safe t l d
      | if_ has_waiting x => (0 < d)%nat /\ x = [cond_broadcast cond] /\ safe t l d
      | while_ has_waiting_for_accept x => d = 1%nat /\ x = [cond_wait accept_cond] /\ debt l = 0 /\ safe t l d
      | while_ is_running x => t = 0%nat /\ d = 1%nat /\ x = iterate /\ l = [mutex_unlock]
      | callbacks => t = 0%nat /\ d = 1%nat /\ debt l = 0 /\ safe t l d
      | poll => t = 0%nat /\ d = 0%nat /\ safe t l d
      | set_running true => t = 1%nat /\ d = 0%nat /\ l = [create]
      | create => t = 1%nat /\ d = 0%nat /\ l = []
      | signal_event => t = 1%nat /\ d = 0%nat /\ l = [join; set_running false]
      | join => t = 1%nat /\ d = 0%nat /\ l = [set_running false]
      | set_running false => t = 1%nat /\ d = 0%nat /\ l = []
      | if_ is_running x => t = 1%nat /\ d = 0%nat /\ l = [] /\ x = [signal_event; join; set_running false]
      | if_ not_running x => t = 1%nat /\ d = 0%nat /\ l = [] /\ x = [set_running true; create]
      | _ => False
      end
  end.

Lemma safe_debt t l : forall d, safe t l d -> 0 <= debt l <= 1.
Proof.
  induction l as [|i l IH]; intros d; [simpl; lia |]. destruct i as [| | c | c | c | b | k | k | [] x | [] x | | | | |]; simpl; try done; intros [_ Hs];
    try (destruct b); destruct_and?; destruct_or?; destruct_and?; subst; simpl; try lia; try (by eapply IH); try (pose proof (IH _ ltac:(eassumption)); lia).
Qed.

(** The loop thread before its last turn. *)
Definition in_loop (l : code) : Prop := exists a, l = a ++ [while_ is_running iterate; mutex_unlock].

(** What the thread that starts and stops is at, and how the loop thread is. *)
Definition controlled (s : threads) : Prop :=
  let l0 := default [] (todo s !! 0%nat) in
  match default [] (todo s !! 1%nat) with
  | set_running true :: _ => running s = false /\ event s = false /\ l0 = []
  | create :: _ => running s = true /\ event s = false /\ l0 = []
  | signal_event :: _ => running s = true /\ event s = false /\ in_loop l0
  | join :: _ => event s = true /\ running s = true /\ in_loop l0 \/ event s = false /\ running s = false
  | set_running false :: _ => event s = false /\ running s = false /\ l0 = []
  | _ => event s = false /\ if running s then in_loop l0 else l0 = []
  end.

Record ok (s : threads) : Prop := {
  ok_safe t l : todo s !! t = Some l -> safe t l (holds s t);
  ok_waiting : n_waiting s = total (todo s);
  ok_blocked t c : (t, c) ∈ blocked s -> holds s t = 0%nat /\
    exists l, todo s !! t = Some (mutex_lock :: l) /\ debt l = (if decide (c = cond) then 1 else 0);
  ok_lock o d : lock s = Some (o, d) -> (0 < d)%nat /\ is_Some (todo s !! o);
  ok_controlled : controlled s
}.

(** ** The lock *)

Lemma acquire_holds t s s' : acquire t s = Some s' -> holds s' t = S (holds s t) /\ (forall u, u <> t -> holds s' u = holds s u) /\
  lock s' = Some (t, S (holds s t)) /\ s' = with_lock (lock s') s.
Proof.
  unfold acquire, holds. destruct (lock s) as [[o d] |]; [destruct (decide (o = t)) as [-> |]; [| done] |]; intros [= <-]; simpl.
  - rewrite decide_True by done. split_and!; try done. intros u Hu. by rewrite !decide_False.
  - rewrite decide_True by done. split_and!; try done. intros u Hu. by rewrite decide_False.
Qed.
Lemma release_holds t s s' : release t s = Some s' -> (0 < holds s t)%nat /\ holds s' t = (holds s t - 1)%nat /\ (forall u, u <> t -> holds s' u = holds s u) /\
  (forall o d, lock s' = Some (o, d) -> (0 < d)%nat /\ o = t) /\ s' = with_lock (lock s') s.
Proof.
  unfold release, holds. destruct (lock s) as [[o [|d]] |]; [done | | done]. destruct (decide (o = t)) as [-> |]; [| done]. intros [= <-]; simpl.
  split_and!; [lia | | | | done]; destruct (decide (d = 0%nat)) as [-> |]; simpl; try done.
  - rewrite decide_True by done. lia.
  - intros u Hu. by rewrite decide_False.
  - intros u Hu. by rewrite !decide_False.
  - intros o' d' [= <- <-]. split; [lia | done].
Qed.
Lemma holds_lock s t : (0 < holds s t)%nat -> lock s = Some (t, holds s t).
Proof. unfold holds. destruct (lock s) as [[o d] |]; [| lia]. destruct (decide (o = t)) as [-> |]; [done | lia]. Qed.

(** ** Steps *)

Lemma in_loop_cons i l : i <> while_ is_running iterate -> in_loop (i :: l) -> in_loop l.
Proof. intros Hi [[|j a] Ha]; [by injection Ha as -> | injection Ha as -> ->; by exists a]. Qed.
Lemma in_loop_app a l : in_loop l -> in_loop (a ++ l).
Proof. intros [b ->]. exists (a ++ b). by rewrite app_assoc. Qed.

(** A thread goes on with [l']: what is to be shown. *)
Lemma ok_move s s' t l l' : ok s -> todo s !! t = Some l -> todo s' = <[t := l']> (todo s) ->
  safe t l' (holds s' t) -> (forall u, u <> t -> holds s' u = holds s u) ->
  n_waiting s' = n_waiting s - debt l + debt l' ->
  (forall u c, (u, c) ∈ blocked s' -> u <> t /\ (u, c) ∈ blocked s \/
     u = t /\ holds s' t = 0%nat /\ exists x, l' = mutex_lock :: x /\ debt x = (if decide (c = cond) then 1 else 0)) ->
  (forall o d, lock s' = Some (o, d) -> lock s = Some (o, d) \/ (0 < d)%nat /\ o = t) ->
  controlled s' -> ok s'.
Proof.
  intros [O1 O2 O3 O4 O5] Hl Htodo Hsafe Hother Hn Hb Hlock Hc.
  assert (t < length (todo s))%nat as Ht by by eapply lookup_lt_Some.
  split; rewrite ?Htodo; [| | | | done].
  - intros u x. destruct (decide (u = t)) as [-> |]; [rewrite list_lookup_insert_eq by done; by intros [= <-] |].
    rewrite list_lookup_insert_ne by done. intros Hu. rewrite Hother by done. by apply O1.
  - rewrite (total_insert _ _ _ _ Hl), Hn, O2. lia.
  - intros u c Hu. destruct (Hb u c Hu) as [[Hne Hin] | (-> & Hz & x & -> & Hx)].
    + rewrite Hother, list_lookup_insert_ne by done. by apply O3.
    + split; [done |]. exists x. by rewrite list_lookup_insert_eq.
  - intros o d Hod. destruct (Hlock o d Hod) as [Hold | [Hd ->]].
    + destruct (O4 o d Hold) as [Hd [x Hx]]. split; [done |]. destruct (decide (o = t)) as [-> |].
      * rewrite list_lookup_insert_eq by done. by eexists.
      * rewrite list_lookup_insert_ne by done. by eexists.
    + split; [done |]. rewrite list_lookup_insert_eq by done. by eexists.
Qed.

(** Control: nothing is started or stopped. *)
Lemma controlled_move s s' t l l' : controlled s -> todo s !! t = Some l -> todo s' = <[t := l']> (todo s) ->
  running s' = running s -> event s' = event s ->
  (t = 1%nat -> plain l = true /\ plain l' = true) -> (t = 0%nat -> l <> [] /\ (in_loop l -> in_loop l')) -> controlled s'.
Proof.
  intros Hc Hl Htodo Hrun Hev H1 H0. unfold controlled in *. rewrite Htodo, Hrun, Hev.
  assert (t < length (todo s))%nat as Ht by by eapply lookup_lt_Some. destruct (decide (t = 0%nat)) as [-> |]; [| destruct (decide (t = 1%nat)) as [-> |]].
  - rewrite list_lookup_insert_eq, list_lookup_insert_ne by done. rewrite Hl in Hc. simpl in *. destruct (H0 eq_refl) as [Hne Hin].
    destruct (todo s !! 1%nat) as [[|[| | | | | [] | | | | | | | | |] x] |]; simpl in *; destruct (running s); naive_solver.
  - rewrite list_lookup_insert_eq, list_lookup_insert_ne by done. rewrite Hl in Hc. simpl in *. destruct (H1 eq_refl) as [P1 P2].
    destruct l as [|[| | | | | [] | | | | | | | | |] l]; destruct l' as [|[| | | | | [] | | | | | | | | |] l']; simpl in *; done.
  - rewrite !list_lookup_insert_ne by done. done.
Qed.

(** The instructions that leave the lock and the conditions alone. *)
Lemma ok_quiet s s' t i l l' : ok s -> todo s !! t = Some (i :: l) -> ~ is_blocked s t -> todo s' = <[t := l']> (todo s) ->
  lock s' = lock s -> (forall b, b ∈ blocked s' -> b ∈ blocked s) -> running s' = running s -> event s' = event s ->
  n_waiting s' = n_waiting s - debt (i :: l) + debt l' -> safe t l' (holds s t) ->
  (t = 1%nat -> control i = false /\ plain l' = true) -> (t = 0%nat -> in_loop (i :: l) -> in_loop l') -> ok s'.
Proof.
  intros Hok Hl Hnb Htodo Hlock Hb Hrun Hev Hn Hsafe H1 H0. assert (forall u, holds s' u = holds s u) as Hh by (intros u; unfold holds; by rewrite Hlock).
  eapply (ok_move s s' t (i :: l) l'); try done.
  - by rewrite Hh.
  - intros u c Hu%Hb. left. split; [| done]. intros ->. apply Hnb. by exists c.
  - intros o d Hod. left. by rewrite <- Hlock.
  - eapply controlled_move; [by apply ok_controlled | done.. | |].
    + intros Ht. destruct (H1 Ht) as [Hi Hp]. simpl. by rewrite Hi.
    + intros Ht. split; [done | by apply H0].
Qed.

Lemma lock_ok s s' t l : ok s -> todo s !! t = Some (mutex_lock :: l) -> ~ is_blocked s t -> acquire t s = Some s' -> ok (set_todo t l s').
Proof.
  intros Hok Hl Hnb Hs'. pose proof (ok_safe s Hok t _ Hl) as [Hp Hs]. destruct (acquire_holds t s s' Hs') as (Ht & Hu & Hlock & Heq). rewrite Heq.
  eapply (ok_move s _ t (mutex_lock :: l) l); try done; simpl.
  - change (safe t l (holds s' t)). by rewrite Ht.
  - lia.
  - intros u c Hin. left. split; [| done]. intros ->. apply Hnb. by exists c.
  - rewrite Hlock. intros o d [= <- <-]. right. split; [lia | done].
  - eapply controlled_move; [by apply ok_controlled | done.. | |].
    + intros ->. split; [done | by apply Hp].
    + intros ->. split; [done |]. by apply in_loop_cons.
Qed.

Lemma unlock_ok s s' t l : ok s -> todo s !! t = Some (mutex_unlock :: l) -> ~ is_blocked s t -> release t s = Some s' -> ok (set_todo t l s').
Proof.
  intros Hok Hl Hnb Hs'. pose proof (ok_safe s Hok t _ Hl) as [Hp [Hd Hs]]. destruct (release_holds t s s' Hs') as (_ & Ht & Hu & Hlock & Heq). rewrite Heq.
  eapply (ok_move s _ t (mutex_unlock :: l) l); try done; simpl.
  - change (safe t l (holds s' t)). by rewrite Ht.
  - lia.
  - intros u c Hin. left. split; [| done]. intros ->. apply Hnb. by exists c.
  - intros o d Hod. right. by apply Hlock.
  - eapply controlled_move; [by apply ok_controlled | done.. | |].
    + intros ->. split; [done | by apply Hp].
    + intros ->. split; [done |]. by apply in_loop_cons.
Qed.

Lemma wait_ok s s' t c l : ok s -> todo s !! t = Some (cond_wait c :: l) -> ~ is_blocked s t -> release t s = Some s' ->
  ok (set_todo t (mutex_lock :: l) (with_blocked (blocked s' ++ [(t, c)]) s')).
Proof.
  intros Hok Hl Hnb Hs'. pose proof (ok_safe s Hok t _ Hl) as [Hp (Hd & Hdebt & Hs)]. destruct (release_holds t s s' Hs') as (_ & Ht & Hu & Hlock & Heq). rewrite Heq.
  rewrite Hd in Ht. eapply (ok_move s _ t (cond_wait c :: l) (mutex_lock :: l)); try done; simpl.
  - change (safe t (mutex_lock :: l) (holds s' t)). rewrite Ht. simpl. split; [by intros _; apply Hp |]. by rewrite Hd in Hs.
  - lia.
  - intros u c' [Hin | [= -> ->]%list_elem_of_singleton]%elem_of_app.
    + left. split; [| done]. intros ->. apply Hnb. by exists c'.
    + right. split_and!; [done | exact Ht | by exists l].
  - intros o d Hod. right. by apply Hlock.
  - eapply controlled_move; [by apply ok_controlled | done.. | |].
    + by intros ->.
    + intros ->. split; [done |]. intros Hin. apply (in_loop_app [mutex_lock]). by apply in_loop_cons in Hin.
Qed.

Lemma blocked_wake ws s b : b ∈ blocked (wake ws s) -> b ∈ blocked s.
Proof. simpl. by intros [_ Hb]%list_elem_of_filter. Qed.

(** The thread that starts and stops: what its next instruction does to the rest. *)
Lemma ok_control s s' l l' : ok s -> todo s !! 1%nat = Some l -> ~ is_blocked s 1 -> todo s' = <[1%nat := l']> (todo s) ->
  lock s' = lock s -> blocked s' = blocked s -> n_waiting s' = n_waiting s -> debt l = 0 -> debt l' = 0 -> safe 1 l' (holds s 1) -> controlled s' -> ok s'.
Proof.
  intros Hok Hl Hnb Htodo Hlock Hb Hn Hd Hd' Hsafe Hc. assert (forall u, holds s' u = holds s u) as Hh by (intros u; unfold holds; by rewrite Hlock).
  eapply (ok_move s s' 1 l l'); try done.
  - by rewrite Hh.
  - lia.
  - intros u c. rewrite Hb. intros Hu. left. split; [| done]. intros ->. apply Hnb. by exists c.
  - intros o d Hod. left. by rewrite <- Hlock.
Qed.

Ltac controlled_now Hl Hc :=
  unfold controlled in *; simpl in *; rewrite ?list_lookup_insert_eq, ?list_lookup_insert_ne by (try done; by eapply lookup_lt_Some);
  rewrite ?Hl in Hc; simpl in *; try done.

Lemma signal_event_ok s : ok s -> todo s !! 1%nat = Some [signal_event; join; set_running false] -> ~ is_blocked s 1 ->
  ok (set_todo 1 [join; set_running false] (with_event true s)).
Proof.
  intros Hok Hl Hnb. pose proof (ok_controlled s Hok) as Hc. pose proof (ok_safe s Hok 1 _ Hl) as [_ (_ & Hd & _)].
  eapply (ok_control s _ _ [join; set_running false] Hok Hl Hnb); try done.
  controlled_now Hl Hc. left. naive_solver.
Qed.
Lemma join_ok s : ok s -> todo s !! 1%nat = Some [join; set_running false] -> ~ is_blocked s 1 -> todo s !! 0%nat = Some [] ->
  ok (set_todo 1 [set_running false] s).
Proof.
  intros Hok Hl Hnb H0. pose proof (ok_controlled s Hok) as Hc. pose proof (ok_safe s Hok 1 _ Hl) as [_ (_ & Hd & _)].
  eapply (ok_control s _ _ [set_running false] Hok Hl Hnb); try done.
  controlled_now Hl Hc. rewrite H0 in *. simpl in *. destruct Hc as [(_ & _ & [[] [=]]) | [-> ->]]; done.
Qed.
Lemma stopped_ok s : ok s -> todo s !! 1%nat = Some [set_running false] -> ~ is_blocked s 1 -> ok (set_todo 1 [] (with_running false s)).
Proof.
  intros Hok Hl Hnb. pose proof (ok_controlled s Hok) as Hc.
  eapply (ok_control s _ _ [] Hok Hl Hnb); try done. controlled_now Hl Hc. naive_solver.
Qed.
Lemma starting_ok s : ok s -> todo s !! 1%nat = Some [set_running true; create] -> ~ is_blocked s 1 -> ok (set_todo 1 [create] (with_running true s)).
Proof.
  intros Hok Hl Hnb. pose proof (ok_controlled s Hok) as Hc. pose proof (ok_safe s Hok 1 _ Hl) as [_ (_ & Hd & _)].
  eapply (ok_control s _ _ [create] Hok Hl Hnb); try done. controlled_now Hl Hc. naive_solver.
Qed.
Lemma if_control_ok s b x : b = is_running /\ x = [signal_event; join; set_running false] \/ b = not_running /\ x = [set_running true; create] ->
  ok s -> todo s !! 1%nat = Some [if_ b x] -> ~ is_blocked s 1 -> ok (set_todo 1 (if passes s b then x ++ [] else []) s).
Proof.
  intros Hb Hok Hl Hnb. pose proof (ok_controlled s Hok) as Hc.
  assert (holds s 1 = 0%nat) as Hd by (destruct (ok_safe s Hok 1 _ Hl) as [_ Hs]; destruct Hb as [[-> _] | [-> _]]; by destruct_and?).
  eapply (ok_control s _ _ _ Hok Hl Hnb); try done; destruct Hb as [[-> ->] | [-> ->]]; simpl; destruct (running s) eqn:Hrun; simpl; rewrite ?Hd; simpl; try done;
    controlled_now Hl Hc; rewrite Hrun in *; naive_solver.
Qed.

(** The new thread: the old one has nothing to do, and nothing of the lock. *)
Lemma create_ok s : ok s -> todo s !! 1%nat = Some [create] -> ~ is_blocked s 1 -> ok (set_todo 0 thread_do_loop (set_todo 1 [] s)).
Proof.
  intros Hok Hl Hnb. pose proof (ok_controlled s Hok) as Hc.
  assert (default [] (todo s !! 0%nat) = [] /\ running s = true /\ event s = false) as (H0 & Hrun & Hev) by (unfold controlled in Hc; rewrite Hl in Hc; simpl in Hc; naive_solver).
  assert (exists x, todo s !! 0%nat = Some x) as [x Hx] by (apply lookup_lt_is_Some; apply lookup_lt_Some in Hl; lia). rewrite Hx in H0. simpl in H0. subst x.
  pose proof (ok_safe s Hok 0 _ Hx eq_refl) as Hd0. destruct Hok as [O1 O2 O3 O4 O5].
  pose proof (lookup_lt_Some _ _ _ Hl) as Hlen.
  split; simpl.
  - intros u y. change (holds (set_todo 0 thread_do_loop (set_todo 1 [] s)) u) with (holds s u).
    destruct (decide (u = 0%nat)) as [-> |]; [rewrite list_lookup_insert_eq by (rewrite length_insert; lia); intros [= <-]; rewrite Hd0; simpl; naive_solver |].
    rewrite list_lookup_insert_ne by done. destruct (decide (u = 1%nat)) as [-> |]; [rewrite list_lookup_insert_eq by lia; by intros [= <-] |].
    rewrite list_lookup_insert_ne by done. apply O1.
  - rewrite (total_insert _ 0 []) by (by rewrite list_lookup_insert_ne). rewrite (total_insert _ 1 _ _ Hl). simpl. lia.
  - intros u c Hu. change (holds (set_todo 0 thread_do_loop (set_todo 1 [] s)) u) with (holds s u). destruct (O3 u c Hu) as (Hz & y & Hy & Hdy). split; [done |]. exists y.
    split; [| done]. rewrite !list_lookup_insert_ne; [done | intros <-; congruence..].
  - intros o d Hod. destruct (O4 o d Hod) as [Hd [y Hy]]. split; [done |]. apply lookup_lt_is_Some. rewrite !length_insert. by eapply lookup_lt_Some.
  - unfold controlled. simpl. rewrite list_lookup_insert_eq by (rewrite length_insert; lia). rewrite list_lookup_insert_ne, list_lookup_insert_eq by (done || lia).
    simpl. rewrite Hrun. split; [done |]. by exists [mutex_lock].
Qed.

(** The test of the loop: it goes on as long as nobody stopped it. *)
Lemma while_ok s : ok s -> todo s !! 0%nat = Some [while_ is_running iterate; mutex_unlock] -> ~ is_blocked s 0 ->
  ok (set_todo 0 (if passes s is_running then iterate ++ [while_ is_running iterate; mutex_unlock] else [mutex_unlock]) s).
Proof.
  intros Hok Hl Hnb. pose proof (ok_safe s Hok 0 _ Hl) as [_ (_ & Hd & _)]. pose proof (ok_controlled s Hok) as Hc.
  eapply (ok_move s _ 0 _ _ Hok Hl); try done.
  - change (holds (set_todo 0 _ s) 0) with (holds s 0). rewrite Hd. simpl. destruct (running s); simpl; naive_solver.
  - simpl. destruct (running s); simpl; lia.
  - intros u c Hu. left. split; [| done]. intros ->. apply Hnb. by exists c.
  - by left.
  - destruct (passes s is_running) eqn:Hrun; [eapply controlled_move; try done; intros _; split; [done |]; apply in_loop_app |].
    simpl in Hrun. unfold controlled in *. simpl. rewrite list_lookup_insert_eq by (by eapply lookup_lt_Some). rewrite list_lookup_insert_ne by done.
    rewrite Hl, Hrun in *. simpl in *. destruct (todo s !! 1%nat) as [[|[| | | | | [] | | | | | | | | |] x] |]; simpl in *; naive_solver.
Qed.

Lemma do_ok s s' t i l k : ok s -> todo s !! t = Some (i :: l) -> ~ is_blocked s t -> step_instr t i l k s = Some s' -> ok s'.
Proof.
  intros Hok Hl Hnb Hs'. pose proof (ok_safe s Hok t _ Hl) as [Hp Hs].
  assert ((forall x, i <> while_ is_running x) -> in_loop (i :: l) -> in_loop l) as Hin by (intros Hi; apply in_loop_cons, Hi).
  destruct i as [| | c | c | c | b | d | d | b x | b x | | | | |]; simpl in Hs'.
  - destruct (acquire t s) as [s1 |] eqn:Ha; [| done]. injection Hs' as <-. by eapply lock_ok.
  - destruct (release t s) as [s1 |] eqn:Ha; [| done]. injection Hs' as <-. by eapply unlock_ok.
  - destruct (release t s) as [s1 |] eqn:Ha; [| done]. injection Hs' as <-. by eapply wait_ok.
  - injection Hs' as <-. set (s1 := match waiters c s !! k with Some _ => _ | None => _ end).
    assert (todo s1 = todo s /\ lock s1 = lock s /\ (forall b, b ∈ blocked s1 -> b ∈ blocked s) /\ running s1 = running s /\ event s1 = event s /\
      n_waiting s1 = n_waiting s) as (E1 & E2 & E3 & E4 & E5 & E6) by (unfold s1; repeat case_match; split_and!; try done; apply blocked_wake).
    destruct Hs as [Hd Hs]. eapply (ok_quiet s _ t _ l l Hok Hl Hnb); try done; simpl; [by rewrite E1 | lia | intros ->; split; [done | by apply Hp] | by intros _; apply Hin].
  - injection Hs' as <-. destruct Hs as [Hd Hs]. eapply (ok_quiet s _ t _ l l Hok Hl Hnb); try done; simpl; try lia; [| intros ->; split; [done | by apply Hp] | by intros _; apply Hin].
    by intros b Hb%blocked_wake.
  - injection Hs' as <-. destruct b; [destruct Hs as (-> & _ & ->); by apply starting_ok |]. destruct Hs as (-> & _ & ->). by apply stopped_ok.
  - injection Hs' as <-. destruct Hs as (Hd & Hk & Hs). eapply (ok_quiet s _ t _ l l Hok Hl Hnb); try done; simpl; [lia | intros ->; split; [done | by apply Hp] | by intros _; apply Hin].
  - injection Hs' as <-. destruct Hs as (Hd & Hs). eapply (ok_quiet s _ t _ l l Hok Hl Hnb); try done; simpl; [lia | intros ->; split; [done | by apply Hp] | by intros _; apply Hin].
  - injection Hs' as <-. destruct b; try done.
    + destruct Hs as (-> & _ & -> & ->). apply if_control_ok; auto.
    + destruct Hs as (-> & _ & -> & ->). apply if_control_ok; auto.
    + destruct Hs as (Hd & -> & Hs). eapply (ok_quiet s _ t _ l _ Hok Hl Hnb); try done; simpl.
      * destruct (0 <? n_waiting s); simpl; lia.
      * destruct (0 <? n_waiting s); simpl; [split; [by intros _; apply Hp | done] | done].
      * intros ->. split; [done |]. destruct (0 <? n_waiting s); [done | by apply Hp].
      * intros _ Hi. destruct (0 <? n_waiting s); [apply (in_loop_app [_]) |]; by apply in_loop_cons in Hi.
  - injection Hs' as <-. destruct b; try done.
    + destruct Hs as (-> & Hd & -> & ->). by apply while_ok.
    + destruct Hs as (Hd & -> & Hdebt & Hs). eapply (ok_quiet s _ t _ l _ Hok Hl Hnb); try done; simpl.
      * destruct (0 <? n_waiting_for_accept s); simpl; lia.
      * destruct (0 <? n_waiting_for_accept s); simpl; [| done]. split; [done |]. split; [done |]. split; [lia |]. split; [by intros _; apply Hp |]. done.
      * intros ->. split; [done |]. destruct (0 <? n_waiting_for_accept s); [done | by apply Hp].
      * intros _ Hi. destruct (0 <? n_waiting_for_accept s); [apply (in_loop_app [_; _]) |]; by apply in_loop_cons in Hi.
  - injection Hs' as <-. destruct Hs as (-> & _ & ->). by apply signal_event_ok.
  - destruct Hs as (-> & _ & ->). destruct (todo s !! 0%nat) as [[|] |] eqn:H0; try done. injection Hs' as <-. by apply join_ok.
  - injection Hs' as <-. destruct Hs as (-> & _ & ->). by apply create_ok.
  - injection Hs' as <-. destruct Hs as (-> & Hd & Hs). eapply (ok_quiet s _ 0 _ l l Hok Hl Hnb); try done; simpl; [lia | by intros _; apply Hin].
  - injection Hs' as <-. destruct Hs as (-> & Hd & _ & Hs). eapply (ok_quiet s _ 0 _ l l Hok Hl Hnb); try done; simpl; [lia | by intros _; apply Hin].
Qed.

Lemma stop_ok s l : ok s -> todo s !! 0%nat = Some (callbacks :: l) -> event s = true -> ok (do_stop s).
Proof.
  intros [O1 O2 O3 O4 O5] Hl Hev. split; try done. unfold controlled in *. simpl. rewrite Hl, Hev in *. simpl in *.
  destruct (todo s !! 1%nat) as [[|[| | | | | [] | | | | | | | | |] x] |]; simpl in *; naive_solver.
Qed.
Lemma wake_ok s ws : ok s -> ok (wake ws s).
Proof. intros [O1 O2 O3 O4 O5]. split; try done. intros t c Hb%blocked_wake. by apply O3. Qed.

Lemma callback_ok s w l : ok s -> todo s !! 0%nat = Some (callbacks :: l) -> ok (set_todo 0 (pinos_thread_main_loop_signal w ++ callbacks :: l) s).
Proof.
  intros Hok Hl. pose proof (ok_safe s Hok 0 _ Hl) as [Hp (_ & Hd & Hdebt & Hs)].
  assert (~ is_blocked s 0) as Hnb by (intros [c Hc]; destruct (ok_blocked s Hok _ _ Hc) as (_ & y & Hy & _); congruence).
  eapply (ok_quiet s _ 0 _ _ _ Hok Hl Hnb); try done.
  - destruct w; simpl; lia.
  - rewrite Hd. rewrite Hd in Hs. destruct w; simpl; split_and!; try done; try lia.
  - intros _. apply in_loop_app.
Qed.
Lemma call_ok s t a : ok s -> (0 < t)%nat -> todo s !! t = Some [] -> may_call a t (holds s t) -> ok (set_todo t (api_code a) s).
Proof.
  intros Hok Ht Hl Ha.
  assert (~ is_blocked s t) as Hnb by (intros [c Hc]; destruct (ok_blocked s Hok _ _ Hc) as (_ & y & Hy & _); congruence).
  eapply (ok_move s _ t _ _ Hok Hl); try done.
  - change (holds (set_todo t _ s) t) with (holds s t). destruct a as [| | [] | | | |]; simpl in Ha; destruct_and?; simpl; rewrite ?Ha; split_and!; subst; first [done | congruence | lia | (intros; lia) | by left | by right].
  - destruct a as [| | [] | | | |]; simpl; lia.
  - intros u c Hu. left. split; [| done]. intros ->. apply Hnb. by exists c.
  - by left.
  - eapply controlled_move; try done; [by apply ok_controlled | intros _; split; [done |]; by destruct a | lia].
Qed.

Lemma step_ok s s' : ok s -> step s s' -> ok s'.
Proof.
  intros Hok Hs. destruct Hs as [t i l k s' Hl Hnb Hs | t a Ht Hl Ha | w l Hl | l Hl Hev | t c Hb];
    [by eapply do_ok | by apply call_ok | by apply callback_ok | by eapply stop_ok | by apply wake_ok].
Qed.

Lemma start_ok n : ok (before_start n).
Proof.
  split; simpl; try done.
  - intros [|t] l; simpl; [by intros [= <-] |]. intros [-> _]%lookup_replicate. done.
  - induction n as [|n IH]; simpl in *; [done | lia].
  - by intros t c ?%not_elem_of_nil.
  - unfold controlled. simpl. by destruct n.
Qed.
Lemma reaches_ok n s : reaches n s -> ok s.
Proof. induction 1 as [| s s' _ IH Hs]; [apply start_ok | by eapply step_ok]. Qed.

(** What needs the lock: the counters, and what is decided by them. *)
Definition guarded (i : instr) : bool :=
  match i with
  | add_waiting _ | add_waiting_for_accept _ | if_ has_waiting _ | while_ has_waiting_for_accept _ | cond_signal _ | cond_broadcast _ | callbacks => true
  | _ => false
  end.
Lemma guarded_safe t i l d : guarded i = true -> safe t (i :: l) d -> (0 < d)%nat.
Proof. destruct i as [| | | | | | | | [] ? | [] ? | | | | |]; simpl; try done; intros _ [_ Hs]; destruct_and?; lia. Qed.

Lemma waits_counted s t : ok s -> (t, cond) ∈ blocked s -> 0 < n_waiting s.
Proof.
  intros Hok Hb. destruct (ok_blocked s Hok _ _ Hb) as (_ & l & Hl & Hd). rewrite (ok_waiting s Hok).
  assert (debt (mutex_lock :: l) <= total (todo s)) as Hle.
  { apply (total_member _ t); [| done]. intros x [u Hu]%list_elem_of_lookup. by apply (safe_debt u x (holds s u)), ok_safe. }
  simpl in Hle, Hd. lia.
Qed.

(** C19: However the threads interleave, the counters are only touched by the thread
    that has the lock, and so are the callbacks run; the loop does not have it while
    it polls. A thread that waits is always counted, so that no signal passes it by.
    The loop is started when no other runs, and when [stop] comes back from joining
    it has finished and no event is left behind. *)
Theorem thread_main_loop_safe n s : reaches n s ->
  (forall t i l, todo s !! t = Some (i :: l) -> guarded i = true -> lock s = Some (t, holds s t)) /\
  (forall l, todo s !! 0%nat = Some (callbacks :: l) -> lock s = Some (0, 1)%nat) /\
  (forall l, todo s !! 0%nat = Some (poll :: l) -> holds s 0 = 0%nat) /\
  (waiters cond s <> [] -> passes s has_waiting = true) /\
  (forall l, todo s !! 1%nat = Some (create :: l) -> todo s !! 0%nat = Some []) /\
  (forall l, todo s !! 1%nat = Some (set_running false :: l) -> todo s !! 0%nat = Some [] /\ running s = false /\ event s = false).
Proof.
  intros Hok%reaches_ok. pose proof (ok_controlled s Hok) as Hc.
  assert (forall t l, todo s !! t = Some l -> t = 1%nat -> default [] (todo s !! 0%nat) = [] -> todo s !! 0%nat = Some []) as H0.
  { intros t l Hl -> He. apply lookup_lt_Some in Hl. destruct (todo s !! 0%nat) as [x |] eqn:Hx; [simpl in He; by subst |].
    apply lookup_ge_None in Hx. lia. }
  split_and!.
  - intros t i l Hl Hi. apply holds_lock. eapply guarded_safe; [exact Hi |]. by apply ok_safe.
  - intros l Hl. destruct (ok_safe s Hok 0 _ Hl) as [_ (_ & Hd & _)]. rewrite <- Hd. apply holds_lock. lia.
  - intros l Hl. by destruct (ok_safe s Hok 0 _ Hl) as [_ (_ & Hd & _)].
  - intros Hw. simpl. apply Z.ltb_lt. unfold waiters in Hw. destruct (filter _ (blocked s)) as [|[t c] ws] eqn:Hf; [done |].
    assert ((t, c) ∈ filter (fun b : nat * condition => b.2 = cond) (blocked s)) as [Heq Hin]%list_elem_of_filter by (rewrite Hf; left).
    simpl in Heq. subst c. by apply (waits_counted s t).
  - intros l Hl. unfold controlled in Hc. rewrite Hl in Hc. simpl in Hc. eapply H0; [exact Hl | done | apply Hc].
  - intros l Hl. unfold controlled in Hc. rewrite Hl in Hc. simpl in Hc. destruct Hc as (He & Hr & Hc). split; [by eapply H0 | done].
Qed.

(** ** Runs *)

Inductive choice := Do (t k : nat) | Call (t : nat) (a : api) | Callback (w : bool) | Stopped | Spurious (t : nat).
Definition blockedb (s : threads) (t : nat) : bool := existsb (fun b => Nat.eqb b.1 t) (blocked s).
Definition may_callb (a : api) (t d : nat) : bool :=
  match a with
  | Lock => true
  | Unlock => Nat.ltb 0 d
  | Signal _ | Wait | Accept => Nat.eqb d 1
  | Start | Stop => Nat.eqb d 0 && Nat.eqb t 1
  end.
Definition choose (c : choice) (s : threads) : option threads :=
  match c with
  | Do t k => match todo s !! t with Some (i :: l) => if blockedb s t then None else step_instr t i l k s | _ => None end
  | Call t a => match todo s !! t with Some [] => if Nat.ltb 0 t && may_callb a t (holds s t) then Some (set_todo t (api_code a) s) else None | _ => None end
  | Callback w => match todo s !! 0%nat with Some (callbacks :: l) => Some (set_todo 0 (pinos_thread_main_loop_signal w ++ callbacks :: l) s) | _ => None end
  | Stopped => match todo s !! 0%nat with Some (callbacks :: l) => if event s then Some (do_stop s) else None | _ => None end
  | Spurious t => if blockedb s t then Some (wake [t] s) else None
  end.
Fixpoint choose_all (cs : list choice) (s : threads) : option threads :=
  match cs with [] => Some s | c :: cs => match choose c s with Some s' => choose_all cs s' | None => None end end.

Lemma blockedb_spec s t : blockedb s t = true <-> is_blocked s t.
Proof.
  unfold blockedb, is_blocked. rewrite existsb_exists. split.
  - intros ([u c] & Hin & Heq%Nat.eqb_eq). simpl in Heq. subst u. exists c. by apply list_elem_of_In.
  - intros [c Hc]. exists (t, c). split; [by apply list_elem_of_In | by apply Nat.eqb_eq].
Qed.
Lemma choose_step c s s' : choose c s = Some s' -> step s s'.
Proof.
  destruct c as [t k | t a | w | | t]; simpl.
  - destruct (todo s !! t) as [[|i l] |] eqn:Hl; try done. destruct (blockedb s t) eqn:Hb; [done |]. intros Hs.
    eapply step_do; [exact Hl | | exact Hs]. intros Hblk%blockedb_spec. congruence.
  - destruct (todo s !! t) as [[|] |] eqn:Hl; try done. destruct (Nat.ltb 0 t && may_callb a t (holds s t)) eqn:Hm; [| done]. intros [= <-].
    apply andb_true_iff in Hm as [Ht%Nat.ltb_lt Hm]. apply step_call; [done.. |].
    destruct a; simpl in *; try done; try (by apply Nat.ltb_lt); try (by apply Nat.eqb_eq); apply andb_true_iff in Hm as [?%Nat.eqb_eq ?%Nat.eqb_eq]; done.
  - destruct (todo s !! 0%nat) as [[|[] l] |] eqn:Hl; try done. intros [= <-]. by apply step_callback.
  - destruct (todo s !! 0%nat) as [[|[] l] |] eqn:Hl; try done. destruct (event s) eqn:He; [| done]. intros [= <-]. by eapply step_stop.
  - destruct (blockedb s t) eqn:Hb; [| done]. intros [= <-]. apply blockedb_spec in Hb as [c Hc]. by eapply step_spurious.
Qed.
Lemma choose_all_reaches n cs : forall s s', reaches n s -> choose_all cs s = Some s' -> reaches n s'.
Proof.
  induction cs as [|c cs IH]; intros s s' Hs; simpl; [by intros [= <-] |]. destruct (choose c s) as [s1 |] eqn:Hc; [| done].
  apply IH. eapply reaches_step; [exact Hs | by eapply choose_step].
Qed.

(** The loop is started and polls; thread 2 takes the lock and waits. *)
Definition started : list choice := [Call 1 Start; Do 1 0; Do 1 0; Do 1 0; Do 0 0; Do 0 0; Do 0 0].
Definition one_waits : list choice := started ++ [Call 2 Lock; Do 2 0; Call 2 Wait; Do 2 0; Do 2 0].
Definition after (n : nat) (cs : list choice) : threads := default (before_start n) (choose_all cs (before_start n)).
Definition waiting_state : threads := after 2 one_waits.

Lemma thread_main_loop_safe_witness : reaches 2 waiting_state /\ waiters cond waiting_state = [2%nat] /\ passes waiting_state has_waiting = true.
Proof.
  assert (reaches 2 waiting_state) as Hr by (eapply (choose_all_reaches 2 one_waits); [apply reaches_start | vm_compute; reflexivity]).
  split; [exact Hr |]. split; [vm_compute; reflexivity |].
  destruct (thread_main_loop_safe 2 waiting_state Hr) as (_ & _ & _ & Hw & _). apply Hw. vm_compute. discriminate.
Defined.

(** The loop signals from a callback, the waiting thread wakes up, has the lock when
    the loop polls again, and returns. *)
Example waits_and_returns :
  let s := after 2 (one_waits ++ [Do 0 0; Do 0 0; Callback false; Do 0 0; Do 0 0; Do 0 0; Do 0 0; Do 0 0; Do 2 0; Do 2 0]) in
  todo s !! 2%nat = Some [] /\ lock s = Some (2, 1)%nat /\ n_waiting s = 0 /\ blocked s = [].
Proof. vm_compute. done. Qed.

(** Start, stop: the loop thread ends, and the flag is as before. *)
Example starts_and_stops :
  let s := after 1 (started ++ [Call 1 Stop; Do 1 0; Do 1 0; Do 0 0; Do 0 0; Stopped; Do 0 0; Do 0 0; Do 0 0; Do 1 0; Do 1 0]) in
  todo s = [[]; []] /\ running s = false /\ event s = false /\ lock s = None.
Proof. vm_compute. done. Qed.

(** Two threads signal and wait to be accepted, and are accepted one after the other.
    The first accept wakes the one, who finds that something is still to be accepted
    and waits again; the second accept wakes the other. Nobody is left to wake the
    one: the count is zero and it waits for ever. *)
Definition two_accepts : list choice :=
  [Call 2 Lock; Do 2 0; Call 2 (Signal true); Do 2 0; Do 2 0; Do 2 0; Do 2 0;
   Call 3 Lock; Do 3 0; Call 3 (Signal true); Do 3 0; Do 3 0; Do 3 0; Do 3 0;
   Call 1 Lock; Do 1 0; Call 1 Accept; Do 1 0; Do 1 0; Call 1 Unlock; Do 1 0;
   Do 2 0; Do 2 0; Do 2 0;
   Call 1 Lock; Do 1 0; Call 1 Accept; Do 1 0; Do 1 0; Call 1 Unlock; Do 1 0;
   Do 3 0; Do 3 0; Call 3 Unlock; Do 3 0].
Example accepted_but_asleep :
  let s := after 3 two_accepts in
  n_waiting_for_accept s = 0 /\ blocked s = [(2%nat, accept_cond)] /\ todo s !! 1%nat = Some [] /\ todo s !! 3%nat = Some [].
Proof. vm_compute. done. Qed.
