(* ===== verification/Config.v ===== *)
(** The configuration of the daemon: splitting and stripping strings ([client/utils.c]),
    commands ([server/command.c]), the lines of a configuration file
    ([daemon/daemon-config.c]), and looking for a module and loading it
    ([server/module.c]).

    A C string is the list of its bytes without the terminator; a pointer into it is an
    offset. Files, directories and the dynamic loader are parameters. *)
From Stdlib Require Import String Ascii.
From S2P Require Import Prelude.

Definition text (s : string) : bytes := map (fun a => Z.of_N (N_of_ascii a)) (list_ascii_of_string s).

(** ** [<string.h>] *)

Definition in_set (set : bytes) (c : Z) : bool := bool_decide (c ∈ set).
Fixpoint strspn (s set : bytes) : nat :=
  match s with c :: s => if in_set set c then S (strspn s set) else 0 | [] => 0 end%nat.
Fixpoint strcspn (s set : bytes) : nat :=
  match s with c :: s => if in_set set c then 0 else S (strcspn s set) | [] => 0 end%nat.
(** What is left of a buffer as a string: the bytes before the first NUL. *)
Definition before_nul (buf : bytes) : bytes := take (strcspn buf [0]) buf.

(** ** [utils.c] *)

(** The start of the token and its length, or [None] for NULL; the new state. *)
Definition pinos_split_walk (str delimiter : bytes) (state : option nat) : option (nat * nat) * option nat :=
  let s := default 0%nat state in
  match drop s str with
  | [] => (None, state)
  | rest =>
      let len := strcspn rest delimiter in
      let state := (s + len)%nat in
      (Some (s, len), Some (state + strspn (drop state str) delimiter)%nat)
  end.

(** The [while] loop, with the token [s] that was walked to last; then the rest of the
    string as the last token. *)
Fixpoint split_loop (fuel : nat) (str delimiter : bytes) (max_tokens n : Z) (s : option (nat * nat)) (state : option nat) (arr : list bytes) : outcome (list bytes * Z) :=
  match s with
  | None => Done (arr, n)
  | Some (p, len) =>
      if n + 1 <? max_tokens then
        match fuel with
        | O => Undef
        | S fuel =>
            let '(s', state') := pinos_split_walk str delimiter state in
            split_loop fuel str delimiter max_tokens (n + 1) s' state' (arr ++ [take len (drop p str)])
        end
      else Done (arr ++ [drop p str], n + 1)
  end.
(** The tokens, without the NULL at the end, and their number. *)
Definition pinos_split_strv (str delimiter : bytes) (max_tokens : Z) : outcome (list bytes * Z) :=
  let '(s, state) := pinos_split_walk str delimiter None in
  split_loop (S (length str)) str delimiter max_tokens 0 s state [].

(** The last byte of [str], behind [e], that is not in [whitespace]. *)
Fixpoint last_kept (e : nat) (str whitespace : bytes) (l : option nat) : option nat :=
  match str with
  | [] => l
  | c :: str => last_kept (S e) str whitespace (if in_set whitespace c then l else Some e)
  end.
(** The string in the buffer afterwards, and the offset that is returned. *)
Definition pinos_strip (str whitespace : bytes) : bytes * nat :=
  let off := strspn str whitespace in
  match last_kept off (drop off str) whitespace None with
  | Some l => (take (S l) str, off)
  | None => (take off str, off)
  end.

(** ** [command.c] *)

(** What [asprintf] says. *)
Inductive config_error :=
| err_no_command (name : bytes)
| err_requires_module_name (command : bytes)
| err_at_line (lineno : Z) (e : config_error)
| err_open_file
| err_read_file
| err_module_not_found (name : bytes)
| err_module_open (filename : bytes)
| err_not_a_module (filename : bytes).

Definition whitespace : bytes := text " " ++ [9].

(** [PinosCommandImpl]: its function is [execute_command_module_load]. *)
Record PinosCommand := mkCommand { args : list bytes; n_args : Z }.

Definition parse_command_module_load (line : bytes) : outcome (PinosCommand + config_error) :=
  let* (args, n_args) := pinos_split_strv line whitespace 3 in
  match args with
  | _ :: _ :: _ => Done (inl (mkCommand args n_args))
  | [name] => Done (inr (err_requires_module_name name))
  | [] => Undef
  end.

Definition parsers : list (bytes * (bytes -> outcome (PinosCommand + config_error))) :=
  [(text "load-module", parse_command_module_load)].

Fixpoint find_parser (ps : list (bytes * (bytes -> outcome (PinosCommand + config_error)))) (name line : bytes) : outcome (PinosCommand + config_error) :=
  match ps with
  | [] => Done (inr (err_no_command name))
  | (n, f) :: ps => if decide (n = name) then f line else find_parser ps name line
  end.
Definition pinos_command_parse (line : bytes) : outcome (PinosCommand + config_error) :=
  find_parser parsers (take (strcspn line whitespace) line) line.

Definition pinos_command_get_name (command : PinosCommand) : option bytes := args command !! 0%nat.

(** ** [daemon-config.c] *)

Definition line_whitespace : bytes := [10; 13] ++ text " " ++ [9].

(** The commands of the configuration after the line, and the error. *)
Definition parse_line (commands : list PinosCommand) (line : bytes) (lineno : Z) : outcome (list PinosCommand * option config_error) :=
  let line := take (strcspn line (text "#")) line in
  let '(line, _) := pinos_strip line line_whitespace in
  match line with
  | [] => Done (commands, None)
  | _ =>
      let* r := pinos_command_parse line in
      match r with
      | inl command => Done (commands ++ [command], None)
      | inr e => Done (commands, Some (err_at_line lineno e))
      end
  end.

(** A file: what is still to be read, and whether an error comes where it should end. *)
Record FILE := mkFile { content : bytes; broken : bool }.
Inductive read_result := Chunk (buf : bytes) (rest : FILE) (eof : bool) | End_of_file | Read_error.
(** [fgets]: up to a newline, the end, or a buffer that is full. *)
Definition fgets (size : nat) (f : FILE) : read_result :=
  let k := strcspn (content f) [10] in
  let rest n := mkFile (drop n (content f)) (broken f) in
  if decide (k < length (content f) /\ S k < size)%nat then Chunk (take (S k) (content f)) (rest (S k)) false
  else if decide (size <= S (length (content f)))%nat then Chunk (take (size - 1) (content f)) (rest (size - 1)%nat) false
  else if broken f then Read_error
  else match content f with [] => End_of_file | _ => Chunk (content f) (rest (length (content f))) true end.

Definition BUFSIZE : nat := 4096.

Fixpoint load_lines (fuel : nat) (commands : list PinosCommand) (f : FILE) (line : Z) : outcome (list PinosCommand * option config_error) :=
  match fuel with
  | O => Undef
  | S fuel =>
      match fgets BUFSIZE f with
      | End_of_file => Done (commands, None)
      | Read_error => Done (commands, Some err_read_file)
      | Chunk buf rest eof =>
          let line := u32 (line + 1) in
          let* (commands, err) := parse_line commands (before_nul buf) line in
          match err with
          | Some e => Done (commands, Some e)
          | None => if eof : bool then Done (commands, None) else load_lines fuel commands rest line
          end
      end
  end.

(** [None] is a file that cannot be opened. *)
Definition pinos_daemon_config_load_file (commands : list PinosCommand) (file : option FILE) : outcome (list PinosCommand * option config_error) :=
  match file with
  | None => Done (commands, Some err_open_file)
  | Some f => load_lines (S (S (length (content f)))) commands f 0
  end.

(** With what [getenv] says of [PINOS_CONFIG_FILE] and the files there are. *)
Definition pinos_daemon_config_load (default_file : bytes) (env : option bytes) (fopen : bytes -> option FILE) (commands : list PinosCommand) :
    outcome (list PinosCommand * option config_error) :=
  let filename := match env with Some (c :: s) => c :: s | _ => default_file end in
  pinos_daemon_config_load_file commands (fopen filename).

(** ** [module.c] *)

(** Files as [stat] and [readdir] show them; and the dynamic loader. *)
Class Directories := {
  stat_regular : bytes -> bool;
  stat_directory : bytes -> bool;
  readdir : bytes -> option (list bytes)
}.
Class Loader (K : Type) := {
  dlopen : bytes -> K -> bool * K;
  dlsym_init : bytes -> K -> bool;
  module_init : bytes -> option bytes -> K -> bool * K;
  dlclose : bytes -> K -> K
}.

Section Modules.
Context `{Directories} {K : Type} `{Loader K}.

Definition path_in (path name : bytes) : bytes := path ++ text "/" ++ name.
Definition module_file (path name : bytes) : bytes := path_in path (name ++ text ".so").

(** Down in the directories; [fuel] bounds their depth. *)
Fixpoint find_module (fuel : nat) (path name : bytes) : outcome (option bytes) :=
  match fuel with
  | O => Undef
  | S fuel =>
      if stat_regular (module_file path name) then Done (Some (module_file path name))
      else
        match readdir path with
        | None => Done None
        | Some entries =>
            (fix walk (es : list bytes) : outcome (option bytes) :=
               match es with
               | [] => Done None
               | d_name :: es =>
                   if decide (d_name = text "." \/ d_name = text "..") then walk es
                   else if stat_directory (path_in path d_name) then
                     let* filename := find_module fuel (path_in path d_name) name in
                     match filename with Some f => Done (Some f) | None => walk es end
                   else walk es
               end) entries
        end
  end.

Fixpoint find_in_dirs (fuel : nat) (dirs : list bytes) (name : bytes) : outcome (option bytes) :=
  match dirs with
  | [] => Done None
  | d :: dirs =>
      let* f := find_module fuel d name in
      match f with Some f => Done (Some f) | None => find_in_dirs fuel dirs name end
  end.

(** [PinosModule], as its info describes it. *)
Record PinosModule := mkModule { module_name : bytes; module_filename : bytes; module_args : option bytes }.

(** [env] is [PINOS_MODULE_DIR]. The global of a module is in the list [modules]. When
    [module_init] fails, [pinos_module_destroy] emits a signal that was never
    initialized: it follows a NULL pointer. *)
Definition pinos_module_load (fuel : nat) (moduledir : bytes) (env : option bytes) (name : bytes) (args : option bytes)
    (modules : list PinosModule) (k : K) : outcome ((PinosModule + config_error) * list PinosModule * K) :=
  let* filename :=
    match env with
    | Some dir => let* (l, _) := pinos_split_strv dir (text "/") 0 in find_in_dirs fuel l name
    | None => find_module fuel moduledir name
    end in
  match filename with
  | None => Done (inr (err_module_not_found name), modules, k)
  | Some filename =>
      let '(opened, k) := dlopen filename k in
      if negb opened then Done (inr (err_module_open filename), modules, k)
      else if negb (dlsym_init filename k) then Done (inr (err_not_a_module filename), modules, dlclose filename k)
      else
        let '(ok, k) := module_init filename args k in
        if ok : bool then
          let m := mkModule name filename args in
          Done (inl m, modules ++ [m], k)
        else Undef
  end.

(** [execute_command_module_load] and [pinos_command_run] *)
Definition pinos_command_run (fuel : nat) (moduledir : bytes) (env : option bytes) (command : PinosCommand)
    (modules : list PinosModule) (k : K) : outcome (bool * list PinosModule * K) :=
  match args command !! 1%nat with
  | None => Undef
  | Some name =>
      let* (r, modules, k) := pinos_module_load fuel moduledir env name (args command !! 2%nat) modules k in
      Done (match r with inl _ => true | inr _ => false end, modules, k)
  end.

(** Every command is run, also after one that fails. *)
Fixpoint run_commands (fuel : nat) (moduledir : bytes) (env : option bytes) (commands : list PinosCommand) (ret : bool)
    (modules : list PinosModule) (k : K) : outcome (bool * list PinosModule * K) :=
  match commands with
  | [] => Done (ret, modules, k)
  | c :: commands =>
      let* (ok, modules, k) := pinos_command_run fuel moduledir env c modules k in
      run_commands fuel moduledir env commands (ret && ok) modules k
  end.
(** The commands are freed. *)
Definition pinos_daemon_config_run_commands (fuel : nat) (moduledir : bytes) (env : option bytes) (commands : list PinosCommand)
    (modules : list PinosModule) (k : K) : outcome (bool * list PinosCommand * list PinosModule * K) :=
  let* (ret, modules, k) := run_commands fuel moduledir env commands true modules k in
  Done (ret, [], modules, k).
End Modules.

(** The configuration of the daemon: what is written as a configuration is loaded as it
    was meant, the modules it names are loaded in order, and a module is looked for in
    the directories from the top. Blank lines are refused. *)

(** ** Spans *)

Lemma in_set_spec set c : in_set set c = true <-> c ∈ set.
Proof. apply bool_decide_eq_true. Qed.
Lemma in_set_not set c : in_set set c = false <-> c ∉ set.
Proof. apply bool_decide_eq_false. Qed.

Lemma strspn_app a b set : Forall (fun c => c ∈ set) a -> strspn (a ++ b) set = (length a + strspn b set)%nat.
Proof. induction 1 as [|c a Hc _ IH]; simpl; [done |]. by rewrite (proj2 (in_set_spec set c) Hc), IH. Qed.
Lemma strspn_stop c s set : c ∉ set -> strspn (c :: s) set = 0%nat.
Proof. intros Hc. simpl. by rewrite (proj2 (in_set_not set c) Hc). Qed.
Lemma strcspn_app a b set : Forall (fun c => c ∉ set) a -> strcspn (a ++ b) set = (length a + strcspn b set)%nat.
Proof. induction 1 as [|c a Hc _ IH]; simpl; [done |]. by rewrite (proj2 (in_set_not set c) Hc), IH. Qed.
Lemma strcspn_stop c s set : c ∈ set -> strcspn (c :: s) set = 0%nat.
Proof. intros Hc. simpl. by rewrite (proj2 (in_set_spec set c) Hc). Qed.
Lemma strcspn_all a set : Forall (fun c => c ∉ set) a -> strcspn a set = length a.
Proof. intros Ha. rewrite <- (app_nil_r a) at 1. rewrite strcspn_app by done. simpl. lia. Qed.

(** ** Stripping *)

Lemma last_kept_tail e tail ws l : Forall (fun c => c ∈ ws) tail -> last_kept e tail ws l = l.
Proof. intros Ht. revert e. induction Ht as [|c tail Hc _ IH]; intros e; simpl; [done |]. by rewrite (proj2 (in_set_spec ws c) Hc). Qed.
Lemma last_kept_app a c tail ws : c ∉ ws -> Forall (fun c => c ∈ ws) tail -> forall e l, last_kept e (a ++ c :: tail) ws l = Some (e + length a)%nat.
Proof.
  intros Hc Ht. induction a as [|x a IH]; intros e l; simpl.
  - rewrite (proj2 (in_set_not ws c) Hc). rewrite last_kept_tail by done. f_equal. lia.
  - rewrite IH. f_equal. lia.
Qed.

(** A string that starts with what is kept loses what is not at its end. *)
Lemma strip_end a c tail ws : (forall x l, a ++ [c] = x :: l -> x ∉ ws) -> c ∉ ws -> Forall (fun c => c ∈ ws) tail ->
  pinos_strip (a ++ c :: tail) ws = (a ++ [c], 0%nat).
Proof.
  intros Hfirst Hc Ht. unfold pinos_strip.
  assert (strspn (a ++ c :: tail) ws = 0%nat) as ->.
  { destruct a as [|x a]; simpl; [by rewrite (proj2 (in_set_not ws c) Hc) |].
    by rewrite (proj2 (in_set_not ws x) (Hfirst x (a ++ [c]) eq_refl)). }
  rewrite drop_0, last_kept_app by done. f_equal. simpl. rewrite cons_middle, app_assoc. rewrite take_app_length'; [done |]. rewrite length_app. simpl. lia.
Qed.

(** ** Splitting *)

Lemma walk_token pre tok sep rest delimiter state : default 0%nat state = length pre -> tok <> [] ->
  Forall (fun c => c ∉ delimiter) tok -> Forall (fun c => c ∈ delimiter) sep -> (rest = [] \/ exists c s, rest = c :: s /\ c ∉ delimiter /\ sep <> []) ->
  pinos_split_walk (pre ++ tok ++ sep ++ rest) delimiter state = (Some (length pre, length tok), Some (length (pre ++ tok ++ sep))).
Proof.
  intros Hs Hne Htok Hsep Hrest. unfold pinos_split_walk. rewrite Hs, drop_app_length.
  destruct (tok ++ sep ++ rest) as [|x l] eqn:Heq; [by destruct tok |]. rewrite <- Heq.
  assert (strcspn (tok ++ sep ++ rest) delimiter = length tok) as Hlen.
  { rewrite strcspn_app by done. destruct sep as [|d sep]; simpl.
    - destruct Hrest as [-> | (c & s & -> & _ & Hsep')]; [simpl; lia | done].
    - apply Forall_cons in Hsep as [Hd _]. rewrite (proj2 (in_set_spec delimiter d) Hd). lia. }
  rewrite Hlen. f_equal. f_equal. rewrite app_assoc, drop_app_length' by (by rewrite length_app).
  assert (strspn (sep ++ rest) delimiter = length sep) as ->.
  { rewrite strspn_app by done. destruct Hrest as [-> | (c & s & -> & Hc & _)]; [simpl; lia |]. rewrite strspn_stop by done. lia. }
  rewrite !length_app. lia.
Qed.
Lemma walk_end str delimiter state : default 0%nat state = length str -> pinos_split_walk str delimiter state = (None, state).
Proof. intros Hs. unfold pinos_split_walk. by rewrite Hs, drop_all. Qed.

Lemma split_last fuel str delimiter max n p len state arr : (n + 1 <? max) = false ->
  split_loop fuel str delimiter max n (Some (p, len)) state arr = Done (arr ++ [drop p str], n + 1).
Proof. intros Hn. destruct fuel; simpl; by rewrite Hn. Qed.
Lemma split_none fuel str delimiter max n state arr : split_loop fuel str delimiter max n None state arr = Done (arr, n).
Proof. by destruct fuel. Qed.

(** ** What a configuration is *)

(** A command line: blanks, the name of the module, its arguments behind more blanks,
    white space and a comment at the end. *)
Record load_line := mkLoad {
  blanks : bytes;
  load_name : bytes;
  load_args : option (bytes * bytes);
  trailing : bytes;
  comment : option bytes
}.
Inductive entry := Comment (s : bytes) | Load (l : load_line).

Definition command_text (l : load_line) : bytes :=
  text "load-module" ++ blanks l ++ load_name l ++ match load_args l with Some (b, a) => b ++ a | None => [] end.
Definition print_load (l : load_line) : bytes :=
  command_text l ++ trailing l ++ match comment l with Some c => text "#" ++ c | None => [] end.
Definition print_entry (e : entry) : bytes := match e with Comment s => text "#" ++ s | Load l => print_load l end.
Definition print_config (es : list entry) : bytes := concat (map (fun e => print_entry e ++ [10]) es).

Definition plain_char (c : Z) : Prop := c <> 0 /\ c <> 10.
Definition args_char (c : Z) : Prop := plain_char c /\ c <> 35.
Definition word_char (c : Z) : Prop := args_char c /\ c ∉ line_whitespace.
Record good_load (l : load_line) : Prop := {
  good_blanks : blanks l <> [] /\ Forall (fun c => c ∈ whitespace) (blanks l);
  good_name : load_name l <> [] /\ Forall word_char (load_name l);
  good_args : match load_args l with
    | Some (b, a) => b <> [] /\ Forall (fun c => c ∈ whitespace) b /\ Forall args_char a /\
        (exists c s, a = c :: s /\ c ∉ line_whitespace) /\ exists s c, a = s ++ [c] /\ c ∉ line_whitespace
    | None => True
    end;
  good_trailing : Forall (fun c => c ∈ [13; 32; 9]) (trailing l);
  good_comment : match comment l with Some c => Forall plain_char c | None => True end
}.
Definition good_entry (e : entry) : Prop :=
  (length (print_entry e) < BUFSIZE - 1)%nat /\ match e with Comment s => Forall plain_char s | Load l => good_load l end.

(** What is to be loaded, and the commands for it. *)
Definition request_of (e : entry) : option (bytes * option bytes) :=
  match e with Comment _ => None | Load l => Some (load_name l, snd <$> load_args l) end.
Definition command_of (r : bytes * option bytes) : PinosCommand :=
  match r with
  | (name, Some a) => mkCommand [text "load-module"; name; a] 3
  | (name, None) => mkCommand [text "load-module"; name] 2
  end.

(** ** One line *)

Lemma whitespace_line c : c ∈ whitespace -> c ∈ line_whitespace.
Proof. unfold whitespace, line_whitespace. rewrite !elem_of_app. tauto. Qed.
Lemma word_not_space c : word_char c -> c ∉ whitespace.
Proof. intros [_ Hc] Hin. by apply Hc, whitespace_line. Qed.
Lemma load_module_word : Forall word_char (text "load-module").
Proof. unfold word_char, args_char, plain_char, line_whitespace. repeat constructor; try done; vm_compute; set_solver. Qed.

Lemma split_command l : good_load l ->
  pinos_split_strv (command_text l) whitespace 3 =
  Done (args (command_of (load_name l, snd <$> load_args l)), n_args (command_of (load_name l, snd <$> load_args l))).
Proof.
  intros [[Hb Hbs] [Hn Hns] Ha _ _]. unfold pinos_split_strv, command_text. set (A := text "load-module").
  assert (Forall (fun c => c ∉ whitespace) A) as HA by (eapply Forall_impl; [exact load_module_word | apply word_not_space]).
  assert (Forall (fun c => c ∉ whitespace) (load_name l)) as HN by (eapply Forall_impl; [exact Hns | apply word_not_space]).
  set (R := match load_args l with Some (b, a) => b ++ a | None => [] end).
  destruct (load_name l) as [|n0 ns] eqn:Hname; [done |]. rewrite <- Hname in *. clear Hn.
  assert (pinos_split_walk (A ++ blanks l ++ load_name l ++ R) whitespace None = (Some (0%nat, length A), Some (length (A ++ blanks l)))) as ->.
  { apply (walk_token [] A (blanks l) (load_name l ++ R) whitespace None); [done.. |]. right. exists n0, (ns ++ R). rewrite Hname.
    split_and!; [done | | done]. rewrite Hname in HN. by apply Forall_cons in HN as [? _]. }
  set (str := A ++ blanks l ++ load_name l ++ R). cbn [split_loop]. change (0 + 1 <? 3) with true. cbn iota.
  change (drop 0 str) with str. replace (take (length A) str) with A by (unfold str; by rewrite take_app_length). simpl app at 1.
  assert (length str = S (length A - 1 + length (blanks l) + length (load_name l) + length R))%nat as Hlen by (unfold str; rewrite !length_app; unfold A; simpl; lia).
  rewrite Hlen. unfold R in *. destruct (load_args l) as [[b a] |] eqn:Hargs.
  - destruct Ha as (Hb0 & Hbs' & Has & (a0 & as' & Ha0 & Ha0s) & _). cbn [fmap option_fmap option_map snd].
    assert (a0 ∉ whitespace) as Ha0w by (intros Hin; by apply Ha0s, whitespace_line).
    replace str with ((A ++ blanks l) ++ load_name l ++ b ++ a) at 1 by (unfold str; by rewrite <- app_assoc).
    rewrite (walk_token (A ++ blanks l) (load_name l) b a); [| done | by rewrite Hname | done.. | right; by exists a0, as'].
    cbn [split_loop]. change (0 + 1 + 1 <? 3) with true. cbn iota.
    replace (take (length (load_name l)) (drop (length (A ++ blanks l)) str)) with (load_name l).
    2: { unfold str. rewrite (app_assoc A), drop_app_length, take_app_length. done. }
    replace str with (((A ++ blanks l) ++ load_name l ++ b) ++ a ++ [] ++ []) at 1 by (unfold str; by rewrite !app_nil_r, <- !app_assoc).
    unfold pinos_split_walk. cbn [default]. unfold id. rewrite drop_app_length.
    destruct (a ++ [] ++ []) as [|x y] eqn:Hx; [rewrite Ha0 in Hx; done |]. rewrite split_last by done.
    replace (drop (length ((A ++ blanks l) ++ load_name l ++ b)) str) with a; [done |].
    replace str with (((A ++ blanks l) ++ load_name l ++ b) ++ a) by (unfold str; by rewrite <- !app_assoc). by rewrite drop_app_length.
  - cbn [fmap option_fmap option_map].
    replace str with ((A ++ blanks l) ++ load_name l ++ [] ++ []) at 1 by (unfold str; by rewrite <- app_assoc).
    rewrite (walk_token (A ++ blanks l) (load_name l) [] []); [| done | by rewrite Hname | done | constructor | by left].
    cbn [split_loop]. change (0 + 1 + 1 <? 3) with true. cbn iota.
    replace (take (length (load_name l)) (drop (length (A ++ blanks l)) str)) with (load_name l).
    2: { unfold str. rewrite (app_assoc A), drop_app_length, take_app_length. done. }
    rewrite walk_end by (unfold str; simpl; rewrite !length_app; simpl; lia). by rewrite split_none.
Qed.

Lemma Forall_app_2 {A} (P : A -> Prop) a b : Forall P a -> Forall P b -> Forall P (a ++ b).
Proof. intros Ha Hb. by apply Forall_app. Qed.
Lemma blank_char c : c ∈ line_whitespace -> c <> 10 -> args_char c.
Proof. unfold args_char, plain_char, line_whitespace. rewrite !elem_of_app. cbn. rewrite !elem_of_cons, !elem_of_nil. lia. Qed.
Lemma blanks_args b : Forall (fun c => c ∈ whitespace) b -> Forall args_char b.
Proof.
  intros Hb. eapply Forall_impl; [exact Hb |]. intros c Hc. apply blank_char; [by apply whitespace_line |]. intros ->. revert Hc. vm_compute. set_solver.
Qed.

(** A command has no newline and no comment, and ends with what is kept. *)
Lemma command_chars l : good_load l -> Forall args_char (command_text l).
Proof.
  intros [[_ Hb] [_ Hn] Ha _ _]. unfold command_text. apply Forall_app_2; [eapply Forall_impl; [exact load_module_word | by intros c []] |].
  apply Forall_app_2; [by apply blanks_args |]. apply Forall_app_2; [eapply Forall_impl; [exact Hn | by intros c []] |].
  destruct (load_args l) as [[b a] |]; [| constructor]. destruct Ha as (_ & Hb' & Ha & _). apply Forall_app_2; [by apply blanks_args | done].
Qed.
Lemma command_end l : good_load l -> exists s c, command_text l = s ++ [c] /\ c ∉ line_whitespace.
Proof.
  intros [_ [Hne Hn] Ha _ _]. unfold command_text. destruct (load_args l) as [[b a] |].
  - destruct Ha as (_ & _ & _ & _ & s & c & -> & Hc). exists (text "load-module" ++ blanks l ++ load_name l ++ b ++ s), c. by rewrite <- !app_assoc.
  - rewrite app_nil_r. destruct (load_name l) as [|c s _] using rev_ind; [done |]. apply Forall_app in Hn as [_ Hc]. apply Forall_cons in Hc as [[_ Hc] _].
    exists (text "load-module" ++ blanks l ++ s), c. by rewrite <- !app_assoc.
Qed.
Lemma command_name l : good_load l -> take (strcspn (command_text l) whitespace) (command_text l) = text "load-module".
Proof.
  intros [[Hne Hb] _ _ _ _]. unfold command_text. rewrite strcspn_app by (eapply Forall_impl; [exact load_module_word | apply word_not_space]).
  destruct (blanks l) as [|d ds]; [done |]. apply Forall_cons in Hb as [Hd _]. cbn [app]. rewrite strcspn_stop by done. by rewrite Nat.add_0_r, take_app_length.
Qed.

Lemma trailing_line t : Forall (fun c => c ∈ [13; 32; 9]) t -> Forall (fun c => c ∈ line_whitespace) t /\ Forall args_char t.
Proof.
  intros Ht. split; (eapply Forall_impl; [exact Ht |]); intros c; rewrite !elem_of_cons, elem_of_nil; unfold line_whitespace, args_char, plain_char; rewrite ?elem_of_app; cbn; rewrite ?elem_of_cons; lia.
Qed.

Lemma not_hash s : Forall args_char s -> Forall (fun c => c ∉ text "#") s.
Proof. intros Hs. eapply Forall_impl; [exact Hs |]. intros c [_ Hc]. cbn. by rewrite list_elem_of_singleton. Qed.

(** A good command line adds its command. *)
Lemma parse_load commands l n : good_load l ->
  parse_line commands (print_load l ++ [10]) n = Done (commands ++ [command_of (load_name l, snd <$> load_args l)], None).
Proof.
  intros Hl. destruct (command_end l Hl) as (s & c & Hend & Hc). destruct (trailing_line (trailing l) (good_trailing l Hl)) as [Ht1 Ht2].
  assert (exists tail, take (strcspn (print_load l ++ [10]) (text "#")) (print_load l ++ [10]) = s ++ c :: tail /\ Forall (fun c => c ∈ line_whitespace) tail) as (tail & Htake & Htail).
  { unfold print_load. rewrite Hend. destruct (comment l) as [cm |].
    - exists (trailing l). split; [| done]. rewrite <- !app_assoc, (app_assoc s), (app_assoc (s ++ [c])).
      rewrite strcspn_app by (apply not_hash, Forall_app_2; [rewrite <- Hend; by apply command_chars | done]). cbn [text map list_ascii_of_string app].
      rewrite strcspn_stop by (by left). rewrite Nat.add_0_r, take_app_length. by rewrite <- app_assoc.
    - exists (trailing l ++ [10]). split; [| by apply Forall_app_2; [| repeat constructor; vm_compute; set_solver]].
      rewrite app_nil_r. rewrite strcspn_all.
      + rewrite firstn_all. by rewrite <- !app_assoc.
      + apply Forall_app_2; [apply not_hash, Forall_app_2; [rewrite <- Hend; by apply command_chars | done] |]. repeat constructor. cbn. by rewrite list_elem_of_singleton. }
  unfold parse_line. rewrite Htake.
  rewrite (strip_end s c tail line_whitespace); [| | done | done].
  2: { intros x y Heq. rewrite <- Hend in Heq. unfold command_text in Heq. injection Heq as <- _. vm_compute. set_solver. }
  rewrite <- Hend. destruct (command_text l) as [|x y] eqn:Htext; [by destruct s |]. rewrite <- Htext.
  unfold pinos_command_parse. rewrite command_name by done. cbn [find_parser parsers]. rewrite decide_True by done.
  unfold parse_command_module_load. rewrite split_command by done. cbn [obind]. destruct (load_args l) as [[b a] |]; done.
Qed.

Lemma parse_comment commands s n : parse_line commands (text "#" ++ s) n = Done (commands, None).
Proof. done. Qed.

Lemma before_nul_plain s : Forall plain_char s -> before_nul (s ++ [10]) = s ++ [10].
Proof.
  intros Hs. unfold before_nul. rewrite strcspn_all; [apply firstn_all |]. apply Forall_app_2; [| repeat constructor; by rewrite list_elem_of_singleton].
  eapply Forall_impl; [exact Hs |]. intros c [Hc _]. by rewrite list_elem_of_singleton.
Qed.
Lemma entry_plain e : good_entry e -> Forall plain_char (print_entry e).
Proof.
  intros [_ He]. destruct e as [s | l]; simpl.
  - by constructor.
  - unfold print_load. apply Forall_app_2; [eapply Forall_impl; [by apply command_chars | by intros c []] |].
    apply Forall_app_2; [eapply Forall_impl; [apply (trailing_line (trailing l) (good_trailing l He)) | by intros c []] |].
    pose proof (good_comment l He) as Hc. destruct (comment l); [by constructor | constructor].
Qed.

Lemma parse_entry commands e n : good_entry e ->
  parse_line commands (before_nul (print_entry e ++ [10])) n = Done (commands ++ map command_of (option_list (request_of e)), None).
Proof.
  intros He. rewrite before_nul_plain by (by apply entry_plain). destruct He as [_ He]. destruct e as [s | l]; simpl.
  - by rewrite app_nil_r.
  - by apply parse_load.
Qed.
Lemma read_entry e rest err : good_entry e ->
  fgets BUFSIZE (mkFile (print_entry e ++ [10] ++ rest) err) = Chunk (print_entry e ++ [10]) (mkFile rest err) false.
Proof.
  intros He. pose proof (entry_plain e He) as Hp. destruct He as [Hlen _]. unfold fgets. cbn [content broken].
  rewrite strcspn_app by (eapply Forall_impl; [exact Hp |]; intros c [_ Hc]; by rewrite list_elem_of_singleton). cbn [app].
  rewrite strcspn_stop by (by left). rewrite Nat.add_0_r, decide_True by (rewrite length_app; cbn [length]; unfold BUFSIZE in *; lia).
  rewrite cons_middle, app_assoc. assert (S (length (print_entry e)) = length (print_entry e ++ [10])) as -> by (rewrite length_app; simpl; lia).
  by rewrite take_app_length, drop_app_length.
Qed.

Definition requests (es : list entry) : list (bytes * option bytes) := omap request_of es.

(** The lines of the entries, and then what follows. *)
Lemma load_entries es : Forall good_entry es -> forall fuel commands rest broken line, (length es <= fuel)%nat ->
  exists line', load_lines fuel commands (mkFile (print_config es ++ rest) broken) line =
    load_lines (fuel - length es) (commands ++ map command_of (requests es)) (mkFile rest broken) line'.
Proof.
  induction 1 as [|e es He _ IH]; intros fuel commands rest broken line Hf.
  - exists line. cbn. by rewrite Nat.sub_0_r, app_nil_r.
  - destruct fuel as [|fuel]; [simpl in Hf; lia |]. unfold print_config. cbn [map concat load_lines]. fold (print_config es).
    rewrite <- !app_assoc. rewrite read_entry by done. rewrite parse_entry by done. cbn [obind].
    destruct (IH fuel (commands ++ map command_of (option_list (request_of e))) rest broken (u32 (line + 1))) as [line' ->]; [simpl in Hf; lia |].
    exists line'. f_equal. rewrite <- app_assoc. f_equal. cbn [requests omap list_omap]. by destruct (request_of e).
Qed.
Lemma print_length es : (length es <= length (print_config es))%nat.
Proof. induction es as [|e es IH]; [done |]. unfold print_config in *. cbn [map concat length]. rewrite !length_app. simpl. lia. Qed.

(** A line of white space only is not an empty line: what [pinos_strip] returns is not
    looked at, and a file with such a line is refused. *)
Lemma blank_line_refused es rest b : Forall good_entry es -> Forall (fun c => c ∈ line_whitespace /\ c <> 10) b -> (length b < BUFSIZE - 1)%nat ->
  exists line name, pinos_daemon_config_load_file [] (Some (mkFile (print_config es ++ b ++ [10] ++ rest) false)) =
    Done (map command_of (requests es), Some (err_at_line line (err_no_command name))).
Proof.
  intros Hes Hb Hlen. unfold pinos_daemon_config_load_file. cbn [content].
  set (fuel := S (S (length (print_config es ++ b ++ [10] ++ rest)))).
  assert (exists k, fuel - length es = S k)%nat as [k Hk].
  { exists (fuel - length es - 1)%nat. pose proof (print_length es). unfold fuel. rewrite length_app. lia. }
  destruct (load_entries es Hes fuel [] (b ++ [10] ++ rest) false 0) as [line ->]; [unfold fuel; pose proof (print_length es); rewrite length_app; lia |].
  rewrite Hk. cbn [load_lines]. rewrite app_nil_l.
  assert (fgets BUFSIZE (mkFile (b ++ [10] ++ rest) false) = Chunk (b ++ [10]) (mkFile rest false) false) as ->.
  { unfold fgets. cbn [content broken]. rewrite strcspn_app by (eapply Forall_impl; [exact Hb |]; intros c [_ Hc]; by rewrite list_elem_of_singleton). cbn [app].
    rewrite strcspn_stop by (by left). rewrite Nat.add_0_r, decide_True by (rewrite length_app; cbn [length]; unfold BUFSIZE in *; lia).
    rewrite cons_middle, app_assoc. assert (S (length b) = length (b ++ [10])) as -> by (rewrite length_app; simpl; lia).
    by rewrite take_app_length, drop_app_length. }
  assert (forall c, c ∈ line_whitespace -> c <> 0 /\ c <> 35) as Hws by (intros c; unfold line_whitespace; rewrite elem_of_app; cbn; rewrite !elem_of_cons, elem_of_nil; lia).
  assert (before_nul (b ++ [10]) = b ++ [10]) as ->.
  { apply before_nul_plain. eapply Forall_impl; [exact Hb |]. intros c [Hc Hn]. split; [by apply Hws | done]. }
  assert (Forall (fun c => c ∈ line_whitespace) (b ++ [10])) as Hall by (apply Forall_app_2; [eapply Forall_impl; [exact Hb | by intros c []] | repeat constructor; vm_compute; set_solver]).
  assert (parse_line (map command_of (requests es)) (b ++ [10]) (u32 (line + 1)) =
    Done (map command_of (requests es), Some (err_at_line (u32 (line + 1)) (err_no_command (take (strcspn (b ++ [10]) whitespace) (b ++ [10])))))) as ->.
  { unfold parse_line. rewrite strcspn_all by (eapply Forall_impl; [exact Hall |]; intros c Hc; cbn; rewrite list_elem_of_singleton; by apply Hws). rewrite firstn_all.
    unfold pinos_strip. assert (strspn (b ++ [10]) line_whitespace = length (b ++ [10])) as ->.
    { rewrite <- (app_nil_r (b ++ [10])) at 1. rewrite strspn_app by done. simpl. lia. }
    rewrite drop_all, firstn_all. cbn [last_kept]. destruct (b ++ [10]) as [|x y] eqn:Heq; [by destruct b |]. rewrite <- Heq in *.
    unfold pinos_command_parse. cbn [find_parser parsers]. rewrite decide_False; [done |].
    intros Hname. assert (Forall (fun c => c ∈ line_whitespace) (text "load-module")) as Hbad by (rewrite Hname; by apply Forall_take).
    apply Forall_cons in Hbad as [Hbad _]. revert Hbad. vm_compute. set_solver. }
  cbn [obind]. by eexists _, _.
Qed.

(** ** Running the commands *)

Section Run.
Context `{Directories} {K : Type} `{Loader K} (fuel : nat) (moduledir : bytes) (env : option bytes).

(** Loading modules one after the other, whether or not those before could be loaded. *)
Fixpoint load_all (rs : list (bytes * option bytes)) (ret : bool) (modules : list PinosModule) (k : K) : outcome (bool * list PinosModule * K) :=
  match rs with
  | [] => Done (ret, modules, k)
  | (name, args) :: rs =>
      let* (r, modules, k) := pinos_module_load fuel moduledir env name args modules k in
      load_all rs (ret && match r with inl _ => true | inr _ => false end) modules k
  end.

Lemma run_commands_loads rs : forall ret modules k,
  run_commands fuel moduledir env (map command_of rs) ret modules k = load_all rs ret modules k.
Proof.
  induction rs as [|[name o] rs IH]; intros ret modules k; [done |]. cbn [map run_commands load_all].
  destruct o as [a |]; unfold pinos_command_run; cbn [command_of args lookup list_lookup];
    (destruct (pinos_module_load fuel moduledir env name _ modules k) as [[[r m] k'] | |]; [cbn [obind]; apply IH | done..]).
Qed.

(** C24: A configuration, a sequence of comments and of command lines with any blanks
    between their words, white space and a comment behind them, is read back as it was
    written: one command for every command line, in order. Running them loads the
    modules they name, in order and with their arguments, and succeeds when every one
    can be loaded. *)
Theorem config_loads es modules k :
  Forall good_entry es ->
  pinos_daemon_config_load_file [] (Some (mkFile (print_config es) false)) = Done (map command_of (requests es), None) /\
  pinos_daemon_config_run_commands fuel moduledir env (map command_of (requests es)) modules k =
    let* (ret, modules, k) := load_all (requests es) true modules k in Done (ret, [], modules, k).
Proof.
  intros Hes. split.
  - unfold pinos_daemon_config_load_file. cbn [content]. pose proof (print_length es).
    destruct (load_entries es Hes (S (S (length (print_config es)))) [] [] false 0) as [line Hl]; [lia |]. rewrite app_nil_r in Hl. rewrite Hl, app_nil_l.
    destruct (S (S (length (print_config es))) - length es)%nat as [|k'] eqn:Hk; [lia |]. done.
  - unfold pinos_daemon_config_run_commands. by rewrite run_commands_loads.
Qed.
End Run.

(** ** Looking for a module *)

Section Search.
Context `{Directories}.

(** The directories below, but not the two every directory has. *)
Definition below (path : bytes) : list bytes :=
  match readdir path with
  | None => []
  | Some entries => filter (fun d => ~ (d = text "." \/ d = text "..") /\ stat_directory (path_in path d) = true) entries
  end.
(** No directory is deeper. *)
Fixpoint within (fuel : nat) (path : bytes) : Prop :=
  match fuel with O => False | S fuel => Forall (fun d => within fuel (path_in path d)) (below path) end.
(** Where the file may be: first in the directory, then in those below, in their order. *)
Fixpoint candidates (fuel : nat) (path name : bytes) : list bytes :=
  match fuel with
  | O => []
  | S fuel => module_file path name :: flat_map (fun d => candidates fuel (path_in path d) name) (below path)
  end.

Lemma find_app {A} (f : A -> bool) a b : List.find f (a ++ b) = match List.find f a with Some x => Some x | None => List.find f b end.
Proof. induction a as [|x a IH]; simpl; [done |]. by destruct (f x). Qed.

(** The module that is found is the first regular file of its name, from the top; and
    when there is one it is found. *)
Lemma find_module_first fuel : forall path name, within fuel path ->
  find_module fuel path name = Done (List.find stat_regular (candidates fuel path name)).
Proof.
  induction fuel as [|fuel IH]; intros path name; [done |]. cbn [within find_module candidates List.find]. destruct (stat_regular _); [done |].
  unfold below. destruct (readdir path) as [entries |]; [| done]. intros Hall. induction entries as [|d entries IHe]; [done |].
  destruct (decide (d = text "." \/ d = text "..")) as [Hd | Hd].
  - rewrite filter_cons_False in Hall |- * by (intros [Hn _]; by apply Hn). by apply IHe.
  - destruct (stat_directory (path_in path d)) eqn:Hs.
    + rewrite filter_cons_True in Hall |- * by done. apply Forall_cons in Hall as [Hd' Hall]. cbn [flat_map]. rewrite find_app, (IH _ name Hd'). cbn [obind].
      destruct (List.find stat_regular (candidates fuel (path_in path d) name)); [done |]. by apply IHe.
    + rewrite filter_cons_False in Hall |- * by (intros [_ Hn]; congruence). by apply IHe.
Qed.
End Search.

(** ** A daemon starts *)

(** One directory with one below it, where the modules are. *)
#[local] Instance sample_directories : Directories := {|
  stat_regular p := bool_decide (p ∈ [text "/lib/pinos/native.so"; text "/lib/pinos/spa.so"; text "/lib/broken.so"]);
  stat_directory p := bool_decide (p ∈ [text "/lib"; text "/lib/pinos"]);
  readdir p := if decide (p = text "/lib") then Some [text "."; text "broken.so"; text "pinos"; text ".."]
               else if decide (p = text "/lib/pinos") then Some [text "."; text ".."; text "native.so"; text "spa.so"] else None
|}.
(** Everything can be opened and starts; what was started, the last first. *)
#[local] Instance sample_loader : Loader (list (bytes * option bytes)) := {|
  dlopen f k := (true, k);
  dlsym_init f k := bool_decide (f <> text "/lib/broken.so");
  module_init f a k := (true, (f, a) :: k);
  dlclose f k := k
|}.

Definition sample_config : list entry :=
  [Comment (text "load-module mixer"); Load (mkLoad (text " ") (text "native") None [] None);
   Load (mkLoad (text "  ") (text "spa") (Some (text " ", text "--pattern snow")) (text " ") (Some (text " a test")));
   Load (mkLoad (text " ") (text "broken") None [13] None)].

Lemma sample_config_good : Forall good_entry sample_config.
Proof.
  unfold sample_config. repeat (apply Forall_cons; split); [.. | constructor].
  all: split; [vm_compute; lia |].
  - repeat constructor; done.
  - split; cbn [blanks load_name load_args trailing comment]; try done; split; try done; repeat constructor; try done; vm_compute; set_solver.
  - split; cbn [blanks load_name load_args trailing comment].
    + split; [done |]. repeat constructor; vm_compute; set_solver.
    + split; [done |]. repeat constructor; try done; vm_compute; set_solver.
    + split_and!; [done | repeat constructor; vm_compute; set_solver | repeat constructor; done | |].
      * eexists _, _. split; [reflexivity |]. vm_compute. set_solver.
      * exists (text "--pattern sno"), 119. split; [reflexivity |]. vm_compute. set_solver.
    + repeat constructor; vm_compute; set_solver.
    + repeat constructor; done.
  - split; cbn [blanks load_name load_args trailing comment]; try done; [split; [done |] | split; [done |] |]; repeat constructor; try done; vm_compute; set_solver.
Qed.

Lemma config_loads_witness :
  exists commands modules k,
    pinos_daemon_config_load_file [] (Some (mkFile (print_config sample_config) false)) = Done (commands, None) /\
    pinos_daemon_config_run_commands 3 (text "/lib") None commands [] [] = Done (false, [], modules, k) /\
    modules = [mkModule (text "native") (text "/lib/pinos/native.so") None; mkModule (text "spa") (text "/lib/pinos/spa.so") (Some (text "--pattern snow"))].
Proof.
  destruct (config_loads 3 (text "/lib") None sample_config [] [] sample_config_good) as [Hload Hrun].
  eexists _, _, _. split; [exact Hload |]. rewrite Hrun. split; vm_compute; reflexivity.
Defined.

(** An empty line in the middle. *)
Example empty_line :
  pinos_daemon_config_load_file [] (Some (mkFile (text "load-module native" ++ [10; 10] ++ text "load-module spa") false)) =
  Done ([mkCommand [text "load-module"; text "native"] 2], Some (err_at_line 2 (err_no_command [10]))).
Proof. vm_compute. reflexivity. Qed.

(** A path of several directories in [PINOS_MODULE_DIR] is not split: with 0 for the
    number of tokens the whole string is the first one. *)
Example module_dir_not_split : pinos_split_strv (text "/lib/a:/lib/b") (text "/") 0 = Done ([text "/lib/a:/lib/b"], 1).
Proof. vm_compute. reflexivity. Qed.
